(* ===== verification/_CoqProject ===== *)
-Q . S2P
Prelude.v
Chain.v
Hasher.v
Bytes.v
ByteStream.v
Undoable.v
Vbbm.v
VbbmThms.v
VbbmClaims.v
Vss.v
VssThms.v
VssClaims.v
CopyLocks.v
CopyLocksClaims.v
SlaveNode.v
NodeThms.v
NodePurge.v
VbRing.v
NodeClaims.v
VbClaims.v
SessionManager.v
SessionClaims.v
AutoInc.v
TableLock.v
TableLockClaims.v
ResourceGraph.v
RGThms.v
RGInv.v
RGClaims.v
OidServer.v
OidThms.v
OidClaims.v
Persist.v
PersistClaims.v
ExtentMap.v
ExtentOps.v
ExtentCP.v
ExtentHwm.v
ExtentPart.v
ExtentFile.v
EmThms.v
EmFree.v
EmIndex.v
EmOps.v
EmPlace.v
EmCmds.v
EmHwm.v
EmClaims.v
EmFacts.v
EmCp.v
EmCheck.v
EmFileClaims.v
Worker.v
TableCheck.v
Messages.v
SlaveComm.v
Dbrm.v
CommThms.v
CommSteps.v
Controller.v
Services.v
DbrmServices.v
ControllerThms.v
ControllerClaims.v
WorkerThms.v
WorkerClaims.v
CheckThms.v
CommClaims.v
ServicesClaims.v
ServicesFacts.v
SmFs.v
SmMeta.v
SmJournal.v
SmIo.v
SmThms.v
SmIoThms.v
SmClaims.v
SmLocks.v
SmCache.v
