(* ===== verification/Prelude.v ===== *)
(** * Verification of the ColumnStore Block Resolution Manager and Storage Manager

    The Block Resolution Manager (BRM, src/versioning/BRM) is the part of
    MariaDB ColumnStore that gives a column store multi-version concurrency: it
    knows, for every logical block (LBID), which versions of it exist, where old
    versions lie in the version buffer, which transaction holds which block, and
    it hands out transaction ids, object ids, auto-increment values and table
    locks.  Worker nodes keep the tables in shared memory; the controller node
    serialises the commands that change them, confirms them when every worker
    agreed and undoes them otherwise.

    The storage manager (src/storage-manager/src) is the server below the tables' files: it
    keeps a file as a sequence of objects that may lie in cloud storage, and the writes made
    to an object in a journal beside it.

    ** The parts and the files that model them

    - [Prelude] (this file): machine integers with their wrap-around written out,
      arrays indexed by a C++ [int], the outcomes of a C++ call ([Val], [Exn],
      [Fault]), the state monad [M] the operations are written in, its
      total-correctness triples [wp] and the tactics for them.
    - [Chain]: what VBBM and VSS share, a hash table whose collision lists are
      threaded through an array; walking, inserting into and unlinking from a
      list, the well-formedness predicate [table_ok], the finite map a table
      denotes ([contents]) and the count of live entries.
    - [Hasher]: the Murmur3 hash of src/utils/common/hasher.h.  [Bytes]:
      little-endian integers in files.  [ByteStream] (utils/messageqcpp): messages as
      byte streams, with the vector and set templates.
    - [Undoable] (undoable.cpp): the undo log over an abstract memory, given by the
      class [UndoMem]; the tables instantiate it.  [undoes] is the relation
      the exactness theorems are built on.
    - [Vbbm], [VbbmThms], [VbbmClaims] (vbbm.cpp): the version buffer block map,
      from <LBID, version> to <file, offset>.
    - [Vss], [VssThms], [VssClaims] (vss.cpp): the version substitution structure,
      from <LBID, version> to <in the buffer?, locked?>, with the version
      resolution of queries.
    - [CopyLocks], [CopyLocksClaims] (copylocks.cpp): ranges of blocks that are being
      copied.
    - [SlaveNode], [NodeThms], [NodePurge], [NodeClaims] (slavedbrmnode.cpp, and
      getBlocks of vbbm.cpp and removeEntriesFromDB of vss.cpp, which work on two
      tables): the commands a worker runs on the three tables, their lock flags,
      confirm and undo; the removal of every version of a range of blocks.
    - [VbRing], [VbClaims]: the version buffer files as rings of blocks: getBlocks with
      the ageing of what it overwrites, and beginVBCopy.  [TableCheck], [CheckThms]
      (checkConsistency of vss.cpp, vbbm.cpp and slavedbrmnode.cpp): the consistency check
      of all tables of a worker.
    - [SessionManager], [SessionClaims] (sessionmanagerserver.cpp):
      transaction ids, the semaphore of active transactions, the saved state.
    - [AutoInc] (autoincrementmanager.cpp): auto-increment sequences.
    - [TableLock], [TableLockClaims] (tablelockserver.cpp,
      TableLockInfo of brmtypes.cpp): table locks and their file.
    - [ResourceGraph], [RGThms], [RGInv], [RGClaims] (lbidresourcegraph.cpp,
      rgnode.cpp, resourcenode.cpp, transactionnode.cpp): the graph of
      transactions and blocks with its deadlock detection.
    - [OidServer], [OidThms], [OidClaims] (oidserver.cpp): the bitmap of
      object ids with its free list.
    - [Persist], [PersistClaims] (save, load and growForLoad of vss.cpp
      and vbbm.cpp): the save files, over a device whose reads and writes may
      transfer less than asked.
    - The extent map (extentmap.cpp): [ExtentMap] (extents, tree, index, free-list
      segment, locks, both undo logs), [ExtentOps] (lookups, creating and deleting
      extents, the free list), [ExtentCP] (casual partitioning: the ranges of values),
      [ExtentHwm] (high water marks, rollbacks), [ExtentPart] (listings, logical
      partitions, the consistency check), [ExtentFile] (save and load).  The tree is a
      finite map by first LBID; the order in which an unordered_map is iterated is the
      class [IterOrder].
    - Its theory: [EmThms] (LBIDs owned by ranges), [EmFree] (the free list),
      [EmIndex] (the index), [EmOps] (the invariant [em_inv]), [EmPlace] (where new
      extents go), [EmCmds], [EmHwm], [EmClaims] (command sequences, placement,
      lookups, marks), [EmFacts] (a booted map, undo, corner cases), [EmCp],
      [EmCheck], [EmFileClaims].
    - [Worker], [WorkerThms], [WorkerClaims] (slavedbrmnode.cpp): the worker with all
      its tables: the commands that forward to the extent map, the deletion of OIDs,
      which spans extent map, VSS and VBBM, confirm, undo, save and load.
    - [Messages] (brmtypes.h, brmtypes.cpp): command and error codes, the values that
      messages carry.  [SlaveComm] (slavecomm.cpp): the worker's message handlers, its
      journal and snapshots, replay.  [Dbrm] (dbrm.cpp): the client library, over a
      connection that is a parameter.  [Controller] (masterdbrmnode.cpp): the
      controller with its workers, which execute a message when it is written to them.
    - Their theory: [CommThms] (requests as data: their encoding and their meaning),
      [CommSteps] (every request is read back; one message to one worker),
      [ControllerThms] (the loops over the workers), [ControllerClaims],
      [CommClaims] (with a system of two workers on which the theorems are applied).
    - [Services] (masterdbrmnode.cpp): what the controller serves by itself, on the
      session manager, the OID server, the table locks and the sequences, and the whole
      dispatch.  [DbrmServices] (dbrm.cpp): the client's side of it.  [ServicesClaims] (a
      remote call is a local one), [ServicesFacts] with the modules [LockOwner] (whether
      the owner of a lock is alive is asked of all workers), [Recovery] (reload),
      [Uncommitted] (the extents a transaction has changed) and [ServicesExamples].
    - The storage manager: [SmFs] (its state; system calls on a device whose answers are
      planned, so that any call may fail or transfer a part; the loops around them),
      [SmMeta] (MetadataFile.cpp: the objects of a file, their names, the metadata cache),
      [SmJournal] (Replicator::addJournalEntry and the three merges of IOCoordinator.cpp),
      [SmIo] (read, write, append, truncate, open and deletion of IOCoordinator.cpp).  What
      boost supplies (UUIDs, the parser of a journal's header) and what the object store
      holds are the classes [UuidGen], [JsonHeader] and [CloudStore]; [UuidOk] and
      [JsonHeaderOk] state what the code relies on.  [SmThms], [SmIoThms], [SmClaims]:
      their theory and theorems.  [SmLocks] (RWLock.cpp and the lock table of
      IOCoordinator.cpp): the locks of files, with their theorems.  [SmCache]
      (PrefixCache.cpp): which objects lie in the cache directory, and their eviction.

    ** How the code is modelled

    Every C++ class is a module whose record [t] (or [graph], [node]) has the
    fields of the class; a member function that changes state is a computation in
    [M], a [const] one a function to [outcome].  Definitions keep the source's
    names.  Shared memory is a record of header, hash buckets and entries together
    with the key of the segment; an undo record remembers the segment key, so a
    write through an address of a replaced segment is the fault [StaleAddress].
    An access outside an array is [OutOfBounds], overflow of a counter or of the
    size of a segment past its signed type is [SignedOverflow].  A theorem stated with [wp] says that the call returns, so it
    excludes exceptions and all faults.  The release build is modelled: the checks
    under BRM_DEBUG are not compiled; the assertions of the storage manager are the
    exception [idb_assert] (in the object cache a parameter says whether they are
    compiled).

    Loops over a collision list take the number of entries as fuel; on a
    well-formed table a list has no more entries than the storage, and the [wp]
    theorems show that the fuel is never used up.  [DFSStep] of the resource graph
    takes one more than the number of nodes; each level of the recursion colours a
    new node.  The polling loops take their number of retries from the source.
    Loops over the free list and over lists of extents are structural.  A loop that
    reads a vector from a stream takes the bytes left and one more, replay of a journal
    likewise its length; [send_recv] takes four rounds, of which it uses three; a
    command that the controller repeats takes a number of repetitions, and the theorems
    that say that it returns need one.  The loops of the storage manager around write(2)
    take a round for every planned answer of the device and for every byte, and two more,
    which is enough unless the device transfers nothing for ever without failing (then the
    loop of the code does not end, and [stalled_entry_never_ends] says so); those around
    read(2) two more than there are planned answers.  The loop over a journal takes one
    round more than the journal has bytes, the loops that make objects one round per byte;
    the theorems of [SmClaims] say that the operations return.

    Concurrency is modelled where the code relies on it: calls of the session
    manager and of the resource graph run under their mutex up to a wait on a
    condition variable, and the step relations interleave such runs; the sleeps of
    beginVBCopy give the other processes' effect as a parameter.  The locks of files of the
    storage manager are modelled with a step for every mutex operation, since the hand-over
    from one mutex to the next is what keeps a lock object alive; a thread may hold locks
    of several files and ask for another.  The object cache runs
    under a mutex that eviction gives up while an object is flushed; evictions under way
    are part of the state, and any call may come between their halves.

    ** What the theorems show

    - Tables refine finite maps: any admissible sequence of operations on VBBM and
      VSS, and any sequence on the copy locks over ranges that have blocks, runs to
      completion and leaves the map (the multiset of locks) that the abstract operations
      leave, through growth and hash collisions, as long as a segment's bytes fit an
      [int].
    - The undo log is exact on each table and on the worker node: undoing gives
      back the very same object.
    - Version resolution and snapshot isolation: [lookup] finds the newest visible
      version; a write leaves what other transactions see unchanged and puts the old
      version where the buffer map says; rollback and commit do what they promise.
    - Sessions: the number of active transactions never exceeds the limit in any
      interleaving in which no session waits twice; ids grow across restarts.  Table locks exclude each other and a
      failed save changes nothing.  Auto-increment ranges never overlap.
    - The deadlock check is exact (a cycle is reachable or not), sleeping
      transactions never wait for each other in a circle, and a reservation is
      exclusive.
    - An OID allocation returns free OIDs, marks exactly them, and fails only when
      there is no free run; bit flips are all or nothing.
    - Extent map: in any sequence of commands every LBID is in exactly one extent or
      one free range, and the index lists exactly the extents of the tree; a new
      extent never overlaps another in LBIDs or in its segment file; LBID -> place
      and place -> LBID are inverse; high water marks read back; merging value ranges is taking their hull, and
      a range computed before a write is not accepted; the consistency check accepts
      every consistent map, and what it accepts has no lost or doubled LBIDs; creating
      is undone exactly (the index excepted); the save file is read back.
    - Worker: every sequence of commands keeps all tables consistent with each other;
      deleting OIDs removes the versions of their blocks and nothing else; a rejected
      deletion leaves no trace; saved state is read back.  Save files of VSS and VBBM:
      round trips, and a save that reports success is complete.
    - Messages: every request a client can encode makes the worker's dispatcher call
      the operation that was meant with the arguments that were meant.  The client's
      calls return after at most three exchanges.
    - Controller: any number of workers on a calm network, any sequence of requests whose
      answer is the same on every worker: all workers go through the tables that one
      worker goes through, clients get its answers, and the first worker's journal,
      replayed, reproduces its tables.  A worker that cannot be reached makes the system
      read-only, and every worker has its old tables or those its undoing leaves; halt,
      reload and resume make every worker undo what was pending and bring the system back
      when the undoing agrees.
    - Services: a call of the client library through the controller gives the result of
      the operation on the server's state and has its effect, and no other.  The owner of
      a lock changes exactly when no worker sees its process; the list of extents a
      transaction changed is sorted and exact.
    - Version buffer: in any sequence of allocations no block of a file is given to two
      live versions (with a chunk to spare); getBlocks and beginVBCopy hand out the next
      blocks of the ring and drop from both tables exactly the versions in the chunks they
      enter, or report an overflow; the worker's consistency check of the version tables
      accepts exactly the tables its tests describe, and always ends.
    - Storage manager: any sequence of requests, on a device that transfers as little as it
      likes per call, does to the files what it does to a map from names to byte strings
      (within the writes that leave no gap in the last object); the three merges lay a
      journal over an object in the order of its entries; a device that fails at any call,
      and does not stall for ever, never damages the entries a journal has; the fields of an
      object's name read back.  The locks of files exclude each other, use no deleted lock
      object and leave none behind; they never get stuck when threads that nest them do so
      in one order, and two copies that cross can.  The object cache, filled from its
      directory, never follows an iterator to an erased node as long as no cached key is
      made anew, and an object that is being read is not evicted.
    - Some theorems state behaviour that looks unintended (a re-hash that loses
      entries, undo records and counters that survive when they should not, a slot
      that leaks, a node freed under its thread, header bytes counted as data, a gap that
      shows old bytes, an object that is never evicted, copies that wait for each other, a
      write that never ends).

    ** What is not modelled

    Of the extent map its printing functions, the growth of the boost segments and the
    timed reload of the configuration; of the controller its threads, the reply with the
    system catalog and the opening of connections (parameters of the model); of the client
    library the queries, which forward to the tables in shared memory; the shared-memory
    primitives of the operating system.  Of the storage manager: the
    synchronizer and the downloader (background threads that move objects between the
    cache directory and the object store), the cloud storage back ends, the ownership of
    directories, the tasks that decode requests, copyFile and the listing of directories.
    The other servers of the repository (query execution, primitive processor, write
    engine, administration) are separate programs that use these two. *)

From stdpp Require Import prelude gmap strings.

Local Open Scope Z_scope.

(** ** Machine integers

    Values are mathematical integers; the source's conversions are written
    out with these truncations. *)
Definition u8 (z : Z) : Z := z mod 2 ^ 8.
Definition u16 (z : Z) : Z := z mod 2 ^ 16.
Definition u32 (z : Z) : Z := z mod 2 ^ 32.
Definition u64 (z : Z) : Z := z mod 2 ^ 64.
Definition i32 (z : Z) : Z := (z + 2 ^ 31) mod 2 ^ 32 - 2 ^ 31.
Definition i64 (z : Z) : Z := (z + 2 ^ 63) mod 2 ^ 64 - 2 ^ 63.

Lemma u32_small z : 0 <= z < 2 ^ 32 -> u32 z = z.
Proof. intros. unfold u32. by apply Z.mod_small. Qed.

Lemma u64_small z : 0 <= z < 2 ^ 64 -> u64 z = z.
Proof. intros. unfold u64. by apply Z.mod_small. Qed.

Lemma i32_small z : - 2 ^ 31 <= z < 2 ^ 31 -> i32 z = z.
Proof. intros. unfold i32. rewrite Z.mod_small; lia. Qed.

Lemma i64_small z : - 2 ^ 63 <= z < 2 ^ 63 -> i64 z = z.
Proof. intros. unfold i64. rewrite Z.mod_small; lia. Qed.

Lemma u32_range z : 0 <= u32 z < 2 ^ 32.
Proof. apply Z.mod_pos_bound. lia. Qed.

(** ** Arrays indexed by a C++ [int]

    [zget] is a bounds-checked read, [zset] a write that the model only
    performs after a successful bounds check. *)
Definition zget {A} (l : list A) (i : Z) : option A :=
  if i <? 0 then None else l !! Z.to_nat i.

Definition zset {A} (l : list A) (i : Z) (x : A) : list A :=
  if i <? 0 then l else <[Z.to_nat i := x]> l.

Definition zlen {A} (l : list A) : Z := Z.of_nat (length l).

Section zarray.
Context {A : Type}.
Implicit Types (l : list A) (i j : Z) (x y : A).

Lemma zget_Some_range l i x : zget l i = Some x -> 0 <= i < zlen l.
Proof.
  unfold zget, zlen. destruct (Z.ltb_spec i 0); [done|].
  intros Hl%lookup_lt_Some. lia.
Qed.

Lemma zget_is_Some l i : 0 <= i < zlen l -> exists x, zget l i = Some x.
Proof.
  unfold zget, zlen. intros H. destruct (Z.ltb_spec i 0); [lia|].
  apply lookup_lt_is_Some. lia.
Qed.

Lemma zget_None l i : ~ (0 <= i < zlen l) -> zget l i = None.
Proof.
  unfold zget, zlen. intros H. destruct (Z.ltb_spec i 0); [done|].
  apply lookup_ge_None. lia.
Qed.

Lemma zlen_zset l i x : zlen (zset l i x) = zlen l.
Proof. unfold zset, zlen. destruct (i <? 0); [done|]. by rewrite length_insert. Qed.

Lemma length_zset l i x : length (zset l i x) = length l.
Proof. unfold zset. destruct (i <? 0); [done|]. by rewrite length_insert. Qed.

Lemma zget_zset_eq l i x : 0 <= i < zlen l -> zget (zset l i x) i = Some x.
Proof.
  unfold zget, zset, zlen. intros H. destruct (Z.ltb_spec i 0); [lia|].
  apply list_lookup_insert_eq. lia.
Qed.

Lemma zget_zset_ne l i j x : i <> j -> zget (zset l i x) j = zget l j.
Proof.
  unfold zget, zset. intros H.
  destruct (Z.ltb_spec i 0), (Z.ltb_spec j 0); try done.
  apply list_lookup_insert_ne. lia.
Qed.

Lemma zget_zset_Some l i j x y :
  zget (zset l i x) j = Some y -> (j = i /\ y = x /\ 0 <= i < zlen l) \/ (j <> i /\ zget l j = Some y).
Proof.
  intros H. destruct (decide (j = i)) as [->|Hne].
  - left. pose proof (zget_Some_range _ _ _ H) as Hr. rewrite zlen_zset in Hr.
    rewrite zget_zset_eq in H by done. by simplify_eq.
  - right. by rewrite zget_zset_ne in H by done.
Qed.

Lemma zset_id l i x : zget l i = Some x -> zset l i x = l.
Proof.
  unfold zget, zset. destruct (i <? 0); [done|]. apply list_insert_id.
Qed.

Lemma zset_zset l i x y : zset (zset l i x) i y = zset l i y.
Proof. unfold zset. destruct (i <? 0); [done|]. apply list_insert_insert_eq. Qed.

Lemma zset_comm l i j x y : i <> j -> zset (zset l i x) j y = zset (zset l j y) i x.
Proof.
  unfold zset. intros H. destruct (Z.ltb_spec i 0), (Z.ltb_spec j 0); try done.
  apply list_insert_insert_ne. lia.
Qed.

Lemma zget_replicate n x i : 0 <= i < Z.of_nat n -> zget (replicate n x) i = Some x.
Proof.
  intros H. unfold zget. destruct (Z.ltb_spec i 0); [lia|].
  apply lookup_replicate_2. lia.
Qed.

Lemma zget_replicate_Some n x i y : zget (replicate n x) i = Some y -> y = x.
Proof.
  unfold zget. destruct (i <? 0); [done|]. intros H.
  by apply lookup_replicate in H as [-> _].
Qed.

Lemma zlen_replicate n x : zlen (replicate n x) = Z.of_nat n.
Proof. unfold zlen. by rewrite length_replicate. Qed.
Lemma zget_cons y l i x :
  zget (y :: l) i = Some x <-> (i = 0 /\ x = y) \/ (0 < i /\ zget l (i - 1) = Some x).
Proof.
  unfold zget. destruct (Z.ltb_spec i 0).
  - split; [done|]. lia.
  - destruct (Z.eq_dec i 0) as [->|]; simpl; [naive_solver lia|].
    destruct (Z.ltb_spec (i - 1) 0); [lia|].
    replace (Z.to_nat i) with (Datatypes.S (Z.to_nat (i - 1))) by lia. simpl. naive_solver lia.
Qed.

Lemma zget_take l (n : nat) i x :
  zget (take n l) i = Some x <-> i < Z.of_nat n /\ zget l i = Some x.
Proof.
  unfold zget. destruct (Z.ltb_spec i 0); [naive_solver lia|].
  rewrite lookup_take_Some. split; intros []; split; try done; lia.
Qed.

Lemma zget_ext l l' : (forall i, zget l i = zget l' i) -> l = l'.
Proof.
  intros H. apply list_eq. intros n. specialize (H (Z.of_nat n)). unfold zget in H.
  destruct (Z.ltb_spec (Z.of_nat n) 0); [lia|]. by rewrite Nat2Z.id in H.
Qed.

Lemma filter_zset_perm (P : A -> Prop) `{!forall x, Decision (P x)} l i x y :
  zget l i = Some x -> ~ P x -> P y -> filter P (zset l i y) ≡ₚ y :: filter P l.
Proof.
  unfold zget, zset. destruct (i <? 0); [done|]. generalize (Z.to_nat i) as n.
  induction l as [|z l IH]; intros [|n] Hn Hx Hy; simplify_eq/=.
  - rewrite filter_cons_True, filter_cons_False by done. done.
  - specialize (IH n Hn Hx Hy). rewrite !filter_cons. case_decide; [|done].
    rewrite IH. apply Permutation_swap.
Qed.
End zarray.

Lemma zget_fmap {A B} (f : A -> B) l i : zget (f <$> l) i = f <$> zget l i.
Proof. unfold zget. destruct (i <? 0); [done|]. apply list_lookup_fmap. Qed.

Lemma zlen_fmap {A B} (f : A -> B) l : zlen (f <$> l) = zlen l.
Proof. unfold zlen. by rewrite length_fmap. Qed.

Lemma zlen_app {A} (l l' : list A) : zlen (l ++ l') = zlen l + zlen l'.
Proof. unfold zlen. rewrite length_app. lia. Qed.

(** ** Outcomes of a C++ call

    [Val] is a normal return, [Exn] a C++ exception (caught by the callers'
    [catch] clauses), [Fault] is behaviour the C++ program has no definition
    for (an access outside an array, a write through a stale address, a signed
    overflow, a read of an uninitialised variable, a division by zero), a wait for a lock the caller
    itself holds, or a loop that ran out of the model's fuel. *)
Inductive exn : Type :=
| invalid_argument (what : string)
| logic_error (what : string)
| runtime_error (what : string)
| overflow_error (what : string)
| ios_failure (what : string)
| eof_exception
| idb_assert
| bad_alloc
| idb_except (rc : Z)
| vbbm_buffer_overflow (what : string).

Inductive fault : Type :=
| OutOfBounds | StaleAddress | OutOfFuel | SignedOverflow | Uninitialised | SelfDeadlock
| DivisionByZero.

Inductive outcome (A : Type) : Type :=
| Val (a : A)
| Exn (e : exn)
| Fault (f : fault).
Arguments Val {A} _.
Arguments Exn {A} _.
Arguments Fault {A} _.

Global Instance outcome_ret : MRet outcome := @Val.
Global Instance outcome_bind : MBind outcome := fun A B f o =>
  match o with
  | Val a => f a
  | Exn e => Exn e
  | Fault x => Fault x
  end.

(** An array read in the source: out of range it has no defined behaviour. *)
Definition aget {A} (l : list A) (i : Z) : outcome A :=
  match zget l i with
  | Some x => Val x
  | None => Fault OutOfBounds
  end.

Lemma aget_Val {A} (l : list A) i x : aget l i = Val x <-> zget l i = Some x.
Proof. unfold aget. destruct (zget l i); naive_solver. Qed.

(** A computation over the state [S]; a throw keeps the state reached so far,
    as C++ does. *)
Definition M (S A : Type) : Type := S -> outcome A * S.

Global Instance M_ret {S} : MRet (M S) := fun A a s => (Val a, s).
Global Instance M_bind {S} : MBind (M S) := fun A B f m s =>
  match m s with
  | (Val a, s') => f a s'
  | (Exn e, s') => (Exn e, s')
  | (Fault x, s') => (Fault x, s')
  end.

Section monad_ops.
Context {S : Type}.

Definition gets {A} (f : S -> A) : M S A := fun s => (Val (f s), s).
Definition modify (f : S -> S) : M S unit := fun s => (Val tt, f s).
Definition throw {A} (e : exn) : M S A := fun s => (Exn e, s).
Definition fail_with {A} (x : fault) : M S A := fun s => (Fault x, s).

(** A read-only computation given as an outcome. *)
Definition lift {A} (f : S -> outcome A) : M S A := fun s => (f s, s).

(** [try m catch h]: every C++ exception is handed to [h]; faults are not. *)
Definition try_catch {A} (m : M S A) (h : exn -> M S A) : M S A := fun s =>
  match m s with
  | (Exn e, s') => h e s'
  | r => r
  end.

Definition idbassert (b : S -> bool) : M S unit :=
  fun s => if b s then (Val tt, s) else (Exn idb_assert, s).

(** [for (i = lo; i < lo + n; i++) body] *)
Fixpoint for_up (n : nat) (i : Z) (body : Z -> M S unit) : M S unit :=
  match n with
  | O => mret tt
  | Datatypes.S n' => body i ;; for_up n' (i + 1) body
  end.

(** [for (x : l) body] *)
Fixpoint for_each {A} (l : list A) (body : A -> M S unit) : M S unit :=
  match l with
  | [] => mret tt
  | x :: l' => body x ;; for_each l' body
  end.
End monad_ops.

(** Run a computation on one field of a larger state. *)
Definition zoom {S T A} (get : S -> T) (put : T -> S -> S) (m : M T A) : M S A :=
  fun s => let '(r, t) := m (get s) in (r, put t s).

(** ** Total-correctness triples

    [wp m s Q]: started in [s], [m] returns normally and its result and final
    state satisfy [Q]; exceptions and faults are excluded. *)
Definition wp {S A} (m : M S A) (s : S) (Q : A -> S -> Prop) : Prop :=
  match m s with
  | (Val a, s') => Q a s'
  | _ => False
  end.

Section wp_rules.
Context {S : Type}.
Implicit Types s : S.

Lemma wp_ret {A} (a : A) s (Q : A -> S -> Prop) : Q a s -> wp (mret a) s Q.
Proof. done. Qed.

Lemma wp_bind {A B} (m : M S A) (f : A -> M S B) s (Q : B -> S -> Prop) :
  wp m s (fun a s' => wp (f a) s' Q) -> wp (m ≫= f) s Q.
Proof. unfold wp, mbind, M_bind. by destruct (m s) as [[]?]. Qed.

Lemma wp_bind_assoc {A B C} (m : M S A) (f : A -> M S B) (g : B -> M S C) s (Q : C -> S -> Prop) :
  wp ((m ≫= f) ≫= g) s Q -> wp (m ≫= fun a => f a ≫= g) s Q.
Proof. unfold wp, mbind, M_bind. by destruct (m s) as [[]?]. Qed.

Lemma wp_gets {A} (f : S -> A) s (Q : A -> S -> Prop) : Q (f s) s -> wp (gets f) s Q.
Proof. done. Qed.

Lemma wp_modify (f : S -> S) s (Q : unit -> S -> Prop) : Q tt (f s) -> wp (modify f) s Q.
Proof. done. Qed.

Lemma wp_lift {A} (f : S -> outcome A) s (Q : A -> S -> Prop) a :
  f s = Val a -> Q a s -> wp (lift f) s Q.
Proof. unfold wp, lift. by intros ->. Qed.

Lemma wp_mono {A} (m : M S A) s (P Q : A -> S -> Prop) :
  wp m s P -> (forall a s', P a s' -> Q a s') -> wp m s Q.
Proof. unfold wp. destruct (m s) as [[]?]; naive_solver. Qed.

Lemma wp_run {A} (m : M S A) s (Q : A -> S -> Prop) :
  wp m s Q -> exists a s', m s = (Val a, s') /\ Q a s'.
Proof. unfold wp. destruct (m s) as [[]?]; naive_solver. Qed.

Lemma run_wp {A} (m : M S A) s a s' (Q : A -> S -> Prop) :
  m s = (Val a, s') -> Q a s' -> wp m s Q.
Proof. unfold wp. by intros ->. Qed.

Lemma wp_try {A} (m : M S A) h s (Q : A -> S -> Prop) : wp m s Q -> wp (try_catch m h) s Q.
Proof. unfold wp, try_catch. by destruct (m s) as [[]?]. Qed.

(** The counted-loop rule: an invariant over the loop index. *)
Lemma wp_for_up (I : Z -> S -> Prop) (body : Z -> M S unit) n lo s :
  I lo s ->
  (forall i s', lo <= i < lo + Z.of_nat n -> I i s' -> wp (body i) s' (fun _ => I (i + 1))) ->
  wp (for_up n lo body) s (fun _ => I (lo + Z.of_nat n)).
Proof.
  revert lo s. induction n as [|n IH]; intros lo s HI Hstep.
  - by rewrite Z.add_0_r.
  - simpl. apply wp_bind. eapply wp_mono; [apply Hstep; [lia|done]|].
    intros u s' HI'. simpl in HI'. eapply wp_mono; [apply (IH (lo + 1)); [done|]|].
    + intros i s'' Hi. apply Hstep. lia.
    + intros u' s''. simpl. by replace (lo + 1 + Z.of_nat n) with (lo + Z.of_nat (Datatypes.S n)) by lia.
Qed.

(** The list-loop rule: an invariant over the elements still to visit. *)
Lemma wp_for_each {A} (I : list A -> S -> Prop) (body : A -> M S unit) l s :
  I l s ->
  (forall x l' s', I (x :: l') s' -> wp (body x) s' (fun _ => I l')) ->
  wp (for_each l body) s (fun _ => I []).
Proof.
  revert s. induction l as [|x l IH]; intros s HI Hstep; [done|].
  simpl. apply wp_bind. eapply (wp_mono _ _ (fun _ s0 => I l s0)); [by apply Hstep|].
  intros a s' HI'. by apply IH.
Qed.

Lemma bind_Val {A B} (m : M S A) (f : A -> M S B) s a s' :
  m s = (Val a, s') -> (m ≫= f) s = f a s'.
Proof. unfold mbind, M_bind. by intros ->. Qed.
End wp_rules.

Lemma wp_zoom {S T A} (get : S -> T) (put : T -> S -> S) (m : M T A) s (Q : A -> S -> Prop) :
  wp m (get s) (fun a t => Q a (put t s)) -> wp (zoom get put m) s Q.
Proof. unfold wp, zoom. by destruct (m (get s)) as [[]?]. Qed.

(** One symbolic step of a computation. *)
Ltac wp_step :=
  lazymatch goal with
  | |- wp (mbind _ _) _ _ => apply wp_bind
  | |- wp (mret _) _ _ => apply wp_ret
  | |- wp (gets _) _ _ => apply wp_gets; cbn beta
  | |- wp (modify _) _ _ => apply wp_modify; cbn beta
  | |- wp (zoom _ _ _) _ _ => apply wp_zoom
  | |- wp (try_catch _ _) _ _ => apply wp_try
  end.
Ltac wp_steps := repeat wp_step.

Create HintDb zarr.
Create Rewrite HintDb zarr_rw.
#[export] Hint Rewrite @zlen_zset @length_zset @zset_zset : zarr_rw.
#[export] Hint Resolve zget_Some_range : zarr.

(** Case analysis on the integer comparisons of the source's conditions. *)
Ltac zbool :=
  repeat match goal with
  | |- context [?a =? ?b] => destruct (Z.eqb_spec a b)
  | |- context [?a <? ?b] => destruct (Z.ltb_spec a b)
  | |- context [?a <=? ?b] => destruct (Z.leb_spec a b)
  | H : context [?a =? ?b] |- _ => destruct (Z.eqb_spec a b)
  | H : context [?a <? ?b] |- _ => destruct (Z.ltb_spec a b)
  | H : context [?a <=? ?b] |- _ => destruct (Z.leb_spec a b)
  end; simpl in *.
