(* ===== verification/Chain.v ===== *)
(** * Chained hash tables over a storage array

    The VBBM and the VSS share one shape: an array of buckets holding the index
    of the first entry of a list, an array of entries linked by an index field
    ([-1] ends a list), and a distinguished "empty" key.  This file gives that
    shape once: the predicate [chain] for one list, [table_ok] for the whole
    table, the lemmas for insertion at the head, removal and in-place update,
    and [walk], the read loop
    [while (i != -1) { e = &storage[i]; ...; i = e->next; }]. *)

From S2P Require Import Prelude.
From stdpp Require Import prelude gmap.
Local Open Scope Z_scope.

(** Result of one iteration of a read loop: [return r] or go on. *)
Inductive ctl (R A : Type) : Type :=
| Return (r : R)
| Next (a : A).
Arguments Return {R A} _.
Arguments Next {R A} _.

Section chains.
Context {E : Type} (next : E -> Z).
Implicit Types (st : list E) (l : list (Z * E)) (e : E) (i j : Z).

Inductive chain st : Z -> list (Z * E) -> Prop :=
| chain_nil : chain st (-1) []
| chain_cons i e l :
    zget st i = Some e -> chain st (next e) l -> chain st i ((i, e) :: l).

(** The read loop.  [fuel] bounds the iterations; a list longer than the
    array is cyclic. *)
Fixpoint walk {R A} st (fuel : nat) (i : Z) (body : Z -> E -> A -> ctl R A) (acc : A) :
    outcome (ctl R A) :=
  if i =? -1 then Val (Next acc)
  else match fuel with
       | O => Fault OutOfFuel
       | Datatypes.S f =>
           match zget st i with
           | None => Fault OutOfBounds
           | Some e =>
               match body i e acc with
               | Return r => Val (Return r)
               | Next a => walk st f (next e) body a
               end
           end
       end.

(** The same loop over the list of visited entries. *)
Fixpoint walk_list {R A} l (body : Z -> E -> A -> ctl R A) (acc : A) : ctl R A :=
  match l with
  | [] => Next acc
  | (i, e) :: l' =>
      match body i e acc with
      | Return r => Return r
      | Next a => walk_list l' body a
      end
  end.

Lemma chain_in st i l j e : chain st i l -> (j, e) ∈ l -> zget st j = Some e.
Proof.
  induction 1 as [|i e' l Hg _ IH]; [by intros ?%not_elem_of_nil|].
  intros [Heq|]%elem_of_cons; [by simplify_eq|auto].
Qed.

Lemma chain_det st i l l' : chain st i l -> chain st i l' -> l = l'.
Proof.
  intros H. revert l'. induction H as [|i e l Hg Hc IH]; intros l' H'.
  - inversion H' as [|i e l Hg Hc Hi Hl]; subst; [done|]. apply zget_Some_range in Hg. lia.
  - inversion H' as [Hi|i2 e2 l2 Hg2 Hc2 Hi Hl]; subst.
    + apply zget_Some_range in Hg. lia.
    + simplify_eq. f_equal. by apply IH.
Qed.

Lemma chain_suffix st i l1 j e l2 : chain st i (l1 ++ (j, e) :: l2) -> chain st j ((j, e) :: l2).
Proof.
  revert i. induction l1 as [|[k x] l1 IH]; intros i H; simpl in H.
  - by inversion H; subst.
  - inversion H; subst. eauto.
Qed.

Lemma chain_NoDup st i l : chain st i l -> NoDup l.*1.
Proof.
  induction 1 as [|i e l Hg Hc IH]; [constructor|]. simpl. constructor; [|done].
  intros [[j x] [-> Hin]]%list_elem_of_fmap. simpl in *.
  apply list_elem_of_split in Hin as (l1 & l2 & ->).
  pose proof (chain_suffix _ _ _ _ _ _ Hc) as Hs.
  assert (Hfull : chain st j ((j, e) :: l1 ++ (j, x) :: l2)) by (by constructor).
  pose proof (chain_det _ _ _ _ Hs Hfull) as Heq. apply (f_equal length) in Heq.
  simpl in Heq. rewrite length_app in Heq. simpl in Heq. lia.
Qed.

Lemma chain_fst_range st i l j : chain st i l -> j ∈ l.*1 -> 0 <= j < zlen st.
Proof.
  intros Hc [[k e] [-> Hin]]%list_elem_of_fmap. simpl.
  eauto using chain_in, zget_Some_range.
Qed.

(** A list never has more elements than the array: the fuel [length st] of
    the read loops is enough. *)
Lemma chain_length st i l : chain st i l -> (length l <= length st)%nat.
Proof.
  intros Hc. pose proof (chain_NoDup _ _ _ Hc) as Hnd.
  assert (Hinc : Z.to_nat <$> l.*1 ⊆+ seq 0 (length st)).
  { apply NoDup_submseteq.
    - apply NoDup_fmap_2_strong; [|done].
      intros x y Hx Hy Heq. pose proof (chain_fst_range _ _ _ _ Hc Hx).
      pose proof (chain_fst_range _ _ _ _ Hc Hy). lia.
    - intros n [j [-> Hj]]%list_elem_of_fmap.
      pose proof (chain_fst_range _ _ _ _ Hc Hj) as Hr. unfold zlen in Hr.
      apply elem_of_seq. lia. }
  apply submseteq_length in Hinc. rewrite !length_fmap, length_seq in Hinc. lia.
Qed.

Lemma walk_chain {R A} st i l (body : Z -> E -> A -> ctl R A) acc fuel :
  chain st i l -> (length l <= fuel)%nat ->
  walk st fuel i body acc = Val (walk_list l body acc).
Proof.
  intros Hc. revert fuel acc. induction Hc as [|i e l Hg Hc IH]; intros fuel acc Hf.
  - destruct fuel; done.
  - destruct fuel as [|fuel]; simpl in Hf; [lia|]. simpl.
    pose proof (zget_Some_range _ _ _ Hg). destruct (Z.eqb_spec i (-1)); [lia|].
    rewrite Hg. destruct (body i e acc); [done|]. apply IH. lia.
Qed.

Lemma chain_frame st i l j e' :
  chain st i l -> j ∉ l.*1 -> chain (zset st j e') i l.
Proof.
  induction 1 as [|i e l Hg Hc IH]; [constructor|]. simpl.
  intros [Hne Hni]%not_elem_of_cons. constructor; [|auto].
  by rewrite zget_zset_ne by done.
Qed.

(** Updating an entry without touching its link keeps the visited indices. *)
Definition upd_at (j : Z) (e' : E) (l : list (Z * E)) : list (Z * E) :=
  (fun p => if bool_decide (p.1 = j) then (j, e') else p) <$> l.

Lemma upd_at_notin j e' l : j ∉ l.*1 -> upd_at j e' l = l.
Proof.
  induction l as [|[k x] l IH]; [done|]. simpl. intros [Hne Hni]%not_elem_of_cons.
  rewrite bool_decide_eq_false_2 by done. f_equal. by apply IH.
Qed.

Lemma upd_at_fst j e' l : (upd_at j e' l).*1 = l.*1.
Proof.
  unfold upd_at. rewrite <- list_fmap_compose. apply list_fmap_ext.
  intros ? [k x] _. simpl. by case_bool_decide.
Qed.

Lemma chain_update st i l j e e' :
  zget st j = Some e -> next e' = next e ->
  chain st i l -> chain (zset st j e') i (upd_at j e' l).
Proof.
  intros Hj Hn. induction 1 as [|i x l Hg Hc IH]; [constructor|]. simpl.
  case_bool_decide as Hd; simpl in Hd.
  - subst i. simplify_eq. constructor; [|by rewrite Hn].
    rewrite zget_zset_eq; [done|]. eauto using zget_Some_range.
  - constructor; [|done]. by rewrite zget_zset_ne.
Qed.

(** Unlinking the entry after [p]. *)
Lemma chain_unlink st i l1 p ep ep' x ex l2 :
  chain st i (l1 ++ (p, ep) :: (x, ex) :: l2) -> next ep' = next ex ->
  chain (zset st p ep') i (l1 ++ (p, ep') :: l2).
Proof.
  intros Hc Hn. pose proof (chain_NoDup _ _ _ Hc) as Hnd. revert i Hc Hnd.
  induction l1 as [|[k y] l1 IH]; intros i Hc Hnd; simpl in *.
  - inversion Hc as [|? ? ? Hg Hc']; subst. inversion Hc' as [|? ? ? Hg' Hc2]; subst.
    constructor; [rewrite zget_zset_eq; [done|eauto using zget_Some_range]|].
    rewrite Hn. apply chain_frame; [done|].
    apply NoDup_cons in Hnd as [Hni _]. simpl in Hni. set_solver.
  - inversion Hc as [|? ? ? Hg Hc']; subst. apply NoDup_cons in Hnd as [Hni Hnd].
    constructor; [|by apply IH]. rewrite zget_zset_ne; [done|].
    intros ->. apply Hni. rewrite fmap_app. simpl. set_solver.
Qed.

Lemma chain_split_head st i x ex l : chain st i ((x, ex) :: l) -> i = x /\ chain st (next ex) l.
Proof. by inversion 1; subst. Qed.

Definition head_of l : Z := match l with [] => -1 | (j, _) :: _ => j end.

Lemma chain_head st i l : chain st i l -> i = head_of l.
Proof. by destruct 1. Qed.

Lemma chain_app_r st i l1 l2 : chain st i (l1 ++ l2) -> chain st (head_of l2) l2.
Proof.
  destruct l2 as [|[j e] l2]; [constructor|]. apply chain_suffix.
Qed.
End chains.

Arguments chain {E} next st _ _.
Arguments walk {E} next {R A} st fuel i body acc.
Arguments walk_list {E R A} l body acc.

(** The search loop that remembers the predecessor. *)
Lemma walk_find {E} (f : E -> bool) (l : list (Z * E)) p :
  (Forall (fun q => f q.2 = false) l /\
   exists q, walk_list l (fun i e prev => if f e then Return (i, prev) else Next i) p = Next q) \/
  (exists l1 i e l2 prev, l = l1 ++ (i, e) :: l2 /\ f e = true /\
     Forall (fun q => f q.2 = false) l1 /\
     walk_list l (fun i e prev => if f e then Return (i, prev) else Next i) p = Return (i, prev) /\
     ((l1 = [] /\ prev = p) \/ exists l0 ep, l1 = l0 ++ [(prev, ep)])).
Proof.
  revert p. induction l as [|[i e] l IH]; intros p; simpl; [left; eauto|].
  destruct (f e) eqn:Hf.
  - right. exists [], i, e, l, p. naive_solver.
  - destruct (IH i) as [[HF [q Hq]]|(l1 & j & x & l2 & prev & -> & Hx & HF & Hw & Hp)].
    + left. split; [by constructor|eauto].
    + right. exists ((i, e) :: l1), j, x, l2, prev. split_and!; try done; [by constructor|].
      right. destruct Hp as [[-> ->]|(l0 & ep & ->)]; [by exists [], e|by exists ((i, e) :: l0), ep].
Qed.

(** A loop that never returns: an invariant over the entries visited so far. *)
Lemma walk_fold {E R A} (I : list (Z * E) -> A -> Prop) (body : Z -> E -> A -> ctl R A) l : forall pre acc,
  I pre acc ->
  (forall pre i e acc, (i, e) ∈ l -> I pre acc ->
     exists acc', body i e acc = Next acc' /\ I (pre ++ [(i, e)]) acc') ->
  exists acc', walk_list l body acc = Next acc' /\ I (pre ++ l) acc'.
Proof.
  induction l as [|[i e] l IH]; intros pre acc HI Hstep; simpl.
  - rewrite app_nil_r. eauto.
  - destruct (Hstep pre i e acc) as (acc' & -> & HI'); [set_solver|done|].
    destruct (IH (pre ++ [(i, e)]) acc' HI') as (r & Hr & HIr).
    + intros. apply Hstep; [set_solver|done].
    + rewrite <- app_assoc in HIr. eauto.
Qed.

(** A loop that returns at the first entry satisfying [f]. *)
Lemma walk_search {E R} (f : E -> bool) (r : E -> R) (l : list (Z * E)) :
  ((forall i e, (i, e) ∈ l -> f e = false) /\
   walk_list l (fun _ e (_ : unit) => if f e then Return (r e) else Next tt) tt = Next tt) \/
  (exists i e, (i, e) ∈ l /\ f e = true /\
   walk_list l (fun _ e (_ : unit) => if f e then Return (r e) else Next tt) tt = Return (r e)).
Proof.
  induction l as [|[i e] l IH]; simpl; [left; split; [by intros ? ? ?%not_elem_of_nil|done]|].
  destruct (f e) eqn:Hf; [right; exists i, e; set_solver|].
  destruct IH as [[Hno ->]|(j & x & Hj & Hx & ->)].
  - left. split; [|done]. intros j x [[= -> ->]|Hj]%elem_of_cons; eauto.
  - right. exists j, x. set_solver.
Qed.

(** ** The whole table

    [live e] says that the entry is in use; [hb e] is the bucket its key hashes
    to.  The invariant: every bucket heads a list of live entries of that
    bucket, and every live entry is on the list of its bucket. *)
Section tables.
Context {E : Type} (next : E -> Z) (live : E -> bool) (hb : E -> Z).
Implicit Types (st : list E) (bk : list Z) (e : E) (b i h : Z).

Definition on_bucket (b : Z) (p : Z * E) : Prop := live p.2 = true /\ hb p.2 = b.

Record table_ok bk st : Prop := {
  tk_chain b h : zget bk b = Some h ->
    exists l, chain next st h l /\ Forall (on_bucket b) l;
  tk_live i e : zget st i = Some e -> live e = true ->
    exists h l, zget bk (hb e) = Some h /\ chain next st h l /\ (i, e) ∈ l }.

Lemma tk_bucket bk st b h l i e :
  table_ok bk st -> zget bk b = Some h -> chain next st h l ->
  zget st i = Some e -> live e = true -> hb e = b -> (i, e) ∈ l.
Proof.
  intros Hok Hb Hc Hi Hl <-.
  destruct (tk_live _ _ Hok _ _ Hi Hl) as (h' & l' & Hb' & Hc' & Hin). simplify_eq.
  by rewrite (chain_det _ _ _ _ _ Hc Hc').
Qed.

Lemma tk_bucket_live bk st b h l i e :
  table_ok bk st -> zget bk b = Some h -> chain next st h l -> (i, e) ∈ l ->
  live e = true /\ hb e = b /\ zget st i = Some e.
Proof.
  intros Hok Hb Hc Hin. destruct (tk_chain _ _ Hok _ _ Hb) as (l' & Hc' & Hall).
  rewrite (chain_det _ _ _ _ _ Hc' Hc) in Hall. rewrite Forall_forall in Hall.
  destruct (Hall _ Hin). eauto using chain_in.
Qed.

Lemma tk_notin bk st b h l j e :
  table_ok bk st -> zget bk b = Some h -> chain next st h l ->
  zget st j = Some e -> live e = false \/ hb e <> b -> j ∉ l.*1.
Proof.
  intros Hok Hb Hc Hj Hor [[k x] [-> Hin]]%list_elem_of_fmap. simpl in *.
  destruct (tk_bucket_live _ _ _ _ _ _ _ Hok Hb Hc Hin) as (? & ? & ?).
  simplify_eq. destruct Hor; congruence.
Qed.

(** A fresh table: no live entry and all buckets empty. *)
Lemma table_ok_empty nb st :
  (forall i e, zget st i = Some e -> live e = false) -> table_ok (replicate nb (-1)) st.
Proof.
  intros Hdead. split.
  - intros b h ->%zget_replicate_Some. exists []. split; constructor.
  - intros i e Hi Hl. rewrite (Hdead _ _ Hi) in Hl. done.
Qed.

(** Head insertion in a free slot. *)
Lemma table_ok_insert bk st i e0 e b h :
  table_ok bk st -> zget st i = Some e0 -> live e0 = false ->
  zget bk b = Some h -> hb e = b -> live e = true -> next e = h ->
  table_ok (zset bk b i) (zset st i e).
Proof.
  intros Hok Hi Hdead Hb Hhb Hlive Hnext.
  assert (Hfr : forall b' h' l, zget bk b' = Some h' -> chain next st h' l ->
                  chain next (zset st i e) h' l).
  { intros b' h' l Hb' Hc. apply chain_frame; [done|]. eapply tk_notin; eauto. }
  pose proof (zget_Some_range _ _ _ Hi) as Hri. pose proof (zget_Some_range _ _ _ Hb) as Hrb.
  destruct (tk_chain _ _ Hok _ _ Hb) as (l & Hc & Hall).
  assert (Hnew : chain next (zset st i e) i ((i, e) :: l)).
  { constructor; [by apply zget_zset_eq|]. rewrite Hnext. eauto. }
  split.
  - intros b' h' [(-> & -> & _)|[Hne Hb']]%zget_zset_Some.
    + exists ((i, e) :: l). split; [done|]. by constructor.
    + destruct (tk_chain _ _ Hok _ _ Hb') as (l' & Hc' & Hall'). eauto.
  - intros j x [(-> & -> & _)|[Hne Hj]]%zget_zset_Some Hx.
    + exists i, ((i, e) :: l). rewrite Hhb. rewrite zget_zset_eq by done. set_solver.
    + destruct (tk_live _ _ Hok _ _ Hj Hx) as (h' & l' & Hb' & Hc' & Hin).
      destruct (decide (hb x = b)) as [Heq|Hneb].
      * rewrite Heq in *. simplify_eq. exists i, ((i, e) :: l).
        rewrite zget_zset_eq by done.
        rewrite (chain_det _ _ _ _ _ Hc Hc'). rewrite (chain_det _ _ _ _ _ Hc Hc') in Hnew. set_solver.
      * exists h', l'. rewrite zget_zset_ne by done. eauto.
Qed.

(** In-place change of a live entry's payload. *)
Lemma table_ok_update bk st i e e' :
  table_ok bk st -> zget st i = Some e -> next e' = next e -> live e' = live e ->
  hb e' = hb e -> table_ok bk (zset st i e').
Proof.
  intros Hok Hi Hn Hl Hh. pose proof (zget_Some_range _ _ _ Hi) as Hri.
  assert (Hall : forall b l, Forall (on_bucket b) l ->
            (forall j x, (j, x) ∈ l -> zget st j = Some x) -> Forall (on_bucket b) (upd_at i e' l)).
  { intros b l HF Hin. apply Forall_fmap, Forall_forall. intros [j x] Hjx. simpl.
    rewrite Forall_forall in HF. destruct (HF _ Hjx). case_bool_decide; simpl in *; [|done].
    subst j. rewrite (Hin _ _ Hjx) in Hi. simplify_eq. split; simpl; congruence. }
  split.
  - intros b h Hb. destruct (tk_chain _ _ Hok _ _ Hb) as (l & Hc & HF).
    exists (upd_at i e' l). split; [by eapply chain_update|].
    apply Hall; [done|]. eauto using chain_in.
  - intros j x Hj Hx. apply zget_zset_Some in Hj as [(-> & -> & _)|[Hne Hj]].
    + rewrite Hl in Hx. destruct (tk_live _ _ Hok _ _ Hi Hx) as (h & l & Hb & Hc & Hin).
      exists h, (upd_at i e' l). rewrite Hh. split; [done|]. split; [by eapply chain_update|].
      apply list_elem_of_fmap. exists (i, e). split; [|done]. simpl. by rewrite bool_decide_eq_true_2.
    + destruct (tk_live _ _ Hok _ _ Hj Hx) as (h & l & Hb & Hc & Hin).
      exists h, (upd_at i e' l). split; [done|]. split; [by eapply chain_update|].
      apply list_elem_of_fmap. exists (j, x). split; [|done]. simpl. by rewrite bool_decide_eq_false_2.
Qed.

(** Removal of entry [x] of bucket [b]: the entry becomes free, and either the
    bucket head or the predecessor's link skips it.  [st'] and [bk'] are the
    arrays after the two writes. *)
Lemma table_ok_unlink bk st b h l1 x ex l2 bk' st' (h' : Z) l' :
  table_ok bk st -> zget bk b = Some h -> chain next st h (l1 ++ (x, ex) :: l2) ->
  zget bk' b = Some h' -> (forall b', b' <> b -> zget bk' b' = zget bk b') ->
  chain next st' h' l' -> Forall (on_bucket b) l' ->
  (forall j e, j <> x -> hb e = b -> live e = true -> zget st' j = Some e -> (j, e) ∈ l') ->
  (forall j e, zget st' j = Some e -> live e = true -> j <> x) ->
  (forall j e, hb e <> b -> zget st j = Some e -> live e = true -> zget st' j = Some e) ->
  (forall j e, hb e <> b -> zget st' j = Some e -> live e = true -> zget st j = Some e) ->
  table_ok bk' st'.
Proof.
  intros Hok Hb Hc Hb' Hbne Hc' HF Hin Hx Hfwd Hbwd.
  assert (Hother : forall b2 h2 l, b2 <> b -> zget bk b2 = Some h2 -> chain next st h2 l ->
                     chain next st' h2 l).
  { intros b2 h2 l Hne Hb2 Hc2.
    assert (Hl : forall j e, (j, e) ∈ l -> zget st' j = Some e).
    { intros j e Hje. destruct (tk_bucket_live _ _ _ _ _ _ _ Hok Hb2 Hc2 Hje) as (? & ? & ?).
      apply Hfwd; [congruence|done|done]. }
    clear Hb2. induction Hc2 as [|i e l Hg Hc2 IH]; [constructor|].
    constructor; [apply Hl; set_solver|]. apply IH. intros; apply Hl. set_solver. }
  split.
  - intros b2 h2 Hb2. destruct (decide (b2 = b)) as [->|Hne].
    + simplify_eq. eauto.
    + rewrite Hbne in Hb2 by done. destruct (tk_chain _ _ Hok _ _ Hb2) as (l & Hcl & HFl). eauto.
  - intros j e Hj Hl. destruct (decide (hb e = b)) as [Heq|Hne].
    + rewrite Heq. exists h', l'. split; [done|]. split; [done|]. eauto.
    + destruct (tk_live _ _ Hok _ _ (Hbwd _ _ Hne Hj Hl) Hl) as (h2 & l & Hb2 & Hcl & Hjl).
      exists h2, l. rewrite Hbne by done. eauto.
Qed.

Lemma table_ok_remove_head bk st b x ex ex' l2 :
  table_ok bk st -> zget bk b = Some x -> chain next st x ((x, ex) :: l2) ->
  live ex' = false ->
  table_ok (zset bk b (next ex)) (zset st x ex').
Proof.
  intros Hok Hb Hc Hdead. pose proof (zget_Some_range _ _ _ Hb) as Hrb.
  pose proof (chain_NoDup _ _ _ _ Hc) as Hnd. apply NoDup_cons in Hnd as [Hni _].
  destruct (chain_split_head _ _ _ _ _ _ Hc) as [_ Hc2].
  assert (Hxb : zget st x = Some ex) by (eapply chain_in; [exact Hc|set_solver]).
  destruct (tk_bucket_live _ _ _ _ _ _ _ Hok Hb Hc (list_elem_of_here _ _)) as (Hlx & Hhx & _).
  eapply (table_ok_unlink bk st b x [] x ex l2 _ _ (next ex) l2); simpl; try done.
  - by apply zget_zset_eq.
  - intros b' Hne. by rewrite zget_zset_ne.
  - by apply chain_frame.
  - destruct (tk_chain _ _ Hok _ _ Hb) as (l & Hcl & HF).
    rewrite (chain_det _ _ _ _ _ Hcl Hc) in HF.
    by apply Forall_cons in HF as [_ HF].
  - intros j e Hne Hhe Hle. rewrite zget_zset_ne by done. intros Hj.
    pose proof (tk_bucket _ _ _ _ _ _ _ Hok Hb Hc Hj Hle Hhe) as Hje. set_solver.
  - intros j e [(-> & -> & _)|[? _]]%zget_zset_Some; [congruence|done].
  - intros j e Hne Hj Hl. rewrite zget_zset_ne; [done|]. intros ->. congruence.
  - intros j e Hne [(-> & -> & _)|[? ?]]%zget_zset_Some; [congruence|done].
Qed.

Lemma table_ok_remove_mid bk st b h l1 p ep ep' x ex ex' l2 :
  table_ok bk st -> zget bk b = Some h ->
  chain next st h (l1 ++ (p, ep) :: (x, ex) :: l2) ->
  live ex' = false -> next ep' = next ex -> live ep' = true -> hb ep' = hb ep ->
  table_ok bk (zset (zset st x ex') p ep').
Proof.
  intros Hok Hb Hc Hdead Hn Hlp Hhp.
  pose proof (chain_NoDup _ _ _ _ Hc) as Hnd.
  assert (Hmem : forall j e, (j, e) ∈ l1 ++ (p, ep) :: (x, ex) :: l2 ->
                   live e = true /\ hb e = b /\ zget st j = Some e)
    by eauto using tk_bucket_live.
  destruct (Hmem p ep) as (Hl1 & Hh1 & Hgp); [set_solver|].
  destruct (Hmem x ex) as (Hl2 & Hh2 & Hgx); [set_solver|].
  rewrite fmap_app in Hnd. simpl in Hnd.
  apply NoDup_app in Hnd as (Hnd1 & Hdis & Hnd2).
  apply NoDup_cons in Hnd2 as [Hpn Hnd2]. apply NoDup_cons in Hnd2 as [Hxn Hnd2].
  assert (Hpx : p <> x) by set_solver.
  pose proof (zget_Some_range _ _ _ Hgp) as Hrp.
  assert (Hc' : chain next (zset (zset st x ex') p ep') h (l1 ++ (p, ep') :: l2)).
  { rewrite zset_comm by done. apply chain_frame.
    - by eapply chain_unlink.
    - rewrite fmap_app. simpl. set_solver. }
  assert (Hget : forall j e, zget (zset (zset st x ex') p ep') j = Some e ->
     (j = p /\ e = ep') \/ (j <> p /\ j = x /\ e = ex') \/ (j <> p /\ j <> x /\ zget st j = Some e)).
  { intros j e [(-> & -> & _)|[Hne Hj]]%zget_zset_Some; [naive_solver|].
    apply zget_zset_Some in Hj as [(-> & -> & _)|[? ?]]; naive_solver. }
  eapply (table_ok_unlink bk st b h (l1 ++ [(p, ep)]) x ex l2 _ _ h (l1 ++ (p, ep') :: l2)); try done.
  - by rewrite <- app_assoc.
  - apply Forall_forall. intros [j e] [Hj|[[=->->]|Hj]%elem_of_cons]%elem_of_app.
    + destruct (Hmem j e) as (? & ? & ?); [set_solver|]. done.
    + split; simpl; [done|congruence].
    + destruct (Hmem j e) as (? & ? & ?); [set_solver|]. done.
  - intros j e Hne Hhe Hle [[-> ->]|[(? & -> & ?)|(? & ? & Hj)]]%Hget; [set_solver|done|].
    pose proof (tk_bucket _ _ _ _ _ _ _ Hok Hb Hc Hj Hle Hhe) as Hje. set_solver.
  - intros j e [[-> ->]|[(? & -> & ->)|(? & ? & Hj)]]%Hget Hle; [done|congruence|done].
  - intros j e Hne Hj Hl. rewrite zget_zset_ne by (intros ->; congruence).
    rewrite zget_zset_ne by (intros ->; congruence). done.
  - intros j e Hne [[-> ->]|[(? & -> & ->)|(? & ? & Hj)]]%Hget Hle; [congruence|congruence|done].
Qed.
End tables.

(** ** The two searches of the source *)

(** [while (destStorage[insertIndex].lbid != -1) insertIndex++;], where [used]
    is the loop condition on the entry. *)
Fixpoint find_empty {E} (used : E -> bool) (st : list E) (fuel : nat) (insertIndex : Z) : outcome Z :=
  e ← aget st insertIndex;
  if used e then
    match fuel with
    | O => Fault OutOfFuel
    | Datatypes.S f => find_empty used st f (insertIndex + 1)
    end
  else Val insertIndex.

Lemma find_empty_spec {E} (used : E -> bool) st fuel i j e :
  i <= j -> (Z.to_nat (j - i) <= fuel)%nat -> zget st j = Some e -> used e = false ->
  (forall k x, i <= k < j -> zget st k = Some x -> used x = true) -> 0 <= i ->
  find_empty used st fuel i = Val j.
Proof.
  revert i. induction fuel as [|fuel IH]; intros i Hij Hf Hj Hd Hall H0.
  - assert (i = j) as -> by lia. simpl. unfold aget. rewrite Hj. simpl. by rewrite Hd.
  - pose proof (zget_Some_range _ _ _ Hj) as Hrj.
    destruct (zget_is_Some st i) as [x Hx]; [lia|]. simpl. unfold aget. rewrite Hx. simpl.
    destruct (Z.eq_dec i j) as [->|]; [simplify_eq; by rewrite Hd|].
    rewrite (Hall i x) by (done || lia).
    apply IH; try lia; try done. intros k y Hk. apply Hall. lia.
Qed.

(** The search of [getIndex]: it finds the first entry of the bucket that
    satisfies [f], with its predecessor, and misses only if no live entry does. *)
Lemma table_find {E} (next : E -> Z) live hb bk st b h (f : E -> bool) :
  table_ok next live hb bk st -> zget bk b = Some h ->
  (forall e, f e = true -> live e = true -> hb e = b) ->
  let r := walk next st (length st) h
             (fun i e prev => if f e then Return (i, prev) else Next i) (-1) in
  ((forall i e, zget st i = Some e -> live e = true -> f e = false) /\ exists q, r = Val (Next q)) \/
  (exists l1 i e l2 prev, chain next st h (l1 ++ (i, e) :: l2) /\ r = Val (Return (i, prev)) /\
     f e = true /\ zget st i = Some e /\ live e = true /\
     ((l1 = [] /\ prev = -1) \/ exists l0 ep, l1 = l0 ++ [(prev, ep)])).
Proof.
  intros Hok Hh Hf r. destruct (tk_chain _ _ _ _ _ Hok _ _ Hh) as (lst & Hc & HF).
  unfold r. erewrite walk_chain by eauto using chain_length.
  destruct (walk_find f lst (-1)) as [[Hno [q Hq]]|(l1 & i & e & l2 & prev & -> & Hm & Hno & Hw & Hp)].
  - left. rewrite Hq. split; [|eauto]. intros i e Hi Hl.
    destruct (f e) eqn:Hfe; [|done]. rewrite Forall_forall in Hno.
    assert (Hin : (i, e) ∈ lst) by (eapply tk_bucket; eauto).
    specialize (Hno _ Hin). simpl in Hno. congruence.
  - right. rewrite Hw.
    destruct (tk_bucket_live _ _ _ _ _ _ _ _ i e Hok Hh Hc) as (Hl & _ & Hi); [set_solver|].
    exists l1, i, e, l2, prev. naive_solver.
Qed.

(** The free slot an insertion takes. *)
Lemma insert_slot {E} (live : E -> bool) st lwm :
  0 <= lwm -> (forall i e, i < lwm -> zget st i = Some e -> live e = true) ->
  (exists i e, lwm <= i /\ zget st i = Some e /\ live e = false /\
      (forall j x, j < i -> zget st j = Some x -> live x = true)) ->
  exists i e0, zget st i = Some e0 /\ live e0 = false /\ lwm <= i /\
    (forall j x, j < i -> zget st j = Some x -> live x = true) /\
    find_empty live st (length st) lwm = Val i.
Proof.
  intros H0 Hlow (i & e0 & Hle & Hi & Hd & Hall). exists i, e0. split_and!; try done.
  pose proof (zget_Some_range _ _ _ Hi) as Hr. unfold zlen in Hr.
  eapply find_empty_spec; try done; [lia|]. intros k x Hk. apply Hall. lia.
Qed.

(** ** What a table holds

    [contents] is the finite map a table stands for, [live_count] the number of
    entries in use. *)
Section contents.
Context {E K V : Type} `{Countable K}.
Context (live : E -> bool) (key : E -> K) (val : E -> V).
Implicit Types (st : list E) (e : E) (i j : Z).

Definition contents st : gmap K V :=
  foldr (fun e m => if live e then <[key e := val e]> m else m) ∅ st.

Definition live_count st : Z := Z.of_nat (length (filter (fun e => live e = true) st)).

(** No two live entries share a key. *)
Definition uniq st : Prop :=
  forall i j ei ej, zget st i = Some ei -> zget st j = Some ej ->
    live ei = true -> live ej = true -> key ei = key ej -> i = j.

Lemma uniq_cons e st : uniq (e :: st) -> uniq st.
Proof.
  intros Hu i j ei ej Hi Hj ? ? ?.
  pose proof (zget_Some_range _ _ _ Hi). pose proof (zget_Some_range _ _ _ Hj).
  assert (i + 1 = j + 1); [|lia].
  eapply (Hu _ _ ei ej); rewrite ?zget_cons; try done; right; split; try lia;
    by rewrite Z.add_simpl_r.
Qed.

Lemma contents_Some st k v :
  uniq st ->
  contents st !! k = Some v <->
  exists i e, zget st i = Some e /\ live e = true /\ key e = k /\ val e = v.
Proof.
  induction st as [|e st IH]; intros Hu; simpl.
  - rewrite lookup_empty. split; [done|]. intros (i & e & Hi & _).
    apply zget_Some_range in Hi. unfold zlen in Hi. simpl in Hi. lia.
  - specialize (IH (uniq_cons _ _ Hu)). destruct (live e) eqn:Hl.
    + rewrite lookup_insert. case_decide as Hk.
      * split.
        -- intros [= <-]. exists 0, e. rewrite zget_cons. naive_solver.
        -- intros (i & x & Hi & Hlx & Hkx & <-).
           assert (i = 0) as -> by
             (apply (Hu i 0 x e); [done|rewrite zget_cons; auto|done|done|congruence]).
           apply zget_cons in Hi as [[_ ->]|[? _]]; [done|lia].
      * rewrite IH. split.
        -- intros (i & x & Hi & ?). exists (i + 1), x. rewrite zget_cons.
           pose proof (zget_Some_range _ _ _ Hi). rewrite Z.add_simpl_r.
           split; [right; split; [lia|done]|done].
        -- intros (i & x & [[-> ->]|[? Hi]]%zget_cons & ? & ? & ?); [congruence|eauto 6].
    + rewrite IH. split.
      * intros (i & x & Hi & ?). exists (i + 1), x. rewrite zget_cons.
        pose proof (zget_Some_range _ _ _ Hi). rewrite Z.add_simpl_r.
        split; [right; split; [lia|done]|done].
      * intros (i & x & [[-> ->]|[? Hi]]%zget_cons & ? & ? & ?); [congruence|eauto 6].
Qed.

Lemma contents_None st k i e :
  uniq st -> contents st !! k = None -> zget st i = Some e -> live e = true -> key e <> k.
Proof.
  intros Hu Hn Hi Hl Hk. assert (Hs : contents st !! k = Some (val e)) by
    (apply contents_Some; eauto 10). congruence.
Qed.

(** Equal tables of live entries have equal contents. *)
Lemma contents_ext st st' :
  uniq st -> uniq st' ->
  (forall k v, (exists i e, zget st i = Some e /\ live e = true /\ key e = k /\ val e = v) <->
               (exists i e, zget st' i = Some e /\ live e = true /\ key e = k /\ val e = v)) ->
  contents st = contents st'.
Proof.
  intros Hu Hu' Heq. apply map_eq. intros k. apply option_eq. intros v.
  rewrite !contents_Some by done. apply Heq.
Qed.

Lemma uniq_insert st i e0 e :
  uniq st -> zget st i = Some e0 -> contents st !! key e = None -> uniq (zset st i e).
Proof.
  intros Hu Hi Hn j k ej ek Hj Hk Hlj Hlk Hkey.
  apply zget_zset_Some in Hj as [(-> & -> & _)|[Hj1 Hj]];
    apply zget_zset_Some in Hk as [(-> & -> & _)|[Hk1 Hk]]; try done.
  - exfalso. by eapply (contents_None st (key e) k ek).
  - exfalso. by eapply (contents_None st (key e) j ej).
  - eauto.
Qed.

Lemma contents_insert st i e0 e :
  uniq st -> zget st i = Some e0 -> live e0 = false -> live e = true ->
  contents st !! key e = None ->
  contents (zset st i e) = <[key e := val e]> (contents st).
Proof.
  intros Hu Hi Hd Hl Hn. pose proof (uniq_insert _ _ _ _ Hu Hi Hn) as Hu'.
  apply map_eq. intros k. apply option_eq. intros v.
  rewrite contents_Some, lookup_insert by done. case_decide as Hk.
  - split.
    + intros (j & x & Hj & Hlx & Hkx & <-).
      apply zget_zset_Some in Hj as [(-> & -> & _)|[Hne Hj]]; [done|].
      exfalso. eapply (contents_None st (key e)); [done..|]. congruence.
    + intros [= <-]. exists i, e.
      rewrite zget_zset_eq by eauto using zget_Some_range. naive_solver.
  - rewrite contents_Some by done. split.
    + intros (j & x & Hj & Hlx & Hkx & <-).
      apply zget_zset_Some in Hj as [(-> & -> & _)|[Hne Hj]]; [done|]. eauto 6.
    + intros (j & x & Hj & Hlx & Hkx & <-). exists j, x.
      rewrite zget_zset_ne; [done|]. intros ->. simplify_eq. congruence.
Qed.

Lemma uniq_kill st i e' : uniq st -> live e' = false -> uniq (zset st i e').
Proof.
  intros Hu Hd j k ej ek Hj Hk Hlj Hlk Hkey.
  apply zget_zset_Some in Hj as [(-> & -> & _)|[Hj1 Hj]]; [congruence|].
  apply zget_zset_Some in Hk as [(-> & -> & _)|[Hk1 Hk]]; [congruence|]. eauto.
Qed.

Lemma contents_kill st i e e' :
  uniq st -> zget st i = Some e -> live e = true -> live e' = false ->
  contents (zset st i e') = delete (key e) (contents st).
Proof.
  intros Hu Hi Hl Hd. pose proof (uniq_kill _ i _ Hu Hd) as Hu'.
  apply map_eq. intros k. apply option_eq. intros v.
  rewrite contents_Some, lookup_delete by done. case_decide as Hk.
  - split; [|done]. intros (j & x & Hj & Hlx & Hkx & <-).
    apply zget_zset_Some in Hj as [(-> & -> & _)|[Hne Hj]]; [congruence|].
    exfalso. apply Hne. eapply (Hu j i x e); [done..|congruence].
  - rewrite contents_Some by done. split.
    + intros (j & x & Hj & Hlx & Hkx & <-).
      apply zget_zset_Some in Hj as [(-> & -> & _)|[Hne Hj]]; [congruence|]. eauto 6.
    + intros (j & x & Hj & Hlx & Hkx & <-). exists j, x.
      rewrite zget_zset_ne; [done|]. intros ->. simplify_eq.
Qed.

Lemma uniq_update st i e e' :
  uniq st -> zget st i = Some e -> live e' = live e -> key e' = key e -> uniq (zset st i e').
Proof.
  intros Hu Hi Hl Hke j k ej ek Hj Hk Hlj Hlk Hkey.
  apply zget_zset_Some in Hj as [(-> & -> & _)|[Hj1 Hj]];
    apply zget_zset_Some in Hk as [(-> & -> & _)|[Hk1 Hk]]; try done.
  - eapply (Hu i k e ek); congruence.
  - eapply (Hu j i ej e); congruence.
  - eauto.
Qed.

Lemma contents_update st i e e' :
  uniq st -> zget st i = Some e -> live e = true -> live e' = true -> key e' = key e ->
  contents (zset st i e') = <[key e := val e']> (contents st).
Proof.
  intros Hu Hi Hl Hl' Hke.
  assert (Hu' : uniq (zset st i e')) by (eapply uniq_update; [done..|congruence|done]).
  apply map_eq. intros k. apply option_eq. intros v.
  rewrite contents_Some, lookup_insert by done. case_decide as Hk.
  - split.
    + intros (j & x & Hj & Hlx & Hkx & <-).
      apply zget_zset_Some in Hj as [(-> & -> & _)|[Hne Hj]]; [done|].
      exfalso. apply Hne. eapply (Hu j i x e); [done..|congruence].
    + intros [= <-]. exists i, e'.
      rewrite zget_zset_eq by eauto using zget_Some_range. naive_solver.
  - rewrite contents_Some by done. split.
    + intros (j & x & Hj & Hlx & Hkx & <-).
      apply zget_zset_Some in Hj as [(-> & -> & _)|[Hne Hj]]; [congruence|]. eauto 6.
    + intros (j & x & Hj & Hlx & Hkx & <-). exists j, x.
      rewrite zget_zset_ne; [done|]. intros ->. simplify_eq.
Qed.

(** Changing only links does not change the contents. *)
Lemma contents_relink st i e e' :
  uniq st -> zget st i = Some e -> live e' = live e -> key e' = key e -> val e' = val e ->
  contents (zset st i e') = contents st.
Proof.
  intros Hu Hi Hl Hk Hv. destruct (live e) eqn:Hle.
  - erewrite contents_update by done. apply insert_id. rewrite Hv.
    apply contents_Some; eauto 10.
  - assert (Hu' : uniq (zset st i e')) by (by eapply uniq_kill).
    apply contents_ext; [done..|]. intros k v.
    split; intros (j & x & Hj & Hlx & Hkx & Hvx); exists j, x; split_and!; try done.
    + by apply zget_zset_Some in Hj as [(-> & -> & _)|[Hne Hj]]; [congruence|].
    + rewrite zget_zset_ne; [done|]. intros ->. simplify_eq. congruence.
Qed.

Definition b2z (b : bool) : Z := if b then 1 else 0.

Lemma live_count_cons e st : live_count (e :: st) = b2z (live e) + live_count st.
Proof.
  unfold live_count. rewrite filter_cons. case_decide as Hd; destruct (live e); simpl; try done; lia.
Qed.

Lemma live_count_zset st i e e' :
  zget st i = Some e -> live_count (zset st i e') = live_count st - b2z (live e) + b2z (live e').
Proof.
  unfold zget, zset. destruct (i <? 0); [done|]. generalize (Z.to_nat i) as n.
  induction st as [|x st IH]; intros [|n] Hn; simplify_eq/=; rewrite !live_count_cons.
  - lia.
  - rewrite (IH n) by done. lia.
Qed.

Lemma live_count_bounds st : 0 <= live_count st <= zlen st.
Proof.
  unfold live_count, zlen. pose proof (length_filter (fun e => live e = true) st). lia.
Qed.

(** Fewer live entries than slots, and none free below [lwm]: a free slot
    exists at or above it. *)
Lemma free_slot st lwm :
  0 <= lwm -> (forall i e, i < lwm -> zget st i = Some e -> live e = true) ->
  live_count st < zlen st ->
  exists i e, lwm <= i /\ zget st i = Some e /\ live e = false /\
    (forall j x, j < i -> zget st j = Some x -> live x = true).
Proof.
  intros H0 Hlow Hlt.
  assert (Hex : exists i e, zget st i = Some e /\ live e = false /\
    (forall j x, j < i -> zget st j = Some x -> live x = true)).
  { clear Hlow. induction st as [|x st IH]; [unfold live_count, zlen in Hlt; simpl in Hlt; lia|].
    rewrite live_count_cons in Hlt. destruct (live x) eqn:Hx.
    - destruct IH as (i & e & Hi & Hd & Hall); [unfold zlen in *; simpl in *; lia|].
      exists (i + 1), e. pose proof (zget_Some_range _ _ _ Hi). split; [|split; [done|]].
      + rewrite zget_cons, Z.add_simpl_r. right. split; [lia|done].
      + intros j y Hj [[-> ->]|[? Hy]]%zget_cons; [done|]. eapply Hall; [|done]. lia.
    - exists 0, x. split; [by rewrite zget_cons; left|]. split; [done|].
      intros j y Hj Hy%zget_Some_range. lia. }
  destruct Hex as (i & e & Hi & Hd & Hall). exists i, e. split_and!; try done.
  destruct (Z.le_gt_cases lwm i); [done|]. rewrite (Hlow i e) in Hd; done.
Qed.

Lemma uniq_take n st : uniq st -> uniq (take n st).
Proof.
  intros Hu i j ei ej [_ Hi]%zget_take [_ Hj]%zget_take. eauto.
Qed.

Lemma live_count_app st st' : live_count (st ++ st') = live_count st + live_count st'.
Proof. unfold live_count. rewrite filter_app, length_app. lia. Qed.

Lemma contents_take_fresh st (n : nat) e :
  uniq st -> zget st (Z.of_nat n) = Some e -> live e = true ->
  contents (take n st) !! key e = None.
Proof.
  intros Hu Hn Hl. apply eq_None_not_Some. intros [v Hv].
  apply contents_Some in Hv; [|by apply uniq_take].
  destruct Hv as (i & x & [Hlt Hi]%zget_take & Hlx & Hk & _).
  assert (i = Z.of_nat n) by eauto. lia.
Qed.

Lemma contents_take_snoc st (n : nat) e :
  uniq st -> zget st (Z.of_nat n) = Some e ->
  contents (take (S n) st)
  = if live e then <[key e := val e]> (contents (take n st)) else contents (take n st).
Proof.
  intros Hu Hn. apply map_eq. intros k. apply option_eq. intros v.
  rewrite contents_Some by (by apply uniq_take).
  setoid_rewrite zget_take. destruct (live e) eqn:Hl.
  - rewrite lookup_insert. case_decide as Hk.
    + split.
      * intros (i & x & [Hi Hx] & Hlx & Hkx & <-).
        assert (i = Z.of_nat n) as -> by (eapply Hu; eauto; congruence). congruence.
      * intros [= <-]. exists (Z.of_nat n), e. naive_solver lia.
    + rewrite contents_Some by (by apply uniq_take). setoid_rewrite zget_take. split.
      * intros (i & x & [Hi Hx] & Hlx & Hkx & <-). exists i, x.
        destruct (Z.eq_dec i (Z.of_nat n)) as [->|]; [congruence|]. naive_solver lia.
      * intros (i & x & [Hi Hx] & ?). exists i, x. naive_solver lia.
  - rewrite contents_Some by (by apply uniq_take). setoid_rewrite zget_take. split.
    + intros (i & x & [Hi Hx] & Hlx & Hkx & <-). exists i, x.
      destruct (Z.eq_dec i (Z.of_nat n)) as [->|]; [congruence|]. naive_solver lia.
    + intros (i & x & [Hi Hx] & ?). exists i, x. naive_solver lia.
Qed.

Lemma live_count_take_snoc st (n : nat) e :
  zget st (Z.of_nat n) = Some e ->
  live_count (take (S n) st) = live_count (take n st) + b2z (live e).
Proof.
  unfold zget. destruct (Z.ltb_spec (Z.of_nat n) 0); [lia|]. rewrite Nat2Z.id. intros He.
  rewrite (take_S_r _ _ _ He), live_count_app, live_count_cons.
  unfold live_count at 2. simpl. lia.
Qed.

(** All live entries lie below [n]: the prefix has the whole contents. *)
Lemma contents_take_dense st (n : nat) :
  uniq st -> (forall i e, zget st i = Some e -> live e = true -> i < Z.of_nat n) ->
  contents (take n st) = contents st.
Proof.
  intros Hu Hd. apply contents_ext; [by apply uniq_take|done|]. intros k v.
  setoid_rewrite zget_take. naive_solver.
Qed.

Lemma live_count_take_dense st (n : nat) :
  (forall i e, zget st i = Some e -> live e = true -> i < Z.of_nat n) ->
  live_count (take n st) = live_count st.
Proof.
  intros Hd. rewrite <- (take_drop n st) at 2. rewrite live_count_app.
  cut (live_count (drop n st) = 0); [lia|]. unfold live_count.
  cut (filter (fun e => live e = true) (drop n st) = []); [by intros ->|].
  apply elem_of_nil_inv. intros e [Hl [j Hj]%list_elem_of_lookup]%list_elem_of_filter.
  rewrite lookup_drop in Hj. assert (Z.of_nat (n + j) < Z.of_nat n); [|lia].
  apply (Hd _ e); [|done]. unfold zget. destruct (Z.ltb_spec (Z.of_nat (n + j)) 0); [lia|].
  by rewrite Nat2Z.id.
Qed.

Lemma size_contents st : uniq st -> Z.of_nat (size (contents st)) = live_count st.
Proof.
  induction st as [|e st IH]; intros Hu; [done|]. simpl.
  rewrite live_count_cons. specialize (IH (uniq_cons _ _ Hu)).
  destruct (live e) eqn:Hl; [|done]. rewrite map_size_insert_None; [simpl; lia|].
  apply eq_None_not_Some. intros [v Hv]. apply contents_Some in Hv; [|by eapply uniq_cons].
  destruct Hv as (i & x & Hi & Hlx & Hk & _). pose proof (zget_Some_range _ _ _ Hi).
  assert (i + 1 = 0); [|lia].
  apply (Hu (i + 1) 0 x e); rewrite ?zget_cons, ?Z.add_simpl_r; auto with lia.
Qed.
End contents.

(** ** Unlinking an entry

    The writes of a removal: the entry's key becomes "empty" ([kill]) and the
    bucket head ([prev = -1]) or the predecessor's link ([relink]) skips it. *)
Section unlink.
Context {E K V : Type} `{Countable K}.
Context (next : E -> Z) (live : E -> bool) (hb : E -> Z) (key : E -> K) (val : E -> V).
Context (kill : E -> E) (relink : Z -> E -> E).
Hypothesis kill_live : forall e, live (kill e) = false.
Hypothesis relink_live : forall n e, live (relink n e) = live e.
Hypothesis relink_next : forall n e, next (relink n e) = n.
Hypothesis relink_hb : forall n e, hb (relink n e) = hb e.
Hypothesis relink_key : forall n e, key (relink n e) = key e.
Hypothesis relink_val : forall n e, val (relink n e) = val e.

(** [prev] is the index before position [length l1], or -1. *)
Definition pred_of (prev : Z) (l1 : list (Z * E)) : Prop :=
  (l1 = [] /\ prev = -1) \/ exists l0 ep, l1 = l0 ++ [(prev, ep)].

Definition unlink_buckets (bk : list Z) (b prev : Z) (e : E) : list Z :=
  if prev =? -1 then zset bk b (next e) else bk.

Definition unlink_storage (st : list E) (prev i : Z) (e : E) : list E :=
  if prev =? -1 then zset st i (kill e)
  else match zget st prev with
       | Some ep => zset (zset st i (kill e)) prev (relink (next e) ep)
       | None => zset st i (kill e)
       end.

Record unlinked (bk : list Z) (st : list E) b (l1 : list (Z * E)) (prev i : Z) (e : E)
    (l2 : list (Z * E)) (bk' : list Z) (st' : list E) : Prop := {
  ul_tab : table_ok next live hb bk' st';
  ul_uniq : uniq live key st';
  ul_contents : contents live key val st' = delete (key e) (contents live key val st);
  ul_count P : P (kill e) = false -> (forall n x, P (relink n x) = P x) ->
    live_count P st' = live_count P st - b2z (P e);
  ul_lenb : zlen bk' = zlen bk;
  ul_lens : zlen st' = zlen st;
  ul_low j x : j < i -> zget st' j = Some x ->
    exists y, zget st j = Some y /\ live x = live y;
  ul_self : zget st' i = Some (kill e);
  ul_chain : exists h' l1', zget bk' b = Some h' /\ chain next st' h' (l1' ++ l2) /\
    pred_of prev l1' /\ (key ∘ snd <$> l1') = (key ∘ snd <$> l1) }.

Lemma table_unlink bk st b h l1 prev i e l2 :
  table_ok next live hb bk st -> uniq live key st -> zget bk b = Some h ->
  chain next st h (l1 ++ (i, e) :: l2) -> pred_of prev l1 ->
  unlinked bk st b l1 prev i e l2 (unlink_buckets bk b prev e) (unlink_storage st prev i e).
Proof.
  intros Hok Hu Hb Hc Hp. pose proof (zget_Some_range _ _ _ Hb) as Hrb.
  destruct (tk_bucket_live _ _ _ _ _ _ _ _ i e Hok Hb Hc) as (Hle & Hhe & Hi); [set_solver|].
  pose proof (zget_Some_range _ _ _ Hi) as Hri. pose proof (chain_NoDup _ _ _ _ Hc) as Hnd.
  unfold unlink_buckets, unlink_storage. destruct Hp as [[-> ->]|(l0 & ep & ->)].
  - simpl in *. destruct (chain_split_head _ _ _ _ _ _ Hc) as [-> Hc2].
    apply NoDup_cons in Hnd as [Hni _].
    split; try (by rewrite ?zlen_zset).
    + by eapply table_ok_remove_head.
    + by apply uniq_kill.
    + by eapply contents_kill.
    + intros P Pk _. erewrite live_count_zset by done. rewrite Pk. simpl. lia.
    + intros j x Hj Hx. rewrite zget_zset_ne in Hx by lia. eauto.
    + by apply zget_zset_eq.
    + exists (next e), []. rewrite zget_zset_eq by done. simpl. split_and!; try done; [|by left].
      by apply chain_frame.
  - rewrite <- app_assoc in Hc, Hnd. simpl in Hc, Hnd.
    destruct (tk_bucket_live _ _ _ _ _ _ _ _ prev ep Hok Hb Hc) as (Hlp & Hhp & Hgp); [set_solver|].
    pose proof (zget_Some_range _ _ _ Hgp) as Hrp.
    destruct (Z.eqb_spec prev (-1)); [lia|]. rewrite Hgp.
    rewrite fmap_app in Hnd. simpl in Hnd. apply NoDup_app in Hnd as (_ & Hdis & Hnd2).
    apply NoDup_cons in Hnd2 as [Hpn Hnd2]. apply NoDup_cons in Hnd2 as [Hin _].
    assert (Hne : prev <> i) by set_solver.
    assert (Hgp' : zget (zset st i (kill e)) prev = Some ep) by (by rewrite zget_zset_ne).
    assert (Huk : uniq live key (zset st i (kill e))) by (by apply uniq_kill).
    split; try (by rewrite ?zlen_zset).
    + eapply table_ok_remove_mid; try done; [by rewrite relink_live].
    + by eapply uniq_update.
    + erewrite contents_relink by (done || apply relink_val || apply relink_key || apply relink_live).
      by eapply contents_kill.
    + intros P Pk Pr. erewrite live_count_zset by done. erewrite live_count_zset by done.
      rewrite Pk, Pr. simpl. lia.
    + intros j x Hj [(-> & -> & _)|[_ Hx]]%zget_zset_Some; [eauto|].
      rewrite zget_zset_ne in Hx by lia. eauto.
    + rewrite zget_zset_ne by done. by apply zget_zset_eq.
    + exists h, (l0 ++ [(prev, relink (next e) ep)]). split_and!; try done.
      * rewrite zset_comm, <- app_assoc by done. simpl. apply chain_frame.
        -- eapply chain_unlink; [done|by rewrite relink_next].
        -- rewrite fmap_app. simpl. set_solver.
      * right. eauto.
      * rewrite !fmap_app. simpl. by rewrite relink_key.
Qed.
End unlink.
