(* ===== verification/Hasher.v ===== *)
(** * utils::Hasher: the 32-bit Murmur3 hash of utils/common/hasher.h

    The VBBM hashes the 12 bytes of [lbid; verID], the VSS the 8 bytes of
    [lbid]; both reduce the result modulo the number of buckets. *)

From S2P Require Import Prelude.
From stdpp Require Import prelude.
Local Open Scope Z_scope.

(** The bytes of an integer object in memory (little-endian host). *)
Fixpoint le_bytes (n : nat) (z : Z) : list Z :=
  match n with
  | O => []
  | S n' => u8 z :: le_bytes n' (Z.shiftr z 8)
  end.

Definition le_word (b0 b1 b2 b3 : Z) : Z :=
  b0 + 2 ^ 8 * b1 + 2 ^ 16 * b2 + 2 ^ 24 * b3.

Definition rotl32 (x r : Z) : Z :=
  Z.lor (u32 (Z.shiftl x r)) (Z.shiftr x (32 - r)).

Definition fmix (h : Z) : Z :=
  let h := Z.lxor h (Z.shiftr h 16) in
  let h := u32 (h * 0x85ebca6b) in
  let h := Z.lxor h (Z.shiftr h 13) in
  let h := u32 (h * 0xc2b2ae35) in
  Z.lxor h (Z.shiftr h 16).

Definition hash_c1 : Z := 0xcc9e2d51.
Definition hash_c2 : Z := 0x1b873593.

Definition mix_k (k1 : Z) : Z := u32 (rotl32 (u32 (k1 * hash_c1)) 15 * hash_c2).

(** [operator()(data, len)] with [len = length data]: whole 4-byte blocks, then
    the fall-through switch on the tail, then the finalisation. *)
Fixpoint hash_body (data : list Z) (h1 : Z) : Z * list Z :=
  match data with
  | b0 :: b1 :: b2 :: b3 :: rest =>
      hash_body rest
        (u32 (rotl32 (Z.lxor h1 (mix_k (le_word b0 b1 b2 b3))) 13 * 5 + 0xe6546b64))
  | tail => (h1, tail)
  end.

Definition hash_tail (h1 : Z) (tail : list Z) : Z :=
  match tail with
  | [t0; t1; t2] =>
      Z.lxor h1 (mix_k (Z.lxor (Z.lxor (Z.shiftl t2 16) (Z.shiftl t1 8)) t0))
  | [t0; t1] => Z.lxor h1 (mix_k (Z.lxor (Z.shiftl t1 8) t0))
  | [t0] => Z.lxor h1 (mix_k t0)
  | _ => h1
  end.

Definition hasher (data : list Z) : Z :=
  let '(h1, tail) := hash_body data 0 in
  u32 (fmix (u32 (Z.lxor (hash_tail h1 tail) (zlen data)))).

(** Published Murmur3_x86_32 vectors (seed 0). *)
Example hasher_empty : hasher [] = 0.
Proof. reflexivity. Qed.
Example hasher_test : hasher [116; 101; 115; 116] = 0xba6bd213.
Proof. reflexivity. Qed.
Example hasher_hello : hasher [104; 101; 108; 108; 111] = 0x248bfa47.
Proof. reflexivity. Qed.

Lemma hasher_range data : 0 <= hasher data < 2 ^ 32.
Proof. unfold hasher. destruct (hash_body data 0). apply u32_range. Qed.

(** [hasher(...) % numHashBuckets]: the [int] bucket count is converted to
    [uint32_t] by the mixed-sign modulo. *)
Definition bucket_of (data : list Z) (numHashBuckets : Z) : Z :=
  i32 (hasher data mod u32 numHashBuckets).

Lemma bucket_of_range data nb : 0 < nb < 2 ^ 31 -> 0 <= bucket_of data nb < nb.
Proof.
  intros Hnb. unfold bucket_of. rewrite (u32_small nb) by lia.
  pose proof (Z.mod_pos_bound (hasher data) nb). rewrite i32_small; lia.
Qed.

Global Opaque hasher.
