(* ===== verification/Bytes.v ===== *)
(** * Integers in files

    Little-endian encodings as the BRM's save files use them, and their
    round-trip lemmas. *)

From S2P Require Import Prelude Hasher.
From stdpp Require Import prelude.
Local Open Scope Z_scope.

(** The value of an unsigned little-endian integer. *)
Fixpoint le_val (bs : list Z) : Z :=
  match bs with
  | [] => 0
  | b :: bs' => b + 2 ^ 8 * le_val bs'
  end.

Lemma length_le_bytes n z : length (le_bytes n z) = n.
Proof. revert z. induction n as [|n IH]; intros z; simpl; [done|]. by rewrite IH. Qed.

Lemma le_val_bytes n z : le_val (le_bytes n z) = z mod 2 ^ (8 * Z.of_nat n).
Proof.
  revert z. induction n as [|n IH]; intros z.
  - simpl. by rewrite Z.mod_1_r.
  - cbn [le_bytes le_val]. rewrite IH, Z.shiftr_div_pow2 by lia. unfold u8.
    replace (8 * Z.of_nat (S n)) with (8 + 8 * Z.of_nat n) by lia.
    rewrite Z.pow_add_r by lia. rewrite Z.rem_mul_r by lia. done.
Qed.

Lemma le_val_u n z : 0 <= z < 2 ^ (8 * Z.of_nat n) -> le_val (le_bytes n z) = z.
Proof. intros. rewrite le_val_bytes. by apply Z.mod_small. Qed.

(** A signed 32-bit value survives the trip through its bytes. *)
Lemma le_val_i32 z : - 2 ^ 31 <= z < 2 ^ 31 -> i32 (le_val (le_bytes 4 z)) = z.
Proof.
  intros Hz. rewrite le_val_bytes. change (8 * Z.of_nat 4) with 32. unfold i32.
  rewrite Zplus_mod_idemp_l. by apply i32_small.
Qed.

Lemma i32_range z : - 2 ^ 31 <= i32 z < 2 ^ 31.
Proof. unfold i32. pose proof (Z.mod_pos_bound (z + 2 ^ 31) (2 ^ 32)). lia. Qed.

(** A read of [n] bytes from the rest of a file. *)
Definition get_bytes (n : nat) (bs : list Z) : outcome (list Z * list Z) :=
  if (length bs <? n)%nat then Fault Uninitialised else Val (take n bs, drop n bs).

Lemma get_bytes_app n bs rest : length bs = n -> get_bytes n (bs ++ rest) = Val (bs, rest).
Proof.
  intros Hn. unfold get_bytes. destruct (Nat.ltb_spec (length (bs ++ rest)) n) as [Hlt|_].
  { rewrite length_app in Hlt. lia. }
  by rewrite take_app_length', drop_app_length' by done.
Qed.

Lemma get_le_bytes n z rest : get_bytes n (le_bytes n z ++ rest) = Val (le_bytes n z, rest).
Proof. apply get_bytes_app, length_le_bytes. Qed.
