(* ===== verification/ByteStream.v ===== *)
(** * Byte streams

    utils/messageqcpp/bytestream.h and bytestream.cpp: the messages of the BRM.  A
    stream is the list of the bytes that are left to read; [<<] appends, [>>] takes
    from the front and throws when there is too little left.  The vector and set
    templates of bytestream.h, and the Serializeable classes of brmtypes.cpp and
    logicalpartition.h that messages contain.

    [reads g bs a]: the reader [g] takes exactly the bytes [bs] off any stream that
    starts with them and returns [a]; the round trips are proved with it. *)

From S2P Require Import Prelude Hasher Bytes.
From stdpp Require Import prelude gmap strings sorting.
Local Open Scope Z_scope.

Module ByteStream.

Abbreviation stream := (list Z).

(** ** Writing *)
Definition put8 (v : Z) : stream := le_bytes 1 v.
Definition put16 (v : Z) : stream := le_bytes 2 v.
Definition put32 (v : Z) : stream := le_bytes 4 v.
Definition put64 (v : Z) : stream := le_bytes 8 v.
Definition put128 (v : Z) : stream := le_bytes 16 v.
Definition put_string (s : list Z) : stream := put32 (zlen s) ++ s.

(** [serializeVector] and [serializeSet]: the number of elements, then each. *)
Definition serializeVector {A} (put : A -> stream) (v : list A) : stream := put64 (zlen v) ++ (v ≫= put).

(** [serializeInlineVector]: the number of elements and their memory. *)
Definition serializeInlineVector {A} (layout : A -> stream) (v : list A) : stream :=
  put64 (zlen v) ++ (if 0 <? zlen v then v ≫= layout else []).

(** ** Reading *)
Definition underflow : exn := runtime_error "ByteStream: not enough data in stream to fill datatype".
Definition length_error : exn := logic_error "ByteStream: advanced beyond the end of the buffer".
Definition ProtocolError : exn := logic_error "expected a string".

(** [peek] of an integer of [n] bytes. *)
Definition peek (n : nat) (bs : stream) : outcome Z :=
  if (length bs <? n)%nat then Exn underflow else Val (le_val (take n bs)).

Definition get (n : nat) : M stream Z :=
  v ← lift (peek n); modify (drop n) ;; mret v.

Definition get8 : M stream Z := get 1.
Definition get16 : M stream Z := get 2.
Definition get32 : M stream Z := get 4.
Definition get64 : M stream Z := get 8.
Definition get128 : M stream Z := get 16.

Definition get_string : M stream (list Z) :=
  len ← lift (peek 4);
  let len := i32 len in
  if len <? 0 then throw ProtocolError
  else
    short ← gets (fun bs => zlen bs <? u32 (len + 4));
    if (short : bool) then throw underflow
    else
      s ← gets (fun bs => take (Z.to_nat len) (drop 4 bs));
      modify (drop (4 + Z.to_nat len)) ;; mret s.

(** [for (i = 0; i < n; i++) { bs >> tmp; v.push_back(tmp); }]; every element takes
    at least a byte, so the loop ends, with an underflow if need be, within the
    number of bytes there are and one more round. *)
Fixpoint get_loop {A} (fuel : nat) (g : M stream A) (n : Z) : M stream (list A) :=
  if n <=? 0 then mret []
  else match fuel with
       | O => fail_with OutOfFuel
       | S f => x ← g; xs ← get_loop f g (n - 1); mret (x :: xs)
       end.

Definition get_list {A} (g : M stream A) (n : Z) : M stream (list A) :=
  fuel ← gets (fun bs => S (length bs)); get_loop fuel g n.

Definition deserializeVector {A} (g : M stream A) : M stream (list A) := n ← get64; get_list g n.

(** The elements of the buffer, [size] bytes each. *)
Fixpoint elements_of {A} (decode : list Z -> A) (size n : nat) (buf : list Z) : list A :=
  match n with
  | O => []
  | S n' => decode (take size buf) :: elements_of decode size n' (drop size buf)
  end.

(** [deserializeInlineVector] copies before it checks the length: a count that is too
    large reads past the end of the buffer. *)
Definition deserializeInlineVector {A} (decode : list Z -> A) (size : nat) : M stream (list A) :=
  n ← get64;
  if 0 <? n then
    short ← gets (fun bs => zlen bs <? Z.of_nat size * n);
    if (short : bool) then fail_with OutOfBounds
    else
      v ← gets (fun bs => elements_of decode size (Z.to_nat n) bs);
      modify (drop (size * Z.to_nat n)) ;; mret v
  else mret [].

(** ** The elements of a [std::set], in its order *)
Section set.
Context {A : Type} (lt : A -> A -> bool).

Fixpoint set_insert (x : A) (s : list A) : list A :=
  match s with
  | [] => [x]
  | y :: s' => if lt x y then x :: s else if lt y x then y :: set_insert x s' else s
  end.

Definition to_set (v : list A) : list A := foldl (fun s x => set_insert x s) [] v.

Definition deserializeSet (g : M stream A) : M stream (list A) := v ← deserializeVector g; mret (to_set v).

Lemma set_insert_last x s : Forall (fun y => lt x y = false /\ lt y x = true) s -> set_insert x s = s ++ [x].
Proof. induction 1 as [|y s [H1 H2] _ IH]; [done|]. simpl. by rewrite H1, H2, IH. Qed.

(** The elements of a set are read back in their order. *)
Lemma to_set_id v : StronglySorted (fun x y => lt y x = false /\ lt x y = true) v -> to_set v = v.
Proof.
  unfold to_set. cut (forall acc, StronglySorted (fun x y => lt y x = false /\ lt x y = true) (acc ++ v) ->
    foldl (fun s x => set_insert x s) acc v = acc ++ v); [intros H Hv; by apply (H [])|].
  induction v as [|x v IH]; intros acc Hs; [by rewrite app_nil_r|]. simpl. rewrite set_insert_last.
  - rewrite IH; [by rewrite <- app_assoc|]. by rewrite <- app_assoc.
  - apply Forall_forall. intros y Hy. apply list_elem_of_split in Hy as (l1 & l2 & ->).
    rewrite <- app_assoc in Hs. clear -Hs. induction l1 as [|z l1 IH]; simpl in Hs.
    + apply StronglySorted_inv in Hs as [_ Hf]. rewrite Forall_app in Hf. destruct Hf as [_ Hf]. by apply Forall_cons in Hf as [? _].
    + apply StronglySorted_inv in Hs as [Hs _]. by apply IH.
Qed.
End set.

(** ** Round trips *)
Definition reads {A} (g : M stream A) (bs : stream) (a : A) : Prop := forall rest, g (bs ++ rest) = (Val a, rest).

Lemma reads_ret {A} (a : A) : reads (mret a) [] a.
Proof. intros rest. done. Qed.

Lemma reads_bind {A B} (g : M stream A) (f : A -> M stream B) bs bs' a b :
  reads g bs a -> reads (f a) bs' b -> reads (g ≫= f) (bs ++ bs') b.
Proof. intros H H' rest. unfold mbind, M_bind. by rewrite <- app_assoc, H, H'. Qed.

Lemma reads_last {A B} (g : M stream A) (f : A -> B) bs a : reads g bs a -> reads (x ← g; mret (f x)) bs (f a).
Proof. intros H. rewrite <- (app_nil_r bs). eapply reads_bind; [exact H|apply reads_ret]. Qed.

Lemma reads_end {A B} (g : M stream A) (f : A -> M stream B) bs a b :
  reads g bs a -> reads (f a) [] b -> reads (g ≫= f) bs b.
Proof. intros H H'. rewrite <- (app_nil_r bs). by eapply reads_bind. Qed.

Lemma reads_get n v : 0 <= v < 2 ^ (8 * Z.of_nat n) -> reads (get n) (le_bytes n v) v.
Proof.
  intros Hv rest. unfold get, peek, lift, modify, mbind, M_bind.
  destruct (Nat.ltb_spec (length (le_bytes n v ++ rest)) n) as [Hlt|_].
  { rewrite length_app, length_le_bytes in Hlt. lia. }
  rewrite take_app_length', drop_app_length' by (by rewrite length_le_bytes). by rewrite le_val_u.
Qed.

(** A value that is narrowed when it is written. *)
Lemma reads_get_mod n v : reads (get n) (le_bytes n v) (v mod 2 ^ (8 * Z.of_nat n)).
Proof.
  intros rest. unfold get, peek, lift, modify, mbind, M_bind.
  destruct (Nat.ltb_spec (length (le_bytes n v ++ rest)) n) as [Hlt|_].
  { rewrite length_app, length_le_bytes in Hlt. lia. }
  rewrite take_app_length', drop_app_length' by (by rewrite length_le_bytes). by rewrite le_val_bytes.
Qed.

Lemma reads_get8 v : 0 <= v < 2 ^ 8 -> reads get8 (put8 v) v.
Proof. apply (reads_get 1). Qed.
Lemma reads_get16 v : 0 <= v < 2 ^ 16 -> reads get16 (put16 v) v.
Proof. apply (reads_get 2). Qed.
Lemma reads_get32 v : 0 <= v < 2 ^ 32 -> reads get32 (put32 v) v.
Proof. apply (reads_get 4). Qed.
Lemma reads_get64 v : 0 <= v < 2 ^ 64 -> reads get64 (put64 v) v.
Proof. apply (reads_get 8). Qed.

Lemma reads_string s : zlen s < 2 ^ 31 - 4 -> reads get_string (put_string s) s.
Proof.
  intros Hs rest. assert (0 <= zlen s) by (unfold zlen; lia). unfold get_string, put_string, lift, peek, gets, modify, throw, mbind, M_bind.
  pose proof (length_le_bytes 4 (zlen s)) as Hl. unfold put32.
  destruct (Nat.ltb_spec (length ((le_bytes 4 (zlen s) ++ s) ++ rest)) 4) as [Hlt|_].
  { rewrite !length_app, Hl in Hlt. lia. }
  rewrite <- !app_assoc, take_app_length' by done. rewrite le_val_u by lia. rewrite i32_small by lia.
  destruct (Z.ltb_spec (zlen s) 0); [lia|]. rewrite u32_small by lia.
  destruct (Z.ltb_spec (zlen (le_bytes 4 (zlen s) ++ s ++ rest)) (zlen s + 4)) as [Hlt|_].
  { unfold zlen in *. rewrite !length_app, Hl in Hlt. lia. }
  rewrite drop_app_length' by done. rewrite take_app_length' by (unfold zlen; lia).
  replace (4 + Z.to_nat (zlen s))%nat with (length (le_bytes 4 (zlen s) ++ s)) by (rewrite length_app, Hl; unfold zlen; lia).
  by rewrite app_assoc, drop_app_length.
Qed.

(** A reader may normalise what it reads: [f x] is what is read of [x]. *)
Lemma reads_loop {A B} (g : M stream B) (put : A -> stream) (f : A -> B) v : forall fuel,
  Forall (fun x => reads g (put x) (f x)) v -> (length v <= fuel)%nat ->
  reads (get_loop fuel g (zlen v)) (v ≫= put) (f <$> v).
Proof.
  induction v as [|x v IH]; intros fuel Hv Hf rest.
  { by destruct fuel. }
  apply Forall_cons in Hv as [Hx Hv]. destruct fuel as [|fuel]; simpl in Hf; [lia|]. cbn [get_loop].
  assert (zlen (x :: v) = zlen v + 1) as -> by (unfold zlen; simpl; lia).
  destruct (Z.leb_spec (zlen v + 1) 0); [unfold zlen in *; lia|]. replace (zlen v + 1 - 1) with (zlen v) by lia.
  simpl. eapply (reads_bind g _ (put x) (v ≫= put)); [exact Hx|].
  apply (reads_last _ (cons (f x))). by apply IH; [|lia].
Qed.

Lemma length_bind_ge {A} (put : A -> stream) v :
  Forall (fun x => (0 < length (put x))%nat) v -> (length v <= length (v ≫= put))%nat.
Proof. induction 1; [done|]. rewrite bind_cons, length_app. simpl. lia. Qed.

Lemma reads_list_map {A B} (g : M stream B) (put : A -> stream) (f : A -> B) v :
  Forall (fun x => reads g (put x) (f x)) v -> Forall (fun x => (0 < length (put x))%nat) v ->
  reads (get_list g (zlen v)) (v ≫= put) (f <$> v).
Proof.
  intros Hv Hp rest. change (get_loop (S (length ((v ≫= put) ++ rest))) g (zlen v) ((v ≫= put) ++ rest) = (Val (f <$> v), rest)).
  apply reads_loop; [done|]. rewrite length_app. pose proof (length_bind_ge put v Hp).
  lia.
Qed.

Lemma reads_list {A} (g : M stream A) (put : A -> stream) v :
  Forall (fun x => reads g (put x) x) v -> Forall (fun x => (0 < length (put x))%nat) v ->
  reads (get_list g (zlen v)) (v ≫= put) v.
Proof. intros Hv Hp. rewrite <- (list_fmap_id v) at 3. by apply reads_list_map. Qed.

Lemma reads_vector {A} (g : M stream A) (put : A -> stream) v :
  zlen v < 2 ^ 64 -> Forall (fun x => reads g (put x) x) v -> Forall (fun x => (0 < length (put x))%nat) v ->
  reads (deserializeVector g) (serializeVector put v) v.
Proof.
  intros Hl Hv Hp. eapply reads_bind; [apply reads_get64; unfold zlen in *; lia|]. by apply reads_list.
Qed.

Lemma elements_of_app {A} (decode : list Z -> A) (layout : A -> list Z) size v rest :
  Forall (fun x => decode (layout x) = x /\ length (layout x) = size) v ->
  elements_of decode size (length v) ((v ≫= layout) ++ rest) = v.
Proof.
  induction 1 as [|x v [Hd Hs] _ IH]; [done|]. rewrite bind_cons. cbn [elements_of length]. rewrite <- app_assoc, take_app_length', drop_app_length' by done.
  by rewrite Hd, IH.
Qed.

Lemma length_bind_eq {A} (layout : A -> list Z) size v :
  Forall (fun x => length (layout x) = size) v -> length (v ≫= layout) = (size * length v)%nat.
Proof. induction 1; [simpl; lia|]. rewrite bind_cons, length_app. simpl. lia. Qed.

Lemma reads_inline {A} (decode : list Z -> A) (layout : A -> list Z) size v :
  zlen v < 2 ^ 64 -> Forall (fun x => decode (layout x) = x /\ length (layout x) = size) v ->
  reads (deserializeInlineVector decode size) (serializeInlineVector layout v) v.
Proof.
  intros Hl Hv. eapply reads_bind; [apply reads_get64; unfold zlen in *; lia|].
  destruct (Z.ltb_spec 0 (zlen v)) as [Hpos|Hz].
  2: { assert (v = []) as -> by (destruct v; [done|]; unfold zlen in Hz; simpl in Hz; lia). apply reads_ret. }
  assert (length (v ≫= layout) = (size * length v)%nat) as Hlen.
  { apply length_bind_eq. eapply Forall_impl; [exact Hv|]. by intros x [_ ?]. }
  intros rest. pose proof (elements_of_app decode layout size v rest Hv) as Hel.
  revert Hlen Hel. generalize (v ≫= layout) as bs. intros bs Hlen Hel. unfold gets, modify, mbind, M_bind.
  destruct (Z.ltb_spec (zlen (bs ++ rest)) (Z.of_nat size * zlen v)) as [Hlt|_].
  { unfold zlen in Hlt. rewrite length_app, Hlen in Hlt. lia. }
  replace (Z.to_nat (zlen v)) with (length v) by (unfold zlen; lia).
  rewrite Hel. by rewrite drop_app_length' by done.
Qed.

Create HintDb reads.
#[export] Hint Resolve reads_ret reads_get8 reads_get16 reads_get32 reads_get64 : reads.
End ByteStream.
