(* ===== verification/Undoable.v ===== *)
(** * Undoable: the undo log every BRM structure inherits

    versioning/BRM/undoable.{h,cpp}.  A structure logs the bytes of a location
    before it overwrites them ([makeUndoRecord]); [undoChanges] copies the logged
    images back, newest first, and [confirmChanges] forgets them.

    The memory the log points into is an interface, [UndoMem]: typed locations
    that can be read and overwritten.  A location carries the shared-memory
    segment it was taken in, so a write through an address of a segment that is
    no longer mapped is the fault [StaleAddress]. *)

From S2P Require Import Prelude.
From stdpp Require Import prelude strings.
Local Open Scope Z_scope.

(** What a structure promises to its undo log. *)
Class UndoMem (Mem Loc Data : Type) := {
  um_read : Loc -> Mem -> outcome Data;
  um_write : Loc -> Data -> Mem -> outcome Mem;
  um_size : Loc -> Z;
  (** writing back the image read before a write restores the memory *)
  um_restore l d v m m' :
    um_read l m = Val d -> um_write l v m = Val m' -> um_write l d m' = Val m;
  (** writing back the image just read changes nothing *)
  um_same l d m : um_read l m = Val d -> um_write l d m = Val m
}.

Definition ID_MAXSIZE : Z := 200.

Section undoable.
Context `{UM : UndoMem Mem Loc Data}.

(** [size] is [um_size start], a function of the location's type. *)
Record ImageDelta := { start : Loc; data : Data }.

Definition makeUndoRecord (l : Loc) (m : Mem) (undoRecords : list ImageDelta) :
    outcome (list ImageDelta) :=
  if ID_MAXSIZE <? um_size l
  then Exn (overflow_error "Undoable::makeUndoRecord(): size > max")
  else match um_read l m with
       | Val d => Val (undoRecords ++ [{| start := l; data := d |}])
       | Exn e => Exn e
       | Fault f => Fault f
       end.

(** The loop of [undoChanges] over the records in the order it visits them. *)
Fixpoint restore (recs : list ImageDelta) (m : Mem) : outcome Mem :=
  match recs with
  | [] => Val m
  | r :: recs' =>
      match um_write (start r) (data r) m with
      | Val m' => restore recs' m'
      | Exn e => Exn e
      | Fault f => Fault f
      end
  end.

(** Memory and log after [undoChanges] / [confirmChanges]. *)
Definition undoChanges (undoRecords : list ImageDelta) (m : Mem) : outcome (Mem * list ImageDelta) :=
  match restore (rev undoRecords) m with
  | Val m' => Val (m', [])
  | Exn e => Exn e
  | Fault f => Fault f
  end.

Definition confirmChanges (undoRecords : list ImageDelta) : list ImageDelta := [].

Lemma restore_app r1 r2 m m1 : restore r1 m = Val m1 -> restore (r1 ++ r2) m = restore r2 m1.
Proof.
  revert m. induction r1 as [|r r1 IH]; intros m; simpl; [congruence|].
  destruct (um_write _ _ _); [apply IH|done..].
Qed.

(** [undoes m0 r0 m1 r1]: from memory [m0] with log [r0] the structure moved
    to [m1] with log [r1], and undoing the new part of the log leads back. *)
Definition undoes (m0 : Mem) (r0 : list ImageDelta) (m1 : Mem) (r1 : list ImageDelta) : Prop :=
  exists new, r1 = r0 ++ new /\ restore (rev new) m1 = Val m0.

Lemma undoes_refl m r : undoes m r m r.
Proof. exists []. by rewrite app_nil_r. Qed.

Lemma undoes_trans m0 r0 m1 r1 m2 r2 :
  undoes m0 r0 m1 r1 -> undoes m1 r1 m2 r2 -> undoes m0 r0 m2 r2.
Proof.
  intros (n1 & -> & H1) (n2 & -> & H2). exists (n1 ++ n2). split; [by rewrite app_assoc|].
  rewrite rev_app_distr. by rewrite (restore_app _ _ _ _ H2).
Qed.

(** One logged write. *)
Lemma undoes_write l d v m m' r :
  um_read l m = Val d -> um_write l v m = Val m' ->
  undoes m r m' (r ++ [{| start := l; data := d |}]).
Proof.
  intros Hr Hw. exists [{| start := l; data := d |}]. split; [done|].
  simpl. by rewrite (um_restore _ _ _ _ _ Hr Hw).
Qed.

(** A structure whose log was empty and that only made logged writes is
    restored exactly. *)
Lemma undoes_undoChanges m0 m r : undoes m0 [] m r -> undoChanges r m = Val (m0, []).
Proof. intros (n & -> & H). unfold undoChanges. simpl. by rewrite H. Qed.
End undoable.

Arguments ImageDelta : clear implicits.

#[export] Hint Resolve undoes_refl : core.
