(* ===== verification/Vbbm.v ===== *)
(** * The Version Buffer Block Map

    versioning/BRM/vbbm.{h,cpp}.  For every block copied to the version buffer
    the VBBM maps [<LBID, VerID>] to the file and block offset of the copy.  The
    model keeps the segment as the code lays it out (header, file metadata, hash
    buckets, entry storage), the undo log and the master-segment-table entry. *)

From S2P Require Import Prelude Chain Hasher Undoable.
From stdpp Require Import prelude gmap strings.
Local Open Scope Z_scope.

Module VBBM.

(** ** Data *)
Record VBFileMetadata := mkFile { OID : Z; fileSize : Z; nextOffset : Z }.

Record VBBMEntry := mkEntry { lbid : Z; verID : Z; vbOID : Z; vbFBO : Z; next : Z }.

Record VBShmsegHeader := mkHdr {
  nFiles : Z; vbCapacity : Z; vbCurrentSize : Z; vbLWM : Z; numHashBuckets : Z }.

(** The mapped shared-memory segment and its key. *)
Record Seg := mkSeg {
  shmkey : Z; hdr : VBShmsegHeader; files : list VBFileMetadata;
  hashBuckets : list Z; storage : list VBBMEntry }.

Global Instance VBFileMetadata_eq_dec : EqDecision VBFileMetadata.
Proof. solve_decision. Defined.
Global Instance VBBMEntry_eq_dec : EqDecision VBBMEntry.
Proof. solve_decision. Defined.
Global Instance VBShmsegHeader_eq_dec : EqDecision VBShmsegHeader.
Proof. solve_decision. Defined.

Definition with_nFiles n h := mkHdr n (vbCapacity h) (vbCurrentSize h) (vbLWM h) (numHashBuckets h).
Definition with_size n h := mkHdr (nFiles h) (vbCapacity h) n (vbLWM h) (numHashBuckets h).
Definition with_LWM n h := mkHdr (nFiles h) (vbCapacity h) (vbCurrentSize h) n (numHashBuckets h).
Definition with_lbid n e := mkEntry n (verID e) (vbOID e) (vbFBO e) (next e).
Definition with_next n e := mkEntry (lbid e) (verID e) (vbOID e) (vbFBO e) n.
Definition set_hdr h g := mkSeg (shmkey g) h (files g) (hashBuckets g) (storage g).
Definition set_files f g := mkSeg (shmkey g) (hdr g) f (hashBuckets g) (storage g).
Definition set_buckets b g := mkSeg (shmkey g) (hdr g) (files g) b (storage g).
Definition set_storage st g := mkSeg (shmkey g) (hdr g) (files g) (hashBuckets g) st.

(** ** Undo locations: what [makeUndoRecord] is called on *)
Inductive Loc :=
| LHeader (key : Z)
| LSize (key : Z)
| LFile (key i : Z)
| LBucket (key i : Z)
| LEntry (key i : Z).

Inductive Data :=
| DHeader (h : VBShmsegHeader)
| DInt (n : Z)
| DFile (f : VBFileMetadata)
| DEntry (e : VBBMEntry).

Definition sizeof_int : Z := 4.
Definition sizeof_VBShmsegHeader : Z := 20.
Definition sizeof_VBFileMetadata : Z := 24.
Definition sizeof_VBBMEntry : Z := 24.

Definition loc_key (l : Loc) : Z :=
  match l with
  | LHeader k | LSize k | LFile k _ | LBucket k _ | LEntry k _ => k
  end.

Definition read_loc (l : Loc) (g : Seg) : outcome Data :=
  if loc_key l =? shmkey g then
    match l with
    | LHeader _ => Val (DHeader (hdr g))
    | LSize _ => Val (DInt (vbCurrentSize (hdr g)))
    | LFile _ i => f ← aget (files g) i; Val (DFile f)
    | LBucket _ i => b ← aget (hashBuckets g) i; Val (DInt b)
    | LEntry _ i => e ← aget (storage g) i; Val (DEntry e)
    end
  else Fault StaleAddress.

Definition write_loc (l : Loc) (d : Data) (g : Seg) : outcome Seg :=
  if loc_key l =? shmkey g then
    match l, d with
    | LHeader _, DHeader h => Val (set_hdr h g)
    | LSize _, DInt n => Val (set_hdr (with_size n (hdr g)) g)
    | LFile _ i, DFile f => _ ← aget (files g) i; Val (set_files (zset (files g) i f) g)
    | LBucket _ i, DInt b => _ ← aget (hashBuckets g) i; Val (set_buckets (zset (hashBuckets g) i b) g)
    | LEntry _ i, DEntry e => _ ← aget (storage g) i; Val (set_storage (zset (storage g) i e) g)
    | _, _ => Fault OutOfBounds
    end
  else Fault StaleAddress.

Definition loc_size (l : Loc) : Z :=
  match l with
  | LHeader _ => sizeof_VBShmsegHeader
  | LSize _ => sizeof_int
  | LFile _ _ => sizeof_VBFileMetadata
  | LBucket _ _ => sizeof_int
  | LEntry _ _ => sizeof_VBBMEntry
  end.

Global Program Instance vbbm_mem : UndoMem Seg Loc Data :=
  {| um_read := read_loc; um_write := write_loc; um_size := loc_size |}.
Next Obligation.
  intros l d v [k h f bk st] m'. unfold read_loc, write_loc. simpl.
  destruct (Z.eqb_spec (loc_key l) k) as [Hk|]; [|done].
  destruct l; simpl in *; subst; intros Hr Hw; destruct v; simplify_eq/=; unfold aget in *;
    repeat case_match; simplify_eq/=; try (rewrite ?zset_zset, ?zset_id by done; done);
    try (destruct h; done); try (by rewrite Z.eqb_refl in *).
  all: rewrite zget_zset_eq in * by eauto using zget_Some_range; simplify_eq.
Qed.
Next Obligation.
  intros l d [k h f bk st]. unfold read_loc, write_loc. simpl.
  destruct (Z.eqb_spec (loc_key l) k) as [Hk|]; [|done].
  destruct l; simpl in *; intros Hr; simplify_eq/=; unfold aget in *;
    repeat case_match; simplify_eq/=; rewrite ?zset_id by done; try done; destruct h; done.
Qed.

(** ** The object

    [seg] is the mapped segment, [allocdSize] the size recorded in the master
    segment table (0: no segment exists yet), [cfgFileSize] the value of
    VersionBuffer/VersionBufferFileSize in the configuration ([None]: no such
    key). *)
Record t := mk {
  seg : Seg; allocdSize : Z; undoRecords : list (ImageDelta Loc Data);
  currentFileSize : Z; cfgFileSize : option Z }.

Definition set_seg g s := mk g (allocdSize s) (undoRecords s) (currentFileSize s) (cfgFileSize s).
Definition set_alloc n s := mk (seg s) n (undoRecords s) (currentFileSize s) (cfgFileSize s).
Definition set_undo u s := mk (seg s) (allocdSize s) u (currentFileSize s) (cfgFileSize s).
Definition set_cfs n s := mk (seg s) (allocdSize s) (undoRecords s) n (cfgFileSize s).

Definition VBSTORAGE_INITIAL_COUNT : Z := 100000.
Definition VBSTORAGE_INITIAL_SIZE : Z := VBSTORAGE_INITIAL_COUNT * sizeof_VBBMEntry.
Definition VBSTORAGE_INCREMENT_COUNT : Z := 10000.
Definition VBSTORAGE_INCREMENT : Z := VBSTORAGE_INCREMENT_COUNT * sizeof_VBBMEntry.
Definition VBTABLE_INITIAL_SIZE : Z := 25000 * sizeof_int.
Definition VBTABLE_INCREMENT : Z := 2500 * sizeof_int.
Definition VBBM_INCREMENT : Z := VBTABLE_INCREMENT + VBSTORAGE_INCREMENT.
Definition VBBM_SIZE (nfiles entries : Z) : Z :=
  entries * sizeof_VBBMEntry + entries / 4 * sizeof_int + nfiles * sizeof_VBFileMetadata
  + sizeof_VBShmsegHeader.

Definition KEYRANGE_SIZE : Z := 0x10000.
Definition KEYRANGE_VBBM_BASE : Z := 0x40000.

Definition chooseShmkey (tableShmkey : Z) : Z :=
  if (tableShmkey + 1 =? KEYRANGE_VBBM_BASE + KEYRANGE_SIZE - 1)
     || (u32 tableShmkey <? KEYRANGE_VBBM_BASE)
  then KEYRANGE_VBBM_BASE + 1
  else tableShmkey + 1.

(** An entry of a zeroed segment whose [lbid] was set to -1. *)
Definition blank : VBBMEntry := mkEntry (-1) 0 0 0 0.
Definition zeroFile : VBFileMetadata := mkFile 0 0 0.

Definition makeUndo (loc : Z -> Loc) : M t unit := fun s =>
  match makeUndoRecord (loc (shmkey (seg s))) (seg s) (undoRecords s) with
  | Val r => (Val tt, set_undo r s)
  | Exn e => (Exn e, s)
  | Fault f => (Fault f, s)
  end.

Definition setCurrentFileSize : M t unit :=
  modify (set_cfs 2147483648) ;;
  cfg ← gets cfgFileSize;
  match cfg with
  | None => throw (invalid_argument
      "VBBM: Missing a VersionBuffer/VersionBufferFileSize key in the config file")
  | Some ltmp =>
      if ltmp <? 1
      then throw (invalid_argument
        "VBBM: Config error: VersionBuffer/VersionBufferFileSize must be positive")
      else modify (set_cfs ltmp)
  end.

(** [initShmseg] on a zeroed segment with key [key] and file metadata [fs]. *)
Definition initShmseg (key : Z) (fs : list VBFileMetadata) : M t unit :=
  let cap := VBSTORAGE_INITIAL_SIZE / sizeof_VBBMEntry in
  let nb := VBTABLE_INITIAL_SIZE / sizeof_int in
  setCurrentFileSize ;;
  modify (set_seg (mkSeg key (mkHdr (zlen fs) cap 0 0 nb) fs
    (replicate (Z.to_nat nb) (-1)) (replicate (Z.to_nat cap) blank))).

(** ** Hash table operations *)
Definition hash_key (l v : Z) : list Z := le_bytes 8 l ++ le_bytes 4 v.

(** [lbid != -1]: the slot is in use. *)
Definition used (e : VBBMEntry) : bool := negb (lbid e =? -1).

Definition _insert (e : VBBMEntry) (dest : Seg) (loading : bool)
    (recs : list (ImageDelta Loc Data)) : outcome (Seg * list (ImageDelta Loc Data)) :=
  let k := shmkey dest in
  let hashIndex := bucket_of (hash_key (lbid e) (verID e)) (numHashBuckets (hdr dest)) in
  insertIndex ← find_empty used (storage dest) (length (storage dest)) (vbLWM (hdr dest));
  recs' ← (if loading then Val recs
           else r1 ← makeUndoRecord (LHeader k) dest recs;
                r2 ← makeUndoRecord (LEntry k insertIndex) dest r1;
                makeUndoRecord (LBucket k hashIndex) dest r2);
  head ← aget (hashBuckets dest) hashIndex;
  Val (mkSeg k (with_LWM insertIndex (hdr dest)) (files dest)
         (zset (hashBuckets dest) hashIndex insertIndex)
         (zset (storage dest) insertIndex (with_next head e)), recs').

(** The re-hash loop of [copyVBBM]: [for (i = 0; i < vbCurrentSize; i++)]. *)
Fixpoint copy_entries (src : list VBBMEntry) (n : nat) (i : Z) (dest : Seg) : outcome Seg :=
  match n with
  | O => Val dest
  | S n' =>
      e ← aget src i;
      dest' ← (if lbid e =? -1 then Val dest
               else '(d, _) ← _insert e dest true []; Val d);
      copy_entries src n' (i + 1) dest'
  end.

(** [memcpy(newFiles, files, sizeof(VBFileMetadata) * nFiles)] after [nFiles++]
    reads one element past the old file array: the bytes of the first six hash
    buckets. *)
Definition bucket_bytes_file (bk : list Z) : VBFileMetadata :=
  let b n := default 0 (zget bk n) in
  mkFile (b 0) (u32 (b 2) + 2 ^ 32 * u32 (b 3)) (u32 (b 4) + 2 ^ 32 * u32 (b 5)).

(** [copyVBBM]: [key], [cap], [nb] are what the caller stored in [dest]. *)
Definition copyVBBM (src : Seg) (key cap nb : Z) : outcome Seg :=
  let fs := if nFiles (hdr src) =? zlen (files src) then files src
            else files src ++ [bucket_bytes_file (hashBuckets src)] in
  copy_entries (storage src) (Z.to_nat (vbCurrentSize (hdr src))) 0
    (mkSeg key (mkHdr (nFiles (hdr src)) cap (vbCurrentSize (hdr src)) 0 nb) fs
       (replicate (Z.to_nat nb) (-1)) (replicate (Z.to_nat cap) blank)).

(** [growVBBM]: create the segment, add a file slot, or enlarge the tables.  The
    size in bytes is an [int], and one past it is the fault [SignedOverflow]; the
    capacity and the number of buckets count parts of the segment, so they fit when
    the size does. *)
Definition growVBBM (addAFile : bool) : M t unit :=
  az ← gets allocdSize;
  newshmkey ← gets (fun s => chooseShmkey (shmkey (seg s)));
  if az =? 0 then
    let nf := if addAFile then 1 else 0 in
    initShmseg newshmkey (replicate (Z.to_nat nf) zeroFile) ;;
    modify (set_alloc (sizeof_VBShmsegHeader + nf * sizeof_VBFileMetadata
                       + VBSTORAGE_INITIAL_SIZE + VBTABLE_INITIAL_SIZE))
  else
    allocSize ← (if addAFile
      then modify (fun s => set_seg (set_hdr (with_nFiles (nFiles (hdr (seg s)) + 1) (hdr (seg s)))
                                              (seg s)) s) ;;
           mret (az + sizeof_VBFileMetadata)
      else mret (az + VBBM_INCREMENT));
    if 2 ^ 31 <=? allocSize then fail_with SignedOverflow else
    src ← gets seg;
    let cap := vbCapacity (hdr src)
               + (if addAFile then 0 else VBSTORAGE_INCREMENT / sizeof_VBBMEntry) in
    let nb := numHashBuckets (hdr src)
              + (if addAFile then 0 else VBTABLE_INCREMENT / sizeof_int) in
    g ← lift (fun _ => copyVBBM src newshmkey cap nb);
    modify (fun s => set_alloc allocSize (set_undo [] (set_seg g s))).

(** [insert] once the segment has room: link the entry, then count it. *)
Definition insert_entry (e : VBBMEntry) (loading : bool) : M t unit :=
  '(g, r) ← lift (fun s => _insert e (seg s) loading (undoRecords s));
  modify (fun s => set_undo r (set_seg g s)) ;;
  (if loading then mret tt else makeUndo LSize) ;;
  modify (fun s => set_seg (set_hdr (with_size (vbCurrentSize (hdr (seg s)) + 1) (hdr (seg s)))
                                    (seg s)) s).

(** [insert]; the [BRM_DEBUG] argument checks are not compiled in. *)
Definition insert (l v oid fbo : Z) (loading : bool) : M t unit :=
  full ← gets (fun s => vbCurrentSize (hdr (seg s)) =? vbCapacity (hdr (seg s)));
  (if (full : bool) then growVBBM false else mret tt) ;;
  insert_entry (mkEntry l v oid fbo (-1)) loading.

(** [getIndex]: the index of the entry (-1 when there is none), its
    predecessor on the bucket's list (-1 at the head) and the bucket. *)
Definition getIndex (l v : Z) (g : Seg) : outcome (Z * Z * Z) :=
  let bucket := bucket_of (hash_key l v) (numHashBuckets (hdr g)) in
  head ← aget (hashBuckets g) bucket;
  if head =? -1 then Val (-1, -1, bucket)
  else r ← walk next (storage g) (length (storage g)) head
             (fun i e prev => if (lbid e =? l) && (verID e =? v) then Return (i, prev) else Next i)
             (-1);
       match r with
       | Return (index, prev) => Val (index, prev, bucket)
       | Next prev => Val (-1, prev, bucket)
       end.

(** [lookup]: [None] is the return code -1, [Some (oid, fbo)] the code 0. *)
Definition lookup (l v : Z) (s : t) : outcome (option (Z * Z)) :=
  if l <? 0 then Exn (invalid_argument "VBBM::lookup(): lbid must be >= 0")
  else if v <? 0 then Exn (invalid_argument "VBBM::lookup(): verID must be > 1)")
  else '(index, _, _) ← getIndex l v (seg s);
       if index =? -1 then Val None
       else e ← aget (storage (seg s)) index; Val (Some (vbOID e, vbFBO e)).

(** [storage[i] = f(storage[i])] and [hashBuckets[i] = v]. *)
Definition upd_entry (i : Z) (f : VBBMEntry -> VBBMEntry) : M t unit := fun s =>
  match zget (storage (seg s)) i with
  | Some e => (Val tt, set_seg (set_storage (zset (storage (seg s)) i (f e)) (seg s)) s)
  | None => (Fault OutOfBounds, s)
  end.

Definition upd_bucket (i v : Z) : M t unit := fun s =>
  match zget (hashBuckets (seg s)) i with
  | Some _ => (Val tt, set_seg (set_buckets (zset (hashBuckets (seg s)) i v) (seg s)) s)
  | None => (Fault OutOfBounds, s)
  end.

Definition upd_hdr (f : VBShmsegHeader -> VBShmsegHeader) : M t unit :=
  modify (fun s => set_seg (set_hdr (f (hdr (seg s))) (seg s)) s).

Definition removeEntry (l v : Z) : M t unit :=
  '(index, prev, bucket) ← lift (fun s => getIndex l v (seg s));
  if index =? -1 then mret tt
  else
    makeUndo (fun k => LEntry k index) ;;
    upd_entry index (with_lbid (-1)) ;;
    e ← lift (fun s => aget (storage (seg s)) index);
    (if negb (prev =? -1)
     then makeUndo (fun k => LEntry k prev) ;; upd_entry prev (with_next (next e))
     else makeUndo (fun k => LBucket k bucket) ;; upd_bucket bucket (next e)) ;;
    makeUndo LHeader ;;
    upd_hdr (fun h => with_size (vbCurrentSize h - 1) h) ;;
    upd_hdr (fun h => if index <? vbLWM h then with_LWM index h else h).

(** [size()] of a release build. *)
Definition size (s : t) : Z := vbCurrentSize (hdr (seg s)).

Definition hashEmpty (s : t) : bool :=
  forallb (fun b => b =? -1) (take (Z.to_nat (numHashBuckets (hdr (seg s)))) (hashBuckets (seg s))).

(** [clear()] keeps the files, at offset 0 and the configured size. *)
Definition clear : M t unit :=
  s ← gets id;
  let newFiles := take (Z.to_nat (nFiles (hdr (seg s)))) (files (seg s)) in
  setCurrentFileSize ;;
  cfs ← gets currentFileSize;
  let newFiles := (fun f => mkFile (OID f) cfs 0) <$> newFiles in
  initShmseg (chooseShmkey (shmkey (seg s))) newFiles ;;
  modify (set_alloc (sizeof_VBShmsegHeader + nFiles (hdr (seg s)) * sizeof_VBFileMetadata
                     + VBSTORAGE_INITIAL_SIZE + VBTABLE_INITIAL_SIZE)).

(** [addVBFileIfNotExists]: the index of the file of [oid]. *)
Fixpoint find_file (fs : list VBFileMetadata) (oid i : Z) : Z :=
  match fs with
  | [] => i
  | f :: fs' => if OID f =? oid then i else find_file fs' oid (i + 1)
  end.

Definition addVBFileIfNotExists (oid : Z) : M t Z :=
  i ← gets (fun s => find_file (take (Z.to_nat (nFiles (hdr (seg s)))) (files (seg s))) oid 0);
  isnew ← gets (fun s => i =? nFiles (hdr (seg s)));
  (if (isnew : bool) then
     setCurrentFileSize ;;
     growVBBM true ;;
     modify (fun s => set_seg (set_files
       (zset (files (seg s)) i (mkFile oid (currentFileSize s) 0)) (seg s)) s)
   else mret tt) ;;
  mret i.

(** [undoChanges] and [confirmChanges] of the base class on this object. *)
Definition undo : M t unit := fun s =>
  match undoChanges (undoRecords s) (seg s) with
  | Val (g, r) => (Val tt, set_undo r (set_seg g s))
  | Exn e => (Exn e, s)
  | Fault f => (Fault f, s)
  end.

Definition confirm : M t unit := modify (fun s => set_undo (confirmChanges (undoRecords s)) s).

End VBBM.
