(* ===== verification/VbbmThms.v ===== *)
(** * Correctness of the VBBM

    The segment invariant [wf], the finite map [abs] the table stands for, the
    specification of every table operation against that map, and exactness of
    the undo log. *)

From S2P Require Import Prelude Chain Hasher Undoable Vbbm.
From stdpp Require Import prelude gmap strings.
Local Open Scope Z_scope.

Module VBBMThms.
Import VBBM.

Definition live (e : VBBMEntry) : bool := used e.
Definition key (e : VBBMEntry) : Z * Z := (lbid e, verID e).
Definition val (e : VBBMEntry) : Z * Z := (vbOID e, vbFBO e).
Definition bucket (nb : Z) (e : VBBMEntry) : Z := bucket_of (hash_key (lbid e) (verID e)) nb.

(** The map [<LBID, VerID> -> <vbOID, vbFBO>] a segment stands for. *)
Definition abs (g : Seg) : gmap (Z * Z) (Z * Z) := contents live key val (storage g).

(** Segment invariant, with [n] entries in use. *)
Record wf_n (n : Z) (g : Seg) : Prop := {
  wf_cap : zlen (storage g) = vbCapacity (hdr g);
  wf_nb : zlen (hashBuckets g) = numHashBuckets (hdr g);
  wf_nbpos : 0 < numHashBuckets (hdr g) < 2 ^ 31;
  wf_files : zlen (files g) = nFiles (hdr g);
  wf_tab : table_ok next live (bucket (numHashBuckets (hdr g))) (hashBuckets g) (storage g);
  wf_count : live_count live (storage g) = n;
  wf_lwm0 : 0 <= vbLWM (hdr g);
  wf_lwm i e : i < vbLWM (hdr g) -> zget (storage g) i = Some e -> live e = true;
  wf_uniq : uniq live key (storage g) }.

Definition wf (g : Seg) : Prop := wf_n (vbCurrentSize (hdr g)) g.

Lemma live_lbid e : live e = true <-> lbid e <> -1.
Proof. unfold live, used. destruct (Z.eqb_spec (lbid e) (-1)); naive_solver. Qed.

Lemma not_live_lbid e : live e = false <-> lbid e = -1.
Proof. unfold live, used. destruct (Z.eqb_spec (lbid e) (-1)); naive_solver. Qed.

Lemma abs_Some g k x :
  uniq live key (storage g) ->
  abs g !! k = Some x <->
  exists i e, zget (storage g) i = Some e /\ live e = true /\ key e = k /\ val e = x.
Proof. apply contents_Some. Qed.

(** Where an insertion goes. *)
Lemma insert_slot_wf n g :
  wf_n n g -> n < vbCapacity (hdr g) ->
  exists i e0, zget (storage g) i = Some e0 /\ live e0 = false /\ vbLWM (hdr g) <= i /\
    (forall j x, j < i -> zget (storage g) j = Some x -> live x = true) /\
    find_empty used (storage g) (length (storage g)) (vbLWM (hdr g)) = Val i.
Proof.
  intros Hwf Hn. apply (insert_slot live); [apply (wf_lwm0 _ _ Hwf)|apply (wf_lwm _ _ Hwf)|].
  apply (free_slot live); [apply (wf_lwm0 _ _ Hwf)|apply (wf_lwm _ _ Hwf)|].
  by rewrite (wf_count _ _ Hwf), (wf_cap _ _ Hwf).
Qed.

Lemma bucket_in_range n g e :
  wf_n n g -> exists h, zget (hashBuckets g) (bucket (numHashBuckets (hdr g)) e) = Some h.
Proof.
  intros Hwf. apply zget_is_Some. rewrite (wf_nb _ _ Hwf). apply bucket_of_range.
  apply (wf_nbpos _ _ Hwf).
Qed.

(** ** Undo records *)
Lemma mkrec l g recs d :
  read_loc l g = Val d ->
  makeUndoRecord l g recs = Val (recs ++ [{| start := l; data := d |}]).
Proof. intros H. unfold makeUndoRecord. simpl. rewrite H. by destruct l. Qed.

Lemma read_header g : read_loc (LHeader (shmkey g)) g = Val (DHeader (hdr g)).
Proof. unfold read_loc. simpl. by rewrite Z.eqb_refl. Qed.

Lemma read_size g : read_loc (LSize (shmkey g)) g = Val (DInt (vbCurrentSize (hdr g))).
Proof. unfold read_loc. simpl. by rewrite Z.eqb_refl. Qed.

Lemma read_entry g i e :
  zget (storage g) i = Some e -> read_loc (LEntry (shmkey g) i) g = Val (DEntry e).
Proof. intros H. unfold read_loc, aget. simpl. by rewrite Z.eqb_refl, H. Qed.

Lemma read_bucket g i h :
  zget (hashBuckets g) i = Some h -> read_loc (LBucket (shmkey g) i) g = Val (DInt h).
Proof. intros H. unfold read_loc, aget. simpl. by rewrite Z.eqb_refl, H. Qed.

(** Undoing one record of the current segment. *)
Lemma restore_header k h r g :
  k = shmkey g -> restore ({| start := LHeader k; data := DHeader h |} :: r) g = restore r (set_hdr h g).
Proof. intros ->. simpl. unfold write_loc. simpl. by rewrite Z.eqb_refl. Qed.

Lemma restore_size k n r g :
  k = shmkey g ->
  restore ({| start := LSize k; data := DInt n |} :: r) g
  = restore r (set_hdr (with_size n (hdr g)) g).
Proof. intros ->. simpl. unfold write_loc. simpl. by rewrite Z.eqb_refl. Qed.

Lemma restore_entry k i e r g :
  k = shmkey g -> 0 <= i < zlen (storage g) ->
  restore ({| start := LEntry k i; data := DEntry e |} :: r) g
  = restore r (set_storage (zset (storage g) i e) g).
Proof.
  intros -> [x Hx]%zget_is_Some. simpl. unfold write_loc, aget. simpl. by rewrite Z.eqb_refl, Hx.
Qed.

Lemma restore_bucket k i b r g :
  k = shmkey g -> 0 <= i < zlen (hashBuckets g) ->
  restore ({| start := LBucket k i; data := DInt b |} :: r) g
  = restore r (set_buckets (zset (hashBuckets g) i b) g).
Proof.
  intros -> [x Hx]%zget_is_Some. simpl. unfold write_loc, aget. simpl. by rewrite Z.eqb_refl, Hx.
Qed.

Ltac undo_steps :=
  repeat first
    [ rewrite restore_header by done
    | rewrite restore_size by done
    | rewrite restore_entry by (simpl; rewrite ?zlen_zset; done)
    | rewrite restore_bucket by (simpl; rewrite ?zlen_zset; done)
    | progress cbn [rev app shmkey hdr files hashBuckets storage set_hdr set_files set_buckets set_storage] ].

(** The three records [_insert] logs. *)
Definition insert_log (g : Seg) (i b : Z) (e : VBBMEntry) (h : Z) : list (ImageDelta Loc Data) :=
  [{| start := LHeader (shmkey g); data := DHeader (hdr g) |};
   {| start := LEntry (shmkey g) i; data := DEntry e |};
   {| start := LBucket (shmkey g) b; data := DInt h |}].

Lemma insert_log_ok g recs i b e h :
  zget (storage g) i = Some e -> zget (hashBuckets g) b = Some h ->
  (r1 ← makeUndoRecord (LHeader (shmkey g)) g recs;
   r2 ← makeUndoRecord (LEntry (shmkey g) i) g r1;
   makeUndoRecord (LBucket (shmkey g) b) g r2) = Val (recs ++ insert_log g i b e h).
Proof.
  intros Hi Hb. erewrite mkrec by apply read_header. simpl.
  erewrite mkrec by (by apply read_entry). simpl.
  erewrite mkrec by (by apply read_bucket). by rewrite <- !app_assoc.
Qed.

(** [_insert] never leaves the array, adds exactly the entry and logs what it
    overwrites. *)
Lemma _insert_spec n g e loading recs :
  wf_n n g -> n < vbCapacity (hdr g) -> lbid e <> -1 -> abs g !! key e = None ->
  exists g' recs', _insert e g loading recs = Val (g', recs') /\
    wf_n (n + 1) g' /\ abs g' = <[key e := val e]> (abs g) /\
    shmkey g' = shmkey g /\ files g' = files g /\
    hdr g' = with_LWM (vbLWM (hdr g')) (hdr g) /\
    (if loading then recs' = recs else undoes g recs g' recs').
Proof.
  intros Hwf Hn He Hnone.
  destruct (insert_slot_wf _ _ Hwf Hn) as (i & e0 & Hi & Hd & Hle & Hall & Hfind).
  destruct (bucket_in_range _ _ e Hwf) as [h Hh]. unfold bucket in Hh.
  unfold _insert. rewrite Hfind. simpl. unfold aget. rewrite Hh. simpl.
  pose proof (zget_Some_range _ _ _ Hi) as Hri.
  pose proof (zget_Some_range _ _ _ Hh) as Hrh.
  assert (Hlive' : live (with_next h e) = true) by (by apply live_lbid).
  erewrite insert_log_ok by done.
  exists (mkSeg (shmkey g) (with_LWM i (hdr g)) (files g)
            (zset (hashBuckets g) (bucket_of (hash_key (lbid e) (verID e)) (numHashBuckets (hdr g))) i)
            (zset (storage g) i (with_next h e))), (if loading then recs else recs ++ insert_log g i (bucket (numHashBuckets (hdr g)) e) e0 h).
  split; [by destruct loading|]. split_and!.
  - destruct Hwf as [Hcap Hnb Hnbp Hfl Htab Hct Hl0 Hl Hu]. split; simpl; try done.
    + by rewrite zlen_zset.
    + by rewrite zlen_zset.
    + eapply table_ok_insert; try done.
    + erewrite live_count_zset by done. rewrite Hct, Hd, Hlive'. simpl. lia.
    + lia.
    + intros j x Hj [(-> & -> & _)|[_ Hx]]%zget_zset_Some; [done|]. eauto.
    + eapply uniq_insert; [done..|]. apply Hnone.
  - unfold abs. simpl. erewrite contents_insert; try done. apply (wf_uniq _ _ Hwf).
  - done.
  - done.
  - destruct (hdr g); done.
  - destruct loading; [done|]. 
    eexists. split; [done|]. unfold insert_log, bucket. undo_steps.
    rewrite !zset_zset, !zset_id by done. by destruct g.
Qed.

(** ** Search *)
Definition matches (l v : Z) (e : VBBMEntry) : bool := (lbid e =? l) && (verID e =? v).

Lemma matches_key l v e : matches l v e = true <-> key e = (l, v).
Proof.
  unfold matches, key. destruct (Z.eqb_spec (lbid e) l), (Z.eqb_spec (verID e) v); naive_solver.
Qed.

(** [getIndex] finds exactly the entries of the map: on a hit it returns the
    entry's index, its predecessor and bucket, otherwise -1. *)
Lemma getIndex_spec n g l v :
  wf_n n g ->
  let b := bucket_of (hash_key l v) (numHashBuckets (hdr g)) in
  match abs g !! (l, v) with
  | None => exists p, getIndex l v g = Val (-1, p, b)
  | Some x => exists i prev e h l1 l2,
      getIndex l v g = Val (i, prev, b) /\ zget (storage g) i = Some e /\ live e = true /\
      key e = (l, v) /\ val e = x /\ zget (hashBuckets g) b = Some h /\
      chain next (storage g) h (l1 ++ (i, e) :: l2) /\
      ((l1 = [] /\ prev = -1) \/ exists l0 ep, l1 = l0 ++ [(prev, ep)])
  end.
Proof.
  intros Hwf b. destruct (bucket_in_range _ _ (mkEntry l v 0 0 0) Hwf) as [h Hh].
  unfold bucket in Hh. simpl in Hh. fold b in Hh.
  unfold getIndex. fold b. unfold aget. rewrite Hh. simpl.
  destruct (table_find next live (bucket (numHashBuckets (hdr g))) (hashBuckets g) (storage g) b h
              (matches l v) (wf_tab _ _ Hwf) Hh)
    as [[Hno [q Hq]]|(l1 & i & e & l2 & prev & Hc & Hq & Hm & Hi & Hl & Hp)].
  { intros e Hm%matches_key _. unfold key in Hm. unfold bucket, b. by simplify_eq. }
  - destruct (abs g !! (l, v)) as [x|] eqn:Hx.
    + exfalso. apply abs_Some in Hx as (i & e & Hi & Hl & Hk & _); [|apply (wf_uniq _ _ Hwf)].
      apply matches_key in Hk. specialize (Hno _ _ Hi Hl). congruence.
    + destruct (Z.eqb_spec h (-1)); [eauto|]. unfold matches in Hq. rewrite Hq. eauto.
  - apply matches_key in Hm.
    assert (Hx : abs g !! (l, v) = Some (val e)).
    { apply abs_Some; [apply (wf_uniq _ _ Hwf)|]. eauto 10. }
    rewrite Hx. destruct (Z.eqb_spec h (-1)) as [->|].
    { inversion Hc as [Ha Hb|i' e' l' Hg']; [by destruct l1|]. apply zget_Some_range in Hg'. lia. }
    unfold matches in Hq. rewrite Hq. exists i, prev, e, h, l1, l2. naive_solver.
Qed.

(** [lookup] reads the map. *)
Lemma lookup_abs s l v :
  wf (seg s) -> 0 <= l -> 0 <= v -> lookup l v s = Val (abs (seg s) !! (l, v)).
Proof.
  intros Hwf Hl Hv. unfold lookup. destruct (Z.ltb_spec l 0), (Z.ltb_spec v 0); try lia.
  pose proof (getIndex_spec _ _ l v Hwf) as Hg. simpl in Hg.
  destruct (abs (seg s) !! (l, v)) as [x|].
  - destruct Hg as (i & prev & e & h & l1 & l2 & -> & Hi & _ & _ & <- & _). simpl.
    pose proof (zget_Some_range _ _ _ Hi). destruct (Z.eqb_spec i (-1)); [lia|].
    unfold aget. by rewrite Hi.
  - destruct Hg as [p ->]. done.
Qed.

(** ** Symbolic steps of the object's writes *)
Lemma wp_makeUndo f s d Q :
  read_loc (f (shmkey (seg s))) (seg s) = Val d ->
  Q tt (set_undo (undoRecords s ++ [{| start := f (shmkey (seg s)); data := d |}]) s) ->
  wp (makeUndo f) s Q.
Proof. intros Hr HQ. unfold wp, makeUndo. by rewrite (mkrec _ _ _ _ Hr). Qed.

Lemma wp_upd_entry i f s e (Q : unit -> t -> Prop) :
  zget (storage (seg s)) i = Some e ->
  Q tt (set_seg (set_storage (zset (storage (seg s)) i (f e)) (seg s)) s) -> wp (upd_entry i f) s Q.
Proof. intros Hi HQ. unfold wp, upd_entry. by rewrite Hi. Qed.

Lemma wp_upd_bucket i v s h (Q : unit -> t -> Prop) :
  zget (hashBuckets (seg s)) i = Some h ->
  Q tt (set_seg (set_buckets (zset (hashBuckets (seg s)) i v) (seg s)) s) -> wp (upd_bucket i v) s Q.
Proof. intros Hi HQ. unfold wp, upd_bucket. by rewrite Hi. Qed.

Lemma wp_upd_hdr f s (Q : unit -> t -> Prop) :
  Q tt (set_seg (set_hdr (f (hdr (seg s))) (seg s)) s) -> wp (upd_hdr f) s Q.
Proof. done. Qed.

(** Changes that leave everything but the segment and the log alone. *)
Definition same_env (s s' : t) : Prop :=
  allocdSize s' = allocdSize s /\ currentFileSize s' = currentFileSize s /\
  cfgFileSize s' = cfgFileSize s.

(** What an operation that stays in the segment promises: the invariant, the
    new map, an exact undo, and that capacity, buckets and files are kept. *)
Record op_post (s s' : t) (m : gmap (Z * Z) (Z * Z)) : Prop := {
  op_wf : wf (seg s');
  op_abs : abs (seg s') = m;
  op_undo : undoes (seg s) (undoRecords s) (seg s') (undoRecords s');
  op_cap : vbCapacity (hdr (seg s')) = vbCapacity (hdr (seg s));
  op_nb : numHashBuckets (hdr (seg s')) = numHashBuckets (hdr (seg s));
  op_key : shmkey (seg s') = shmkey (seg s);
  op_files : files (seg s') = files (seg s);
  op_env : same_env s s' }.

Lemma op_post_refl s : wf (seg s) -> op_post s s (abs (seg s)).
Proof. intros Hwf. split; try done. Qed.

Lemma op_post_trans s s1 s2 m1 m2 : op_post s s1 m1 -> op_post s1 s2 m2 -> op_post s s2 m2.
Proof.
  intros [? ? Hu1 ? ? ? ? (?&?&?)] [? ? Hu2 ? ? ? ? (?&?&?)].
  split; try done; try congruence; [by eapply undoes_trans|]. split_and!; congruence.
Qed.

Lemma op_post_intro s s' g' r' m :
  undoes (seg s) (undoRecords s) g' r' ->
  seg s' = g' -> undoRecords s' = r' -> same_env s s' -> wf g' -> abs g' = m ->
  vbCapacity (hdr g') = vbCapacity (hdr (seg s)) ->
  numHashBuckets (hdr g') = numHashBuckets (hdr (seg s)) ->
  shmkey g' = shmkey (seg s) -> files g' = files (seg s) -> op_post s s' m.
Proof. intros Hu <- <- ??????. by split. Qed.

(** The state after unlinking entry [i]; [st'] and [bk'] are the arrays after
    the link update. *)
Lemma unlink_wf g i e st' bk' :
  wf g -> zget (storage g) i = Some e -> live e = true ->
  table_ok next live (bucket (numHashBuckets (hdr g))) bk' st' ->
  zlen st' = zlen (storage g) -> zlen bk' = zlen (hashBuckets g) ->
  live_count live st' = live_count live (storage g) - 1 ->
  uniq live key st' ->
  (forall j x, j < vbLWM (hdr g) -> j < i -> zget st' j = Some x -> live x = true) ->
  let h := with_size (vbCurrentSize (hdr g) - 1) (hdr g) in
  wf (mkSeg (shmkey g) (if i <? vbLWM h then with_LWM i h else h) (files g) bk' st').
Proof.
  intros [Hcap Hnb Hnbp Hfl Htab Hct Hl0 Hl Hu] Hi Hlive Htab' Hz1 Hz2 Hcnt Hu' Hlow h.
  pose proof (zget_Some_range _ _ _ Hi).
  unfold h. destruct (hdr g) as [nf cap sz lwm nb]. simpl in *.
  destruct (Z.ltb_spec i lwm); split; simpl in *; try done; try lia;
    intros j x Hj Hx; apply (Hlow j x); try lia; done.
Qed.

(** The three records [removeEntry] logs, and what undoing them does. *)
Lemma removeEntry_head g i b e l2 recs :
  wf g -> zget (storage g) i = Some e -> live e = true ->
  zget (hashBuckets g) b = Some i -> chain next (storage g) i ((i, e) :: l2) ->
  let h := with_size (vbCurrentSize (hdr g) - 1) (hdr g) in
  let g' := mkSeg (shmkey g) (if i <? vbLWM h then with_LWM i h else h) (files g)
              (zset (hashBuckets g) b (next e)) (zset (storage g) i (with_lbid (-1) e)) in
  wf g' /\ abs g' = delete (key e) (abs g) /\
  undoes g recs g'
    (recs ++ [{| start := LEntry (shmkey g) i; data := DEntry e |};
              {| start := LBucket (shmkey g) b; data := DInt i |};
              {| start := LHeader (shmkey g); data := DHeader (hdr g) |}]).
Proof.
  intros Hwf Hi Hl Hb Hc h g'.
  pose proof (zget_Some_range _ _ _ Hi). pose proof (zget_Some_range _ _ _ Hb).
  split_and!.
  - apply (unlink_wf g i e); try done; try (by rewrite zlen_zset).
    + eapply table_ok_remove_head; [apply (wf_tab _ _ Hwf)|done..].
    + erewrite live_count_zset by done. rewrite Hl. simpl. lia.
    + apply uniq_kill; [apply (wf_uniq _ _ Hwf)|done].
    + intros j x Hj Hji. rewrite zget_zset_ne by lia. by apply (wf_lwm _ _ Hwf).
  - eapply contents_kill; [apply (wf_uniq _ _ Hwf)|done..].
  - eexists. split; [done|]. unfold g'. undo_steps.
    rewrite !zset_zset, !zset_id by done. by destruct g.
Qed.

Lemma removeEntry_mid g i b e p ep h0 l0 l2 recs :
  wf g -> zget (storage g) i = Some e -> live e = true ->
  zget (hashBuckets g) b = Some h0 -> chain next (storage g) h0 ((l0 ++ [(p, ep)]) ++ (i, e) :: l2) ->
  let h := with_size (vbCurrentSize (hdr g) - 1) (hdr g) in
  let g' := mkSeg (shmkey g) (if i <? vbLWM h then with_LWM i h else h) (files g)
              (hashBuckets g)
              (zset (zset (storage g) i (with_lbid (-1) e)) p (with_next (next e) ep)) in
  p <> i /\ p <> -1 /\ zget (storage g) p = Some ep /\
  wf g' /\ abs g' = delete (key e) (abs g) /\
  undoes g recs g'
    (recs ++ [{| start := LEntry (shmkey g) i; data := DEntry e |};
              {| start := LEntry (shmkey g) p; data := DEntry ep |};
              {| start := LHeader (shmkey g); data := DHeader (hdr g) |}]).
Proof.
  intros Hwf Hi Hl Hb Hc h g'. rewrite <- app_assoc in Hc. simpl in Hc.
  pose proof (zget_Some_range _ _ _ Hi) as Hri.
  destruct (tk_bucket_live _ _ _ _ _ _ _ _ p ep (wf_tab _ _ Hwf) Hb Hc) as (Hlp & Hhp & Hp); [set_solver|].
  pose proof (zget_Some_range _ _ _ Hp) as Hrp.
  assert (Hne : p <> i).
  { pose proof (chain_NoDup _ _ _ _ Hc) as Hnd. rewrite fmap_app in Hnd. simpl in Hnd.
    apply NoDup_app in Hnd as (_ & _ & Hnd). apply NoDup_cons in Hnd as [Hnd _]. set_solver. }
  assert (Hp' : zget (zset (storage g) i (with_lbid (-1) e)) p = Some ep) by (by rewrite zget_zset_ne).
  assert (Hu1 : uniq live key (zset (storage g) i (with_lbid (-1) e)))
    by (apply uniq_kill; [apply (wf_uniq _ _ Hwf)|done]).
  assert (Hlp' : live (with_next (next e) ep) = live ep) by done.
  split_and!; try done; [lia|..].
  - apply (unlink_wf g i e); try done; try (by rewrite ?zlen_zset).
    + eapply table_ok_remove_mid; try done; [apply (wf_tab _ _ Hwf)|done..].
    + erewrite live_count_zset by done. erewrite live_count_zset by done.
      rewrite Hl, Hlp'. simpl. destruct (live ep); simpl; lia.
    + eapply uniq_update; done.
    + intros j x Hj Hji [(-> & -> & _)|[_ Hx]]%zget_zset_Some; [congruence|].
      rewrite zget_zset_ne in Hx by lia. by apply (wf_lwm _ _ Hwf _ _ Hj).
  - etransitivity; [eapply contents_relink; [exact Hu1|exact Hp'|done..]|].
    eapply contents_kill; [apply (wf_uniq _ _ Hwf)|done..].
  - eexists. split; [done|]. unfold g'. undo_steps.
    rewrite zset_zset. rewrite (zset_comm _ i p) by done. rewrite zset_zset.
    rewrite (zset_id _ p) by done. rewrite zset_id by done. by destruct g.
Qed.

(** [removeEntry] deletes the key from the map, whether or not it is present. *)
Lemma removeEntry_post s l v :
  wf (seg s) ->
  wp (removeEntry l v) s (fun _ s' => op_post s s' (delete (l, v) (abs (seg s)))).
Proof.
  intros Hwf. unfold removeEntry. pose proof (getIndex_spec _ _ l v Hwf) as Hg. simpl in Hg.
  apply wp_bind. destruct (abs (seg s) !! (l, v)) as [x|] eqn:Hx; cycle 1.
  { destruct Hg as [p Hg]. eapply wp_lift; [exact Hg|]. apply wp_ret.
    rewrite delete_id by done. by apply op_post_refl. }
  destruct Hg as (i & prev & e & h & l1 & l2 & Hg & Hi & Hl & Hk & Hv & Hb & Hc & Hp).
  eapply wp_lift; [exact Hg|]. cbn beta iota. pose proof (zget_Some_range _ _ _ Hi) as Hri.
  destruct (Z.eqb_spec i (-1)); [lia|].
  wp_step. eapply wp_makeUndo; [by apply read_entry|].
  wp_step. eapply wp_upd_entry; [exact Hi|].
  wp_step. eapply wp_lift; [apply aget_Val; simpl; by apply zget_zset_eq|]. cbn [next with_lbid].
  destruct Hp as [[-> ->]|(l0 & ep & ->)].
  - destruct (chain_split_head _ _ _ _ _ _ Hc) as [-> _]. simpl (negb _). cbn iota.
    wp_step. wp_step. eapply wp_makeUndo; [by apply read_bucket|].
    eapply wp_upd_bucket; [exact Hb|].
    wp_step. eapply wp_makeUndo; [by apply read_header|].
    wp_step. apply wp_upd_hdr. apply wp_upd_hdr.
    destruct (removeEntry_head _ _ _ _ _ (undoRecords s) Hwf Hi Hl Hb Hc) as (? & ? & Hun).
    rewrite <- Hk. eapply op_post_intro; [exact Hun|..]; try done; simpl; rewrite <- ?app_assoc; try done; by destruct (_ <? _).
  - destruct (removeEntry_mid _ _ _ _ _ _ _ _ _ (undoRecords s) Hwf Hi Hl Hb Hc)
      as (Hne & Hn1 & Hpe & ? & ? & Hun).
    destruct (Z.eqb_spec prev (-1)); [done|]. cbn [negb].
    assert (Hp' : zget (zset (storage (seg s)) i (with_lbid (-1) e)) prev = Some ep)
      by (by rewrite zget_zset_ne).
    wp_step. wp_step. eapply wp_makeUndo; [by apply read_entry|].
    eapply wp_upd_entry; [exact Hp'|].
    wp_step. eapply wp_makeUndo; [by apply read_header|].
    wp_step. apply wp_upd_hdr. apply wp_upd_hdr.
    rewrite <- Hk. eapply op_post_intro; [exact Hun|..]; try done; simpl; rewrite <- ?app_assoc; try done; by destruct (_ <? _).
Qed.

(** ** Growing the tables *)

(** The re-hash loop: after the entries below [i + n] were visited, the new
    table holds exactly those. *)
Lemma copy_entries_spec src n : forall (i : nat) dest,
  uniq live key src -> (i + n <= length src)%nat ->
  wf_n (live_count live (take i src)) dest ->
  abs dest = contents live key val (take i src) ->
  zlen src <= vbCapacity (hdr dest) ->
  exists dest', copy_entries src n (Z.of_nat i) dest = Val dest' /\
    wf_n (live_count live (take (i + n) src)) dest' /\
    abs dest' = contents live key val (take (i + n) src) /\
    hdr dest' = with_LWM (vbLWM (hdr dest')) (hdr dest) /\
    shmkey dest' = shmkey dest /\ files dest' = files dest.
Proof.
  induction n as [|n IH]; intros i dest Hu Hlen Hwf Habs Hcap.
  { exists dest. rewrite Nat.add_0_r. split_and!; try done. by destruct (hdr dest). }
  destruct (zget_is_Some src (Z.of_nat i)) as [e He]; [unfold zlen; lia|].
  simpl. unfold aget. rewrite He. simpl.
  pose proof (live_count_take_snoc live _ _ _ He) as Hcnt.
  pose proof (contents_take_snoc live key val _ _ _ Hu He) as Hcon.
  replace (Z.of_nat i + 1) with (Z.of_nat (S i)) by lia.
  replace (i + S n)%nat with (S i + n)%nat by lia.
  destruct (Z.eqb_spec (lbid e) (-1)) as [Hd|Hl].
  - apply not_live_lbid in Hd. rewrite Hd in Hcnt, Hcon. simpl in Hcnt.
    simpl. apply IH; try done; [lia| |congruence].
    by replace (live_count live (take (S i) src)) with (live_count live (take i src)) by lia.
  - pose proof Hl as Hl'. apply live_lbid in Hl'. rewrite Hl' in Hcnt, Hcon. simpl in Hcnt.
    destruct (_insert_spec _ dest e true [] Hwf) as (d & r & Hins & Hwf' & Habs' & Hk & Hf & Hh & _).
    + pose proof (live_count_bounds live (take i src)) as Hb. unfold zlen in *.
      rewrite length_take in Hb. lia.
    + done.
    + rewrite Habs. by eapply contents_take_fresh.
    + rewrite Hins. simpl.
      destruct (IH (S i) d) as (d' & Hc' & Hw' & Ha' & Hh' & Hk' & Hf'); try done; [lia|..].
      * by rewrite Hcnt.
      * rewrite Habs', Habs. done.
      * rewrite Hh. done.
      * exists d'. split_and!; try done; try congruence. rewrite Hh', Hh. done.
Qed.

(** The live entries are the first [vbCurrentSize] ones. *)
Definition dense (g : Seg) : Prop :=
  forall i e, zget (storage g) i = Some e -> live e = true -> i < vbCurrentSize (hdr g).

Lemma full_dense g : wf g -> vbCurrentSize (hdr g) = vbCapacity (hdr g) -> dense g.
Proof.
  intros Hwf Hfull i e Hi%zget_Some_range _. rewrite (wf_cap _ _ Hwf) in Hi. lia.
Qed.

Lemma wf_blank key h fs :
  zlen fs = nFiles h -> 0 <= vbCapacity h -> 0 < numHashBuckets h < 2 ^ 31 -> vbLWM h = 0 ->
  let g := mkSeg key h fs (replicate (Z.to_nat (numHashBuckets h)) (-1))
             (replicate (Z.to_nat (vbCapacity h)) blank) in
  wf_n 0 g /\ abs g = ∅.
Proof.
  intros Hf Hc Hnb Hl g.
  assert (Hdead : forall i e, zget (storage g) i = Some e -> live e = false).
  { intros i e ->%zget_replicate_Some. done. }
  assert (Hu : uniq live VBBMThms.key (storage g)).
  { intros i j ei ej Hi Hj Hli. rewrite (Hdead _ _ Hi) in Hli. done. }
  split.
  - split; simpl; try done; try (rewrite zlen_replicate; lia); try lia.
    + by apply table_ok_empty.
    + rewrite <- (live_count_take_dense live _ 0); [done|].
      intros i e Hi Hli. rewrite (Hdead _ _ Hi) in Hli. done.
    + intros i e Hi Hg%zget_Some_range. lia.
  - apply map_eq. intros k. rewrite lookup_empty. apply eq_None_not_Some. intros [v Hv].
    apply abs_Some in Hv as (i & e & Hi & Hli & _); [|done]. rewrite (Hdead _ _ Hi) in Hli. done.
Qed.

(** [copyVBBM] into a larger table keeps the map when the table is dense. *)
Lemma copyVBBM_spec g key cap nb :
  wf_n (vbCurrentSize (hdr g)) (set_hdr (with_nFiles (zlen (files g)) (hdr g)) g) ->
  nFiles (hdr g) = zlen (files g) \/ nFiles (hdr g) = zlen (files g) + 1 ->
  dense g -> vbCapacity (hdr g) <= cap -> 0 < nb < 2 ^ 31 ->
  exists g', copyVBBM g key cap nb = Val g' /\ wf g' /\ abs g' = abs g /\
    shmkey g' = key /\ vbCapacity (hdr g') = cap /\ numHashBuckets (hdr g') = nb /\
    nFiles (hdr g') = nFiles (hdr g) /\ vbCurrentSize (hdr g') = vbCurrentSize (hdr g) /\
    (forall i f, zget (files g) i = Some f -> zget (files g') i = Some f).
Proof.
  intros Hwf Hnf Hdense Hcap Hnb. set (n := Z.to_nat (vbCurrentSize (hdr g))).
  assert (Hsz : 0 <= vbCurrentSize (hdr g) <= zlen (storage g)).
  { pose proof (live_count_bounds live (storage g)). pose proof (wf_count _ _ Hwf). simpl in *. lia. }
  pose proof (wf_cap _ _ Hwf) as Hc0. simpl in Hc0.
  set (fs := if nFiles (hdr g) =? zlen (files g) then files g
             else files g ++ [bucket_bytes_file (hashBuckets g)]).
  assert (Hfs : zlen fs = nFiles (hdr g)).
  { unfold fs. destruct (Z.eqb_spec (nFiles (hdr g)) (zlen (files g))); [done|].
    unfold zlen in *. rewrite length_app. simpl. lia. }
  destruct (wf_blank key (mkHdr (nFiles (hdr g)) cap (vbCurrentSize (hdr g)) 0 nb) fs)
    as [Hw0 Ha0]; simpl; try done; [lia|].
  edestruct (copy_entries_spec (storage g) n 0) as (g' & Hcp & Hw' & Ha' & Hh' & Hk' & Hf');
    [apply (wf_uniq _ _ Hwf)|unfold zlen in *; lia|exact Hw0|exact Ha0|simpl; lia|].
  simpl in Hcp. exists g'. split; [exact Hcp|].
  assert (Hd' : forall i e, zget (storage g) i = Some e -> live e = true -> i < Z.of_nat n).
  { intros i e Hi Hl. specialize (Hdense _ _ Hi Hl). lia. }
  simpl in Hw', Ha', Hh'. split_and!; try done; try (by rewrite Hh').
  - unfold wf. rewrite Hh'. simpl. rewrite <- (wf_count _ _ Hwf). simpl.
    by rewrite <- (live_count_take_dense live _ n).
  - rewrite Ha'. apply contents_take_dense; [apply (wf_uniq _ _ Hwf)|done].
  - intros i f Hi. rewrite Hf'. simpl. unfold fs.
    destruct (nFiles (hdr g) =? zlen (files g)); [done|].
    unfold zget in *. destruct (i <? 0); [done|]. by apply lookup_app_l_Some.
Qed.

(** The segment can be enlarged [k] times. *)
Definition can_grow (k : Z) (s : t) : Prop :=
  numHashBuckets (hdr (seg s)) + 2500 * k < 2 ^ 31 /\ allocdSize s + VBBM_INCREMENT * k < 2 ^ 31.

Lemma vbbm_can_grow_step s s' :
  numHashBuckets (hdr (seg s')) <= numHashBuckets (hdr (seg s)) + 2500 -> allocdSize s' <= allocdSize s + VBBM_INCREMENT ->
  forall k, can_grow (k + 1) s -> can_grow k s'.
Proof. intros Hn Ha k [H1 H2]. split; lia. Qed.

Lemma vbbm_can_grow_le j k s : j <= k -> can_grow k s -> can_grow j s.
Proof. intros Hle [H1 H2]. assert (0 <= VBBM_INCREMENT) by done. split; nia. Qed.

(** Growing a dense table keeps the map and drops the undo log, whose addresses
    point into the old segment. *)
Lemma growVBBM_spec s addAFile :
  wf (seg s) -> dense (seg s) -> allocdSize s <> 0 -> can_grow 1 s ->
  wp (growVBBM addAFile) s (fun _ s' =>
    wf (seg s') /\ abs (seg s') = abs (seg s) /\ undoRecords s' = [] /\
    vbCurrentSize (hdr (seg s')) = vbCurrentSize (hdr (seg s)) /\
    nFiles (hdr (seg s')) = nFiles (hdr (seg s)) + (if addAFile then 1 else 0) /\
    vbCapacity (hdr (seg s')) = vbCapacity (hdr (seg s)) + (if addAFile then 0 else 10000) /\
    numHashBuckets (hdr (seg s')) = numHashBuckets (hdr (seg s)) + (if addAFile then 0 else 2500) /\
    allocdSize s' = allocdSize s + (if addAFile then sizeof_VBFileMetadata else VBBM_INCREMENT) /\
    (forall i f, zget (files (seg s)) i = Some f -> zget (files (seg s')) i = Some f)).
Proof.
  intros Hwf Hd Haz [Hnb Hsz]. change VBBM_INCREMENT with 250000 in Hsz. unfold growVBBM. wp_steps.
  destruct (Z.eqb_spec (allocdSize s) 0); [done|].
  pose proof (wf_nbpos _ _ Hwf) as Hnbp. pose proof (wf_files _ _ Hwf) as Hfl.
  assert (Hw0 : forall g, seg s = g -> wf_n (vbCurrentSize (hdr g)) (set_hdr (with_nFiles (zlen (files g)) (hdr g)) g)).
  { intros g <-. destruct Hwf. split; try done. }
  wp_step. destruct addAFile.
  - wp_steps. unfold sizeof_VBFileMetadata at 1. destruct (Z.leb_spec (2 ^ 31) (allocdSize s + 24)); [lia|]. wp_steps.
    destruct (copyVBBM_spec (set_hdr (with_nFiles (nFiles (hdr (seg s)) + 1) (hdr (seg s))) (seg s))
      (chooseShmkey (shmkey (seg s))) (vbCapacity (hdr (seg s)) + 0) (numHashBuckets (hdr (seg s)) + 0))
      as (g' & Hcp & Hwf' & Habs' & Hk' & Hc' & Hn' & Hnf' & Hsz' & Hfiles').
    + destruct Hwf. split; try done.
    + right. simpl. lia.
    + intros i e Hi Hl. by apply (Hd i e).
    + simpl. lia.
    + lia.
    + eapply wp_lift; [exact Hcp|]. wp_step. simpl.
      split_and!; try done; simpl in *; try lia.
  - wp_steps. change VBBM_INCREMENT with 250000. destruct (Z.leb_spec (2 ^ 31) (allocdSize s + 250000)); [lia|]. wp_steps.
    destruct (copyVBBM_spec (seg s) (chooseShmkey (shmkey (seg s)))
      (vbCapacity (hdr (seg s)) + VBSTORAGE_INCREMENT / sizeof_VBBMEntry)
      (numHashBuckets (hdr (seg s)) + VBTABLE_INCREMENT / sizeof_int))
      as (g' & Hcp & Hwf' & Habs' & Hk' & Hc' & Hn' & Hnf' & Hsz' & Hfiles').
    + by apply Hw0.
    + left. lia.
    + done.
    + change (VBSTORAGE_INCREMENT / sizeof_VBBMEntry) with 10000. lia.
    + change (VBTABLE_INCREMENT / sizeof_int) with 2500. lia.
    + eapply wp_lift; [exact Hcp|]. wp_step. simpl.
      change (VBSTORAGE_INCREMENT / sizeof_VBBMEntry) with 10000 in *.
      change (VBTABLE_INCREMENT / sizeof_int) with 2500 in *.
      split_and!; try done; simpl in *; try lia.
Qed.

(** Linking and counting an entry in a segment with room. *)
Lemma insert_entry_spec s e loading :
  wf (seg s) -> vbCurrentSize (hdr (seg s)) < vbCapacity (hdr (seg s)) -> lbid e <> -1 ->
  abs (seg s) !! key e = None ->
  wp (insert_entry e loading) s (fun _ s' =>
    wf (seg s') /\ abs (seg s') = <[key e := val e]> (abs (seg s)) /\
    vbCurrentSize (hdr (seg s')) = vbCurrentSize (hdr (seg s)) + 1 /\
    allocdSize s' = allocdSize s /\
    numHashBuckets (hdr (seg s')) = numHashBuckets (hdr (seg s)) /\
    (if loading then undoRecords s' = undoRecords s
       /\ vbCapacity (hdr (seg s')) = vbCapacity (hdr (seg s)) /\ files (seg s') = files (seg s)
       /\ same_env s s'
     else op_post s s' (<[key e := val e]> (abs (seg s))))).
Proof.
  intros Hwf Hroom Hl Hn. unfold insert_entry.
  destruct (_insert_spec _ (seg s) e loading (undoRecords s) Hwf)
    as (g & r & Hi & Hw & Ha & Hk & Hf & Hh & Hu); try done.
  wp_steps. eapply wp_lift; [exact Hi|]. cbn beta iota. wp_steps.
  assert (Hsz : vbCurrentSize (hdr g) = vbCurrentSize (hdr (seg s))) by (by rewrite Hh).
  assert (Hnb : numHashBuckets (hdr g) = numHashBuckets (hdr (seg s))) by (by rewrite Hh).
  assert (Hw' : wf (set_hdr (with_size (vbCurrentSize (hdr g) + 1) (hdr g)) g)).
  { rewrite <- Hsz in Hw. destruct Hw. by split. }
  destruct loading.
  - wp_steps. simpl. split_and!; try done; try lia; by rewrite Hh.
  - eapply wp_makeUndo; [by apply read_size|]. wp_steps. simpl.
    assert (Hun : undoes (seg s) (undoRecords s) (set_hdr (with_size (vbCurrentSize (hdr g) + 1) (hdr g)) g)
              (r ++ [{| start := LSize (shmkey g); data := DInt (vbCurrentSize (hdr g)) |}])).
    { eapply undoes_trans; [exact Hu|]. eapply (undoes_write (LSize (shmkey g))
        (DInt (vbCurrentSize (hdr g))) (DInt (vbCurrentSize (hdr g) + 1))).
      - apply read_size.
      - simpl. unfold write_loc. simpl. by rewrite Z.eqb_refl. }
    split_and!; try done; [lia|].
    eapply op_post_intro; [exact Hun|..]; try done; simpl; by rewrite Hh.
Qed.

(** Insertion when the segment has room: no growth, exact undo. *)
Lemma insert_room s l v oid fbo :
  wf (seg s) -> vbCurrentSize (hdr (seg s)) < vbCapacity (hdr (seg s)) -> l <> -1 ->
  abs (seg s) !! (l, v) = None ->
  wp (insert l v oid fbo false) s (fun _ s' => op_post s s' (<[(l, v) := (oid, fbo)]> (abs (seg s)))
    /\ vbCurrentSize (hdr (seg s')) = vbCurrentSize (hdr (seg s)) + 1).
Proof.
  intros Hwf Hroom Hl Hn. unfold insert. wp_steps.
  destruct (Z.eqb_spec (vbCurrentSize (hdr (seg s))) (vbCapacity (hdr (seg s)))); [lia|].
  wp_steps. eapply wp_mono; [by apply insert_entry_spec|]. naive_solver.
Qed.

(** Insertion in general: a full segment is grown first. *)
Lemma insert_spec s l v oid fbo loading :
  wf (seg s) -> 0 < allocdSize s -> can_grow 1 s -> l <> -1 ->
  abs (seg s) !! (l, v) = None ->
  wp (insert l v oid fbo loading) s (fun _ s' =>
    wf (seg s') /\ abs (seg s') = <[(l, v) := (oid, fbo)]> (abs (seg s)) /\
    0 < allocdSize s' /\ (forall k, can_grow (k + 1) s -> can_grow k s')).
Proof.
  intros Hwf Haz Hnb Hl Hn.
  pose proof (live_count_bounds live (storage (seg s))) as Hb.
  rewrite (wf_count _ _ Hwf), (wf_cap _ _ Hwf) in Hb.
  unfold insert. wp_steps.
  destruct (Z.eqb_spec (vbCurrentSize (hdr (seg s))) (vbCapacity (hdr (seg s)))) as [Hfull|].
  - eapply wp_mono; [apply growVBBM_spec; try done; [by apply full_dense|lia]|]. cbn beta.
    intros [] s1 (Hw1 & Ha1 & _ & Hs1 & _ & Hc1 & Hnb1 & Haz1 & _).
    eapply wp_mono; [apply insert_entry_spec; try done|].
    + lia.
    + by rewrite Ha1.
    + intros [] s2 (? & Ha2 & _ & ? & ? & _). rewrite Ha2, Ha1.
      assert (VBBM_INCREMENT = 250000) as Hi by done.
      split_and!; [done..|lia|apply vbbm_can_grow_step; lia].
  - wp_steps. eapply wp_mono; [apply insert_entry_spec; try done; lia|].
    intros [] s2 (? & Ha2 & _ & ? & ? & _). assert (0 <= VBBM_INCREMENT) by done.
    split_and!; [done..|lia|apply vbbm_can_grow_step; lia].
Qed.

(** ** Sequences of table operations *)
Inductive op :=
| OpInsert (l v oid fbo : Z)
| OpRemove (l v : Z).

Definition exec (o : op) : M t unit :=
  match o with
  | OpInsert l v oid fbo => insert l v oid fbo false
  | OpRemove l v => removeEntry l v
  end.

(** The abstract machine: a finite map. *)
Definition spec_op (m : gmap (Z * Z) (Z * Z)) (o : op) : gmap (Z * Z) (Z * Z) :=
  match o with
  | OpInsert l v oid fbo => <[(l, v) := (oid, fbo)]> m
  | OpRemove l v => delete (l, v) m
  end.

Definition spec_run (ops : list op) (m : gmap (Z * Z) (Z * Z)) : gmap (Z * Z) (Z * Z) :=
  foldl spec_op m ops.

(** Keys are inserted only while absent, and never with the reserved LBID. *)
Fixpoint admissible (ops : list op) (m : gmap (Z * Z) (Z * Z)) : Prop :=
  match ops with
  | [] => True
  | o :: ops' =>
      match o with
      | OpInsert l v _ _ => l <> -1 /\ m !! (l, v) = None
      | OpRemove _ _ => True
      end /\ admissible ops' (spec_op m o)
  end.

Lemma exec_room s o :
  wf (seg s) -> vbCurrentSize (hdr (seg s)) < vbCapacity (hdr (seg s)) ->
  admissible [o] (abs (seg s)) ->
  wp (exec o) s (fun _ s' => op_post s s' (spec_op (abs (seg s)) o) /\
                             vbCurrentSize (hdr (seg s')) <= vbCurrentSize (hdr (seg s)) + 1).
Proof.
  intros Hwf Hroom [Hadm _]. destruct o as [l v oid fbo|l v]; simpl.
  - eapply wp_mono; [apply insert_room; naive_solver|]. intros [] s' [? ?]. split; [done|lia].
  - eapply wp_mono; [by apply removeEntry_post|]. intros [] s' Hp. split; [done|].
    pose proof (op_wf _ _ _ Hp) as Hwf'.
    rewrite <- (wf_count _ _ Hwf'), <- (wf_count _ _ Hwf).
    rewrite <- !(size_contents live key val); [|apply (wf_uniq _ _ Hwf)|apply (wf_uniq _ _ Hwf')].
    pose proof (op_abs _ _ _ Hp) as Ha. unfold abs in Ha. rewrite Ha.
    rewrite map_size_delete. destruct (_ !! _); simpl; lia.
Qed.

Lemma exec_all_room ops : forall s,
  wf (seg s) -> vbCurrentSize (hdr (seg s)) + Z.of_nat (length ops) <= vbCapacity (hdr (seg s)) ->
  admissible ops (abs (seg s)) ->
  wp (for_each ops exec) s (fun _ s' => op_post s s' (spec_run ops (abs (seg s)))).
Proof.
  induction ops as [|o ops IH]; intros s Hwf Hroom Hadm; simpl in *.
  - apply wp_ret. by apply op_post_refl.
  - destruct Hadm as [Ho Hadm]. wp_step.
    eapply wp_mono; [apply exec_room; simpl; try done; lia|].
    intros [] s1 [Hp Hs1]. pose proof (op_abs _ _ _ Hp) as Ha1.
    eapply wp_mono; [apply IH|].
    + apply (op_wf _ _ _ Hp).
    + rewrite (op_cap _ _ _ Hp). lia.
    + by rewrite Ha1.
    + intros [] s2 Hp2. rewrite Ha1 in Hp2. by eapply op_post_trans.
Qed.

End VBBMThms.
