(* ===== verification/VbbmClaims.v ===== *)
(** * Properties of the VBBM

    The statements about vbbm.cpp this library is kept for, each with a concrete
    instance. *)

From S2P Require Import Prelude Chain Hasher Undoable Vbbm VbbmThms.
From stdpp Require Import prelude gmap strings.
Local Open Scope Z_scope.

Module VBBMClaims.
Import VBBM VBBMThms.

(** A small segment: four entries, two buckets, no files. *)
Definition seg0 : Seg :=
  mkSeg (KEYRANGE_VBBM_BASE + 1) (mkHdr 0 4 0 0 2) [] (replicate 2 (-1)) (replicate 4 blank).
Definition obj0 : t := mk seg0 124 [] 0 (Some 2147483648).

Lemma seg0_wf : wf seg0 /\ abs seg0 = ∅.
Proof. apply (wf_blank (KEYRANGE_VBBM_BASE + 1) (mkHdr 0 4 0 0 2) []); done. Qed.

(** C6. Refinement of the hash table by a finite map: starting from a
    well-formed segment, any sequence of insertions of absent keys and removals
    runs to completion (no fault, no exception, whatever growth is needed), keeps
    the segment well formed, and leaves exactly the map the same sequence
    produces on [<LBID,VerID> -> <vbOID,vbFBO>].  The bytes and the buckets of the
    segment have to stay within an [int] if every operation enlarges it. *)
Theorem vbbm_ops_refine_map ops : forall s,
  wf (seg s) -> 0 < allocdSize s ->
  can_grow (Z.of_nat (length ops)) s ->
  admissible ops (abs (seg s)) ->
  wp (for_each ops exec) s (fun _ s' =>
    wf (seg s') /\ abs (seg s') = spec_run ops (abs (seg s))).
Proof.
  induction ops as [|o ops IH]; intros s Hwf Haz Hnb Hadm; simpl in *; [done|].
  assert (can_grow 1 s) as Hg1 by (eapply vbbm_can_grow_le; [|exact Hnb]; lia).
  destruct Hadm as [Ho Hadm]. wp_step.
  assert (Hstep : wp (exec o) s (fun _ s1 => wf (seg s1) /\ abs (seg s1) = spec_op (abs (seg s)) o /\
     0 < allocdSize s1 /\ (forall k, can_grow (k + 1) s -> can_grow k s1))).
  { destruct o as [l v oid fbo|l v]; simpl.
    - destruct Ho. by apply insert_spec.
    - eapply wp_mono; [by apply removeEntry_post|]. intros [] s1 [? ? _ _ Hnb1 _ _ [Haz1 _]].
      assert (0 <= VBBM_INCREMENT) by done. split_and!; [done..|lia|apply vbbm_can_grow_step; lia]. }
  eapply wp_mono; [exact Hstep|]. intros [] s1 (Hw1 & Ha1 & Haz1 & Hnb1).
  eapply wp_mono; [apply IH; try done; [apply Hnb1; eapply vbbm_can_grow_le; [|exact Hnb]; lia|by rewrite Ha1]|].
  intros [] s2. by rewrite Ha1.
Qed.

Lemma vbbm_ops_refine_map_witness :
  wp (for_each [OpInsert 5 0 1 7; OpInsert 9 3 1 8; OpRemove 5 0] exec) obj0 (fun _ s' =>
    wf (seg s') /\
    abs (seg s') = spec_run [OpInsert 5 0 1 7; OpInsert 9 3 1 8; OpRemove 5 0] (abs seg0)).
Proof.
  apply (vbbm_ops_refine_map [OpInsert 5 0 1 7; OpInsert 9 3 1 8; OpRemove 5 0] obj0).
  - apply seg0_wf.
  - reflexivity.
  - split; reflexivity.
  - simpl. split_and!; done.
Defined.

(** The undo log is exact: while the segment has room for the insertions,
    running any admissible sequence of operations and then [undoChanges] gives
    back the very same object, byte for byte (header, buckets, entries, files),
    with an empty log. *)
Theorem vbbm_undo_restores ops s :
  wf (seg s) -> undoRecords s = [] ->
  vbCurrentSize (hdr (seg s)) + Z.of_nat (length ops) <= vbCapacity (hdr (seg s)) ->
  admissible ops (abs (seg s)) ->
  wp (for_each ops exec ;; undo) s (fun _ s' => s' = s).
Proof.
  intros Hwf Hr Hroom Hadm. wp_step.
  eapply wp_mono; [by apply exec_all_room|]. intros [] s1 [_ _ Hu _ _ _ _ (Ha & Hc & Hf)].
  rewrite Hr in Hu. unfold wp, undo. rewrite (undoes_undoChanges _ _ _ Hu).
  destruct s, s1. simpl in *. by subst.
Qed.

Lemma vbbm_undo_restores_witness :
  wp (for_each [OpInsert 5 0 1 7; OpInsert 9 3 1 8; OpRemove 5 0] exec ;; undo) obj0
     (fun _ s' => s' = obj0).
Proof.
  apply (vbbm_undo_restores [OpInsert 5 0 1 7; OpInsert 9 3 1 8; OpRemove 5 0] obj0).
  - apply seg0_wf.
  - reflexivity.
  - done.
  - simpl. split_and!; done.
Defined.

(** [lookup] is total on the segment invariant: it rejects a negative LBID
    or version, and otherwise terminates inside the arrays and returns exactly
    the map's entry (code 0 with file and offset, or code -1). *)
Theorem vbbm_lookup_total s l v :
  wf (seg s) ->
  lookup l v s =
    if l <? 0 then Exn (invalid_argument "VBBM::lookup(): lbid must be >= 0")
    else if v <? 0 then Exn (invalid_argument "VBBM::lookup(): verID must be > 1)")
    else Val (abs (seg s) !! (l, v)).
Proof.
  intros Hwf. destruct (Z.ltb_spec l 0) as [Hl|Hl].
  { unfold lookup. by destruct (Z.ltb_spec l 0); [|lia]. }
  destruct (Z.ltb_spec v 0) as [Hv|Hv]; [|by apply lookup_abs].
  unfold lookup. destruct (Z.ltb_spec l 0), (Z.ltb_spec v 0); (done || lia).
Qed.

Lemma vbbm_lookup_total_witness : lookup 5 0 obj0 = Val None.
Proof.
  rewrite (vbbm_lookup_total obj0 5 0 (proj1 seg0_wf)).
  change (seg obj0) with seg0. rewrite (proj2 seg0_wf). reflexivity.
Defined.

(** Growing a dense table (all entries in the first [vbCurrentSize] slots,
    as when it is full) loses nothing: [growVBBM], with or without a new file
    slot, keeps the map, the entry count and the existing files, resets the undo
    log, and enlarges the tables by the configured increments. *)
Theorem vbbm_grow_dense s addAFile :
  wf (seg s) -> dense (seg s) -> allocdSize s <> 0 -> can_grow 1 s ->
  wp (growVBBM addAFile) s (fun _ s' =>
    wf (seg s') /\ abs (seg s') = abs (seg s) /\ undoRecords s' = [] /\ size s' = size s /\
    nFiles (hdr (seg s')) = nFiles (hdr (seg s)) + (if addAFile then 1 else 0) /\
    vbCapacity (hdr (seg s')) = vbCapacity (hdr (seg s)) + (if addAFile then 0 else 10000) /\
    (forall i f, zget (files (seg s)) i = Some f -> zget (files (seg s')) i = Some f)).
Proof.
  intros. eapply wp_mono; [by apply growVBBM_spec|]. naive_solver.
Qed.

Lemma vbbm_grow_dense_witness :
  wp (growVBBM true) obj0 (fun _ s' =>
    wf (seg s') /\ abs (seg s') = abs seg0 /\ undoRecords s' = [] /\ size s' = 0 /\
    nFiles (hdr (seg s')) = 1 /\ vbCapacity (hdr (seg s')) = 4 /\
    (forall i f, zget (files seg0) i = Some f -> zget (files (seg s')) i = Some f)).
Proof.
  apply (vbbm_grow_dense obj0 true).
  - apply seg0_wf.
  - intros i e ->%zget_replicate_Some. done.
  - done.
  - done.
Defined.

(** On a table with holes the re-hash of [copyVBBM] stops at
    [vbCurrentSize] instead of [vbCapacity] and loses entries: after inserting
    two entries and removing the first, adding a version-buffer file
    ([growVBBM(true)], reached from [addVBFileIfNotExists]) drops the second entry
    while the recorded size still counts it. *)
Theorem vbbm_addfile_loses_entry :
  wp (insert 5 0 1 7 false ;; insert 9 3 1 8 false ;; removeEntry 5 0) obj0 (fun _ s1 =>
    lookup 9 3 s1 = Val (Some (1, 8)) /\
    wp (growVBBM true) s1 (fun _ s2 => lookup 9 3 s2 = Val None /\ size s2 = 1)).
Proof. vm_compute. done. Qed.

End VBBMClaims.
