(* ===== verification/Vss.v ===== *)
(** * The Version Substitution Structure

    versioning/BRM/vss.{h,cpp}.  The VSS keeps, for every block with more than
    one version, the versions of that block, whether each one lives in the
    version buffer ([vbFlag]) and whether it belongs to an open transaction
    ([locked]).  It is hashed by LBID; the layout is that of the VBBM. *)

From S2P Require Import Prelude Chain Hasher Undoable Vbbm.
From stdpp Require Import prelude gmap strings.
Local Open Scope Z_scope.

Module VSS.

(** ** Data *)
Record VSSEntry := mkEntry { lbid : Z; verID : Z; vbFlag : bool; locked : bool; next : Z }.

Record VSSShmsegHeader := mkHdr {
  capacity : Z; currentSize : Z; LWM : Z; numHashBuckets : Z; lockedEntryCount : Z }.

Record Seg := mkSeg {
  shmkey : Z; hdr : VSSShmsegHeader; hashBuckets : list Z; storage : list VSSEntry }.

Record LBIDRange := mkRange { r_start : Z; r_size : Z }.

(** [QueryContext_vss]: the query's SCN and the transactions open at that time. *)
Record QueryContext := mkQC { currentScn : Z; txns : gset Z }.

Global Instance VSSEntry_eq_dec : EqDecision VSSEntry.
Proof. solve_decision. Defined.
Global Instance VSSShmsegHeader_eq_dec : EqDecision VSSShmsegHeader.
Proof. solve_decision. Defined.

Definition with_size n h := mkHdr (capacity h) n (LWM h) (numHashBuckets h) (lockedEntryCount h).
Definition with_LWM n h := mkHdr (capacity h) (currentSize h) n (numHashBuckets h) (lockedEntryCount h).
Definition with_lockedCount n h := mkHdr (capacity h) (currentSize h) (LWM h) (numHashBuckets h) n.
Definition with_lbid n e := mkEntry n (verID e) (vbFlag e) (locked e) (next e).
Definition with_next n e := mkEntry (lbid e) (verID e) (vbFlag e) (locked e) n.
Definition with_vbFlag b e := mkEntry (lbid e) (verID e) b (locked e) (next e).
Definition with_locked b e := mkEntry (lbid e) (verID e) (vbFlag e) b (next e).
Definition set_hdr h g := mkSeg (shmkey g) h (hashBuckets g) (storage g).
Definition set_buckets b g := mkSeg (shmkey g) (hdr g) b (storage g).
Definition set_storage st g := mkSeg (shmkey g) (hdr g) (hashBuckets g) st.

(** ** Undo locations *)
Inductive Loc :=
| LHeader (key : Z)
| LSize (key : Z)
| LBucket (key i : Z)
| LEntry (key i : Z).

Inductive Data :=
| DHeader (h : VSSShmsegHeader)
| DInt (n : Z)
| DEntry (e : VSSEntry).

Definition sizeof_int : Z := 4.
Definition sizeof_VSSShmsegHeader : Z := 20.
Definition sizeof_VSSEntry : Z := 24.

Definition loc_key (l : Loc) : Z :=
  match l with LHeader k | LSize k | LBucket k _ | LEntry k _ => k end.

Definition read_loc (l : Loc) (g : Seg) : outcome Data :=
  if loc_key l =? shmkey g then
    match l with
    | LHeader _ => Val (DHeader (hdr g))
    | LSize _ => Val (DInt (currentSize (hdr g)))
    | LBucket _ i => b ← aget (hashBuckets g) i; Val (DInt b)
    | LEntry _ i => e ← aget (storage g) i; Val (DEntry e)
    end
  else Fault StaleAddress.

Definition write_loc (l : Loc) (d : Data) (g : Seg) : outcome Seg :=
  if loc_key l =? shmkey g then
    match l, d with
    | LHeader _, DHeader h => Val (set_hdr h g)
    | LSize _, DInt n => Val (set_hdr (with_size n (hdr g)) g)
    | LBucket _ i, DInt b => _ ← aget (hashBuckets g) i; Val (set_buckets (zset (hashBuckets g) i b) g)
    | LEntry _ i, DEntry e => _ ← aget (storage g) i; Val (set_storage (zset (storage g) i e) g)
    | _, _ => Fault OutOfBounds
    end
  else Fault StaleAddress.

Definition loc_size (l : Loc) : Z :=
  match l with
  | LHeader _ => sizeof_VSSShmsegHeader
  | LSize _ | LBucket _ _ => sizeof_int
  | LEntry _ _ => sizeof_VSSEntry
  end.

Global Program Instance vss_mem : UndoMem Seg Loc Data :=
  {| um_read := read_loc; um_write := write_loc; um_size := loc_size |}.
Next Obligation.
  intros l d v [k h bk st] m'. unfold read_loc, write_loc. simpl.
  destruct (Z.eqb_spec (loc_key l) k) as [Hk|]; [|done].
  destruct l; simpl in *; subst; intros Hr Hw; destruct v; simplify_eq/=; unfold aget in *;
    repeat case_match; simplify_eq/=; try (rewrite ?zset_zset, ?zset_id by done; done);
    try (destruct h; done); try (by rewrite Z.eqb_refl in *).
  all: rewrite zget_zset_eq in * by eauto using zget_Some_range; simplify_eq.
Qed.
Next Obligation.
  intros l d [k h bk st]. unfold read_loc, write_loc. simpl.
  destruct (Z.eqb_spec (loc_key l) k) as [Hk|]; [|done].
  destruct l; simpl in *; intros Hr; simplify_eq/=; unfold aget in *;
    repeat case_match; simplify_eq/=; rewrite ?zset_id by done; try done; destruct h; done.
Qed.

(** ** The object *)
Record t := mk { seg : Seg; allocdSize : Z; undoRecords : list (ImageDelta Loc Data) }.

Definition set_seg g s := mk g (allocdSize s) (undoRecords s).
Definition set_alloc n s := mk (seg s) n (undoRecords s).
Definition set_undo u s := mk (seg s) (allocdSize s) u.

Definition VSSSTORAGE_INITIAL_COUNT : Z := 200000.
Definition VSSSTORAGE_INITIAL_SIZE : Z := VSSSTORAGE_INITIAL_COUNT * sizeof_VSSEntry.
Definition VSSSTORAGE_INCREMENT_COUNT : Z := 20000.
Definition VSSSTORAGE_INCREMENT : Z := VSSSTORAGE_INCREMENT_COUNT * sizeof_VSSEntry.
Definition VSSTABLE_INITIAL_SIZE : Z := 50000 * sizeof_int.
Definition VSSTABLE_INCREMENT : Z := 5000 * sizeof_int.
Definition VSS_INITIAL_SIZE : Z := sizeof_VSSShmsegHeader + VSSSTORAGE_INITIAL_SIZE + VSSTABLE_INITIAL_SIZE.
Definition VSS_INCREMENT : Z := VSSTABLE_INCREMENT + VSSSTORAGE_INCREMENT.
Definition KEYRANGE_VSS_BASE : Z := 0x10000.

Definition chooseShmkey (tableShmkey : Z) : Z :=
  if (tableShmkey + 1 =? KEYRANGE_VSS_BASE + VBBM.KEYRANGE_SIZE - 1)
     || (u32 tableShmkey <? KEYRANGE_VSS_BASE)
  then KEYRANGE_VSS_BASE + 1
  else tableShmkey + 1.

Definition blank : VSSEntry := mkEntry (-1) 0 false false 0.

Definition makeUndo (loc : Z -> Loc) : M t unit := fun s =>
  match makeUndoRecord (loc (shmkey (seg s))) (seg s) (undoRecords s) with
  | Val r => (Val tt, set_undo r s)
  | Exn e => (Exn e, s)
  | Fault f => (Fault f, s)
  end.

Definition upd_entry (i : Z) (f : VSSEntry -> VSSEntry) : M t unit := fun s =>
  match zget (storage (seg s)) i with
  | Some e => (Val tt, set_seg (set_storage (zset (storage (seg s)) i (f e)) (seg s)) s)
  | None => (Fault OutOfBounds, s)
  end.

Definition upd_bucket (i v : Z) : M t unit := fun s =>
  match zget (hashBuckets (seg s)) i with
  | Some _ => (Val tt, set_seg (set_buckets (zset (hashBuckets (seg s)) i v) (seg s)) s)
  | None => (Fault OutOfBounds, s)
  end.

Definition upd_hdr (f : VSSShmsegHeader -> VSSShmsegHeader) : M t unit :=
  modify (fun s => set_seg (set_hdr (f (hdr (seg s))) (seg s)) s).

(** [initShmseg] on a zeroed segment. *)
Definition initShmseg (key : Z) : Seg :=
  let cap := VSSSTORAGE_INITIAL_SIZE / sizeof_VSSEntry in
  let nb := VSSTABLE_INITIAL_SIZE / sizeof_int in
  mkSeg key (mkHdr cap 0 0 nb 0) (replicate (Z.to_nat nb) (-1)) (replicate (Z.to_nat cap) blank).

(** ** Insertion and growth *)
Definition hash_key (l : Z) : list Z := le_bytes 8 l.
Definition used (e : VSSEntry) : bool := negb (lbid e =? -1).

Definition _insert (e : VSSEntry) (dest : Seg) (loading : bool)
    (recs : list (ImageDelta Loc Data)) : outcome (Seg * list (ImageDelta Loc Data)) :=
  let k := shmkey dest in
  let hashIndex := bucket_of (hash_key (lbid e)) (numHashBuckets (hdr dest)) in
  insertIndex ← find_empty used (storage dest) (length (storage dest)) (LWM (hdr dest));
  r1 ← (if loading then Val recs else makeUndoRecord (LHeader k) dest recs);
  let dest1 := set_hdr (with_LWM (insertIndex + 1) (hdr dest)) dest in
  recs' ← (if loading then Val r1
           else r2 ← makeUndoRecord (LEntry k insertIndex) dest1 r1;
                makeUndoRecord (LBucket k hashIndex) dest1 r2);
  head ← aget (hashBuckets dest1) hashIndex;
  Val (set_buckets (zset (hashBuckets dest1) hashIndex insertIndex)
        (set_storage (zset (storage dest1) insertIndex (with_next head e)) dest1), recs').

Fixpoint copy_entries (src : list VSSEntry) (n : nat) (i : Z) (dest : Seg) : outcome Seg :=
  match n with
  | O => Val dest
  | S n' =>
      e ← aget src i;
      dest' ← (if lbid e =? -1 then Val dest
               else '(d, _) ← _insert e dest true []; Val d);
      copy_entries src n' (i + 1) dest'
  end.

Definition copyVSS (src : Seg) (key cap nb : Z) : outcome Seg :=
  copy_entries (storage src) (Z.to_nat (currentSize (hdr src))) 0
    (mkSeg key (mkHdr cap (currentSize (hdr src)) 0 nb (lockedEntryCount (hdr src)))
       (replicate (Z.to_nat nb) (-1)) (replicate (Z.to_nat cap) blank)).

(** [growVSS]; unlike [growVBBM] it does not touch the undo log.  The size in
    bytes is an [int] here too. *)
Definition growVSS : M t unit :=
  az ← gets allocdSize;
  newshmkey ← gets (fun s => chooseShmkey (shmkey (seg s)));
  if az =? 0 then
    modify (fun s => set_alloc VSS_INITIAL_SIZE (set_seg (initShmseg newshmkey) s))
  else
    let allocSize := az + VSS_INCREMENT in
    if 2 ^ 31 <=? allocSize then fail_with SignedOverflow else
    src ← gets seg;
    g ← lift (fun _ => copyVSS src newshmkey
                (capacity (hdr src) + VSSSTORAGE_INCREMENT / sizeof_VSSEntry)
                (numHashBuckets (hdr src) + VSSTABLE_INCREMENT / sizeof_int));
    modify (fun s => set_alloc allocSize
      (set_seg (if allocSize =? VSS_INITIAL_SIZE then initShmseg newshmkey else g) s)).

(** [insert] once the segment has room. *)
Definition insert_entry (e : VSSEntry) (loading : bool) : M t unit :=
  '(g, r) ← lift (fun s => _insert e (seg s) loading (undoRecords s));
  modify (fun s => set_undo r (set_seg g s)) ;;
  (if loading then mret tt else makeUndo LSize) ;;
  upd_hdr (fun h => with_size (currentSize h + 1) h) ;;
  (if locked e then upd_hdr (fun h => with_lockedCount (lockedEntryCount h + 1) h) else mret tt).

Definition insert (l v : Z) (flag lck loading : bool) : M t unit :=
  full ← gets (fun s => currentSize (hdr (seg s)) =? capacity (hdr (seg s)));
  (if (full : bool) then growVSS else mret tt) ;;
  insert_entry (mkEntry l v flag lck (-1)) loading.

(** ** Reads: one loop over the list of the LBID's bucket *)
Definition bucket_walk {R A} (l : Z) (g : Seg) (body : Z -> VSSEntry -> A -> ctl R A) (acc : A) :
    outcome (ctl R A) :=
  head ← aget (hashBuckets g) (bucket_of (hash_key l) (numHashBuckets (hdr g)));
  walk next (storage g) (length (storage g)) head body acc.

Definition ERR_SNAPSHOT_TOO_OLD : Z := 15.

(** [lookup]: return code, [*outVer], [*vbFlag]. The accumulator is
    [maxVersion], [minVersion] and the flag of [maxEntry]. *)
Definition lookup_body (l : Z) (verInfo : QueryContext) (txnID : Z) (vbOnly : bool)
    (_ : Z) (e : VSSEntry) (acc : Z * Z * option bool) : ctl (Z * bool) (Z * Z * option bool) :=
  let '(maxVersion, minVersion, maxEntry) := acc in
  if lbid e =? l then
    if vbOnly && negb (vbFlag e) then Next acc
    else if negb (txnID =? verID e) && bool_decide (verID e ∈ txns verInfo) then Next acc
    else if currentScn verInfo =? verID e then Return (verID e, vbFlag e)
    else
      let minVersion := if (verID e <? minVersion) || (minVersion =? -1) then verID e else minVersion in
      if (verID e <? currentScn verInfo) && (maxVersion <? verID e)
      then Next (verID e, minVersion, Some (vbFlag e))
      else Next (maxVersion, minVersion, maxEntry)
  else Next acc.

Definition lookup (l : Z) (verInfo : QueryContext) (txnID : Z) (vbOnly : bool) (g : Seg) :
    outcome (Z * Z * bool) :=
  r ← bucket_walk l g (lookup_body l verInfo txnID vbOnly) (-1, -1, None);
  match r with
  | Return (v, f) => Val (0, v, f)
  | Next (maxVersion, minVersion, maxEntry) =>
      match maxEntry with
      | Some f => Val (0, maxVersion, f)
      | None =>
          if currentScn verInfo <? minVersion then Val (ERR_SNAPSHOT_TOO_OLD, 0, false)
          else Val (-1, 0, false)
      end
  end.

(** [getCurrentVersion]: version and lock flag of the block in the main files. *)
Definition getCurrentVersion (l : Z) (g : Seg) : outcome (Z * bool) :=
  r ← bucket_walk l g (fun _ e (_ : unit) =>
        if (lbid e =? l) && negb (vbFlag e) then Return (verID e, locked e) else Next tt) tt;
  match r with
  | Return x => Val x
  | Next _ => Val (0, false)
  end.

Definition getHighestVerInVB (l maxv : Z) (g : Seg) : outcome Z :=
  r ← bucket_walk (R:=Z) l g (fun _ e ret =>
        if (lbid e =? l) && vbFlag e && ((verID e <=? maxv) && (ret <? verID e))
        then Next (verID e) else Next ret) (-1);
  match r with
  | Return ret | Next ret => Val ret
  end.

Definition isVersioned (l version : Z) (g : Seg) : outcome bool :=
  r ← bucket_walk l g (fun _ e (_ : unit) =>
        if (lbid e =? l) && (verID e =? version) then Return (vbFlag e) else Next tt) tt;
  match r with
  | Return b => Val b
  | Next _ => Val false
  end.

(** [isLocked]: the first locked entry met, in block order, decides. *)
Fixpoint isLocked_blocks (n : nat) (currentBlock transID : Z) (g : Seg) : outcome bool :=
  match n with
  | O => Val false
  | S n' =>
      r ← bucket_walk currentBlock g (fun _ e (_ : unit) =>
            if (lbid e =? currentBlock) && locked e
            then Return (negb (verID e =? transID)) else Next tt) tt;
      match r with
      | Return b => Val b
      | Next _ => isLocked_blocks n' (currentBlock + 1) transID g
      end
  end.

Definition isLocked (range : LBIDRange) (transID : Z) (g : Seg) : outcome bool :=
  isLocked_blocks (Z.to_nat (r_size range)) (r_start range) transID g.

(** [isTooOld]; [minVer] starts at 0. *)
Definition isTooOld (l v : Z) (g : Seg) : outcome bool :=
  r ← bucket_walk (R:=Z) l g (fun _ e minVer =>
        if (lbid e =? l) && (verID e <? minVer) then Next (verID e) else Next minVer) 0;
  match r with
  | Return minVer | Next minVer => Val (v <? minVer)
  end.

(** [isEntryLocked]: the block version a rollback would need. *)
Definition isEntryLocked (l v : Z) (g : Seg) : outcome bool :=
  if l =? -1 then Val false
  else
    r ← bucket_walk (R:=bool * Z) l g (fun _ e (acc : bool * Z) =>
          let '(hasALockedEntry, rollbackVersion) := acc in
          if lbid e =? l then
            if locked e then Next (true, rollbackVersion)
            else if rollbackVersion <? verID e then Next (hasALockedEntry, verID e)
            else Next acc
          else Next acc) (false, 0);
    match r with
    | Return (hasALockedEntry, rollbackVersion) | Next (hasALockedEntry, rollbackVersion) => Val (hasALockedEntry && (v =? rollbackVersion))
    end.

Definition getIndex (l v : Z) (g : Seg) : outcome (Z * Z * Z) :=
  r ← bucket_walk l g (fun i e prev =>
        if (lbid e =? l) && (verID e =? v) then Return (i, prev) else Next i) (-1);
  let bucket := bucket_of (hash_key l) (numHashBuckets (hdr g)) in
  match r with
  | Return (index, prev) => Val (index, prev, bucket)
  | Next prev => Val (-1, prev, bucket)
  end.

(** ** Updates *)
Definition setVBFlag (l v : Z) (flag : bool) : M t unit :=
  '(index, _, _) ← lift (fun s => getIndex l v (seg s));
  if index =? -1 then throw (logic_error "VSS::setVBFlag(): that entry doesn't exist")
  else makeUndo (fun k => LEntry k index) ;; upd_entry index (with_vbFlag flag).

(** Take entry [index] off the list of [bucket]; [prev] is its predecessor. *)
Definition unlink (bucket prev index : Z) : M t unit :=
  makeUndo (fun k => LEntry k index) ;;
  upd_entry index (with_lbid (-1)) ;;
  e ← lift (fun s => aget (storage (seg s)) index);
  if prev =? -1
  then makeUndo (fun k => LBucket k bucket) ;; upd_bucket bucket (next e)
  else makeUndo (fun k => LEntry k prev) ;; upd_entry prev (with_next (next e)).

(** The header bookkeeping after an entry was removed. *)
Definition uncount (index : Z) : M t unit :=
  upd_hdr (fun h => with_size (currentSize h - 1) h) ;;
  e ← lift (fun s => aget (storage (seg s)) index);
  upd_hdr (fun h => if locked e && (0 <? lockedEntryCount h)
                    then with_lockedCount (lockedEntryCount h - 1) h else h) ;;
  upd_hdr (fun h => if index <? LWM h then with_LWM index h else h).

(** The removal loop [for (prev = -1, index = hashBuckets[bucket]; ...)] over
    all entries of one LBID. *)
Fixpoint purge (fuel : nat) (l bucket prev index : Z) : M t unit :=
  if index =? -1 then mret tt
  else match fuel with
       | O => fail_with OutOfFuel
       | S f =>
           e ← lift (fun s => aget (storage (seg s)) index);
           prev' ← (if lbid e =? l
                    then unlink bucket prev index ;; uncount index ;; mret prev
                    else mret index);
           e' ← lift (fun s => aget (storage (seg s)) index);
           purge f l bucket prev' (next e')
       end.

(** [removeEntry]; the result is what it appends to [flushList]. *)
Definition removeEntry (l v : Z) : M t (list Z) :=
  '(index, prev, bucket) ← lift (fun s => getIndex l v (seg s));
  if index =? -1 then mret []
  else
    unlink bucket prev index ;;
    makeUndo LHeader ;;
    uncount index ;;
    head ← lift (fun s => aget (hashBuckets (seg s)) bucket);
    inuse ← lift (fun s => walk next (storage (seg s)) (length (storage (seg s))) head
              (fun _ e (_ : unit) => if (lbid e =? l) && (vbFlag e || locked e) then Return tt else Next tt)
              tt);
    match inuse with
    | Return _ => mret []
    | Next _ =>
        fuel ← gets (fun s => length (storage (seg s)));
        purge fuel l bucket (-1) head ;;
        mret [l]
    end.

(** [commit]: every entry of [txnID] is unlocked. *)
Definition commit_slot (txnID i : Z) : M t unit :=
  e ← lift (fun s => aget (storage (seg s)) i);
  if negb (lbid e =? -1) && (verID e =? txnID)
  then makeUndo (fun k => LEntry k i) ;;
       upd_entry i (with_locked false) ;;
       upd_hdr (fun h => if 0 <? lockedEntryCount h
                         then with_lockedCount (lockedEntryCount h - 1) h else h)
  else mret tt.

Definition commit (txnID : Z) : M t unit :=
  n ← gets (fun s => Z.to_nat (capacity (hdr (seg s))));
  for_up n 0 (commit_slot txnID).

(** The scans over the whole storage. *)
Definition scan (f : VSSEntry -> bool) (g : Seg) : list VSSEntry :=
  filter (fun e => used e = true /\ f e = true) (take (Z.to_nat (capacity (hdr g))) (storage g)).

Definition getUncommittedLBIDs (txnID : Z) (g : Seg) : list Z :=
  lbid <$> scan (fun e => verID e =? txnID) g.

Definition getUnlockedLBIDs (g : Seg) : list (Z * Z) :=
  (fun e => (lbid e, verID e)) <$> scan (fun e => negb (locked e)) g.

Definition getLockedLBIDs (g : Seg) : list (Z * Z) :=
  (fun e => (lbid e, verID e)) <$> scan locked g.

Definition getCurrentTxnIDs (g : Seg) (acc : gset Z) : gset Z :=
  acc ∪ list_to_set (verID <$> scan locked g).

(** [size()]: counts the used slots and compares with the recorded size. *)
Definition size (g : Seg) : outcome Z :=
  let ret := zlen (scan (fun _ => true) g) in
  if ret =? currentSize (hdr g) then Val ret
  else Exn (logic_error "VSS: actual size & recorded size disagree.").

Definition hashEmpty (g : Seg) : bool :=
  forallb (fun b => b =? -1) (take (Z.to_nat (numHashBuckets (hdr g))) (hashBuckets g)).

Definition isEmpty (g : Seg) : bool := currentSize (hdr g) =? 0.

(** [clear()]. *)
Definition clear : M t unit :=
  newshmkey ← gets (fun s => chooseShmkey (shmkey (seg s)));
  idbassert (fun s => negb (shmkey (seg s) =? u32 newshmkey)) ;;
  modify (fun s => set_alloc VSS_INITIAL_SIZE (set_seg (initShmseg newshmkey) s)).

Definition undo : M t unit := fun s =>
  match undoChanges (undoRecords s) (seg s) with
  | Val (g, r) => (Val tt, set_undo r (set_seg g s))
  | Exn e => (Exn e, s)
  | Fault f => (Fault f, s)
  end.

Definition confirm : M t unit := modify (fun s => set_undo (confirmChanges (undoRecords s)) s).

End VSS.
