(* ===== verification/VssThms.v ===== *)
(** * Correctness of the VSS

    The segment invariant [wf], the map [abs] from block versions to their flags,
    the specification of the operations against that map, and how far the undo
    log restores each of them. *)

From S2P Require Import Prelude Chain Hasher Undoable Vss.
From stdpp Require Import prelude gmap strings.
Local Open Scope Z_scope.

Module VSSThms.
Import VSS.

Definition live (e : VSSEntry) : bool := used e.
Definition key (e : VSSEntry) : Z * Z := (lbid e, verID e).
Definition val (e : VSSEntry) : bool * bool := (vbFlag e, locked e).
Definition bucket (nb : Z) (e : VSSEntry) : Z := bucket_of (hash_key (lbid e)) nb.
Definition held (e : VSSEntry) : bool := live e && locked e.

(** The map [<LBID, VerID> -> <vbFlag, locked>] a segment stands for. *)
Definition abs (g : Seg) : gmap (Z * Z) (bool * bool) := contents live key val (storage g).

Record tab (g : Seg) : Prop := {
  tb_cap : zlen (storage g) = capacity (hdr g);
  tb_nb : zlen (hashBuckets g) = numHashBuckets (hdr g);
  tb_nbpos : 0 < numHashBuckets (hdr g) < 2 ^ 31;
  tb_tab : table_ok next live (bucket (numHashBuckets (hdr g))) (hashBuckets g) (storage g);
  tb_lwm0 : 0 <= LWM (hdr g);
  tb_lwm i e : i < LWM (hdr g) -> zget (storage g) i = Some e -> live e = true;
  tb_uniq : uniq live key (storage g) }.

(** Segment invariant, with [n] entries in use, [k] of them locked. *)
Record wf_n (n k : Z) (g : Seg) : Prop := {
  wf_tab : tab g;
  wf_count : live_count live (storage g) = n;
  wf_held : live_count held (storage g) = k }.

(** [currentSize] and [lockedEntryCount] are exact. *)
Definition wf (g : Seg) : Prop := wf_n (currentSize (hdr g)) (lockedEntryCount (hdr g)) g.

Lemma vss_live_lbid e : live e = true <-> lbid e <> -1.
Proof. unfold live, used. destruct (Z.eqb_spec (lbid e) (-1)); naive_solver. Qed.

Lemma vss_not_live_lbid e : live e = false <-> lbid e = -1.
Proof. unfold live, used. destruct (Z.eqb_spec (lbid e) (-1)); naive_solver. Qed.

Lemma vss_abs_Some g k x :
  uniq live key (storage g) ->
  abs g !! k = Some x <->
  exists i e, zget (storage g) i = Some e /\ live e = true /\ key e = k /\ val e = x.
Proof. apply contents_Some. Qed.

Lemma bucket_head g l :
  tab g -> exists h, zget (hashBuckets g) (bucket_of (hash_key l) (numHashBuckets (hdr g))) = Some h.
Proof.
  intros Ht. apply zget_is_Some. rewrite (tb_nb _ Ht). apply bucket_of_range. apply (tb_nbpos _ Ht).
Qed.

(** ** Undo records *)
Lemma vss_mkrec l g recs d :
  read_loc l g = Val d -> makeUndoRecord l g recs = Val (recs ++ [{| start := l; data := d |}]).
Proof. intros H. unfold makeUndoRecord. simpl. rewrite H. by destruct l. Qed.

Lemma vss_read_header g : read_loc (LHeader (shmkey g)) g = Val (DHeader (hdr g)).
Proof. unfold read_loc. simpl. by rewrite Z.eqb_refl. Qed.

Lemma vss_read_size g : read_loc (LSize (shmkey g)) g = Val (DInt (currentSize (hdr g))).
Proof. unfold read_loc. simpl. by rewrite Z.eqb_refl. Qed.

Lemma vss_read_entry g i e :
  zget (storage g) i = Some e -> read_loc (LEntry (shmkey g) i) g = Val (DEntry e).
Proof. intros H. unfold read_loc, aget. simpl. by rewrite Z.eqb_refl, H. Qed.

Lemma vss_read_bucket g i h :
  zget (hashBuckets g) i = Some h -> read_loc (LBucket (shmkey g) i) g = Val (DInt h).
Proof. intros H. unfold read_loc, aget. simpl. by rewrite Z.eqb_refl, H. Qed.

(** [undoes_h]: like [undoes], up to the header, which the operations change
    between two header records. *)
Definition undoes_h (g : Seg) (r : list (ImageDelta Loc Data)) (g' : Seg) (r' : list (ImageDelta Loc Data)) : Prop :=
  shmkey g' = shmkey g /\
  exists new, r' = r ++ new /\ forall h, restore (rev new) (set_hdr h g') = Val (set_hdr h g).

Lemma undoes_h_refl g r : undoes_h g r g r.
Proof. split; [done|]. exists []. by rewrite app_nil_r. Qed.

Lemma undoes_h_hdr g r h : undoes_h g r (set_hdr h g) r.
Proof. split; [done|]. exists []. by rewrite app_nil_r. Qed.

Lemma undoes_h_trans g0 r0 g1 r1 g2 r2 :
  undoes_h g0 r0 g1 r1 -> undoes_h g1 r1 g2 r2 -> undoes_h g0 r0 g2 r2.
Proof.
  intros (Hk1 & n1 & -> & H1) (Hk2 & n2 & -> & H2). split; [congruence|].
  exists (n1 ++ n2). split; [by rewrite app_assoc|]. intros h.
  rewrite rev_app_distr. by erewrite restore_app.
Qed.

Lemma undoes_h_entry g r i e e' :
  zget (storage g) i = Some e ->
  undoes_h g r (set_storage (zset (storage g) i e') g)
    (r ++ [{| start := LEntry (shmkey g) i; data := DEntry e |}]).
Proof.
  intros Hi. split; [done|]. eexists. split; [done|]. intros h. simpl.
  pose proof (zget_Some_range _ _ _ Hi) as Hr.
  unfold write_loc, aget. simpl. rewrite Z.eqb_refl, zget_zset_eq by done. simpl.
  rewrite zset_zset, zset_id by done. by destruct g.
Qed.

Lemma undoes_h_bucket g r i h0 v :
  zget (hashBuckets g) i = Some h0 ->
  undoes_h g r (set_buckets (zset (hashBuckets g) i v) g)
    (r ++ [{| start := LBucket (shmkey g) i; data := DInt h0 |}]).
Proof.
  intros Hi. split; [done|]. eexists. split; [done|]. intros h. simpl.
  pose proof (zget_Some_range _ _ _ Hi) as Hr.
  unfold write_loc, aget. simpl. rewrite Z.eqb_refl, zget_zset_eq by done. simpl.
  rewrite zset_zset, zset_id by done. by destruct g.
Qed.

(** A header record in front makes the undo exact. *)
Lemma undoes_h_header g r g' r' :
  undoes_h g (r ++ [{| start := LHeader (shmkey g); data := DHeader (hdr g) |}]) g' r' ->
  undoes g r g' r'.
Proof.
  intros (Hk & n & -> & Hn). exists ({| start := LHeader (shmkey g); data := DHeader (hdr g) |} :: n).
  split; [by rewrite <- app_assoc|]. simpl rev.
  specialize (Hn (hdr g')). replace (set_hdr (hdr g') g') with g' in Hn by (by destruct g').
  erewrite restore_app by exact Hn. simpl. unfold write_loc. simpl. rewrite Z.eqb_refl. by destruct g.
Qed.

Lemma undoes_h_exact g r g' r' : undoes_h g r g' r' -> hdr g' = hdr g -> undoes g r g' r'.
Proof.
  intros (Hk & n & -> & Hn) Hh. exists n. split; [done|]. specialize (Hn (hdr g')).
  replace (set_hdr (hdr g') g') with g' in Hn by (by destruct g'). rewrite Hn, Hh. by destruct g.
Qed.

Lemma vss_wp_makeUndo f s d Q :
  read_loc (f (shmkey (seg s))) (seg s) = Val d ->
  Q tt (set_undo (undoRecords s ++ [{| start := f (shmkey (seg s)); data := d |}]) s) ->
  wp (makeUndo f) s Q.
Proof. intros Hr HQ. unfold wp, makeUndo. by rewrite (vss_mkrec _ _ _ _ Hr). Qed.

Lemma vss_wp_upd_entry i f s e (Q : unit -> t -> Prop) :
  zget (storage (seg s)) i = Some e ->
  Q tt (set_seg (set_storage (zset (storage (seg s)) i (f e)) (seg s)) s) -> wp (upd_entry i f) s Q.
Proof. intros Hi HQ. unfold wp, upd_entry. by rewrite Hi. Qed.

Lemma vss_wp_upd_bucket i v s h (Q : unit -> t -> Prop) :
  zget (hashBuckets (seg s)) i = Some h ->
  Q tt (set_seg (set_buckets (zset (hashBuckets (seg s)) i v) (seg s)) s) -> wp (upd_bucket i v) s Q.
Proof. intros Hi HQ. unfold wp, upd_bucket. by rewrite Hi. Qed.

Lemma vss_wp_upd_hdr f s (Q : unit -> t -> Prop) :
  Q tt (set_seg (set_hdr (f (hdr (seg s))) (seg s)) s) -> wp (upd_hdr f) s Q.
Proof. done. Qed.

(** ** Reads of one block's versions

    A read loop sees exactly the versions of its block. *)
Lemma bucket_walk_spec g l :
  tab g ->
  exists lst, (forall R A (body : Z -> VSSEntry -> A -> ctl R A) acc,
      bucket_walk l g body acc = Val (walk_list lst body acc)) /\
    (forall i e, (i, e) ∈ lst -> live e = true /\ abs g !! key e = Some (val e)) /\
    (forall v x, abs g !! (l, v) = Some x ->
      exists i e, (i, e) ∈ lst /\ key e = (l, v) /\ val e = x).
Proof.
  intros Ht. destruct (bucket_head g l Ht) as [h Hh].
  destruct (tk_chain _ _ _ _ _ (tb_tab _ Ht) _ _ Hh) as (lst & Hc & HF).
  exists lst. split_and!.
  - intros R A body acc. unfold bucket_walk, aget. rewrite Hh. simpl.
    by apply walk_chain; [|eapply chain_length].
  - intros i e Hin. destruct (tk_bucket_live _ _ _ _ _ _ _ _ _ _ (tb_tab _ Ht) Hh Hc Hin) as (? & ? & ?).
    split; [done|]. apply vss_abs_Some; [apply (tb_uniq _ Ht)|]. eauto 10.
  - intros v x (i & e & Hi & Hl & Hk & Hv)%vss_abs_Some; [|apply (tb_uniq _ Ht)].
    exists i, e. split; [|done]. eapply (tk_bucket _ _ _ _ _ _ _ _ _ _ (tb_tab _ Ht) Hh Hc Hi Hl).
    unfold key in Hk. unfold bucket. by simplify_eq.
Qed.

(** *** Version resolution

    [visible m l qc txn vbOnly v f]: version [v] of block [l] may be read under
    the query context, and [f] says whether it lives in the version buffer. *)
Definition visible (m : gmap (Z * Z) (bool * bool)) (l : Z) (qc : QueryContext) (txn : Z)
    (vbOnly : bool) (v : Z) (f : bool) : Prop :=
  (exists k, m !! (l, v) = Some (f, k)) /\ (vbOnly = true -> f = true) /\ (v = txn \/ v ∉ txns qc).

(** The answer of a lookup against a set of visible versions: the greatest one
    not after the snapshot; "snapshot too old" if all are after it; or "not in
    the VSS" if there is none. *)
Definition resolves (V : Z -> bool -> Prop) (scn : Z) (r : Z * Z * bool) : Prop :=
  let '(code, v, f) := r in
  (code = 0 /\ V v f /\ v <= scn /\ forall v' f', V v' f' -> v' <= scn -> v' <= v) \/
  (code = ERR_SNAPSHOT_TOO_OLD /\ (exists v' f', V v' f') /\ forall v' f', V v' f' -> scn < v') \/
  (code = -1 /\ forall v' f', ~ V v' f').

Section lookup.
Context (l txn : Z) (qc : QueryContext) (vbOnly : bool).

Definition candidate (e : VSSEntry) : bool :=
  (lbid e =? l) && negb (vbOnly && negb (vbFlag e))
  && negb (negb (txn =? verID e) && bool_decide (verID e ∈ txns qc)).

Lemma candidate_spec e :
  candidate e = true <->
  lbid e = l /\ (vbOnly = true -> vbFlag e = true) /\ (verID e = txn \/ verID e ∉ txns qc).
Proof.
  unfold candidate. rewrite !andb_true_iff, !negb_true_iff, Z.eqb_eq, !andb_false_iff,
    !negb_false_iff, Z.eqb_eq, bool_decide_eq_false.
  destruct vbOnly, (vbFlag e); naive_solver.
Qed.

Definition vis_in (lst : list (Z * VSSEntry)) (v : Z) (f : bool) : Prop :=
  exists i e, (i, e) ∈ lst /\ candidate e = true /\ verID e = v /\ vbFlag e = f.

(** What the loop's accumulator says of the entries visited so far. *)
Definition acc_ok (pre : list (Z * VSSEntry)) (acc : Z * Z * option bool) : Prop :=
  let '(maxV, minV, maxE) := acc in
  (forall f, ~ vis_in pre (currentScn qc) f) /\
  match maxE with
  | None => maxV = -1 /\ forall v f, vis_in pre v f -> currentScn qc < v
  | Some f => vis_in pre maxV f /\ maxV < currentScn qc /\
              forall v f', vis_in pre v f' -> v < currentScn qc -> v <= maxV
  end /\
  ((minV = -1 /\ forall v f, ~ vis_in pre v f) \/
   ((exists f, vis_in pre minV f) /\ forall v f, vis_in pre v f -> minV <= v)).

Lemma vis_in_snoc pre i e v f :
  vis_in (pre ++ [(i, e)]) v f <-> vis_in pre v f \/ (candidate e = true /\ verID e = v /\ vbFlag e = f).
Proof.
  unfold vis_in. split.
  - intros (j & x & [Hj|[= -> ->]%list_elem_of_singleton]%elem_of_app & Hr); [left; eauto|by right].
  - intros [(j & x & Hj & Hr)|Hr]; [exists j, x|exists i, e]; split; try done; set_solver.
Qed.

Lemma lookup_body_cand i e acc :
  lookup_body l qc txn vbOnly i e acc =
  (let '(maxV, minV, maxE) := acc in
   if candidate e then
     if currentScn qc =? verID e then Return (verID e, vbFlag e)
     else
       let minV := if (verID e <? minV) || (minV =? -1) then verID e else minV in
       if (verID e <? currentScn qc) && (maxV <? verID e)
       then Next (verID e, minV, Some (vbFlag e)) else Next (maxV, minV, maxE)
   else Next acc).
Proof.
  destruct acc as [[maxV minV] maxE]. unfold lookup_body, candidate.
  destruct (lbid e =? l); [|done].
  destruct (vbOnly && negb (vbFlag e)); [done|].
  by destruct (negb (txn =? verID e) && bool_decide (verID e ∈ txns qc)).
Qed.

Lemma acc_ok_skip pre i e acc : candidate e = false -> acc_ok pre acc -> acc_ok (pre ++ [(i, e)]) acc.
Proof.
  intros Hc. assert (Heq : forall v f, vis_in (pre ++ [(i, e)]) v f <-> vis_in pre v f).
  { intros v f. rewrite vis_in_snoc. split; [intros [?|[? _]]; [done|congruence]|by left]. }
  unfold acc_ok. destruct acc as [[maxV minV] [f|]]; setoid_rewrite Heq; done.
Qed.

Lemma acc_ok_step pre i e maxV minV maxE :
  candidate e = true -> 0 <= verID e -> currentScn qc <> verID e -> acc_ok pre (maxV, minV, maxE) ->
  (forall v f, vis_in pre v f -> 0 <= v) ->
  let minV' := if (verID e <? minV) || (minV =? -1) then verID e else minV in
  acc_ok (pre ++ [(i, e)])
    (if (verID e <? currentScn qc) && (maxV <? verID e) then (verID e, minV', Some (vbFlag e))
     else (maxV, minV', maxE)).
Proof.
  intros Hc H0 Hne (Hscn & Hmax & Hmin) Hnn minV'.
  assert (Hmin' : (exists f, vis_in (pre ++ [(i, e)]) minV' f) /\
            forall v f, vis_in (pre ++ [(i, e)]) v f -> minV' <= v).
  { subst minV'. setoid_rewrite vis_in_snoc. destruct Hmin as [[-> Hno]|[[f Hf] Hle]].
    - rewrite orb_true_r. split; [eauto|]. intros v f [Hv|(_ & -> & _)]; [by destruct (Hno _ _ Hv)|lia].
    - specialize (Hnn _ _ Hf). destruct (Z.ltb_spec (verID e) minV), (Z.eqb_spec minV (-1)); try lia; simpl.
      + split; [eauto|]. intros v f' [Hv|(_ & <- & _)]; [|lia]. specialize (Hle _ _ Hv). lia.
      + split; [eauto|]. intros v f' [Hv|(_ & <- & _)]; [by apply (Hle _ f')|lia]. }
  clearbody minV'.
  assert (Hscn' : forall f, ~ vis_in (pre ++ [(i, e)]) (currentScn qc) f).
  { intros f [Hf|(_ & ? & _)]%vis_in_snoc; [by apply (Hscn f)|done]. }
  destruct (Z.ltb_spec (verID e) (currentScn qc)), (Z.ltb_spec maxV (verID e)); simpl;
    unfold acc_ok; (split; [done|split; [|by right]]).
  - split_and!; [rewrite vis_in_snoc; eauto|lia|]. intros v f' [Hv|(_ & <- & _)]%vis_in_snoc Hlt; [|lia].
    destruct maxE as [f|]; [destruct Hmax as (_ & _ & Hm); specialize (Hm _ _ Hv); lia|].
    destruct Hmax as [_ Hm]. specialize (Hm _ _ Hv). lia.
  - destruct maxE as [f|]; [|exfalso; lia]. destruct Hmax as (Hf & ? & Hm).
    split_and!; [rewrite vis_in_snoc; eauto|lia|]. intros v f' [Hv|(_ & <- & _)]%vis_in_snoc Hlt; eauto.
  - destruct maxE as [f|].
    + destruct Hmax as (Hf & ? & Hm). split_and!; [rewrite vis_in_snoc; eauto|lia|].
      intros v f' [Hv|(_ & <- & _)]%vis_in_snoc Hlt; [eauto|lia].
    + destruct Hmax as [-> Hm]. split; [done|]. intros v f' [Hv|(_ & <- & _)]%vis_in_snoc; [eauto|lia].
  - destruct maxE as [f|].
    + destruct Hmax as (Hf & ? & Hm). split_and!; [rewrite vis_in_snoc; eauto|lia|].
      intros v f' [Hv|(_ & <- & _)]%vis_in_snoc Hlt; [eauto|lia].
    + destruct Hmax as [-> Hm]. split; [done|]. intros v f' [Hv|(_ & <- & _)]%vis_in_snoc; [eauto|lia].
Qed.

Definition answer (c : ctl (Z * bool) (Z * Z * option bool)) : Z * Z * bool :=
  match c with
  | Return (v, f) => (0, v, f)
  | Next (maxVersion, minVersion, maxEntry) =>
      match maxEntry with
      | Some f => (0, maxVersion, f)
      | None => if currentScn qc <? minVersion then (ERR_SNAPSHOT_TOO_OLD, 0, false) else (-1, 0, false)
      end
  end.

Lemma lookup_loop lst : forall pre acc,
  0 <= currentScn qc -> (forall v f, vis_in (pre ++ lst) v f -> 0 <= v) -> acc_ok pre acc ->
  resolves (vis_in (pre ++ lst)) (currentScn qc)
    (answer (walk_list lst (lookup_body l qc txn vbOnly) acc)).
Proof.
  induction lst as [|[i e] lst IH]; intros pre acc H0 Hnn Hacc.
  - rewrite app_nil_r in *. destruct acc as [[maxV minV] maxE]. destruct Hacc as (Hscn & Hmax & Hmin).
    simpl. destruct maxE as [f|].
    + destruct Hmax as (Hf & Hlt & Hm). left. split_and!; try done; [lia|].
      intros v' f' Hv Hle. apply (Hm _ f'); [done|].
      destruct (Z.eq_dec v' (currentScn qc)) as [->|]; [by destruct (Hscn f')|lia].
    + destruct Hmax as [-> Hm]. destruct Hmin as [[-> Hno]|[[f Hf] Hle]].
      * destruct (Z.ltb_spec (currentScn qc) (-1)); [lia|]. right. right. done.
      * pose proof (Hm _ _ Hf). destruct (Z.ltb_spec (currentScn qc) minV); [|lia].
        right. left. split_and!; eauto.
  - change ((i, e) :: lst) with ([(i, e)] ++ lst). rewrite (assoc_L (++)).
    rewrite cons_middle, (assoc_L (++)) in Hnn. simpl walk_list. rewrite lookup_body_cand.
    destruct acc as [[maxV minV] maxE]. destruct (candidate e) eqn:Hc.
    + assert (Hve : vis_in (pre ++ [(i, e)]) (verID e) (vbFlag e)) by (rewrite vis_in_snoc; eauto).
      assert (Hsub : forall v f, vis_in (pre ++ [(i, e)]) v f -> vis_in ((pre ++ [(i, e)]) ++ lst) v f).
      { intros v f (j & x & ? & ?). exists j, x. split; [set_solver|done]. }
      destruct (Z.eqb_spec (currentScn qc) (verID e)) as [Heq|Hne].
      { simpl. left. split_and!; try done; [by apply Hsub|lia|lia]. }
      pose proof (acc_ok_step pre i e maxV minV maxE Hc (Hnn _ _ (Hsub _ _ Hve)) Hne Hacc) as Hstep.
      cbv zeta. simpl in Hstep. destruct ((verID e <? currentScn qc) && (maxV <? verID e));
        (apply IH; [done..|apply Hstep; intros v f Hv; apply (Hnn v f), Hsub; rewrite vis_in_snoc; auto]).
    + apply IH; [done..|]. by apply acc_ok_skip.
Qed.
End lookup.

(** [lookup] returns what the map says. *)
Lemma lookup_resolves g l qc txn vbOnly :
  tab g -> 0 <= currentScn qc -> (forall v x, abs g !! (l, v) = Some x -> 0 <= v) ->
  exists r, lookup l qc txn vbOnly g = Val r /\
    resolves (visible (abs g) l qc txn vbOnly) (currentScn qc) r.
Proof.
  intros Ht H0 Hnn. destruct (bucket_walk_spec g l Ht) as (lst & Hw & Hin & Hall).
  unfold lookup. rewrite Hw. simpl.
  exists (answer qc (walk_list lst (lookup_body l qc txn vbOnly) (-1, -1, None))).
  split.
  { unfold answer. repeat case_match; simplify_eq; done. }
  assert (Heq : forall v f, visible (abs g) l qc txn vbOnly v f <-> vis_in l txn qc vbOnly lst v f).
  { intros v f. unfold visible, vis_in. setoid_rewrite candidate_spec. split.
    - intros ((k & (i & e & He & Hk & Hv)%Hall) & Hf & Ht'). exists i, e.
      unfold key, val in *. simplify_eq. done.
    - intros (i & e & He & (Hl & Hvb & Ht') & <- & <-). destruct (Hin _ _ He) as [_ Ha].
      unfold key, val in Ha. rewrite Hl in Ha. eauto. }
  pose proof (lookup_loop l txn qc vbOnly lst [] (-1, -1, None) H0) as Hr.
  simpl in Hr. unfold resolves in *.
  destruct (answer _ _) as [[c v] f]. setoid_rewrite Heq. apply Hr.
  - intros v' f' [[k Hk] _]%Heq. eauto.
  - assert (Hno : forall v f, ~ vis_in l txn qc vbOnly [] v f).
    { intros v' f' (i & e & Hi & _). by apply not_elem_of_nil in Hi. }
    split; [naive_solver|split; [naive_solver|by left]].
Qed.

(** *** The other reads *)
Lemma getCurrentVersion_spec g l :
  tab g ->
  (getCurrentVersion l g = Val (0, false) /\ forall v k, abs g !! (l, v) <> Some (false, k)) \/
  (exists v k, getCurrentVersion l g = Val (v, k) /\ abs g !! (l, v) = Some (false, k)).
Proof.
  intros Ht. destruct (bucket_walk_spec g l Ht) as (lst & Hw & Hin & Hall).
  unfold getCurrentVersion. rewrite Hw. clear Hw. simpl.
  destruct (walk_search (fun e => (lbid e =? l) && negb (vbFlag e)) (fun e => (verID e, locked e)) lst)
    as [[Hno ->]|(i & e & Hi & Hf & ->)].
  - left. split; [done|]. intros v k (i & e & Hi & Hk & Hv)%Hall. specialize (Hno _ _ Hi).
    injection Hk as Hk _. injection Hv as Hv _. by rewrite Hk, Hv, Z.eqb_refl in Hno.
  - right. exists (verID e), (locked e). split; [done|]. destruct (Hin _ _ Hi) as [_ Ha].
    apply andb_true_iff in Hf as [<-%Z.eqb_eq Hf%negb_true_iff]. by rewrite <- Hf.
Qed.

Lemma isVersioned_spec g l v :
  tab g -> isVersioned l v g = Val (match abs g !! (l, v) with Some (f, _) => f | None => false end).
Proof.
  intros Ht. destruct (bucket_walk_spec g l Ht) as (lst & Hw & Hin & Hall).
  unfold isVersioned. rewrite Hw. clear Hw. simpl.
  destruct (walk_search (fun e => (lbid e =? l) && (verID e =? v)) vbFlag lst)
    as [[Hno ->]|(i & e & Hi & Hf & ->)].
  - destruct (abs g !! (l, v)) as [[f k]|] eqn:Ha; [|done].
    apply Hall in Ha as (i & e & Hi & Hk & _). specialize (Hno _ _ Hi). unfold key in Hk.
    simplify_eq. by rewrite !Z.eqb_refl in Hno.
  - destruct (Hin _ _ Hi) as [_ Ha]. apply andb_true_iff in Hf as [<-%Z.eqb_eq <-%Z.eqb_eq].
    unfold key in Ha. by rewrite Ha.
Qed.

Lemma getHighestVerInVB_spec g l maxv :
  tab g -> (forall v x, abs g !! (l, v) = Some x -> 0 <= v) ->
  exists r, getHighestVerInVB l maxv g = Val r /\
    (forall v k, abs g !! (l, v) = Some (true, k) -> v <= maxv -> v <= r) /\
    (r = -1 \/ r <= maxv /\ exists k, abs g !! (l, r) = Some (true, k)).
Proof.
  intros Ht Hnn. destruct (bucket_walk_spec g l Ht) as (lst & Hw & Hin & Hall).
  unfold getHighestVerInVB. rewrite Hw. clear Hw. simpl.
  edestruct (walk_fold (R:=Z) (fun pre ret =>
      (forall i e, (i, e) ∈ pre -> lbid e = l -> vbFlag e = true -> verID e <= maxv -> verID e <= ret) /\
      (ret = -1 \/ ret <= maxv /\ exists k, abs g !! (l, ret) = Some (true, k)))
    (fun _ e ret => if (lbid e =? l) && vbFlag e && ((verID e <=? maxv) && (ret <? verID e))
        then Next (verID e) else Next ret) lst [] (-1)) as (r & Hr & Hle & Hor).
  - split; [by intros ? ? ?%not_elem_of_nil|by left].
  - intros pre i e ret Hi [Hle Hor]. destruct (Hin _ _ Hi) as [_ Ha]. unfold key, val in Ha.
    destruct (Z.eqb_spec (lbid e) l) as [<-|Hne], (vbFlag e) eqn:Hf, (Z.leb_spec (verID e) maxv),
      (Z.ltb_spec ret (verID e)); simpl;
      (eexists; split; [done|]; split;
       [intros j x [Hj|[= -> ->]%list_elem_of_singleton]%elem_of_app ? ? ?;
          [specialize (Hle _ _ Hj); naive_solver lia|try lia; try congruence]
       |try done]).
    right. split; [done|]. eauto.
  - rewrite Hr. exists r. split_and!; try done.
    intros v k (i & e & Hi & Hk & Hv)%Hall Hm. unfold key, val in *. simplify_eq. eapply Hle; eauto.
Qed.

(** [minVer] starts at 0 and only decreases: no block is ever too old. *)
Lemma isTooOld_false g l v :
  tab g -> (forall v x, abs g !! (l, v) = Some x -> 0 <= v) -> 0 <= v -> isTooOld l v g = Val false.
Proof.
  intros Ht Hnn Hv. destruct (bucket_walk_spec g l Ht) as (lst & Hw & Hin & Hall).
  unfold isTooOld. rewrite Hw. clear Hw. simpl.
  edestruct (walk_fold (R:=Z) (fun _ minVer => minVer = 0)
    (fun _ e minVer => if (lbid e =? l) && (verID e <? minVer) then Next (verID e) else Next minVer)
    lst [] 0) as (r & -> & ->); [done| |].
  - intros pre i e ? Hi ->. destruct (Hin _ _ Hi) as [_ Ha]. unfold key in Ha.
    destruct (Z.eqb_spec (lbid e) l) as [<-|]; [|by eauto]. apply Hnn in Ha.
    destruct (Z.ltb_spec (verID e) 0); [lia|]. by eauto.
  - destruct (Z.ltb_spec v 0); [lia|done].
Qed.

(** The version a rollback returns to: the newest committed one. *)
Lemma isEntryLocked_spec g l v :
  tab g -> l <> -1 ->
  exists b, isEntryLocked l v g = Val b /\
    (b = true <-> (exists w f, abs g !! (l, w) = Some (f, true)) /\ 0 <= v /\
       (v = 0 \/ exists f, abs g !! (l, v) = Some (f, false)) /\
       forall w f, abs g !! (l, w) = Some (f, false) -> w <= v).
Proof.
  intros Ht Hl. destruct (bucket_walk_spec g l Ht) as (lst & Hw & Hin & Hall).
  unfold isEntryLocked. destruct (Z.eqb_spec l (-1)); [done|]. rewrite Hw. clear Hw. simpl.
  edestruct (walk_fold (R:=bool * Z) (fun pre (acc : bool * Z) =>
      (acc.1 = true <-> exists i e, (i, e) ∈ pre /\ lbid e = l /\ locked e = true) /\
      (forall i e, (i, e) ∈ pre -> lbid e = l -> locked e = false -> verID e <= acc.2) /\
      0 <= acc.2 /\ (acc.2 = 0 \/ exists f, abs g !! (l, acc.2) = Some (f, false)))
    (fun _ e (acc : bool * Z) =>
          let '(hasALockedEntry, rollbackVersion) := acc in
          if lbid e =? l then
            if locked e then Next (true, rollbackVersion)
            else if rollbackVersion <? verID e then Next (hasALockedEntry, verID e)
            else Next acc
          else Next acc) lst [] (false, 0)) as ([hl rv] & -> & Hh & Hle & H0 & Hor).
  - simpl. split_and!; [split; [done|by intros (? & ? & ?%not_elem_of_nil & _)]
      |by intros ? ? ?%not_elem_of_nil|lia|by left].
  - intros pre i e [hl rv] Hi (Hh & Hle & H0 & Hor). simpl in *.
    destruct (Hin _ _ Hi) as [_ Ha]. unfold key, val in Ha.
    assert (Hcase : forall j x, (j, x) ∈ pre ++ [(i, e)] -> (j, x) ∈ pre \/ (j = i /\ x = e)).
    { intros j x [?|[= -> ->]%list_elem_of_singleton]%elem_of_app; auto. }
    assert (Hsub : forall j x, (j, x) ∈ pre -> (j, x) ∈ pre ++ [(i, e)]) by set_solver.
    assert (Hme : (i, e) ∈ pre ++ [(i, e)]) by set_solver.
    assert (Hkeep : lbid e <> l \/ locked e = false ->
      (hl = true <-> exists j x, (j, x) ∈ pre ++ [(i, e)] /\ lbid x = l /\ locked x = true)).
    { intros Hno. rewrite Hh. split; intros (j & x & Hj & Hr); exists j, x; [eauto|].
      apply Hcase in Hj as [Hj|[-> ->]]; [done|]. destruct Hr, Hno; congruence. }
    assert (Hold : forall r, rv <= r -> (lbid e = l -> locked e = false -> verID e <= r) ->
      forall j x, (j, x) ∈ pre ++ [(i, e)] -> lbid x = l -> locked x = false -> verID x <= r).
    { intros r Hr Hnew j x [Hj|[-> ->]]%Hcase Hjl Hjk; [|auto]. specialize (Hle _ _ Hj Hjl Hjk). lia. }
    destruct (Z.eqb_spec (lbid e) l) as [<-|Hne]; [destruct (locked e) eqn:Hlk;
      [|destruct (Z.ltb_spec rv (verID e))]|]; (eexists; split; [done|]); simpl; split_and!;
      try done; try lia; try (apply Hkeep; by auto); try (apply Hold; [lia|]; intros; (done || lia)).
    + split; [|done]. intros _. exists i, e. done.
    + right. eauto.
  - simpl in *. exists (hl && (v =? rv)). split; [done|].
    rewrite andb_true_iff, Z.eqb_eq, Hh. split.
    + intros [(i & e & Hi & <- & Hlk) ->]. destruct (Hin _ _ Hi) as [_ Ha]. unfold key, val in Ha.
      rewrite Hlk in Ha. split_and!; eauto.
      intros w f (j & x & Hj & Hk & Hv)%Hall. unfold key, val in *. simplify_eq. by apply (Hle j x).
    + intros ((w & f & (i & e & Hi & Hk & Hv)%Hall) & Hv0 & Hor' & Hmax). unfold key, val in Hk, Hv.
      simplify_eq. split; [eauto 6|].
      assert (v <= rv).
      { destruct Hor' as [->|[f' (j & x & Hj & Hk & Hv)%Hall]]; [done|].
        unfold key, val in Hk, Hv. simplify_eq. by apply (Hle j x). }
      assert (rv <= v); [|lia]. destruct Hor as [->|[f' Hf]]; [lia|]. by eapply Hmax.
Qed.

(** *** Search *)
Definition matches (l v : Z) (e : VSSEntry) : bool := (lbid e =? l) && (verID e =? v).

Lemma vss_matches_key l v e : matches l v e = true <-> key e = (l, v).
Proof.
  unfold matches, key. destruct (Z.eqb_spec (lbid e) l), (Z.eqb_spec (verID e) v); naive_solver.
Qed.

Lemma vss_getIndex_spec g l v :
  tab g ->
  let b := bucket_of (hash_key l) (numHashBuckets (hdr g)) in
  match abs g !! (l, v) with
  | None => exists p, getIndex l v g = Val (-1, p, b)
  | Some x => exists i prev e h l1 l2,
      getIndex l v g = Val (i, prev, b) /\ zget (storage g) i = Some e /\ live e = true /\
      key e = (l, v) /\ val e = x /\ zget (hashBuckets g) b = Some h /\
      chain next (storage g) h (l1 ++ (i, e) :: l2) /\ pred_of prev l1
  end.
Proof.
  intros Ht b. destruct (bucket_head g l Ht) as [h Hh]. fold b in Hh.
  unfold getIndex, bucket_walk. fold b. unfold aget. rewrite Hh. simpl.
  destruct (table_find next live (bucket (numHashBuckets (hdr g))) (hashBuckets g) (storage g) b h
              (matches l v) (tb_tab _ Ht) Hh)
    as [[Hno [q Hq]]|(l1 & i & e & l2 & prev & Hc & Hq & Hm & Hi & Hl & Hp)].
  { intros e Hm%vss_matches_key _. unfold key in Hm. unfold bucket, b. by simplify_eq. }
  - destruct (abs g !! (l, v)) as [x|] eqn:Hx.
    + exfalso. apply vss_abs_Some in Hx as (i & e & Hi & Hl & Hk & _); [|apply (tb_uniq _ Ht)].
      apply vss_matches_key in Hk. specialize (Hno _ _ Hi Hl). congruence.
    + unfold matches in Hq. rewrite Hq. eauto.
  - apply vss_matches_key in Hm.
    assert (Hx : abs g !! (l, v) = Some (val e)) by
      (apply vss_abs_Some; [apply (tb_uniq _ Ht)|eauto 10]).
    rewrite Hx. unfold matches in Hq. rewrite Hq. exists i, prev, e, h, l1, l2. naive_solver.
Qed.

(** ** What the updates promise *)
Record op_post (s s' : t) (m : gmap (Z * Z) (bool * bool)) : Prop := {
  op_wf : wf (seg s');
  op_abs : abs (seg s') = m;
  op_undo : undoes (seg s) (undoRecords s) (seg s') (undoRecords s');
  op_cap : capacity (hdr (seg s')) = capacity (hdr (seg s));
  op_nb : numHashBuckets (hdr (seg s')) = numHashBuckets (hdr (seg s));
  op_key : shmkey (seg s') = shmkey (seg s);
  op_alloc : allocdSize s' = allocdSize s }.

Lemma vss_op_post_refl s : wf (seg s) -> op_post s s (abs (seg s)).
Proof. by split. Qed.

Lemma vss_op_post_trans s s1 s2 m1 m2 : op_post s s1 m1 -> op_post s1 s2 m2 -> op_post s s2 m2.
Proof. intros [] []. split; try done; try congruence. by eapply undoes_trans. Qed.

(** *** Changing an entry's flags *)
Lemma update_wf n k g i e e' :
  wf_n n k g -> zget (storage g) i = Some e -> live e = true ->
  key e' = key e -> next e' = next e ->
  let g' := set_storage (zset (storage g) i e') g in
  wf_n n (k - b2z (locked e) + b2z (locked e')) g' /\ abs g' = <[key e := val e']> (abs g).
Proof.
  intros [[Hcap Hnb Hnbp Htab Hl0 Hlow Hu] Hct Hhd] Hi Hl Hk Hn g'.
  assert (Hl' : live e' = true) by (unfold live, used, key in *; congruence).
  split; [|by eapply contents_update].
  split; [split|..]; simpl; try done.
  - by rewrite zlen_zset.
  - eapply table_ok_update; try done; [congruence|]. unfold bucket, key in *. congruence.
  - intros j x Hj [(-> & -> & _)|[_ Hx]]%zget_zset_Some; eauto.
  - eapply uniq_update; try done. congruence.
  - erewrite live_count_zset by done. rewrite Hl, Hl'. lia.
  - erewrite live_count_zset by done. rewrite Hhd. unfold held. by rewrite Hl, Hl'.
Qed.

(** [setVBFlag]: the entry must exist. *)
Lemma setVBFlag_post s l v flag f k :
  wf (seg s) -> abs (seg s) !! (l, v) = Some (f, k) ->
  wp (setVBFlag l v flag) s (fun _ s' => op_post s s' (<[(l, v) := (flag, k)]> (abs (seg s)))).
Proof.
  intros Hwf Ha. unfold setVBFlag. pose proof (vss_getIndex_spec _ l v (wf_tab _ _ _ Hwf)) as Hg.
  simpl in Hg. rewrite Ha in Hg. destruct Hg as (i & prev & e & h & l1 & l2 & Hg & Hi & Hl & Hk & Hv & _).
  wp_step. eapply wp_lift; [exact Hg|]. cbn beta iota. pose proof (zget_Some_range _ _ _ Hi).
  destruct (Z.eqb_spec i (-1)); [lia|]. wp_step.
  eapply vss_wp_makeUndo; [by apply vss_read_entry|]. eapply vss_wp_upd_entry; [exact Hi|].
  destruct (update_wf _ _ _ _ _ (with_vbFlag flag e) Hwf Hi Hl) as [Hw Hab]; [done..|].
  unfold val in *. simpl in *. simplify_eq.
  split; simpl; try done.
  - unfold wf. simpl. by replace (lockedEntryCount _) with (lockedEntryCount (hdr (seg s)) - b2z (locked e) + b2z (locked e)) by lia.
  - by rewrite Hab, Hk.
  - apply undoes_h_exact; [by apply undoes_h_entry|done].
Qed.

Lemma setVBFlag_missing s l v flag :
  wf (seg s) -> abs (seg s) !! (l, v) = None ->
  setVBFlag l v flag s = (Exn (logic_error "VSS::setVBFlag(): that entry doesn't exist"), s).
Proof.
  intros Hwf Ha. pose proof (vss_getIndex_spec _ l v (wf_tab _ _ _ Hwf)) as Hg. simpl in Hg.
  rewrite Ha in Hg. destruct Hg as [p Hg]. unfold setVBFlag, mbind, M_bind, lift. by rewrite Hg.
Qed.

(** *** Removal *)
Abbreviation unlinked_at g := (unlinked next live (bucket (numHashBuckets (hdr g))) key val
  (with_lbid (-1)) with_next (hashBuckets g) (storage g)).

Lemma unlink_spec s b h l1 prev i e l2 :
  tab (seg s) -> zget (hashBuckets (seg s)) b = Some h ->
  chain next (storage (seg s)) h (l1 ++ (i, e) :: l2) -> pred_of prev l1 ->
  wp (unlink b prev i) s (fun _ s' => exists bk' st',
    seg s' = mkSeg (shmkey (seg s)) (hdr (seg s)) bk' st' /\
    unlinked_at (seg s) b l1 prev i e l2 bk' st' /\
    undoes_h (seg s) (undoRecords s) (seg s') (undoRecords s') /\ allocdSize s' = allocdSize s).
Proof.
  intros Ht Hb Hc Hp. unfold unlink.
  assert (Hi : zget (storage (seg s)) i = Some e) by (eapply chain_in; [exact Hc|set_solver]).
  pose proof (zget_Some_range _ _ _ Hi) as Hri.
  pose proof (table_unlink next live (bucket (numHashBuckets (hdr (seg s)))) key val (with_lbid (-1)) with_next
    ltac:(done) ltac:(done) ltac:(done) ltac:(done) ltac:(done) ltac:(done)
    _ _ _ _ _ _ _ _ _ (tb_tab _ Ht) (tb_uniq _ Ht) Hb Hc Hp) as Hul.
  wp_steps. eapply vss_wp_makeUndo; [by apply vss_read_entry|]. wp_steps. eapply vss_wp_upd_entry; [exact Hi|].
  wp_steps. eapply wp_lift; [apply aget_Val; simpl; by apply zget_zset_eq|]. cbn [next with_lbid].
  pose proof (undoes_h_entry (seg s) (undoRecords s) i e (with_lbid (-1) e) Hi) as Hu1.
  unfold unlink_buckets, unlink_storage in Hul.
  destruct (Z.eqb_spec prev (-1)) as [->|Hne].
  - wp_step. eapply vss_wp_makeUndo; [by apply vss_read_bucket|]. eapply vss_wp_upd_bucket; [exact Hb|].
    eexists _, _. split; [done|]. split; [exact Hul|]. split; [|done].
    eapply undoes_h_trans; [exact Hu1|]. by apply undoes_h_bucket.
  - destruct Hp as [[_ ?]|(l0 & ep & ->)]; [done|].
    assert (Hgp : zget (storage (seg s)) prev = Some ep) by (eapply chain_in; [exact Hc|set_solver]).
    rewrite Hgp in Hul. pose proof (chain_NoDup _ _ _ _ Hc) as Hnd.
    rewrite <- app_assoc, fmap_app in Hnd. simpl in Hnd. apply NoDup_app in Hnd as (_ & _ & Hnd).
    apply NoDup_cons in Hnd as [Hni _].
    assert (Hgp' : zget (zset (storage (seg s)) i (with_lbid (-1) e)) prev = Some ep)
      by (rewrite zget_zset_ne; [done|set_solver]).
    wp_step. eapply vss_wp_makeUndo; [by apply vss_read_entry|]. eapply vss_wp_upd_entry; [exact Hgp'|].
    eexists _, _. split; [done|]. split; [exact Hul|]. split; [|done].
    eapply undoes_h_trans; [exact Hu1|]. by eapply (undoes_h_entry (set_storage _ _)).
Qed.

(** The header after a removal. *)
Definition rm_hdr (i : Z) (lk : bool) (h : VSSShmsegHeader) : VSSShmsegHeader :=
  let h1 := with_size (currentSize h - 1) h in
  let h2 := if lk && (0 <? lockedEntryCount h1) then with_lockedCount (lockedEntryCount h1 - 1) h1 else h1 in
  if i <? LWM h2 then with_LWM i h2 else h2.

Lemma uncount_spec s i e (Q : unit -> t -> Prop) :
  zget (storage (seg s)) i = Some e ->
  Q tt (set_seg (set_hdr (rm_hdr i (locked e) (hdr (seg s))) (seg s)) s) -> wp (uncount i) s Q.
Proof.
  intros Hi HQ. unfold uncount. wp_steps. apply vss_wp_upd_hdr. wp_steps.
  eapply wp_lift; [by apply aget_Val|]. wp_steps. do 2 apply vss_wp_upd_hdr. exact HQ.
Qed.

Lemma unlinked_wf g b l1 prev i e l2 bk' st' :
  wf g -> zget (storage g) i = Some e -> live e = true -> unlinked_at g b l1 prev i e l2 bk' st' ->
  let g' := mkSeg (shmkey g) (rm_hdr i (locked e) (hdr g)) bk' st' in
  wf g' /\ abs g' = delete (key e) (abs g) /\
  capacity (hdr g') = capacity (hdr g) /\ numHashBuckets (hdr g') = numHashBuckets (hdr g).
Proof.
  intros [[Hcap Hnb Hnbp Htab Hl0 Hlow Hu] Hct Hhd] Hi Hl [Tt Tu Tc Tn Tb Ts Tl _ _] g'.
  pose proof (zget_Some_range _ _ _ Hi) as Hri.
  pose proof (Tn live ltac:(done) ltac:(done)) as Hn1. pose proof (Tn held ltac:(done) ltac:(done)) as Hn2.
  pose proof (live_count_bounds held st') as Hb. rewrite Hl in Hn1.
  unfold held in Hn2 at 3. rewrite Hl in Hn2. simpl in Hn1, Hn2.
  assert (Hlow' : forall j x, j < LWM (hdr g) -> j < i -> zget st' j = Some x -> live x = true).
  { intros j x Hj Hji Hx. destruct (Tl _ _ Hji Hx) as (y & Hy & ->). eauto. }
  split; [|split; [exact Tc|]].
  - unfold g', rm_hdr in *. destruct (hdr g) as [cap sz lwm nb lc]. simpl in *.
    destruct (locked e), (Z.ltb_spec 0 lc); simpl in *; try lia;
      destruct (Z.ltb_spec i lwm); (split; [split|..]); simpl; try done; try lia;
      intros j x Hj; apply Hlow'; lia.
  - unfold g', rm_hdr. simpl. destruct (_ && _), (_ <? _); done.
Qed.

(** The versions of one block, removed. *)
Definition without (l : Z) (m : gmap (Z * Z) (bool * bool)) : gmap (Z * Z) (bool * bool) :=
  filter (fun p => p.1.1 <> l) m.

Lemma without_lookup l m k : without l m !! k = if decide (k.1 = l) then None else m !! k.
Proof.
  unfold without. destruct (m !! k) as [x|] eqn:Hk; case_decide as Hd.
  - apply map_lookup_filter_None. right. intros x' ? Hx. by apply Hx.
  - by apply map_lookup_filter_Some.
  - apply map_lookup_filter_None. by left.
  - apply map_lookup_filter_None. by left.
Qed.

Lemma without_delete l m k : k.1 = l -> without l (delete k m) = without l m.
Proof.
  intros Hk. apply map_eq. intros k'. rewrite !without_lookup. case_decide as Hd; [done|].
  rewrite lookup_delete_ne; [done|]. congruence.
Qed.

(** An entry leaves its list, the map and the counts. *)
Lemma take_out_spec s b h l1 prev i e l2 :
  wf (seg s) -> zget (hashBuckets (seg s)) b = Some h ->
  chain next (storage (seg s)) h (l1 ++ (i, e) :: l2) -> pred_of prev l1 ->
  wp (unlink b prev i ;; uncount i) s (fun _ s' =>
    wf (seg s') /\ abs (seg s') = delete (key e) (abs (seg s)) /\
    undoes_h (seg s) (undoRecords s) (seg s') (undoRecords s') /\ allocdSize s' = allocdSize s /\
    capacity (hdr (seg s')) = capacity (hdr (seg s)) /\
    numHashBuckets (hdr (seg s')) = numHashBuckets (hdr (seg s)) /\
    zget (storage (seg s')) i = Some (with_lbid (-1) e) /\
    exists h' l1', zget (hashBuckets (seg s')) b = Some h' /\ chain next (storage (seg s')) h' (l1' ++ l2) /\
      pred_of prev l1' /\ (key ∘ snd <$> l1') = (key ∘ snd <$> l1)).
Proof.
  intros Hwf Hb Hc Hp. pose proof (wf_tab _ _ _ Hwf) as Ht.
  assert (Hi : zget (storage (seg s)) i = Some e) by (eapply chain_in; [exact Hc|set_solver]).
  destruct (tk_bucket_live _ _ _ _ _ _ _ _ i e (tb_tab _ Ht) Hb Hc) as (Hle & _ & _); [set_solver|].
  wp_step. eapply wp_mono; [by eapply unlink_spec|]. intros [] s1 (bk' & st' & Hs1 & Hul & Hu & Hal).
  eapply uncount_spec.
  { rewrite Hs1. simpl. apply (ul_self _ _ _ _ _ _ _ _ _ _ _ _ _ _ _ _ _ Hul). }
  destruct (unlinked_wf _ _ _ _ _ _ _ _ _ Hwf Hi Hle Hul) as (Hwf' & Habs' & Hcap' & Hnb').
  destruct (ul_chain _ _ _ _ _ _ _ _ _ _ _ _ _ _ _ _ _ Hul) as (h' & l1' & Hb' & Hc' & Hp' & Hk').
  simpl. rewrite Hs1. cbn [locked with_lbid hdr]. split_and!; try done.
  - rewrite <- Hs1. eapply undoes_h_trans; [exact Hu|]. rewrite Hs1. apply (undoes_h_hdr (mkSeg _ _ _ _)).
  - apply (ul_self _ _ _ _ _ _ _ _ _ _ _ _ _ _ _ _ _ Hul).
  - eauto 10.
Qed.

Lemma purge_spec l l2 : forall s b h l1 prev fuel,
  wf (seg s) -> b = bucket_of (hash_key l) (numHashBuckets (hdr (seg s))) -> l <> -1 ->
  zget (hashBuckets (seg s)) b = Some h -> chain next (storage (seg s)) h (l1 ++ l2) ->
  pred_of prev l1 -> Forall (fun k => k.1 <> l) (key ∘ snd <$> l1) -> (length l2 <= fuel)%nat ->
  wp (purge fuel l b prev (head_of l2)) s (fun _ s' =>
    wf (seg s') /\ abs (seg s') = without l (abs (seg s)) /\
    undoes_h (seg s) (undoRecords s) (seg s') (undoRecords s') /\ allocdSize s' = allocdSize s /\
    capacity (hdr (seg s')) = capacity (hdr (seg s)) /\
    numHashBuckets (hdr (seg s')) = numHashBuckets (hdr (seg s))).
Proof.
  induction l2 as [|[i e] l2 IH]; intros s b h l1 prev fuel Hwf Hbk Hl Hb Hc Hp HF Hf.
  - simpl. destruct fuel; simpl; apply wp_ret; (split_and!; try done; [|apply undoes_h_refl]);
      rewrite app_nil_r in Hc; apply map_eq; intros [l' v]; rewrite without_lookup; simpl;
      (case_decide as Hd; [|done]); subst l'; apply eq_None_not_Some;
      intros [x (j & y & Hj & Hly & Hk & _)%vss_abs_Some]; try apply (tb_uniq _ (wf_tab _ _ _ Hwf)).
    all: assert (Hin : (j, y) ∈ l1) by
      (eapply (tk_bucket _ _ _ _ _ _ _ _ _ _ (tb_tab _ (wf_tab _ _ _ Hwf)) Hb Hc Hj Hly);
       unfold key in Hk; unfold bucket; simplify_eq; done).
    all: rewrite Forall_fmap, Forall_forall in HF; specialize (HF _ Hin);
      injection Hk as Hk _; by apply HF.
  - destruct fuel as [|fuel]; simpl in Hf; [lia|]. simpl.
    assert (Hi : zget (storage (seg s)) i = Some e) by (eapply chain_in; [exact Hc|set_solver]).
    pose proof (zget_Some_range _ _ _ Hi) as Hri. destruct (Z.eqb_spec i (-1)); [lia|].
    destruct (tk_bucket_live _ _ _ _ _ _ _ _ i e (tb_tab _ (wf_tab _ _ _ Hwf)) Hb Hc) as (Hle & _ & _); [set_solver|].
    assert (Hnx : next e = head_of l2).
    { apply chain_app_r, chain_split_head in Hc as [_ Hc]. by eapply chain_head. }
    wp_step. eapply wp_lift; [by apply aget_Val|]. wp_step.
    destruct (Z.eqb_spec (lbid e) l) as [Hel|Hne].
    + apply wp_bind_assoc. wp_step. eapply wp_mono; [by eapply take_out_spec|].
      intros [] s1 (Hw1 & Ha1 & Hu1 & Hal1 & Hc1 & Hn1 & Hi1 & h' & l1' & Hb' & Hc' & Hp' & Hk'). wp_steps.
      eapply wp_lift; [by apply aget_Val|]. cbn [next with_lbid]. rewrite Hnx.
      eapply wp_mono; [eapply (IH s1 b h' l1'); try done|].
      * by rewrite Hn1.
      * by rewrite Hk'.
      * lia.
      * intros [] s3 (Hw3 & Ha3 & Hu3 & Hal3 & Hc3 & Hn3). split_and!; [done| | |congruence..].
        -- rewrite Ha3, Ha1. by apply without_delete.
        -- by eapply undoes_h_trans.
    + wp_steps. eapply wp_lift; [by apply aget_Val|]. rewrite Hnx.
      eapply (IH s b h (l1 ++ [(i, e)])); try done.
      * by rewrite <- app_assoc.
      * right. eauto.
      * rewrite fmap_app. apply Forall_app_2; [done|]. by constructor.
      * lia.
Qed.

(** Some version of the block is in the version buffer or locked. *)
Definition in_use (l : Z) (m : gmap (Z * Z) (bool * bool)) : Prop :=
  map_Exists (fun k x => k.1 = l /\ x.1 || x.2 = true) m.

Global Instance in_use_dec l m : Decision (in_use l m).
Proof. unfold in_use. apply _. Defined.

(** [removeEntry] on the map: the entry goes, and with it the block's remaining
    versions when none of them is needed any more. *)
Definition remove_spec (l v : Z) (m : gmap (Z * Z) (bool * bool)) : list Z * gmap (Z * Z) (bool * bool) :=
  match m !! (l, v) with
  | None => ([], m)
  | Some _ =>
      let m' := delete (l, v) m in
      if decide (in_use l m') then ([], m') else ([l], without l m')
  end.

(** The second loop of [removeEntry]. *)
Lemma inuse_walk g l h :
  tab g -> zget (hashBuckets g) (bucket_of (hash_key l) (numHashBuckets (hdr g))) = Some h ->
  exists lst, chain next (storage g) h lst /\
  walk next (storage g) (length (storage g)) h
     (fun _ e (_ : unit) => if (lbid e =? l) && (vbFlag e || locked e) then Return tt else Next tt) tt
  = Val (if decide (in_use l (abs g)) then Return tt else Next tt).
Proof.
  intros Ht Hh. destruct (tk_chain _ _ _ _ _ (tb_tab _ Ht) _ _ Hh) as (lst & Hc & HF).
  exists lst. split; [done|].
  rewrite (walk_chain _ _ _ lst) by (done || by eapply chain_length). f_equal.
  destruct (walk_search (fun e => (lbid e =? l) && (vbFlag e || locked e)) (fun _ => tt) lst)
    as [[Hno ->]|(i & e & Hi & Hf & ->)]; case_decide as Hd; try done; exfalso.
  - destruct Hd as ([l' v] & [f k] & Hx & Hl & Hfk). simpl in *. subst l'.
    apply vss_abs_Some in Hx as (i & e & Hi & Hle & Hk & Hv); [|apply (tb_uniq _ Ht)].
    injection Hk as Hk _. injection Hv as <- <-.
    assert (Hin : (i, e) ∈ lst) by
      (eapply (tk_bucket _ _ _ _ _ _ _ _ _ _ (tb_tab _ Ht) Hh Hc Hi Hle); unfold bucket; by rewrite Hk).
    specialize (Hno _ _ Hin). rewrite Hk, Z.eqb_refl, Hfk in Hno. done.
  - destruct (tk_bucket_live _ _ _ _ _ _ _ _ _ _ (tb_tab _ Ht) Hh Hc Hi) as (Hle & _ & Hg).
    apply andb_true_iff in Hf as [Hl%Z.eqb_eq Hf]. apply Hd.
    exists (key e), (val e). split; [|by split]. apply vss_abs_Some; [apply (tb_uniq _ Ht)|eauto 10].
Qed.

Lemma vss_removeEntry_post s l v :
  wf (seg s) -> l <> -1 ->
  wp (removeEntry l v) s (fun fl s' =>
    fl = (remove_spec l v (abs (seg s))).1 /\ op_post s s' (remove_spec l v (abs (seg s))).2).
Proof.
  intros Hwf Hl1. pose proof (wf_tab _ _ _ Hwf) as Ht. unfold removeEntry, remove_spec.
  pose proof (vss_getIndex_spec _ l v Ht) as Hg. simpl in Hg. wp_step.
  destruct (abs (seg s) !! (l, v)) as [x|] eqn:Hx; cycle 1.
  { destruct Hg as [p Hg]. eapply wp_lift; [exact Hg|]. apply wp_ret.
    split; [done|]. by apply vss_op_post_refl. }
  destruct Hg as (i & prev & e & h & l1 & l2 & Hg & Hi & Hl & Hk & Hv & Hb & Hc & Hp).
  eapply wp_lift; [exact Hg|]. cbn beta iota. pose proof (zget_Some_range _ _ _ Hi) as Hri.
  destruct (Z.eqb_spec i (-1)); [lia|].
  wp_step. eapply wp_mono; [by eapply unlink_spec|].
  intros [] s1 (bk' & st' & Hs1 & Hul & Hu1 & Hal1).
  apply undoes_h_exact in Hu1; [|by rewrite Hs1].
  wp_step. eapply vss_wp_makeUndo; [by apply vss_read_header|].
  wp_step. eapply uncount_spec.
  { simpl. rewrite Hs1. simpl. apply (ul_self _ _ _ _ _ _ _ _ _ _ _ _ _ _ _ _ _ Hul). }
  destruct (unlinked_wf _ _ _ _ _ _ _ _ _ Hwf Hi Hl Hul) as (Hwf' & Habs' & Hcap' & Hnb').
  destruct (ul_chain _ _ _ _ _ _ _ _ _ _ _ _ _ _ _ _ _ Hul) as (h' & l1' & Hb' & Hc' & Hp' & Hk').
  set (s2 := set_seg _ _).
  assert (Hs2 : seg s2 = mkSeg (shmkey (seg s)) (rm_hdr i (locked e) (hdr (seg s))) bk' st').
  { unfold s2. simpl. by rewrite Hs1. }
  assert (Hu2 : undoes_h (seg s1) (undoRecords s1 ++ [{| start := LHeader (shmkey (seg s1)); data := DHeader (hdr (seg s1)) |}])
                  (seg s2) (undoRecords s2)) by (apply (undoes_h_hdr (seg s1))).
  assert (Hal2 : allocdSize s2 = allocdSize s) by (by simpl).
  clearbody s2. rewrite Hk in Habs'.
  wp_step. eapply wp_lift; [apply aget_Val; by rewrite Hs2|].
  rewrite <- Hs2 in Hwf', Habs', Hcap', Hnb'.
  assert (Hb2 : zget (hashBuckets (seg s2)) (bucket_of (hash_key l) (numHashBuckets (hdr (seg s)))) = Some h')
    by (by rewrite Hs2).
  destruct (inuse_walk (seg s2) l h' (wf_tab _ _ _ Hwf')) as (lst & Hcl & Hwk); [by rewrite Hnb'|].
  wp_step. eapply wp_lift; [exact Hwk|]. rewrite <- Habs'. case_decide as Hd.
  - apply wp_ret. split; [done|]. split; try done.
    + eapply undoes_trans; [exact Hu1|]. by apply undoes_h_header.
    + by rewrite Hs2.
  - wp_steps. rewrite (chain_head _ _ _ _ Hcl).
    eapply wp_mono; [eapply (purge_spec l lst s2 _ h' []); try done|].
    + by rewrite Hnb'.
    + by left.
    + by eapply chain_length.
    + intros [] s3 (Hw3 & Ha3 & Hu3 & Hal3 & Hc3 & Hn3). wp_steps. split; [done|]. split; try done; try congruence.
      * eapply undoes_trans; [exact Hu1|]. apply undoes_h_header. by eapply undoes_h_trans.
      * destruct Hu3 as [-> _]. by rewrite Hs2.
Qed.

(** The recorded size is the size of the map. *)
Lemma size_abs g : wf g -> Z.of_nat (base.size (abs g)) = currentSize (hdr g).
Proof.
  intros Hwf. rewrite <- (wf_count _ _ _ Hwf). apply size_contents, (tb_uniq _ (wf_tab _ _ _ Hwf)).
Qed.

Lemma remove_spec_size l v m : (base.size (remove_spec l v m).2 <= base.size m)%nat.
Proof.
  apply map_subseteq_size. apply map_subseteq_spec. intros k x. unfold remove_spec.
  destruct (m !! (l, v)); [|done]. case_decide; simpl.
  - rewrite lookup_delete. by case_decide.
  - rewrite without_lookup, lookup_delete. by repeat case_decide.
Qed.

(** *** Insertion and growth *)
Lemma vss_insert_slot_wf n k g :
  wf_n n k g -> n < capacity (hdr g) ->
  exists i e0, zget (storage g) i = Some e0 /\ live e0 = false /\ LWM (hdr g) <= i /\
    (forall j x, j < i -> zget (storage g) j = Some x -> live x = true) /\
    find_empty used (storage g) (length (storage g)) (LWM (hdr g)) = Val i.
Proof.
  intros [Ht Hct _] Hn. apply (insert_slot live); [apply (tb_lwm0 _ Ht)|apply (tb_lwm _ Ht)|].
  apply (free_slot live); [apply (tb_lwm0 _ Ht)|apply (tb_lwm _ Ht)|].
  by rewrite Hct, (tb_cap _ Ht).
Qed.

Lemma vss_raw_insert_spec n k g e loading recs :
  wf_n n k g -> n < capacity (hdr g) -> lbid e <> -1 -> abs g !! key e = None ->
  exists g' recs', _insert e g loading recs = Val (g', recs') /\
    wf_n (n + 1) (k + b2z (locked e)) g' /\ abs g' = <[key e := val e]> (abs g) /\
    hdr g' = with_LWM (LWM (hdr g')) (hdr g) /\ shmkey g' = shmkey g /\
    (if loading then recs' = recs
     else undoes_h g (recs ++ [{| start := LHeader (shmkey g); data := DHeader (hdr g) |}]) g' recs').
Proof.
  intros Hwf Hn He Hnone.
  destruct (vss_insert_slot_wf _ _ _ Hwf Hn) as (i & e0 & Hi & Hd & Hle & Hall & Hfind).
  destruct (bucket_head g (lbid e) (wf_tab _ _ _ Hwf)) as [h Hh].
  pose proof (zget_Some_range _ _ _ Hi) as Hri. pose proof (zget_Some_range _ _ _ Hh) as Hrh.
  assert (Hlive' : live (with_next h e) = true) by (by apply vss_live_lbid).
  set (b := bucket_of (hash_key (lbid e)) (numHashBuckets (hdr g))) in *.
  set (g1 := set_hdr (with_LWM (i + 1) (hdr g)) g).
  exists (set_buckets (zset (hashBuckets g) b i) (set_storage (zset (storage g) i (with_next h e)) g1)),
    (if loading then recs else recs ++ [{| start := LHeader (shmkey g); data := DHeader (hdr g) |}]
       ++ [{| start := LEntry (shmkey g) i; data := DEntry e0 |}] ++ [{| start := LBucket (shmkey g) b; data := DInt h |}]).
  split.
  { unfold _insert. fold b. rewrite Hfind. simpl. unfold aget. rewrite Hh.
    destruct loading; [done|]. erewrite vss_mkrec by apply vss_read_header. simpl.
    erewrite vss_mkrec by (by apply (vss_read_entry g1)). simpl.
    erewrite vss_mkrec by (by apply (vss_read_bucket g1)). by rewrite <- !app_assoc. }
  split_and!; try done.
  - destruct Hwf as [[Hcap Hnb Hnbp Htab Hl0 Hl Hu] Hct Hhd]. split; [split|..]; simpl; try done.
    + by rewrite zlen_zset.
    + by rewrite zlen_zset.
    + by eapply table_ok_insert.
    + lia.
    + intros j x Hj [(-> & -> & _)|[Hne Hx]]%zget_zset_Some; [done|]. apply (Hall j); [lia|done].
    + eapply uniq_insert; done.
    + erewrite live_count_zset by done. rewrite Hct, Hd, Hlive'. simpl. lia.
    + erewrite live_count_zset by done. rewrite Hhd. unfold held. rewrite Hd, Hlive'. simpl. lia.
  - unfold abs. simpl. erewrite contents_insert; try done. apply (tb_uniq _ (wf_tab _ _ _ Hwf)).
  - destruct loading; [done|]. rewrite (assoc_L (++)), (assoc_L (++)).
    eapply undoes_h_trans; [eapply undoes_h_trans; [apply (undoes_h_hdr g _ (with_LWM (i + 1) (hdr g)))|
      by apply (undoes_h_entry g1)]|].
    by apply (undoes_h_bucket (set_storage (zset (storage g) i (with_next h e)) g1)).
Qed.

(** Linking and counting an entry in a segment with room. *)
Lemma vss_insert_entry_spec s e loading :
  wf (seg s) -> currentSize (hdr (seg s)) < capacity (hdr (seg s)) -> lbid e <> -1 ->
  abs (seg s) !! key e = None ->
  wp (insert_entry e loading) s (fun _ s' =>
    wf (seg s') /\ abs (seg s') = <[key e := val e]> (abs (seg s)) /\
    currentSize (hdr (seg s')) = currentSize (hdr (seg s)) + 1 /\
    allocdSize s' = allocdSize s /\
    numHashBuckets (hdr (seg s')) = numHashBuckets (hdr (seg s)) /\
    (if loading then undoRecords s' = undoRecords s
       /\ capacity (hdr (seg s')) = capacity (hdr (seg s))
     else op_post s s' (<[key e := val e]> (abs (seg s))))).
Proof.
  intros Hwf Hroom Hl Hn. unfold insert_entry.
  destruct (vss_raw_insert_spec _ _ (seg s) e loading (undoRecords s) Hwf)
    as (g & r & Hi & Hw & Ha & Hh & Hk & Hu); try done.
  wp_steps. eapply wp_lift; [exact Hi|]. cbn beta iota. wp_steps.
  set (h' := with_lockedCount (lockedEntryCount (hdr g) + b2z (locked e)) (with_size (currentSize (hdr g) + 1) (hdr g))).
  assert (Hw' : wf (set_hdr h' g)).
  { unfold wf. simpl. rewrite Hh. simpl. destruct Hw as [[]]. by do 2 (split; try done). }
  assert (Hlast : forall s2, seg s2 = set_hdr (with_size (currentSize (hdr g) + 1) (hdr g)) g ->
    allocdSize s2 = allocdSize s ->
    wp (if locked e then upd_hdr (fun h => with_lockedCount (lockedEntryCount h + 1) h) else mret tt) s2
      (fun _ s' => seg s' = set_hdr h' g /\ undoRecords s' = undoRecords s2 /\ allocdSize s' = allocdSize s)).
  { intros s2 Hs2 Haz. unfold h'. destruct (locked e); simpl.
    - apply vss_wp_upd_hdr. simpl. by rewrite Hs2.
    - apply wp_ret. rewrite Hs2, Z.add_0_r. split; [|done]. by destruct (hdr g). }
  destruct loading.
  - wp_steps. apply vss_wp_upd_hdr. eapply wp_mono; [apply Hlast; reflexivity|]. simpl.
    intros [] s' (-> & -> & ->). simpl. rewrite Hh. simpl. split_and!; done.
  - eapply vss_wp_makeUndo; [by apply vss_read_size|]. wp_steps. apply vss_wp_upd_hdr.
    eapply wp_mono; [apply Hlast; reflexivity|]. simpl. intros [] s' (Hs' & Hr' & Haz').
    assert (Hun : undoes (seg s) (undoRecords s) (seg s') (undoRecords s')).
    { destruct Hu as (_ & new & -> & Hnew).
      exists ([{| start := LHeader (shmkey (seg s)); data := DHeader (hdr (seg s)) |}] ++ new
               ++ [{| start := LSize (shmkey g); data := DInt (currentSize (hdr g)) |}]).
      rewrite Hs', Hr'. simpl. split; [by rewrite <- !app_assoc|].
      rewrite rev_app_distr. simpl. unfold write_loc at 1. simpl. rewrite Z.eqb_refl.
      erewrite restore_app by apply Hnew. simpl. unfold write_loc. simpl. rewrite Z.eqb_refl.
      by destruct (seg s). }
    rewrite Hs'. simpl. rewrite Hh. simpl. split_and!; try done.
    split; rewrite ?Hs'; simpl; try done; try (by rewrite Hh). by rewrite <- Hs'.
Qed.

(** The re-hash loop of [copyVSS]. *)
Lemma vss_copy_entries_spec src n : forall (i : nat) dest,
  uniq live key src -> (i + n <= length src)%nat ->
  wf_n (live_count live (take i src)) (live_count held (take i src)) dest ->
  abs dest = contents live key val (take i src) -> zlen src <= capacity (hdr dest) ->
  exists dest', copy_entries src n (Z.of_nat i) dest = Val dest' /\
    wf_n (live_count live (take (i + n) src)) (live_count held (take (i + n) src)) dest' /\
    abs dest' = contents live key val (take (i + n) src) /\
    hdr dest' = with_LWM (LWM (hdr dest')) (hdr dest) /\ shmkey dest' = shmkey dest.
Proof.
  induction n as [|n IH]; intros i dest Hu Hlen Hwf Habs Hcap.
  { exists dest. rewrite Nat.add_0_r. split_and!; try done. by destruct (hdr dest). }
  destruct (zget_is_Some src (Z.of_nat i)) as [e He]; [unfold zlen; lia|].
  simpl. unfold aget. rewrite He. simpl.
  pose proof (live_count_take_snoc live _ _ _ He) as Hcnt.
  pose proof (live_count_take_snoc held _ _ _ He) as Hcnth.
  pose proof (contents_take_snoc live key val _ _ _ Hu He) as Hcon.
  replace (Z.of_nat i + 1) with (Z.of_nat (S i)) by lia.
  replace (i + S n)%nat with (S i + n)%nat by lia.
  unfold held in Hcnth at 3. destruct (Z.eqb_spec (lbid e) (-1)) as [Hd|Hl].
  - apply vss_not_live_lbid in Hd. rewrite Hd in Hcnt, Hcnth, Hcon. simpl in Hcnt, Hcnth.
    simpl. apply IH; try done; [lia| |congruence]. by rewrite Hcnt, Hcnth, !Z.add_0_r.
  - pose proof Hl as Hl'. apply vss_live_lbid in Hl'. rewrite Hl' in Hcnt, Hcnth, Hcon. simpl in Hcnt, Hcnth.
    destruct (vss_raw_insert_spec _ _ dest e true [] Hwf) as (d & r & Hins & Hwf' & Habs' & Hh & Hk & _).
    + pose proof (live_count_bounds live (take i src)) as Hb. unfold zlen in *.
      rewrite length_take in Hb. lia.
    + done.
    + rewrite Habs. by eapply contents_take_fresh.
    + rewrite Hins. simpl.
      destruct (IH (S i) d) as (d' & Hc' & Hw' & Ha' & Hh' & Hk'); try done; [lia|..].
      * by rewrite Hcnt, Hcnth.
      * rewrite Habs', Habs. done.
      * rewrite Hh. done.
      * exists d'. split_and!; try done; [|congruence]. rewrite Hh', Hh. done.
Qed.

Lemma vss_wf_blank key cap sz nb lc :
  0 <= cap -> 0 < nb < 2 ^ 31 ->
  let g := mkSeg key (mkHdr cap sz 0 nb lc) (replicate (Z.to_nat nb) (-1)) (replicate (Z.to_nat cap) blank) in
  wf_n 0 0 g /\ abs g = ∅.
Proof.
  intros Hc Hnb g.
  assert (Hdead : forall i e, zget (storage g) i = Some e -> live e = false).
  { intros i e ->%zget_replicate_Some. done. }
  assert (Hu : uniq live VSSThms.key (storage g)).
  { intros i j ei ej Hi Hj Hli. rewrite (Hdead _ _ Hi) in Hli. done. }
  assert (Hz : forall P, (forall e, P e = true -> live e = true) -> live_count P (storage g) = 0).
  { intros P HP. rewrite <- (live_count_take_dense P _ 0); [done|].
    intros i e Hi Hli%HP. rewrite (Hdead _ _ Hi) in Hli. done. }
  split.
  - split; [split|..]; simpl; try done; try (rewrite zlen_replicate; lia).
    + by apply table_ok_empty.
    + intros i e Hi Hg%zget_Some_range. lia.
    + by apply Hz.
    + apply Hz. intros e [? _]%andb_true_iff. done.
  - apply map_eq. intros k. rewrite lookup_empty. apply eq_None_not_Some. intros [v Hv].
    apply vss_abs_Some in Hv as (i & e & Hi & Hli & _); [|done]. rewrite (Hdead _ _ Hi) in Hli. done.
Qed.

Lemma copyVSS_spec g key cap nb :
  wf g -> currentSize (hdr g) = capacity (hdr g) -> capacity (hdr g) <= cap -> 0 < nb < 2 ^ 31 ->
  exists g', copyVSS g key cap nb = Val g' /\ wf g' /\ abs g' = abs g /\ shmkey g' = key /\
    hdr g' = mkHdr cap (currentSize (hdr g)) (LWM (hdr g')) nb (lockedEntryCount (hdr g)).
Proof.
  intros [Ht Hct Hhd] Hfull Hcap Hnb. pose proof (tb_cap _ Ht) as Hc0.
  pose proof (live_count_bounds live (storage g)) as Hbd.
  destruct (vss_wf_blank key cap (currentSize (hdr g)) nb (lockedEntryCount (hdr g))) as [Hw0 Ha0]; [lia|done|].
  edestruct (vss_copy_entries_spec (storage g) (Z.to_nat (currentSize (hdr g))) 0)
    as (g' & Hcp & Hw' & Ha' & Hh' & Hk'); [apply (tb_uniq _ Ht)|unfold zlen in *; lia|exact Hw0|exact Ha0|simpl; lia|].
  exists g'. split; [exact Hcp|]. simpl in Hw', Ha', Hh', Hk'.
  assert (Hall : (length (storage g) <= Z.to_nat (currentSize (hdr g)))%nat) by (unfold zlen in *; lia).
  rewrite take_ge in Hw', Ha' by done. split_and!; try done.
  unfold wf. rewrite Hh'. simpl. by rewrite Hct, Hhd in Hw'.
Qed.

(** The segment can be enlarged [k] times. *)
Definition can_grow (k : Z) (s : t) : Prop :=
  numHashBuckets (hdr (seg s)) + 5000 * k < 2 ^ 31 /\ allocdSize s + VSS_INCREMENT * k < 2 ^ 31.

Lemma vss_can_grow_step s s' :
  numHashBuckets (hdr (seg s')) <= numHashBuckets (hdr (seg s)) + 5000 -> allocdSize s' <= allocdSize s + VSS_INCREMENT ->
  forall k, can_grow (k + 1) s -> can_grow k s'.
Proof. intros Hn Ha k [H1 H2]. split; lia. Qed.

Lemma vss_can_grow_le j k s : j <= k -> can_grow k s -> can_grow j s.
Proof. intros Hle [H1 H2]. assert (0 <= VSS_INCREMENT) by done. split; nia. Qed.

(** [growVSS] of a full segment keeps the map, and keeps the undo log although
    its addresses point into the old segment. *)
Lemma growVSS_spec s :
  wf (seg s) -> currentSize (hdr (seg s)) = capacity (hdr (seg s)) ->
  0 < allocdSize s -> allocdSize s + VSS_INCREMENT <> VSS_INITIAL_SIZE ->
  can_grow 1 s ->
  wp growVSS s (fun _ s' => wf (seg s') /\ abs (seg s') = abs (seg s) /\
    undoRecords s' = undoRecords s /\ shmkey (seg s') = chooseShmkey (shmkey (seg s)) /\
    currentSize (hdr (seg s')) = currentSize (hdr (seg s)) /\
    capacity (hdr (seg s')) = capacity (hdr (seg s)) + 20000 /\
    numHashBuckets (hdr (seg s')) = numHashBuckets (hdr (seg s)) + 5000 /\
    allocdSize s' = allocdSize s + VSS_INCREMENT).
Proof.
  intros Hwf Hfull Haz Hne [Hnb Hsz]. unfold growVSS. wp_steps.
  destruct (Z.eqb_spec (allocdSize s) 0); [lia|].
  destruct (Z.leb_spec (2 ^ 31) (allocdSize s + VSS_INCREMENT)); [lia|]. wp_steps.
  pose proof (tb_nbpos _ (wf_tab _ _ _ Hwf)) as Hp.
  change (VSSSTORAGE_INCREMENT / sizeof_VSSEntry) with 20000.
  change (VSSTABLE_INCREMENT / sizeof_int) with 5000.
  destruct (copyVSS_spec (seg s) (chooseShmkey (shmkey (seg s))) (capacity (hdr (seg s)) + 20000)
    (numHashBuckets (hdr (seg s)) + 5000)) as (g' & Hcp & Hw & Ha & Hk & Hh); try done; try lia.
  eapply wp_lift; [exact Hcp|]. wp_step.
  destruct (Z.eqb_spec (allocdSize s + VSS_INCREMENT) VSS_INITIAL_SIZE); [done|]. simpl.
  rewrite Hh. simpl. done.
Qed.

Lemma vss_insert_room s l v flag lck :
  wf (seg s) -> currentSize (hdr (seg s)) < capacity (hdr (seg s)) -> l <> -1 ->
  abs (seg s) !! (l, v) = None ->
  wp (insert l v flag lck false) s (fun _ s' => op_post s s' (<[(l, v) := (flag, lck)]> (abs (seg s)))
    /\ currentSize (hdr (seg s')) = currentSize (hdr (seg s)) + 1).
Proof.
  intros Hwf Hroom Hl Hn. unfold insert. wp_steps.
  destruct (Z.eqb_spec (currentSize (hdr (seg s))) (capacity (hdr (seg s)))); [lia|].
  wp_steps. eapply wp_mono; [by apply vss_insert_entry_spec|]. naive_solver.
Qed.

(** Insertion in general: a full segment is grown first. *)
Lemma vss_insert_spec s l v flag lck loading :
  wf (seg s) -> VSS_INITIAL_SIZE <= allocdSize s -> can_grow 1 s -> l <> -1 ->
  abs (seg s) !! (l, v) = None ->
  wp (insert l v flag lck loading) s (fun _ s' =>
    wf (seg s') /\ abs (seg s') = <[(l, v) := (flag, lck)]> (abs (seg s)) /\
    VSS_INITIAL_SIZE <= allocdSize s' /\ (forall k, can_grow (k + 1) s -> can_grow k s')).
Proof.
  intros Hwf Haz Hnb Hl Hn.
  pose proof (live_count_bounds live (storage (seg s))) as Hb.
  rewrite (wf_count _ _ _ Hwf), (tb_cap _ (wf_tab _ _ _ Hwf)) in Hb.
  assert (Hi0 : VSS_INITIAL_SIZE = 5000020) by done. assert (Hi1 : VSS_INCREMENT = 500000) by done.
  unfold insert. wp_steps.
  destruct (Z.eqb_spec (currentSize (hdr (seg s))) (capacity (hdr (seg s)))) as [Hfull|].
  - eapply wp_mono; [apply growVSS_spec; try done; lia|]. cbn beta.
    intros [] s1 (Hw1 & Ha1 & _ & _ & Hs1 & Hc1 & Hnb1 & Haz1).
    eapply wp_mono; [apply vss_insert_entry_spec; try done|].
    + lia.
    + by rewrite Ha1.
    + intros [] s2 (? & Ha2 & _ & ? & ? & _). rewrite Ha2, Ha1.
      split_and!; [done..|lia|apply vss_can_grow_step; lia].
  - wp_steps. eapply wp_mono; [apply vss_insert_entry_spec; try done; lia|].
    intros [] s2 (? & Ha2 & _ & ? & ? & _). split_and!; [done..|lia|apply vss_can_grow_step; lia].
Qed.

(** *** Commit *)
Definition unlock (txn : Z) (k : Z * Z) (x : bool * bool) : bool * bool :=
  if k.2 =? txn then (x.1, false) else x.

(** [commit] on the map. *)
Definition commit_spec (txn : Z) (m : gmap (Z * Z) (bool * bool)) : gmap (Z * Z) (bool * bool) :=
  map_imap (fun k x => Some (unlock txn k x)) m.

(** Entry [i] after [commit]. *)
Definition committed (txn : Z) (e : VSSEntry) : VSSEntry :=
  if live e && (verID e =? txn) then with_locked false e else e.

Lemma held_pos g i e :
  wf g -> zget (storage g) i = Some e -> live e = true -> locked e = true -> 0 < lockedEntryCount (hdr g).
Proof.
  intros Hwf Hi Hl Hk. rewrite <- (wf_held _ _ _ Hwf).
  pose proof (live_count_zset held _ _ _ (with_locked false e) Hi) as Hc.
  pose proof (live_count_bounds held (zset (storage g) i (with_locked false e))) as Hb.
  assert (H1 : held e = true) by (unfold held; by rewrite Hl, Hk).
  assert (H2 : held (with_locked false e) = false) by (unfold held; by rewrite andb_false_r).
  rewrite H1, H2 in Hc. simpl in Hc. lia.
Qed.

(** Nothing but the segment's entries, the lock counter and the log changes. *)
Definition commit_frame (s s' : t) : Prop :=
  undoes_h (seg s) (undoRecords s) (seg s') (undoRecords s') /\ allocdSize s' = allocdSize s /\
  hdr (seg s') = with_lockedCount (lockedEntryCount (hdr (seg s'))) (hdr (seg s)).

Lemma commit_frame_refl s : commit_frame s s.
Proof. split; [apply undoes_h_refl|]. split; [done|]. by destruct (hdr (seg s)). Qed.

Lemma commit_slot_spec s txn i e :
  wf (seg s) -> zget (storage (seg s)) i = Some e ->
  (live e = true -> verID e = txn -> locked e = true) ->
  wp (commit_slot txn i) s (fun _ s' =>
    wf (seg s') /\ storage (seg s') = zset (storage (seg s)) i (committed txn e) /\ commit_frame s s').
Proof.
  intros Hwf Hi Hlk. unfold commit_slot. wp_step. eapply wp_lift; [by apply aget_Val|].
  unfold committed, live, used in *. destruct (Z.eqb_spec (lbid e) (-1)) as [Hd|Hl]; cycle 1.
  - destruct (Z.eqb_spec (verID e) txn) as [Hv|]; cycle 1.
    + apply wp_ret. rewrite zset_id by done. split_and!; try done. apply commit_frame_refl.
    + specialize (Hlk ltac:(done) Hv). apply vss_live_lbid in Hl.
      destruct (update_wf _ _ _ _ _ (with_locked false e) Hwf Hi Hl) as [Hw _]; [done..|].
      pose proof (held_pos _ _ _ Hwf Hi Hl Hlk) as Hpos.
      cbn [negb andb]. wp_steps. eapply vss_wp_makeUndo; [by apply vss_read_entry|]. wp_steps.
      eapply vss_wp_upd_entry; [exact Hi|]. wp_steps. apply vss_wp_upd_hdr. simpl. destruct (Z.ltb_spec 0 (lockedEntryCount (hdr (seg s)))); [|lia].
      split; [|split; [done|split; [|done]]].
      * unfold wf. simpl. rewrite Hlk in Hw. simpl in Hw. rewrite Z.add_0_r in Hw.
        destruct Hw as [[]]. by do 2 (split; try done).
      * eapply undoes_h_trans; [by apply undoes_h_entry|]. apply (undoes_h_hdr (set_storage _ _)).
  - apply wp_ret. rewrite zset_id by done. split_and!; try done. apply commit_frame_refl.
Qed.

Lemma commit_frame_trans s1 s2 s3 : commit_frame s1 s2 -> commit_frame s2 s3 -> commit_frame s1 s3.
Proof.
  intros (Hu1 & Ha1 & Hh1) (Hu2 & Ha2 & Hh2). split; [by eapply undoes_h_trans|].
  split; [congruence|]. by rewrite Hh2, Hh1.
Qed.

Lemma commit_post s txn :
  wf (seg s) -> (forall l x, abs (seg s) !! (l, txn) = Some x -> x.2 = true) ->
  wp (commit txn) s (fun _ s' =>
    wf (seg s') /\ abs (seg s') = commit_spec txn (abs (seg s)) /\ commit_frame s s').
Proof.
  intros Hwf Hlk. unfold commit. wp_steps.
  pose proof (tb_uniq _ (wf_tab _ _ _ Hwf)) as Hu. pose proof (tb_cap _ (wf_tab _ _ _ Hwf)) as Hcap.
  eapply wp_mono; [apply (wp_for_up (fun i s' => wf (seg s') /\ commit_frame s s' /\
    zlen (storage (seg s')) = zlen (storage (seg s)) /\
    forall j, zget (storage (seg s')) j
              = (if j <? i then committed txn <$> zget (storage (seg s)) j else zget (storage (seg s)) j)))|].
  - split_and!; try done; [apply commit_frame_refl|]. intros j.
    destruct (Z.ltb_spec j 0); [|done]. rewrite zget_None; [done|lia].
  - intros i s1 Hi (Hw1 & Hf1 & Hz1 & Hg1).
    destruct (zget_is_Some (storage (seg s)) i) as [e He]; [unfold zlen in *; lia|].
    pose proof (Hg1 i) as Hgi. rewrite Z.ltb_irrefl, He in Hgi.
    eapply wp_mono; [apply (commit_slot_spec _ _ _ e); try done|].
    + intros Hl Hv. apply (Hlk (lbid e) (val e)). apply vss_abs_Some; [done|].
      exists i, e. split_and!; try done. unfold key. by rewrite Hv.
    + intros [] s2 (Hw2 & Hs2 & Hf2). split_and!; try done; [by eapply commit_frame_trans|by rewrite Hs2, zlen_zset|].
      intros j. rewrite Hs2. destruct (decide (j = i)) as [->|Hne].
      * rewrite zget_zset_eq by (rewrite Hz1; by eapply zget_Some_range).
        destruct (Z.ltb_spec i (i + 1)); [|lia]. by rewrite He.
      * rewrite zget_zset_ne by done. rewrite Hg1.
        destruct (Z.ltb_spec j i), (Z.ltb_spec j (i + 1)); (done || lia).
  - intros [] s' (Hw & Hf & Hz & Hg). cbn beta. split_and!; try done.
    assert (Hg' : forall j, zget (storage (seg s')) j = committed txn <$> zget (storage (seg s)) j).
    { intros j. rewrite Hg. destruct (Z.ltb_spec j (0 + Z.of_nat (Z.to_nat (capacity (hdr (seg s)))))); [done|].
      rewrite zget_None; [done|lia]. }
    assert (Hc : forall e, live (committed txn e) = live e /\ key (committed txn e) = key e /\
      (live e = true -> val (committed txn e) = unlock txn (key e) (val e))).
    { intros e. unfold committed, unlock, key. destruct (live e) eqn:Hl, (verID e =? txn) eqn:Hv;
        simpl; rewrite ?Hv; try done. }
    apply map_eq. intros k. apply option_eq. intros x. unfold commit_spec. rewrite map_lookup_imap.
    rewrite vss_abs_Some by apply (tb_uniq _ (wf_tab _ _ _ Hw)). split.
    + intros (j & e' & Hj & Hl & <- & <-). rewrite Hg' in Hj.
      apply fmap_Some in Hj as (e & He & ->). destruct (Hc e) as (Hc1 & Hc2 & Hc3). rewrite Hc1 in Hl.
      rewrite Hc2, Hc3 by done. assert (Ha : abs (seg s) !! key e = Some (val e)) by
        (apply vss_abs_Some; [done|eauto 10]). by rewrite Ha.
    + destruct (abs (seg s) !! k) as [y|] eqn:Hy; [|done]. intros [= <-].
      apply vss_abs_Some in Hy as (j & e & Hj & Hl & <- & <-); [|done].
      destruct (Hc e) as (Hc1 & Hc2 & Hc3). exists j, (committed txn e). rewrite Hg', Hj, Hc1, Hc2, Hc3; done.
Qed.
End VSSThms.
