(* ===== verification/VssClaims.v ===== *)
(** * Properties of the VSS

    The statements about vss.cpp this library is kept for, each with a concrete
    instance. *)

From S2P Require Import Prelude Chain Hasher Undoable Vss VssThms.
From stdpp Require Import prelude gmap strings.
Local Open Scope Z_scope.

Module VSSClaims.
Import VSS VSSThms.

(** ** Sequences of updates *)
Inductive op :=
| OpInsert (l v : Z) (flag lck : bool)
| OpRemove (l v : Z)
| OpSetVBFlag (l v : Z) (flag : bool)
| OpCommit (txn : Z).

Definition exec (o : op) : M t unit :=
  match o with
  | OpInsert l v flag lck => insert l v flag lck false
  | OpRemove l v => removeEntry l v ;; mret tt
  | OpSetVBFlag l v flag => setVBFlag l v flag
  | OpCommit txn => commit txn
  end.

(** The abstract machine: versions of blocks with their two flags. *)
Definition spec_op (m : gmap (Z * Z) (bool * bool)) (o : op) : gmap (Z * Z) (bool * bool) :=
  match o with
  | OpInsert l v flag lck => <[(l, v) := (flag, lck)]> m
  | OpRemove l v => (remove_spec l v m).2
  | OpSetVBFlag l v flag => alter (fun x => (flag, x.2)) (l, v) m
  | OpCommit txn => commit_spec txn m
  end.

Definition spec_run (ops : list op) (m : gmap (Z * Z) (bool * bool)) : gmap (Z * Z) (bool * bool) :=
  foldl spec_op m ops.

(** How the BRM calls the VSS: only absent versions are inserted, flags are set
    on present ones, and a commit finds its transaction's versions locked. *)
Definition op_ok (m : gmap (Z * Z) (bool * bool)) (o : op) : Prop :=
  match o with
  | OpInsert l v _ _ => l <> -1 /\ m !! (l, v) = None
  | OpRemove l _ => l <> -1
  | OpSetVBFlag l v _ => is_Some (m !! (l, v))
  | OpCommit txn => forall l x, m !! (l, txn) = Some x -> x.2 = true
  end.

Fixpoint admissible (ops : list op) (m : gmap (Z * Z) (bool * bool)) : Prop :=
  match ops with
  | [] => True
  | o :: ops' => op_ok m o /\ admissible ops' (spec_op m o)
  end.

(** A small segment: four entries, two buckets. *)
Definition seg0 : Seg :=
  mkSeg (KEYRANGE_VSS_BASE + 1) (mkHdr 4 0 0 2 0) (replicate 2 (-1)) (replicate 4 blank).
Definition obj0 : t := mk seg0 VSS_INITIAL_SIZE [].

Lemma vss_seg0_wf : wf seg0 /\ abs seg0 = ∅.
Proof. apply (vss_wf_blank (KEYRANGE_VSS_BASE + 1) 4 0 2 0); done. Qed.

(** Two versions of block 5: version 0 in the version buffer, version 3 locked by
    transaction 3; block 9 has the locked version 3. *)
Definition seg1 : Seg :=
  mkSeg (KEYRANGE_VSS_BASE + 1) (mkHdr 4 3 3 1 2) [2]
    [mkEntry 5 0 true false (-1); mkEntry 5 3 false true 0; mkEntry 9 3 false true 1; blank].
Definition obj1 : t := mk seg1 VSS_INITIAL_SIZE [].

Lemma seg1_wf : wf seg1.
Proof.
  assert (Hn : forall nb e, 0 < nb -> bucket_of (hash_key (lbid e)) 1 = 0).
  { intros nb e _. pose proof (bucket_of_range (hash_key (lbid e)) 1 ltac:(lia)). lia. }
  assert (Hc : chain next (storage seg1) 2
    [(2, mkEntry 9 3 false true 1); (1, mkEntry 5 3 false true 0); (0, mkEntry 5 0 true false (-1))]).
  { repeat (constructor; [reflexivity|simpl]). constructor. }
  assert (Hz : forall i e, zget (storage seg1) i = Some e ->
    (i = 0 /\ e = mkEntry 5 0 true false (-1)) \/ (i = 1 /\ e = mkEntry 5 3 false true 0) \/
    (i = 2 /\ e = mkEntry 9 3 false true 1) \/ (i = 3 /\ e = blank)).
  { intros i e Hi. pose proof (zget_Some_range _ _ _ Hi) as Hr. unfold zlen in Hr. simpl in Hr.
    assert (i = 0 \/ i = 1 \/ i = 2 \/ i = 3) as [->|[->|[->| ->]]] by lia;
      simpl in Hi; injection Hi as <-; naive_solver. }
  split; [split|..]; try done.
  - split.
    + intros b h Hb. pose proof (zget_Some_range _ _ _ Hb) as Hr. unfold zlen in Hr. simpl in Hr.
      assert (b = 0) as -> by lia. simpl in Hb. injection Hb as <-. eexists. split; [exact Hc|].
      repeat (constructor; [split; [done|by apply (Hn 1)]|]). constructor.
    + intros i e Hi Hl. exists 2. eexists. unfold bucket. rewrite (Hn 1) by lia.
      split; [done|]. split; [exact Hc|].
      destruct (Hz _ _ Hi) as [[-> ->]|[[-> ->]|[[-> ->]|[-> ->]]]]; [set_solver..|done].
  - intros i e Hlt Hi. destruct (Hz _ _ Hi) as [[-> ->]|[[-> ->]|[[-> ->]|[-> ->]]]]; (done || (simpl in Hlt; lia)).
  - intros i j ei ej Hi Hj Hli Hlj Hk.
    destruct (Hz _ _ Hi) as [[-> ->]|[[-> ->]|[[-> ->]|[-> ->]]]];
      destruct (Hz _ _ Hj) as [[-> ->]|[[-> ->]|[[-> ->]|[-> ->]]]]; done.
Qed.

(** One admissible update. *)
Lemma vss_exec_spec s o :
  wf (seg s) -> VSS_INITIAL_SIZE <= allocdSize s -> can_grow 1 s ->
  op_ok (abs (seg s)) o ->
  wp (exec o) s (fun _ s' => wf (seg s') /\ abs (seg s') = spec_op (abs (seg s)) o /\
    VSS_INITIAL_SIZE <= allocdSize s' /\ (forall k, can_grow (k + 1) s -> can_grow k s')).
Proof.
  intros Hwf Haz Hnb Hok. assert (0 <= VSS_INCREMENT) by done. destruct o as [l v f k|l v|l v f|txn]; simpl in *.
  - destruct Hok. by apply vss_insert_spec.
  - wp_step. eapply wp_mono; [by apply vss_removeEntry_post|]. intros fl s' [_ [? ? _ _ Hn _ Ha]].
    wp_step. split_and!; [done..|lia|apply vss_can_grow_step; lia].
  - destruct Hok as [[f0 k] Hx]. eapply wp_mono; [by eapply setVBFlag_post|].
    intros [] s' [? Ha' _ _ Hn _ Ha]. rewrite Ha'. split_and!; [done| |lia|apply vss_can_grow_step; lia].
    apply map_eq. intros k'. rewrite lookup_insert, lookup_alter. repeat case_decide; simplify_eq; [|done].
    by rewrite Hx.
  - eapply wp_mono; [by apply commit_post|]. intros [] s' (? & ? & _ & Ha & Hh).
    split_and!; [done..|lia|apply vss_can_grow_step; [rewrite Hh; simpl|]; lia].
Qed.

(** C5. Refinement of the version store by a finite map: any admissible sequence
    of insertions, removals, flag changes and commits runs to completion (growing
    the segment when it is full, no fault, no exception), keeps the segment
    invariant (hash lists, entry count, locked count, low-water mark), and leaves
    exactly the map that the abstract operations produce on
    [<LBID,VerID> -> <vbFlag,locked>].  The bytes and the buckets of the segment have
    to stay within an [int] if every operation enlarges it. *)
Theorem vss_ops_refine_map ops : forall s,
  wf (seg s) -> VSS_INITIAL_SIZE <= allocdSize s ->
  can_grow (Z.of_nat (length ops)) s ->
  admissible ops (abs (seg s)) ->
  wp (for_each ops exec) s (fun _ s' => wf (seg s') /\ abs (seg s') = spec_run ops (abs (seg s))).
Proof.
  induction ops as [|o ops IH]; intros s Hwf Haz Hnb Hadm; simpl in *; [done|].
  destruct Hadm as [Ho Hadm]. wp_step. eapply wp_mono; [apply vss_exec_spec; try done; eapply vss_can_grow_le; [|exact Hnb]; lia|].
  intros [] s1 (Hw1 & Ha1 & Haz1 & Hnb1).
  eapply wp_mono; [apply IH; try done; [apply Hnb1; eapply vss_can_grow_le; [|exact Hnb]; lia|by rewrite Ha1]|]. intros [] s2. by rewrite Ha1.
Qed.

Lemma vss_ops_refine_map_witness :
  wp (for_each [OpInsert 5 0 false false; OpInsert 5 3 false true; OpSetVBFlag 5 0 true; OpRemove 5 3] exec)
    obj0 (fun _ s' => wf (seg s') /\ abs (seg s') =
      spec_run [OpInsert 5 0 false false; OpInsert 5 3 false true; OpSetVBFlag 5 0 true; OpRemove 5 3] (abs seg0)).
Proof.
  apply (vss_ops_refine_map [OpInsert 5 0 false false; OpInsert 5 3 false true; OpSetVBFlag 5 0 true;
    OpRemove 5 3] obj0).
  - apply vss_seg0_wf.
  - done.
  - done.
  - change (abs (seg obj0)) with (abs seg0). rewrite (proj2 vss_seg0_wf).
    split; [done|]. split; [done|]. split; [|done]. simpl. by eexists.
Defined.

(** C9. Version resolution: on the segment invariant [lookup] terminates and
    returns the greatest version not after the query's SCN among the block's
    versions visible to it (its own, or of a transaction that was not open when
    the query started; only those in the version buffer when [vbOnly]), with that
    version's buffer flag; code 15 (snapshot too old) exactly when there are
    visible versions and all are newer than the SCN; code -1 exactly when there
    is none. *)
Theorem vss_lookup_mvcc g l qc txn vbOnly :
  wf g -> 0 <= currentScn qc -> (forall v x, abs g !! (l, v) = Some x -> 0 <= v) ->
  exists r, lookup l qc txn vbOnly g = Val r /\
    resolves (visible (abs g) l qc txn vbOnly) (currentScn qc) r.
Proof. intros Hwf. apply lookup_resolves, (wf_tab _ _ _ Hwf). Qed.

Lemma vss_lookup_mvcc_witness :
  exists r, lookup 5 (mkQC 4 {[3]}) 7 false seg1 = Val r /\
    resolves (visible (abs seg1) 5 (mkQC 4 {[3]}) 7 false) 4 r.
Proof.
  apply (vss_lookup_mvcc seg1 5 (mkQC 4 {[3]}) 7 false).
  - apply seg1_wf.
  - simpl. lia.
  - assert (H : map_Forall (fun k _ => 0 <= k.2) (abs seg1)) by (apply (bool_decide_unpack _); vm_compute; done).
    intros v x Hx. apply (H (5, v) x Hx).
Defined.

(** One update in a segment with room; commits log less than they change. *)
Lemma vss_exec_room s o :
  wf (seg s) -> currentSize (hdr (seg s)) < capacity (hdr (seg s)) ->
  (forall txn, o <> OpCommit txn) -> op_ok (abs (seg s)) o ->
  wp (exec o) s (fun _ s' => op_post s s' (spec_op (abs (seg s)) o) /\
    currentSize (hdr (seg s')) <= currentSize (hdr (seg s)) + 1).
Proof.
  intros Hwf Hroom Hnc Hok. destruct o as [l v f k|l v|l v f|txn]; simpl in *.
  - destruct Hok. eapply wp_mono; [by apply vss_insert_room|]. intros [] s' [? ?]. split; [done|lia].
  - wp_step. eapply wp_mono; [by apply vss_removeEntry_post|]. intros fl s' [_ Hp]. wp_step.
    split; [done|]. pose proof (op_wf _ _ _ Hp) as Hwf'.
    rewrite <- (size_abs _ Hwf), <- (size_abs _ Hwf'), (op_abs _ _ _ Hp).
    pose proof (remove_spec_size l v (abs (seg s))). lia.
  - destruct Hok as [[f0 k] Hx]. eapply wp_mono; [by eapply setVBFlag_post|].
    intros [] s' Hp. replace (alter _ _ _) with (<[(l, v) := (f, k)]> (abs (seg s))).
    + split; [done|]. pose proof (op_wf _ _ _ Hp) as Hwf'.
      rewrite <- (size_abs _ Hwf), <- (size_abs _ Hwf'), (op_abs _ _ _ Hp).
      rewrite map_size_insert_Some; [lia|by eexists].
    + apply map_eq. intros k'. rewrite lookup_insert, lookup_alter. repeat case_decide; simplify_eq; [|done].
      by rewrite Hx.
  - by destruct (Hnc txn).
Qed.

Lemma vss_exec_all_room ops : forall s, wf (seg s) ->
  currentSize (hdr (seg s)) + Z.of_nat (length ops) <= capacity (hdr (seg s)) ->
  Forall (fun o => forall txn, o <> OpCommit txn) ops -> admissible ops (abs (seg s)) ->
  wp (for_each ops exec) s (fun _ s' => op_post s s' (spec_run ops (abs (seg s)))).
Proof.
  induction ops as [|o ops IH]; intros s Hwf Hroom Hnc Hadm; simpl in *.
  { by apply vss_op_post_refl. }
  destruct Hadm as [Ho Hadm]. apply Forall_cons in Hnc as [Hno Hnc]. wp_step.
  eapply wp_mono; [apply vss_exec_room; try done; lia|]. intros [] s1 [Hp Hs1].
  pose proof (op_abs _ _ _ Hp) as Ha1.
  eapply wp_mono; [apply IH; [apply (op_wf _ _ _ Hp)|rewrite (op_cap _ _ _ Hp); lia|done|by rewrite Ha1]|].
  intros [] s2 Hp2. rewrite Ha1 in Hp2. by eapply vss_op_post_trans.
Qed.

(** The undo log is exact for insertions, removals (with the cascade over
    the block's other versions) and flag changes: while the segment has room, running any
    admissible sequence of them and then [undoChanges] gives back the very same
    object, with an empty log. *)
Theorem vss_undo_restores ops s :
  wf (seg s) -> undoRecords s = [] ->
  currentSize (hdr (seg s)) + Z.of_nat (length ops) <= capacity (hdr (seg s)) ->
  Forall (fun o => forall txn, o <> OpCommit txn) ops -> admissible ops (abs (seg s)) ->
  wp (for_each ops exec ;; undo) s (fun _ s' => s' = s).
Proof.
  intros Hwf Hr Hroom Hnc Hadm. wp_step.
  eapply wp_mono; [by apply vss_exec_all_room|]. intros [] s1 [_ _ Hu _ _ _ Ha].
  rewrite Hr in Hu. unfold wp, undo. rewrite (undoes_undoChanges _ _ _ Hu).
  destruct s, s1. simpl in *. by subst.
Qed.

Lemma vss_undo_restores_witness :
  wp (for_each [OpInsert 5 0 true false; OpInsert 5 3 false false; OpRemove 5 0] exec ;; undo) obj0
     (fun _ s' => s' = obj0).
Proof.
  apply (vss_undo_restores [OpInsert 5 0 true false; OpInsert 5 3 false false; OpRemove 5 0] obj0).
  - apply vss_seg0_wf.
  - done.
  - done.
  - repeat constructor; done.
  - change (abs (seg obj0)) with (abs seg0). rewrite (proj2 vss_seg0_wf). repeat split; done.
Defined.

(** Removing a version: [removeEntry] deletes exactly that version, and when
    none of the block's remaining versions is locked or in the version buffer it
    deletes those too and reports the block for flushing; a missing version
    changes nothing. *)
Theorem vss_removeEntry_cascade s l v :
  wf (seg s) -> l <> -1 ->
  wp (removeEntry l v) s (fun flush s' =>
    wf (seg s') /\
    (abs (seg s) !! (l, v) = None -> flush = [] /\ abs (seg s') = abs (seg s)) /\
    (is_Some (abs (seg s) !! (l, v)) ->
       (in_use l (delete (l, v) (abs (seg s))) ->
          flush = [] /\ abs (seg s') = delete (l, v) (abs (seg s))) /\
       (~ in_use l (delete (l, v) (abs (seg s))) ->
          flush = [l] /\ abs (seg s') = without l (abs (seg s))))).
Proof.
  intros Hwf Hl. eapply wp_mono; [by apply vss_removeEntry_post|]. unfold remove_spec.
  intros fl s' [-> [Hw Ha _ _ _ _ _]]. split; [done|]. rewrite Ha. clear Ha.
  destruct (abs (seg s) !! (l, v)) as [x|] eqn:Hx.
  - split; [done|]. intros _. case_decide; split; try done.
    intros _. simpl. by rewrite without_delete.
  - split; [done|]. by intros [].
Qed.

Lemma vss_removeEntry_cascade_witness :
  wp (removeEntry 5 3) obj1 (fun flush s' => flush = [] /\ abs (seg s') = delete (5, 3) (abs seg1)).
Proof.
  eapply wp_mono; [apply (vss_removeEntry_cascade obj1 5 3 seg1_wf); lia|].
  intros fl s' (_ & _ & H). apply H.
  - vm_compute. by eexists.
  - apply (bool_decide_unpack _). vm_compute. done.
Defined.

(** Commit: every version written by the transaction is unlocked and nothing
    else changes in the map; the locked-entry counter stays exact.  Undoing the
    commit restores every entry and list, but not the counter: the segment comes
    back only up to [lockedEntryCount]. *)
Theorem vss_commit_unlocks s txn :
  wf (seg s) -> undoRecords s = [] -> (forall l x, abs (seg s) !! (l, txn) = Some x -> x.2 = true) ->
  wp (commit txn) s (fun _ s1 =>
    wf (seg s1) /\
    (forall k, abs (seg s1) !! k = unlock txn k <$> abs (seg s) !! k) /\
    wp undo s1 (fun _ s2 => undoRecords s2 = [] /\
      seg s2 = set_hdr (with_lockedCount (lockedEntryCount (hdr (seg s1))) (hdr (seg s))) (seg s))).
Proof.
  intros Hwf Hr Hlk. eapply wp_mono; [by apply commit_post|].
  intros [] s1 (Hw & Ha & (_ & new & Hnew & Hu) & _ & Hh). rewrite Hr in Hnew. simpl in Hnew.
  split_and!; [done| |].
  - intros k. rewrite Ha. unfold commit_spec. rewrite map_lookup_imap. by destruct (_ !! k).
  - unfold wp, undo, undoChanges. rewrite Hnew. specialize (Hu (hdr (seg s1))).
    replace (set_hdr (hdr (seg s1)) (seg s1)) with (seg s1) in Hu by (by destruct (seg s1)).
    rewrite Hu. simpl. split; [done|]. by rewrite Hh at 1.
Qed.

Lemma vss_commit_unlocks_witness :
  wp (commit 3) obj1 (fun _ s1 => abs (seg s1) !! (5, 3) = Some (false, false)).
Proof.
  eapply wp_mono; [apply (vss_commit_unlocks obj1 3 seg1_wf); [done|]|].
  - assert (H : map_Forall (fun k x => k.2 = 3 -> x.2 = true) (abs seg1))
      by (apply (bool_decide_unpack _); vm_compute; done).
    intros l x Hx. by apply (H (l, 3) x Hx).
  - intros [] s1 (_ & Hk & _). rewrite Hk. vm_compute. done.
Defined.

(** [commit] lowers [lockedEntryCount] without logging the header, so undoing
    a commit leaves the counter wrong: with two versions locked again it reads 0. *)
Theorem vss_commit_undo_loses_count :
  wp (commit 3 ;; undo) obj1 (fun _ s' =>
    storage (seg s') = storage seg1 /\ getLockedLBIDs (seg s') = [(5, 3); (9, 3)] /\
    lockedEntryCount (hdr seg1) = 2 /\ lockedEntryCount (hdr (seg s')) = 0).
Proof. vm_compute. done. Qed.

(** [growVSS] keeps the undo records of the segment it replaces: after an
    insertion that grew the segment, [undoChanges] writes through addresses of
    the old segment, and nothing of the old contents is restored. *)
Theorem vss_grow_keeps_stale_undo :
  match (insert 6 1 false true false ;; insert 7 1 false true false ;; undo) obj1 with
  | (Fault StaleAddress, s) => getLockedLBIDs (seg s) = [(5, 3); (9, 3); (6, 1); (7, 1)]
  | _ => False
  end.
Proof. vm_compute. done. Qed.

(** [isTooOld] never holds: its minimum starts at 0 and only takes smaller
    versions, and versions are not negative, so the caller's "too old" branch is
    unreachable. *)
Theorem vss_isTooOld_never g l v :
  wf g -> (forall w x, abs g !! (l, w) = Some x -> 0 <= w) -> 0 <= v -> isTooOld l v g = Val false.
Proof. intros Hwf. apply isTooOld_false, (wf_tab _ _ _ Hwf). Qed.

Lemma vss_isTooOld_never_witness : isTooOld 9 1 seg1 = Val false.
Proof.
  apply (vss_isTooOld_never seg1 9 1 seg1_wf).
  - assert (H : map_Forall (fun k _ => 0 <= k.2) (abs seg1)) by (apply (bool_decide_unpack _); vm_compute; done).
    intros v x Hx. apply (H (9, v) x Hx).
  - lia.
Defined.

(** The version a rollback needs is protected: [isEntryLocked] answers yes
    exactly when some version of the block is locked and [v] is the newest
    unlocked version of the block (0 when there is none). *)
Theorem vss_isEntryLocked_rollback g l v :
  wf g -> l <> -1 ->
  exists b, isEntryLocked l v g = Val b /\
    (b = true <-> (exists w f, abs g !! (l, w) = Some (f, true)) /\ 0 <= v /\
       (v = 0 \/ exists f, abs g !! (l, v) = Some (f, false)) /\
       forall w f, abs g !! (l, w) = Some (f, false) -> w <= v).
Proof. intros Hwf. apply isEntryLocked_spec, (wf_tab _ _ _ Hwf). Qed.

Lemma vss_isEntryLocked_rollback_witness :
  isEntryLocked 5 0 seg1 = Val true /\
  exists b, isEntryLocked 5 0 seg1 = Val b /\
    (b = true <-> (exists w f, abs seg1 !! (5, w) = Some (f, true)) /\ 0 <= 0 /\
       (0 = 0 \/ exists f, abs seg1 !! (5, 0) = Some (f, false)) /\
       forall w f, abs seg1 !! (5, w) = Some (f, false) -> w <= 0).
Proof.
  split; [vm_compute; done|]. apply (vss_isEntryLocked_rollback seg1 5 0 seg1_wf). lia.
Defined.

(** [isLocked] stops at the first locked version it meets: a range whose
    first block is locked by the asking transaction is reported free although a
    later block is locked by another one. *)
Theorem vss_isLocked_first_decides :
  let g := mkSeg 0 (mkHdr 2 2 2 1 2) [1] [mkEntry 5 3 false true (-1); mkEntry 6 4 false true 0] in
  isLocked (mkRange 5 2) 3 g = Val false /\ isLocked (mkRange 6 1) 3 g = Val true.
Proof. vm_compute. done. Qed.
End VSSClaims.
