(* ===== verification/CopyLocks.v ===== *)
(** * The copy locks

    versioning/BRM/copylocks.{h,cpp}.  While a transaction copies blocks into the
    version buffer it holds copy locks on their LBID ranges.  The table is a flat
    array of slots, free when its size field is 0; the counters live in the
    master segment table ([shminfo]), which growth does not move. *)

From S2P Require Import Prelude Chain Undoable Vbbm Vss.
From stdpp Require Import prelude gmap strings.
Local Open Scope Z_scope.

Module CopyLocks.

Record CopyLockEntry := mkEntry { start : Z; size : Z; txnID : Z }.

Record MSTEntry := mkMST { tableShmkey : Z; allocdSize : Z; currentSize : Z }.

Record Mem := mkMem { shminfo : MSTEntry; entries : list CopyLockEntry }.

Global Instance CopyLockEntry_eq_dec : EqDecision CopyLockEntry.
Proof. solve_decision. Defined.
Global Instance MSTEntry_eq_dec : EqDecision MSTEntry.
Proof. solve_decision. Defined.

Definition with_size n e := mkEntry (start e) n (txnID e).
Definition with_curSize n i := mkMST (tableShmkey i) (allocdSize i) n.
Definition set_shminfo i m := mkMem i (entries m).
Definition set_entries es m := mkMem (shminfo m) es.

(** The default constructor, which is also the zeroed slot of a new segment. *)
Definition blank : CopyLockEntry := mkEntry 0 0 0.

(** ** Undo locations *)
Inductive Loc :=
| LShminfo
| LEntry (key i : Z).

Inductive Data :=
| DMST (i : MSTEntry)
| DEntry (e : CopyLockEntry).

Definition sizeof_CopyLockEntry : Z := 16.
Definition sizeof_MSTEntry : Z := 12.

Definition read_loc (l : Loc) (m : Mem) : outcome Data :=
  match l with
  | LShminfo => Val (DMST (shminfo m))
  | LEntry k i =>
      if k =? tableShmkey (shminfo m) then e ← aget (entries m) i; Val (DEntry e)
      else Fault StaleAddress
  end.

(** Restoring the counters of another segment would bring its key back. *)
Definition write_loc (l : Loc) (d : Data) (m : Mem) : outcome Mem :=
  match l, d with
  | LShminfo, DMST i =>
      if tableShmkey i =? tableShmkey (shminfo m) then Val (set_shminfo i m) else Fault StaleAddress
  | LEntry k i, DEntry e =>
      if k =? tableShmkey (shminfo m) then _ ← aget (entries m) i; Val (set_entries (zset (entries m) i e) m)
      else Fault StaleAddress
  | _, _ => Fault OutOfBounds
  end.

Definition loc_size (l : Loc) : Z :=
  match l with LShminfo => sizeof_MSTEntry | LEntry _ _ => sizeof_CopyLockEntry end.

Global Program Instance cl_mem : UndoMem Mem Loc Data :=
  {| um_read := read_loc; um_write := write_loc; um_size := loc_size |}.
Next Obligation.
  intros l d v [i es] m'. unfold read_loc, write_loc, aget, set_shminfo, set_entries.
  destruct l, v; simpl; intros Hr Hw; simplify_eq/=; repeat case_match; simplify_eq/=;
    rewrite ?zset_zset, ?zset_id by done; try done; zbool; try congruence.
  all: rewrite zget_zset_eq in * by eauto using zget_Some_range; simplify_eq.
Qed.
Next Obligation.
  intros l d [i es]. unfold read_loc, write_loc, aget. destruct l; simpl; intros Hr; simplify_eq/=.
  - by rewrite Z.eqb_refl.
  - repeat case_match; simplify_eq/=. by rewrite zset_id.
Qed.

(** ** The object *)
Record t := mk { mem : Mem; undoRecords : list (ImageDelta Loc Data) }.

Definition set_mem m s := mk m (undoRecords s).
Definition set_undo u s := mk (mem s) u.

Definition CL_INITIAL_SIZE : Z := 50 * sizeof_CopyLockEntry.
Definition CL_INCREMENT : Z := 50 * sizeof_CopyLockEntry.
Definition KEYRANGE_CL_BASE : Z := 0x50000.

Definition chooseShmkey (tableKey : Z) : Z :=
  if (tableKey + 1 =? KEYRANGE_CL_BASE + VBBM.KEYRANGE_SIZE - 1) || (u32 tableKey <? KEYRANGE_CL_BASE)
  then KEYRANGE_CL_BASE + 1
  else tableKey + 1.

(** [growCL]: the new segment holds the old bytes followed by zeroes, and the undo
    log is dropped ([confirmChanges]).  The size in bytes is an [int]. *)
Definition growCL : M t unit :=
  allocSize ← gets (fun s =>
    let i := shminfo (mem s) in
    if allocdSize i =? 0 then CL_INITIAL_SIZE else allocdSize i + CL_INCREMENT);
  if 2 ^ 31 <=? allocSize then fail_with SignedOverflow else
  modify (fun s =>
    let i := shminfo (mem s) in
    let fresh := Z.to_nat (allocSize / sizeof_CopyLockEntry - zlen (entries (mem s))) in
    mk (mkMem (mkMST (chooseShmkey (tableShmkey i)) allocSize (currentSize i))
              (entries (mem s) ++ replicate fresh blank))
       (confirmChanges (undoRecords s))).

Definition makeUndo (loc : Mem -> Loc) : M t unit := fun s =>
  match makeUndoRecord (loc (mem s)) (mem s) (undoRecords s) with
  | Val r => (Val tt, set_undo r s)
  | Exn e => (Exn e, s)
  | Fault f => (Fault f, s)
  end.

Definition entry_loc (i : Z) (m : Mem) : Loc := LEntry (tableShmkey (shminfo m)) i.

Definition upd_entry (i : Z) (f : CopyLockEntry -> CopyLockEntry) : M t unit := fun s =>
  match zget (entries (mem s)) i with
  | Some e => (Val tt, set_mem (set_entries (zset (entries (mem s)) i (f e)) (mem s)) s)
  | None => (Fault OutOfBounds, s)
  end.

Definition upd_shminfo (f : MSTEntry -> MSTEntry) : M t unit :=
  modify (fun s => set_mem (set_shminfo (f (shminfo (mem s))) (mem s)) s).

Definition numEntries (m : Mem) : Z := allocdSize (shminfo m) / sizeof_CopyLockEntry.

(** The scan of [lockRange] from slot [i], [n] slots to go. *)
Fixpoint lock_slot (n : nat) (i : Z) (l : VSS.LBIDRange) (txn : Z) : M t unit :=
  match n with
  | O => throw (logic_error "CopyLocks::lockRange(): shm metadata problem: could not find an empty copylock entry")
  | S n' =>
      e ← lift (fun s => aget (entries (mem s)) i);
      if size e =? 0 then
        makeUndo (entry_loc i) ;;
        upd_entry i (fun _ => mkEntry (VSS.r_start l) (i32 (VSS.r_size l)) txn) ;;
        makeUndo (fun _ => LShminfo) ;;
        upd_shminfo (fun x => with_curSize (currentSize x + sizeof_CopyLockEntry) x)
      else lock_slot n' (i + 1) l txn
  end.

Definition lockRange (l : VSS.LBIDRange) (txn : Z) : M t unit :=
  full ← gets (fun s => currentSize (shminfo (mem s)) =? allocdSize (shminfo (mem s)));
  (if (full : bool) then growCL else mret tt) ;;
  n ← gets (fun s => Z.to_nat (numEntries (mem s)));
  lock_slot n 0 l txn.

(** The test of the release loops and of [isLocked]. *)
Definition intersects (l : VSS.LBIDRange) (e : CopyLockEntry) : bool :=
  let lastBlock := VSS.r_start l + VSS.r_size l - 1 in
  let eLastBlock := start e + size e - 1 in
  (VSS.r_start l <=? eLastBlock) && (start e <=? lastBlock).

(** Free slot [i] if it is in use and [p] holds of it. *)
Definition release_slot (p : CopyLockEntry -> bool) (i : Z) : M t unit :=
  e ← lift (fun s => aget (entries (mem s)) i);
  if negb (size e =? 0) && p e then
    makeUndo (entry_loc i) ;;
    upd_entry i (with_size 0) ;;
    makeUndo (fun _ => LShminfo) ;;
    upd_shminfo (fun x => with_curSize (currentSize x - sizeof_CopyLockEntry) x)
  else mret tt.

Definition release_where (p : CopyLockEntry -> bool) : M t unit :=
  n ← gets (fun s => Z.to_nat (numEntries (mem s)));
  for_up n 0 (release_slot p).

Definition releaseRange (l : VSS.LBIDRange) : M t unit := release_where (intersects l).
Definition forceRelease (l : VSS.LBIDRange) : M t unit := release_where (intersects l).
Definition rollback (txn : Z) : M t unit := release_where (fun e => txnID e =? txn).

Fixpoint isLocked_from (n : nat) (i : Z) (l : VSS.LBIDRange) (m : Mem) : outcome bool :=
  match n with
  | O => Val false
  | S n' =>
      e ← aget (entries m) i;
      if negb (size e =? 0) && intersects l e then Val true else isLocked_from n' (i + 1) l m
  end.

Definition isLocked (l : VSS.LBIDRange) (m : Mem) : outcome bool :=
  isLocked_from (Z.to_nat (numEntries m)) 0 l m.

Definition getCurrentTxnIDs (m : Mem) (acc : gset Z) : gset Z :=
  acc ∪ list_to_set (txnID <$> filter (fun e => size e <> 0) (take (Z.to_nat (numEntries m)) (entries m))).

Definition undo : M t unit := fun s =>
  match undoChanges (undoRecords s) (mem s) with
  | Val (m, r) => (Val tt, set_undo r (set_mem m s))
  | Exn e => (Exn e, s)
  | Fault f => (Fault f, s)
  end.

Definition confirm : M t unit := modify (fun s => set_undo (confirmChanges (undoRecords s)) s).

End CopyLocks.
