(* ===== verification/CopyLocksClaims.v ===== *)
(** * Properties of the copy locks *)

From S2P Require Import Prelude Chain Undoable Vss CopyLocks.
From stdpp Require Import prelude gmap strings.
Local Open Scope Z_scope.

(** ** Correctness of the copy locks

    The table invariant, the set of held locks, and what each operation does to
    it; exactness of the undo log. *)

Module CopyLocksThms.
Import CopyLocks.

Definition busy (e : CopyLockEntry) : bool := negb (size e =? 0).

(** The locks held, in slot order. *)
Definition held (m : Mem) : list CopyLockEntry := filter (fun e => busy e = true) (entries m).

Record wf (m : Mem) : Prop := {
  wf_alloc : allocdSize (shminfo m) = sizeof_CopyLockEntry * zlen (entries m);
  wf_cur : currentSize (shminfo m) = sizeof_CopyLockEntry * live_count busy (entries m) }.

Lemma held_zlen m : zlen (held m) = live_count busy (entries m).
Proof. done. Qed.

Lemma numEntries_zlen m : wf m -> numEntries m = zlen (entries m).
Proof.
  intros [Ha _]. unfold numEntries. rewrite Ha, Z.mul_comm. by apply Z.div_mul.
Qed.

(** ** Symbolic steps *)
Lemma cl_mkrec l m recs d :
  read_loc l m = Val d -> makeUndoRecord l m recs = Val (recs ++ [{| Undoable.start := l; data := d |}]).
Proof. intros H. unfold makeUndoRecord. simpl. rewrite H. by destruct l. Qed.

Lemma cl_wp_makeUndo f s d Q :
  read_loc (f (mem s)) (mem s) = Val d ->
  Q tt (set_undo (undoRecords s ++ [{| Undoable.start := f (mem s); data := d |}]) s) ->
  wp (makeUndo f) s Q.
Proof. intros Hr HQ. unfold wp, makeUndo. by rewrite (cl_mkrec _ _ _ _ Hr). Qed.

Lemma cl_wp_upd_entry i f s e (Q : unit -> t -> Prop) :
  zget (entries (mem s)) i = Some e ->
  Q tt (set_mem (set_entries (zset (entries (mem s)) i (f e)) (mem s)) s) -> wp (upd_entry i f) s Q.
Proof. intros Hi HQ. unfold wp, upd_entry. by rewrite Hi. Qed.

Lemma cl_read_entry m i e :
  zget (entries m) i = Some e -> read_loc (entry_loc i m) m = Val (DEntry e).
Proof. intros H. unfold read_loc, entry_loc, aget. by rewrite Z.eqb_refl, H. Qed.

(** Slot [i] rewritten and the counter moved by [d], both logged. *)
Definition slot_write (i : Z) (f : CopyLockEntry -> CopyLockEntry) (d : Z) : M t unit :=
  makeUndo (entry_loc i) ;; upd_entry i f ;; makeUndo (fun _ => LShminfo) ;;
  upd_shminfo (fun x => with_curSize (currentSize x + d) x).

Record slot_post (s s' : t) (i : Z) (e' : CopyLockEntry) (d : Z) : Prop := {
  sp_entries : entries (mem s') = zset (entries (mem s)) i e';
  sp_info : shminfo (mem s') = with_curSize (currentSize (shminfo (mem s)) + d) (shminfo (mem s));
  sp_undo : undoes (mem s) (undoRecords s) (mem s') (undoRecords s') }.

Lemma slot_write_spec s i f d e :
  zget (entries (mem s)) i = Some e ->
  wp (slot_write i f d) s (fun _ s' => slot_post s s' i (f e) d).
Proof.
  intros Hi. unfold slot_write. wp_steps. eapply cl_wp_makeUndo; [by apply cl_read_entry|].
  wp_steps. eapply cl_wp_upd_entry; [exact Hi|]. wp_steps. eapply cl_wp_makeUndo; [done|].
  wp_steps. apply wp_modify. split; simpl; try done.
  eapply undoes_trans.
  - eapply (undoes_write (entry_loc i (mem s)) (DEntry e) (DEntry (f e))); [by apply cl_read_entry|].
    simpl. unfold aget. by rewrite Z.eqb_refl, Hi.
  - eapply (undoes_write LShminfo _ (DMST (with_curSize (currentSize (shminfo (mem s)) + d) (shminfo (mem s)))));
      [done|]. simpl. by rewrite Z.eqb_refl.
Qed.

Lemma lock_slot_spec l txn s n : forall i,
  0 <= i -> (exists j e, i <= j < i + Z.of_nat n /\ zget (entries (mem s)) j = Some e /\ busy e = false) ->
  wp (lock_slot n i l txn) s (fun _ s' => exists j e,
    zget (entries (mem s)) j = Some e /\ busy e = false /\
    slot_post s s' j (mkEntry (VSS.r_start l) (i32 (VSS.r_size l)) txn) sizeof_CopyLockEntry).
Proof.
  induction n as [|n IH]; intros i H0 (j & e & Hj & He & Hb); [lia|]. simpl.
  pose proof (zget_Some_range _ _ _ He) as Hr.
  destruct (zget_is_Some (entries (mem s)) i) as [x Hx]; [lia|].
  wp_step. eapply wp_lift; [by apply aget_Val|].
  destruct (Z.eqb_spec (size x) 0) as [Hz|Hnz].
  - eapply wp_mono; [apply (slot_write_spec s i (fun _ => mkEntry (VSS.r_start l) (i32 (VSS.r_size l)) txn)
      sizeof_CopyLockEntry x Hx)|]. intros [] s' Hp. exists i, x. unfold busy. rewrite Hz. done.
  - apply IH; [lia|]. exists j, e. split; [|done].
    assert (j <> i); [|lia]. intros ->. rewrite Hx in He. injection He as ->.
    unfold busy in Hb. by destruct (Z.eqb_spec (size e) 0).
Qed.

(** A table with room has a free slot. *)
Lemma free_slot_wf m :
  wf m -> currentSize (shminfo m) <> allocdSize (shminfo m) ->
  exists j e, 0 <= j < numEntries m /\ zget (entries m) j = Some e /\ busy e = false.
Proof.
  intros Hwf Hne. pose proof (live_count_bounds busy (entries m)) as Hb.
  rewrite (wf_alloc _ Hwf), (wf_cur _ Hwf) in Hne. unfold sizeof_CopyLockEntry in Hne.
  destruct (free_slot busy (entries m) 0) as (j & e & Hj & He & Hd & _); [done| |lia|].
  - intros i x Hi Hx%zget_Some_range. lia.
  - exists j, e. rewrite (numEntries_zlen _ Hwf). eauto using zget_Some_range.
Qed.

(** [k] more locks fit a table of at most 2^31 bytes, grown 50 slots at a time. *)
Definition can_hold (k : Z) (m : Mem) : Prop := zlen (held m) + 49 + k < 2 ^ 27.

Lemma growCL_spec s :
  wf (mem s) -> zlen (entries (mem s)) + 50 < 2 ^ 27 ->
  wp growCL s (fun _ s' => wf (mem s') /\ held (mem s') = held (mem s) /\ undoRecords s' = [] /\
    currentSize (shminfo (mem s')) = currentSize (shminfo (mem s)) /\
    allocdSize (shminfo (mem s)) < allocdSize (shminfo (mem s'))).
Proof.
  intros [Ha Hc] Hlim. unfold growCL. wp_step. wp_step.
  assert (Hz : zlen (entries (mem s)) = 0 \/ 0 < zlen (entries (mem s))) by (unfold zlen; lia).
  assert (Hal : (if allocdSize (shminfo (mem s)) =? 0 then CL_INITIAL_SIZE else allocdSize (shminfo (mem s)) + CL_INCREMENT)
          = sizeof_CopyLockEntry * (zlen (entries (mem s)) + 50)).
  { rewrite Ha. unfold sizeof_CopyLockEntry, CL_INITIAL_SIZE, CL_INCREMENT, sizeof_CopyLockEntry in *.
    destruct (Z.eqb_spec (16 * zlen (entries (mem s))) 0); lia. }
  rewrite Hal. unfold sizeof_CopyLockEntry at 1.
  destruct (Z.leb_spec (2 ^ 31) (16 * (zlen (entries (mem s)) + 50))); [lia|]. apply wp_modify.
  cbn [mem shminfo entries undoRecords allocdSize currentSize tableShmkey].
  rewrite (Z.mul_comm sizeof_CopyLockEntry), Z.div_mul by done.
  replace (zlen (entries (mem s)) + 50 - zlen (entries (mem s))) with 50 by lia.
  assert (Hf : filter (fun e => busy e = true) (replicate (Z.to_nat 50) blank) = []) by done.
  split_and!; try done.
  - split; cbn [shminfo allocdSize currentSize entries].
    + rewrite zlen_app, zlen_replicate. lia.
    + rewrite Hc. unfold live_count. by rewrite filter_app, Hf, app_nil_r.
  - unfold held. cbn [entries]. by rewrite filter_app, Hf, app_nil_r.
  - rewrite Ha. unfold sizeof_CopyLockEntry. lia.
Qed.

(** One more lock; a table with room logs exactly what it changes. *)
Lemma lockRange_spec s l txn :
  wf (mem s) -> 0 < VSS.r_size l < 2 ^ 31 ->
  (currentSize (shminfo (mem s)) = allocdSize (shminfo (mem s)) -> can_hold 1 (mem s)) ->
  wp (lockRange l txn) s (fun _ s' => wf (mem s') /\
    held (mem s') ≡ₚ mkEntry (VSS.r_start l) (VSS.r_size l) txn :: held (mem s) /\
    (currentSize (shminfo (mem s)) <> allocdSize (shminfo (mem s)) ->
       undoes (mem s) (undoRecords s) (mem s') (undoRecords s')) /\
    (currentSize (shminfo (mem s)) <> allocdSize (shminfo (mem s)) ->
       zlen (entries (mem s')) = zlen (entries (mem s)))).
Proof.
  intros Hwf Hsz Hlim. set (e' := mkEntry (VSS.r_start l) (VSS.r_size l) txn).
  assert (Hb' : busy e' = true) by (unfold busy; simpl; destruct (Z.eqb_spec (VSS.r_size l) 0); [lia|done]).
  assert (Hmain : forall s, wf (mem s) -> currentSize (shminfo (mem s)) <> allocdSize (shminfo (mem s)) ->
    wp (n ← gets (fun s => Z.to_nat (numEntries (mem s))); lock_slot n 0 l txn) s (fun _ s' => wf (mem s') /\
      held (mem s') ≡ₚ e' :: held (mem s) /\ undoes (mem s) (undoRecords s) (mem s') (undoRecords s') /\
      zlen (entries (mem s')) = zlen (entries (mem s)))).
  { clear s Hwf Hlim. intros s Hwf Hne. wp_steps. destruct (free_slot_wf _ Hwf Hne) as (j & e & Hj & He & Hd).
    eapply wp_mono; [apply lock_slot_spec; [done|exists j, e; split; [lia|done]]|].
    intros [] s' (k & x & Hk & Hx & [He' Hi' Hu]). rewrite i32_small in He' by lia. fold e' in He'.
    split_and!; [|unfold held; rewrite He'|done|by rewrite He', zlen_zset].
    - split; rewrite Hi', He'; simpl; [by rewrite zlen_zset, (wf_alloc _ Hwf)|].
      erewrite live_count_zset by done. rewrite Hx, Hb', (wf_cur _ Hwf). simpl. lia.
    - eapply filter_zset_perm; [done|by rewrite Hx|done]. }
  unfold lockRange. wp_steps.
  destruct (Z.eqb_spec (currentSize (shminfo (mem s))) (allocdSize (shminfo (mem s)))) as [Hf|Hf].
  - assert (zlen (entries (mem s)) = zlen (held (mem s))) as Hall.
    { rewrite (wf_cur _ Hwf), (wf_alloc _ Hwf), <- held_zlen in Hf. unfold sizeof_CopyLockEntry in Hf. lia. }
    specialize (Hlim Hf). unfold can_hold in Hlim.
    eapply wp_mono; [apply growCL_spec; [done|lia]|]. intros [] s1 (Hw1 & Hh1 & _ & Hc1 & Ha1).
    eapply wp_mono; [apply Hmain; [done|lia]|]. intros [] s2 (? & Hp & _). rewrite Hh1 in Hp. done.
  - wp_steps. eapply wp_mono; [by apply Hmain|]. naive_solver.
Qed.

(** ** Releases *)
Definition freed (p : CopyLockEntry -> bool) (e : CopyLockEntry) : CopyLockEntry :=
  if busy e && p e then with_size 0 e else e.

Lemma release_slot_spec p s i e :
  wf (mem s) -> zget (entries (mem s)) i = Some e ->
  wp (release_slot p i) s (fun _ s' => wf (mem s') /\
    entries (mem s') = zset (entries (mem s)) i (freed p e) /\
    undoes (mem s) (undoRecords s) (mem s') (undoRecords s')).
Proof.
  intros Hwf Hi. unfold release_slot. wp_step. eapply wp_lift; [by apply aget_Val|].
  change (negb (size e =? 0)) with (busy e). unfold freed. destruct (busy e && p e) eqn:Hb.
  - apply andb_true_iff in Hb as [Hb _].
    eapply wp_mono; [apply (slot_write_spec s i (with_size 0) (- sizeof_CopyLockEntry) e Hi)|].
    intros [] s' [He' Hi' Hu]. split_and!; try done.
    split; rewrite Hi', He'; simpl; [by rewrite zlen_zset, (wf_alloc _ Hwf)|].
    erewrite live_count_zset by done. rewrite Hb, (wf_cur _ Hwf). simpl. lia.
  - wp_step. rewrite zset_id by done. done.
Qed.

Lemma release_where_spec p s :
  wf (mem s) ->
  wp (release_where p) s (fun _ s' => wf (mem s') /\
    held (mem s') = filter (fun e => p e = false) (held (mem s)) /\
    undoes (mem s) (undoRecords s) (mem s') (undoRecords s') /\
    zlen (entries (mem s')) = zlen (entries (mem s))).
Proof.
  intros Hwf. unfold release_where. wp_steps. pose proof (numEntries_zlen _ Hwf) as Hn.
  eapply wp_mono; [apply (wp_for_up (fun i s' => wf (mem s') /\
    zlen (entries (mem s')) = zlen (entries (mem s)) /\
    undoes (mem s) (undoRecords s) (mem s') (undoRecords s') /\
    forall j, zget (entries (mem s')) j
              = (if j <? i then freed p <$> zget (entries (mem s)) j else zget (entries (mem s)) j)))|].
  - split_and!; try done. intros j.
    destruct (Z.ltb_spec j 0); [|done]. rewrite zget_None; [done|lia].
  - intros i s1 Hi (Hw1 & Hz1 & Hu1 & Hg1).
    destruct (zget_is_Some (entries (mem s)) i) as [e He]; [unfold zlen in *; lia|].
    pose proof (Hg1 i) as Hgi. rewrite Z.ltb_irrefl, He in Hgi.
    eapply wp_mono; [by apply (release_slot_spec p _ _ e)|].
    intros [] s2 (Hw2 & Hs2 & Hf2). split_and!; try done; [by rewrite Hs2, zlen_zset|by eapply undoes_trans|].
    intros j. rewrite Hs2. destruct (decide (j = i)) as [->|Hne].
    + rewrite zget_zset_eq by (rewrite Hz1; by eapply zget_Some_range).
      destruct (Z.ltb_spec i (i + 1)); [|lia]. by rewrite He.
    + rewrite zget_zset_ne by done. rewrite Hg1.
      destruct (Z.ltb_spec j i), (Z.ltb_spec j (i + 1)); (done || lia).
  - intros [] s' (Hw & Hz & Hu & Hg). cbn beta. split_and!; try done.
    assert (Hes : entries (mem s') = freed p <$> entries (mem s)).
    { apply zget_ext. intros j. rewrite Hg, zget_fmap.
      destruct (Z.ltb_spec j (0 + Z.of_nat (Z.to_nat (numEntries (mem s))))); [done|].
      rewrite zget_None; [done|lia]. }
    unfold held. rewrite Hes. clear. induction (entries (mem s)) as [|e es IH]; [done|].
    rewrite fmap_cons, !filter_cons, IH. unfold freed. destruct (busy e) eqn:Hb; simpl.
    + rewrite filter_cons. destruct (p e); simpl; rewrite ?Hb; done.
    + rewrite Hb. done.
Qed.

(** ** Reads *)
Lemma isLocked_spec l m :
  wf m -> isLocked l m = Val (bool_decide (Exists (fun e => intersects l e = true) (held m))).
Proof.
  intros Hwf. unfold isLocked. rewrite (numEntries_zlen _ Hwf).
  assert (Hgen : forall n i, 0 <= i -> i + Z.of_nat n = zlen (entries m) ->
    isLocked_from n i l m = Val (bool_decide
      (Exists (fun e => intersects l e = true) (filter (fun e => busy e = true) (drop (Z.to_nat i) (entries m)))))).
  { induction n as [|n IH]; intros i H0 Hi; simpl.
    - rewrite drop_ge by (unfold zlen in *; lia). done.
    - destruct (zget_is_Some (entries m) i) as [e He]; [lia|]. unfold aget. rewrite He. simpl.
      assert (Hd : drop (Z.to_nat i) (entries m) = e :: drop (Z.to_nat (i + 1)) (entries m)).
      { replace (Z.to_nat (i + 1)) with (S (Z.to_nat i)) by lia. apply drop_S.
        unfold zget in He. by destruct (i <? 0). }
      rewrite Hd, filter_cons. change (negb (size e =? 0)) with (busy e).
      destruct (busy e); simpl; [|apply IH; lia].
      destruct (intersects l e) eqn:Hx.
      + rewrite bool_decide_eq_true_2; [done|]. by constructor.
      + rewrite IH by lia. f_equal. apply bool_decide_ext. rewrite Exists_cons, Hx. naive_solver. }
  rewrite Hgen; [done|lia|unfold zlen; lia].
Qed.

Lemma getCurrentTxnIDs_spec m acc v :
  wf m -> v ∈ getCurrentTxnIDs m acc <-> v ∈ acc \/ exists e, e ∈ held m /\ txnID e = v.
Proof.
  intros Hwf. unfold getCurrentTxnIDs, held. rewrite (numEntries_zlen _ Hwf).
  rewrite take_ge by (unfold zlen; lia).
  rewrite elem_of_union, elem_of_list_to_set, list_elem_of_fmap.
  setoid_rewrite list_elem_of_filter. unfold busy.
  assert (Hb : forall e : CopyLockEntry, negb (size e =? 0) = true <-> size e <> 0).
  { intros e. destruct (Z.eqb_spec (size e) 0); naive_solver. }
  setoid_rewrite Hb. naive_solver.
Qed.
End CopyLocksThms.

Module CopyLocksClaims.
Import CopyLocks CopyLocksThms.

Inductive op :=
| OpLock (l : VSS.LBIDRange) (txn : Z)
| OpRelease (l : VSS.LBIDRange)
| OpForceRelease (l : VSS.LBIDRange)
| OpRollback (txn : Z).

Definition exec (o : op) : M t unit :=
  match o with
  | OpLock l txn => lockRange l txn
  | OpRelease l => releaseRange l
  | OpForceRelease l => forceRelease l
  | OpRollback txn => rollback txn
  end.

(** Block [b] belongs to the range. *)
Definition in_range (l : VSS.LBIDRange) (b : Z) : Prop :=
  VSS.r_start l <= b < VSS.r_start l + VSS.r_size l.

Definition covers (e : CopyLockEntry) (b : Z) : Prop := start e <= b < start e + size e.

(** The lock and the range share a block. *)
Definition meets (l : VSS.LBIDRange) (e : CopyLockEntry) : Prop := exists b, covers e b /\ in_range l b.

Lemma meets_iff l e :
  meets l e <-> Z.max (start e) (VSS.r_start l) < Z.min (start e + size e) (VSS.r_start l + VSS.r_size l).
Proof.
  unfold meets, covers, in_range. split; [intros (b & H1 & H2); lia|].
  intros H. exists (Z.max (start e) (VSS.r_start l)). lia.
Qed.

Global Instance meets_dec l e : Decision (meets l e).
Proof.
  refine (cast_if (decide (Z.max (start e) (VSS.r_start l) < Z.min (start e + size e) (VSS.r_start l + VSS.r_size l))));
    by rewrite meets_iff.
Defined.

(** The code's test of two last blocks decides it for ranges with a block. *)
Lemma intersects_meets l e :
  0 < VSS.r_size l -> 0 < size e -> intersects l e = true <-> meets l e.
Proof.
  intros Hl He. rewrite meets_iff. unfold intersects. rewrite andb_true_iff, !Z.leb_le. lia.
Qed.

(** A lock survives a release iff it shares no block with the released range,
    and a rollback iff another transaction holds it. *)
Definition spec_op (h : list CopyLockEntry) (o : op) : list CopyLockEntry :=
  match o with
  | OpLock l txn => mkEntry (VSS.r_start l) (VSS.r_size l) txn :: h
  | OpRelease l | OpForceRelease l => filter (fun e => ~ meets l e) h
  | OpRollback txn => filter (fun e => txnID e <> txn) h
  end.

Definition spec_run (ops : list op) (h : list CopyLockEntry) : list CopyLockEntry := foldl spec_op h ops.

(** The order of the slots does not matter. *)
Global Instance spec_op_Proper o : Proper ((≡ₚ) ==> (≡ₚ)) (fun h => spec_op h o).
Proof. intros h h' Hp. destruct o; simpl; by rewrite Hp. Qed.

Global Instance spec_run_Proper ops : Proper ((≡ₚ) ==> (≡ₚ)) (spec_run ops).
Proof.
  induction ops as [|o ops IH]; intros h h' Hp; [done|]. unfold spec_run in *. simpl.
  apply IH. by apply spec_op_Proper.
Qed.

Definition sized (o : op) : Prop :=
  match o with OpLock l _ => 0 < VSS.r_size l < 2 ^ 31 | _ => True end.

(** A released range has a block. *)
Definition nonempty (o : op) : Prop :=
  match o with OpRelease l | OpForceRelease l => 0 < VSS.r_size l | _ => True end.

(** Every lock has a block. *)
Definition blocks (h : list CopyLockEntry) : Prop := Forall (fun e => 0 < size e) h.

Lemma release_meets l h :
  0 < VSS.r_size l -> blocks h -> filter (fun e => intersects l e = false) h = filter (fun e => ~ meets l e) h.
Proof.
  intros Hl. induction 1 as [|e h He _ IH]; [done|]. rewrite !filter_cons, IH.
  pose proof (intersects_meets l e Hl He) as Hi. destruct (intersects l e); repeat case_decide; naive_solver.
Qed.

Lemma spec_op_blocks h o : sized o -> blocks h -> blocks (spec_op h o).
Proof.
  unfold blocks. intros Hs Hh. destruct o; simpl in *; [constructor; [simpl; lia|done]|..];
    rewrite Forall_forall in *; intros e [_ He]%list_elem_of_filter; by apply Hh.
Qed.

Lemma spec_op_length h o : zlen (spec_op h o) <= zlen h + 1.
Proof.
  unfold zlen. destruct o as [l txn|l|l|txn]; simpl; [lia|..].
  - pose proof (length_filter (fun e => ~ meets l e) h). lia.
  - pose proof (length_filter (fun e => ~ meets l e) h). lia.
  - pose proof (length_filter (fun e => txnID e <> txn) h). lia.
Qed.

Lemma cl_exec_spec s o :
  wf (mem s) -> sized o -> nonempty o -> blocks (held (mem s)) -> can_hold 1 (mem s) ->
  wp (exec o) s (fun _ s' => wf (mem s') /\ held (mem s') ≡ₚ spec_op (held (mem s)) o).
Proof.
  intros Hwf Hs Hne Hb Hr. destruct o as [l txn|l|l|txn]; simpl in *.
  - eapply wp_mono; [by apply lockRange_spec|]. naive_solver.
  - eapply wp_mono; [by apply release_where_spec|]. intros [] s' (? & -> & _). by rewrite release_meets.
  - eapply wp_mono; [by apply release_where_spec|]. intros [] s' (? & -> & _). by rewrite release_meets.
  - eapply wp_mono; [by apply release_where_spec|]. intros [] s' (? & -> & _). split; [done|].
    erewrite list_filter_iff; [done|]. intros e. by rewrite Z.eqb_neq.
Qed.

(** C36. Refinement of the slot table by a multiset of locks: every sequence of
    lock, release, forced release and rollback over ranges that have at least one
    block and, where they are locked, fewer than 2^31, runs to completion (a full
    table grows; the "could not find an empty copylock entry" throw is unreachable)
    and leaves exactly the locks of the abstract run, in some order: a release ends
    the locks that share a block with the released range and no other, whoever holds
    them, a rollback those of its transaction.  The locks held before have a block
    each, and with one more per operation stay under the 2^27 - 49 that a table of
    an [int]'s bytes can hold. *)
Theorem copylocks_ops_refine ops : forall s,
  wf (mem s) -> blocks (held (mem s)) -> can_hold (Z.of_nat (length ops)) (mem s) ->
  Forall sized ops -> Forall nonempty ops ->
  wp (for_each ops exec) s (fun _ s' =>
    wf (mem s') /\ held (mem s') ≡ₚ spec_run ops (held (mem s))).
Proof.
  induction ops as [|o ops IH]; intros s Hwf Hb Hr Hs Hn; simpl; [done|].
  apply Forall_cons in Hs as [Ho Hs]. apply Forall_cons in Hn as [Hno Hn]. unfold can_hold in *. simpl length in Hr.
  wp_step. eapply wp_mono; [apply cl_exec_spec; try done; unfold can_hold; lia|].
  intros [] s1 [Hw1 Hh1]. eapply wp_mono; [apply IH; try done|].
  { unfold blocks. rewrite Hh1. by apply spec_op_blocks. }
  { pose proof (spec_op_length (held (mem s)) o). unfold zlen in *. rewrite Hh1. lia. }
  intros [] s2 [Hw2 Hh2].
  split; [done|]. rewrite Hh2. by apply spec_run_Proper.
Qed.

(** The empty table before the first segment is created. *)
Definition obj0 : t := mk (mkMem (mkMST 0 0 0) []) [].

Lemma obj0_wf : wf (mem obj0).
Proof. done. Qed.

Lemma copylocks_ops_refine_witness :
  wp (for_each [OpLock (VSS.mkRange 10 5) 3; OpLock (VSS.mkRange 20 5) 4; OpRelease (VSS.mkRange 12 1)] exec)
     obj0 (fun _ s' => wf (mem s') /\ held (mem s') ≡ₚ [mkEntry 20 5 4]).
Proof.
  apply (copylocks_ops_refine [OpLock (VSS.mkRange 10 5) 3; OpLock (VSS.mkRange 20 5) 4;
    OpRelease (VSS.mkRange 12 1)] obj0 obj0_wf).
  - constructor.
  - reflexivity.
  - repeat constructor; simpl; lia.
  - repeat constructor; simpl; lia.
Defined.

(** [isLocked] is exact: it answers yes iff some held lock shares a block
    with the asked range. *)
Theorem copylocks_isLocked_exact m l :
  wf m -> 0 < VSS.r_size l -> Forall (fun e => 0 < size e) (held m) ->
  exists b, isLocked l m = Val b /\
    (b = true <-> exists e, e ∈ held m /\ meets l e).
Proof.
  intros Hwf Hl Hpos. rewrite isLocked_spec by done. eexists. split; [done|].
  rewrite bool_decide_eq_true, Exists_exists. rewrite Forall_forall in Hpos.
  split; intros (e & He & Hi); exists e; (split; [done|]); apply intersects_meets in Hi; auto.
Qed.

Lemma copylocks_isLocked_exact_witness :
  isLocked (VSS.mkRange 12 1) (mkMem (mkMST 0 32 16) [blank; mkEntry 10 5 3]) = Val true /\
  exists b, isLocked (VSS.mkRange 12 1) (mkMem (mkMST 0 32 16) [blank; mkEntry 10 5 3]) = Val b /\
    (b = true <-> exists e, e ∈ held (mkMem (mkMST 0 32 16) [blank; mkEntry 10 5 3]) /\
       meets (VSS.mkRange 12 1) e).
Proof.
  split; [reflexivity|]. apply copylocks_isLocked_exact.
  - done.
  - simpl. lia.
  - repeat constructor; simpl; lia.
Defined.

(** One operation on a table with a free slot. *)
Lemma exec_undoes s o :
  wf (mem s) -> sized o -> currentSize (shminfo (mem s)) < allocdSize (shminfo (mem s)) ->
  wp (exec o) s (fun _ s1 => wf (mem s1) /\
    undoes (mem s) (undoRecords s) (mem s1) (undoRecords s1) /\
    allocdSize (shminfo (mem s1)) = allocdSize (shminfo (mem s)) /\
    currentSize (shminfo (mem s1)) <= currentSize (shminfo (mem s)) + 16).
Proof.
  intros Hwf Hs Hroom.
  assert (Hrel : forall p, wp (release_where p) s (fun _ s1 => wf (mem s1) /\
    undoes (mem s) (undoRecords s) (mem s1) (undoRecords s1) /\
    allocdSize (shminfo (mem s1)) = allocdSize (shminfo (mem s)) /\
    currentSize (shminfo (mem s1)) <= currentSize (shminfo (mem s)) + 16)).
  { intros p. eapply wp_mono; [by apply release_where_spec|]. intros [] s1 (Hw1 & Hh1 & Hu1 & Hz).
    split_and!; try done.
    - by rewrite (wf_alloc _ Hw1), (wf_alloc _ Hwf), Hz.
    - rewrite (wf_cur _ Hw1), (wf_cur _ Hwf), <- !held_zlen, Hh1. unfold zlen, sizeof_CopyLockEntry.
      pose proof (length_filter (fun e => p e = false) (held (mem s))). lia. }
  destruct o as [l txn|l|l|txn]; simpl in *; try apply Hrel.
  eapply wp_mono; [apply lockRange_spec; [done..|lia]|]. intros [] s1 (Hw1 & Hh1 & Hu1 & Hz).
  split_and!; try done; [apply Hu1; lia|rewrite (wf_alloc _ Hw1), (wf_alloc _ Hwf), Hz; [done|lia]|].
  rewrite (wf_cur _ Hw1), (wf_cur _ Hwf), <- !held_zlen. apply Permutation_length in Hh1.
  unfold zlen, sizeof_CopyLockEntry. rewrite Hh1. simpl. lia.
Qed.

(** The undo log of the copy locks is exact: while the table has a free slot
    for every lock taken, running the sequence and then [undoChanges] restores
    slots, counters and log exactly. *)
Theorem copylocks_undo_restores ops s :
  wf (mem s) -> undoRecords s = [] -> Forall sized ops ->
  currentSize (shminfo (mem s)) + sizeof_CopyLockEntry * Z.of_nat (length ops) <= allocdSize (shminfo (mem s)) ->
  wp (for_each ops exec ;; undo) s (fun _ s' => s' = s).
Proof.
  intros Hwf Hr Hs Hroom. wp_step.
  eapply (wp_mono _ _ (fun _ s' => undoes (mem s) (undoRecords s) (mem s') (undoRecords s'))).
  - clear Hr. revert s Hwf Hs Hroom. induction ops as [|o ops IH]; intros s Hwf Hs Hroom; simpl; [apply wp_ret, undoes_refl|].
    apply Forall_cons in Hs as [Ho Hs]. wp_step. unfold sizeof_CopyLockEntry in *. simpl length in Hroom.
    eapply wp_mono; [apply exec_undoes; [done..|lia]|]. intros [] s1 (Hw1 & Hu1 & Ha1 & Hc1).
    eapply wp_mono; [apply IH; [done..|lia]|]. intros [] s2 Hu2. by eapply undoes_trans.
  - intros [] s1 Hu. rewrite Hr in Hu. unfold wp, undo. rewrite (undoes_undoChanges _ _ _ Hu).
    destruct s, s1. simpl in *. by subst.
Qed.

(** One slot in use, one free. *)
Definition obj1 : t := mk (mkMem (mkMST 0 32 16) [blank; mkEntry 10 5 3]) [].

Lemma copylocks_undo_restores_witness :
  wp (for_each [OpRollback 3] exec ;; undo) obj1 (fun _ s' => s' = obj1).
Proof.
  apply (copylocks_undo_restores [OpRollback 3] obj1).
  - done.
  - done.
  - repeat constructor.
  - vm_compute. done.
Defined.
End CopyLocksClaims.
