(* ===== verification/SlaveNode.v ===== *)
(** * The worker node's version-buffer operations

    versioning/BRM/slavedbrmnode.cpp: the entry points through which the BRM
    controller drives the VBBM, the VSS and the copy locks, and the two
    operations that span the VBBM and the VSS ([VBBM::getBlocks] and
    [VSS::removeEntriesFromDB]).

    [locked] are the node's flags for the write locks it holds until
    [confirmChanges] or [undoChanges]; [flushes] lists the calls of
    [cacheutils::flushPrimProcAllverBlocks], newest last.  The extent map the node
    also owns is not part of this state. *)

From S2P Require Import Prelude Chain Hasher Undoable Vbbm Vss CopyLocks.
From stdpp Require Import prelude gmap strings.
Local Open Scope Z_scope.

Module SlaveNode.

Record node := mk {
  vbbm : VBBM.t; vss : VSS.t; copylocks : CopyLocks.t;
  locked0 : bool; locked1 : bool; locked2 : bool; flushes : list (list Z) }.

Definition set_vbbm x n := mk x (vss n) (copylocks n) (locked0 n) (locked1 n) (locked2 n) (flushes n).
Definition set_vss x n := mk (vbbm n) x (copylocks n) (locked0 n) (locked1 n) (locked2 n) (flushes n).
Definition set_cl x n := mk (vbbm n) (vss n) x (locked0 n) (locked1 n) (locked2 n) (flushes n).
Definition set_locked0 b n := mk (vbbm n) (vss n) (copylocks n) b (locked1 n) (locked2 n) (flushes n).
Definition set_locked1 b n := mk (vbbm n) (vss n) (copylocks n) (locked0 n) b (locked2 n) (flushes n).
Definition set_locked2 b n := mk (vbbm n) (vss n) (copylocks n) (locked0 n) (locked1 n) b (flushes n).
Definition add_flush l n :=
  mk (vbbm n) (vss n) (copylocks n) (locked0 n) (locked1 n) (locked2 n) (flushes n ++ [l]).

Definition inVBBM {A} (m : M VBBM.t A) : M node A := zoom vbbm set_vbbm m.
Definition inVSS {A} (m : M VSS.t A) : M node A := zoom vss set_vss m.
Definition inCL {A} (m : M CopyLocks.t A) : M node A := zoom copylocks set_cl m.

(** ** Locks

    [lock(WRITE)] creates the segment if there is none yet. *)
Definition attach_vbbm : M node unit :=
  absent ← gets (fun n => VBBM.allocdSize (vbbm n) =? 0);
  if (absent : bool) then inVBBM (VBBM.growVBBM false) else mret tt.

Definition attach_vss : M node unit :=
  absent ← gets (fun n => VSS.allocdSize (vss n) =? 0);
  if (absent : bool) then inVSS VSS.growVSS else mret tt.

Definition attach_cl : M node unit :=
  absent ← gets (fun n => CopyLocks.allocdSize (CopyLocks.shminfo (CopyLocks.mem (copylocks n))) =? 0);
  if (absent : bool) then inCL CopyLocks.growCL else mret tt.

Definition lock_vbbm : M node unit := attach_vbbm ;; modify (set_locked0 true).
Definition lock_vss : M node unit := attach_vss ;; modify (set_locked1 true).
Definition lock_cl : M node unit := attach_cl ;; modify (set_locked2 true).

Definition ERR_OLDTXN_OVERWRITING_NEWTXN : Z := 17.
Definition ERR_VBBM_OVERFLOW : Z := 8.

(** ** Writing a block *)

(** The body of [writeVBEntry] and of the loop of [bulkWriteVBEntry]; [Some c]
    is a [return c]. *)
Definition write_block (transID lbid vbOID vbFBO : Z) : M node (option Z) :=
  '(oldVerID, _) ← lift (fun n => VSS.getCurrentVersion lbid (VSS.seg (vss n)));
  if oldVerID =? transID then mret None
  else if transID <? oldVerID then mret (Some ERR_OLDTXN_OVERWRITING_NEWTXN)
  else
    inVBBM (VBBM.insert lbid oldVerID vbOID vbFBO false) ;;
    (if 0 <? oldVerID then inVSS (VSS.setVBFlag lbid oldVerID true)
     else inVSS (VSS.insert lbid oldVerID true false false)) ;;
    inVSS (VSS.insert lbid transID false true false) ;;
    mret None.

Definition writeVBEntry (transID lbid vbOID vbFBO : Z) : M node Z :=
  try_catch
    (lock_vbbm ;; lock_vss ;;
     r ← write_block transID lbid vbOID vbFBO;
     mret (default 0 r))
    (fun _ => mret (-1)).

Fixpoint write_blocks (transID vbOID : Z) (lbids vbFBOs : list Z) : M node (option Z) :=
  match lbids with
  | [] => mret None
  | l :: lbids' =>
      fbo ← lift (fun _ => aget vbFBOs 0);
      r ← write_block transID l vbOID fbo;
      match r with
      | Some c => mret (Some c)
      | None => write_blocks transID vbOID lbids' (tail vbFBOs)
      end
  end.

Definition bulkWriteVBEntry (transID : Z) (lbids : list Z) (vbOID : Z) (vbFBOs : list Z) : M node Z :=
  try_catch
    (lock_vbbm ;; lock_vss ;;
     r ← write_blocks transID vbOID lbids vbFBOs;
     mret (default 0 r))
    (fun _ => mret (-1)).

(** ** Reserving version-buffer space: [VBBM::getBlocks] *)
Record VBRange := mkVBRange { vr_oid : Z; vr_fbo : Z; vr_size : Z }.

Definition BLOCK_SIZE : Z := 8192.
Definition VBBM_CHUNK_SIZE : Z := 100.

(** The loop that takes blocks from the file round-robin. *)
Fixpoint gather (fuel : nat) (fileIndex num blocksGathered : Z) : M VBBM.t (list VBRange) :=
  if num <=? blocksGathered then mret []
  else match fuel with
  | O => fail_with OutOfFuel
  | S fuel' =>
      f ← lift (fun s => aget (VBBM.files (VBBM.seg s)) fileIndex);
      let blocksLeftInFile := i32 (u64 (VBBM.fileSize f - VBBM.nextOffset f) / BLOCK_SIZE) in
      let blocksLeft := num - blocksGathered in
      let range := mkVBRange (VBBM.OID f) (u32 (VBBM.nextOffset f / BLOCK_SIZE))
                     (u32 (if blocksLeft <=? blocksLeftInFile then blocksLeft else blocksLeftInFile)) in
      VBBM.makeUndo (fun k => VBBM.LFile k fileIndex) ;;
      modify (fun s => VBBM.set_seg (VBBM.set_files (zset (VBBM.files (VBBM.seg s)) fileIndex
        (VBBM.mkFile (VBBM.OID f) (VBBM.fileSize f)
           (if vr_size range =? u32 blocksLeftInFile then 0
            else u64 (VBBM.nextOffset f + vr_size range * BLOCK_SIZE)))) (VBBM.seg s)) s) ;;
      rest ← gather fuel' fileIndex num (i32 (blocksGathered + vr_size range));
      mret (range :: rest)
  end.

(** Age entry [i] out if it lies in [firstFBO, lastFBO] of file [oid]. *)
Definition age_entry (oid firstFBO lastFBO i : Z) : M node (list Z) :=
  e ← lift (fun n => aget (VBBM.storage (VBBM.seg (vbbm n))) i);
  if negb (VBBM.lbid e =? -1) && (VBBM.vbOID e =? oid) && (firstFBO <=? VBBM.vbFBO e)
     && (VBBM.vbFBO e <=? lastFBO)
  then
    lk ← lift (fun n => VSS.isEntryLocked (VBBM.lbid e) (VBBM.verID e) (VSS.seg (vss n)));
    if (lk : bool) then throw (vbbm_buffer_overflow "VBBM::getBlocks(): version buffer overflow")
    else
      fl ← inVSS (VSS.removeEntry (VBBM.lbid e) (VBBM.verID e));
      inVBBM (VBBM.removeEntry (VBBM.lbid e) (VBBM.verID e)) ;;
      mret fl
  else mret [].

Fixpoint age_entries (n : nat) (i oid firstFBO lastFBO : Z) : M node (list Z) :=
  match n with
  | O => mret []
  | S n' =>
      fl ← age_entry oid firstFBO lastFBO i;
      rest ← age_entries n' (i + 1) oid firstFBO lastFBO;
      mret (fl ++ rest)
  end.

(** The blocks to clear for one returned range: the chunks it enters. *)
Definition age_window (fileSize : Z) (r : VBRange) : option (Z * Z) :=
  let firstFBO := vr_fbo r in
  let lastFBO := u32 (vr_fbo r + vr_size r - 1) in
  let firstChunk := firstFBO / VBBM_CHUNK_SIZE in
  let lastChunk := lastFBO / VBBM_CHUNK_SIZE in
  if negb (firstFBO mod VBBM_CHUNK_SIZE =? 0) && (firstChunk =? lastChunk) then None
  else
    let firstFBO := if negb (firstFBO mod VBBM_CHUNK_SIZE =? 0)
                    then u32 ((firstChunk + 1) * VBBM_CHUNK_SIZE) else firstFBO in
    let lastFBO := u32 ((lastChunk + 1) * VBBM_CHUNK_SIZE - 1) in
    Some (firstFBO, if fileSize / BLOCK_SIZE <? lastFBO then u32 (fileSize / BLOCK_SIZE) else lastFBO).

Fixpoint age_ranges (fileIndex : Z) (freeRanges : list VBRange) : M node (list Z) :=
  match freeRanges with
  | [] => mret []
  | r :: rs =>
      f ← lift (fun n => aget (VBBM.files (VBBM.seg (vbbm n))) fileIndex);
      fl ← match age_window (VBBM.fileSize f) r with
           | None => mret []
           | Some (firstFBO, lastFBO) =>
               cap ← gets (fun n => VBBM.vbCapacity (VBBM.hdr (VBBM.seg (vbbm n))));
               age_entries (Z.to_nat cap) 0 (vr_oid r) firstFBO lastFBO
           end;
      rest ← age_ranges fileIndex rs;
      mret (fl ++ rest)
  end.

(** [while ((vbCurrentSize + num) > vbCapacity) growVBBM();] *)
Fixpoint grow_for (fuel : nat) (num : Z) : M VBBM.t unit :=
  short ← gets (fun s => VBBM.vbCapacity (VBBM.hdr (VBBM.seg s)) <? VBBM.vbCurrentSize (VBBM.hdr (VBBM.seg s)) + num);
  if (short : bool) then
    match fuel with
    | O => fail_with OutOfFuel
    | S f => VBBM.growVBBM false ;; grow_for f num
    end
  else mret tt.

(** Each growth adds 10000 entries, each round of [gather] but the first at
    least one block: [num + 2] rounds are enough for both. *)
Definition getBlocks (num vbOID : Z) (flushPMCache : bool) : M node (list VBRange) :=
  fileIndex ← inVBBM (VBBM.addVBFileIfNotExists vbOID);
  f ← lift (fun n => aget (VBBM.files (VBBM.seg (vbbm n))) fileIndex);
  if VBBM.fileSize f / BLOCK_SIZE <? u32 num
  then throw (vbbm_buffer_overflow "VBBM::getBlocks(): num is larger than the size of the version buffer")
  else
    let fuel := Z.to_nat (num + 2) in
    inVBBM (grow_for fuel num) ;;
    freeRanges ← inVBBM (gather fuel fileIndex num 0);
    flushList ← age_ranges fileIndex freeRanges;
    (if flushPMCache && negb (bool_decide (flushList = [])) then modify (add_flush flushList) else mret tt) ;;
    mret freeRanges.

(** ** Copying blocks into the version buffer *)

(** The local variable [lockedRanges] is part of the state: the handlers read
    it after a throw. *)
Record bstate := mkB { nd : node; lockedRanges : list bool }.
Definition set_nd n b := mkB n (lockedRanges b).
Definition inNode {A} (m : M node A) : M bstate A := zoom nd set_nd m.
Definition mark (i : Z) : M bstate unit :=
  modify (fun b => mkB (nd b) (zset (lockedRanges b) i true)).

Definition cl_isLocked (r : VSS.LBIDRange) : M node bool :=
  lift (fun n => CopyLocks.isLocked r (CopyLocks.mem (copylocks n))).

(** One pass over the ranges not locked yet: lock those that are free; the
    result says whether all are locked now. *)
Fixpoint lock_pass (txn : Z) (ranges : list VSS.LBIDRange) (i : Z) (allLocked : bool) : M bstate bool :=
  match ranges with
  | [] => mret allLocked
  | r :: rs =>
      mine ← lift (fun b => aget (lockedRanges b) i);
      ok ← (if (mine : bool) then mret true
            else b ← inNode (cl_isLocked r);
                 if (b : bool) then mret false
                 else inNode (inCL (CopyLocks.lockRange r txn)) ;; mark i ;; mret true);
      lock_pass txn rs (i + 1) (allLocked && ok)
  end.

(** Take the remaining ranges by force. *)
Fixpoint force_pass (txn : Z) (ranges : list VSS.LBIDRange) (i : Z) : M bstate unit :=
  match ranges with
  | [] => mret tt
  | r :: rs =>
      mine ← lift (fun b => aget (lockedRanges b) i);
      (if (mine : bool) then mret tt
       else inNode (inCL (CopyLocks.forceRelease r)) ;;
            inNode (inCL (CopyLocks.lockRange r txn)) ;; mark i) ;;
      force_pass txn rs (i + 1)
  end.

Definition maxRetries : Z := 60 * 1000000 / 50000.

Section copying.
(** What the other processes do to the shared tables while the node sleeps
    without its locks, and whether [beginVBCopy] ([true]) or
    [dmlLockLBIDRanges] is sleeping. *)
Context (others : node -> node).

Definition sleep (all3 : bool) : M node unit :=
  modify (set_locked2 false) ;;
  (if all3 then modify (set_locked1 false) ;; modify (set_locked0 false) else mret tt) ;;
  modify others ;;
  (if all3 then lock_vbbm ;; lock_vss else mret tt) ;;
  lock_cl.

(** [while (!allLocked && retries < maxRetries)], with [n] retries left; the
    result is whether the retries ran out. *)
Fixpoint grab (n : nat) (all3 : bool) (txn : Z) (ranges : list VSS.LBIDRange) : M bstate bool :=
  match n with
  | O => mret true
  | S n' =>
      allLocked ← lock_pass txn ranges 0 true;
      if (allLocked : bool) then mret false
      else inNode (sleep all3) ;; grab n' all3 txn ranges
  end.

(** The handlers' loop: release what was locked. *)
Fixpoint unlock_mine (ranges : list VSS.LBIDRange) (i : Z) : M bstate unit :=
  match ranges with
  | [] => mret tt
  | r :: rs =>
      mine ← lift (fun b => aget (lockedRanges b) i);
      (if (mine : bool) then inNode (inCL (CopyLocks.releaseRange r)) else mret tt) ;;
      unlock_mine rs (i + 1)
  end.

Definition take_ranges (all3 : bool) (txn : Z) (ranges : list VSS.LBIDRange) : M bstate unit :=
  timedOut ← grab (Z.to_nat maxRetries) all3 txn ranges;
  if (timedOut : bool) then force_pass txn ranges 0 else mret tt.

Fixpoint any_locked (transID : Z) (ranges : list VSS.LBIDRange) (g : VSS.Seg) : outcome bool :=
  match ranges with
  | [] => Val false
  | r :: rs => b ← VSS.isLocked r transID g; if (b : bool) then Val true else any_locked transID rs g
  end.

Definition run_local {A} (k : nat) (m : M bstate A) : M node A := fun n =>
  let '(r, b) := m (mkB n (replicate k false)) in (r, nd b).

(** [beginVBCopy]: the return code and the list of free ranges. *)
Definition beginVBCopy (transID vbOID : Z) (ranges : list VSS.LBIDRange) (flushPMCache : bool) :
    M node (Z * list VBRange) :=
  run_local (length ranges) (try_catch
    (inNode lock_vbbm ;; inNode lock_vss ;;
     lk ← inNode (lift (fun n => any_locked transID ranges (VSS.seg (vss n))));
     if (lk : bool) then mret (-1, [])
     else
       inNode lock_cl ;;
       take_ranges true transID ranges ;;
       let sum := foldr (fun r acc => VSS.r_size r + acc) 0 ranges in
       free ← inNode (getBlocks (i32 sum) vbOID flushPMCache);
       mret (0, free))
    (fun e => unlock_mine ranges 0 ;;
              mret (match e with vbbm_buffer_overflow _ => ERR_VBBM_OVERFLOW | _ => -1 end, []))).

Definition dmlLockLBIDRanges (ranges : list VSS.LBIDRange) (txnID : Z) : M node Z :=
  run_local (length ranges) (try_catch
    (inNode lock_cl ;; take_ranges false txnID ranges ;; mret 0)
    (fun _ => unlock_mine ranges 0 ;; mret (-1))).
End copying.

Definition endVBCopy (transID : Z) (ranges : list VSS.LBIDRange) : M node Z :=
  try_catch (lock_cl ;; for_each ranges (fun r => inCL (CopyLocks.releaseRange r)) ;; mret 0)
    (fun _ => mret (-1)).

Definition dmlReleaseLBIDRanges (ranges : list VSS.LBIDRange) : M node Z :=
  try_catch (lock_cl ;; for_each ranges (fun r => inCL (CopyLocks.releaseRange r)) ;; mret 0)
    (fun _ => mret (-1)).

(** ** Commit and rollback *)
Definition vbCommit (transID : Z) : M node Z :=
  try_catch (lock_vss ;; inVSS (VSS.commit transID) ;; mret 0) (fun _ => mret (-1)).

(** The body of both [vbRollback] loops; the result is what is appended to
    [flushList]. *)
Definition rollback_block (transID lbid : Z) : M node (list Z) :=
  oldVerID ← lift (fun n => VSS.getHighestVerInVB lbid transID (VSS.seg (vss n)));
  (if negb (oldVerID =? -1)
   then inVBBM (VBBM.removeEntry lbid oldVerID) ;; inVSS (VSS.setVBFlag lbid oldVerID false)
   else mret tt) ;;
  inVSS (VSS.removeEntry lbid transID).

Fixpoint rollback_blocks (transID : Z) (lbids : list Z) : M node (list Z) :=
  match lbids with
  | [] => mret []
  | l :: ls => fl ← rollback_block transID l; rest ← rollback_blocks transID ls; mret (fl ++ rest)
  end.

(** The LBIDs a list of ranges stands for, in loop order. *)
Definition blocks_of (ranges : list VSS.LBIDRange) : list Z :=
  ranges ≫= fun r => (fun k => VSS.r_start r + Z.of_nat k) <$> seq 0 (Z.to_nat (VSS.r_size r)).

Definition vbRollback_lbids (transID : Z) (lbidList : list Z) (flushPMCache : bool) : M node Z :=
  try_catch
    (lock_vbbm ;; lock_vss ;; lock_cl ;;
     inCL (CopyLocks.rollback transID) ;;
     flushList ← rollback_blocks transID lbidList;
     (if flushPMCache && negb (bool_decide (flushList = [])) then modify (add_flush flushList) else mret tt) ;;
     mret 0)
    (fun _ => mret (-1)).

Definition vbRollback_ranges (transID : Z) (ranges : list VSS.LBIDRange) (flushPMCache : bool) : M node Z :=
  vbRollback_lbids transID (blocks_of ranges) flushPMCache.

(** ** End of a controller command *)
Definition confirmChanges : M node unit :=
  l0 ← gets locked0;
  (if (l0 : bool) then inVBBM VBBM.confirm ;; modify (set_locked0 false) else mret tt) ;;
  l1 ← gets locked1;
  (if (l1 : bool) then inVSS VSS.confirm ;; modify (set_locked1 false) else mret tt) ;;
  l2 ← gets locked2;
  (if (l2 : bool) then inCL CopyLocks.confirm ;; modify (set_locked2 false) else mret tt).

Definition undoChanges : M node unit :=
  l0 ← gets locked0;
  (if (l0 : bool) then inVBBM VBBM.undo ;; modify (set_locked0 false) else mret tt) ;;
  l1 ← gets locked1;
  (if (l1 : bool) then inVSS VSS.undo ;; modify (set_locked1 false) else mret tt) ;;
  l2 ← gets locked2;
  (if (l2 : bool) then inCL CopyLocks.undo ;; modify (set_locked2 false) else mret tt).

(** [clear]: both tables are re-created empty; its locks are released at once. *)
Definition clear : M node Z :=
  try_catch (attach_vbbm ;; attach_vss ;; inVBBM VBBM.clear ;; inVSS VSS.clear ;; mret 0)
    (fun _ => mret (-1)).

(** ** [VSS::removeEntriesFromDB]: every version of the blocks of a range *)
Fixpoint purge_db (fuel : nat) (use_vbbm : bool) (l bucket prev index : Z) : M node unit :=
  if index =? -1 then mret tt
  else match fuel with
       | O => fail_with OutOfFuel
       | S f =>
           e ← lift (fun n => aget (VSS.storage (VSS.seg (vss n))) index);
           prev' ← (if VSS.lbid e =? l
                    then (if VSS.vbFlag e && use_vbbm
                          then inVBBM (VBBM.removeEntry (VSS.lbid e) (VSS.verID e)) else mret tt) ;;
                         inVSS (VSS.unlink bucket prev index) ;; inVSS (VSS.uncount index) ;; mret prev
                    else mret index);
           e' ← lift (fun n => aget (VSS.storage (VSS.seg (vss n))) index);
           purge_db f use_vbbm l bucket prev' (VSS.next e')
       end.

Definition removeEntriesFromDB (range : VSS.LBIDRange) (use_vbbm : bool) : M node unit :=
  inVSS (VSS.makeUndo VSS.LHeader) ;;
  for_up (Z.to_nat (VSS.r_size range)) (VSS.r_start range) (fun l =>
    bucket ← gets (fun n => bucket_of (VSS.hash_key l) (VSS.numHashBuckets (VSS.hdr (VSS.seg (vss n)))));
    head ← lift (fun n => aget (VSS.hashBuckets (VSS.seg (vss n))) bucket);
    fuel ← gets (fun n => length (VSS.storage (VSS.seg (vss n))));
    purge_db fuel use_vbbm l bucket (-1) head).

End SlaveNode.
