(* ===== verification/NodeThms.v ===== *)
(** * Multi-version correctness of the worker node

    The invariant that ties the VBBM to the VSS, what the write, rollback and
    commit entry points do to the two maps, and what readers see. *)

From S2P Require Import Prelude Chain Undoable Vbbm VbbmThms Vss VssThms CopyLocks CopyLocksClaims SlaveNode.
From stdpp Require Import prelude gmap strings.
Local Open Scope Z_scope.

Module NodeThms.
Import SlaveNode.
Import VSSThms (visible, resolves, in_use, without, without_lookup, remove_spec, commit_spec, unlock).

(** ** The version maps *)
Abbreviation vbmap := (gmap (Z * Z) (Z * Z)).
Abbreviation vsmap := (gmap (Z * Z) (bool * bool)).

(** What the two tables promise each other: a version is in the buffer iff the
    VBBM knows where; each block has at most one version in the main files,
    which is the newest one and has a positive number; a block with a buffered
    version has one; only that version can be locked. *)
Record inv (B : vbmap) (V : vsmap) : Prop := {
  inv_buf l v : is_Some (B !! (l, v)) <-> exists k, V !! (l, v) = Some (true, k);
  inv_key l v x : V !! (l, v) = Some x -> 0 <= l /\ 0 <= v;
  inv_one l v w k k' : V !! (l, v) = Some (false, k) -> V !! (l, w) = Some (false, k') -> v = w;
  inv_cur l v k : V !! (l, v) = Some (true, k) -> exists w k', V !! (l, w) = Some (false, k') /\ v < w;
  inv_pos l v k : V !! (l, v) = Some (false, k) -> 0 < v;
  inv_lock l v f : V !! (l, v) = Some (f, true) -> f = false }.

(** [cur] is the version of block [l] in the main files, [k] its lock flag;
    0 for a block the VSS does not know. *)
Definition current (V : vsmap) (l cur : Z) (k : bool) : Prop :=
  V !! (l, cur) = Some (false, k) \/ (cur = 0 /\ k = false /\ forall v, V !! (l, v) = None).

Definition wrote (t l cur : Z) (V : vsmap) : vsmap :=
  <[(l, t) := (false, true)]> (<[(l, cur) := (true, false)]> V).

Section write_maps.
Context (B : vbmap) (V : vsmap) (t l cur oid fbo : Z) (k : bool).
Context (Hinv : inv B V) (Hcur : current V l cur k).

(** No version of the block is newer than the current one. *)
Lemma versions_le v x : V !! (l, v) = Some x -> v <= cur.
Proof.
  intros Hv. destruct Hcur as [Hc|(_ & _ & Hno)]; [|by rewrite Hno in Hv].
  destruct x as [[] k'].
  - destruct (inv_cur _ _ Hinv _ _ _ Hv) as (w & k2 & Hw & Hlt).
    rewrite (inv_one _ _ Hinv _ _ _ _ _ Hc Hw). lia.
  - rewrite (inv_one _ _ Hinv _ _ _ _ _ Hc Hv). lia.
Qed.

Lemma cur_nonneg : 0 <= cur.
Proof.
  destruct Hcur as [Hc|(-> & _)]; [|lia]. pose proof (inv_pos _ _ Hinv _ _ _ Hc). lia.
Qed.

Lemma cur_not_buffered : B !! (l, cur) = None.
Proof.
  apply eq_None_not_Some. intros (k' & Hk)%(inv_buf _ _ Hinv).
  destruct Hcur as [Hc|(_ & _ & Hno)]; [congruence|]. by rewrite Hno in Hk.
Qed.

Lemma wrote_new : wrote t l cur V !! (l, t) = Some (false, true).
Proof. apply lookup_insert_eq. Qed.

Lemma wrote_other w v : (w, v) <> (l, t) -> (w, v) <> (l, cur) -> wrote t l cur V !! (w, v) = V !! (w, v).
Proof. intros. unfold wrote. by rewrite !lookup_insert_ne by done. Qed.

Lemma wrote_case w v x :
  wrote t l cur V !! (w, v) = Some x ->
  (w = l /\ v = t /\ x = (false, true)) \/ (w = l /\ v = cur /\ x = (true, false)) \/
  ((w, v) <> (l, t) /\ (w, v) <> (l, cur) /\ V !! (w, v) = Some x).
Proof.
  destruct (decide ((w, v) = (l, t))) as [[= -> ->]|Hne1].
  - rewrite wrote_new. intros [= <-]. by left.
  - destruct (decide ((w, v) = (l, cur))) as [[= -> ->]|Hne2].
    + unfold wrote. rewrite lookup_insert_ne, lookup_insert_eq by done. intros [= <-]. right; by left.
    + rewrite wrote_other by done. intros Hx. do 2 right. done.
Qed.

Hypothesis Hlt : cur < t.

Lemma wrote_old : wrote t l cur V !! (l, cur) = Some (true, false).
Proof. unfold wrote. rewrite lookup_insert_ne by (intros [= ?]; lia). apply lookup_insert_eq. Qed.

Lemma new_absent : V !! (l, t) = None.
Proof.
  apply eq_None_not_Some. intros [x Hx]. apply versions_le in Hx. lia.
Qed.

Lemma wrote_inv : 0 <= l -> inv (<[(l, cur) := (oid, fbo)]> B) (wrote t l cur V).
Proof.
  intros Hl. pose proof cur_nonneg as H0.
  assert (Hcur1 : forall v k0, V !! (l, v) = Some (false, k0) -> v = cur).
  { intros v k0 Hv. destruct Hcur as [Hc|(_ & _ & Hn)]; [|by rewrite Hn in Hv].
    by apply (inv_one _ _ Hinv _ _ _ _ _ Hv Hc). }
  split.
  - intros w v. split.
    + intros [x Hx]. destruct (decide ((w, v) = (l, cur))) as [[= -> ->]|Hne].
      { exists false. apply wrote_old. }
      rewrite lookup_insert_ne in Hx by done.
      destruct (proj1 (inv_buf _ _ Hinv w v)) as [k' Hk]; [by eexists|]. exists k'.
      rewrite wrote_other; [done| |done]. intros [= -> ->]. by rewrite new_absent in Hk.
    + intros [k' [(_ & _ & ?)|[(-> & -> & _)|(_ & Hne & Hv)]]%wrote_case]; [done|by rewrite lookup_insert_eq|].
      rewrite lookup_insert_ne by done. apply (inv_buf _ _ Hinv). eauto.
  - intros w v x [(-> & -> & _)|[(-> & -> & _)|(_ & _ & Hv)]]%wrote_case; [lia|lia|].
    by apply (inv_key _ _ Hinv _ _ _ Hv).
  - intros w v v' k1 k2 [(-> & -> & _)|[(_ & _ & ?)|(Hn1 & Hn2 & Hv)]]%wrote_case
      [(? & -> & _)|[(_ & _ & ?)|(Hn3 & Hn4 & Hv')]]%wrote_case; try done.
    + apply Hcur1 in Hv'. by subst.
    + subst. apply Hcur1 in Hv. by subst.
    + by apply (inv_one _ _ Hinv _ _ _ _ _ Hv Hv').
  - intros w v k1 Hw. destruct (decide (w = l)) as [->|Hne].
    + exists t, true. rewrite wrote_new. split; [done|].
      apply wrote_case in Hw as [(_ & _ & ?)|[(_ & -> & _)|(_ & _ & Hv)]]; [done|done|].
      apply versions_le in Hv. lia.
    + apply wrote_case in Hw as [(? & _)|[(? & _)|(_ & _ & Hv)]]; [done|done|].
      destruct (inv_cur _ _ Hinv _ _ _ Hv) as (v' & k' & Hv' & ?). exists v', k'.
      rewrite wrote_other by congruence. done.
  - intros w v k1 [(_ & -> & _)|[(_ & _ & ?)|(_ & _ & Hv)]]%wrote_case; [lia|done|].
    by apply (inv_pos _ _ Hinv _ _ _ Hv).
  - intros w v f [(_ & _ & ?)|[(_ & _ & ?)|(_ & _ & Hv)]]%wrote_case; [by simplify_eq|done|].
    by apply (inv_lock _ _ Hinv _ _ _ Hv).
Qed.
End write_maps.

(** ** Readers *)

(** A lookup's answer is determined by the map. *)
Lemma resolves_fun V l qc txn vbOnly r1 r2 :
  resolves (visible V l qc txn vbOnly) (VSS.currentScn qc) r1 ->
  resolves (visible V l qc txn vbOnly) (VSS.currentScn qc) r2 ->
  r1.1.1 = r2.1.1 /\ (r1.1.1 = 0 -> r1 = r2).
Proof.
  destruct r1 as [[c1 v1] f1], r2 as [[c2 v2] f2]. unfold resolves, VSS.ERR_SNAPSHOT_TOO_OLD. simpl.
  intros [(-> & Hv1 & Hs1 & Hm1)|[(-> & (w & g & Hw) & Hm1)|(-> & Hno1)]]
         [(-> & Hv2 & Hs2 & Hm2)|[(-> & (w' & g' & Hw') & Hm2)|(-> & Hno2)]]; try done.
  - split; [done|]. intros _. assert (v1 = v2) as ->.
    { specialize (Hm1 _ _ Hv2 Hs2). specialize (Hm2 _ _ Hv1 Hs1). lia. }
    destruct Hv1 as [[k1 Hk1] _], Hv2 as [[k2 Hk2] _]. congruence.
  - specialize (Hm2 _ _ Hv1). lia.
  - by destruct (Hno2 _ _ Hv1).
  - specialize (Hm1 _ _ Hv2). lia.
  - by destruct (Hno2 _ _ Hw).
  - by destruct (Hno1 _ _ Hv2).
  - by destruct (Hno1 _ _ Hw').
Qed.

Section readers.
Context (B : vbmap) (V : vsmap) (t l cur : Z).
Context (Hinv : inv B V) (Hcur : current V l cur false) (Hlt : cur < t).
(** A reader that may not see transaction [t]. *)
Context (qc : VSS.QueryContext) (txn : Z).
Context (Hopen : t ∈ VSS.txns qc) (Hother : txn <> t).

Lemma visible_wrote v f :
  visible (wrote t l cur V) l qc txn false v f <->
  v <> t /\ ((v = cur /\ f = true /\ (cur = txn \/ cur ∉ VSS.txns qc)) \/
            (v <> cur /\ visible V l qc txn false v f)).
Proof.
  unfold visible. split.
  - intros ([k Hk] & _ & Ht). apply wrote_case in Hk as [(_ & -> & _)|[(_ & -> & [= -> ->])|(Hn1 & Hn2 & Hv)]].
    + by destruct Ht.
    + split; [lia|]. by left.
    + split; [congruence|]. right. split; [congruence|]. split; [eauto|done].
  - intros (Hnt & [(-> & -> & Ht)|(Hnc & [k Hk] & _ & Ht)]).
    + split; [exists false; by apply wrote_old|done].
    + split; [|done]. exists k. rewrite wrote_other by congruence. done.
Qed.

(** The version a reader resolves does not change; if it was the current one
    it is now in the buffer. *)
Lemma resolves_wrote v f :
  resolves (visible V l qc txn false) (VSS.currentScn qc) (0, v, f) ->
  resolves (visible (wrote t l cur V) l qc txn false) (VSS.currentScn qc)
    (0, v, if v =? cur then true else f).
Proof.
  intros [(_ & Hv & Hs & Hm)|[(? & _)|(? & _)]]; [|done..]. left. split; [done|].
  pose proof Hv as ([k Hk] & _ & Ht). pose proof (versions_le _ _ _ _ _ Hinv Hcur _ _ Hk) as Hle.
  split_and!; [|done|].
  - apply visible_wrote. split; [lia|]. destruct (Z.eqb_spec v cur) as [->|]; [by left|by right].
  - intros v' f' (Hnt & [(-> & -> & Hc)|(Hnc & Hv')])%visible_wrote Hs'; [|eauto].
    destruct Hcur as [Hcv|(_ & _ & Hno)]; [|by rewrite Hno in Hk].
    apply (Hm cur false); [|done]. split; [eauto|done].
Qed.

(** A block the VSS did not know is read at version 0, now from the buffer. *)
Lemma resolves_wrote_new :
  (forall v, V !! (l, v) = None) -> cur <= VSS.currentScn qc -> cur ∉ VSS.txns qc ->
  resolves (visible (wrote t l cur V) l qc txn false) (VSS.currentScn qc) (0, cur, true).
Proof.
  intros Hno Hs H0. left. split_and!; try done.
  - apply visible_wrote. split; [lia|]. left. auto.
  - intros v' f' (_ & [(-> & _)|(_ & [k Hk] & _)])%visible_wrote _; [lia|]. by rewrite Hno in Hk.
Qed.
End readers.

(** The writer sees its own version. *)
Lemma resolves_own B V t l cur qc :
  inv B V -> current V l cur false -> cur < t -> t <= VSS.currentScn qc ->
  resolves (visible (wrote t l cur V) l qc t false) (VSS.currentScn qc) (0, t, false).
Proof.
  intros Hinv Hcur Hlt Hs. left. split_and!; try done.
  - split; [exists true; apply wrote_new|]. split; [done|by left].
  - intros v' f' [[k Hk] _] _. apply wrote_case in Hk as [(_ & -> & _)|[(_ & -> & _)|(_ & _ & Hv)]]; try lia.
    pose proof (versions_le _ _ _ _ _ Hinv Hcur _ _ Hv). lia.
Qed.

(** Other blocks are not affected. *)
Lemma visible_ext V V' l qc txn vbOnly :
  (forall v, V !! (l, v) = V' !! (l, v)) ->
  forall v f, visible V l qc txn vbOnly v f <-> visible V' l qc txn vbOnly v f.
Proof. intros H v f. unfold visible. by rewrite H. Qed.

(** ** The node *)
Definition B (n : node) : vbmap := VBBMThms.abs (VBBM.seg (vbbm n)).
Definition V (n : node) : vsmap := VSSThms.abs (VSS.seg (vss n)).

(** The three tables are well formed and allocated, and the maps agree. *)
Record node_ok (n : node) : Prop := {
  ok_vbbm : VBBMThms.wf (VBBM.seg (vbbm n));
  ok_vss : VSSThms.wf (VSS.seg (vss n));
  ok_cl : CopyLocksThms.wf (CopyLocks.mem (copylocks n));
  ok_vba : 0 < VBBM.allocdSize (vbbm n);
  ok_vsa : VSS.VSS_INITIAL_SIZE <= VSS.allocdSize (vss n);
  ok_cla : 0 < CopyLocks.allocdSize (CopyLocks.shminfo (CopyLocks.mem (copylocks n)));
  ok_inv : inv (B n) (V n) }.

(** The segments can still grow by what one write needs. *)
Definition growable (n : node) : Prop :=
  VBBMThms.can_grow 1 (vbbm n) /\ VSSThms.can_grow 2 (vss n).

(** One symbolic step of a node computation. *)
Ltac node_step :=
  first [ wp_step
        | lazymatch goal with
          | |- wp (inVBBM _) _ _ => apply wp_zoom
          | |- wp (inVSS _) _ _ => apply wp_zoom
          | |- wp (inCL _) _ _ => apply wp_zoom
          end ].

Lemma wp_lock_vbbm n (Q : unit -> node -> Prop) :
  0 < VBBM.allocdSize (vbbm n) -> Q tt (set_locked0 true n) -> wp lock_vbbm n Q.
Proof.
  intros H HQ. unfold lock_vbbm, attach_vbbm. wp_steps.
  destruct (Z.eqb_spec (VBBM.allocdSize (vbbm n)) 0); [lia|]. by wp_steps.
Qed.

Lemma wp_lock_vss n (Q : unit -> node -> Prop) :
  VSS.VSS_INITIAL_SIZE <= VSS.allocdSize (vss n) -> Q tt (set_locked1 true n) -> wp lock_vss n Q.
Proof.
  intros H HQ. unfold lock_vss, attach_vss. wp_steps.
  destruct (Z.eqb_spec (VSS.allocdSize (vss n)) 0) as [Hz|]; [|by wp_steps].
  rewrite Hz in H. by destruct H.
Qed.

Lemma wp_lock_cl n (Q : unit -> node -> Prop) :
  0 < CopyLocks.allocdSize (CopyLocks.shminfo (CopyLocks.mem (copylocks n))) ->
  Q tt (set_locked2 true n) -> wp lock_cl n Q.
Proof.
  intros H HQ. unfold lock_cl, attach_cl. wp_steps.
  destruct (Z.eqb_spec (CopyLocks.allocdSize (CopyLocks.shminfo (CopyLocks.mem (copylocks n)))) 0); [lia|].
  by wp_steps.
Qed.

Lemma getCurrentVersion_current n l :
  node_ok n -> exists cur k, VSS.getCurrentVersion l (VSS.seg (vss n)) = Val (cur, k) /\ current (V n) l cur k.
Proof.
  intros Hok. destruct (VSSThms.getCurrentVersion_spec (VSS.seg (vss n)) l (VSSThms.wf_tab _ _ _ (ok_vss _ Hok)))
    as [[Hg Hno]|(v & k & Hg & Hv)].
  - exists 0, false. split; [done|]. right. split_and!; try done. intros v.
    apply eq_None_not_Some. intros [[[] k] Hv].
    + destruct (inv_cur _ _ (ok_inv _ Hok) _ _ _ Hv) as (w & k' & Hw & _). by apply (Hno w k').
    + by apply (Hno v k).
  - exists v, k. split; [done|]. by left.
Qed.

(** The version map names the current version. *)
Lemma current_fun n l cur k :
  node_ok n -> current (V n) l cur k -> exists k', VSS.getCurrentVersion l (VSS.seg (vss n)) = Val (cur, k') /\
    (k' = k).
Proof.
  intros Hok Hc. destruct (getCurrentVersion_current n l Hok) as (c & k' & Hg & Hc').
  assert (c = cur /\ k' = k) as [-> ->].
  { destruct Hc as [Hc|(-> & -> & Hno)], Hc' as [Hc'|(-> & -> & Hno')].
    - assert (c = cur) as -> by (by eapply (inv_one _ _ (ok_inv _ Hok))). split; congruence.
    - by rewrite Hno' in Hc.
    - by rewrite Hno in Hc'.
    - done. }
  eauto.
Qed.

(** What a write leaves alone. *)
Definition same_rest (n n' : node) : Prop :=
  copylocks n' = copylocks n /\ locked0 n' = locked0 n /\ locked1 n' = locked1 n /\
  locked2 n' = locked2 n /\ flushes n' = flushes n.

Lemma write_block_stale n t l oid fbo cur k :
  node_ok n -> current (V n) l cur k -> t <= cur ->
  wp (write_block t l oid fbo) n (fun r n' => n' = n /\
    r = if cur =? t then None else Some ERR_OLDTXN_OVERWRITING_NEWTXN).
Proof.
  intros Hok Hc Hle. destruct (current_fun _ _ _ _ Hok Hc) as (k' & Hg & ->).
  unfold write_block. node_step. eapply wp_lift; [exact Hg|]. cbn beta iota.
  destruct (Z.eqb_spec cur t); [by wp_steps|]. destruct (Z.ltb_spec t cur); [by wp_steps|lia].
Qed.

(** The write proper: the old version moves to the buffer, the new one is
    locked. *)
Lemma write_block_spec n t l oid fbo cur :
  node_ok n -> growable n -> 0 <= l -> current (V n) l cur false -> cur < t ->
  wp (write_block t l oid fbo) n (fun r n' => r = None /\ node_ok n' /\
    B n' = <[(l, cur) := (oid, fbo)]> (B n) /\ V n' = wrote t l cur (V n) /\ same_rest n n').
Proof.
  intros Hok [Hgb Hgs] Hl Hc Hlt. destruct (current_fun _ _ _ _ Hok Hc) as (k' & Hg & ->).
  pose proof (cur_nonneg _ _ _ _ _ (ok_inv _ Hok) Hc) as H0.
  pose proof (new_absent _ _ _ _ _ _ (ok_inv _ Hok) Hc Hlt) as Hnew.
  unfold write_block. node_step. eapply wp_lift; [exact Hg|]. cbn beta iota.
  destruct (Z.eqb_spec cur t); [lia|]. destruct (Z.ltb_spec t cur); [lia|].
  node_step. node_step. eapply wp_mono; [apply VBBMThms.insert_spec|].
  { apply (ok_vbbm _ Hok). } { apply (ok_vba _ Hok). } { done. } { lia. }
  { apply (cur_not_buffered _ _ _ _ _ (ok_inv _ Hok) Hc). }
  intros [] b (Hwb & Hab & Hzb & _). node_step.
  set (n1 := set_vbbm b n).
  assert (Hflag : wp (if 0 <? cur then inVSS (VSS.setVBFlag l cur true) else inVSS (VSS.insert l cur true false false))
    n1 (fun _ n2 => vbbm n2 = b /\ same_rest n n2 /\ VSSThms.wf (VSS.seg (vss n2)) /\
      VSS.VSS_INITIAL_SIZE <= VSS.allocdSize (vss n2) /\
      VSSThms.can_grow 1 (vss n2) /\
      V n2 = <[(l, cur) := (true, false)]> (V n))).
  { destruct (Z.ltb_spec 0 cur); node_step.
    - destruct Hc as [Hc|(-> & _)]; [|lia].
      eapply wp_mono; [apply (VSSThms.setVBFlag_post _ _ _ _ false false); [apply (ok_vss _ Hok)|exact Hc]|].
      intros [] v [Hw Ha _ _ Hn _ Hz]. simpl. split_and!; try done; [rewrite Hz; apply (ok_vsa _ Hok)|].
      apply (VSSThms.vss_can_grow_step (vss n)); [rewrite Hn; simpl; lia|rewrite Hz; change VSS.VSS_INCREMENT with 500000; simpl; lia|done].
    - assert (cur = 0) as -> by lia.
      eapply wp_mono; [apply VSSThms.vss_insert_spec; [apply (ok_vss _ Hok)|apply (ok_vsa _ Hok)|by apply (VSSThms.vss_can_grow_le 1 2)|lia|]|].
      + destruct Hc as [Hc|(_ & _ & Hno)]; [pose proof (inv_pos _ _ (ok_inv _ Hok) _ _ _ Hc); lia|apply Hno].
      + intros [] v (Hw & Ha & Hz & Hn). simpl. split_and!; try done. by apply (Hn 1). }
  eapply wp_mono; [exact Hflag|]. intros [] n2 (Hb2 & Hr2 & Hw2 & Hz2 & Hn2 & Ha2).
  node_step. node_step. eapply wp_mono; [apply (VSSThms.vss_insert_spec _ l t false true false Hw2 Hz2 Hn2)|].
  { lia. } { change (VSSThms.abs _) with (V n2). rewrite Ha2, lookup_insert_ne; [done|]. intros [= ?]. lia. }
  intros [] v (Hw & Ha & Hz & _). node_step. split; [done|].
  assert (HB : VBBMThms.abs (VBBM.seg (vbbm n2)) = <[(l, cur) := (oid, fbo)]> (B n)) by (by rewrite Hb2).
  assert (HV : VSSThms.abs (VSS.seg v) = wrote t l cur (V n)).
  { rewrite Ha. change (VSSThms.abs _) with (V n2). by rewrite Ha2. }
  split; [|split_and!; try done].
  destruct Hr2 as (Hcl & _). split; simpl; try done.
  - by rewrite Hb2.
  - rewrite Hcl. apply (ok_cl _ Hok).
  - by rewrite Hb2.
  - rewrite Hcl. apply (ok_cla _ Hok).
  - unfold B, V. simpl. rewrite HB, HV. by apply wrote_inv with false; try apply (ok_inv _ Hok).
Qed.

(** The same with room in both segments: everything is logged. *)
Lemma write_block_room n t l oid fbo cur :
  node_ok n -> 0 <= l -> current (V n) l cur false -> cur < t ->
  VBBM.vbCurrentSize (VBBM.hdr (VBBM.seg (vbbm n))) < VBBM.vbCapacity (VBBM.hdr (VBBM.seg (vbbm n))) ->
  VSS.currentSize (VSS.hdr (VSS.seg (vss n))) + 2 <= VSS.capacity (VSS.hdr (VSS.seg (vss n))) ->
  wp (write_block t l oid fbo) n (fun r n' => r = None /\ same_rest n n' /\
    (exists m, VBBMThms.op_post (vbbm n) (vbbm n') m) /\ (exists m, VSSThms.op_post (vss n) (vss n') m)).
Proof.
  intros Hok Hl Hc Hlt Hrb Hrs. destruct (current_fun _ _ _ _ Hok Hc) as (k' & Hg & ->).
  pose proof (cur_nonneg _ _ _ _ _ (ok_inv _ Hok) Hc) as H0.
  pose proof (new_absent _ _ _ _ _ _ (ok_inv _ Hok) Hc Hlt) as Hnew.
  unfold write_block. node_step. eapply wp_lift; [exact Hg|]. cbn beta iota.
  destruct (Z.eqb_spec cur t); [lia|]. destruct (Z.ltb_spec t cur); [lia|].
  node_step. node_step. eapply wp_mono; [apply VBBMThms.insert_room; try done|].
  { apply (ok_vbbm _ Hok). } { lia. } { apply (cur_not_buffered _ _ _ _ _ (ok_inv _ Hok) Hc). }
  intros [] b [Hpb _]. node_step.
  set (n1 := set_vbbm b n).
  assert (Hflag : wp (if 0 <? cur then inVSS (VSS.setVBFlag l cur true) else inVSS (VSS.insert l cur true false false))
    n1 (fun _ n2 => vbbm n2 = b /\ same_rest n n2 /\
      VSSThms.op_post (vss n) (vss n2) (<[(l, cur) := (true, false)]> (V n)) /\
      VSS.currentSize (VSS.hdr (VSS.seg (vss n2))) <= VSS.currentSize (VSS.hdr (VSS.seg (vss n))) + 1)).
  { destruct (Z.ltb_spec 0 cur); node_step.
    - destruct Hc as [Hc|(-> & _)]; [|lia].
      eapply wp_mono; [apply (VSSThms.setVBFlag_post _ _ _ _ false false); [apply (ok_vss _ Hok)|exact Hc]|].
      intros [] v Hp. simpl. split_and!; try done.
      rewrite <- (VSSThms.size_abs _ (ok_vss _ Hok)), <- (VSSThms.size_abs _ (VSSThms.op_wf _ _ _ Hp)).
      rewrite (VSSThms.op_abs _ _ _ Hp). rewrite map_size_insert_Some; [simpl; lia|]. by eexists.
    - assert (cur = 0) as -> by lia.
      eapply wp_mono; [apply VSSThms.vss_insert_room; [apply (ok_vss _ Hok)|simpl; lia|lia|]|].
      + destruct Hc as [Hc|(_ & _ & Hno)]; [pose proof (inv_pos _ _ (ok_inv _ Hok) _ _ _ Hc); lia|apply Hno].
      + intros [] v [Hp Hs]. simpl in *. split_and!; try done. lia. }
  eapply wp_mono; [exact Hflag|]. intros [] n2 (Hb2 & Hr2 & Hp2 & Hs2).
  node_step. node_step. eapply wp_mono; [apply (VSSThms.vss_insert_room _ l t false true (VSSThms.op_wf _ _ _ Hp2))|].
  { rewrite (VSSThms.op_cap _ _ _ Hp2). lia. } { lia. }
  { rewrite (VSSThms.op_abs _ _ _ Hp2), lookup_insert_ne; [done|]. intros [= ?]. lia. }
  intros [] v [Hpv _]. node_step. split; [done|]. split; [done|]. simpl. rewrite Hb2.
  split; [by eexists|]. eexists. by eapply VSSThms.vss_op_post_trans.
Qed.

(** *** Whole commands *)
Lemma writeVBEntry_stale n t l oid fbo cur k :
  node_ok n -> current (V n) l cur k -> t <= cur ->
  wp (writeVBEntry t l oid fbo) n (fun c n' =>
    c = (if cur =? t then 0 else ERR_OLDTXN_OVERWRITING_NEWTXN) /\
    n' = set_locked1 true (set_locked0 true n)).
Proof.
  intros Hok Hc Hle. unfold writeVBEntry. wp_step. wp_step.
  apply wp_lock_vbbm; [apply (ok_vba _ Hok)|]. wp_step. apply wp_lock_vss; [apply (ok_vsa _ Hok)|]. wp_step.
  eapply wp_mono; [eapply (write_block_stale _ t l oid fbo cur k)|]; try done.
  - destruct Hok. by split.
  - intros r n' [-> ->]. wp_step. split; [|done]. by destruct (cur =? t).
Qed.

Lemma writeVBEntry_spec n t l oid fbo cur :
  node_ok n -> growable n -> 0 <= l -> current (V n) l cur false -> cur < t ->
  wp (writeVBEntry t l oid fbo) n (fun c n' => c = 0 /\ node_ok n' /\
    B n' = <[(l, cur) := (oid, fbo)]> (B n) /\ V n' = wrote t l cur (V n) /\
    copylocks n' = copylocks n /\ locked0 n' = true /\ locked1 n' = true).
Proof.
  intros Hok Hg Hl Hc Hlt. unfold writeVBEntry. wp_step. wp_step.
  apply wp_lock_vbbm; [apply (ok_vba _ Hok)|]. wp_step. apply wp_lock_vss; [apply (ok_vsa _ Hok)|]. wp_step.
  eapply wp_mono; [eapply (write_block_spec _ t l oid fbo cur)|]; try done.
  - destruct Hok. by split.
  - intros r n' (-> & Hok' & HB & HV & Hcl & Hl0 & Hl1 & _). wp_step. split_and!; try done.
Qed.

(** *** Rollback of a written block *)
Lemma inv_rolled_back (B0 : vbmap) (V0 : vsmap) l :
  inv B0 V0 -> ~ in_use l V0 -> inv B0 (without l V0).
Proof.
  intros [Hb Hk H1 Hcur Hp Hlk] Hno.
  assert (Hnb : forall v k, V0 !! (l, v) <> Some (true, k)).
  { intros v k Hv. apply Hno. exists (l, v), (true, k). done. }
  assert (Hw : forall w v x, without l V0 !! (w, v) = Some x -> w <> l /\ V0 !! (w, v) = Some x).
  { intros w v x. rewrite without_lookup. simpl. by case_decide. }
  assert (Hw' : forall w v, w <> l -> without l V0 !! (w, v) = V0 !! (w, v)).
  { intros w v Hne. rewrite without_lookup. simpl. by case_decide. }
  split.
  - intros w v. rewrite Hb. destruct (decide (w = l)) as [->|Hne]; [|by rewrite Hw'].
    split; [by intros [k ?%Hnb]|]. by intros [k [? _]%Hw].
  - intros w v x [_ Hv]%Hw. eauto.
  - intros w v v' k k' [_ Hv]%Hw [_ Hv']%Hw. eauto.
  - intros w v k [Hne Hv]%Hw. destruct (Hcur _ _ _ Hv) as (v' & k' & Hv' & ?). exists v', k'.
    by rewrite Hw'.
  - intros w v k [_ Hv]%Hw. eauto.
  - intros w v f [_ Hv]%Hw. eauto.
Qed.

(** Rolling a written block back gives the old maps, except that a block with
    nothing left in use is forgotten. *)
Definition rolled_back (l : Z) (V0 : vsmap) : vsmap :=
  if decide (in_use l V0) then V0 else without l V0.

Lemma without_absent (l : Z) (V0 : vsmap) : (forall v, V0 !! (l, v) = None) -> without l V0 = V0.
Proof.
  intros Hno. apply map_eq. intros [w v]. rewrite without_lookup. simpl. case_decide; [|done].
  subst. by rewrite Hno.
Qed.

Lemma remove_spec_wrote (B0 : vbmap) (V0 : vsmap) t l cur :
  inv B0 V0 -> current V0 l cur false -> cur < t ->
  (remove_spec l t (<[(l, cur) := (false, false)]> (wrote t l cur V0))).2 = rolled_back l V0.
Proof.
  intros Hinv Hc Hlt. unfold remove_spec.
  rewrite lookup_insert_ne, wrote_new by (intros [= ?]; lia).
  assert (Hd : delete (l, t) (<[(l, cur):=(false, false)]> (wrote t l cur V0)) = <[(l, cur) := (false, false)]> V0).
  { pose proof (new_absent _ _ _ _ _ _ Hinv Hc Hlt) as Hn.
    apply map_eq. intros k. rewrite lookup_delete, !lookup_insert. unfold wrote.
    rewrite !lookup_insert. repeat case_decide; simplify_eq; try done; lia. }
  rewrite Hd. unfold rolled_back. destruct Hc as [Hc|(-> & _ & Hno)].
  - rewrite insert_id by done. by case_decide.
  - assert (Hu : ~ in_use l V0).
    { intros ([w v] & x & Hx & Hw & _). simpl in Hw. subst. by rewrite Hno in Hx. }
    assert (Hu' : ~ in_use l (<[(l, 0) := (false, false)]> V0)).
    { intros ([w v] & x & Hx & Hw & Hf). simpl in Hw. subst. rewrite lookup_insert in Hx.
      case_decide; simplify_eq; by rewrite ?Hno in Hx. }
    rewrite decide_False, decide_False by done. simpl. rewrite (without_absent l V0) by done.
    apply map_eq. intros [w v]. rewrite without_lookup, lookup_insert. simpl.
    repeat case_decide; simplify_eq; by rewrite ?Hno.
Qed.

Lemma rollback_block_spec (n : node) (B0 : vbmap) (V0 : vsmap) t l cur loc :
  node_ok n -> inv B0 V0 -> current V0 l cur false -> cur < t -> 0 <= l ->
  B n = <[(l, cur) := loc]> B0 -> V n = wrote t l cur V0 ->
  wp (rollback_block t l) n (fun _ n' => node_ok n' /\ B n' = B0 /\ V n' = rolled_back l V0 /\
    copylocks n' = copylocks n).
Proof.
  intros Hok Hinv Hc Hlt Hl HB HV. pose proof (cur_nonneg _ _ _ _ _ Hinv Hc) as H0.
  destruct (VSSThms.getHighestVerInVB_spec (VSS.seg (vss n)) l t (VSSThms.wf_tab _ _ _ (ok_vss _ Hok)))
    as (r & Hr & Hmax & Hor).
  { intros v x Hx. by destruct (inv_key _ _ (ok_inv _ Hok) _ _ _ Hx). }
  change (VSSThms.abs _) with (V n) in Hmax, Hor. rewrite HV in Hmax, Hor.
  assert (r = cur) as ->.
  { assert (cur <= r) by (apply (Hmax cur false); [by apply wrote_old|lia]).
    destruct Hor as [->|(_ & k & [(_ & _ & ?)|[(_ & -> & _)|(_ & _ & Hv)]]%wrote_case)]; [lia|done|done|].
    pose proof (versions_le _ _ _ _ _ Hinv Hc _ _ Hv). lia. }
  unfold rollback_block. wp_step. eapply wp_lift; [exact Hr|]. wp_step.
  destruct (Z.eqb_spec cur (-1)); [lia|]. cbn [negb]. node_step. node_step.
  eapply wp_mono; [apply VBBMThms.removeEntry_post, (ok_vbbm _ Hok)|].
  intros [] b Hpb. node_step.
  eapply wp_mono; [apply (VSSThms.setVBFlag_post _ l cur false true false); [apply (ok_vss _ Hok)|]|].
  { change (VSSThms.abs _) with (V n). rewrite HV. by apply wrote_old. }
  intros [] v Hpv. node_step.
  eapply wp_mono; [apply VSSThms.vss_removeEntry_post; [apply (VSSThms.op_wf _ _ _ Hpv)|lia]|].
  intros fl v2 [_ Hp2]. simpl.
  assert (HB' : VBBMThms.abs (VBBM.seg b) = B0).
  { rewrite (VBBMThms.op_abs _ _ _ Hpb). change (VBBMThms.abs _) with (B n). rewrite HB.
    apply delete_insert_id. by apply (cur_not_buffered _ _ _ _ _ Hinv Hc). }
  assert (HV' : VSSThms.abs (VSS.seg v2) = rolled_back l V0).
  { rewrite (VSSThms.op_abs _ _ _ Hp2). simpl. rewrite (VSSThms.op_abs _ _ _ Hpv). simpl.
    change (VSSThms.abs (VSS.seg (vss n))) with (V n). rewrite HV. by eapply remove_spec_wrote. }
  split; [|done]. destruct Hok as [? ? ? Hz1 Hz2 ? _]. split; simpl; try done.
  - apply (VBBMThms.op_wf _ _ _ Hpb).
  - apply (VSSThms.op_wf _ _ _ Hp2).
  - destruct (VBBMThms.op_env _ _ _ Hpb) as [-> _]. done.
  - rewrite (VSSThms.op_alloc _ _ _ Hp2). simpl. rewrite (VSSThms.op_alloc _ _ _ Hpv). done.
  - unfold B, V. simpl. rewrite HB', HV'. unfold rolled_back. case_decide; [done|]. by apply inv_rolled_back.
Qed.

(** *** Commit *)
Lemma inv_commit (B0 : vbmap) (V0 : vsmap) t : inv B0 V0 -> inv B0 (commit_spec t V0).
Proof.
  intros [Hb Hk H1 Hcur Hp Hlk].
  assert (Hc : forall l v f k, commit_spec t V0 !! (l, v) = Some (f, k) ->
     exists k0, V0 !! (l, v) = Some (f, k0) /\ (k = true -> k0 = true)).
  { intros l v f k. unfold commit_spec. rewrite map_lookup_imap. destruct (V0 !! (l, v)) as [[f0 k0]|]; [|done].
    unfold unlock. simpl. destruct (v =? t); intros [= <- <-]; by exists k0. }
  assert (Hc' : forall l v f k, V0 !! (l, v) = Some (f, k) -> exists k', commit_spec t V0 !! (l, v) = Some (f, k')).
  { intros l v f k Hv. unfold commit_spec. rewrite map_lookup_imap, Hv. simpl. unfold unlock. simpl.
    destruct (v =? t); by eexists. }
  split.
  - intros l v. rewrite Hb. split; [intros [k Hv]; eauto|]. intros [k (k0 & Hv & _)%Hc]. eauto.
  - intros l v [f k] (k0 & Hv & _)%Hc. eauto.
  - intros l v w k k' (k0 & Hv & _)%Hc (k0' & Hv' & _)%Hc. eauto.
  - intros l v k (k0 & Hv & _)%Hc. destruct (Hcur _ _ _ Hv) as (w & k' & Hw & ?).
    destruct (Hc' _ _ _ _ Hw) as [k2 Hk2]. eauto.
  - intros l v k (k0 & Hv & _)%Hc. eauto.
  - intros l v f (k0 & Hv & Hk0)%Hc. rewrite Hk0 in Hv by done. eauto.
Qed.

Lemma vbCommit_spec n t :
  node_ok n -> (forall l x, V n !! (l, t) = Some x -> x.2 = true) ->
  wp (vbCommit t) n (fun c n' => c = 0 /\ node_ok n' /\ B n' = B n /\ V n' = commit_spec t (V n)).
Proof.
  intros Hok Hlk. unfold vbCommit. wp_step. wp_step. apply wp_lock_vss; [apply (ok_vsa _ Hok)|].
  node_step. node_step. eapply wp_mono; [apply VSSThms.commit_post; [apply (ok_vss _ Hok)|done]|].
  intros [] v (Hw & Ha & _ & Hz & _). wp_step. split; [done|].
  assert (HV : V (set_vss v (set_locked1 true n)) = commit_spec t (V n)) by done.
  split; [|done]. destruct Hok. split; simpl; try done.
  - by rewrite Hz.
  - rewrite HV. by apply inv_commit.
Qed.
End NodeThms.
