(* ===== verification/NodePurge.v ===== *)
(** * Removing every version of some blocks

    [VSS::removeEntriesFromDB] (modelled in SlaveNode.v) walks the bucket of each
    block of a range and takes every entry of the block out of the VSS, and the
    buffered ones out of the VBBM. *)

From S2P Require Import Prelude Chain Hasher Undoable Vbbm VbbmThms Vss VssThms CopyLocks CopyLocksClaims SlaveNode NodeThms.
From stdpp Require Import prelude gmap strings.
Local Open Scope Z_scope.

Module NodePurge.
Import SlaveNode NodeThms.

(** A version map without the blocks in [p]. *)
Definition drop_blocks {A} (p : Z -> bool) (m : gmap (Z * Z) A) : gmap (Z * Z) A := filter (fun x => p x.1.1 = false) m.

Section drop_blocks.
Context {A : Type}.
Implicit Types (m : gmap (Z * Z) A) (p q : Z -> bool).

Lemma drop_lookup p m k : drop_blocks p m !! k = if p k.1 then None else m !! k.
Proof.
  unfold drop_blocks. destruct (m !! k) as [x|] eqn:Hk; destruct (p k.1) eqn:Hp.
  - apply map_lookup_filter_None. right. intros x' _. simpl. congruence.
  - by apply map_lookup_filter_Some.
  - apply map_lookup_filter_None. by left.
  - apply map_lookup_filter_None. by left.
Qed.

Lemma drop_ext p q m : (forall l, p l = q l) -> drop_blocks p m = drop_blocks q m.
Proof. intros H. apply map_eq. intros k. by rewrite !drop_lookup, H. Qed.

Lemma drop_delete p k m : p k.1 = true -> drop_blocks p (delete k m) = drop_blocks p m.
Proof.
  intros Hk. apply map_eq. intros k'. rewrite !drop_lookup. destruct (p k'.1) eqn:Hp; [done|].
  rewrite lookup_delete_ne; [done|]. congruence.
Qed.

Lemma drop_drop p q m : drop_blocks q (drop_blocks p m) = drop_blocks (fun l => p l || q l) m.
Proof. apply map_eq. intros k. rewrite !drop_lookup. by destruct (p k.1), (q k.1). Qed.

Lemma drop_id p m : (forall l v x, m !! (l, v) = Some x -> p l = false) -> drop_blocks p m = m.
Proof.
  intros H. apply map_eq. intros [l v]. rewrite drop_lookup. simpl. destruct (p l) eqn:Hp; [|done].
  destruct (m !! (l, v)) as [x|] eqn:Hx; [|done]. apply H in Hx. congruence.
Qed.
End drop_blocks.

(** Every location the VBBM knows belongs to a buffered version. *)
Definition buffered (Bm : vbmap) (Vm : vsmap) : Prop :=
  forall l v, is_Some (Bm !! (l, v)) -> exists k, Vm !! (l, v) = Some (true, k).

(** What is kept while entries leave the tables. *)
Record frame (n n' : node) : Prop := {
  fr_vb : VBBMThms.op_post (vbbm n) (vbbm n') (B n');
  fr_wf : VSSThms.wf (VSS.seg (vss n'));
  fr_undo : VSSThms.undoes_h (VSS.seg (vss n)) (VSS.undoRecords (vss n)) (VSS.seg (vss n')) (VSS.undoRecords (vss n'));
  fr_alloc : VSS.allocdSize (vss n') = VSS.allocdSize (vss n);
  fr_cap : VSS.capacity (VSS.hdr (VSS.seg (vss n'))) = VSS.capacity (VSS.hdr (VSS.seg (vss n)));
  fr_nb : VSS.numHashBuckets (VSS.hdr (VSS.seg (vss n'))) = VSS.numHashBuckets (VSS.hdr (VSS.seg (vss n)));
  fr_rest : same_rest n n' }.

Lemma frame_refl n : VBBMThms.wf (VBBM.seg (vbbm n)) -> VSSThms.wf (VSS.seg (vss n)) -> frame n n.
Proof. intros. split; try done; first [by apply VBBMThms.op_post_refl|apply VSSThms.undoes_h_refl]. Qed.

Lemma same_rest_trans n1 n2 n3 : same_rest n1 n2 -> same_rest n2 n3 -> same_rest n1 n3.
Proof. unfold same_rest. intuition congruence. Qed.

Lemma frame_trans n1 n2 n3 : frame n1 n2 -> frame n2 n3 -> frame n1 n3.
Proof.
  intros [H1 H2 H3 H4 H5 H6 H7] [K1 K2 K3 K4 K5 K6 K7]. split; try done; try congruence.
  - by eapply VBBMThms.op_post_trans.
  - by eapply VSSThms.undoes_h_trans.
  - by eapply same_rest_trans.
Qed.

Definition tidy (n : node) : Prop :=
  VBBMThms.wf (VBBM.seg (vbbm n)) /\ VSSThms.wf (VSS.seg (vss n)) /\ buffered (B n) (V n).

(** The blocks in [p] are gone from both tables, the others are untouched. *)
Record swept (p : Z -> bool) (n n' : node) : Prop := {
  sw_frame : frame n n';
  sw_buf : buffered (B n') (V n');
  sw_V : V n' = drop_blocks p (V n);
  sw_B : B n' = drop_blocks p (B n) }.

Lemma swept_trans p q n1 n2 n3 :
  swept p n1 n2 -> swept q n2 n3 -> swept (fun l => p l || q l) n1 n3.
Proof.
  intros [H1 _ H3 H4] [K1 K2 K3 K4]. split; [by eapply frame_trans|done|..].
  - by rewrite K3, H3, drop_drop.
  - by rewrite K4, H4, drop_drop.
Qed.

Lemma swept_ext p q n n' : (forall l, p l = q l) -> swept p n n' -> swept q n n'.
Proof. intros H [H1 H2 H3 H4]. split; [done..| |]; by rewrite <- (drop_ext p q). Qed.

Lemma swept_tidy p n n' : swept p n n' -> tidy n'.
Proof. intros [H1 H2 _ _]. split_and!; [apply (VBBMThms.op_wf _ _ _ (fr_vb _ _ H1))|apply (fr_wf _ _ H1)|done]. Qed.

Lemma wp_inVSS_seq {A} (m1 : M VSS.t unit) (m2 : M VSS.t A) n (Q : A -> node -> Prop) :
  wp (inVSS (m1 ;; m2)) n Q -> wp (inVSS m1 ;; inVSS m2) n Q.
Proof. unfold wp, inVSS, zoom, mbind, M_bind. simpl. by destruct (m1 (vss n)) as [[] ?]. Qed.

(** One matching entry leaves both tables. *)
Lemma purge_one n l b h l1 prev i e l2 :
  tidy n -> VSS.lbid e = l ->
  zget (VSS.hashBuckets (VSS.seg (vss n))) b = Some h ->
  chain VSS.next (VSS.storage (VSS.seg (vss n))) h (l1 ++ (i, e) :: l2) -> pred_of prev l1 ->
  wp ((if VSS.vbFlag e && true then inVBBM (VBBM.removeEntry (VSS.lbid e) (VSS.verID e)) else mret tt) ;;
      inVSS (VSS.unlink b prev i) ;; inVSS (VSS.uncount i) ;; mret prev) n (fun p' n' =>
    p' = prev /\ frame n n' /\ tidy n' /\
    V n' = delete (l, VSS.verID e) (V n) /\ B n' = delete (l, VSS.verID e) (B n) /\
    zget (VSS.storage (VSS.seg (vss n'))) i = Some (VSS.with_lbid (-1) e) /\
    exists h' l1', zget (VSS.hashBuckets (VSS.seg (vss n'))) b = Some h' /\
      chain VSS.next (VSS.storage (VSS.seg (vss n'))) h' (l1' ++ l2) /\ pred_of prev l1' /\
      (VSSThms.key ∘ snd <$> l1') = (VSSThms.key ∘ snd <$> l1)).
Proof.
  intros (Hvb & Hvs & Hbuf) <- Hb Hc Hp. pose proof (VSSThms.wf_tab _ _ _ Hvs) as Ht.
  assert (Hi : zget (VSS.storage (VSS.seg (vss n))) i = Some e) by (eapply chain_in; [exact Hc|set_solver]).
  destruct (tk_bucket_live _ _ _ _ _ _ _ _ i e (VSSThms.tb_tab _ Ht) Hb Hc) as (Hle & _ & _); [set_solver|].
  assert (HVe : V n !! (VSS.lbid e, VSS.verID e) = Some (VSS.vbFlag e, VSS.locked e)).
  { apply VSSThms.vss_abs_Some; [apply (VSSThms.tb_uniq _ Ht)|]. exists i, e. done. }
  rewrite andb_true_r. wp_step.
  assert (wp (if VSS.vbFlag e then inVBBM (VBBM.removeEntry (VSS.lbid e) (VSS.verID e)) else mret tt) n
    (fun _ n' => exists b', n' = set_vbbm b' n /\ VBBMThms.op_post (vbbm n) b' (delete (VSS.lbid e, VSS.verID e) (B n)))) as Hw.
  { destruct (VSS.vbFlag e) eqn:Hf.
    - node_step. eapply wp_mono; [by apply VBBMThms.removeEntry_post|]. intros [] b' Hpb. eauto.
    - apply wp_ret. exists (vbbm n). split; [by destruct n|]. rewrite delete_id; [by apply VBBMThms.op_post_refl|].
      apply eq_None_not_Some. intros [k Hk]%Hbuf. congruence. }
  eapply wp_mono; [exact Hw|]. clear Hw. intros [] n1 (b' & -> & Hpb). apply wp_bind_assoc. wp_step.
  apply wp_inVSS_seq. node_step. eapply wp_mono; [by eapply VSSThms.take_out_spec|].
  intros [] s1 (Hw1 & Ha1 & Hu1 & Hal1 & Hc1 & Hn1 & Hi1 & Hlist). wp_step. simpl.
  change (V (set_vss s1 (set_vbbm b' n))) with (VSSThms.abs (VSS.seg s1)).
  change (B (set_vss s1 (set_vbbm b' n))) with (VBBMThms.abs (VBBM.seg b')).
  pose proof (VBBMThms.op_abs _ _ _ Hpb) as HB'. rewrite HB'.
  split_and!; try done.
  - split; try done. change (B (set_vss s1 (set_vbbm b' n))) with (VBBMThms.abs (VBBM.seg b')). by rewrite HB'.
  - split_and!; [apply (VBBMThms.op_wf _ _ _ Hpb)|done|]. intros l v.
    change (B (set_vss s1 (set_vbbm b' n))) with (VBBMThms.abs (VBBM.seg b')). rewrite HB'.
    change (V (set_vss s1 (set_vbbm b' n))) with (VSSThms.abs (VSS.seg s1)). rewrite Ha1. unfold VSSThms.key.
    destruct (decide ((l, v) = (VSS.lbid e, VSS.verID e))) as [->|Hne].
    + rewrite lookup_delete_eq. by intros [? ?].
    + rewrite !lookup_delete_ne by done. apply Hbuf.
Qed.

(** No entry of the list is of block [l]: the block is in neither table. *)
Lemma swept_nothing n l b h l1 :
  tidy n -> b = bucket_of (VSS.hash_key l) (VSS.numHashBuckets (VSS.hdr (VSS.seg (vss n)))) ->
  zget (VSS.hashBuckets (VSS.seg (vss n))) b = Some h ->
  chain VSS.next (VSS.storage (VSS.seg (vss n))) h l1 ->
  Forall (fun k => k.1 <> l) (VSSThms.key ∘ snd <$> l1) -> swept (Z.eqb l) n n.
Proof.
  intros (Hvb & Hvs & Hbuf) -> Hb Hc HF. pose proof (VSSThms.wf_tab _ _ _ Hvs) as Ht.
  assert (HV : forall l' v x, V n !! (l', v) = Some x -> (l =? l') = false).
  { intros l' v x (j & y & Hj & Hly & Hk & _)%VSSThms.vss_abs_Some; [|apply (VSSThms.tb_uniq _ Ht)].
    apply Z.eqb_neq. intros <-. unfold VSSThms.key in Hk. injection Hk as Hk _.
    assert (Hin : (j, y) ∈ l1).
    { eapply (tk_bucket _ _ _ _ _ _ _ _ _ _ (VSSThms.tb_tab _ Ht) Hb Hc Hj Hly). unfold VSSThms.bucket. by rewrite Hk. }
    rewrite Forall_fmap, Forall_forall in HF. by apply (HF _ Hin). }
  split; [by apply frame_refl|done|..]; symmetry; apply drop_id; [done|].
  intros l' v x Hx. destruct (Hbuf l' v) as [k Hk]; [by eexists|]. by eapply HV.
Qed.

Lemma purge_db_spec l l2 : forall n b h l1 prev fuel,
  tidy n -> b = bucket_of (VSS.hash_key l) (VSS.numHashBuckets (VSS.hdr (VSS.seg (vss n)))) ->
  zget (VSS.hashBuckets (VSS.seg (vss n))) b = Some h ->
  chain VSS.next (VSS.storage (VSS.seg (vss n))) h (l1 ++ l2) ->
  pred_of prev l1 -> Forall (fun k => k.1 <> l) (VSSThms.key ∘ snd <$> l1) -> (length l2 <= fuel)%nat ->
  wp (purge_db fuel true l b prev (head_of l2)) n (fun _ n' => swept (Z.eqb l) n n').
Proof.
  induction l2 as [|[i e] l2 IH]; intros n b h l1 prev fuel Ht Hbk Hb Hc Hp HF Hf.
  - simpl. rewrite app_nil_r in Hc. destruct fuel; simpl; apply wp_ret; by eapply swept_nothing.
  - destruct fuel as [|fuel]; simpl in Hf; [lia|]. simpl.
    assert (Hi : zget (VSS.storage (VSS.seg (vss n))) i = Some e) by (eapply chain_in; [exact Hc|set_solver]).
    pose proof (zget_Some_range _ _ _ Hi) as Hri. destruct (Z.eqb_spec i (-1)); [lia|].
    assert (Hnx : VSS.next e = head_of l2).
    { pose proof Hc as Hc'. apply chain_app_r, chain_split_head in Hc' as [_ Hc']. by eapply chain_head. }
    wp_step. eapply wp_lift; [by apply aget_Val|]. wp_step.
    destruct (Z.eqb_spec (VSS.lbid e) l) as [Hel|Hne].
    + eapply wp_mono; [by eapply (purge_one n l)|].
      intros p' n1 (-> & Hfr & Ht1 & HV1 & HB1 & Hi1 & h' & l1' & Hb' & Hc' & Hp' & Hk').
      wp_step. eapply wp_lift; [by apply aget_Val|]. cbn [VSS.next VSS.with_lbid]. rewrite Hnx.
      eapply wp_mono; [eapply (IH n1 b h' l1'); try done|].
      * by rewrite (fr_nb _ _ Hfr).
      * by rewrite Hk'.
      * lia.
      * intros [] n2 [K1 K2 K3 K4]. split; [by eapply frame_trans|done|..].
        -- rewrite K3, HV1. apply drop_delete, Z.eqb_refl.
        -- rewrite K4, HB1. apply drop_delete, Z.eqb_refl.
    + wp_steps. eapply wp_lift; [by apply aget_Val|]. rewrite Hnx.
      eapply (IH n b h (l1 ++ [(i, e)])); try done.
      * by rewrite <- app_assoc.
      * right. eauto.
      * rewrite fmap_app. apply Forall_app_2; [done|]. by constructor.
      * lia.
Qed.

(** The blocks of a range. *)
Definition in_range (r : VSS.LBIDRange) (l : Z) : bool := (VSS.r_start r <=? l) && (l <? VSS.r_start r + VSS.r_size r).

(** The state after the header record. *)
Definition logged (n : node) : node :=
  set_vss (VSS.set_undo (VSS.undoRecords (vss n) ++ [{| start := VSS.LHeader (VSS.shmkey (VSS.seg (vss n)));
    data := VSS.DHeader (VSS.hdr (VSS.seg (vss n))) |}]) (vss n)) n.

Lemma removeEntriesFromDB_spec n r :
  tidy n -> 0 <= VSS.r_size r ->
  wp (removeEntriesFromDB r true) n (fun _ n' => swept (in_range r) (logged n) n').
Proof.
  intros Ht Hr. unfold removeEntriesFromDB. wp_step. node_step.
  eapply VSSThms.vss_wp_makeUndo; [by apply VSSThms.vss_read_header|].
  fold (logged n). eapply wp_mono; [apply (wp_for_up (fun i n' => swept (fun l => (VSS.r_start r <=? l) && (l <? i)) (logged n) n'))|].
  - split; [by apply frame_refl; apply Ht|apply Ht|..]; symmetry; apply drop_id; intros l v x _; lia.
  - intros i n' Hi Hsw. pose proof (swept_tidy _ _ _ Hsw) as Ht'. destruct Ht' as (Hvb & Hvs & Hbuf).
    destruct (VSSThms.bucket_head (VSS.seg (vss n')) i (VSSThms.wf_tab _ _ _ Hvs)) as [h Hh].
    destruct (tk_chain _ _ _ _ _ (VSSThms.tb_tab _ (VSSThms.wf_tab _ _ _ Hvs)) _ _ Hh) as (lst & Hl & _).
    wp_steps. eapply wp_lift; [by apply aget_Val|]. wp_steps.
    rewrite (chain_head _ _ _ _ Hl).
    eapply wp_mono; [eapply (purge_db_spec i lst n' _ h []); try done|].
    + by left.
    + by eapply chain_length.
    + intros [] n2 Hsw2. eapply swept_ext; [|by eapply swept_trans]. intros l. simpl. lia.
  - simpl. intros _ n'. apply swept_ext. intros l. unfold in_range. f_equal. f_equal. lia.
Qed.

(** ** Several ranges, as one change that can be undone *)
Record cleaned (p : Z -> bool) (n n' : node) : Prop := {
  cl_vb : VBBMThms.op_post (vbbm n) (vbbm n') (drop_blocks p (B n));
  cl_vs : VSSThms.op_post (vss n) (vss n') (drop_blocks p (V n));
  cl_rest : same_rest n n' }.

Lemma cleaned_refl n : tidy n -> cleaned (fun _ => false) n n.
Proof.
  intros (H1 & H2 & _). split; [| |done]; rewrite drop_id by done; [by apply VBBMThms.op_post_refl|by apply VSSThms.vss_op_post_refl].
Qed.

Lemma cleaned_ext p q n n' : (forall l, p l = q l) -> cleaned p n n' -> cleaned q n n'.
Proof. intros H [H1 H2 H3]. split; [by rewrite <- (drop_ext p q)..|done]. Qed.

Lemma cleaned_V p n n' : cleaned p n n' -> V n' = drop_blocks p (V n).
Proof. intros H. apply (VSSThms.op_abs _ _ _ (cl_vs _ _ _ H)). Qed.

Lemma cleaned_B p n n' : cleaned p n n' -> B n' = drop_blocks p (B n).
Proof. intros H. apply (VBBMThms.op_abs _ _ _ (cl_vb _ _ _ H)). Qed.

Lemma cleaned_trans p q n1 n2 n3 : cleaned p n1 n2 -> cleaned q n2 n3 -> cleaned (fun l => p l || q l) n1 n3.
Proof.
  intros H K. pose proof (cleaned_V _ _ _ H) as HV. pose proof (cleaned_B _ _ _ H) as HB.
  destruct H as [H1 H2 H3], K as [K1 K2 K3]. rewrite HB, drop_drop in K1. rewrite HV, drop_drop in K2. split.
  - by eapply VBBMThms.op_post_trans.
  - by eapply VSSThms.vss_op_post_trans.
  - by eapply same_rest_trans.
Qed.

Lemma swept_cleaned p n n' : swept p (logged n) n' -> cleaned p n n'.
Proof.
  intros [[H1 H2 H3 H4 H5 H6 H7] _ HV HB]. split; [|split; try done|done].
  - rewrite HB in H1. exact H1.
  - by apply VSSThms.undoes_h_header.
  - destruct H3 as [-> _]. done.
Qed.

Lemma inv_drop (p : Z -> bool) (B0 : vbmap) (V0 : vsmap) : inv B0 V0 -> inv (drop_blocks p B0) (drop_blocks p V0).
Proof.
  intros [Hb Hk Ho Hc Hp Hl].
  split; intros *; setoid_rewrite drop_lookup; simpl; destruct (p l); try done; try naive_solver.
Qed.

Lemma cleaned_ok p n n' : node_ok n -> cleaned p n n' -> node_ok n'.
Proof.
  intros Hok H. pose proof (cleaned_V _ _ _ H) as HV. pose proof (cleaned_B _ _ _ H) as HB.
  destruct H as [H1 H2 (Hcl & _)], Hok as [? ? ? ? ? ? ?]. split; try (by rewrite Hcl).
  - apply (VBBMThms.op_wf _ _ _ H1).
  - apply (VSSThms.op_wf _ _ _ H2).
  - destruct (VBBMThms.op_env _ _ _ H1) as [-> _]. done.
  - by rewrite (VSSThms.op_alloc _ _ _ H2).
  - rewrite HB, HV. by apply inv_drop.
Qed.

Lemma node_ok_tidy n : node_ok n -> tidy n.
Proof. intros [? ? _ _ _ _ Hi]. split_and!; [done..|]. intros l v H. by apply (inv_buf _ _ Hi) in H. Qed.

Lemma remove_cleaned n r use_vbbm :
  use_vbbm = true -> node_ok n -> 0 <= VSS.r_size r ->
  wp (removeEntriesFromDB r use_vbbm) n (fun _ n' => cleaned (in_range r) n n').
Proof.
  intros -> Hn Hr. eapply wp_mono; [apply removeEntriesFromDB_spec; [by apply node_ok_tidy|done]|].
  intros u n'. apply swept_cleaned.
Qed.

(** ** The node between two commands *)
Record node_idle (n : node) : Prop := {
  ni_locks : locked0 n = false /\ locked1 n = false /\ locked2 n = false;
  ni_logs : VBBM.undoRecords (vbbm n) = [] /\ VSS.undoRecords (vss n) = [] /\ CopyLocks.undoRecords (copylocks n) = [] }.

Definition both_locked (n : node) : node := set_locked1 true (set_locked0 true n).

Lemma confirm_idle n : node_idle n -> confirmChanges n = (Val tt, n).
Proof. intros [(H0 & H1 & H2) _]. unfold confirmChanges, gets, mbind, M_bind. rewrite H0. simpl. rewrite H1. simpl. by rewrite H2. Qed.

Lemma undo_idle n : node_idle n -> undoChanges n = (Val tt, n).
Proof. intros [(H0 & H1 & H2) _]. unfold undoChanges, gets, mbind, M_bind. rewrite H0. simpl. rewrite H1. simpl. by rewrite H2. Qed.

(** Undoing puts both tables back exactly. *)
Lemma undo_cleaned p n n' : node_idle n -> cleaned p (both_locked n) n' -> undoChanges n' = (Val tt, n).
Proof.
  intros [(Hl0 & Hl1 & Hl2) (Hu0 & Hu1 & _)] [Hb Hs (Hcl & H0 & H1 & H2 & Hfl)]. simpl in *.
  pose proof (VBBMThms.op_undo _ _ _ Hb) as Ub. pose proof (VSSThms.op_undo _ _ _ Hs) as Us.
  simpl in Ub, Us. rewrite Hu0 in Ub. rewrite Hu1 in Us.
  assert (wp undoChanges n' (fun _ n2 => n2 = n)) as ([] & n2 & Hrun & ->)%wp_run; [|done].
  unfold undoChanges. wp_step. wp_step. rewrite H0. node_step. node_step. node_step.
  unfold VBBM.undo at 1. unfold wp at 1. rewrite (undoes_undoChanges _ _ _ Ub). cbn iota.
  wp_steps. simpl. rewrite H1. node_step. node_step.
  unfold VSS.undo at 1. unfold wp at 1. simpl. rewrite (undoes_undoChanges _ _ _ Us). cbn iota.
  wp_steps. simpl. rewrite H2, Hl2. wp_steps.
  destruct (VBBMThms.op_env _ _ _ Hb) as (? & ? & ?). pose proof (VSSThms.op_alloc _ _ _ Hs).
  destruct n as [[] [] ? ? ? ? ?], n' as [[] [] ? ? ? ? ?]. simpl in *. subst. done.
Qed.

(** Confirming keeps the tables and ends the command. *)
Lemma confirm_cleaned p n n' :
  node_ok n -> node_idle n -> cleaned p (both_locked n) n' ->
  wp confirmChanges n' (fun _ n2 => node_ok n2 /\ node_idle n2 /\ V n2 = drop_blocks p (V n) /\ B n2 = drop_blocks p (B n)).
Proof.
  intros Hok [(Hl0 & Hl1 & Hl2) (Hu0 & Hu1 & Hu2)] Hc.
  assert (node_ok n') as Hok' by (apply (cleaned_ok p (both_locked n)); [by destruct Hok; split|done]).
  pose proof (cleaned_V _ _ _ Hc) as HV. pose proof (cleaned_B _ _ _ Hc) as HB.
  destruct (cl_rest _ _ _ Hc) as (Hcl & H0 & H1 & H2 & Hfl). simpl in *.
  unfold confirmChanges. wp_step. wp_step. rewrite H0. wp_step. wp_step. node_step. unfold VBBM.confirm. wp_steps. simpl.
  rewrite H1. wp_step. node_step. unfold VSS.confirm. wp_steps. simpl. rewrite H2, Hl2. wp_steps.
  split_and!; try done.
  - destruct Hok'. by split.
  - split; simpl; [by rewrite ?H2|by rewrite Hcl].
Qed.
End NodePurge.
