(* ===== verification/VbRing.v ===== *)
(** * The version buffer as a ring of blocks

    [VBBM::getBlocks] (modelled in SlaveNode.v) hands out the blocks of a version buffer
    file round-robin and clears the buffer ahead of the next block in chunks.  This file
    has the arithmetic of the ring and what a call does to the two tables. *)

From S2P Require Import Prelude Chain Undoable Vbbm VbbmThms Vss VssThms CopyLocks CopyLocksClaims SlaveNode NodeThms NodePurge.
From stdpp Require Import prelude gmap strings.
Local Open Scope Z_scope.

(** ** Ageing versions out of the version buffer

    The loops of [VBBM::getBlocks] (modelled in SlaveNode.v) that make room: every
    version stored in a window of blocks leaves both tables, unless a rollback would
    need it, which is an overflow. *)

Module VbAge.
Import SlaveNode NodeThms.
Import VSSThms (in_use, without, without_lookup, remove_spec).

(** ** Computations that return or throw: [Q] after a return, [E] after a throw. *)
Definition ends {S A} (m : M S A) (s : S) (Q : A -> S -> Prop) (E : exn -> S -> Prop) : Prop :=
  match m s with
  | (Val a, s') => Q a s'
  | (Exn e, s') => E e s'
  | (Fault _, _) => False
  end.

Lemma ends_bind {S A C} (m : M S A) (f : A -> M S C) s Q E :
  ends m s (fun a s' => ends (f a) s' Q E) E -> ends (m ≫= f) s Q E.
Proof. unfold ends, mbind, M_bind. by destruct (m s) as [[]?]. Qed.

Lemma ends_wp {S A} (m : M S A) s Q E : wp m s Q -> ends m s Q E.
Proof. unfold wp, ends. by destruct (m s) as [[]?]. Qed.

Lemma ends_mono {S A} (m : M S A) s (Q Q' : A -> S -> Prop) (E E' : exn -> S -> Prop) :
  ends m s Q E -> (forall a s', Q a s' -> Q' a s') -> (forall e s', E e s' -> E' e s') -> ends m s Q' E'.
Proof. unfold ends. destruct (m s) as [[]?]; naive_solver. Qed.

Lemma ends_try {S A} (m : M S A) h s Q E : ends m s Q (fun e s' => ends (h e) s' Q E) -> ends (try_catch m h) s Q E.
Proof. unfold ends, try_catch. by destruct (m s) as [[]?]. Qed.

Lemma ends_zoom {S T A} (get : S -> T) (put : T -> S -> S) (m : M T A) s Q E :
  ends m (get s) (fun a t => Q a (put t s)) (fun e t => E e (put t s)) -> ends (zoom get put m) s Q E.
Proof. unfold ends, zoom. by destruct (m (get s)) as [[]?]. Qed.

(** ** Slots of the VBBM: a removal leaves the other entries where they are *)
Definition slots (st st' : list VBBM.VBBMEntry) : Prop :=
  forall j e', zget st' j = Some e' -> exists e, zget st j = Some e /\
    (VBBMThms.live e' = true -> VBBMThms.live e = true /\ VBBMThms.key e' = VBBMThms.key e /\ VBBMThms.val e' = VBBMThms.val e).

Lemma slots_refl st : slots st st.
Proof. intros j e H. eauto. Qed.

Lemma slots_trans st1 st2 st3 : slots st1 st2 -> slots st2 st3 -> slots st1 st3.
Proof.
  intros H1 H2 j e3 (e2 & (e1 & He1 & K1)%H1 & K2)%H2. exists e1. split; [done|].
  intros Hl. destruct (K2 Hl) as (Hl2 & -> & ->). by apply K1.
Qed.

Lemma slots_upd st i f e :
  zget st i = Some e -> (VBBMThms.live (f e) = true -> VBBMThms.live e = true /\ VBBMThms.key (f e) = VBBMThms.key e /\ VBBMThms.val (f e) = VBBMThms.val e) ->
  slots st (zset st i (f e)).
Proof.
  intros Hi Hf j e' Hj. destruct (decide (j = i)) as [->|Hne].
  - rewrite zget_zset_eq in Hj by eauto using zget_Some_range. simplify_eq. eauto.
  - rewrite zget_zset_ne in Hj by done. eauto.
Qed.

Definition storage_of (s : VBBM.t) : list VBBM.VBBMEntry := VBBM.storage (VBBM.seg s).

(** [m] only takes entries out or relinks them. *)
Definition thins {A} (m : M VBBM.t A) : Prop := forall s r s', m s = (r, s') -> slots (storage_of s) (storage_of s').

Lemma thins_same {A} (m : M VBBM.t A) : (forall s r s', m s = (r, s') -> storage_of s' = storage_of s) -> thins m.
Proof. intros H s r s' ->%H. apply slots_refl. Qed.

Lemma thins_bind {A C} (m : M VBBM.t A) (f : A -> M VBBM.t C) : thins m -> (forall a, thins (f a)) -> thins (m ≫= f).
Proof.
  intros Hm Hf s r s'. unfold mbind, M_bind. destruct (m s) as [[a| |] s1] eqn:E1; pose proof (Hm _ _ _ E1) as H1.
  - intros H2%Hf. by eapply slots_trans.
  - by intros [= <- <-].
  - by intros [= <- <-].
Qed.

Lemma thins_ret {A} (a : A) : thins (mret a).
Proof. apply thins_same. by intros s r s' [= <- <-]. Qed.
Lemma thins_lift {A} (f : VBBM.t -> outcome A) : thins (lift f).
Proof. apply thins_same. by intros s r s' [= <- <-]. Qed.
Lemma thins_undo k : thins (VBBM.makeUndo k).
Proof. apply thins_same. intros s r s'. unfold VBBM.makeUndo. by destruct (makeUndoRecord _ _ _); intros [= <- <-]. Qed.
Lemma thins_bucket i x : thins (VBBM.upd_bucket i x).
Proof. apply thins_same. intros s r s'. unfold VBBM.upd_bucket. by destruct (zget _ _); intros [= <- <-]. Qed.
Lemma thins_hdr f : thins (VBBM.upd_hdr f).
Proof. apply thins_same. by intros s r s' [= <- <-]. Qed.

Lemma thins_entry i f :
  (forall e, VBBMThms.live (f e) = true -> VBBMThms.live e = true /\ VBBMThms.key (f e) = VBBMThms.key e /\ VBBMThms.val (f e) = VBBMThms.val e) ->
  thins (VBBM.upd_entry i f).
Proof.
  intros Hf s r s'. unfold VBBM.upd_entry. destruct (zget _ i) as [e|] eqn:Hi; intros [= <- <-]; [|apply slots_refl].
  apply slots_upd; auto.
Qed.

Lemma removeEntry_thins l v : thins (VBBM.removeEntry l v).
Proof.
  unfold VBBM.removeEntry. apply thins_bind; [apply thins_lift|]. intros [[idx prev] bk].
  destruct (idx =? -1); [apply thins_ret|].
  repeat (apply thins_bind; [|intros ?]); try case_match; try (apply thins_bind; [|intros ?]);
    first [apply thins_undo | apply thins_lift | apply thins_hdr | apply thins_bucket | apply thins_entry; by intros e ?].
Qed.

(** ** Versions a rollback needs: the newest version that is not locked, of a block that
    has a locked one. *)
Definition pinned (V0 : vsmap) (l v : Z) : Prop :=
  (exists w f, V0 !! (l, w) = Some (f, true)) /\ 0 <= v /\
  (v = 0 \/ exists f, V0 !! (l, v) = Some (f, false)) /\
  forall w f, V0 !! (l, w) = Some (f, false) -> w <= v.

(** Buffered versions of a block with a locked version: one of them is pinned. *)
Lemma newest_pinned (B0 : vbmap) (V0 : vsmap) l c f w :
  inv B0 V0 -> V0 !! (l, c) = Some (f, true) -> V0 !! (l, w) = Some (true, false) ->
  exists m, w <= m /\ V0 !! (l, m) = Some (true, false) /\ pinned V0 l m.
Proof.
  intros Hinv Hc. assert (f = false) as -> by (by eapply (inv_lock _ _ Hinv)).
  assert (Hlt : forall v k, V0 !! (l, v) = Some (true, k) -> v < c).
  { intros v k Hv. destruct (inv_cur _ _ Hinv _ _ _ Hv) as (w' & k' & Hw' & ?). by rewrite (inv_one _ _ Hinv _ _ _ _ _ Hc Hw'). }
  remember (Z.to_nat (c - w)) as d eqn:Hd. revert w Hd. induction (lt_wf d) as [d _ IH]. intros w Hd Hw.
  destruct (decide (map_Exists (fun k x => k.1 = l /\ x = (true, false) /\ w < k.2) V0)) as [Hex|Hno].
  - destruct Hex as ([l' w'] & x & Hx & Hl & -> & Hww). simpl in Hl, Hww. subst l'. pose proof (Hlt _ _ Hx). pose proof (Hlt _ _ Hw).
    destruct (IH (Z.to_nat (c - w')) ltac:(lia) w' eq_refl Hx) as (m & ? & ? & ?). exists m. split_and!; [lia|done|done].
  - exists w. split; [lia|]. split; [done|]. split; [by eauto|]. split; [by destruct (inv_key _ _ Hinv _ _ _ Hw)|].
    split; [right; by eauto|]. intros w' [] Hw'.
    + destruct (Z.le_gt_cases w' w) as [|Hgt]; [done|]. exfalso. apply Hno. exists (l, w'), (true, false). simpl. split_and!; [done..|lia].
    + exfalso. assert (w' = c) as -> by (by eapply (inv_one _ _ Hinv)). congruence.
Qed.

(** What dropping versions from the buffer does to the VSS, exactly: an entry stays unless
    it is a dropped version or, where a version of its block was dropped, no entry of the
    block that is left is in the buffer or locked. *)
Definition dropped (B0 B1 : vbmap) (l : Z) : Prop := exists w, is_Some (B0 !! (l, w)) /\ B1 !! (l, w) = None.

Definition vss_follows (B0 B1 : vbmap) (V0 V1 : vsmap) : Prop := forall l v x,
  V1 !! (l, v) = Some x <->
  V0 !! (l, v) = Some x /\ (x.1 = true -> is_Some (B1 !! (l, v))) /\ (dropped B0 B1 l -> in_use l V1).

Lemma vss_follows_refl B0 V0 : inv B0 V0 -> vss_follows B0 B0 V0 V0.
Proof.
  intros Hi l v x. split; [|by intros []]. intros Hx. split; [done|]. split.
  - destruct x as [[] k]; [|done]. intros _. apply (inv_buf _ _ Hi). eauto.
  - intros (w & [y Hy] & Hn). congruence.
Qed.

Lemma in_use_mono (l : Z) (V0 V1 : vsmap) : V1 ⊆ V0 -> in_use l V1 -> in_use l V0.
Proof. rewrite map_subseteq_spec. intros Hs (k & x & Hx & Hp). exists k, x. auto. Qed.

Lemma vss_follows_trans (B0 B1 B2 : vbmap) (V0 V1 V2 : vsmap) :
  inv B1 V1 -> inv B2 V2 -> B1 ⊆ B0 -> B2 ⊆ B1 -> V1 ⊆ V0 -> V2 ⊆ V1 ->
  (forall l v f, V1 !! (l, v) = Some (f, true) -> V2 !! (l, v) = Some (f, true)) ->
  vss_follows B0 B1 V0 V1 -> vss_follows B1 B2 V1 V2 -> vss_follows B0 B2 V0 V2.
Proof.
  intros Hi1 Hi2 HB1 HB2 HV1 HV2 Hlk H K. pose proof HB1 as HB1'. pose proof HB2 as HB2'. pose proof HV2 as HV2'.
  rewrite map_subseteq_spec in HB1', HB2'. rewrite map_subseteq_spec in HV2'. intros l v x. split.
  - intros Hx. pose proof (proj1 (K l v x) Hx) as (Hx1 & Hb2 & Hd2). pose proof (proj1 (H l v x) Hx1) as (Hx0 & _ & Hd1).
    split; [done|]. split; [done|]. intros (w & [y Hy] & Hn). destruct (B1 !! (l, w)) as [z|] eqn:Hz; [apply Hd2; exists w; by eauto|].
    destruct Hd1 as ([l' w'] & [b k] & Hw & Hl & Hbk); [exists w; by eauto|]. simpl in Hl, Hbk. subst l'.
    destruct k; [exists (l, w'), (b, true); split; [by apply Hlk|by destruct b]|]. destruct b; [|done].
    destruct (B2 !! (l, w')) as [u|] eqn:Hu.
    + destruct (proj1 (inv_buf _ _ Hi2 l w')) as [k Hk]; [by eauto|]. by exists (l, w'), (true, k).
    + apply Hd2. exists w'. split; [|done]. apply (inv_buf _ _ Hi1). eauto.
  - intros (Hx0 & Hb & Hd). apply K. assert (V1 !! (l, v) = Some x) as Hx1.
    { apply H. split; [done|]. split; [intros Ht; destruct (Hb Ht) as [y Hy]; eauto|]. intros (w & [y Hy] & Hn).
      apply (in_use_mono l V1 V2 HV2), Hd. exists w. split; [by eauto|]. destruct (B2 !! (l, w)) eqn:E; [|done]. apply HB2' in E. congruence. }
    split; [done|]. split; [done|]. intros (w & [y Hy] & Hn). apply Hd. exists w. split; [|done]. eauto.
Qed.

Lemma vss_follows_step (B0 : vbmap) (V0 : vsmap) l v :
  inv B0 V0 -> V0 !! (l, v) = Some (true, false) -> vss_follows B0 (delete (l, v) B0) V0 (remove_spec l v V0).2.
Proof.
  intros Hi Hv l' v' x. assert (dropped B0 (delete (l, v) B0) l' <-> l' = l) as ->.
  { split.
    - intros (w & [y Hy] & Hn). rewrite lookup_delete in Hn. case_decide; [congruence|]. congruence.
    - intros ->. exists v. rewrite lookup_delete_eq. split; [|done]. apply (inv_buf _ _ Hi). eauto. }
  assert (forall x, V0 !! (l', v') = Some x -> (x.1 = true -> is_Some (delete (l, v) B0 !! (l', v'))) <-> (l', v') <> (l, v)) as Hbuf.
  { intros [b k] Hx. split; [intros Hb E; injection E as -> ->; rewrite Hv in Hx; simplify_eq; destruct Hb; [done|by rewrite lookup_delete_eq in *]|].
    intros Hne Ht. simpl in Ht. subst b. rewrite lookup_delete_ne by done. apply (inv_buf _ _ Hi). eauto. }
  unfold remove_spec. rewrite Hv. case_decide as Hu; simpl.
  - rewrite lookup_delete_Some. split.
    + intros [Hne Hx]. split; [done|]. split; [apply (proj2 (Hbuf x Hx)); congruence|]. by intros ->.
    + intros (Hx & Hb & _). apply (proj1 (Hbuf x Hx)) in Hb. split; [congruence|done].
  - rewrite without_lookup, lookup_delete. simpl. case_decide as Hl.
    + split; [done|]. intros (_ & _ & Hd). exfalso. specialize (Hd Hl). destruct Hd as ([l2 v2] & z & Hz & Hk & _).
      rewrite without_lookup in Hz. simpl in Hk, Hz. rewrite decide_True in Hz by congruence. done.
    + rewrite decide_False by congruence. split; [|by intros []]. intros Hx. split; [done|]. split; [|done]. apply (proj2 (Hbuf x Hx)); congruence.
Qed.

(** [n] is [n0] without some unpinned versions stored in [W]. *)
Record aged (W : Z * Z -> Prop) (n0 n : node) : Prop := {
  ag_vb : VBBMThms.op_post (vbbm n0) (vbbm n) (B n);
  ag_vs : VSSThms.op_post (vss n0) (vss n) (V n);
  ag_rest : same_rest n0 n;
  ag_inv : inv (B n) (V n);
  ag_B : B n ⊆ B n0;
  ag_gone l v x : B n0 !! (l, v) = Some x -> B n !! (l, v) = None -> W x /\ ~ pinned (V n0) l v;
  ag_V : V n ⊆ V n0;
  ag_locked l v f : V n0 !! (l, v) = Some (f, true) -> V n !! (l, v) = Some (f, true);
  ag_vss : vss_follows (B n0) (B n) (V n0) (V n) }.

Lemma aged_refl W n : node_ok n -> aged W n n.
Proof.
  intros [? ? ? ? ? ? ?]. split; try done;
    first [by apply vss_follows_refl | by apply VBBMThms.op_post_refl | by apply VSSThms.vss_op_post_refl | intros l v x Hx Hn; congruence].
Qed.

(** Whether a version is pinned does not change while others leave. *)
Lemma pinned_stable W n0 n l v x :
  inv (B n0) (V n0) -> aged W n0 n -> B n !! (l, v) = Some x -> pinned (V n) l v <-> pinned (V n0) l v.
Proof.
  intros Hi0 H Hx. pose proof (ag_inv _ _ _ H) as Hi. pose proof (ag_V _ _ _ H) as HV. rewrite map_subseteq_spec in HV.
  destruct (proj1 (inv_buf _ _ Hi l v)) as [k Hk]; [by eexists|].
  assert (k = false) as -> by (destruct k; [by apply (inv_lock _ _ Hi) in Hk|done]).
  split.
  - intros ((w & f & Hw) & H0 & _ & Hmax). split; [by eauto|]. split; [done|]. split; [right; by eauto|].
    intros w' [] Hw'.
    + destruct (newest_pinned _ _ _ _ _ _ Hi0 (HV _ _ Hw) Hw') as (m & Hm & Hvm & Hp).
      destruct (B n !! (l, m)) as [y|] eqn:Hy.
      * destruct (proj1 (inv_buf _ _ Hi l m)) as [k Hkm]; [by eexists|]. rewrite (HV _ _ Hkm) in Hvm. simplify_eq.
        pose proof (Hmax _ _ Hkm). lia.
      * destruct (proj2 (inv_buf _ _ Hi0 l m)) as [y Hy0]; [by eauto|]. by destruct (ag_gone _ _ _ H _ _ _ Hy0 Hy).
    + pose proof (HV _ _ Hw) as Hw0. assert (f = false) as -> by (by eapply (inv_lock _ _ Hi0)).
      assert (w' = w) as -> by (by eapply (inv_one _ _ Hi0)). congruence.
  - intros ((w & f & Hw) & H0 & _ & Hmax). split; [exists w, f; by apply (ag_locked _ _ _ H)|]. split; [done|].
    split; [right; by eauto|]. intros w' f' Hw'. by eapply Hmax, HV.
Qed.

Lemma aged_ok W n0 n : node_ok n0 -> aged W n0 n -> node_ok n.
Proof.
  intros [? ? ? ? ? ? ?] [Hb Hs (Hcl & _) Hi _ _ _ _ _]. split; rewrite ?Hcl; try done.
  - apply (VBBMThms.op_wf _ _ _ Hb).
  - apply (VSSThms.op_wf _ _ _ Hs).
  - destruct (VBBMThms.op_env _ _ _ Hb) as [-> _]. done.
  - by rewrite (VSSThms.op_alloc _ _ _ Hs).
Qed.

Lemma aged_trans W n0 n1 n2 : inv (B n0) (V n0) -> aged W n0 n1 -> aged W n1 n2 -> aged W n0 n2.
Proof.
  intros Hi0 H K. split.
  - eapply VBBMThms.op_post_trans; [apply (ag_vb _ _ _ H)|apply (ag_vb _ _ _ K)].
  - eapply VSSThms.vss_op_post_trans; [apply (ag_vs _ _ _ H)|apply (ag_vs _ _ _ K)].
  - eapply NodePurge.same_rest_trans; [apply (ag_rest _ _ _ H)|apply (ag_rest _ _ _ K)].
  - apply (ag_inv _ _ _ K).
  - etrans; [apply (ag_B _ _ _ K)|apply (ag_B _ _ _ H)].
  - intros l v x Hx Hn. destruct (B n1 !! (l, v)) as [y|] eqn:Hy; [|by apply (ag_gone _ _ _ H)].
    pose proof (ag_B _ _ _ H) as Hsub. rewrite map_subseteq_spec in Hsub. rewrite (Hsub _ _ Hy) in Hx. simplify_eq.
    destruct (ag_gone _ _ _ K _ _ _ Hy Hn) as [HW Hp]. split; [done|]. by rewrite <- (pinned_stable W n0 n1 l v x).
  - etrans; [apply (ag_V _ _ _ K)|apply (ag_V _ _ _ H)].
  - intros l v f Hf. by apply (ag_locked _ _ _ K), (ag_locked _ _ _ H).
  - eapply (vss_follows_trans (B n0) (B n1) (B n2)); [apply H|apply K|apply H|apply K|apply H|apply K|apply K|apply H|apply K].
Qed.

(** One unpinned version leaves. *)
Lemma inv_age (B0 : vbmap) (V0 : vsmap) l v k :
  inv B0 V0 -> V0 !! (l, v) = Some (true, k) -> inv (delete (l, v) B0) (remove_spec l v V0).2.
Proof.
  intros Hi Hv. unfold remove_spec. rewrite Hv.
  assert (inv (delete (l, v) B0) (delete (l, v) V0)) as Hd.
  { destruct Hi as [Hb Hk H1 Hcur Hp Hlk]. split.
    - intros l' v'. rewrite !lookup_delete. case_decide; [|apply Hb]. split; [by intros [? ?]|by intros (? & ?)].
    - intros l' v' x. rewrite lookup_delete. case_decide; [done|]. apply Hk.
    - intros l' v' w k1 k2. rewrite !lookup_delete. repeat case_decide; try done. apply H1.
    - intros l' v' k1. rewrite lookup_delete. case_decide; [done|]. intros Hx. destruct (Hcur _ _ _ Hx) as (w & k' & Hw & ?).
      exists w, k'. rewrite lookup_delete. case_decide; [congruence|done].
    - intros l' v' k1. rewrite lookup_delete. case_decide; [done|]. apply Hp.
    - intros l' v' f. rewrite lookup_delete. case_decide; [done|]. apply Hlk. }
  case_decide; [done|]. by apply inv_rolled_back.
Qed.

Lemma remove_keeps_locked (V0 : vsmap) l v k l' v' f :
  V0 !! (l, v) = Some (k, false) -> V0 !! (l', v') = Some (f, true) -> (remove_spec l v V0).2 !! (l', v') = Some (f, true).
Proof.
  intros Hv Hx. unfold remove_spec. rewrite Hv. assert (delete (l, v) V0 !! (l', v') = Some (f, true)) as Hd.
  { rewrite lookup_delete. case_decide; [congruence|done]. }
  case_decide as Hu; [done|]. simpl. rewrite without_lookup. simpl. case_decide; [|done]. subst l'.
  exfalso. apply Hu. exists (l, v'), (f, true). simpl. by destruct f.
Qed.

Lemma remove_subseteq (V0 : vsmap) l v : (remove_spec l v V0).2 ⊆ V0.
Proof.
  apply map_subseteq_spec. intros k x. unfold remove_spec. destruct (V0 !! (l, v)); [|done]. case_decide; simpl.
  - rewrite lookup_delete. by case_decide.
  - rewrite without_lookup, lookup_delete. by repeat case_decide.
Qed.

Lemma aged_step (W : Z * Z -> Prop) n0 n l v x s' b' :
  aged W n0 n -> B n !! (l, v) = Some x -> W x -> ~ pinned (V n0) l v ->
  VSSThms.op_post (vss n) s' (remove_spec l v (V n)).2 ->
  VBBMThms.op_post (vbbm n) b' (delete (l, v) (B n)) -> aged W n0 (set_vbbm b' (set_vss s' n)).
Proof.
  intros H Hx HW Hp Hs Hb. pose proof (ag_inv _ _ _ H) as Hi.
  destruct (proj1 (inv_buf _ _ Hi l v)) as [k Hk]; [by eexists|].
  assert (k = false) as -> by (destruct k; [by apply (inv_lock _ _ Hi) in Hk|done]).
  assert (HB : B (set_vbbm b' (set_vss s' n)) = delete (l, v) (B n)) by apply (VBBMThms.op_abs _ _ _ Hb).
  assert (HV : V (set_vbbm b' (set_vss s' n)) = (remove_spec l v (V n)).2) by apply (VSSThms.op_abs _ _ _ Hs).
  split; rewrite ?HB, ?HV.
  - eapply VBBMThms.op_post_trans; [apply (ag_vb _ _ _ H)|done].
  - eapply VSSThms.vss_op_post_trans; [apply (ag_vs _ _ _ H)|done].
  - apply (ag_rest _ _ _ H).
  - by eapply inv_age.
  - etrans; [apply delete_subseteq|apply (ag_B _ _ _ H)].
  - intros l' v' y Hy. rewrite lookup_delete. case_decide as Hd.
    + simplify_eq. intros _. pose proof (ag_B _ _ _ H) as Hsub. rewrite map_subseteq_spec in Hsub.
      rewrite (Hsub _ _ Hx) in Hy. by simplify_eq.
    + by apply (ag_gone _ _ _ H).
  - etrans; [apply remove_subseteq|apply (ag_V _ _ _ H)].
  - intros l' v' f Hf. eapply remove_keeps_locked; [exact Hk|]. by apply (ag_locked _ _ _ H).
  - eapply (vss_follows_trans (B n0) (B n) _ (V n0) (V n)); [done|by eapply inv_age|apply H|apply delete_subseteq|apply H|apply remove_subseteq| |apply H|by apply vss_follows_step].
    intros l' v' f Hf. by eapply remove_keeps_locked.
Qed.

(** ** The scan *)
Definition stored_in (oid a b : Z) (e : VBBM.VBBMEntry) : Prop :=
  VBBMThms.live e = true /\ VBBM.vbOID e = oid /\ a <= VBBM.vbFBO e <= b.

(** Some version in the window is needed for a rollback. *)
Definition overflow (n0 : node) (oid a b : Z) : Prop :=
  exists l v fbo, B n0 !! (l, v) = Some (oid, fbo) /\ a <= fbo <= b /\ pinned (V n0) l v.

Definition is_overflow (e : exn) : Prop := exists what, e = vbbm_buffer_overflow what.

Section scan.
Context (W : Z * Z -> Prop) (n0 : node) (oid a b : Z).
Context (Hok : node_ok n0) (HW : forall fbo, a <= fbo <= b -> W (oid, fbo)).

(** The first [i] slots hold nothing of the window. *)
Definition scanned (i : Z) (n : node) : Prop :=
  aged W n0 n /\ forall j e, j < i -> zget (storage_of (vbbm n)) j = Some e -> ~ stored_in oid a b e.

Definition thrown (e : exn) (n : node) : Prop := aged W n0 n /\ is_overflow e /\ overflow n0 oid a b.

Lemma scanned_slots i n n' :
  scanned i n -> aged W n0 n' -> slots (storage_of (vbbm n)) (storage_of (vbbm n')) -> scanned i n'.
Proof.
  intros [_ H] Ha Hs. split; [done|]. intros j e' Hj Hz (Hl & Ho & Hf). destruct (Hs _ _ Hz) as (e & He & K).
  destruct (K Hl) as (Hle & _ & Hv). unfold VBBMThms.val in Hv. apply (H j e Hj He). injection Hv as H1 H2.
  split; [done|]. by rewrite <- H1, <- H2.
Qed.

Lemma age_entry_spec i n e :
  scanned i n -> zget (storage_of (vbbm n)) i = Some e ->
  ends (age_entry oid a b i) n (fun _ => scanned (i + 1)) thrown.
Proof.
  intros Hsc Hi. pose proof (proj1 Hsc) as Ha. pose proof (ag_inv _ _ _ Ha) as Hinv.
  pose proof (VBBMThms.op_wf _ _ _ (ag_vb _ _ _ Ha)) as Hwb. pose proof (VSSThms.op_wf _ _ _ (ag_vs _ _ _ Ha)) as Hws.
  unfold age_entry. apply ends_bind, ends_wp. eapply wp_lift; [by apply aget_Val|].
  destruct (negb (VBBM.lbid e =? -1) && _ && _ && _) eqn:Hm; cycle 1.
  { apply ends_wp, wp_ret. split; [done|]. intros j y Hj Hy Hst. destruct (decide (j = i)) as [->|]; [|by apply (proj2 Hsc j y); [lia|..]].
    rewrite Hi in Hy. simplify_eq. destruct Hst as (Hl & Ho & Hf). unfold VBBMThms.live, VBBM.used in Hl. rewrite Hl in Hm. simpl in Hm.
    apply Z.eqb_eq in Ho. rewrite Ho in Hm. simpl in Hm. destruct (Z.leb_spec a (VBBM.vbFBO y)), (Z.leb_spec (VBBM.vbFBO y) b); simpl in Hm; lia || done. }
  rewrite !andb_true_iff in Hm. destruct Hm as [[[Hl Ho%Z.eqb_eq] Hf1%Z.leb_le] Hf2%Z.leb_le].
  set (l := VBBM.lbid e). set (v := VBBM.verID e). assert (Hl1 : l <> -1) by (subst l; by apply VBBMThms.live_lbid in Hl).
  assert (Hx : B n !! (l, v) = Some (oid, VBBM.vbFBO e)).
  { apply VBBMThms.abs_Some; [apply (VBBMThms.wf_uniq _ _ Hwb)|]. exists i, e. split_and!; try done. unfold VBBMThms.val. by rewrite Ho. }
  pose proof (pinned_stable W n0 n l v _ (ok_inv _ Hok) Ha Hx) as Hst.
  destruct (VSSThms.isEntryLocked_spec (VSS.seg (vss n)) l v (VSSThms.wf_tab _ _ _ Hws) Hl1) as (lk & Hlk & Hiff).
  apply ends_bind, ends_wp. eapply wp_lift; [exact Hlk|]. destruct lk.
  { unfold ends, throw. split; [done|]. split; [by eexists|]. pose proof (ag_B _ _ _ Ha) as Hsub. rewrite map_subseteq_spec in Hsub.
    exists l, v, (VBBM.vbFBO e). split; [by apply Hsub|]. split; [lia|]. apply Hst. by apply Hiff. }
  apply ends_wp. wp_step. apply wp_zoom. eapply wp_mono; [by apply VSSThms.vss_removeEntry_post|].
  intros fl s' [_ Hs]. wp_step. apply wp_zoom.
  pose proof (VBBMThms.removeEntry_post (vbbm n) l v Hwb) as Hrm. apply wp_run in Hrm as ([] & b' & Hrun & Hb).
  eapply run_wp; [exact Hrun|]. wp_step.
  assert (aged W n0 (set_vbbm b' (set_vss s' n))) as Ha'.
  { eapply aged_step; try done; [apply HW; lia|]. intros Hp. apply Hst in Hp. apply Hiff in Hp. done. }
  pose proof (removeEntry_thins l v _ _ _ Hrun) as Hsl.
  destruct (scanned_slots i n _ Hsc Ha' Hsl) as [_ Hbelow]. split; [done|].
  intros j y Hj Hy Hst'. destruct (decide (j = i)) as [->|]; [|by apply (Hbelow j y); [lia|..]].
  destruct (Hsl _ _ Hy) as (e1 & He1 & K). destruct Hst' as (Hly & _). destruct (K Hly) as (_ & Hk & _).
  change (zget (storage_of (vbbm n)) i = Some e1) in He1. rewrite Hi in He1. injection He1 as <-.
  assert (is_Some (VBBMThms.abs (VBBM.seg b') !! (l, v))) as [z Hz].
  { exists (VBBMThms.val y). apply VBBMThms.abs_Some; [apply (VBBMThms.wf_uniq _ _ (VBBMThms.op_wf _ _ _ Hb))|]. exists i, y.
    split_and!; [exact Hy|exact Hly|exact Hk|reflexivity]. }
  rewrite (VBBMThms.op_abs _ _ _ Hb), lookup_delete_eq in Hz. done.
Qed.

Lemma age_entries_spec k : forall i n,
  scanned i n -> 0 <= i -> i + Z.of_nat k <= zlen (storage_of (vbbm n0)) ->
  ends (age_entries k i oid a b) n (fun _ => scanned (i + Z.of_nat k)) thrown.
Proof.
  induction k as [|k IH]; intros i n Hsc Hi Hk; simpl age_entries.
  - apply ends_wp, wp_ret. by rewrite Z.add_0_r.
  - pose proof (ag_vb _ _ _ (proj1 Hsc)) as Hvb.
    assert (zlen (storage_of (vbbm n)) = zlen (storage_of (vbbm n0))) as Hlen.
    { unfold storage_of. rewrite (VBBMThms.wf_cap _ _ (VBBMThms.op_wf _ _ _ Hvb)), (VBBMThms.op_cap _ _ _ Hvb). symmetry. apply (VBBMThms.wf_cap _ _ (ok_vbbm _ Hok)). }
    destruct (zget_is_Some (storage_of (vbbm n)) i) as [e He]; [lia|].
    apply ends_bind. eapply ends_mono; [by eapply age_entry_spec| |done]. intros fl n1 H1.
    apply ends_bind. eapply ends_mono; [apply (IH (i + 1)); [done|lia|lia]| |done]. intros rest n2 H2.
    apply ends_wp, wp_ret. by replace (i + Z.of_nat (S k)) with (i + 1 + Z.of_nat k) by lia.
Qed.

(** The whole table: the window is empty. *)
Lemma age_all_spec :
  ends (age_entries (Z.to_nat (VBBM.vbCapacity (VBBM.hdr (VBBM.seg (vbbm n0))))) 0 oid a b) n0
    (fun _ n' => aged W n0 n' /\ forall l v fbo, B n' !! (l, v) = Some (oid, fbo) -> ~ a <= fbo <= b) thrown.
Proof.
  pose proof (aged_refl W n0 Hok) as Ha. pose proof (VBBMThms.wf_cap _ _ (ok_vbbm _ Hok)) as Hcap. fold (storage_of (vbbm n0)) in Hcap.
  assert (0 <= zlen (storage_of (vbbm n0))) as H0 by (unfold zlen; lia).
  eapply ends_mono; [apply (age_entries_spec _ 0 n0)|..]; [|lia|lia| |done].
  - split; [done|]. intros j e Hj Hz%zget_Some_range. lia.
  - intros fl n' [Ha' Hs]. split; [done|]. intros l v fbo Hx Hf.
    pose proof (VBBMThms.op_wf _ _ _ (ag_vb _ _ _ Ha')) as Hw.
    apply VBBMThms.abs_Some in Hx as (i & e & He & Hl & Hk & Hv); [|apply (VBBMThms.wf_uniq _ _ Hw)].
    pose proof (zget_Some_range _ _ _ He) as Hr. rewrite (VBBMThms.wf_cap _ _ Hw), (VBBMThms.op_cap _ _ _ (ag_vb _ _ _ Ha')) in Hr.
    unfold VBBMThms.val in Hv. injection Hv as Ho Hfb. apply (Hs i e); [lia|exact He|]. split; [done|]. split; [done|]. lia.
Qed.
End scan.
End VbAge.

Module VbRing.
Import SlaveNode NodeThms VbAge.

(** ** A file *)
Definition total (f : VBBM.VBFileMetadata) : Z := VBBM.fileSize f / BLOCK_SIZE.
Definition pos (f : VBBM.VBFileMetadata) : Z := VBBM.nextOffset f / BLOCK_SIZE.

Record file_ok (f : VBBM.VBFileMetadata) : Prop := {
  fo_next : VBBM.nextOffset f = pos f * BLOCK_SIZE;
  fo_pos : 0 <= pos f < total f;
  fo_total : total f < 2 ^ 31 }.

(** The blocks a request for [num] gets: as many as the end of the file allows, the rest
    from its start. *)
Definition ring (f : VBBM.VBFileMetadata) (num : Z) : list VBRange :=
  let left := total f - pos f in
  if num <=? left then [mkVBRange (VBBM.OID f) (pos f) num]
  else [mkVBRange (VBBM.OID f) (pos f) left; mkVBRange (VBBM.OID f) 0 (num - left)].

Definition moved (f : VBBM.VBFileMetadata) (num : Z) : VBBM.VBFileMetadata :=
  VBBM.mkFile (VBBM.OID f) (VBBM.fileSize f) ((pos f + num) mod total f * BLOCK_SIZE).

Lemma moved_pos f num : pos (moved f num) = (pos f + num) mod total f.
Proof. unfold pos at 1. simpl. by rewrite Z.div_mul by done. Qed.

Lemma moved_ok f num : file_ok f -> file_ok (moved f num).
Proof.
  intros [? Hp ?]. split; rewrite ?moved_pos; [done| |done].
  change (total (moved f num)) with (total f). apply Z.mod_pos_bound. lia.
Qed.

Lemma moved_twice f a b : 0 < total f -> 0 <= pos f -> moved (moved f a) b = moved f (a + b).
Proof.
  intros Ht Hp. unfold moved at 1. rewrite moved_pos. change (total (moved f a)) with (total f). unfold moved. simpl. f_equal.
  rewrite Zplus_mod_idemp_l. by rewrite Z.add_assoc.
Qed.

(** ** The loop over the file *)
Definition at_file (fi : Z) (f : VBBM.VBFileMetadata) (s : VBBM.t) : VBBM.t :=
  VBBM.set_seg (VBBM.set_files (zset (VBBM.files (VBBM.seg s)) fi f) (VBBM.seg s)) s.

Lemma log_file s fi f f' :
  zget (VBBM.files (VBBM.seg s)) fi = Some f ->
  let u := VBBM.undoRecords s ++ [{| start := VBBM.LFile (VBBM.shmkey (VBBM.seg s)) fi; data := VBBM.DFile f |}] in
  VBBM.makeUndo (fun k => VBBM.LFile k fi) s = (Val tt, VBBM.set_undo u s) /\
  undoes (VBBM.seg s) (VBBM.undoRecords s) (VBBM.set_files (zset (VBBM.files (VBBM.seg s)) fi f') (VBBM.seg s)) u.
Proof.
  intros Hf u. assert (VBBM.read_loc (VBBM.LFile (VBBM.shmkey (VBBM.seg s)) fi) (VBBM.seg s) = Val (VBBM.DFile f)) as Hr.
  { unfold VBBM.read_loc, aget. simpl. by rewrite Z.eqb_refl, Hf. }
  split; [unfold VBBM.makeUndo; by rewrite (VBBMThms.mkrec _ _ _ _ Hr)|].
  eapply (undoes_write (VBBM.LFile (VBBM.shmkey (VBBM.seg s)) fi) (VBBM.DFile f) (VBBM.DFile f')); [exact Hr|].
  simpl. unfold VBBM.write_loc, aget. simpl. by rewrite Z.eqb_refl, Hf.
Qed.

Lemma blocks_left f : file_ok f -> i32 (u64 (VBBM.fileSize f - VBBM.nextOffset f) / BLOCK_SIZE) = total f - pos f.
Proof.
  intros [Hn Hp Ht]. unfold total, BLOCK_SIZE in *. pose proof (Z.mul_div_le (VBBM.fileSize f) 8192 ltac:(lia)).
  pose proof (Z.mul_succ_div_gt (VBBM.fileSize f) 8192 ltac:(lia)).
  rewrite u64_small by lia. rewrite Hn. replace (VBBM.fileSize f - pos f * 8192) with (VBBM.fileSize f + (- pos f) * 8192) by lia.
  rewrite Z.div_add by lia. rewrite i32_small by lia. lia.
Qed.

(** One round: [take] blocks at the current position. *)
Lemma gather_round k fi num g s f :
  zget (VBBM.files (VBBM.seg s)) fi = Some f -> file_ok f -> 0 <= g < num -> num < 2 ^ 31 ->
  let take := Z.min (num - g) (total f - pos f) in
  exists u, undoes (VBBM.seg s) (VBBM.undoRecords s) (VBBM.seg (at_file fi (moved f take) s)) u /\
    gather (S k) fi num g s =
    (rest ← gather k fi num (g + take); mret (mkVBRange (VBBM.OID f) (pos f) take :: rest)) (VBBM.set_undo u (at_file fi (moved f take) s)).
Proof.
  intros Hf Hok Hg Hn take. pose proof Hok as [Hnx Hp Ht].
  destruct (log_file s fi f (moved f take) Hf) as [Hu Hun]. eexists. split; [exact Hun|].
  simpl gather. destruct (Z.leb_spec num g); [lia|].
  rewrite (bind_Val (lift _) _ _ f s) by (unfold lift, aget; by rewrite Hf). rewrite blocks_left by done.
  assert ((if num - g <=? total f - pos f then num - g else total f - pos f) = take) as -> by (unfold take; destruct (Z.leb_spec (num - g) (total f - pos f)); lia).
  fold (pos f). rewrite !u32_small by lia. cbn [vr_size].
  rewrite (bind_Val _ _ _ _ _ Hu). rewrite (bind_Val (modify _) _ _ _ _ eq_refl).
  rewrite i32_small by lia.
  assert (VBBM.mkFile (VBBM.OID f) (VBBM.fileSize f) (if take =? total f - pos f then 0 else u64 (VBBM.nextOffset f + take * BLOCK_SIZE)) = moved f take) as ->; [|done].
  unfold moved. f_equal. destruct (Z.eqb_spec take (total f - pos f)) as [->|Hne].
  - replace (pos f + (total f - pos f)) with (total f) by lia. by rewrite Z.mod_same by lia.
  - rewrite Hnx. rewrite Z.mod_small by lia. unfold BLOCK_SIZE in *. rewrite u64_small by lia. lia.
Qed.

Lemma gather_done k fi num g s : num <= g -> gather k fi num g s = (Val [], s).
Proof. intros H. destruct k; simpl; by destruct (Z.leb_spec num g); [|lia]. Qed.

Lemma gather_blocks k fi num s f :
  zget (VBBM.files (VBBM.seg s)) fi = Some f -> file_ok f -> 0 < num <= total f -> (2 <= k)%nat ->
  exists u, gather k fi num 0 s = (Val (ring f num), VBBM.set_undo u (at_file fi (moved f num) s)) /\
    undoes (VBBM.seg s) (VBBM.undoRecords s) (VBBM.seg (at_file fi (moved f num) s)) u.
Proof.
  intros Hf Hok Hn Hk. pose proof Hok as [Hnx Hp Ht]. destruct k as [|[|k]]; [lia..|].
  destruct (gather_round (S k) fi num 0 s f Hf Hok ltac:(lia) ltac:(lia)) as (u & Hu & ->). rewrite Z.sub_0_r, Z.add_0_l in *.
  unfold ring. destruct (Z.leb_spec num (total f - pos f)) as [Hle|Hgt].
  - rewrite Z.min_l in * by lia. rewrite (bind_Val _ _ _ _ _ (gather_done _ _ _ _ _ (Z.le_refl _))). by exists u.
  - rewrite Z.min_r in * by lia. set (left := total f - pos f) in *. set (s1 := VBBM.set_undo u (at_file fi (moved f left) s)) in *.
    assert (zget (VBBM.files (VBBM.seg s1)) fi = Some (moved f left)) as Hf1 by (simpl; apply zget_zset_eq; by eapply zget_Some_range).
    destruct (gather_round k fi num left s1 _ Hf1 (moved_ok f left Hok) ltac:(lia) ltac:(lia)) as (u1 & Hu1 & Hrun).
    assert (pos (moved f left) = 0) as Hp0 by (rewrite moved_pos; unfold left; replace (pos f + (total f - pos f)) with (total f) by lia; apply Z.mod_same; lia).
    change (total (moved f left)) with (total f) in Hrun, Hu1. rewrite Hp0, Z.sub_0_r in Hrun. rewrite Hp0, Z.sub_0_r in Hu1.
    rewrite Z.min_l in Hrun, Hu1 by lia. replace (left + (num - left)) with num in Hrun by lia.
    rewrite (bind_Val _ _ _ _ _ (gather_done _ _ _ _ _ (Z.le_refl _))) in Hrun.
    assert (at_file fi (moved (moved f left) (num - left)) s1 = VBBM.set_undo u (at_file fi (moved f num) s)) as Hs.
    { unfold s1, at_file. simpl. unfold VBBM.set_seg, VBBM.set_undo, VBBM.set_files. simpl. rewrite zset_zset, moved_twice by lia. do 5 f_equal. lia. }
    rewrite Hs in Hu1, Hrun. exists u1. split; [|by eapply undoes_trans; [exact Hu|exact Hu1]].
    by rewrite (bind_Val _ _ _ _ _ Hrun).
Qed.

(** ** Chunks *)
Definition chunk_end (x : Z) : Z := (x / VBBM_CHUNK_SIZE + 1) * VBBM_CHUNK_SIZE - 1.

(** The rest of the chunk the next block is in, which was cleared when the chunk was
    entered. *)
Definition ahead (f : VBBM.VBFileMetadata) (x : Z) : Prop :=
  pos f mod VBBM_CHUNK_SIZE <> 0 /\ pos f <= x <= chunk_end (pos f) /\ x < total f.

Definition granted (rs : list VBRange) (x : Z) : Prop := exists r, r ∈ rs /\ vr_fbo r <= x < vr_fbo r + vr_size r.

(** The blocks that are cleared for the ranges [rs]. *)
Definition in_window (size : Z) (rs : list VBRange) (y : Z * Z) : Prop :=
  exists r a b, r ∈ rs /\ age_window size r = Some (a, b) /\ y.1 = vr_oid r /\ a <= y.2 <= b.

Lemma chunk_end_ge x : x <= chunk_end x.
Proof. unfold chunk_end, VBBM_CHUNK_SIZE. pose proof (Z.mul_succ_div_gt x 100 ltac:(lia)). lia. Qed.

Lemma chunk_end_pred x : x mod VBBM_CHUNK_SIZE <> 0 -> chunk_end (x - 1) = chunk_end x.
Proof.
  unfold chunk_end, VBBM_CHUNK_SIZE. intros H. do 3 f_equal.
  pose proof (Z.div_mod x 100 ltac:(lia)). pose proof (Z.mod_pos_bound x 100 ltac:(lia)).
  symmetry. apply (Z.div_unique_pos _ _ _ (x mod 100 - 1)); lia.
Qed.

(** From the first block of a range to the end of the chunk it ends in, everything is
    cleared now or is in the chunk the range starts in the middle of. *)
Lemma window_covers f oid a s x :
  total f < 2 ^ 31 -> 0 <= a -> 0 < s -> a + s <= total f -> a <= x <= chunk_end (a + s - 1) -> x < total f ->
  a mod VBBM_CHUNK_SIZE <> 0 /\ x <= chunk_end a \/
  exists lo hi, age_window (VBBM.fileSize f) (mkVBRange oid a s) = Some (lo, hi) /\ lo <= x <= hi.
Proof.
  intros Ht Ha Hs Hle Hx HxN. unfold age_window. cbn [vr_fbo vr_size]. fold (total f).
  rewrite (u32_small (a + s - 1)) by lia. unfold chunk_end, VBBM_CHUNK_SIZE in *.
  pose proof (Z.div_mod a 100 ltac:(lia)) as E1. pose proof (Z.mod_pos_bound a 100 ltac:(lia)) as E2.
  pose proof (Z.div_mod (a + s - 1) 100 ltac:(lia)) as E3. pose proof (Z.mod_pos_bound (a + s - 1) 100 ltac:(lia)) as E4.
  rewrite (u32_small (((a + s - 1) / 100 + 1) * 100 - 1)) by lia.
  rewrite (u32_small ((a / 100 + 1) * 100)) by lia. rewrite (u32_small (total f)) by lia.
  destruct (Z.eqb_spec (a mod 100) 0) as [H0|H0]; cbn [negb andb].
  - right. eexists _, _. split; [reflexivity|]. destruct (Z.ltb_spec (total f) (((a + s - 1) / 100 + 1) * 100 - 1)); lia.
  - destruct (Z.eqb_spec (a / 100) ((a + s - 1) / 100)) as [Hc|Hc].
    + left. split; [done|]. rewrite Hc. lia.
    + destruct (Z.le_gt_cases x ((a / 100 + 1) * 100 - 1)); [left; lia|]. right. eexists _, _. split; [reflexivity|].
      destruct (Z.ltb_spec (total f) (((a + s - 1) / 100 + 1) * 100 - 1)); lia.
Qed.

(** What a request gets, and what is ahead of it afterwards, was ahead before or is
    cleared now. *)
Lemma ring_clear f num x :
  file_ok f -> 0 < num <= total f -> granted (ring f num) x \/ ahead (moved f num) x ->
  ahead f x \/ in_window (VBBM.fileSize f) (ring f num) (VBBM.OID f, x).
Proof.
  intros Hok Hn Hx. pose proof Hok as [_ Hp Ht].
  assert (Hcov : forall a s, mkVBRange (VBBM.OID f) a s ∈ ring f num -> (a = pos f \/ a = 0) -> 0 < s -> a + s <= total f ->
    a <= x <= chunk_end (a + s - 1) -> x < total f -> ahead f x \/ in_window (VBBM.fileSize f) (ring f num) (VBBM.OID f, x)).
  { intros a s Hin Ha Hs Hle Hxx HxN. destruct (window_covers f (VBBM.OID f) a s x) as [[Hm Hc]|(lo & hi & Hw & Hb)]; try done; try lia.
    - destruct Ha as [-> | ->]; [|done]. left. split; [done|]. lia.
    - right. by exists (mkVBRange (VBBM.OID f) a s), lo, hi. }
  unfold ring in *. destruct (Z.leb_spec num (total f - pos f)) as [Hl|Hl].
  - destruct Hx as [(r & Hr0 & Hr)|(Hm & Hr & HN)]; [apply list_elem_of_singleton in Hr0 as ->|]; cbn [vr_fbo vr_size] in *.
    + pose proof (chunk_end_ge (pos f + num - 1)). apply (Hcov (pos f) num); try lia. set_solver.
    + rewrite moved_pos in *. change (total (moved f num)) with (total f) in *. destruct (decide (pos f + num = total f)) as [Hend|].
      * rewrite Hend, Z.mod_same in Hm by lia. by destruct Hm.
      * assert ((pos f + num) mod total f = pos f + num) as Em by (apply Z.mod_small; lia). rewrite Em in Hm, Hr. apply (Hcov (pos f) num); try lia; [set_solver|]. rewrite chunk_end_pred by done. lia.
  - set (left := total f - pos f) in *.
    assert ((pos f + num) mod total f = num - left) as Hpos.
    { replace (pos f + num) with (num - left + 1 * total f) by lia. rewrite Z.mod_add by lia. apply Z.mod_small. lia. }
    destruct Hx as [(r & Hr & Hx)|(Hm & Hr & HN)].
    + apply elem_of_cons in Hr as [->|Hr]; [|apply list_elem_of_singleton in Hr as ->]; cbn [vr_fbo vr_size] in *.
      * pose proof (chunk_end_ge (pos f + left - 1)). apply (Hcov (pos f) left); try lia. set_solver.
      * pose proof (chunk_end_ge (0 + (num - left) - 1)). apply (Hcov 0 (num - left)); try lia. set_solver.
    + rewrite moved_pos, Hpos in *. change (total (moved f num)) with (total f) in *.
      apply (Hcov 0 (num - left)); try lia; [set_solver|]. rewrite Z.add_0_l, chunk_end_pred by done. lia.
Qed.

(** With a chunk to spare, no block that is handed out is ahead of the next one. *)
Lemma granted_behind f num x :
  file_ok f -> 0 < num -> num + VBBM_CHUNK_SIZE <= total f -> granted (ring f num) x -> ~ ahead (moved f num) x.
Proof.
  intros [_ Hp Ht] Hn Hs (r & Hr & Hx) (Hm & Ha & _). rewrite moved_pos in *. unfold VBBM_CHUNK_SIZE in Hs. unfold ring in Hr.
  destruct (Z.leb_spec num (total f - pos f)) as [Hl|Hl].
  - apply list_elem_of_singleton in Hr as ->. cbn [vr_fbo vr_size] in Hx. destruct (decide (pos f + num = total f)) as [Hend|].
    + rewrite Hend, Z.mod_same in Hm by lia. by destruct Hm.
    + rewrite Z.mod_small in Ha by lia. lia.
  - assert ((pos f + num) mod total f = num - (total f - pos f)) as Hpos.
    { replace (pos f + num) with (num - (total f - pos f) + 1 * total f) by lia. rewrite Z.mod_add by lia. apply Z.mod_small. lia. }
    rewrite Hpos in *. unfold chunk_end, VBBM_CHUNK_SIZE in *.
    pose proof (Z.mul_div_le (num - (total f - pos f)) 100 ltac:(lia)).
    apply elem_of_cons in Hr as [->|Hr]; [|apply list_elem_of_singleton in Hr as ->]; cbn [vr_fbo vr_size] in Hx; lia.
Qed.

(** ** Clearing the windows of all ranges *)
Section ranges.
Context (fi size : Z) (rs0 : list VBRange).

Definition cleared (rs : list VBRange) (n : node) : Prop :=
  forall l v y, B n !! (l, v) = Some y -> ~ in_window size rs y.

Definition overflows (n0 : node) : Prop :=
  exists l v y, B n0 !! (l, v) = Some y /\ in_window size rs0 y /\ pinned (V n0) l v.

Lemma age_ranges_spec rs : forall n0 f,
  node_ok n0 -> zget (VBBM.files (VBBM.seg (vbbm n0))) fi = Some f -> VBBM.fileSize f = size -> (forall r, r ∈ rs -> r ∈ rs0) ->
  ends (age_ranges fi rs) n0
    (fun _ n => aged (in_window size rs0) n0 n /\ cleared rs n)
    (fun e n => aged (in_window size rs0) n0 n /\ is_overflow e /\ overflows n0).
Proof.
  induction rs as [|r rs IH]; intros n0 f Hok Hf Hsz Hin.
  { apply ends_wp, wp_ret. split; [by apply aged_refl|]. intros l v y _ (r & ? & ? & Hr & _). by apply not_elem_of_nil in Hr. }
  simpl age_ranges. apply ends_bind, ends_wp. eapply wp_lift; [by apply aget_Val|]. rewrite Hsz.
  apply ends_bind. eapply (ends_mono _ n0 (fun _ n => aged (in_window size rs0) n0 n /\ cleared [r] n) _
    (fun e n => aged (in_window size rs0) n0 n /\ is_overflow e /\ overflows n0)); [| |done].
  - destruct (age_window size r) as [[a b]|] eqn:Hw; cycle 1.
    { apply ends_wp, wp_ret. split; [by apply aged_refl|]. intros l v y _ (r' & a & b & Hr' & Hw' & _).
      apply list_elem_of_singleton in Hr' as ->. congruence. }
    apply ends_bind, ends_wp, wp_gets. eapply ends_mono; [apply (age_all_spec (in_window size rs0) n0 (vr_oid r) a b Hok)|..].
    + intros fbo Hb. exists r, a, b. split; [apply Hin; left|done].
    + intros fl n [Ha Hc]. split; [done|]. intros l v [o fbo] Hx (r' & a' & b' & Hr' & Hw' & Ho & Hb).
      apply list_elem_of_singleton in Hr' as ->. rewrite Hw in Hw'. simplify_eq. simpl in Ho, Hb. subst o. by apply (Hc _ _ _ Hx).
    + intros e n (Ha & He & l & v & fbo & Hx & Hb & Hp). split; [done|]. split; [done|]. exists l, v, (vr_oid r, fbo).
      split_and!; [done| |done]. exists r, a, b. split; [apply Hin; left|done].
  - intros fl n1 [Ha1 Hc1]. pose proof (aged_ok _ _ _ Hok Ha1) as Hok1. apply ends_bind.
    eapply ends_mono; [apply (IH n1 f Hok1)|..].
    + by rewrite (VBBMThms.op_files _ _ _ (ag_vb _ _ _ Ha1)).
    + done.
    + intros r' Hr'. apply Hin. by right.
    + intros rest n2 [Ha2 Hc2]. apply ends_wp, wp_ret. split; [eapply aged_trans; [apply (ok_inv _ Hok)|done|done]|].
      intros l v y Hy (r' & a & b & Hr' & Hw). apply elem_of_cons in Hr' as [->|Hr'].
      * pose proof (ag_B _ _ _ Ha2) as Hsub. rewrite map_subseteq_spec in Hsub. apply (Hc1 l v y (Hsub _ _ Hy)). exists r, a, b. split; [set_solver|done].
      * apply (Hc2 l v y Hy). by exists r', a, b.
    + intros e n2 (Ha2 & He & l & v & y & Hy & Hw & Hp). split; [eapply aged_trans; [apply (ok_inv _ Hok)|done|done]|]. split; [done|].
      exists l, v, y. pose proof (ag_B _ _ _ Ha1) as Hsub. rewrite map_subseteq_spec in Hsub. split; [by apply Hsub|]. split; [done|].
      by rewrite <- (pinned_stable _ n0 n1 l v y (ok_inv _ Hok) Ha1 Hy).
Qed.
End ranges.

(** ** The whole call *)

(** File [fi] is the one of its OID. *)
Record known (n : node) (fi : Z) (f : VBBM.VBFileMetadata) : Prop := {
  kn_file : zget (VBBM.files (VBBM.seg (vbbm n))) fi = Some f;
  kn_first : VBBM.find_file (VBBM.files (VBBM.seg (vbbm n))) (VBBM.OID f) 0 = fi;
  kn_ok : file_ok f }.

(** Nothing is stored in the rest of the chunk. *)
Definition clear_ahead (n : node) (f : VBBM.VBFileMetadata) : Prop :=
  forall l v x, B n !! (l, v) = Some (VBBM.OID f, x) -> ~ ahead f x.

Definition room (n : node) (k : Z) : Prop :=
  VBBM.vbCurrentSize (VBBM.hdr (VBBM.seg (vbbm n))) + k <= VBBM.vbCapacity (VBBM.hdr (VBBM.seg (vbbm n))).

(** The node after a request for [num] blocks of [f]. *)
Record reserved (n : node) (fi : Z) (f : VBBM.VBFileMetadata) (num : Z) (n' : node) : Prop := {
  rv_ok : node_ok n';
  rv_files : VBBM.files (VBBM.seg (vbbm n')) = zset (VBBM.files (VBBM.seg (vbbm n))) fi (moved f num);
  rv_B l v y : B n' !! (l, v) = Some y <-> B n !! (l, v) = Some y /\ ~ in_window (VBBM.fileSize f) (ring f num) y;
  rv_free l v x : B n' !! (l, v) = Some (VBBM.OID f, x) -> granted (ring f num) x \/ ahead (moved f num) x -> ahead f x;
  rv_pinned l v y : B n !! (l, v) = Some y -> pinned (V n) l v -> B n' !! (l, v) = Some y;
  rv_V : vss_follows (B n) (B n') (V n) (V n');
  rv_locked l v k : V n !! (l, v) = Some (k, true) -> V n' !! (l, v) = Some (k, true);
  rv_room : room n' num;
  rv_undo_vb : undoes (VBBM.seg (vbbm n)) (VBBM.undoRecords (vbbm n)) (VBBM.seg (vbbm n')) (VBBM.undoRecords (vbbm n'));
  rv_undo_vs : undoes (VSS.seg (vss n)) (VSS.undoRecords (vss n)) (VSS.seg (vss n')) (VSS.undoRecords (vss n'));
  rv_rest : copylocks n' = copylocks n /\ locked0 n' = locked0 n /\ locked1 n' = locked1 n /\ locked2 n' = locked2 n }.

Section request.
Context (n : node) (fi : Z) (f : VBBM.VBFileMetadata) (num : Z) (flush : bool).
Context (Hok : node_ok n) (Hk : known n fi f) (Hn : 0 < num < 2 ^ 31) (Hroom : room n num).

(** The node when the blocks are chosen. *)
Definition chosen (u : list (ImageDelta VBBM.Loc VBBM.Data)) : node :=
  set_vbbm (VBBM.set_undo u (at_file fi (moved f num) (vbbm n))) n.

Lemma chosen_ok u : node_ok (chosen u).
Proof.
  destruct Hok as [Hw ? ? ? ? ? ?]. split; try done. destruct Hw. split; try done. simpl. by rewrite zlen_zset.
Qed.

Lemma aged_reserved u n' : num <= total f ->
  undoes (VBBM.seg (vbbm n)) (VBBM.undoRecords (vbbm n)) (VBBM.seg (vbbm (chosen u))) u ->
  aged (in_window (VBBM.fileSize f) (ring f num)) (chosen u) n' -> cleared (VBBM.fileSize f) (ring f num) n' -> reserved n fi f num n'.
Proof.
  intros Hle Hu Ha Hcl. pose proof (ag_B _ _ _ Ha) as Hsub. rewrite map_subseteq_spec in Hsub. change (B (chosen u)) with (B n) in Hsub.
  assert (HB : forall l v y, B n' !! (l, v) = Some y <-> B n !! (l, v) = Some y /\ ~ in_window (VBBM.fileSize f) (ring f num) y).
  { intros l v y. split; [intros Hy; split; [by apply Hsub|by apply (Hcl _ _ _ Hy)]|]. intros [Hy Hw].
    destruct (B n' !! (l, v)) as [z|] eqn:Hz; [rewrite (Hsub _ _ Hz) in Hy; done|]. by destruct (ag_gone _ _ _ Ha _ _ _ Hy Hz). }
  destruct (ag_rest _ _ _ Ha) as (? & ? & ? & ? & _). split; try done.
  - eapply aged_ok; [apply chosen_ok|done].
  - apply (VBBMThms.op_files _ _ _ (ag_vb _ _ _ Ha)).
  - intros l v x Hx Hg. apply HB in Hx as [Hx Hw].
    destruct (ring_clear f num x (kn_ok _ _ _ Hk) ltac:(lia) Hg) as [?|?]; [done|by destruct Hw].
  - intros l v y Hy Hp. destruct (B n' !! (l, v)) as [z|] eqn:Hz; [rewrite (Hsub _ _ Hz) in Hy; done|].
    by destruct (ag_gone _ _ _ Ha _ _ _ Hy Hz).
  - exact (ag_vss _ _ _ Ha).
  - apply (ag_locked _ _ _ Ha).
  - unfold room in *. rewrite (VBBMThms.op_cap _ _ _ (ag_vb _ _ _ Ha)).
    assert (VBBM.vbCurrentSize (VBBM.hdr (VBBM.seg (vbbm n'))) <= VBBM.vbCurrentSize (VBBM.hdr (VBBM.seg (vbbm n)))); [|simpl; lia].
    rewrite <- (VBBMThms.wf_count _ _ (VBBMThms.op_wf _ _ _ (ag_vb _ _ _ Ha))), <- (VBBMThms.wf_count _ _ (ok_vbbm _ Hok)).
    rewrite <- !(size_contents _ VBBMThms.key VBBMThms.val).
    + apply inj_le. apply map_subseteq_size. by apply map_subseteq_spec.
    + apply (VBBMThms.wf_uniq _ _ (ok_vbbm _ Hok)).
    + apply (VBBMThms.wf_uniq _ _ (VBBMThms.op_wf _ _ _ (ag_vb _ _ _ Ha))).
  - eapply undoes_trans; [exact Hu|]. apply (VBBMThms.op_undo _ _ _ (ag_vb _ _ _ Ha)).
  - apply (VSSThms.op_undo _ _ _ (ag_vs _ _ _ Ha)).
Qed.

Lemma getBlocks_spec :
  ends (getBlocks num (VBBM.OID f) flush) n
    (fun rs n' => rs = ring f num /\ reserved n fi f num n')
    (fun e n' => is_overflow e /\ (total f < num \/ overflows (VBBM.fileSize f) (ring f num) n) /\ copylocks n' = copylocks n).
Proof.
  pose proof Hk as [Hf Hfst Hfo]. pose proof (ok_vbbm _ Hok) as Hwf. pose proof (zget_Some_range _ _ _ Hf) as Hr.
  assert (VBBM.addVBFileIfNotExists (VBBM.OID f) (vbbm n) = (Val fi, vbbm n)) as Hadd.
  { unfold VBBM.addVBFileIfNotExists. rewrite (bind_Val (gets _) _ _ fi (vbbm n)).
    - rewrite (bind_Val (gets _) _ _ false (vbbm n)); [by rewrite (bind_Val (mret tt) _ _ _ _ eq_refl)|].
      unfold gets. do 2 f_equal. apply Z.eqb_neq. rewrite <- (VBBMThms.wf_files _ _ Hwf). lia.
    - unfold gets. rewrite take_ge; [by rewrite Hfst|]. rewrite <- (VBBMThms.wf_files _ _ Hwf). unfold zlen. lia. }
  unfold getBlocks. apply ends_bind, ends_wp. apply wp_zoom. eapply run_wp; [exact Hadd|].
  replace (set_vbbm (vbbm n) n) with n by (by destruct n).
  apply ends_bind, ends_wp. eapply wp_lift; [by apply aget_Val|]. fold (total f). pose proof (fo_total _ Hfo).
  rewrite u32_small by lia. destruct (Z.ltb_spec (total f) num); [split; [by eexists|]; split; [by left|done]|].
  apply ends_bind, ends_wp. apply wp_zoom. eapply (run_wp _ _ tt (vbbm n)).
  { destruct (Z.to_nat (num + 2)); simpl; rewrite (bind_Val (gets _) _ _ false (vbbm n)); try done;
      unfold gets; do 2 f_equal; apply Z.ltb_ge; exact Hroom. }
  replace (set_vbbm (vbbm n) n) with n by (by destruct n).
  destruct (gather_blocks (Z.to_nat (num + 2)) fi num (vbbm n) f Hf Hfo ltac:(lia) ltac:(lia)) as (u & Hg & Hu).
  apply ends_bind, ends_wp. apply wp_zoom. eapply run_wp; [exact Hg|]. fold (chosen u).
  apply ends_bind. eapply ends_mono; [apply (age_ranges_spec fi (VBBM.fileSize f) (ring f num) (ring f num) (chosen u) (moved f num) (chosen_ok u))|..]; try done.
  - simpl. by apply zget_zset_eq.
  - intros fl n' [Ha Hcl]. apply ends_bind, ends_wp. pose proof (aged_reserved u n' ltac:(lia) Hu Ha Hcl) as Hres.
    destruct (flush && _); wp_step; apply ends_wp, wp_ret; (split; [done|]); [|done].
    destruct Hres as [[] ? ? ? ? ? ? ? ? ? ?]. split; try done; by split.
  - intros e n' (Ha & He & Hov). split; [done|]. split; [right; exact Hov|]. by destruct (ag_rest _ _ _ Ha) as [-> _].
Qed.
End request.

(** When nothing was ahead, what is handed out is free, and nothing is ahead again. *)
Lemma reserved_free n fi f num n' l v x : clear_ahead n f -> reserved n fi f num n' -> B n' !! (l, v) = Some (VBBM.OID f, x) ->
  ~ granted (ring f num) x /\ ~ ahead (moved f num) x.
Proof.
  intros Hc Hr Hx. apply (rv_B _ _ _ _ _ Hr) in Hx as Hx0. destruct Hx0 as [Hx0 _]. pose proof (Hc _ _ _ Hx0).
  split; intros Hg; [assert (ahead f x) by (apply (rv_free _ _ _ _ _ Hr _ _ _ Hx); by left)|
                     assert (ahead f x) by (apply (rv_free _ _ _ _ _ Hr _ _ _ Hx); by right)]; done.
Qed.
End VbRing.
