(* ===== verification/NodeClaims.v ===== *)
(** * Properties of the worker node *)

From S2P Require Import Prelude Chain Undoable Vbbm VbbmThms VbbmClaims Vss VssThms VssClaims CopyLocks CopyLocksClaims SlaveNode NodeThms.
From stdpp Require Import prelude gmap strings.
Local Open Scope Z_scope.

Module NodeClaims.
Import SlaveNode NodeThms.

(** A node with small empty tables and no locks held. *)
Definition cl0 : CopyLocks.t := CopyLocks.mk (CopyLocks.mkMem (CopyLocks.mkMST 0 32 0) [CopyLocks.blank; CopyLocks.blank]) [].
Definition node0 : node := mk VBBMClaims.obj0 VSSClaims.obj0 cl0 false false false [].

Lemma B_node0 : B node0 = ∅.
Proof. apply VBBMClaims.seg0_wf. Qed.
Lemma V_node0 : V node0 = ∅.
Proof. apply VSSClaims.vss_seg0_wf. Qed.

Lemma inv_empty : inv ∅ ∅.
Proof.
  split; intros *; rewrite ?lookup_empty; naive_solver.
Qed.

Lemma node0_ok : node_ok node0.
Proof.
  split; try done.
  - apply VBBMClaims.seg0_wf.
  - apply VSSClaims.vss_seg0_wf.
  - rewrite B_node0, V_node0. apply inv_empty.
Qed.

Lemma node0_current l : current (V node0) l 0 false.
Proof. right. split; [done|]. split; [done|]. intros v. by rewrite V_node0, lookup_empty. Qed.

(** The lookups of a reader go to the two maps. *)
Lemma vss_lookup_of n l qc txn r :
  node_ok n -> 0 <= VSS.currentScn qc -> r.1.1 = 0 ->
  VSSThms.resolves (VSSThms.visible (V n) l qc txn false) (VSS.currentScn qc) r ->
  VSS.lookup l qc txn false (VSS.seg (vss n)) = Val r.
Proof.
  intros Hok Hs H0 Hr.
  destruct (VSSThms.lookup_resolves (VSS.seg (vss n)) l qc txn false
    (VSSThms.wf_tab _ _ _ (ok_vss _ Hok)) Hs) as (r' & -> & Hr').
  { intros v x Hx. by destruct (inv_key _ _ (ok_inv _ Hok) _ _ _ Hx). }
  destruct (resolves_fun _ _ _ _ _ _ _ Hr Hr') as [_ ->]; done.
Qed.

Lemma vss_lookup_inv n l qc txn r :
  node_ok n -> 0 <= VSS.currentScn qc -> VSS.lookup l qc txn false (VSS.seg (vss n)) = Val r ->
  VSSThms.resolves (VSSThms.visible (V n) l qc txn false) (VSS.currentScn qc) r.
Proof.
  intros Hok Hs Hl.
  destruct (VSSThms.lookup_resolves (VSS.seg (vss n)) l qc txn false
    (VSSThms.wf_tab _ _ _ (ok_vss _ Hok)) Hs) as (r' & Hl' & Hr').
  { intros v x Hx. by destruct (inv_key _ _ (ok_inv _ Hok) _ _ _ Hx). }
  rewrite Hl in Hl'. by injection Hl' as ->.
Qed.

Lemma vbbm_lookup_of n l v :
  node_ok n -> 0 <= l -> 0 <= v -> VBBM.lookup l v (vbbm n) = Val (B n !! (l, v)).
Proof. intros Hok. apply VBBMThms.lookup_abs, (ok_vbbm _ Hok). Qed.

(** C1. Snapshot isolation of readers under [writeVBEntry].  When transaction
    [t] overwrites block [l] (current version [cur < t], not locked), the call
    succeeds and keeps the invariant between the tables, and every reader that may
    not see [t] still resolves the same version of the block: if it read the
    current version it now finds it in the version buffer, exactly where the
    caller put the old block ([oid], [fbo]); buffered versions are found where they
    were; a block the VSS did not know is found as version 0 in the buffer. *)
Theorem node_write_snapshot n t l oid fbo cur :
  node_ok n -> growable n -> 0 <= l -> current (V n) l cur false -> cur < t ->
  wp (writeVBEntry t l oid fbo) n (fun c n' => c = 0 /\ node_ok n' /\
    forall qc txn, t ∈ VSS.txns qc -> txn <> t -> 0 <= VSS.currentScn qc ->
      (forall v f, VSS.lookup l qc txn false (VSS.seg (vss n)) = Val (0, v, f) ->
         VSS.lookup l qc txn false (VSS.seg (vss n')) = Val (0, v, if v =? cur then true else f) /\
         VBBM.lookup l v (vbbm n') = (if v =? cur then Val (Some (oid, fbo)) else VBBM.lookup l v (vbbm n))) /\
      ((forall v, V n !! (l, v) = None) -> 0 ∉ VSS.txns qc ->
         VSS.lookup l qc txn false (VSS.seg (vss n')) = Val (0, 0, true) /\
         VBBM.lookup l 0 (vbbm n') = Val (Some (oid, fbo)))).
Proof.
  intros Hok Hg Hl Hc Hlt. eapply wp_mono; [by apply writeVBEntry_spec|].
  intros c n' (-> & Hok' & HB & HV & _). split; [done|]. split; [done|].
  pose proof (ok_inv _ Hok) as Hinv. pose proof (cur_nonneg _ _ _ _ _ Hinv Hc) as H0.
  intros qc txn Hopen Hne Hs. split.
  - intros v f Hlk%vss_lookup_inv; [|done..].
    assert (Hv0 : 0 <= v).
    { destruct Hlk as [(_ & [[k Hk] _] & _)|[(? & _)|(? & _)]]; [|done..].
      by destruct (inv_key _ _ Hinv _ _ _ Hk). }
    rewrite !vbbm_lookup_of by done. rewrite HB. split.
    + apply vss_lookup_of; try done. rewrite HV. by eapply resolves_wrote.
    + rewrite lookup_insert. destruct (Z.eqb_spec v cur) as [->|]; case_decide; naive_solver.
  - intros Hno H0n. assert (cur = 0) as ->.
    { destruct Hc as [Hc|(-> & _)]; [|done]. by rewrite Hno in Hc. }
    rewrite vbbm_lookup_of, HB, lookup_insert_eq by done. split; [|done].
    apply vss_lookup_of; try done. rewrite HV. by eapply resolves_wrote_new.
Qed.

Lemma node_write_snapshot_witness :
  wp (writeVBEntry 5 7 3001 40) node0 (fun c n' => c = 0 /\
    VSS.lookup 7 (VSS.mkQC 9 {[5]}) 8 false (VSS.seg (vss n')) = Val (0, 0, true) /\
    VBBM.lookup 7 0 (vbbm n') = Val (Some (3001, 40))).
Proof.
  eapply wp_mono; [apply (node_write_snapshot node0 5 7 3001 40 0 node0_ok)|].
  - done.
  - lia.
  - apply node0_current.
  - lia.
  - intros c n' (-> & _ & Hr). split; [done|].
    apply (Hr (VSS.mkQC 9 {[5]}) 8); [simpl; by rewrite elem_of_singleton|lia|done|..].
    + intros v. by rewrite V_node0, lookup_empty.
    + simpl. by rewrite elem_of_singleton.
Defined.

(** Read your own writes: after [writeVBEntry] the writing transaction
    resolves the block to its own new version, in the main files. *)
Theorem node_write_own n t l oid fbo cur :
  node_ok n -> growable n -> 0 <= l -> current (V n) l cur false -> cur < t ->
  wp (writeVBEntry t l oid fbo) n (fun c n' => c = 0 /\
    forall qc, t <= VSS.currentScn qc ->
      VSS.lookup l qc t false (VSS.seg (vss n')) = Val (0, t, false)).
Proof.
  intros Hok Hg Hl Hc Hlt. eapply wp_mono; [by apply writeVBEntry_spec|].
  intros c n' (-> & Hok' & HB & HV & _). split; [done|]. intros qc Hs.
  pose proof (cur_nonneg _ _ _ _ _ (ok_inv _ Hok) Hc) as H0.
  apply vss_lookup_of; [done|lia|done|]. rewrite HV. by apply (resolves_own (B n)), Hs; try apply (ok_inv _ Hok).
Qed.

Lemma node_write_own_witness :
  wp (writeVBEntry 5 7 3001 40) node0 (fun c n' => c = 0 /\
    forall qc, 5 <= VSS.currentScn qc ->
      VSS.lookup 7 qc 5 false (VSS.seg (vss n')) = Val (0, 5, false)).
Proof.
  apply (node_write_own node0 5 7 3001 40 0 node0_ok); [done|lia|apply node0_current|lia].
Defined.

(** Version numbers only grow: a transaction that tries to overwrite a block
    last written by a newer one gets [ERR_OLDTXN_OVERWRITING_NEWTXN], a second
    write by the same transaction is a success, and neither changes the tables. *)
Theorem node_write_order n t l oid fbo cur k :
  node_ok n -> current (V n) l cur k -> t <= cur ->
  wp (writeVBEntry t l oid fbo) n (fun c n' =>
    c = (if cur =? t then 0 else ERR_OLDTXN_OVERWRITING_NEWTXN) /\
    vbbm n' = vbbm n /\ vss n' = vss n /\ copylocks n' = copylocks n).
Proof.
  intros Hok Hc Hle. eapply wp_mono; [by eapply writeVBEntry_stale|]. intros c n' [-> ->]. done.
Qed.

Lemma node_write_order_witness :
  wp (writeVBEntry (-1) 7 3001 40) node0 (fun c n' => c = 17 /\
    vbbm n' = vbbm node0 /\ vss n' = vss node0 /\ copylocks n' = copylocks node0).
Proof.
  apply (node_write_order node0 (-1) 7 3001 40 0 false node0_ok (node0_current 7)). lia.
Defined.

(** C2. [vbRollback] undoes [writeVBEntry]: rolling the written block back
    restores the VBBM map exactly, and the VSS map exactly too unless no version
    of the block is in the buffer or locked, in which case the block is forgotten
    (its only version is the one in the main files); the transaction's copy locks
    are gone. *)
Theorem node_rollback_undoes_write n t l oid fbo cur flushPM :
  node_ok n -> growable n -> 0 <= l -> current (V n) l cur false -> cur < t ->
  wp (writeVBEntry t l oid fbo ;; vbRollback_lbids t [l] flushPM) n (fun c n' =>
    c = 0 /\ node_ok n' /\ B n' = B n /\ V n' = rolled_back l (V n) /\
    CopyLocksThms.held (CopyLocks.mem (copylocks n'))
    = filter (fun e => (CopyLocks.txnID e =? t) = false) (CopyLocksThms.held (CopyLocks.mem (copylocks n)))).
Proof.
  intros Hok Hg Hl Hc Hlt. wp_step. eapply wp_mono; [by apply writeVBEntry_spec|].
  intros c n1 (-> & Hok1 & HB & HV & Hcl & _). unfold vbRollback_lbids. wp_step. wp_step.
  apply wp_lock_vbbm; [apply (ok_vba _ Hok1)|]. wp_step. apply wp_lock_vss; [apply (ok_vsa _ Hok1)|].
  wp_step. apply wp_lock_cl; [apply (ok_cla _ Hok1)|]. node_step. node_step.
  eapply wp_mono; [apply CopyLocksThms.release_where_spec, (ok_cl _ Hok1)|].
  intros [] cl (Hwcl & Hh & _ & Hz). simpl. wp_step. wp_step.
  eapply wp_mono; [eapply (rollback_block_spec _ (B n) (V n) t l cur (oid, fbo))|]; try done.
  - destruct Hok1 as [? ? Hwc ? ? Hal ?]. split; simpl; try done.
    rewrite (CopyLocksThms.wf_alloc _ Hwcl), Hz. simpl. by rewrite <- (CopyLocksThms.wf_alloc _ Hwc).
  - apply (ok_inv _ Hok).
  - intros fl n2 (Hok2 & HB2 & HV2 & Hcl2). simpl in Hcl2. wp_step. simpl. wp_step. wp_step.
    assert (Hend : forall n3, node_ok n3 -> B n3 = B n -> V n3 = rolled_back l (V n) -> copylocks n3 = cl ->
      0 = 0 /\ node_ok n3 /\ B n3 = B n /\ V n3 = rolled_back l (V n) /\
      CopyLocksThms.held (CopyLocks.mem (copylocks n3))
      = filter (fun e => (CopyLocks.txnID e =? t) = false) (CopyLocksThms.held (CopyLocks.mem (copylocks n)))).
    { intros n3 ? ? ? Hcl3. split_and!; try done. rewrite Hcl3, Hh. simpl. by rewrite Hcl. }
    destruct (flushPM && _); wp_steps; apply Hend; try done. destruct Hok2. by split.
Qed.

Lemma node_rollback_undoes_write_witness :
  wp (writeVBEntry 5 7 3001 40 ;; vbRollback_lbids 5 [7] true) node0 (fun c n' =>
    c = 0 /\ B n' = ∅ /\ V n' = ∅).
Proof.
  eapply wp_mono; [apply (node_rollback_undoes_write node0 5 7 3001 40 0 true node0_ok)|].
  - done.
  - lia.
  - apply node0_current.
  - lia.
  - intros c n' (-> & _ & -> & -> & _). split; [done|]. rewrite B_node0, V_node0. split; [done|].
    vm_compute. done.
Defined.

(** [vbCommit] makes exactly the transaction's versions unlocked; versions,
    buffer flags and buffer locations are unchanged, and the tables stay
    consistent. *)
Theorem node_commit n t :
  node_ok n -> (forall l x, V n !! (l, t) = Some x -> x.2 = true) ->
  wp (vbCommit t) n (fun c n' => c = 0 /\ node_ok n' /\ B n' = B n /\
    (forall l v, V n' !! (l, v) = (fun x => if v =? t then (x.1, false) else x) <$> V n !! (l, v))).
Proof.
  intros Hok Hlk. eapply wp_mono; [by apply vbCommit_spec|]. intros c n' (-> & Hok' & HB & HV).
  split_and!; try done. intros l v. rewrite HV. unfold VSSThms.commit_spec. rewrite map_lookup_imap.
  by destruct (V n !! (l, v)).
Qed.

Lemma node_commit_witness :
  wp (vbCommit 5) node0 (fun c n' => c = 0 /\ node_ok n' /\ B n' = B node0).
Proof.
  eapply wp_mono; [apply (node_commit node0 5 node0_ok)|].
  - intros l x. rewrite V_node0, lookup_empty. done.
  - intros c n' (? & ? & ? & _). done.
Defined.

(** A failed command leaves no trace: with room in the segments and empty
    logs, [writeVBEntry] followed by the node's [undoChanges] restores the VBBM,
    the VSS, the copy locks and the lock flags exactly. *)
Theorem node_undo_restores n t l oid fbo cur :
  node_ok n -> 0 <= l -> current (V n) l cur false -> cur < t ->
  VBBM.vbCurrentSize (VBBM.hdr (VBBM.seg (vbbm n))) < VBBM.vbCapacity (VBBM.hdr (VBBM.seg (vbbm n))) ->
  VSS.currentSize (VSS.hdr (VSS.seg (vss n))) + 2 <= VSS.capacity (VSS.hdr (VSS.seg (vss n))) ->
  VBBM.undoRecords (vbbm n) = [] -> VSS.undoRecords (vss n) = [] ->
  locked0 n = false -> locked1 n = false -> locked2 n = false ->
  wp (writeVBEntry t l oid fbo ;; undoChanges) n (fun _ n' => n' = n).
Proof.
  intros Hok Hl Hc Hlt Hrb Hrs Hub Hus Hl0 Hl1 Hl2. unfold writeVBEntry. wp_step. wp_step. wp_step.
  apply wp_lock_vbbm; [apply (ok_vba _ Hok)|]. wp_step. apply wp_lock_vss; [apply (ok_vsa _ Hok)|]. wp_step.
  eapply wp_mono; [apply (write_block_room _ t l oid fbo cur)|]; try done.
  { destruct Hok. by split. }
  intros r n' (-> & (Hcl & H0 & H1 & H2 & Hfl) & [mb Hb] & [ms Hs]). wp_step. simpl in *.
  unfold undoChanges. wp_step. wp_step. rewrite H0. node_step. node_step. node_step.
  pose proof (VBBMThms.op_undo _ _ _ Hb) as Hu. rewrite Hub in Hu.
  unfold VBBM.undo at 1. unfold wp at 1. rewrite (undoes_undoChanges _ _ _ Hu). cbn iota.
  wp_steps. simpl. rewrite H1. node_step. node_step.
  pose proof (VSSThms.op_undo _ _ _ Hs) as Hu'. rewrite Hus in Hu'.
  unfold VSS.undo at 1. unfold wp at 1. simpl. rewrite (undoes_undoChanges _ _ _ Hu'). cbn iota.
  wp_steps. simpl. rewrite H2, Hl2. wp_steps.
  destruct (VBBMThms.op_env _ _ _ Hb) as (? & ? & ?). pose proof (VSSThms.op_alloc _ _ _ Hs).
  destruct n as [[] [] ? ? ? ? ?], n' as [[] [] ? ? ? ? ?]. simpl in *. subst. done.
Qed.

Lemma node_undo_restores_witness :
  wp (writeVBEntry 5 7 3001 40 ;; undoChanges) node0 (fun _ n' => n' = node0).
Proof.
  apply (node_undo_restores node0 5 7 3001 40 0 node0_ok); try done; try lia. apply node0_current.
Defined.
End NodeClaims.
