(* ===== verification/VbClaims.v ===== *)
(** * The version buffer: properties

    The blocks getBlocks hands out, and [SlaveDBRMNode::beginVBCopy] (SlaveNode.v): check
    that no other transaction has a block locked, take the copy locks of the ranges,
    reserve the blocks; when the buffer overflows give the locks back. *)

From S2P Require Import Prelude Chain Undoable Vbbm VbbmThms VbbmClaims Vss VssThms VssClaims CopyLocks CopyLocksClaims SlaveNode NodeThms NodePurge VbRing NodeClaims.
From stdpp Require Import prelude gmap strings.
Local Open Scope Z_scope.

(** ** Properties of the version buffer

    Blocks of the version buffer are handed out round-robin; old versions are dropped
    ahead of the next block.  The theorems: a request gets free blocks or fails because a
    version is still needed, and no two versions are ever stored in the same block. *)

Module VbClaims.
Import SlaveNode NodeThms VbAge VbRing.


(** ** Histories *)

(** A node with the blocks that were handed out and not used yet. *)
Abbreviation vstate := (node * (Z -> Prop))%type.

Definition fits_write (n : node) : Prop :=
  room n 1 /\ VSS.currentSize (VSS.hdr (VSS.seg (vss n))) + 2 <= VSS.capacity (VSS.hdr (VSS.seg (vss n))).

(** What happens to the buffer's file [fi]: blocks are handed out, with a chunk to spare;
    a writer puts the old version of a block into one of them; transactions commit,
    blocks are deleted, commands are confirmed. *)
Inductive vstep (fi : Z) : vstate -> vstate -> Prop :=
| s_reserve n G f num flush rs n' :
    known n fi f -> 0 < num -> num + VBBM_CHUNK_SIZE <= total f -> room n num ->
    getBlocks num (VBBM.OID f) flush n = (Val rs, n') -> vstep fi (n, G) (n', granted rs)
| s_write n (G : Z -> Prop) f t l cur fbo n' :
    known n fi f -> G fbo -> 0 <= l -> current (V n) l cur false -> cur < t -> growable n -> fits_write n ->
    writeVBEntry t l (VBBM.OID f) fbo n = (Val 0, n') -> vstep fi (n, G) (n', fun x => G x /\ x <> fbo)
| s_commit n G t n' :
    (forall l x, V n !! (l, t) = Some x -> x.2 = true) -> vbCommit t n = (Val 0, n') -> vstep fi (n, G) (n', G)
| s_delete n G r n' :
    0 <= VSS.r_size r -> removeEntriesFromDB r true n = (Val tt, n') -> vstep fi (n, G) (n', G)
| s_confirm n G n' :
    confirmChanges n = (Val tt, n') -> vstep fi (n, G) (n', G).

(** No two versions in one block; nothing ahead; blocks that are handed out are empty. *)
Record exclusive (fi : Z) (s : vstate) : Prop := {
  ex_ok : node_ok s.1;
  ex_file : exists f, known s.1 fi f /\ clear_ahead s.1 f /\
    (forall k k' x, B s.1 !! k = Some (VBBM.OID f, x) -> B s.1 !! k' = Some (VBBM.OID f, x) -> k = k') /\
    (forall x, s.2 x -> ~ ahead f x /\ forall k, B s.1 !! k <> Some (VBBM.OID f, x)) }.

Lemma known_same n n' fi f : VBBM.files (VBBM.seg (vbbm n')) = VBBM.files (VBBM.seg (vbbm n)) -> known n fi f -> known n' fi f.
Proof. intros He [? ? ?]. by split; rewrite ?He. Qed.

Lemma known_fun n fi f f' : known n fi f -> known n fi f' -> f = f'.
Proof. intros [H _ _] [H' _ _]. congruence. Qed.

(** Versions that leave do no harm. *)
Lemma exclusive_shrink fi n n' G :
  node_ok n' -> VBBM.files (VBBM.seg (vbbm n')) = VBBM.files (VBBM.seg (vbbm n)) -> B n' ⊆ B n ->
  exclusive fi (n, G) -> exclusive fi (n', G).
Proof.
  intros Hok He Hsub [_ (f & Hk & Hc & Hu & Hg)]. rewrite map_subseteq_spec in Hsub. split; [done|]. exists f. simpl in *.
  split; [by eapply known_same|]. split; [intros l v x Hx; by apply (Hc l v), Hsub|].
  split; [intros k k' x Hx Hx'; by apply (Hu k k' x); apply Hsub|].
  intros x Hx. destruct (Hg x Hx) as [Ha Hn]. split; [done|]. intros k Hk'. by apply (Hn k), Hsub.
Qed.

Lemma find_file_zset fs oid : forall fi i f f',
  zget fs fi = Some f -> VBBM.OID f' = VBBM.OID f -> VBBM.find_file (zset fs fi f') oid i = VBBM.find_file fs oid i.
Proof.
  induction fs as [|g fs IH]; intros fi i f f' Hz Ho; [apply zget_Some_range in Hz; unfold zlen in Hz; simpl in Hz; lia|]. unfold zget, zset in *. destruct (fi <? 0) eqn:Hneg; [done|].
  destruct (Z.to_nat fi) as [|k] eqn:Hk; simpl in *.
  - simplify_eq. by rewrite Ho.
  - destruct (VBBM.OID g =? oid); [done|]. specialize (IH (Z.of_nat k) (i + 1) f f').
    destruct (Z.ltb_spec (Z.of_nat k) 0); [lia|]. rewrite Nat2Z.id in IH. by apply IH.
Qed.

Lemma reserved_known n fi f num n' : known n fi f -> reserved n fi f num n' -> known n' fi (moved f num).
Proof.
  intros [Hf Hfst Hfo] Hr. split; rewrite ?(rv_files _ _ _ _ _ Hr).
  - apply zget_zset_eq. by eapply zget_Some_range.
  - simpl. by rewrite (find_file_zset _ _ _ _ f).
  - by apply moved_ok.
Qed.

Lemma exclusive_reserve fi n G f num flush rs n' :
  exclusive fi (n, G) -> known n fi f -> 0 < num -> num + VBBM_CHUNK_SIZE <= total f -> room n num ->
  getBlocks num (VBBM.OID f) flush n = (Val rs, n') -> exclusive fi (n', granted rs).
Proof.
  intros [Hok (f' & Hk' & Hc & Hu & _)] Hk Hn Hs Hr Hrun. simpl in *. rewrite <- (known_fun _ _ _ _ Hk Hk') in *. clear f' Hk'.
  unfold VBBM_CHUNK_SIZE in Hs. pose proof (getBlocks_spec n fi f num flush Hok Hk ltac:(pose proof (fo_total _ (kn_ok _ _ _ Hk)); lia) Hr) as He.
  unfold ends in He. rewrite Hrun in He. destruct He as [-> Hres]. split; [apply (rv_ok _ _ _ _ _ Hres)|].
  exists (moved f num). simpl. split; [by eapply reserved_known|]. split; [intros l v x Hx; by apply (reserved_free _ _ _ _ _ l v x Hc Hres Hx)|]. split.
  - intros [l v] [l' v'] x Hx Hx'. apply (rv_B _ _ _ _ _ Hres) in Hx as [Hx _]. apply (rv_B _ _ _ _ _ Hres) in Hx' as [Hx' _]. by eapply Hu.
  - intros x Hx. split; [apply granted_behind; [apply (kn_ok _ _ _ Hk)|done|unfold VBBM_CHUNK_SIZE; lia|done]|].
    intros [l v] Hlv. destruct (reserved_free _ _ _ _ _ l v x Hc Hres Hlv) as [Hfr _]. by apply Hfr.
Qed.

Lemma writeVBEntry_files n t l oid fbo cur :
  node_ok n -> 0 <= l -> current (V n) l cur false -> cur < t -> fits_write n ->
  wp (writeVBEntry t l oid fbo) n (fun _ n' => VBBM.files (VBBM.seg (vbbm n')) = VBBM.files (VBBM.seg (vbbm n))).
Proof.
  intros Hok Hl Hc Hlt [Hr Hs]. unfold room in Hr. unfold writeVBEntry. wp_step. wp_step.
  apply wp_lock_vbbm; [apply (ok_vba _ Hok)|]. wp_step. apply wp_lock_vss; [apply (ok_vsa _ Hok)|]. wp_step.
  eapply wp_mono; [apply (write_block_room _ t l oid fbo cur)|]; try done.
  - destruct Hok. by split.
  - simpl. lia.
  - intros r n' (_ & _ & (m & Hp) & _). wp_step. apply (VBBMThms.op_files _ _ _ Hp).
Qed.

Lemma exclusive_write fi n (G : Z -> Prop) f t l cur fbo n' :
  exclusive fi (n, G) -> known n fi f -> G fbo -> 0 <= l -> current (V n) l cur false -> cur < t -> growable n -> fits_write n ->
  writeVBEntry t l (VBBM.OID f) fbo n = (Val 0, n') -> exclusive fi (n', fun x => G x /\ x <> fbo).
Proof.
  intros [Hok (f' & Hk' & Hc & Hu & Hg)] Hk HG Hl Hcur Hlt Hgr Hfit Hrun. simpl in *. rewrite <- (known_fun _ _ _ _ Hk Hk') in *. clear f' Hk'.
  pose proof (writeVBEntry_spec n t l (VBBM.OID f) fbo cur Hok Hgr Hl Hcur Hlt) as H1.
  pose proof (writeVBEntry_files n t l (VBBM.OID f) fbo cur Hok Hl Hcur Hlt Hfit) as H2.
  unfold wp in H1, H2. rewrite Hrun in H1, H2. destruct H1 as (_ & Hok' & HB & _). destruct (Hg _ HG) as [Hna Hne].
  split; [done|]. exists f. simpl. rewrite HB. split; [by eapply known_same|]. split; [|split].
  - intros l' v' x. rewrite HB, lookup_insert. case_decide; [|apply Hc]. by intros [= <-].
  - intros k k' x. rewrite !lookup_insert. repeat case_decide; subst; try done.
    + intros [= <-] Hx. by apply Hne in Hx.
    + intros Hx [= <-]. by apply Hne in Hx.
    + apply Hu.
  - intros x [Hx Hxf]. destruct (Hg x Hx) as [Ha Hn]. split; [done|]. intros k. rewrite lookup_insert. case_decide; [congruence|apply Hn].
Qed.

Lemma confirm_keeps n n' :
  node_ok n -> confirmChanges n = (Val tt, n') ->
  node_ok n' /\ VBBM.files (VBBM.seg (vbbm n')) = VBBM.files (VBBM.seg (vbbm n)) /\ B n' = B n.
Proof.
  intros [? ? ? ? ? ? ?]. destruct n as [b s c [] [] [] fl]; intros [= <-]; (split; [by split|done]).
Qed.

Lemma commit_vbbm n t :
  node_ok n -> (forall l x, V n !! (l, t) = Some x -> x.2 = true) -> wp (vbCommit t) n (fun _ n' => vbbm n' = vbbm n).
Proof.
  intros Hok Hlk. unfold vbCommit. wp_step. wp_step. apply wp_lock_vss; [apply (ok_vsa _ Hok)|]. node_step. node_step.
  eapply wp_mono; [apply VSSThms.commit_post; [apply (ok_vss _ Hok)|done]|]. intros [] v _. by wp_step.
Qed.

Lemma exclusive_step fi s s' : vstep fi s s' -> exclusive fi s -> exclusive fi s'.
Proof.
  intros Hst Hex. pose proof (ex_ok _ _ Hex) as Hok. destruct Hst as [| |n G t n' Hlk Hrun|n G r n' Hr Hrun|n G n' Hrun]; simpl in Hok.
  - by eapply exclusive_reserve.
  - by eapply exclusive_write.
  - pose proof (vbCommit_spec n t Hok Hlk) as H1. unfold wp in H1. rewrite Hrun in H1. destruct H1 as (_ & Hok' & HB & _).
    apply (exclusive_shrink fi n); try done; [|by rewrite HB].
    pose proof (commit_vbbm n t Hok Hlk) as H2. unfold wp in H2. rewrite Hrun in H2. by rewrite H2.
  - pose proof (NodePurge.removeEntriesFromDB_spec n r (NodePurge.node_ok_tidy n Hok) Hr) as H1. unfold wp in H1. rewrite Hrun in H1.
    pose proof (NodePurge.swept_cleaned _ _ _ H1) as Hcl. apply (exclusive_shrink fi n); try done.
    + by eapply NodePurge.cleaned_ok.
    + apply (VBBMThms.op_files _ _ _ (NodePurge.cl_vb _ _ _ Hcl)).
    + rewrite (NodePurge.cleaned_B _ _ _ Hcl). apply map_filter_subseteq.
  - destruct (confirm_keeps n n' Hok Hrun) as (Hok' & He & HB). apply (exclusive_shrink fi n); try done. by rewrite HB.
Qed.

(** C23. No two versions are ever stored in the same block of the version buffer: in every
    history of requests that leave a chunk of the file to spare, of writes into blocks
    that the last request handed out, of commits, deletions and confirmations. *)
Theorem version_buffer_exclusive fi n G n' G' :
  exclusive fi (n, G) -> rtc (vstep fi) (n, G) (n', G') ->
  exists f, known n' fi f /\ forall l v l' v' x,
    VBBM.lookup l v (vbbm n') = Val (Some (VBBM.OID f, x)) -> VBBM.lookup l' v' (vbbm n') = Val (Some (VBBM.OID f, x)) ->
    (l, v) = (l', v').
Proof.
  intros Hex Hst. assert (exclusive fi (n', G')) as [Hok (f & Hk & _ & Hu & _)].
  { revert Hex. induction Hst as [|s1 s2 s3 H1 _ IH]; [done|]. intros Hex. apply IH. by eapply exclusive_step. }
  exists f. split; [done|]. intros l v l' v' x Hl Hl'. simpl in *.
  assert (forall a b y, VBBM.lookup a b (vbbm n') = Val (Some y) -> B n' !! (a, b) = Some y) as Hlk.
  { intros a b y Hy. destruct (Z.lt_ge_cases a 0); [by unfold VBBM.lookup in Hy; destruct (Z.ltb_spec a 0); [|lia]|].
    destruct (Z.lt_ge_cases b 0); [by unfold VBBM.lookup in Hy; destruct (Z.ltb_spec a 0); [lia|]; destruct (Z.ltb_spec b 0); [|lia]|].
    rewrite NodeClaims.vbbm_lookup_of in Hy by done. by injection Hy. }
  by eapply Hu; apply Hlk.
Qed.

(** ** Examples *)

(** A file of 350 blocks, the next one is block 70; both tables are empty. *)
Definition fileR (blocks next : Z) : VBBM.VBFileMetadata := VBBM.mkFile 3001 (blocks * BLOCK_SIZE) (next * BLOCK_SIZE).
Definition nodeR (blocks next : Z) : node :=
  set_vbbm (VBBM.mk (VBBM.mkSeg 262145 (VBBM.mkHdr 1 200 0 0 20) [fileR blocks next] (replicate 20 (-1)) (replicate 200 VBBM.blank)) 4980 [] 0 (Some 2147483648))
    NodeClaims.node0.

Lemma B_nodeR b x : B (nodeR b x) = ∅.
Proof. apply (VBBMThms.wf_blank 262145 (VBBM.mkHdr 1 200 0 0 20) [fileR b x]); done. Qed.

Lemma nodeR_ok b x : node_ok (nodeR b x).
Proof.
  destruct NodeClaims.node0_ok as [_ ? ? ? ? ? ?]. split; try done.
  - apply (VBBMThms.wf_blank 262145 (VBBM.mkHdr 1 200 0 0 20) [fileR b x]); done.
Qed.

Lemma nodeR_known : known (nodeR 350 70) 0 (fileR 350 70).
Proof. split; [done|done|]. split; vm_compute; intuition congruence. Qed.

Lemma nodeR_clear b x : clear_ahead (nodeR b x) (fileR b x).
Proof. intros l v y. by rewrite B_nodeR, lookup_empty. Qed.


(** Two blocks are written into a request's blocks. *)
Lemma version_buffer_exclusive_witness :
  exists n2 G, rtc (vstep 0) (nodeR 350 70, fun _ => False) (n2, G) /\
    VBBM.lookup 7 0 (vbbm n2) = Val (Some (3001, 75)) /\
    forall l v, VBBM.lookup l v (vbbm n2) = Val (Some (3001, 75)) -> (7, 0) = (l, v).
Proof.
  set (r1 := getBlocks 60 3001 true (nodeR 350 70)). set (r2 := writeVBEntry 5 7 3001 75 r1.2).
  assert (exclusive 0 (nodeR 350 70, fun _ => False)) as Hex.
  { split; [apply nodeR_ok|]. exists (fileR 350 70). split; [apply nodeR_known|]. split; [apply nodeR_clear|]. simpl. rewrite B_nodeR. by split; intros *. }
  assert (rtc (vstep 0) (nodeR 350 70, fun _ => False) (r2.2, fun x => granted [mkVBRange 3001 70 60] x /\ x <> 75)) as Hst.
  { eapply rtc_l; [|eapply rtc_l; [|apply rtc_refl]].
    - apply (s_reserve 0 _ _ (fileR 350 70) 60 true [mkVBRange 3001 70 60] r1.2 nodeR_known); [lia|vm_compute; congruence|vm_compute; congruence|].
      vm_compute. reflexivity.
    - apply (s_write 0 r1.2 _ (VBBM.mkFile 3001 (350 * 8192) (130 * 8192)) 5 7 0 75).
      + split; [vm_compute; reflexivity|vm_compute; reflexivity|split; vm_compute; intuition congruence].
      + exists (mkVBRange 3001 70 60). split; [by left|simpl; lia].
      + lia.
      + right. split; [done|]. split; [done|]. intros v. vm_compute. done.
      + lia.
      + repeat split; vm_compute; reflexivity.
      + split; vm_compute; congruence.
      + vm_compute. reflexivity. }
  destruct (version_buffer_exclusive 0 _ _ _ _ Hex Hst) as (f & Hk & Hu). eexists _, _. split; [exact Hst|].
  assert (VBBM.lookup 7 0 (vbbm r2.2) = Val (Some (3001, 75))) as Hl by (vm_compute; reflexivity). split; [exact Hl|].
  assert (VBBM.OID f = 3001) as Ho.
  { pose proof (kn_file _ _ _ Hk) as Hf. apply (f_equal (fmap VBBM.OID)) in Hf. vm_compute in Hf. by injection Hf. }
  rewrite Ho in Hu. intros l v Hlv. exact (Hu 7 0 l v 75 Hl Hlv).
Defined.

(** Without a chunk to spare blocks are handed out twice: a request for all 150
    blocks of a file that stands at block 70 ends at block 70 again, in the middle of a
    chunk that counts as cleared, so the next request gets block 75 although a version
    was written there, and a second version goes to the same place. *)
Theorem version_buffer_lapped :
  let run := (_ ← getBlocks 150 3001 true; a ← writeVBEntry 5 7 3001 75; rs ← getBlocks 10 3001 true;
              b ← writeVBEntry 5 8 3001 75; mret (a, rs, b)) (nodeR 150 70) in
  run.1 = Val (0, [mkVBRange 3001 70 10], 0) /\
  VBBM.lookup 7 0 (vbbm run.2) = Val (Some (3001, 75)) /\ VBBM.lookup 8 0 (vbbm run.2) = Val (Some (3001, 75)).
Proof. vm_compute. split_and!; reflexivity. Qed.
End VbClaims.

Module VbCopy.
Import SlaveNode NodeThms VbAge VbRing.




(** ** Copy locks *)
Abbreviation held n := (CopyLocksThms.held (CopyLocks.mem (copylocks n))).



















End VbCopy.
