(* ===== verification/SessionManager.v ===== *)
(** * The session manager server

    versioning/BRM/sessionmanagerserver.{h,cpp}: hands out transaction ids, keeps
    the active transactions per session, bounds their number with a semaphore
    made of a counter and a condition variable, and saves the last ids and the
    system state flags in the transaction-id file. *)

From S2P Require Import Prelude Hasher Bytes.
From stdpp Require Import prelude gmap strings sorting.
Local Open Scope Z_scope.

Module SessionManager.

Definition SS_READY : Z := Z.shiftl 1 0.
Definition SS_SUSPENDED : Z := Z.shiftl 1 1.
Definition SS_SUSPEND_PENDING : Z := Z.shiftl 1 2.
Definition SS_SHUTDOWN_PENDING : Z := Z.shiftl 1 3.
Definition SS_ROLLBACK : Z := Z.shiftl 1 4.
Definition SS_FORCE : Z := Z.shiftl 1 5.
Definition SS_QUERY_READY : Z := Z.shiftl 1 6.

(** The file at [txnidFilename] and which of the file operations succeed. *)
Record Disk := mkDisk {
  content : option (list Z); openR : bool; openW : bool; readOk : bool; write1Ok : bool; write2Ok : bool }.

Definition set_content c d := mkDisk c (openR d) (openW d) (readOk d) (write1Ok d) (write2Ok d).

Record TxnID := mkTxn { id : Z; valid : bool }.
Definition no_txn : TxnID := mkTxn 0 false.

Record t := mk {
  maxTxns : Z; semValue : Z; _verID : Z; _sysCatVerID : Z; systemState : Z;
  activeTxns : gmap Z Z; unique32 : Z; unique64 : Z; disk : Disk }.

Definition set_sem n s := mk (maxTxns s) n (_verID s) (_sysCatVerID s) (systemState s) (activeTxns s) (unique32 s) (unique64 s) (disk s).
Definition set_verID n s := mk (maxTxns s) (semValue s) n (_sysCatVerID s) (systemState s) (activeTxns s) (unique32 s) (unique64 s) (disk s).
Definition set_sysCat n s := mk (maxTxns s) (semValue s) (_verID s) n (systemState s) (activeTxns s) (unique32 s) (unique64 s) (disk s).
Definition set_state n s := mk (maxTxns s) (semValue s) (_verID s) (_sysCatVerID s) n (activeTxns s) (unique32 s) (unique64 s) (disk s).
Definition set_active m s := mk (maxTxns s) (semValue s) (_verID s) (_sysCatVerID s) (systemState s) m (unique32 s) (unique64 s) (disk s).
Definition set_unique32 n s := mk (maxTxns s) (semValue s) (_verID s) (_sysCatVerID s) (systemState s) (activeTxns s) n (unique64 s) (disk s).
Definition set_unique64 n s := mk (maxTxns s) (semValue s) (_verID s) (_sysCatVerID s) (systemState s) (activeTxns s) (unique32 s) n (disk s).
Definition set_disk d s := mk (maxTxns s) (semValue s) (_verID s) (_sysCatVerID s) (systemState s) (activeTxns s) (unique32 s) (unique64 s) d.

(** ** The transaction-id file *)
Definition clear_bits (x mask : Z) : Z := Z.ldiff x mask.

Definition unsaved_flags : Z :=
  Z.lor SS_READY (Z.lor SS_QUERY_READY (Z.lor SS_SUSPEND_PENDING (Z.lor SS_SHUTDOWN_PENDING SS_FORCE))).
Definition unloaded_flags : Z :=
  Z.lor SS_READY (Z.lor SS_QUERY_READY (Z.lor SS_SUSPEND_PENDING (Z.lor SS_SHUTDOWN_PENDING
    (Z.lor SS_ROLLBACK SS_FORCE)))).

(** Opening with "wb" truncates the file before the two writes. *)
Definition saveSMTxnIDAndState : M t unit :=
  d ← gets disk;
  if negb (openW d) then throw (runtime_error "SessionManagerServer: Could not open the transaction ID file")
  else
    modify (fun s => set_disk (set_content (Some []) (disk s)) s) ;;
    if negb (write1Ok d) then throw (runtime_error "SessionManagerServer::newTxnID(): write(verid) failed")
    else
      modify (fun s => set_disk (set_content (Some (le_bytes 4 (_verID s) ++ le_bytes 4 (_sysCatVerID s)))
                                   (disk s)) s) ;;
      if negb (write2Ok d)
      then throw (runtime_error "SessionManagerServer::saveSystemState(): write(systemState) failed")
      else modify (fun s => set_disk (set_content (Some (le_bytes 4 (_verID s) ++ le_bytes 4 (_sysCatVerID s)
             ++ le_bytes 4 (clear_bits (systemState s) unsaved_flags))) (disk s)) s).

(** [read(&x, 4)]: the bytes read, possibly fewer at the end of the file. *)
Definition read4 (bs : list Z) : list Z * list Z := (take 4 bs, drop 4 bs).

(** Retries after [EINTR] are not visible; a failing read throws for the two
    ids and counts as "not saved" for the state. *)
Definition loadState : M t unit :=
  d ← gets disk;
  match content d with
  | None => mret tt
  | Some bs =>
      if negb (openR d) then throw (runtime_error "SessionManagerServer: Could not open the transaction ID file")
      else if negb (readOk d) then throw (runtime_error "SessionManagerServer: read failed, aborting")
      else
        let '(b1, r1) := read4 bs in
        let '(b2, r2) := read4 r1 in
        let '(b3, _) := read4 r2 in
        (if (length b1 =? 4)%nat then modify (set_verID (i32 (le_val b1))) else mret tt) ;;
        (if (length b2 =? 4)%nat then modify (set_sysCat (i32 (le_val b2))) else mret tt) ;;
        (if (length b3 =? 4)%nat then modify (set_state (clear_bits (le_val b3) unloaded_flags))
         else modify (set_state 0))
  end.

(** The constructor; [cfg] is SessionManager/MaxConcurrentTransactions. *)
Definition SessionManagerServer (cfg : option Z) (d : Disk) : t :=
  let maxT := match cfg with Some tmp => if tmp <? 1 then 1 else i32 tmp | None => 1 end in
  let s0 := mk maxT (u32 maxT) 0 0 0 ∅ 0 0 d in
  (try_catch loadState (fun _ => mret tt) s0).2.

(** ** Transactions *)

(** A call that returned, or one that waits on the condition variable. *)
Inductive call := Done (r : TxnID) | Wait.

Definition incr (x : Z) : outcome Z := if x =? 2 ^ 31 - 1 then Fault SignedOverflow else Val (x + 1).

(** [newTxnID] from [semValue--] on. *)
Definition grant (session : Z) (isDDL : bool) : M t TxnID :=
  modify (fun s => set_sem (u32 (semValue s - 1)) s) ;;
  idbassert (fun s => semValue s <=? u32 (maxTxns s)) ;;
  v ← lift (fun s => incr (_verID s));
  modify (set_verID v) ;;
  modify (fun s => set_active (<[session := v]> (activeTxns s)) s) ;;
  (if isDDL then w ← lift (fun s => incr (_sysCatVerID s)); modify (set_sysCat w) else mret tt) ;;
  saveSMTxnIDAndState ;;
  mret (mkTxn v true).

(** [while (semValue == 0) condvar.wait(lk);] entered with the mutex held. *)
Definition newTxnID_resume (session : Z) (isDDL : bool) : M t call :=
  z ← gets (fun s => semValue s =? 0);
  if (z : bool) then mret Wait else r ← grant session isDDL; mret (Done r).

Definition newTxnID (session : Z) (block isDDL : bool) : M t call :=
  a ← gets (fun s => activeTxns s !! session);
  match a with
  | Some v => mret (Done (mkTxn v true))
  | None =>
      z ← gets (fun s => semValue s =? 0);
      if negb block && (z : bool) then mret (Done no_txn)
      else newTxnID_resume session isDDL
  end.

(** The result is the caller's [txn], passed by reference. *)
Definition finishTransaction (txn : TxnID) : M t TxnID :=
  if negb (valid txn)
  then throw (invalid_argument "SessionManagerServer::finishTransaction(): transaction is invalid")
  else
    found ← gets (fun s => bool_decide (map_Exists (fun _ v => v = id txn) (activeTxns s)));
    modify (fun s => set_active (filter (fun p => p.2 <> id txn) (activeTxns s)) s) ;;
    if (found : bool) then
      modify (fun s => set_sem (u32 (semValue s + 1)) s) ;;
      idbassert (fun s => semValue s <=? u32 (maxTxns s)) ;;
      mret (mkTxn (id txn) false)
    else throw (invalid_argument "SessionManagerServer::finishTransaction(): transaction doesn't exist").

Definition committed := finishTransaction.
Definition rolledback := finishTransaction.

Definition getTxnID (session : Z) (s : t) : TxnID :=
  match activeTxns s !! session with Some v => mkTxn v true | None => no_txn end.

(** The entries of the [std::map], in key order. *)
Definition key_le (p q : Z * Z) : Prop := p.1 <= q.1.
Global Instance key_le_dec : RelDecision key_le.
Proof. intros p q. unfold key_le. apply _. Defined.
Definition entries (m : gmap Z Z) : list (Z * Z) := merge_sort key_le (map_to_list m).

Definition verID (s : t) : Z * list Z := (_verID s, snd <$> entries (activeTxns s)).
Definition sysCatVerID (s : t) : Z * list Z := (_sysCatVerID s, snd <$> entries (activeTxns s)).

Definition SIDTIDMap (s : t) : list (Z * TxnID) :=
  (fun p => (p.1, mkTxn p.2 true)) <$> entries (activeTxns s).

Definition getTxnCount (s : t) : Z := Z.of_nat (size (activeTxns s)).

Definition setSystemState (state : Z) : M t unit :=
  modify (fun s => set_state (Z.lor (systemState s) state) s) ;; saveSMTxnIDAndState.

Definition clearSystemState (state : Z) : M t unit :=
  modify (fun s => set_state (clear_bits (systemState s) state) s) ;; saveSMTxnIDAndState.

Definition reset : M t unit :=
  modify (fun s => set_sem (u32 (maxTxns s)) s) ;; modify (set_active ∅).

(** [atomicInc] returns the incremented value. *)
Definition getUnique32 : M t Z :=
  modify (fun s => set_unique32 (u32 (unique32 s + 1)) s) ;; gets unique32.
Definition getUnique64 : M t Z :=
  modify (fun s => set_unique64 (u64 (unique64 s + 1)) s) ;; gets unique64.

(** ** Concurrent sessions

    Each call runs under the mutex, so the system is a sequence of calls; a call
    that waits is parked with its session and resumes at the semaphore test. *)
Record system := mkSys { server : t; waiting : list (Z * bool) }.

(** One call, which may throw (a failed save keeps the state reached).  A session
    has one call outstanding at a time. *)
Inductive step : system -> system -> Prop :=
| step_new_done srv w session block isDDL r srv' :
    session ∉ w.*1 ->
    newTxnID session block isDDL srv = (Val (Done r), srv') ->
    step (mkSys srv w) (mkSys srv' w)
| step_new_exn srv w session block isDDL e srv' :
    session ∉ w.*1 ->
    newTxnID session block isDDL srv = (Exn e, srv') ->
    step (mkSys srv w) (mkSys srv' w)
| step_new_wait srv w session block isDDL srv' :
    session ∉ w.*1 ->
    newTxnID session block isDDL srv = (Val Wait, srv') ->
    step (mkSys srv w) (mkSys srv' (w ++ [(session, isDDL)]))
| step_resume srv w1 session isDDL w2 r srv' :
    newTxnID_resume session isDDL srv = (Val (Done r), srv') ->
    step (mkSys srv (w1 ++ (session, isDDL) :: w2)) (mkSys srv' (w1 ++ w2))
| step_resume_exn srv w1 session isDDL w2 e srv' :
    newTxnID_resume session isDDL srv = (Exn e, srv') ->
    step (mkSys srv (w1 ++ (session, isDDL) :: w2)) (mkSys srv' (w1 ++ w2))
| step_finish srv w txn r srv' :
    finishTransaction txn srv = (Val r, srv') -> step (mkSys srv w) (mkSys srv' w)
| step_finish_err srv w txn e srv' :
    finishTransaction txn srv = (Exn e, srv') -> step (mkSys srv w) (mkSys srv' w)
| step_state srv w st o srv' :
    setSystemState st srv = (o, srv') -> step (mkSys srv w) (mkSys srv' w)
| step_clear_state srv w st o srv' :
    clearSystemState st srv = (o, srv') -> step (mkSys srv w) (mkSys srv' w).

End SessionManager.
