(* ===== verification/SessionClaims.v ===== *)
(** * Properties of the session manager *)

From S2P Require Import Prelude Hasher Bytes SessionManager.
From stdpp Require Import prelude gmap strings sorting relations.
Local Open Scope Z_scope.

(** ** Correctness of the session manager *)

Module SessionThms.
Import SessionManager.

(** The semaphore counts the free slots, ids are distinct and not above the last
    one handed out. *)
Record inv (s : t) : Prop := {
  inv_max : 1 <= maxTxns s < 2 ^ 31;
  inv_sem : 0 <= semValue s;
  inv_slots : semValue s + Z.of_nat (size (activeTxns s)) = maxTxns s;
  inv_ids a v : activeTxns s !! a = Some v -> v <= _verID s;
  inv_inj a b v : activeTxns s !! a = Some v -> activeTxns s !! b = Some v -> a = b }.

(** With the parked calls: one per session, none of an active session. *)
Record sys_inv (y : system) : Prop := {
  sys_srv : inv (server y);
  sys_nodup : NoDup (waiting y).*1;
  sys_idle a : a ∈ (waiting y).*1 -> activeTxns (server y) !! a = None }.

Definition same_but_disk (s s' : t) : Prop := s' = set_disk (disk s') s.

Lemma save_frame s o s' :
  saveSMTxnIDAndState s = (o, s') -> same_but_disk s s' /\ (forall f, o <> Fault f).
Proof.
  unfold saveSMTxnIDAndState, mbind, M_bind, gets, modify, throw, same_but_disk. simpl.
  destruct (openW (disk s)), (write1Ok (disk s)), (write2Ok (disk s)); simpl; intros [= <- <-];
    by destruct s.
Qed.

(** Saving succeeds when the file operations do. *)
Definition disk_ok (d : Disk) : Prop := openW d = true /\ write1Ok d = true /\ write2Ok d = true.

Lemma save_ok s :
  disk_ok (disk s) ->
  saveSMTxnIDAndState s = (Val tt, set_disk (set_content (Some (le_bytes 4 (_verID s) ++
    le_bytes 4 (_sysCatVerID s) ++ le_bytes 4 (clear_bits (systemState s) unsaved_flags))) (disk s)) s).
Proof.
  intros (H1 & H2 & H3). unfold saveSMTxnIDAndState, mbind, M_bind, gets, modify. simpl.
  rewrite H1, H2, H3. done.
Qed.

Lemma load_ok s b1 b2 b3 :
  content (disk s) = Some (b1 ++ b2 ++ b3) -> openR (disk s) = true -> readOk (disk s) = true ->
  length b1 = 4%nat -> length b2 = 4%nat -> length b3 = 4%nat ->
  loadState s = (Val tt, set_state (clear_bits (le_val b3) unloaded_flags)
    (set_sysCat (i32 (le_val b2)) (set_verID (i32 (le_val b1)) s))).
Proof.
  intros Hc Ho Hr H1 H2 H3. unfold loadState, mbind, M_bind, gets. cbn beta iota.
  rewrite Hc, Ho, Hr. cbn [negb]. cbn iota. unfold read4.
  rewrite take_app_length', drop_app_length' by done. rewrite take_app_length', drop_app_length' by done.
  rewrite take_ge by lia. by rewrite H1, H2, H3.
Qed.

Lemma inv_disk s s' : same_but_disk s s' -> inv s -> inv s'.
Proof. intros -> [? ? ? ? ?]. by split. Qed.

(** What a granted transaction changes. *)
Record granted (s s' : t) (session : Z) : Prop := {
  gr_active : activeTxns s' = <[session := _verID s + 1]> (activeTxns s);
  gr_verID : _verID s' = _verID s + 1;
  gr_sem : semValue s' = semValue s - 1;
  gr_max : maxTxns s' = maxTxns s }.

Lemma incr_Val x y : incr x = Val y -> y = x + 1.
Proof. unfold incr. case_match; [done|]. by intros [= <-]. Qed.

Lemma grant_granted s session isDDL o s' :
  inv s -> semValue s <> 0 -> grant session isDDL s = (o, s') -> (forall f, o <> Fault f) ->
  granted s s' session /\ (forall r, o = Val r -> r = mkTxn (_verID s + 1) true).
Proof.
  intros [Hm Hs Hsl _ _] Hne Hg Hnf.
  assert (Hu : u32 (semValue s - 1) = semValue s - 1) by (apply u32_small; lia).
  assert (Hum : u32 (maxTxns s) = maxTxns s) by (apply u32_small; lia).
  unfold grant, mbind, M_bind, modify, idbassert, lift in Hg. simpl in Hg. rewrite Hu, Hum in Hg.
  destruct (Z.leb_spec (semValue s - 1) (maxTxns s)); [|lia]. simpl in Hg.
  destruct (incr (_verID s)) as [v|e|f] eqn:Hv; [|unfold incr in Hv; by case_match|by destruct (Hnf f); simplify_eq].
  apply incr_Val in Hv as ->. simpl in Hg.
  assert (Hend : forall s1 o', (match saveSMTxnIDAndState s1 with
      | (Val _, s2) => (Val (mkTxn (_verID s + 1) true), s2)
      | (Exn e, s2) => (Exn e, s2) | (Fault x, s2) => (Fault x, s2) end) = (o', s') ->
      (forall f, o' <> Fault f) -> granted s s1 session ->
      granted s s' session /\ (forall r, o' = Val r -> r = mkTxn (_verID s + 1) true)).
  { intros s1 o' Hsv Hn [Ga Gv Gs Gm]. destruct (saveSMTxnIDAndState s1) as [o1 s2] eqn:Hsave.
    destruct (save_frame _ _ _ Hsave) as [Hf Hnf1].
    assert (s' = s2) as -> by (destruct o1; by simplify_eq).
    split; [rewrite Hf; by split|]. intros r ->. destruct o1; by simplify_eq. }
  destruct isDDL; simpl in Hg; [|eapply Hend; [exact Hg|done|by split]].
  destruct (incr (_sysCatVerID s)) as [w|e|f] eqn:Hw; [|unfold incr in Hw; by case_match|by destruct (Hnf f); simplify_eq].
  eapply Hend; [exact Hg|done|by split].
Qed.

Lemma granted_inv s s' session :
  inv s -> semValue s <> 0 -> activeTxns s !! session = None -> granted s s' session -> inv s'.
Proof.
  intros [Hm Hs Hsl Hi Hj] Hne Hno [Ga Gv Gs Gm]. split; rewrite ?Gm, ?Gs, ?Ga, ?Gv; try lia.
  - rewrite map_size_insert_None by done. lia.
  - intros a v. rewrite lookup_insert. case_decide; [intros [= <-]; lia|]. intros Ha%Hi. lia.
  - intros a b v. rewrite !lookup_insert. repeat case_decide; subst; try done.
    + intros [= <-] Hb%Hi. lia.
    + intros Ha%Hi [= <-]. lia.
    + eauto.
Qed.

(** A transaction id belongs to at most one session, so finishing it frees
    exactly one slot. *)
Lemma filter_delete (m : gmap Z Z) a v :
  (forall a b w, m !! a = Some w -> m !! b = Some w -> a = b) -> m !! a = Some v ->
  filter (fun p => p.2 <> v) m = delete a m.
Proof.
  intros Hinj Ha. apply map_eq. intros b. rewrite lookup_delete. case_decide as Hb.
  - subst. apply map_lookup_filter_None. right. intros w Hw Hne. simpl in Hne. congruence.
  - destruct (m !! b) as [w|] eqn:Hw.
    + apply map_lookup_filter_Some. split; [done|]. simpl. intros ->. by apply Hb, (Hinj a b v).
    + apply map_lookup_filter_None. by left.
Qed.

Lemma finish_found s a txn :
  inv s -> valid txn = true -> activeTxns s !! a = Some (id txn) ->
  finishTransaction txn s = (Val (mkTxn (id txn) false),
    set_sem (semValue s + 1) (set_active (delete a (activeTxns s)) s)) /\
  inv (set_sem (semValue s + 1) (set_active (delete a (activeTxns s)) s)).
Proof.
  intros [Hm Hs Hsl Hi Hj] Hv Ha. pose proof (filter_delete _ _ _ Hj Ha) as Hf.
  pose proof (map_size_delete_Some a (activeTxns s) ltac:(by eexists)) as Hsz.
  assert (Hpos : size (activeTxns s) <> 0%nat).
  { intros Hz%map_size_empty_inv. rewrite Hz in Ha. done. }
  unfold finishTransaction, mbind, M_bind, gets, modify, idbassert. rewrite Hv. simpl.
  rewrite bool_decide_eq_true_2 by (exists a, (id txn); done). rewrite Hf. simpl.
  rewrite u32_small by lia. rewrite u32_small by lia.
  destruct (Z.leb_spec (semValue s + 1) (maxTxns s)); [|lia].
  split; [done|]. split; simpl; try lia.
  - intros b v. rewrite lookup_delete. case_decide; [done|eauto].
  - intros b c v. rewrite !lookup_delete. repeat case_decide; try done. eauto.
Qed.

Lemma finish_missing s txn :
  (forall a, activeTxns s !! a <> Some (id txn)) ->
  exists e, finishTransaction txn s = (Exn e, s).
Proof.
  intros Hno. unfold finishTransaction, mbind, M_bind, gets, modify, throw.
  destruct (valid txn); simpl; [|eauto]. rewrite bool_decide_eq_false_2.
  - replace (filter _ _) with (activeTxns s); [destruct s; eauto|].
    symmetry. apply map_filter_id. intros a v Ha Hv. simpl in Hv. subst. by apply (Hno a).
  - intros (a & v & Ha & ->). by apply (Hno a).
Qed.

Lemma finish_inv s txn o s' :
  inv s -> finishTransaction txn s = (o, s') ->
  inv s' /\ (forall a, activeTxns s !! a = None -> activeTxns s' !! a = None).
Proof.
  intros Hinv Hf.
  destruct (decide (map_Exists (fun _ v => v = id txn) (activeTxns s))) as [(a & v & Ha & ->)|Hno].
  - destruct (valid txn) eqn:Hv.
    + destruct (finish_found s a txn Hinv Hv Ha) as [Heq Hi]. rewrite Heq in Hf. simplify_eq.
      split; [done|]. intros b Hb. simpl. rewrite lookup_delete. by case_decide.
    + unfold finishTransaction in Hf. rewrite Hv in Hf. simpl in Hf. unfold throw in Hf. by simplify_eq.
  - destruct (finish_missing s txn) as [e He]; [|rewrite He in Hf; by simplify_eq].
    intros a Ha. apply Hno. by exists a, (id txn).
Qed.

(** Every case of [newTxnID]. *)
Lemma newTxnID_cases s session block isDDL :
  newTxnID session block isDDL s =
  match activeTxns s !! session with
  | Some v => (Val (Done (mkTxn v true)), s)
  | None =>
      if semValue s =? 0 then (Val (if block then Wait else Done no_txn), s)
      else match grant session isDDL s with
           | (Val r, s') => (Val (Done r), s')
           | (Exn e, s') => (Exn e, s')
           | (Fault f, s') => (Fault f, s')
           end
  end.
Proof.
  unfold newTxnID, newTxnID_resume, mbind, M_bind, gets, mret, M_ret. simpl.
  destruct (activeTxns s !! session); [done|].
  destruct block, (semValue s =? 0) eqn:Hz; simpl; rewrite ?Hz; try done; by destruct (grant session isDDL s) as [[]].
Qed.

Lemma resume_cases s session isDDL :
  newTxnID_resume session isDDL s =
  if semValue s =? 0 then (Val Wait, s)
  else match grant session isDDL s with
       | (Val r, s') => (Val (Done r), s')
       | (Exn e, s') => (Exn e, s')
       | (Fault f, s') => (Fault f, s')
       end.
Proof.
  unfold newTxnID_resume, mbind, M_bind, gets, mret, M_ret. by destruct (semValue s =? 0).
Qed.

(** A call that is not parked keeps the invariant and touches only its session. *)
Lemma grant_step s session isDDL s' (o : outcome call) :
  inv s -> activeTxns s !! session = None -> semValue s <> 0 ->
  (match grant session isDDL s with
   | (Val r, s') => (Val (Done r), s')
   | (Exn e, s') => (Exn e, s')
   | (Fault f, s') => (Fault f, s')
   end) = (o, s') -> (forall f, o <> Fault f) ->
  inv s' /\ forall a, a <> session -> activeTxns s' !! a = activeTxns s !! a.
Proof.
  intros Hi Hno Hne Hg Hnf. destruct (grant session isDDL s) as [o1 s1] eqn:Heq.
  assert (Hnf1 : forall f, o1 <> Fault f).
  { intros f ->. simplify_eq. by apply (Hnf f). }
  assert (s' = s1) as -> by (destruct o1; by simplify_eq).
  destruct (grant_granted _ _ _ _ _ Hi Hne Heq Hnf1) as [G _]. split; [by eapply granted_inv|].
  intros a Ha. rewrite (gr_active _ _ _ G). by rewrite lookup_insert_ne.
Qed.

Lemma newTxnID_step s session block isDDL o s' :
  inv s -> newTxnID session block isDDL s = (o, s') -> (forall f, o <> Fault f) ->
  inv s' /\ (forall a, a <> session -> activeTxns s' !! a = activeTxns s !! a) /\
  (o = Val Wait -> s' = s /\ activeTxns s !! session = None).
Proof.
  intros Hi Hn Hnf. rewrite newTxnID_cases in Hn.
  destruct (activeTxns s !! session) eqn:Ha; [by simplify_eq|].
  destruct (Z.eqb_spec (semValue s) 0); [by simplify_eq|].
  destruct (grant_step _ _ _ _ _ Hi Ha ltac:(done) Hn Hnf). split_and!; try done.
  intros ->. destruct (grant session isDDL s) as [[]]; by simplify_eq.
Qed.

Lemma resume_step s session isDDL o s' :
  inv s -> activeTxns s !! session = None -> newTxnID_resume session isDDL s = (o, s') ->
  (forall f, o <> Fault f) -> o <> Val Wait ->
  inv s' /\ (forall a, a <> session -> activeTxns s' !! a = activeTxns s !! a).
Proof.
  intros Hi Ha Hr Hnf Hnw. rewrite resume_cases in Hr.
  destruct (Z.eqb_spec (semValue s) 0); [by simplify_eq|]. by eapply grant_step.
Qed.

Lemma state_step (m : M t unit) (f : Z -> Z) s o s' :
  (forall s, m s = saveSMTxnIDAndState (set_state (f (systemState s)) s)) ->
  inv s -> m s = (o, s') -> inv s' /\ activeTxns s' = activeTxns s.
Proof.
  intros Hm Hi Hs. rewrite Hm in Hs. apply save_frame in Hs as [Hf _]. split; [|by rewrite Hf].
  eapply inv_disk; [exact Hf|]. destruct Hi. by split.
Qed.

Lemma step_inv y y' : sys_inv y -> step y y' -> sys_inv y'.
Proof.
  intros [Hi Hnd Hidle] Hstep. destruct Hstep as
    [srv w session block isDDL r srv' Hw Hn|srv w session block isDDL e srv' Hw Hn
    |srv w session block isDDL srv' Hw Hn|srv w1 session isDDL w2 r srv' Hr|srv w1 session isDDL w2 e srv' Hr
    |srv w txn r srv' Hf|srv w txn e srv' Hf|srv w st o srv' Hs|srv w st o srv' Hs]; simpl in *.
  - destruct (newTxnID_step _ _ _ _ _ _ Hi Hn) as (? & Ha & _); [done|]. split; simpl; try done.
    intros a Hin. rewrite Ha; [auto|]. by intros ->.
  - destruct (newTxnID_step _ _ _ _ _ _ Hi Hn) as (? & Ha & _); [done|]. split; simpl; try done.
    intros a Hin. rewrite Ha; [auto|]. by intros ->.
  - destruct (newTxnID_step _ _ _ _ _ _ Hi Hn) as (? & _ & Hw'); [done|]. destruct (Hw' eq_refl) as [-> Hno].
    split; simpl; try done.
    + rewrite fmap_app. apply NoDup_app. split_and!; [done| |apply NoDup_singleton].
      intros a Ha ->%list_elem_of_singleton. done.
    + intros a. rewrite fmap_app, elem_of_app. intros [?| ->%list_elem_of_singleton]; auto.
  - rewrite fmap_app, fmap_cons in *. simpl in *. apply NoDup_app in Hnd as (Hnd1 & Hdis & Hnd2).
    apply NoDup_cons in Hnd2 as [Hni Hnd2].
    destruct (resume_step _ _ _ _ _ Hi (Hidle session ltac:(set_solver)) Hr) as [? Ha]; [done..|].
    split; simpl; [done| |]; rewrite fmap_app.
    + apply NoDup_app. split_and!; try done. set_solver.
    + intros a Hin. rewrite Ha; [apply Hidle; set_solver|]. intros ->. set_solver.
  - rewrite fmap_app, fmap_cons in *. simpl in *. apply NoDup_app in Hnd as (Hnd1 & Hdis & Hnd2).
    apply NoDup_cons in Hnd2 as [Hni Hnd2].
    destruct (resume_step _ _ _ _ _ Hi (Hidle session ltac:(set_solver)) Hr) as [? Ha]; [done..|].
    split; simpl; [done| |]; rewrite fmap_app.
    + apply NoDup_app. split_and!; try done. set_solver.
    + intros a Hin. rewrite Ha; [apply Hidle; set_solver|]. intros ->. set_solver.
  - destruct (finish_inv _ _ _ _ Hi Hf). split; simpl; auto.
  - destruct (finish_inv _ _ _ _ Hi Hf). split; simpl; auto.
  - destruct (state_step (setSystemState st) (fun x => Z.lor x st) _ _ _ ltac:(done) Hi Hs) as [? Ha].
    split; simpl; try done. intros a. rewrite Ha. auto.
  - destruct (state_step (clearSystemState st) (fun x => clear_bits x st) _ _ _ ltac:(done) Hi Hs) as [? Ha].
    split; simpl; try done. intros a. rewrite Ha. auto.
Qed.

Lemma entries_elem m p : p ∈ entries m <-> m !! p.1 = Some p.2.
Proof.
  unfold entries. rewrite merge_sort_Permutation. destruct p as [a v]. apply elem_of_map_to_list.
Qed.
End SessionThms.

Module SessionClaims.
Import SessionManager SessionThms.

Definition good_disk : Disk := mkDisk (Some []) true true true true true.
(** A fresh server for two concurrent transactions. *)
Definition srv0 : t := SessionManagerServer (Some 2) good_disk.

Lemma srv0_inv : inv srv0.
Proof. split; vm_compute; done. Qed.

(** C30. Bounded concurrency: in every state reachable by an interleaving of
    [newTxnID] calls (also ones parked on the condition variable and resumed later,
    and ones whose save fails), finished transactions and state changes in which a
    session that is parked does not call [newTxnID] a second time, the
    semaphore plus the active transactions equal [maxTxns], every active id is
    distinct and at most the last id handed out, and parked sessions have no
    transaction; so never more than [maxTxns] are active and the semaphore asserts
    never fire.  The proviso is needed: two parked calls of one session are both
    granted when they wake up, and the balance is lost for good
    ([session_double_wait_leak]). *)
Theorem session_bounded_concurrency srv y :
  inv srv -> rtc step (mkSys srv []) y ->
  sys_inv y /\ 0 <= semValue (server y) <= maxTxns (server y) /\
  getTxnCount (server y) = maxTxns (server y) - semValue (server y).
Proof.
  intros Hi Hr. assert (Hs : sys_inv y).
  { assert (H0 : sys_inv (mkSys srv [])) by (split; [done|constructor|by intros a ?%not_elem_of_nil]).
    revert H0. induction Hr as [|y1 y2 y3 Hstep _ IH]; [done|]. intros H1. by apply IH, (step_inv y1). }
  split; [done|]. destruct Hs as [[? ? ? _ _] _ _]. unfold getTxnCount. lia.
Qed.

(** One granted call. *)
Definition srv1 : t := (newTxnID 10 true false srv0).2.

Lemma session_bounded_concurrency_witness :
  sys_inv (mkSys srv1 []) /\ 0 <= semValue srv1 <= maxTxns srv1 /\ getTxnCount srv1 = maxTxns srv1 - semValue srv1.
Proof.
  apply (session_bounded_concurrency srv0 (mkSys srv1 []) srv0_inv).
  apply rtc_once. apply (step_new_done srv0 [] 10 true false (mkTxn 1 true) srv1).
  - apply not_elem_of_nil.
  - reflexivity.
Defined.

(** [newTxnID], every branch: an active session gets its transaction back;
    with no free slot a blocking call waits and a non-blocking one gets the invalid
    transaction; otherwise the call takes one slot and the next id, which is larger
    than that of every active transaction, records it for the session, and saves
    it, so that the id on disk is never below one in use. *)
Theorem session_newTxnID s session block isDDL :
  inv s -> disk_ok (disk s) -> - 2 ^ 31 <= _verID s < 2 ^ 31 - 1 -> _sysCatVerID s < 2 ^ 31 - 1 ->
  match activeTxns s !! session with
  | Some v => newTxnID session block isDDL s = (Val (Done (mkTxn v true)), s)
  | None =>
      if semValue s =? 0
      then newTxnID session block isDDL s = (Val (if block then Wait else Done no_txn), s)
      else exists s', newTxnID session block isDDL s = (Val (Done (mkTxn (_verID s + 1) true)), s') /\
        inv s' /\ granted s s' session /\
        (forall a v, activeTxns s !! a = Some v -> v < _verID s + 1) /\
        exists rest, content (disk s') = Some (le_bytes 4 (_verID s + 1) ++ rest)
  end.
Proof.
  intros Hi Hd Hv Hw. rewrite newTxnID_cases. destruct (activeTxns s !! session) as [v|] eqn:Ha; [done|].
  destruct (Z.eqb_spec (semValue s) 0) as [|Hne]; [done|].
  destruct (grant session isDDL s) as [o s'] eqn:Hg.
  assert (Ho : o = Val (mkTxn (_verID s + 1) true) /\
    exists rest, content (disk s') = Some (le_bytes 4 (_verID s + 1) ++ rest)).
  { destruct Hi as [Hm Hs Hsl _ _].
    assert (Hv' : incr (_verID s) = Val (_verID s + 1)) by (unfold incr; by destruct (Z.eqb_spec (_verID s) (2 ^ 31 - 1)); [lia|]).
    assert (Hw' : incr (_sysCatVerID s) = Val (_sysCatVerID s + 1))
      by (unfold incr; by destruct (Z.eqb_spec (_sysCatVerID s) (2 ^ 31 - 1)); [lia|]).
    unfold grant, mbind, M_bind, modify, idbassert, lift in Hg. simpl in Hg.
    rewrite !u32_small in Hg by lia. destruct (Z.leb_spec (semValue s - 1) (maxTxns s)); [|lia].
    simpl in Hg. rewrite Hv' in Hg. simpl in Hg.
    destruct isDDL; simpl in Hg; [rewrite Hw' in Hg; simpl in Hg|]; rewrite save_ok in Hg by done;
      injection Hg as <- <-; (split; [done|]); eexists; done. }
  destruct Ho as [-> Hc]. exists s'. split; [done|].
  destruct (grant_granted _ _ _ _ _ Hi Hne Hg) as [G _]; [done|].
  split_and!; try done; [by eapply granted_inv|]. intros a v Hav. apply (inv_ids _ Hi) in Hav. lia.
Qed.

Lemma session_newTxnID_witness :
  exists s', newTxnID 11 false true srv1 = (Val (Done (mkTxn 2 true)), s') /\ inv s' /\ granted srv1 s' 11 /\
    (forall a v, activeTxns srv1 !! a = Some v -> v < 2) /\
    exists rest, content (disk s') = Some (le_bytes 4 2 ++ rest).
Proof.
  apply (session_newTxnID srv1 11 false true).
  - split; try (vm_compute; done).
    + intros a v. change (activeTxns srv1) with (<[10 := 1]> (∅ : gmap Z Z)). rewrite lookup_insert, lookup_empty.
      case_decide; [|done]. by intros [= <-].
    + intros a b v. change (activeTxns srv1) with (<[10 := 1]> (∅ : gmap Z Z)).
      rewrite !lookup_insert, !lookup_empty. repeat case_decide; congruence.
  - done.
  - vm_compute. done.
  - vm_compute. done.
Defined.

(** [finishTransaction], every branch: a valid id of an active transaction
    removes exactly its session and frees exactly one slot; an invalid or unknown
    one throws and changes nothing. *)
Theorem session_finish s txn :
  inv s ->
  (valid txn = true -> forall a, activeTxns s !! a = Some (id txn) ->
     finishTransaction txn s = (Val (mkTxn (id txn) false),
       set_sem (semValue s + 1) (set_active (delete a (activeTxns s)) s))) /\
  ((valid txn = false \/ forall a, activeTxns s !! a <> Some (id txn)) ->
     exists e, finishTransaction txn s = (Exn e, s)).
Proof.
  intros Hi. split.
  - intros Hv a Ha. by apply finish_found.
  - intros [Hv|Hno]; [|by apply finish_missing].
    unfold finishTransaction. rewrite Hv. simpl. eexists. done.
Qed.

Lemma session_finish_witness : exists e, finishTransaction (mkTxn 7 true) srv0 = (Exn e, srv0).
Proof.
  apply (session_finish srv0 (mkTxn 7 true) srv0_inv). right. intros a. vm_compute. done.
Defined.

(** Restart: a server that loads the file another one saved continues with
    the same last transaction id and catalog version, so new ids stay above all
    ids ever handed out; of the system state it keeps only the bits other than the
    ready, pending, rollback and force flags. *)
Theorem session_save_load s s2 :
  disk_ok (disk s) -> openR (disk s) = true -> readOk (disk s) = true ->
  - 2 ^ 31 <= _verID s < 2 ^ 31 -> - 2 ^ 31 <= _sysCatVerID s < 2 ^ 31 -> 0 <= systemState s < 2 ^ 32 ->
  wp saveSMTxnIDAndState s (fun _ s1 =>
    wp loadState (set_disk (disk s1) s2) (fun _ s3 =>
      _verID s3 = _verID s /\ _sysCatVerID s3 = _sysCatVerID s /\
      systemState s3 = clear_bits (systemState s) unloaded_flags /\ activeTxns s3 = activeTxns s2)).
Proof.
  intros Hd Hr Hrd Hv Hc Hst. unfold wp at 1. rewrite (save_ok _ Hd). cbn beta iota.
  unfold wp. erewrite load_ok by (done || apply length_le_bytes).
  cbn [_verID _sysCatVerID systemState activeTxns set_verID set_sysCat set_state set_disk].
  rewrite !le_val_i32 by done. split_and!; try done.
  rewrite le_val_bytes. change (8 * Z.of_nat 4) with 32. unfold clear_bits.
  apply Z.bits_inj'. intros n Hn. rewrite !Z.ldiff_spec. destruct (Z.lt_ge_cases n 32) as [Hlo|Hhi].
  - rewrite Z.mod_pow2_bits_low, Z.ldiff_spec, <- andb_assoc by lia. f_equal.
    rewrite <- negb_orb, <- Z.lor_spec. done.
  - rewrite Z.mod_pow2_bits_high by lia. rewrite <- (Z.mod_small (systemState s) (2 ^ 32)) by lia.
    by rewrite Z.mod_pow2_bits_high by lia.
Qed.

Lemma session_save_load_witness :
  wp saveSMTxnIDAndState srv1 (fun _ s1 =>
    wp loadState (set_disk (disk s1) srv0) (fun _ s3 => _verID s3 = 1 /\ _sysCatVerID s3 = 0)).
Proof.
  eapply wp_mono; [apply (session_save_load srv1 srv0); vm_compute; done|].
  intros [] s1 Hl. eapply wp_mono; [exact Hl|]. intros [] s3 (-> & -> & _). done.
Defined.

(** The query context is exact: the transaction list [verID] returns holds
    precisely the ids of the active transactions, in session order. *)
Theorem session_verID_context s v :
  (verID s).1 = _verID s /\ (v ∈ (verID s).2 <-> exists a, activeTxns s !! a = Some v) /\
  Sorted key_le (entries (activeTxns s)).
Proof.
  split; [done|]. split.
  - unfold verID. simpl. rewrite list_elem_of_fmap. split.
    + intros ([a w] & -> & Hp%entries_elem). eauto.
    + intros [a Ha]. exists (a, v). split; [done|]. by apply entries_elem.
  - apply Sorted_merge_sort. intros p q. unfold key_le. lia.
Qed.

(** A session parked twice leaks a slot: the wait loop of [newTxnID] does not
    look for the session's transaction again after it wakes up.  With two slots,
    both taken, two calls of session 1 wait; when both transactions finish, the
    two calls are granted ids 3 and 4 and take both slots, but the session keeps
    only id 4.  Finishing 4 leaves no active transaction and one free slot of
    two, and 3 can no longer be finished. *)
Theorem session_double_wait_leak :
  let s0 := SessionManagerServer (Some 2) good_disk in
  let s1 := (newTxnID 7 true false s0).2 in
  let s2 := (newTxnID 8 true false s1).2 in
  (* both calls of session 1 wait *)
  (newTxnID 1 true false s2).1 = Val Wait /\
  let s3 := (finishTransaction (mkTxn 1 true) s2).2 in
  let s4 := (finishTransaction (mkTxn 2 true) s3).2 in
  let s5 := (newTxnID_resume 1 false s4).2 in
  let s6 := (newTxnID_resume 1 false s5).2 in
  activeTxns s6 = {[1 := 4]} /\ semValue s6 = 0 /\
  let s7 := (finishTransaction (mkTxn 4 true) s6).2 in
  getTxnCount s7 = 0 /\ semValue s7 = 1 /\ maxTxns s7 = 2 /\
  (finishTransaction (mkTxn 3 true) s7).1
  = Exn (invalid_argument "SessionManagerServer::finishTransaction(): transaction doesn't exist").
Proof. vm_compute. done. Qed.
End SessionClaims.
