(* ===== verification/AutoInc.v ===== *)
(** * The auto-increment manager

    versioning/BRM/autoincrementmanager.{h,cpp}: one sequence per column, ranges
    of values handed out below an overflow bound, and a lock per sequence that is
    stolen after 30 seconds. *)

From S2P Require Import Prelude.
From stdpp Require Import prelude gmap strings.
Local Open Scope Z_scope.

Module AutoInc.

Record sequence := mkSeq { value : Z; overflow : Z; seq_locked : bool }.

Abbreviation t := (gmap Z sequence).

Definition set_value v s := mkSeq v (overflow s) (seq_locked s).
Definition set_locked b s := mkSeq (value s) (overflow s) b.

(** [(0xFFFFFFFFFFFFFFFFULL >> (64 - colWidth * 8)) - 1] or
    [1ULL << (colWidth * 8 - 1)]. *)
Definition overflow_bound (colWidth : Z) (isUnsigned : bool) : Z :=
  if isUnsigned then u64 (Z.shiftr 0xFFFFFFFFFFFFFFFF (64 - colWidth * 8) - 1)
  else u64 (Z.shiftl 1 (colWidth * 8 - 1)).

Definition startSequence (oid firstNum colWidth : Z) (isUnsigned : bool) : M t unit :=
  modify (fun m =>
    match m !! oid with
    | Some _ => m
    | None => <[oid := mkSeq firstNum (overflow_bound colWidth isUnsigned) false]> m
    end).

(** [Some firstNum] is the return value true. *)
Definition getAIRange (oid count : Z) : M t (option Z) :=
  it ← gets (fun m => m !! oid);
  match it with
  | None => throw (runtime_error "There is no sequence with that lock")
  | Some s =>
      if ((overflow s <=? count) || (overflow s <? u64 (count + value s))
          || (u64 (count + value s) <=? value s)) && negb (count =? 0)
      then mret None
      else modify (fun m => <[oid := set_value (u64 (value s + count)) s]> m) ;; mret (Some (value s))
  end.

Definition resetSequence (oid v : Z) : M t unit :=
  modify (fun m => match m !! oid with Some s => <[oid := set_value v s]> m | None => m end).

Definition deleteSequence (oid : Z) : M t unit := modify (fun m => delete oid m).

(** 30 seconds of polls, 0.1 seconds apart. *)
Definition max_polls : nat := 300.

Section locking.
(** What the other threads do between two polls. *)
Context (others : t -> t).

(** The poll loop; it uses the iterator found before, so the sequence must
    still be there.  When the time is up the caller goes on without the mutex
    ("take possession"). *)
Fixpoint poll (n : nat) (oid : Z) : M t unit :=
  match n with
  | O => mret tt
  | S n' =>
      it ← gets (fun m => m !! oid);
      match it with
      | None => fail_with StaleAddress
      | Some s =>
          if seq_locked s then modify others ;; poll n' oid
          else modify (fun m => <[oid := set_locked true s]> m)
      end
  end.

Definition getLock (oid : Z) : M t unit :=
  it ← gets (fun m => m !! oid);
  match it with
  | None => throw (runtime_error "There is no sequence with that lock")
  | Some _ => poll max_polls oid
  end.
End locking.

Definition releaseLock (oid : Z) : M t unit :=
  modify (fun m => match m !! oid with Some s => <[oid := set_locked false s]> m | None => m end).

(** ** Correctness *)

(** 64-bit fields, and the next value does not exceed the bound. *)
Definition seq_ok (s : sequence) : Prop := 0 <= value s <= overflow s /\ overflow s < 2 ^ 64.

Definition ok (m : t) : Prop := map_Forall (fun _ s => seq_ok s) m.

(** A granted range lies between the old value and the bound, without
    wrap-around. *)
Lemma getAIRange_granted m oid count s :
  m !! oid = Some s -> seq_ok s -> 0 <= count < 2 ^ 64 ->
  wp (getAIRange oid count) m (fun r m' =>
    (r = None /\ m' = m /\ overflow s < value s + count \/ r = None /\ m' = m /\ overflow s <= count) \/
    (r = Some (value s) /\ m' = <[oid := set_value (value s + count) s]> m /\ value s + count <= overflow s)).
Proof.
  intros Hs [Hv Ho] Hc. unfold getAIRange. wp_steps. rewrite Hs.
  unfold u64. destruct (Z.eqb_spec count 0) as [->|Hc0].
  - rewrite andb_false_r. wp_steps. right. rewrite Z.add_0_r. rewrite Z.mod_small by lia. split_and!; try done; lia.
  - rewrite andb_true_r.
    destruct (Z.leb_spec (overflow s) count); simpl; [apply wp_ret; left; right; done|].
    destruct (Z.lt_ge_cases (count + value s) (2 ^ 64)) as [Hlt|Hge].
    + rewrite !(Z.mod_small (count + value s)) by lia. rewrite (Z.mod_small (value s + count)) by lia.
      destruct (Z.ltb_spec (overflow s) (count + value s)); simpl; [apply wp_ret; left; left; split_and!; try done; lia|].
      destruct (Z.leb_spec (count + value s) (value s)); [lia|]. wp_steps. right. split_and!; try done. lia.
    + assert (Hm : (count + value s) mod 2 ^ 64 = count + value s - 2 ^ 64).
      { symmetry. apply Z.mod_unique with 1; lia. }
      rewrite Hm. destruct (Z.ltb_spec (overflow s) (count + value s - 2 ^ 64)); simpl;
        [apply wp_ret; left; left; split_and!; try done; lia|].
      destruct (Z.leb_spec (count + value s - 2 ^ 64) (value s)); [|lia].
      apply wp_ret. left. left. split_and!; try done. lia.
Qed.

(** The ranges a list of requests on one column obtains, in order. *)
Fixpoint serve (oid : Z) (counts : list Z) : M t (list (Z * Z)) :=
  match counts with
  | [] => mret []
  | c :: cs =>
      r ← getAIRange oid c;
      rest ← serve oid cs;
      mret (match r with Some f => (f, c) :: rest | None => rest end)
  end.

(** Consecutive ranges [first, first + count) that start at or after [lo] and end
    at or before [hi]. *)
Fixpoint stacked (lo hi : Z) (rs : list (Z * Z)) : Prop :=
  match rs with
  | [] => lo <= hi
  | (f, c) :: rs' => f = lo /\ 0 <= c /\ stacked (f + c) hi rs'
  end.

(** C37. Auto-increment values are never handed out twice: whatever requests are
    made of a sequence, the granted ranges follow each other without a gap or an
    overlap, start at the sequence's value, and stay below its overflow bound; no
    64-bit addition wraps around unnoticed. *)
Theorem autoinc_ranges_disjoint oid counts : forall m s,
  m !! oid = Some s -> seq_ok s -> Forall (fun c => 0 <= c < 2 ^ 64) counts ->
  wp (serve oid counts) m (fun rs m' =>
    exists s', m' = <[oid := s']> m /\ seq_ok s' /\ overflow s' = overflow s /\
      stacked (value s) (value s') rs).
Proof.
  induction counts as [|c cs IH]; intros m s Hs Hok Hall; simpl.
  - apply wp_ret. exists s. rewrite insert_id by done. split_and!; try done. simpl. lia.
  - apply Forall_cons in Hall as [Hc Hall]. wp_step.
    eapply wp_mono; [by apply getAIRange_granted|].
    intros r m1 [Hno|(-> & -> & Hle)]; wp_step.
    + assert (r = None /\ m1 = m) as [-> ->] by naive_solver.
      eapply wp_mono; [by apply IH|]. intros rs m' Hr. by apply wp_ret.
    + eapply wp_mono; [apply (IH _ (set_value (value s + c) s)); [apply lookup_insert_eq| |done]|].
      * destruct Hok. split; simpl; lia.
      * intros rs m' (s' & -> & Hok' & Ho & Hst). apply wp_ret. exists s'.
        rewrite insert_insert_eq. split_and!; try done. simpl in *. split; [done|]. split; [lia|]. done.
Qed.

Lemma autoinc_ranges_disjoint_witness :
  wp (serve 3005 [10; 120; 5]) {[3005 := mkSeq 1 (overflow_bound 1 false) false]} (fun rs _ =>
    exists s', overflow s' = 128 /\ stacked 1 (value s') rs).
Proof.
  eapply wp_mono; [apply (autoinc_ranges_disjoint 3005 [10; 120; 5] _ (mkSeq 1 (overflow_bound 1 false) false))|].
  - apply lookup_singleton_eq.
  - vm_compute. done.
  - repeat constructor; lia.
  - intros rs m (s' & _ & _ & Ho & Hst). exists s'. split; [|done]. rewrite Ho. reflexivity.
Defined.

(** The overflow bound fits the column: for the integer widths of the
    catalog every value below the bound is representable in the column type, and
    the bound itself is 2^(8w-1) for signed and 2^(8w)-2 for unsigned columns. *)
Theorem autoinc_bound_fits w :
  w ∈ [1; 2; 4; 8] ->
  overflow_bound w false = 2 ^ (8 * w - 1) /\ overflow_bound w true = 2 ^ (8 * w) - 2.
Proof.
  intros Hw. repeat (apply elem_of_cons in Hw as [->|Hw]; [vm_compute; done|]).
  by apply not_elem_of_nil in Hw.
Qed.

Lemma autoinc_bound_fits_witness : overflow_bound 4 false = 2 ^ 31 /\ overflow_bound 4 true = 2 ^ 32 - 2.
Proof. apply (autoinc_bound_fits 4). set_solver. Defined.
End AutoInc.
