(* ===== verification/TableLock.v ===== *)
(** * The table lock server

    versioning/BRM/tablelockserver.{h,cpp} and the file form of [TableLockInfo]
    in versioning/BRM/brmtypes.cpp: locks on a table's dbroots, saved to a file
    after every change; a failed save rolls the change back.  Ids come from the
    session manager's 64-bit counter. *)

From S2P Require Import Prelude Hasher Bytes SessionManager.
From stdpp Require Import prelude gmap strings sorting.
Local Open Scope Z_scope.

Module TableLock.

Inductive LockState := LOADING | CLEANUP.

(** Strings are their bytes. *)
Record TableLockInfo := mkTLI {
  id : Z; tableOID : Z; ownerName : list Z; ownerPID : Z; ownerSessionID : Z; ownerTxnID : Z;
  state : LockState; creationTime : Z; dbrootList : list Z }.

Global Instance LockState_eq_dec : EqDecision LockState.
Proof. solve_decision. Defined.
Global Instance TableLockInfo_eq_dec : EqDecision TableLockInfo.
Proof. solve_decision. Defined.

Definition set_id i x := mkTLI i (tableOID x) (ownerName x) (ownerPID x) (ownerSessionID x) (ownerTxnID x) (state x) (creationTime x) (dbrootList x).
Definition set_state st x := mkTLI (id x) (tableOID x) (ownerName x) (ownerPID x) (ownerSessionID x) (ownerTxnID x) st (creationTime x) (dbrootList x).
Definition set_owner name pid ses txn x := mkTLI (id x) (tableOID x) name pid ses txn (state x) (creationTime x) (dbrootList x).

(** [x] overlaps the lock [y] whose dbroots are the set [roots]. *)
Definition overlaps (x y : TableLockInfo) (roots : gset Z) : bool :=
  (tableOID x =? tableOID y) && existsb (fun r => bool_decide (r ∈ roots)) (dbrootList x).

(** ** The file form *)
Definition state_code (s : LockState) : Z := match s with LOADING => 0 | CLEANUP => 1 end.
Definition state_of (z : Z) : LockState := if z =? 0 then LOADING else CLEANUP.

Definition serialize (x : TableLockInfo) : list Z :=
  let nameLen := u16 (zlen (ownerName x)) in
  let n := u16 (zlen (dbrootList x)) in
  le_bytes 8 (id x) ++ le_bytes 4 (tableOID x) ++ le_bytes 4 (ownerPID x) ++
  le_bytes 4 (state_code (state x)) ++ le_bytes 4 (ownerSessionID x) ++ le_bytes 4 (ownerTxnID x) ++
  le_bytes 8 (creationTime x) ++ le_bytes 2 nameLen ++ take (Z.to_nat nameLen) (ownerName x) ++
  le_bytes 2 n ++ (take (Z.to_nat n) (dbrootList x) ≫= le_bytes 4).

Fixpoint read_roots (n : nat) (bs : list Z) : outcome (list Z * list Z) :=
  match n with
  | O => Val ([], bs)
  | S n' =>
      '(b, bs) ← get_bytes 4 bs;
      '(rs, bs) ← read_roots n' bs;
      Val (le_val b :: rs, bs)
  end.

(** A short read leaves a field uninitialised. *)
Definition deserialize (bs : list Z) : outcome (TableLockInfo * list Z) :=
  '(b_id, bs) ← get_bytes 8 bs;
  '(b_oid, bs) ← get_bytes 4 bs;
  '(b_pid, bs) ← get_bytes 4 bs;
  '(b_state, bs) ← get_bytes 4 bs;
  '(b_ses, bs) ← get_bytes 4 bs;
  '(b_txn, bs) ← get_bytes 4 bs;
  '(b_time, bs) ← get_bytes 8 bs;
  '(b_len, bs) ← get_bytes 2 bs;
  '(name, bs) ← get_bytes (Z.to_nat (le_val b_len)) bs;
  '(b_n, bs) ← get_bytes 2 bs;
  '(roots, bs) ← read_roots (Z.to_nat (le_val b_n)) bs;
  Val (mkTLI (le_val b_id) (le_val b_oid) name (le_val b_pid) (i32 (le_val b_ses)) (i32 (le_val b_txn))
         (state_of (le_val b_state)) (i64 (le_val b_time)) roots, bs).

(** ** The server *)
Record t := mk {
  locks : gmap Z TableLockInfo; sms : SessionManager.t; file : option (list Z); openOk : bool }.

Definition set_locks m s := mk m (sms s) (file s) (openOk s).
Definition set_sms x s := mk (locks s) x (file s) (openOk s).
Definition set_file f s := mk (locks s) (sms s) f (openOk s).

Definition key_le (p q : Z * TableLockInfo) : Prop := p.1 <= q.1.
Global Instance key_le_dec : RelDecision key_le.
Proof. intros p q. unfold key_le. apply _. Defined.

(** The locks in the order of the [std::map]. *)
Definition lock_list (m : gmap Z TableLockInfo) : list TableLockInfo :=
  snd <$> merge_sort key_le (map_to_list m).

Definition save : M t unit :=
  ok ← gets openOk;
  if negb ok then throw (runtime_error "TableLockServer::save():  could not open save file")
  else modify (fun s => set_file (Some (le_bytes 4 (Z.of_nat (size (locks s))) ++ (lock_list (locks s) ≫= serialize))) s).

Definition uniqueID : M t Z :=
  i ← zoom sms set_sms SessionManager.getUnique64;
  if i =? 0 then zoom sms set_sms SessionManager.getUnique64 else mret i.

Fixpoint load_locks (n : nat) (bs : list Z) : M t unit :=
  match n with
  | O => mret tt
  | S n' =>
      '(tli, bs) ← lift (fun _ => deserialize bs);
      i ← uniqueID;
      modify (fun s => set_locks (<[i := set_id i tli]> (locks s)) s) ;;
      load_locks n' bs
  end.

Definition load : M t unit :=
  f ← gets file;
  ok ← gets openOk;
  match f with
  | None => mret tt
  | Some bs =>
      if negb ok then mret tt
      else '(b, bs) ← lift (fun _ => get_bytes 4 bs); load_locks (Z.to_nat (le_val b)) bs
  end.

(** [try save() catch { undo; throw; }] *)
Definition save_or (revert : t -> t) : M t unit :=
  try_catch save (fun e => modify revert ;; throw e).

(** The first lock, in id order, that overlaps. *)
Definition conflict (tli : TableLockInfo) (m : gmap Z TableLockInfo) : option TableLockInfo :=
  head (filter (fun x => overlaps x tli (list_to_set (dbrootList tli)) = true) (lock_list m)).

(** [lock]: the return value (0 when a lock overlaps) and the caller's
    [TableLockInfo] afterwards. *)
Definition lock (tli : TableLockInfo) : M t (Z * TableLockInfo) :=
  c ← gets (fun s => conflict tli (locks s));
  match c with
  | Some x => mret (0, set_owner (ownerName x) (ownerPID x) (ownerSessionID x) (ownerTxnID x) tli)
  | None =>
      i ← uniqueID;
      modify (fun s => set_locks (<[i := set_id i tli]> (locks s)) s) ;;
      save_or (fun s => set_locks (delete i (locks s)) s) ;;
      mret (i, set_id i tli)
  end.

Definition unlock (i : Z) : M t bool :=
  it ← gets (fun s => locks s !! i);
  match it with
  | None => mret false
  | Some tli =>
      modify (fun s => set_locks (delete i (locks s)) s) ;;
      save_or (fun s => set_locks (<[id tli := tli]> (locks s)) s) ;;
      mret true
  end.

Definition update (i : Z) (f : TableLockInfo -> TableLockInfo) : M t bool :=
  it ← gets (fun s => locks s !! i);
  match it with
  | None => mret false
  | Some old =>
      modify (fun s => set_locks (<[i := f old]> (locks s)) s) ;;
      save_or (fun s => set_locks (<[i := old]> (locks s)) s) ;;
      mret true
  end.

Definition changeState (i : Z) (st : LockState) : M t bool := update i (set_state st).
Definition changeOwner (i : Z) (name : list Z) (pid ses txn : Z) : M t bool :=
  update i (set_owner name pid ses txn).

Definition releaseAllLocks : M t unit :=
  tmp ← gets locks;
  modify (set_locks ∅) ;;
  save_or (set_locks tmp).

Definition getAllLocks (s : t) : list TableLockInfo := lock_list (locks s).
Definition getLockInfo (i : Z) (s : t) : option TableLockInfo := locks s !! i.

End TableLock.
