(* ===== verification/TableLockClaims.v ===== *)
(** * Properties of the table lock server *)

From S2P Require Import Prelude Hasher Bytes SessionManager SessionClaims TableLock.
From stdpp Require Import prelude gmap strings sorting.
Local Open Scope Z_scope.

(** ** Correctness of the table lock server *)

Module TableLockThms.
Import TableLock.

(** ** Mutual exclusion *)
Definition disjoint_locks (x y : TableLockInfo) : Prop :=
  tableOID x = tableOID y -> forall r, r ∈ dbrootList x -> r ∈ dbrootList y -> False.

Record inv (s : t) : Prop := {
  inv_ctr : 0 <= SessionManager.unique64 (sms s);
  inv_id i x : locks s !! i = Some x -> id x = i /\ 0 < i <= SessionManager.unique64 (sms s);
  inv_excl i j x y : i <> j -> locks s !! i = Some x -> locks s !! j = Some y -> disjoint_locks x y }.

Lemma overlaps_spec x y :
  overlaps x y (list_to_set (dbrootList y)) = true <->
  tableOID x = tableOID y /\ exists r, r ∈ dbrootList x /\ r ∈ dbrootList y.
Proof.
  unfold overlaps. rewrite andb_true_iff, Z.eqb_eq, existsb_exists.
  setoid_rewrite bool_decide_eq_true. setoid_rewrite elem_of_list_to_set.
  setoid_rewrite <- list_elem_of_In. done.
Qed.

Lemma lock_list_elem m x : x ∈ lock_list m <-> exists i, m !! i = Some x.
Proof.
  unfold lock_list. rewrite list_elem_of_fmap. split.
  - intros ([i y] & -> & Hp). rewrite merge_sort_Permutation in Hp.
    apply elem_of_map_to_list in Hp. eauto.
  - intros [i Hi]. exists (i, x). split; [done|]. rewrite merge_sort_Permutation.
    by apply elem_of_map_to_list.
Qed.

Lemma conflict_None tli m :
  conflict tli m = None <-> forall i x, m !! i = Some x -> disjoint_locks x tli.
Proof.
  unfold conflict. rewrite head_None. split.
  - intros Hno i x Hi Ht r Hr1 Hr2.
    assert (Hin : x ∈ filter (fun x => overlaps x tli (list_to_set (dbrootList tli)) = true) (lock_list m)).
    { apply list_elem_of_filter. split; [apply overlaps_spec; eauto|]. apply lock_list_elem. eauto. }
    rewrite Hno in Hin. by apply not_elem_of_nil in Hin.
  - intros Hall. apply elem_of_nil_inv. intros x [[Ht (r & H1 & H2)]%overlaps_spec [i Hi]%lock_list_elem]%list_elem_of_filter.
    by apply (Hall i x Hi Ht r).
Qed.

Lemma conflict_Some tli m x :
  conflict tli m = Some x -> exists i, m !! i = Some x /\ ~ disjoint_locks x tli.
Proof.
  unfold conflict. intros Hh%head_Some_elem_of.
  apply list_elem_of_filter in Hh as [[Ht (r & H1 & H2)]%overlaps_spec [i Hi]%lock_list_elem].
  exists i. split; [done|]. intros Hd. by apply (Hd Ht r).
Qed.

(** Ids are fresh while the 64-bit counter does not wrap. *)
Lemma uniqueID_spec s :
  0 <= SessionManager.unique64 (sms s) -> SessionManager.unique64 (sms s) + 1 < 2 ^ 64 ->
  uniqueID s = (Val (SessionManager.unique64 (sms s) + 1),
    set_sms (SessionManager.set_unique64 (SessionManager.unique64 (sms s) + 1) (sms s)) s).
Proof.
  intros H0 H1. unfold uniqueID, zoom, SessionManager.getUnique64, mbind, M_bind, modify, gets. simpl.
  rewrite u64_small by lia. destruct (Z.eqb_spec (SessionManager.unique64 (sms s) + 1) 0); [lia|done].
Qed.

(** [save] either writes the file or throws and changes nothing. *)
Lemma save_or_spec revert s :
  save_or revert s =
  if openOk s
  then (Val tt, set_file (Some (le_bytes 4 (Z.of_nat (size (locks s))) ++ (lock_list (locks s) ≫= serialize))) s)
  else (Exn (runtime_error "TableLockServer::save():  could not open save file"), revert s).
Proof.
  unfold save_or, try_catch, save, mbind, M_bind, gets, modify, throw. by destruct (openOk s).
Qed.

(** The operations as one type. *)
Inductive op :=
| OpLock (tli : TableLockInfo)
| OpUnlock (i : Z)
| OpState (i : Z) (st : LockState)
| OpOwner (i : Z) (name : list Z) (pid ses txn : Z)
| OpReleaseAll.

Definition exec (o : op) : M t unit :=
  match o with
  | OpLock tli => lock tli ;; mret tt
  | OpUnlock i => unlock i ;; mret tt
  | OpState i st => changeState i st ;; mret tt
  | OpOwner i name pid ses txn => changeOwner i name pid ses txn ;; mret tt
  | OpReleaseAll => releaseAllLocks
  end.

(** [lock], every branch. *)
Lemma lock_spec tli s :
  0 <= SessionManager.unique64 (sms s) -> SessionManager.unique64 (sms s) + 1 < 2 ^ 64 ->
  lock tli s =
  match conflict tli (locks s) with
  | Some x => (Val (0, set_owner (ownerName x) (ownerPID x) (ownerSessionID x) (ownerTxnID x) tli), s)
  | None =>
      let i := SessionManager.unique64 (sms s) + 1 in
      let s1 := set_locks (<[i := set_id i tli]> (locks s))
                  (set_sms (SessionManager.set_unique64 i (sms s)) s) in
      if openOk s
      then (Val (i, set_id i tli),
            set_file (Some (le_bytes 4 (Z.of_nat (size (locks s1))) ++ (lock_list (locks s1) ≫= serialize))) s1)
      else (Exn (runtime_error "TableLockServer::save():  could not open save file"),
            set_locks (delete i (locks s1)) s1)
  end.
Proof.
  intros H0 H1. unfold lock, mbind, M_bind, gets. cbn beta iota.
  destruct (conflict tli (locks s)); [done|]. rewrite uniqueID_spec by done. unfold modify. cbn beta iota.
  rewrite save_or_spec. simpl. by destruct (openOk s).
Qed.

Lemma update_spec i f s :
  update i f s =
  match locks s !! i with
  | None => (Val false, s)
  | Some old =>
      let s1 := set_locks (<[i := f old]> (locks s)) s in
      if openOk s
      then (Val true, set_file (Some (le_bytes 4 (Z.of_nat (size (locks s1))) ++ (lock_list (locks s1) ≫= serialize))) s1)
      else (Exn (runtime_error "TableLockServer::save():  could not open save file"),
            set_locks (<[i := old]> (locks s1)) s1)
  end.
Proof.
  unfold update, mbind, M_bind, gets, modify. cbn beta iota.
  destruct (locks s !! i); [|done]. rewrite save_or_spec. simpl. by destruct (openOk s).
Qed.

Lemma unlock_spec i s :
  unlock i s =
  match locks s !! i with
  | None => (Val false, s)
  | Some tli =>
      let s1 := set_locks (delete i (locks s)) s in
      if openOk s
      then (Val true, set_file (Some (le_bytes 4 (Z.of_nat (size (locks s1))) ++ (lock_list (locks s1) ≫= serialize))) s1)
      else (Exn (runtime_error "TableLockServer::save():  could not open save file"),
            set_locks (<[id tli := tli]> (locks s1)) s1)
  end.
Proof.
  unfold unlock, mbind, M_bind, gets, modify. cbn beta iota.
  destruct (locks s !! i); [|done]. rewrite save_or_spec. simpl. by destruct (openOk s).
Qed.

Lemma disjoint_sym x y : disjoint_locks x y -> disjoint_locks y x.
Proof. intros H Ht r Hr1 Hr2. by apply (H (eq_sym Ht) r). Qed.

Lemma inv_insert s i tli sm f k :
  inv s -> conflict tli (locks s) = None -> i = SessionManager.unique64 (sms s) + 1 ->
  SessionManager.unique64 sm = i -> inv (mk (<[i := set_id i tli]> (locks s)) sm f k).
Proof.
  intros [Hc Hid Hex] Hno Hi Hsm. pose proof (proj1 (conflict_None _ _) Hno) as Hd.
  split; simpl; [lia| |].
  - intros j x. rewrite lookup_insert. case_decide; [intros [= <-]; subst; simpl; split; [done|lia]|].
    intros Hj. destruct (Hid _ _ Hj). split; [done|lia].
  - intros j k' x y Hne. rewrite !lookup_insert. repeat case_decide; subst; try done.
    + intros [= <-] Hy. apply disjoint_sym. apply (Hd _ _ Hy).
    + intros Hx [= <-]. apply (Hd _ _ Hx).
    + by apply Hex.
Qed.

Lemma inv_update s i (f : TableLockInfo -> TableLockInfo) fl k x :
  (forall x, id (f x) = id x /\ tableOID (f x) = tableOID x /\ dbrootList (f x) = dbrootList x) ->
  inv s -> locks s !! i = Some x -> inv (mk (<[i := f x]> (locks s)) (sms s) fl k).
Proof.
  intros Hf [Hc Hid Hex] Hi. destruct (Hf x) as (F1 & F2 & F3).
  split; simpl; [done| |].
  - intros j y. rewrite lookup_insert. case_decide; [intros [= <-]; subst; rewrite F1; by apply Hid|apply Hid].
  - intros j k' y z Hne. unfold disjoint_locks. rewrite !lookup_insert. repeat case_decide; subst; try done.
    + intros [= <-] Hz. rewrite F2, F3. by apply (Hex j k' x z).
    + intros Hy [= <-]. rewrite F2, F3. by apply (Hex j k' y x).
    + by apply Hex.
Qed.

Lemma inv_sub s m sm f k :
  inv s -> m ⊆ locks s -> SessionManager.unique64 (sms s) <= SessionManager.unique64 sm -> inv (mk m sm f k).
Proof.
  intros [Hc Hid Hex] Hsub Hle. rewrite map_subseteq_spec in Hsub. split; simpl; [lia| |].
  - intros i x Hx%Hsub. destruct (Hid _ _ Hx). split; [done|lia].
  - intros i j x y Hne Hx%Hsub Hy%Hsub. by apply (Hex i j).
Qed.

Lemma exec_bind {A} (m : M t A) s :
  (m ;; mret tt) s = match m s with (Val _, s') => (Val tt, s') | (Exn e, s') => (Exn e, s') | (Fault f, s') => (Fault f, s') end.
Proof. unfold mbind, M_bind. by destruct (m s) as [[]]. Qed.

(** One call of any operation keeps the invariant, whether or not its save
    succeeds, and uses at most one id; a call that throws leaves the locks as they
    were. *)
Lemma exec_inv o s :
  inv s -> SessionManager.unique64 (sms s) + 1 < 2 ^ 64 ->
  inv (exec o s).2 /\
  SessionManager.unique64 (sms (exec o s).2) <= SessionManager.unique64 (sms s) + 1 /\
  (forall e, (exec o s).1 = Exn e -> locks (exec o s).2 = locks s).
Proof.
  intros Hi Hb. pose proof (inv_ctr _ Hi) as H0. destruct o as [tli|i|i st|i name pid ses txn|]; simpl.
  - rewrite exec_bind, lock_spec by done. destruct (conflict tli (locks s)) eqn:Hc; [simpl; split_and!; (done || lia)|].
    assert (Hnone : locks s !! (SessionManager.unique64 (sms s) + 1) = None).
    { apply eq_None_not_Some. intros [x Hx]. destruct (inv_id _ Hi _ _ Hx). lia. }
    destruct (openOk s); simpl.
    + split_and!; try done. by apply inv_insert.
    + rewrite delete_insert_id by done. split_and!; try done.
      apply (inv_sub s); simpl; try done. lia.
  - rewrite exec_bind, unlock_spec. destruct (locks s !! i) as [tli|] eqn:Hl; [|simpl; split_and!; (done || lia)].
    destruct (openOk s); simpl.
    + split_and!; try done; [|lia]. apply (inv_sub s); try done. apply delete_subseteq.
    + destruct (inv_id _ Hi _ _ Hl) as [-> _]. rewrite insert_delete_id by done.
      split_and!; try done; [|lia]. by apply (inv_sub s).
  - rewrite exec_bind. unfold changeState. rewrite update_spec.
    destruct (locks s !! i) as [old|] eqn:Hl; [|simpl; split_and!; (done || lia)].
    destruct (openOk s); simpl.
    + split_and!; try done; [|lia]. by apply (inv_update s i (set_state st)).
    + rewrite insert_insert_eq, insert_id by done. split_and!; try done; [|lia]. by apply (inv_sub s).
  - rewrite exec_bind. unfold changeOwner. rewrite update_spec.
    destruct (locks s !! i) as [old|] eqn:Hl; [|simpl; split_and!; (done || lia)].
    destruct (openOk s); simpl.
    + split_and!; try done; [|lia]. by apply (inv_update s i (set_owner name pid ses txn)).
    + rewrite insert_insert_eq, insert_id by done. split_and!; try done; [|lia]. by apply (inv_sub s).
  - unfold releaseAllLocks, mbind, M_bind, gets, modify. cbn beta iota. rewrite save_or_spec. simpl.
    destruct (openOk s); simpl; (split; [|split; [lia|done]]).
    + apply (inv_sub s); try done. apply map_empty_subseteq.
    + by apply (inv_sub s).
Qed.

Definition run (ops : list op) (s : t) : t := foldl (fun s o => (exec o s).2) s ops.

(** ** The file form *)
Record storable (x : TableLockInfo) : Prop := {
  st_id : 0 <= id x < 2 ^ 64;
  st_oid : 0 <= tableOID x < 2 ^ 32;
  st_pid : 0 <= ownerPID x < 2 ^ 32;
  st_ses : - 2 ^ 31 <= ownerSessionID x < 2 ^ 31;
  st_txn : - 2 ^ 31 <= ownerTxnID x < 2 ^ 31;
  st_time : - 2 ^ 63 <= creationTime x < 2 ^ 63;
  st_name : zlen (ownerName x) < 2 ^ 16;
  st_roots : zlen (dbrootList x) < 2 ^ 16;
  st_root : Forall (fun r => 0 <= r < 2 ^ 32) (dbrootList x) }.

Lemma read_roots_spec rs rest :
  Forall (fun r => 0 <= r < 2 ^ 32) rs ->
  read_roots (length rs) ((rs ≫= le_bytes 4) ++ rest) = Val (rs, rest).
Proof.
  induction 1 as [|r rs Hr _ IH]; [done|]. cbn [length read_roots].
  change ((r :: rs) ≫= le_bytes 4) with (le_bytes 4 r ++ (rs ≫= le_bytes 4)).
  rewrite <- app_assoc, get_le_bytes. cbn beta iota. unfold mbind at 1, outcome_bind at 1.
  rewrite IH. unfold mbind, outcome_bind. rewrite le_val_u; [done|]. simpl. lia.
Qed.

Lemma le_val_i64 z : - 2 ^ 63 <= z < 2 ^ 63 -> i64 (le_val (le_bytes 8 z)) = z.
Proof.
  intros Hz. rewrite le_val_bytes. change (8 * Z.of_nat 8) with 64. unfold i64.
  rewrite Zplus_mod_idemp_l. by apply i64_small.
Qed.

Lemma deserialize_serialize x rest :
  storable x -> deserialize (serialize x ++ rest) = Val (x, rest).
Proof.
  intros [Hid Hoid Hpid Hses Htxn Htime Hname Hroots Hroot].
  assert (Hu1 : u16 (zlen (ownerName x)) = zlen (ownerName x)) by (apply Z.mod_small; unfold zlen in *; lia).
  assert (Hu2 : u16 (zlen (dbrootList x)) = zlen (dbrootList x)) by (apply Z.mod_small; unfold zlen in *; lia).
  unfold serialize, deserialize. rewrite Hu1, Hu2. unfold zlen. rewrite !Nat2Z.id, !take_ge by lia.
  rewrite <- !app_assoc. unfold zlen in Hname, Hroots.
  assert (Hb : forall {A B} (a : A) (f : A -> outcome B), (Val a ≫= f) = f a) by done.
  rewrite get_le_bytes, Hb. cbn beta iota. rewrite get_le_bytes, Hb. cbn beta iota.
  rewrite get_le_bytes, Hb. cbn beta iota. rewrite get_le_bytes, Hb. cbn beta iota.
  rewrite get_le_bytes, Hb. cbn beta iota. rewrite get_le_bytes, Hb. cbn beta iota.
  rewrite get_le_bytes, Hb. cbn beta iota. rewrite get_le_bytes, Hb. cbn beta iota.
  rewrite (le_val_u 2) by (simpl; lia). rewrite Nat2Z.id, get_bytes_app, Hb by done. cbn beta iota.
  rewrite get_le_bytes, Hb. cbn beta iota. rewrite (le_val_u 2) by (simpl; lia).
  rewrite Nat2Z.id, read_roots_spec, Hb by done. cbn beta iota.
  rewrite !le_val_i32, le_val_i64, (le_val_u 8), !(le_val_u 4) by (simpl; try lia; by destruct (state x)).
  by destruct x as [? ? ? ? ? ? []].
Qed.
End TableLockThms.

Module TableLockClaims.
Import TableLock TableLockThms.

Definition srv0 : t := mk ∅ SessionClaims.srv0 None true.
Definition bad0 : t := mk ∅ SessionClaims.srv0 None false.

Lemma tl_srv0_inv : inv srv0 /\ inv bad0.
Proof.
  split; (split; [vm_compute; done|intros i x; simpl; by rewrite lookup_empty|]);
    intros i j x y _; simpl; by rewrite lookup_empty.
Qed.

Definition tli1 : TableLockInfo := mkTLI 0 3001 [100; 109; 108] 77 1 9 LOADING 1700000000 [1; 2].
Definition tli2 : TableLockInfo := mkTLI 0 3001 [99] 78 2 10 LOADING 1700000001 [2; 3].

(** C31. Mutual exclusion: after any sequence of lock, unlock, state and owner
    changes and releases, whether or not the saves succeed, no two locks of the
    same table share a dbroot, and every lock is filed under its own non-zero id. *)
Theorem tablelock_exclusive ops : forall s,
  inv s -> SessionManager.unique64 (sms s) + Z.of_nat (length ops) < 2 ^ 64 -> inv (run ops s).
Proof.
  induction ops as [|o ops IH]; intros s Hi Hb; simpl in *; [done|].
  destruct (exec_inv o s Hi) as (Hi' & Hc & _); [lia|]. apply IH; [done|lia].
Qed.

Lemma tablelock_exclusive_witness : inv (run [OpLock tli1; OpLock tli2; OpUnlock 1; OpLock tli2] srv0).
Proof.
  apply (tablelock_exclusive [OpLock tli1; OpLock tli2; OpUnlock 1; OpLock tli2] srv0).
  - apply tl_srv0_inv.
  - vm_compute. done.
Defined.

(** A failed save rolls the change back: an operation that throws leaves the
    lock table exactly as it was. *)
Theorem tablelock_atomic o s :
  inv s -> SessionManager.unique64 (sms s) + 1 < 2 ^ 64 ->
  forall e, (exec o s).1 = Exn e -> locks (exec o s).2 = locks s.
Proof. intros Hi Hb. by apply exec_inv. Qed.

Lemma tablelock_atomic_witness : locks (exec (OpLock tli1) bad0).2 = ∅.
Proof.
  apply (tablelock_atomic (OpLock tli1) bad0 (proj2 tl_srv0_inv) ltac:(vm_compute; done)
    (runtime_error "TableLockServer::save():  could not open save file")).
  vm_compute. done.
Defined.

(** [lock] answers 0 exactly when a held lock of the same table shares a
    dbroot, and then reports that lock's owner and changes nothing; otherwise it
    returns a fresh non-zero id under which the request is filed and saved. *)
Theorem tablelock_lock_decides tli s :
  inv s -> SessionManager.unique64 (sms s) + 1 < 2 ^ 64 -> openOk s = true ->
  exists i out s', lock tli s = (Val (i, out), s') /\
    ((i = 0 /\ s' = s /\ exists j x, locks s !! j = Some x /\ ~ disjoint_locks x tli /\
        ownerName out = ownerName x /\ ownerPID out = ownerPID x /\
        ownerSessionID out = ownerSessionID x /\ ownerTxnID out = ownerTxnID x) \/
     (0 < i /\ locks s !! i = None /\ locks s' = <[i := set_id i tli]> (locks s) /\ out = set_id i tli /\
        is_Some (file s') /\ forall j x, locks s !! j = Some x -> disjoint_locks x tli)).
Proof.
  intros Hi Hb Hok. pose proof (inv_ctr _ Hi) as H0. rewrite lock_spec by done.
  destruct (conflict tli (locks s)) as [x|] eqn:Hc.
  - eexists _, _, _. split; [done|]. left. apply conflict_Some in Hc as (j & Hj & Hd).
    split_and!; try done. by exists j, x.
  - rewrite Hok. eexists _, _, _. split; [done|]. right.
    split_and!; try done; [lia| |by apply conflict_None].
    apply eq_None_not_Some. intros [x Hx]. destruct (inv_id _ Hi _ _ Hx). lia.
Qed.

Lemma tablelock_lock_decides_witness :
  exists i out s', lock tli2 (exec (OpLock tli1) srv0).2 = (Val (i, out), s') /\ i = 0.
Proof.
  destruct (tablelock_lock_decides tli2 (exec (OpLock tli1) srv0).2) as (i & out & s' & Hl & Hor).
  - apply (exec_inv (OpLock tli1) srv0 (proj1 tl_srv0_inv)). vm_compute. done.
  - vm_compute. done.
  - vm_compute. done.
  - exists i, out, s'. split; [done|]. vm_compute in Hl. by injection Hl as <- _ _.
Defined.

(** The file form of a lock is lossless: a lock whose fields fit their widths
    is read back exactly, wherever it stands in the file. *)
Theorem tablelock_serialize_roundtrip x rest :
  storable x -> deserialize (serialize x ++ rest) = Val (x, rest).
Proof. apply deserialize_serialize. Qed.

Lemma tli1_storable i : 0 <= i < 2 ^ 64 -> storable (set_id i tli1).
Proof.
  intros Hi. split; simpl; [lia..| | |]; [reflexivity|reflexivity|].
  apply Forall_cons_2; [lia|]. by apply Forall_singleton.
Qed.

Lemma tablelock_serialize_roundtrip_witness : deserialize (serialize (set_id 0 tli1) ++ [7]) = Val (set_id 0 tli1, [7]).
Proof.
  apply (tablelock_serialize_roundtrip (set_id 0 tli1) [7]). apply tli1_storable. lia.
Defined.

(** Loading a list of saved locks files them under consecutive new ids. *)
Lemma load_locks_spec xs rest : forall s,
  Forall storable xs -> 0 <= SessionManager.unique64 (sms s) ->
  SessionManager.unique64 (sms s) + Z.of_nat (length xs) < 2 ^ 64 ->
  wp (load_locks (length xs) ((xs ≫= serialize) ++ rest)) s (fun _ s' =>
    SessionManager.unique64 (sms s') = SessionManager.unique64 (sms s) + Z.of_nat (length xs) /\
    (forall k x, xs !! k = Some x ->
       let i := SessionManager.unique64 (sms s) + 1 + Z.of_nat k in locks s' !! i = Some (set_id i x)) /\
    (forall i, i <= SessionManager.unique64 (sms s) -> locks s' !! i = locks s !! i)).
Proof.
  induction xs as [|x xs IH]; intros s Hall H0 Hb.
  - simpl. split_and!; [simpl; lia|done|done].
  - apply Forall_cons in Hall as [Hx Hall]. cbn [length load_locks].
    change ((x :: xs) ≫= serialize) with (serialize x ++ (xs ≫= serialize)). rewrite <- app_assoc.
    wp_step. eapply wp_lift; [by apply deserialize_serialize|]. cbn beta iota. wp_step.
    simpl length in Hb. eapply run_wp; [apply uniqueID_spec; [done|lia]|]. wp_steps.
    set (u := SessionManager.unique64 (sms s)) in *.
    eapply wp_mono; [apply IH; simpl; [done|lia|lia]|]. simpl.
    intros [] s' (Hc & Hk & Hlow). split_and!; [lia| |].
    + intros [|k] y Hy; simpl in Hy.
      * injection Hy as ->. rewrite Z.add_0_r. rewrite Hlow by lia. apply lookup_insert_eq.
      * replace (u + 1 + Z.of_nat (S k)) with (u + 1 + 1 + Z.of_nat k) by lia. by apply Hk.
    + intros i Hi. rewrite Hlow by lia. by rewrite lookup_insert_ne by lia.
Qed.

(** Restart: a server that loads the file written by [save] has every saved
    lock, the k-th under the (k+1)-th id after its counter. *)
Theorem tablelock_save_load s s2 :
  openOk s = true -> openOk s2 = true -> Z.of_nat (size (locks s)) < 2 ^ 32 ->
  Forall storable (lock_list (locks s)) -> locks s2 = ∅ ->
  0 <= SessionManager.unique64 (sms s2) ->
  SessionManager.unique64 (sms s2) + Z.of_nat (length (lock_list (locks s))) < 2 ^ 64 ->
  wp save s (fun _ s1 =>
    wp load (set_file (file s1) s2) (fun _ s3 =>
      forall k x, lock_list (locks s) !! k = Some x ->
        let i := SessionManager.unique64 (sms s2) + 1 + Z.of_nat k in locks s3 !! i = Some (set_id i x))).
Proof.
  intros Hok Hok2 Hsz Hall Hemp H0 Hb.
  assert (Hlen : length (lock_list (locks s)) = size (locks s)).
  { unfold lock_list. rewrite length_fmap, merge_sort_Permutation. apply length_map_to_list. }
  unfold save. wp_steps. rewrite Hok. cbn [negb]. wp_steps. unfold load. wp_steps.
  cbn [file openOk set_file]. rewrite Hok2. cbn [negb]. wp_step.
  eapply wp_lift; [apply get_le_bytes|]. cbn beta iota. rewrite le_val_u by (simpl; lia).
  rewrite Nat2Z.id, <- Hlen. rewrite <- (app_nil_r (lock_list (locks s) ≫= serialize)).
  eapply wp_mono; [by apply load_locks_spec|]. intros [] s3 (_ & Hk & _). exact Hk.
Qed.

Lemma tablelock_save_load_witness :
  wp save (exec (OpLock tli1) srv0).2 (fun _ s1 =>
    wp load (set_file (file s1) srv0) (fun _ s3 => locks s3 !! 1 = Some (set_id 1 (set_id 1 tli1)))).
Proof.
  eapply wp_mono; [apply (tablelock_save_load (exec (OpLock tli1) srv0).2 srv0)|].
  - vm_compute. done.
  - done.
  - vm_compute. done.
  - change (lock_list (locks (exec (OpLock tli1) srv0).2)) with [set_id 1 tli1].
    apply Forall_singleton, tli1_storable. lia.
  - done.
  - vm_compute. done.
  - vm_compute. done.
  - intros [] s1 Hl. eapply wp_mono; [exact Hl|]. intros [] s3 H3.
    apply (H3 0%nat (set_id 1 tli1)). vm_compute. done.
Defined.
End TableLockClaims.
