(* ===== verification/ResourceGraph.v ===== *)
(** * The LBID resource graph (lbidresourcegraph.cpp, rgnode.cpp,
      resourcenode.cpp, transactionnode.cpp)

    Transactions and logical blocks are the nodes of a graph.  An edge from a
    block to a transaction says that the transaction owns the block, an edge from
    a transaction to a block says that it waits for it.  Every node keeps both
    its outgoing and its incoming edges.

    Nodes are addressed by what identifies them: a [TransactionNode] by its
    transaction (the key of [txns]), a [ResourceNode] by its LBID (the key of
    [resources]).  The [heap] holds the nodes that are allocated; an access to a
    node that was deleted is the fault [StaleAddress].

    [std::set<RGNode*>] is ordered by address, so the order in which a loop visits
    the neighbours of a node is a parameter of the model. *)
From S2P Require Import Prelude.
From stdpp Require Import prelude gmap strings.

Local Open Scope Z_scope.

Module RG.

Inductive node := Txn (txnID : Z) | Res (lbid : Z).

#[global] Instance node_eq_dec : EqDecision node.
Proof. solve_decision. Defined.

#[global] Instance node_countable : Countable node.
Proof.
  refine (inj_countable' (fun n => match n with Txn t => inl t | Res l => inr l end)
    (fun s => match s with inl t => Txn t | inr l => Res l end) _).
  by intros [].
Defined.

Record RGNode := mkNode { out : gset node; inn : gset node; _color : Z }.

(** The fields [TransactionNode] adds to [RGNode]. *)
Record TxnFlags := mkFlags { _die : bool; _sleeping : bool }.

Record graph := mkGraph {
  heap : gmap node RGNode; txns : gmap Z TxnFlags; resources : gset Z; color : Z }.

Definition set_heap h g := mkGraph h (txns g) (resources g) (color g).
Definition set_txns t g := mkGraph (heap g) t (resources g) (color g).
Definition set_resources r g := mkGraph (heap g) (txns g) r (color g).
Definition set_color c g := mkGraph (heap g) (txns g) (resources g) c.

Definition with_out f n := mkNode (f (out n)) (inn n) (_color n).
Definition with_inn f n := mkNode (out n) (f (inn n)) (_color n).
Definition with_color c n := mkNode (out n) (inn n) c.

(** [LBIDResourceGraph()] *)
Definition empty_graph : graph := mkGraph ∅ ∅ ∅ 0.

(** [RGNode()] *)
Definition fresh : RGNode := mkNode ∅ ∅ 0.

Definition deref (n : node) : M graph RGNode := fun g =>
  match heap g !! n with
  | Some x => (Val x, g)
  | None => (Fault StaleAddress, g)
  end.

Definition update (n : node) (f : RGNode -> RGNode) : M graph unit :=
  x ← deref n;
  modify (fun g => set_heap (<[n := f x]> (heap g)) g).

Definition addOutEdge (this n : node) : M graph unit :=
  update this (with_out (fun s => {[n]} ∪ s)) ;;
  update n (with_inn (fun s => {[this]} ∪ s)).

Definition addInEdge (this n : node) : M graph unit :=
  update this (with_inn (fun s => {[n]} ∪ s)) ;;
  update n (with_out (fun s => {[this]} ∪ s)).

Definition removeOutEdge (this n : node) : M graph unit :=
  update this (with_out (fun s => s ∖ {[n]})) ;;
  update n (with_inn (fun s => s ∖ {[this]})).

Definition removeInEdge (this n : node) : M graph unit :=
  update this (with_inn (fun s => s ∖ {[n]})) ;;
  update n (with_out (fun s => s ∖ {[this]})).

(** [TransactionNode::sleeping], [wake] (the waiting thread is notified and the
    flag cleared at once, whether or not the thread has run) and [die]. *)
Definition flags (t : Z) : M graph TxnFlags := fun g =>
  match txns g !! t with
  | Some f => (Val f, g)
  | None => (Fault StaleAddress, g)
  end.

Definition set_flags (t : Z) (f : TxnFlags) : M graph unit :=
  modify (fun g => set_txns (<[t := f]> (txns g)) g).

Definition sleeping (t : Z) : M graph bool := f ← flags t; mret (_sleeping f).
Definition dead (t : Z) : M graph bool := f ← flags t; mret (_die f).
Definition wake (t : Z) : M graph unit := f ← flags t; set_flags t (mkFlags (_die f) false).
Definition die (t : Z) : M graph unit := f ← flags t; set_flags t (mkFlags true (_sleeping f)).

(** The part of [TransactionNode::sleep] before the wait. *)
Definition sleep (t : Z) : M graph unit := f ← flags t; set_flags t (mkFlags (_die f) true).

Definition ERR_OK : Z := 0.
Definition ERR_DEADLOCK : Z := 6.
Definition ERR_KILLED : Z := 7.

Section ordered.
(** The order in which a loop over a [std::set<RGNode*>] visits it. *)
Context (order : gset node -> list node).

(** [RGNode::~RGNode], then the storage is freed. *)
Definition destroy (n : node) : M graph unit :=
  x ← deref n;
  for_each (order (inn x)) (fun m => update m (with_out (fun s => s ∖ {[n]}))) ;;
  for_each (order (out x)) (fun m => update m (with_inn (fun s => s ∖ {[n]}))) ;;
  modify (fun g => set_heap (delete n (heap g)) g).

(** The incoming edges of a resource come from transactions
    ([dynamic_cast<TransactionNode*>]). *)
Definition wakeAndDetach (r : node) : M graph unit :=
  x ← deref r;
  for_each (order (inn x)) (fun m =>
    match m with
    | Txn t => wake t ;; removeInEdge r m
    | Res _ => fail_with StaleAddress
    end) ;;
  update r (with_inn (fun _ => ∅)).

(** The first loop of [connectResources]: the nodes of [[start, start + n)] that
    exist ([intersection]) and the ones it creates ([reserveList]). *)
Fixpoint find_or_make (n : nat) (i : Z) : M graph (list Z * list Z) :=
  match n with
  | O => mret ([], [])
  | S n' =>
      known ← gets (fun g : graph => bool_decide (i ∈ resources g));
      (if known : bool then mret tt : M graph unit
       else
         modify (fun g => set_heap (<[Res i := fresh]> (heap g)) g) ;;
         modify (fun g => set_resources ({[i]} ∪ resources g) g)) ;;
      ir ← find_or_make n' (i + 1);
      mret (if known : bool then (i :: ir.1, ir.2) else (ir.1, i :: ir.2))
  end.

Definition connectResources (start end_ : Z) (t : Z) : M graph unit :=
  ir ← find_or_make (Z.to_nat (end_ - start + 1)) start;
  for_each ir.1 (fun l : Z =>
    x ← deref (Txn t);
    if bool_decide (Res l ∈ inn x) then mret tt else addOutEdge (Txn t) (Res l)) ;;
  for_each ir.2 (fun l : Z => addInEdge (Txn t) (Res l)).

(** The loop of [DFSStep] over the outgoing edges. *)
Fixpoint dfs_edges (visit : node -> M graph bool) (black : Z) (l : list node) : M graph bool :=
  match l with
  | [] => mret false
  | m :: l' =>
      y ← deref m;
      if _color y =? black then dfs_edges visit black l' else
      r ← visit m;
      if r : bool then mret true else dfs_edges visit black l'
  end.

(** Depth-first search; [fuel] bounds the depth of the recursion. *)
Fixpoint DFSStep (fuel : nat) (curNode : node) (gray black : Z) : M graph bool :=
  match fuel with
  | O => fail_with OutOfFuel
  | S fuel' =>
      x ← deref curNode;
      if _color x =? gray then mret true else
      update curNode (with_color gray) ;;
      found ← dfs_edges (fun m => DFSStep fuel' m gray black) black (order (out x));
      if found : bool then mret true
      else update curNode (with_color black) ;; mret false
  end.

Definition checkDeadlock (start : Z) : M graph bool :=
  modify (fun g => set_color (u64 (color g + 1)) g) ;;
  gray ← gets color;
  modify (fun g => set_color (u64 (color g + 1)) g) ;;
  black ← gets color;
  fuel ← gets (fun g => size (heap g) + 1)%nat;
  DFSStep fuel (Txn start) gray black.

(** A call of [reserveRange] runs until it returns or until its thread waits on
    the condition variable. *)
Inductive call := Done (err : Z) | Sleep.

(** The loop test and the body of the loop up to the wait. *)
Definition reserve_loop (t : Z) : M graph call :=
  x ← deref (Txn t);
  if bool_decide (out x = ∅) then mret (Done ERR_OK) else
  deadlock ← checkDeadlock t;
  if deadlock : bool then mret (Done ERR_DEADLOCK)
  else sleep t ;; mret Sleep.

Definition reserveRange (start end_ t : Z) : M graph call :=
  known ← gets (fun g => bool_decide (is_Some (txns g !! t)));
  (if known : bool then mret tt
   else
     modify (fun g => set_heap (<[Txn t := fresh]> (heap g)) g) ;;
     set_flags t (mkFlags false false)) ;;
  connectResources start end_ t ;;
  reserve_loop t.

(** The rest of the loop body, after the thread has woken up. *)
Definition reserveRange_resume (start end_ t : Z) : M graph call :=
  d ← dead t;
  if d : bool then
    modify (fun g => set_txns (delete t (txns g)) g) ;;
    destroy (Txn t) ;;
    mret (Done ERR_KILLED)
  else
    connectResources start end_ t ;;
    reserve_loop t.

Definition releaseResources (t : Z) : M graph unit :=
  known ← gets (fun g => bool_decide (is_Some (txns g !! t)));
  if known : bool then
    x ← deref (Txn t);
    for_each (order (inn x)) (fun r =>
      match r with
      | Res l =>
          wakeAndDetach r ;;
          removeInEdge (Txn t) r ;;
          modify (fun g => set_resources (resources g ∖ {[l]}) g) ;;
          destroy r
      | Txn _ => fail_with StaleAddress
      end) ;;
    x ← deref (Txn t);
    for_each (order (out x)) (fun r => removeOutEdge (Txn t) r) ;;
    asleep ← sleeping t;
    if asleep : bool then die t ;; wake t
    else
      modify (fun g => set_txns (delete t (txns g)) g) ;;
      destroy (Txn t)
  else mret tt.

(** [releaseResource] erases the element its iterator points to and then
    dereferences that iterator ([delete *sit]). *)
Definition releaseResource (l : Z) : M graph unit :=
  known ← gets (fun g : graph => bool_decide (l ∈ resources g));
  if known : bool then
    wakeAndDetach (Res l) ;;
    x ← deref (Res l);
    match order (out x) with
    | [] => fail_with OutOfBounds
    | m :: _ =>
        removeOutEdge (Res l) m ;;
        modify (fun g => set_resources (resources g ∖ {[l]}) g) ;;
        fail_with StaleAddress
    end
  else mret tt.

(** [~LBIDResourceGraph]: sleeping transactions are killed and woken, every
    other node is deleted. *)
Definition delete_graph : M graph unit :=
  ts ← gets (fun g => (map_to_list (txns g)).*1);
  for_each ts (fun t =>
    asleep ← sleeping t;
    if asleep : bool then die t ;; wake t
    else
      modify (fun g => set_txns (delete t (txns g)) g) ;;
      destroy (Txn t)) ;;
  rs ← gets (fun g => elements (resources g));
  for_each rs (fun l =>
    destroy (Res l) ;;
    modify (fun g => set_resources (resources g ∖ {[l]}) g)).

(** ** Concurrent transactions

    Each call runs under the caller's mutex up to the wait; [blocked] holds the
    calls whose threads wait, with their arguments.  A transaction has one call
    outstanding at a time.  A blocked thread resumes after it has been notified
    (its [_sleeping] flag is then cleared); wake-ups without a notification are
    not modelled. *)
Record system := mkSys { rg : graph; blocked : gmap Z (Z * Z) }.

Definition park (t start end_ : Z) (r : call) (b : gmap Z (Z * Z)) : gmap Z (Z * Z) :=
  match r with Done _ => delete t b | Sleep => <[t := (start, end_)]> b end.

(** A release for a transaction whose thread has been notified and has not run
    yet is left out of the steps (it deletes the node the thread will use). *)
Definition releasable (t : Z) (s : system) : Prop :=
  blocked s !! t = None \/ exists f, txns (rg s) !! t = Some f /\ _sleeping f = true.

Inductive step : system -> system -> Prop :=
| step_reserve g b t start end_ r g' :
    b !! t = None ->
    reserveRange start end_ t g = (Val r, g') ->
    step (mkSys g b) (mkSys g' (park t start end_ r b))
| step_resume g b t f start end_ r g' :
    b !! t = Some (start, end_) ->
    txns g !! t = Some f -> _sleeping f = false ->
    reserveRange_resume start end_ t g = (Val r, g') ->
    step (mkSys g b) (mkSys g' (park t start end_ r b))
| step_release g b t g' :
    releasable t (mkSys g b) ->
    releaseResources t g = (Val tt, g') ->
    step (mkSys g b) (mkSys g' b).
End ordered.

End RG.
