(* ===== verification/RGThms.v ===== *)
(** * Lemmas on the LBID resource graph

    The depth-first search decides whether a cycle is reachable; the edge
    operations keep the two directions of every edge together; the operations
    keep the ownership invariant of the graph. *)
From S2P Require Import Prelude ResourceGraph.
From stdpp Require Import prelude gmap strings.

Local Open Scope Z_scope.

Module RGThms.
Import RG.

(** ** Edges *)
Definition edge (g : graph) (a b : node) : Prop :=
  exists x, heap g !! a = Some x /\ b ∈ out x.

(** The same edge as its target records it. *)
Definition iedge (g : graph) (a b : node) : Prop :=
  exists x, heap g !! b = Some x /\ a ∈ inn x.

Definition alloc (g : graph) (n : node) : Prop := is_Some (heap g !! n).

Definition colour (g : graph) (n : node) : option Z := _color <$> heap g !! n.

(** A cycle of edges that can be reached from [n]. *)
Definition reaches_cycle (g : graph) (n : node) : Prop :=
  exists m, rtc (edge g) n m /\ tc (edge g) m m.

(** Only the colours of the nodes differ. *)
Definition recoloured (g g' : graph) : Prop :=
  txns g' = txns g /\ resources g' = resources g /\
  forall n, (fun x => (out x, inn x)) <$> heap g' !! n = (fun x => (out x, inn x)) <$> heap g !! n.

Lemma recoloured_refl g : recoloured g g.
Proof. done. Qed.

Lemma recoloured_trans g1 g2 g3 : recoloured g1 g2 -> recoloured g2 g3 -> recoloured g1 g3.
Proof. intros (? & ? & H1) (? & ? & H2). split_and!; [congruence..|]. intros n. by rewrite H2. Qed.

Lemma recoloured_heap g g' n x :
  recoloured g g' -> heap g !! n = Some x ->
  exists x', heap g' !! n = Some x' /\ out x' = out x /\ inn x' = inn x.
Proof.
  intros (_ & _ & H) Hx. specialize (H n). rewrite Hx in H.
  destruct (heap g' !! n) as [x'|]; simplify_eq/=. eauto.
Qed.

Lemma recoloured_sym g g' : recoloured g g' -> recoloured g' g.
Proof. intros (? & ? & H). by split_and!. Qed.

Lemma recoloured_alloc g g' n : recoloured g g' -> alloc g' n <-> alloc g n.
Proof.
  intros H. split; intros [x Hx].
  - destruct (recoloured_heap _ _ _ _ (recoloured_sym _ _ H) Hx) as (?&?&_). by eexists.
  - destruct (recoloured_heap _ _ _ _ H Hx) as (?&?&_). by eexists.
Qed.

Lemma recoloured_edge_1 g g' a b : recoloured g g' -> edge g a b -> edge g' a b.
Proof.
  intros H (x & Hx & Hb). destruct (recoloured_heap _ _ _ _ H Hx) as (x' & Hx' & Ho & _).
  exists x'. by rewrite Ho.
Qed.

Lemma recoloured_edge g g' a b : recoloured g g' -> edge g' a b <-> edge g a b.
Proof. intros H. split; apply recoloured_edge_1; [by apply recoloured_sym|done]. Qed.

Lemma recoloured_iedge_1 g g' a b : recoloured g g' -> iedge g a b -> iedge g' a b.
Proof.
  intros H (x & Hx & Hb). destruct (recoloured_heap _ _ _ _ H Hx) as (x' & Hx' & _ & Hi).
  exists x'. by rewrite Hi.
Qed.

Lemma recoloured_iedge g g' a b : recoloured g g' -> iedge g' a b <-> iedge g a b.
Proof. intros H. split; apply recoloured_iedge_1; [by apply recoloured_sym|done]. Qed.

(** ** Primitive steps *)
Lemma wp_deref n g x Q : heap g !! n = Some x -> Q x g -> wp (deref n) g Q.
Proof. unfold wp, deref. by intros ->. Qed.

Lemma wp_update n f g x Q :
  heap g !! n = Some x -> Q tt (set_heap (<[n := f x]> (heap g)) g) -> wp (update n f) g Q.
Proof. intros Hx HQ. unfold update. wp_step. by apply (wp_deref _ _ x). Qed.

Lemma recolour g n x c : heap g !! n = Some x -> recoloured g (set_heap (<[n := with_color c x]> (heap g)) g).
Proof.
  intros Hx. split_and!; [done..|]. intros m. simpl.
  destruct (decide (m = n)) as [->|]; [by rewrite lookup_insert_eq, Hx|by rewrite lookup_insert_ne].
Qed.

Lemma colour_set g n x m :
  colour (set_heap (<[n := x]> (heap g)) g) m = if decide (m = n) then Some (_color x) else colour g m.
Proof.
  unfold colour. simpl. case_decide as Hd; subst.
  - by rewrite lookup_insert_eq.
  - by rewrite lookup_insert_ne.
Qed.

(** ** Depth-first search *)
Section search.
Context (order : gset node -> list node).
Hypothesis order_perm : forall X, order X ≡ₚ elements X.

Lemma elem_of_order X n : n ∈ order X <-> n ∈ X.
Proof. by rewrite order_perm, elem_of_elements. Qed.

Context (gray black : Z).
Hypothesis gray_black : gray <> black.

(** Nodes the search has not touched yet. *)
Definition is_white (g : graph) (n : node) : Prop :=
  exists c, colour g n = Some c /\ c <> gray /\ c <> black.

Definition whites (g : graph) : gset node :=
  dom (filter (fun p => _color p.2 <> gray /\ _color p.2 <> black) (heap g)).

Lemma elem_of_whites g n : n ∈ whites g <-> is_white g n.
Proof.
  unfold whites, is_white, colour. rewrite elem_of_dom. split.
  - intros [x [Hx Hp]%map_lookup_filter_Some]. rewrite Hx. simpl in *. eauto.
  - intros (c & Hc & Hp). destruct (heap g !! n) as [x|] eqn:Hx; simplify_eq/=.
    exists x. by apply map_lookup_filter_Some.
Qed.

(** Closed under edges, and every finished node reaches no cycle: the search
    below it is well founded. *)
Record dfs_ok (g : graph) : Prop := {
  dfs_closed : forall a b, edge g a b -> alloc g b;
  dfs_black : forall n, colour g n = Some black -> Acc (flip (edge g)) n }.

(** The effect of a search that finds nothing. *)
Record searched (g g' : graph) : Prop := {
  srch_edges : recoloured g g';
  srch_color : color g' = color g;
  srch_ok : dfs_ok g';
  srch_gray : forall n, colour g' n = Some gray <-> colour g n = Some gray;
  srch_black : forall n, colour g n = Some black -> colour g' n = Some black;
  srch_white : whites g' ⊆ whites g }.

Lemma searched_refl g : dfs_ok g -> searched g g.
Proof. by constructor. Qed.

Lemma searched_trans g1 g2 g3 : searched g1 g2 -> searched g2 g3 -> searched g1 g3.
Proof.
  intros [] []. constructor; eauto using recoloured_trans; [congruence| |set_solver].
  intros n. by rewrite srch_gray1.
Qed.

Lemma Acc_edge_iff g g' n :
  (forall a b, edge g' a b <-> edge g a b) -> Acc (flip (edge g)) n -> Acc (flip (edge g')) n.
Proof.
  intros He. induction 1 as [n _ IH]. constructor. intros m Hm. apply IH. apply He, Hm.
Qed.

Lemma Acc_no_cycle g n : Acc (flip (edge g)) n -> ~ reaches_cycle g n.
Proof.
  intros Hacc (m & Hnm & Hmm). assert (Hm : Acc (flip (edge g)) m).
  { clear Hmm. induction Hnm as [|a b c Hab _ IH]; [done|]. apply IH. by apply Hacc. }
  clear Hacc Hnm. induction Hm as [m _ IH]. inversion Hmm as [? Hab|? b ? Hab Hbm]; subst.
  - by apply (IH m).
  - apply (IH b); [done|]. eapply tc_r; done.
Qed.

Lemma dfs_ok_recolour g n x :
  dfs_ok g -> heap g !! n = Some x -> colour g n <> Some black ->
  dfs_ok (set_heap (<[n := with_color gray x]> (heap g)) g).
Proof.
  intros [Hc Hb] Hx Hn. pose proof (recolour g n x gray Hx) as Hr. constructor.
  - intros a b Hab%(recoloured_edge _ _ _ _ Hr). rewrite recoloured_alloc by done. by eapply Hc.
  - intros m. rewrite colour_set. case_decide; simpl; [congruence|].
    intros Hm. apply (Acc_edge_iff g); [|by apply Hb].
    intros. by apply recoloured_edge.
Qed.

Lemma blacken g n x :
  dfs_ok g -> heap g !! n = Some x ->
  (forall m, m ∈ out x -> colour g m = Some black) ->
  dfs_ok (set_heap (<[n := with_color black x]> (heap g)) g).
Proof.
  intros [Hc Hb] Hx Hn. pose proof (recolour g n x black Hx) as Hr. constructor.
  - intros a b Hab%(recoloured_edge _ _ _ _ Hr). rewrite recoloured_alloc by done. by eapply Hc.
  - intros m. rewrite colour_set. intros Hm.
    apply (Acc_edge_iff g); [by intros; apply recoloured_edge|].
    case_decide as Hd; simpl in Hm; [subst m|by apply Hb].
    constructor. intros m (x' & Hx' & Hm'). simplify_eq. by apply Hb, Hn.
Qed.

(** The effect of a search on the colours, whatever it found. *)
Record painted (g g' : graph) : Prop := {
  paint_edges : recoloured g g';
  paint_color : color g' = color g;
  paint_old : forall n c, colour g' n = Some c -> c = gray \/ c = black \/ colour g n = Some c }.

Lemma painted_refl g : painted g g.
Proof. constructor; eauto using recoloured_refl. Qed.

Lemma painted_trans g1 g2 g3 : painted g1 g2 -> painted g2 g3 -> painted g1 g3.
Proof.
  intros [] []. constructor; eauto using recoloured_trans; [congruence|].
  intros n c Hc. destruct (paint_old1 n c Hc) as [|[|]]; eauto.
Qed.

Lemma paint g n x c :
  heap g !! n = Some x -> c = gray \/ c = black ->
  painted g (set_heap (<[n := with_color c x]> (heap g)) g).
Proof.
  intros Hx Hc. constructor; [by apply recolour|done|].
  intros m c'. rewrite colour_set. case_decide; naive_solver.
Qed.

Definition visit_post (g : graph) (n : node) (r : bool) (g' : graph) : Prop :=
  painted g g' /\
  if r then reaches_cycle g n
  else searched g g' /\ colour g' n = Some black.

Lemma reaches_cycle_step g a b : edge g a b -> reaches_cycle g b -> reaches_cycle g a.
Proof. intros Hab (m & ? & ?). exists m. split; [by eapply rtc_l|done]. Qed.

Lemma reaches_cycle_recoloured g g' n : recoloured g g' -> reaches_cycle g' n -> reaches_cycle g n.
Proof.
  intros Hr (m & H1 & H2). exists m. split.
  - eapply (rtc_congruence id); [|exact H1]. intros a b. apply recoloured_edge_1. by apply recoloured_sym.
  - eapply (tc_congruence id); [|exact H2]. intros a b. apply recoloured_edge_1. by apply recoloured_sym.
Qed.

(** The loop over the successors [l] of [cur], which is gray by now. *)
Lemma dfs_edges_spec (visit : node -> M graph bool) k cur l g :
  (forall m g0, dfs_ok g0 -> alloc g0 m -> colour g0 m <> Some black ->
     (size (whites g0) < k)%nat ->
     (forall p, colour g0 p = Some gray -> tc (edge g0) p m) ->
     wp (visit m) g0 (visit_post g0 m)) ->
  dfs_ok g -> (forall m, m ∈ l -> edge g cur m) ->
  (size (whites g) < k)%nat ->
  (forall p, colour g p = Some gray -> rtc (edge g) p cur) ->
  wp (dfs_edges visit black l) g (fun r g' =>
    painted g g' /\
    if r then reaches_cycle g cur
    else searched g g' /\ forall m, m ∈ l -> colour g' m = Some black).
Proof.
  intros Hvisit. revert g. induction l as [|m l IH]; intros g Hok Hl Hk Hgray; simpl.
  { apply wp_ret. split; [apply painted_refl|]. split; [by apply searched_refl|]. set_solver. }
  assert (Hm : edge g cur m) by (apply Hl; left).
  destruct (dfs_closed _ Hok _ _ Hm) as [y Hy]. wp_step. apply (wp_deref _ _ y); [done|].
  destruct (Z.eqb_spec (_color y) black) as [Hb|Hb].
  { assert (Hcm : colour g m = Some black) by (unfold colour; rewrite Hy; by f_equal/=).
    eapply wp_mono; [apply IH; [done| |done|done]; intros; apply Hl; by right|].
    intros [] g' [Hp Hr]; (split; [done|]); [done|]. destruct Hr as [Hs Hbl]. split; [done|].
    intros p [->|Hp']%elem_of_cons; [by eapply srch_black|by apply Hbl]. }
  wp_step. eapply wp_mono; [apply Hvisit; try done|].
  - by exists y.
  - unfold colour. rewrite Hy. simpl. congruence.
  - intros p Hp. eapply tc_rtc_l; [by apply Hgray|by apply tc_once].
  - intros [] g1 [Hp Hr]; simpl.
    { apply wp_ret. split; [done|]. by eapply reaches_cycle_step. }
    destruct Hr as [Hs Hcm]. pose proof (srch_edges _ _ Hs) as Hre.
    eapply wp_mono; [apply IH; [apply Hs| | |]|].
    + intros p Hp'. apply recoloured_edge with g; [done|]. apply Hl. by right.
    + pose proof (subseteq_size _ _ (srch_white _ _ Hs)). lia.
    + intros p Hp'%(srch_gray _ _ Hs). eapply (rtc_congruence id); [|by apply Hgray].
      intros a b. by apply recoloured_edge_1.
    + intros r g2 [Hp2 Hr2]. split; [by eapply painted_trans|]. destruct r.
      * by eapply reaches_cycle_recoloured.
      * destruct Hr2 as [Hs2 Hbl]. split; [by eapply searched_trans|].
        intros p [->|Hp']%elem_of_cons; [by eapply srch_black|by apply Hbl].
Qed.

Lemma whites_gray g n x :
  heap g !! n = Some x -> is_white g n ->
  whites (set_heap (<[n := with_color gray x]> (heap g)) g) = whites g ∖ {[n]}.
Proof.
  intros Hx Hw. apply set_eq. intros m.
  rewrite elem_of_difference, !elem_of_whites, elem_of_singleton. unfold is_white.
  rewrite colour_set. case_decide; naive_solver.
Qed.

Lemma DFSStep_spec fuel n g :
  dfs_ok g -> alloc g n -> colour g n <> Some black ->
  (size (whites g) < fuel)%nat ->
  (forall p, colour g p = Some gray -> tc (edge g) p n) ->
  wp (DFSStep order fuel n gray black) g (visit_post g n).
Proof.
  revert n g. induction fuel as [|fuel IH]; intros n g Hok [x Hx] Hnb Hfuel Hgray; [lia|].
  assert (Hcx : colour g n = Some (_color x)) by (unfold colour; by rewrite Hx).
  simpl. wp_step. apply (wp_deref _ _ x); [done|].
  destruct (Z.eqb_spec (_color x) gray) as [Hg|Hg].
  { apply wp_ret. split; [apply painted_refl|]. exists n. split; [done|]. apply Hgray. congruence. }
  assert (Hw : is_white g n) by (exists (_color x); split_and!; congruence).
  wp_step. apply (wp_update _ _ _ x); [done|].
  set (g1 := set_heap _ g). pose proof (recolour g n x gray Hx) as Hr1. fold g1 in Hr1.
  assert (Hx1 : heap g1 !! n = Some (with_color gray x)) by apply lookup_insert_eq.
  assert (Hed1 : forall m, m ∈ out x -> edge g1 n m) by (intros m Hm; eexists; split; [exact Hx1|done]).
  wp_step. eapply wp_mono; [apply (dfs_edges_spec _ fuel n)|].
  - exact IH.
  - by apply dfs_ok_recolour.
  - intros m Hm%elem_of_order. by apply Hed1.
  - subst g1. rewrite whites_gray by done. apply elem_of_whites in Hw.
    assert (whites g ∖ {[n]} ⊂ whites g) as Hs%subset_size by set_solver. lia.
  - intros p. subst g1. rewrite colour_set. case_decide as Hd; [subst; done|].
    intros Hp%Hgray. apply tc_rtc. eapply (tc_congruence id); [|exact Hp].
    intros a b. by apply recoloured_edge_1.
  - intros found g2 [Hp2 Hr2]. simpl.
    assert (Hp1 : painted g g1) by (apply paint; eauto).
    destruct found.
    { apply wp_ret. split; [by eapply painted_trans|]. by eapply reaches_cycle_recoloured. }
    destruct Hr2 as [Hs2 Hbl].
    destruct (recoloured_heap _ _ _ _ (srch_edges _ _ Hs2) Hx1) as (x2 & Hx2 & Ho2 & _). simpl in Ho2.
    wp_step. apply (wp_update _ _ _ x2); [done|]. apply wp_ret.
    assert (Hp3 : painted g2 (set_heap (<[n := with_color black x2]> (heap g2)) g2)) by (apply paint; eauto).
    split; [eapply painted_trans; [done|by eapply painted_trans]|].
    split; [|rewrite colour_set; by case_decide].
    constructor.
    + eapply recoloured_trans; [|apply paint_edges, Hp3]. eapply recoloured_trans; [done|apply Hs2].
    + rewrite (paint_color _ _ Hp3). by rewrite (srch_color _ _ Hs2).
    + apply blacken; [apply Hs2|done|]. intros m Hm. apply Hbl. apply elem_of_order. by rewrite <- Ho2.
    + intros m. rewrite colour_set. case_decide as Hd; [subst m; simpl; split; congruence|].
      rewrite (srch_gray _ _ Hs2). subst g1. rewrite colour_set. by case_decide.
    + intros m Hm. rewrite colour_set. case_decide; [done|]. apply (srch_black _ _ Hs2).
      subst g1. rewrite colour_set. by case_decide.
    + transitivity (whites g2).
      { intros m. rewrite !elem_of_whites. unfold is_white. rewrite colour_set. case_decide; naive_solver. }
      etransitivity; [apply Hs2|]. subst g1. rewrite whites_gray by done. set_solver.
Qed.
End search.

(** Every colour was issued by the graph's counter. *)
Definition col_ok (g : graph) : Prop :=
  0 <= color g /\ forall n c, colour g n = Some c -> 0 <= c <= color g.

(** Both ends of every edge know it. *)
Definition sym (g : graph) : Prop := forall a b, edge g a b <-> iedge g a b.

Lemma edge_alloc g a b : sym g -> edge g a b -> alloc g a /\ alloc g b.
Proof. intros Hs Hab. split; [|apply Hs in Hab]; destruct Hab as (x & ? & _); by exists x. Qed.

Lemma sym_recoloured g g' : recoloured g g' -> sym g -> sym g'.
Proof. intros Hr Hs a b. by rewrite recoloured_edge, recoloured_iedge by done. Qed.

Lemma checkDeadlock_spec order g t :
  (forall X, order X ≡ₚ elements X) ->
  sym g -> col_ok g -> alloc g (Txn t) -> color g + 2 < 2 ^ 64 ->
  wp (checkDeadlock order t) g (fun r g' =>
    recoloured g g' /\ col_ok g' /\ color g' = color g + 2 /\
    (r = true <-> reaches_cycle g (Txn t))).
Proof.
  intros Ho Hsym [H0 Hc] Hal Hb. unfold checkDeadlock. wp_steps. simpl.
  rewrite (u64_small (color g + 1)), u64_small by lia.
  replace (color g + 1 + 1) with (color g + 2) by lia.
  set (g1 := set_color _ _).
  assert (Hnb : forall n c, colour g n = Some c -> c <> color g + 1 /\ c <> color g + 2).
  { intros n c Hn%Hc. lia. }
  assert (Hr : recoloured g g1) by done.
  eapply wp_mono; [apply (DFSStep_spec order Ho (color g + 1) (color g + 2)); [lia|..]|].
  - constructor.
    + intros a b Hab. by apply edge_alloc in Hab as [_ ?].
    + intros n Hn. by apply (Hnb n) in Hn as [_ ?].
  - done.
  - intros Hn. by apply (Hnb (Txn t)) in Hn as [_ ?].
  - assert (whites (color g + 1) (color g + 2) g1 ⊆ dom (heap g)) as Hs%subseteq_size
      by apply dom_filter_subseteq. rewrite size_dom in Hs. lia.
  - intros p Hp. by apply Hnb in Hp as [? _].
  - intros r g' [[Hre Hcol Hold] Hres]. simpl in Hcol. split; [done|]. split; [|split; [done|]].
    + split; [lia|]. intros n c [->|[->|Hn]]%Hold; [lia..|]. apply Hc in Hn. lia.
    + destruct r; [done|]. destruct Hres as [Hs Hbl]. split; [done|]. intros Hcy.
      exfalso. apply (Acc_no_cycle g' (Txn t)).
      * by eapply dfs_black; [apply Hs|].
      * eapply reaches_cycle_recoloured; [|exact Hcy]. by apply recoloured_sym.
Qed.

(** ** Edge operations *)
Record same_nodes (g g' : graph) : Prop := {
  sn_txns : txns g' = txns g;
  sn_res : resources g' = resources g;
  sn_color : color g' = color g;
  sn_colour : forall n, colour g' n = colour g n }.

Lemma same_nodes_refl g : same_nodes g g.
Proof. done. Qed.

Lemma same_nodes_trans g1 g2 g3 : same_nodes g1 g2 -> same_nodes g2 g3 -> same_nodes g1 g3.
Proof. intros [] []. constructor; congruence. Qed.

Lemma colour_alloc g n : is_Some (colour g n) <-> alloc g n.
Proof. unfold colour, alloc. by rewrite fmap_is_Some. Qed.

Lemma same_nodes_alloc g g' n : same_nodes g g' -> alloc g' n <-> alloc g n.
Proof. intros []. by rewrite <- !colour_alloc, sn_colour0. Qed.

Lemma same_nodes_col_ok g g' : same_nodes g g' -> col_ok g -> col_ok g'.
Proof. intros [] [H0 Hc]. split; [lia|]. intros n c. rewrite sn_colour0, sn_color0. apply Hc. Qed.

Lemma edge_out g a x b : heap g !! a = Some x -> edge g a b <-> b ∈ out x.
Proof. unfold edge. naive_solver. Qed.

Lemma iedge_inn g a x b : heap g !! a = Some x -> iedge g b a <-> b ∈ inn x.
Proof. unfold iedge. naive_solver. Qed.

Lemma edge_set g n x a b :
  edge (set_heap (<[n := x]> (heap g)) g) a b <-> (a = n /\ b ∈ out x) \/ (a <> n /\ edge g a b).
Proof.
  unfold edge. simpl. destruct (decide (a = n)) as [->|Hn].
  - rewrite lookup_insert_eq. naive_solver.
  - rewrite lookup_insert_ne by done. naive_solver.
Qed.

Lemma iedge_set g n x a b :
  iedge (set_heap (<[n := x]> (heap g)) g) a b <-> (b = n /\ a ∈ inn x) \/ (b <> n /\ iedge g a b).
Proof.
  unfold iedge. simpl. destruct (decide (b = n)) as [->|Hn].
  - rewrite lookup_insert_eq. naive_solver.
  - rewrite lookup_insert_ne by done. naive_solver.
Qed.

(** Changing the outgoing edges of one node, or the incoming ones. *)
Lemma wp_out f a g :
  alloc g a -> wp (update a (with_out f)) g (fun _ g' =>
    same_nodes g g' /\
    (exists x, heap g !! a = Some x /\
      forall c d, edge g' c d <-> (c = a /\ d ∈ f (out x)) \/ (c <> a /\ edge g c d)) /\
    (forall c d, iedge g' c d <-> iedge g c d)).
Proof.
  intros [x Hx]. apply (wp_update _ _ _ x); [done|]. split_and!.
  - constructor; [done..|]. intros n. rewrite colour_set. case_decide; [subst|done].
    unfold colour. by rewrite Hx.
  - exists x. split; [done|]. intros c d. by rewrite edge_set.
  - intros c d. rewrite iedge_set. simpl. pose proof (iedge_inn g a x c Hx).
    destruct (decide (d = a)); naive_solver.
Qed.

Lemma wp_inn f a g :
  alloc g a -> wp (update a (with_inn f)) g (fun _ g' =>
    same_nodes g g' /\
    (exists x, heap g !! a = Some x /\
      forall c d, iedge g' c d <-> (d = a /\ c ∈ f (inn x)) \/ (d <> a /\ iedge g c d)) /\
    (forall c d, edge g' c d <-> edge g c d)).
Proof.
  intros [x Hx]. apply (wp_update _ _ _ x); [done|]. split_and!.
  - constructor; [done..|]. intros n. rewrite colour_set. case_decide; [subst|done].
    unfold colour. by rewrite Hx.
  - exists x. split; [done|]. intros c d. by rewrite iedge_set.
  - intros c d. rewrite edge_set. simpl. pose proof (edge_out g a x d Hx).
    destruct (decide (c = a)); naive_solver.
Qed.

(** What the four edge operations do, seen from the edge relation. *)
Definition edge_post (g : graph) (E : node -> node -> Prop) (g' : graph) : Prop :=
  sym g' /\ same_nodes g g' /\ forall c d, edge g' c d <-> E c d.

(** A pair of updates: one end's outgoing edges, the other end's incoming ones. *)
Lemma wp_out_inn f h a n g (E : node -> node -> Prop) :
  sym g -> alloc g a -> alloc g n ->
  (forall x, heap g !! a = Some x -> forall d, d ∈ f (out x) <-> E a d) ->
  (forall x, heap g !! n = Some x -> forall c, c ∈ h (inn x) <-> E c n) ->
  (forall c d, c <> a \/ d <> n -> E c d <-> edge g c d) ->
  wp (update a (with_out f) ;; update n (with_inn h)) g (fun _ => edge_post g E).
Proof.
  intros Hs Ha Hn Hf Hh HE. wp_step. eapply wp_mono; [by apply wp_out|].
  intros [] g1 (Hsn1 & (x & Hx & He1) & Hi1).
  eapply wp_mono; [apply wp_inn; by apply (same_nodes_alloc _ _ _ Hsn1)|].
  intros [] g2 (Hsn2 & (y & Hy & Hi2) & He2).
  assert (Hh' : forall c, c ∈ h (inn y) <-> E c n).
  { destruct Hn as [z Hz]. enough (inn y = inn z) as -> by (by apply Hh). apply set_eq. intros c.
    by rewrite <- (iedge_inn _ _ _ _ Hy), <- (iedge_inn _ _ _ _ Hz). }
  assert (HE2 : forall c d, edge g2 c d <-> E c d).
  { intros c d. rewrite He2, He1. destruct (decide (c = a)) as [->|].
    - rewrite (Hf x Hx). naive_solver.
    - rewrite HE by auto. naive_solver. }
  assert (HI2 : forall c d, iedge g2 c d <-> E c d).
  { intros c d. rewrite Hi2, Hi1. destruct (decide (d = n)) as [->|].
    - rewrite Hh'. naive_solver.
    - rewrite HE by auto. rewrite (Hs c d). naive_solver. }
  split; [|split; [by eapply same_nodes_trans|done]]. intros c d. by rewrite HE2, HI2.
Qed.

Lemma wp_inn_out f h a n g (E : node -> node -> Prop) :
  sym g -> alloc g a -> alloc g n ->
  (forall x, heap g !! a = Some x -> forall d, d ∈ f (out x) <-> E a d) ->
  (forall x, heap g !! n = Some x -> forall c, c ∈ h (inn x) <-> E c n) ->
  (forall c d, c <> a \/ d <> n -> E c d <-> edge g c d) ->
  wp (update n (with_inn h) ;; update a (with_out f)) g (fun _ => edge_post g E).
Proof.
  intros Hs Ha Hn Hf Hh HE. wp_step. eapply wp_mono; [by apply wp_inn|].
  intros [] g1 (Hsn1 & (x & Hx & Hi1) & He1).
  eapply wp_mono; [apply wp_out; by apply (same_nodes_alloc _ _ _ Hsn1)|].
  intros [] g2 (Hsn2 & (y & Hy & He2) & Hi2).
  assert (Hf' : forall d, d ∈ f (out y) <-> E a d).
  { destruct Ha as [z Hz]. enough (out y = out z) as -> by (by apply Hf). apply set_eq. intros c.
    by rewrite <- (edge_out _ _ _ _ Hy), <- (edge_out _ _ _ _ Hz). }
  assert (HE2 : forall c d, edge g2 c d <-> E c d).
  { intros c d. rewrite He2, He1. destruct (decide (c = a)) as [->|].
    - rewrite Hf'. naive_solver.
    - rewrite HE by auto. naive_solver. }
  assert (HI2 : forall c d, iedge g2 c d <-> E c d).
  { intros c d. rewrite Hi2, Hi1. destruct (decide (d = n)) as [->|].
    - rewrite (Hh x Hx). naive_solver.
    - rewrite HE by auto. rewrite (Hs c d). naive_solver. }
  split; [|split; [by eapply same_nodes_trans|done]]. intros c d. by rewrite HE2, HI2.
Qed.

Definition plus_edge (g : graph) (a b c d : node) : Prop := edge g c d \/ (c = a /\ d = b).
Definition minus_edge (g : graph) (a b c d : node) : Prop := edge g c d /\ ~ (c = a /\ d = b).

Lemma plus_edge_set g a b (Hs : sym g) :
  (forall x, heap g !! a = Some x -> forall d, d ∈ {[b]} ∪ out x <-> plus_edge g a b a d) /\
  (forall x, heap g !! b = Some x -> forall c, c ∈ {[a]} ∪ inn x <-> plus_edge g a b c b) /\
  (forall c d, c <> a \/ d <> b -> plus_edge g a b c d <-> edge g c d).
Proof.
  unfold plus_edge. split; [|split].
  - intros x Hx d. rewrite (edge_out _ _ _ _ Hx), elem_of_union, elem_of_singleton. naive_solver.
  - intros x Hx c. rewrite (Hs c b), (iedge_inn _ _ _ _ Hx), elem_of_union, elem_of_singleton. naive_solver.
  - naive_solver.
Qed.

Lemma minus_edge_set g a b (Hs : sym g) :
  (forall x, heap g !! a = Some x -> forall d, d ∈ out x ∖ {[b]} <-> minus_edge g a b a d) /\
  (forall x, heap g !! b = Some x -> forall c, c ∈ inn x ∖ {[a]} <-> minus_edge g a b c b) /\
  (forall c d, c <> a \/ d <> b -> minus_edge g a b c d <-> edge g c d).
Proof.
  unfold minus_edge. split; [|split].
  - intros x Hx d. rewrite (edge_out _ _ _ _ Hx), elem_of_difference, elem_of_singleton. naive_solver.
  - intros x Hx c. rewrite (Hs c b), (iedge_inn _ _ _ _ Hx), elem_of_difference, elem_of_singleton. naive_solver.
  - naive_solver.
Qed.

Lemma addOutEdge_spec a n g :
  sym g -> alloc g a -> alloc g n ->
  wp (addOutEdge a n) g (fun _ => edge_post g (plus_edge g a n)).
Proof. intros. by apply wp_out_inn; [..|apply plus_edge_set|apply plus_edge_set|apply plus_edge_set]. Qed.

Lemma addInEdge_spec a n g :
  sym g -> alloc g a -> alloc g n ->
  wp (addInEdge a n) g (fun _ => edge_post g (plus_edge g n a)).
Proof. intros. by apply wp_inn_out; [..|apply plus_edge_set|apply plus_edge_set|apply plus_edge_set]. Qed.

Lemma removeOutEdge_spec a n g :
  sym g -> alloc g a -> alloc g n ->
  wp (removeOutEdge a n) g (fun _ => edge_post g (minus_edge g a n)).
Proof. intros. by apply wp_out_inn; [..|apply minus_edge_set|apply minus_edge_set|apply minus_edge_set]. Qed.

Lemma removeInEdge_spec a n g :
  sym g -> alloc g a -> alloc g n ->
  wp (removeInEdge a n) g (fun _ => edge_post g (minus_edge g n a)).
Proof. intros. by apply wp_inn_out; [..|apply minus_edge_set|apply minus_edge_set|apply minus_edge_set]. Qed.

(** ** The shape of the graph *)
Definition owns (g : graph) (t l : Z) : Prop := edge g (Res l) (Txn t).
Definition waits (g : graph) (t l : Z) : Prop := edge g (Txn t) (Res l).

Definition bipartite (a b : node) : Prop :=
  match a, b with Txn _, Res _ | Res _, Txn _ => True | _, _ => False end.

Record shape (g : graph) : Prop := {
  sh_sym : sym g;
  sh_col : col_ok g;
  sh_txn : forall t, alloc g (Txn t) <-> is_Some (txns g !! t);
  sh_res : forall l, alloc g (Res l) <-> l ∈ resources g;
  sh_bip : forall a b, edge g a b -> bipartite a b }.

(** Ownership: every block of the graph has one owner, and nobody waits for a
    block it owns. *)
Record owned (g : graph) : Prop := {
  ow_shape : shape g;
  ow_some : forall l, l ∈ resources g -> exists t, owns g t l;
  ow_one : forall t t' l, owns g t l -> owns g t' l -> t = t';
  ow_wait : forall t l, waits g t l -> ~ owns g t l }.

Lemma shape_edges g E g' :
  shape g -> edge_post g E g' -> (forall a b, E a b -> bipartite a b) -> shape g'.
Proof.
  intros [] (Hs & Hn & HE) Hb. constructor; try done.
  - by eapply same_nodes_col_ok.
  - intros t. by rewrite (same_nodes_alloc _ _ _ Hn), (sn_txns _ _ Hn).
  - intros l. by rewrite (same_nodes_alloc _ _ _ Hn), (sn_res _ _ Hn).
  - intros a b Hab%HE. by apply Hb.
Qed.

(** *** connectResources *)
Definition new_res (i : Z) (g : graph) : graph :=
  set_resources ({[i]} ∪ resources g) (set_heap (<[Res i := fresh]> (heap g)) g).

Lemma new_edge_free g n :
  heap g !! n = None -> sym g -> forall a b, edge g a b -> a <> n /\ b <> n.
Proof.
  intros Hn Hs a b Hab. destruct (edge_alloc _ _ _ Hs Hab) as [[x Hx] [y Hy]].
  split; intros ->; congruence.
Qed.

Lemma new_node_edge g n a b :
  heap g !! n = None -> edge (set_heap (<[n := fresh]> (heap g)) g) a b <-> edge g a b.
Proof.
  intros Hn. rewrite edge_set. simpl. split; [set_solver|]. intros Hab. right. split; [|done].
  intros ->. destruct Hab as (x & Hx & _). congruence.
Qed.

Lemma new_node_iedge g n a b :
  heap g !! n = None -> iedge (set_heap (<[n := fresh]> (heap g)) g) a b <-> iedge g a b.
Proof.
  intros Hn. rewrite iedge_set. simpl. split; [set_solver|]. intros Hab. right. split; [|done].
  intros ->. destruct Hab as (x & Hx & _). congruence.
Qed.

Lemma new_res_shape i g :
  shape g -> i ∉ resources g -> shape (new_res i g) /\ forall a b, edge (new_res i g) a b <-> edge g a b.
Proof.
  intros [] Hi. assert (Hn : heap g !! Res i = None).
  { rewrite eq_None_not_Some. intros Ha. by apply Hi, sh_res0. }
  assert (He : forall a b, edge (new_res i g) a b <-> edge g a b) by (intros; by apply new_node_edge).
  split; [|done]. constructor.
  - intros a b. rewrite He. unfold new_res. rewrite (sh_sym0 a b). symmetry. by apply new_node_iedge.
  - destruct sh_col0 as [H0 Hc]. split; [done|]. intros n c.
    change (colour (new_res i g) n) with (colour (set_heap (<[Res i := fresh]> (heap g)) g) n).
    rewrite colour_set. case_decide; simpl; [naive_solver lia|apply Hc].
  - intros t. unfold alloc. simpl. rewrite lookup_insert_ne by done. apply sh_txn0.
  - intros l. unfold alloc. simpl. rewrite elem_of_union, elem_of_singleton.
    destruct (decide (l = i)) as [->|].
    + rewrite lookup_insert_eq. naive_solver.
    + rewrite lookup_insert_ne by congruence. rewrite <- sh_res0. unfold alloc. naive_solver.
  - intros a b Hab%He. by apply sh_bip0.
Qed.

Lemma find_or_make_spec n i g :
  shape g ->
  wp (find_or_make n i) g (fun ir g' =>
    shape g' /\ txns g' = txns g /\ color g' = color g /\
    (forall a b, edge g' a b <-> edge g a b) /\
    (forall l, l ∈ resources g' <-> l ∈ resources g \/ i <= l < i + Z.of_nat n) /\
    (forall l, l ∈ ir.1 <-> i <= l < i + Z.of_nat n /\ l ∈ resources g) /\
    (forall l, l ∈ ir.2 <-> i <= l < i + Z.of_nat n /\ l ∉ resources g)).
Proof.
  revert i g. induction n as [|n IH]; intros i g Hsh; simpl.
  { apply wp_ret. split_and!; [done..| | |]; intros l; rewrite ?elem_of_nil.
    - split; [auto|intros [|]; [done|lia]].
    - split; [done|lia].
    - split; [done|lia]. }
  wp_step. apply wp_gets. cbn beta. wp_step. case_bool_decide as Hi.
  - wp_step. wp_step. eapply wp_mono; [by apply IH|].
    intros ir g' (H1 & H2 & H3 & H4 & H5 & H6 & H7). apply wp_ret. simpl. split_and!; try done.
    + intros l. rewrite H5. destruct (decide (l = i)) as [->|]; [tauto|]. split; intros [|]; auto; right; lia.
    + intros l. rewrite elem_of_cons, H6. destruct (decide (l = i)) as [->|]; [split; [intros; split; [lia|done]|auto]|].
      split; [intros [|[? ?]]; [done|split; [lia|done]]|intros [? ?]; right; split; [lia|done]].
    + intros l. rewrite H7. destruct (decide (l = i)) as [->|]; [tauto|].
      split; intros [? ?]; (split; [lia|done]).
  - wp_steps. fold (new_res i g). destruct (new_res_shape i g Hsh Hi) as [Hsh' He].
    change (set_resources ({[i]} ∪ resources (set_heap (<[Res i := fresh]> (heap g)) g))
      (set_heap (<[Res i := fresh]> (heap g)) g)) with (new_res i g).
    eapply wp_mono; [by apply IH|].
    intros ir g' (H1 & H2 & H3 & H4 & H5 & H6 & H7). apply wp_ret. simpl.
    assert (Hr : forall l, l ∈ resources (new_res i g) <-> l = i \/ l ∈ resources g).
    { intros l. simpl. by rewrite elem_of_union, elem_of_singleton. }
    split_and!; try done.
    + intros a b. by rewrite H4.
    + intros l. rewrite H5, Hr. destruct (decide (l = i)) as [->|]; [split; [right; lia|auto]|].
      split; [intros [[|]|]; auto; [done|right; lia]|intros [|]; auto; right; lia].
    + intros l. rewrite H6, Hr. split; [intros [? [->|?]]; split; auto; lia|].
      intros [? ?]. assert (l <> i) by congruence. split; [lia|auto].
    + intros l. rewrite elem_of_cons, H7, Hr. destruct (decide (l = i)) as [->|].
      * split; [intros; split; [lia|done]|auto].
      * split; [intros [|[? ?]]; [done|split; [lia|tauto]]|intros [? ?]; right; split; [lia|tauto]].
Qed.

(** The first loop over edges: wait for what others own. *)
Lemma wait_loop_spec t L g :
  shape g -> alloc g (Txn t) -> (forall l, l ∈ L -> l ∈ resources g) ->
  wp (for_each L (fun l =>
        x ← deref (Txn t);
        if bool_decide (Res l ∈ inn x) then mret tt else addOutEdge (Txn t) (Res l))) g
    (fun _ => edge_post g (fun a b =>
      edge g a b \/ (a = Txn t /\ exists l, l ∈ L /\ b = Res l /\ ~ owns g t l))).
Proof.
  intros Hsh Ht HL. eapply wp_mono; [apply (wp_for_each (fun rest g' =>
    sym g' /\ same_nodes g g' /\ rest ⊆ L /\
    (forall a b, edge g a b -> edge g' a b) /\
    (forall a b, edge g' a b ->
       edge g a b \/ (a = Txn t /\ exists l, l ∈ L /\ b = Res l /\ ~ owns g t l)) /\
    (forall l, l ∈ L -> l ∈ rest \/ owns g t l \/ edge g' (Txn t) (Res l))))|].
  - split; [apply Hsh|split_and!; auto using same_nodes_refl].
  - intros l rest g' (Hs & Hn & Hsub & Hmono & Hold & Hdone).
    apply (same_nodes_alloc _ _ _ Hn) in Ht as Ht'. destruct Ht' as [x Hx].
    assert (HlL : l ∈ L) by (apply Hsub; left).
    wp_step. apply (wp_deref _ _ x); [done|].
    assert (Hown : Res l ∈ inn x <-> owns g t l).
    { rewrite <- (iedge_inn _ _ _ _ Hx), <- (Hs (Res l) (Txn t)). split; [|apply Hmono].
      intros [?|[? _]]%Hold; done. }
    case_bool_decide as Hin.
    + apply wp_ret. split_and!; try done; [set_solver|]. intros l' Hl'.
      destruct (Hdone l' Hl') as [[->|]%elem_of_cons|]; [right; left; by apply Hown|auto..].
    + eapply wp_mono; [apply addOutEdge_spec; [done|by apply (same_nodes_alloc _ _ _ Hn)|]|].
      { apply (same_nodes_alloc _ _ _ Hn). by apply Hsh, HL. }
      intros [] g2 (Hs2 & Hn2 & He2). unfold plus_edge in He2. split_and!; try done.
      * by eapply same_nodes_trans.
      * set_solver.
      * intros a b Hab. apply He2. auto.
      * intros a b [Hab|[-> ->]]%He2; [auto|]. right. split; [done|]. exists l. naive_solver.
      * intros l' Hl'. rewrite He2.
        destruct (Hdone l' Hl') as [[->|]%elem_of_cons|[|]]; naive_solver.
  - intros [] g' (Hs & Hn & _ & Hmono & Hold & Hdone). split_and!; try done.
    intros a b. split; [apply Hold|]. intros [|[-> (l & Hl & -> & Hno)]]; [auto|].
    destruct (Hdone l Hl) as [[]%elem_of_nil|[|]]; done.
Qed.

(** The second one: own what is new. *)
Lemma own_loop_spec t L g :
  shape g -> alloc g (Txn t) -> (forall l, l ∈ L -> l ∈ resources g) ->
  wp (for_each L (fun l => addInEdge (Txn t) (Res l))) g
    (fun _ => edge_post g (fun a b =>
      edge g a b \/ (b = Txn t /\ exists l, l ∈ L /\ a = Res l))).
Proof.
  intros Hsh Ht HL. eapply wp_mono; [apply (wp_for_each (fun rest g' =>
    sym g' /\ same_nodes g g' /\ rest ⊆ L /\
    (forall a b, edge g a b -> edge g' a b) /\
    (forall a b, edge g' a b -> edge g a b \/ (b = Txn t /\ exists l, l ∈ L /\ a = Res l)) /\
    (forall l, l ∈ L -> l ∈ rest \/ edge g' (Res l) (Txn t))))|].
  - split; [apply Hsh|split_and!; auto using same_nodes_refl].
  - intros l rest g' (Hs & Hn & Hsub & Hmono & Hold & Hdone).
    assert (HlL : l ∈ L) by (apply Hsub; left).
    eapply wp_mono; [apply addInEdge_spec; [done|by apply (same_nodes_alloc _ _ _ Hn)|]|].
    { apply (same_nodes_alloc _ _ _ Hn). by apply Hsh, HL. }
    intros [] g2 (Hs2 & Hn2 & He2). unfold plus_edge in He2. split_and!; try done.
    * by eapply same_nodes_trans.
    * set_solver.
    * intros a b Hab. apply He2. auto.
    * intros a b [Hab|[-> ->]]%He2; [auto|]. right. eauto.
    * intros l' Hl'. rewrite He2.
      destruct (Hdone l' Hl') as [[->|]%elem_of_cons|]; naive_solver.
  - intros [] g' (Hs & Hn & _ & Hmono & Hold & Hdone). split_and!; try done.
    intros a b. split; [apply Hold|]. intros [|[-> (l & Hl & ->)]]; [auto|].
    destruct (Hdone l Hl) as [[]%elem_of_nil|]; done.
Qed.

(** What [connectResources] makes of the graph: an absent block of the range gets
    [t] as its owner, [t] waits for the blocks others own. *)
Definition connected (g : graph) (start end_ t : Z) (a b : node) : Prop :=
  edge g a b \/
  (exists l, start <= l <= end_ /\ a = Txn t /\ b = Res l /\ l ∈ resources g /\ ~ owns g t l) \/
  (exists l, start <= l <= end_ /\ a = Res l /\ b = Txn t /\ l ∉ resources g).

Lemma connectResources_spec start end_ t g :
  owned g -> alloc g (Txn t) ->
  wp (connectResources start end_ t) g (fun _ g' =>
    owned g' /\ txns g' = txns g /\ color g' = color g /\
    (forall a b, edge g' a b <-> connected g start end_ t a b)).
Proof.
  intros Hg Ht. unfold connectResources. wp_step.
  eapply wp_mono; [apply find_or_make_spec, Hg|].
  intros [L R] g1 (Hsh1 & Htx1 & Hcol1 & He1 & Hr1 & HL & HR). cbn [fst snd] in *.
  assert (Ht1 : alloc g1 (Txn t)).
  { apply Hsh1. rewrite Htx1. by apply Hg. }
  wp_step. eapply wp_mono; [apply wait_loop_spec; [done..|]|].
  { intros l Hl%HL. apply Hr1. tauto. }
  intros [] g2 Hp2. pose proof Hp2 as (Hs2 & Hn2 & He2).
  assert (Hsh2 : shape g2).
  { eapply shape_edges; [exact Hsh1|exact Hp2|]. intros a b [Hab|[-> (l & _ & -> & _)]]; [|done].
    by eapply sh_bip. }
  eapply wp_mono; [apply own_loop_spec; [done|by apply (same_nodes_alloc _ _ _ Hn2)|]|].
  { intros l Hl%HR. rewrite (sn_res _ _ Hn2). apply Hr1. intuition. }
  intros [] g3 Hp3. pose proof Hp3 as (Hs3 & Hn3 & He3).
  assert (Hed : forall a b, edge g3 a b <-> connected g start end_ t a b).
  { intros a b. rewrite He3, He2, He1. unfold connected, owns in *. setoid_rewrite He1.
    setoid_rewrite HL. setoid_rewrite HR. split.
    - intros [[?|[-> (l & [? ?] & -> & ?)]]|[-> (l & [? ?] & ->)]]; [auto| |].
      + right; left. exists l. split_and!; auto; lia.
      + right; right. exists l. split_and!; auto; lia.
    - intros [?|[(l & ? & -> & -> & ? & ?)|(l & ? & -> & -> & ?)]]; [auto| |].
      + left; right. split; [done|]. exists l. split_and!; auto; lia.
      + right. split; [done|]. exists l. split_and!; auto; lia. }
  assert (Hsh3 : shape g3).
  { eapply shape_edges; [exact Hsh2|done|]. intros a b [Hab|[-> (l & _ & ->)]]; [|done].
    by eapply sh_bip. }
  assert (Hres : forall l, l ∈ resources g3 <-> l ∈ resources g \/ start <= l <= end_).
  { intros l. rewrite (sn_res _ _ Hn3), (sn_res _ _ Hn2), Hr1. split; intros [|]; auto; right; lia. }
  assert (Hold : forall t' l, owns g t' l -> l ∈ resources g).
  { intros t' l Ho. apply Hg. by apply edge_alloc in Ho as [? _]; [|apply Hg]. }
  assert (Hown : forall t' l, owns g3 t' l <-> owns g t' l \/ (t' = t /\ start <= l <= end_ /\ l ∉ resources g)).
  { intros t' l. unfold owns at 1. rewrite Hed. unfold connected, owns. naive_solver. }
  split_and!; [|by rewrite (sn_txns _ _ Hn3), (sn_txns _ _ Hn2)|by rewrite (sn_color _ _ Hn3), (sn_color _ _ Hn2)|done].
  constructor; [done| | |].
  - intros l Hl%Hres. destruct (decide (l ∈ resources g)) as [Hin|Hin].
    + destruct (ow_some _ Hg l Hin) as [t' Ho]. exists t'. apply Hown. auto.
    + exists t. apply Hown. naive_solver.
  - intros t1 t2 l H1%Hown H2%Hown. destruct H1 as [H1|(-> & _ & H1)], H2 as [H2|(-> & _ & H2)].
    + by eapply ow_one.
    + by apply Hold in H1.
    + by apply Hold in H2.
    + done.
  - intros t' l Hw Ho. apply Hown in Ho. unfold waits in Hw. rewrite Hed in Hw.
    destruct Hw as [Hw|[(l' & ? & ? & ? & ? & ?)|(? & ? & ? & _)]]; simplify_eq.
    + destruct Ho as [Ho|(-> & _ & Hn)]; [by eapply ow_wait|]. apply Hn, Hg.
      by apply edge_alloc in Hw as [_ ?]; [|apply Hg].
    + naive_solver.
Qed.

(** ** The invariant *)
Definition is_asleep (g : graph) (t : Z) : Prop :=
  exists f, txns g !! t = Some f /\ _sleeping f = true.
Definition is_dead (g : graph) (t : Z) : Prop :=
  exists f, txns g !! t = Some f /\ _die f = true.

(** A sleeping transaction waits for a block of another sleeping one. *)
Definition asleep_on (g : graph) (t t' : Z) : Prop :=
  is_asleep g t /\ is_asleep g t' /\ exists l, waits g t l /\ owns g t' l.

Record inv (g : graph) : Prop := {
  iv_owned : owned g;
  iv_dead : forall t, is_dead g t -> ~ is_asleep g t /\ forall l, ~ owns g t l /\ ~ waits g t l;
  iv_sleep : forall t, is_asleep g t -> exists l, waits g t l;
  iv_live : forall t, ~ tc (asleep_on g) t t }.

Lemma inv_shape g : inv g -> shape g.
Proof. intros H. apply H. Qed.

Lemma shape_recoloured g g' : recoloured g g' -> col_ok g' -> shape g -> shape g'.
Proof.
  intros Hr Hc []. pose proof Hr as (Ht & Hre & _). constructor; try done.
  - by eapply sym_recoloured.
  - intros t. by rewrite recoloured_alloc, Ht by done.
  - intros l. by rewrite recoloured_alloc, Hre by done.
  - intros a b Hab. eapply sh_bip0. by apply (recoloured_edge _ _ _ _ Hr).
Qed.

Lemma owned_recoloured g g' : recoloured g g' -> col_ok g' -> owned g -> owned g'.
Proof.
  intros Hr Hc []. pose proof Hr as (Ht & Hre & _).
  assert (He : forall a b, edge g' a b <-> edge g a b) by (intros; by apply recoloured_edge).
  constructor; unfold owns, waits in *.
  - by eapply shape_recoloured.
  - intros l. rewrite Hre. setoid_rewrite He. apply ow_some0.
  - intros t t' l. rewrite !He. apply ow_one0.
  - intros t l. rewrite !He. apply ow_wait0.
Qed.

Lemma tc_sub {A} (R1 R2 : A -> A -> Prop) x y : (forall a b, R1 a b -> R2 a b) -> tc R1 x y -> tc R2 x y.
Proof. intros H. apply (tc_congruence id); auto. Qed.

Lemma inv_recoloured g g' : recoloured g g' -> col_ok g' -> inv g -> inv g'.
Proof.
  intros Hr Hc []. pose proof Hr as (Ht & Hre & _).
  assert (He : forall a b, edge g' a b <-> edge g a b) by (intros; by apply recoloured_edge).
  constructor; unfold is_dead, is_asleep, asleep_on, owns, waits in *.
  - by eapply owned_recoloured.
  - intros t. rewrite Ht. setoid_rewrite He. apply iv_dead0.
  - intros t. rewrite Ht. setoid_rewrite He. apply iv_sleep0.
  - intros t Htc. apply (iv_live0 t). eapply tc_sub; [|exact Htc]. cbn beta. intros a b.
    unfold is_asleep. rewrite !Ht. by setoid_rewrite He.
Qed.

Definition in_range (start end_ l : Z) : Prop := start <= l <= end_.

(** The invariant survives the new edges of a transaction that is awake. *)
Lemma connect_inv g g' start end_ t :
  inv g -> ~ is_asleep g t -> ~ is_dead g t ->
  owned g' -> txns g' = txns g ->
  (forall a b, edge g' a b <-> connected g start end_ t a b) -> inv g'.
Proof.
  intros [] Hna Hnd Hg' Ht He. unfold connected in He.
  assert (Has : forall t', is_asleep g' t' <-> is_asleep g t') by (intros; unfold is_asleep; by rewrite Ht).
  assert (Hde : forall t', is_dead g' t' <-> is_dead g t') by (intros; unfold is_dead; by rewrite Ht).
  constructor; [done|..]; unfold owns, waits in *.
  - intros t' Hd%Hde. assert (t' <> t) by (by intros ->). destruct (iv_dead0 t' Hd) as [Ha Hno].
    split; [by rewrite Has|]. intros l. destruct (Hno l) as [Ho Hw]. rewrite !He. naive_solver.
  - intros t' Ha%Has. destruct (iv_sleep0 t' Ha) as [l Hl]. exists l. apply He. auto.
  - intros t' Htc. apply (iv_live0 t'). eapply tc_sub; [|exact Htc]. cbn beta.
    intros a b (Ha%Has & Hb%Has & l & Hw & Ho). unfold owns, waits in *.
    split; [done|split; [done|]]. exists l. unfold owns, waits. rewrite He in Hw, Ho.
    assert (a <> t) by (by intros ->). assert (b <> t) by (by intros ->). naive_solver.
Qed.

(** A cycle either avoids [t] or goes through it. *)
Lemma tc_avoid {A} (R : A -> A -> Prop) (t x y : A) (Hdec : forall z, Decision (z = t)) :
  tc R x y ->
  tc (fun a b => R a b /\ a <> t /\ b <> t) x y \/ (rtc R x t /\ rtc R t y).
Proof.
  induction 1 as [x y Hxy|x y z Hxy Hyz IH].
  - destruct (Hdec x) as [->|]; [right; split; [done|by apply rtc_once]|].
    destruct (Hdec y) as [->|]; [right; split; [by apply rtc_once|done]|].
    left. by apply tc_once.
  - destruct (Hdec x) as [->|].
    { right. split; [done|]. eapply rtc_l; [done|by apply tc_rtc]. }
    destruct IH as [IH|[IH1 IH2]].
    + destruct (Hdec y) as [->|].
      * right. split; [by apply rtc_once|by apply tc_rtc].
      * left. by eapply tc_l.
    + right. split; [by eapply rtc_l|done].
Qed.

Lemma asleep_path g t t' : tc (asleep_on g) t t' -> tc (edge g) (Txn t) (Txn t').
Proof.
  induction 1 as [x y (_ & _ & l & Hw & Ho)|x y z (_ & _ & l & Hw & Ho) _ IH].
  - eapply tc_l; [exact Hw|]. by apply tc_once.
  - eapply tc_l; [exact Hw|]. by eapply tc_l.
Qed.
End RGThms.
