(* ===== verification/RGInv.v ===== *)
(** * The operations of the LBID resource graph keep its invariant

    Specifications of [reserveRange], of its continuation after a wait and of
    [releaseResources]; the invariant of the concurrent system. *)
From S2P Require Import Prelude ResourceGraph RGThms.
From stdpp Require Import prelude gmap strings.

Local Open Scope Z_scope.

Module RGInv.
Import RG RGThms.

Section ops.
Context (order : gset node -> list node).
Hypothesis order_perm : forall X, order X ≡ₚ elements X.

Lemma wp_flags t f g Q : txns g !! t = Some f -> Q f g -> wp (flags t) g Q.
Proof. unfold wp, flags. by intros ->. Qed.

Lemma wp_wake t f g Q :
  txns g !! t = Some f -> Q tt (set_txns (<[t := mkFlags (_die f) false]> (txns g)) g) ->
  wp (wake t) g Q.
Proof. intros Hf HQ. unfold wake. wp_step. by apply (wp_flags _ f). Qed.

(** *** Reserving *)

(** The outcome of a call of [reserveRange] for [t]. *)
Definition reserve_post (g : graph) (start end_ t : Z) (r : call) (g' : graph) : Prop :=
  inv g' /\ color g' <= color g + 2 /\
  (forall t', t' <> t -> txns g' !! t' = txns g !! t') /\
  ~ is_dead g' t /\ alloc g' (Txn t) /\
  match r with
  | Done e =>
      ~ is_asleep g' t /\
      ((e = ERR_OK /\ forall l, in_range start end_ l -> owns g' t l) \/
       (e = ERR_DEADLOCK /\ reaches_cycle g' (Txn t)))
  | Sleep => is_asleep g' t /\ ~ reaches_cycle g' (Txn t)
  end.

Lemma sleep_inv g t f :
  inv g -> txns g !! t = Some f -> _die f = false ->
  (exists l, waits g t l) -> ~ reaches_cycle g (Txn t) ->
  inv (set_txns (<[t := mkFlags (_die f) true]> (txns g)) g).
Proof.
  intros [[[] ? ? ?] Hd Hs Hl] Hf Hnd Hw Hnc. set (g' := set_txns _ g).
  assert (Has : forall t', is_asleep g' t' <-> t' = t \/ is_asleep g t').
  { intros t'. unfold is_asleep. subst g'. simpl. destruct (decide (t' = t)) as [->|].
    - rewrite lookup_insert_eq. naive_solver.
    - rewrite lookup_insert_ne by done. naive_solver. }
  assert (Hde : forall t', is_dead g' t' -> t' <> t /\ is_dead g t').
  { intros t'. unfold is_dead. subst g'. simpl. destruct (decide (t' = t)) as [->|].
    - rewrite lookup_insert_eq. intros (? & ? & ?). simplify_eq/=. congruence.
    - by rewrite lookup_insert_ne by done. }
  constructor.
  - constructor; [|done..]. constructor; [done..| |done|done].
    intros t'. change (alloc g' (Txn t')) with (alloc g (Txn t')). rewrite sh_txn0. simpl.
    destruct (decide (t' = t)) as [->|].
    + rewrite lookup_insert_eq, Hf. split; by eexists.
    + by rewrite lookup_insert_ne.
  - intros t' [Hne Hd']%Hde. destruct (Hd t' Hd') as [? ?]. split; [|done]. by intros [|]%Has.
  - intros t' [->|?]%Has; [done|by apply Hs].
  - intros t' Htc. destruct (tc_avoid _ t _ _ _ Htc) as [Hav|[H1 H2]].
    + apply (Hl t'). eapply tc_sub; [|exact Hav]. cbn beta.
      intros a b ((Ha & Hb & Hx) & Hne1 & Hne2).
      split; [|split; [|done]]; [by apply Has in Ha as [|]|by apply Has in Hb as [|]].
    + apply Hnc. exists (Txn t). split; [done|]. apply (asleep_path g').
      eapply tc_rtc_r; [|exact H1]. by eapply tc_rtc_l.
Qed.

Lemma reserve_loop_spec g start end_ t :
  inv g -> color g + 2 < 2 ^ 64 -> alloc g (Txn t) -> ~ is_asleep g t -> ~ is_dead g t ->
  (forall l, in_range start end_ l -> owns g t l \/ waits g t l) ->
  wp (reserve_loop order t) g (reserve_post g start end_ t).
Proof.
  intros Hg Hcol Hal Hna Hnd Hrange. pose proof (inv_shape _ Hg) as Hsh.
  pose proof Hal as [x Hx]. unfold reserve_loop. wp_step. apply (wp_deref _ _ x); [done|].
  assert (Hout : forall b, waits g t b -> Res b ∈ out x) by (intros b; apply edge_out; done).
  case_bool_decide as Hempty.
  { apply wp_ret. split; [done|]. split; [lia|]. split; [done|]. split; [done|]. split; [done|].
    split; [done|]. left. split; [done|]. intros l Hl.
    destruct (Hrange l Hl) as [|Hw%Hout]; [done|]. rewrite Hempty in Hw. set_solver. }
  wp_step. eapply wp_mono; [apply checkDeadlock_spec; [done|apply Hsh|apply Hsh|done|done]|].
  intros r g1 (Hre & Hcok & Hc1 & Hcyc). pose proof Hre as (Htx & _ & _).
  assert (Hg1 : inv g1) by (by eapply inv_recoloured).
  assert (Has1 : forall t', is_asleep g1 t' <-> is_asleep g t') by (intros; unfold is_asleep; by rewrite Htx).
  assert (Hde1 : forall t', is_dead g1 t' <-> is_dead g t') by (intros; unfold is_dead; by rewrite Htx).
  assert (Hcy1 : reaches_cycle g1 (Txn t) <-> reaches_cycle g (Txn t)).
  { split; apply reaches_cycle_recoloured; [done|by apply recoloured_sym]. }
  destruct r.
  { apply wp_ret. split; [done|]. split; [lia|]. split; [by intros; rewrite Htx|].
    split; [by rewrite Hde1|]. split; [by apply (recoloured_alloc _ _ _ Hre)|].
    split; [by rewrite Has1|]. right. split; [done|]. rewrite Hcy1. by apply Hcyc. }
  pose proof (proj1 (sh_txn _ Hsh t) Hal) as [f Hf].
  assert (Hdf : _die f = false).
  { destruct (_die f) eqn:E; [|done]. exfalso. apply Hnd. by exists f. }
  assert (Hnc : ~ reaches_cycle g1 (Txn t)) by (rewrite Hcy1; intros ?%Hcyc; done).
  wp_step. unfold sleep. wp_step. apply (wp_flags _ f); [by rewrite Htx|]. apply wp_modify. apply wp_ret.
  split.
  { apply sleep_inv; [done|by rewrite Htx|done| |done].
    apply set_choose_L in Hempty as [b Hb]. destruct b as [t'|l].
    - exfalso. apply (sh_bip _ Hsh (Txn t) (Txn t')). by exists x.
    - exists l. apply (recoloured_edge _ _ _ _ Hre). by exists x. }
  split; [simpl; lia|]. split.
  { intros t' Hne. simpl. by rewrite lookup_insert_ne, Htx. }
  split.
  { intros (f' & Hf' & Hdie). simpl in Hf'. rewrite lookup_insert_eq in Hf'. simplify_eq/=. congruence. }
  split; [by apply (recoloured_alloc _ _ _ Hre)|]. split; [|done].
  eexists. simpl. by rewrite lookup_insert_eq.
Qed.

Lemma connect_loop_spec g start end_ t :
  inv g -> color g + 2 < 2 ^ 64 -> alloc g (Txn t) -> ~ is_asleep g t -> ~ is_dead g t ->
  wp (connectResources start end_ t ;; reserve_loop order t) g (reserve_post g start end_ t).
Proof.
  intros Hg Hcol Hal Hna Hnd. wp_step.
  eapply wp_mono; [apply connectResources_spec; [apply Hg|done]|].
  intros [] g1 (Ho1 & Htx & Hc1 & He1).
  assert (Hg1 : inv g1) by (by eapply connect_inv).
  eapply wp_mono; [apply (reserve_loop_spec g1 start end_ t); [done|lia|..]|].
  - apply (sh_txn g1); [apply Ho1|]. rewrite Htx. apply (sh_txn g); [by apply inv_shape|done].
  - intros (f & Hf & ?). apply Hna. exists f. by rewrite <- Htx.
  - intros (f & Hf & ?). apply Hnd. exists f. by rewrite <- Htx.
  - intros l Hl. unfold owns, waits. rewrite !He1. unfold connected.
    destruct (decide (l ∈ resources g)) as [Hin|].
    + destruct (ow_some _ (iv_owned _ Hg) l Hin) as [t' Ho].
      destruct (decide (t' = t)) as [->|Hne]; [left; by left|].
      right. right. left. exists l. split_and!; try done; try apply Hl.
      intros Ho'. apply Hne. by eapply ow_one; [apply Hg|..].
    + left. right. right. exists l. split_and!; try done; apply Hl.
  - intros r g2 (H1 & H2 & H3 & H4). split; [done|]. split; [lia|]. split; [|done].
    intros t' Hne. by rewrite H3, Htx.
Qed.

(** A new transaction node. *)
Definition new_txn (t : Z) (g : graph) : graph :=
  set_txns (<[t := mkFlags false false]> (txns g)) (set_heap (<[Txn t := fresh]> (heap g)) g).

Lemma new_txn_inv t g :
  inv g -> txns g !! t = None ->
  inv (new_txn t g) /\ alloc (new_txn t g) (Txn t) /\
  ~ is_asleep (new_txn t g) t /\ ~ is_dead (new_txn t g) t.
Proof.
  intros [[[Hsym Hcol Htx Hres Hbip] Hsome Hone Hwait] Hd Hs Hl] Ht. set (g' := new_txn t g).
  assert (Hn : heap g !! Txn t = None).
  { rewrite eq_None_not_Some. intros Ha. apply Htx in Ha. rewrite Ht in Ha. by destruct Ha. }
  assert (He : forall a b, edge g' a b <-> edge g a b) by (intros; by apply new_node_edge).
  assert (Hi : forall a b, iedge g' a b <-> iedge g a b) by (intros; by apply new_node_iedge).
  assert (Hfl : forall t', t' <> t -> txns g' !! t' = txns g !! t').
  { intros t' Hne. subst g'. simpl. by rewrite lookup_insert_ne. }
  assert (Hft : txns g' !! t = Some (mkFlags false false)) by apply lookup_insert_eq.
  assert (Has : forall t', is_asleep g' t' <-> is_asleep g t').
  { intros t'. unfold is_asleep. destruct (decide (t' = t)) as [->|Hne].
    - rewrite Hft, Ht. naive_solver.
    - by rewrite Hfl. }
  assert (Hde : forall t', is_dead g' t' <-> is_dead g t').
  { intros t'. unfold is_dead. destruct (decide (t' = t)) as [->|Hne].
    - rewrite Hft, Ht. naive_solver.
    - by rewrite Hfl. }
  split; [|split_and!].
  - constructor; [constructor; [constructor|..]|..]; unfold owns, waits in *.
    + intros a b. by rewrite He, Hi.
    + destruct Hcol as [H0 Hc]. split; [done|]. intros n c.
      change (colour g' n) with (colour (set_heap (<[Txn t := fresh]> (heap g)) g) n).
      rewrite colour_set. case_decide; simpl; [naive_solver lia|apply Hc].
    + intros t'. unfold alloc. destruct (decide (t' = t)) as [->|Hne].
      * rewrite Hft. subst g'. simpl. rewrite lookup_insert_eq. naive_solver.
      * rewrite Hfl by done. subst g'. simpl. rewrite lookup_insert_ne by congruence. apply Htx.
    + intros l. unfold alloc. subst g'. simpl. rewrite lookup_insert_ne by done. apply Hres.
    + intros a b Hab%He. by apply Hbip.
    + intros l Hin. setoid_rewrite He. by apply Hsome.
    + intros t1 t2 l. rewrite !He. apply Hone.
    + intros t1 l. rewrite !He. apply Hwait.
    + intros t1. rewrite Hde, Has. setoid_rewrite He. apply Hd.
    + intros t1. rewrite Has. setoid_rewrite He. apply Hs.
    + intros t1 Htc. apply (Hl t1). eapply tc_sub; [|exact Htc]. cbn beta.
      intros a b (Ha & Hb & l & ? & ?). split; [by apply Has|split; [by apply Has|]].
      exists l. unfold owns, waits in *. by rewrite <- !He.
  - exists fresh. subst g'. simpl. by rewrite lookup_insert_eq.
  - intros (f & Hf & ?). by simplify_eq.
  - intros (f & Hf & ?). by simplify_eq.
Qed.

Lemma reserveRange_spec g start end_ t :
  inv g -> color g + 2 < 2 ^ 64 -> ~ is_asleep g t -> ~ is_dead g t ->
  wp (reserveRange order start end_ t) g (reserve_post g start end_ t).
Proof.
  intros Hg Hcol Hna Hnd. unfold reserveRange. wp_step. apply wp_gets. cbn beta. wp_step.
  case_bool_decide as Hk.
  - apply wp_ret. apply connect_loop_spec; try done. apply (sh_txn g); [by apply inv_shape|done].
  - wp_step. apply wp_modify. cbn beta. unfold set_flags. apply wp_modify. cbn beta.
    rewrite <- eq_None_not_Some in Hk. destruct (new_txn_inv t g Hg Hk) as (Hg' & Hal & Ha & Hd).
    eapply wp_mono; [apply (connect_loop_spec (new_txn t g)); done|].
    intros r g' (H1 & H2 & H3 & H4). split; [done|]. split; [done|]. split; [|done].
    intros t' Hne. rewrite H3 by done. simpl. by rewrite lookup_insert_ne.
Qed.

(** *** Waking the waiters of a block *)
Definition woken (f : TxnFlags) : TxnFlags := mkFlags (_die f) false.

(** The flags after the transactions of [W] were woken. *)
Definition wakes (W : Z -> Prop) (m m' : gmap Z TxnFlags) : Prop :=
  forall t, (W t -> m' !! t = woken <$> m !! t) /\
            (m' !! t = m !! t \/ (W t /\ m' !! t = woken <$> m !! t)).

Lemma wakes_trans (W1 W2 W : Z -> Prop) m1 m2 m3 :
  (forall t, W t <-> W1 t \/ W2 t) -> wakes W1 m1 m2 -> wakes W2 m2 m3 -> wakes W m1 m3.
Proof.
  intros HW H1 H2 t. destruct (H1 t) as [H1a H1b], (H2 t) as [H2a H2b].
  assert (Hid : woken <$> (woken <$> m1 !! t) = woken <$> m1 !! t) by (by destruct (m1 !! t)).
  split.
  - intros [Hw|Hw]%HW.
    + rewrite <- H1a by done. destruct H2b as [|[_ ->]]; [done|]. by rewrite H1a, Hid.
    + rewrite H2a by done. destruct H1b as [->|[_ ->]]; done.
  - destruct H1b as [E1|[Hw1 E1]], H2b as [E2|[Hw2 E2]]; rewrite E2, E1, ?Hid; rewrite HW; auto.
Qed.

Lemma wakes_none (W : Z -> Prop) m : (forall t, ~ W t) -> wakes W m m.
Proof. intros H t. split; [by intros ?%H|by left]. Qed.

Lemma wakes_one (W : Z -> Prop) m t f :
  (forall t', W t' <-> t' = t) -> m !! t = Some f -> wakes W m (<[t := woken f]> m).
Proof.
  intros HW Hf t'. rewrite HW. destruct (decide (t' = t)) as [->|Hne].
  - rewrite lookup_insert_eq, Hf. split; [done|by right].
  - rewrite lookup_insert_ne by done. split; [done|by left].
Qed.

Lemma wakes_iff (W W' : Z -> Prop) m m' : (forall t, W t <-> W' t) -> wakes W m m' -> wakes W' m m'.
Proof. intros HW H t. rewrite <- HW. apply H. Qed.

Lemma wakes_is_Some W m m' t : wakes W m m' -> is_Some (m' !! t) <-> is_Some (m !! t).
Proof. intros H. destruct (H t) as [_ [->|[_ ->]]]; [done|]. by rewrite fmap_is_Some. Qed.

Lemma wake_shape g t f :
  shape g -> txns g !! t = Some f -> shape (set_txns (<[t := woken f]> (txns g)) g).
Proof.
  intros [] Hf. constructor; try done. intros t'.
  change (alloc (set_txns (<[t := woken f]> (txns g)) g) (Txn t')) with (alloc g (Txn t')).
  rewrite sh_txn0. simpl. destruct (decide (t' = t)) as [->|].
  - rewrite lookup_insert_eq, Hf. split; by eexists.
  - by rewrite lookup_insert_ne.
Qed.

Lemma NoDup_order X : NoDup (order X).
Proof. rewrite order_perm. apply NoDup_elements. Qed.

Lemma wakeAndDetach_spec g l :
  shape g -> l ∈ resources g ->
  wp (wakeAndDetach order (Res l)) g (fun _ g' =>
    shape g' /\ resources g' = resources g /\ color g' = color g /\
    (forall a b, edge g' a b <-> edge g a b /\ b <> Res l) /\
    wakes (fun t => waits g t l) (txns g) (txns g')).
Proof.
  intros Hsh Hl. apply (sh_res _ Hsh) in Hl as Hal. destruct Hal as [x Hx].
  unfold wakeAndDetach. wp_step. apply (wp_deref _ _ x); [done|]. wp_step.
  assert (Hin : forall m, m ∈ order (inn x) <-> edge g m (Res l)).
  { intros m. rewrite (sh_sym _ Hsh m (Res l)), elem_of_order by done. symmetry. by apply iedge_inn. }
  eapply wp_mono; [apply (wp_for_each (fun rest g' =>
    shape g' /\ resources g' = resources g /\ color g' = color g /\ NoDup rest /\
    (forall m, m ∈ rest -> edge g m (Res l)) /\
    (forall a b, edge g' a b <-> edge g a b /\ (b = Res l -> a ∈ rest)) /\
    wakes (fun t => waits g t l /\ Txn t ∉ rest) (txns g) (txns g')))|].
  - split_and!; try done.
    + apply NoDup_order.
    + by intros m ?%Hin.
    + intros a b. split; [|tauto]. intros Hab. split; [done|]. intros ->. by apply Hin.
    + apply wakes_none. intros t [Hw Hno]. by apply Hno, Hin.
  - intros m rest g' (Hsh' & Hr & Hc & Hnd & Hm & He & Hwk). apply NoDup_cons in Hnd as [Hnotin Hnd].
    assert (Hml : edge g m (Res l)) by (apply Hm; left).
    pose proof (sh_bip _ Hsh _ _ Hml) as Hb. destruct m as [t|]; [|done].
    assert (Hml' : edge g' (Txn t) (Res l)) by (apply He; split; [done|intros; left]).
    destruct (edge_alloc _ _ _ (sh_sym _ Hsh') Hml') as [Ht' Hl'].
    pose proof (proj1 (sh_txn _ Hsh' t) Ht') as [f Hf].
    wp_step. apply (wp_wake _ f); [done|]. fold (woken f).
    set (g1 := set_txns _ g'). assert (Hsh1 : shape g1) by (by apply wake_shape).
    eapply wp_mono; [apply removeInEdge_spec; [apply Hsh1|done|done]|].
    intros [] g2 Hp2. pose proof Hp2 as (Hs2 & Hn2 & He2). unfold minus_edge in He2.
    split.
    { eapply shape_edges; [exact Hsh1|exact Hp2|]. intros a b [Hab _]. by eapply (sh_bip _ Hsh1). }
    split; [by rewrite (sn_res _ _ Hn2)|]. split; [by rewrite (sn_color _ _ Hn2)|]. split; [done|].
    split; [by intros; apply Hm; right|]. split.
    + intros a b. rewrite He2. change (edge g1 a b) with (edge g' a b). rewrite He.
      rewrite elem_of_cons. destruct (decide (a = Txn t)) as [->|]; naive_solver.
    + rewrite (sn_txns _ _ Hn2). eapply wakes_trans; [|exact Hwk|by apply (wakes_one (fun t' => t' = t))].
      intros t'. cbn beta. rewrite elem_of_cons. destruct (decide (t' = t)) as [->|]; [|naive_solver].
      split; [auto|]. intros _. by split.
  - intros [] g' (Hsh' & Hr & Hc & _ & _ & He & Hwk).
    assert (He' : forall a b, edge g' a b <-> edge g a b /\ b <> Res l).
    { intros a b. rewrite He. rewrite elem_of_nil. naive_solver. }
    eapply wp_mono; [apply wp_inn; apply (sh_res _ Hsh'); by rewrite Hr|].
    intros [] g2 (Hn & (y & Hy & Hi) & He2).
    split.
    { eapply shape_edges; [exact Hsh'| |by apply (sh_bip _ Hsh')]. split; [|done].
      intros a b. rewrite He2, Hi, (sh_sym _ Hsh' a b). destruct (decide (b = Res l)) as [->|]; [|naive_solver].
      rewrite elem_of_empty, <- (sh_sym _ Hsh' a (Res l)), He'. naive_solver. }
    split; [by rewrite (sn_res _ _ Hn)|]. split; [by rewrite (sn_color _ _ Hn)|].
    split; [intros; by rewrite He2|]. rewrite (sn_txns _ _ Hn).
    eapply wakes_iff; [|exact Hwk]. intros t. cbn beta. rewrite elem_of_nil. tauto.
Qed.

(** *** Deleting nodes *)
Lemma order_empty : order ∅ = [].
Proof. apply Permutation_nil. by rewrite order_perm, elements_empty. Qed.

Lemma destroy_isolated n g :
  sym g -> alloc g n -> (forall m, ~ edge g m n /\ ~ edge g n m) ->
  wp (destroy order n) g (fun _ g' => g' = set_heap (delete n (heap g)) g).
Proof.
  intros Hs [x Hx] Hno. unfold destroy. wp_step. apply (wp_deref _ _ x); [done|].
  assert (Hi : inn x = ∅).
  { apply set_eq. intros m. rewrite elem_of_empty, <- (iedge_inn _ _ _ _ Hx), <- (Hs m n). naive_solver. }
  assert (Ho : out x = ∅).
  { apply set_eq. intros m. rewrite elem_of_empty, <- (edge_out _ _ _ _ Hx). naive_solver. }
  rewrite Hi, Ho, order_empty. simpl. wp_steps. done.
Qed.

Lemma delete_edge g n a b :
  (forall m, ~ edge g n m) -> edge (set_heap (delete n (heap g)) g) a b <-> edge g a b.
Proof.
  intros Hno. unfold edge. simpl. destruct (decide (a = n)) as [->|].
  - rewrite lookup_delete_eq. split; [naive_solver|]. intros He. by apply Hno in He.
  - by rewrite lookup_delete_ne.
Qed.

Lemma delete_iedge g n a b :
  (forall m, ~ iedge g m n) -> iedge (set_heap (delete n (heap g)) g) a b <-> iedge g a b.
Proof.
  intros Hno. unfold iedge. simpl. destruct (decide (b = n)) as [->|].
  - rewrite lookup_delete_eq. split; [naive_solver|]. intros He. by apply Hno in He.
  - by rewrite lookup_delete_ne.
Qed.

Lemma delete_sym_col g n :
  sym g -> col_ok g -> (forall m, ~ edge g m n /\ ~ edge g n m) ->
  sym (set_heap (delete n (heap g)) g) /\ col_ok (set_heap (delete n (heap g)) g) /\
  (forall a b, edge (set_heap (delete n (heap g)) g) a b <-> edge g a b).
Proof.
  intros Hs [H0 Hc] Hno.
  assert (He : forall a b, edge (set_heap (delete n (heap g)) g) a b <-> edge g a b)
    by (intros; apply delete_edge; naive_solver).
  split; [|split; [split; [done|]|done]].
  - intros a b. rewrite He, delete_iedge; [done|]. intros m Hm%Hs. by destruct (Hno m).
  - intros m c. unfold colour. simpl. destruct (decide (m = n)) as [->|].
    + by rewrite lookup_delete_eq.
    + rewrite lookup_delete_ne by done. apply Hc.
Qed.

(** *** Releasing *)
(** [a] is not one of the blocks of [D]. *)
Definition outside (D : Z -> Prop) (a : node) : Prop :=
  match a with Res l => ~ D l | Txn _ => True end.

(** The graph once the blocks of [D] are gone and their waiters woken. *)
Definition dropped (g : graph) (D : Z -> Prop) (g' : graph) : Prop :=
  shape g' /\ color g' = color g /\
  (forall a b, edge g' a b <-> edge g a b /\ outside D a /\ outside D b) /\
  (forall l, l ∈ resources g' <-> l ∈ resources g /\ ~ D l) /\
  wakes (fun t' => exists l, D l /\ waits g t' l) (txns g) (txns g').

(** One block: its waiters are woken, its owner's edge and its node removed. *)
Lemma drop_one_spec g t l :
  shape g -> owns g t l -> (forall t', owns g t' l -> t' = t) ->
  wp (wakeAndDetach order (Res l) ;;
      removeInEdge (Txn t) (Res l) ;;
      modify (fun g => set_resources (resources g ∖ {[l]}) g) ;;
      destroy order (Res l)) g (fun _ => dropped g (fun l' => l' = l)).
Proof.
  intros Hsh Ho Huniq. destruct (edge_alloc _ _ _ (sh_sym _ Hsh) Ho) as [Hal Hat].
  assert (Hl : l ∈ resources g) by (by apply Hsh).
  wp_step. eapply wp_mono; [by apply wakeAndDetach_spec|].
  intros [] g1 (Hsh1 & Hr1 & Hc1 & He1 & Hw1).
  wp_step. eapply wp_mono; [apply removeInEdge_spec; [apply Hsh1| |]|].
  { apply (sh_txn _ Hsh1). rewrite (wakes_is_Some _ _ _ t Hw1). by apply Hsh. }
  { apply (sh_res _ Hsh1). by rewrite Hr1. }
  intros [] g2 Hp2. pose proof Hp2 as (Hs2 & Hn2 & He2). unfold minus_edge in He2.
  assert (Hsh2 : shape g2).
  { eapply shape_edges; [exact Hsh1|exact Hp2|]. intros a b [Hab _]. by eapply (sh_bip _ Hsh1). }
  assert (He : forall a b, edge g2 a b <-> edge g a b /\ a <> Res l /\ b <> Res l).
  { intros a b. rewrite He2, He1. split.
    - intros [[Hab Hb] Hno]. split; [done|]. split; [|done]. intros ->.
      pose proof (sh_bip _ Hsh _ _ Hab) as Hbip. destruct b as [t'|]; [|done].
      apply Hno. split; [done|]. f_equal. by apply Huniq.
    - intros (Hab & Ha & Hb). split; [done|]. by intros [? _]. }
  wp_step. apply wp_modify. cbn beta. set (g3 := set_resources _ g2).
  assert (Hiso : forall m, ~ edge g3 m (Res l) /\ ~ edge g3 (Res l) m).
  { intros m. change (~ edge g2 m (Res l) /\ ~ edge g2 (Res l) m). rewrite !He. tauto. }
  eapply wp_mono; [apply destroy_isolated; [apply Hs2| |done]|].
  { apply (sh_res _ Hsh2). by rewrite (sn_res _ _ Hn2), Hr1. }
  intros [] g4 ->. destruct (delete_sym_col g3 (Res l)) as (Hs4 & Hcol4 & He4); [apply Hs2|apply Hsh2|done|].
  split.
  { constructor; [done|done|..].
    - intros t'. unfold alloc. simpl. rewrite lookup_delete_ne by done. apply (sh_txn _ Hsh2).
    - intros l'. unfold alloc. simpl. rewrite elem_of_difference, elem_of_singleton.
      destruct (decide (l' = l)) as [->|].
      + rewrite lookup_delete_eq. split; [by intros []|tauto].
      + rewrite lookup_delete_ne by congruence. rewrite <- (sh_res _ Hsh2). unfold alloc. tauto.
    - intros a b Hab%He4. by apply (sh_bip _ Hsh2). }
  split; [by rewrite <- Hc1, <- (sn_color _ _ Hn2)|]. split.
  { intros a b. rewrite He4. change (edge g3 a b) with (edge g2 a b). rewrite He.
    unfold outside. destruct a, b; naive_solver. }
  split.
  { intros l'. simpl. rewrite elem_of_difference, elem_of_singleton, (sn_res _ _ Hn2), Hr1. done. }
  simpl. rewrite (sn_txns _ _ Hn2). eapply wakes_iff; [|exact Hw1]. intros t'. naive_solver.
Qed.

Lemma dropped_trans g1 g2 g3 (D1 D2 D : Z -> Prop) :
  (forall l, D l <-> D1 l \/ D2 l) -> (forall l, D1 l -> ~ D2 l) ->
  dropped g1 D1 g2 -> dropped g2 D2 g3 -> dropped g1 D g3.
Proof.
  intros HD Hdisj (H1 & H2 & H3 & H4 & H5) (K1 & K2 & K3 & K4 & K5).
  split; [done|]. split; [congruence|]. split; [|split].
  - intros a b. rewrite K3, H3. unfold outside.
    destruct a, b; rewrite ?HD; tauto.
  - intros l. rewrite K4, H4, HD. tauto.
  - eapply wakes_trans; [|exact H5|exact K5]. intros t. split.
    + intros (l & [Hl|Hl]%HD & Hw); [left; eauto|right]. exists l. split; [done|].
      unfold waits. rewrite H3. split; [done|]. split; [done|]. intros Hd1. by apply (Hdisj l).
    + intros [(l & Hl & Hw)|(l & Hl & Hw)]; exists l; (split; [apply HD; auto|]); [done|].
      unfold waits in Hw. rewrite H3 in Hw. apply Hw.
Qed.

Lemma dropped_none g (D : Z -> Prop) : shape g -> (forall l, ~ D l) -> dropped g D g.
Proof.
  intros Hsh HD. split; [done|]. split; [done|]. split; [|split].
  - intros a b. unfold outside. destruct a, b; naive_solver.
  - intros l. naive_solver.
  - apply wakes_none. intros t (l & Hl & _). by apply (HD l).
Qed.

Lemma dropped_iff g (D D' : Z -> Prop) g' : (forall l, D l <-> D' l) -> dropped g D g' -> dropped g D' g'.
Proof.
  intros HD (H1 & H2 & H3 & H4 & H5). split; [done|]. split; [done|]. split; [|split].
  - intros a b. rewrite H3. unfold outside. destruct a, b; rewrite ?HD; done.
  - intros l. by rewrite H4, HD.
  - eapply wakes_iff; [|exact H5]. intros t. cbn beta. by setoid_rewrite HD.
Qed.

Definition release_body (t : Z) (r : node) : M graph unit :=
  match r with
  | Res l =>
      wakeAndDetach order r ;;
      removeInEdge (Txn t) r ;;
      modify (fun g => set_resources (resources g ∖ {[l]}) g) ;;
      destroy order r
  | Txn _ => fail_with StaleAddress
  end.

Lemma release_blocks_spec g t x :
  owned g -> heap g !! Txn t = Some x ->
  wp (for_each (order (inn x)) (release_body t)) g (fun _ => dropped g (fun l => owns g t l)).
Proof.
  intros Hg Hx. pose proof (ow_shape _ Hg) as Hsh.
  assert (Hin : forall m, m ∈ order (inn x) <-> edge g m (Txn t)).
  { intros m. rewrite (sh_sym _ Hsh m (Txn t)), elem_of_order by done. symmetry. by apply iedge_inn. }
  eapply wp_mono; [apply (wp_for_each (fun rest g' =>
    NoDup rest /\ (forall m, m ∈ rest -> edge g m (Txn t)) /\
    dropped g (fun l => owns g t l /\ Res l ∉ rest) g'))|].
  - split; [apply NoDup_order|]. split; [by intros m ?%Hin|].
    apply dropped_none; [done|]. intros l [Ho Hno]. by apply Hno, Hin.
  - intros m rest g' (Hnd & Hm & Hdr). apply NoDup_cons in Hnd as [Hnotin Hnd].
    assert (Hmt : edge g m (Txn t)) by (apply Hm; left).
    pose proof (sh_bip _ Hsh _ _ Hmt) as Hb. destruct m as [|l]; [done|].
    pose proof Hdr as (Hsh' & _ & He & _ & _).
    eapply wp_mono; [apply (drop_one_spec g' t l); [done| |]|].
    + unfold owns. rewrite He. split; [done|]. split; [|done]. simpl. intros [_ []]. left.
    + intros t' Ho. unfold owns in Ho. rewrite He in Ho. by eapply (ow_one _ Hg); [apply Ho|].
    + intros [] g2 Hdr2. split; [done|]. split; [by intros; apply Hm; right|].
      eapply dropped_trans; [| |exact Hdr|exact Hdr2]; intros l'; cbn beta; rewrite elem_of_cons.
      * destruct (decide (l' = l)) as [->|Hne]; [|naive_solver]. split; [auto|]. intros _. by split.
      * intros [_ Hno] ->. apply Hno. by left.
  - intros [] g' (_ & _ & Hdr). eapply dropped_iff; [|exact Hdr]. intros l. cbn beta.
    rewrite elem_of_nil. tauto.
Qed.

Lemma unwait_spec g t x :
  shape g -> heap g !! Txn t = Some x ->
  wp (for_each (order (out x)) (fun r => removeOutEdge (Txn t) r)) g
    (fun _ => edge_post g (fun a b => edge g a b /\ a <> Txn t)).
Proof.
  intros Hsh Hx.
  assert (Hin : forall m, m ∈ order (out x) <-> edge g (Txn t) m).
  { intros m. rewrite elem_of_order by done. symmetry. by apply edge_out. }
  eapply wp_mono; [apply (wp_for_each (fun rest g' =>
    NoDup rest /\ (forall m, m ∈ rest -> edge g (Txn t) m) /\
    edge_post g (fun a b => edge g a b /\ (a = Txn t -> b ∈ rest)) g'))|].
  - split; [apply NoDup_order|]. split; [by intros m ?%Hin|]. split; [apply Hsh|]. split; [done|].
    intros a b. split; [|tauto]. intros Hab. split; [done|]. intros ->. by apply Hin.
  - intros m rest g' (Hnd & Hm & Hs & Hn & He). apply NoDup_cons in Hnd as [Hnotin Hnd].
    destruct (edge_alloc g (Txn t) m) as [H1 H2]; [apply Hsh|apply Hm; left|].
    eapply wp_mono; [apply removeOutEdge_spec; [done|by apply (same_nodes_alloc _ _ _ Hn)..]|].
    intros [] g2 (Hs2 & Hn2 & He2). unfold minus_edge in He2. split; [done|].
    split; [by intros; apply Hm; right|].
    split; [done|]. split; [by eapply same_nodes_trans|]. intros a b. rewrite He2, He, elem_of_cons.
    destruct (decide (a = Txn t)) as [->|]; [|naive_solver].
    destruct (decide (b = m)) as [->|]; naive_solver.
  - intros [] g' (_ & _ & Hs & Hn & He). split; [done|]. split; [done|]. intros a b.
    rewrite He, elem_of_nil. tauto.
Qed.

(** What [releaseResources] leaves: [t] has no edge, its blocks are gone and the
    transactions that waited for them are awake. *)
Record released (g : graph) (t : Z) (g' : graph) : Prop := {
  rl_inv : inv g';
  rl_color : color g' = color g;
  rl_none : forall l, ~ owns g' t l /\ ~ waits g' t l;
  rl_gone : forall l, l ∈ resources g' <-> l ∈ resources g /\ ~ owns g t l;
  rl_others : forall t' l, t' <> t -> owns g' t' l <-> owns g t' l;
  rl_awake : forall t' l, waits g t' l -> owns g t l -> ~ is_asleep g' t';
  rl_asleep : forall t', is_asleep g' t' -> is_asleep g t' /\ t' <> t;
  rl_dead : forall t', t' <> t -> is_dead g' t' <-> is_dead g t';
  rl_txns : forall t', t' <> t -> is_Some (txns g' !! t') <-> is_Some (txns g !! t');
  rl_killed : is_asleep g t -> is_dead g' t;
  rl_freed : ~ is_asleep g t -> txns g' !! t = None }.

Lemma released_intro g g1 g' t (fl : option TxnFlags) :
  inv g -> dropped g (fun l => owns g t l) g1 -> shape g' ->
  color g' = color g1 -> resources g' = resources g1 ->
  (forall a b, edge g' a b <-> edge g1 a b /\ a <> Txn t) ->
  (forall t', txns g' !! t' = if decide (t' = t) then fl else txns g1 !! t') ->
  (is_asleep g t -> fl = Some (mkFlags true false)) ->
  (~ is_asleep g t -> fl = None) ->
  (fl = None \/ fl = Some (mkFlags true false)) ->
  released g t g'.
Proof.
  intros [Hg Hd Hs Hl] (Hsh1 & Hc1 & He1 & Hr1 & Hw1) Hsh' Hc' Hr' He' Htx Hfl1 Hfl2 Hfl3.
  assert (Ho' : forall t' l, owns g' t' l <-> owns g t' l /\ t' <> t).
  { intros t' l. unfold owns at 1. rewrite He', He1. simpl. unfold owns. split.
    - intros [(Ho & Hn & _) _]. split; [done|]. by intros ->.
    - intros [Ho Hn]. split; [|done]. split; [done|]. split; [|done]. intros Ho2. apply Hn. by eapply ow_one. }
  assert (Hw' : forall t' l, waits g' t' l <-> waits g t' l /\ t' <> t /\ ~ owns g t l).
  { intros t' l. unfold waits at 1. rewrite He', He1. simpl. unfold waits, owns. split.
    - intros [(? & _ & ?) Hn]. split_and!; try done. congruence.
    - intros (? & ? & ?). split; [done|]. congruence. }
  assert (Has : forall t', is_asleep g' t' -> is_asleep g t' /\ t' <> t /\ forall l, waits g t' l -> ~ owns g t l).
  { intros t' (f & Hf & Hfs). rewrite Htx in Hf. case_decide as Hdec.
    { destruct Hfl3; simplify_eq/=. }
    destruct (Hw1 t') as [Hwk Hwn]. destruct Hwn as [Hsame|[_ Hwoken]].
    - split; [exists f; by rewrite <- Hsame|]. split; [done|]. intros l Hwl Hol.
      rewrite Hwk in Hf by eauto. destruct (txns g !! t'); simplify_eq/=.
    - rewrite Hwoken in Hf. destruct (txns g !! t'); simplify_eq/=. }
  assert (Hde : forall t', t' <> t -> is_dead g' t' <-> is_dead g t').
  { intros t' Hne. unfold is_dead. rewrite Htx, decide_False by done.
    destruct (Hw1 t') as [_ [->|[_ ->]]]; [done|]. destruct (txns g !! t') as [f|]; simpl; [|naive_solver].
    split; intros (f' & Hf' & ?); simplify_eq/=; eauto. }
  assert (Hg' : owned g').
  { constructor; [done|..].
    - intros l. rewrite Hr', Hr1. intros [Hin Hno]. destruct (ow_some _ Hg l Hin) as [t' Ho].
      exists t'. apply Ho'. split; [done|]. by intros ->.
    - intros t1 t2 l [H1 _]%Ho' [H2 _]%Ho'. by eapply ow_one.
    - intros t' l [Hw _]%Hw' [Ho _]%Ho'. by eapply ow_wait. }
  constructor.
  - constructor; [done|..].
    + intros t' Hdd. destruct (decide (t' = t)) as [->|Hne].
      * split; [by intros (_ & ? & _)%Has|]. intros l. rewrite Ho', Hw'. naive_solver.
      * apply Hde in Hdd; [|done]. destruct (Hd t' Hdd) as [Hna Hno]. split; [by intros (? & _)%Has|].
        intros l. destruct (Hno l). rewrite Ho', Hw'. tauto.
    + intros t' (Ha & Hne & Hnw)%Has. destruct (Hs t' Ha) as [l Hwl]. exists l. apply Hw'. eauto.
    + intros t' Htc. apply (Hl t'). eapply tc_sub; [|exact Htc]. cbn beta.
      intros a b ((Ha & _)%Has & (Hb & _)%Has & l & [Hw _]%Hw' & [Ho _]%Ho').
      split; [done|]. split; [done|]. by exists l.
  - congruence.
  - intros l. rewrite Ho', Hw'. naive_solver.
  - intros l. by rewrite Hr', Hr1.
  - intros t' l Hne. rewrite Ho'. naive_solver.
  - intros t' l Hwl Hol (_ & _ & Hno)%Has. by eapply Hno.
  - intros t' (? & ? & _)%Has. done.
  - done.
  - intros t' Hne. rewrite Htx, decide_False by done. by eapply wakes_is_Some.
  - intros Ha. exists (mkFlags true false). rewrite Htx, decide_True by done. by rewrite Hfl1.
  - intros Ha. rewrite Htx, decide_True by done. by apply Hfl2.
Qed.

Lemma released_unknown g t : inv g -> txns g !! t = None -> released g t g.
Proof.
  intros Hg Ht. pose proof (inv_shape _ Hg) as Hsh.
  assert (Hno : ~ alloc g (Txn t)) by (rewrite (sh_txn _ Hsh), Ht; by intros []).
  assert (Hed : forall l, ~ owns g t l /\ ~ waits g t l).
  { intros l. split; intros [? ?]%edge_alloc; try apply Hsh; done. }
  assert (Hna : ~ is_asleep g t) by (intros (f & ? & _); congruence).
  constructor; try done.
  - intros l. destruct (Hed l). tauto.
  - intros t' l _ Ho. by destruct (Hed l).
  - intros t' Ha. split; [done|]. by intros ->.
Qed.

(** The end of a release: the node goes, or is marked dead and woken. *)
Lemma release_end_spec g t f :
  shape g -> txns g !! t = Some f -> (forall m, ~ edge g m (Txn t) /\ ~ edge g (Txn t) m) ->
  wp (asleep ← sleeping t;
      if asleep : bool then die t ;; wake t
      else
        modify (fun g => set_txns (delete t (txns g)) g) ;;
        destroy order (Txn t)) g
    (fun _ g' => shape g' /\ color g' = color g /\ resources g' = resources g /\
      (forall a b, edge g' a b <-> edge g a b) /\
      forall t', txns g' !! t' =
        if decide (t' = t) then if _sleeping f then Some (mkFlags true false) else None
        else txns g !! t').
Proof.
  intros Hsh Hf Hiso. unfold sleeping. wp_step. wp_step. apply (wp_flags _ f); [done|]. apply wp_ret.
  destruct (_sleeping f) eqn:Hsl.
  - unfold die, set_flags. wp_step. wp_step. apply (wp_flags _ f); [done|]. apply wp_modify. cbn beta.
    apply (wp_wake _ (mkFlags true (_sleeping f))); [simpl; by rewrite lookup_insert_eq|].
    simpl. rewrite insert_insert_eq. split_and!; try done.
    + destruct Hsh. constructor; try done. intros t'. simpl.
      change (alloc g (Txn t') <-> is_Some (<[t := mkFlags true false]> (txns g) !! t')).
      rewrite sh_txn0. destruct (decide (t' = t)) as [->|].
      * rewrite lookup_insert_eq, Hf. split; by eexists.
      * by rewrite lookup_insert_ne.
    + intros t'. case_decide; [subst; by rewrite lookup_insert_eq|by rewrite lookup_insert_ne].
  - wp_step. apply wp_modify. cbn beta. set (g1 := set_txns _ g).
    eapply wp_mono; [apply destroy_isolated; [apply Hsh| |done]|].
    { apply (sh_txn _ Hsh). by exists f. }
    intros [] g' ->. destruct (delete_sym_col g1 (Txn t)) as (Hs & Hc & He); [apply Hsh|apply Hsh|done|].
    split; [|split; [done|split; [done|split; [done|]]]].
    + constructor; try done.
      * intros t'. unfold alloc. simpl. destruct (decide (t' = t)) as [->|].
        -- rewrite !lookup_delete_eq. done.
        -- rewrite !lookup_delete_ne by congruence. apply (sh_txn _ Hsh).
      * intros l. unfold alloc. simpl. rewrite lookup_delete_ne by done. apply (sh_res _ Hsh).
      * intros a b Hab%He. by apply (sh_bip _ Hsh).
    + intros t'. simpl. case_decide; [subst; by rewrite lookup_delete_eq|by rewrite lookup_delete_ne].
Qed.

Lemma releaseResources_spec g t :
  inv g -> wp (releaseResources order t) g (fun _ => released g t).
Proof.
  intros Hg. pose proof (inv_shape _ Hg) as Hsh. unfold releaseResources. wp_step.
  apply wp_gets. cbn beta. case_bool_decide as Hk.
  2: { apply wp_ret. apply released_unknown; [done|]. by apply eq_None_not_Some. }
  destruct (proj2 (sh_txn _ Hsh t) Hk) as [x Hx].
  wp_step. apply (wp_deref _ _ x); [done|]. wp_step. fold (release_body t).
  eapply wp_mono; [apply (release_blocks_spec g t x); [apply Hg|done]|].
  intros [] g1 Hdr. pose proof Hdr as (Hsh1 & Hc1 & He1 & Hr1 & Hw1).
  pose proof (proj2 (wakes_is_Some _ _ _ t Hw1) Hk) as [f Hf].
  destruct (proj2 (sh_txn _ Hsh1 t)) as [x1 Hx1]; [by eexists|].
  wp_step. apply (wp_deref _ _ x1); [done|]. wp_step.
  eapply wp_mono; [by apply unwait_spec|].
  intros [] g2 Hp2. pose proof Hp2 as (Hs2 & Hn2 & He2).
  assert (Hsh2 : shape g2).
  { eapply shape_edges; [exact Hsh1|exact Hp2|]. intros a b [Hab _]. by eapply (sh_bip _ Hsh1). }
  assert (Hw : forall l, waits g t l -> ~ owns g t l) by (intros l; apply Hg).
  assert (Hft : txns g !! t = Some f).
  { destruct (Hw1 t) as [_ [E|[(l & Ho & Hwl) _]]]; [congruence|]. by apply Hw in Hwl. }
  eapply wp_mono; [apply (release_end_spec g2 t f); [done|by rewrite (sn_txns _ _ Hn2)|]|].
  - intros m. rewrite !He2, !He1. split; [|tauto]. intros [(Hm & Ho & _) _].
    pose proof (sh_bip _ Hsh _ _ Hm) as Hb. destruct m as [|l]; [done|]. by apply Ho.
  - intros [] g3 (Hsh3 & Hc3 & Hr3 & He3 & Ht3). apply (released_intro g g1 g3 t (if _sleeping f then Some (mkFlags true false) else None)); try done.
    + by rewrite Hc3, (sn_color _ _ Hn2).
    + by rewrite Hr3, (sn_res _ _ Hn2).
    + intros a b. by rewrite He3, He2.
    + intros t'. by rewrite Ht3, (sn_txns _ _ Hn2).
    + intros (f' & Hf' & Hs'). simplify_eq. by rewrite Hs'.
    + intros Hna. destruct (_sleeping f) eqn:E; [|done]. exfalso. apply Hna. by exists f.
    + destruct (_sleeping f); auto.
Qed.

(** *** Resuming a killed call *)
Lemma resume_dead_spec g start end_ t :
  inv g -> is_dead g t ->
  wp (reserveRange_resume order start end_ t) g (fun r g' =>
    r = Done ERR_KILLED /\ inv g' /\ color g' = color g /\ txns g' = delete t (txns g)).
Proof.
  intros Hg Hdead. pose proof Hdead as (f & Hf & Hdie). pose proof (inv_shape _ Hg) as Hsh.
  destruct (iv_dead _ Hg t Hdead) as [Hna Hno].
  unfold reserveRange_resume, dead. wp_step. wp_step. apply (wp_flags _ f); [done|].
  apply wp_ret. rewrite Hdie. wp_step. apply wp_modify. cbn beta. set (g1 := set_txns _ g). wp_step.
  assert (Hiso : forall m, ~ edge g m (Txn t) /\ ~ edge g (Txn t) m).
  { intros m. split; intros Hm; pose proof (sh_bip _ Hsh _ _ Hm) as Hb; destruct m as [|l]; try done;
      by destruct (Hno l). }
  eapply wp_mono; [apply destroy_isolated; [apply Hsh| |exact Hiso]|].
  { apply (sh_txn _ Hsh). by exists f. }
  intros [] g2 ->. apply wp_ret. split; [done|]. split; [|split; [done|done]].
  destruct (delete_sym_col g1 (Txn t)) as (Hs & Hc & He); [apply Hsh|apply Hsh|done|].
  set (g2 := set_heap _ g1) in *.
  change (forall a b, edge g2 a b <-> edge g a b) in He.
  assert (Htx : forall t', t' <> t -> txns g2 !! t' = txns g !! t') by (intros; by apply lookup_delete_ne).
  assert (Htt : txns g2 !! t = None) by apply lookup_delete_eq.
  assert (Has : forall t', is_asleep g2 t' -> is_asleep g t').
  { intros t' (f' & Hf' & ?). destruct (decide (t' = t)) as [->|]; [congruence|].
    exists f'. by rewrite <- Htx. }
  destruct Hg as [[[] Hsome Hone Hwait] Hd Hsl Hl].
  constructor; [constructor; [constructor|..]|..]; unfold owns, waits in *; try done.
  - intros t'. unfold alloc. destruct (decide (t' = t)) as [->|Hne].
    + rewrite Htt. subst g2 g1. simpl. rewrite lookup_delete_eq. naive_solver.
    + rewrite Htx by done. subst g2 g1. simpl. rewrite lookup_delete_ne by congruence. apply sh_txn0.
  - intros l. unfold alloc. subst g2 g1. simpl. rewrite lookup_delete_ne by done. apply sh_res0.
  - intros a b Hab%He. by apply sh_bip0.
  - intros l Hin. setoid_rewrite He. by apply Hsome.
  - intros t1 t2 l. rewrite !He. apply Hone.
  - intros t1 l. rewrite !He. apply Hwait.
  - intros t1 (f' & Hf' & Hd'). destruct (decide (t1 = t)) as [->|]; [congruence|].
    destruct (Hd t1) as [Hna1 Hno1]; [exists f'; by rewrite <- Htx|]. split; [by intros ?%Has|].
    intros l. rewrite !He. apply Hno1.
  - intros t1 Ha%Has. setoid_rewrite He. by apply Hsl.
  - intros t1 Htc. apply (Hl t1). eapply tc_sub; [|exact Htc]. cbn beta.
    intros a b (Ha & Hb & l & ? & ?). split; [by apply Has|split; [by apply Has|]].
    exists l. unfold owns, waits in *. by rewrite <- !He.
Qed.

Lemma resume_spec g start end_ t :
  inv g -> color g + 2 < 2 ^ 64 -> alloc g (Txn t) -> ~ is_asleep g t -> ~ is_dead g t ->
  wp (reserveRange_resume order start end_ t) g (reserve_post g start end_ t).
Proof.
  intros Hg Hcol Hal Hna Hnd. pose proof (proj1 (sh_txn _ (inv_shape _ Hg) t) Hal) as [f Hf].
  unfold reserveRange_resume, dead. wp_step. wp_step. apply (wp_flags _ f); [done|]. apply wp_ret.
  destruct (_die f) eqn:E; [exfalso; apply Hnd; by exists f|]. by apply connect_loop_spec.
Qed.
End ops.
End RGInv.
