(* ===== verification/RGClaims.v ===== *)
(** * Properties of the LBID resource graph

    The deadlock check is exact, a reservation gives exclusive ownership of the
    whole range, a release hands the blocks back and wakes their waiters, and the
    sleeping transactions of a running system always wait, in the end, for one
    that is awake. *)
From S2P Require Import Prelude ResourceGraph RGThms RGInv.
From stdpp Require Import prelude gmap strings.

Local Open Scope Z_scope.

Module RGClaims.
Import RG RGThms RGInv.

Definition sys0 : system := mkSys empty_graph ∅.

Lemma rg_empty_inv : inv empty_graph.
Proof.
  assert (He : forall a b, ~ edge empty_graph a b) by (intros a b (x & Hx & _); done).
  constructor; [constructor; [constructor|..]|..]; unfold owns, waits.
  - intros a b. split; intros (x & Hx & _); done.
  - split; [done|]. intros n c Hc. done.
  - intros t. split; intros [? ?]; done.
  - intros l. split; [intros [? ?]; done|set_solver].
  - intros a b Hab. by apply He in Hab.
  - intros l Hl. set_solver.
  - intros t t' l Hab. by apply He in Hab.
  - intros t l Hab. by apply He in Hab.
  - intros t (f & Hf & _). done.
  - intros t (f & Hf & _). done.
  - intros t Htc. inversion Htc as [? ? (_ & _ & l & Hw & _)|? ? ? (_ & _ & l & Hw & _)]; by apply He in Hw.
Qed.

Section system.
Context (order : gset node -> list node).
Hypothesis order_perm : forall X, order X ≡ₚ elements X.

(** The invariant of the concurrent system after [n] steps. *)
Record sys_inv (n : nat) (s : system) : Prop := {
  si_inv : inv (rg s);
  si_color : color (rg s) <= 2 * Z.of_nat n;
  si_asleep : forall t, is_asleep (rg s) t -> is_Some (blocked s !! t);
  si_dead : forall t, is_dead (rg s) t -> is_Some (blocked s !! t);
  si_blocked : forall t, is_Some (blocked s !! t) -> is_Some (txns (rg s) !! t) }.

Lemma sys_inv_reserved n g b start end_ t r g' :
  sys_inv n (mkSys g b) -> reserve_post g start end_ t r g' ->
  sys_inv (S n) (mkSys g' (park t start end_ r b)).
Proof.
  intros [Hi Hc Ha Hd Hb] (Hi' & Hc' & Hfr & Hnd & Hal & Hr). simpl in *.
  assert (Hpk : forall t', t' <> t -> park t start end_ r b !! t' = b !! t').
  { intros t' Hne. destruct r; simpl; [by apply lookup_delete_ne|by apply lookup_insert_ne]. }
  assert (Htt : is_Some (txns g' !! t)) by (by apply (sh_txn _ (inv_shape _ Hi'))).
  constructor; simpl; [done|lia|..].
  - intros t' Hs. destruct (decide (t' = t)) as [->|Hne].
    + destruct r; [by destruct Hr|]. simpl. rewrite lookup_insert_eq. by eexists.
    + rewrite Hpk by done. apply Ha. destruct Hs as (f & Hf & ?). exists f. by rewrite <- Hfr.
  - intros t' Hs. destruct (decide (t' = t)) as [->|Hne]; [done|].
    rewrite Hpk by done. apply Hd. destruct Hs as (f & Hf & ?). exists f. by rewrite <- Hfr.
  - intros t' Hs. destruct (decide (t' = t)) as [->|Hne]; [done|].
    rewrite Hpk in Hs by done. rewrite Hfr by done. by apply Hb.
Qed.

Lemma is_dead_dec g t : is_dead g t \/ ~ is_dead g t.
Proof.
  unfold is_dead. destruct (txns g !! t) as [f|]; [|right; by intros (? & ? & _)].
  destruct (_die f) eqn:E; [left; eauto|right; intros (? & ? & ?); congruence].
Qed.

Lemma is_asleep_dec g t : is_asleep g t \/ ~ is_asleep g t.
Proof.
  unfold is_asleep. destruct (txns g !! t) as [f|]; [|right; by intros (? & ? & _)].
  destruct (_sleeping f) eqn:E; [left; eauto|right; intros (? & ? & ?); congruence].
Qed.

Lemma sys_inv_step n s s' :
  2 * Z.of_nat n + 2 < 2 ^ 64 -> sys_inv n s -> step order s s' -> sys_inv (S n) s'.
Proof.
  intros Hn Hsys Hstep. pose proof Hsys as [Hi Hc Ha Hd Hb].
  destruct Hstep as [g b t start end_ r g' Ht Hrun|g b t f start end_ r g' Ht Hf Hfs Hrun|g b t g' Hrel Hrun];
    simpl in *.
  - assert (Hw : wp (reserveRange order start end_ t) g (reserve_post g start end_ t)).
    { apply reserveRange_spec; [done|done|lia|..].
      - intros [? ?]%Ha. congruence.
      - intros [? ?]%Hd. congruence. }
    unfold wp in Hw. rewrite Hrun in Hw. by eapply sys_inv_reserved.
  - assert (Hna : ~ is_asleep g t) by (intros (f' & ? & ?); congruence).
    destruct (is_dead_dec g t) as [Hdd|Hnd].
    + assert (Hw := resume_dead_spec order order_perm g start end_ t Hi Hdd).
      unfold wp in Hw. rewrite Hrun in Hw. destruct Hw as (-> & Hi' & Hc' & Htx).
      assert (Hfr : forall t', t' <> t -> txns g' !! t' = txns g !! t')
        by (intros; rewrite Htx; by apply lookup_delete_ne).
      assert (Hgone : txns g' !! t = None) by (rewrite Htx; apply lookup_delete_eq).
      constructor; simpl; [done|lia|..].
      * intros t' (f' & Hf' & ?). assert (t' <> t) by congruence. rewrite lookup_delete_ne by done.
        apply Ha. exists f'. by rewrite <- Hfr.
      * intros t' (f' & Hf' & ?). assert (t' <> t) by congruence. rewrite lookup_delete_ne by done.
        apply Hd. exists f'. by rewrite <- Hfr.
      * intros t' Hs. destruct (decide (t' = t)) as [->|]; [rewrite lookup_delete_eq in Hs; by destruct Hs|].
        rewrite lookup_delete_ne in Hs by done. rewrite Hfr by done. by apply Hb.
    + assert (Hw : wp (reserveRange_resume order start end_ t) g (reserve_post g start end_ t)).
      { apply resume_spec; [done|done|lia| |done|done]. apply (sh_txn _ (inv_shape _ Hi)). by exists f. }
      unfold wp in Hw. rewrite Hrun in Hw. by eapply sys_inv_reserved.
  - assert (Hw := releaseResources_spec order order_perm g t Hi).
    unfold wp in Hw. rewrite Hrun in Hw. destruct Hw. constructor; simpl; [done|lia|..].
    + intros t' Hs. apply Ha. by apply rl_asleep0 in Hs as [? _].
    + intros t' Hs. destruct (decide (t' = t)) as [->|Hne]; [|apply Hd; by apply rl_dead0].
      destruct (is_asleep_dec g t) as [Hsl|Hsl]; [by apply Ha|].
      destruct Hs as (f & Hf & _). rewrite rl_freed0 in Hf; done.
    + intros t' Hs. destruct (decide (t' = t)) as [->|Hne]; [|apply rl_txns0; [done|by apply Hb]].
      destruct Hrel as [Hnone|Hsl]; simpl in *; [rewrite Hnone in Hs; by destruct Hs|].
      destruct (rl_killed0 Hsl) as (f & Hf & _). by exists f.
Qed.

Lemma sys0_inv : sys_inv 0 sys0.
Proof.
  constructor; simpl; [apply rg_empty_inv|lia|..].
  - intros t (f & Hf & _). done.
  - intros t (f & Hf & _). done.
  - intros t [? ?]. done.
Qed.

Lemma sys_inv_nsteps n s s' k :
  nsteps (step order) n s s' -> 2 * (Z.of_nat k + Z.of_nat n) < 2 ^ 64 ->
  sys_inv k s -> sys_inv (k + n) s'.
Proof.
  intros Hst. revert k. induction Hst as [s|n s1 s2 s3 H12 _ IH]; intros k Hk Hi.
  - by rewrite Nat.add_0_r.
  - rewrite Nat.add_succ_r, <- Nat.add_succ_l. apply IH; [lia|].
    eapply sys_inv_step; [|done..]. lia.
Qed.

Lemma sys_inv_reach n s : nsteps (step order) n sys0 s -> 2 * Z.of_nat n < 2 ^ 64 -> sys_inv n s.
Proof. intros Hst Hn. apply (sys_inv_nsteps n sys0 s 0 Hst); [lia|apply sys0_inv]. Qed.

(** Following the owners of what a sleeping transaction waits for ends at one
    that is awake. *)
Lemma inv_progress g t :
  inv g -> is_asleep g t ->
  exists t1 l t2, rtc (asleep_on g) t t1 /\ is_asleep g t1 /\ waits g t1 l /\ owns g t2 l /\ ~ is_asleep g t2.
Proof.
  intros Hg Ht.
  assert (Hsn : sn (asleep_on g) t).
  { apply tc_finite_sn; [intros x; apply Hg|].
    exists (map_to_list (txns g)).*1. intros t' Htc.
    assert (Ha : is_asleep g t') by (clear -Htc; induction Htc as [? ? (_ & ? & _)|]; done).
    destruct Ha as (f & Hf & _). apply list_elem_of_fmap. exists (t', f). split; [done|].
    by apply elem_of_map_to_list. }
  induction Hsn as [t _ IH]. destruct (iv_sleep _ Hg t Ht) as [l Hw].
  assert (Hl : l ∈ resources g).
  { apply (sh_res _ (inv_shape _ Hg)). by apply edge_alloc in Hw as [_ ?]; [|apply inv_shape]. }
  destruct (ow_some _ (iv_owned _ Hg) l Hl) as [t' Ho].
  destruct (is_asleep_dec g t') as [Ha|Ha].
  - assert (Hon : asleep_on g t t') by (split; [done|split; [done|by exists l]]).
    destruct (IH t' Hon Ha) as (t1 & l1 & t2 & H1 & H2). exists t1, l1, t2.
    split; [by eapply rtc_l|done].
  - exists t, l, t'. by split_and!.
Qed.
End system.

(** ** The claims *)

(** C35. The deadlock check is exact and total: on every graph that satisfies the
    invariant [checkDeadlock] returns, it answers true exactly when a cycle of
    edges can be reached from the transaction, and it changes nothing but the
    colours of the nodes, whatever the order in which the sets of edges are
    visited. *)
Theorem rg_checkDeadlock_exact order g t :
  (forall X, order X ≡ₚ elements X) ->
  inv g -> is_Some (txns g !! t) -> color g + 2 < 2 ^ 64 ->
  exists r g', checkDeadlock order t g = (Val r, g') /\
    (r = true <-> reaches_cycle g (Txn t)) /\ recoloured g g' /\ inv g'.
Proof.
  intros Ho Hg Ht Hc. pose proof (inv_shape _ Hg) as Hsh.
  destruct (wp_run _ _ _ (checkDeadlock_spec order g t Ho (sh_sym _ Hsh) (sh_col _ Hsh)
    (proj2 (sh_txn _ Hsh t) Ht) Hc)) as (r & g' & Hrun & Hre & Hcol & _ & Hr).
  exists r, g'. split; [done|]. split; [done|]. split; [done|]. by eapply inv_recoloured.
Qed.

(** Reservation is exclusive: [reserveRange] always returns or sleeps; on
    [ERR_OK] the transaction is the one owner of every block of the range, on
    [ERR_DEADLOCK] a cycle can be reached from it, and it only sleeps when no
    cycle can be reached from it and it waits for a block somebody else owns. *)
Theorem rg_reserve_exclusive order g start end_ t :
  (forall X, order X ≡ₚ elements X) ->
  inv g -> color g + 2 < 2 ^ 64 -> ~ is_asleep g t -> ~ is_dead g t ->
  exists r g', reserveRange order start end_ t g = (Val r, g') /\ inv g' /\
    match r with
    | Done e =>
        (e = ERR_OK /\ forall l, start <= l <= end_ -> owns g' t l /\ forall t', owns g' t' l -> t' = t) \/
        (e = ERR_DEADLOCK /\ reaches_cycle g' (Txn t))
    | Sleep => ~ reaches_cycle g' (Txn t) /\ exists l t', waits g' t l /\ owns g' t' l /\ t' <> t
    end.
Proof.
  intros Ho Hg Hc Hna Hnd.
  destruct (wp_run _ _ _ (reserveRange_spec order Ho g start end_ t Hg Hc Hna Hnd))
    as (r & g' & Hrun & Hg' & _ & _ & _ & _ & Hr).
  exists r, g'. split; [done|]. split; [done|]. pose proof (iv_owned _ Hg') as How. destruct r as [e|].
  - destruct Hr as [_ [[-> Hown]|[-> Hcy]]]; [left|by right]. split; [done|]. intros l Hl.
    split; [by apply Hown|]. intros t' Ho'. eapply ow_one; [exact How|exact Ho'|by apply Hown].
  - destruct Hr as [Hsl Hncy]. split; [done|]. destruct (iv_sleep _ Hg' t Hsl) as [l Hw].
    assert (Hl : l ∈ resources g').
    { apply (sh_res _ (inv_shape _ Hg')). by apply edge_alloc in Hw as [_ ?]; [|apply inv_shape]. }
    destruct (ow_some _ How l Hl) as [t' Ho']. exists l, t'. split; [done|]. split; [done|].
    intros ->. by eapply ow_wait.
Qed.

(** Release: [releaseResources] always returns; the transaction's blocks and
    all its edges are gone, the other owners keep theirs, and every transaction
    that waited for one of the released blocks is awake. *)
Theorem rg_release_wakes order g t :
  (forall X, order X ≡ₚ elements X) ->
  inv g ->
  exists g', releaseResources order t g = (Val tt, g') /\ inv g' /\
    (forall l, ~ owns g' t l /\ ~ waits g' t l) /\
    (forall l, l ∈ resources g' <-> l ∈ resources g /\ ~ owns g t l) /\
    (forall t' l, t' <> t -> owns g' t' l <-> owns g t' l) /\
    (forall t' l, waits g t' l -> owns g t l -> ~ is_asleep g' t').
Proof.
  intros Ho Hg. destruct (wp_run _ _ _ (releaseResources_spec order Ho g t Hg)) as ([] & g' & Hrun & []).
  exists g'. by split_and!.
Qed.

(** C10. No set of sleeping transactions can wait for itself: in every state the
    concurrent system reaches, there is no cycle among the sleeping transactions,
    no block has two owners, and from every sleeping transaction the chain of
    owners leads to a transaction that is awake.  A sleeper wakes up when it is
    notified; spurious wake-ups of the condition variable are not steps of the system. *)
Theorem rg_no_sleeping_deadlock order n s :
  (forall X, order X ≡ₚ elements X) ->
  nsteps (step order) n sys0 s -> 2 * Z.of_nat n < 2 ^ 64 ->
  (forall t, ~ tc (asleep_on (rg s)) t t) /\
  (forall t t' l, owns (rg s) t l -> owns (rg s) t' l -> t = t') /\
  (forall t, is_asleep (rg s) t ->
     exists t1 l t2, rtc (asleep_on (rg s)) t t1 /\ is_asleep (rg s) t1 /\
       waits (rg s) t1 l /\ owns (rg s) t2 l /\ ~ is_asleep (rg s) t2).
Proof.
  intros Ho Hst Hn. destruct (sys_inv_reach order Ho n s Hst Hn) as [Hi _ _ _ _]. split; [apply Hi|].
  split; [apply Hi|]. intros t Ht. by apply inv_progress.
Qed.

(** ** Witnesses: transaction 1 owns the blocks 10 and 11, transaction 2 waits for
    block 11. *)
Definition g1 : graph := (reserveRange elements 10 11 1 empty_graph).2.
Definition g2 : graph := (reserveRange elements 11 12 2 g1).2.
Definition sys2 : system := mkSys g2 (park 2 11 12 Sleep (park 1 10 11 (Done ERR_OK) ∅)).

Lemma sys2_reach : nsteps (step elements) 2 sys0 sys2.
Proof.
  eapply nsteps_l.
  { apply (step_reserve _ empty_graph ∅ 1 10 11 (Done ERR_OK) g1); [done|vm_compute; done]. }
  eapply nsteps_l; [|apply nsteps_O].
  apply (step_reserve _ g1 (park 1 10 11 (Done ERR_OK) ∅) 2 11 12 Sleep g2); [done|vm_compute; done].
Qed.

Lemma g2_inv : inv g2.
Proof. apply (si_inv 2 sys2), (sys_inv_reach elements); [done|apply sys2_reach|lia]. Qed.

Lemma rg_checkDeadlock_exact_witness :
  exists r g', checkDeadlock elements 2 g2 = (Val r, g') /\
    (r = true <-> reaches_cycle g2 (Txn 2)) /\ recoloured g2 g' /\ inv g'.
Proof.
  apply rg_checkDeadlock_exact; [done|apply g2_inv|vm_compute; by eexists|].
  replace (color g2) with 2 by (vm_compute; done). lia.
Defined.

Lemma rg_reserve_exclusive_witness :
  exists r g', reserveRange elements 20 21 3 g2 = (Val r, g') /\ inv g' /\
    match r with
    | Done e =>
        (e = ERR_OK /\ forall l, 20 <= l <= 21 -> owns g' 3 l /\ forall t', owns g' t' l -> t' = 3) \/
        (e = ERR_DEADLOCK /\ reaches_cycle g' (Txn 3))
    | Sleep => ~ reaches_cycle g' (Txn 3) /\ exists l t', waits g' 3 l /\ owns g' t' l /\ t' <> 3
    end.
Proof.
  apply rg_reserve_exclusive; [done|apply g2_inv| | |].
  - replace (color g2) with 2 by (vm_compute; done). lia.
  - intros (f & Hf & _). vm_compute in Hf. done.
  - intros (f & Hf & _). vm_compute in Hf. done.
Defined.

Lemma rg_release_wakes_witness :
  exists g', releaseResources elements 1 g2 = (Val tt, g') /\ inv g' /\
    (forall l, ~ owns g' 1 l /\ ~ waits g' 1 l) /\
    (forall l, l ∈ resources g' <-> l ∈ resources g2 /\ ~ owns g2 1 l) /\
    (forall t' l, t' <> 1 -> owns g' t' l <-> owns g2 t' l) /\
    (forall t' l, waits g2 t' l -> owns g2 1 l -> ~ is_asleep g' t').
Proof. apply rg_release_wakes; [done|apply g2_inv]. Defined.

Lemma rg_no_sleeping_deadlock_witness :
  (forall t, ~ tc (asleep_on (rg sys2)) t t) /\
  (forall t t' l, owns (rg sys2) t l -> owns (rg sys2) t' l -> t = t') /\
  (forall t, is_asleep (rg sys2) t ->
     exists t1 l t2, rtc (asleep_on (rg sys2)) t t1 /\ is_asleep (rg sys2) t1 /\
       waits (rg sys2) t1 l /\ owns (rg sys2) t2 l /\ ~ is_asleep (rg sys2) t2).
Proof. apply (rg_no_sleeping_deadlock elements 2 sys2); [done|apply sys2_reach|lia]. Defined.

(** A release between the notification of a sleeping transaction and its
    thread's return frees the node the thread goes on to use: [wake] clears
    [_sleeping] at once, so [releaseResources] takes the transaction for an idle
    one.  Transaction 2 waits for a block of transaction 1; transaction 1 is
    released, then transaction 2, and its thread resumes on a deleted node. *)
Theorem rg_release_frees_notified :
  let g3 := (releaseResources elements 1 g2).2 in
  let g4 := (releaseResources elements 2 g3).2 in
  reserveRange elements 11 12 2 g1 = (Val Sleep, g2) /\
  releaseResources elements 1 g2 = (Val tt, g3) /\
  releaseResources elements 2 g3 = (Val tt, g4) /\
  (reserveRange_resume elements 11 12 2 g4).1 = Fault StaleAddress.
Proof. vm_compute. done. Qed.
End RGClaims.
