(* ===== verification/OidServer.v ===== *)
(** * The OID server (oidserver.cpp)

    The bitmap file has three regions that the code addresses with constant
    offsets: the free list ([FreeListEntries] entries, offset 0), one bit per OID
    (offset [HeaderSize]) and the version-buffer section (offset
    [StartOfVBOidSection]).  The model keeps them apart: [freelist], [bitmap] (the
    bytes) and [vbSection] (the bytes up to the end of the file).

    [writeData] and [readData] retry; a write that fails for good throws.  [writes]
    is the number of calls of [writeData] that still succeed ([None]: all of
    them). *)
From S2P Require Import Prelude Hasher Bytes.
From stdpp Require Import prelude gmap strings.

Local Open Scope Z_scope.

Module OIDServer.

Record FEntry := mkFE { fbegin : Z; fend : Z }.

Record t := mk {
  freelist : list FEntry; bitmap : list Z; vbSection : list Z;
  vbOidDBRootMap : list Z; writes : option nat }.

Definition set_freelist f s := mk f (bitmap s) (vbSection s) (vbOidDBRootMap s) (writes s).
Definition set_bitmap b s := mk (freelist s) b (vbSection s) (vbOidDBRootMap s) (writes s).
Definition set_vbSection v s := mk (freelist s) (bitmap s) v (vbOidDBRootMap s) (writes s).
Definition set_map m s := mk (freelist s) (bitmap s) (vbSection s) m (writes s).
Definition set_writes w s := mk (freelist s) (bitmap s) (vbSection s) (vbOidDBRootMap s) w.

Definition FreeListEntries : Z := 256.
Definition bitmapSize : Z := 2097152.
Definition lastOID : Z := 0x00ffffff.

(** The bytes [bs] written at offset [off] of a file region. *)
Definition splice (off : Z) (bs file : list Z) : list Z :=
  resize (Z.to_nat off) 0 file ++ bs ++ drop (Z.to_nat off + length bs) file.

(** [writeData]: the retries either write everything or end in a throw. *)
Definition writeData (upd : t -> t) : M t unit := fun s =>
  match writes s with
  | None => (Val tt, upd s)
  | Some O => (Exn (ios_failure "OIDServer::writeData(): write error"), s)
  | Some (S n) => (Val tt, set_writes (Some n) (upd s))
  end.

(** [readData]: end of file is an [EOFException]. *)
Definition readData (region : t -> list Z) (off sz : Z) : M t (list Z) := fun s =>
  if sz =? 0 then (Val [], s)
  else if off <? 0 then (Exn (ios_failure "OIDServer::readData(): lseek failed too many times"), s)
  else
    let buf := take (Z.to_nat sz) (drop (Z.to_nat off) (region s)) in
    if zlen buf =? sz then (Val buf, s) else (Exn eof_exception, s).

Definition useFreeListEntry (fe : FEntry) (num : Z) : FEntry :=
  let blockSize := fend fe - fbegin fe + 1 in
  if blockSize =? num then mkFE (-1) (-1) else mkFE (fbegin fe + num) (fend fe).

(** One of the two bit loops of [flipOIDBlock]: verify and flip the bits of byte
    [b] from [mask] down, until the byte ends or [num] OIDs are done.  [None] is
    the failed verification. *)
Fixpoint flip_bits (fuel : nat) (b mask oidCount num : Z) (mode : bool) : outcome (option (Z * Z)) :=
  match fuel with
  | O => Fault OutOfFuel
  | S fuel' =>
      if negb (mask =? 0) && (oidCount <? num) then
        if Z.land b mask =? (if mode then mask else 0) then
          flip_bits fuel'
            (if mode then Z.land b (Z.lnot mask) else Z.lor b mask)
            (Z.shiftr mask 1) (oidCount + 1) num mode
        else Val None
      else Val (Some (b, oidCount))
  end.

(** The loop over the middle bytes. *)
Fixpoint flip_bytes (buf : list Z) (mode : bool) : option (list Z) :=
  match buf with
  | [] => Some []
  | b :: buf' =>
      if b =? (if mode then 0xff else 0) then
        (fun r => (if mode then 0 else 0xff) :: r) <$> flip_bytes buf' mode
      else None
  end.

Definition bad_flip (n : string) : exn :=
  logic_error (String.append "flipOIDBlock: bad allocation or deallocation attempted " n).

(** [mode] = false: allocate, true: deallocate. *)
Definition flipOIDBlock (blockStart num : Z) (mode : bool) : M t unit :=
  if lastOID <? blockStart + num - 1 then throw (logic_error "flipOIDBlock: request overruns oid space") else
  let blockEnd := blockStart + num - 1 in
  let off := Z.quot blockStart 8 in
  let byteSize := Z.quot blockEnd 8 - off + 1 in
  let write buf := writeData (fun s => set_bitmap (splice off buf (bitmap s)) s) in
  buf ← readData bitmap off byteSize;
  b0 ← lift (fun _ => aget buf 0);
  first ← lift (fun _ => flip_bits 9 b0 (Z.shiftr 0x80 (Z.rem blockStart 8)) 0 num mode);
  match first with
  | None => throw (bad_flip "(1)")
  | Some (b0', oidCount) =>
      let buf := zset buf 0 b0' in
      if oidCount =? num then write buf
      else
        let middle := take (Z.to_nat (byteSize - 2)) (drop 1 buf) in
        match flip_bytes middle mode with
        | None => throw (bad_flip "(2)")
        | Some middle' =>
            let oidCount := oidCount + 8 * zlen middle in
            let buf := splice 1 middle' buf in
            bl ← lift (fun _ => aget buf (byteSize - 1));
            last ← lift (fun _ => flip_bits 9 bl 0x80 oidCount num mode);
            match last with
            | None =>
                throw (logic_error (if mode then "flipOIDBlock: bad deallocation attempted"
                                    else "flipOIDBlock: bad allocation attempted"))
            | Some (bl', oidCount) =>
                let buf := zset buf (byteSize - 1) bl' in
                if oidCount =? num then write buf
                else throw (logic_error "logic error in flipOIDBlock detected")
            end
        end
  end.

(** [patchFreelist]: the loop over the entries, then the write. *)
Fixpoint patch_entries (l : list FEntry) (start end_ : Z) : option (list FEntry * bool) :=
  match l with
  | [] => Some ([], false)
  | e :: l' =>
      r ← (if fbegin e =? -1 then Some (e, false)
           else if (start <=? fbegin e) && (fbegin e <=? end_) then
             Some (if end_ <? fend e then mkFE (end_ + 1) (fend e) else mkFE (-1) (-1), true)
           else if (fbegin e <=? start) && (end_ <=? fend e) then None
           else Some (e, false));
      r' ← patch_entries l' start end_;
      mret (r.1 :: r'.1, r.2 || r'.2)
  end.

Definition patchFreelist (fl : list FEntry) (start num : Z) : M t unit :=
  match patch_entries fl start (start + num - 1) with
  | None =>
      throw (logic_error "patchFreelist: a block was allocated in the middle of a known-free block")
  | Some (fl', changed) =>
      if changed : bool then writeData (set_freelist fl') else mret tt
  end.

(** *** fullScan

    The labels of the loop body: [Skip] is [skipOnes], [Count] is [countZeros].
    A byte either ends the scan or hands its state to the next one. *)
Inductive label := Skip | Count.
Inductive scan := Found (blockStart : Z) | Next (countingZeros : bool) (blockStart blockCount : Z).

(** One byte [b], the [i]-th of the bitmap; each unit of [fuel] is one turn of a
    [while] loop or one jump. *)
Fixpoint scan_bits (fuel : nat) (l : label) (b i mask bitOffset blockStart blockCount num : Z) :
    outcome scan :=
  match fuel with
  | O => Fault OutOfFuel
  | S fuel' =>
      match l with
      | Skip =>
          if (Z.land b mask =? mask) && (bitOffset <? 8) then
            scan_bits fuel' Skip b i (Z.shiftr mask 1) (bitOffset + 1) blockStart blockCount num
          else if bitOffset =? 8 then Val (Next false blockStart blockCount)
          else scan_bits fuel' Count b i (Z.shiftr mask 1) (bitOffset + 1) (i * 8 + bitOffset) 1 num
      | Count =>
          if (Z.land b mask =? 0) && (bitOffset <? 8) && (blockCount <? num) then
            scan_bits fuel' Count b i (Z.shiftr mask 1) (bitOffset + 1) blockStart (blockCount + 1) num
          else if blockCount =? num then Val (Found blockStart)
          else if bitOffset =? 8 then Val (Next true blockStart blockCount)
          else scan_bits fuel' Skip b i mask bitOffset blockStart blockCount num
      end
  end.

Definition scan_byte (b i : Z) (countingZeros : bool) (blockStart blockCount num : Z) : outcome scan :=
  if countingZeros then scan_bits 18 Count b i 0x80 0 blockStart blockCount num
  else if negb (b =? 0xff) then scan_bits 18 Skip b i 0x80 0 blockStart blockCount num
  else Val (Next countingZeros blockStart blockCount).

(** The bytes of one 4096-byte buffer. *)
Fixpoint scan_buf (buf : list Z) (i : Z) (countingZeros : bool) (blockStart blockCount num : Z) :
    outcome scan :=
  match buf with
  | [] => Val (Next countingZeros blockStart blockCount)
  | b :: buf' =>
      r ← scan_byte b i countingZeros blockStart blockCount num;
      match r with
      | Found s => Val (Found s)
      | Next cz bs bc => scan_buf buf' (i + 1) cz bs bc num
      end
  end.

(** The buffers of the file; [n] bounds the number of them. *)
Fixpoint scan_file (n : nat) (fileOffset : Z) (countingZeros : bool) (blockStart blockCount num : Z) :
    M t (option Z) :=
  if fileOffset <? bitmapSize then
    match n with
    | O => fail_with OutOfFuel
    | S n' =>
        buf ← readData bitmap fileOffset 4096;
        r ← lift (fun _ => scan_buf buf fileOffset countingZeros blockStart blockCount num);
        match r with
        | Found s => mret (Some s)
        | Next cz bs bc => scan_file n' (fileOffset + 4096) cz bs bc num
        end
    end
  else mret None.

Definition fullScan (num : Z) (fl : list FEntry) : M t Z :=
  r ← scan_file 512 0 false 0 0 num;
  match r with
  | None => mret (-1)
  | Some blockStart =>
      patchFreelist fl blockStart num ;;
      flipOIDBlock blockStart num false ;;
      mret blockStart
  end.

(** The best-fit search of [allocOIDs]; the result is the index and the first OID
    of the entry. *)
Definition INT_MAX : Z := 2147483647.

Fixpoint best_fit (l : list FEntry) (i num bestMatchIndex bestMatchSize bestMatchBegin : Z) : Z * Z :=
  match l with
  | [] => (bestMatchIndex, bestMatchBegin)
  | e :: l' =>
      if fbegin e =? -1 then best_fit l' (i + 1) num bestMatchIndex bestMatchSize bestMatchBegin
      else
        let size := fend e - fbegin e + 1 in
        if size =? num then (i, fbegin e)
        else if (num <? size) && (size <? bestMatchSize) then best_fit l' (i + 1) num i size (fbegin e)
        else best_fit l' (i + 1) num bestMatchIndex bestMatchSize bestMatchBegin
  end.

Definition allocOIDs (num : Z) : M t Z :=
  fl ← gets freelist;
  let '(bestMatchIndex, bestMatchBegin) := best_fit fl 0 num (-1) INT_MAX 0 in
  if bestMatchIndex =? -1 then fullScan num fl
  else
    fe ← lift (fun _ => aget fl bestMatchIndex);
    writeData (set_freelist (zset fl bestMatchIndex (useFreeListEntry fe num))) ;;
    flipOIDBlock bestMatchBegin num false ;;
    mret bestMatchBegin.

(** [initializeBitmap]; [cfg] is the configured first OID, if any. *)
Definition firstOID (cfg : option Z) : Z :=
  match cfg with
  | None => 3000
  | Some n => if (2147483647 <? n) || (n <? 0) then 3000 else n
  end.

Definition initializeBitmap (cfg : option Z) : M t unit :=
  writeData (set_freelist
    (mkFE (firstOID cfg) lastOID :: replicate (Z.to_nat (FreeListEntries - 1)) (mkFE (-1) (-1)))) ;;
  writeData (set_bitmap (replicate (Z.to_nat bitmapSize) 0)) ;;
  flipOIDBlock 0 (firstOID cfg) false ;;
  writeData (fun s => set_vbSection (splice 0 [0; 0] (vbSection s)) s).

(** *** Version-buffer OIDs *)
Definition loadVBOIDs : M t unit :=
  sz ← try_catch (readData vbSection 0 2) (fun e =>
    match e with
    | eof_exception => writeData (fun s => set_vbSection (splice 0 [0; 0] (vbSection s)) s) ;; mret [0; 0]
    | _ => throw e
    end);
  let size := le_val sz in
  if size =? 0 then mret tt
  else
    bs ← readData vbSection 2 (size * 2);
    modify (set_map ((fun i => le_val (take 2 (drop (2 * i) bs))) <$> seq 0 (Z.to_nat size))).

Definition allocVBOID (dbroot : Z) : M t Z :=
  n ← gets (fun s => zlen (vbOidDBRootMap s));
  modify (fun s => set_map (vbOidDBRootMap s ++ [dbroot]) s) ;;
  try_catch
    (let sz := u16 (n + 1) in
     writeData (fun s => set_vbSection (splice 0 (le_bytes 2 sz) (vbSection s)) s) ;;
     writeData (fun s => set_vbSection (splice (2 + n * 2) (le_bytes 2 dbroot) (vbSection s)) s))
    (fun e => modify (fun s => set_map (removelast (vbOidDBRootMap s)) s) ;; throw e) ;;
  mret n.

Definition getDBRootOfVBOID (vbOID : Z) (s : t) : Z :=
  match zget (vbOidDBRootMap s) vbOID with Some r => r | None => -1 end.

Fixpoint find_root (l : list Z) (i dbRoot : Z) : Z :=
  match l with
  | [] => -1
  | r :: l' => if r =? dbRoot then i else find_root l' (i + 1) dbRoot
  end.

Definition getVBOIDOfDBRoot (dbRoot : Z) (s : t) : Z := find_root (vbOidDBRootMap s) 0 dbRoot.

(** [size]: the number of allocated OIDs. *)
Fixpoint popcount (fuel : nat) (b mask : Z) : Z :=
  match fuel with
  | O => 0
  | S fuel' => (if Z.land b mask =? mask then 1 else 0) + popcount fuel' b (Z.shiftr mask 1)
  end.

Definition size (s : t) : Z := foldr (fun b n => popcount 8 b 0x80 + n) 0 (bitmap s).

(** [OIDServer()]: create the file or open it, then load the version-buffer map.
    [emEmpty] is the answer of [DBRM::isEMEmpty], [openOk] says whether the file
    can be opened. *)
Definition OIDServer (fFilename : string) (exists_ emEmpty openOk : bool) (cfg : option Z) : M t unit :=
  if String.eqb fFilename ""%string
  then throw (runtime_error "OIDServer: <OIDManager><OIDBitmapFile> must exist in the config file")
  else
    (if exists_ then
       if openOk then mret tt else throw (ios_failure "Couldn't open oid bitmap file")
     else if negb emEmpty then throw (runtime_error "Extent Map not empty and bitmap file not found")
     else if openOk then initializeBitmap cfg
     else throw (ios_failure "Couldn't create oid bitmap file")) ;;
    loadVBOIDs.

End OIDServer.
