(* ===== verification/OidThms.v ===== *)
(** * Lemmas on the OID server

    The bit-level verification of [flipOIDBlock], the scan for free OIDs, and the
    free-list invariant. *)
From S2P Require Import Prelude Hasher Bytes OidServer.
From stdpp Require Import prelude gmap strings.

Local Open Scope Z_scope.

Module OidThms.
Import OIDServer.

(** ** Bytes and their bits *)
Definition byte (b : Z) : Prop := 0 <= b /\ forall i, 8 <= i -> Z.testbit b i = false.

Lemma byte_range b : byte b <-> 0 <= b < 256.
Proof.
  split.
  - intros [H0 Hb]. split; [done|]. destruct (decide (b < 256)); [done|]. exfalso.
    assert (8 <= Z.log2 b) by (apply Z.log2_le_pow2; lia).
    pose proof (Z.bit_log2 b ltac:(lia)). rewrite Hb in *; done.
  - intros [H0 Hb]. split; [done|]. intros i Hi. apply Z.bits_above_log2; [done|].
    destruct (decide (b = 0)) as [->|]; [simpl; lia|]. apply Z.log2_lt_pow2; [lia|].
    assert (2 ^ 8 <= 2 ^ i) by (apply Z.pow_le_mono_r; lia). lia.
Qed.

Lemma byte_eq b c : byte b -> byte c -> (forall i, 0 <= i < 8 -> Z.testbit b i = Z.testbit c i) -> b = c.
Proof.
  intros [H0 Hb] [H1 Hc] H. apply Z.bits_inj'. intros i Hi.
  destruct (decide (i < 8)); [by apply H|]. rewrite Hb, Hc by lia. done.
Qed.

Lemma byte_0 : byte 0.
Proof. apply byte_range. lia. Qed.
Lemma byte_255 : byte 255.
Proof. apply byte_range. lia. Qed.

Lemma testbit_255 i : 0 <= i < 8 -> Z.testbit 255 i = true.
Proof. intros. change 255 with (Z.ones 8). by apply Z.ones_spec_low. Qed.

(** [full v]: the byte all of whose bits are [v]. *)
Definition full (v : bool) : Z := if v then 255 else 0.

Lemma byte_full v : byte (full v).
Proof. destruct v; [apply byte_255|apply byte_0]. Qed.

Lemma testbit_full v i : 0 <= i < 8 -> Z.testbit (full v) i = v.
Proof. intros. destruct v; simpl; [by apply testbit_255|by rewrite Z.bits_0]. Qed.

Lemma full_spec b v : byte b -> b = full v <-> forall i, 0 <= i < 8 -> Z.testbit b i = v.
Proof.
  intros Hb. split.
  - intros -> i Hi. by apply testbit_full.
  - intros H. apply byte_eq; [done|apply byte_full|]. intros i Hi. by rewrite H, testbit_full.
Qed.

(** The mask with [n] places left to go: bit [n - 1], or none. *)
Definition place (n : nat) : Z := match n with O => 0 | S j => 2 ^ Z.of_nat j end.

Lemma place_shift n : Z.shiftr (place (S n)) 1 = place n.
Proof.
  rewrite Z.shiftr_div_pow2 by lia. destruct n as [|n]; simpl; [done|].
  change (2 ^ 1) with 2. rewrite (Nat2Z.inj_succ n), Z.pow_succ_r by lia.
  rewrite Z.mul_comm. by apply Z.div_mul.
Qed.

Lemma place_pos n : 0 < place (S n).
Proof. simpl. apply Z.pow_pos_nonneg; lia. Qed.

Lemma testbit_place n i : 0 <= i -> Z.testbit (place (S n)) i = (Z.of_nat n =? i).
Proof. intros. simpl. apply Z.pow2_bits_eqb. lia. Qed.

Lemma land_place b n : Z.land b (place (S n)) = if Z.testbit b (Z.of_nat n) then place (S n) else 0.
Proof.
  apply Z.bits_inj'. intros i Hi. rewrite Z.land_spec, testbit_place by done.
  destruct (Z.eqb_spec (Z.of_nat n) i) as [<-|Hne].
  - destruct (Z.testbit b (Z.of_nat n)); [by rewrite testbit_place, Z.eqb_refl by lia|by rewrite Z.bits_0].
  - rewrite andb_false_r. destruct (Z.testbit b (Z.of_nat n)); [|by rewrite Z.bits_0].
    rewrite testbit_place by done. by destruct (Z.eqb_spec (Z.of_nat n) i).
Qed.

Lemma land_check b n (mode : bool) :
  (Z.land b (place (S n)) =? (if mode then place (S n) else 0)) = Bool.eqb (Z.testbit b (Z.of_nat n)) mode.
Proof.
  rewrite land_place. pose proof (place_pos n).
  destruct (Z.testbit b (Z.of_nat n)), mode; cbn [Bool.eqb]; (apply Z.eqb_eq || apply Z.eqb_neq); lia.
Qed.

(** ** The bit loops of flipOIDBlock *)
Definition flip_bit (b : Z) (n : nat) (mode : bool) : Z :=
  if mode then Z.land b (Z.lnot (place (S n))) else Z.lor b (place (S n)).

Lemma testbit_flip b n mode i :
  0 <= i -> Z.testbit (flip_bit b n mode) i = if Z.of_nat n =? i then negb mode else Z.testbit b i.
Proof.
  intros Hi. unfold flip_bit. destruct mode.
  - rewrite Z.land_spec, Z.lnot_spec, testbit_place by done.
    destruct (Z.of_nat n =? i); simpl; [apply andb_false_r|apply andb_true_r].
  - rewrite Z.lor_spec, testbit_place by done.
    destruct (Z.of_nat n =? i); simpl; [apply orb_true_r|apply orb_false_r].
Qed.

Lemma byte_flip b n mode : byte b -> (n < 8)%nat -> byte (flip_bit b n mode).
Proof.
  intros [H0 Hb] Hn. split.
  - unfold flip_bit. pose proof (place_pos n). destruct mode.
    + apply Z.land_nonneg. by left.
    + apply Z.lor_nonneg. lia.
  - intros i Hi. rewrite testbit_flip by lia. destruct (Z.eqb_spec (Z.of_nat n) i); [lia|]. by apply Hb.
Qed.

Lemma bounded_dec (P : Z -> bool) (v : bool) lo hi :
  (forall i, lo <= i < hi -> P i = v) \/ (exists i, lo <= i < hi /\ P i <> v).
Proof.
  destruct (decide (lo < hi)) as [Hlt|]; [|left; lia].
  assert (Hn : hi = lo + Z.of_nat (Z.to_nat (hi - lo))) by lia. rewrite Hn. clear Hlt Hn.
  induction (Z.to_nat (hi - lo)) as [|n [IH|(i & Hi & Hb)]].
  - left. lia.
  - destruct (bool_decide_reflect (P (lo + Z.of_nat n) = v)) as [E|E].
    + left. intros i Hi. destruct (decide (i = lo + Z.of_nat n)) as [->|]; [done|]. apply IH. lia.
    + right. exists (lo + Z.of_nat n). split; [lia|done].
  - right. exists i. split; [lia|done].
Qed.

(** The [k] places the loop visits when [n] places are left in the byte. *)
Definition visits (n : nat) (c num : Z) : Z := Z.min (Z.of_nat n) (num - c).

Lemma flip_bits_ok fuel n b c num mode :
  (n < fuel)%nat -> (n <= 8)%nat -> byte b -> c <= num ->
  (forall i, Z.of_nat n - visits n c num <= i < Z.of_nat n -> Z.testbit b i = mode) ->
  exists b', flip_bits fuel b (place n) c num mode = Val (Some (b', c + visits n c num)) /\ byte b' /\
    forall i, 0 <= i < 8 -> Z.testbit b' i =
      if (Z.of_nat n - visits n c num <=? i) && (i <? Z.of_nat n) then negb mode else Z.testbit b i.
Proof.
  unfold visits. revert n b c. induction fuel as [|fuel IH]; intros n b c Hf Hn Hb Hc Hbits; [lia|].
  simpl. destruct n as [|n].
  { exists b. simpl. rewrite Z.min_l by lia. split; [f_equal; f_equal; f_equal; lia|]. split; [done|].
    intros i Hi. zbool; try done; lia. }
  pose proof (place_pos n) as Hpos. destruct (Z.eqb_spec (place (S n)) 0); [lia|].
  destruct (Z.ltb_spec c num) as [Hlt|Hge]; cbn [negb andb].
  2: { exists b. rewrite Z.min_r by lia. split; [f_equal; f_equal; f_equal; lia|]. split; [done|].
       intros i Hi. zbool; try done; lia. }
  rewrite land_check, Hbits by lia. rewrite Bool.eqb_reflx, place_shift. fold (flip_bit b n mode).
  destruct (IH n (flip_bit b n mode) (c + 1)) as (b' & Hrun & Hb' & Hspec); [lia|lia| |lia| |].
  { apply byte_flip; [done|lia]. }
  { intros i Hi. rewrite testbit_flip by lia. destruct (Z.eqb_spec (Z.of_nat n) i); [lia|]. apply Hbits. lia. }
  exists b'. rewrite Hrun. split; [f_equal; f_equal; f_equal; lia|]. split; [done|].
  intros i Hi. rewrite Hspec, testbit_flip by lia.
  destruct (Z.eqb_spec (Z.of_nat n) i); zbool; try done; lia.
Qed.

Lemma flip_bits_bad fuel n b c num mode :
  (n < fuel)%nat -> (n <= 8)%nat -> c <= num ->
  (exists i, Z.of_nat n - visits n c num <= i < Z.of_nat n /\ Z.testbit b i <> mode) ->
  flip_bits fuel b (place n) c num mode = Val None.
Proof.
  unfold visits. revert n b c. induction fuel as [|fuel IH]; intros n b c Hf Hn Hc (i & Hi & Hbad); [lia|].
  simpl. destruct n as [|n]; [lia|].
  pose proof (place_pos n) as Hpos. destruct (Z.eqb_spec (place (S n)) 0); [lia|].
  destruct (Z.ltb_spec c num) as [Hlt|Hge]; cbn [negb andb]; [|lia].
  rewrite land_check. destruct (Bool.eqb _ mode) eqn:E; [|done]. apply eqb_prop in E.
  rewrite place_shift. fold (flip_bit b n mode). apply IH; [lia|lia|lia|].
  assert (i <> Z.of_nat n) by congruence. exists i. split; [lia|].
  rewrite testbit_flip by lia. destruct (Z.eqb_spec (Z.of_nat n) i); [lia|done].
Qed.

(** ** The bitmap *)
Definition oid_bit (bm : list Z) (o : Z) : bool :=
  match zget bm (o / 8) with Some b => Z.testbit b (7 - o mod 8) | None => false end.

Definition bm_ok (bm : list Z) : Prop := zlen bm = bitmapSize /\ Forall byte bm.

Lemma splice_app off bs l1 l2 l3 :
  off = zlen l1 -> length bs = length l2 -> splice off bs (l1 ++ l2 ++ l3) = l1 ++ bs ++ l3.
Proof.
  intros -> Hl. unfold splice, zlen. rewrite Nat2Z.id, resize_le by (rewrite length_app; lia).
  rewrite take_app_length. do 2 f_equal. rewrite Hl, app_assoc, <- length_app. by rewrite drop_app_length.
Qed.

(** The bytes [off], ..., [off + n - 1] of a region cut it in three. *)
Lemma cut3 (l : list Z) off n :
  0 <= off -> 0 <= n -> off + n <= zlen l ->
  exists l1 l2 l3, l = l1 ++ l2 ++ l3 /\ zlen l1 = off /\ zlen l2 = n /\
    take (Z.to_nat n) (drop (Z.to_nat off) l) = l2.
Proof.
  unfold zlen. intros H1 H2 H3.
  exists (take (Z.to_nat off) l), (take (Z.to_nat n) (drop (Z.to_nat off) l)), (drop (Z.to_nat (off + n)) l).
  split_and!.
  - rewrite Z2Nat.inj_add by lia. rewrite <- drop_drop, !take_drop. done.
  - rewrite length_take. lia.
  - rewrite length_take, length_drop. lia.
  - done.
Qed.

Lemma zget_app3 (l1 l2 l3 : list Z) j :
  zget (l1 ++ l2 ++ l3) j =
    if j <? zlen l1 then zget l1 j
    else if j <? zlen l1 + zlen l2 then zget l2 (j - zlen l1)
    else zget l3 (j - zlen l1 - zlen l2).
Proof.
  unfold zget, zlen. destruct (Z.ltb_spec j 0).
  { destruct (Z.ltb_spec j (Z.of_nat (length l1))); [|lia]. done. }
  destruct (Z.ltb_spec j (Z.of_nat (length l1))).
  { by rewrite lookup_app_l by lia. }
  rewrite lookup_app_r by lia.
  destruct (Z.ltb_spec j (Z.of_nat (length l1) + Z.of_nat (length l2))).
  - rewrite lookup_app_l by lia. destruct (Z.ltb_spec (j - Z.of_nat (length l1)) 0); [lia|]. f_equal. lia.
  - rewrite lookup_app_r by lia.
    destruct (Z.ltb_spec (j - Z.of_nat (length l1) - Z.of_nat (length l2)) 0); [lia|]. f_equal. lia.
Qed.

Lemma bm_ok_replace l1 l2 l2' l3 :
  bm_ok (l1 ++ l2 ++ l3) -> length l2' = length l2 -> Forall byte l2' -> bm_ok (l1 ++ l2' ++ l3).
Proof.
  intros [Hlen Hb] Hl Hb'. apply Forall_app in Hb as [? [? ?]%Forall_app]. split.
  - unfold zlen in *. rewrite !length_app in *. lia.
  - by rewrite !Forall_app.
Qed.

(** Replacing the middle part changes the bits of its OIDs only. *)
Lemma oid_bit_replace l1 l2 l2' l3 o :
  length l2' = length l2 ->
  oid_bit (l1 ++ l2' ++ l3) o =
    if (zlen l1 <=? o / 8) && (o / 8 <? zlen l1 + zlen l2)
    then match zget l2' (o / 8 - zlen l1) with Some b => Z.testbit b (7 - o mod 8) | None => false end
    else oid_bit (l1 ++ l2 ++ l3) o.
Proof.
  intros Hl. assert (Hz : zlen l2' = zlen l2) by (unfold zlen; lia).
  unfold oid_bit. rewrite !zget_app3, Hz. zbool; try done; lia.
Qed.

Lemma oid_bit_mid l1 l2 l3 o :
  zlen l1 <= o / 8 < zlen l1 + zlen l2 ->
  oid_bit (l1 ++ l2 ++ l3) o =
    match zget l2 (o / 8 - zlen l1) with Some b => Z.testbit b (7 - o mod 8) | None => false end.
Proof. intros. unfold oid_bit. rewrite zget_app3. zbool; try done; lia. Qed.

(** The loop over the middle bytes. *)
Lemma flip_bytes_ok l mode :
  Forall (fun b => b = full mode) l -> flip_bytes l mode = Some (replicate (length l) (full (negb mode))).
Proof.
  induction 1 as [|b l Hb _ IH]; [done|]. simpl. rewrite Hb.
  change (if mode then 255 else 0) with (full mode). rewrite Z.eqb_refl, IH. by destruct mode.
Qed.

Lemma flip_bytes_bad l mode :
  ~ Forall (fun b => b = full mode) l -> flip_bytes l mode = None.
Proof.
  induction l as [|b l IH]; intros H; [by destruct H|]. simpl.
  change (if mode then 255 else 0) with (full mode).
  destruct (Z.eqb_spec b (full mode)) as [->|]; [|done]. rewrite IH; [done|].
  intros Hl. apply H. by constructor.
Qed.

(** ** flipOIDBlock *)
Ltac Zify.zify_post_hook ::= Z.to_euclidean_division_equations.

Lemma first_mask start : 0 <= start -> Z.shiftr 0x80 (Z.rem start 8) = place (Z.to_nat (8 - start mod 8)).
Proof.
  intros H. rewrite Z.rem_mod_nonneg by lia. pose proof (Z.mod_pos_bound start 8 ltac:(lia)).
  assert (start mod 8 = 0 \/ start mod 8 = 1 \/ start mod 8 = 2 \/ start mod 8 = 3 \/
          start mod 8 = 4 \/ start mod 8 = 5 \/ start mod 8 = 6 \/ start mod 8 = 7) as E by lia.
  by repeat destruct E as [->|E]; [..|rewrite E].
Qed.

Lemma oid_split j i : 0 <= i < 8 -> (8 * j + (7 - i)) / 8 = j /\ (8 * j + (7 - i)) mod 8 = 7 - i.
Proof. intros. lia. Qed.

Definition block (start num o : Z) : bool := (start <=? o) && (o <? start + num).

(** The bytes [l2] of the block, all of whose OIDs are in state [mode]. *)
Definition all_in (l1 l2 l3 : list Z) (start num : Z) (mode : bool) : Prop :=
  forall o, start <= o < start + num -> oid_bit (l1 ++ l2 ++ l3) o = mode.

Definition flipped (l1 l2 l2' l3 : list Z) (start num : Z) (mode : bool) : Prop :=
  length l2' = length l2 /\ Forall byte l2' /\
  forall o, oid_bit (l1 ++ l2' ++ l3) o =
    if block start num o then negb mode else oid_bit (l1 ++ l2 ++ l3) o.

(** The bit of an OID in a one-byte, or first-byte, position. *)
Lemma bit_at l1 b l3 o : o / 8 = zlen l1 -> oid_bit (l1 ++ b :: l3) o = Z.testbit b (7 - o mod 8).
Proof.
  intros Ho. change (b :: l3) with ([b] ++ l3). rewrite oid_bit_mid by (unfold zlen; simpl; unfold zlen in Ho; lia).
  rewrite Ho, Z.sub_diag. done.
Qed.

Lemma flipped_single l1 b b' l3 start num mode :
  zlen l1 = start / 8 -> (start + num - 1) / 8 = start / 8 -> 0 <= start -> 1 <= num -> byte b' ->
  (forall i, 0 <= i < 8 -> Z.testbit b' i =
     if (Z.of_nat (Z.to_nat (8 - start mod 8)) - num <=? i) && (i <? Z.of_nat (Z.to_nat (8 - start mod 8)))
     then negb mode else Z.testbit b i) ->
  flipped l1 [b] [b'] l3 start num mode.
Proof.
  intros Hl1 He H0 Hn Hb' Hspec. split; [done|]. split; [by constructor|]. intros o.
  rewrite (oid_bit_replace l1 [b] [b'] l3) by done.
  assert (zlen [b] = 1) as -> by done. unfold block.
  destruct (Z.leb_spec (zlen l1) (o / 8)), (Z.ltb_spec (o / 8) (zlen l1 + 1)); cbn [andb];
    [|zbool; try done; lia..].
  replace (o / 8 - zlen l1) with 0 by lia. change (zget [b'] 0) with (Some b'). cbv iota beta.
  rewrite Hspec by lia. rewrite (bit_at l1 b l3) by lia. zbool; try done; lia.
Qed.

Lemma zget_ends (b0 bl : Z) (mid : list Z) j :
  zget (b0 :: mid ++ [bl]) j =
    if j =? 0 then Some b0 else if j =? 1 + zlen mid then Some bl else zget mid (j - 1).
Proof.
  change (b0 :: mid ++ [bl]) with ([b0] ++ mid ++ [bl]). rewrite zget_app3.
  assert (zlen [b0] = 1) as -> by done. assert (0 <= zlen mid) by (unfold zlen; lia).
  destruct (Z.ltb_spec j 1), (Z.eqb_spec j 0); try lia; subst; try done.
  - destruct (Z.eqb_spec j (1 + zlen mid)); [lia|]. unfold zget.
    destruct (Z.ltb_spec j 0); [|lia]. destruct (Z.ltb_spec (j - 1) 0); [done|lia].
  - destruct (Z.ltb_spec j (1 + zlen mid)), (Z.eqb_spec j (1 + zlen mid)); try lia; try done.
    + subst j. by replace (1 + zlen mid - 1 - zlen mid) with 0 by lia.
    + rewrite !zget_None; [done|lia|]. change (zlen [bl]) with 1. lia.
Qed.

Lemma zlen_one (l : list Z) : zlen l = 1 -> exists b, l = [b].
Proof. unfold zlen. destruct l as [|b [|]]; simpl; intros; [lia|by exists b|lia]. Qed.

Lemma zlen_ends (l : list Z) :
  2 <= zlen l -> exists b0 mid bl, l = b0 :: mid ++ [bl] /\ zlen mid = zlen l - 2.
Proof.
  unfold zlen. destruct l as [|b0 l]; [simpl; lia|]. intros Hl.
  destruct (exists_last (l := l)) as (mid & bl & ->); [by intros ->; simpl in Hl; lia|].
  exists b0, mid, bl. split; [done|]. simpl. rewrite length_app. simpl. lia.
Qed.

Lemma zset_last (b0 bl bl' : Z) (mid : list Z) :
  zset (b0 :: mid ++ [bl]) (1 + zlen mid) bl' = b0 :: mid ++ [bl'].
Proof.
  assert (0 <= zlen mid) by (unfold zlen; lia).
  apply zget_ext. intros j. rewrite zget_ends.
  assert (Hlen : zlen (b0 :: mid ++ [bl]) = zlen mid + 2) by (unfold zlen; simpl; rewrite length_app; simpl; lia).
  destruct (decide (j = 1 + zlen mid)) as [->|Hne].
  - rewrite zget_zset_eq by lia. zbool; try lia; done.
  - rewrite zget_zset_ne by lia. rewrite zget_ends. zbool; try lia; done.
Qed.

Lemma flipped_multi l1 b0 b0' mid bl bl' l3 start num mode :
  zlen l1 = start / 8 -> zlen mid = (start + num - 1) / 8 - start / 8 - 1 -> 0 <= start -> 1 <= num ->
  byte b0' -> byte bl' ->
  (forall i, 0 <= i < 8 -> Z.testbit b0' i = if i <? 8 - start mod 8 then negb mode else Z.testbit b0 i) ->
  (forall i, 0 <= i < 8 ->
     Z.testbit bl' i = if 7 - (start + num - 1) mod 8 <=? i then negb mode else Z.testbit bl i) ->
  flipped l1 (b0 :: mid ++ [bl]) (b0' :: replicate (length mid) (full (negb mode)) ++ [bl']) l3 start num mode.
Proof.
  intros Hl1 Hmid H0 Hn Hb0' Hbl' Hspec0 Hspecl. set (mid' := replicate _ _).
  assert (Hlm : length mid' = length mid) by apply length_replicate.
  assert (Hzm : zlen mid' = zlen mid) by (unfold zlen; lia).
  assert (0 <= zlen mid) by (unfold zlen; lia).
  assert (Hl : length (b0' :: mid' ++ [bl']) = length (b0 :: mid ++ [bl])).
  { simpl. rewrite !length_app. simpl. lia. }
  assert (Hz : zlen (b0 :: mid ++ [bl]) = zlen mid + 2).
  { unfold zlen. simpl. rewrite length_app. simpl. lia. }
  split; [done|]. split.
  { constructor; [done|]. apply Forall_app. split; [|by constructor].
    apply Forall_replicate, byte_full. }
  intros o. rewrite (oid_bit_replace l1 (b0 :: mid ++ [bl])) by done. rewrite Hz. unfold block.
  destruct (Z.leb_spec (zlen l1) (o / 8)), (Z.ltb_spec (o / 8) (zlen l1 + (zlen mid + 2))); cbn [andb];
    [|zbool; try done; lia..].
  rewrite (oid_bit_mid l1 (b0 :: mid ++ [bl])) by (rewrite Hz; lia).
  rewrite !zget_ends, Hzm. destruct (Z.eqb_spec (o / 8 - zlen l1) 0).
  { rewrite Hspec0 by lia. zbool; try done; lia. }
  destruct (Z.eqb_spec (o / 8 - zlen l1) (1 + zlen mid)).
  { rewrite Hspecl by lia. zbool; try done; lia. }
  unfold mid'. rewrite zget_replicate by (unfold zlen in *; lia).
  rewrite testbit_full by lia. zbool; try done; lia.
Qed.

(** The block from bit [p] of byte [q] to bit [r] of byte [e]. *)
Section flip.
Context (q p e r : Z) (mode : bool) (s : t) (l1 l2 l3 : list Z).
Abbreviation start := (8 * q + p).
Abbreviation num := (8 * e + r - (8 * q + p) + 1).
Hypotheses (Hq : 0 <= q) (Hp : 0 <= p < 8) (Hr : 0 <= r < 8) (Hnum : 1 <= num)
  (Hmax : 8 * e + r <= lastOID)
  (Hbm : bitmap s = l1 ++ l2 ++ l3) (Hl1 : zlen l1 = q) (Hl2 : zlen l2 = e - q + 1)
  (Hbytes : Forall byte l2).

Lemma flip_read : readData bitmap q (e - q + 1) s = (Val l2, s).
Proof.
  unfold readData. destruct (Z.eqb_spec (e - q + 1) 0); [lia|].
  destruct (Z.ltb_spec q 0); [lia|]. rewrite Hbm, <- Hl2, <- Hl1.
  unfold zlen. rewrite !Nat2Z.id, drop_app_length, take_app_length. by rewrite Z.eqb_refl.
Qed.

(** The bit [i] of the [j]-th byte of the block. *)
Lemma block_bit j b i :
  zget l2 j = Some b -> 0 <= i < 8 -> Z.testbit b i = oid_bit (l1 ++ l2 ++ l3) (8 * (q + j) + (7 - i)).
Proof.
  intros Hj Hi. pose proof (zget_Some_range _ _ _ Hj). destruct (oid_split (q + j) i Hi) as [Hd Hm].
  rewrite oid_bit_mid by (rewrite Hd; lia). rewrite Hd, Hm, Hl1.
  replace (q + j - q) with j by lia. rewrite Hj. f_equal. lia.
Qed.

Lemma block_byte j b : zget l2 j = Some b -> byte b.
Proof.
  intros Hj. unfold zget in Hj. destruct (j <? 0); [done|]. by eapply Forall_lookup_1.
Qed.

(** The rest of the operation once the buffer is read. *)
Lemma flip_unfold :
  flipOIDBlock start num mode s =
  (let write buf := writeData (fun s => set_bitmap (splice q buf (bitmap s)) s) in
   b0 ← lift (fun _ => aget l2 0);
   first ← lift (fun _ => flip_bits 9 b0 (place (Z.to_nat (8 - p))) 0 num mode);
   match first with
   | None => throw (bad_flip "(1)")
   | Some (b0', oidCount) =>
       let buf := zset l2 0 b0' in
       if oidCount =? num then write buf
       else
         let middle := take (Z.to_nat (e - q + 1 - 2)) (drop 1 buf) in
         match flip_bytes middle mode with
         | None => throw (bad_flip "(2)")
         | Some middle' =>
             let oidCount := oidCount + 8 * zlen middle in
             let buf := splice 1 middle' buf in
             bl ← lift (fun _ => aget buf (e - q + 1 - 1));
             last ← lift (fun _ => flip_bits 9 bl (place 8) oidCount num mode);
             match last with
             | None =>
                 throw (logic_error (if mode then "flipOIDBlock: bad deallocation attempted"
                                     else "flipOIDBlock: bad allocation attempted"))
             | Some (bl', oidCount) =>
                 let buf := zset buf (e - q + 1 - 1) bl' in
                 if oidCount =? num then write buf
                 else throw (logic_error "logic error in flipOIDBlock detected")
             end
         end
   end) s.
Proof.
  unfold flipOIDBlock. destruct (Z.ltb_spec lastOID (start + num - 1)); [lia|].
  rewrite first_mask by lia. cbv zeta. rewrite !Z.quot_div_nonneg by lia.
  replace ((8 * q + p) / 8) with q by lia. replace ((8 * q + p) mod 8) with p by lia.
  replace (start + num - 1) with (8 * e + r) by lia. replace ((8 * e + r) / 8) with e by lia.
  by rewrite (bind_Val _ _ _ _ _ flip_read).
Qed.

(** The first byte: verified and flipped, or the operation throws. *)
Abbreviation k0 := (Z.min (8 - p) num).

Lemma first_cases b0 :
  zget l2 0 = Some b0 ->
  (exists b0', flip_bits 9 b0 (place (Z.to_nat (8 - p))) 0 num mode = Val (Some (b0', k0)) /\
     byte b0' /\ (forall i, 8 - p - k0 <= i < 8 - p -> Z.testbit b0 i = mode) /\
     forall i, 0 <= i < 8 -> Z.testbit b0' i =
       if (8 - p - k0 <=? i) && (i <? 8 - p) then negb mode else Z.testbit b0 i) \/
  (flip_bits 9 b0 (place (Z.to_nat (8 - p))) 0 num mode = Val None /\
   exists o, start <= o < start + num /\ oid_bit (l1 ++ l2 ++ l3) o <> mode).
Proof.
  intros Hb0.
  assert (Hk : visits (Z.to_nat (8 - p)) 0 num = k0) by (unfold visits; lia).
  assert (Hn : Z.of_nat (Z.to_nat (8 - p)) = 8 - p) by lia.
  destruct (bounded_dec (Z.testbit b0) mode (8 - p - k0) (8 - p)) as [Hall|(i & Hi & Hbad)].
  - left. destruct (flip_bits_ok 9 (Z.to_nat (8 - p)) b0 0 num mode) as (b0' & Hrun & Hb0' & Hspec);
      [lia|lia|by eapply block_byte|lia|by rewrite Hk, Hn|].
    exists b0'. rewrite Hrun, Hk. split; [done|]. split; [done|]. split; [done|]. intros i Hi.
    by rewrite Hspec, Hk, Hn by done.
  - right. split.
    + apply flip_bits_bad; [lia|lia|lia|]. exists i. by rewrite Hk, Hn.
    + exists (8 * (q + 0) + (7 - i)). split; [lia|]. rewrite <- (block_bit 0 b0 i Hb0) by lia. done.
Qed.

(** The last byte of a block of several. *)
Lemma last_cases bl :
  q < e -> zget l2 (e - q) = Some bl ->
  (exists bl', flip_bits 9 bl (place 8) (8 - p + 8 * (e - q - 1)) num mode = Val (Some (bl', num)) /\
     byte bl' /\ (forall i, 7 - r <= i < 8 -> Z.testbit bl i = mode) /\
     forall i, 0 <= i < 8 -> Z.testbit bl' i = if 7 - r <=? i then negb mode else Z.testbit bl i) \/
  (flip_bits 9 bl (place 8) (8 - p + 8 * (e - q - 1)) num mode = Val None /\
   exists o, start <= o < start + num /\ oid_bit (l1 ++ l2 ++ l3) o <> mode).
Proof.
  intros Hlt Hbl. set (c := 8 - p + 8 * (e - q - 1)).
  assert (Hk : visits 8 c num = r + 1) by (unfold visits, c; lia).
  assert (Hc : c + (r + 1) = num) by (unfold c; lia).
  destruct (bounded_dec (Z.testbit bl) mode (7 - r) 8) as [Hall|(i & Hi & Hbad)].
  - left. destruct (flip_bits_ok 9 8 bl c num mode) as (bl' & Hrun & Hbl' & Hspec);
      [lia|lia|by eapply block_byte|lia|intros i Hi; rewrite Hk in Hi; apply Hall; lia|].
    exists bl'. rewrite Hrun, Hk, Hc. split; [done|]. split; [done|]. split; [done|]. intros i Hi.
    rewrite Hspec, Hk by done. zbool; try done; lia.
  - right. split.
    + apply flip_bits_bad; [lia|lia|lia|]. exists i. rewrite Hk. split; [lia|done].
    + exists (8 * (q + (e - q)) + (7 - i)). split; [lia|]. rewrite <- (block_bit (e - q) bl i Hbl) by lia. done.
Qed.

(** The bytes in between. *)
Lemma middle_cases b0 mid bl :
  l2 = b0 :: mid ++ [bl] ->
  Forall (fun b => b = full mode) mid \/
  (~ Forall (fun b => b = full mode) mid /\
   exists o, start <= o < start + num /\ oid_bit (l1 ++ l2 ++ l3) o <> mode).
Proof.
  intros El2. destruct (decide (Forall (fun b => b = full mode) mid)) as [H|H]; [by left|right].
  split; [done|]. apply not_Forall_Exists in H; [|intros x; apply _].
  apply Exists_exists in H as (b & Hb & Hne). apply list_elem_of_lookup in Hb as [k Hk].
  pose proof (lookup_lt_Some _ _ _ Hk) as Hlt.
  assert (Hz : zlen l2 = zlen mid + 2) by (rewrite El2; unfold zlen; simpl; rewrite length_app; simpl; lia).
  assert (Hg : zget l2 (1 + Z.of_nat k) = Some b).
  { rewrite El2, zget_ends. destruct (Z.eqb_spec (1 + Z.of_nat k) 0); [lia|].
    destruct (Z.eqb_spec (1 + Z.of_nat k) (1 + zlen mid)); [unfold zlen in *; lia|].
    unfold zget. destruct (Z.ltb_spec (1 + Z.of_nat k - 1) 0); [lia|].
    by replace (Z.to_nat (1 + Z.of_nat k - 1)) with k by lia. }
  destruct (bounded_dec (Z.testbit b) mode 0 8) as [Hall|(i & Hi & Hbad)].
  { exfalso. apply Hne. apply full_spec; [by eapply block_byte|done]. }
  exists (8 * (q + (1 + Z.of_nat k)) + (7 - i)). split; [unfold zlen in *; lia|].
  by rewrite <- (block_bit _ b i Hg).
Qed.

Lemma all_in_bits :
  (forall j b i, zget l2 j = Some b -> 0 <= i < 8 ->
     start <= 8 * (q + j) + (7 - i) < start + num -> Z.testbit b i = mode) ->
  all_in l1 l2 l3 start num mode.
Proof.
  intros H o Ho. destruct (zget_is_Some l2 (o / 8 - q)) as [b Hb]; [lia|].
  assert (Ho' : o = 8 * (q + (o / 8 - q)) + (7 - (7 - o mod 8))) by lia.
  rewrite Ho'. rewrite <- (block_bit _ b) by (done || lia). apply (H _ _ _ Hb); lia.
Qed.

Definition flip_done : Prop :=
  all_in l1 l2 l3 start num mode /\
  exists l2', flipOIDBlock start num mode s =
      writeData (fun s => set_bitmap (splice q l2' (bitmap s)) s) s /\
    flipped l1 l2 l2' l3 start num mode.
Definition flip_refused : Prop :=
  (exists ex, flipOIDBlock start num mode s = (Exn ex, s)) /\
  exists o, start <= o < start + num /\ oid_bit (l1 ++ l2 ++ l3) o <> mode.

Lemma flip_single : q = e -> flip_done \/ flip_refused.
Proof.
  intros Hqe. destruct (zlen_one l2) as [b0 El2]; [lia|].
  unfold flip_done, flip_refused. rewrite flip_unfold. cbv zeta.
  assert (Hb0 : zget l2 0 = Some b0) by (by rewrite El2).
  rewrite (bind_Val _ _ s b0 s) by (unfold lift; by rewrite (proj2 (aget_Val _ _ _) Hb0)).
  destruct (first_cases b0 Hb0) as [(b0' & Hrun & Hb0' & Hold & Hspec)|[Hrun Hbad]].
  - left. split.
    { apply all_in_bits. intros j b i Hj Hi Ho. pose proof (zget_Some_range _ _ _ Hj).
      assert (j = 0) as -> by lia. simplify_eq. apply Hold. lia. }
    rewrite (bind_Val _ _ s (Some (b0', k0)) s) by (unfold lift; by rewrite Hrun).
    destruct (Z.eqb_spec k0 num) as [E|E]; [|lia]. exists [b0']. split; [by rewrite El2|].
    rewrite El2. apply flipped_single; try lia; [done|]. intros i Hi. rewrite Hspec by done.
    replace ((8 * q + p) mod 8) with p by lia. zbool; try done; lia.
  - right. rewrite (bind_Val _ _ s None s) by (unfold lift; by rewrite Hrun). split; [by eexists|done].
Qed.

Lemma several_all_in b0 mid bl :
  l2 = b0 :: mid ++ [bl] -> zlen mid = e - q - 1 -> 0 <= zlen mid ->
  (forall i, 0 <= i < 8 - p -> Z.testbit b0 i = mode) ->
  Forall (fun b => b = full mode) mid ->
  (forall i, 7 - r <= i < 8 -> Z.testbit bl i = mode) ->
  all_in l1 l2 l3 start num mode.
Proof.
  intros El2 Hzm Hz H0 Hm Hl. apply all_in_bits. intros j b i Hj Hi Ho.
  rewrite El2, zget_ends in Hj. destruct (Z.eqb_spec j 0); [simplify_eq; apply H0; lia|].
  destruct (Z.eqb_spec j (1 + zlen mid)); [simplify_eq; apply Hl; lia|].
  unfold zget in Hj. destruct (j - 1 <? 0); [done|].
  rewrite (Forall_lookup_1 _ _ _ _ Hm Hj). by apply testbit_full.
Qed.

Lemma flip_several : q < e -> flip_done \/ flip_refused.
Proof.
  intros Hqe. destruct (zlen_ends l2) as (b0 & mid & bl & El2 & Hzm); [lia|].
  rewrite Hl2 in Hzm. replace (e - q + 1 - 2) with (e - q - 1) in Hzm by lia.
  unfold flip_done, flip_refused. rewrite flip_unfold. cbv zeta.
  assert (Hb0 : zget l2 0 = Some b0) by (by rewrite El2).
  assert (Hbl : zget l2 (e - q) = Some bl) by (rewrite El2, zget_ends; zbool; try lia; done).
  rewrite (bind_Val _ _ s b0 s) by (unfold lift; by rewrite (proj2 (aget_Val _ _ _) Hb0)).
  destruct (first_cases b0 Hb0) as [(b0' & Hrun & Hb0' & Hold & Hspec)|[Hrun Hbad]].
  2: { right. rewrite (bind_Val _ _ s None s) by (unfold lift; by rewrite Hrun). split; [by eexists|done]. }
  rewrite (bind_Val _ _ s (Some (b0', k0)) s) by (unfold lift; by rewrite Hrun).
  assert (Hk0 : k0 = 8 - p) by lia. rewrite Hk0 in *. destruct (Z.eqb_spec (8 - p) num) as [E|E]; [lia|].
  assert (Hset0 : zset l2 0 b0' = b0' :: mid ++ [bl]) by (by rewrite El2). rewrite Hset0.
  assert (Htake : take (Z.to_nat (e - q + 1 - 2)) (drop 1 (b0' :: mid ++ [bl])) = mid).
  { simpl. replace (Z.to_nat _) with (length mid) by (unfold zlen in Hzm; lia). apply take_app_length. }
  rewrite Htake. destruct (middle_cases b0 mid bl El2) as [Hfull|[Hnf Hbad]].
  2: { right. rewrite flip_bytes_bad by done. split; [by eexists|done]. }
  rewrite flip_bytes_ok by done. set (mid' := replicate _ _).
  assert (Hzm' : zlen mid' = zlen mid) by apply zlen_replicate.
  assert (Hsp : splice 1 mid' (b0' :: mid ++ [bl]) = b0' :: mid' ++ [bl]).
  { change (b0' :: mid ++ [bl]) with ([b0'] ++ mid ++ [bl]). rewrite splice_app; [done|done|].
    apply length_replicate. }
  rewrite Hsp, Hzm. replace (e - q + 1 - 1) with (1 + zlen mid') by lia.
  assert (Hlast : zget (b0' :: mid' ++ [bl]) (1 + zlen mid') = Some bl).
  { rewrite zget_ends. assert (0 <= zlen mid') by lia. zbool; try lia; done. }
  rewrite (bind_Val _ _ s bl s) by (unfold lift; by rewrite (proj2 (aget_Val _ _ _) Hlast)).
  destruct (last_cases bl Hqe Hbl) as [(bl' & Hrun2 & Hbl' & Hold2 & Hspec2)|[Hrun2 Hbad]].
  2: { right. rewrite (bind_Val _ _ s None s) by (unfold lift; by rewrite Hrun2). split; [by eexists|done]. }
  left. split.
  { apply (several_all_in b0 mid bl); try done; [lia|]. intros i Hi. apply Hold. lia. }
  rewrite (bind_Val _ _ s (Some (bl', num)) s) by (unfold lift; by rewrite Hrun2).
  rewrite Z.eqb_refl, zset_last by lia. eexists. split; [done|]. rewrite El2.
  apply flipped_multi; try done; try lia.
  - intros i Hi. rewrite Hspec by done. replace ((8 * q + p) mod 8) with p by lia. zbool; try done; lia.
  - intros i Hi. rewrite Hspec2 by done. replace (start + num - 1) with (8 * e + r) by lia.
    by replace ((8 * e + r) mod 8) with r by lia.
Qed.
End flip.

(** [flipOIDBlock] on a bitmap: all the bits of the block are in state [mode] and
    exactly they are flipped, or one is not and nothing is written. *)
Lemma flipOIDBlock_cases start num mode s :
  bm_ok (bitmap s) -> 0 <= start -> 1 <= num -> start + num - 1 <= lastOID ->
  ((forall o, start <= o < start + num -> oid_bit (bitmap s) o = mode) /\
   exists bm', flipOIDBlock start num mode s = writeData (set_bitmap bm') s /\ bm_ok bm' /\
     forall o, oid_bit bm' o = if block start num o then negb mode else oid_bit (bitmap s) o) \/
  ((exists o, start <= o < start + num /\ oid_bit (bitmap s) o <> mode) /\
   exists ex, flipOIDBlock start num mode s = (Exn ex, s)).
Proof.
  intros [Hlen Hbytes] H0 Hn Hmax.
  set (q := start / 8). set (p := start mod 8). set (e := (start + num - 1) / 8). set (r := (start + num - 1) mod 8).
  destruct (cut3 (bitmap s) q (e - q + 1)) as (l1 & l2 & l3 & Hbm & Hl1 & Hl2 & _); [lia|lia| |].
  { rewrite Hlen. unfold q, e, lastOID, bitmapSize in *. lia. }
  assert (Es : start = 8 * q + p) by lia. assert (En : num = 8 * e + r - (8 * q + p) + 1) by lia.
  assert (Hb2 : Forall byte l2).
  { rewrite Hbm in Hbytes. by apply Forall_app in Hbytes as [_ [? _]%Forall_app]. }
  assert (Hcases : flip_done q p e r mode s l1 l2 l3 \/ flip_refused q p e r mode s l1 l2 l3).
  { destruct (decide (q = e)) as [Heq|Hne].
    - apply flip_single; try done; lia.
    - apply flip_several; try done; lia. }
  rewrite Hbm. unfold flip_done, flip_refused, all_in in Hcases. rewrite <- En, <- Es in Hcases.
  destruct Hcases as [(Hall & l2' & Hrun & Hlen' & Hb' & Hspec)|[Hex Hbad]]; [left|by right].
  split; [done|]. exists (l1 ++ l2' ++ l3). split; [|split].
  - rewrite Hrun. unfold writeData. rewrite Hbm, splice_app by done. done.
  - eapply bm_ok_replace; [|done|done]. rewrite <- Hbm. by split.
  - done.
Qed.
End OidThms.
