(* ===== verification/OidClaims.v ===== *)
(** * Properties of the OID server

    [flipOIDBlock] is all or nothing; an allocation returns OIDs that were free,
    marks exactly them, keeps the free list in agreement with the bitmap and only
    fails when no run of free OIDs is long enough. *)

From S2P Require Import Prelude Hasher Bytes OidServer OidThms.
From stdpp Require Import prelude gmap strings.
Local Open Scope Z_scope.

(** ** The OID server's scan for free OIDs

    [fullScan] finds the first run of free OIDs that is long enough, and starts
    it right after an allocated OID. *)

Ltac Zify.zify_post_hook ::= Z.to_euclidean_division_equations.

Module OidScan.
Import OIDServer OidThms.

Section scan.
Context (bm : list Z) (num : Z).
Hypotheses (Hbm : bm_ok bm) (Hnum : 1 <= num).
Abbreviation P := (oid_bit bm).

(** No run of [num] free OIDs ends at or before [o]. *)
Definition nofit (o : Z) : Prop :=
  forall x, 0 <= x -> x + num <= o -> exists y, x <= y < x + num /\ P y = true.

(** The run starts the bitmap or follows an allocated OID. *)
Definition after_used (s : Z) : Prop := s = 0 \/ P (s - 1) = true.

Definition skip_inv (o : Z) : Prop := nofit o /\ after_used o.

Record count_inv (o s c : Z) : Prop := {
  ci_count : 1 <= c <= num;
  ci_pos : s + c = o;
  ci_start : 0 <= s;
  ci_free : forall y, s <= y < o -> P y = false;
  ci_after : after_used s;
  ci_nofit : nofit (o - 1) }.

Record found (s : Z) : Prop := {
  fo_start : 0 <= s;
  fo_free : forall y, s <= y < s + num -> P y = false;
  fo_after : after_used s;
  fo_room : s + num <= 8 * bitmapSize }.

(** What one byte, the [i]-th, leaves. *)
Definition scan_post (i : Z) (r : scan) : Prop :=
  match r with
  | Found s => found s
  | Next false _ _ => skip_inv (8 * i)
  | Next true s c => count_inv (8 * i) s c /\ c < num
  end.

Lemma nofit_used o : nofit o -> P o = true -> nofit (o + 1).
Proof.
  intros H Ho x Hx Hle. destruct (decide (x + num <= o)); [by apply H|].
  exists o. split; [lia|done].
Qed.

Lemma count_nofit o s c : count_inv o s c -> c < num -> nofit o.
Proof.
  intros [] Hc x Hx Hle. destruct (decide (x + num <= o - 1)); [by apply ci_nofit0|].
  destruct ci_after0 as [->|Hs]; [lia|]. exists (s - 1). split; [lia|done].
Qed.

Lemma byte_bit i b o : zget bm i = Some b -> 0 <= o < 8 -> Z.testbit b (7 - o) = P (8 * i + o).
Proof.
  intros Hb Ho. unfold oid_bit. replace ((8 * i + o) / 8) with i by lia.
  rewrite Hb. f_equal. lia.
Qed.

Lemma check_used b (k : nat) :
  (k < 8)%nat -> (Z.land b (place (8 - k)) =? place (8 - k)) = Z.testbit b (7 - Z.of_nat k).
Proof.
  intros Hk. replace (8 - k)%nat with (S (7 - k)) by lia.
  rewrite (land_check b (7 - k) true). replace (Z.of_nat (7 - k)) with (7 - Z.of_nat k) by lia.
  by destruct (Z.testbit _ _).
Qed.

Lemma check_free b (k : nat) :
  (k < 8)%nat -> (Z.land b (place (8 - k)) =? 0) = negb (Z.testbit b (7 - Z.of_nat k)).
Proof.
  intros Hk. replace (8 - k)%nat with (S (7 - k)) by lia.
  rewrite (land_check b (7 - k) false). replace (Z.of_nat (7 - k)) with (7 - Z.of_nat k) by lia.
  by destruct (Z.testbit _ _).
Qed.

Lemma shift_mask (k : nat) : (k < 8)%nat -> Z.shiftr (place (8 - k)) 1 = place (8 - S k).
Proof. intros Hk. replace (8 - k)%nat with (S (8 - S k)) by lia. apply place_shift. Qed.

Lemma found_of o s c i : count_inv o s c -> c = num -> o <= 8 * (i + 1) -> i < bitmapSize -> found s.
Proof. intros [] -> Ho Hi. constructor; try done; [|lia]. intros y Hy. apply ci_free0. lia. Qed.

Lemma scan_bits_spec fuel l b i (k : nat) s c :
  zget bm i = Some b -> (k <= 8)%nat ->
  (match l with Skip => 2 * (8 - k) + 1 | Count => 2 * (8 - k) + 2 end <= fuel)%nat ->
  match l with
  | Skip =>
      nofit (8 * i + Z.of_nat k) /\
      (after_used (8 * i + Z.of_nat k) \/ (k < 8)%nat /\ P (8 * i + Z.of_nat k) = true)
  | Count => count_inv (8 * i + Z.of_nat k) s c
  end ->
  exists r, scan_bits fuel l b i (place (8 - k)) (Z.of_nat k) s c num = Val r /\ scan_post (i + 1) r.
Proof.
  intros Hb. pose proof (zget_Some_range _ _ _ Hb) as Hir. destruct Hbm as [Hlen _]. rewrite Hlen in Hir.
  revert l k s c. induction fuel as [|fuel IH]; intros l k s c Hk Hf Hinv; [destruct l; lia|].
  destruct (decide (k = 8%nat)) as [->|Hk8].
  { destruct l; simpl; rewrite Z.land_0_r; cbn.
    - eexists. split; [done|]. simpl. replace (8 * (i + 1)) with (8 * i + Z.of_nat 8) by lia.
      destruct Hinv as [? [|[? _]]]; [done|lia].
    - replace (8 * i + Z.of_nat 8) with (8 * (i + 1)) in Hinv by lia.
      destruct (Z.eqb_spec c num).
      { exists (Found s). split; [done|]. eapply (found_of _ s c i); try done; lia. }
      eexists. split; [done|]. split; [done|]. destruct Hinv. lia. }
  assert (Hbit : Z.testbit b (7 - Z.of_nat k) = P (8 * i + Z.of_nat k)) by (apply byte_bit; [done|lia]).
  assert (Hlt : (Z.of_nat k <? 8) = true) by (apply Z.ltb_lt; lia).
  assert (Hne : (Z.of_nat k =? 8) = false) by (apply Z.eqb_neq; lia).
  assert (Hsucc : Z.of_nat k + 1 = Z.of_nat (S k)) by lia.
  assert (Hpos : 8 * i + Z.of_nat (S k) = 8 * i + Z.of_nat k + 1) by lia.
  destruct l; cbn [scan_bits].
  - rewrite check_used, Hbit, Hlt, Hne, shift_mask, Hsucc by lia. cbn [andb].
    destruct Hinv as [Hnf Haft]. destruct (P (8 * i + Z.of_nat k)) eqn:HP; cbn [andb].
    + apply IH; [lia|lia|]. rewrite Hpos. split; [by apply nofit_used|]. left. right.
      by replace (8 * i + Z.of_nat k + 1 - 1) with (8 * i + Z.of_nat k) by lia.
    + destruct Haft as [Haft|[_ ?]]; [|congruence].
      apply IH; [lia|lia|]. rewrite Hpos. constructor; try lia.
      * intros y Hy. by replace y with (8 * i + Z.of_nat k) by lia.
      * by replace (i * 8 + Z.of_nat k) with (8 * i + Z.of_nat k) by lia.
      * by replace (8 * i + Z.of_nat k + 1 - 1) with (8 * i + Z.of_nat k) by lia.
  - rewrite check_free, Hbit, Hlt, Hne, shift_mask, Hsucc by lia.
    destruct (Z.ltb_spec c num) as [Hc|Hc].
    + destruct (P (8 * i + Z.of_nat k)) eqn:HP; cbn [andb negb].
      * destruct (Z.eqb_spec c num); [lia|]. apply IH; [lia|lia|].
        split; [by eapply count_nofit|]. right. split; [lia|done].
      * apply IH; [lia|lia|]. rewrite Hpos. pose proof (count_nofit _ _ _ Hinv Hc) as Hnf.
        destruct Hinv. constructor; try lia; try done.
        -- intros y Hy. destruct (decide (y = 8 * i + Z.of_nat k)) as [->|]; [done|]. apply ci_free0. lia.
        -- by replace (8 * i + Z.of_nat k + 1 - 1) with (8 * i + Z.of_nat k) by lia.
    + rewrite andb_false_r. destruct (Z.eqb_spec c num); [|destruct Hinv; lia].
      exists (Found s). split; [done|]. eapply (found_of _ s c i); try done; lia.
Qed.

(** The state handed from byte to byte. *)
Definition carry (i : Z) (cz : bool) (s c : Z) : Prop := scan_post i (Next cz s c).

Lemma scan_byte_spec b i cz s c :
  zget bm i = Some b -> carry i cz s c ->
  exists r, scan_byte b i cz s c num = Val r /\ scan_post (i + 1) r.
Proof.
  intros Hb Hc. unfold scan_byte. destruct cz.
  - destruct Hc as [Hc _]. replace (8 * i) with (8 * i + Z.of_nat 0) in Hc by lia.
    by apply (scan_bits_spec 18 Count b i 0 s c); [|lia|simpl; lia|].
  - destruct Hc as [Hnf Haft]. destruct (Z.eqb_spec b 0xff) as [E|E]; cbn [negb].
    + exists (Next false s c). split; [done|].
      assert (Hones : forall k, 0 <= k < 8 -> P (8 * i + k) = true).
      { intros k Hk. rewrite <- (byte_bit i b) by (done || lia). rewrite E. apply testbit_255. lia. }
      split.
      * intros x Hx Hle. destruct (decide (x + num <= 8 * i)); [by apply Hnf|].
        exists (x + num - 1). split; [lia|].
        replace (x + num - 1) with (8 * i + (x + num - 1 - 8 * i)) by lia. apply Hones. lia.
      * right. replace (8 * (i + 1) - 1) with (8 * i + 7) by lia. apply Hones. lia.
    + apply (scan_bits_spec 18 Skip b i 0 s c); [done|lia|simpl; lia|].
      replace (8 * i + Z.of_nat 0) with (8 * i) by lia. split; [done|by left].
Qed.

Lemma scan_buf_spec buf i cz s c :
  (forall j b, zget buf j = Some b -> zget bm (i + j) = Some b) -> carry i cz s c ->
  exists r, scan_buf buf i cz s c num = Val r /\ scan_post (i + zlen buf) r.
Proof.
  revert i cz s c. induction buf as [|b buf IH]; intros i cz s c Hbuf Hc.
  - exists (Next cz s c). split; [done|]. by rewrite Z.add_0_r.
  - simpl. destruct (scan_byte_spec b i cz s c) as (r & Hrun & Hr).
    + rewrite <- (Z.add_0_r i). by apply Hbuf.
    + done.
    + rewrite Hrun. simpl. destruct r as [st|cz' s' c'].
      * by exists (Found st).
      * destruct (IH (i + 1) cz' s' c') as (r2 & Hrun2 & Hr2); [|done|].
        -- intros j b' Hj. rewrite <- Z.add_assoc. apply Hbuf. pose proof (zget_Some_range _ _ _ Hj).
           apply zget_cons. right. split; [lia|]. by replace (1 + j - 1) with j by lia.
        -- exists r2. split; [done|]. replace (i + zlen (b :: buf)) with (i + 1 + zlen buf); [done|].
           unfold zlen. simpl. lia.
Qed.

Lemma carry_nofit i cz s c : carry i cz s c -> nofit (8 * i).
Proof. destruct cz; intros [H1 H2]; [by eapply count_nofit|done]. Qed.

Lemma read_chunk st off :
  bitmap st = bm -> 0 <= off -> off + 4096 <= bitmapSize ->
  exists buf, readData bitmap off 4096 st = (Val buf, st) /\ zlen buf = 4096 /\
    forall j b, zget buf j = Some b -> zget bm (off + j) = Some b.
Proof.
  intros Hst H0 Hmax. destruct Hbm as [Hlen _].
  destruct (cut3 bm off 4096) as (l1 & l2 & l3 & E & Hl1 & Hl2 & Htake); [lia|lia|lia|].
  exists l2. split_and!; [|done|].
  - unfold readData. destruct (Z.eqb_spec 4096 0); [lia|]. destruct (Z.ltb_spec off 0); [lia|].
    by rewrite Hst, Htake, Hl2.
  - intros j b Hj. pose proof (zget_Some_range _ _ _ Hj). rewrite E, zget_app3, Hl1, Hl2.
    zbool; try lia. by replace (off + j - off) with j by lia.
Qed.

Lemma scan_file_spec st n k cz s c :
  bitmap st = bm -> Z.of_nat n + k = 512 -> 0 <= k -> carry (4096 * k) cz s c ->
  wp (scan_file n (4096 * k) cz s c num) st (fun r st' =>
    st' = st /\ match r with Some s => found s | None => nofit (8 * bitmapSize) end).
Proof.
  intros Hst. revert k cz s c. induction n as [|n IH]; intros k cz s c Hn Hk Hc; cbn [scan_file].
  - destruct (Z.ltb_spec (4096 * k) bitmapSize); [unfold bitmapSize in *; lia|]. apply wp_ret.
    split; [done|]. apply carry_nofit in Hc. replace (8 * bitmapSize) with (8 * (4096 * k)); [done|].
    unfold bitmapSize. lia.
  - destruct (Z.ltb_spec (4096 * k) bitmapSize); [|unfold bitmapSize in *; lia].
    destruct (read_chunk st (4096 * k)) as (buf & Hread & Hlen & Hbuf); [done|lia|unfold bitmapSize; lia|].
    apply wp_bind. unfold wp at 1. rewrite Hread.
    destruct (scan_buf_spec buf (4096 * k) cz s c Hbuf Hc) as (r & Hrun & Hr).
    apply wp_bind. apply (wp_lift _ _ _ r); [done|]. rewrite Hlen in Hr. destruct r as [s'|cz' s' c'].
    + apply wp_ret. by split.
    + replace (4096 * k + 4096) with (4096 * (k + 1)) in * by lia. apply IH; [lia|lia|done].
Qed.

Lemma scan_spec st :
  bitmap st = bm ->
  wp (scan_file 512 0 false 0 0 num) st (fun r st' =>
    st' = st /\ match r with Some s => found s | None => nofit (8 * bitmapSize) end).
Proof.
  intros Hst. apply (scan_file_spec st 512 0); [done|lia|lia|]. split.
  - intros x Hx Hle. lia.
  - by left.
Qed.
End scan.

(** ** The free list *)
Definition listed (e : FEntry) : Prop := fbegin e <> -1.

Definition inside (e : FEntry) (o : Z) : Prop := listed e /\ fbegin e <= o <= fend e.

(** Every entry describes free OIDs, and no two of them share one. *)
Record fl_ok (fl : list FEntry) (P : Z -> bool) : Prop := {
  fl_range : forall i e, zget fl i = Some e -> listed e -> 0 <= fbegin e <= fend e /\ fend e <= lastOID;
  fl_free : forall i e o, zget fl i = Some e -> inside e o -> P o = false;
  fl_disj : forall i j e e' o, zget fl i = Some e -> zget fl j = Some e' -> inside e o -> inside e' o -> i = j }.

(** The server: the bitmap is a bitmap, and the free list agrees with it. *)
Record srv_ok (s : t) : Prop := {
  so_bm : bm_ok (bitmap s);
  so_fl : fl_ok (freelist s) (oid_bit (bitmap s)) }.

(** *** Best fit *)
Lemma best_fit_spec fl num : forall l i bi bs bb idx beg,
  1 <= num -> 0 <= i ->
  (forall j e, zget l j = Some e -> zget fl (i + j) = Some e) ->
  (bi = -1 /\ bs = INT_MAX \/
   exists e, zget fl bi = Some e /\ listed e /\ fbegin e = bb /\ num <= fend e - fbegin e + 1) ->
  best_fit l i num bi bs bb = (idx, beg) ->
  (idx = -1 /\ bi = -1 /\
   forall j e, zget l j = Some e -> listed e ->
     fend e - fbegin e + 1 < num \/ INT_MAX <= fend e - fbegin e + 1) \/
  (exists e, zget fl idx = Some e /\ listed e /\ fbegin e = beg /\ num <= fend e - fbegin e + 1).
Proof.
  induction l as [|e l IH]; intros i bi bs bb idx beg Hn Hi Hsub Hb Hrun; simpl in Hrun.
  { simplify_eq. destruct Hb as [[-> ->]|Hb]; [left|by right]. split; [done|]. split; [done|]. intros j e Hj.
    destruct (zget_Some_range _ _ _ Hj). unfold zlen in *. simpl in *. lia. }
  assert (Hi' : 0 <= i + 1) by lia.
  assert (He : zget fl i = Some e) by (rewrite <- (Z.add_0_r i); by apply Hsub).
  assert (Hsub' : forall j e', zget l j = Some e' -> zget fl (i + 1 + j) = Some e').
  { intros j e' Hj. rewrite <- Z.add_assoc. apply Hsub. pose proof (zget_Some_range _ _ _ Hj).
    apply zget_cons. right. split; [lia|]. by replace (1 + j - 1) with j by lia. }
  assert (Hstep : forall Q : Z -> FEntry -> Prop,
    Q 0 e -> (forall j e', zget l j = Some e' -> Q (j + 1) e') -> forall j e', zget (e :: l) j = Some e' -> Q j e').
  { intros Q H1 H2 j e' [[-> ->]|[Hj Hz]]%zget_cons; [done|]. replace j with (j - 1 + 1) by lia. by apply H2. }
  destruct (Z.eqb_spec (fbegin e) (-1)) as [E|E].
  { destruct (IH _ _ _ _ _ _ Hn Hi' Hsub' Hb Hrun) as [(-> & -> & Hno)|?]; [left|by right].
    split; [done|]. split; [done|]. apply (Hstep (fun _ e => listed e -> _)); [done|]. intros j e' Hj. by apply (Hno j). }
  destruct (Z.eqb_spec (fend e - fbegin e + 1) num) as [E2|E2].
  { simplify_eq. right. exists e. split_and!; try done; lia. }
  destruct (Z.ltb_spec num (fend e - fbegin e + 1)) as [E3|E3]; cbn [andb] in Hrun;
    [destruct (Z.ltb_spec (fend e - fbegin e + 1) bs) as [E4|E4]|].
  - destruct (IH (i + 1) i (fend e - fbegin e + 1) (fbegin e) idx beg Hn Hi' Hsub') as [(-> & -> & Hno)|?]; [|done| |by right].
    + right. exists e. split_and!; try done; lia.
    + exfalso. lia.
  - destruct (IH _ _ _ _ _ _ Hn Hi' Hsub' Hb Hrun) as [(-> & -> & Hno)|?]; [left|by right].
    destruct Hb as [[_ ->]|(e' & Hz & _)]; [|apply zget_Some_range in Hz; lia].
    split; [done|]. split; [done|]. apply (Hstep (fun _ e => listed e -> _)); [lia|]. intros j e' Hj. by apply (Hno j).
  - destruct (IH _ _ _ _ _ _ Hn Hi' Hsub' Hb Hrun) as [(-> & -> & Hno)|?]; [left|by right].
    split; [done|]. split; [done|]. apply (Hstep (fun _ e => listed e -> _)); [lia|]. intros j e' Hj. by apply (Hno j).
Qed.
End OidScan.

Ltac Zify.zify_post_hook ::= Z.to_euclidean_division_equations.

Module OidClaims.
Import OIDServer OidThms OidScan.

(** The bits once the block [[st, st + num)] is allocated. *)
Definition taken (P : Z -> bool) (st num o : Z) : bool := if block st num o then true else P o.

(** [fl'] describes free OIDs of [fl] outside the block. *)
Definition shrunk (fl fl' : list FEntry) (st num : Z) : Prop :=
  forall i e', zget fl' i = Some e' ->
    exists e, zget fl i = Some e /\
      (listed e' -> 0 <= fbegin e' <= fend e' /\ fend e' <= lastOID) /\
      forall o, inside e' o -> inside e o /\ block st num o = false.

Lemma shrunk_ok fl fl' P st num : fl_ok fl P -> shrunk fl fl' st num -> fl_ok fl' (taken P st num).
Proof.
  intros [Hr Hf Hd] Hs. constructor.
  - intros i e' He'. destruct (Hs i e' He') as (e & _ & H & _). exact H.
  - intros i e' o He' Ho. destruct (Hs i e' He') as (e & He & _ & H). destruct (H o Ho) as [Hin Hb].
    unfold taken. rewrite Hb. by eapply Hf.
  - intros i j e1 e2 o H1 H2 Ho1 Ho2.
    destruct (Hs i e1 H1) as (e1' & He1 & _ & Hin1), (Hs j e2 H2) as (e2' & He2 & _ & Hin2).
    eapply Hd; [exact He1|exact He2|by apply Hin1|by apply Hin2].
Qed.

(** The entry chosen by best fit gives up its first [num] OIDs. *)
Lemma use_shrunk fl P i e num :
  fl_ok fl P -> zget fl i = Some e -> listed e -> 1 <= num <= fend e - fbegin e + 1 ->
  shrunk fl (zset fl i (useFreeListEntry e num)) (fbegin e) num.
Proof.
  intros [Hr Hf Hd] He Hl Hn. pose proof (Hr i e He Hl) as Hre. intros j e' Hj.
  destruct (decide (j = i)) as [->|Hne].
  - rewrite zget_zset_eq in Hj by (by apply zget_Some_range in He). simplify_eq. exists e. split; [done|].
    unfold useFreeListEntry, inside, listed, block. cbv zeta.
    destruct (Z.eqb_spec (fend e - fbegin e + 1) num); simpl; [split; [lia|intros o [? ?]; lia]|].
    split; [lia|]. intros o [_ Ho]. split; [split; [done|lia]|]. zbool; try done; lia.
  - rewrite zget_zset_ne in Hj by done. exists e'. split; [done|]. split; [by apply (Hr j)|].
    intros o Ho. split; [done|]. unfold block.
    destruct (Z.leb_spec (fbegin e) o), (Z.ltb_spec o (fbegin e + num)); try done. exfalso.
    apply Hne. eapply (Hd j i e' e o); try done. split; [done|lia].
Qed.

(** The entries [patchFreelist] may meet: it starts in the block, or does not
    touch it. *)
Definition patchable (st num : Z) (e : FEntry) : Prop :=
  listed e -> (0 <= fbegin e <= fend e /\ fend e <= lastOID) /\
    (st <= fbegin e \/ fend e < st).

Lemma patch_spec fl st num :
  1 <= num -> 0 <= st -> Forall (patchable st num) fl ->
  exists fl' ch, patch_entries fl st (st + num - 1) = Some (fl', ch) /\
    (ch = false -> fl' = fl) /\ shrunk fl fl' st num.
Proof.
  intros Hn H0 Hfl. induction Hfl as [|e fl He _ (fl' & ch & Hrun & Hch & Hs)]; simpl.
  { exists [], false. split; [done|]. split; [done|]. intros i e' Hi.
    apply zget_Some_range in Hi. unfold zlen in Hi. simpl in Hi. lia. }
  unfold patchable, listed in He.
  assert (Hcons : forall e', (listed e' -> 0 <= fbegin e' <= fend e' /\ fend e' <= lastOID) ->
    (forall o, inside e' o -> inside e o /\ block st num o = false) ->
    shrunk (e :: fl) (e' :: fl') st num).
  { intros e' H1 H2 i x [[-> ->]|[Hi Hx]]%zget_cons.
    - exists e. split; [apply zget_cons; by left|done].
    - destruct (Hs _ _ Hx) as (y & Hy & Hrest). exists y. split; [apply zget_cons; by right|done]. }
  destruct (Z.eqb_spec (fbegin e) (-1)) as [E|E].
  { exists (e :: fl'), ch. simpl. rewrite Hrun. simpl. split; [done|]. split; [by intros ->%Hch|].
    apply Hcons; unfold inside, listed; [done|]. by intros o [? _]. }
  specialize (He E).
  destruct (Z.leb_spec st (fbegin e)), (Z.leb_spec (fbegin e) (st + num - 1)); cbn [andb]; [|..].
  - simpl. rewrite Hrun. simpl. do 2 eexists. split; [done|]. split; [done|].
    apply Hcons; unfold inside, listed, block; destruct (Z.ltb_spec (st + num - 1) (fend e)); simpl; try lia.
  - destruct (Z.leb_spec (fbegin e) st); [lia|]. simpl. rewrite Hrun. simpl. exists (e :: fl'), ch.
    split; [done|]. split; [by intros ->%Hch|]. apply Hcons; [intros _; lia|].
    intros o Ho. split; [done|]. unfold inside, block in *. zbool; try done; lia.
  - destruct (Z.leb_spec (st + num - 1) (fend e)); [lia|]. rewrite andb_false_r. simpl. rewrite Hrun. simpl.
    exists (e :: fl'), ch. split; [done|]. split; [by intros ->%Hch|]. apply Hcons; [intros _; lia|].
    intros o Ho. split; [done|]. unfold inside, block in *. zbool; try done; lia.
  - lia.
Qed.

(** *** Allocating a free block *)
Lemma wp_writeData upd s Q : writes s = None -> Q tt (upd s) -> wp (writeData upd) s Q.
Proof. unfold wp, writeData. by intros ->. Qed.

Lemma flip_alloc_spec st num s :
  bm_ok (bitmap s) -> writes s = None -> 0 <= st -> 1 <= num -> st + num - 1 <= lastOID ->
  (forall o, st <= o < st + num -> oid_bit (bitmap s) o = false) ->
  wp (flipOIDBlock st num false) s (fun _ s' => exists bm',
    s' = set_bitmap bm' s /\ bm_ok bm' /\ forall o, oid_bit bm' o = taken (oid_bit (bitmap s)) st num o).
Proof.
  intros Hb Hw H0 Hn Hmax Hfree.
  destruct (flipOIDBlock_cases st num false s Hb H0 Hn Hmax) as [(_ & bm' & Hrun & Hok & Hspec)|[(o & Ho & Hbad) _]].
  - unfold wp. rewrite Hrun. unfold writeData. rewrite Hw. by exists bm'.
  - exfalso. apply Hbad. by apply Hfree.
Qed.

Lemma fl_ok_ext fl P Q : (forall o, P o = Q o) -> fl_ok fl P -> fl_ok fl Q.
Proof. intros H [H1 H2 H3]. constructor; try done. intros i e o He Ho. rewrite <- H. by eapply H2. Qed.

(** The result of an allocation that succeeds with the block at [st]. *)
Definition allocated (s : t) (st num : Z) (s' : t) : Prop :=
  srv_ok s' /\ 0 <= st /\ st + num - 1 <= lastOID /\
  (forall o, st <= o < st + num -> oid_bit (bitmap s) o = false) /\
  forall o, oid_bit (bitmap s') o = taken (oid_bit (bitmap s)) st num o.

(** Writing the shrunk free list and flipping the block. *)
Lemma commit_alloc_spec fl' st num s :
  srv_ok s -> writes s = None -> 0 <= st -> 1 <= num -> st + num - 1 <= lastOID ->
  (forall o, st <= o < st + num -> oid_bit (bitmap s) o = false) ->
  shrunk (freelist s) fl' st num ->
  wp (flipOIDBlock st num false) (set_freelist fl' s) (fun _ => allocated s st num).
Proof.
  intros [Hb Hf] Hw H0 Hn Hmax Hfree Hs.
  eapply wp_mono; [by apply (flip_alloc_spec st num (set_freelist fl' s))|].
  intros [] s' (bm' & -> & Hok & Hspec). split; [|done]. split; [done|].
  simpl. eapply fl_ok_ext; [intros o; symmetry; apply Hspec|]. by eapply shrunk_ok.
Qed.

Lemma fullScan_spec num s :
  srv_ok s -> writes s = None -> 1 <= num ->
  (forall i e, zget (freelist s) i = Some e -> listed e -> fend e - fbegin e + 1 < num) ->
  wp (fullScan num (freelist s)) s (fun r s' =>
    allocated s r num s' \/ (r = -1 /\ s' = s /\ nofit (bitmap s) num (8 * bitmapSize))).
Proof.
  intros Hok Hw Hn Hsmall. pose proof Hok as [Hb Hf]. unfold fullScan. wp_step.
  eapply wp_mono; [by apply (scan_spec (bitmap s) num)|].
  intros [st|] s1 [-> Hr]; [|apply wp_ret; by right]. destruct Hr as [H0 Hfree Haft Hroom].
  assert (Hmax : st + num - 1 <= lastOID) by (unfold lastOID, bitmapSize in *; lia).
  destruct (patch_spec (freelist s) st num) as (fl' & ch & Hpatch & Hch & Hs); [done|done| |].
  { apply Forall_lookup. intros k e Hk Hl.
    assert (Hz : zget (freelist s) (Z.of_nat k) = Some e).
    { unfold zget. destruct (Z.ltb_spec (Z.of_nat k) 0); [lia|]. by rewrite Nat2Z.id. }
    pose proof (fl_range _ _ Hf _ _ Hz Hl) as Hre. split; [done|].
    destruct (decide (st <= fbegin e)); [by left|right].
    destruct Haft as [->|Haft]; [lia|]. destruct (decide (fend e < st)); [done|]. exfalso.
    rewrite (fl_free _ _ Hf _ e (st - 1) Hz) in Haft; [done|]. split; [done|lia]. }
  unfold patchFreelist. rewrite Hpatch. wp_step.
  assert (Hend : wp (flipOIDBlock st num false ;; mret st) (set_freelist fl' s) (fun r s' =>
    allocated s r num s' \/ (r = -1 /\ s' = s /\ nofit (bitmap s) num (8 * bitmapSize)))).
  { wp_step. eapply wp_mono; [by apply commit_alloc_spec|]. intros [] s' Ha. apply wp_ret. by left. }
  destruct ch.
  - by apply wp_writeData.
  - apply wp_ret. rewrite (Hch eq_refl) in Hend. destruct s. exact Hend.
Qed.

Lemma allocOIDs_spec num s :
  srv_ok s -> writes s = None -> 1 <= num ->
  wp (allocOIDs num) s (fun r s' =>
    allocated s r num s' \/ (r = -1 /\ s' = s /\ nofit (bitmap s) num (8 * bitmapSize))).
Proof.
  intros Hok Hw Hn. pose proof Hok as [Hb Hf]. unfold allocOIDs. wp_step. apply wp_gets. cbn beta.
  destruct (best_fit (freelist s) 0 num (-1) INT_MAX 0) as [idx beg] eqn:Hbf.
  destruct (best_fit_spec (freelist s) num (freelist s) 0 (-1) INT_MAX 0 idx beg) as
    [(-> & _ & Hno)|(e & He & Hl & Hbeg & Hsz)]; [lia|lia|done|by left|done| |].
  - apply fullScan_spec; try done. intros i e He Hl. destruct (Hno i e He Hl) as [|Hbig]; [done|].
    pose proof (fl_range _ _ Hf _ _ He Hl). unfold INT_MAX, lastOID in *. lia.
  - subst beg. pose proof (zget_Some_range _ _ _ He). pose proof (fl_range _ _ Hf _ _ He Hl).
    destruct (Z.eqb_spec idx (-1)); [lia|]. wp_step. apply (wp_lift _ _ _ e); [by apply aget_Val|].
    wp_step. apply wp_writeData; [done|]. wp_step.
    eapply wp_mono; [apply commit_alloc_spec; try done; [lia|lia| |by apply use_shrunk with (oid_bit (bitmap s))]|].
    + intros o Ho. eapply (fl_free _ _ Hf); [exact He|]. split; [done|lia].
    + intros [] s' Ha. apply wp_ret. by left.
Qed.

(** *** A new bitmap *)
Lemma oid_bit_blank o : oid_bit (replicate (Z.to_nat bitmapSize) 0) o = false.
Proof.
  unfold oid_bit. destruct (zget _ (o / 8)) as [b|] eqn:E; [|done].
  rewrite (zget_replicate_Some _ _ _ _ E). apply Z.bits_0.
Qed.

Lemma bm_ok_blank : bm_ok (replicate (Z.to_nat bitmapSize) 0).
Proof.
  split; [rewrite zlen_replicate; apply Z2Nat.id; unfold bitmapSize; lia|]. apply Forall_replicate, byte_0.
Qed.

Definition fl_init (first : Z) : list FEntry :=
  mkFE first lastOID :: replicate (Z.to_nat (FreeListEntries - 1)) (mkFE (-1) (-1)).

Lemma fl_init_entry first i e : zget (fl_init first) i = Some e -> listed e -> i = 0 /\ e = mkFE first lastOID.
Proof.
  intros [[-> ->]|[_ H]]%zget_cons Hl; [done|]. apply zget_replicate_Some in H. subst e. by destruct Hl.
Qed.

Lemma fl_init_ok first P :
  0 <= first <= lastOID -> (forall o, first <= o <= lastOID -> P o = false) -> fl_ok (fl_init first) P.
Proof.
  intros Hf HP. constructor.
  - intros i e He Hl. destruct (fl_init_entry _ _ _ He Hl) as [_ ->]. simpl. lia.
  - intros i e o He [Hl Ho]. destruct (fl_init_entry _ _ _ He Hl) as [_ ->]. by apply HP.
  - intros i j e e' o He He' [Hl _] [Hl' _].
    destruct (fl_init_entry _ _ _ He Hl) as [-> _], (fl_init_entry _ _ _ He' Hl') as [-> _]. done.
Qed.

Lemma initializeBitmap_spec cfg s :
  writes s = None -> 1 <= firstOID cfg <= lastOID ->
  wp (initializeBitmap cfg) s (fun _ s' => srv_ok s' /\ writes s' = None /\
    freelist s' = fl_init (firstOID cfg) /\
    forall o, oid_bit (bitmap s') o = block 0 (firstOID cfg) o).
Proof.
  intros Hw Hf. unfold initializeBitmap. fold (fl_init (firstOID cfg)).
  wp_step. apply wp_writeData; [done|]. wp_step. apply wp_writeData; [done|].
  set (s1 := set_bitmap _ _).
  assert (Hbm1 : bitmap s1 = replicate (Z.to_nat bitmapSize) 0) by done.
  assert (Hw1 : writes s1 = None) by done.
  assert (Hfl1 : freelist s1 = fl_init (firstOID cfg)) by done. clearbody s1. wp_step.
  eapply wp_mono; [apply flip_alloc_spec; [by rewrite Hbm1; apply bm_ok_blank|done|lia|lia|lia|]|].
  { intros o _. rewrite Hbm1. apply oid_bit_blank. }
  intros [] s2 (bm' & -> & Hok & Hspec).
  assert (Hbits : forall o, oid_bit bm' o = block 0 (firstOID cfg) o).
  { intros o. rewrite Hspec. unfold taken. rewrite Hbm1, oid_bit_blank. by destruct (block _ _ _). }
  apply wp_writeData; [done|]. split; [|done]. split; [done|]. simpl. rewrite Hfl1.
  apply fl_init_ok; [lia|]. intros o Ho. rewrite Hbits. unfold block. lia.
Qed.

(** *** The version-buffer section *)
Definition vb_body (roots : list Z) : list Z := roots ≫= le_bytes 2.

(** The section holds the number of entries and the entries. *)
Record vb_ok (s : t) : Prop := {
  vb_section : vbSection s = le_bytes 2 (zlen (vbOidDBRootMap s)) ++ vb_body (vbOidDBRootMap s);
  vb_roots : Forall (fun r => 0 <= r < 2 ^ 16) (vbOidDBRootMap s);
  vb_size : zlen (vbOidDBRootMap s) < 2 ^ 16 }.

Lemma zlen_body roots : zlen (vb_body roots) = 2 * zlen roots.
Proof.
  unfold zlen, vb_body. induction roots as [|r roots IH]; [done|].
  cbn [mbind list_bind length app le_bytes] in *. lia.
Qed.

Lemma splice_end off bs l : off = zlen l -> splice off bs l = l ++ bs.
Proof.
  intros ->. rewrite <- (app_nil_r l) at 2. rewrite <- (app_nil_l []) at 1.
  rewrite <- (app_nil_r bs) at 2. unfold splice, zlen. rewrite Nat2Z.id, app_nil_r, resize_all.
  rewrite drop_ge by lia. by rewrite app_nil_r.
Qed.

Lemma body_app r1 r2 : vb_body (r1 ++ r2) = vb_body r1 ++ vb_body r2.
Proof. apply bind_app. Qed.

Lemma body_lookup roots i r :
  roots !! i = Some r -> take 2 (drop (2 * i) (vb_body roots)) = le_bytes 2 r.
Proof.
  revert i. induction roots as [|x roots IH]; intros i Hi; [done|]. destruct i as [|i].
  - simplify_eq/=. done.
  - replace (2 * S i)%nat with (2 + 2 * i)%nat by lia. simpl. by apply IH.
Qed.

Lemma body_decode roots :
  Forall (fun r => 0 <= r < 2 ^ 16) roots ->
  (fun i => le_val (take 2 (drop (2 * i) (vb_body roots)))) <$> seq 0 (Z.to_nat (zlen roots)) = roots.
Proof.
  intros Hr. unfold zlen. rewrite Nat2Z.id. apply list_eq. intros i. rewrite list_lookup_fmap.
  destruct (decide (i < length roots)%nat) as [Hi|Hi].
  - rewrite lookup_seq_lt by done. destruct (lookup_lt_is_Some_2 _ _ Hi) as [r Hri].
    rewrite Hri. change (Some (le_val (take 2 (drop (2 * i) (vb_body roots)))) = Some r).
    rewrite (body_lookup _ _ _ Hri), le_val_u; [done|].
    apply (Forall_lookup_1 _ _ _ _ Hr Hri).
  - rewrite lookup_seq_ge by lia. simpl. symmetry. apply lookup_ge_None. lia.
Qed.

Lemma loadVBOIDs_spec s :
  vb_ok s -> loadVBOIDs (set_map [] s) = (Val tt, s).
Proof.
  intros [Hsec Hr Hsz]. set (roots := vbOidDBRootMap s) in *. unfold loadVBOIDs.
  assert (Hn : 0 <= zlen roots) by (unfold zlen; lia).
  assert (Hr1 : readData vbSection 0 2 (set_map [] s) = (Val (le_bytes 2 (zlen roots)), set_map [] s)).
  { unfold readData. simpl. rewrite Hsec. done. }
  unfold try_catch. unfold mbind at 1, M_bind at 1. rewrite Hr1. cbv zeta.
  rewrite le_val_u by (simpl; lia). destruct (Z.eqb_spec (zlen roots) 0) as [E|E].
  { assert (Hnil : roots = []) by (destruct roots; [done|unfold zlen in E; simpl in E; lia]).
    unfold mret, M_ret. f_equal. destruct s. simpl in *. unfold set_map. simpl. by rewrite <- Hnil. }
  assert (Hr2 : readData vbSection 2 (zlen roots * 2) (set_map [] s) = (Val (vb_body roots), set_map [] s)).
  { unfold readData. destruct (Z.eqb_spec (zlen roots * 2) 0); [lia|]. simpl vbSection. rewrite Hsec.
    destruct (Z.ltb_spec 2 0); [lia|]. change (Z.to_nat 2) with 2%nat.
    change (drop 2 (le_bytes 2 (zlen roots) ++ vb_body roots)) with (vb_body roots).
    rewrite firstn_all2 by (pose proof (zlen_body roots); unfold zlen in *; lia).
    rewrite zlen_body. by replace (2 * zlen roots =? zlen roots * 2) with true by lia. }
  rewrite (bind_Val _ _ _ _ _ Hr2). unfold modify. rewrite body_decode by done.
  f_equal. destruct s. done.
Qed.

Lemma allocVBOID_spec r s :
  vb_ok s -> writes s = None -> 0 <= r < 2 ^ 16 -> zlen (vbOidDBRootMap s) + 1 < 2 ^ 16 ->
  wp (allocVBOID r) s (fun n s' => n = zlen (vbOidDBRootMap s) /\ vb_ok s' /\
    vbOidDBRootMap s' = vbOidDBRootMap s ++ [r]).
Proof.
  intros [Hsec Hr Hsz] Hw Hrr Hn. assert (H0 : 0 <= zlen (vbOidDBRootMap s)) by (unfold zlen; lia).
  unfold allocVBOID. wp_step. apply wp_gets. cbn beta. wp_step. apply wp_modify. cbn beta.
  wp_step. apply wp_try. cbv zeta. wp_step. apply wp_writeData; [done|]. apply wp_writeData; [done|].
  apply wp_ret. split; [done|]. split; [|done]. unfold u16. rewrite Z.mod_small by lia.
  assert (Hz : zlen (vbOidDBRootMap s ++ [r]) = zlen (vbOidDBRootMap s) + 1)
    by (unfold zlen; rewrite length_app; simpl; lia).
  constructor; cbn [vbSection set_vbSection set_map vbOidDBRootMap].
  - rewrite Hsec, Hz, body_app. set (n := zlen (vbOidDBRootMap s)) in *.
    change (splice 0 (le_bytes 2 (n + 1)) (le_bytes 2 n ++ vb_body (vbOidDBRootMap s)))
      with (le_bytes 2 (n + 1) ++ vb_body (vbOidDBRootMap s)).
    rewrite splice_end; [by rewrite <- app_assoc|].
    rewrite zlen_app, zlen_body. change (zlen (le_bytes 2 (n + 1))) with 2. subst n. lia.
  - apply Forall_app. split; [done|]. by constructor.
  - rewrite Hz. lia.
Qed.

(** ** The claims *)

(** [flipOIDBlock] is all or nothing: on a block inside the OID space it
    either finds every OID of the block in the expected state and flips exactly
    those bits of the bitmap, or finds one that is not, throws, and writes
    nothing. *)
Theorem oid_flip_atomic start num mode s :
  bm_ok (bitmap s) -> writes s = None -> 0 <= start -> 1 <= num -> start + num - 1 <= lastOID ->
  ((forall o, start <= o < start + num -> oid_bit (bitmap s) o = mode) /\
   exists s', flipOIDBlock start num mode s = (Val tt, s') /\ bm_ok (bitmap s') /\
     freelist s' = freelist s /\
     forall o, oid_bit (bitmap s') o =
       if block start num o then negb mode else oid_bit (bitmap s) o) \/
  ((exists o, start <= o < start + num /\ oid_bit (bitmap s) o <> mode) /\
   exists ex, flipOIDBlock start num mode s = (Exn ex, s)).
Proof.
  intros Hb Hw H0 Hn Hmax.
  destruct (flipOIDBlock_cases start num mode s Hb H0 Hn Hmax) as [(Hall & bm' & Hrun & Hok & Hspec)|?];
    [left|by right].
  split; [done|]. exists (set_bitmap bm' s). unfold writeData in Hrun. rewrite Hw in Hrun. by split_and!.
Qed.

(** C29. OID allocation is exact: with a consistent free list and a file whose writes
    succeed, [allocOIDs] of at least one OID always returns; either the [num] OIDs from the returned one were all free, are now
    allocated, no other bit changed and the free list still agrees with the
    bitmap, or it returns -1, changes nothing, and there is no run of [num] free
    OIDs in the whole bitmap. *)
Theorem oid_alloc_exact num s :
  srv_ok s -> writes s = None -> 1 <= num ->
  exists r s', allocOIDs num s = (Val r, s') /\ srv_ok s' /\
    ((0 <= r /\ r + num - 1 <= lastOID /\
      (forall o, r <= o < r + num -> oid_bit (bitmap s) o = false) /\
      (forall o, oid_bit (bitmap s') o = if block r num o then true else oid_bit (bitmap s) o)) \/
     (r = -1 /\ s' = s /\
      forall x, 0 <= x -> x + num <= lastOID + 1 ->
        exists o, x <= o < x + num /\ oid_bit (bitmap s) o = true)).
Proof.
  intros Hok Hw Hn. destruct (wp_run _ _ _ (allocOIDs_spec num s Hok Hw Hn)) as (r & s' & Hrun & Hr).
  exists r, s'. split; [done|]. destruct Hr as [(Hok' & H0 & Hmax & Hfree & Hspec)|(-> & -> & Hno)].
  - split; [done|]. left. by split_and!.
  - split; [done|]. right. split; [done|]. split; [done|]. intros x Hx Hle. apply Hno; [done|].
    unfold lastOID, bitmapSize in *. lia.
Qed.

(** A version-buffer OID survives a restart: [allocVBOID] returns the next
    OID, appends its dbroot to the map and to the file, and a later [loadVBOIDs]
    reads back exactly that map; when one of its two writes fails it throws and
    the map is as it was. *)
Theorem oid_vb_reload r s :
  vb_ok s -> writes s = None -> 0 <= r < 2 ^ 16 -> zlen (vbOidDBRootMap s) + 1 < 2 ^ 16 ->
  (exists s', allocVBOID r s = (Val (zlen (vbOidDBRootMap s)), s') /\
     vbOidDBRootMap s' = vbOidDBRootMap s ++ [r] /\
     loadVBOIDs (set_map [] s') = (Val tt, s') /\
     getDBRootOfVBOID (zlen (vbOidDBRootMap s)) s' = r) /\
  (forall k, (k < 2)%nat -> exists e s', allocVBOID r (set_writes (Some k) s) = (Exn e, s') /\
     vbOidDBRootMap s' = vbOidDBRootMap s).
Proof.
  intros Hok Hw Hr Hn. split.
  - destruct (wp_run _ _ _ (allocVBOID_spec r s Hok Hw Hr Hn)) as (n & s' & Hrun & -> & Hok' & Hmap).
    exists s'. split; [done|]. split; [done|]. split; [by apply loadVBOIDs_spec|].
    unfold getDBRootOfVBOID. rewrite Hmap. unfold zget, zlen.
    destruct (Z.ltb_spec (Z.of_nat (length (vbOidDBRootMap s))) 0); [lia|].
    by rewrite Nat2Z.id, list_lookup_middle.
  - intros [|[|]] Hk; [..|lia]; do 2 eexists; (split; [reflexivity|]); simpl; apply removelast_last.
Qed.

(** ** Witnesses: a new bitmap with the default configuration. *)
Definition srv0 : t := (initializeBitmap None (mk [] [] [] [] None)).2.

Lemma srv0_ok :
  srv_ok srv0 /\ writes srv0 = None.
Proof.
  destruct (wp_run _ _ _ (initializeBitmap_spec None (mk [] [] [] [] None) eq_refl
    ltac:(unfold lastOID; simpl; lia))) as ([] & s' & Hrun & Hok & Hw & _).
  unfold srv0. rewrite Hrun. exact (conj Hok Hw).
Qed.

Lemma oid_flip_atomic_witness :
  ((forall o, 3000 <= o < 3000 + 20 -> oid_bit (bitmap srv0) o = false) /\
   exists s', flipOIDBlock 3000 20 false srv0 = (Val tt, s') /\ bm_ok (bitmap s') /\
     freelist s' = freelist srv0 /\
     forall o, oid_bit (bitmap s') o = if block 3000 20 o then negb false else oid_bit (bitmap srv0) o) \/
  ((exists o, 3000 <= o < 3000 + 20 /\ oid_bit (bitmap srv0) o <> false) /\
   exists ex, flipOIDBlock 3000 20 false srv0 = (Exn ex, srv0)).
Proof.
  apply (oid_flip_atomic 3000 20 false srv0); [apply srv0_ok|apply srv0_ok|lia|lia|unfold lastOID; lia].
Defined.

Lemma oid_alloc_exact_witness :
  exists r s', allocOIDs 10 srv0 = (Val r, s') /\ srv_ok s' /\
    ((0 <= r /\ r + 10 - 1 <= lastOID /\
      (forall o, r <= o < r + 10 -> oid_bit (bitmap srv0) o = false) /\
      (forall o, oid_bit (bitmap s') o = if block r 10 o then true else oid_bit (bitmap srv0) o)) \/
     (r = -1 /\ s' = srv0 /\
      forall x, 0 <= x -> x + 10 <= lastOID + 1 ->
        exists o, x <= o < x + 10 /\ oid_bit (bitmap srv0) o = true)).
Proof. apply (oid_alloc_exact 10 srv0); [apply srv0_ok|apply srv0_ok|lia]. Defined.

Definition vb1 : t := mk [] [] [1; 0; 3; 0] [3] None.

Lemma vb1_ok : vb_ok vb1.
Proof. constructor; [done| |vm_compute; done]. constructor; [lia|constructor]. Qed.

Lemma oid_vb_reload_witness :
  (exists s', allocVBOID 2 vb1 = (Val (zlen (vbOidDBRootMap vb1)), s') /\
     vbOidDBRootMap s' = vbOidDBRootMap vb1 ++ [2] /\
     loadVBOIDs (set_map [] s') = (Val tt, s') /\
     getDBRootOfVBOID (zlen (vbOidDBRootMap vb1)) s' = 2) /\
  (forall k, (k < 2)%nat -> exists e s', allocVBOID 2 (set_writes (Some k) vb1) = (Exn e, s') /\
     vbOidDBRootMap s' = vbOidDBRootMap vb1).
Proof. apply (oid_vb_reload 2 vb1); [apply vb1_ok|done|lia|vm_compute; done]. Defined.
End OidClaims.
