(* ===== verification/Persist.v ===== *)
(** * The save files of the VSS and the VBBM

    [VSS::save] and [VSS::load] (vss.cpp), [VBBM::save], [VBBM::load] and
    [VBBM::loadVersion2] (vbbm.cpp), with the segments [growForLoad] prepares.
    Files are lists of bytes; a struct is written with its memory layout. *)

From S2P Require Import Prelude Chain Hasher Bytes Undoable Vbbm Vss.
From stdpp Require Import prelude gmap strings.
Local Open Scope Z_scope.

(** ** An open file

    [IDBDataFile] is an interface with buffered, unbuffered and plug-in
    implementations; its contract is that of read(2) and write(2): a call
    transfers part of what is asked for, or fails.  [answer k] is what call number
    [k] transfers at most, a failure when negative.  [bytes] is what was written so
    far, or what is left to read. *)
Module FileIO.

Record Dev := mkDev { isOpen : bool; answer : nat -> Z; calls : nat; bytes : list Z }.

Definition step (bs : list Z) (d : Dev) : Dev := mkDev (isOpen d) (answer d) (S (calls d)) bs.

Definition write (buf : list Z) : M Dev Z := fun d =>
  let r := answer d (calls d) in
  if r <? 0 then (Val (-1), step (bytes d) d)
  else let n := Z.min r (zlen buf) in (Val n, step (bytes d ++ take (Z.to_nat n) buf) d).

(** The result is the returned count and the bytes that were stored. *)
Definition read (count : Z) : M Dev (Z * list Z) := fun d =>
  let r := answer d (calls d) in
  if r <? 0 then (Val (-1, []), step (bytes d) d)
  else let n := Z.min (Z.min r count) (zlen (bytes d)) in
       (Val (n, take (Z.to_nat n) (bytes d)), step (drop (Z.to_nat n) (bytes d)) d).

(** [while (progress < writeSize)]: [buf] is what is left to write; [err] is an
    [int]. *)
Fixpoint write_loop (fuel : nat) (failed : exn) (buf : list Z) : M Dev unit :=
  if zlen buf <=? 0 then mret tt
  else match fuel with
       | O => fail_with OutOfFuel
       | S f =>
           err ← write buf;
           let err := i32 err in
           if err <? 0 then throw failed
           else write_loop f failed (drop (Z.to_nat err) buf)
       end.

(** [while (progress < readSize)]: [todo] bytes are left to read, [acc] is what
    [readBuf] holds so far. *)
Fixpoint read_loop (fuel : nat) (failed eof : exn) (todo : Z) (acc : list Z) : M Dev (list Z) :=
  if todo <=? 0 then mret acc
  else match fuel with
       | O => fail_with OutOfFuel
       | S f =>
           '(err, bs) ← read todo;
           let err := i32 err in
           if err <? 0 then throw failed
           else if err =? 0 then throw eof
           else read_loop f failed eof (todo - err) (acc ++ bs)
       end.

Section runs.
Context {E : Type} (used : E -> bool) (encode : E -> list Z) (failed : exn) (storage : list E).

(** The bytes of [storage[first]] up to [storage[last - 1]]. *)
Definition run (first last : Z) : list Z :=
  take (Z.to_nat (last - first)) (drop (Z.to_nat first) storage) ≫= encode.

Definition write_run (first last : Z) : M Dev unit :=
  let buf := run first last in write_loop (length buf) failed buf.

(** The scan over the storage that writes maximal runs of used entries; the
    result is the final value of [first]. *)
Fixpoint save_scan (n : nat) (i first : Z) : M Dev Z :=
  match n with
  | O => mret first
  | S n' =>
      e ← lift (fun _ => aget storage i);
      if used e && (first =? -1) then save_scan n' (i + 1) i
      else if negb (used e) && negb (first =? -1)
      then write_run first i ;; save_scan n' (i + 1) (-1)
      else save_scan n' (i + 1) first
  end.

Definition save_entries (capacity : Z) : M Dev unit :=
  first ← save_scan (Z.to_nat capacity) 0 (-1);
  if negb (first =? -1) then write_run first capacity else mret tt.
End runs.

(** The [n] structs of [size] bytes in a buffer. *)
Fixpoint structs {E} (decode : list Z -> E) (size n : nat) (buf : list Z) : list E :=
  match n with
  | O => []
  | S n' => decode (take size buf) :: structs decode size n' (drop size buf)
  end.

(** A field of [n] bytes at offset [off] of a struct. *)
Definition field (off n : nat) (bs : list Z) : Z := le_val (take n (drop off bs)).

(** The element count [growForLoad] makes room for. *)
Definition load_count (initial increment n : Z) : Z :=
  let n := if n <? initial then initial else n in
  if Z.rem n increment =? 0 then n else (Z.quot n increment + 1) * increment.

End FileIO.

(** ** vss.cpp *)
Module VSSFile.
Import VSS FileIO.

Definition VSS_MAGIC_V1 : Z := 0x7218db12.
Definition VSS_SIZE (entries : Z) : Z :=
  entries * sizeof_VSSEntry + entries / 4 * sizeof_int + sizeof_VSSShmsegHeader.

Definition b2z8 (b : bool) : list Z := [if b then 1 else 0].

(** The memory of a [VSSEntry]; [pad e] are its six bytes of padding. *)
Definition encode (pad : VSSEntry -> list Z) (e : VSSEntry) : list Z :=
  le_bytes 8 (lbid e) ++ le_bytes 4 (verID e) ++ b2z8 (vbFlag e) ++ b2z8 (locked e) ++
  take 2 (pad e) ++ le_bytes 4 (next e) ++ drop 2 (pad e).

Definition decode (bs : list Z) : VSSEntry :=
  mkEntry (i64 (field 0 8 bs)) (i32 (field 8 4 bs)) (negb (field 12 1 bs =? 0))
    (negb (field 13 1 bs =? 0)) (i32 (field 16 4 bs)).

Definition save (pad : VSSEntry -> list Z) (s : t) : M Dev unit :=
  ok ← gets isOpen;
  if negb ok then throw (runtime_error "VSS::save(): Failed to open the file")
  else
    n ← write (le_bytes 4 VSS_MAGIC_V1 ++ le_bytes 4 (currentSize (hdr (seg s))));
    if negb (n =? 8) then throw (runtime_error "VSS::save(): Failed to write header to the file")
    else save_entries used (encode pad) (runtime_error "VSS::save(): Failed to write the file")
           (storage (seg s)) (capacity (hdr (seg s))).

(** [growForLoad]: an empty segment with room for [elementCount] entries.  The
    allocation size is an [int]. *)
Definition growForLoad (elementCount : Z) : M t unit :=
  let n := load_count VSSSTORAGE_INITIAL_COUNT VSSSTORAGE_INCREMENT_COUNT elementCount in
  let allocSize := VSS_SIZE n in
  if 2 ^ 31 <=? allocSize then fail_with SignedOverflow
  else
    newshmkey ← gets (fun s => chooseShmkey (shmkey (seg s)));
    modify (fun _ => mk
      (mkSeg newshmkey (mkHdr n 0 0 (n / 4) 0) (replicate (Z.to_nat (n / 4)) (-1))
         (replicate (Z.to_nat n) blank))
      allocSize []).

Definition in_file {A} (m : M Dev A) : M (Dev * t) A := zoom fst (fun d st => (d, st.2)) m.
Definition in_table {A} (m : M t A) : M (Dev * t) A := zoom snd (fun s st => (st.1, s)) m.

Definition load : M (Dev * t) unit :=
  ok ← gets (fun st => isOpen st.1);
  if negb ok then throw (runtime_error "VSS::load(): Failed to open the file")
  else
    '(n, header) ← in_file (read 8);
    if negb (n =? 8) then throw (runtime_error "VSS::load(): Failed to read header")
    else
      let magic := i32 (field 0 4 header) in
      let entries := i32 (field 4 4 header) in
      if negb (magic =? VSS_MAGIC_V1) then throw (runtime_error "VSS::load(): Bad magic.  Not a VSS file?")
      else if entries <? 0 then throw (runtime_error "VSS::load(): Bad size.  Not a VSS file?")
      else
        in_table (growForLoad entries) ;;
        let readSize := entries * sizeof_VSSEntry in
        readBuf ← in_file (read_loop (Z.to_nat readSize)
          (runtime_error "VBBM::load(): Failed to load, check the critical log file")
          (runtime_error "VBBM::load(): Got early EOF") readSize []);
        for_each (structs decode 24 (Z.to_nat entries) readBuf) (fun e =>
          in_table (insert (lbid e) (verID e) (vbFlag e) (locked e) true)).

End VSSFile.

(** ** vbbm.cpp *)
Module VBBMFile.
Import VBBM FileIO.

Definition VBBM_MAGIC_V2 : Z := 0x1fb58c7a.

(** [VBBMEntry] has no padding. *)
Definition encode (e : VBBMEntry) : list Z :=
  le_bytes 8 (lbid e) ++ le_bytes 4 (verID e) ++ le_bytes 4 (vbOID e) ++ le_bytes 4 (vbFBO e) ++
  le_bytes 4 (next e).

Definition decode (bs : list Z) : VBBMEntry :=
  mkEntry (i64 (field 0 8 bs)) (i32 (field 8 4 bs)) (i32 (field 12 4 bs)) (field 16 4 bs)
    (i32 (field 20 4 bs)).

(** [VBFileMetadata] has four bytes of padding after the OID. *)
Definition encode_file (pad : VBFileMetadata -> list Z) (f : VBFileMetadata) : list Z :=
  le_bytes 4 (OID f) ++ pad f ++ le_bytes 8 (fileSize f) ++ le_bytes 8 (nextOffset f).

Definition decode_file (bs : list Z) : VBFileMetadata :=
  mkFile (i32 (field 0 4 bs)) (field 8 8 bs) (field 16 8 bs).

(** The counts of the four first writes are added up and never looked at. *)
Definition save (pad : VBFileMetadata -> list Z) (s : t) : M Dev unit :=
  ok ← gets isOpen;
  if negb ok then throw (runtime_error "VBBM::save(): Failed to open the file")
  else
    let g := seg s in
    write (le_bytes 4 VBBM_MAGIC_V2) ;;
    write (le_bytes 4 (vbCurrentSize (hdr g))) ;;
    write (le_bytes 4 (nFiles (hdr g))) ;;
    write (take (Z.to_nat (nFiles (hdr g))) (files g) ≫= encode_file pad) ;;
    save_entries used encode (runtime_error "VBBM::save(): Failed to write the file")
      (storage g) (vbCapacity (hdr g)).

(** [growForLoad]: an empty segment with room for [count] entries that keeps the
    file metadata; [vbCurrentSize] is that of a zeroed segment. *)
Definition growForLoad (count : Z) : M t unit :=
  let n := load_count VBSTORAGE_INITIAL_COUNT VBSTORAGE_INCREMENT_COUNT count in
  nf ← gets (fun s => nFiles (hdr (seg s)));
  let allocSize := VBBM_SIZE nf n in
  if 2 ^ 31 <=? allocSize then fail_with SignedOverflow
  else
    newshmkey ← gets (fun s => chooseShmkey (shmkey (seg s)));
    modify (fun s => set_undo [] (set_alloc allocSize (set_seg
      (mkSeg newshmkey (mkHdr nf n 0 0 (n / 4)) (take (Z.to_nat nf) (files (seg s)))
         (replicate (Z.to_nat (n / 4)) (-1)) (replicate (Z.to_nat n) blank)) s))).

Definition in_file {A} (m : M Dev A) : M (Dev * t) A := zoom fst (fun d st => (d, st.2)) m.
Definition in_table {A} (m : M t A) : M (Dev * t) A := zoom snd (fun s st => (st.1, s)) m.

(** [while (vbbm->nFiles < nFiles) growVBBM(true);], [n] rounds. *)
Fixpoint add_files (n : nat) : M t unit :=
  match n with
  | O => mret tt
  | S n' => growVBBM true ;; add_files n'
  end.

(** The file metadata after [in->read(files, nfileSize)] stored the bytes [b]. *)
Definition overlay (nf : nat) (b : list Z) (fs : list VBFileMetadata) : list VBFileMetadata :=
  structs decode_file 24 nf (b ++ drop (length b) (fs ≫= encode_file (fun _ => [0; 0; 0; 0]))).

Definition loadVersion2 : M (Dev * t) unit :=
  '(n, b) ← in_file (read 4);
  if negb (n =? 4) then throw (runtime_error "VBBM::load(): Failed to read entry number")
  else
    let vbbmEntries := i32 (field 0 4 b) in
    '(n, b) ← in_file (read 4);
    if negb (n =? 4) then throw (runtime_error "VBBM::load(): Failed to read file number")
    else
      let nf := i32 (field 0 4 b) in
      in_table (upd_hdr (fun h => if nf <? nFiles h then with_nFiles nf h else h)) ;;
      (* [new VBFileMetadata[vbbm->nFiles]] in [clear] *)
      (if nf <? 0 then throw bad_alloc else mret tt) ;;
      in_table clear ;;
      nHave ← gets (fun st => nFiles (hdr (seg st.2)));
      in_table (add_files (Z.to_nat (nf - nHave))) ;;
      in_table (growForLoad vbbmEntries) ;;
      let nfileSize := sizeof_VBFileMetadata * nf in
      '(n, b) ← in_file (read nfileSize);
      in_table (modify (fun s => set_seg (set_files (overlay (Z.to_nat nf) b (files (seg s))) (seg s)) s)) ;;
      if negb (n =? nfileSize) then throw (runtime_error "VBBM::load(): Failed to load vb file meta data")
      else
        (if vbbmEntries <? 0 then throw bad_alloc else mret tt) ;;
        let readSize := vbbmEntries * sizeof_VBBMEntry in
        readBuf ← in_file (read_loop (Z.to_nat readSize)
          (runtime_error "VBBM::load(): Failed to load, check the critical log file")
          (runtime_error "VBBM::load(): Got early EOF") readSize []);
        for_each (structs decode 24 (Z.to_nat vbbmEntries) readBuf) (fun e =>
          in_table (insert (lbid e) (verID e) (vbOID e) (vbFBO e) true)).

Definition load : M (Dev * t) unit :=
  ok ← gets (fun st => isOpen st.1);
  if negb ok then throw (runtime_error "VBBM::load(): Failed to open the file")
  else
    '(n, b) ← in_file (read 4);
    if negb (n =? 4) then throw (runtime_error "VBBM::load(): failed to read magic.")
    else if i32 (field 0 4 b) =? VBBM_MAGIC_V2 then loadVersion2
    else throw (runtime_error "VBBM::load(): Bad magic.  Not a VBBM file?").

End VBBMFile.
