(* ===== verification/PersistClaims.v ===== *)
(** * Properties of the save files of the VSS and the VBBM

    A saved table is the table that is loaded again, and a save that returns has
    written all of it. *)

From S2P Require Import Prelude Chain Hasher Bytes Undoable Vbbm VbbmThms VbbmClaims Vss VssThms VssClaims Persist.
From stdpp Require Import prelude gmap strings.
Local Open Scope Z_scope.

(** ** Writing and reading the save files

    Loops over a file that transfers a part at a time, the runs [save] writes,
    struct layouts, and the insertion of a list of entries into an empty table. *)

(** ** Triples with an exception case *)
Definition wpe {S A} (m : M S A) (s : S) (Q : A -> S -> Prop) (X : exn -> Prop) : Prop :=
  match m s with
  | (Val a, s') => Q a s'
  | (Exn e, _) => X e
  | (Fault _, _) => False
  end.

Section wpe_rules.
Context {S : Type}.

Lemma wpe_bind {A B} (m : M S A) (f : A -> M S B) s Q X :
  wpe m s (fun a s' => wpe (f a) s' Q X) X -> wpe (m ≫= f) s Q X.
Proof. unfold wpe, mbind, M_bind. by destruct (m s) as [[]?]. Qed.

Lemma wpe_mono {A} (m : M S A) s (P Q : A -> S -> Prop) (X Y : exn -> Prop) :
  wpe m s P X -> (forall a s', P a s' -> Q a s') -> (forall e, X e -> Y e) -> wpe m s Q Y.
Proof. unfold wpe. destruct (m s) as [[]?]; naive_solver. Qed.

Lemma wpe_wp {A} (m : M S A) s Q X : wpe m s Q X -> (forall e, X e -> False) -> wp m s Q.
Proof. unfold wpe, wp. destruct (m s) as [[]?]; naive_solver. Qed.

Lemma wpe_gets {A} (f : S -> A) s (Q : A -> S -> Prop) X : Q (f s) s -> wpe (gets f) s Q X.
Proof. done. Qed.

Lemma wpe_ret {A} (a : A) s (Q : A -> S -> Prop) X : Q a s -> wpe (mret a) s Q X.
Proof. done. Qed.

Lemma wpe_lift {A} (f : S -> outcome A) s (Q : A -> S -> Prop) X a :
  f s = Val a -> Q a s -> wpe (lift f) s Q X.
Proof. unfold wpe, lift. by intros ->. Qed.
End wpe_rules.

Module FileThms.
Import FileIO.

(** The same file, further on. *)
Definition same_file (d d' : Dev) : Prop := isOpen d' = isOpen d /\ answer d' = answer d.

Lemma same_file_refl d : same_file d d.
Proof. done. Qed.

Lemma same_file_trans d1 d2 d3 : same_file d1 d2 -> same_file d2 d3 -> same_file d1 d3.
Proof. unfold same_file. intros [] []. split; congruence. Qed.

(** Every call transfers something or fails. *)
Definition no_stall (d : Dev) : Prop := forall k, answer d k <> 0.

(** Some call fails. *)
Definition broken (d : Dev) : Prop := exists k, answer d k < 0.

Lemma no_stall_same d d' : same_file d d' -> no_stall d -> no_stall d'.
Proof. intros [_ Ha] H k. rewrite Ha. apply H. Qed.

Lemma broken_same d d' : same_file d d' -> broken d' -> broken d.
Proof. intros [_ Ha] [k Hk]. exists k. by rewrite <- Ha. Qed.

(** ** Writing *)
Lemma write_loop_spec failed fuel : forall buf d,
  (length buf <= fuel)%nat -> zlen buf < 2 ^ 31 -> no_stall d ->
  wpe (write_loop fuel failed buf) d
    (fun _ d' => bytes d' = bytes d ++ buf /\ same_file d d')
    (fun e => e = failed /\ broken d).
Proof.
  induction fuel as [|fuel IH]; intros buf d Hfuel Hlen Hns; simpl;
    destruct (Z.leb_spec (zlen buf) 0) as [Hz|Hz]; unfold zlen in *.
  1,3: destruct buf; simpl in *; [|lia]; apply wpe_ret; by rewrite app_nil_r.
  { lia. }
  apply wpe_bind. unfold wpe at 1, write. specialize (Hns (calls d)) as Ha.
  destruct (Z.ltb_spec (answer d (calls d)) 0) as [Hneg|Hpos]; simpl.
  { split; [done|]. by exists (calls d). }
  unfold zlen. set (n := Z.min (answer d (calls d)) (Z.of_nat (length buf))).
  assert (Hn : 0 < n <= Z.of_nat (length buf)) by (subst n; lia). clearbody n.
  rewrite i32_small by lia. destruct (Z.ltb_spec n 0); [lia|].
  eapply wpe_mono; [apply IH|..].
  - rewrite length_drop. lia.
  - rewrite length_drop. lia.
  - done.
  - simpl. intros _ d' [-> Hs]. rewrite <- app_assoc, take_drop. done.
  - simpl. intros e [-> [k Hk]]. split; [done|]. by exists k.
Qed.

Section runs.
Context {E : Type} (used : E -> bool) (encode : E -> list Z) (failed : exn) (storage : list E).
Context (size : nat) (encode_size : forall e, length (encode e) = size).

(** What is pending when [first] is the start of the open run and [i] the next
    slot. *)
Definition pending (first i : Z) : list E :=
  if first =? -1 then [] else take (Z.to_nat (i - first)) (drop (Z.to_nat first) storage).

Lemma length_encode (l : list E) : length (l ≫= encode) = (length l * size)%nat.
Proof. induction l as [|e l IH]; [done|]. rewrite bind_cons, length_app, encode_size, IH. simpl. lia. Qed.

Lemma pending_snoc first i e :
  0 <= first <= i -> zget storage i = Some e -> pending first (i + 1) = pending first i ++ [e].
Proof.
  intros Hf He. unfold pending. destruct (Z.eqb_spec first (-1)); [lia|].
  replace (Z.to_nat (i + 1 - first)) with (S (Z.to_nat (i - first))) by lia.
  apply take_S_r. rewrite lookup_drop. unfold zget in He. destruct (Z.ltb_spec i 0); [lia|].
  by replace (Z.to_nat first + Z.to_nat (i - first))%nat with (Z.to_nat i) by lia.
Qed.

Lemma write_run_spec first i d :
  0 <= first -> zlen storage * Z.of_nat size < 2 ^ 31 -> no_stall d ->
  wpe (write_run encode failed storage first i) d
    (fun _ d' => bytes d' = bytes d ++ (pending first i ≫= encode) /\ same_file d d')
    (fun e => e = failed /\ broken d).
Proof.
  intros Hf Hsz Hns. unfold write_run, pending. destruct (Z.eqb_spec first (-1)); [lia|].
  apply write_loop_spec; [done| |done]. unfold run, zlen in *.
  rewrite length_encode, length_take, length_drop. nia.
Qed.

(** The scan writes what is pending and the used entries it meets, in order; the
    last run stays pending. *)
Lemma save_scan_spec n : forall i first d,
  0 <= i -> i + Z.of_nat n <= zlen storage -> zlen storage * Z.of_nat size < 2 ^ 31 ->
  -1 <= first <= i -> no_stall d ->
  wpe (save_scan used encode failed storage n i first) d
    (fun f d' => bytes d' ++ (pending f (i + Z.of_nat n) ≫= encode)
       = bytes d ++ (pending first i ≫= encode)
         ++ (filter (fun e => used e = true) (take n (drop (Z.to_nat i) storage)) ≫= encode)
       /\ same_file d d' /\ -1 <= f <= i + Z.of_nat n)
    (fun e => e = failed /\ broken d).
Proof.
  induction n as [|n IH]; intros i first d Hi Hn Hsz Hf Hns.
  { apply wpe_ret. simpl. rewrite Z.add_0_r, app_nil_r. done. }
  destruct (zget_is_Some storage i) as [e He]; [lia|].
  cbn [save_scan]. apply wpe_bind. eapply wpe_lift; [by apply aget_Val|].
  assert (Hsplit : take (S n) (drop (Z.to_nat i) storage)
                   = e :: take n (drop (Z.to_nat (i + 1)) storage)).
  { replace (Z.to_nat (i + 1)) with (S (Z.to_nat i)) by lia.
    unfold zget in He. destruct (Z.ltb_spec i 0); [lia|]. by rewrite (drop_S _ _ _ He). }
  rewrite Hsplit. replace (i + Z.of_nat (S n)) with (i + 1 + Z.of_nat n) by lia.
  destruct (used e) eqn:Hu; cbn [andb negb].
  - rewrite filter_cons_True, bind_cons by done. destruct (Z.eqb_spec first (-1)) as [->|Hne].
    + eapply wpe_mono; [apply IH; lia || done|..]; [|done].
      cbn beta. intros f d' (Hb & Hs & Hr). split_and!; try done; try lia.
      rewrite Hb, (pending_snoc i i e) by (lia || done). unfold pending.
      destruct (Z.eqb_spec i (-1)); [lia|]. rewrite Z.sub_diag. simpl. by rewrite app_nil_r.
    + eapply wpe_mono; [apply IH; lia || done|..]; [|done].
      cbn beta. intros f d' (Hb & Hs & Hr). split_and!; try done; try lia.
      rewrite Hb, (pending_snoc first i e) by (lia || done).
      rewrite bind_app. simpl. by rewrite app_nil_r, <- !app_assoc.
  - rewrite filter_cons_False by congruence.
    destruct (Z.eqb_spec first (-1)) as [->|Hne]; cbn [negb].
    + eapply wpe_mono; [apply IH; lia || done|..]; [|done].
      cbn beta. intros f d' (Hb & Hs & Hr). split_and!; done || lia.
    + apply wpe_bind. eapply wpe_mono; [apply write_run_spec; lia || done|..]; [|done].
      cbn beta. intros [] d1 [Hb1 Hs1].
      eapply wpe_mono; [apply IH; try lia; by eapply no_stall_same|..].
      * cbn beta. intros f d' (Hb & Hs & Hr).
        split_and!; [|by eapply same_file_trans|lia|lia]. rewrite Hb, Hb1. by rewrite <- !app_assoc.
      * intros x [-> Hbr]. split; [done|]. by eapply broken_same.
Qed.

(** [save] writes exactly the used entries, in order, or throws because a write
    failed. *)
Lemma save_entries_spec cap d :
  zlen storage = cap -> cap * Z.of_nat size < 2 ^ 31 -> no_stall d ->
  wpe (save_entries used encode failed storage cap) d
    (fun _ d' => bytes d' = bytes d ++ (filter (fun e => used e = true) storage ≫= encode)
       /\ same_file d d')
    (fun e => e = failed /\ broken d).
Proof.
  intros <- Hsz Hns. unfold save_entries. apply wpe_bind.
  assert (Hlen : Z.to_nat (zlen storage) = length storage) by (unfold zlen; lia).
  eapply wpe_mono; [apply save_scan_spec; unfold zlen in *; lia || done|..]; [|done].
  cbn beta. rewrite Hlen. simpl. rewrite drop_0, firstn_all.
  fold (zlen storage). rewrite Z.add_0_l. intros f d1 (Hb & Hs & Hr).
  destruct (Z.eqb_spec f (-1)) as [->|Hne]; simpl.
  - apply wpe_ret. unfold pending in Hb. simpl in Hb. by rewrite app_nil_r in Hb.
  - eapply wpe_mono; [apply write_run_spec; try lia; by eapply no_stall_same|..].
    + cbn beta. intros [] d' [Hb' Hs']. split; [by rewrite Hb', Hb|by eapply same_file_trans].
    + intros x [-> Hbr]. split; [done|]. by eapply broken_same.
Qed.
End runs.

(** ** Reading *)

(** A file all of whose calls transfer at least [n] bytes, or all there are. *)
Definition transfers (n : Z) (d : Dev) : Prop := forall k, n <= answer d k.

Lemma transfers_same n d d' : same_file d d' -> transfers n d -> transfers n d'.
Proof. intros [_ Ha] H k. rewrite Ha. apply H. Qed.

Lemma write_spec n d buf :
  transfers n d -> zlen buf <= n ->
  wp (write buf) d (fun r d' => bytes d' = bytes d ++ buf /\ same_file d d').
Proof.
  intros Ht Hl. unfold wp, write. specialize (Ht (calls d)). unfold zlen in *.
  destruct (Z.ltb_spec (answer d (calls d)) 0); [lia|].
  rewrite take_ge by lia. done.
Qed.

Lemma read_spec n d buf rest :
  transfers n d -> bytes d = buf ++ rest -> zlen buf = n ->
  wp (read n) d (fun r d' => r = (n, buf) /\ bytes d' = rest /\ same_file d d').
Proof.
  intros Ht Hb Hl. unfold wp, read. specialize (Ht (calls d)).
  destruct (Z.ltb_spec (answer d (calls d)) 0); [unfold zlen in *; lia|].
  assert (Z.min (Z.min (answer d (calls d)) n) (zlen (bytes d)) = n) as ->.
  { rewrite Hb, zlen_app. unfold zlen in *. lia. }
  rewrite Hb, take_app_length', drop_app_length' by (unfold zlen in *; lia). done.
Qed.

Lemma read_loop_spec failed eof fuel : forall todo acc buf rest d,
  (length buf <= fuel)%nat -> zlen buf = todo -> todo < 2 ^ 31 -> transfers 1 d ->
  bytes d = buf ++ rest ->
  wp (read_loop fuel failed eof todo acc) d (fun r d' =>
    r = acc ++ buf /\ bytes d' = rest /\ same_file d d').
Proof.
  induction fuel as [|fuel IH]; intros todo acc buf rest d Hfuel Hlen Hsz Ht Hb; simpl;
    destruct (Z.leb_spec todo 0); unfold zlen in *.
  1,3: destruct buf; simpl in *; [|lia]; apply wp_ret; by rewrite app_nil_r.
  { lia. }
  wp_step. unfold wp at 1, read. specialize (Ht (calls d)) as Ha.
  destruct (Z.ltb_spec (answer d (calls d)) 0); [lia|]. unfold zlen.
  set (n := Z.min (Z.min (answer d (calls d)) todo) (Z.of_nat (length (bytes d)))).
  assert (Hn : 0 < n <= Z.of_nat (length buf)) by (subst n; rewrite Hb, length_app; lia).
  clearbody n. rewrite i32_small by lia. zbool; try lia.
  rewrite Hb, take_app_le, drop_app_le by lia.
  eapply wp_mono; [apply (IH _ _ (drop (Z.to_nat n) buf) rest)|]; try done; simpl.
  - rewrite length_drop. lia.
  - rewrite length_drop. lia.
  - lia.
  - intros r d' (-> & Hb' & Hs). by rewrite <- app_assoc, take_drop.
Qed.

(** ** Struct layouts *)
Lemma structs_spec {E} (encode : E -> list Z) decode size (f : E -> E) l rest :
  (forall e, e ∈ l -> length (encode e) = size /\ decode (encode e) = f e) ->
  structs decode size (length l) ((l ≫= encode) ++ rest) = f <$> l.
Proof.
  induction l as [|e l IH]; intros He; [done|]. rewrite bind_cons. simpl.
  destruct (He e) as [Hl Hd]; [left|].
  rewrite <- app_assoc, take_app_length', drop_app_length' by done.
  rewrite Hd, IH; [done|]. intros x Hx. apply He. by right.
Qed.

Lemma le_val_i32_gen z : i32 (le_val (le_bytes 4 z)) = i32 z.
Proof.
  rewrite le_val_bytes. change (8 * Z.of_nat 4) with 32. unfold i32. by rewrite Zplus_mod_idemp_l.
Qed.

Lemma file_i64 z : - 2 ^ 63 <= z < 2 ^ 63 -> i64 (le_val (le_bytes 8 z)) = z.
Proof.
  intros Hz. rewrite le_val_bytes. change (8 * Z.of_nat 8) with 64. unfold i64.
  rewrite Zplus_mod_idemp_l. by apply i64_small.
Qed.

(** Reading a field of a struct skips the fields laid out before it. *)
Lemma field_hd n bs rest : length bs = n -> field 0 n (bs ++ rest) = le_val bs.
Proof. intros Hb. unfold field. by rewrite drop_0, take_app_length' by done. Qed.

Lemma field_skip off n pre rest :
  (length pre <= off)%nat -> field off n (pre ++ rest) = field (off - length pre) n rest.
Proof. intros Hp. unfold field. by rewrite drop_app_ge by done. Qed.

Lemma field_end n bs : length bs = n -> field 0 n bs = le_val bs.
Proof. intros Hb. unfold field. by rewrite drop_0, take_ge by lia. Qed.

(** ** The segment size for a number of entries *)
Lemma load_count_spec initial increment n :
  0 < initial -> 0 < increment -> Z.rem initial increment = 0 -> 0 <= n ->
  n <= load_count initial increment n /\ initial <= load_count initial increment n
  /\ load_count initial increment n < Z.max initial n + increment.
Proof.
  intros Hi Hc Hr Hn. unfold load_count.
  set (m := if n <? initial then initial else n).
  assert (Hm : m = Z.max initial n) by (subst m; destruct (Z.ltb_spec n initial); lia).
  clearbody m. pose proof (Z.quot_rem' m increment) as Hq.
  pose proof (Z.rem_bound_pos m increment). destruct (Z.eqb_spec (Z.rem m increment) 0); nia.
Qed.

(** ** Inserting a list of entries *)
Section load_list.
Context {E K V T : Type} `{Countable K}.
Context (live : E -> bool) (key : E -> K) (val : E -> V).
Context (ins : E -> M T unit) (tbl : T -> gmap K V) (Inv : Z -> T -> Prop).

Definition keys (st : list E) : list K := key <$> filter (fun e => live e = true) st.

Lemma contents_filter st :
  contents live key val (filter (fun e => live e = true) st) = contents live key val st.
Proof.
  induction st as [|e st IH]; [done|]. destruct (live e) eqn:Hl.
  - rewrite filter_cons_True by done. simpl. by rewrite Hl, IH.
  - rewrite filter_cons_False by congruence. simpl. by rewrite Hl, IH.
Qed.

Lemma contents_not_key st k : k ∉ keys st -> contents live key val st !! k = None.
Proof.
  unfold keys. induction st as [|e st IH]; [done|]. simpl. destruct (live e) eqn:Hl.
  - rewrite filter_cons_True by done. rewrite fmap_cons, not_elem_of_cons. intros [Hne Hn].
    rewrite lookup_insert_ne by done. auto.
  - rewrite filter_cons_False by congruence. auto.
Qed.

Lemma uniq_keys st : uniq live key st -> NoDup (keys st).
Proof.
  unfold keys. induction st as [|e st IH]; intros Hu; [constructor|].
  specialize (IH (uniq_cons _ _ _ _ Hu)). destruct (live e) eqn:Hl.
  - rewrite filter_cons_True by done. rewrite fmap_cons. constructor; [|done].
    intros (x & Hk & [Hlx [j Hj]%list_elem_of_lookup]%list_elem_of_filter)%list_elem_of_fmap.
    assert (Hz : zget (e :: st) (Z.of_nat (S j)) = Some x).
    { unfold zget. destruct (Z.ltb_spec (Z.of_nat (S j)) 0); [lia|]. by rewrite Nat2Z.id. }
    assert (Z.of_nat (S j) = 0); [|lia]. by apply (Hu _ _ x e).
  - by rewrite filter_cons_False by congruence.
Qed.

(** [Inv n]: the table is well formed and has room for [n] more entries. *)
Context (ins_spec : forall e s n, 0 <= n -> Inv (n + 1) s -> live e = true -> tbl s !! key e = None ->
  wp (ins e) s (fun _ s' => Inv n s' /\ tbl s' = <[key e := val e]> (tbl s))).

Lemma load_list es : forall s n,
  0 <= n -> Inv (n + zlen es) s -> Forall (fun e => live e = true) es -> NoDup (key <$> es) ->
  (forall e, e ∈ es -> tbl s !! key e = None) ->
  wp (for_each es ins) s (fun _ s' => Inv n s' /\ tbl s' = contents live key val es ∪ tbl s).
Proof.
  unfold zlen. induction es as [|e es IH]; intros s n Hn HI Hl Hnd Hfr; simpl.
  { apply wp_ret. rewrite Z.add_0_r in HI. by rewrite (left_id_L ∅ (∪)). }
  apply Forall_cons in Hl as [Hle Hl]. rewrite fmap_cons in Hnd. apply NoDup_cons in Hnd as [Hni Hnd].
  wp_step. eapply wp_mono; [apply (ins_spec e s (n + Z.of_nat (length es))); try done; [lia| |]|].
  - simpl in HI. by replace (n + Z.of_nat (length es) + 1) with (n + Z.of_nat (S (length es))) by lia.
  - apply Hfr. left.
  - cbn beta. intros [] s1 [HI1 Ht1]. eapply wp_mono; [apply (IH s1 n); try done|].
    + intros x Hx. rewrite Ht1, lookup_insert_ne; [apply Hfr; by right|].
      intros Heq. apply Hni. rewrite Heq. by apply list_elem_of_fmap_2.
    + cbn beta. intros [] s' [HI' Ht']. split; [done|]. rewrite Ht', Ht1, Hle.
      rewrite <- insert_union_l. symmetry. apply insert_union_r. apply contents_not_key.
      intros (x & Hk & [_ Hx]%list_elem_of_filter)%list_elem_of_fmap. apply Hni. rewrite Hk.
      by apply list_elem_of_fmap_2.
Qed.
End load_list.

End FileThms.

(** Bring [field off n (f1 ++ f2 ++ ...)] to the value of the field at [off]; [len]
    rewrites the lengths of the parts. *)
Ltac read_field len :=
  repeat (rewrite FileThms.field_skip by (len; simpl; lia); len; simpl Nat.sub);
  first [rewrite FileThms.field_hd by (len; done) | rewrite FileThms.field_end by (len; done)].

Local Arguments le_bytes : simpl never.

Module VSSFileThms.
Import VSS VSSThms FileIO FileThms VSSFile.

(** The entry fits the integer types of its fields. *)
Definition fits (e : VSSEntry) : Prop :=
  - 2 ^ 63 <= lbid e < 2 ^ 63 /\ - 2 ^ 31 <= verID e < 2 ^ 31.

Section layout.
Context (pad : VSSEntry -> list Z) (pad_size : forall e, length (pad e) = 6%nat).

Lemma vss_encode_length e : length (encode pad e) = 24%nat.
Proof.
  unfold encode, b2z8. rewrite !length_app, !length_le_bytes, length_take, length_drop, pad_size. done.
Qed.

Lemma vss_decode_encode e : fits e -> decode (encode pad e) = with_next (i32 (next e)) e.
Proof.
  intros [Hl Hv]. destruct e as [l v f k nx]. unfold decode, encode, with_next, b2z8.
  cbn [lbid verID vbFlag locked next] in *.
  assert (Ht : length (take 2 (pad (mkEntry l v f k nx))) = 2%nat) by (by rewrite length_take, pad_size).
  set (p1 := take 2 _) in *. set (p2 := drop 2 _). clearbody p1 p2.
  assert (Hb : forall b : bool, length [if b then 1 else 0] = 1%nat) by done.
  f_equal; read_field ltac:(rewrite ?length_le_bytes, ?Hb, ?Ht).
  - by apply file_i64.
  - by apply le_val_i32.
  - by destruct f.
  - by destruct k.
  - apply le_val_i32_gen.
Qed.
End layout.

(** The state during the insertions of [load]: an object with room for [n] more
    entries, nothing in its undo log. *)
Definition loading (cap az n : Z) (s : t) : Prop :=
  wf (seg s) /\ currentSize (hdr (seg s)) + n <= capacity (hdr (seg s)) /\
  capacity (hdr (seg s)) = cap /\ allocdSize s = az /\ undoRecords s = [].

Lemma load_insert cap az e s n :
  0 <= n -> loading cap az (n + 1) s -> live e = true -> abs (seg s) !! key e = None ->
  wp (insert (lbid e) (verID e) (vbFlag e) (locked e) true) s (fun _ s' =>
    loading cap az n s' /\ abs (seg s') = <[key e := val e]> (abs (seg s))).
Proof.
  intros Hn (Hw & Hroom & Hc & Ha & Hu) Hl Hk. unfold insert. wp_steps.
  destruct (Z.eqb_spec (currentSize (hdr (seg s))) (capacity (hdr (seg s)))); [lia|]. wp_steps.
  eapply wp_mono; [apply (vss_insert_entry_spec s (mkEntry (lbid e) (verID e) (vbFlag e) (locked e) (-1)) true);
    try done; [lia|by apply vss_live_lbid]|].
  intros [] s' (Hw' & Ha' & Hsz & Haz & _ & Hu' & Hc'). split; [|done].
  split_and!; try done; try lia; congruence.
Qed.

Lemma in_table_load l d s (Q : t -> Prop) :
  wp (for_each l (fun e => insert (lbid e) (verID e) (vbFlag e) (locked e) true)) s (fun _ => Q) ->
  wp (for_each l (fun e => in_table (insert (lbid e) (verID e) (vbFlag e) (locked e) true))) (d, s)
    (fun _ st => st.1 = d /\ Q st.2).
Proof.
  revert s. induction l as [|e l IH]; intros s H; simpl in *; [done|].
  apply wp_bind. unfold in_table. apply wp_zoom. simpl.
  unfold wp in H |- *. unfold mbind, M_bind in H.
  destruct (insert _ _ _ _ _ s) as [[[]| |] s1]; try done. by apply IH.
Qed.

(** What [save] writes. *)
Definition image (pad : VSSEntry -> list Z) (s : t) : list Z :=
  le_bytes 4 VSS_MAGIC_V1 ++ le_bytes 4 (currentSize (hdr (seg s)))
  ++ (filter (fun e => used e = true) (storage (seg s)) ≫= encode pad).

Lemma vss_save_spec pad s d :
  (forall e, length (pad e) = 6%nat) -> zlen (storage (seg s)) = capacity (hdr (seg s)) ->
  capacity (hdr (seg s)) * 24 < 2 ^ 31 ->
  isOpen d = true -> bytes d = [] -> no_stall d ->
  wpe (save pad s) d (fun _ d' => bytes d' = image pad s)
    (fun e => (exists m, e = runtime_error m) /\ exists k, answer d k < 8).
Proof.
  intros Hp Hst Hc Ho Hb Hns. unfold save. apply wpe_bind, wpe_gets. rewrite Ho. cbn [negb].
  apply wpe_bind. unfold wpe at 1, write.
  destruct (Z.ltb_spec (answer d (calls d)) 0) as [Hneg|Hpos]; cbn [negb].
  { unfold wpe, throw. split; [eauto|]. exists (calls d). lia. }
  set (h := le_bytes 4 VSS_MAGIC_V1 ++ le_bytes 4 (currentSize (hdr (seg s)))).
  assert (Hh : length h = 8%nat) by (unfold h; rewrite length_app, !length_le_bytes; done).
  fold h. unfold zlen. rewrite Hh.
  destruct (Z.eqb_spec (Z.min (answer d (calls d)) (Z.of_nat 8)) 8) as [H8|H8]; simpl.
  2: { unfold wpe, throw. split; [eauto|]. exists (calls d). lia. }
  rewrite H8. eapply wpe_mono; [apply (save_entries_spec used (encode pad) _ _ 24); try done|..].
  - intros e. by apply vss_encode_length.
  - cbn beta. intros [] d' [Hb' _]. rewrite Hb'. unfold step. cbn [bytes]. rewrite Hb, take_ge by (rewrite Hh; lia).
    unfold image, h. by rewrite <- app_assoc.
  - intros e [-> [k Hk]]. split; [eauto|]. exists k. simpl in Hk. lia.
Qed.

Lemma growForLoad_spec n s :
  0 <= n <= 80000000 ->
  wp (growForLoad n) s (fun _ s' => exists cap az, loading cap az n s' /\ abs (seg s') = ∅ /\
    VSS_INITIAL_SIZE <= az).
Proof.
  intros Hn. unfold growForLoad.
  destruct (load_count_spec VSSSTORAGE_INITIAL_COUNT VSSSTORAGE_INCREMENT_COUNT n) as (H1 & H2 & H3);
    try done; [lia|].
  set (c := load_count _ _ n) in *. clearbody c.
  change VSSSTORAGE_INITIAL_COUNT with 200000 in *. change VSSSTORAGE_INCREMENT_COUNT with 20000 in *.
  assert (Hsz : VSS_SIZE c = c * 24 + c / 4 * 4 + 20) by done.
  pose proof (Z.div_mod c 4) as Hd. pose proof (Z.mod_pos_bound c 4).
  destruct (Z.leb_spec (2 ^ 31) (VSS_SIZE c)); [lia|]. wp_steps.
  destruct (vss_wf_blank (chooseShmkey (shmkey (seg s))) c 0 (c / 4) 0) as [Hw Ha]; [lia|lia|].
  exists c, (VSS_SIZE c). split_and!; try done; simpl; try lia.
  change VSS_INITIAL_SIZE with 5000020. rewrite Hsz. lia.
Qed.

(** Loading an image into any object. *)
Lemma vss_load_spec pad s0 s d :
  (forall e, length (pad e) = 6%nat) -> wf (seg s0) -> currentSize (hdr (seg s0)) <= 80000000 ->
  Forall (fun e => used e = true -> fits e) (storage (seg s0)) ->
  isOpen d = true -> transfers 8 d -> bytes d = image pad s0 ->
  wp load (d, s) (fun _ st => wf (seg st.2) /\ abs (seg st.2) = abs (seg s0) /\ undoRecords st.2 = [] /\
    VSS_INITIAL_SIZE <= allocdSize st.2 /\
    currentSize (hdr (seg st.2)) <= capacity (hdr (seg st.2))).
Proof.
  intros Hp Hw Hsz Hf Ho Ht Hb. unfold load. wp_steps. cbn. rewrite Ho. simpl.
  set (es := filter (fun e => used e = true) (storage (seg s0))) in *.
  assert (Hn : currentSize (hdr (seg s0)) = zlen es) by (symmetry; apply (wf_count _ _ _ Hw)).
  unfold image in Hb. rewrite (app_assoc (le_bytes 4 _)) in Hb.
  wp_step. unfold in_file at 1. wp_step. cbn [fst snd].
  eapply wp_mono; [apply (read_spec 8 d _ _ Ht Hb); [unfold zlen; by rewrite length_app, !length_le_bytes]|].
  cbn beta. intros ? d1 (-> & Hb1 & Hs1). rewrite Z.eqb_refl. cbn [negb].
  rewrite field_hd, field_skip by (by rewrite length_le_bytes). rewrite length_le_bytes.
  simpl Nat.sub. rewrite field_end by apply length_le_bytes.
  rewrite !le_val_i32, Hn by (unfold zlen in *; unfold VSS_MAGIC_V1; lia).
  rewrite Z.eqb_refl. cbn [negb]. destruct (Z.ltb_spec (zlen es) 0); [unfold zlen in *; lia|].
  wp_step. unfold in_table at 1. wp_step. cbn [fst snd].
  eapply wp_mono; [apply growForLoad_spec; lia|]. cbn beta.
  intros [] s1 (cap & az & Hld & Habs & Haz).
  wp_step. unfold in_file. wp_step. cbn [fst snd].
  assert (Hlen : length (es ≫= encode pad) = (length es * 24)%nat)
    by (apply length_encode; intros; by apply vss_encode_length).
  eapply wp_mono; [apply (read_loop_spec _ _ _ _ [] (es ≫= encode pad) [])|].
  - rewrite Hlen. unfold zlen, sizeof_VSSEntry. lia.
  - unfold zlen, sizeof_VSSEntry. rewrite Hlen. lia.
  - unfold zlen, sizeof_VSSEntry in *. lia.
  - intros k. rewrite (proj2 Hs1). specialize (Ht k). lia.
  - by rewrite app_nil_r.
  - cbn beta. intros ? d2 (-> & _ & _). rewrite app_nil_l.
    replace (Z.to_nat (zlen es)) with (length es) by (unfold zlen; lia).
    rewrite <- (app_nil_r (es ≫= encode pad)), (structs_spec _ _ _ (fun e => with_next (i32 (next e)) e)).
    2: { intros e [Hu He]%list_elem_of_filter. split; [by apply vss_encode_length|].
         apply vss_decode_encode; [done|]. rewrite Forall_forall in Hf. by apply Hf. }
    eapply wp_mono; [apply in_table_load, (load_list live key val _ (fun s => abs (seg s)) (loading cap az)
      (load_insert cap az) _ s1 0)|]; try done.
    + by rewrite zlen_fmap.
    + apply Forall_fmap, Forall_forall. intros e [Hu _]%list_elem_of_filter. done.
    + rewrite <- list_fmap_compose. by apply uniq_keys, (tb_uniq _ (wf_tab _ _ _ Hw)).
    + intros e _. by rewrite Habs.
    + cbn beta. intros [] st [_ [(Hw2 & Hroom & Hc & Haz2 & Hu) Ha2]].
      split_and!; try done; [|lia|lia]. rewrite Ha2, Habs, (right_id_L ∅ (∪)).
      transitivity (contents live key val es); [|apply contents_filter]. clear.
      induction es as [|e l IH]; simpl; [done|]. by rewrite <- IH.
Qed.

(** The save file of the VSS: [save] into an opened file that makes progress
    either throws (only when some write transferred fewer than eight bytes) or has
    written the complete image; it never returns with a truncated file. *)
Theorem vss_save_complete pad s d :
  (forall e, length (pad e) = 6%nat) -> wf (seg s) -> capacity (hdr (seg s)) <= 80000000 ->
  isOpen d = true -> bytes d = [] -> no_stall d ->
  match save pad s d with
  | (Val _, d') => bytes d' = image pad s
  | (Exn e, _) => (exists m, e = runtime_error m) /\ exists k, answer d k < 8
  | (Fault _, _) => False
  end.
Proof.
  intros Hp Hw Hc Ho Hb Hns. apply vss_save_spec; try done; [|lia]. apply (tb_cap _ (wf_tab _ _ _ Hw)).
Qed.

(** With a device that transfers the header in one go the save does not throw. *)
Lemma vss_save_run pad s d :
  (forall e, length (pad e) = 6%nat) -> wf (seg s) -> capacity (hdr (seg s)) <= 80000000 ->
  isOpen d = true -> bytes d = [] -> transfers 8 d -> wp (save pad s) d (fun _ d' => bytes d' = image pad s).
Proof.
  intros Hp Hw Hc Ho Hb Ht. assert (Hns : no_stall d) by (intros k; specialize (Ht k); lia).
  eapply wpe_wp; [apply vss_save_spec; try done; [apply (tb_cap _ (wf_tab _ _ _ Hw))|lia]|].
  intros e [_ [k Hk]]. specialize (Ht k). lia.
Qed.

Lemma vss_size_cap s : wf (seg s) -> currentSize (hdr (seg s)) <= capacity (hdr (seg s)).
Proof.
  intros Hw. pose proof (live_count_bounds live (storage (seg s))) as Hlc.
  rewrite (wf_count _ _ _ Hw), (tb_cap _ (wf_tab _ _ _ Hw)) in Hlc. lia.
Qed.

(** Round trip: what [save] writes to a working file, [load] reads back. Into
    whatever object it is loaded, the result is a well-formed table with the same
    versions, vbFlags and locks, an empty undo log, and room to go on. *)
Theorem vss_save_load pad s s0 d rd :
  (forall e, length (pad e) = 6%nat) -> wf (seg s) -> capacity (hdr (seg s)) <= 80000000 ->
  Forall (fun e => used e = true -> fits e) (storage (seg s)) ->
  isOpen d = true -> bytes d = [] -> transfers 8 d -> isOpen rd = true -> transfers 8 rd ->
  exists d', save pad s d = (Val tt, d') /\
    wp load (mkDev true (answer rd) (calls rd) (bytes d'), s0) (fun _ st =>
      wf (seg st.2) /\ abs (seg st.2) = abs (seg s) /\ undoRecords st.2 = [] /\
      VSS_INITIAL_SIZE <= allocdSize st.2 /\
      currentSize (hdr (seg st.2)) <= capacity (hdr (seg st.2))).
Proof.
  intros Hp Hw Hc Hf Ho Hb Ht Hor Htr.
  destruct (wp_run _ _ _ (vss_save_run pad s d Hp Hw Hc Ho Hb Ht)) as ([] & d' & Hrun & Hb').
  exists d'. split; [done|]. apply (vss_load_spec pad); try done. pose proof (vss_size_cap s Hw). lia.
Qed.

Definition dev0 : Dev := mkDev true (fun k => Z.of_nat k + 8) 0 [].
Definition pad0 (e : VSSEntry) : list Z := [1; 2; 3; 4; 5; 6].

Lemma obj1_fits : Forall (fun e => used e = true -> fits e) (storage (seg VSSClaims.obj1)).
Proof. repeat constructor; simpl; lia. Qed.

Lemma dev0_transfers : transfers 8 dev0.
Proof. intros k. simpl. lia. Qed.

Lemma vss_save_complete_witness :
  match save pad0 VSSClaims.obj1 dev0 with
  | (Val _, d') => bytes d' = image pad0 VSSClaims.obj1
  | (Exn e, _) => (exists m, e = runtime_error m) /\ exists k, answer dev0 k < 8
  | (Fault _, _) => False
  end.
Proof.
  apply (vss_save_complete pad0 VSSClaims.obj1 dev0).
  - done.
  - apply VSSClaims.seg1_wf.
  - vm_compute. done.
  - reflexivity.
  - reflexivity.
  - intros k. pose proof (dev0_transfers k). lia.
Defined.

Lemma vss_save_load_witness :
  exists d', save pad0 VSSClaims.obj1 dev0 = (Val tt, d') /\
    wp load (mkDev true (answer dev0) 0 (bytes d'), VSSClaims.obj1) (fun _ st =>
      wf (seg st.2) /\ abs (seg st.2) = abs (seg VSSClaims.obj1) /\ undoRecords st.2 = [] /\
      VSS_INITIAL_SIZE <= allocdSize st.2 /\
      currentSize (hdr (seg st.2)) <= capacity (hdr (seg st.2))).
Proof.
  apply (vss_save_load pad0 VSSClaims.obj1 VSSClaims.obj1 dev0 dev0).
  - done.
  - apply VSSClaims.seg1_wf.
  - vm_compute. done.
  - apply obj1_fits.
  - reflexivity.
  - reflexivity.
  - apply dev0_transfers.
  - reflexivity.
  - apply dev0_transfers.
Defined.

End VSSFileThms.

Module VBBMFileThms.
Import VBBM VBBMThms FileIO FileThms VBBMFile.

(** The values fit the integer types of their fields. *)
Definition fits (e : VBBMEntry) : Prop :=
  - 2 ^ 63 <= lbid e < 2 ^ 63 /\ - 2 ^ 31 <= verID e < 2 ^ 31 /\
  - 2 ^ 31 <= vbOID e < 2 ^ 31 /\ 0 <= vbFBO e < 2 ^ 32.
Definition fits_file (f : VBFileMetadata) : Prop :=
  - 2 ^ 31 <= OID f < 2 ^ 31 /\ 0 <= fileSize f < 2 ^ 64 /\ 0 <= nextOffset f < 2 ^ 64.

Lemma vbbm_encode_length e : length (encode e) = 24%nat.
Proof. unfold encode. rewrite !length_app, !length_le_bytes. done. Qed.

Lemma vbbm_decode_encode e : fits e -> decode (encode e) = with_next (i32 (next e)) e.
Proof.
  intros (Hl & Hv & Ho & Hf). destruct e as [l v o f nx]. unfold decode, encode, with_next.
  cbn [lbid verID vbOID vbFBO next] in *. f_equal; read_field ltac:(rewrite ?length_le_bytes).
  - by apply file_i64.
  - by apply le_val_i32.
  - by apply le_val_i32.
  - by apply (le_val_u 4).
  - apply le_val_i32_gen.
Qed.

Section layout.
Context (pad : VBFileMetadata -> list Z) (pad_size : forall f, length (pad f) = 4%nat).

Lemma encode_file_length f : length (encode_file pad f) = 24%nat.
Proof. unfold encode_file. rewrite !length_app, !length_le_bytes, pad_size. done. Qed.

Lemma decode_encode_file f : fits_file f -> decode_file (encode_file pad f) = f.
Proof.
  intros (Ho & Hs & Hn). destruct f as [o sz nx] eqn:Hf. unfold decode_file, encode_file.
  rewrite <- Hf. pose proof (pad_size f) as Hp. rewrite Hf in *. set (p := pad _) in *. clearbody p.
  cbn [OID fileSize nextOffset] in *. f_equal; read_field ltac:(rewrite ?length_le_bytes, ?Hp).
  - by apply le_val_i32.
  - by apply (le_val_u 8).
  - by apply (le_val_u 8).
Qed.
End layout.

(** An object with room for [n] more entries. *)
Definition loading (fs : list VBFileMetadata) (cap n : Z) (s : t) : Prop :=
  wf (seg s) /\ vbCurrentSize (hdr (seg s)) + n <= vbCapacity (hdr (seg s)) /\
  vbCapacity (hdr (seg s)) = cap /\ files (seg s) = fs /\ undoRecords s = [] /\ 0 < allocdSize s.

Lemma vbbm_load_insert fs cap e s n :
  0 <= n -> loading fs cap (n + 1) s -> live e = true -> abs (seg s) !! key e = None ->
  wp (insert (lbid e) (verID e) (vbOID e) (vbFBO e) true) s (fun _ s' =>
    loading fs cap n s' /\ abs (seg s') = <[key e := val e]> (abs (seg s))).
Proof.
  intros Hn (Hw & Hroom & Hc & Hf & Hu & Ha) Hl Hk. unfold insert. wp_steps.
  destruct (Z.eqb_spec (vbCurrentSize (hdr (seg s))) (vbCapacity (hdr (seg s)))); [lia|]. wp_steps.
  eapply wp_mono; [apply (insert_entry_spec s (mkEntry (lbid e) (verID e) (vbOID e) (vbFBO e) (-1)) true);
    try done; [lia|by apply live_lbid]|].
  intros [] s' (Hw' & Ha' & Hsz & Haz & _ & Hu' & Hc' & Hf' & _). split; [|done].
  split_and!; try done; try lia; congruence.
Qed.

Lemma vbbm_in_table_load l d s (Q : t -> Prop) :
  wp (for_each l (fun e => insert (lbid e) (verID e) (vbOID e) (vbFBO e) true)) s (fun _ => Q) ->
  wp (for_each l (fun e => in_table (insert (lbid e) (verID e) (vbOID e) (vbFBO e) true))) (d, s)
    (fun _ st => st.1 = d /\ Q st.2).
Proof.
  revert s. induction l as [|e l IH]; intros s H; simpl in *; [done|].
  apply wp_bind. unfold in_table. apply wp_zoom. simpl.
  unfold wp in H |- *. unfold mbind, M_bind in H.
  destruct (insert _ _ _ _ _ s) as [[[]| |] s1]; try done. by apply IH.
Qed.

(** What [save] writes. *)
Definition image (pad : VBFileMetadata -> list Z) (s : t) : list Z :=
  le_bytes 4 VBBM_MAGIC_V2 ++ le_bytes 4 (vbCurrentSize (hdr (seg s))) ++ le_bytes 4 (nFiles (hdr (seg s)))
  ++ (files (seg s) ≫= encode_file pad)
  ++ (filter (fun e => used e = true) (storage (seg s)) ≫= encode).

Lemma vbbm_save_spec pad s d :
  (forall f, length (pad f) = 4%nat) -> wf (seg s) -> vbCapacity (hdr (seg s)) * 24 < 2 ^ 31 ->
  isOpen d = true -> bytes d = [] -> transfers (4 + 24 * nFiles (hdr (seg s))) d ->
  wp (save pad s) d (fun _ d' => bytes d' = image pad s).
Proof.
  intros Hp Hw Hc Ho Hb Ht. pose proof (wf_files _ _ Hw) as Hnf. unfold save. wp_step. wp_step.
  rewrite Ho. cbn [negb].
  assert (Hlen : zlen (files (seg s) ≫= encode_file pad) = 24 * nFiles (hdr (seg s))).
  { unfold zlen in *. rewrite (length_encode (encode_file pad) 24) by (intros; by apply encode_file_length). lia. }
  assert (Hnn : 0 <= nFiles (hdr (seg s))) by (unfold zlen in *; lia).
  assert (H4 : forall z, zlen (le_bytes 4 z) = 4) by (intros; unfold zlen; by rewrite length_le_bytes).
  wp_step. eapply wp_mono; [apply (write_spec _ _ _ Ht); rewrite H4; lia|]. cbn beta. intros _ d1 [Hb1 Hs1].
  wp_step. eapply wp_mono; [apply (write_spec _ _ _ (transfers_same _ _ _ Hs1 Ht)); rewrite H4; lia|].
  cbn beta. intros _ d2 [Hb2 Hs2]. pose proof (same_file_trans _ _ _ Hs1 Hs2) as Hs12.
  wp_step. eapply wp_mono; [apply (write_spec _ _ _ (transfers_same _ _ _ Hs12 Ht)); rewrite H4; lia|].
  cbn beta. intros _ d3 [Hb3 Hs3]. pose proof (same_file_trans _ _ _ Hs12 Hs3) as Hs13.
  rewrite take_ge by (unfold zlen in *; lia).
  wp_step. eapply wp_mono; [apply (write_spec _ _ _ (transfers_same _ _ _ Hs13 Ht)); lia|].
  cbn beta. intros _ d4 [Hb4 Hs4]. pose proof (same_file_trans _ _ _ Hs13 Hs4) as Hs14.
  assert (Ht4 : transfers 1 d4).
  { intros k. pose proof (transfers_same _ _ _ Hs14 Ht k). lia. }
  eapply wpe_wp; [eapply (wpe_mono _ _ _ (fun _ d' => bytes d' = image pad s));
    [apply (save_entries_spec used encode _ _ 24 vbbm_encode_length)| |intros e He; exact He]|].
  - apply (wf_cap _ _ Hw).
  - lia.
  - intros k. specialize (Ht4 k). lia.
  - cbn beta. intros [] d' [Hb' _]. unfold image. by rewrite Hb', Hb4, Hb3, Hb2, Hb1, Hb, <- !app_assoc.
  - intros e [_ [k Hk]]. specialize (Ht4 k). lia.
Qed.

(** ** Loading *)
Lemma empty_dense g : wf g -> vbCurrentSize (hdr g) = 0 -> dense g.
Proof.
  intros Hw H0 i e Hi Hl. pose proof (wf_count _ _ Hw) as Hc. rewrite H0 in Hc. unfold live_count in Hc.
  assert (filter (fun e => live e = true) (storage g) = []) as Hnil
    by (apply length_zero_iff_nil; lia).
  assert (e ∈ filter (fun e => live e = true) (storage g)) as Hin; [|by rewrite Hnil in Hin; apply elem_of_nil in Hin].
  apply list_elem_of_filter. split; [done|]. unfold zget in Hi. destruct (i <? 0); [done|].
  by eapply list_elem_of_lookup_2.
Qed.

(** An empty object with [nf] files. *)
Definition cleared (nf : Z) (s : t) : Prop :=
  wf (seg s) /\ vbCurrentSize (hdr (seg s)) = 0 /\ nFiles (hdr (seg s)) = nf /\
  numHashBuckets (hdr (seg s)) = 25000 /\ 0 < allocdSize s <= 2500020 + 24 * nf.

Lemma setCurrentFileSize_spec cfg s (Q : unit -> t -> Prop) :
  cfgFileSize s = Some cfg -> 0 < cfg -> Q tt (set_cfs cfg (set_cfs 2147483648 s)) ->
  wp setCurrentFileSize s Q.
Proof.
  intros Hc Hp HQ. unfold setCurrentFileSize. wp_steps. cbn [cfgFileSize set_cfs]. rewrite Hc.
  destruct (Z.ltb_spec cfg 1); [lia|]. by wp_step.
Qed.

Lemma clear_spec s nf cfg :
  0 <= nf <= zlen (files (seg s)) -> nFiles (hdr (seg s)) = nf -> cfgFileSize s = Some cfg -> 0 < cfg ->
  wp clear s (fun _ => cleared nf).
Proof.
  intros Hnf Hh Hcfg Hpos. unfold clear. wp_step. wp_step. wp_step.
  apply (setCurrentFileSize_spec cfg); [done|done|]. wp_step. wp_step. wp_step. unfold initShmseg. wp_step.
  apply (setCurrentFileSize_spec cfg); [done|done|]. wp_step. wp_step.
  unfold cleared, set_alloc, set_seg, set_cfs, id. cbn [seg allocdSize hdr nFiles numHashBuckets vbCurrentSize].
  set (fs := fmap _ _).
  assert (Hfs : zlen fs = nf).
  { unfold fs, zlen in *. rewrite length_fmap, length_take. lia. }
  destruct (wf_blank (chooseShmkey (shmkey (seg s)))
    (mkHdr (zlen fs) (VBSTORAGE_INITIAL_SIZE / sizeof_VBBMEntry) 0 0 (VBTABLE_INITIAL_SIZE / sizeof_int)) fs)
    as [Hw _]; [done|done|done|done|].
  split; [exact Hw|]. split_and!; [done|done|done|..].
  all: unfold sizeof_VBShmsegHeader, sizeof_VBFileMetadata.
  all: change VBSTORAGE_INITIAL_SIZE with 2400000; change VBTABLE_INITIAL_SIZE with 100000; lia.
Qed.

Lemma add_files_spec n : forall s nf,
  nf + Z.of_nat n <= 1000000 -> cleared nf s -> wp (add_files n) s (fun _ => cleared (nf + Z.of_nat n)).
Proof.
  induction n as [|n IH]; intros s nf Hnf Hcl; simpl.
  { apply wp_ret. by rewrite Z.add_0_r. }
  destruct Hcl as (Hw & H0 & Hn & Hb & Ha). wp_step.
  eapply wp_mono; [apply growVBBM_spec; [done|by apply empty_dense|lia|split; change VBBM_INCREMENT with 250000; lia]|]. cbn beta.
  intros [] s1 (Hw1 & _ & _ & Hsz1 & Hn1 & _ & Hb1 & Ha1 & _).
  eapply wp_mono; [apply (IH s1 (nf + 1)); [lia|]|].
  - unfold sizeof_VBFileMetadata in Ha1. split_and!; done || lia.
  - intros u s2. by replace (nf + 1 + Z.of_nat n) with (nf + Z.of_nat (S n)) by lia.
Qed.

Lemma vbbm_growForLoad_spec n nf s :
  0 <= n <= 80000000 -> nf <= 1000000 -> cleared nf s ->
  wp (growForLoad n) s (fun _ s' => exists cap, loading (files (seg s)) cap n s' /\ abs (seg s') = ∅).
Proof.
  intros Hn Hnf (Hw & H0 & Hnf' & Hb & Ha). pose proof (wf_files _ _ Hw) as Hfl.
  unfold growForLoad. wp_steps.
  destruct (load_count_spec VBSTORAGE_INITIAL_COUNT VBSTORAGE_INCREMENT_COUNT n) as (H1 & H2 & H3);
    try done; [lia|].
  set (c := load_count _ _ n) in *. clearbody c.
  change VBSTORAGE_INITIAL_COUNT with 100000 in *. change VBSTORAGE_INCREMENT_COUNT with 10000 in *.
  assert (Hsz : VBBM_SIZE (nFiles (hdr (seg s))) c = c * 24 + c / 4 * 4 + nFiles (hdr (seg s)) * 24 + 20) by done.
  pose proof (Z.div_mod c 4) as Hd. pose proof (Z.mod_pos_bound c 4).
  assert (0 <= nFiles (hdr (seg s))) by (unfold zlen in *; lia).
  destruct (Z.leb_spec (2 ^ 31) (VBBM_SIZE (nFiles (hdr (seg s))) c)); [lia|]. wp_steps.
  rewrite take_ge by (unfold zlen in *; lia).
  destruct (wf_blank (chooseShmkey (shmkey (seg s)))
    (mkHdr (nFiles (hdr (seg s))) c 0 0 (c / 4)) (files (seg s))) as [Hw2 Ha2];
    [done|cbn; lia|cbn [numHashBuckets]; lia|done|].
  exists c. split; [|exact Ha2]. split; [exact Hw2|]. unfold set_undo, set_alloc, set_seg.
  cbn [seg hdr vbCurrentSize vbCapacity files undoRecords allocdSize]. split_and!; done || lia.
Qed.

Lemma overlay_spec pad fs old :
  (forall f, length (pad f) = 4%nat) -> Forall fits_file fs -> length old = length fs ->
  overlay (length fs) (fs ≫= encode_file pad) old = fs.
Proof.
  intros Hp Hf Hl. unfold overlay.
  rewrite drop_ge by (rewrite !(length_encode _ 24) by (intros; by apply encode_file_length); lia).
  rewrite (structs_spec _ _ _ id); [apply list_fmap_id|].
  intros f Hin. split; [by apply encode_file_length|]. apply decode_encode_file; [done|].
  rewrite Forall_forall in Hf. by apply Hf.
Qed.

Lemma set_files_loading fs fs' cap n s :
  loading fs cap n s -> length fs' = length fs ->
  loading fs' cap n (set_seg (set_files fs' (seg s)) s).
Proof.
  intros (Hw & Hr & Hc & Hf & Hu & Ha) Hl. split_and!; try done.
  pose proof (wf_files _ _ Hw) as Hfl. rewrite Hf in Hfl. destruct Hw. split; try done.
  unfold zlen in *. simpl. lia.
Qed.

Lemma read4 d v rest :
  transfers 4 d -> bytes d = le_bytes 4 v ++ rest ->
  wp (read 4) d (fun r d' => r = (4, le_bytes 4 v) /\ bytes d' = rest /\ same_file d d').
Proof. intros Ht Hb. apply read_spec; [done|done|]. unfold zlen. by rewrite length_le_bytes. Qed.

Lemma field4 v : - 2 ^ 31 <= v < 2 ^ 31 -> i32 (field 0 4 (le_bytes 4 v)) = v.
Proof. intros Hv. rewrite field_end by apply length_le_bytes. by apply le_val_i32. Qed.

(** The end of [loadVersion2]: the entries. *)
Lemma load_entries d s s0 cap fs :
  wf (seg s0) -> Forall (fun e => used e = true -> fits e) (storage (seg s0)) ->
  vbCurrentSize (hdr (seg s0)) <= 80000000 ->
  loading fs cap (vbCurrentSize (hdr (seg s0))) s -> abs (seg s) = ∅ ->
  transfers 4 d -> bytes d = filter (fun e => used e = true) (storage (seg s0)) ≫= encode ->
  wp (readBuf ← in_file (read_loop (Z.to_nat (vbCurrentSize (hdr (seg s0)) * sizeof_VBBMEntry))
          (runtime_error "VBBM::load(): Failed to load, check the critical log file")
          (runtime_error "VBBM::load(): Got early EOF") (vbCurrentSize (hdr (seg s0)) * sizeof_VBBMEntry) []);
      for_each (structs decode 24 (Z.to_nat (vbCurrentSize (hdr (seg s0)))) readBuf) (fun e =>
        in_table (insert (lbid e) (verID e) (vbOID e) (vbFBO e) true))) (d, s)
    (fun _ st => loading fs cap 0 st.2 /\ abs (seg st.2) = abs (seg s0)).
Proof.
  intros Hw Hf Hsz Hld Habs Ht Hb.
  set (es := filter (fun e => used e = true) (storage (seg s0))) in *.
  assert (Hn : vbCurrentSize (hdr (seg s0)) = zlen es) by (symmetry; apply (wf_count _ _ Hw)).
  rewrite Hn in *. wp_step. unfold in_file. wp_step. cbn [fst snd].
  assert (Hlen : length (es ≫= encode) = (length es * 24)%nat)
    by (apply length_encode; intros; by apply vbbm_encode_length).
  eapply wp_mono; [apply (read_loop_spec _ _ _ _ [] (es ≫= encode) [])|].
  - rewrite Hlen. unfold zlen, sizeof_VBBMEntry. lia.
  - unfold zlen, sizeof_VBBMEntry. rewrite Hlen. lia.
  - unfold zlen, sizeof_VBBMEntry in *. lia.
  - intros k. specialize (Ht k). lia.
  - by rewrite app_nil_r.
  - cbn beta. intros ? d2 (-> & _ & _). rewrite app_nil_l.
    replace (Z.to_nat (zlen es)) with (length es) by (unfold zlen; lia).
    rewrite <- (app_nil_r (es ≫= encode)), (structs_spec _ _ _ (fun e => with_next (i32 (next e)) e)).
    2: { intros e [Hu He]%list_elem_of_filter. split; [by apply vbbm_encode_length|].
         apply vbbm_decode_encode. rewrite Forall_forall in Hf. by apply Hf. }
    eapply wp_mono; [apply vbbm_in_table_load, (load_list live key val _ (fun s => abs (seg s)) (loading fs cap)
      (vbbm_load_insert fs cap) _ s 0)|]; try done.
    + by rewrite zlen_fmap.
    + apply Forall_fmap, Forall_forall. intros e [Hu _]%list_elem_of_filter. done.
    + rewrite <- list_fmap_compose. by apply uniq_keys, (wf_uniq _ _ Hw).
    + intros e _. by rewrite Habs.
    + cbn beta. intros [] st [_ [Hl2 Ha2]]. split; [done|]. rewrite Ha2, Habs, (right_id_L ∅ (∪)).
      transitivity (contents live key val es); [|apply contents_filter]. clear.
      induction es as [|e l IH]; simpl; [done|]. by rewrite <- IH.
Qed.

Lemma vbbm_load_spec pad s0 s d cfg :
  (forall f, length (pad f) = 4%nat) -> wf (seg s0) -> vbCurrentSize (hdr (seg s0)) <= 80000000 ->
  nFiles (hdr (seg s0)) <= 1000000 -> Forall fits_file (files (seg s0)) ->
  Forall (fun e => used e = true -> fits e) (storage (seg s0)) ->
  wf (seg s) -> cfgFileSize s = Some cfg -> 0 < cfg ->
  isOpen d = true -> transfers (4 + 24 * nFiles (hdr (seg s0))) d -> bytes d = image pad s0 ->
  wp load (d, s) (fun _ st => wf (seg st.2) /\ abs (seg st.2) = abs (seg s0) /\
    files (seg st.2) = files (seg s0) /\ undoRecords st.2 = [] /\ 0 < allocdSize st.2).
Proof.
  intros Hp Hw Hsz Hnf Hff Hf Hws Hcfg Hpos Ho Ht Hb. unfold load. wp_step. wp_step. cbn [fst]. rewrite Ho.
  pose proof (wf_files _ _ Hw) as Hfl. pose proof (live_count_bounds live (storage (seg s0))) as Hlc.
  rewrite (wf_count _ _ Hw) in Hlc. pose proof (wf_files _ _ Hws) as Hfls.
  set (nf := nFiles (hdr (seg s0))) in *. set (sz := vbCurrentSize (hdr (seg s0))) in *.
  assert (Hnn : 0 <= nf) by (unfold zlen in *; lia). unfold image in Hb. fold nf sz in Hb.
  assert (Ht4 : transfers 4 d) by (intros k; specialize (Ht k); lia).
  cbn [negb]. wp_step. unfold in_file at 1. wp_step. cbn [fst snd].
  eapply wp_mono; [apply (read4 _ _ _ Ht4 Hb)|]. cbn beta. intros ? d1 (-> & Hb1 & Hs1). cbn [Z.eqb Pos.eqb negb].
  rewrite field4 by done. rewrite Z.eqb_refl. unfold loadVersion2. wp_step. unfold in_file at 1. wp_step. cbn [fst snd].
  eapply wp_mono; [apply (read4 _ _ _ (transfers_same _ _ _ Hs1 Ht4) Hb1)|]. cbn beta.
  intros ? d2 (-> & Hb2 & Hs2'). pose proof (same_file_trans _ _ _ Hs1 Hs2') as Hs2. cbn [Z.eqb Pos.eqb negb].
  rewrite field4 by lia. wp_step. unfold in_file at 1. wp_step. cbn [fst snd].
  eapply wp_mono; [apply (read4 _ _ _ (transfers_same _ _ _ Hs2 Ht4) Hb2)|]. cbn beta.
  intros ? d3 (-> & Hb3 & Hs3'). pose proof (same_file_trans _ _ _ Hs2 Hs3') as Hs3. cbn [Z.eqb Pos.eqb negb].
  rewrite field4 by lia. wp_step. unfold in_table at 1. wp_step. cbn [fst snd]. apply wp_upd_hdr.
  wp_step. destruct (Z.ltb_spec nf 0); [lia|]. wp_step.
  set (nf0 := Z.min nf (nFiles (hdr (seg s)))).
  wp_step. unfold in_table at 1. wp_step. cbn [fst snd]. eapply wp_mono; [apply (clear_spec _ nf0 cfg)|]; try done.
  { cbn [seg set_seg files set_hdr]. subst nf0. unfold zlen in *. lia. }
  { cbn [seg set_seg hdr set_hdr]. subst nf0. destruct (Z.ltb_spec nf (nFiles (hdr (seg s)))); simpl; lia. }
  cbn beta. intros [] s1 Hcl. wp_step. wp_step. cbn [fst snd].
  replace (nFiles (hdr (seg s1))) with nf0 by (symmetry; apply Hcl).
  wp_step. unfold in_table at 1. wp_step. cbn [fst snd]. eapply wp_mono; [apply (fun H => add_files_spec _ _ _ H Hcl); lia|].
  cbn beta. intros [] s2. replace (nf0 + Z.of_nat (Z.to_nat (nf - nf0))) with nf by lia. intros Hcl2.
  wp_step. unfold in_table at 1. wp_step. cbn [fst snd].
  eapply wp_mono; [apply (vbbm_growForLoad_spec sz nf s2); [lia|done|done]|].
  cbn beta. intros [] s3 (cap & Hld & Ha3).
  assert (Hl2 : length (files (seg s2)) = length (files (seg s0))).
  { destruct Hcl2 as (Hw2 & _ & Hn2 & _). pose proof (wf_files _ _ Hw2). unfold zlen in *. lia. }
  wp_step. unfold in_file at 1. wp_step. cbn [fst snd]. eapply wp_mono; [apply (read_spec _ d3 _ _) with (2 := Hb3)|].
  { intros k. pose proof (transfers_same _ _ _ Hs3 Ht k). unfold sizeof_VBFileMetadata. lia. }
  { unfold zlen, sizeof_VBFileMetadata in *.
    rewrite (length_encode _ 24) by (intros; by apply encode_file_length). lia. }
  cbn beta. intros ? d4 (-> & Hb4 & Hs4'). pose proof (same_file_trans _ _ _ Hs3 Hs4') as Hs4.
  wp_step. unfold in_table at 1. wp_step. wp_step. cbn [fst snd].
  replace (Z.to_nat nf) with (length (files (seg s0))) by (unfold zlen in *; lia).
  rewrite overlay_spec; [|done|done|]. 2: { by rewrite (proj1 (proj2 (proj2 (proj2 Hld)))). }
  rewrite Z.eqb_refl. cbn [negb]. wp_step. destruct (Z.ltb_spec sz 0); [lia|]. wp_step.
  eapply wp_mono; [apply (load_entries _ _ _ cap (files (seg s0)) Hw Hf Hsz)|].
  - by apply (set_files_loading (files (seg s2))).
  - done.
  - by apply (transfers_same _ _ _ Hs4).
  - done.
  - cbn beta. intros _ st [(Hwf & _ & _ & Hfs & Hu & Ha) Habs]. done.
Qed.

Lemma vbbm_size_cap s : wf (seg s) -> vbCurrentSize (hdr (seg s)) <= vbCapacity (hdr (seg s)).
Proof.
  intros Hw. pose proof (live_count_bounds live (storage (seg s))) as Hlc.
  rewrite (wf_count _ _ Hw), (wf_cap _ _ Hw) in Hlc. lia.
Qed.

(** Round trip of the VBBM save file: what [save] writes to a working file,
    [load] reads back into any well-formed object (with fewer or more files): the
    same map from block versions to their place, the same file metadata, an empty
    undo log. *)
Theorem vbbm_save_load pad s s0 d rd cfg :
  (forall f, length (pad f) = 4%nat) -> wf (seg s) -> vbCapacity (hdr (seg s)) <= 80000000 ->
  nFiles (hdr (seg s)) <= 1000000 -> Forall fits_file (files (seg s)) ->
  Forall (fun e => used e = true -> fits e) (storage (seg s)) ->
  wf (seg s0) -> cfgFileSize s0 = Some cfg -> 0 < cfg ->
  isOpen d = true -> bytes d = [] -> transfers (4 + 24 * nFiles (hdr (seg s))) d ->
  isOpen rd = true -> transfers (4 + 24 * nFiles (hdr (seg s))) rd ->
  exists d', save pad s d = (Val tt, d') /\
    wp load (mkDev true (answer rd) (calls rd) (bytes d'), s0) (fun _ st =>
      wf (seg st.2) /\ abs (seg st.2) = abs (seg s) /\ files (seg st.2) = files (seg s) /\
      undoRecords st.2 = [] /\ 0 < allocdSize st.2).
Proof.
  intros Hp Hw Hc Hnf Hff Hf Hw0 Hcfg Hpos Ho Hb Ht Hor Htr.
  destruct (wp_run _ _ _ (vbbm_save_spec pad s d Hp Hw ltac:(lia) Ho Hb Ht)) as ([] & d' & Hrun & Hb').
  exists d'. split; [done|]. apply (vbbm_load_spec pad _ _ _ cfg); try done.
  pose proof (vbbm_size_cap s Hw). lia.
Qed.

Definition pad0 (f : VBFileMetadata) : list Z := [9; 9; 9; 9].
Definition dev0 : Dev := mkDev true (fun k => Z.of_nat k + 4) 0 [].

Lemma vbbm_save_load_witness :
  exists d', save pad0 VBBMClaims.obj0 dev0 = (Val tt, d') /\
    wp load (mkDev true (answer dev0) 0 (bytes d'), VBBMClaims.obj0) (fun _ st =>
      wf (seg st.2) /\ abs (seg st.2) = abs (seg VBBMClaims.obj0) /\
      files (seg st.2) = files (seg VBBMClaims.obj0) /\ undoRecords st.2 = [] /\ 0 < allocdSize st.2).
Proof.
  apply (vbbm_save_load pad0 VBBMClaims.obj0 VBBMClaims.obj0 dev0 dev0 2147483648).
  - done.
  - apply VBBMClaims.seg0_wf.
  - vm_compute. done.
  - vm_compute. done.
  - constructor.
  - repeat constructor; done.
  - apply VBBMClaims.seg0_wf.
  - reflexivity.
  - reflexivity.
  - reflexivity.
  - reflexivity.
  - intros k. simpl. lia.
  - reflexivity.
  - intros k. simpl. lia.
Defined.

(** The counts of the header writes are not looked at: a write that transfers only
    two of the four bytes of the magic number goes unnoticed, [save] returns
    normally and leaves a file no [load] accepts. *)
Lemma vbbm_save_short_header :
  exists d', save pad0 VBBMClaims.obj0 (mkDev true (fun k => if (k =? 0)%nat then 2 else 24) 0 []) = (Val tt, d') /\
    length (bytes d') = 10%nat /\
    exists d2 s2, load (mkDev true (fun _ => 24) 0 (bytes d'), VBBMClaims.obj0)
      = (Exn (runtime_error "VBBM::load(): Bad magic.  Not a VBBM file?"), (d2, s2)).
Proof. eexists. split; [vm_compute; reflexivity|]. split; [reflexivity|]. do 2 eexists. vm_compute. reflexivity. Qed.

End VBBMFileThms.
