(* ===== verification/ExtentMap.v ===== *)
(** * The extent map: its data, its index, its free list

    versioning/BRM/extentmap.{h,cpp}.  An extent is a range of LBIDs that holds a
    piece of a segment file; the extent map keeps
    - the tree of extents by first LBID ([ExtentMapRBTree], a [std::map]): [em];
    - the free list, an array of LBID ranges in units of 1024 blocks: [fFreeList];
    - the index dbroot -> OID -> partition -> first LBIDs ([ExtentMapIndexImpl]);
    - two undo logs: the images of [Undoable] for the free list and the sizes, and
      a list of extents for the tree.

    An iterator into the tree is the key it points to.  The memory management of
    the boost segments (when they are enlarged) is not modelled. *)

From S2P Require Import Prelude Undoable Vbbm.
From stdpp Require Import prelude gmap strings sorting.
Local Open Scope Z_scope.

(** [boost::unordered_map] visits its elements in an order of its own. *)
Class IterOrder := {
  umap_to_list {V} : gmap Z V -> list (Z * V);
  umap_to_list_perm {V} (m : gmap Z V) : umap_to_list m ≡ₚ map_to_list m }.

Global Instance map_order : IterOrder :=
  {| umap_to_list V m := map_to_list m; umap_to_list_perm V m := reflexivity _ |}.

(** An [std::map] by [int64_t]: its keys in order, and the iterators found by key. *)
Section ordered.
Context {V : Type}.
Implicit Type m : gmap Z V.

Definition keys m : list Z := merge_sort Z.le (map_to_list m).*1.
Definition lower_bound m (k : Z) : option Z := head (filter (fun j => k <= j) (keys m)).
(** [std::prev] of an iterator; [None] at [begin()]. *)
Definition prev_key m (k : Z) : option Z := last (filter (fun j => j < k) (keys m)).
(** [std::prev(end())] *)
Definition last_key m : option Z := last (keys m).
Definition values m : list V := omap (fun k => m !! k) (keys m).
End ordered.

Module ExtentMap.

(** ** Data *)
Inductive ColDataType :=
| BIT | TINYINT | CHAR | SMALLINT | DECIMAL | MEDINT | INT | FLOAT | DATE | BIGINT | DOUBLE | DATETIME
| VARCHAR | VARBINARY | CLOB | BLOB | UTINYINT | USMALLINT | UDECIMAL | UMEDINT | UINT | UFLOAT | UBIGINT
| UDOUBLE | TEXT | TIME | TIMESTAMP | NUM_OF_COL_DATA_TYPE | LONGDOUBLE | STRINT | UNDEFINED.

Definition isCharType (ty : ColDataType) : bool :=
  match ty with VARCHAR | CHAR | BLOB | TEXT => true | _ => false end.
Definition isUnsignedInteger (ty : ColDataType) : bool :=
  match ty with UTINYINT | USMALLINT | UMEDINT | UINT | UBIGINT => true | _ => false end.
Definition isUnsigned (ty : ColDataType) : bool :=
  isUnsignedInteger ty || match ty with CHAR | VARCHAR | TEXT | VARBINARY => true | _ => false end.

Definition MAXDECIMALWIDTH : Z := 16.

(** [loVal] and [hiVal] are the low halves of the 128-bit values. *)
Record EMCasualPartition := mkCP { sequenceNum : Z; isValid : Z; bigLoVal : Z; bigHiVal : Z }.

Definition CP_INVALID : Z := 0.
Definition CP_UPDATING : Z := 1.
Definition CP_VALID : Z := 2.

Definition u128 (z : Z) : Z := z mod 2 ^ 128.
Definition i128 (z : Z) : Z := (z + 2 ^ 127) mod 2 ^ 128 - 2 ^ 127.
Definition int128Max : Z := 2 ^ 127 - 1.
Definition int128Min : Z := - 2 ^ 127.
Definition low64 (big : Z) : Z := i64 big.
(** Assignment to the 64-bit member of the union. *)
Definition put64 (v big : Z) : Z := big - u64 big + u64 v.

Definition loVal (c : EMCasualPartition) : Z := low64 (bigLoVal c).
Definition hiVal (c : EMCasualPartition) : Z := low64 (bigHiVal c).
Definition with_seq n c := mkCP n (isValid c) (bigLoVal c) (bigHiVal c).
Definition with_valid v c := mkCP (sequenceNum c) v (bigLoVal c) (bigHiVal c).
Definition with_bigs lo hi c := mkCP (sequenceNum c) (isValid c) lo hi.
Definition with_vals lo hi c := mkCP (sequenceNum c) (isValid c) (put64 lo (bigLoVal c)) (put64 hi (bigHiVal c)).

Definition EM_MAX_SEQNUM : Z := 2000000000.
Definition incSeqNum (c : EMCasualPartition) : EMCasualPartition :=
  let n := sequenceNum c + 1 in with_seq (if EM_MAX_SEQNUM <? n then 0 else n) c.

(** The constructor without arguments. *)
Definition newCP : EMCasualPartition := mkCP 0 CP_INVALID int128Max int128Min.

(** The empty min/max range of a column type, as [_markInvalid] and the functions
    that create extents assign it. *)
Definition empty_range (ty : ColDataType) (colWidth : Z) (c : EMCasualPartition) : EMCasualPartition :=
  if isUnsigned ty then
    if negb (colWidth =? MAXDECIMALWIDTH) then with_vals (2 ^ 64 - 1) 0 c else with_bigs (-1) 0 c
  else
    if negb (colWidth =? MAXDECIMALWIDTH) then with_vals (2 ^ 63 - 1) (- 2 ^ 63) c
    else with_bigs int128Max int128Min c.

Record InlineLBIDRange := mkRange { r_start : Z; r_size : Z }.

Record EMEntry := mkEM {
  range : InlineLBIDRange; fileID : Z; blockOffset : Z; HWM : Z; partitionNum : Z; segmentNum : Z;
  dbRoot : Z; colWid : Z; status : Z; partition : EMCasualPartition }.

Definition EXTENTAVAILABLE : Z := 0.
Definition EXTENTUNAVAILABLE : Z := 1.
Definition EXTENTOUTOFSERVICE : Z := 2.

Definition with_HWM h e := mkEM (range e) (fileID e) (blockOffset e) h (partitionNum e) (segmentNum e) (dbRoot e) (colWid e) (status e) (partition e).
Definition with_status st e := mkEM (range e) (fileID e) (blockOffset e) (HWM e) (partitionNum e) (segmentNum e) (dbRoot e) (colWid e) st (partition e).
Definition with_dbRoot r e := mkEM (range e) (fileID e) (blockOffset e) (HWM e) (partitionNum e) (segmentNum e) r (colWid e) (status e) (partition e).
Definition with_cp c e := mkEM (range e) (fileID e) (blockOffset e) (HWM e) (partitionNum e) (segmentNum e) (dbRoot e) (colWid e) (status e) c.

Global Instance EMCasualPartition_eq_dec : EqDecision EMCasualPartition.
Proof. solve_decision. Defined.
Global Instance InlineLBIDRange_eq_dec : EqDecision InlineLBIDRange.
Proof. solve_decision. Defined.
Global Instance EMEntry_eq_dec : EqDecision EMEntry.
Proof. solve_decision. Defined.

Definition lbid0 (e : EMEntry) : Z := r_start (range e).
(** The number of blocks, as [LBID_t]. *)
Definition blocks (e : EMEntry) : Z := r_size (range e) * 1024.

(** ** The index *)
Notation PartitionIndex := (gmap Z (list Z)).
Notation OIDIndex := (gmap Z PartitionIndex).
Notation Index := (list OIDIndex).

Section index.
Context {IO : IterOrder}.

Definition insert3dLayer (partitions : PartitionIndex) (e : EMEntry) (lbid : Z) : PartitionIndex :=
  match partitions !! partitionNum e with
  | None => <[partitionNum e := [lbid]]> partitions
  | Some lbids => <[partitionNum e := lbids ++ [lbid]]> partitions
  end.

Definition insert2ndLayer (oids : OIDIndex) (e : EMEntry) (lbid : Z) : OIDIndex :=
  match oids !! fileID e with
  | None => <[fileID e := insert3dLayer ∅ e lbid]> oids
  | Some partitions => <[fileID e := insert3dLayer partitions e lbid]> oids
  end.

(** [while (dbRoot >= size()) push_back(...)] first. *)
Definition index_insert (e : EMEntry) (lbid : Z) (ix : Index) : Index :=
  let ix := ix ++ replicate (Z.to_nat (dbRoot e + 1) - length ix) ∅ in
  zset ix (dbRoot e) (insert2ndLayer (default ∅ (zget ix (dbRoot e))) e lbid).

Definition index_find3 (dbroot oid part : Z) (ix : Index) : list Z :=
  default [] (oids ← zget ix dbroot; partitions ← oids !! oid; partitions !! part).

Definition index_find2 (dbroot oid : Z) (ix : Index) : list Z :=
  default [] (oids ← zget ix dbroot; partitions ← oids !! oid;
              Some (umap_to_list partitions ≫= snd)).

Definition index_isDBRootEmpty (dbroot : Z) (ix : Index) : bool :=
  match zget ix dbroot with
  | None => true
  | Some oids => bool_decide (oids = ∅)
  end.

Definition index_deleteDbRoot (dbroot : Z) (ix : Index) : Index := zset ix dbroot ∅.

Definition index_deleteOID (dbroot oid : Z) (ix : Index) : Index :=
  match zget ix dbroot with
  | None => ix
  | Some oids => zset ix dbroot (delete oid oids)
  end.

(** Swap the found element with the last one and pop it; without one the iterator is
    [end()]. *)
Definition swap_pop (lbid : Z) (lbids : list Z) : outcome (list Z) :=
  match list_find (fun x => x = lbid) lbids, last lbids with
  | Some (i, _), Some b => Val (take (length lbids - 1) (<[i := b]> lbids))
  | _, _ => Fault OutOfBounds
  end.

Definition index_deleteEMEntry (e : EMEntry) (lbid : Z) (ix : Index) : outcome Index :=
  match zget ix (dbRoot e) with
  | None => Val ix
  | Some oids =>
      match oids !! fileID e with
      | None => Val ix
      | Some partitions =>
          match partitions !! partitionNum e with
          | None => Val ix
          | Some lbids =>
              if (1 <? length lbids)%nat then
                l ← swap_pop lbid lbids;
                Val (zset ix (dbRoot e) (<[fileID e := <[partitionNum e := l]> partitions]> oids))
              else
                Val (zset ix (dbRoot e) (<[fileID e := delete (partitionNum e) partitions]> oids))
          end
      end
  end.
End index.

(** ** The tree *)
Definition findByLBID (lbid : Z) (m : gmap Z EMEntry) : option Z :=
  match lower_bound m lbid with
  | None =>
      k ← last_key m;
      e ← m !! k;
      if (k <=? lbid) && (lbid <? k + u32 (blocks e)) then Some k else None
  | Some k => if k =? lbid then Some k else prev_key m k
  end.

(** ** The free list and the undo logs *)
Record MSTEntry := mkMST { tableShmkey : Z; allocdSize : Z; currentSize : Z }.
Definition with_cur n x := mkMST (tableShmkey x) (allocdSize x) n.

(** [flKey]: the key of the mapped free-list segment. *)
Record Mem := mkMem { fFLShminfo : MSTEntry; fEMShminfo : MSTEntry; flKey : Z; fFreeList : list InlineLBIDRange }.
Definition set_flinfo x m := mkMem x (fEMShminfo m) (flKey m) (fFreeList m).
Definition set_eminfo x m := mkMem (fFLShminfo m) x (flKey m) (fFreeList m).
Definition set_fl l m := mkMem (fFLShminfo m) (fEMShminfo m) (flKey m) l.

(** What [makeUndoRecord] is called on.  [LPtr] is [&fFLShminfo] and
    [&fEMRBTreeShminfo]: the address of the pointer, not what it points to. *)
Inductive Loc := LFree (key i : Z) | LFLInfo | LEMInfo | LPtr.
Inductive Data := DFree (r : InlineLBIDRange) | DInfo (x : MSTEntry) | DPtr.

Definition sizeof_InlineLBIDRange : Z := 16.
Definition sizeof_MSTEntry : Z := 12.
Definition sizeof_EMEntry : Z := 96.

Definition read_loc (l : Loc) (m : Mem) : outcome Data :=
  match l with
  | LFree k i => if k =? flKey m then r ← aget (fFreeList m) i; Val (DFree r) else Fault StaleAddress
  | LFLInfo => Val (DInfo (fFLShminfo m))
  | LEMInfo => Val (DInfo (fEMShminfo m))
  | LPtr => Val DPtr
  end.

Definition write_loc (l : Loc) (d : Data) (m : Mem) : outcome Mem :=
  match l, d with
  | LFree k i, DFree r =>
      if k =? flKey m then _ ← aget (fFreeList m) i; Val (set_fl (zset (fFreeList m) i r) m)
      else Fault StaleAddress
  | LFLInfo, DInfo x => Val (set_flinfo x m)
  | LEMInfo, DInfo x => Val (set_eminfo x m)
  | LPtr, DPtr => Val m
  | _, _ => Fault OutOfBounds
  end.

Definition loc_size (l : Loc) : Z :=
  match l with LFree _ _ => sizeof_InlineLBIDRange | _ => sizeof_MSTEntry end.

Global Program Instance em_mem : UndoMem Mem Loc Data :=
  {| um_read := read_loc; um_write := write_loc; um_size := loc_size |}.
Next Obligation.
  intros l d v [fi ei k fl] m'. destruct l as [key i| | |]; simpl; unfold aget.
  - destruct (key =? k) eqn:Hk, (zget fl i) eqn:Hi, v; simpl; intros Hr Hw; simplify_eq; simpl.
    rewrite Hk, zget_zset_eq by eauto using zget_Some_range. simpl. by rewrite zset_zset, zset_id.
  - destruct v; simpl; intros; by simplify_eq.
  - destruct v; simpl; intros; by simplify_eq.
  - destruct v; simpl; intros; by simplify_eq.
Qed.
Next Obligation.
  intros l d [fi ei k fl]. destruct l as [key i| | |]; simpl; unfold aget; try (intros; by simplify_eq).
  destruct (key =? k) eqn:Hk, (zget fl i) eqn:Hi; simpl; intros Hr; simplify_eq; simpl.
  by rewrite zset_id.
Qed.

Inductive UndoRecordType := DEFAULT | INSERT | DELETE.

(** ** The object

    The locks are those this process holds: write locks until the command is
    confirmed or undone, and the number of read locks. *)
Record Locks := mkLocks {
  emLocked : bool; emIndexLocked : bool; flLocked : bool; emReads : Z; ixReads : Z; flReads : Z }.

(** From the configuration and OAM: files per column partition, the number of
    dbroots, and all dbroots in the order of [getAllDbRoots]. *)
Record Config := mkConfig { filesPerColumnPartition : Z; dbRootCount : Z; allDbRoots : list Z }.

Record t := mk {
  em : gmap Z EMEntry; mem : Mem; index : Index; undoRecords : list (ImageDelta Loc Data);
  undoRecordsRBTree : list (UndoRecordType * EMEntry); locks : Locks; config : Config }.

Definition set_em x s := mk x (mem s) (index s) (undoRecords s) (undoRecordsRBTree s) (locks s) (config s).
Definition set_mem x s := mk (em s) x (index s) (undoRecords s) (undoRecordsRBTree s) (locks s) (config s).
Definition set_index x s := mk (em s) (mem s) x (undoRecords s) (undoRecordsRBTree s) (locks s) (config s).
Definition set_undo x s := mk (em s) (mem s) (index s) x (undoRecordsRBTree s) (locks s) (config s).
Definition set_undoRB x s := mk (em s) (mem s) (index s) (undoRecords s) x (locks s) (config s).
Definition set_locks x s := mk (em s) (mem s) (index s) (undoRecords s) (undoRecordsRBTree s) x (config s).

Definition makeUndo (loc : Z -> Loc) : M t unit := fun s =>
  match makeUndoRecord (loc (flKey (mem s))) (mem s) (undoRecords s) with
  | Val r => (Val tt, set_undo r s)
  | Exn e => (Exn e, s)
  | Fault f => (Fault f, s)
  end.

Definition makeUndoRB (ty : UndoRecordType) (e : EMEntry) : M t unit :=
  modify (fun s => set_undoRB (undoRecordsRBTree s ++ [(ty, e)]) s).

(** [*it] of a tree iterator. *)
Definition deref (k : Z) : M t EMEntry := fun s =>
  match em s !! k with
  | Some e => (Val e, s)
  | None => (Fault OutOfBounds, s)
  end.

(** Log the extent and update it. *)
Definition log_update (k : Z) (f : EMEntry -> EMEntry) : M t unit :=
  e ← deref k;
  makeUndoRB DEFAULT e ;;
  modify (fun s => set_em (<[k := f e]> (em s)) s).

Definition upd_free (i : Z) (f : InlineLBIDRange -> InlineLBIDRange) : M t unit := fun s =>
  match zget (fFreeList (mem s)) i with
  | Some r => (Val tt, set_mem (set_fl (zset (fFreeList (mem s)) i (f r)) (mem s)) s)
  | None => (Fault OutOfBounds, s)
  end.

Definition upd_flinfo (f : MSTEntry -> MSTEntry) : M t unit :=
  modify (fun s => set_mem (set_flinfo (f (fFLShminfo (mem s))) (mem s)) s).
Definition upd_eminfo (f : MSTEntry -> MSTEntry) : M t unit :=
  modify (fun s => set_mem (set_eminfo (f (fEMShminfo (mem s))) (mem s)) s).

Definition KEYRANGE_EMFREELIST_BASE : Z := 0x30000.
Definition EM_FREELIST_INITIAL_SIZE : Z := 50 * sizeof_InlineLBIDRange.
Definition EM_FREELIST_INCREMENT : Z := 50 * sizeof_InlineLBIDRange.
Definition EM_RB_TREE_NODE_SIZE : Z := sizeof_EMEntry + 8 * 8.
Definition EM_RB_TREE_EMPTY_SIZE : Z := 1024.

Definition chooseShmkey (tableShmkey base : Z) : Z :=
  if (tableShmkey + 1 =? base + VBBM.KEYRANGE_SIZE - 1) || (u32 tableShmkey <? base)
  then base + 1 else tableShmkey + 1.

Definition flEntries (m : Mem) : Z := allocdSize (fFLShminfo m) / sizeof_InlineLBIDRange.

Definition emptyRange : InlineLBIDRange := mkRange 0 0.
(** The whole space: 2^36 LBIDs. *)
Definition wholeRange : InlineLBIDRange := mkRange 0 (2 ^ 26).

(** [growFLShmseg]: a new segment, the rest of it zeroed. *)
Definition growFLShmseg : M t unit :=
  modify (fun s =>
    let info := fFLShminfo (mem s) in
    let first := allocdSize info =? 0 in
    let allocSize := if first then EM_FREELIST_INITIAL_SIZE else allocdSize info + EM_FREELIST_INCREMENT in
    let key := chooseShmkey (tableShmkey info) KEYRANGE_EMFREELIST_BASE in
    let n := Z.to_nat (allocSize / sizeof_InlineLBIDRange) in
    let l := resize n emptyRange (fFreeList (mem s)) in
    let l := if first then zset (resize n emptyRange []) 0 wholeRange else l in
    let cur := if first then sizeof_InlineLBIDRange else currentSize info in
    set_mem (mkMem (mkMST key allocSize cur) (fEMShminfo (mem s)) key l) s).

(** ** Locks *)
Inductive OPS := READ | WRITE.

Definition set_emLock b l := mkLocks b (emIndexLocked l) (flLocked l) (emReads l) (ixReads l) (flReads l).
Definition set_ixLock b l := mkLocks (emLocked l) b (flLocked l) (emReads l) (ixReads l) (flReads l).
Definition set_flLock b l := mkLocks (emLocked l) (emIndexLocked l) b (emReads l) (ixReads l) (flReads l).
Definition add_emReads n l := mkLocks (emLocked l) (emIndexLocked l) (flLocked l) (emReads l + n) (ixReads l) (flReads l).
Definition add_ixReads n l := mkLocks (emLocked l) (emIndexLocked l) (flLocked l) (emReads l) (ixReads l + n) (flReads l).
Definition add_flReads n l := mkLocks (emLocked l) (emIndexLocked l) (flLocked l) (emReads l) (ixReads l) (flReads l + n).
Definition upd_locks (f : Locks -> Locks) : M t unit := modify (fun s => set_locks (f (locks s)) s).

(** The lock is granted when this process does not stand in its own way. *)
Definition grab (op : OPS) (held : Locks -> bool) (reads : Locks -> Z)
    (write : bool -> Locks -> Locks) (add : Z -> Locks -> Locks) : M t unit :=
  l ← gets locks;
  match op with
  | READ => if held l then fail_with SelfDeadlock else upd_locks (add 1)
  | WRITE => if held l || (0 <? reads l) then fail_with SelfDeadlock else upd_locks (write true)
  end.

(** The first [growEMShmseg]. *)
Definition growEMShmseg : M t unit :=
  upd_eminfo (fun x => mkMST (if tableShmkey x =? 0 then chooseShmkey (tableShmkey x) 0x20000 else tableShmkey x)
                             (allocdSize x + 16 * 1024 * 1024)
                             (if currentSize x =? 0 then EM_RB_TREE_EMPTY_SIZE else currentSize x)).

Definition grabEMEntryTable (op : OPS) : M t unit :=
  grab op emLocked emReads set_emLock add_emReads ;;
  none ← gets (fun s => allocdSize (fEMShminfo (mem s)) =? 0);
  if (none : bool) then growEMShmseg else mret tt.

Definition grabEMIndex (op : OPS) : M t unit := grab op emIndexLocked ixReads set_ixLock add_ixReads.

Definition grabFreeList (op : OPS) : M t unit :=
  grab op flLocked flReads set_flLock add_flReads ;;
  none ← gets (fun s => allocdSize (fFLShminfo (mem s)) =? 0);
  if (none : bool) then growFLShmseg else mret tt.

Definition releaseEMEntryTable (op : OPS) : M t unit :=
  upd_locks (match op with READ => add_emReads (-1) | WRITE => set_emLock false end).
Definition releaseEMIndex (op : OPS) : M t unit :=
  upd_locks (match op with READ => add_ixReads (-1) | WRITE => set_ixLock false end).
Definition releaseFreeList (op : OPS) : M t unit :=
  upd_locks (match op with READ => add_flReads (-1) | WRITE => set_flLock false end).

Definition grab2 (op : OPS) : M t unit := grabEMEntryTable op ;; grabEMIndex op.
Definition release2 (op : OPS) : M t unit := releaseEMIndex op ;; releaseEMEntryTable op.
Definition grab3 (op : OPS) : M t unit := grab2 op ;; grabFreeList op.

(** ** Undo and confirm *)
Definition finishChanges : M t unit :=
  fl ← gets (fun s => flLocked (locks s));
  (if (fl : bool) then releaseFreeList WRITE else mret tt) ;;
  ix ← gets (fun s => emIndexLocked (locks s));
  (if (ix : bool) then releaseEMIndex WRITE else mret tt) ;;
  el ← gets (fun s => emLocked (locks s));
  (if (el : bool) then releaseEMEntryTable WRITE else mret tt).

(** One record of [undoChangesRBTree]. *)
Definition undo_record (m : gmap Z EMEntry) (r : UndoRecordType * EMEntry) : gmap Z EMEntry :=
  let '(ty, e) := r in
  match ty with
  | INSERT => match findByLBID (lbid0 e) m with Some k => delete k m | None => m end
  | DELETE => match m !! lbid0 e with Some _ => m | None => <[lbid0 e := e]> m end
  | DEFAULT => match findByLBID (lbid0 e) m with Some k => <[k := e]> m | None => m end
  end.

(** The records are visited oldest first and stay in the list. *)
Definition undoChangesRBTree : M t unit :=
  modify (fun s => set_em (foldl undo_record (em s) (undoRecordsRBTree s)) s).

Definition undoImages : M t unit := fun s =>
  match Undoable.undoChanges (undoRecords s) (mem s) with
  | Val (m, r) => (Val tt, set_undo r (set_mem m s))
  | Exn e => (Exn e, s)
  | Fault f => (Fault f, s)
  end.

Definition undoChanges : M t unit := undoImages ;; undoChangesRBTree ;; finishChanges.

Definition confirmChanges : M t unit :=
  modify (fun s => set_undo (Undoable.confirmChanges (undoRecords s)) s) ;;
  modify (set_undoRB []) ;;
  finishChanges.

End ExtentMap.
