(* ===== verification/ExtentOps.v ===== *)
(** * The extent map: lookups, creation and deletion of extents

    versioning/BRM/extentmap.cpp: finding the extent of a block and the block of a
    file, taking LBIDs from the free list, creating extents for columns and
    dictionaries, and giving extents back.  A result [None] of a lookup is the
    return code -1. *)

From S2P Require Import Prelude Undoable Vbbm ExtentMap.
From stdpp Require Import prelude gmap strings sorting.
Local Open Scope Z_scope.

Module ExtentOps.
Import ExtentMap.

Section ops.
Context {IO : IterOrder}.

(** ** From LBIDs to extents *)
Definition iterator_of (lbid : Z) : M t Z :=
  r ← gets (fun s => findByLBID lbid (em s));
  match r with
  | Some k => mret k
  | None => throw (logic_error "ExtentMap::markInvalid(): lbid isn't allocated")
  end.

Fixpoint getEmIteratorsByLbids (lbids : list Z) : M t (list Z) :=
  match lbids with
  | [] => mret []
  | l :: lbids' => k ← iterator_of l; ks ← getEmIteratorsByLbids lbids'; mret (k :: ks)
  end.

Fixpoint getEmIdentsByLbids (lbids : list Z) : M t (list EMEntry) :=
  match lbids with
  | [] => mret []
  | l :: lbids' => k ← iterator_of l; e ← deref k; es ← getEmIdentsByLbids lbids'; mret (e :: es)
  end.

Definition idents3 (dbroot oid part : Z) : M t (list EMEntry) :=
  lbids ← gets (fun s => index_find3 dbroot oid part (index s)); getEmIdentsByLbids lbids.
Definition idents2 (dbroot oid : Z) : M t (list EMEntry) :=
  lbids ← gets (fun s => index_find2 dbroot oid (index s)); getEmIdentsByLbids lbids.
Definition iterators3 (dbroot oid part : Z) : M t (list Z) :=
  lbids ← gets (fun s => index_find3 dbroot oid part (index s)); getEmIteratorsByLbids lbids.
Definition iterators2 (dbroot oid : Z) : M t (list Z) :=
  lbids ← gets (fun s => index_find2 dbroot oid (index s)); getEmIteratorsByLbids lbids.

(** ** Lookups *)

(** [lookup(lbid, first, last)] *)
Definition lookup (lbid : Z) : M t (option (Z * Z)) :=
  grab2 READ ;;
  r ← gets (fun s => findByLBID lbid (em s));
  match r with
  | None => release2 READ ;; mret None
  | Some k => e ← deref k; release2 READ ;; mret (Some (lbid0 e, lbid0 e + blocks e - 1))
  end.

(** Where a block lies: OID, dbroot, partition, segment, block offset. *)
Record Place := mkPlace { p_oid : Z; p_dbroot : Z; p_part : Z; p_seg : Z; p_fbo : Z }.

Definition lookupLocal (lbid : Z) : M t (option Place) :=
  if lbid <? 0 then throw (invalid_argument "ExtentMap::lookupLocal(): invalid lbid requested") else
  grab2 READ ;;
  r ← gets (fun s => findByLBID lbid (em s));
  match r with
  | None => release2 READ ;; mret None
  | Some k =>
      e ← deref k;
      release2 READ ;;
      mret (Some (mkPlace (fileID e) (dbRoot e) (partitionNum e) (segmentNum e)
                          (u32 (blockOffset e + (lbid - lbid0 e)))))
  end.

(** The extent holds block [fbo] of segment file [seg]. *)
Definition holds_block (seg fbo : Z) (e : EMEntry) : bool :=
  negb (r_size (range e) =? 0) && (segmentNum e =? seg) && (blockOffset e <=? fbo)
  && (fbo <=? blockOffset e + blocks e - 1).

Fixpoint first_such (f : EMEntry -> bool) (es : list EMEntry) : option EMEntry :=
  match es with
  | [] => None
  | e :: es' => if f e then Some e else first_such f es'
  end.

(** The first such extent over all dbroots. *)
Fixpoint search_dbroots (roots : list Z) (oid part : Z) (f : EMEntry -> bool) : M t (option EMEntry) :=
  match roots with
  | [] => mret None
  | r :: roots' =>
      es ← idents3 r oid part;
      match first_such f es with
      | Some e => mret (Some e)
      | None => search_dbroots roots' oid part f
      end
  end.

Definition lookupLocal_OID (oid part seg fbo : Z) : M t (option Z) :=
  if oid <? 0 then throw (invalid_argument "ExtentMap::lookup(): OID and FBO must be >= 0") else
  grab2 READ ;;
  roots ← gets (fun s => allDbRoots (config s));
  r ← search_dbroots roots oid part (holds_block seg fbo);
  release2 READ ;;
  mret ((fun e => lbid0 e + i32 (fbo - blockOffset e)) <$> r).

Definition lookupLocal_DBroot (oid dbroot part seg fbo : Z) : M t (option Z) :=
  if oid <? 0 then throw (invalid_argument "ExtentMap::lookup(): OID and FBO must be >= 0") else
  grab2 READ ;;
  es ← idents3 dbroot oid part;
  release2 READ ;;
  mret ((fun e => lbid0 e + (fbo - blockOffset e)) <$>
        first_such (fun e => (segmentNum e =? seg) && (blockOffset e <=? fbo)
                             && (fbo <=? blockOffset e + blocks e - 1)) es).

Definition lookupLocalStartLbid (oid part seg fbo : Z) : M t (option Z) :=
  if oid <? 0 then throw (invalid_argument "ExtentMap::lookupLocalStartLbid(): OID and FBO must be >= 0") else
  grab2 READ ;;
  roots ← gets (fun s => allDbRoots (config s));
  r ← search_dbroots roots oid part (holds_block seg fbo);
  release2 READ ;;
  mret (lbid0 <$> r).

(** ** Taking LBIDs from the free list *)

(** The loop over the entries, [n] of them left from index [i] on. *)
Fixpoint take_lbids (n : nat) (i sz : Z) : M t Z :=
  match n with
  | O => throw (runtime_error "ExtentMap::getLBIDsFromFreeList(): out of LBID space")
  | S n' =>
      r ← lift (fun s => aget (fFreeList (mem s)) i);
      if sz <=? r_size r then
        makeUndo (fun k => LFree k i) ;;
        upd_free i (fun r => mkRange (r_start r + u32 (sz * 1024)) (u32 (r_size r - sz))) ;;
        r' ← lift (fun s => aget (fFreeList (mem s)) i);
        (if r_size r' =? 0
         then makeUndo (fun _ => LFLInfo) ;;
              upd_flinfo (fun x => with_cur (currentSize x - sizeof_InlineLBIDRange) x)
         else mret tt) ;;
        mret (r_start r)
      else take_lbids n' (i + 1) sz
  end.

Definition getLBIDsFromFreeList (sz : Z) : M t Z :=
  n ← gets (fun s => Z.to_nat (flEntries (mem s)));
  take_lbids n 0 sz.

(** ** Creating extents *)
Definition BLOCK_SIZE : Z := 8192.
Definition getExtentRows : Z := 0x800000.
Definition getExtentsPerSegmentFile : Z := 2.

(** The tree, its recorded size and the index get the new extent;
    [std::map::insert] keeps an element that is already there. *)
Definition insert_extent (e : EMEntry) : M t unit :=
  makeUndoRB INSERT e ;;
  makeUndo (fun _ => LEMInfo) ;;
  modify (fun s => set_em (match em s !! lbid0 e with Some _ => em s | None => <[lbid0 e := e]> (em s) end) s) ;;
  upd_eminfo (fun x => with_cur (currentSize x + EM_RB_TREE_NODE_SIZE) x) ;;
  modify (fun s => set_index (index_insert e (lbid0 e) (index s)) s).

(** The last extent of a dbroot: highest partition, then block offset, then
    segment.  The accumulator is what the source calls highestPartNum,
    highestOffset, highestSegNum and lastExtent. *)
Definition hwm_scan (acc : Z * Z * Z * option EMEntry) (e : EMEntry) : Z * Z * Z * option EMEntry :=
  let '(hp, ho, hs, last) := acc in
  if (hp <? partitionNum e) || ((partitionNum e =? hp) && (ho <? blockOffset e))
     || ((partitionNum e =? hp) && (blockOffset e =? ho) && (hs <=? segmentNum e))
  then (partitionNum e, blockOffset e, segmentNum e, Some e)
  else acc.

Definition last_extent (es : list EMEntry) : option EMEntry := (foldl hwm_scan (0, 0, 0, None) es).2.

(** The highest segment of partition [part] on the other dbroots. *)
Fixpoint high_empty_seg (roots : list Z) (root oid part : Z) (acc : option Z) : M t (option Z) :=
  match roots with
  | [] => mret acc
  | r :: roots' =>
      if r =? root then high_empty_seg roots' root oid part acc
      else
        es ← idents3 r oid part;
        high_empty_seg roots' root oid part
          (foldl (fun acc e => match acc with
                               | Some h => if h <? segmentNum e then Some (segmentNum e) else acc
                               | None => Some (segmentNum e)
                               end) acc es)
  end.

(** The second scan: outOfService segments, partHighSeg, partHighSegNext and
    targetDbRootSegs (segment -> highest block offset). *)
Record Scan2 := mkScan2 { outOfSvc : bool; partHighSeg : Z; partHighSegNext : Z; segs : gmap Z Z }.

Definition scan_target (a : Scan2) (e : EMEntry) : Scan2 :=
  mkScan2 (outOfSvc a || (status e =? EXTENTOUTOFSERVICE))
    (if partHighSeg a <? segmentNum e then segmentNum e else partHighSeg a)
    (partHighSegNext a)
    (match segs a !! segmentNum e with
     | None => <[segmentNum e := blockOffset e]> (segs a)
     | Some o => if o <? blockOffset e then <[segmentNum e := blockOffset e]> (segs a) else segs a
     end).

Definition scan_next (a : Scan2) (e : EMEntry) : Scan2 :=
  mkScan2 (outOfSvc a) (partHighSeg a)
    (if partHighSegNext a <? segmentNum e then segmentNum e else partHighSegNext a) (segs a).

Definition scan_other (a : Scan2) (e : EMEntry) : Scan2 :=
  mkScan2 (outOfSvc a) (if partHighSeg a <? segmentNum e then segmentNum e else partHighSeg a)
    (partHighSegNext a) (segs a).

Fixpoint second_scan (roots : list Z) (root oid part : Z) (a : Scan2) : M t Scan2 :=
  match roots with
  | [] => mret a
  | r :: roots' =>
      a' ← (if r =? root then es ← idents3 r oid part; mret (foldl scan_target a es)
            else
              nxt ← idents3 r oid (u32 (part + 1));
              es ← idents3 r oid part;
              mret (foldl scan_other (foldl scan_next a nxt) es));
      second_scan roots' root oid part a'
  end.

(** First, last and next segment file in the target partition. *)
Definition seg_scan (seg0 : Z) (acc : Z * Z * Z * bool) (p : Z * Z) : Z * Z * Z * bool :=
  let '(first, last, nxt, isset) := acc in
  let targetSeg := p.1 in
  let '(first, last) := if targetSeg <? first then (targetSeg, last)
                        else if last <? targetSeg then (first, targetSeg) else (first, last) in
  if (seg0 <? targetSeg) && ((targetSeg <? nxt) || negb isset)
  then (first, last, targetSeg, true) else (first, last, nxt, isset).

(** Third step: partition, segment and block offset of the new extent after
    [le]; [files] is filesPerDBRootPerPartition. *)
Definition choose_place (le : EMEntry) (a : Scan2) (files colWidth : Z) : Z * Z * Z :=
  let n := Z.of_nat (size (segs a)) in
  let seg0 := segmentNum le in
  let '(firstTargetSeg, lastTargetSeg, nextTargetSeg, _) :=
    if 1 <? n then foldl (seg_scan seg0) (seg0, seg0, seg0, false) (umap_to_list (segs a))
    else (seg0, seg0, seg0, false) in
  let unbalanced := existsb (fun p => 0 <? p.2) (umap_to_list (segs a)) in
  let startNewPartition := outOfSvc a || ((n <? files) && unbalanced) in
  let lastOffset := (getExtentsPerSegmentFile - 1) * (u32 (getExtentRows * colWidth) / BLOCK_SIZE) in
  let '(startNewPartition, startNewStripe, newSegmentNum) :=
    if startNewPartition then (true, false, 0)
    else if files <=? n then
      if seg0 =? lastTargetSeg then
        if blockOffset le =? u32 lastOffset then (true, false, 0) else (false, true, firstTargetSeg)
      else (false, false, nextTargetSeg)
    else (false, false, u16 (partHighSeg a + 1)) in
  if startNewPartition then
    (u32 (partitionNum le + 1),
     if partHighSegNext a =? -1 then 0 else u16 (partHighSegNext a + 1), 0)
  else if (blockOffset le =? 0) && (firstTargetSeg <? newSegmentNum) then (partitionNum le, newSegmentNum, 0)
  else if startNewStripe then (partitionNum le, newSegmentNum, u32 (blocks le + blockOffset le))
  else (partitionNum le, newSegmentNum, blockOffset le).

(** Partition, segment and block offset; [part] is the caller's partition. *)
Definition find_place (oid colWidth root part : Z) : M t (Z * Z * Z) :=
  es ← idents2 root oid;
  cfg ← gets config;
  match last_extent es with
  | Some le =>
      a ← second_scan (allDbRoots cfg) root oid (partitionNum le)
            (mkScan2 false (segmentNum le) (-1) {[segmentNum le := blockOffset le]});
      if dbRootCount cfg =? 0 then fail_with DivisionByZero
      else mret (choose_place le a (filesPerColumnPartition cfg / dbRootCount cfg) colWidth)
  | None =>
      h ← high_empty_seg (allDbRoots cfg) root oid part None;
      mret (part, match h with Some h => u16 (h + 1) | None => 0 end, 0)
  end.

(** The result is the start LBID with partition, segment and block offset. *)
Definition _createColumnExtent_DBroot (sz oid colWidth root : Z) (ty : ColDataType) (part : Z) :
    M t (Z * (Z * Z * Z)) :=
  startLBID ← getLBIDsFromFreeList sz;
  '(newPart, newSeg, newOff) ← find_place oid colWidth root part;
  insert_extent (mkEM (mkRange startLBID sz) oid newOff 0 newPart newSeg root (u16 colWidth) EXTENTUNAVAILABLE
                   (empty_range ty colWidth newCP)) ;;
  mret (startLBID, (newPart, newSeg, newOff)).

(** The number of blocks of an extent. *)
Definition extent_size (colWidth : Z) : Z := u32 (getExtentRows * colWidth) / BLOCK_SIZE.

Definition createColumnExtent_DBroot (oid colWidth root : Z) (ty : ColDataType) (part : Z) (useLock : bool) :
    M t (Z * Z * (Z * Z * Z)) :=
  (if useLock then grab3 WRITE else mret tt) ;;
  '(lbid, place) ← _createColumnExtent_DBroot (extent_size colWidth / 1024) oid colWidth root ty part;
  mret (lbid, extent_size colWidth, place).

(** [createStripeColumnExtents]: all columns must get the same partition and
    segment; [base] is those of the first column.  The results are the extents, the
    partition, and the segment, which is not assigned when there is no column. *)
Fixpoint stripe (cols : list (Z * Z * ColDataType)) (root part : Z) (base : option (Z * Z)) :
    M t (list (Z * Z * Z) * Z * option Z) :=
  match cols with
  | [] => mret ([], part, snd <$> base)
  | (oid, width, ty) :: cols' =>
      '(lbid, sz, (p, sg, off)) ← createColumnExtent_DBroot oid width root ty part false;
      (match base with
       | None => mret tt
       | Some (p0, sg0) =>
           if negb (sg =? sg0) || negb (p =? p0)
           then throw (invalid_argument "ExtentMap::createStripeColumnExtents(): Inconsistent segment extent creation")
           else mret tt
       end) ;;
      '(out, p', sg') ← stripe cols' root p (Some (default (p, sg) base));
      mret ((lbid, sz, off) :: out, p', sg')
  end.

Definition createStripeColumnExtents (cols : list (Z * Z * ColDataType)) (root part : Z) :
    M t (list (Z * Z * Z) * Z * option Z) :=
  grab3 WRITE ;; stripe cols root part None.

(** The extent with the highest block offset of a segment file. *)
Definition last_in_file (seg : Z) (es : list EMEntry) : option EMEntry :=
  (foldl (fun (acc : Z * option EMEntry) e =>
    if (segmentNum e =? seg) && (acc.1 <=? blockOffset e) then (blockOffset e, Some e) else acc) (0, None) es).2.

Definition _createColumnExtentExactFile (sz oid colWidth root part seg : Z) (ty : ColDataType) : M t (Z * Z) :=
  startLBID ← getLBIDsFromFreeList sz;
  es ← idents3 root oid part;
  let off := match last_in_file seg es with Some le => u32 (blocks le + blockOffset le) | None => 0 end in
  insert_extent (mkEM (mkRange startLBID sz) oid off 0 part seg root (u16 colWidth) EXTENTUNAVAILABLE
                   (empty_range ty colWidth newCP)) ;;
  mret (startLBID, off).

Definition createColumnExtentExactFile (oid colWidth root part seg : Z) (ty : ColDataType) : M t (Z * Z * Z) :=
  grab3 WRITE ;;
  '(lbid, off) ← _createColumnExtentExactFile (extent_size colWidth / 1024) oid colWidth root part seg ty;
  mret (lbid, extent_size colWidth, off).

Definition DICT_COL_WIDTH : Z := 8.

Definition _createDictStoreExtent (sz oid root part seg : Z) : M t Z :=
  startLBID ← getLBIDsFromFreeList sz;
  es ← idents3 root oid part;
  insert_extent
    (match last_in_file seg es with
     | None => mkEM (mkRange startLBID sz) oid 0 0 part seg root 0 EXTENTUNAVAILABLE newCP
     | Some le => mkEM (mkRange startLBID sz) oid (u32 (blocks le + blockOffset le)) 0 (partitionNum le)
                    (segmentNum le) (dbRoot le) (colWid le) EXTENTUNAVAILABLE newCP
     end) ;;
  mret startLBID.

Definition createDictStoreExtent (oid root part seg : Z) : M t (Z * Z) :=
  grab3 WRITE ;;
  lbid ← _createDictStoreExtent (extent_size DICT_COL_WIDTH / 1024) oid root part seg;
  mret (lbid, extent_size DICT_COL_WIDTH).

(** ** Deleting extents *)

(** Where the extent [st, en) fits in the free list: preceedingExtent,
    succeedingExtent, freeFLIndex. *)
Fixpoint fl_scan (n : nat) (i st en : Z) (l : list InlineLBIDRange) (acc : Z * Z * Z) : outcome (Z * Z * Z) :=
  match n with
  | O => Val acc
  | S n' =>
      r ← aget l i;
      let '(prec, succ, free) := acc in
      fl_scan n' (i + 1) st en l
        (if r_size r =? 0 then (prec, succ, i)
         else if en =? r_start r then (prec, i, free)
         else if r_start r + r_size r * 1024 =? st then (i, succ, free)
         else acc)
  end.

(** Move entry [i] to the free slot [free] if that lies before it. *)
Definition migrate (i free : Z) : M t Z :=
  if (free <? i) && negb (free =? -1) then
    makeUndo (fun k => LFree k free) ;;
    r ← lift (fun s => aget (fFreeList (mem s)) i);
    upd_free free (fun _ => r) ;;
    upd_free i (fun r => mkRange (r_start r) 0) ;;
    mret free
  else mret i.

Definition give_back (e : EMEntry) : M t unit :=
  n ← gets (fun s => flEntries (mem s));
  '(prec, succ, free) ← lift (fun s =>
     fl_scan (Z.to_nat n) 0 (lbid0 e) (lbid0 e + blocks e) (fFreeList (mem s)) (-1, -1, -1));
  if negb (prec =? -1) && negb (succ =? -1) then
    makeUndo (fun k => LFree k prec) ;;
    p ← migrate prec free;
    rs ← lift (fun s => aget (fFreeList (mem s)) succ);
    upd_free p (fun r => mkRange (r_start r) (u32 (r_size r + u32 (r_size rs + r_size (range e))))) ;;
    makeUndo (fun k => LFree k succ) ;;
    upd_free succ (fun r => mkRange (r_start r) 0) ;;
    makeUndo (fun _ => LFLInfo) ;;
    upd_flinfo (fun x => with_cur (currentSize x - sizeof_InlineLBIDRange) x)
  else if negb (succ =? -1) then
    makeUndo (fun k => LFree k succ) ;;
    p ← migrate succ free;
    upd_free p (fun r => mkRange (lbid0 e) (u32 (r_size r + r_size (range e))))
  else if negb (prec =? -1) then
    makeUndo (fun k => LFree k prec) ;;
    p ← migrate prec free;
    upd_free p (fun r => mkRange (r_start r) (u32 (r_size r + r_size (range e))))
  else
    full ← gets (fun s => currentSize (fFLShminfo (mem s)) =? allocdSize (fFLShminfo (mem s)));
    free ← (if (full : bool) then growFLShmseg ;; mret n else mret free);
    makeUndo (fun k => LFree k free) ;;
    upd_free free (fun _ => mkRange (lbid0 e) (r_size (range e))) ;;
    makeUndo (fun _ => LPtr) ;;
    upd_flinfo (fun x => with_cur (currentSize x + sizeof_InlineLBIDRange) x).

Definition deleteExtent (k : Z) (clearEMIndex : bool) : M t unit :=
  e ← deref k;
  give_back e ;;
  (if clearEMIndex
   then ix ← lift (fun s => index_deleteEMEntry e k (index s)); modify (set_index ix)
   else mret tt) ;;
  makeUndoRB DELETE e ;;
  makeUndo (fun _ => LPtr) ;;
  upd_eminfo (fun x => with_cur (currentSize x - EM_RB_TREE_NODE_SIZE) x) ;;
  modify (fun s => set_em (delete k (em s)) s).

(** [deleteOID]; [exists_] is OIDExists, assigned anew for every dbroot. *)
Fixpoint delete_oid_roots (roots : list Z) (oid : Z) (exists_ : bool) : M t bool :=
  match roots with
  | [] => mret exists_
  | r :: roots' =>
      its ← iterators2 r oid;
      for_each its (fun k => deleteExtent k false) ;;
      modify (fun s => set_index (index_deleteOID r oid (index s)) s) ;;
      delete_oid_roots roots' oid (negb (bool_decide (its = [])))
  end.

Definition deleteOID (oid : Z) : M t unit :=
  grab3 WRITE ;;
  roots ← gets (fun s => allDbRoots (config s));
  ex ← delete_oid_roots roots oid false;
  if (ex : bool) then mret tt
  else throw (invalid_argument "ExtentMap::deleteOID(): There are no extent entries for OID").

Definition deleteOIDs (oids : list Z) : M t unit :=
  grab3 WRITE ;;
  roots ← gets (fun s => allDbRoots (config s));
  for_each roots (fun r => for_each oids (fun oid =>
    its ← iterators2 r oid;
    for_each its (fun k => deleteExtent k false) ;;
    modify (fun s => set_index (index_deleteOID r oid (index s)) s))).

(** [while (it != end)] over the tree; a deletion yields the next iterator. *)
Definition deleteDBRoot (root : Z) : M t unit :=
  grab3 WRITE ;;
  ks ← gets (fun s => keys (em s));
  for_each ks (fun k => e ← deref k; if dbRoot e =? root then deleteExtent k true else mret tt) ;;
  modify (fun s => set_index (index_deleteDbRoot root (index s)) s).

End ops.
End ExtentOps.
