(* ===== verification/ExtentCP.v ===== *)
(** * The extent map: casual partitioning

    versioning/BRM/extentmap.cpp: the minimum and maximum kept for every extent so
    that a scan can skip it, with the sequence number that tells a query whether
    the extent was changed since it started. *)

From S2P Require Import Prelude Undoable Vbbm Hasher Bytes ExtentMap ExtentOps.
From stdpp Require Import prelude gmap strings sorting.
Local Open Scope Z_scope.

Module ExtentCP.
Import ExtentMap ExtentOps.

Definition SEQNUM_MARK_INVALID : Z := -1.
Definition SEQNUM_MARK_INVALID_SET_RANGE : Z := -2.
Definition SEQNUM_MARK_UPDATING_INVALID_SET_RANGE : Z := -3.

(** [CPMaxMin] and [CPMaxMinMerge], the values of the maps below by first LBID.  A
    map is the list of its elements in its iteration order. *)
Record CPMaxMin := mkCPMaxMin {
  cp_max : Z; cp_min : Z; cp_seqNum : Z; cp_bigMax : Z; cp_bigMin : Z; cp_isBinaryColumn : bool }.

Record CPMaxMinMerge := mkCPMaxMinMerge {
  mg_max : Z; mg_min : Z; mg_seqNum : Z; mg_type : ColDataType; mg_colWidth : Z; mg_newExtent : bool;
  mg_bigMax : Z; mg_bigMin : Z }.

(** Update the [cprange] of an extent, after logging it. *)
Definition log_cp (k : Z) (f : EMCasualPartition -> EMCasualPartition) : M t unit :=
  log_update k (fun e => with_cp (f (partition e)) e).

(** The element that [findByLBID] finds, or a throw. *)
Definition find_or_throw (what : string) (lbid : Z) : M t Z :=
  r ← gets (fun s => findByLBID lbid (em s));
  match r with
  | Some k => mret k
  | None => throw (logic_error what)
  end.

(** ** Invalidation *)
Definition _markInvalid (lbid : Z) (ty : ColDataType) : M t Z :=
  k ← find_or_throw "ExtentMap::markInvalid(): lbid isn't allocated" lbid;
  log_update k (fun e =>
    with_cp (incSeqNum (empty_range ty (colWid e) (with_valid CP_UPDATING (partition e)))) e) ;;
  mret 0.

Definition markInvalid (lbid : Z) (ty : ColDataType) : M t Z := grab2 WRITE ;; _markInvalid lbid ty.

(** An LBID that is not allocated is reported and skipped. *)
Definition markInvalid_vector (lbids : list Z) (tys : list ColDataType) : M t Z :=
  grab2 WRITE ;;
  for_up (length lbids) 0 (fun i =>
    l ← lift (fun _ => aget lbids i);
    ty ← lift (fun _ => aget tys i);
    try_catch (_markInvalid l ty ;; mret tt) (fun _ => mret tt)) ;;
  mret 0.

(** ** Setting the range *)
Definition setMaxMin (lbid max min seqNum : Z) (firstNode : bool) : M t Z :=
  grab2 WRITE ;;
  k ← find_or_throw "ExtentMap::getMaxMin(): that lbid isn't allocated" lbid;
  e ← deref k;
  if sequenceNum (partition e) =? seqNum then
    log_cp k (fun c => incSeqNum (with_valid CP_VALID (with_vals min max c))) ;; mret 0
  else if seqNum =? SEQNUM_MARK_INVALID then
    log_cp k (fun c => incSeqNum (with_valid CP_INVALID c)) ;; mret 0
  else mret 0.

Definition set_range (v : CPMaxMin) (c : EMCasualPartition) : EMCasualPartition :=
  if cp_isBinaryColumn v then with_bigs (cp_bigMin v) (cp_bigMax v) c
  else with_vals (cp_min v) (cp_max v) c.

(** What one element of the map does to the range; [None]: the sequence has changed
    since the start of the query. *)
Definition set_action (v : CPMaxMin) (c : EMCasualPartition) : option EMCasualPartition :=
  if (sequenceNum c =? cp_seqNum v) && (isValid c =? CP_INVALID) then
    Some (incSeqNum (with_valid CP_VALID (set_range v c)))
  else if cp_seqNum v =? SEQNUM_MARK_INVALID then
    Some (incSeqNum (with_valid CP_INVALID c))
  else if cp_seqNum v =? SEQNUM_MARK_INVALID_SET_RANGE then
    Some (incSeqNum (with_valid CP_INVALID (set_range v c)))
  else if cp_seqNum v =? SEQNUM_MARK_UPDATING_INVALID_SET_RANGE then
    Some (incSeqNum (if isValid c =? CP_UPDATING then with_valid CP_INVALID (set_range v c) else c))
  else None.

Definition set_one (lbid : Z) (v : CPMaxMin) : M t unit :=
  k ← find_or_throw "ExtentMap::setExtentsMaxMin(): lbid not found" lbid;
  e ← deref k;
  match set_action v (partition e) with
  | Some c => log_cp k (fun _ => c)
  | None => mret tt
  end.

(** [todo] elements are left to update; the loop returns with the last of them. *)
Fixpoint set_loop (cpMap : list (Z * CPMaxMin)) (todo : Z) : M t unit :=
  match cpMap with
  | [] => throw (logic_error "ExtentMap::setExtentsMaxMin(): lbid isn't allocated")
  | (lbid, v) :: cpMap' =>
      set_one lbid v ;;
      if todo - 1 =? 0 then mret tt else set_loop cpMap' (todo - 1)
  end.

Definition setExtentsMaxMin (cpMap : list (Z * CPMaxMin)) (firstNode useLock : bool) : M t unit :=
  (if useLock then grab2 WRITE else mret tt) ;;
  set_loop cpMap (zlen cpMap).

(** ** Merging a range into the current one *)

(** [isValidCPRange<int64_t>] and [isValidCPRange<int128_t>]: neither bound is the
    NULL or the EMPTY value. *)
Definition isValidCPRange64 (max min : Z) (ty : ColDataType) : bool :=
  if isUnsigned ty then negb ((2 ^ 64 - 2 <=? u64 min) || (2 ^ 64 - 2 <=? u64 max))
  else negb ((min <=? - 2 ^ 63 + 1) || (max <=? - 2 ^ 63 + 1)).

Definition isValidCPRange128 (max min : Z) (ty : ColDataType) : bool :=
  if isUnsigned ty then negb ((2 ^ 128 - 2 <=? u128 min) || (2 ^ 128 - 2 <=? u128 max))
  else negb ((min <=? int128Min + 1) || (max <=? int128Min + 1)).

(** [uint64ToStr]: [htonll] on a little-endian machine reverses the bytes. *)
Definition uint64ToStr (n : Z) : Z := le_val (rev (le_bytes 8 n)).

Definition wide (v : CPMaxMinMerge) : bool := 8 <? mg_colWidth v.

Definition new_valid (v : CPMaxMinMerge) : bool :=
  if wide v then isValidCPRange128 (mg_bigMax v) (mg_bigMin v) (mg_type v)
  else isValidCPRange64 (mg_max v) (mg_min v) (mg_type v).

Definition old_valid (v : CPMaxMinMerge) (c : EMCasualPartition) : bool :=
  if wide v then isValidCPRange128 (bigHiVal c) (bigLoVal c) (mg_type v)
  else isValidCPRange64 (hiVal c) (loVal c) (mg_type v).

Definition put_range (v : CPMaxMinMerge) (c : EMCasualPartition) : EMCasualPartition :=
  if wide v then with_bigs (mg_bigMin v) (mg_bigMax v) c else with_vals (mg_min v) (mg_max v) c.

Definition with_lo64 x c := mkCP (sequenceNum c) (isValid c) (put64 x (bigLoVal c)) (bigHiVal c).
Definition with_hi64 x c := mkCP (sequenceNum c) (isValid c) (bigLoVal c) (put64 x (bigHiVal c)).

(** The comparisons, through [key] (the identity, a cast, or the byte swap). *)
Definition merge64 (key : Z -> Z) (v : CPMaxMinMerge) (c : EMCasualPartition) : EMCasualPartition :=
  let c1 := if key (mg_min v) <? key (loVal c) then with_lo64 (mg_min v) c else c in
  if key (hiVal c) <? key (mg_max v) then with_hi64 (mg_max v) c1 else c1.

Definition merge128 (key : Z -> Z) (v : CPMaxMinMerge) (c : EMCasualPartition) : EMCasualPartition :=
  with_bigs (if key (mg_bigMin v) <? key (bigLoVal c) then mg_bigMin v else bigLoVal c)
            (if key (bigHiVal c) <? key (mg_bigMax v) then mg_bigMax v else bigHiVal c) c.

Definition merge_range (v : CPMaxMinMerge) (c : EMCasualPartition) : EMCasualPartition :=
  if isCharType (mg_type v) then merge64 (fun x => uint64ToStr (u64 x)) v c
  else if isUnsigned (mg_type v) then
    if wide v then merge128 u128 v c else merge64 u64 v c
  else if wide v then merge128 (fun x => x) v c else merge64 (fun x => x) v c.

(** The [switch] on [isValid]; [None]: no undo record and no change. *)
Definition merge_action (v : CPMaxMinMerge) (c : EMCasualPartition) : option EMCasualPartition :=
  if isValid c =? CP_VALID then
    if new_valid v then Some (incSeqNum (if old_valid v c then merge_range v c else put_range v c))
    else None
  else if isValid c =? CP_UPDATING then Some (incSeqNum c)
  else
    Some (incSeqNum (if mg_newExtent v
                     then with_valid CP_VALID (if new_valid v then put_range v c else c)
                     else c)).

Definition merge_one (lbid : Z) (v : CPMaxMinMerge) : M t unit :=
  k ← find_or_throw "ExtentMap::mergeExtentsMaxMin(): lbid not found" lbid;
  e ← deref k;
  match merge_action v (partition e) with
  | Some c => log_cp k (fun _ => c)
  | None => mret tt
  end.

Fixpoint merge_loop (cpMap : list (Z * CPMaxMinMerge)) (todo : Z) : M t unit :=
  match cpMap with
  | [] => throw (logic_error "ExtentMap::mergeExtentsMaxMin(): lbid not found")
  | (lbid, v) :: cpMap' =>
      merge_one lbid v ;;
      if todo - 1 =? 0 then mret tt else merge_loop cpMap' (todo - 1)
  end.

(** The elements merged are erased from the caller's map, which no caller reads
    again. *)
Definition mergeExtentsMaxMin (cpMap : list (Z * CPMaxMinMerge)) (useLock : bool) : M t unit :=
  (if useLock then grab2 WRITE else mret tt) ;;
  merge_loop cpMap (zlen cpMap).

(** ** Reading the range: isValid, max, min, seqNum *)
Definition getMaxMin (big : bool) (lbid : Z) : M t (Z * (Z * Z * Z)) :=
  grab2 READ ;;
  k ← find_or_throw "ExtentMap::getMaxMin(): that lbid isn't allocated" lbid;
  e ← deref k;
  release2 READ ;;
  let c := partition e in
  mret (isValid c, (if big then bigHiVal c else hiVal c, if big then bigLoVal c else loVal c, sequenceNum c)).

(** [isBinaryColumn] of the caller's [cpMaxMin] is left as it is. *)
Definition getCPMaxMin (lbid : Z) (out : CPMaxMin) : M t CPMaxMin :=
  grab2 READ ;;
  k ← find_or_throw "ExtentMap::getMaxMin(): that lbid isn't allocated" lbid;
  e ← deref k;
  release2 READ ;;
  let c := partition e in
  mret (mkCPMaxMin (hiVal c) (loVal c) (sequenceNum c) (bigHiVal c) (bigLoVal c) (cp_isBinaryColumn out)).

End ExtentCP.
