(* ===== verification/ExtentHwm.v ===== *)
(** * The extent map: high water marks and rollback

    versioning/BRM/extentmap.cpp: the high water mark of a segment file (the last
    block in use, carried by one of its extents), setting it, and the operations
    that roll a column or a dictionary store back to a given last extent. *)

From S2P Require Import Prelude Undoable Vbbm ExtentMap ExtentOps.
From stdpp Require Import prelude gmap strings sorting.
Local Open Scope Z_scope.

Module ExtentHwm.
Import ExtentMap ExtentOps.

Section hwm.
Context {IO : IterOrder}.

(** ** Rollback *)

(** The stripe of the given HWM: fboLo, fboHi, fboLoPreviousStripe. *)
Record Window := mkWin { fboLo : Z; fboHi : Z; fboPrev : Z }.
Definition noWindow : Window := mkWin 0 0 0.

(** The window is computed at the first extent visited. *)
Definition window (hwm : Z) (e : EMEntry) (w : Window) : outcome Window :=
  if fboHi w =? 0 then
    let range := u32 (blocks e) in
    if range =? 0 then Fault DivisionByZero
    else
      let lo := hwm - hwm mod range in
      Val (mkWin lo (u32 (lo + range - 1)) (if 0 <? lo then u32 (lo - range) else fboPrev w))
  else Val w.

(** What happens to an extent. *)
Inductive Action := Keep | Drop | SetHWM (h : Z).

Definition col_action (w : Window) (part seg hwm : Z) (e : EMEntry) : Action :=
  if part <? partitionNum e then Drop                                     (* case 1 *)
  else if partitionNum e =? part then
    if fboHi w <? blockOffset e then Drop                                 (* case 2 *)
    else if blockOffset e <? fboLo w then
      if (fboPrev w <=? blockOffset e) && (seg <? segmentNum e) && negb (HWM e =? fboLo w - 1)
      then SetHWM (fboLo w - 1) else Keep                                 (* case 3 *)
    else if seg <? segmentNum e then Drop                                 (* case 4A *)
    else if segmentNum e <? seg then
      if negb (HWM e =? fboHi w) then SetHWM (fboHi w) else Keep          (* case 4B *)
    else if negb (HWM e =? hwm) then SetHWM hwm else Keep                 (* case 4C *)
  else Keep.                                                              (* case 5 *)

Definition reset (h : Z) (e : EMEntry) : EMEntry := with_status EXTENTAVAILABLE (with_HWM h e).

Definition apply_action (k : Z) (a : Action) : M t unit :=
  match a with
  | Keep => mret tt
  | Drop => deleteExtent k true
  | SetHWM h => log_update k (reset h)
  end.

Fixpoint rollback_col (ks : list Z) (bDeleteAll : bool) (part seg hwm : Z) (w : Window) : M t unit :=
  match ks with
  | [] => mret tt
  | k :: ks' =>
      e ← deref k;
      if status e =? EXTENTOUTOFSERVICE then rollback_col ks' bDeleteAll part seg hwm w
      else if bDeleteAll then deleteExtent k true ;; rollback_col ks' bDeleteAll part seg hwm w
      else
        w' ← lift (fun _ => window hwm e w);
        apply_action k (col_action w' part seg hwm e) ;;
        rollback_col ks' bDeleteAll part seg hwm w'
  end.

Definition rollbackColumnExtents_DBroot (oid : Z) (bDeleteAll : bool) (root part seg hwm : Z) : M t unit :=
  grab3 WRITE ;;
  ks ← iterators2 root oid;
  rollback_col ks bDeleteAll part seg hwm noWindow.

(** segToHwmMap: segment -> (hwm, fboLo), filled at the first extent visited. *)
Definition seg_hwms (segNums hwms : list Z) (e : EMEntry) : outcome (gmap Z (Z * Z)) :=
  let range := u32 (blocks e) in
  if range =? 0 then Fault DivisionByZero
  else if (length segNums <? length hwms)%nat then Fault OutOfBounds
  else Val (foldl (fun m p => <[p.1 := (p.2, p.2 - p.2 mod range)]> m) ∅ (zip segNums hwms)).

Definition dict_action (m : gmap Z (Z * Z)) (part : Z) (e : EMEntry) : Action :=
  if part <? partitionNum e then Drop                                     (* case 1 *)
  else if partitionNum e =? part then
    match m !! segmentNum e with
    | None => Drop                                                        (* case 2 *)
    | Some (hwm, lo) =>
        if blockOffset e <? lo then Keep                                  (* case 3A *)
        else if blockOffset e =? lo then
          if negb (HWM e =? hwm) then SetHWM hwm else Keep                (* case 3B *)
        else Drop                                                         (* case 3C *)
    end
  else Keep.                                                              (* case 4 *)

Fixpoint rollback_dict (ks : list Z) (part : Z) (segNums hwms : list Z) (m : gmap Z (Z * Z)) : M t unit :=
  match ks with
  | [] => mret tt
  | k :: ks' =>
      e ← deref k;
      if status e =? EXTENTOUTOFSERVICE then rollback_dict ks' part segNums hwms m
      else if bool_decide (hwms = []) then deleteExtent k true ;; rollback_dict ks' part segNums hwms m
      else
        m' ← (if bool_decide (m = ∅) then lift (fun _ => seg_hwms segNums hwms e) else mret m);
        apply_action k (dict_action m' part e) ;;
        rollback_dict ks' part segNums hwms m'
  end.

Definition rollbackDictStoreExtents_DBroot (oid root part : Z) (segNums hwms : list Z) : M t unit :=
  grab3 WRITE ;;
  ks ← iterators2 root oid;
  rollback_dict ks part segNums hwms ∅.

(** ** Deleting extents that got no data *)
Record ExtentInfo := mkExtentInfo {
  ei_part : Z; ei_seg : Z; ei_dbRoot : Z; ei_hwm : Z; ei_newFile : bool }.

(** [auto emEntry = emIt->second] is a copy: the new HWM is assigned to it and lost. *)
Definition apply_to_copy (k : Z) (e : EMEntry) (a : Action) : M t unit :=
  match a with
  | Keep => mret tt
  | Drop => deleteExtent k true
  | SetHWM _ => makeUndoRB DEFAULT e
  end.

Fixpoint empty_extents (ks : list Z) (hwm : Z) (act : Window -> EMEntry -> Action) (w : Window) : M t Window :=
  match ks with
  | [] => mret w
  | k :: ks' =>
      e ← deref k;
      if status e =? EXTENTOUTOFSERVICE then empty_extents ks' hwm act w
      else
        w' ← lift (fun _ => window hwm e w);
        apply_to_copy k e (act w' e) ;;
        empty_extents ks' hwm act w'
  end.

(** The map by OID, in its iteration order; the window of the first extent serves
    every OID. *)
Fixpoint empty_oids (infos : list (Z * ExtentInfo)) (act : ExtentInfo -> Window -> EMEntry -> Action)
    (w : Window) : M t unit :=
  match infos with
  | [] => mret tt
  | (oid, i) :: infos' =>
      ks ← iterators3 (ei_dbRoot i) oid (ei_part i);
      w' ← empty_extents ks (ei_hwm i) (act i) w;
      empty_oids infos' act w'
  end.

Definition deleteEmptyColExtents (extentsInfo : list (Z * ExtentInfo)) : M t unit :=
  grab3 WRITE ;;
  empty_oids extentsInfo (fun i w e => col_action w (ei_part i) (ei_seg i) (ei_hwm i) e) noWindow.

Definition dict_empty_action (i : ExtentInfo) (w : Window) (e : EMEntry) : Action :=
  if ei_part i <? partitionNum e then Drop
  else if (partitionNum e =? ei_part i) && (segmentNum e =? ei_seg i) then
    if blockOffset e <? fboLo w then Keep
    else if blockOffset e =? fboLo w then
      if negb (HWM e =? ei_hwm i) then SetHWM (ei_hwm i) else Keep
    else Drop
  else Keep.

(** Whether the file is new is taken from the first element. *)
Definition deleteEmptyDictStoreExtents (extentsInfo : list (Z * ExtentInfo)) : M t unit :=
  grab3 WRITE ;;
  match extentsInfo with
  | [] => fail_with OutOfBounds
  | (_, i0) :: _ =>
      if ei_newFile i0 then
        for_each extentsInfo (fun p =>
          ks ← iterators3 (ei_dbRoot p.2) p.1 (ei_part p.2);
          for_each ks (fun k => e ← deref k;
            if segmentNum e =? ei_seg p.2 then deleteExtent k true else mret tt))
      else empty_oids extentsInfo dict_empty_action noWindow
  end.

(** ** Reading the high water mark *)
Definition in_use (e : EMEntry) : bool := (status e =? EXTENTAVAILABLE) || (status e =? EXTENTOUTOFSERVICE).

(** HWM, partition, segment and status of the last extent in use; [None]: bFound is
    false. *)
Definition getLastHWM_DBroot (oid root : Z) : M t (option (Z * Z * Z * Z)) :=
  if oid <? 0 then throw (invalid_argument "ExtentMap::getLastHWM_DBroot(): invalid OID requested") else
  grab2 READ ;;
  es ← idents2 root oid;
  release2 READ ;;
  mret ((fun e => (HWM e, partitionNum e, segmentNum e, status e)) <$>
        (foldl (fun acc e => if in_use e then hwm_scan acc e else acc) (0, 0, 0, None) es).2).

Record EmDbRootHWMInfo := mkHWMInfo {
  hi_part : Z; hi_dbRoot : Z; hi_seg : Z; hi_localHWM : Z; hi_fbo : Z; hi_startLbid : Z;
  hi_totalBlocks : Z; hi_index : Z; hi_status : Z }.

Definition initHWMInfo (root : Z) : EmDbRootHWMInfo := mkHWMInfo 0 root 0 0 0 0 0 (-1) 0.

Definition hwm_info (found : Z) (e : EMEntry) (i : EmDbRootHWMInfo) : EmDbRootHWMInfo :=
  let total := if negb (status e =? EXTENTOUTOFSERVICE) && negb (HWM e =? 0)
               then u64 (hi_totalBlocks i + u32 (HWM e + 1)) else hi_totalBlocks i in
  if (hi_part i <? partitionNum e) || ((partitionNum e =? hi_part i) && (hi_fbo i <? blockOffset e))
     || ((partitionNum e =? hi_part i) && (blockOffset e =? hi_fbo i) && (hi_seg i <=? segmentNum e))
  then mkHWMInfo (partitionNum e) (hi_dbRoot i) (segmentNum e) (HWM e) (blockOffset e) (lbid0 e) total
         (i32 found) (status e)
  else mkHWMInfo (hi_part i) (hi_dbRoot i) (hi_seg i) (hi_localHWM i) (hi_fbo i) (hi_startLbid i) total
         (hi_index i) (hi_status i).

Definition hwm_info_step (oid : Z) (acc : gmap Z EmDbRootHWMInfo * Z) (e : EMEntry) : gmap Z EmDbRootHWMInfo * Z :=
  let '(m, found) := acc in
  if fileID e =? oid then
    match m !! dbRoot e with
    | None => acc
    | Some i => (<[dbRoot e := hwm_info found e i]> m, u32 (found + 1))
    end
  else (m, u32 (found + 1)).

Fixpoint hwm_info_roots (roots : list Z) (oid : Z) (acc : gmap Z EmDbRootHWMInfo * Z) :
    M t (gmap Z EmDbRootHWMInfo * Z) :=
  match roots with
  | [] => mret acc
  | r :: roots' => es ← idents2 (u16 r) oid; hwm_info_roots roots' oid (foldl (hwm_info_step oid) acc es)
  end.

(** The isolated block of a file whose HWM is 0. *)
Definition count_last (i : EmDbRootHWMInfo) : EmDbRootHWMInfo :=
  if negb (hi_index i =? -1) && (hi_localHWM i =? 0) && (hi_status i =? EXTENTAVAILABLE)
  then mkHWMInfo (hi_part i) (hi_dbRoot i) (hi_seg i) (hi_localHWM i) (hi_fbo i) (hi_startLbid i)
         (u64 (hi_totalBlocks i + 1)) (hi_index i) (hi_status i)
  else i.

(** [roots] are the dbroots of the PM, from OAM. *)
Definition getDbRootHWMInfo (oid : Z) (roots : list Z) : M t (list EmDbRootHWMInfo) :=
  if oid <? 0 then throw (invalid_argument "ExtentMap::getDbRootHWMInfo(): invalid OID requested") else
  if bool_decide (roots = []) then throw (invalid_argument "ExtentMap::getDbRootHWMInfo(): There are no DBRoots") else
  grab2 READ ;;
  '(m, _) ← hwm_info_roots roots oid (foldl (fun m r => <[u16 r := initHWMInfo (u16 r)]> m) ∅ roots, 0);
  release2 READ ;;
  let infos := snd <$> umap_to_list m in
  if existsb (fun i => negb (hi_index i =? -1) && (hi_status i =? EXTENTUNAVAILABLE)) infos
  then throw (runtime_error "ExtentMap::getDbRootHWMInfo(): HWM extent that is UNAVAILABLE")
  else mret (count_last <$> infos).

(** Found and status: the first extent of every dbroot, the last dbroot deciding. *)
Fixpoint extent_state (roots : list Z) (oid part seg : Z) (acc : bool * Z) : M t (bool * Z) :=
  match roots with
  | [] => mret acc
  | r :: roots' =>
      es ← idents3 r oid part;
      extent_state roots' oid part seg
        (match first_such (fun e => segmentNum e =? seg) es with
         | Some e => (true, status e)
         | None => acc
         end)
  end.

Definition getExtentState (oid part seg : Z) : M t (bool * Z) :=
  if oid <? 0 then throw (invalid_argument "ExtentMap::getExtentState(): invalid OID requested") else
  grab2 READ ;;
  roots ← gets (fun s => allDbRoots (config s));
  r ← extent_state roots oid part seg (false, EXTENTAVAILABLE);
  release2 READ ;; mret r.

(** The scan of one dbroot: [inl (hwm, status)] returns; [inr] is the status of the
    last extent of the file so far ([None]: OIDPartSegExists is false). *)
Fixpoint local_hwm (seg : Z) (es : list EMEntry) (st : option Z) : (Z * Z) + option Z :=
  match es with
  | [] => inr st
  | e :: es' =>
      if segmentNum e =? seg then
        if negb (HWM e =? 0) then inl (HWM e, status e) else local_hwm seg es' (Some (status e))
      else local_hwm seg es' st
  end.

Fixpoint local_hwm_roots (roots : list Z) (oid part seg : Z) (st : option Z) : M t (option (Z * Z)) :=
  match roots with
  | [] => mret ((fun x => (0, x)) <$> st)
  | r :: roots' =>
      es ← idents3 r oid part;
      match local_hwm seg es st with
      | inl x => mret (Some x)
      | inr st' => local_hwm_roots roots' oid part seg st'
      end
  end.

(** HWM and status. *)
Definition getLocalHWM (oid part seg : Z) : M t (Z * Z) :=
  if oid <? 0 then throw (invalid_argument "ExtentMap::getLocalHWM(): invalid OID requested") else
  grab2 READ ;;
  roots ← gets (fun s => allDbRoots (config s));
  r ← local_hwm_roots roots oid part seg None;
  release2 READ ;;
  match r with
  | Some x => mret x
  | None => throw (invalid_argument "ExtentMap::getLocalHWM(): There are no extent entries")
  end.

(** ** Setting the high water mark *)

(** lastEm, prevEm and highestOffset; the pointers are the keys of the extents. *)
Record HwmScan := mkHwmScan { lastEm : option Z; prevEm : option Z; highestOffset : Z }.

Definition set_scan (seg : Z) (k : Z) (e : EMEntry) (a : HwmScan) : HwmScan :=
  if segmentNum e =? seg then
    let hi := highestOffset a <=? blockOffset e in
    mkHwmScan (if hi then Some k else lastEm a) (if negb (HWM e =? 0) then Some k else prevEm a)
              (if hi then blockOffset e else highestOffset a)
  else a.

Fixpoint set_scan_keys (seg : Z) (ks : list Z) (a : HwmScan) : M t HwmScan :=
  match ks with
  | [] => mret a
  | k :: ks' => e ← deref k; set_scan_keys seg ks' (set_scan seg k e a)
  end.

Fixpoint set_scan_roots (roots : list Z) (oid part seg : Z) (a : HwmScan) : M t HwmScan :=
  match roots with
  | [] => mret a
  | r :: roots' =>
      ks ← iterators3 r oid part;
      a' ← set_scan_keys seg ks a;
      set_scan_roots roots' oid part seg a'
  end.

Definition setLocalHWM (oid part seg newHWM : Z) (firstNode uselock : bool) : M t unit :=
  (if uselock then grab2 WRITE else mret tt) ;;
  roots ← gets (fun s => allDbRoots (config s));
  a ← set_scan_roots roots oid part seg (mkHwmScan None None 0);
  match lastEm a with
  | None => throw (invalid_argument "ExtentMap::setLocalHWM(): Bad OID/partition/segment argument")
  | Some k =>
      e ← deref k;
      if u32 (blockOffset e + u32 (blocks e)) <=? newHWM
      then throw (invalid_argument "ExtentMap::setLocalHWM(): new HWM is past the end of the file")
      else
        log_update k (reset newHWM) ;;
        match prevEm a with
        | Some p => if negb (p =? k) then log_update p (with_HWM 0) else mret tt
        | None => mret tt
        end
  end.

Record BulkSetHWMArg := mkBulkSetHWMArg { bs_oid : Z; bs_part : Z; bs_seg : Z; bs_hwm : Z }.

Definition bulkSetHWM (v : list BulkSetHWMArg) (firstNode : bool) : M t unit :=
  grab2 WRITE ;;
  for_each v (fun a => setLocalHWM (bs_oid a) (bs_part a) (bs_seg a) (bs_hwm a) firstNode false).

(** No undo record, the index stays as it is, and the iterator may be [end()]. *)
Definition bulkUpdateDBRoot (args : list (Z * Z)) : M t unit :=
  grab2 WRITE ;;
  for_each args (fun p =>
    r ← gets (fun s => findByLBID p.1 (em s));
    match r with
    | None => fail_with OutOfBounds
    | Some k => e ← deref k; modify (fun s => set_em (<[k := with_dbRoot p.2 e]> (em s)) s)
    end).

End hwm.
End ExtentHwm.
