(* ===== verification/ExtentPart.v ===== *)
(** * The extent map: listings, partitions, consistency

    versioning/BRM/extentmap.cpp and logicalpartition.h: the extents of an OID,
    deleting, disabling and restoring logical partitions, and the check of the LBID
    space.  The text of the error messages is not modelled, their codes are. *)

From S2P Require Import Prelude Undoable Vbbm ExtentMap ExtentOps.
From stdpp Require Import prelude gmap strings sorting.
Local Open Scope Z_scope.

Module ExtentPart.
Import ExtentMap ExtentOps.

Record LogicalPartition := mkLP { lp_dbroot : Z; lp_pp : Z; lp_seg : Z }.

Global Instance LogicalPartition_eq_dec : EqDecision LogicalPartition.
Proof. solve_decision. Defined.
Global Program Instance LogicalPartition_countable : Countable LogicalPartition :=
  inj_countable' (fun p => (lp_dbroot p, lp_pp p, lp_seg p)) (fun p => mkLP p.1.1 p.1.2 p.2) _.
Next Obligation. by intros []. Qed.

Definition lp_lt (a b : LogicalPartition) : bool :=
  (lp_pp a <? lp_pp b) || ((lp_pp a =? lp_pp b) && (lp_seg a <? lp_seg b))
  || ((lp_pp a =? lp_pp b) && (lp_seg a =? lp_seg b) && (lp_dbroot a <? lp_dbroot b)).

Definition lp_of (e : EMEntry) : LogicalPartition := mkLP (dbRoot e) (partitionNum e) (segmentNum e).

Section ops.
Context {IO : IterOrder}.

(** ** Listings *)
Fixpoint extents_of (roots : list Z) (oid : Z) : M t (list EMEntry) :=
  match roots with
  | [] => mret []
  | r :: roots' => es ← idents2 r oid; rest ← extents_of roots' oid; mret (es ++ rest)
  end.

Definition in_service (e : EMEntry) : bool := negb (status e =? EXTENTOUTOFSERVICE).

(** [operator<] of [EMEntry] compares the first LBIDs. *)
Definition em_le (a b : EMEntry) : Prop := lbid0 a <= lbid0 b.
Global Instance em_le_dec a b : Decision (em_le a b).
Proof. unfold em_le. apply _. Defined.

Definition getExtents (oid : Z) (sorted incOutOfService : bool) : M t (list EMEntry) :=
  if oid <? 0 then throw (invalid_argument "ExtentMap::getExtents(): invalid OID requested") else
  grab2 READ ;;
  roots ← gets (fun s => allDbRoots (config s));
  es ← extents_of roots oid;
  release2 READ ;;
  let es := if incOutOfService then es else List.filter in_service es in
  mret (if sorted then merge_sort em_le es else es).

Definition getExtents_dbroot (oid root : Z) : M t (list EMEntry) :=
  if oid <? 0 then throw (invalid_argument "ExtentMap::getExtents(): invalid OID requested") else
  grab2 READ ;;
  es ← idents2 root oid;
  release2 READ ;; mret es.

(** [numExtents] is counted up from the caller's value. *)
Definition getExtentCount_dbroot (oid root : Z) (incOutOfService : bool) (numExtents : Z) : M t Z :=
  if oid <? 0 then throw (invalid_argument "ExtentMap::getExtentsCount_dbroot(): invalid OID requested") else
  grab2 READ ;;
  lbids ← gets (fun s => index_find2 root oid (index s));
  n ← (if incOutOfService then mret (zlen lbids)
       else es ← getEmIdentsByLbids lbids;
            mret (u64 (numExtents + zlen (List.filter in_service es))));
  release2 READ ;; mret n.

Fixpoint syscat_root (roots : list Z) (oid : Z) : M t (option Z) :=
  match roots with
  | [] => mret None
  | r :: roots' =>
      lbids ← gets (fun s => index_find2 r oid (index s));
      match lbids with
      | [] => syscat_root roots' oid
      | l :: _ =>
          k ← gets (fun s => findByLBID l (em s));
          match k with
          | None => fail_with OutOfBounds
          | Some k => e ← deref k; mret (Some (dbRoot e))
          end
      end
  end.

Definition getSysCatDBRoot (oid : Z) : M t Z :=
  grab2 READ ;;
  roots ← gets (fun s => allDbRoots (config s));
  r ← syscat_root roots oid;
  release2 READ ;;
  match r with
  | Some root => mret root
  | None => throw (logic_error "ExtentMap::getSysCatDBRoot(): OID not found")
  end.

(** [lookup(OID, ranges)]: the ranges of the extents in service, in blocks. *)
Definition lookup_OID (oid : Z) : M t (list (Z * Z)) :=
  if oid <? 0 then throw (invalid_argument "ExtentMap::lookup(): invalid OID requested") else
  grab2 READ ;;
  roots ← gets (fun s => allDbRoots (config s));
  es ← extents_of roots oid;
  release2 READ ;;
  mret ((fun e => (lbid0 e, u32 (blocks e))) <$> List.filter in_service es).

Definition isDBRootEmpty (root : Z) : M t bool :=
  grab2 READ ;;
  none ← gets (fun s => currentSize (fEMShminfo (mem s)) =? 0);
  if (none : bool) then throw (runtime_error "ExtentMap::isDBRootEmpty() shared memory not loaded")
  else
    b ← gets (fun s => index_isDBRootEmpty root (index s));
    release2 READ ;; mret b.

(** ** Logical partitions *)
Definition WARN_NO_PARTITION_PERFORMED : Z := 2042.
Definition ERR_PARTITION_ALREADY_DISABLED : Z := 4002.
Definition ERR_PARTITION_NOT_EXIST : Z := 4003.
Definition ERR_PARTITION_ALREADY_ENABLED : Z := 4004.

(** The sets are given by their elements in iteration order. *)
Definition pairs (oids : list Z) (parts : list LogicalPartition) : list (Z * LogicalPartition) :=
  oids ≫= fun oid => (fun p => (oid, p)) <$> parts.

(** The extents of one OID in one logical partition. *)
Fixpoint select (ks : list Z) (f : EMEntry -> bool) : M t (list (Z * EMEntry)) :=
  match ks with
  | [] => mret []
  | k :: ks' => e ← deref k; rest ← select ks' f; mret (if f e then (k, e) :: rest else rest)
  end.

Definition partition_extents (f : EMEntry -> bool) (oid : Z) (p : LogicalPartition) : M t (list (Z * EMEntry)) :=
  ks ← iterators3 (lp_dbroot p) oid (lp_pp p);
  select ks (fun e => (segmentNum e =? lp_seg p) && f e).

Fixpoint delete_parts (ps : list (Z * LogicalPartition)) (found : gset LogicalPartition) : M t (gset LogicalPartition) :=
  match ps with
  | [] => mret found
  | (oid, p) :: ps' =>
      xs ← partition_extents (fun _ => true) oid p;
      for_each xs (fun x => deleteExtent x.1 true) ;;
      delete_parts ps' (found ∪ list_to_set (lp_of ∘ snd <$> xs))
  end.

Definition deletePartition (oids : list Z) (parts : list LogicalPartition) : M t unit :=
  if bool_decide (oids = []) then mret tt else
  grab3 WRITE ;;
  found ← delete_parts (pairs oids parts) ∅;
  if bool_decide (found = ∅) then throw (idb_except WARN_NO_PARTITION_PERFORMED)
  else if negb (size found =? length parts)%nat then throw (idb_except ERR_PARTITION_NOT_EXIST)
  else mret tt.

Fixpoint collect (ps : list (Z * LogicalPartition)) (f : EMEntry -> bool) : M t (list (Z * EMEntry)) :=
  match ps with
  | [] => mret []
  | (oid, p) :: ps' => xs ← partition_extents f oid p; rest ← collect ps' f; mret (xs ++ rest)
  end.

Definition set_all_status (st : Z) (ks : list Z) : M t unit :=
  for_each ks (fun k => log_update k (with_status st)).

Definition markPartitionForDeletion (oids : list Z) (parts : list LogicalPartition) : M t unit :=
  if bool_decide (oids = []) then mret tt else
  grab2 WRITE ;;
  xs ← collect (pairs oids parts) (fun e => negb (r_size (range e) =? 0));
  set_all_status EXTENTOUTOFSERVICE xs.*1 ;;
  let found : gset LogicalPartition := list_to_set (lp_of ∘ snd <$> xs) in
  if bool_decide (found = ∅) then throw (idb_except WARN_NO_PARTITION_PERFORMED)
  else if existsb (fun x => status x.2 =? EXTENTOUTOFSERVICE) xs
  then throw (idb_except ERR_PARTITION_ALREADY_DISABLED)
  else if negb (size found =? length parts)%nat then throw (idb_except ERR_PARTITION_NOT_EXIST)
  else mret tt.

Definition markAllPartitionForDeletion (oids : list Z) : M t unit :=
  if bool_decide (oids = []) then mret tt else
  grab2 WRITE ;;
  roots ← gets (fun s => allDbRoots (config s));
  for_each roots (fun r => for_each oids (fun oid =>
    ks ← iterators2 r oid; set_all_status EXTENTOUTOFSERVICE ks)).

Definition restorePartition (oids : list Z) (parts : list LogicalPartition) : M t unit :=
  if bool_decide (oids = []) then mret tt else
  grab2 WRITE ;;
  xs ← collect (pairs oids parts) (fun _ => true);
  let found : gset LogicalPartition := list_to_set (lp_of ∘ snd <$> xs) in
  if negb (size found =? length parts)%nat then throw (idb_except ERR_PARTITION_NOT_EXIST)
  else
    set_all_status EXTENTAVAILABLE xs.*1 ;;
    if existsb (fun x => status x.2 =? EXTENTAVAILABLE) xs
    then throw (idb_except ERR_PARTITION_ALREADY_ENABLED) else mret tt.

Definition getOutOfServicePartitions (oid : Z) : M t (gset LogicalPartition) :=
  if oid <? 0 then throw (invalid_argument "ExtentMap::getOutOfServicePartitions(): invalid OID requested") else
  grab2 READ ;;
  roots ← gets (fun s => allDbRoots (config s));
  es ← extents_of roots oid;
  release2 READ ;;
  mret (list_to_set (lp_of <$> List.filter (fun e => negb (in_service e)) es)).

(** ** Consistency of the LBID space *)

(** First and last LBID of a range; the product is computed in 32 bits. *)
Definition last32 (r : InlineLBIDRange) : Z := r_start r + u32 (r_size r * 1024) - 1.

Definition overlap32 (a b : InlineLBIDRange) : bool :=
  ((r_start a <=? r_start b) && (r_start b <=? last32 a))
  || ((r_start b <=? r_start a) && (last32 a <=? last32 b))
  || ((r_start a <=? last32 b) && (last32 b <=? last32 a)).

Definition used (l : list InlineLBIDRange) : list InlineLBIDRange := List.filter (fun r => negb (r_size r =? 0)) l.

Definition test1a (m : gmap Z EMEntry) (l : list InlineLBIDRange) : bool :=
  forallb (fun e => forallb (fun r => negb (overlap32 (range e) r)) (used l)) (values m).

(** One sweep over a list of ranges; [None]: an entry is not aligned. *)
Fixpoint sweep (rs : list InlineLBIDRange) (lbid : Z) : option Z :=
  match rs with
  | [] => Some lbid
  | r :: rs' =>
      if negb (r_start r mod 1024 =? 0) then None
      else sweep rs' (if r_start r / 1024 =? lbid then i32 (lbid + r_size r) else lbid)
  end.

(** [lbid] counts units of 1024 blocks; one pass per range is enough. *)
Fixpoint test1b (fuel : nat) (m : gmap Z EMEntry) (l : list InlineLBIDRange) (lbid : Z) : outcome bool :=
  if lbid <? 2 ^ 26 then
    match fuel with
    | O => Fault OutOfFuel
    | S fuel' =>
        match lbid' ← sweep l lbid; sweep (range <$> values m) lbid' with
        | None => Val false
        | Some lbid' => if lbid' =? lbid then Val false else test1b fuel' m l lbid'
        end
    end
  else Val true.

Definition test1c (m : gmap Z EMEntry) : bool :=
  forallb (fun e => (r_size (range e) =? 0) || negb (dbRoot e =? 0)) (values m).

Fixpoint test2 (l : list InlineLBIDRange) : bool :=
  match l with
  | [] => true
  | r :: l' =>
      ((r_size r =? 0)
       || forallb (fun r' => (r_size r' =? 0) || negb (r_start r' =? last32 r + 1)) l')
      && test2 l'
  end.

Definition test5a (m : Mem) (l : list InlineLBIDRange) : bool :=
  zlen (used l) =? u64 (currentSize (fFLShminfo m)) / sizeof_InlineLBIDRange.

Definition check (b : bool) (what : string) : M t unit := if b then mret tt else throw (logic_error what).

(** A failed test leaves the structures read-locked. *)
Definition checkConsistency : M t Z :=
  grab3 READ ;;
  m ← gets em;
  h ← gets mem;
  let l := take (Z.to_nat (flEntries h)) (fFreeList h) in
  check (test1a m l) "EM checkConsistency test 1a (data structures are read-locked)" ;;
  b ← lift (fun _ => test1b (S (length l + size m)) m l 0);
  check b "EM checkConsistency test 1b (data structures are read-locked)" ;;
  check (test1c m) "EM checkConsistency test 1c (data structures are read-locked)" ;;
  check (test2 l) "EM checkConsistency test 2 (data structures are read-locked)" ;;
  check (test5a h l) "EM checkConsistency test 5a (data structures are read-locked)" ;;
  releaseFreeList READ ;; release2 READ ;; mret 0.

End ops.
End ExtentPart.
