(* ===== verification/ExtentFile.v ===== *)
(** * The extent map: its save file

    versioning/BRM/extentmap.cpp: [save], [load], [loadVersion4or5] and
    [reserveLBIDRange].  The file holds the extents; the free list in it is not
    read: [load] takes every extent's LBIDs out of a list that is all free.  The
    growth of the tree's segment while it is filled is not modelled. *)

From S2P Require Import Prelude Hasher Bytes Undoable Vbbm Vss Persist ExtentMap ExtentOps.
From stdpp Require Import prelude gmap strings sorting.
Local Open Scope Z_scope.

Module ExtentFile.
Import ExtentMap ExtentOps FileIO.

Definition EM_MAGIC_V4 : Z := 0x76f78b1f.
Definition EM_MAGIC_V5 : Z := 0x76f78b20.

(** ** Layout

    The memory of an [InlineLBIDRange] and of an [EMEntry]; [pad] gives the bytes of
    padding: 4 after the size, 8 after the status, 11 after [isValid]. *)
Definition encode_range (pad : list Z) (r : InlineLBIDRange) : list Z :=
  le_bytes 8 (r_start r) ++ le_bytes 4 (r_size r) ++ pad.

Definition encode (pad : EMEntry -> list Z) (e : EMEntry) : list Z :=
  encode_range (take 4 (pad e)) (range e) ++
  le_bytes 4 (fileID e) ++ le_bytes 4 (blockOffset e) ++ le_bytes 4 (HWM e) ++
  le_bytes 4 (partitionNum e) ++ le_bytes 2 (segmentNum e) ++ le_bytes 2 (dbRoot e) ++
  le_bytes 2 (colWid e) ++ le_bytes 2 (status e) ++ take 8 (drop 4 (pad e)) ++
  le_bytes 4 (sequenceNum (partition e)) ++ le_bytes 1 (isValid (partition e)) ++ drop 12 (pad e) ++
  le_bytes 16 (bigLoVal (partition e)) ++ le_bytes 16 (bigHiVal (partition e)).

Definition i16 (z : Z) : Z := (z + 2 ^ 15) mod 2 ^ 16 - 2 ^ 15.
Definition i8 (z : Z) : Z := (z + 2 ^ 7) mod 2 ^ 8 - 2 ^ 7.

Definition decode (bs : list Z) : EMEntry :=
  mkEM (mkRange (i64 (field 0 8 bs)) (field 8 4 bs)) (i32 (field 16 4 bs)) (field 20 4 bs) (field 24 4 bs)
    (field 28 4 bs) (field 32 2 bs) (field 34 2 bs) (field 36 2 bs) (i16 (field 38 2 bs))
    (mkCP (i32 (field 48 4 bs)) (i8 (field 52 1 bs)) (i128 (field 64 16 bs)) (i128 (field 80 16 bs))).

(** [EMEntry_v4], copied to an [EMEntry] field by field. *)
Definition decode_v4 (bs : list Z) : EMEntry :=
  mkEM (mkRange (i64 (field 0 8 bs)) (field 8 4 bs)) (i32 (field 16 4 bs)) (field 20 4 bs) (field 24 4 bs)
    (field 28 4 bs) (field 32 2 bs) (field 34 2 bs) (field 36 2 bs) (i16 (field 38 2 bs))
    (with_seq (i32 (field 56 4 bs)) (with_valid (i8 (field 60 1 bs))
      (with_vals (i64 (field 48 8 bs)) (i64 (field 40 8 bs)) newCP))).

Definition sizeof_EMEntry_v4 : Z := 64.

(** ** save *)
Definition in_file {A} (m : M Dev A) : M (Dev * t) A := zoom fst (fun d st => (d, st.2)) m.
Definition in_map {A} (m : M t A) : M (Dev * t) A := zoom snd (fun s st => (st.1, s)) m.

Definition release3 (op : OPS) : M t unit := releaseFreeList op ;; release2 op.

(** [try m catch (...) { release; throw; }] *)
Definition or_release {A} (op : OPS) (m : M (Dev * t) A) : M (Dev * t) A :=
  try_catch m (fun e => in_map (release3 op) ;; throw e).

Definition save_failed : exn := ios_failure "ExtentMap::save(): write failed. Check the error log.".

Definition save (pad : EMEntry -> list Z) (rpad : InlineLBIDRange -> list Z) : M (Dev * t) unit :=
  in_map (grab3 READ) ;;
  empty ← gets (fun st => currentSize (fEMShminfo (mem st.2)) =? 0);
  if (empty : bool) then in_map (release3 READ) ;; throw (runtime_error "ExtentMap::save(): got request to save an empty BRM")
  else
    ok ← gets (fun st => isOpen st.1);
    if negb ok then in_map (release3 READ) ;; throw (ios_failure "ExtentMap::save(): open failed. Check the error log.")
    else
      n ← gets (fun st => Z.of_nat (size (em st.2)));
      nfl ← gets (fun st => flEntries (mem st.2));
      bytes ← in_file (write (le_bytes 4 EM_MAGIC_V5 ++ le_bytes 4 n ++ le_bytes 4 nfl));
      if negb (i32 bytes =? 12) then in_map (release3 READ) ;; throw save_failed
      else
        es ← gets (fun st => values (em st.2));
        or_release READ (for_each es (fun e =>
          let buf := encode pad e in in_file (write_loop (length buf) save_failed buf))) ;;
        l ← gets (fun st => take (Z.to_nat (flEntries (mem st.2))) (fFreeList (mem st.2)));
        (let buf := l ≫= (fun r => encode_range (rpad r) r) in
         or_release READ (in_file (write_loop (length buf) save_failed buf))) ;;
        in_map (release3 READ).

(** ** Taking a range out of the free list *)

(** The first free entry at or after [i]; [n] entries are left. *)
Fixpoint next_free (n : nat) (i : Z) (l : list InlineLBIDRange) : outcome Z :=
  match n with
  | O => Val i
  | S n' => r ← aget l i; if r_size r =? 0 then Val i else next_free n' (i + 1) l
  end.

Definition drop_entry_if_empty (i : Z) : M t unit :=
  r ← lift (fun s => aget (fFreeList (mem s)) i);
  if r_size r =? 0 then
    makeUndo (fun _ => LFLInfo) ;;
    upd_flinfo (fun x => with_cur (currentSize x - sizeof_InlineLBIDRange) x)
  else mret tt.

(** The loop, [n] entries left from [i] on; [free] is freeIndex. *)
Fixpoint reserve_scan (n : nat) (i start sz free total : Z) : M t unit :=
  match n with
  | O => mret tt
  | S n' =>
      r ← lift (fun s => aget (fFreeList (mem s)) i);
      let lastLBID := start + sz * 1024 - 1 in
      if r_size r =? 0 then reserve_scan n' (i + 1) start sz (if free =? -1 then i else free) total
      else
        let eLastLBID := r_start r + r_size r * 1024 - 1 in
        if start =? r_start r then
          makeUndo (fun k => LFree k i) ;;
          upd_free i (fun r => mkRange (r_start r + sz * 1024) (u32 (r_size r - sz))) ;;
          drop_entry_if_empty i
        else if eLastLBID =? lastLBID then
          makeUndo (fun k => LFree k i) ;;
          upd_free i (fun r => mkRange (r_start r) (u32 (r_size r - sz))) ;;
          drop_entry_if_empty i
        else if (r_start r <? start) && (lastLBID <? eLastLBID) then
          free ← (if free =? -1 then
                    full ← gets (fun s => currentSize (fFLShminfo (mem s)) =? allocdSize (fFLShminfo (mem s)));
                    if (full : bool) then growFLShmseg ;; mret total
                    else lift (fun s => next_free (Z.to_nat (total - (i + 1))) (i + 1) (fFreeList (mem s)))
                  else mret free);
          makeUndo (fun k => LFree k i) ;;
          makeUndo (fun k => LFree k free) ;;
          makeUndo (fun _ => LFLInfo) ;;
          upd_free i (fun r => mkRange (r_start r) (u32 (Z.quot (start - r_start r) 1024))) ;;
          upd_free free (fun _ => mkRange (start + sz * 1024) (u32 (Z.quot (eLastLBID - lastLBID) 1024))) ;;
          upd_flinfo (fun x => with_cur (currentSize x + sizeof_InlineLBIDRange) x)
        else reserve_scan n' (i + 1) start sz free total
  end.

(** The size is a [uint8_t]. *)
Definition reserveLBIDRange (start sz : Z) : M t unit :=
  n ← gets (fun s => flEntries (mem s));
  reserve_scan (Z.to_nat n) 0 start (u8 sz) (-1) n.

(** ** load *)
Definition load_failed : exn := runtime_error "ExtentMap::loadVersion4(): read failed. Check the error log.".

Definition EM_RB_TREE_INCREMENT : Z := 16 * 1024 * 1024.

(** [growEMShmseg(size)] of a mapped segment. *)
Definition growEM (sz : Z) : M t unit :=
  upd_eminfo (fun x => mkMST (chooseShmkey (tableShmkey x) 0x20000)
    (allocdSize x + Z.max sz EM_RB_TREE_INCREMENT)
    (if currentSize x =? 0 then EM_RB_TREE_EMPTY_SIZE else currentSize x)).

(** [std::map::insert] *)
Definition tree_insert (e : EMEntry) (m : gmap Z EMEntry) : gmap Z EMEntry :=
  match m !! lbid0 e with Some _ => m | None => <[lbid0 e := e]> m end.

Fixpoint read_extents (n : nat) (sz : Z) (dec : list Z -> EMEntry) : M (Dev * t) unit :=
  match n with
  | O => mret tt
  | S n' =>
      b ← in_file (read_loop (Z.to_nat sz) load_failed load_failed sz []);
      in_map (modify (fun s => set_em (tree_insert (dec b) (em s)) s)) ;;
      read_extents n' sz dec
  end.

(** A status out of range is taken as available. *)
Definition fix_status (e : EMEntry) : EMEntry :=
  if (status e <? EXTENTAVAILABLE) || (EXTENTOUTOFSERVICE <? status e) then with_status EXTENTAVAILABLE e else e.

Definition adopt (k : Z) : M t unit :=
  e ← deref k;
  reserveLBIDRange (lbid0 e) (r_size (range e)) ;;
  modify (fun s => set_em (<[k := fix_status e]> (em s)) s) ;;
  modify (fun s => set_index (index_insert (fix_status e) (lbid0 e) (index s)) s).

Definition all_free (m : Mem) : Mem :=
  set_flinfo (with_cur sizeof_InlineLBIDRange (fFLShminfo m))
    (set_fl (zset (replicate (length (fFreeList m)) emptyRange) 0 wholeRange) m).

Definition loadVersion4or5 (upgrade : bool) : M (Dev * t) unit :=
  '(n1, b1) ← in_file (read 4);
  '(n2, b2) ← in_file (read 4);
  let emNumElements := le_val b1 in
  idbassert (fun _ => 0 <? emNumElements) ;;
  if negb (u32 (n1 + n2) =? 8) then throw (runtime_error "ExtentMap::loadVersion4or5(): read failed. Check the error log.")
  else
    in_map (modify (set_em ∅)) ;;
    in_map (upd_eminfo (with_cur 0)) ;;
    in_map (modify (fun s => set_mem (all_free (mem s)) s)) ;;
    in_map (growEM (u32 (emNumElements * EM_RB_TREE_NODE_SIZE + EM_RB_TREE_EMPTY_SIZE))) ;;
    read_extents (Z.to_nat emNumElements) (if upgrade then sizeof_EMEntry_v4 else sizeof_EMEntry)
      (if upgrade then decode_v4 else decode) ;;
    ks ← gets (fun st => keys (em st.2));
    in_map (for_each ks adopt) ;;
    in_map (upd_eminfo (with_cur (i32 (emNumElements * EM_RB_TREE_NODE_SIZE + EM_RB_TREE_EMPTY_SIZE)))).

Definition load_in : M (Dev * t) unit :=
  '(n, b) ← in_file (read 4);
  let emVersion := i32 (le_val b) in
  if (i32 n =? 4) && ((emVersion =? EM_MAGIC_V4) || (emVersion =? EM_MAGIC_V5))
  then loadVersion4or5 (emVersion =? EM_MAGIC_V4)
  else throw (runtime_error "ExtentMap::load(): That file is not a valid ExtentMap image").

Definition load : M (Dev * t) unit :=
  in_map (grab3 WRITE) ;;
  ok ← gets (fun st => isOpen st.1);
  if negb ok then in_map (release3 WRITE) ;; throw (ios_failure "ExtentMap::load(): open failed. Check the error log.")
  else or_release WRITE load_in ;; in_map (release3 WRITE).

End ExtentFile.
