(* ===== verification/EmThms.v ===== *)
(** * Lemmas on the extent map

    The ordered tree and [findByLBID]; the free list as a set of LBIDs; the index as
    a relation between extents and places; the operations that take LBIDs, insert
    and give back extents, as triples over the invariant. *)

From S2P Require Import Prelude Undoable Vbbm ExtentMap ExtentOps.
From stdpp Require Import prelude gmap strings sorting.
Local Open Scope Z_scope.

Module EmThms.
Import ExtentMap ExtentOps.

(** ** Ordered maps *)
Section sorted.
Implicit Types (l : list Z) (P : Z -> Prop).

Lemma elem_head_filter P `{!forall x, Decision (P x)} l x :
  StronglySorted Z.le l -> head (filter P l) = Some x -> x ∈ l /\ P x /\ forall y, y ∈ l -> P y -> x <= y.
Proof.
  induction 1 as [|z l Hs IH Hz]; [done|]. rewrite filter_cons. case_decide as Hp; simpl.
  - intros [= ->]. split_and!; [set_solver|done|]. intros y [->|Hy]%elem_of_cons Hpy; [lia|].
    rewrite Forall_forall in Hz. by apply Hz.
  - intros (Hx & Hpx & Hmin)%IH. split_and!; [set_solver|done|].
    intros y [->|Hy]%elem_of_cons Hpy; [done|eauto].
Qed.

Lemma elem_last_filter P `{!forall x, Decision (P x)} l x :
  StronglySorted Z.le l -> last (filter P l) = Some x -> x ∈ l /\ P x /\ forall y, y ∈ l -> P y -> y <= x.
Proof.
  induction 1 as [|z l Hs IH Hz]; [done|]. rewrite filter_cons. case_decide as Hp; simpl.
  - rewrite last_cons. destruct (last (filter P l)) as [w|] eqn:Hl.
    + intros [= <-]. destruct (IH eq_refl) as (Hx & Hpx & Hmax). split_and!; [set_solver|done|].
      intros y [->|Hy]%elem_of_cons Hpy; [|eauto].
      rewrite Forall_forall in Hz. by apply Hz.
    + intros [= ->]. split_and!; [set_solver|done|].
      intros y [->|Hy]%elem_of_cons Hpy; [lia|].
      apply last_None in Hl. exfalso. eapply not_elem_of_nil. rewrite <- Hl.
      by apply list_elem_of_filter.
  - intros (Hx & Hpx & Hmax)%IH. split_and!; [set_solver|done|].
    intros y [->|Hy]%elem_of_cons Hpy; [done|eauto].
Qed.
End sorted.

Section tree.
Context {V : Type}.
Implicit Type m : gmap Z V.

Lemma keys_sorted m : StronglySorted Z.le (keys m).
Proof. apply (StronglySorted_merge_sort _). Qed.

Lemma keys_perm m : keys m ≡ₚ (map_to_list m).*1.
Proof. apply merge_sort_Permutation. Qed.

Lemma elem_of_keys m k : k ∈ keys m <-> is_Some (m !! k).
Proof.
  rewrite keys_perm, list_elem_of_fmap. split.
  - intros ([k' v] & -> & Hv%elem_of_map_to_list). by exists v.
  - intros [v Hv]. exists (k, v). split; [done|]. by apply elem_of_map_to_list.
Qed.

Lemma NoDup_keys m : NoDup (keys m).
Proof. rewrite keys_perm. apply NoDup_fst_map_to_list. Qed.

Lemma lower_bound_Some m l k :
  lower_bound m l = Some k -> is_Some (m !! k) /\ l <= k /\ forall j, is_Some (m !! j) -> l <= j -> k <= j.
Proof.
  intros (Hk & Hle & Hmin)%(elem_head_filter (fun j => l <= j)); [|apply keys_sorted].
  split_and!; [by apply elem_of_keys|done|]. intros j Hj. by apply Hmin, elem_of_keys.
Qed.

Lemma lower_bound_None m l j : lower_bound m l = None -> is_Some (m !! j) -> j < l.
Proof.
  unfold lower_bound. intros Hn%head_None Hj%elem_of_keys. destruct (decide (l <= j)); [|lia].
  exfalso. eapply not_elem_of_nil. rewrite <- Hn. by apply list_elem_of_filter.
Qed.

Lemma prev_key_Some m l k :
  prev_key m l = Some k -> is_Some (m !! k) /\ k < l /\ forall j, is_Some (m !! j) -> j < l -> j <= k.
Proof.
  intros (Hk & Hlt & Hmax)%(elem_last_filter (fun j => j < l)); [|apply keys_sorted].
  split_and!; [by apply elem_of_keys|done|]. intros j Hj. by apply Hmax, elem_of_keys.
Qed.

Lemma prev_key_is_Some m l j : is_Some (m !! j) -> j < l -> is_Some (prev_key m l).
Proof.
  intros Hj%elem_of_keys Hl. apply last_is_Some. intros Hn.
  eapply not_elem_of_nil. rewrite <- Hn. by apply list_elem_of_filter.
Qed.

Lemma filter_all (P : Z -> Prop) `{!forall x, Decision (P x)} (l : list Z) :
  (forall x, x ∈ l -> P x) -> filter P l = l.
Proof.
  induction l as [|x l IH]; intros Hall; [done|]. rewrite filter_cons_True by set_solver.
  f_equal. apply IH. set_solver.
Qed.

Lemma last_key_prev m l : (forall j, is_Some (m !! j) -> j < l) -> last_key m = prev_key m l.
Proof.
  intros H. unfold last_key, prev_key. f_equal. symmetry. apply filter_all.
  intros j Hj%elem_of_keys. by apply H.
Qed.

Lemma elem_of_values m v : v ∈ values m <-> exists k, m !! k = Some v.
Proof.
  unfold values. rewrite list_elem_of_omap. split.
  - intros (k & _ & Hk). by exists k.
  - intros (k & Hk). exists k. split; [|done]. apply elem_of_keys. by exists v.
Qed.
End tree.

(** ** Ranges of LBIDs *)
Definition owns (r : InlineLBIDRange) (l : Z) : Prop := r_start r <= l < r_start r + r_size r * 1024.

Definition LBIDS : Z := 2 ^ 36.

(** A range of at least one unit, aligned and inside the LBID space. *)
Definition range_ok (r : InlineLBIDRange) : Prop :=
  0 < r_size r /\ r_start r mod 1024 = 0 /\ 0 <= r_start r /\ r_start r + r_size r * 1024 <= LBIDS.

Definition apart (r r' : InlineLBIDRange) : Prop :=
  r_start r + r_size r * 1024 <= r_start r' \/ r_start r' + r_size r' * 1024 <= r_start r.

(** The extents of a tree: keyed by first LBID, well-formed, disjoint. *)
Record tree_ok (m : gmap Z EMEntry) : Prop := {
  tr_key k e : m !! k = Some e -> lbid0 e = k;
  tr_range k e : m !! k = Some e -> range_ok (range e) /\ r_size (range e) < 2 ^ 22;
  tr_apart k k' e e' : m !! k = Some e -> m !! k' = Some e' -> k <> k' -> apart (range e) (range e') }.

Definition allocated (m : gmap Z EMEntry) (l : Z) : Prop := exists k e, m !! k = Some e /\ owns (range e) l.

Lemma findByLBID_key m k e : m !! k = Some e -> findByLBID k m = Some k.
Proof.
  intros Hk. unfold findByLBID. destruct (lower_bound m k) as [j|] eqn:Hj.
  - apply lower_bound_Some in Hj as (Hj & Hle & Hmin).
    pose proof (Hmin k ltac:(eauto) ltac:(lia)). replace j with k by lia. by rewrite Z.eqb_refl.
  - apply (lower_bound_None _ _ k) in Hj; [lia|eauto].
Qed.

(** Two keys of a well-formed tree are further apart than the first extent is long. *)
Lemma tree_gap m k k' e : tree_ok m -> m !! k = Some e -> is_Some (m !! k') -> k < k' -> k + blocks e <= k'.
Proof.
  intros Hm Hk [e' Hk'] Hlt. pose proof (tr_key m Hm k e Hk) as Hk0. pose proof (tr_key m Hm k' e' Hk') as Hk0'.
  destruct (tr_range m Hm k' e' Hk') as [(Hpos & _) _]. unfold lbid0 in *.
  destruct (tr_apart m Hm k k' e e' Hk Hk' ltac:(lia)) as [Ha|Ha]; unfold blocks; lia.
Qed.

Lemma owns_key m k e l : tree_ok m -> m !! k = Some e -> owns (range e) l -> k <= l < k + blocks e.
Proof. intros Hm Hk Ho. rewrite <- (tr_key m Hm k e Hk). done. Qed.

(** The greatest key not above an owned LBID is the owner. *)
Lemma owner_is_prev m k e l p :
  tree_ok m -> m !! k = Some e -> owns (range e) l -> is_Some (m !! p) -> p <= l -> k <= p -> p = k.
Proof.
  intros Hm Hk Ho Hp Hle Hkp. pose proof (owns_key m k e l Hm Hk Ho).
  destruct (decide (k < p)); [|lia]. pose proof (tree_gap m k p e Hm Hk Hp ltac:(done)). lia.
Qed.

Lemma findByLBID_owner m k e l : tree_ok m -> m !! k = Some e -> owns (range e) l -> findByLBID l m = Some k.
Proof.
  intros Hm Hk Ho. pose proof (owns_key m k e l Hm Hk Ho) as Hl. unfold findByLBID.
  destruct (lower_bound m l) as [j|] eqn:Hj.
  - apply lower_bound_Some in Hj as (Hj & Hle & Hmin). destruct (Z.eqb_spec j l) as [->|Hne].
    { f_equal. apply (owner_is_prev m k e l); eauto; lia. }
    destruct (prev_key_is_Some m j k) as [p Hp]; [eauto|lia|]. rewrite Hp. f_equal.
    apply prev_key_Some in Hp as (Hp & Hpj & Hmax).
    apply (owner_is_prev m k e l); eauto; [|apply Hmax; eauto; lia].
    destruct (decide (p <= l)); [done|]. specialize (Hmin p Hp). lia.
  - assert (Hall : forall i, is_Some (m !! i) -> i < l) by eauto using lower_bound_None.
    rewrite (last_key_prev m l Hall). destruct (prev_key_is_Some m l k) as [p Hp]; eauto.
    rewrite Hp. apply prev_key_Some in Hp as (Hp & Hpl & Hmax).
    assert (p = k) as -> by (apply (owner_is_prev m k e l); eauto; lia).
    simpl. rewrite Hk. simpl. destruct (tr_range m Hm k e Hk) as [(Hpos & _) Hsz].
    rewrite u32_small by (unfold blocks; lia).
    destruct (Z.leb_spec k l), (Z.ltb_spec l (k + blocks e)); try lia. done.
Qed.

(** ** The free list *)
Definition used (r : InlineLBIDRange) : Prop := r_size r <> 0.
Global Instance used_dec r : Decision (used r).
Proof. unfold used. apply _. Defined.

(** Neither overlapping nor adjacent. *)
Definition sep (r r' : InlineLBIDRange) : Prop :=
  r_start r + r_size r * 1024 < r_start r' \/ r_start r' + r_size r' * 1024 < r_start r.

Lemma sep_sym r r' : sep r r' -> sep r' r.
Proof. unfold sep. lia. Qed.

Fixpoint seps (l : list InlineLBIDRange) : Prop :=
  match l with
  | [] => True
  | r :: l' => Forall (sep r) l' /\ seps l'
  end.

Global Instance seps_perm : Proper ((≡ₚ) ==> iff) seps.
Proof.
  assert (forall l l', l ≡ₚ l' -> seps l -> seps l') as Hp.
  { induction 1; simpl; try done; intros.
    - destruct H0. split; [by rewrite <- H|auto].
    - destruct H as (Hy & Hx & Hl). rewrite Forall_cons in Hy. destruct Hy as [Hyx Hy].
      rewrite Forall_cons. eauto using sep_sym.
    - auto. }
  intros l l' H. split; apply Hp; [done|by symmetry].
Qed.

(** The ranges in use, in any order: aligned, in the LBID space, consolidated. *)
Definition ranges_ok (u : list InlineLBIDRange) : Prop := Forall range_ok u /\ seps u.

Global Instance ranges_ok_perm : Proper ((≡ₚ) ==> iff) ranges_ok.
Proof. intros u u' H. unfold ranges_ok. by rewrite H. Qed.

Definition ranges (m : Mem) : list InlineLBIDRange := filter used (fFreeList m).

(** Entries that are not in use keep an aligned start too. *)
Definition aligned (r : InlineLBIDRange) : Prop := r_start r mod 1024 = 0.

Record fl_ok (m : Mem) : Prop := {
  fo_len : 0 < zlen (fFreeList m);
  fo_align : Forall aligned (fFreeList m);
  fo_alloc : allocdSize (fFLShminfo m) = sizeof_InlineLBIDRange * zlen (fFreeList m);
  fo_cur : currentSize (fFLShminfo m) = sizeof_InlineLBIDRange * zlen (ranges m);
  fo_ranges : ranges_ok (ranges m) }.

Definition covers (u : list InlineLBIDRange) (l : Z) : Prop := exists r, r ∈ u /\ owns r l.
Definition free (m : Mem) (l : Z) : Prop := covers (ranges m) l.

Lemma covers_cons r u l : covers (r :: u) l <-> owns r l \/ covers u l.
Proof. unfold covers. set_solver. Qed.

Global Instance covers_perm : Proper ((≡ₚ) ==> eq ==> iff) covers.
Proof. intros u u' H l ? <-. unfold covers. by setoid_rewrite H. Qed.

(** A slot of an array and the rest of it. *)
Lemma zset_split {A} (l : list A) i x :
  zget l i = Some x -> exists rest, l ≡ₚ x :: rest /\ forall y, zset l i y ≡ₚ y :: rest.
Proof.
  unfold zget, zset. destruct (i <? 0); [done|]. intros Hi.
  exists (take (Z.to_nat i) l ++ drop (S (Z.to_nat i)) l). split.
  - rewrite <- (take_drop_middle _ _ _ Hi) at 1. by rewrite Permutation_middle.
  - intros y. rewrite insert_take_drop by eauto using lookup_lt_Some. by rewrite Permutation_middle.
Qed.

Lemma zset_used l i x :
  zget l i = Some x -> exists rest, filter used l ≡ₚ filter used (x :: rest) /\
    forall y, filter used (zset l i y) ≡ₚ filter used (y :: rest).
Proof. intros (rest & Hl & Hs)%zset_split. exists rest. split; [by rewrite Hl|]. intros y. by rewrite Hs. Qed.

Lemma Forall_zset {A} (P : A -> Prop) l i y : Forall P l -> P y -> Forall P (zset l i y).
Proof. intros Hl Hy. unfold zset. destruct (i <? 0); [done|]. by apply Forall_insert. Qed.

Lemma flEntries_zlen m : fl_ok m -> flEntries m = zlen (fFreeList m).
Proof.
  intros Hm. unfold flEntries. rewrite (fo_alloc m Hm). unfold sizeof_InlineLBIDRange. rewrite Z.mul_comm.
  by apply Z.div_mul.
Qed.

(** Changing one range of a list. *)
Lemma ranges_ok_cons r u : ranges_ok (r :: u) <-> range_ok r /\ Forall (sep r) u /\ ranges_ok u.
Proof. unfold ranges_ok. simpl. rewrite Forall_cons. naive_solver. Qed.

(** [r] lies in [r0]: what is apart from [r0] is apart from [r]. *)
Lemma seps_within r r0 u :
  r_start r0 <= r_start r -> r_start r + r_size r * 1024 <= r_start r0 + r_size r0 * 1024 ->
  Forall (sep r0) u -> Forall (sep r) u.
Proof. intros H1 H2 H. eapply Forall_impl; [exact H|]. unfold sep. intros x. lia. Qed.

(** Taking the first [sz] units of a range. *)
Definition rest_of (sz : Z) (r : InlineLBIDRange) : InlineLBIDRange :=
  mkRange (r_start r + sz * 1024) (r_size r - sz).

Lemma ranges_ok_take r u sz :
  ranges_ok (r :: u) -> 0 < sz <= r_size r ->
  ranges_ok (filter used [rest_of sz r] ++ u) /\
  forall l, covers (filter used [rest_of sz r] ++ u) l <->
    covers (r :: u) l /\ ~ (r_start r <= l < r_start r + sz * 1024).
Proof.
  intros ((Hpos & Hal & H0 & Hend) & Hs & Hu)%ranges_ok_cons Hsz.
  assert (Hout : forall l, covers u l -> ~ owns r l).
  { intros l (x & Hx & Hl) Ho. rewrite Forall_forall in Hs. apply Hs in Hx. unfold sep, owns in *. lia. }
  rewrite filter_cons, filter_nil. case_decide as Hz; unfold used, rest_of in Hz; simpl in Hz; simpl.
  - split.
    + apply ranges_ok_cons. split_and!; [|eapply seps_within; [..|exact Hs]; simpl; lia|done].
      split_and!; simpl; try lia. rewrite Z.add_mod, Hal by lia. rewrite Z.mod_mul by lia. done.
    + intros l. rewrite !covers_cons. specialize (Hout l). unfold owns, rest_of in *. simpl.
      split; [intros [?|?]; split; [left; lia|lia|by right|]|naive_solver lia].
      intros ?. apply Hout; [done|lia].
  - split; [done|]. intros l. rewrite covers_cons. specialize (Hout l). unfold owns in *.
    split; [intros ?; split; [by right|]|naive_solver lia]. intros ?. apply Hout; [done|lia].
Qed.

(** Giving a range back: alone, or joined with its neighbours. *)
Lemma apart_of r x : 0 < r_size r -> 0 < r_size x -> (forall l, owns r l -> ~ owns x l) -> apart r x.
Proof.
  unfold owns, apart. intros H1 H2 H. destruct (decide (r_start r <= r_start x)).
  - specialize (H (r_start x)). lia.
  - specialize (H (r_start r)). lia.
Qed.

Definition ends_at (r : InlineLBIDRange) : Z := r_start r + r_size r * 1024.

Lemma range_ok_join r r' :
  range_ok r -> range_ok r' -> ends_at r = r_start r' -> range_ok (mkRange (r_start r) (r_size r + r_size r')).
Proof. unfold range_ok, ends_at. simpl. intros. split_and!; lia. Qed.

Lemma owns_join r r' l :
  0 < r_size r -> 0 < r_size r' -> ends_at r = r_start r' ->
  owns (mkRange (r_start r) (r_size r + r_size r')) l <-> owns r l \/ owns r' l.
Proof. unfold owns, ends_at. simpl. lia. Qed.

Lemma ranges_ok_give r u :
  range_ok r -> ranges_ok u -> (forall l, owns r l -> ~ covers u l) ->
  (forall x, x ∈ u -> ends_at x <> r_start r /\ r_start x <> ends_at r) -> ranges_ok (r :: u).
Proof.
  intros Hr Hu Hd Hn. apply ranges_ok_cons. split_and!; [done| |done]. apply Forall_forall. intros x Hx.
  destruct Hu as [Hu _]. rewrite Forall_forall in Hu. specialize (Hu x Hx). specialize (Hn x Hx).
  assert (apart r x) as Ha.
  { apply apart_of; [apply Hr|apply Hu|]. intros l Hl Ho. apply (Hd l Hl). by exists x. }
  unfold apart, sep, ends_at in *. lia.
Qed.

(** [r] is joined with [s], which follows it. *)
Lemma ranges_ok_join_succ r s u :
  range_ok r -> ranges_ok (s :: u) -> (forall l, owns r l -> ~ covers (s :: u) l) -> ends_at r = r_start s ->
  (forall x, x ∈ u -> ends_at x <> r_start r) ->
  let j := mkRange (r_start r) (r_size r + r_size s) in
  ranges_ok (j :: u) /\ forall l, covers (j :: u) l <-> covers (s :: u) l \/ owns r l.
Proof.
  intros Hr [Hs [Hsu Hu]]%ranges_ok_cons Hd He Hn j.
  assert (Hj : forall l, owns j l <-> owns r l \/ owns s l) by (intros l; apply owns_join; [apply Hr|apply Hs|done]).
  split; [|intros l; rewrite !covers_cons, Hj; tauto].
  apply ranges_ok_give; [by apply range_ok_join|done| |].
  - intros l [Hl|Hl]%Hj Hc; [apply (Hd l Hl); rewrite covers_cons; by right|].
    destruct Hc as (x & Hx & Hxl). rewrite Forall_forall in Hsu. apply Hsu in Hx.
    unfold sep, owns in *. lia.
  - intros x Hx. split; [by apply Hn|]. rewrite Forall_forall in Hsu. specialize (Hsu x Hx).
    destruct Hu as [Hu _]. rewrite Forall_forall in Hu. destruct (Hu x Hx), Hs, Hr.
    unfold sep, ends_at in *. simpl. lia.
Qed.

(** [r] is joined with [p], which precedes it. *)
Lemma ranges_ok_join_prec r p u :
  range_ok r -> ranges_ok (p :: u) -> (forall l, owns r l -> ~ covers (p :: u) l) -> ends_at p = r_start r ->
  (forall x, x ∈ u -> r_start x <> ends_at r) ->
  let j := mkRange (r_start p) (r_size p + r_size r) in
  ranges_ok (j :: u) /\ forall l, covers (j :: u) l <-> covers (p :: u) l \/ owns r l.
Proof.
  intros Hr [Hp [Hpu Hu]]%ranges_ok_cons Hd He Hn j.
  assert (Hj : forall l, owns j l <-> owns p l \/ owns r l) by (intros l; apply owns_join; [apply Hp|apply Hr|done]).
  split; [|intros l; rewrite !covers_cons, Hj; tauto].
  apply ranges_ok_give; [by apply range_ok_join|done| |].
  - intros l [Hl|Hl]%Hj Hc; [|apply (Hd l Hl); rewrite covers_cons; by right].
    destruct Hc as (x & Hx & Hxl). rewrite Forall_forall in Hpu. apply Hpu in Hx.
    unfold sep, owns in *. lia.
  - intros x Hx. split.
    + rewrite Forall_forall in Hpu. specialize (Hpu x Hx).
      destruct Hu as [Hu _]. rewrite Forall_forall in Hu. destruct (Hu x Hx), Hp, Hr.
      unfold sep, ends_at in *. simpl. lia.
    + specialize (Hn x Hx). unfold ends_at in *. simpl. lia.
Qed.

(** Both neighbours. *)
Lemma ranges_ok_join_both r p s u :
  range_ok r -> ranges_ok (p :: s :: u) -> (forall l, owns r l -> ~ covers (p :: s :: u) l) ->
  ends_at p = r_start r -> ends_at r = r_start s ->
  let j := mkRange (r_start p) (r_size p + (r_size s + r_size r)) in
  ranges_ok (j :: u) /\ forall l, covers (j :: u) l <-> covers (p :: s :: u) l \/ owns r l.
Proof.
  intros Hr Hps Hd Hep Hes j.
  pose proof Hps as [Hp [[Hsep Hpu]%Forall_cons [Hs [Hsu Hu]]%ranges_ok_cons]]%ranges_ok_cons.
  destruct (ranges_ok_join_succ r s u) as [Hok Hcov]; try done.
  { by apply ranges_ok_cons. }
  { intros l Hl Hc. apply (Hd l Hl). rewrite covers_cons. by right. }
  { intros x Hx. rewrite Forall_forall in Hpu. specialize (Hpu x Hx). unfold sep, ends_at in *.
    destruct Hu as [Hu _]. rewrite Forall_forall in Hu. destruct (Hu x Hx), Hp, Hr. lia. }
  set (q := mkRange (r_start r) (r_size r + r_size s)) in *.
  apply ranges_ok_cons in Hok as [Hq [Hqu _]].
  destruct (ranges_ok_join_prec q p u) as [Hok' Hcov']; try done.
  { by apply ranges_ok_cons. }
  { intros l Hl. assert (owns r l \/ owns s l) as [Ho|Ho].
    { unfold q, owns, ends_at in *. simpl in Hl. lia. }
    - intros Hc. apply (Hd l Ho). rewrite !covers_cons in *. tauto.
    - rewrite covers_cons. intros [Hpl|(x & Hx & Hxl)].
      + unfold sep, owns in *. lia.
      + rewrite Forall_forall in Hsu. apply Hsu in Hx. unfold sep, owns in *. lia. }
  { intros x Hx. rewrite Forall_forall in Hqu. specialize (Hqu x Hx). unfold sep, ends_at in *.
    destruct Hu as [Hu _]. rewrite Forall_forall in Hu. destruct (Hu x Hx), Hq. lia. }
  replace j with (mkRange (r_start p) (r_size p + r_size q)) by (unfold j, q; simpl; f_equal; lia).
  split; [done|]. intros l. rewrite Hcov'. rewrite !covers_cons in *. specialize (Hcov l).
  rewrite !covers_cons in Hcov. tauto.
Qed.

End EmThms.
