(* ===== verification/EmFree.v ===== *)
(** * The free list of the extent map: taking and giving back LBIDs

    Triples for [getLBIDsFromFreeList] and the part of [deleteExtent] that returns
    an extent's LBIDs to the free list. *)

From S2P Require Import Prelude Undoable Vbbm ExtentMap ExtentOps EmThms.
From stdpp Require Import prelude gmap strings sorting.
Local Open Scope Z_scope.

Module EmFree.
Import ExtentMap ExtentOps EmThms.

(** Only the free list's memory and its undo log change. *)
Definition put (m : Mem) (u : list (ImageDelta Loc Data)) (s : t) : t := set_undo u (set_mem m s).

Lemma em_wp_makeUndo loc s d (Q : unit -> t -> Prop) :
  read_loc (loc (flKey (mem s))) (mem s) = Val d ->
  Q tt (set_undo (undoRecords s ++ [{| Undoable.start := loc (flKey (mem s)); data := d |}]) s) ->
  wp (makeUndo loc) s Q.
Proof.
  intros Hr HQ. unfold wp, makeUndo, makeUndoRecord.
  replace (ID_MAXSIZE <? um_size (loc (flKey (mem s)))) with false.
  - simpl. by rewrite Hr.
  - by destruct (loc (flKey (mem s))).
Qed.

Lemma em_wp_upd_free i f s r (Q : unit -> t -> Prop) :
  zget (fFreeList (mem s)) i = Some r ->
  Q tt (set_mem (set_fl (zset (fFreeList (mem s)) i (f r)) (mem s)) s) -> wp (upd_free i f) s Q.
Proof. intros Hi HQ. unfold wp, upd_free. by rewrite Hi. Qed.

Lemma em_read_free m i r : zget (fFreeList m) i = Some r -> read_loc (LFree (flKey m) i) m = Val (DFree r).
Proof. intros Hi. simpl. unfold aget. by rewrite Z.eqb_refl, Hi. Qed.

Lemma undoes_free m u i r r' :
  zget (fFreeList m) i = Some r ->
  undoes m u (set_fl (zset (fFreeList m) i r') m) (u ++ [{| Undoable.start := LFree (flKey m) i; data := DFree r |}]).
Proof.
  intros Hi. apply (undoes_write _ _ (DFree r')); [by apply em_read_free|].
  simpl. unfold aget. by rewrite Z.eqb_refl, Hi.
Qed.

Lemma undoes_flinfo m u x :
  undoes m u (set_flinfo x m) (u ++ [{| Undoable.start := LFLInfo; data := DInfo (fFLShminfo m) |}]).
Proof. by apply (undoes_write _ _ (DInfo x)). Qed.

(** ** Taking LBIDs *)
Definition shrink_info (sz : Z) (r : InlineLBIDRange) (x : MSTEntry) : MSTEntry :=
  if r_size r =? sz then with_cur (currentSize x - sizeof_InlineLBIDRange) x else x.

(** The memory after [sz] units were taken from entry [i]. *)
Definition shrink (i sz : Z) (r : InlineLBIDRange) (m : Mem) : Mem :=
  set_flinfo (shrink_info sz r (fFLShminfo m)) (set_fl (zset (fFreeList m) i (rest_of sz r)) m).

Lemma ranges_zget m i r : zget (fFreeList m) i = Some r -> used r -> r ∈ ranges m.
Proof.
  intros Hi Hu. apply list_elem_of_filter. split; [done|]. unfold zget in Hi.
  destruct (i <? 0); [done|]. by eapply list_elem_of_lookup_2.
Qed.

Lemma zget_ranges m r : r ∈ ranges m -> exists i, zget (fFreeList m) i = Some r /\ used r.
Proof.
  intros [Hu (i & Hi)%list_elem_of_lookup]%list_elem_of_filter. exists (Z.of_nat i). split; [|done].
  unfold zget. destruct (Z.ltb_spec (Z.of_nat i) 0); [lia|]. by rewrite Nat2Z.id.
Qed.

Lemma range_ok_zget m i r : fl_ok m -> zget (fFreeList m) i = Some r -> used r -> range_ok r.
Proof.
  intros Hm Hi Hu. destruct (fo_ranges m Hm) as [Hr _]. rewrite Forall_forall in Hr.
  eauto using ranges_zget.
Qed.

Lemma shrink_ok m i r sz :
  fl_ok m -> zget (fFreeList m) i = Some r -> 0 < sz <= r_size r ->
  fl_ok (shrink i sz r m) /\
  forall l, free (shrink i sz r m) l <-> free m l /\ ~ (r_start r <= l < r_start r + sz * 1024).
Proof.
  intros Hm Hi Hsz. destruct (zset_used _ _ _ Hi) as (rest & Hold & Hnew). specialize (Hnew (rest_of sz r)).
  rewrite filter_cons_True in Hold by (unfold used; lia).
  assert (ranges (shrink i sz r m) ≡ₚ filter used [rest_of sz r] ++ filter used rest) as Hnew'.
  { unfold ranges, shrink. simpl. by rewrite Hnew, <- filter_app. }
  change (filter used (fFreeList m)) with (ranges m) in Hold.
  pose proof (fo_ranges m Hm) as Hok. rewrite Hold in Hok.
  destruct (ranges_ok_take _ _ sz Hok Hsz) as [Hok' Hcov]. split.
  - constructor.
    + simpl. rewrite zlen_zset. apply (fo_len m Hm).
    + simpl. apply Forall_zset; [apply (fo_align m Hm)|]. apply ranges_ok_cons in Hok as [(_ & Hal & _) _].
      unfold aligned, rest_of. simpl. rewrite Z.add_mod, Hal, Z.mod_mul by lia. done.
    + unfold shrink, shrink_info. simpl. rewrite zlen_zset, <- (fo_alloc m Hm). by destruct (_ =? _).
    + pose proof (fo_cur m Hm) as Hc. unfold zlen in Hc. rewrite Hold in Hc.
      unfold zlen. rewrite Hnew'. unfold shrink, shrink_info, with_cur. simpl. rewrite filter_cons, filter_nil.
      destruct (Z.eqb_spec (r_size r) sz); case_decide as Hu; unfold used, rest_of in Hu; simpl in *; lia.
    + by rewrite Hnew'.
  - intros l. unfold free. rewrite Hnew', Hcov, Hold. done.
Qed.

(** The scan stops at the first entry that is large enough. *)
Lemma take_lbids_found n : forall i sz s j r,
  fl_ok (mem s) -> 0 < sz < 2 ^ 22 -> 0 <= i -> i <= j < i + Z.of_nat n ->
  zget (fFreeList (mem s)) j = Some r -> sz <= r_size r ->
  (forall k x, i <= k < j -> zget (fFreeList (mem s)) k = Some x -> r_size x < sz) ->
  wp (take_lbids n i sz) s (fun l s' => l = r_start r /\ exists u,
    s' = put (shrink j sz r (mem s)) u s /\ undoes (mem s) (undoRecords s) (mem s') u).
Proof.
  induction n as [|n IH]; intros i sz s j r Hm Hsz H0 Hij Hj Hle Hfirst; [lia|]. simpl.
  pose proof (zget_Some_range _ _ _ Hj) as Hrange.
  destruct (decide (i = j)) as [->|Hne].
  - wp_step. eapply wp_lift; [by apply aget_Val|].
    destruct (Z.leb_spec sz (r_size r)) as [_|]; [|lia].
    assert (range_ok r) as (_ & _ & Hst & Hend) by (eapply range_ok_zget; eauto; unfold used; lia).
    rewrite (u32_small (sz * 1024)) by lia. unfold LBIDS in Hend.
    wp_step. eapply em_wp_makeUndo; [by apply em_read_free|].
    wp_step. eapply em_wp_upd_free; [exact Hj|]. simpl. rewrite (u32_small (r_size r - sz)) by lia.
    wp_step. eapply wp_lift; [apply aget_Val; simpl; by apply zget_zset_eq|].
    cbn [r_size]. destruct (Z.eqb_spec (r_size r - sz) 0) as [Hz|Hz].
    + wp_step. wp_step. eapply em_wp_makeUndo; [done|]. apply wp_modify. simpl. wp_step. split; [done|].
      eexists. split; [unfold put, shrink, shrink_info|].
      { destruct (Z.eqb_spec (r_size r) sz); [done|lia]. }
      simpl. eapply undoes_trans; [exact (undoes_free (mem s) _ j r (rest_of sz r) Hj)|exact (undoes_flinfo (set_fl (zset (fFreeList (mem s)) j (rest_of sz r)) (mem s)) _ _)].
    + wp_step. wp_step. wp_step. split; [done|].
      eexists. split; [unfold put, shrink, shrink_info|].
      { destruct (Z.eqb_spec (r_size r) sz); [lia|]. by destruct s as [? []]. }
      exact (undoes_free (mem s) _ j r (rest_of sz r) Hj).
  - destruct (zget_is_Some (fFreeList (mem s)) i) as [x Hx]; [lia|].
    wp_step. eapply wp_lift; [by apply aget_Val|].
    pose proof (Hfirst i x ltac:(lia) Hx). destruct (Z.leb_spec sz (r_size x)); [lia|].
    apply IH; try done; try lia. intros k y Hk. apply Hfirst. lia.
Qed.

Definition out_of_space : exn := runtime_error "ExtentMap::getLBIDsFromFreeList(): out of LBID space".

Lemma take_lbids_none n : forall i sz s,
  0 <= i -> i + Z.of_nat n = zlen (fFreeList (mem s)) ->
  (forall k x, zget (fFreeList (mem s)) k = Some x -> r_size x < sz) ->
  take_lbids n i sz s = (Exn out_of_space, s).
Proof.
  induction n as [|n IH]; intros i sz s H0 Hn Hall; [done|]. simpl.
  destruct (zget_is_Some (fFreeList (mem s)) i) as [x Hx]; [lia|].
  unfold mbind, M_bind, lift, aget. rewrite Hx. pose proof (Hall i x Hx).
  destruct (Z.leb_spec sz (r_size x)); [lia|]. apply IH; try done; lia.
Qed.

(** The first entry of an array that satisfies a test. *)
Lemma zfirst {A} (P : A -> Prop) `{!forall x, Decision (P x)} (l : list A) :
  (exists i x, zget l i = Some x /\ P x /\ forall j y, j < i -> zget l j = Some y -> ~ P y)
  \/ (forall i x, zget l i = Some x -> ~ P x).
Proof.
  induction l as [|x l IH].
  - right. intros i x Hx%zget_Some_range. unfold zlen in Hx. simpl in Hx. lia.
  - destruct (decide (P x)) as [Hp|Hp].
    + left. exists 0, x. split_and!; [by apply zget_cons; left|done|].
      intros j y Hj Hy%zget_Some_range. lia.
    + destruct IH as [(i & z & Hi & Hz & Hfirst)|Hnone].
      * left. exists (i + 1), z. pose proof (zget_Some_range _ _ _ Hi).
        split_and!; [apply zget_cons; right; split; [lia|by replace (i + 1 - 1) with i by lia]|done|].
        intros j y Hj [[-> ->]|[_ Hy]]%zget_cons; [done|]. apply (Hfirst (j - 1)); [lia|done].
      * right. intros i z [[-> ->]|[_ Hz]]%zget_cons; [done|eauto].
Qed.

(** [getLBIDsFromFreeList]: first fit. *)
Lemma getLBIDs_spec sz s j r :
  fl_ok (mem s) -> 0 < sz < 2 ^ 22 ->
  zget (fFreeList (mem s)) j = Some r -> sz <= r_size r ->
  (forall k x, k < j -> zget (fFreeList (mem s)) k = Some x -> r_size x < sz) ->
  wp (getLBIDsFromFreeList sz) s (fun l s' => l = r_start r /\ exists u,
    s' = put (shrink j sz r (mem s)) u s /\ undoes (mem s) (undoRecords s) (mem s') u).
Proof.
  intros Hm Hsz Hj Hle Hfirst. unfold getLBIDsFromFreeList. wp_steps. rewrite flEntries_zlen by done.
  pose proof (zget_Some_range _ _ _ Hj). apply take_lbids_found; try done; try lia.
  intros k x Hk. apply Hfirst. lia.
Qed.

Lemma getLBIDs_none sz s :
  fl_ok (mem s) -> (forall k x, zget (fFreeList (mem s)) k = Some x -> r_size x < sz) ->
  getLBIDsFromFreeList sz s = (Exn out_of_space, s).
Proof.
  intros Hm Hall. unfold getLBIDsFromFreeList. unfold mbind, M_bind, gets.
  rewrite flEntries_zlen by done. apply take_lbids_none; [lia| |done].
  unfold zlen. lia.
Qed.

(** ** Giving LBIDs back *)

(** What the scan of [deleteExtent] knows of the entries before [i] that satisfy
    [P]: none, or one of them. *)
Definition scan_at (P : InlineLBIDRange -> Prop) (l : list InlineLBIDRange) (i a : Z) : Prop :=
  (a = -1 /\ forall j r, j < i -> zget l j = Some r -> ~ P r) \/ (exists r, 0 <= a < i /\ zget l a = Some r /\ P r).

Lemma scan_at_start (P : InlineLBIDRange -> Prop) l : scan_at P l 0 (-1).
Proof. left. split; [done|]. intros j r Hj Hr%zget_Some_range. lia. Qed.

Lemma scan_at_skip (P : InlineLBIDRange -> Prop) l i a r :
  scan_at P l i a -> zget l i = Some r -> ~ P r -> scan_at P l (i + 1) a.
Proof.
  intros [[-> H]|(x & Ha & Hx & Hp)] Hi Hn.
  - left. split; [done|]. intros j y Hj Hy. destruct (decide (j = i)) as [->|]; [congruence|].
    apply (H j); [lia|done].
  - right. exists x. split_and!; [lia|lia|done|done].
Qed.

Lemma scan_at_hit (P : InlineLBIDRange -> Prop) l i r : zget l i = Some r -> P r -> scan_at P l (i + 1) i.
Proof. intros Hi Hp. right. exists r. pose proof (zget_Some_range _ _ _ Hi). split_and!; [lia|lia|done|done]. Qed.

Definition is_prec (st : Z) (r : InlineLBIDRange) : Prop := used r /\ ends_at r = st.
Definition is_succ (en : Z) (r : InlineLBIDRange) : Prop := used r /\ r_start r = en.

Lemma fl_scan_spec st en l n : forall i p s f,
  st < en -> (forall j r, zget l j = Some r -> 0 <= r_size r) ->
  0 <= i -> i + Z.of_nat n = zlen l ->
  scan_at (is_prec st) l i p -> scan_at (is_succ en) l i s -> scan_at (fun r => ~ used r) l i f ->
  exists p' s' f', fl_scan n i st en l (p, s, f) = Val (p', s', f') /\
    scan_at (is_prec st) l (zlen l) p' /\ scan_at (is_succ en) l (zlen l) s' /\
    scan_at (fun r => ~ used r) l (zlen l) f'.
Proof.
  induction n as [|n IH]; intros i p s f Hlt Hnn H0 Hn Hp Hs Hf.
  { replace i with (zlen l) in * by lia. by exists p, s, f. }
  simpl. destruct (zget_is_Some l i) as [r Hr]; [lia|]. unfold aget. rewrite Hr. simpl.
  pose proof (Hnn i r Hr) as Hsz.
  destruct (Z.eqb_spec (r_size r) 0) as [Hz|Hz]; [|destruct (Z.eqb_spec en (r_start r)) as [He|He];
    [|destruct (Z.eqb_spec (r_start r + r_size r * 1024) st) as [Hst|Hst]]];
    apply IH; try done; try lia;
    first [by eapply scan_at_hit; [exact Hr|unfold is_prec, is_succ, used, ends_at]; intuition
          |eapply scan_at_skip; [done|exact Hr|unfold is_prec, is_succ, used, ends_at; intuition lia]].
Qed.

Lemma used_update l i x y :
  zget l i = Some x -> used x -> used y ->
  exists u, filter used l ≡ₚ x :: u /\ filter used (zset l i y) ≡ₚ y :: u.
Proof.
  intros (rest & Hl & Hs)%zset_used Hx Hy. exists (filter used rest).
  rewrite Hl, Hs, !filter_cons_True by done. done.
Qed.

Lemma used_kill l i x y :
  zget l i = Some x -> used x -> ~ used y -> filter used l ≡ₚ x :: filter used (zset l i y).
Proof.
  intros (rest & Hl & Hs)%zset_used Hx Hy. rewrite Hl, Hs, filter_cons_True, filter_cons_False by done. done.
Qed.

(** Moving an entry to a free slot before it keeps the ranges. *)
Lemma Forall_zget {A} (P : A -> Prop) l i x : Forall P l -> zget l i = Some x -> P x.
Proof.
  intros Hl Hx. unfold zget in Hx. destruct (i <? 0); [done|]. rewrite Forall_lookup in Hl. eauto.
Qed.

Lemma migrate_spec i f s r :
  zget (fFreeList (mem s)) i = Some r -> used r -> scan_at (fun r => ~ used r) (fFreeList (mem s)) (zlen (fFreeList (mem s))) f ->
  wp (migrate i f) s (fun q s' => exists l u, s' = put (set_fl l (mem s)) u s /\
    zlen l = zlen (fFreeList (mem s)) /\ (Forall aligned (fFreeList (mem s)) -> Forall aligned l) /\
    zget l q = Some r /\ filter used l ≡ₚ filter used (fFreeList (mem s)) /\
    forall j x, j <> i -> used x -> zget (fFreeList (mem s)) j = Some x -> zget l j = Some x /\ j <> q).
Proof.
  intros Hi Hu Hf. unfold migrate. destruct (_ && _) eqn:Hc.
  - apply andb_true_iff in Hc as [Hfi Hf1]. apply Z.ltb_lt in Hfi. apply negb_true_iff, Z.eqb_neq in Hf1.
    destruct Hf as [[? _]|(x & Hf & Hx & Hnu)]; [done|].
    pose proof (zget_Some_range _ _ _ Hi).
    wp_step. eapply em_wp_makeUndo; [by apply em_read_free|].
    wp_step. eapply wp_lift; [by apply aget_Val|].
    wp_step. eapply em_wp_upd_free; [exact Hx|]. simpl.
    wp_step. eapply em_wp_upd_free; [simpl; rewrite zget_zset_ne; [exact Hi|lia]|]. wp_step. simpl.
    eexists _, _. split; [unfold put; simpl; reflexivity|]. split_and!.
    + by rewrite !zlen_zset.
    + intros Hal. pose proof (Forall_zget aligned _ _ _ Hal Hi) as Hr.
      by apply Forall_zset; [apply Forall_zset|].
    + rewrite zget_zset_ne by lia. apply zget_zset_eq. lia.
    + assert (zget (zset (fFreeList (mem s)) f r) i = Some r) as Hi' by (rewrite zget_zset_ne; [done|lia]).
      pose proof (used_kill _ _ _ (mkRange (r_start r) 0) Hi' Hu ltac:(unfold used; simpl; lia)) as H1.
      rewrite (filter_zset_perm used _ _ _ _ Hx Hnu Hu) in H1. by apply (inj (cons r)) in H1.
    + intros j y Hj Hy Hjy. rewrite zget_zset_ne by lia.
      assert (j <> f) by (intros ->; by simplify_eq). by rewrite zget_zset_ne by lia.
  - wp_step. exists (fFreeList (mem s)), (undoRecords s). split; [by destruct s as [? []]|]. split_and!; try done.
Qed.

Lemma fl_ok_intro m l c u :
  fl_ok m -> zlen l = zlen (fFreeList m) -> Forall aligned l -> filter used l ≡ₚ u -> ranges_ok u ->
  c = sizeof_InlineLBIDRange * zlen u ->
  let m' := set_flinfo (with_cur c (fFLShminfo m)) (set_fl l m) in
  fl_ok m' /\ forall x, free m' x <-> covers u x.
Proof.
  intros Hm Hl Hal Hu Hok ->. split; [constructor; simpl|].
  - rewrite Hl. apply (fo_len m Hm).
  - done.
  - by rewrite (fo_alloc m Hm), Hl.
  - unfold zlen, ranges. simpl. by rewrite Hu.
  - unfold ranges. simpl. by rewrite Hu.
  - intros x. unfold free, ranges. simpl. by rewrite Hu.
Qed.

(** A larger segment, its new slots free. *)
Lemma growFL_spec s :
  fl_ok (mem s) ->
  wp growFLShmseg s (fun _ s' => exists m, s' = set_mem m s /\ fl_ok m /\ fEMShminfo m = fEMShminfo (mem s) /\
    fFreeList m = fFreeList (mem s) ++ replicate 50 emptyRange /\ ranges m = ranges (mem s)).
Proof.
  intros Hm. apply wp_modify. eexists. split; [reflexivity|].
  pose proof (fo_len _ Hm) as Hlen. pose proof (fo_alloc _ Hm) as Ha. unfold sizeof_InlineLBIDRange in Ha.
  assert (allocdSize (fFLShminfo (mem s)) =? 0 = false) as -> by (apply Z.eqb_neq; lia).
  set (l' := resize _ _ _). assert (l' = fFreeList (mem s) ++ replicate 50 emptyRange) as Hl.
  { unfold l'. rewrite Ha. unfold EM_FREELIST_INCREMENT, sizeof_InlineLBIDRange.
    replace (16 * zlen (fFreeList (mem s)) + 50 * 16) with ((zlen (fFreeList (mem s)) + 50) * 16) by lia.
    rewrite Z.div_mul by lia. unfold zlen. rewrite resize_ge by lia. do 2 f_equal. lia. }
  assert (filter used l' = filter used (fFreeList (mem s))) as Hf.
  { rewrite Hl, filter_app. by rewrite app_nil_r. }
  split_and!; try done. constructor; simpl.
  - rewrite Hl, zlen_app. unfold zlen in *. lia.
  - rewrite Hl. apply Forall_app. split; [apply (fo_align _ Hm)|]. by apply Forall_replicate.
  - rewrite Ha, Hl, zlen_app, zlen_replicate. unfold EM_FREELIST_INCREMENT, sizeof_InlineLBIDRange. lia.
  - unfold ranges. simpl. rewrite Hf. apply (fo_cur _ Hm).
  - unfold ranges. simpl. rewrite Hf. apply (fo_ranges _ Hm).
Qed.

(** What giving back [e]'s LBIDs does. *)
Definition gave (e : EMEntry) (s s' : t) : Prop :=
  exists m u, s' = put m u s /\ fl_ok m /\ fEMShminfo m = fEMShminfo (mem s) /\
    forall l, free m l <-> free (mem s) l \/ owns (range e) l.

Section give.
Variables (e : EMEntry) (s : t).
Hypotheses (Hm : fl_ok (mem s)) (He : range_ok (range e)) (Hd : forall l, owns (range e) l -> ~ free (mem s) l).

Lemma gave_intro l c u w :
  zlen l = zlen (fFreeList (mem s)) -> Forall aligned l -> filter used l ≡ₚ u -> ranges_ok u ->
  c = sizeof_InlineLBIDRange * zlen u -> (forall x, covers u x <-> free (mem s) x \/ owns (range e) x) ->
  gave e s (put (set_flinfo (with_cur c (fFLShminfo (mem s))) (set_fl l (mem s))) w s).
Proof.
  intros Hl Hal Hu Hok Hc Hcov. destruct (fl_ok_intro _ _ _ _ Hm Hl Hal Hu Hok Hc) as [Hm' Hfree].
  eexists _, _. split; [reflexivity|]. split_and!; [done|done|]. intros x. by rewrite Hfree.
Qed.

Lemma ranges_of l : filter used l ≡ₚ ranges (mem s) -> ranges_ok (filter used l).
Proof. intros ->. apply (fo_ranges _ Hm). Qed.

(** A neighbour's size and the extent's add up without overflow. *)
Lemma join_small r r' : range_ok r -> range_ok r' -> ends_at r = r_start r' -> 0 <= r_size r + r_size r' < 2 ^ 32.
Proof. unfold range_ok, ends_at, LBIDS. lia. Qed.

Lemma give_succ sc f r :
  zget (fFreeList (mem s)) sc = Some r -> is_succ (ends_at (range e)) r ->
  scan_at (fun r => ~ used r) (fFreeList (mem s)) (zlen (fFreeList (mem s))) f ->
  (forall j x, zget (fFreeList (mem s)) j = Some x -> ~ is_prec (lbid0 e) x) ->
  wp (makeUndo (fun k => LFree k sc) ;;
      (p ← migrate sc f; upd_free p (fun r => mkRange (lbid0 e) (u32 (r_size r + r_size (range e)))))) s
    (fun _ s' => gave e s s').
Proof.
  intros Hr [Hu Hst] Hf Hnp. wp_step. eapply em_wp_makeUndo; [by apply em_read_free|].
  wp_step. eapply wp_mono; [by apply (migrate_spec sc f _ r)|]. simpl.
  intros q s' (l & u & -> & Hl & Hlal & Hq & Hperm & _). eapply em_wp_upd_free; [exact Hq|]. simpl.
  assert (range_ok r) as Hrok by eauto using range_ok_zget.
  rewrite u32_small by (rewrite Z.add_comm; by apply join_small).
  set (j := mkRange _ _).
  destruct (used_update l q r j) as (u0 & H1 & H2); [done|done|unfold used, j; simpl; destruct He, Hrok; lia|].
  assert (ranges (mem s) ≡ₚ r :: u0) as HU by (unfold ranges; by rewrite <- Hperm).
  pose proof (fo_ranges _ Hm) as Hok. rewrite HU in Hok.
  destruct (ranges_ok_join_succ (range e) r u0) as [Hok' Hcov]; try done.
  { intros x Hx Hc. apply (Hd x Hx). unfold free. by rewrite HU. }
  { intros x Hx He'. assert (x ∈ ranges (mem s)) as Hin by (rewrite HU; by right).
    destruct (zget_ranges _ _ Hin) as (i & Hi & Hux). by apply (Hnp i x). }
  assert (j = mkRange (r_start (range e)) (r_size (range e) + r_size r)) as Hj
    by (unfold j, lbid0; f_equal; lia).
  rewrite <- Hj in Hok', Hcov.
  replace (set_mem _ _) with (put (set_flinfo (with_cur (currentSize (fFLShminfo (mem s))) (fFLShminfo (mem s)))
    (set_fl (zset l q j) (mem s))) u s) by (unfold put; destruct s as [? [[]]]; done).
  eapply gave_intro; [by rewrite zlen_zset| |exact H2|done| |].
  { apply Forall_zset; [apply Hlal, (fo_align _ Hm)|]. unfold aligned. simpl. first [apply Hrok|apply He]. }
  - rewrite (fo_cur _ Hm). unfold zlen. by rewrite HU.
  - intros x. rewrite Hcov. unfold free. by rewrite HU.
Qed.

Lemma give_prec pr f r :
  zget (fFreeList (mem s)) pr = Some r -> is_prec (lbid0 e) r ->
  scan_at (fun r => ~ used r) (fFreeList (mem s)) (zlen (fFreeList (mem s))) f ->
  (forall j x, zget (fFreeList (mem s)) j = Some x -> ~ is_succ (ends_at (range e)) x) ->
  wp (makeUndo (fun k => LFree k pr) ;;
      (p ← migrate pr f; upd_free p (fun r => mkRange (r_start r) (u32 (r_size r + r_size (range e)))))) s
    (fun _ s' => gave e s s').
Proof.
  intros Hr [Hu Hst] Hf Hns. wp_step. eapply em_wp_makeUndo; [by apply em_read_free|].
  wp_step. eapply wp_mono; [by apply (migrate_spec pr f _ r)|]. simpl.
  intros q s' (l & u & -> & Hl & Hlal & Hq & Hperm & _). eapply em_wp_upd_free; [exact Hq|]. simpl.
  assert (range_ok r) as Hrok by eauto using range_ok_zget.
  rewrite u32_small by (by apply join_small). set (j := mkRange _ _).
  destruct (used_update l q r j) as (u0 & H1 & H2); [done|done|unfold used, j; simpl; destruct He, Hrok; lia|].
  assert (ranges (mem s) ≡ₚ r :: u0) as HU by (unfold ranges; by rewrite <- Hperm).
  pose proof (fo_ranges _ Hm) as Hok. rewrite HU in Hok.
  destruct (ranges_ok_join_prec (range e) r u0) as [Hok' Hcov]; try done.
  { intros x Hx Hc. apply (Hd x Hx). unfold free. by rewrite HU. }
  { intros x Hx He'. assert (x ∈ ranges (mem s)) as Hin by (rewrite HU; by right).
    destruct (zget_ranges _ _ Hin) as (i & Hi & Hux). by apply (Hns i x). }
  fold j in Hok', Hcov. replace (set_mem _ _) with (put (set_flinfo (with_cur (currentSize (fFLShminfo (mem s))) (fFLShminfo (mem s)))
    (set_fl (zset l q j) (mem s))) u s) by (unfold put; destruct s as [? [[]]]; done).
  eapply gave_intro; [by rewrite zlen_zset| |exact H2|done| |].
  { apply Forall_zset; [apply Hlal, (fo_align _ Hm)|]. unfold aligned. simpl. first [apply Hrok|apply He]. }
  - rewrite (fo_cur _ Hm). unfold zlen. by rewrite HU.
  - intros x. rewrite Hcov. unfold free. by rewrite HU.
Qed.

Lemma give_both pr sc f r r' :
  zget (fFreeList (mem s)) pr = Some r -> is_prec (lbid0 e) r ->
  zget (fFreeList (mem s)) sc = Some r' -> is_succ (ends_at (range e)) r' ->
  scan_at (fun r => ~ used r) (fFreeList (mem s)) (zlen (fFreeList (mem s))) f ->
  wp (makeUndo (fun k => LFree k pr) ;;
      (p ← migrate pr f;
       rs ← lift (fun s => aget (fFreeList (mem s)) sc);
       upd_free p (fun r => mkRange (r_start r) (u32 (r_size r + u32 (r_size rs + r_size (range e))))) ;;
       makeUndo (fun k => LFree k sc) ;;
       upd_free sc (fun r => mkRange (r_start r) 0) ;;
       makeUndo (fun _ => LFLInfo) ;;
       upd_flinfo (fun x => with_cur (currentSize x - sizeof_InlineLBIDRange) x))) s
    (fun _ s' => gave e s s').
Proof.
  intros Hr [Hu Hst] Hr' [Hu' Hst'] Hf. wp_step. eapply em_wp_makeUndo; [by apply em_read_free|].
  assert (range_ok r) as Hrok by eauto using range_ok_zget.
  assert (range_ok r') as Hrok' by eauto using range_ok_zget.
  assert (sc <> pr) as Hne.
  { intros ->. simplify_eq. unfold ends_at, lbid0 in *. destruct He, Hrok. lia. }
  wp_step. eapply wp_mono; [by apply (migrate_spec pr f _ r)|]. simpl.
  intros q s' (l & u & -> & Hl & Hlal & Hq & Hperm & Hother). destruct (Hother sc r' Hne Hu' Hr') as [Hsc Hneq].
  wp_step. eapply wp_lift; [by apply aget_Val|].
  wp_step. eapply em_wp_upd_free; [exact Hq|]. simpl.
  rewrite (u32_small (r_size r' + r_size (range e))) by (rewrite Z.add_comm; by apply join_small).
  rewrite u32_small by (unfold range_ok, ends_at, lbid0, LBIDS in *; lia). set (j := mkRange _ _).
  assert (zget (zset l q j) sc = Some r') as Hsc' by (rewrite zget_zset_ne; [done|lia]).
  wp_step. eapply em_wp_makeUndo; [by apply em_read_free|].
  wp_step. eapply em_wp_upd_free; [exact Hsc'|]. simpl.
  wp_step. eapply em_wp_makeUndo; [done|]. apply wp_modify. simpl.
  set (z := mkRange (r_start r') 0). rewrite zset_comm by lia.
  pose proof (used_kill l sc r' z Hsc Hu' ltac:(unfold used; simpl; lia)) as Hkill.
  destruct (used_update (zset l sc z) q r j) as (u0 & H1 & H2);
    [rewrite zget_zset_ne; [done|lia]|done|unfold used, j; simpl; destruct He, Hrok, Hrok'; lia|].
  assert (ranges (mem s) ≡ₚ r :: r' :: u0) as HU.
  { unfold ranges. rewrite <- Hperm, Hkill, H1. apply Permutation_swap. }
  pose proof (fo_ranges _ Hm) as Hok. rewrite HU in Hok.
  destruct (ranges_ok_join_both (range e) r r' u0) as [Hok' Hcov]; try done.
  { intros x Hx Hc. apply (Hd x Hx). unfold free. by rewrite HU. }
  fold j in Hok', Hcov. eapply (gave_intro (zset (zset l sc z) q j) _ (j :: u0)); [by rewrite !zlen_zset| |exact H2|done| |].
  { apply Forall_zset; [apply Forall_zset; [apply Hlal, (fo_align _ Hm)|]|]; unfold aligned; simpl; [apply Hrok'|apply Hrok]. }
  - rewrite (fo_cur _ Hm). unfold zlen. rewrite HU. simpl length. unfold sizeof_InlineLBIDRange. lia.
  - intros x. rewrite Hcov. unfold free. by rewrite HU.
Qed.

(** An entry of its own. *)
Lemma give_slot f x m :
  ranges m = ranges (mem s) -> fl_ok m -> fEMShminfo m = fEMShminfo (mem s) ->
  zget (fFreeList m) f = Some x -> ~ used x ->
  (forall y, y ∈ ranges (mem s) -> ends_at y <> lbid0 e /\ r_start y <> ends_at (range e)) ->
  wp (makeUndo (fun k => LFree k f) ;;
      upd_free f (fun _ => mkRange (lbid0 e) (r_size (range e))) ;;
      makeUndo (fun _ => LPtr) ;;
      upd_flinfo (fun x => with_cur (currentSize x + sizeof_InlineLBIDRange) x)) (set_mem m s)
    (fun _ s'' => gave e s s'').
Proof.
  intros HR Hm' Hem Hx Hnu Hfar.
  wp_step. eapply em_wp_makeUndo; [by apply em_read_free|].
  wp_step. eapply em_wp_upd_free; [exact Hx|]. simpl.
  wp_step. eapply em_wp_makeUndo; [done|]. apply wp_modify. simpl.
  assert (range e = mkRange (lbid0 e) (r_size (range e))) as <- by (unfold lbid0; by destruct (range e)).
  assert (used (range e)) as Hue by (unfold used; destruct He; lia).
  pose proof (filter_zset_perm used _ _ _ _ Hx Hnu Hue) as Hperm.
  change (filter used (fFreeList m)) with (ranges m) in Hperm. rewrite HR in Hperm.
  assert (ranges_ok (range e :: ranges (mem s))) as Hok.
  { apply ranges_ok_give; [done|apply (fo_ranges _ Hm)|done|done]. }
  assert (Forall aligned (zset (fFreeList m) f (range e))) as Hal by (apply Forall_zset; [apply (fo_align _ Hm')|apply He]).
  destruct (fl_ok_intro m _ (currentSize (fFLShminfo m) + sizeof_InlineLBIDRange) _ Hm'
    (zlen_zset _ _ _) Hal Hperm Hok) as [Hok' Hfree].
  { rewrite (fo_cur _ Hm'), HR. unfold zlen. simpl length. unfold sizeof_InlineLBIDRange. lia. }
  eexists _, _. split; [unfold put; simpl; reflexivity|]. split_and!; [exact Hok'|done|].
  intros l. rewrite Hfree, covers_cons. unfold free. tauto.
Qed.

Lemma scan_all_used : (forall j r, zget (fFreeList (mem s)) j = Some r -> used r) -> zlen (ranges (mem s)) = zlen (fFreeList (mem s)).
Proof.
  intros H. unfold ranges. f_equal. generalize dependent (fFreeList (mem s)). intros l H.
  induction l as [|x l IH]; [done|]. rewrite filter_cons_True by (apply (H 0); by apply zget_cons; left).
  f_equal. apply IH. intros j r Hj. apply (H (j + 1)). apply zget_cons. right.
  pose proof (zget_Some_range _ _ _ Hj). split; [lia|]. by replace (j + 1 - 1) with j by lia.
Qed.

Lemma give_back_spec : wp (give_back e) s (fun _ s' => gave e s s').
Proof.
  unfold give_back. wp_step. wp_step. rewrite (flEntries_zlen _ Hm).
  destruct (fl_scan_spec (lbid0 e) (lbid0 e + blocks e) (fFreeList (mem s)) (Z.to_nat (zlen (fFreeList (mem s)))) 0 (-1) (-1) (-1))
    as (p & sc & f & Hscan & Hp & Hs & Hf); auto using scan_at_start.
  { unfold blocks. destruct He. lia. }
  { intros j r Hj. destruct (decide (used r)) as [Hu|Hu]; [|unfold used in Hu; lia].
    destruct (range_ok_zget _ _ _ Hm Hj Hu). lia. }
  { lia. }
  { unfold zlen. lia. }
  wp_step. eapply wp_lift; [exact Hscan|]. change (lbid0 e + blocks e) with (ends_at (range e)) in *.
  destruct Hp as [[-> Hp]|(r & Hpr & Hr & Hisp)], Hs as [[-> Hs]|(r' & Hsr & Hr' & Hiss)]; simpl.
  - assert (Hfar : forall y, y ∈ ranges (mem s) -> ends_at y <> lbid0 e /\ r_start y <> ends_at (range e)).
    { intros y (i & Hi & Hu)%zget_ranges. pose proof (zget_Some_range _ _ _ Hi).
      split; intros Heq; [apply (Hp i y)|apply (Hs i y)]; try done; lia. }
    wp_steps. destruct (Z.eqb_spec (currentSize (fFLShminfo (mem s))) (allocdSize (fFLShminfo (mem s)))) as [Hfull|Hroom].
    + wp_steps. eapply wp_mono; [by apply growFL_spec|]. simpl.
      intros _ s' (m & -> & Hm' & Hem & Hl & HR). wp_step.
      assert (zget (fFreeList m) (zlen (fFreeList (mem s))) = Some emptyRange).
      { rewrite Hl. unfold zget, zlen. destruct (Z.ltb_spec (Z.of_nat (length (fFreeList (mem s)))) 0); [lia|].
        rewrite Nat2Z.id, lookup_app_r by done. by rewrite Nat.sub_diag. }
      apply (give_slot _ emptyRange m); eauto.
    + wp_step. destruct Hf as [[-> Hf]|(x & Hfr & Hx & Hnu)].
      * exfalso. apply Hroom. rewrite (fo_cur _ Hm), (fo_alloc _ Hm). f_equal. apply scan_all_used.
        intros j r Hj. destruct (decide (used r)); [done|]. exfalso. apply (Hf j r); [apply zget_Some_range in Hj; lia|done|done].
      * replace s with (set_mem (mem s) s) at 1 by (by destruct s). by apply (give_slot f x (mem s)).
  - assert (sc =? -1 = false) as -> by (apply Z.eqb_neq; lia). simpl. apply (give_succ sc f r'); try done.
    intros j x Hj. apply (Hp j); [|done]. apply zget_Some_range in Hj; lia.
  - assert (p =? -1 = false) as -> by (apply Z.eqb_neq; lia). simpl. apply (give_prec p f r); try done.
    intros j x Hj. apply (Hs j); [|done]. apply zget_Some_range in Hj; lia.
  - assert (p =? -1 = false) as -> by (apply Z.eqb_neq; lia).
    assert (sc =? -1 = false) as -> by (apply Z.eqb_neq; lia). simpl. by apply (give_both p sc f r r').
Qed.
End give.

End EmFree.
