(* ===== verification/EmIndex.v ===== *)
(** * The index of the extent map

    [ExtentMapIndexImpl] as a relation: which first LBIDs it lists under a dbroot,
    an OID and a partition, and that it lists exactly the extents of the tree. *)

From S2P Require Import Prelude Undoable Vbbm ExtentMap ExtentOps EmThms.
From stdpp Require Import prelude gmap strings sorting.
Local Open Scope Z_scope.

Module EmIndex.
Import ExtentMap ExtentOps EmThms.

Section index.
Context {IO : IterOrder}.
Implicit Types (ix : Index) (e : EMEntry) (m : gmap Z EMEntry) (r o p l k : Z).

(** The three layers, an absent container read as an empty one. *)
Definition L1 ix r : OIDIndex := default ∅ (zget ix r).
Definition L2 (os : OIDIndex) o : PartitionIndex := default ∅ (os !! o).
Definition L3 (ps : PartitionIndex) p : list Z := default [] (ps !! p).

Lemma find3_layers ix r o p : index_find3 r o p ix = L3 (L2 (L1 ix r) o) p.
Proof.
  unfold index_find3, L3, L2, L1. destruct (zget ix r) as [os|]; simpl; [|by rewrite ?lookup_empty].
  destruct (os !! o) as [ps|]; simpl; [done|by rewrite ?lookup_empty].
Qed.

Lemma umap_to_list_empty {V} : umap_to_list (∅ : gmap Z V) = [].
Proof. apply Permutation_nil_r. by rewrite umap_to_list_perm, map_to_list_empty. Qed.

Lemma find2_layers ix r o : index_find2 r o ix = umap_to_list (L2 (L1 ix r) o) ≫= snd.
Proof.
  unfold index_find2, L1. destruct (zget ix r) as [os|] eqn:Hr; simpl.
  - unfold L2. destruct (os !! o) as [ps|] eqn:Ho; [done|]. simpl. by setoid_rewrite umap_to_list_empty.
  - change (L2 ∅ o) with (∅ : PartitionIndex). by setoid_rewrite umap_to_list_empty.
Qed.

Lemma elem_of_find2 ix r o l : l ∈ index_find2 r o ix <-> exists p, l ∈ index_find3 r o p ix.
Proof.
  rewrite find2_layers, list_elem_of_bind. setoid_rewrite find3_layers. split.
  - intros ([p ls] & Hl & Hp). rewrite umap_to_list_perm, elem_of_map_to_list in Hp. exists p.
    unfold L3. by rewrite Hp.
  - intros (p & Hp). unfold L3 in Hp. destruct (L2 (L1 ix r) o !! p) as [ls|] eqn:Hls; [|set_solver].
    exists (p, ls). split; [done|]. by rewrite umap_to_list_perm, elem_of_map_to_list.
Qed.

(** The index lists an extent under its dbroot, OID and partition, once. *)
Record index_ok ix m : Prop := {
  io_mem r o p l : l ∈ index_find3 r o p ix <->
    exists e, m !! l = Some e /\ dbRoot e = r /\ fileID e = o /\ partitionNum e = p;
  io_nodup r o p : NoDup (index_find3 r o p ix) }.

Lemma io_mem2 ix m r o l : index_ok ix m ->
  l ∈ index_find2 r o ix <-> exists e, m !! l = Some e /\ dbRoot e = r /\ fileID e = o.
Proof.
  intros H. rewrite elem_of_find2. setoid_rewrite (io_mem ix m H). naive_solver.
Qed.

Lemma io_nodup2 ix m r o : index_ok ix m -> NoDup (index_find2 r o ix).
Proof.
  intros H. rewrite find2_layers.
  assert (Hin : forall p ls l, (p, ls) ∈ umap_to_list (L2 (L1 ix r) o) -> l ∈ ls -> l ∈ index_find3 r o p ix).
  { intros p ls l Hp Hl. rewrite umap_to_list_perm, elem_of_map_to_list in Hp. rewrite find3_layers.
    unfold L3. by rewrite Hp. }
  apply NoDup_bind.
  - intros [p1 ls1] [p2 ls2] l H1 H2 Hl1 Hl2. simpl in *.
    pose proof (Hin _ _ _ H1 Hl1) as Hm1. pose proof (Hin _ _ _ H2 Hl2) as Hm2.
    rewrite (io_mem ix m H) in Hm1, Hm2.
    destruct Hm1 as (e & He & _ & _ & <-), Hm2 as (e' & He' & _ & _ & <-). simplify_eq. f_equal.
    rewrite umap_to_list_perm, elem_of_map_to_list in H1, H2. congruence.
  - intros [p ls] Hp. rewrite umap_to_list_perm, elem_of_map_to_list in Hp. simpl.
    pose proof (io_nodup ix m H r o p) as Hn. rewrite find3_layers in Hn. unfold L3 in Hn. by rewrite Hp in Hn.
  - rewrite umap_to_list_perm. apply NoDup_map_to_list.
Qed.

Lemma index_ok_empty : index_ok [] ∅.
Proof.
  split; intros r o p; [intros l|]; rewrite find3_layers; unfold L3, L2, L1;
    rewrite (zget_None []), ?lookup_empty by (unfold zlen; simpl; lia); simpl.
  - setoid_rewrite lookup_empty. set_solver.
  - constructor.
Qed.

(** ** Insertion *)
Lemma L3_insert ps e l p :
  L3 (insert3dLayer ps e l) p = L3 ps p ++ (if decide (partitionNum e = p) then [l] else []).
Proof.
  unfold insert3dLayer, L3. destruct (ps !! partitionNum e) as [ls|] eqn:Hp; case_decide; subst.
  - by rewrite lookup_insert_eq, Hp.
  - by rewrite lookup_insert_ne, app_nil_r.
  - by rewrite lookup_insert_eq, Hp.
  - by rewrite lookup_insert_ne, app_nil_r.
Qed.

Lemma L2_insert os e l o :
  L2 (insert2ndLayer os e l) o = if decide (fileID e = o) then insert3dLayer (L2 os o) e l else L2 os o.
Proof.
  unfold insert2ndLayer, L2. destruct (os !! fileID e) as [ps|] eqn:Ho; case_decide; subst.
  - by rewrite lookup_insert_eq, Ho.
  - by rewrite lookup_insert_ne.
  - by rewrite lookup_insert_eq, Ho.
  - by rewrite lookup_insert_ne.
Qed.

Lemma L1_grow ix n r : L1 (ix ++ replicate n ∅) r = L1 ix r.
Proof.
  unfold L1, zget. destruct (r <? 0); [done|]. destruct (decide (Z.to_nat r < length ix)%nat).
  - by rewrite lookup_app_l.
  - rewrite lookup_app_r by lia. rewrite (lookup_ge_None_2 ix) by lia.
    destruct (replicate n ∅ !! _) eqn:He; [|done]. by apply lookup_replicate in He as [-> _].
Qed.

Lemma L1_insert ix e l r :
  0 <= dbRoot e ->
  L1 (index_insert e l ix) r = if decide (dbRoot e = r) then insert2ndLayer (L1 ix r) e l else L1 ix r.
Proof.
  intros H0. unfold index_insert. set (g := ix ++ _). set (x := insert2ndLayer _ _ _).
  assert (0 <= dbRoot e < zlen g) as Hr.
  { unfold g, zlen. rewrite length_app, length_replicate. lia. }
  case_decide; subst.
  - unfold L1 at 1. rewrite zget_zset_eq by done. simpl. unfold x. fold (L1 g (dbRoot e)). unfold g.
    by rewrite L1_grow.
  - unfold L1 at 1. rewrite zget_zset_ne by done. fold (L1 g r). unfold g. by rewrite L1_grow.
Qed.

Lemma find3_insert ix e l r o p :
  0 <= dbRoot e ->
  index_find3 r o p (index_insert e l ix) =
  index_find3 r o p ix ++ (if decide (dbRoot e = r /\ fileID e = o /\ partitionNum e = p) then [l] else []).
Proof.
  intros H0. rewrite !find3_layers, L1_insert by done.
  destruct (decide (dbRoot e = r)); [rewrite L2_insert; destruct (decide (fileID e = o));
    [rewrite L3_insert; destruct (decide (partitionNum e = p))|]|];
    case_decide; try tauto; rewrite ?app_nil_r; done.
Qed.

Lemma index_ok_insert ix m e l :
  index_ok ix m -> 0 <= dbRoot e -> m !! l = None -> index_ok (index_insert e l ix) (<[l := e]> m).
Proof.
  intros H H0 Hl. assert (Hnew : forall r o p, l ∉ index_find3 r o p ix).
  { intros r o p (e' & He' & _)%(io_mem ix m H). congruence. }
  split.
  - intros r o p k. rewrite find3_insert, elem_of_app, (io_mem ix m H) by done.
    destruct (decide (k = l)) as [->|Hne].
    + rewrite Hl, lookup_insert_eq. case_decide; set_solver.
    + rewrite lookup_insert_ne by done. case_decide; set_solver.
  - intros r o p. rewrite find3_insert by done. apply NoDup_app. split; [apply (io_nodup ix m H)|].
    case_decide; split; try set_solver; [|constructor]. apply NoDup_singleton.
Qed.

(** ** Removal *)
Lemma swap_pop_spec l ls :
  l ∈ ls -> NoDup ls -> exists ls', swap_pop l ls = Val ls' /\ ls ≡ₚ l :: ls'.
Proof.
  intros Hl Hnd. unfold swap_pop.
  destruct (list_find (fun x => x = l) ls) as [[i x]|] eqn:Hf.
  2: { apply list_find_None in Hf. rewrite Forall_forall in Hf. by apply Hf in Hl. }
  apply list_find_Some in Hf as (Hi & -> & _).
  destruct (last ls) as [b|] eqn:Hb; [|by apply last_None in Hb as ->].
  eexists. split; [done|]. apply last_Some in Hb as (init & ->).
  rewrite length_app. simpl. rewrite Nat.add_sub.
  apply lookup_app_Some in Hi as [Hi|[Hlen Hi]].
  - rewrite insert_app_l by eauto using lookup_lt_Some.
    rewrite take_app_length' by (by rewrite length_insert).
    rewrite insert_take_drop by eauto using lookup_lt_Some.
    rewrite <- (take_drop_middle _ _ _ Hi) at 1. rewrite <- !Permutation_middle. simpl.
    rewrite app_nil_r. apply Permutation_swap.
  - apply list_lookup_singleton_Some in Hi as [Hz ->].
    rewrite insert_app_r_alt by done. rewrite Hz. simpl. rewrite take_app_length.
    by rewrite Permutation_app_comm.
Qed.

(** What the index lists changes under one place only. *)
Lemma index_ok_shrink ix ix' m m' :
  index_ok ix m -> (forall k e, m' !! k = Some e -> m !! k = Some e) ->
  (forall r o p, exists gone, index_find3 r o p ix ≡ₚ gone ++ index_find3 r o p ix' /\
     forall k e, m !! k = Some e -> dbRoot e = r -> fileID e = o -> partitionNum e = p ->
       (k ∈ gone <-> m' !! k = None)) ->
  index_ok ix' m'.
Proof.
  intros H Hsub Hgone.
  assert (Hnd : forall r o p, exists gone, NoDup (gone ++ index_find3 r o p ix') /\
    index_find3 r o p ix ≡ₚ gone ++ index_find3 r o p ix' /\
    forall k e, m !! k = Some e -> dbRoot e = r -> fileID e = o -> partitionNum e = p ->
       (k ∈ gone <-> m' !! k = None)).
  { intros r o p. destruct (Hgone r o p) as (g & Hp & Hg). exists g. split_and!; [|done|done].
    rewrite <- Hp. apply (io_nodup ix m H). }
  split; intros r o p.
  - intros k. destruct (Hnd r o p) as (g & (_ & Hdisj & _)%NoDup_app & Hp & Hg). split.
    + intros Hk. assert (k ∈ index_find3 r o p ix) as Hin by (rewrite Hp; set_solver).
      apply (io_mem ix m H) in Hin as (e & He & Hr & Ho & Hpt). exists e. split_and!; try done.
      destruct (m' !! k) as [e'|] eqn:He'; [apply Hsub in He'; congruence|].
      exfalso. apply (Hdisj k); [|done]. by apply (Hg k e).
    + intros (e & He & Hr & Ho & Hpt). assert (k ∈ index_find3 r o p ix) as Hin.
      { apply (io_mem ix m H). exists e. auto. }
      rewrite Hp in Hin. apply elem_of_app in Hin as [Hin|]; [|done].
      apply (Hg k e) in Hin; auto. congruence.
  - destruct (Hnd r o p) as (g & (_ & _ & Hn)%NoDup_app & _). done.
Qed.

(** Dropping the element of one extent. *)
Lemma deleteEM_spec ix m k e :
  index_ok ix m -> m !! k = Some e ->
  exists ix', index_deleteEMEntry e k ix = Val ix' /\ index_ok ix' (delete k m).
Proof.
  intros H Hk.
  assert (k ∈ index_find3 (dbRoot e) (fileID e) (partitionNum e) ix) as Hin by (apply (io_mem ix m H); eauto).
  pose proof (io_nodup ix m H (dbRoot e) (fileID e) (partitionNum e)) as Hnd.
  unfold index_find3 in Hin, Hnd. unfold index_deleteEMEntry.
  destruct (zget ix (dbRoot e)) as [os|] eqn:Hr; simpl in *; [|set_solver].
  destruct (os !! fileID e) as [ps|] eqn:Ho; simpl in *; [|set_solver].
  destruct (ps !! partitionNum e) as [ls|] eqn:Hp; simpl in *; [|set_solver].
  destruct (swap_pop_spec k ls Hin Hnd) as (ls' & Hsw & Hperm).
  assert (Hput : forall ps', L3 ps' (partitionNum e) = ls' ->
    (forall p, p <> partitionNum e -> L3 ps' p = L3 ps p) ->
    index_ok (zset ix (dbRoot e) (<[fileID e := ps']> os)) (delete k m)).
  { intros ps' Hps Hother. apply (index_ok_shrink ix _ m); [done|by intros k' e' [_ ?]%lookup_delete_Some|].
    pose proof (zget_Some_range _ _ _ Hr) as Hrange.
    intros r o p. rewrite !find3_layers. unfold L1.
    destruct (decide (r = dbRoot e /\ o = fileID e /\ p = partitionNum e)) as [(-> & -> & ->)|Hne].
    - exists [k]. rewrite zget_zset_eq, Hr by done. simpl. unfold L2. rewrite lookup_insert_eq, Ho. simpl.
      rewrite Hps. unfold L3. rewrite Hp. simpl. split; [done|].
      intros k' e' He' _ _ _. rewrite lookup_delete_None, list_elem_of_singleton. naive_solver congruence.
    - exists []. split; [|intros k' e' He' <- <- <-; rewrite lookup_delete_None; split; [set_solver|];
        intros [->|?]; [|congruence]; simplify_eq; tauto].
      simpl. destruct (decide (r = dbRoot e)) as [->|]; [|by rewrite zget_zset_ne].
      rewrite zget_zset_eq, Hr by done. simpl. unfold L2.
      destruct (decide (o = fileID e)) as [->|]; [|by rewrite lookup_insert_ne].
      rewrite lookup_insert_eq, Ho. simpl. rewrite Hother; [done|tauto]. }
  destruct (Nat.ltb_spec 1 (length ls)).
  - rewrite Hsw. simpl. eexists. split; [done|]. apply Hput.
    + unfold L3. by rewrite lookup_insert_eq.
    + intros p Hne. unfold L3. by rewrite lookup_insert_ne.
  - assert (ls' = []) as ->.
    { apply Permutation_length in Hperm. simpl in Hperm.
      destruct ls'; [done|simpl in *; lia]. }
    eexists. split; [done|]. apply Hput.
    + unfold L3. by rewrite lookup_delete_eq.
    + intros p Hne. unfold L3. by rewrite lookup_delete_ne.
Qed.

(** Dropping an OID on one dbroot. *)
Lemma find3_deleteOID ix r o r' o' p :
  index_find3 r' o' p (index_deleteOID r o ix) = if decide (r' = r /\ o' = o) then [] else index_find3 r' o' p ix.
Proof.
  unfold index_deleteOID. destruct (zget ix r) as [os|] eqn:Hr.
  - rewrite !find3_layers. pose proof (zget_Some_range _ _ _ Hr). unfold L1.
    destruct (decide (r' = r)) as [->|]; [|rewrite zget_zset_ne by done; case_decide; [tauto|done]].
    rewrite zget_zset_eq, Hr by done. simpl. unfold L2.
    destruct (decide (o' = o)) as [->|]; [rewrite lookup_delete_eq|rewrite lookup_delete_ne by done];
      case_decide; try tauto; done.
  - rewrite find3_layers. unfold L1. case_decide as Hd; [|done]. destruct Hd as [-> ->]. by rewrite Hr.
Qed.

End index.
End EmIndex.
