(* ===== verification/EmOps.v ===== *)
(** * The extent map: operations over the invariant

    The invariant of the extent map, and triples for the functions that insert and
    delete extents. *)

From S2P Require Import Prelude Undoable Vbbm ExtentMap ExtentOps EmThms EmFree EmIndex.
From stdpp Require Import prelude gmap strings sorting.
Local Open Scope Z_scope.

Module EmOps.
Import ExtentMap ExtentOps EmThms EmFree EmIndex.

(** ** The invariant *)

(** Every LBID is in the tree or in the free list and not in both; the recorded
    size of the tree is right. *)
Record core_inv (s : t) : Prop := {
  ci_fl : fl_ok (mem s);
  ci_tree : tree_ok (em s);
  ci_excl l : free (mem s) l -> ~ allocated (em s) l;
  ci_cover l : 0 <= l < LBIDS -> free (mem s) l \/ allocated (em s) l;
  ci_mapped : 0 < allocdSize (fEMShminfo (mem s));
  ci_size : currentSize (fEMShminfo (mem s)) = EM_RB_TREE_EMPTY_SIZE + EM_RB_TREE_NODE_SIZE * Z.of_nat (size (em s)) }.

Section ops.
Context {IO : IterOrder}.

Record em_inv (s : t) : Prop := {
  ei_core : core_inv s;
  ei_index : index_ok (index s) (em s);
  ei_root k e : em s !! k = Some e -> 0 <= dbRoot e }.

(** ** Reading through the index *)
Lemma getEmIdents_run s ls :
  (forall l, l ∈ ls -> is_Some (em s !! l)) ->
  getEmIdentsByLbids ls s = (Val (omap (fun l => em s !! l) ls), s).
Proof.
  induction ls as [|l ls IH]; intros Hls; [done|]. simpl. destruct (Hls l) as [e He]; [set_solver|].
  unfold mbind, M_bind, iterator_of, gets. simpl. unfold mbind, M_bind. simpl. rewrite (findByLBID_key _ _ _ He). simpl.
  unfold deref. rewrite He. rewrite IH by set_solver. done.
Qed.

Lemma getEmIterators_run s ls :
  (forall l, l ∈ ls -> is_Some (em s !! l)) -> getEmIteratorsByLbids ls s = (Val ls, s).
Proof.
  induction ls as [|l ls IH]; intros Hls; [done|]. simpl. destruct (Hls l) as [e He]; [set_solver|].
  unfold mbind, M_bind, iterator_of, gets. simpl. unfold mbind, M_bind. simpl. rewrite (findByLBID_key _ _ _ He). simpl.
  rewrite IH by set_solver. done.
Qed.

(** The extents listed under a place, and those of an OID on a dbroot. *)
Definition at3 (s : t) (r o p : Z) : list EMEntry := omap (fun l => em s !! l) (index_find3 r o p (index s)).
Definition at2 (s : t) (r o : Z) : list EMEntry := omap (fun l => em s !! l) (index_find2 r o (index s)).

Lemma idents3_run s r o p : index_ok (index s) (em s) -> idents3 r o p s = (Val (at3 s r o p), s).
Proof.
  intros H. unfold idents3, mbind, M_bind, gets. apply getEmIdents_run.
  intros l (e & He & _)%(io_mem _ _ H). eauto.
Qed.

Lemma idents2_run s r o : index_ok (index s) (em s) -> idents2 r o s = (Val (at2 s r o), s).
Proof.
  intros H. unfold idents2, mbind, M_bind, gets. apply getEmIdents_run.
  intros l (e & He & _)%(io_mem2 _ _ _ _ _ H). eauto.
Qed.

Lemma iterators2_run s r o : index_ok (index s) (em s) -> iterators2 r o s = (Val (index_find2 r o (index s)), s).
Proof.
  intros H. unfold iterators2, mbind, M_bind, gets. apply getEmIterators_run.
  intros l (e & He & _)%(io_mem2 _ _ _ _ _ H). eauto.
Qed.

Lemma iterators3_run s r o p : index_ok (index s) (em s) -> iterators3 r o p s = (Val (index_find3 r o p (index s)), s).
Proof.
  intros H. unfold iterators3, mbind, M_bind, gets. apply getEmIterators_run.
  intros l (e & He & _)%(io_mem _ _ H). eauto.
Qed.

Lemma elem_of_at3 s r o p e :
  index_ok (index s) (em s) ->
  e ∈ at3 s r o p <-> exists k, em s !! k = Some e /\ dbRoot e = r /\ fileID e = o /\ partitionNum e = p.
Proof.
  intros H. unfold at3. rewrite list_elem_of_omap. setoid_rewrite (io_mem _ _ H). naive_solver congruence.
Qed.

Lemma elem_of_at2 s r o e :
  index_ok (index s) (em s) -> e ∈ at2 s r o <-> exists k, em s !! k = Some e /\ dbRoot e = r /\ fileID e = o.
Proof.
  intros H. unfold at2. rewrite list_elem_of_omap. setoid_rewrite (io_mem2 _ _ _ _ _ H). naive_solver congruence.
Qed.

(** ** Inserting an extent *)
Definition inserted (e : EMEntry) (s : t) : t :=
  mk (<[lbid0 e := e]> (em s))
    (set_eminfo (with_cur (currentSize (fEMShminfo (mem s)) + EM_RB_TREE_NODE_SIZE) (fEMShminfo (mem s))) (mem s))
    (index_insert e (lbid0 e) (index s))
    (undoRecords s ++ [{| Undoable.start := LEMInfo; data := DInfo (fEMShminfo (mem s)) |}])
    (undoRecordsRBTree s ++ [(INSERT, e)]) (locks s) (config s).

Lemma insert_extent_run e s : em s !! lbid0 e = None -> insert_extent e s = (Val tt, inserted e s).
Proof.
  intros Hn. unfold insert_extent, inserted, makeUndoRB, makeUndo, upd_eminfo, modify. destruct s as [m h ix u rb lk cf].
  unfold mbind, M_bind. simpl in *. by rewrite Hn.
Qed.

(** [e] was cut off the free list of [s], of which [s1] has the rest. *)
Lemma inserted_core e s s1 :
  core_inv s -> fl_ok (mem s1) -> em s1 = em s -> fEMShminfo (mem s1) = fEMShminfo (mem s) ->
  range_ok (range e) -> r_size (range e) < 2 ^ 22 ->
  (forall l, owns (range e) l -> free (mem s) l) ->
  (forall l, free (mem s1) l <-> free (mem s) l /\ ~ owns (range e) l) ->
  em s1 !! lbid0 e = None /\ core_inv (inserted e s1).
Proof.
  intros Hs Hfl Hem Hinfo Hr Hsz Hfree Hrest.
  assert (Hnew : forall k e', em s !! k = Some e' -> apart (range e) (range e')).
  { intros k e' Hk. destruct (tr_range _ (ci_tree s Hs) _ _ Hk) as [Hr' _].
    apply apart_of; [apply Hr|apply Hr'|]. intros l Hl Hl'. apply (ci_excl s Hs l (Hfree l Hl)). by exists k, e'. }
  assert (Hnone : em s !! lbid0 e = None).
  { destruct (em s !! lbid0 e) as [e'|] eqn:He; [|done]. pose proof (Hnew _ _ He) as Ha.
    pose proof (tr_key _ (ci_tree s Hs) _ _ He) as Hk. destruct (tr_range _ (ci_tree s Hs) _ _ He) as [Hr' _].
    unfold apart, lbid0 in *. destruct Hr, Hr'. lia. }
  rewrite Hem. split; [done|].
  assert (Hal : forall l, allocated (<[lbid0 e := e]> (em s)) l <-> owns (range e) l \/ allocated (em s) l).
  { intros l. unfold allocated. split.
    - intros (k & e' & [[<- <-]|[Hne Hk]]%lookup_insert_Some & Ho); [by left|right; eauto].
    - intros [Ho|(k & e' & Hk & Ho)].
      + exists (lbid0 e), e. by rewrite lookup_insert_eq.
      + exists k, e'. split; [|done]. rewrite lookup_insert_ne; [done|]. intros <-. congruence. }
  constructor; simpl; rewrite ?Hem, ?Hinfo.
  - by constructor; try apply Hfl.
  - constructor.
    + intros k e' [[<- <-]|[_ Hk]]%lookup_insert_Some; [done|]. by apply (tr_key _ (ci_tree s Hs)).
    + intros k e' [[<- <-]|[_ Hk]]%lookup_insert_Some; [done|]. by apply (tr_range _ (ci_tree s Hs) k).
    + intros k k' e1 e2 [[<- <-]|[_ Hk]]%lookup_insert_Some [[<- <-]|[_ Hk']]%lookup_insert_Some Hne; try done.
      * eauto.
      * pose proof (Hnew _ _ Hk). unfold apart in *. lia.
      * by apply (tr_apart _ (ci_tree s Hs) k k').
  - intros l Hl. change (free (mem s1) l) in Hl. apply Hrest in Hl as [Hl Hno]. rewrite Hal.
    intros [?|Ha]; [done|]. by apply (ci_excl s Hs l).
  - intros l Hl. change (free (mem s1) l \/ allocated (<[lbid0 e:=e]> (em s)) l). rewrite Hal, Hrest.
    destruct (ci_cover s Hs l Hl) as [Hf|Ha]; [|by right; right].
    destruct (decide (r_start (range e) <= l < r_start (range e) + r_size (range e) * 1024)); [by right; left|].
    left. split; [done|]. unfold owns. lia.
  - apply (ci_mapped s Hs).
  - rewrite (ci_size s Hs), map_size_insert_None by done. unfold EM_RB_TREE_NODE_SIZE. lia.
Qed.

(** ** Creating an extent *)

(** [s1] is [s] with the [sz] units at [st] taken from the free list. *)
Record taken (sz st : Z) (s s1 : t) : Prop := {
  tk_put : exists m u, s1 = put m u s;
  tk_fl : fl_ok (mem s1);
  tk_info : fEMShminfo (mem s1) = fEMShminfo (mem s);
  tk_range : range_ok (mkRange st sz);
  tk_was l : owns (mkRange st sz) l -> free (mem s) l;
  tk_now l : free (mem s1) l <-> free (mem s) l /\ ~ owns (mkRange st sz) l;
  tk_undo : undoes (mem s) (undoRecords s) (mem s1) (undoRecords s1) }.

Lemma getLBIDs_cases sz s :
  fl_ok (mem s) -> 0 < sz < 2 ^ 22 ->
  (exists st s1, getLBIDsFromFreeList sz s = (Val st, s1) /\ taken sz st s s1)
  \/ getLBIDsFromFreeList sz s = (Exn out_of_space, s) /\ (forall r, r ∈ ranges (mem s) -> r_size r < sz).
Proof.
  intros Hfl Hsz. destruct (zfirst (fun r => sz <= r_size r) (fFreeList (mem s))) as [(j & r & Hj & Hr & Hfirst)|Hnone].
  - left. assert (wp (getLBIDsFromFreeList sz) s (fun l s' => l = r_start r /\ exists u,
      s' = put (shrink j sz r (mem s)) u s /\ undoes (mem s) (undoRecords s) (mem s') u)) as H.
    { apply getLBIDs_spec; try done. intros k x Hk Hx. specialize (Hfirst k x Hk Hx). lia. }
    apply wp_run in H as (st & s1 & Hrun & -> & u & -> & Hu). eexists _, _. split; [exact Hrun|].
    destruct (shrink_ok (mem s) j r sz Hfl Hj) as [Hok Hfree]; [lia|].
    assert (used r) as Hused by (unfold used; lia).
    pose proof (range_ok_zget _ _ _ Hfl Hj Hused) as (Hp & Hal & H0 & He).
    constructor; simpl; try done; eauto.
    + unfold range_ok. simpl. split_and!; try done; lia.
    + intros l Hl. exists r. split; [by eapply ranges_zget|]. unfold owns in *. simpl in Hl. lia.
  - right. split; [|intros r (i & Hi & _)%zget_ranges; specialize (Hnone i r Hi); lia].
    apply getLBIDs_none; [done|]. intros k x Hx. specialize (Hnone k x Hx). lia.
Qed.

(** The new extent completes what was taken. *)
Lemma create_inv sz st s s1 e :
  em_inv s -> 0 < sz < 2 ^ 22 -> taken sz st s s1 -> range e = mkRange st sz -> 0 <= dbRoot e ->
  insert_extent e s1 = (Val tt, inserted e s1) /\ em_inv (inserted e s1).
Proof.
  intros Hs Hsz Ht Hr Hroot. destruct (tk_put _ _ _ _ Ht) as (m & u & Hs1).
  assert (em s1 = em s) as Hem by (by subst s1). assert (index s1 = index s) as Hix by (by subst s1).
  destruct (inserted_core e s s1) as [Hn Hcore]; try done.
  { apply (ei_core s Hs). } { apply (tk_fl _ _ _ _ Ht). } { apply (tk_info _ _ _ _ Ht). }
  { rewrite Hr. apply (tk_range _ _ _ _ Ht). } { rewrite Hr. simpl. lia. }
  { rewrite Hr. apply (tk_was _ _ _ _ Ht). } { rewrite Hr. apply (tk_now _ _ _ _ Ht). }
  split; [by apply insert_extent_run|]. constructor; [done| |]; simpl; rewrite ?Hix, ?Hem.
  - apply index_ok_insert; [apply (ei_index s Hs)|done|by rewrite <- Hem].
  - intros k e' [[<- <-]|[_ Hk]]%lookup_insert_Some; [done|]. by apply (ei_root s Hs k).
Qed.

Lemma taken_inv sz st s s1 : taken sz st s s1 -> em s1 = em s /\ index s1 = index s /\ config s1 = config s /\ locks s1 = locks s.
Proof. intros Ht. destruct (tk_put _ _ _ _ Ht) as (m & u & ->). done. Qed.

Lemma taken_new sz st s s1 : core_inv s -> 0 < sz -> taken sz st s s1 -> em s !! st = None.
Proof.
  intros Hs Hsz Ht. destruct (em s !! st) as [e|] eqn:He; [|done]. exfalso.
  apply (ci_excl s Hs st); [apply (tk_was _ _ _ _ Ht); unfold owns; simpl; lia|].
  exists st, e. split; [done|]. pose proof (tr_key _ (ci_tree s Hs) _ _ He). unfold lbid0, owns in *.
  destruct (tr_range _ (ci_tree s Hs) _ _ He) as [(? & _) _]. lia.
Qed.

(** ** Deleting an extent *)
Lemma deleted_core e k s m u rb x :
  core_inv s -> em s !! k = Some e -> fl_ok m -> (forall l, free m l <-> free (mem s) l \/ owns (range e) l) ->
  x = with_cur (currentSize (fEMShminfo (mem s)) - EM_RB_TREE_NODE_SIZE) (fEMShminfo (mem s)) ->
  forall ix, core_inv (mk (delete k (em s)) (set_eminfo x m) ix u rb (locks s) (config s)).
Proof.
  intros Hs Hk Hfl Hfree -> ix.
  assert (Hsub : forall k' e', delete k (em s) !! k' = Some e' -> em s !! k' = Some e').
  { by intros k' e' [_ ?]%lookup_delete_Some. }
  constructor; simpl.
  - by constructor; try apply Hfl.
  - constructor.
    + intros k' e' H%Hsub. by apply (tr_key _ (ci_tree s Hs)).
    + intros k' e' H%Hsub. by apply (tr_range _ (ci_tree s Hs) k').
    + intros k1 k2 e1 e2 H1%Hsub H2%Hsub. by apply (tr_apart _ (ci_tree s Hs) k1 k2).
  - intros l Hl (k' & e' & [Hne Hk']%lookup_delete_Some & Ho). change (free m l) in Hl.
    apply Hfree in Hl as [Hl|Hl]; [apply (ci_excl s Hs l Hl); by exists k', e'|].
    pose proof (tr_apart _ (ci_tree s Hs) _ _ _ _ Hk Hk' ltac:(done)). unfold apart, owns in *. lia.
  - intros l Hl. change (free m l \/ allocated (delete k (em s)) l). rewrite Hfree.
    destruct (ci_cover s Hs l Hl) as [Hf|(k' & e' & Hk' & Ho)]; [by left; left|].
    destruct (decide (k' = k)) as [->|Hne]; [simplify_eq; by left; right|].
    right. exists k', e'. by rewrite lookup_delete_ne.
  - apply (ci_mapped s Hs).
  - rewrite (ci_size s Hs), map_size_delete_Some by eauto.
    assert (size (em s) <> 0%nat) by (intros Hz%map_size_empty_inv; by rewrite Hz in Hk).
    unfold EM_RB_TREE_NODE_SIZE, sizeof_EMEntry. lia.
Qed.

(** The state after [deleteExtent]: its tree, its index, the rest of its fields. *)
Definition same_env (s s' : t) : Prop := locks s' = locks s /\ config s' = config s.

Lemma deleteExtent_core k e s :
  core_inv s -> em s !! k = Some e ->
  wp (deleteExtent k false) s (fun _ s' => core_inv s' /\ em s' = delete k (em s) /\ index s' = index s /\ same_env s s').
Proof.
  intros Hs Hk. unfold deleteExtent. wp_step. eapply run_wp; [unfold deref; by rewrite Hk|].
  wp_step. destruct (tr_range _ (ci_tree s Hs) _ _ Hk) as [Hr _].
  eapply wp_mono; [apply (give_back_spec e s (ci_fl s Hs) Hr)|].
  { intros l Hl Hf. apply (ci_excl s Hs l Hf). by exists k, e. }
  intros _ s' (m & u & -> & Hfl & Hinfo & Hfree). wp_steps. apply wp_modify. wp_step.
  eapply em_wp_makeUndo; [done|]. wp_step. apply wp_modify. wp_step. simpl. split_and!; try done.
  refine (deleted_core e k s m _ _ _ Hs Hk Hfl Hfree _ _). by rewrite Hinfo.
Qed.

Lemma deleteExtent_inv k e s :
  em_inv s -> em s !! k = Some e ->
  wp (deleteExtent k true) s (fun _ s' => em_inv s' /\ em s' = delete k (em s) /\ same_env s s').
Proof.
  intros Hi Hk. pose proof (ei_core s Hi) as Hs. unfold deleteExtent. wp_step.
  eapply run_wp; [unfold deref; by rewrite Hk|].
  wp_step. destruct (tr_range _ (ci_tree s Hs) _ _ Hk) as [Hr _].
  eapply wp_mono; [apply (give_back_spec e s (ci_fl s Hs) Hr)|].
  { intros l Hl Hf. apply (ci_excl s Hs l Hf). by exists k, e. }
  intros _ s' (m & u & -> & Hfl & Hinfo & Hfree).
  destruct (deleteEM_spec _ _ _ _ (ei_index s Hi) Hk) as (ix & Hix & Hok).
  wp_step. wp_step. eapply wp_lift; [exact Hix|]. wp_step. wp_step. apply wp_modify. wp_step.
  eapply em_wp_makeUndo; [done|]. wp_step. apply wp_modify. wp_step. simpl. split_and!; try done.
  constructor; simpl; [|done|].
  - refine (deleted_core e k s m _ _ _ Hs Hk Hfl Hfree _ _). by rewrite Hinfo.
  - intros k' e' [_ Hk']%lookup_delete_Some. by apply (ei_root s Hi k').
Qed.

End ops.
End EmOps.
