(* ===== verification/EmPlace.v ===== *)
(** * Where a new column extent goes

    [_createColumnExtent_DBroot] picks partition, segment and block offset of the
    new extent from the last extent of the dbroot and the segment files of its
    partition.  The choice never hits blocks that another extent holds. *)

From S2P Require Import Prelude Undoable Vbbm ExtentMap ExtentOps EmThms EmFree EmIndex EmOps.
From stdpp Require Import prelude gmap strings sorting.
Local Open Scope Z_scope.

Module EmPlace.
Import ExtentMap ExtentOps EmThms EmFree EmIndex EmOps.

(** ** Folds *)
Lemma foldl_reach {A B} (f : A -> B -> A) (P : B -> A -> Prop) es a :
  (forall a e, P e (f a e)) -> (forall a e e', P e a -> P e (f a e')) -> forall e, e ∈ es -> P e (foldl f a es).
Proof.
  intros Hnew Hkeep. assert (forall es a e, P e a -> P e (foldl f a es)) as Hk.
  { clear es a. induction es as [|x es IH]; simpl; auto. }
  revert a. induction es as [|x es IH]; intros a e He; [set_solver|]. simpl.
  apply elem_of_cons in He as [->|He]; auto.
Qed.

Lemma foldl_keep {A B} (f : A -> B -> A) (P : A -> Prop) es a :
  (forall a e, e ∈ es -> P a -> P (f a e)) -> P a -> P (foldl f a es).
Proof.
  revert a. induction es as [|x es IH]; intros a Hf Ha; [done|]. simpl. apply IH; [|apply Hf; set_solver].
  intros a' e He. apply Hf. set_solver.
Qed.

(** ** The last extent *)

(** By partition, then block offset, then segment. *)
Definition before (e e' : EMEntry) : Prop :=
  partitionNum e < partitionNum e' \/
  (partitionNum e = partitionNum e' /\ blockOffset e < blockOffset e') \/
  (partitionNum e = partitionNum e' /\ blockOffset e = blockOffset e' /\ segmentNum e <= segmentNum e').

Definition placed_ok (e : EMEntry) : Prop := 0 <= partitionNum e /\ 0 <= blockOffset e /\ 0 <= segmentNum e.

Lemma hwm_scan_spec es : forall acc,
  Forall placed_ok es ->
  (let '(hp, ho, hs, last) := acc in
   match last with
   | Some le => (hp, ho, hs) = (partitionNum le, blockOffset le, segmentNum le)
   | None => (hp, ho, hs) = (0, 0, 0)
   end) ->
  match (foldl hwm_scan acc es).2, acc.2 with
  | Some le, Some le0 => (le = le0 \/ le ∈ es) /\ before le0 le /\ forall e, e ∈ es -> before e le
  | Some le, None => le ∈ es /\ forall e, e ∈ es -> before e le
  | None, None => es = []
  | None, Some _ => False
  end.
Proof.
  induction es as [|e es IH]; intros [[[hp ho] hs] last] Hes Hacc.
  { simpl. destruct last; [|done]. split_and!; [by left|unfold before; lia|set_solver]. }
  apply Forall_cons in Hes as [He Hes]. simpl.
  destruct (_ || _) eqn:Hc.
  - specialize (IH (partitionNum e, blockOffset e, segmentNum e, Some e) Hes eq_refl). simpl in IH.
    destruct (foldl hwm_scan _ es).2 as [le|]; [|done]. destruct IH as (Hin & Hb & Hall). destruct last as [le0|].
    + simplify_eq. assert (before le0 e).
      { unfold before. rewrite !orb_true_iff, !andb_true_iff in Hc. zbool; lia. }
      split_and!; [set_solver|unfold before in *; lia|]. intros e' [->|He']%elem_of_cons; auto.
    + split; [set_solver|]. intros e' [->|He']%elem_of_cons; auto.
  - specialize (IH (hp, ho, hs, last) Hes Hacc). simpl in IH. rewrite !orb_false_iff, !andb_false_iff in Hc.
    destruct (foldl hwm_scan _ es).2 as [le|] eqn:Hf, last as [le0|]; try done.
    + destruct IH as (Hin & Hb & Hall). simplify_eq. split_and!; [set_solver|done|].
      intros e' [->|He']%elem_of_cons; [|auto]. unfold before in *. zbool; lia.
    + exfalso. simplify_eq. destruct He as (? & ? & ?). zbool; lia.
    + exfalso. simplify_eq. destruct He as (? & ? & ?). zbool; lia.
Qed.

Lemma last_extent_Some es le : Forall placed_ok es -> last_extent es = Some le -> le ∈ es /\ forall e, e ∈ es -> before e le.
Proof.
  intros Hes Hl. pose proof (hwm_scan_spec es (0, 0, 0, None) Hes eq_refl) as H. simpl in H.
  unfold last_extent in Hl. by rewrite Hl in H.
Qed.

Lemma last_extent_None es : Forall placed_ok es -> last_extent es = None -> es = [].
Proof.
  intros Hes Hl. pose proof (hwm_scan_spec es (0, 0, 0, None) Hes eq_refl) as H. simpl in H.
  unfold last_extent in Hl. by rewrite Hl in H.
Qed.

(** ** The segment files of the partition *)
Section scans.
Context {IO : IterOrder}.

(** One dbroot of the second scan. *)
Definition scan_root (s : t) (root oid part : Z) (a : Scan2) (r : Z) : Scan2 :=
  if r =? root then foldl scan_target a (at3 s r oid part)
  else foldl scan_other (foldl scan_next a (at3 s r oid (u32 (part + 1)))) (at3 s r oid part).

Lemma second_scan_run s root oid part roots : forall a,
  index_ok (index s) (em s) ->
  second_scan roots root oid part a s = (Val (foldl (scan_root s root oid part) a roots), s).
Proof.
  induction roots as [|r roots IH]; intros a H; [done|]. simpl. unfold mbind, M_bind. unfold scan_root at 2.
  destruct (r =? root).
  - rewrite (idents3_run _ _ _ _ H). simpl. by rewrite IH.
  - rewrite (idents3_run _ _ _ _ H). simpl. rewrite (idents3_run _ _ _ _ H). simpl. by rewrite IH.
Qed.

(** The highest segment of a partition on the other dbroots. *)
Definition high_step (acc : option Z) (e : EMEntry) : option Z :=
  match acc with
  | Some h => if h <? segmentNum e then Some (segmentNum e) else acc
  | None => Some (segmentNum e)
  end.

Definition high_root (s : t) (root oid part : Z) (acc : option Z) (r : Z) : option Z :=
  if r =? root then acc else foldl high_step acc (at3 s r oid part).

Lemma high_empty_seg_run s root oid part roots : forall acc,
  index_ok (index s) (em s) ->
  high_empty_seg roots root oid part acc s = (Val (foldl (high_root s root oid part) acc roots), s).
Proof.
  induction roots as [|r roots IH]; intros acc H; [done|]. simpl. unfold high_root at 2. destruct (r =? root).
  - by apply IH.
  - unfold mbind, M_bind. rewrite (idents3_run _ _ _ _ H). by apply IH.
Qed.

(** The scans only raise their maxima. *)
Definition hi_le (a a' : Scan2) : Prop := partHighSeg a <= partHighSeg a' /\ partHighSegNext a <= partHighSegNext a'.

Lemma hi_le_fold (f : Scan2 -> EMEntry -> Scan2) es a :
  (forall a e, hi_le a (f a e)) -> hi_le a (foldl f a es).
Proof.
  intros Hf. apply (foldl_keep f (fun a' => hi_le a a')); [|unfold hi_le; lia].
  intros a' e _ Ha. specialize (Hf a' e). unfold hi_le in *. lia.
Qed.

Lemma hi_target a e : hi_le a (scan_target a e) /\ segmentNum e <= partHighSeg (scan_target a e).
Proof. unfold hi_le, scan_target. simpl. zbool; lia. Qed.
Lemma hi_next a e : hi_le a (scan_next a e) /\ segmentNum e <= partHighSegNext (scan_next a e).
Proof. unfold hi_le, scan_next. simpl. zbool; lia. Qed.
Lemma hi_other a e : hi_le a (scan_other a e) /\ segmentNum e <= partHighSeg (scan_other a e).
Proof. unfold hi_le, scan_other. simpl. zbool; lia. Qed.

Lemma scan_root_le s root oid part a r : hi_le a (scan_root s root oid part a r).
Proof.
  unfold scan_root. destruct (r =? root); [apply hi_le_fold; intros; apply hi_target|].
  pose proof (hi_le_fold scan_next (at3 s r oid (u32 (part + 1))) a ltac:(intros; apply hi_next)).
  pose proof (hi_le_fold scan_other (at3 s r oid part) (foldl scan_next a (at3 s r oid (u32 (part + 1))))
    ltac:(intros; apply hi_other)). unfold hi_le in *. lia.
Qed.

(** Every segment of the partition counts for partHighSeg. *)
Lemma scan_hi s root oid part roots a r e :
  r ∈ roots -> e ∈ at3 s r oid part -> segmentNum e <= partHighSeg (foldl (scan_root s root oid part) a roots).
Proof.
  intros Hr He.
  apply (foldl_reach (scan_root s root oid part)
    (fun r a => forall e, e ∈ at3 s r oid part -> segmentNum e <= partHighSeg a) roots a) with (e := r); try done.
  - intros a' r' e' He'. unfold scan_root. destruct (r' =? root).
    + apply (foldl_reach scan_target (fun e a => segmentNum e <= partHighSeg a)); try done.
      * intros; apply hi_target.
      * intros a0 e0 e1 H. pose proof (hi_target a0 e1) as [[] _]. lia.
    + apply (foldl_reach scan_other (fun e a => segmentNum e <= partHighSeg a)); try done.
      * intros; apply hi_other.
      * intros a0 e0 e1 H. pose proof (hi_other a0 e1) as [[] _]. lia.
  - intros a' r1 r2 H e' He'. specialize (H e' He'). pose proof (scan_root_le s root oid part a' r2) as []. lia.
Qed.

(** Every segment of the next partition on another dbroot counts for
    partHighSegNext. *)
Lemma scan_hi_next s root oid part roots a r e :
  r ∈ roots -> r <> root -> e ∈ at3 s r oid (u32 (part + 1)) ->
  segmentNum e <= partHighSegNext (foldl (scan_root s root oid part) a roots).
Proof.
  intros Hr Hne He.
  apply (foldl_reach (scan_root s root oid part)
    (fun r a => r <> root -> forall e, e ∈ at3 s r oid (u32 (part + 1)) -> segmentNum e <= partHighSegNext a) roots a)
    with (e := r); try done.
  - intros a' r' Hr' e' He'. unfold scan_root. destruct (Z.eqb_spec r' root); [done|].
    apply (Z.le_trans _ (partHighSegNext (foldl scan_next a' (at3 s r' oid (u32 (part + 1)))))).
    + apply (foldl_reach scan_next (fun e a => segmentNum e <= partHighSegNext a)); try done.
      * intros; apply hi_next.
      * intros a0 e0 e1 H. pose proof (hi_next a0 e1) as [[] _]. lia.
    + apply hi_le_fold. intros; apply hi_other.
  - intros a' r1 r2 H Hr' e' He'. specialize (H Hr' e' He'). pose proof (scan_root_le s root oid part a' r2) as []. lia.
Qed.

(** The segments collected are segments of the target dbroot. *)
Lemma scan_segs s root oid part roots a sg o :
  (forall sg o, segs a !! sg = Some o -> exists e, e ∈ at3 s root oid part /\ segmentNum e = sg) ->
  segs (foldl (scan_root s root oid part) a roots) !! sg = Some o ->
  exists e, e ∈ at3 s root oid part /\ segmentNum e = sg.
Proof.
  intros Ha. revert sg o.
  apply (foldl_keep (scan_root s root oid part) (fun a => forall sg o, segs a !! sg = Some o ->
    exists e, e ∈ at3 s root oid part /\ segmentNum e = sg)); [|done].
  intros a' r _ IH. unfold scan_root. destruct (Z.eqb_spec r root) as [->|].
  - apply (foldl_keep scan_target (fun a => forall sg o, segs a !! sg = Some o ->
      exists e, e ∈ at3 s root oid part /\ segmentNum e = sg)); [|done].
    intros a0 e He H0 sg o Hsg. unfold scan_target in Hsg. simpl in Hsg.
    destruct (segs a0 !! segmentNum e) as [o'|]; [destruct (o' <? blockOffset e); [|by eauto]|];
      apply lookup_insert_Some in Hsg as [[<- _]|[_ Hsg]]; eauto.
  - apply (foldl_keep scan_other (fun a => forall sg o, segs a !! sg = Some o ->
      exists e, e ∈ at3 s root oid part /\ segmentNum e = sg)); [intros a0 e0 _ H0; exact H0|].
    apply (foldl_keep scan_next (fun a => forall sg o, segs a !! sg = Some o ->
      exists e, e ∈ at3 s root oid part /\ segmentNum e = sg)); [intros a0 e0 _ H0; exact H0|done].
Qed.

Lemma high_root_spec s root oid part roots r e :
  r ∈ roots -> r <> root -> e ∈ at3 s r oid part ->
  exists h, foldl (high_root s root oid part) None roots = Some h /\ segmentNum e <= h.
Proof.
  intros Hr Hne He.
  assert (Hstep : forall acc e, exists h, high_step acc e = Some h /\ segmentNum e <= h /\ forall h0, acc = Some h0 -> h0 <= h).
  { intros [h|] e'; simpl; [|eexists; split; [done|]; split; [lia|done]].
    destruct (Z.ltb_spec h (segmentNum e')); eexists; (split; [done|]); (split; [lia|]); intros h0 [= ->]; lia. }
  set (P := fun (e : EMEntry) acc => exists h, acc = Some h /\ segmentNum e <= h).
  assert (Hkeep : forall acc e e', P e acc -> P e (high_step acc e')).
  { intros acc e1 e2 (h & -> & Hh). destruct (Hstep (Some h) e2) as (h' & -> & _ & Hle). exists h'.
    specialize (Hle h eq_refl). split; [done|lia]. }
  apply (foldl_reach (high_root s root oid part)
    (fun r acc => r <> root -> forall e, e ∈ at3 s r oid part -> P e acc) roots None) with (e := r); try done.
  - intros acc r' Hr' e' He'. unfold high_root. destruct (Z.eqb_spec r' root); [done|].
    apply (foldl_reach high_step P); try done. intros acc' e0. destruct (Hstep acc' e0) as (h & -> & Hh & _). by exists h.
  - intros acc r1 r2 H Hr' e' He'. specialize (H Hr' e' He'). unfold high_root. destruct (r2 =? root); [done|].
    apply (foldl_keep high_step (P e')); [|done]. intros acc' e0 _. apply Hkeep.
Qed.

(** ** The choice *)

(** First, last and next segment file: what the scan of the segment numbers finds. *)
Lemma seg_scan_spec seg0 (ps : list (Z * Z)) :
  let '(first, last, nxt, isset) := foldl (seg_scan seg0) (seg0, seg0, seg0, false) ps in
  (first = seg0 \/ first ∈ ps.*1) /\ seg0 <= last /\ first <= seg0 /\
  (isset = true -> nxt ∈ ps.*1 /\ seg0 < nxt) /\ (seg0 < last -> isset = true).
Proof.
  assert (forall qs, (forall q, q ∈ qs -> q ∈ ps) -> let '(first, last, nxt, isset) := foldl (seg_scan seg0) (seg0, seg0, seg0, false) qs in
    (first = seg0 \/ first ∈ ps.*1) /\ seg0 <= last /\ first <= seg0 /\
    (isset = true -> nxt ∈ ps.*1 /\ seg0 < nxt) /\ (seg0 < last -> isset = true)) as H; [|by apply H].
  intros qs Hqs.
  apply (foldl_keep (seg_scan seg0) (fun acc => let '(first, last, nxt, isset) := acc in
    (first = seg0 \/ first ∈ ps.*1) /\ seg0 <= last /\ first <= seg0 /\
    (isset = true -> nxt ∈ ps.*1 /\ seg0 < nxt) /\ (seg0 < last -> isset = true))).
  2: { split_and!; [by left|lia|lia|done|lia]. }
  intros [[[first last] nxt] isset] q Hq (H1 & H2 & H3 & H4 & H5). unfold seg_scan.
  assert (q.1 ∈ ps.*1) as Hin by (apply list_elem_of_fmap; eauto).
  destruct (Z.ltb_spec q.1 first) as [Hf|Hf]; [|destruct (Z.ltb_spec last q.1) as [Hl|Hl]];
    destruct (Z.ltb_spec seg0 q.1) as [Hs|Hs]; try lia; simpl.
  - split_and!; auto; lia.
  - destruct ((q.1 <? nxt) || negb isset) eqn:Hc; split_and!; auto; try lia.
    intros _. destruct isset; [done|]. by rewrite orb_true_r in Hc.
  - destruct ((q.1 <? nxt) || negb isset) eqn:Hc; split_and!; auto.
  - split_and!; auto.
Qed.

(** The four kinds of place. *)
Lemma choose_place_spec le a files w p sg off :
  choose_place le a files w = (p, sg, off) ->
  (p = u32 (partitionNum le + 1) /\ sg = (if partHighSegNext a =? -1 then 0 else u16 (partHighSegNext a + 1)) /\ off = 0)
  \/ (p = partitionNum le /\ sg = u16 (partHighSeg a + 1) /\ (off = 0 \/ off = blockOffset le))
  \/ (p = partitionNum le /\ segmentNum le < sg /\ is_Some (segs a !! sg) /\ off = blockOffset le)
  \/ (p = partitionNum le /\ (sg = segmentNum le \/ is_Some (segs a !! sg)) /\ off = u32 (blocks le + blockOffset le)).
Proof.
  unfold choose_place. set (seg0 := segmentNum le).
  assert (Hkey : forall x, x ∈ (umap_to_list (segs a)).*1 -> is_Some (segs a !! x)).
  { intros x ([k v] & -> & Hk)%list_elem_of_fmap. rewrite umap_to_list_perm, elem_of_map_to_list in Hk. simpl. eauto. }
  destruct (if 1 <? Z.of_nat (size (segs a)) then _ else _) as [[[first last] nxt] isset] eqn:Hscan.
  assert ((first = seg0 \/ is_Some (segs a !! first)) /\ first <= seg0 /\ seg0 <= last /\
    (seg0 < last -> is_Some (segs a !! nxt) /\ seg0 < nxt)) as (Hfirst & Hfs & Hlast & Hnxt).
  { destruct (1 <? _); [|simplify_eq; split_and!; [by left|lia|lia|lia]].
    pose proof (seg_scan_spec seg0 (umap_to_list (segs a))) as H. rewrite Hscan in H.
    destruct H as (H1 & H2 & H3 & H4 & H5). split_and!; [destruct H1; [by left|right; auto]|done|done|].
    intros Hlt. destruct (H4 (H5 Hlt)). auto. }
  destruct (outOfSvc a || _); [intros [= <- <- <-]; by left|].
  destruct (Z.leb_spec files (Z.of_nat (size (segs a)))).
  - destruct (Z.eqb_spec seg0 last) as [Heq|Hne].
    + destruct (_ =? _); [intros [= <- <- <-]; by left|].
      assert ((blockOffset le =? 0) && (first <? first) = false) as -> by (rewrite Z.ltb_irrefl; apply andb_false_r).
      intros [= <- <- <-]. right; right; right. done.
    + destruct (Hnxt ltac:(lia)) as [Hn Hlt]. right; right; left.
      destruct ((blockOffset le =? 0) && (first <? nxt)) eqn:Hz; simplify_eq; [|done].
      apply andb_true_iff in Hz as [Hz%Z.eqb_eq _]. by rewrite Hz.
  - right; left. destruct ((blockOffset le =? 0) && _); simplify_eq; auto.
Qed.

(** The maxima come from extents. *)
Lemma scan_bound s root oid part roots a B :
  (forall r p e, e ∈ at3 s r oid p -> segmentNum e <= B) -> partHighSeg a <= B -> partHighSegNext a <= B ->
  let a' := foldl (scan_root s root oid part) a roots in partHighSeg a' <= B /\ partHighSegNext a' <= B.
Proof.
  intros HB H1 H2. set (P := fun a => partHighSeg a <= B /\ partHighSegNext a <= B).
  apply (foldl_keep (scan_root s root oid part) P); [|done]. intros a' r _ Ha. unfold scan_root.
  destruct (r =? root); [|apply (foldl_keep scan_other P); [|apply (foldl_keep scan_next P); [|done]]].
  - apply (foldl_keep scan_target P); [|done]. intros a0 e He [? ?]. apply HB in He. unfold P, scan_target.
    simpl. zbool; lia.
  - intros a0 e He [? ?]. apply HB in He. unfold P, scan_other. simpl. zbool; lia.
  - intros a0 e He [? ?]. apply HB in He. unfold P, scan_next. simpl. zbool; lia.
Qed.

Lemma high_bound s root oid part roots B :
  (forall r p e, e ∈ at3 s r oid p -> 0 <= segmentNum e <= B) ->
  match foldl (high_root s root oid part) None roots with Some h => 0 <= h <= B | None => True end.
Proof.
  intros HB. set (P := fun acc : option Z => match acc with Some h => 0 <= h <= B | None => True end).
  apply (foldl_keep (high_root s root oid part) P); [|done]. intros acc r _ Ha. unfold high_root.
  destruct (r =? root); [done|]. apply (foldl_keep high_step P); [|done].
  intros [h|] e He%HB Hh; simpl; [|done]. by destruct (_ <? _).
Qed.

(** ** The geometry of the segment files *)

(** No two extents hold the same block of a segment file; a segment file lies on
    one dbroot; the extents of an OID have one size, and offsets are multiples of it. *)
Record geo_ok (s : t) : Prop := {
  ge_ok k e : em s !! k = Some e -> placed_ok e /\ segmentNum e < 2 ^ 16 /\ partitionNum e < 2 ^ 32;
  ge_fits k e : em s !! k = Some e -> blockOffset e + blocks e < 2 ^ 32 /\ blockOffset e mod blocks e = 0;
  ge_root k e : em s !! k = Some e -> dbRoot e ∈ allDbRoots (config s);
  ge_size k k' e e' : em s !! k = Some e -> em s !! k' = Some e' -> fileID e = fileID e' ->
    r_size (range e) = r_size (range e');
  ge_file k k' e e' : em s !! k = Some e -> em s !! k' = Some e' -> k <> k' -> fileID e = fileID e' ->
    partitionNum e = partitionNum e' -> segmentNum e = segmentNum e' ->
    dbRoot e = dbRoot e' /\ (blockOffset e + blocks e <= blockOffset e' \/ blockOffset e' + blocks e' <= blockOffset e) }.

(** The numbers of an OID have room for one more extent of [sz] units. *)
Definition room (oid sz : Z) (s : t) : Prop := forall k e, em s !! k = Some e -> fileID e = oid ->
  r_size (range e) = sz /\ segmentNum e + 1 < 2 ^ 16 /\ partitionNum e + 1 < 2 ^ 32 /\ blockOffset e + 2 * blocks e < 2 ^ 32.

(** Blocks [off] to [off + sz * 1024] of file [(p, sg)] are free, and the file is on
    [root] or new. *)
Definition fresh (s : t) (oid root p sg off sz : Z) : Prop :=
  forall k e, em s !! k = Some e -> fileID e = oid -> partitionNum e = p -> segmentNum e = sg ->
    dbRoot e = root /\ (off + sz * 1024 <= blockOffset e \/ blockOffset e + blocks e <= off).

(** The place picked after the last extent [le] of the dbroot. *)
Section after.
Variables (s : t) (oid root sz : Z) (le : EMEntry) (k0 : Z).
Hypotheses (Hs : index_ok (index s) (em s)) (Hg : geo_ok s) (Hroom : room oid sz s) (Hsz : 0 < sz).
Hypotheses (Hle : em s !! k0 = Some le) (Hoid : fileID le = oid) (Hroot : dbRoot le = root).
Hypothesis Hmax : forall e, e ∈ at2 s root oid -> before e le.

Definition scan_all : Scan2 := foldl (scan_root s root oid (partitionNum le))
  (mkScan2 false (segmentNum le) (-1) {[segmentNum le := blockOffset le]}) (allDbRoots (config s)).

Definition in_segs (sg : Z) : Prop := sg = segmentNum le \/ is_Some (segs scan_all !! sg).

Lemma blocks_of k e : em s !! k = Some e -> fileID e = oid -> blocks e = sz * 1024.
Proof. intros Hk Ho. destruct (Hroom k e Hk Ho) as [Hz _]. unfold blocks. by rewrite Hz. Qed.

Lemma on_root_before k e : em s !! k = Some e -> fileID e = oid -> dbRoot e = root -> before e le.
Proof. intros Hk Ho Hr. apply Hmax, (elem_of_at2 _ _ _ _ Hs). eauto. Qed.

Lemma scan_maxima :
  segmentNum le <= partHighSeg scan_all < 2 ^ 16 - 1 /\ -1 <= partHighSegNext scan_all < 2 ^ 16 - 1.
Proof.
  destruct (Hroom k0 le Hle Hoid) as (_ & Hseg0 & _).
  destruct (scan_bound s root oid (partitionNum le) (allDbRoots (config s))
    (mkScan2 false (segmentNum le) (-1) {[segmentNum le := blockOffset le]}) (2 ^ 16 - 2)) as [H1 H2]; simpl; try lia.
  { intros r p e (k & Hk & _ & Ho & _)%(elem_of_at3 _ _ _ _ _ Hs). destruct (Hroom k e Hk Ho). lia. }
  assert (segmentNum le <= partHighSeg scan_all /\ -1 <= partHighSegNext scan_all) as [H3 H4].
  { apply (foldl_keep (scan_root s root oid (partitionNum le))
      (fun a => segmentNum le <= partHighSeg a /\ -1 <= partHighSegNext a)); [|simpl; lia].
    intros a r _ [H3 H4]. pose proof (scan_root_le s root oid (partitionNum le) a r) as []. lia. }
  unfold scan_all in *. lia.
Qed.

(** A segment file found by the scan has an extent on the dbroot. *)
Lemma in_segs_extent sg : in_segs sg -> exists k e, em s !! k = Some e /\ fileID e = oid /\
  partitionNum e = partitionNum le /\ segmentNum e = sg /\ dbRoot e = root.
Proof.
  intros [->|[o Hsg]]; [by exists k0, le|]. pose proof Hs as Hix.
  apply scan_segs in Hsg as (e & He & <-).
  - apply (elem_of_at3 _ _ _ _ _ Hix) in He as (k & Hk & ? & ? & ?). by exists k, e.
  - simpl. intros sg' o' [<- _]%lookup_singleton_Some. exists le. split; [|done]. apply (elem_of_at3 _ _ _ _ _ Hix). eauto.
Qed.

(** and then all its extents are there, before [le]. *)
Lemma in_segs_root sg k e : in_segs sg -> em s !! k = Some e -> fileID e = oid ->
  partitionNum e = partitionNum le -> segmentNum e = sg -> dbRoot e = root /\ before e le.
Proof.
  intros Hsg Hk Ho Hp Hsg'. assert (dbRoot e = root) as Hr; [|split; [done|by apply (on_root_before k)]].
  destruct (in_segs_extent sg Hsg) as (k1 & e1 & Hk1 & Ho1 & Hp1 & Hs1 & Hr1).
  destruct (decide (k = k1)) as [->|Hne]; [by simplify_eq|].
  destruct (ge_file s Hg k k1 e e1 Hk Hk1 Hne) as [Hr _]; congruence.
Qed.

Lemma fresh_new_partition sg :
  sg = (if partHighSegNext scan_all =? -1 then 0 else u16 (partHighSegNext scan_all + 1)) ->
  fresh s oid root (partitionNum le + 1) sg 0 sz.
Proof.
  intros Hsg0 k e Hk Ho Hp Hsg. exfalso. destruct (Hroom k0 le Hle Hoid) as (_ & _ & Hpart & _).
  destruct (ge_ok s Hg k0 le Hle) as ((? & _ & _) & _ & _). destruct (ge_ok s Hg k e Hk) as ((_ & _ & ?) & _ & _).
  destruct (decide (dbRoot e = root)) as [Hr|Hr].
  - pose proof (on_root_before k e Hk Ho Hr). unfold before in *. lia.
  - assert (segmentNum e <= partHighSegNext scan_all) as Hle'.
    { apply (scan_hi_next s root oid (partitionNum le) _ _ (dbRoot e)); [by apply (ge_root s Hg k)|done|].
      rewrite u32_small by lia. apply (elem_of_at3 _ _ _ _ _ Hs). eauto. }
    pose proof scan_maxima. destruct (Z.eqb_spec (partHighSegNext scan_all) (-1)); [lia|].
    unfold u16 in Hsg0. rewrite Z.mod_small in Hsg0; lia.
Qed.

Lemma fresh_new_segment off : fresh s oid root (partitionNum le) (partHighSeg scan_all + 1) off sz.
Proof.
  intros k e Hk Ho Hp Hsg. exfalso. assert (segmentNum e <= partHighSeg scan_all); [|lia].
  apply (scan_hi s root oid (partitionNum le) _ _ (dbRoot e)); [by apply (ge_root s Hg k)|].
  apply (elem_of_at3 _ _ _ _ _ Hs). eauto.
Qed.

Lemma fresh_next_segment sg :
  segmentNum le < sg -> in_segs sg -> fresh s oid root (partitionNum le) sg (blockOffset le) sz.
Proof.
  intros Hlt Hin k e Hk Ho Hp Hsg. destruct (in_segs_root sg k e Hin Hk Ho Hp Hsg) as [Hr Hb].
  split; [done|]. right. pose proof (blocks_of k e Hk Ho) as Hbe. pose proof (blocks_of k0 le Hle Hoid) as Hbl.
  destruct (ge_fits s Hg k e Hk) as [_ Hal']. destruct (ge_fits s Hg k0 le Hle) as [_ Hal].
  assert (blockOffset e < blockOffset le) by (unfold before in Hb; lia).
  rewrite Hbe in *. rewrite Hbl in *. apply Z.mod_divide in Hal as [x Hx], Hal' as [y Hy]; try lia.
  rewrite Hx, Hy in *. assert (y < x) by (apply (Z.mul_lt_mono_pos_r (sz * 1024)); lia).
  replace (y * (sz * 1024) + sz * 1024) with ((y + 1) * (sz * 1024)) by lia. apply Z.mul_le_mono_nonneg_r; lia.
Qed.

Lemma fresh_new_stripe sg :
  in_segs sg -> fresh s oid root (partitionNum le) sg (blocks le + blockOffset le) sz.
Proof.
  intros Hin k e Hk Ho Hp Hsg. destruct (in_segs_root sg k e Hin Hk Ho Hp Hsg) as [Hr Hb].
  split; [done|]. right. rewrite (blocks_of k e Hk Ho), (blocks_of k0 le Hle Hoid). unfold before in Hb. lia.
Qed.

(** The numbers fit their types, the offset is a multiple of the extent size. *)
Definition place_fits (p sg off : Z) : Prop :=
  0 <= p < 2 ^ 32 /\ 0 <= sg < 2 ^ 16 /\ 0 <= off /\ off + sz * 1024 < 2 ^ 32 /\ off mod (sz * 1024) = 0.

Lemma fresh_after files w p sg off :
  choose_place le scan_all files w = (p, sg, off) -> fresh s oid root p sg off sz /\ place_fits p sg off.
Proof.
  intros Hch. pose proof scan_maxima. pose proof (blocks_of k0 le Hle Hoid) as Hbl.
  destruct (Hroom k0 le Hle Hoid) as (_ & Hseg0 & Hpart0 & Hoff0). rewrite Hbl in Hoff0.
  destruct (ge_ok s Hg k0 le Hle) as ((Hp0 & Ho0 & Hs0) & _ & _).
  destruct (ge_fits s Hg k0 le Hle) as [_ Hal]. rewrite Hbl in Hal.
  assert (Hsegs : forall sg, in_segs sg -> 0 <= sg < 2 ^ 16).
  { intros sg' (k & e & Hk & _ & _ & <- & _)%in_segs_extent. destruct (ge_ok s Hg k e Hk) as ((_ & _ & ?) & ? & _). lia. }
  unfold place_fits.
  apply choose_place_spec in Hch as [(-> & Hsg & ->)|[(-> & -> & Hoff)|[(-> & Hlt & Hsg & ->)|(-> & Hsg & ->)]]].
  - rewrite (u32_small (partitionNum le + 1)) by lia. split; [by apply fresh_new_partition|].
    destruct (Z.eqb_spec (partHighSegNext scan_all) (-1)); subst sg; unfold u16; rewrite ?Z.mod_small by lia;
      split_and!; try lia; done.
  - unfold u16. rewrite Z.mod_small by lia. split; [apply fresh_new_segment|].
    split_and!; try lia. by destruct Hoff as [->| ->].
  - split; [apply fresh_next_segment; [done|by right]|]. pose proof (Hsegs sg ltac:(by right)). split_and!; try lia; done.
  - rewrite u32_small by lia. split; [by apply fresh_new_stripe|]. pose proof (Hsegs sg Hsg). split_and!; try lia.
    rewrite Hbl, Z.add_mod, Z.mod_same, Hal by lia. done.
Qed.
End after.

(** The place picked on a dbroot that has no extent of the OID yet. *)
Lemma fresh_first s oid root sz part :
  index_ok (index s) (em s) -> geo_ok s -> room oid sz s -> at2 s root oid = [] ->
  fresh s oid root part
    (match foldl (high_root s root oid part) None (allDbRoots (config s)) with Some h => u16 (h + 1) | None => 0 end) 0 sz.
Proof.
  intros Hs Hg Hroom Hnone k e Hk Ho Hp Hsg. exfalso. pose proof Hs as Hix.
  destruct (decide (dbRoot e = root)) as [Hr|Hr].
  { assert (e ∈ at2 s root oid) as Hin by (apply (elem_of_at2 _ _ _ _ Hix); eauto). rewrite Hnone in Hin. set_solver. }
  destruct (high_root_spec s root oid part (allDbRoots (config s)) (dbRoot e) e) as (h & Hh & Hle);
    [by apply (ge_root s Hg k)|done|apply (elem_of_at3 _ _ _ _ _ Hix); eauto|].
  pose proof (high_bound s root oid part (allDbRoots (config s)) (2 ^ 16 - 2)) as Hb. rewrite Hh in *.
  assert (0 <= h <= 2 ^ 16 - 2) as Hb'.
  { apply Hb. intros r p e' (k' & Hk' & _ & Ho' & _)%(elem_of_at3 _ _ _ _ _ Hix).
    destruct (Hroom k' e' Hk' Ho'), (ge_ok s Hg k' e' Hk') as ((_ & _ & ?) & _). lia. }
  unfold u16 in Hsg. rewrite Z.mod_small in Hsg; lia.
Qed.

(** [find_place]: the blocks it picks are free. *)
Lemma find_place_spec s oid w root sz part :
  index_ok (index s) (em s) -> geo_ok s -> room oid sz s -> 0 < sz < 2 ^ 21 -> 0 <= part < 2 ^ 32 -> dbRootCount (config s) <> 0 ->
  exists p sg off, find_place oid w root part s = (Val (p, sg, off), s) /\
    fresh s oid root p sg off sz /\ place_fits sz p sg off.
Proof.
  intros Hs Hg Hroom Hsz Hpart Hcount. pose proof Hs as Hix.
  assert (Forall placed_ok (at2 s root oid)) as Hpl.
  { apply Forall_forall. intros e (k & Hk & _)%(elem_of_at2 _ _ _ _ Hix). by apply (ge_ok s Hg k). }
  unfold find_place, mbind, M_bind. rewrite (idents2_run _ _ _ Hix). unfold gets.
  destruct (last_extent (at2 s root oid)) as [le|] eqn:Hl.
  - apply (last_extent_Some _ _ Hpl) in Hl as [Hin Hmax].
    apply (elem_of_at2 _ _ _ _ Hix) in Hin as (k0 & Hk0 & Hr & Ho).
    rewrite (second_scan_run _ _ _ _ _ _ Hix). destruct (Z.eqb_spec (dbRootCount (config s)) 0); [done|].
    destruct (choose_place _ _ _ _) as [[p sg] off] eqn:Hch. exists p, sg, off. split; [done|].
    eapply (fresh_after s oid root sz le k0); eauto; lia.
  - apply (last_extent_None _ Hpl) in Hl. rewrite (high_empty_seg_run _ _ _ _ _ _ Hix).
    eexists _, _, _. split; [done|]. split; [by apply fresh_first|].
    pose proof (high_bound s root oid part (allDbRoots (config s)) (2 ^ 16 - 2)) as Hb. unfold place_fits.
    destruct (foldl _ None _) as [h|]; [|split_and!; try lia; done].
    assert (0 <= h <= 2 ^ 16 - 2) as Hh.
    { apply Hb. intros r p e' (k' & Hk' & _ & Ho' & _)%(elem_of_at3 _ _ _ _ _ Hix).
      destruct (Hroom k' e' Hk' Ho'), (ge_ok s Hg k' e' Hk') as ((_ & _ & ?) & _). lia. }
    unfold u16. rewrite Z.mod_small by lia. split_and!; try lia; done.
Qed.

Lemma geo_same s s' : em s' = em s -> config s' = config s -> geo_ok s -> geo_ok s'.
Proof. intros He Hc [? ? ? ? ?]. constructor; rewrite He, ?Hc; assumption. Qed.

(** An extent at such a place keeps the geometry. *)
Lemma geo_insert s s' st w oid root p sg off e :
  geo_ok s -> room oid w s -> 0 < w -> fresh s oid root p sg off w -> place_fits w p sg off ->
  root ∈ allDbRoots (config s) -> em s !! st = None ->
  range e = mkRange st w -> fileID e = oid -> dbRoot e = root -> partitionNum e = p -> segmentNum e = sg ->
  blockOffset e = off -> em s' = <[st := e]> (em s) -> config s' = config s -> geo_ok s'.
Proof.
  intros Hg Hroom Hw Hf (Hp & Hsg & Ho & Hend & Hal) Hroot Hst Hr Hoid Hrt Hpt Hsgt Hoff Hem Hcf.
  assert (blocks e = w * 1024) as Hb by (unfold blocks; by rewrite Hr).
  assert (Hnew : forall k e', em s !! k = Some e' -> fileID e' = oid -> partitionNum e' = p -> segmentNum e' = sg ->
    dbRoot e' = root /\ (off + w * 1024 <= blockOffset e' \/ blockOffset e' + blocks e' <= off)) by exact Hf.
  constructor; rewrite Hem; rewrite ?Hcf.
  - intros k e' [[<- <-]|[_ Hk]]%lookup_insert_Some; [unfold placed_ok; split_and!; lia|]. by apply (ge_ok s Hg k).
  - intros k e' [[<- <-]|[_ Hk]]%lookup_insert_Some; [rewrite Hb, Hoff; split; [lia|done]|]. by apply (ge_fits s Hg k).
  - intros k e' [[<- <-]|[_ Hk]]%lookup_insert_Some; [by rewrite Hrt|]. by apply (ge_root s Hg k).
  - intros k k' e1 e2 [[<- <-]|[_ Hk]]%lookup_insert_Some [[<- <-]|[_ Hk']]%lookup_insert_Some Hid; try done.
    + destruct (Hroom k' e2 Hk') as [Hz _]; [congruence|]. rewrite Hr. simpl. lia.
    + destruct (Hroom k e1 Hk) as [Hz _]; [congruence|]. rewrite Hr. simpl. lia.
    + by apply (ge_size s Hg k k').
  - intros k k' e1 e2 [[<- <-]|[_ Hk]]%lookup_insert_Some [[<- <-]|[_ Hk']]%lookup_insert_Some Hne Hid Hpp Hss; try done.
    + destruct (Hnew k' e2 Hk') as [H1 H2]; [congruence..|]. split; [congruence|]. rewrite Hb, Hoff. lia.
    + destruct (Hnew k e1 Hk) as [H1 H2]; [congruence..|]. split; [congruence|]. rewrite Hb, Hoff. lia.
    + by apply (ge_file s Hg k k').
Qed.
End scans.

End EmPlace.
