(* ===== verification/EmCmds.v ===== *)
(** * Commands on the extent map

    A worker runs one command at a time: it takes the locks, changes the tree, the
    free list and the index, and then confirms the changes or undoes them. *)

From S2P Require Import Prelude Undoable Vbbm ExtentMap ExtentOps ExtentHwm EmThms EmFree EmIndex EmOps EmPlace.
From stdpp Require Import prelude gmap strings sorting.
Local Open Scope Z_scope.

Module EmCmds.
Import ExtentMap ExtentOps ExtentHwm EmThms EmFree EmIndex EmOps EmPlace.

(** ** Locks *)
Definition noLocks : Locks := mkLocks false false false 0 0 0.
Definition wLocks : Locks := mkLocks true true true 0 0 0.

(** Between two commands: no locks, no undo records. *)
Record idle (s : t) : Prop := {
  id_locks : locks s = noLocks;
  id_undo : undoRecords s = [];
  id_undoRB : undoRecordsRBTree s = [] }.

Lemma grab3_write s : core_inv s -> locks s = noLocks -> grab3 WRITE s = (Val tt, set_locks wLocks s).
Proof.
  intros Hs Hl. pose proof (ci_mapped s Hs) as Hm. pose proof (fo_alloc _ (ci_fl s Hs)) as Ha.
  pose proof (fo_len _ (ci_fl s Hs)) as Hlen. unfold sizeof_InlineLBIDRange in Ha.
  destruct s as [m h ix u rb lk cf]. simpl in *. subst lk.
  unfold grab3, grab2, grabEMEntryTable, grabEMIndex, grabFreeList, grab, upd_locks, modify, gets, mbind, M_bind. simpl.
  assert (allocdSize (fEMShminfo h) =? 0 = false) as -> by (apply Z.eqb_neq; lia). simpl.
  assert (allocdSize (fFLShminfo h) =? 0 = false) as -> by (apply Z.eqb_neq; lia). done.
Qed.

Lemma grab2_write s : core_inv s -> locks s = noLocks -> grab2 WRITE s = (Val tt, set_locks (mkLocks true true false 0 0 0) s).
Proof.
  intros Hs Hl. pose proof (ci_mapped s Hs) as Hm. destruct s as [m h ix u rb lk cf]. simpl in *. subst lk.
  unfold grab2, grabEMEntryTable, grabEMIndex, grab, upd_locks, modify, gets, mbind, M_bind. simpl.
  assert (allocdSize (fEMShminfo h) =? 0 = false) as -> by (apply Z.eqb_neq; lia). done.
Qed.

Lemma grab2_read s : core_inv s -> locks s = noLocks -> grab2 READ s = (Val tt, set_locks (mkLocks false false false 1 1 0) s).
Proof.
  intros Hs Hl. pose proof (ci_mapped s Hs) as Hm. destruct s as [m h ix u rb lk cf]. simpl in *. subst lk.
  unfold grab2, grabEMEntryTable, grabEMIndex, grab, upd_locks, modify, gets, mbind, M_bind. simpl.
  assert (allocdSize (fEMShminfo h) =? 0 = false) as -> by (apply Z.eqb_neq; lia). done.
Qed.

Lemma release2_read s : release2 READ (set_locks (mkLocks false false false 1 1 0) s) = (Val tt, set_locks noLocks s).
Proof. by destruct s. Qed.

Lemma set_noLocks s : locks s = noLocks -> set_locks noLocks s = s.
Proof. destruct s; simpl. by intros ->. Qed.

Section cmds.
Context {IO : IterOrder}.

Lemma core_inv_locks x s : core_inv s -> core_inv (set_locks x s).
Proof. intros [? ? ? ? ? ?]. by constructor. Qed.

Lemma em_inv_locks x s : em_inv s -> em_inv (set_locks x s).
Proof. intros [? ? ?]. constructor; try done. by apply core_inv_locks. Qed.

(** What the locks and the undo logs are does not matter to the invariant. *)
Lemma em_inv_same s s' : em s' = em s -> mem s' = mem s -> index s' = index s -> em_inv s -> em_inv s'.
Proof.
  destruct s, s'. simpl. intros -> -> -> [[? ? ? ? ? ?] ? ?]. by constructor.
Qed.

(** ** Confirming and undoing *)
Lemma finishChanges_run x s : exists y, finishChanges (set_locks x s) = (Val tt, set_locks y s) /\
  (emReads x = 0 -> ixReads x = 0 -> flReads x = 0 -> y = noLocks).
Proof.
  destruct x as [[] [] [] er xr fr], s as [m h ix u rb lk cf];
    (eexists; split; [reflexivity|]; simpl; by intros -> -> ->).
Qed.

Lemma confirm_run s :
  emReads (locks s) = 0 -> ixReads (locks s) = 0 -> flReads (locks s) = 0 ->
  confirmChanges s = (Val tt, mk (em s) (mem s) (index s) [] [] noLocks (config s)).
Proof.
  intros H1 H2 H3. destruct (finishChanges_run (locks s) (mk (em s) (mem s) (index s) [] [] noLocks (config s))) as (y & Hf & Hy).
  rewrite Hy in Hf by done. unfold confirmChanges, modify, mbind, M_bind. simpl. exact Hf.
Qed.

(** Undoing logged writes: the memory is back, the records of the tree are replayed
    and kept, the index stays as it is. *)
Lemma undo_run m0 s :
  undoes m0 [] (mem s) (undoRecords s) -> emReads (locks s) = 0 -> ixReads (locks s) = 0 -> flReads (locks s) = 0 ->
  undoChanges s = (Val tt, mk (foldl undo_record (em s) (undoRecordsRBTree s)) m0 (index s) [] (undoRecordsRBTree s) noLocks (config s)).
Proof.
  intros Hu H1 H2 H3. unfold undoChanges, undoImages, mbind, M_bind. rewrite (undoes_undoChanges _ _ _ Hu).
  set (s' := mk _ _ _ _ _ _ _). destruct (finishChanges_run (locks s) s') as (y & Hf & Hy).
  rewrite Hy in Hf by done. unfold s' in *. exact Hf.
Qed.

(** ** Changing an extent in place *)
Definition same_place (e e' : EMEntry) : Prop :=
  range e' = range e /\ fileID e' = fileID e /\ partitionNum e' = partitionNum e /\ dbRoot e' = dbRoot e.

Lemma core_inv_update s k e e' u rb :
  core_inv s -> em s !! k = Some e -> range e' = range e ->
  core_inv (mk (<[k := e']> (em s)) (mem s) (index s) u rb (locks s) (config s)).
Proof.
  intros Hs Hk Hr.
  assert (Hback : forall k' x', <[k := e']> (em s) !! k' = Some x' -> exists x, em s !! k' = Some x /\ range x' = range x).
  { intros k' x' [[<- <-]|[_ H]]%lookup_insert_Some; eauto. }
  assert (Hfwd : forall k' x, em s !! k' = Some x -> exists x', <[k := e']> (em s) !! k' = Some x' /\ range x' = range x).
  { intros k' x Hx. destruct (decide (k = k')) as [<-|Hne]; [exists e'; rewrite lookup_insert_eq; by simplify_eq|].
    exists x. by rewrite lookup_insert_ne. }
  assert (Hal : forall l, allocated (<[k := e']> (em s)) l <-> allocated (em s) l).
  { intros l. unfold allocated. split.
    - intros (k' & x' & (x & Hx & Hrx)%Hback & Ho). exists k', x. by rewrite <- Hrx.
    - intros (k' & x & (x' & Hx & Hrx)%Hfwd & Ho). exists k', x'. by rewrite Hrx. }
  constructor; simpl.
  - apply (ci_fl s Hs).
  - constructor.
    + intros k' x' (x & Hx & Hrx)%Hback. unfold lbid0. rewrite Hrx. by apply (tr_key _ (ci_tree s Hs)).
    + intros k' x' (x & Hx & Hrx)%Hback. rewrite Hrx. by apply (tr_range _ (ci_tree s Hs) k').
    + intros k1 k2 x1' x2' (x1 & H1 & ->)%Hback (x2 & H2 & ->)%Hback. by apply (tr_apart _ (ci_tree s Hs) k1 k2).
  - intros l. rewrite Hal. apply (ci_excl s Hs).
  - intros l. rewrite Hal. apply (ci_cover s Hs).
  - apply (ci_mapped s Hs).
  - rewrite map_size_insert_Some by eauto. apply (ci_size s Hs).
Qed.

Lemma em_inv_update s k e e' u rb :
  em_inv s -> em s !! k = Some e -> same_place e e' ->
  em_inv (mk (<[k := e']> (em s)) (mem s) (index s) u rb (locks s) (config s)).
Proof.
  intros Hs Hk (Hr & Ho & Hp & Hd). constructor; simpl.
  - eapply core_inv_update; [apply (ei_core s Hs)|exact Hk|done].
  - pose proof (ei_index s Hs) as Hix. split; [|apply (io_nodup _ _ Hix)].
    intros r o p l. rewrite (io_mem _ _ Hix). destruct (decide (k = l)) as [<-|Hne].
    + rewrite lookup_insert_eq, Hk. split; intros (x & [= <-] & <- & <- & <-); eauto.
    + by rewrite lookup_insert_ne.
  - intros k' x [[<- <-]|[_ H]]%lookup_insert_Some; [rewrite Hd|]; by eapply (ei_root s Hs).
Qed.

Lemma log_update_run s k e f :
  em s !! k = Some e ->
  log_update k f s = (Val tt, mk (<[k := f e]> (em s)) (mem s) (index s) (undoRecords s)
                                (undoRecordsRBTree s ++ [(DEFAULT, e)]) (locks s) (config s)).
Proof. intros Hk. unfold log_update, deref, makeUndoRB, modify, mbind, M_bind. by rewrite Hk. Qed.

(** ** Creating extents *)
Lemma extent_size_eq w : 0 < w < 512 -> extent_size w = w * 1024 /\ extent_size w / 1024 = w.
Proof.
  intros Hw. unfold extent_size, getExtentRows, BLOCK_SIZE. rewrite u32_small by lia.
  replace (0x800000 * w) with (w * 1024 * 8192) by lia. rewrite Z.div_mul by lia. split; [done|]. by rewrite Z.div_mul.
Qed.

Lemma find_place_total s oid w root part :
  index_ok (index s) (em s) -> dbRootCount (config s) <> 0 -> exists pl, find_place oid w root part s = (Val pl, s).
Proof.
  intros Hix Hc. unfold find_place, mbind, M_bind. rewrite (idents2_run _ _ _ Hix). unfold gets.
  destruct (last_extent _) as [le|].
  - rewrite (second_scan_run _ _ _ _ _ _ Hix). destruct (Z.eqb_spec (dbRootCount (config s)) 0); [done|]. by eexists.
  - rewrite (high_empty_seg_run _ _ _ _ _ _ Hix). by eexists.
Qed.

(** The extent [_createColumnExtent_DBroot] makes. *)
Definition new_column (st w oid root : Z) (ty : ColDataType) (p sg off : Z) : EMEntry :=
  mkEM (mkRange st w) oid off 0 p sg root (u16 w) EXTENTUNAVAILABLE (empty_range ty w newCP).

Lemma createColumn_cases s oid w root ty part :
  em_inv s -> locks s = noLocks -> 0 < w < 512 -> 0 <= root -> dbRootCount (config s) <> 0 ->
  (exists st s1 p sg off, let e := new_column st w oid root ty p sg off in
     taken w st (set_locks wLocks s) s1 /\ find_place oid w root part s1 = (Val (p, sg, off), s1) /\
     createColumnExtent_DBroot oid w root ty part true s = (Val (st, w * 1024, (p, sg, off)), inserted e s1) /\
     em_inv (inserted e s1))
  \/ (createColumnExtent_DBroot oid w root ty part true s = (Exn out_of_space, set_locks wLocks s) /\
      forall r, r ∈ ranges (mem s) -> r_size r < w).
Proof.
  intros Hs Hl Hw Hroot Hc. destruct (extent_size_eq w Hw) as [Hsz Hsz'].
  unfold createColumnExtent_DBroot. rewrite (bind_Val _ _ _ _ _ (grab3_write s (ei_core s Hs) Hl)).
  rewrite Hsz', Hsz. unfold _createColumnExtent_DBroot.
  pose proof (em_inv_locks wLocks s Hs) as Hs0.
  destruct (getLBIDs_cases w (set_locks wLocks s) (ci_fl _ (ei_core _ Hs0)) ltac:(lia)) as [(st & s1 & Hget & Ht)|[Hget Hno]].
  - left. destruct (taken_inv _ _ _ _ Ht) as (Hem & Hix & Hcf & _).
    destruct (find_place_total s1 oid w root part) as [[[p sg] off] Hpl].
    { rewrite Hem, Hix. apply (ei_index s Hs). } { by rewrite Hcf. }
    exists st, s1, p, sg, off.
    destruct (create_inv w st _ s1 (new_column st w oid root ty p sg off) Hs0 ltac:(lia) Ht) as [Hins Hinv]; [done|done|].
    split_and!; try done. unfold mbind, M_bind. rewrite Hget, Hpl. unfold new_column in Hins. rewrite Hins. done.
  - right. split; [|done]. unfold mbind, M_bind. by rewrite Hget.
Qed.

(** Extents for a given segment file, and for dictionary stores. *)
Lemma createExact_cases s oid w root part seg ty :
  em_inv s -> locks s = noLocks -> 0 < w < 512 -> 0 <= root ->
  (exists st off s', createColumnExtentExactFile oid w root part seg ty s = (Val (st, w * 1024, off), s') /\
     em_inv s' /\ locks s' = wLocks /\ config s' = config s)
  \/ createColumnExtentExactFile oid w root part seg ty s = (Exn out_of_space, set_locks wLocks s).
Proof.
  intros Hs Hl Hw Hroot. destruct (extent_size_eq w Hw) as [Hsz Hsz'].
  unfold createColumnExtentExactFile. rewrite (bind_Val _ _ _ _ _ (grab3_write s (ei_core s Hs) Hl)).
  rewrite Hsz', Hsz. unfold _createColumnExtentExactFile. pose proof (em_inv_locks wLocks s Hs) as Hs0.
  destruct (getLBIDs_cases w (set_locks wLocks s) (ci_fl _ (ei_core _ Hs0)) ltac:(lia)) as [(st & s1 & Hget & Ht)|[Hget Hno]].
  - left. destruct (taken_inv _ _ _ _ Ht) as (Hem & Hix & Hcf & Hlk).
    assert (index_ok (index s1) (em s1)) as Hok by (rewrite Hem, Hix; apply (ei_index s Hs)).
    unfold mbind, M_bind. rewrite Hget, (idents3_run _ _ _ _ Hok).
    set (e := mkEM _ _ _ _ _ _ _ _ _ _).
    destruct (create_inv w st _ s1 e Hs0 ltac:(lia) Ht) as [Hins Hinv]; [done|done|]. rewrite Hins.
    eexists _, _, _. split; [done|]. split_and!; done.
  - right. unfold mbind, M_bind. by rewrite Hget.
Qed.

Lemma last_in_file_elem seg es le : last_in_file seg es = Some le -> le ∈ es.
Proof.
  unfold last_in_file. revert le.
  apply (foldl_keep _ (fun acc : Z * option EMEntry => forall le, acc.2 = Some le -> le ∈ es)); [|done].
  intros a e He Ha le. destruct (_ && _); [|apply Ha]. simpl. by intros [= <-].
Qed.

Lemma createDict_cases s oid root part seg :
  em_inv s -> locks s = noLocks -> 0 <= root ->
  (exists st s', createDictStoreExtent oid root part seg s = (Val (st, 8192), s') /\
     em_inv s' /\ locks s' = wLocks /\ config s' = config s)
  \/ createDictStoreExtent oid root part seg s = (Exn out_of_space, set_locks wLocks s).
Proof.
  intros Hs Hl Hroot. unfold createDictStoreExtent. rewrite (bind_Val _ _ _ _ _ (grab3_write s (ei_core s Hs) Hl)).
  change (extent_size DICT_COL_WIDTH) with 8192. change (8192 / 1024) with 8. unfold _createDictStoreExtent.
  pose proof (em_inv_locks wLocks s Hs) as Hs0.
  destruct (getLBIDs_cases 8 (set_locks wLocks s) (ci_fl _ (ei_core _ Hs0)) ltac:(lia)) as [(st & s1 & Hget & Ht)|[Hget Hno]].
  - left. destruct (taken_inv _ _ _ _ Ht) as (Hem & Hix & Hcf & Hlk).
    assert (index_ok (index s1) (em s1)) as Hok by (rewrite Hem, Hix; apply (ei_index s Hs)).
    unfold mbind, M_bind. rewrite Hget, (idents3_run _ _ _ _ Hok). 
    match goal with |- context [insert_extent ?x] => set (e := x) end.
    assert (range e = mkRange st 8) as Hr by (unfold e; by destruct (last_in_file _ _)).
    assert (0 <= dbRoot e) as He.
    { unfold e. destruct (last_in_file seg (at3 s1 root oid part)) as [le|] eqn:Hle; [|done]. simpl.
      apply last_in_file_elem in Hle as Hin.
      apply (elem_of_at3 _ _ _ _ _ Hok) in Hin as (k & Hk & <- & _). rewrite Hem in Hk. by apply (ei_root s Hs k). }
    destruct (create_inv 8 st _ s1 e Hs0 ltac:(lia) Ht Hr He) as [Hins Hinv]. rewrite Hins.
    eexists _, _. split; [done|]. split_and!; done.
  - right. unfold mbind, M_bind. by rewrite Hget.
Qed.

(** ** Deleting extents *)

(** Deleting a list of extents, the index untouched. *)
Lemma delete_list_core ks s :
  core_inv s -> NoDup ks -> (forall k, k ∈ ks -> is_Some (em s !! k)) ->
  wp (for_each ks (fun k => deleteExtent k false)) s (fun _ s' =>
    core_inv s' /\ index s' = index s /\ same_env s s' /\
    forall k, em s' !! k = if decide (k ∈ ks) then None else em s !! k).
Proof.
  intros Hs Hnd Hin.
  eapply wp_mono; [apply (wp_for_each (fun l s' => core_inv s' /\ index s' = index s /\ same_env s s' /\
    exists dn, ks = dn ++ l /\ forall k, em s' !! k = if decide (k ∈ dn) then None else em s !! k))|].
  - split_and!; try done. exists []. split; [done|]. intros k. by rewrite decide_False by set_solver.
  - intros k l s' (Hs' & Hix & [Hlk Hcf] & dn & Hks & Hem).
    assert (k ∉ dn) as Hk by (rewrite Hks, NoDup_app in Hnd; destruct Hnd as (_ & Hd & _); intros ?; apply (Hd k); set_solver).
    destruct (Hin k) as [e He]; [rewrite Hks; set_solver|].
    assert (em s' !! k = Some e) as He' by (by rewrite Hem, decide_False).
    eapply wp_mono; [by apply (deleteExtent_core k e)|]. intros _ s'' (Hs'' & Hem'' & Hix'' & [Hlk'' Hcf'']).
    split_and!; [done|congruence|split; congruence|]. exists (dn ++ [k]). split; [by rewrite <- app_assoc|].
    intros k'. rewrite Hem''. destruct (decide (k' = k)) as [->|Hne].
    + rewrite lookup_delete_eq, decide_True by set_solver. done.
    + rewrite lookup_delete_ne, Hem by done. do 2 case_decide; set_solver.
  - simpl. intros _ s' (Hs' & Hix & Henv & dn & Hks & Hem). rewrite app_nil_r in Hks. subst dn. done.
Qed.

(** One OID on one dbroot. *)
Definition delete_oid (r oid : Z) : M t unit :=
  its ← iterators2 r oid;
  for_each its (fun k => deleteExtent k false) ;;
  modify (fun s => set_index (index_deleteOID r oid (index s)) s).

Lemma delete_oid_spec r oid s :
  em_inv s ->
  wp (delete_oid r oid) s (fun _ s' => em_inv s' /\ same_env s s' /\
    forall k e, em s' !! k = Some e <-> em s !! k = Some e /\ ~ (dbRoot e = r /\ fileID e = oid)).
Proof.
  intros Hs. pose proof (ei_index s Hs) as Hix. unfold delete_oid. wp_step. eapply run_wp; [by apply iterators2_run|].
  wp_step. eapply wp_mono; [apply delete_list_core; [apply (ei_core s Hs)|by eapply io_nodup2|]|].
  { intros k (e & He & _)%(io_mem2 _ _ _ _ _ Hix). eauto. }
  intros _ s' (Hs' & Hix' & Henv & Hem). wp_step.
  assert (Hiff : forall k e, em s' !! k = Some e <-> em s !! k = Some e /\ ~ (dbRoot e = r /\ fileID e = oid)).
  { intros k e. rewrite Hem. case_decide as Hk; rewrite (io_mem2 _ _ _ _ _ Hix) in Hk.
    - destruct Hk as (e' & He' & Hd). split; [done|]. intros [He Hn]. destruct Hn. by simplify_eq.
    - split; [|tauto]. intros He. split; [done|]. intros Hd. apply Hk. eauto. }
  split_and!; [|by destruct Henv|exact Hiff]. constructor; simpl.
  - destruct Hs'. by constructor.
  - rewrite Hix'. apply (index_ok_shrink (index s) _ (em s)); [done|by intros k e [? _]%Hiff|].
    intros r' o' p. rewrite find3_deleteOID. case_decide as Hd.
    + destruct Hd as [-> ->]. exists (index_find3 r oid p (index s)). split; [by rewrite app_nil_r|].
      intros k e Hk Hr Ho Hp. rewrite (io_mem _ _ Hix), Hem. split.
      * intros _. rewrite decide_True; [done|]. apply (io_mem2 _ _ _ _ _ Hix). eauto.
      * eauto.
    + exists []. split; [done|]. intros k e Hk Hr Ho Hp. split; [set_solver|]. intros Hn.
      assert (em s' !! k = Some e); [|congruence]. apply Hiff. split; [done|].
      intros [? ?]. apply Hd. split; congruence.
  - intros k e [Hk _]%Hiff. by apply (ei_root s Hs k).
Qed.

Lemma wp_for_each_inv {A} (I : t -> Prop) (body : A -> M t unit) l s :
  I s -> (forall x s', x ∈ l -> I s' -> wp (body x) s' (fun _ => I)) -> wp (for_each l body) s (fun _ => I).
Proof.
  intros Hs Hb. eapply wp_mono; [apply (wp_for_each (fun l' s' => I s' /\ forall x, x ∈ l' -> x ∈ l))|].
  - done.
  - intros x l' s' [HI Hsub]. eapply wp_mono; [apply Hb; [apply Hsub; by left|done]|].
    intros u s'' HI'. split; [exact HI'|]. intros y Hy. apply Hsub. by right.
  - by intros _ s' [HI _].
Qed.

(** Every OID on every dbroot: exactly the extents of the others are left. *)
Lemma deleteOIDs_spec oids s :
  em_inv s -> locks s = noLocks ->
  wp (deleteOIDs oids) s (fun _ s' => em_inv s' /\ locks s' = wLocks /\ config s' = config s /\
    forall k e, em s' !! k = Some e <->
      em s !! k = Some e /\ ~ (dbRoot e ∈ allDbRoots (config s) /\ fileID e ∈ oids)).
Proof.
  intros Hs Hl. unfold deleteOIDs. wp_step. eapply run_wp; [apply grab3_write; [apply (ei_core s Hs)|done]|].
  wp_step. wp_step. simpl.
  eapply wp_mono; [apply (wp_for_each (fun l s' => em_inv s' /\ locks s' = wLocks /\ config s' = config s /\
    exists dn, allDbRoots (config s) = dn ++ l /\ forall k e, em s' !! k = Some e <->
      em s !! k = Some e /\ ~ (dbRoot e ∈ dn /\ fileID e ∈ oids)))|].
  - split_and!; [by apply em_inv_locks|done|done|]. exists []. split; [done|]. intros k e. simpl. set_solver.
  - intros r l s' (Hs' & Hl' & Hc' & dn & Hdn & Hem).
    eapply wp_mono; [apply (wp_for_each (fun ol s'' => em_inv s'' /\ locks s'' = wLocks /\ config s'' = config s /\
      exists od, oids = od ++ ol /\ forall k e, em s'' !! k = Some e <->
        em s' !! k = Some e /\ ~ (dbRoot e = r /\ fileID e ∈ od)))|].
    + split_and!; try done. exists []. split; [done|]. set_solver.
    + intros o ol s2 (Hs2 & Hl2 & Hc2 & od & Hod & Hem2). change (wp (delete_oid r o) s2 (fun _ s3 =>
        em_inv s3 /\ locks s3 = wLocks /\ config s3 = config s /\ exists od, oids = od ++ ol /\
        forall k e, em s3 !! k = Some e <-> em s' !! k = Some e /\ ~ (dbRoot e = r /\ fileID e ∈ od))).
      eapply wp_mono; [by apply delete_oid_spec|]. intros _ s3 (Hs3 & [Hl3 Hc3] & Hem3).
      split_and!; [done|congruence|congruence|]. exists (od ++ [o]). split; [by rewrite <- app_assoc|].
      intros k e. rewrite Hem3, Hem2. set_solver.
    + simpl. intros _ s2 (Hs2 & Hl2 & Hc2 & od & Hod & Hem2). rewrite app_nil_r in Hod. subst od.
      split_and!; try done. exists (dn ++ [r]). split; [by rewrite <- app_assoc|].
      intros k e. rewrite Hem2, Hem. set_solver.
  - simpl. intros _ s' (Hs' & Hl' & Hc' & dn & Hdn & Hem). rewrite app_nil_r in Hdn. subst dn. done.
Qed.

(** Every extent of a dbroot. *)
Lemma deleteDBRoot_spec root s :
  em_inv s -> locks s = noLocks ->
  wp (deleteDBRoot root) s (fun _ s' => em_inv s' /\ locks s' = wLocks /\ config s' = config s /\
    forall k e, em s' !! k = Some e <-> em s !! k = Some e /\ dbRoot e <> root).
Proof.
  intros Hs Hl. unfold deleteDBRoot. wp_step. eapply run_wp; [apply grab3_write; [apply (ei_core s Hs)|done]|].
  wp_step. wp_step. wp_step. simpl.
  eapply wp_mono; [apply (wp_for_each (fun l s' => em_inv s' /\ locks s' = wLocks /\ config s' = config s /\
    exists dn, keys (em s) = dn ++ l /\ forall k e, em s' !! k = Some e <->
      em s !! k = Some e /\ ~ (k ∈ dn /\ dbRoot e = root)))|].
  - split_and!; [by apply em_inv_locks|done|done|]. exists []. split; [done|]. set_solver.
  - intros k l s' (Hs' & Hl' & Hc' & dn & Hdn & Hem).
    assert (k ∉ dn) as Hk.
    { pose proof (NoDup_keys (em s)) as Hnd. rewrite Hdn, NoDup_app in Hnd. destruct Hnd as (_ & Hd & _).
      intros ?. apply (Hd k); set_solver. }
    assert (is_Some (em s !! k)) as [e He] by (apply elem_of_keys; rewrite Hdn; set_solver).
    assert (em s' !! k = Some e) as He' by (apply Hem; tauto).
    wp_step. eapply run_wp; [unfold deref; by rewrite He'|].
    destruct (Z.eqb_spec (dbRoot e) root) as [Hr|Hr].
    + eapply wp_mono; [by apply (deleteExtent_inv k e)|]. intros _ s2 (Hs2 & Hem2 & [Hl2 Hc2]).
      split_and!; [done|congruence|congruence|]. exists (dn ++ [k]). split; [by rewrite <- app_assoc|].
      intros k' e'. rewrite Hem2, lookup_delete_Some, Hem. destruct (decide (k' = k)) as [->|]; [|set_solver].
      split; [tauto|]. intros [He2 Hn]. simplify_eq. set_solver.
    + wp_step. split_and!; try done. exists (dn ++ [k]). split; [by rewrite <- app_assoc|].
      intros k' e'. rewrite Hem. destruct (decide (k' = k)) as [->|]; [|set_solver].
      split; intros [He2 _]; (split; [done|]); simplify_eq; tauto.
  - simpl. intros _ s' (Hs' & Hl' & Hc' & dn & Hdn & Hem). rewrite app_nil_r in Hdn. subst dn. wp_step. simpl.
    assert (Hiff : forall k e, em s' !! k = Some e <-> em s !! k = Some e /\ dbRoot e <> root).
    { intros k e. rewrite Hem. split; intros [He Hn]; (split; [done|]).
      - intros Hr. apply Hn. split; [|done]. apply elem_of_keys. eauto.
      - tauto. }
    split_and!; try done. constructor; simpl; [destruct (ei_core s' Hs'); by constructor|..].
    + pose proof (ei_index s' Hs') as Hix.
      assert (Hfind : forall r o p, index_find3 r o p (index_deleteDbRoot root (index s')) = index_find3 r o p (index s')).
      { intros r o p. rewrite !find3_layers. unfold L1, index_deleteDbRoot.
        destruct (decide (r = root)) as [->|]; [|by rewrite zget_zset_ne].
        assert (index_find3 root o p (index s') = []) as Hnil.
        { apply elem_of_nil_inv. intros k (e & He & Hr & _)%(io_mem _ _ Hix). by apply Hiff in He as [_ ?]. }
        rewrite find3_layers in Hnil. fold (L1 (index s') root). rewrite Hnil.
        destruct (zget (zset (index s') root ∅) root) as [os|] eqn:Hz; [|done].
        by apply zget_zset_Some in Hz as [(_ & -> & _)|[? _]]. }
      split; intros r o p; [intros l|]; rewrite Hfind; apply Hix.
    + by apply (ei_root s' Hs').
Qed.

End cmds.
End EmCmds.
