(* ===== verification/EmHwm.v ===== *)
(** * High water marks and rollback over the invariant *)

From S2P Require Import Prelude Undoable Vbbm ExtentMap ExtentOps ExtentHwm EmThms EmFree EmIndex EmOps EmPlace EmCmds.
From stdpp Require Import prelude gmap strings sorting.
Local Open Scope Z_scope.

Module EmHwm.
Import ExtentMap ExtentOps ExtentHwm EmThms EmFree EmIndex EmOps EmPlace EmCmds.

Section hwm.
Context {IO : IterOrder}.

(** ** Rollback of a column *)
Lemma same_place_reset h e : same_place e (reset h e).
Proof. done. Qed.

Lemma window_Val hwm e w : range_ok (range e) -> r_size (range e) < 2 ^ 22 -> exists w', window hwm e w = Val w'.
Proof.
  intros (Hp & _) Hsz. unfold window. destruct (fboHi w =? 0); [|eauto].
  rewrite u32_small by (unfold blocks; lia). destruct (Z.eqb_spec (blocks e) 0); [unfold blocks in *; lia|eauto].
Qed.

(** An extent of the list is kept, changed in place or deleted. *)
Lemma apply_action_spec k e a s :
  em_inv s -> em s !! k = Some e ->
  wp (apply_action k a) s (fun _ s' => em_inv s' /\ same_env s s' /\ forall j, j <> k -> em s' !! j = em s !! j).
Proof.
  intros Hs Hk. destruct a as [| |h]; simpl.
  - wp_step. split_and!; done.
  - eapply wp_mono; [by apply (deleteExtent_inv k e)|]. intros _ s' (Hs' & Hem & Henv). split_and!; try done.
    intros j Hj. by rewrite Hem, lookup_delete_ne.
  - eapply run_wp; [by apply log_update_run|]. split_and!; [|done|].
    + by eapply em_inv_update.
    + intros j Hj. simpl. by rewrite lookup_insert_ne.
Qed.

Lemma rollback_col_inv ks del part seg hwm : forall w s,
  em_inv s -> NoDup ks -> (forall k, k ∈ ks -> is_Some (em s !! k)) ->
  wp (rollback_col ks del part seg hwm w) s (fun _ s' => em_inv s' /\ same_env s s').
Proof.
  induction ks as [|k ks IH]; intros w s Hs Hnd Hin; [by apply wp_ret|].
  apply NoDup_cons in Hnd as [Hk Hnd]. destruct (Hin k) as [e He]; [by left|]. simpl.
  assert (Hrest : forall s', (forall j, j <> k -> em s' !! j = em s !! j) -> forall j, j ∈ ks -> is_Some (em s' !! j)).
  { intros s' H j Hj. rewrite H by (intros ->; done). apply Hin. by right. }
  wp_step. eapply run_wp; [unfold deref; by rewrite He|].
  destruct (status e =? EXTENTOUTOFSERVICE); [by apply IH; auto|]. destruct del.
  - wp_step. eapply wp_mono; [by apply (apply_action_spec k e Drop)|]. intros _ s' (Hs' & [Hl Hc] & Hem).
    eapply wp_mono; [apply IH; eauto|]. intros _ s'' [Hs'' [? ?]]. split; [done|]. split; congruence.
  - destruct (tr_range _ (ci_tree s (ei_core s Hs)) _ _ He) as [Hr Hsz].
    destruct (window_Val hwm e w Hr Hsz) as [w' Hw]. wp_step. eapply wp_lift; [exact Hw|].
    wp_step. eapply wp_mono; [by apply (apply_action_spec k e)|]. intros _ s' (Hs' & [Hl Hc] & Hem).
    eapply wp_mono; [apply IH; eauto|]. intros _ s'' [Hs'' [? ?]]. split; [done|]. split; congruence.
Qed.

Lemma rollbackColumn_inv oid del root part seg hwm s :
  em_inv s -> locks s = noLocks ->
  wp (rollbackColumnExtents_DBroot oid del root part seg hwm) s (fun _ s' =>
    em_inv s' /\ locks s' = wLocks /\ config s' = config s).
Proof.
  intros Hs Hl. unfold rollbackColumnExtents_DBroot. wp_step.
  eapply run_wp; [apply grab3_write; [apply (ei_core s Hs)|done]|].
  pose proof (ei_index s Hs) as Hix. wp_step. eapply run_wp; [by apply iterators2_run|].
  eapply wp_mono; [apply rollback_col_inv; [by apply em_inv_locks|by eapply io_nodup2|]|].
  - intros k (e & He & _)%(io_mem2 _ _ _ _ _ Hix). eauto.
  - intros _ s' [Hs' [? ?]]. done.
Qed.

(** ** The extents of a segment file *)

(** The keys listed for a partition over all dbroots, in the order of the scans. *)
Definition part_keys (s : t) (oid part : Z) : list Z :=
  allDbRoots (config s) ≫= fun r => index_find3 r oid part (index s).

Definition in_file (s : t) (oid part seg k : Z) (e : EMEntry) : Prop :=
  em s !! k = Some e /\ fileID e = oid /\ partitionNum e = part /\ segmentNum e = seg /\ dbRoot e ∈ allDbRoots (config s).

Lemma elem_part_keys s oid part k :
  index_ok (index s) (em s) -> k ∈ part_keys s oid part <->
  exists e, em s !! k = Some e /\ fileID e = oid /\ partitionNum e = part /\ dbRoot e ∈ allDbRoots (config s).
Proof.
  intros Hix. unfold part_keys. rewrite list_elem_of_bind. setoid_rewrite (io_mem _ _ Hix). split.
  - intros (r & (e & He & <- & <- & <-) & Hr). eauto.
  - intros (e & He & <- & <- & Hr). exists (dbRoot e). eauto 6.
Qed.

Definition scan_key (s : t) (seg : Z) (a : HwmScan) (k : Z) : HwmScan :=
  match em s !! k with Some e => set_scan seg k e a | None => a end.

Lemma set_scan_keys_run s seg ks : forall a,
  (forall k, k ∈ ks -> is_Some (em s !! k)) -> set_scan_keys seg ks a s = (Val (foldl (scan_key s seg) a ks), s).
Proof.
  induction ks as [|k ks IH]; intros a Hin; [done|]. destruct (Hin k) as [e He]; [by left|]. simpl.
  unfold mbind, M_bind, deref. rewrite He. unfold scan_key at 2. rewrite He. apply IH. intros j Hj. apply Hin. by right.
Qed.

Lemma set_scan_roots_run s oid part seg roots : forall a,
  index_ok (index s) (em s) ->
  set_scan_roots roots oid part seg a s =
  (Val (foldl (scan_key s seg) a (roots ≫= fun r => index_find3 r oid part (index s))), s).
Proof.
  induction roots as [|r roots IH]; intros a Hix; [done|]. simpl. unfold mbind, M_bind.
  rewrite (iterators3_run _ _ _ _ Hix). rewrite set_scan_keys_run.
  - rewrite IH by done. rewrite foldl_app. done.
  - intros k (e & He & _)%(io_mem _ _ Hix). eauto.
Qed.

(** The extent with the highest offset, and one that carries the HWM, among the
    extents [ks] of the file [seg]. *)
Definition last_of (s : t) (seg : Z) (ks : list Z) (a : HwmScan) : Prop :=
  match lastEm a with
  | Some k => k ∈ ks /\ (exists e, em s !! k = Some e /\ segmentNum e = seg /\ highestOffset a = blockOffset e) /\
      forall k' e', k' ∈ ks -> em s !! k' = Some e' -> segmentNum e' = seg -> blockOffset e' <= highestOffset a
  | None => highestOffset a = 0 /\ forall k e, k ∈ ks -> em s !! k = Some e -> segmentNum e <> seg
  end.

Definition prev_of (s : t) (seg : Z) (ks : list Z) (a : HwmScan) : Prop :=
  match prevEm a with
  | Some k => k ∈ ks /\ exists e, em s !! k = Some e /\ segmentNum e = seg /\ HWM e <> 0
  | None => forall k e, k ∈ ks -> em s !! k = Some e -> segmentNum e = seg -> HWM e = 0
  end.

Lemma scan_key_last s seg ks k a :
  (forall e, em s !! k = Some e -> 0 <= blockOffset e) ->
  last_of s seg ks a -> last_of s seg (ks ++ [k]) (scan_key s seg a k).
Proof.
  intros Hoff Ha. unfold scan_key, last_of in *. destruct (em s !! k) as [e|] eqn:He.
  2: { destruct (lastEm a) as [k0|].
    - destruct Ha as (H1 & H2 & H3). split_and!; [set_solver|done|].
      intros k' e' [Hk'| ->%list_elem_of_singleton]%elem_of_app; [eauto|naive_solver].
    - destruct Ha as [H1 H2]. split; [done|].
      intros k' e' [Hk'| ->%list_elem_of_singleton]%elem_of_app; [eauto|naive_solver]. }
  specialize (Hoff e eq_refl). unfold set_scan. destruct (Z.eqb_spec (segmentNum e) seg) as [Hs|Hs]; simpl.
  - destruct (Z.leb_spec (highestOffset a) (blockOffset e)).
    + split_and!; [set_solver|eauto|]. intros k' e' [Hk'| ->%list_elem_of_singleton]%elem_of_app He' Hs'; [|simplify_eq; lia].
      destruct (lastEm a) as [k0|]; [|by destruct (proj2 Ha k' e')]. destruct Ha as (_ & _ & H3).
      specialize (H3 k' e' Hk' He' Hs'). lia.
    + destruct (lastEm a) as [k0|]; [|lia]. destruct Ha as (H1 & H2 & H3). split_and!; [set_solver|done|].
      intros k' e' [Hk'| ->%list_elem_of_singleton]%elem_of_app He' Hs'; [eauto|simplify_eq; lia].
  - destruct (lastEm a) as [k0|].
    + destruct Ha as (H1 & H2 & H3). split_and!; [set_solver|done|].
      intros k' e' [Hk'| ->%list_elem_of_singleton]%elem_of_app; [eauto|naive_solver].
    + destruct Ha as [H1 H2]. split; [done|].
      intros k' e' [Hk'| ->%list_elem_of_singleton]%elem_of_app; [eauto|naive_solver].
Qed.

Lemma scan_key_prev s seg ks k a : prev_of s seg ks a -> prev_of s seg (ks ++ [k]) (scan_key s seg a k).
Proof.
  assert (forall a, (forall e, em s !! k = Some e -> segmentNum e = seg -> HWM e = 0) ->
    prev_of s seg ks a -> prev_of s seg (ks ++ [k]) a) as Hskip.
  { intros a0 Hz Ha. unfold prev_of in *. destruct (prevEm a0) as [k0|]; [set_solver|].
    intros k' e' [Hk'| ->%list_elem_of_singleton]%elem_of_app; eauto. }
  intros Ha. unfold scan_key. destruct (em s !! k) as [e|] eqn:He; [|by apply Hskip; [intros e' He'; by simplify_eq|]].
  unfold set_scan. destruct (Z.eqb_spec (segmentNum e) seg) as [Hs|Hs]; [|apply Hskip; [intros e' He' Hs'; by simplify_eq|done]].
  destruct (Z.eqb_spec (HWM e) 0) as [Hz|Hz]; simpl.
  - apply (Hskip (mkHwmScan _ (prevEm a) _)); [|done]. intros e' He'. by simplify_eq.
  - unfold prev_of. simpl. split; [set_solver|eauto].
Qed.

Lemma scan_key_spec s seg ks :
  (forall k e, k ∈ ks -> em s !! k = Some e -> 0 <= blockOffset e) ->
  let a := foldl (scan_key s seg) (mkHwmScan None None 0) ks in last_of s seg ks a /\ prev_of s seg ks a.
Proof.
  intros Hoff. induction ks as [|k ks IH] using rev_ind; [split; [split; [done|]|]; intros k e Hk; by apply not_elem_of_nil in Hk|].
  rewrite foldl_app. simpl. destruct IH as [H1 H2]; [intros k' e' Hk'; apply Hoff; set_solver|].
  split; [apply scan_key_last; [intros e; apply Hoff; set_solver|done]|by apply scan_key_prev].
Qed.

(** ** Setting and reading *)

(** At most one extent of a segment file carries a HWM. *)
Definition one_hwm (s : t) : Prop := forall k k' e e',
  em s !! k = Some e -> em s !! k' = Some e' -> fileID e = fileID e' -> partitionNum e = partitionNum e' ->
  segmentNum e = segmentNum e' -> HWM e <> 0 -> HWM e' <> 0 -> k = k'.

Definition past_end : exn := invalid_argument "ExtentMap::setLocalHWM(): new HWM is past the end of the file".
Definition bad_file : exn := invalid_argument "ExtentMap::setLocalHWM(): Bad OID/partition/segment argument".

(** The last extent [k] of the file gets the HWM and becomes available; the extent
    [p] that had one before loses it. *)
Definition hwm_set (s s' : t) (k : Z) (e : EMEntry) (h : Z) : Prop :=
  em s' !! k = Some (reset h e) /\
  forall j x', j <> k -> em s' !! j = Some x' ->
    exists x, em s !! j = Some x /\ (x' = x \/ x' = with_HWM 0 x) /\
      (fileID x = fileID e -> partitionNum x = partitionNum e -> segmentNum x = segmentNum e -> one_hwm s -> HWM x' = 0).

Lemma setLocalHWM_cases oid part seg h first s :
  em_inv s -> geo_ok s -> locks s = noLocks ->
  (exists k e s', setLocalHWM oid part seg h first true s = (Val tt, s') /\
     in_file s oid part seg k e /\ (forall k' e', in_file s oid part seg k' e' -> blockOffset e' <= blockOffset e) /\
     h < blockOffset e + blocks e /\ hwm_set s s' k e h /\ em_inv s' /\
     locks s' = mkLocks true true false 0 0 0 /\ config s' = config s /\ index s' = index s)
  \/ (exists k e, setLocalHWM oid part seg h first true s = (Exn past_end, set_locks (mkLocks true true false 0 0 0) s) /\
     in_file s oid part seg k e /\ (forall k' e', in_file s oid part seg k' e' -> blockOffset e' <= blockOffset e) /\
     blockOffset e + blocks e <= h)
  \/ (setLocalHWM oid part seg h first true s = (Exn bad_file, set_locks (mkLocks true true false 0 0 0) s) /\
     forall k e, ~ in_file s oid part seg k e).
Proof.
  intros Hs Hg Hl. pose proof (ei_index s Hs) as Hix.
  unfold setLocalHWM. rewrite (bind_Val _ _ _ _ _ (grab2_write s (ei_core s Hs) Hl)).
  set (s0 := set_locks _ s). assert (em_inv s0) as Hs0 by (by apply em_inv_locks).
  rewrite (bind_Val (gets _) _ s0 (allDbRoots (config s)) s0 eq_refl).
  rewrite (bind_Val _ _ _ _ _ (set_scan_roots_run s0 oid part seg (allDbRoots (config s)) _ Hix)).
  change (allDbRoots (config s) ≫= _) with (part_keys s oid part).
  destruct (scan_key_spec s seg (part_keys s oid part)) as [Hlast Hprev].
  { intros k e _ Hk. destruct (ge_ok s Hg k e Hk) as ((_ & ? & _) & _). done. }
  change (scan_key s0) with (scan_key s). set (a := foldl _ _ _) in *.
  assert (Hfile : forall k e, in_file s oid part seg k e <-> k ∈ part_keys s oid part /\ em s !! k = Some e /\ segmentNum e = seg).
  { intros k e. rewrite (elem_part_keys s oid part k Hix). unfold in_file. naive_solver congruence. }
  unfold last_of in Hlast. destruct (lastEm a) as [k|] eqn:Hk.
  2: { right; right. split; [done|]. intros k e (Hk' & He & Hs')%Hfile. by apply (proj2 Hlast k e). }
  destruct Hlast as (Hin & (e & He & Hseg & Hoff) & Hmax).
  assert (in_file s oid part seg k e) as Hfe by (by apply Hfile).
  assert (forall k' e', in_file s oid part seg k' e' -> blockOffset e' <= blockOffset e) as Hmax'.
  { intros k' e' (Hk' & He' & Hs')%Hfile. rewrite <- Hoff. eauto. }
  destruct (ge_fits s Hg k e He) as [Hfit _]. destruct (ge_ok s Hg k e He) as ((_ & Ho0 & _) & _).
  destruct (tr_range _ (ci_tree s (ei_core s Hs)) _ _ He) as [[Hrp _] Hrs].
  assert (deref k s0 = (Val e, s0)) as Hd by (unfold deref; simpl; by rewrite He).
  rewrite (bind_Val _ _ _ _ _ Hd), (u32_small (blocks e)) by (unfold blocks; lia).
  rewrite u32_small by (unfold blocks in *; lia).
  destruct (Z.leb_spec (blockOffset e + blocks e) h) as [Hpast|Hok]; [right; left; by exists k, e|].
  left. exists k, e. rewrite (bind_Val _ _ _ _ _ (log_update_run s0 k e (reset h) He)). set (s1 := mk _ _ _ _ _ _ _).
  assert (em_inv s1) as Hs1 by (by apply (em_inv_update s0 k e)).
  assert (He1 : em s1 !! k = Some (reset h e)) by (unfold s1; simpl; by rewrite lookup_insert_eq).
  assert (Hne1 : forall j, j <> k -> em s1 !! j = em s !! j) by (intros j Hj; unfold s1; simpl; by rewrite lookup_insert_ne).
  assert (Hother : forall p x, prevEm a = Some p -> em s !! p = Some x -> forall j y, j <> p -> em s !! j = Some y ->
    fileID y = fileID e -> partitionNum y = partitionNum e -> segmentNum y = segmentNum e -> one_hwm s -> HWM y = 0).
  { intros p x Hp Hx j y Hj Hy Hyo Hyp Hys Hone. destruct (decide (HWM y = 0)) as [|Hz]; [done|]. destruct Hj.
    unfold prev_of in Hprev. rewrite Hp in Hprev. destruct Hprev as (Hpk & x0 & Hx0 & Hxs & Hxz).
    assert (x0 = x) as -> by congruence.
    destruct (proj2 (Hfile p x)) as (_ & Hxo & Hxp & _ & _); [done|].
    destruct Hfe as (_ & Heo & Hep & _ & _). apply (Hone j p y x); congruence. }
  destruct (prevEm a) as [p|] eqn:Hp.
  - destruct (Z.eqb_spec p k) as [->|Hpk]; simpl.
    + exists s1. split_and!; try done. split; [done|]. intros j x' Hj Hx'. rewrite Hne1 in Hx' by done. exists x'. split_and!; [done|by left|].
      intros. by eapply (Hother k e); eauto.
    + assert (exists x, em s !! p = Some x) as [x Hx].
      { unfold prev_of in Hprev. rewrite Hp in Hprev. destruct Hprev as (_ & x & Hx & _). eauto. }
      assert (em s1 !! p = Some x) as Hx1 by (by rewrite Hne1). rewrite (log_update_run s1 p x _ Hx1). eexists. split_and!; try done.
      * split; [simpl; by rewrite lookup_insert_ne|]. intros j x' Hj Hx'. simpl in Hx'.
        destruct (decide (j = p)) as [->|Hjp].
        -- rewrite lookup_insert_eq in Hx'. simplify_eq. exists x. split_and!; [done|by right|done].
        -- rewrite lookup_insert_ne, lookup_insert_ne in Hx' by done. exists x'. split_and!; [done|by left|].
           intros. by eapply (Hother p x); eauto.
      * by apply (em_inv_update s1 p x).
  - exists s1. split_and!; try done. split; [done|]. intros j x' Hj Hx'. rewrite Hne1 in Hx' by done. exists x'. split_and!; [done|by left|].
    intros Ho Hpt Hsg _. unfold prev_of in Hprev. rewrite Hp in Hprev.
    destruct Hfe as (_ & Heo & Hep & Hes & Her). destruct (decide (HWM x' = 0)) as [|Hz]; [done|].
    destruct (ge_file s Hg j k x' e) as [Hr _]; [done..|].
    apply (Hprev j x'); [|done|congruence]. apply (elem_part_keys s oid part j Hix). exists x'. split_and!; congruence.
Qed.

(** [getLocalHWM] looks at the extents of the file in the same order. *)
Lemma local_hwm_app seg es1 es2 st :
  local_hwm seg (es1 ++ es2) st = match local_hwm seg es1 st with inl x => inl x | inr st' => local_hwm seg es2 st' end.
Proof.
  revert st. induction es1 as [|e es1 IH]; intros st; [done|]. simpl.
  destruct (segmentNum e =? seg); [destruct (negb _); [done|]|]; apply IH.
Qed.

Definition hwm_result (r : Z * Z + option Z) : option (Z * Z) :=
  match r with inl x => Some x | inr st => (fun x => (0, x)) <$> st end.

Lemma local_hwm_roots_run s oid part seg roots : forall st,
  index_ok (index s) (em s) ->
  local_hwm_roots roots oid part seg st s =
  (Val (hwm_result (local_hwm seg (roots ≫= fun r => at3 s r oid part) st)), s).
Proof.
  induction roots as [|r roots IH]; intros st Hix; [done|]. simpl. unfold mbind, M_bind at 1.
  rewrite (idents3_run _ _ _ _ Hix), local_hwm_app. destruct (local_hwm seg (at3 s r oid part) st); [done|].
  by apply IH.
Qed.

Lemma local_hwm_spec seg es : forall st,
  match local_hwm seg es st with
  | inl (h, x) => exists e, e ∈ es /\ segmentNum e = seg /\ HWM e = h /\ h <> 0 /\ status e = x
  | inr st' => (forall e, e ∈ es -> segmentNum e = seg -> HWM e = 0) /\
      (st' = None <-> st = None /\ forall e, e ∈ es -> segmentNum e <> seg)
  end.
Proof.
  induction es as [|e es IH]; intros st; simpl.
  { split; [set_solver|]. split; [intros ->; set_solver|by intros []]. }
  destruct (Z.eqb_spec (segmentNum e) seg) as [Hs|Hs].
  - destruct (Z.eqb_spec (HWM e) 0) as [Hz|Hz]; simpl; [|exists e; split_and!; [by left|done..]].
    specialize (IH (Some (status e))). destruct (local_hwm seg es (Some (status e))) as [[h x]|st'].
    + destruct IH as (e' & He' & H). exists e'. split; [by right|done].
    + destruct IH as [H1 H2]. split; [intros e' [->|He']%elem_of_cons; eauto|]. rewrite H2. split; [naive_solver|].
      intros [_ H]. by destruct (H e ltac:(by left)).
  - specialize (IH st). destruct (local_hwm seg es st) as [[h x]|st'].
    + destruct IH as (e' & He' & H). exists e'. split; [by right|done].
    + destruct IH as [H1 H2]. split; [intros e' [->|He']%elem_of_cons; [done|eauto]|]. rewrite H2. set_solver.
Qed.

(** If the file's only HWM is [h] (or [h] is 0 and there is none), that is what is
    read. *)
Lemma getLocalHWM_run oid part seg h s k e :
  em_inv s -> locks s = noLocks -> 0 <= oid -> in_file s oid part seg k e -> HWM e = h ->
  (forall k' e', k' <> k -> in_file s oid part seg k' e' -> HWM e' = 0) ->
  exists st, getLocalHWM oid part seg s = (Val (h, st), s) /\ (h <> 0 -> st = status e).
Proof.
  intros Hs Hl Ho Hf Hh Hz. pose proof (ei_index s Hs) as Hix.
  unfold getLocalHWM. destruct (Z.ltb_spec oid 0); [lia|].
  rewrite (bind_Val _ _ _ _ _ (grab2_read s (ei_core s Hs) Hl)). set (s0 := set_locks _ s).
  rewrite (bind_Val (gets _) _ s0 (allDbRoots (config s)) s0 eq_refl).
  rewrite (bind_Val _ _ _ _ _ (local_hwm_roots_run s0 oid part seg (allDbRoots (config s)) None Hix)).
  rewrite (bind_Val _ _ _ _ _ (release2_read s)), (set_noLocks s Hl).
  set (es := allDbRoots (config s) ≫= _).
  assert (Hes : forall e', e' ∈ es /\ segmentNum e' = seg <-> exists k', in_file s oid part seg k' e').
  { intros e'. unfold es. rewrite list_elem_of_bind. setoid_rewrite (elem_of_at3 s0 _ _ _ _ Hix). split.
    - intros [(r & (k' & Hk' & <- & <- & <-) & Hr) Hsg]. by exists k'.
    - intros (k' & Hk' & <- & <- & <- & Hr). split; [|done]. exists (dbRoot e'). split; [by exists k'|done]. }
  pose proof (local_hwm_spec seg es None) as Hspec. destruct (local_hwm seg es None) as [[h' x]|st]; simpl.
  - destruct Hspec as (e' & He' & Hsg & Hh' & Hn & Hst). destruct (proj1 (Hes e')) as [k' Hk']; [done|].
    destruct (decide (k' = k)) as [->|Hne]; [|by rewrite (Hz k' e' Hne Hk') in Hh'].
    destruct Hk' as [Hk' _], Hf as [Hf _]. assert (e' = e) as -> by congruence. exists x. rewrite <- Hh, Hh'. done.
  - destruct Hspec as [Hall Hnone]. destruct (proj2 (Hes e)) as [Hin Hsg]; [eauto|].
    rewrite (Hall e Hin Hsg) in Hh. subst h. destruct st as [x|]; simpl; [by exists x|].
    destruct (proj1 Hnone eq_refl) as [_ Hn]. by destruct (Hn e Hin).
Qed.

End hwm.
End EmHwm.
