(* ===== verification/EmClaims.v ===== *)
(** * The extent map: the properties

    The LBID space and the index stay consistent under every sequence of commands;
    new extents never share blocks or LBIDs with others; lookups are exact and
    inverse to each other; high water marks read back; creating is undone exactly. *)

From S2P Require Import Prelude Undoable Vbbm ExtentMap ExtentOps ExtentHwm EmThms EmFree EmIndex EmOps EmPlace EmCmds EmHwm.
From stdpp Require Import prelude gmap strings sorting.
Local Open Scope Z_scope.

Module EmClaims.
Import ExtentMap ExtentOps ExtentHwm EmThms EmFree EmIndex EmOps EmPlace EmCmds EmHwm.

(** ** Commands *)
Inductive Cmd :=
| CreateColumn (oid width root : Z) (ty : ColDataType) (part : Z)
| CreateExact (oid width root part seg : Z) (ty : ColDataType)
| CreateDict (oid root part seg : Z)
| DeleteOIDs (oids : list Z)
| DeleteDBRoot (root : Z)
| Rollback (oid : Z) (deleteAll : bool) (root part seg hwm : Z).

Section claims.
Context {IO : IterOrder}.

Definition drop {A} (m : M t A) : M t unit := m ;; mret tt.

Definition op_of (c : Cmd) : M t unit :=
  match c with
  | CreateColumn oid w root ty part => drop (createColumnExtent_DBroot oid w root ty part true)
  | CreateExact oid w root part seg ty => drop (createColumnExtentExactFile oid w root part seg ty)
  | CreateDict oid root part seg => drop (createDictStoreExtent oid root part seg)
  | DeleteOIDs oids => deleteOIDs oids
  | DeleteDBRoot root => deleteDBRoot root
  | Rollback oid del root part seg hwm => rollbackColumnExtents_DBroot oid del root part seg hwm
  end.

(** A command that returns is confirmed, one that throws is undone. *)
Definition run_cmd (c : Cmd) : M t (option exn) := fun s =>
  match op_of c s with
  | (Val _, s') => (confirmChanges ;; mret None) s'
  | (Exn e, s') => (undoChanges ;; mret (Some e)) s'
  | (Fault f, s') => (Fault f, s')
  end.

Fixpoint run_cmds (cs : list Cmd) : M t (list (option exn)) :=
  match cs with
  | [] => mret []
  | c :: cs' => r ← run_cmd c; rs ← run_cmds cs'; mret (r :: rs)
  end.

(** Column widths are below 512 bytes. *)
Definition cmd_ok (c : Cmd) : Prop :=
  match c with
  | CreateColumn _ w root _ _ | CreateExact _ w root _ _ _ => 0 < w < 512 /\ 0 <= root
  | CreateDict _ root _ _ => 0 <= root
  | _ => True
  end.

(** What holds between commands. *)
Definition ready (s : t) : Prop := idle s /\ em_inv s.

Definition quiet (s : t) : Prop := emReads (locks s) = 0 /\ ixReads (locks s) = 0 /\ flReads (locks s) = 0.

Lemma confirm_ready s : em_inv s -> quiet s ->
  exists s', (confirmChanges ;; mret (None : option exn)) s = (Val None, s') /\ ready s' /\ config s' = config s /\ em s' = em s.
Proof.
  intros Hs (H1 & H2 & H3). rewrite (bind_Val _ _ _ _ _ (confirm_run s H1 H2 H3)). eexists. split; [done|].
  split; [|done]. split; [done|]. by apply (em_inv_same s).
Qed.

(** Nothing was logged: undoing only gives the locks back. *)
Lemma undo_quiet x s : ready s -> quiet (set_locks x s) -> undoChanges (set_locks x s) = (Val tt, s).
Proof.
  intros [[Hl Hu Hr] Hs] (H1 & H2 & H3).
  destruct (finishChanges_run x s) as (y & Hf & Hy). simpl in H1, H2, H3. rewrite (Hy H1 H2 H3) in Hf.
  rewrite set_noLocks in Hf by done. unfold undoChanges, undoImages, undoChangesRBTree, modify, mbind, M_bind.
  destruct s as [m h ix u rb lk cf]. simpl in *. subst u rb lk. exact Hf.
Qed.

Lemma undo_nothing x (e : exn) s : ready s -> quiet (set_locks x s) ->
  exists s', (undoChanges ;; mret (Some e)) (set_locks x s) = (Val (Some e), s') /\ ready s' /\ config s' = config s /\ em s' = em s.
Proof. intros Hs Hq. exists s. by rewrite (bind_Val _ _ _ _ _ (undo_quiet x s Hs Hq)). Qed.

Lemma run_cmd_Val c s s' :
  op_of c s = (Val tt, s') -> em_inv s' -> quiet s' -> config s' = config s ->
  wp (run_cmd c) s (fun r s'' => r = None /\ ready s'' /\ config s'' = config s /\ em s'' = em s').
Proof.
  intros Hop Hs Hq Hc. destruct (confirm_ready s' Hs Hq) as (s2 & Hrun & Hr & Hc2 & Hem).
  unfold wp, run_cmd. rewrite Hop, Hrun. split_and!; try done. congruence.
Qed.

Lemma run_cmd_Exn c e s :
  ready s -> op_of c s = (Exn e, set_locks wLocks s) ->
  wp (run_cmd c) s (fun r s'' => r = Some e /\ ready s'' /\ config s'' = config s /\ em s'' = em s).
Proof.
  intros Hs Hop. destruct (undo_nothing wLocks e s Hs) as (s2 & Hrun & Hr & Hc2 & Hem); [done|].
  unfold wp, run_cmd. by rewrite Hop, Hrun.
Qed.

Lemma wp_op c s (Q : t -> Prop) : wp (op_of c) s (fun _ => Q) -> exists s', op_of c s = (Val tt, s') /\ Q s'.
Proof. intros ([] & s' & Hrun & HQ)%wp_run. eauto. Qed.

Lemma drop_Val {A} (m : M t A) s a s' : m s = (Val a, s') -> drop m s = (Val tt, s').
Proof. intros H. unfold drop, mbind, M_bind. by rewrite H. Qed.

Lemma drop_Exn {A} (m : M t A) s e s' : m s = (Exn e, s') -> drop m s = (Exn e, s').
Proof. intros H. unfold drop, mbind, M_bind. by rewrite H. Qed.

Lemma run_cmd_ready c s :
  ready s -> cmd_ok c -> dbRootCount (config s) <> 0 ->
  wp (run_cmd c) s (fun r s' => ready s' /\ config s' = config s /\ (r = None \/ r = Some out_of_space /\ em s' = em s)).
Proof.
  intros Hr Hc Hn. pose proof Hr as [[Hl _ _] Hs].
  assert (Hval : forall s', op_of c s = (Val tt, s') -> em_inv s' -> locks s' = wLocks -> config s' = config s ->
    wp (run_cmd c) s (fun r s' => ready s' /\ config s' = config s /\ (r = None \/ r = Some out_of_space /\ em s' = em s))).
  { intros s' Hop Hs' Hl' Hc'. eapply wp_mono; [apply (run_cmd_Val c s s'); try done; unfold quiet; by rewrite Hl'|].
    intros r s'' (-> & ? & ? & _). auto. }
  assert (Hexn : op_of c s = (Exn out_of_space, set_locks wLocks s) ->
    wp (run_cmd c) s (fun r s' => ready s' /\ config s' = config s /\ (r = None \/ r = Some out_of_space /\ em s' = em s))).
  { intros Hop. eapply wp_mono; [by apply run_cmd_Exn|]. intros r s'' (-> & ? & ? & ?). auto. }
  destruct c as [oid w root ty part|oid w root part seg ty|oid root part seg|oids|root|oid del root part seg hwm]; simpl in Hc.
  - destruct Hc as [Hw Hroot].
    destruct (createColumn_cases s oid w root ty part) as [(st & s1 & p & sg & off & Ht & _ & Hrun & Hinv)|[Hrun _]]; try done.
    + destruct (taken_inv _ _ _ _ Ht) as (_ & _ & Hcf & Hlk). apply (Hval _ (drop_Val _ _ _ _ Hrun)); done.
    + by apply Hexn, drop_Exn.
  - destruct Hc as [Hw Hroot].
    destruct (createExact_cases s oid w root part seg ty) as [(st & off & s1 & Hrun & Hinv & Hlk & Hcf)|Hrun]; try done.
    + by apply (Hval _ (drop_Val _ _ _ _ Hrun)).
    + by apply Hexn, drop_Exn.
  - destruct (createDict_cases s oid root part seg) as [(st & s1 & Hrun & Hinv & Hlk & Hcf)|Hrun]; try done.
    + by apply (Hval _ (drop_Val _ _ _ _ Hrun)).
    + by apply Hexn, drop_Exn.
  - destruct (wp_op (DeleteOIDs oids) s _ (deleteOIDs_spec oids s Hs Hl)) as (s' & Hrun & ? & ? & ? & _). by apply (Hval s').
  - destruct (wp_op (DeleteDBRoot root) s _ (deleteDBRoot_spec root s Hs Hl)) as (s' & Hrun & ? & ? & ? & _). by apply (Hval s').
  - destruct (wp_op (Rollback oid del root part seg hwm) s _ (rollbackColumn_inv oid del root part seg hwm s Hs Hl))
      as (s' & Hrun & ? & ? & ?). by apply (Hval s').
Qed.

(** C3. However many commands a worker runs - creating column and dictionary
    extents (of column widths under 512 and on dbroot numbers that are not negative),
    deleting OIDs and dbroots, rolling columns back - with at least one dbroot
    configured, none of them faults,
    the only exception is running out of LBIDs, and afterwards every LBID lies in
    exactly one extent or in exactly one range of the consolidated free list, and
    the index lists exactly the extents of the tree. *)
Theorem em_space_invariant cs s :
  ready s -> Forall cmd_ok cs -> dbRootCount (config s) <> 0 ->
  wp (run_cmds cs) s (fun rs s' => idle s' /\ em_inv s' /\ Forall (fun r => r = None \/ r = Some out_of_space) rs).
Proof.
  revert s. induction cs as [|c cs IH]; intros s Hs Hcs Hn.
  { apply wp_ret. destruct Hs. done. }
  apply Forall_cons in Hcs as [Hc Hcs]. simpl. wp_step. eapply wp_mono; [by apply run_cmd_ready|].
  intros r s' (Hs' & Hcf & Hr). wp_step. eapply wp_mono; [apply IH; [done|done|by rewrite Hcf]|].
  intros rs s'' (? & ? & ?). wp_step. split_and!; try done. constructor; [|done]. naive_solver.
Qed.

(** ** Creating a column extent *)

(** C4. [createColumnExtent_DBroot] takes its LBIDs from the free list and gives the
    new extent a partition, a segment file and a block offset at which no extent of
    the OID holds blocks, in a file of its dbroot or a new one - or throws, and then
    no free range is large enough; with the new extent no two extents overlap in a
    segment file.  Before the call the extents of a segment file do not overlap, lie on
    one dbroot and are of one size, the dbroot is configured, and the partition, segment
    and block numbers of the OID have room for one more extent in their types. *)
Theorem em_create_place oid w root ty part s :
  ready s -> geo_ok s -> room oid w s -> 0 < w < 512 -> 0 <= root -> root ∈ allDbRoots (config s) ->
  0 <= part < 2 ^ 32 -> dbRootCount (config s) <> 0 ->
  (exists st p sg off s',
     createColumnExtent_DBroot oid w root ty part true s = (Val (st, w * 1024, (p, sg, off)), s') /\
     (forall l, st <= l < st + w * 1024 -> free (mem s) l) /\
     fresh s oid root p sg off w /\ geo_ok s' /\
     em s' = <[st := new_column st w oid root ty p sg off]> (em s))
  \/ (createColumnExtent_DBroot oid w root ty part true s = (Exn out_of_space, set_locks wLocks s) /\
      forall r, r ∈ ranges (mem s) -> r_size r < w).
Proof.
  intros [[Hl _ _] Hs] Hg Hroom Hw Hroot Hin Hpart Hn.
  destruct (createColumn_cases s oid w root ty part) as [(st & s1 & p & sg & off & Ht & Hpl & Hrun & Hinv)|[Hrun Hno]];
    try done; [left|by right].
  destruct (taken_inv _ _ _ _ Ht) as (Hem & Hix & Hcf & _).
  destruct (find_place_spec s1 oid w root w part) as (p' & sg' & off' & Hpl' & Hfresh & Hfits);
    [rewrite Hem, Hix; apply (ei_index s Hs)|by apply (geo_same s)|unfold room; by rewrite Hem|lia|done|by rewrite Hcf|].
  assert ((p', sg', off') = (p, sg, off)) as [= -> -> ->] by congruence.
  exists st, p, sg, off, (inserted (new_column st w oid root ty p sg off) s1).
  assert (em (inserted (new_column st w oid root ty p sg off) s1) = <[st := new_column st w oid root ty p sg off]> (em s))
    as Hem' by (simpl; by rewrite Hem).
  assert (fresh s oid root p sg off w) as Hfresh' by (unfold fresh in *; by rewrite Hem in Hfresh).
  assert (em s !! st = None) as Hnew by (apply (taken_new w st (set_locks wLocks s) s1); [apply core_inv_locks, (ei_core s Hs)|lia|done]).
  split_and!; try done.
  - exact (tk_was _ _ _ _ Ht).
  - eapply (geo_insert s _ st w oid root p sg off (new_column st w oid root ty p sg off)); try done; lia.
Qed.

(** ** Lookups *)
Definition place_of (e : EMEntry) (l : Z) : Place :=
  mkPlace (fileID e) (dbRoot e) (partitionNum e) (segmentNum e) (blockOffset e + (l - lbid0 e)).

Lemma lookup_owner k e l s :
  em_inv s -> locks s = noLocks -> em s !! k = Some e -> owns (range e) l ->
  lookup l s = (Val (Some (k, k + blocks e - 1)), s).
Proof.
  intros Hs Hl Hk Ho. pose proof (ci_tree s (ei_core s Hs)) as Ht. unfold lookup.
  rewrite (bind_Val _ _ _ _ _ (grab2_read s (ei_core s Hs) Hl)). set (s0 := set_locks _ s).
  rewrite (bind_Val (gets _) _ s0 (Some k) s0) by (unfold gets; simpl; by rewrite (findByLBID_owner _ _ _ _ Ht Hk Ho)).
  rewrite (bind_Val (deref k) _ s0 e s0) by (unfold deref; simpl; by rewrite Hk).
  rewrite (bind_Val _ _ _ _ _ (release2_read s)), (set_noLocks s Hl), (tr_key _ Ht _ _ Hk). done.
Qed.

Lemma lookupLocal_owner k e l s :
  em_inv s -> geo_ok s -> locks s = noLocks -> em s !! k = Some e -> owns (range e) l ->
  lookupLocal l s = (Val (Some (place_of e l)), s).
Proof.
  intros Hs Hg Hl Hk Ho. pose proof (ci_tree s (ei_core s Hs)) as Ht.
  destruct (tr_range _ Ht _ _ Hk) as [(_ & _ & H0 & _) _]. destruct (ge_fits s Hg k e Hk) as [Hf _].
  destruct (ge_ok s Hg k e Hk) as ((_ & Hb & _) & _).
  unfold lookupLocal. destruct (Z.ltb_spec l 0); [unfold owns in Ho; lia|].
  rewrite (bind_Val _ _ _ _ _ (grab2_read s (ei_core s Hs) Hl)). set (s0 := set_locks _ s).
  rewrite (bind_Val (gets _) _ s0 (Some k) s0) by (unfold gets; simpl; by rewrite (findByLBID_owner _ _ _ _ Ht Hk Ho)).
  rewrite (bind_Val (deref k) _ s0 e s0) by (unfold deref; simpl; by rewrite Hk).
  rewrite (bind_Val _ _ _ _ _ (release2_read s)), (set_noLocks s Hl).
  rewrite u32_small by (unfold owns, lbid0, blocks in *; lia). done.
Qed.

Lemma first_such_Some f es e : first_such f es = Some e -> e ∈ es /\ f e = true.
Proof.
  induction es as [|x es IH]; [done|]. simpl. destruct (f x) eqn:Hf; [intros [= <-]; split; [by left|done]|].
  intros [? ?]%IH. split; [by right|done].
Qed.

Lemma first_such_unique f es e :
  e ∈ es -> f e = true -> (forall x, x ∈ es -> f x = true -> x = e) -> first_such f es = Some e.
Proof.
  induction es as [|x es IH]; intros He Hf Hu; [set_solver|]. simpl. destruct (f x) eqn:Hx.
  - f_equal. apply Hu; [by left|done].
  - apply elem_of_cons in He as [->|He]; [congruence|]. apply IH; [done|done|]. intros y Hy. apply Hu. by right.
Qed.

(** Block [fbo] of file [(part, seg)] lies in [e]. *)
Definition holds (e : EMEntry) (seg fbo : Z) : Prop :=
  segmentNum e = seg /\ blockOffset e <= fbo < blockOffset e + blocks e.

Lemma holds_unique s k k' e e' seg fbo :
  geo_ok s -> em s !! k = Some e -> em s !! k' = Some e' -> fileID e = fileID e' -> partitionNum e = partitionNum e' ->
  holds e seg fbo -> holds e' seg fbo -> k = k'.
Proof.
  intros Hg Hk Hk' Ho Hp [Hs Hb] [Hs' Hb']. destruct (decide (k = k')) as [|Hne]; [done|].
  destruct (ge_file s Hg k k' e e' Hk Hk' Hne Ho Hp) as [_ ?]; [congruence|lia].
Qed.

Lemma lookupLocal_DBroot_run oid root part seg fbo s :
  em_inv s -> locks s = noLocks -> 0 <= oid ->
  lookupLocal_DBroot oid root part seg fbo s =
  (Val ((fun e => lbid0 e + (fbo - blockOffset e)) <$>
        first_such (fun e => (segmentNum e =? seg) && (blockOffset e <=? fbo) && (fbo <=? blockOffset e + blocks e - 1))
          (at3 s root oid part)), s).
Proof.
  intros Hs Hl Ho. unfold lookupLocal_DBroot. destruct (Z.ltb_spec oid 0); [lia|].
  rewrite (bind_Val _ _ _ _ _ (grab2_read s (ei_core s Hs) Hl)).
  assert (index_ok (index s) (em s)) as Hix by apply (ei_index s Hs).
  rewrite (bind_Val _ _ _ _ _ (idents3_run (set_locks _ s) root oid part Hix)).
  rewrite (bind_Val _ _ _ _ _ (release2_read s)), (set_noLocks s Hl). done.
Qed.

Lemma holds_bool e seg fbo :
  (segmentNum e =? seg) && (blockOffset e <=? fbo) && (fbo <=? blockOffset e + blocks e - 1) = true <-> holds e seg fbo.
Proof. unfold holds. zbool; split; try done; lia. Qed.

(** C32. Going from an LBID to its file and block and back: the lookup by LBID gives
    the place of an allocated LBID exactly when the lookup by place gives that LBID. *)
Theorem em_locate_inverse oid root part seg fbo l s :
  ready s -> geo_ok s -> 0 <= oid -> allocated (em s) l ->
  lookupLocal l s = (Val (Some (mkPlace oid root part seg fbo)), s) <->
  lookupLocal_DBroot oid root part seg fbo s = (Val (Some l), s).
Proof.
  intros [[Hl _ _] Hs] Hg Ho (k & e & Hk & Hown). pose proof (ei_index s Hs) as Hix.
  pose proof (ci_tree s (ei_core s Hs)) as Ht.
  rewrite (lookupLocal_owner k e l s Hs Hg Hl Hk Hown), (lookupLocal_DBroot_run _ _ _ _ _ s Hs Hl Ho). split.
  - intros [= <- <- <- <- <-]. rewrite (first_such_unique _ _ e).
    + simpl. do 3 f_equal. lia.
    + apply (elem_of_at3 _ _ _ _ _ Hix). eauto.
    + apply holds_bool. unfold holds, owns, lbid0, blocks in *. lia.
    + intros e' (k' & Hk' & _ & Hf' & Hp')%(elem_of_at3 _ _ _ _ _ Hix) Hh%holds_bool.
      assert (k' = k) as ->; [|congruence].
      apply (holds_unique s k' k e' e (segmentNum e) (blockOffset e + (l - lbid0 e)) Hg Hk' Hk Hf' Hp' Hh).
      unfold holds, owns, lbid0, blocks in *. lia.
  - destruct (first_such _ _) as [e'|] eqn:Hf; [|done]. intros [= Hl'].
    apply first_such_Some in Hf as [(k' & Hk' & Hr' & Ho' & Hp')%(elem_of_at3 _ _ _ _ _ Hix) [Hsg Hb]%holds_bool].
    assert (k' = k) as ->.
    { destruct (decide (k' = k)) as [|Hne]; [done|]. pose proof (tr_apart _ Ht _ _ _ _ Hk' Hk Hne) as Ha.
      unfold apart, owns, lbid0, blocks in *. lia. }
    assert (e' = e) as -> by congruence. subst. unfold place_of. do 4 f_equal. lia.
Qed.

(** The lookup of an allocated LBID returns the first and the last LBID of the
    one extent that holds it. *)
Theorem em_lookup_exact k e l s :
  ready s -> em s !! k = Some e -> owns (range e) l ->
  lookup l s = (Val (Some (k, k + blocks e - 1)), s) /\
  (forall k' e', em s !! k' = Some e' -> owns (range e') l -> k' = k).
Proof.
  intros [[Hl _ _] Hs] Hk Ho. split; [by apply lookup_owner|]. intros k' e' Hk' Ho'.
  pose proof (ci_tree s (ei_core s Hs)) as Ht.
  pose proof (findByLBID_owner _ _ _ _ Ht Hk Ho). pose proof (findByLBID_owner _ _ _ _ Ht Hk' Ho'). congruence.
Qed.

(** ** High water marks *)

(** After [setLocalHWM] returned and was confirmed, [getLocalHWM] returns the
    mark that was set, which lies in the last extent of the segment file, and still
    one extent of the file at most carries a mark; otherwise it threw, because the
    file has no extents or the mark is past its end. *)
Theorem em_hwm_roundtrip oid part seg h first s :
  ready s -> geo_ok s -> one_hwm s -> 0 <= oid ->
  match setLocalHWM oid part seg h first true s with
  | (Val _, s1) => exists k e, in_file s oid part seg k e /\
      (forall k' e', in_file s oid part seg k' e' -> blockOffset e' <= blockOffset e) /\ h < blockOffset e + blocks e /\
      wp (confirmChanges ;; getLocalHWM oid part seg) s1 (fun r s2 => r.1 = h /\ one_hwm s2 /\ ready s2)
  | (Exn x, s1) => em s1 = em s /\
      (x = bad_file /\ (forall k e, ~ in_file s oid part seg k e) \/
       x = past_end /\ exists k e, in_file s oid part seg k e /\ blockOffset e + blocks e <= h)
  | (Fault _, _) => False
  end.
Proof.
  intros [[Hl _ _] Hs] Hg Hone Ho.
  destruct (setLocalHWM_cases oid part seg h first s Hs Hg Hl)
    as [(k & e & s1 & Hrun & Hf & Hmax & Hh & [Hk Hset] & Hs1 & Hl1 & Hc1 & Hi1)|[(k & e & Hrun & Hf & Hmax & Hh)|[Hrun Hno]]];
    rewrite Hrun; [|naive_solver|naive_solver].
  exists k, e. split_and!; try done. pose proof Hf as (Hke & Hfo & Hfp & Hfs & Hfr).
  assert (quiet s1) as (Hq1 & Hq2 & Hq3) by (unfold quiet; by rewrite Hl1).
  unfold wp. rewrite (bind_Val _ _ _ _ _ (confirm_run s1 Hq1 Hq2 Hq3)). set (s2 := mk _ _ _ _ _ _ _).
  assert (em_inv s2) as Hs2 by (by apply (em_inv_same s1)).
  assert (Hzero : forall j x, j <> k -> em s1 !! j = Some x -> fileID x = oid -> partitionNum x = part -> segmentNum x = seg -> HWM x = 0).
  { intros j x Hj Hx Hxo Hxp Hxs. destruct (Hset j x Hj Hx) as (y & Hy & [->| ->] & Hz); [|done].
    apply Hz; [congruence..|done]. }
  destruct (getLocalHWM_run oid part seg h s2 k (reset h e)) as (st & Hget & _); try done.
  { split_and!; try done. simpl. by rewrite Hc1. }
  { intros k' e' Hne (Hk' & ? & ? & ? & _). by apply (Hzero k' e'). }
  rewrite Hget. split_and!; [done| |by split]. intros j j' x x' Hx Hx' Hid Hp Hsg Hz Hz'. simpl in Hx, Hx'.
  assert (Hin : forall j x, em s1 !! j = Some x -> HWM x <> 0 -> j <> k -> em s !! j = Some x).
  { intros i y Hy Hyz Hi. destruct (Hset i y Hi Hy) as (y0 & Hy0 & [->| ->] & _); [done|]. by destruct Hyz. }
  destruct (decide (j = k)) as [->|Hj], (decide (j' = k)) as [->|Hj']; [done| | |].
  - destruct Hz'. simplify_eq/=. apply (Hzero j' x'); congruence.
  - destruct Hz. simplify_eq/=. apply (Hzero j x); congruence.
  - apply (Hone j j' x x'); auto.
Qed.

End claims.
End EmClaims.
