(* ===== verification/EmFacts.v ===== *)
(** * The extent map: undoing, concrete states, and what goes wrong

    The exact undo of a created extent; a booted extent map on which the properties
    are instantiated; and theorems for the behaviours that break a promise of the
    code. *)

From S2P Require Import Prelude Undoable Vbbm ExtentMap ExtentOps ExtentHwm ExtentPart ExtentCP EmThms EmFree EmIndex EmOps EmPlace EmCmds EmHwm EmClaims.
From stdpp Require Import prelude gmap strings sorting.
Local Open Scope Z_scope.

Module EmFacts.
Import ExtentMap ExtentOps ExtentHwm ExtentPart ExtentCP EmThms EmFree EmIndex EmOps EmPlace EmCmds EmHwm EmClaims.

(** ** Undoing a creation *)
Section undo.
Context {IO : IterOrder}.

(** A column extent that was created and not confirmed is undone: the tree, the
    free list and both recorded sizes are those from before, and the locks are
    released.  (The index is not: see below.) *)
Theorem em_create_undo oid w root ty part x s s1 :
  ready s -> 0 < w < 512 -> 0 <= root -> dbRootCount (config s) <> 0 ->
  createColumnExtent_DBroot oid w root ty part true s = (Val x, s1) ->
  exists s2, undoChanges s1 = (Val tt, s2) /\ em s2 = em s /\ mem s2 = mem s /\ locks s2 = noLocks.
Proof.
  intros [[Hl Hu Hrb] Hs] Hw Hroot Hn Hx.
  destruct (createColumn_cases s oid w root ty part) as [(st & s0 & p & sg & off & Ht & _ & Hrun & _)|[Hrun _]]; try done;
    [|congruence]. rewrite Hrun in Hx. simplify_eq. set (e := new_column _ _ _ _ _ _ _ _).
  pose proof (taken_new w st (set_locks wLocks s) s0 (core_inv_locks _ _ (ei_core s Hs)) ltac:(lia) Ht) as Hnew. simpl in Hnew.
  assert (undoes (mem s) [] (mem (inserted e s0)) (undoRecords (inserted e s0))) as Hun.
  { eapply undoes_trans; [rewrite <- Hu; exact (tk_undo _ _ _ _ Ht)|].
    by apply (undoes_write LEMInfo _ (DInfo (with_cur (currentSize (fEMShminfo (mem s0)) + EM_RB_TREE_NODE_SIZE) (fEMShminfo (mem s0))))). }
  destruct (tk_put _ _ _ _ Ht) as (m & u & Hs0).
  assert (undoRecordsRBTree (inserted e s0) = [(INSERT, e)]) as Hrbs by (rewrite Hs0; simpl; by rewrite Hrb).
  assert (em (inserted e s0) = <[st := e]> (em s)) as Hem by (by rewrite Hs0).
  assert (locks (inserted e s0) = wLocks) as Hlk by (by rewrite Hs0).
  eexists. split; [apply (undo_run (mem s)); [exact Hun|by rewrite Hlk..]|]. simpl. split_and!; try done.
  rewrite Hs0. simpl. rewrite Hrb. simpl. change (lbid0 e) with st.
  rewrite (findByLBID_key _ st e) by (by rewrite lookup_insert_eq). by rewrite delete_insert_id.
Qed.
End undo.

(** ** A booted extent map

    Two dbroots, four files per column partition; the first grab of the locks
    makes the segments. *)
Definition cfg : Config := mkConfig 4 2 [1; 2].
Definition unmapped : t := mk ∅ (mkMem (mkMST 0 0 0) (mkMST 0 0 0) 0 []) [] [] [] noLocks cfg.

Definition em0 : t :=
  mk ∅ (mkMem (mkMST 0x30001 800 16) (mkMST 0x20001 (16 * 1024 * 1024) 1024) 0x30001 (wholeRange :: replicate 49 emptyRange))
    [] [] [] noLocks cfg.

Lemma em0_boots : (grab3 WRITE ;; confirmChanges) unmapped = (Val tt, em0).
Proof. vm_compute. reflexivity. Qed.

Lemma em0_ready : ready em0.
Proof.
  split; [done|]. constructor; [constructor|apply index_ok_empty|]; simpl.
  - constructor; [done|by repeat constructor|done|done|]. split; [|by split]. apply Forall_cons. split; [|done]. by vm_compute.
  - constructor; intros *; by rewrite lookup_empty.
  - intros l _ (k & e & He & _). by rewrite lookup_empty in He.
  - intros l Hl. left. exists wholeRange. split; [by left|]. unfold owns, LBIDS in *. simpl. lia.
  - lia.
  - done.
  - intros k e He. by rewrite lookup_empty in He.
Qed.

(** The same with one extent: OID 100, eight bytes wide, on dbroot 1. *)
Definition em1 : t := (run_cmd (CreateColumn 100 8 1 INT 0) em0).2.
Definition e100 : EMEntry := new_column 0 8 100 1 INT 0 0 0.

Lemma em1_ready : ready em1.
Proof.
  assert (cmd_ok (CreateColumn 100 8 1 INT 0)) as Hc by (split; lia).
  assert (dbRootCount (config em0) <> 0) as Hn by (simpl; lia).
  destruct (wp_run _ _ _ (run_cmd_ready _ em0 em0_ready Hc Hn)) as (r & s' & Hrun & H & _).
  unfold em1. rewrite Hrun. exact H.
Qed.

Lemma em1_em : em em1 = {[0 := e100]}.
Proof. vm_compute. reflexivity. Qed.

Lemma em1_geo : geo_ok em1.
Proof.
  constructor; rewrite em1_em.
  - intros k e [<- <-]%lookup_singleton_Some. unfold placed_ok. simpl. lia.
  - intros k e [<- <-]%lookup_singleton_Some. split; [unfold blocks; simpl; lia|done].
  - intros k e [<- <-]%lookup_singleton_Some. by left.
  - intros k k' e e' [<- <-]%lookup_singleton_Some [<- <-]%lookup_singleton_Some. done.
  - intros k k' e e' [<- <-]%lookup_singleton_Some [<- <-]%lookup_singleton_Some. done.
Qed.

Lemma em0_geo : geo_ok em0.
Proof. constructor; simpl; intros *; by rewrite lookup_empty. Qed.

Lemma em_space_invariant_witness :
  let cs := [CreateColumn 100 8 1 INT 0; CreateDict 200 2 0 0; DeleteOIDs [100]; CreateExact 101 4 2 0 0 CHAR] in
  ready em0 /\ wp (run_cmds cs) em0 (fun rs s' => idle s' /\ em_inv s' /\ Forall (fun r => r = None \/ r = Some out_of_space) rs).
Proof.
  split; [apply em0_ready|]. apply em_space_invariant; [apply em0_ready| |done].
  repeat (apply Forall_cons; split; [simpl; lia || done|]). apply Forall_nil. done.
Defined.

Lemma em_create_place_witness :
  exists st p sg off s', createColumnExtent_DBroot 100 8 1 INT 0 true em1 = (Val (st, 8 * 1024, (p, sg, off)), s') /\
    fresh em1 100 1 p sg off 8.
Proof.
  destruct (em_create_place 100 8 1 INT 0 em1) as [(st & p & sg & off & s' & Hrun & _ & Hf & _)|[Hrun _]].
  - apply em1_ready.
  - apply em1_geo.
  - intros k e. rewrite em1_em. intros [<- <-]%lookup_singleton_Some _. unfold blocks. simpl. lia.
  - lia.
  - lia.
  - by left.
  - lia.
  - done.
  - exists st, p, sg, off, s'. split; [exact Hrun|exact Hf].
  - exfalso. vm_compute in Hrun. discriminate.
Defined.

Lemma em_locate_inverse_witness :
  lookupLocal 5000 em1 = (Val (Some (mkPlace 100 1 0 0 5000)), em1) /\
  lookupLocal_DBroot 100 1 0 0 5000 em1 = (Val (Some 5000), em1).
Proof.
  assert (lookupLocal 5000 em1 = (Val (Some (mkPlace 100 1 0 0 5000)), em1)) as H by (vm_compute; reflexivity).
  split; [exact H|]. apply (em_locate_inverse 100 1 0 0 5000 5000 em1); [apply em1_ready|apply em1_geo|lia| |exact H].
  exists 0, e100. rewrite em1_em. split; [done|]. unfold owns. simpl. lia.
Defined.

Lemma em_lookup_exact_witness : lookup 5000 em1 = (Val (Some (0, 8191)), em1).
Proof.
  destruct (em_lookup_exact 0 e100 5000 em1) as [H _]; [apply em1_ready|by rewrite em1_em|unfold owns; simpl; lia|]. exact H.
Defined.

Lemma em_hwm_roundtrip_witness :
  exists s1, setLocalHWM 100 0 0 77 true true em1 = (Val tt, s1) /\
    wp (confirmChanges ;; getLocalHWM 100 0 0) s1 (fun r s2 => r.1 = 77 /\ one_hwm s2 /\ ready s2).
Proof.
  eexists. split; [vm_compute; reflexivity|].
  assert (one_hwm em1) as H1.
  { intros k k' e e'. rewrite em1_em. by intros [<- <-]%lookup_singleton_Some [<- <-]%lookup_singleton_Some. }
  pose proof (em_hwm_roundtrip 100 0 0 77 true em1 em1_ready em1_geo H1 ltac:(lia)) as H.
  destruct H as (k & e & _ & _ & _ & H). exact H.
Defined.

Lemma em_create_undo_witness :
  exists x s1 s2, createColumnExtent_DBroot 100 8 1 INT 0 true em0 = (Val x, s1) /\
    undoChanges s1 = (Val tt, s2) /\ em s2 = em em0 /\ mem s2 = mem em0 /\ locks s2 = noLocks.
Proof.
  eexists _, _. assert (createColumnExtent_DBroot 100 8 1 INT 0 true em0 = (Val (0, 8192, (0, 0, 0)), _)) as H
    by (vm_compute; reflexivity).
  destruct (em_create_undo 100 8 1 INT 0 _ em0 _ em0_ready ltac:(lia) ltac:(lia) ltac:(done) H) as (s2 & H2). eauto.
Defined.

(** ** Broken promises *)
Definition state_of (cs : list Cmd) : t := (run_cmds cs em0).2.

(** The undo of a created extent leaves its LBID in the index: the next creation
    for the same OID and dbroot throws, because the LBID it is led to is no longer
    in the tree. *)
Theorem em_undo_keeps_index :
  ((createColumnExtent_DBroot 100 8 1 INT 0 true ;; undoChanges) em0).1 = Val tt /\
  ((createColumnExtent_DBroot 100 8 1 INT 0 true ;; undoChanges ;; createColumnExtent_DBroot 100 8 1 INT 0 true) em0).1 =
    Exn (logic_error "ExtentMap::markInvalid(): lbid isn't allocated").
Proof. by vm_compute. Qed.

(** The records of the tree are replayed oldest first: undoing a command that
    changed an extent twice leaves the state between the two changes. *)
Theorem em_undo_intermediate :
  HWM <$> values (em em1) = [0] /\
  HWM <$> values (em ((bulkSetHWM [mkBulkSetHWMArg 100 0 0 5; mkBulkSetHWMArg 100 0 0 7] true ;; undoChanges) em1).2) = [5].
Proof. by vm_compute. Qed.

(** Deleting an extent that has no free neighbour logs the address of the size
    record instead of the record: after the undo the free list counts one entry too
    many, and the consistency check fails. *)
Theorem em_undo_delete_miscounts :
  let s := state_of [CreateColumn 100 8 1 INT 0; CreateColumn 101 4 1 INT 0] in
  (checkConsistency s).1 = Val 0 /\
  ((deleteOIDs [100] ;; undoChanges ;; checkConsistency) s).1 =
    Exn (logic_error "EM checkConsistency test 5a (data structures are read-locked)").
Proof. by vm_compute. Qed.

(** [deleteOID] remembers only whether the last dbroot had extents: it reports
    that the OID has none, after deleting those of the other dbroots. *)
Theorem em_deleteOID_denies :
  values (em em1) = [e100] /\
  (deleteOID 100 em1).1 = Exn (invalid_argument "ExtentMap::deleteOID(): There are no extent entries for OID") /\
  em (deleteOID 100 em1).2 = ∅.
Proof. by vm_compute. Qed.

(** [getMaxMin] for an LBID that is not allocated throws with its read locks
    held; the next command of the process waits for itself. *)
Theorem em_getMaxMin_leaks_lock :
  ((try_catch (getMaxMin false 9000 ;; mret tt) (fun _ => mret tt)) ;; grab3 WRITE) em1 =
  (Fault SelfDeadlock, set_locks (mkLocks false false false 1 1 0) em1).
Proof. by vm_compute. Qed.

(** Deleting the last extent of an OID by partition keeps the OID's empty container
    in the index, so the dbroot still counts as in use. *)
Lemma em_rollback_leaves_root :
  ((rollbackColumnExtents_DBroot 100 true 1 0 0 0 ;; confirmChanges ;; isDBRootEmpty 1) em1).1 = Val false /\
  em ((rollbackColumnExtents_DBroot 100 true 1 0 0 0 ;; confirmChanges) em1).2 = ∅.
Proof. by vm_compute. Qed.

(** [deleteEmptyColExtents] assigns the new HWM to a copy of the extent; rolling back
    to the same point assigns it to the extent. *)
Lemma em_deleteEmpty_loses_hwm :
  let s := ((setLocalHWM 100 0 0 7000 true true ;; confirmChanges) em1).2 in
  HWM <$> values (em (deleteEmptyColExtents [(100, mkExtentInfo 0 0 1 5 false)] s).2) = [7000] /\
  HWM <$> values (em (rollbackColumnExtents_DBroot 100 false 1 0 0 5 s).2) = [5].
Proof. by vm_compute. Qed.

(** An LBID in a hole of the tree is attributed to the extent before the hole. *)
Lemma em_lookup_in_hole :
  let s := state_of [CreateColumn 100 8 1 INT 0; CreateColumn 101 4 1 INT 0; CreateColumn 102 4 1 INT 0; DeleteOIDs [101]] in
  (lookup 9000 s).1 = Val (Some (0, 8191)).
Proof. by vm_compute. Qed.

(** [bulkUpdateDBRoot] moves extents without the index. *)
Lemma em_bulkUpdate_loses_extents :
  let s := ((bulkUpdateDBRoot [(0, 2)] ;; confirmChanges) em1).2 in
  dbRoot <$> values (em s) = [2] /\ (getExtents_dbroot 100 2 s).1 = Val [].
Proof. by vm_compute. Qed.

End EmFacts.
