(* ===== verification/EmCp.v ===== *)
(** * Casual partitioning: the properties

    Merging computes the hull of the two ranges in the order of the column's type;
    a range computed before the extent changed is never installed. *)

From S2P Require Import Prelude Undoable Vbbm Hasher Bytes ExtentMap ExtentOps ExtentCP EmThms EmFree EmIndex EmOps EmPlace EmCmds EmClaims EmFacts.
From stdpp Require Import prelude gmap strings sorting.
Local Open Scope Z_scope.

Module EmCp.
Import ExtentMap ExtentOps ExtentCP EmThms EmFree EmIndex EmOps EmPlace EmCmds EmClaims EmFacts.

(** ** The members of the union *)
Lemma low64_put64 v big : - 2 ^ 63 <= v < 2 ^ 63 -> low64 (put64 v big) = v.
Proof.
  intros Hv. unfold low64, put64, i64, u64.
  replace (big - big mod 2 ^ 64 + v mod 2 ^ 64 + 2 ^ 63) with (2 ^ 63 + v mod 2 ^ 64 + (big / 2 ^ 64) * 2 ^ 64).
  2: { rewrite (Z.mod_eq big) by lia. lia. }
  rewrite Z.mod_add by lia. rewrite Zplus_mod_idemp_r, (Z.add_comm (2 ^ 63) v), (Z.mod_small (v + 2 ^ 63)) by lia. lia.
Qed.

(** ** Merging *)

(** The order of a column type: bytes as a string, unsigned or signed. *)
Definition order_key (v : CPMaxMinMerge) : Z -> Z :=
  if isCharType (mg_type v) then fun x => uint64ToStr (u64 x)
  else if isUnsigned (mg_type v) then (if wide v then u128 else u64)
  else fun x => x.

(** The bounds a merge reads and writes. *)
Definition lo_of (v : CPMaxMinMerge) (c : EMCasualPartition) : Z := if wide v then bigLoVal c else loVal c.
Definition hi_of (v : CPMaxMinMerge) (c : EMCasualPartition) : Z := if wide v then bigHiVal c else hiVal c.
Definition new_lo (v : CPMaxMinMerge) : Z := if wide v then mg_bigMin v else mg_min v.
Definition new_hi (v : CPMaxMinMerge) : Z := if wide v then mg_bigMax v else mg_max v.

Definition in_i64 (z : Z) : Prop := - 2 ^ 63 <= z < 2 ^ 63.

Lemma merge64_hull key v c :
  wide v = false -> in_i64 (mg_min v) -> in_i64 (mg_max v) ->
  key (lo_of v (merge64 key v c)) = Z.min (key (lo_of v c)) (key (new_lo v)) /\
  key (hi_of v (merge64 key v c)) = Z.max (key (hi_of v c)) (key (new_hi v)) /\
  sequenceNum (merge64 key v c) = sequenceNum c /\ isValid (merge64 key v c) = isValid c.
Proof.
  intros Hw Hmin Hmax. unfold lo_of, hi_of, new_lo, new_hi. rewrite Hw. unfold merge64, with_lo64, with_hi64, loVal, hiVal.
  destruct (Z.ltb_spec (key (mg_min v)) (key (low64 (bigLoVal c)))), (Z.ltb_spec (key (low64 (bigHiVal c))) (key (mg_max v)));
    simpl; rewrite ?low64_put64 by done; split_and!; try done; lia.
Qed.

Lemma merge128_hull key v c :
  wide v = true ->
  key (lo_of v (merge128 key v c)) = Z.min (key (lo_of v c)) (key (new_lo v)) /\
  key (hi_of v (merge128 key v c)) = Z.max (key (hi_of v c)) (key (new_hi v)) /\
  sequenceNum (merge128 key v c) = sequenceNum c /\ isValid (merge128 key v c) = isValid c.
Proof.
  intros Hw. unfold lo_of, hi_of, new_lo, new_hi. rewrite Hw. unfold merge128, with_bigs. simpl.
  destruct (Z.ltb_spec (key (mg_bigMin v)) (key (bigLoVal c))), (Z.ltb_spec (key (bigHiVal c)) (key (mg_bigMax v)));
    split_and!; try done; lia.
Qed.

(** When both the extent's range and the new one are valid, merging is the hull
    in the order of the column's type: the lower bound becomes the minimum, the upper
    bound the maximum, for signed, unsigned and character columns of 64 bits and for
    the numeric ones of 128 bits; the sequence number moves on. *)
Theorem em_merge_is_hull v c :
  isValid c = CP_VALID -> new_valid v = true -> old_valid v c = true ->
  in_i64 (mg_min v) -> in_i64 (mg_max v) -> (isCharType (mg_type v) = true -> wide v = false) ->
  exists c', merge_action v c = Some c' /\ isValid c' = CP_VALID /\ sequenceNum c' = sequenceNum (incSeqNum c) /\
    order_key v (lo_of v c') = Z.min (order_key v (lo_of v c)) (order_key v (new_lo v)) /\
    order_key v (hi_of v c') = Z.max (order_key v (hi_of v c)) (order_key v (new_hi v)).
Proof.
  intros Hc Hn Ho Hmin Hmax Hchar. unfold merge_action. rewrite Hc, Hn, Ho. simpl. eexists. split; [done|].
  assert (exists m, merge_range v c = m /\ order_key v (lo_of v m) = Z.min (order_key v (lo_of v c)) (order_key v (new_lo v)) /\
    order_key v (hi_of v m) = Z.max (order_key v (hi_of v c)) (order_key v (new_hi v)) /\
    sequenceNum m = sequenceNum c /\ isValid m = isValid c) as (m & -> & H1 & H2 & H3 & H4).
  { eexists. split; [done|]. unfold merge_range, order_key.
    destruct (isCharType (mg_type v)); [exact (merge64_hull (fun x => uint64ToStr (u64 x)) v c (Hchar eq_refl) Hmin Hmax)|].
    destruct (wide v) eqn:Hw; destruct (isUnsigned (mg_type v)); auto using merge64_hull, merge128_hull.
    - exact (merge128_hull (fun x => x) v c Hw).
    - exact (merge64_hull (fun x => x) v c Hw Hmin Hmax). }
  unfold incSeqNum, with_seq, lo_of, hi_of, loVal, hiVal in *. simpl. rewrite H3, H4. done.
Qed.

(** ** The sequence number *)

(** What may happen to the range of an extent: it is invalidated, set or merged. *)
Inductive cp_change : EMCasualPartition -> EMCasualPartition -> Prop :=
| ch_inval ty w c : cp_change c (incSeqNum (empty_range ty w (with_valid CP_UPDATING c)))
| ch_set v c c' : set_action v c = Some c' -> cp_change c c'
| ch_merge v c c' : merge_action v c = Some c' -> cp_change c c'.

Definition SEQS : Z := EM_MAX_SEQNUM + 1.

Definition seq_ok (c : EMCasualPartition) : Prop := 0 <= sequenceNum c < SEQS.

Lemma incSeqNum_mod c : seq_ok c -> sequenceNum (incSeqNum c) = (sequenceNum c + 1) mod SEQS.
Proof.
  unfold seq_ok, incSeqNum, SEQS, with_seq. intros Hc. simpl. unfold EM_MAX_SEQNUM in *.
  destruct (Z.ltb_spec 2000000000 (sequenceNum c + 1)).
  - replace (sequenceNum c + 1) with (2000000000 + 1) by lia. by rewrite Z.mod_same.
  - by rewrite Z.mod_small by lia.
Qed.

Lemma seq_same_inc c c0 : sequenceNum c = sequenceNum c0 -> sequenceNum (incSeqNum c) = sequenceNum (incSeqNum c0).
Proof. unfold incSeqNum, with_seq. simpl. by intros ->. Qed.

Lemma merge_range_seq v c : sequenceNum (merge_range v c) = sequenceNum c.
Proof.
  unfold merge_range, merge64, merge128, with_lo64, with_hi64.
  repeat match goal with |- context [if ?b then _ else _] => destruct b end; done.
Qed.

(** Every change moves the number by one, modulo 2000000001. *)
Lemma cp_change_seq c c' : seq_ok c -> cp_change c c' -> sequenceNum c' = (sequenceNum c + 1) mod SEQS.
Proof.
  intros Hc Hch. rewrite <- incSeqNum_mod by done. destruct Hch as [ty w c|v c c' H|v c c' H].
  - apply seq_same_inc. unfold empty_range. by repeat match goal with |- context [if ?b then _ else _] => destruct b end.
  - unfold set_action, set_range in H.
    repeat match type of H with context [if ?b then _ else _] => destruct b end; simplify_eq; by apply seq_same_inc.
  - unfold merge_action, put_range in H.
    repeat match type of H with context [if ?b then _ else _] => destruct b end; simplify_eq; apply seq_same_inc; rewrite ?merge_range_seq; done.
Qed.

Lemma cp_changes_seq n c c' : seq_ok c -> nsteps cp_change n c c' -> sequenceNum c' = (sequenceNum c + Z.of_nat n) mod SEQS.
Proof.
  intros Hc Hn. revert Hc. induction Hn as [c|n c c1 c' Hch Hn IH]; intros Hc.
  - rewrite Z.add_0_r, Z.mod_small; done.
  - assert (Hs : sequenceNum c1 = (sequenceNum c + 1) mod SEQS) by (by apply cp_change_seq).
    rewrite IH; [|unfold seq_ok; rewrite Hs; apply Z.mod_pos_bound; unfold SEQS, EM_MAX_SEQNUM; lia].
    rewrite Hs, Zplus_mod_idemp_l. f_equal. lia.
Qed.

Section set.
Context {IO : IterOrder}.

(** The range an extent had when a query read its sequence number. *)
Definition stale (c0 c : EMCasualPartition) : Prop :=
  seq_ok c0 /\ exists n, (1 <= n)%nat /\ Z.of_nat n < SEQS /\ nsteps cp_change n c0 c.

Lemma setOne_run k e v first s :
  em_inv s -> locks s = noLocks -> em s !! k = Some e ->
  setExtentsMaxMin [(k, v)] first true s =
  match set_action v (partition e) with
  | Some c => (Val tt, mk (<[k := with_cp c e]> (em s)) (mem s) (index s) (undoRecords s)
                         (undoRecordsRBTree s ++ [(DEFAULT, e)]) (mkLocks true true false 0 0 0) (config s))
  | None => (Val tt, set_locks (mkLocks true true false 0 0 0) s)
  end.
Proof.
  intros Hs Hl Hk. unfold setExtentsMaxMin. rewrite (bind_Val _ _ _ _ _ (grab2_write s (ei_core s Hs) Hl)).
  set (s0 := set_locks _ s). simpl. unfold set_one.
  assert (find_or_throw "ExtentMap::setExtentsMaxMin(): lbid not found" k s0 = (Val k, s0)) as Hf.
  { unfold find_or_throw, gets, mbind, M_bind. simpl. by rewrite (findByLBID_key _ _ _ Hk). }
  assert (deref k s0 = (Val e, s0)) as Hd by (unfold deref; simpl; by rewrite Hk).
  unfold mbind at 1, M_bind at 1. rewrite (bind_Val _ _ _ _ _ Hf), (bind_Val _ _ _ _ _ Hd).
  destruct (set_action v (partition e)) as [c|]; [|done]. unfold log_cp. by rewrite (log_update_run s0 k e _ Hk).
Qed.

(** A range that a query computed is installed only if the extent did not change
    since the query read its sequence number: after any one to 2000000000 changes to
    the extent the attempt returns without touching the tree; without a change, and
    if the extent is invalid, the range is stored and the extent marked valid. *)
Theorem em_stale_range_rejected k e v c0 first s :
  ready s -> em s !! k = Some e -> cp_seqNum v = sequenceNum c0 ->
  (stale c0 (partition e) -> setExtentsMaxMin [(k, v)] first true s = (Val tt, set_locks (mkLocks true true false 0 0 0) s)) /\
  (partition e = c0 -> isValid c0 = CP_INVALID ->
   exists s', setExtentsMaxMin [(k, v)] first true s = (Val tt, s') /\
     em s' = <[k := with_cp (incSeqNum (with_valid CP_VALID (set_range v c0))) e]> (em s)).
Proof.
  intros [[Hl _ _] Hs] Hk Hv. rewrite (setOne_run k e v first s Hs Hl Hk). split.
  - intros [Hc (n & Hn & Hlt & Hst)]. pose proof (cp_changes_seq n c0 (partition e) Hc Hst) as Hseq.
    assert (sequenceNum (partition e) <> cp_seqNum v) as Hne.
    { rewrite Hseq, Hv. intros He. unfold seq_ok in Hc.
      assert ((sequenceNum c0 + Z.of_nat n) mod SEQS = sequenceNum c0 mod SEQS) as Hm by (rewrite He; by rewrite Z.mod_small).
      assert ((Z.of_nat n) mod SEQS = 0) as Hz.
      { replace (Z.of_nat n) with (sequenceNum c0 + Z.of_nat n - sequenceNum c0) by lia.
        rewrite Zminus_mod, Hm, Z.sub_diag. done. }
      rewrite Z.mod_small in Hz; lia. }
    unfold seq_ok in Hc. unfold set_action, SEQNUM_MARK_INVALID, SEQNUM_MARK_INVALID_SET_RANGE, SEQNUM_MARK_UPDATING_INVALID_SET_RANGE.
    destruct (Z.eqb_spec (sequenceNum (partition e)) (cp_seqNum v)); [done|]. simpl.
    destruct (Z.eqb_spec (cp_seqNum v) (-1)), (Z.eqb_spec (cp_seqNum v) (-2)), (Z.eqb_spec (cp_seqNum v) (-3)); try lia. done.
  - intros -> Hinv. unfold set_action. rewrite Hv, Z.eqb_refl, Hinv. simpl. eexists. split; [done|]. done.
Qed.
End set.

(** An extent with values from 10 to 20 into which 3 to 15 are merged. *)
Lemma em_merge_is_hull_witness :
  let v := mkCPMaxMinMerge 15 3 0 INT 4 false 15 3 in
  exists c', merge_action v (mkCP 7 CP_VALID 10 20) = Some c' /\ order_key v (lo_of v c') = 3 /\ order_key v (hi_of v c') = 20.
Proof.
  destruct (em_merge_is_hull (mkCPMaxMinMerge 15 3 0 INT 4 false 15 3) (mkCP 7 CP_VALID 10 20)) as (c' & H & _ & _ & Hlo & Hhi);
    try reflexivity; try (unfold in_i64; simpl; lia).
  exists c'. split; [exact H|]. split; [exact Hlo|exact Hhi].
Defined.

(** The extent after one invalidation: the old number is refused; before it, accepted. *)
Definition v100 : CPMaxMin := mkCPMaxMin 90 10 0 0 0 false.

Lemma em_stale_range_rejected_witness :
  exists s', setExtentsMaxMin [(0, v100)] true true em1 = (Val tt, s') /\
    em s' = {[0 := with_cp (incSeqNum (with_valid CP_VALID (set_range v100 (partition e100)))) e100]}.
Proof.
  destruct (em_stale_range_rejected 0 e100 v100 (partition e100) true em1) as [_ H];
    [apply em1_ready|by rewrite em1_em|reflexivity|].
  destruct (H eq_refl eq_refl) as (s' & Hrun & Hem). exists s'. split; [exact Hrun|].
  rewrite Hem, em1_em. apply insert_singleton_eq.
Defined.

End EmCp.
