(* ===== verification/EmCheck.v ===== *)
(** * The consistency check of the extent map

    [ExtentMap::checkConsistency] walks over the LBID space.  On a map that satisfies
    the invariant the walk ends and every test passes; a map it accepts has no hole. *)

From S2P Require Import Prelude Undoable Vbbm ExtentMap ExtentOps ExtentHwm ExtentPart EmThms EmFree EmIndex EmOps EmPlace EmCmds EmHwm EmClaims EmFacts.
From stdpp Require Import prelude gmap strings sorting.
Local Open Scope Z_scope.

Module EmCheck.
Import ExtentMap ExtentOps ExtentHwm ExtentPart EmThms EmFree EmIndex EmOps EmPlace EmCmds EmHwm EmClaims EmFacts.

(** ** The walk over a list of ranges *)
Section walk.
Context (R : list InlineLBIDRange).
Context (HR : forall r, r ∈ R -> r_size r <> 0 -> range_ok r).
Context (Hal : Forall aligned R).
Context (Hone : forall r r' l, r ∈ R -> r' ∈ R -> owns r l -> owns r' l -> r = r').
Context (Hcov : forall l, 0 <= l < LBIDS -> exists r, r ∈ R /\ owns r l).

(** The first unit of a range, or the end of the space. *)
Definition boundary (b : Z) : Prop :=
  b = 2 ^ 26 \/ exists r, r ∈ R /\ r_size r <> 0 /\ r_start r = b * 1024.

Lemma boundary_bound b : boundary b -> 0 <= b <= 2 ^ 26.
Proof. intros [->|(r & Hr & Hz & Hs)]; [lia|]. destruct (HR r Hr Hz) as (? & _ & ? & ?). unfold LBIDS in *. lia. Qed.

Lemma boundary_of l : 0 <= l < LBIDS -> l mod 1024 = 0 ->
  (l = 0 \/ exists r, r ∈ R /\ owns r (l - 1) /\ ~ owns r l) -> boundary (l / 1024).
Proof.
  intros Hl Hm Hbefore. right. destruct (Hcov l Hl) as (r' & Hr' & Ho). exists r'. split; [done|].
  assert (r_size r' <> 0) as Hz by (unfold owns in Ho; lia). split; [done|].
  replace (l / 1024 * 1024) with l by (pose proof (Z.div_mod l 1024); lia).
  destruct (decide (r_start r' = l)) as [|Hne]; [done|]. exfalso.
  destruct (HR r' Hr' Hz) as (_ & _ & H0 & _).
  destruct Hbefore as [->|(r & Hr & Ho1 & Hn)]; [unfold owns in Ho; lia|].
  assert (r = r') as -> by (apply (Hone r r' (l - 1)); [done..|unfold owns in *; lia]). done.
Qed.

Lemma boundary_start : boundary 0.
Proof. apply (boundary_of 0); unfold LBIDS; [lia|done|by left]. Qed.

Lemma boundary_next r : r ∈ R -> r_size r <> 0 -> boundary (r_start r / 1024 + r_size r).
Proof.
  intros Hr Hz. destruct (HR r Hr Hz) as (Hp & Hm & H0 & He). pose proof (Z.div_mod (r_start r) 1024 ltac:(lia)) as Hd.
  destruct (decide (r_start r + r_size r * 1024 = LBIDS)) as [Heq|Hne]; [left; unfold LBIDS in *; lia|].
  replace (r_start r / 1024 + r_size r) with ((r_start r + r_size r * 1024) / 1024) by (rewrite Z.div_add by lia; lia).
  apply boundary_of; [lia| |].
  - rewrite Z.mod_add by lia. done.
  - right. exists r. unfold owns. split_and!; [done|lia..].
Qed.

(** A sweep goes from boundary to boundary, past every range that starts where it is. *)
Lemma sweep_walk rs b : rs ⊆ R -> boundary b ->
  exists b', sweep rs b = Some b' /\ boundary b' /\ b <= b' /\
    forall r, r ∈ rs -> r_size r <> 0 -> r_start r = b * 1024 -> b < b'.
Proof.
  revert b. induction rs as [|r rs IH]; intros b Hsub Hb; simpl.
  { exists b. split_and!; [done..|lia|]. intros r Hr. by apply not_elem_of_nil in Hr. }
  assert (r ∈ R) as Hr by (apply Hsub; set_solver).
  assert (r_start r mod 1024 = 0) as Hm by (rewrite Forall_forall in Hal; by apply Hal).
  rewrite Hm, Z.eqb_refl. simpl.
  pose proof (Z.div_mod (r_start r) 1024 ltac:(lia)) as Hd. pose proof (boundary_bound b Hb) as Hbb.
  set (c := if r_start r / 1024 =? b then _ else _).
  assert (boundary c /\ b <= c /\ (r_size r <> 0 -> r_start r = b * 1024 -> b < c)) as (Hc & Hle & Hlt).
  { unfold c. destruct (Z.eqb_spec (r_start r / 1024) b) as [Heq|Hne]; [|split_and!; [done|lia..]].
    destruct (decide (r_size r = 0)) as [Hz|Hz].
    - rewrite Hz, i32_small by lia. rewrite Z.add_0_r. split_and!; [done|lia..].
    - pose proof (boundary_next r Hr Hz) as Hn. pose proof (boundary_bound _ Hn).
      destruct (HR r Hr Hz) as (Hp & _). rewrite <- Heq. rewrite i32_small by lia. split_and!; [done|lia..]. }
  clearbody c. destruct (IH c) as (b' & Hrun & Hb' & Hle' & Hlt'); [set_solver|done|].
  exists b'. split_and!; [done..|lia|]. intros r' [->|Hr']%elem_of_cons Hz Hs.
  - specialize (Hlt Hz Hs). lia.
  - destruct (decide (b = c)) as [->|]; [eauto|lia].
Qed.

(** The ranges that start at or after a boundary: each pass leaves fewer. *)
Definition after (b : Z) (r : InlineLBIDRange) : Prop := r_size r <> 0 /\ b * 1024 <= r_start r.
Local Instance after_dec b r : Decision (after b r).
Proof. unfold after. apply _. Defined.
Definition ahead (b : Z) : list InlineLBIDRange := filter (after b) R.

Lemma ahead_less b b' r : r ∈ R -> r_size r <> 0 -> r_start r = b * 1024 -> b < b' -> (length (ahead b') < length (ahead b))%nat.
Proof.
  intros Hr Hz Hs Hlt. unfold ahead. clear Hone Hcov HR Hal. induction R as [|x l IH]; [by apply not_elem_of_nil in Hr|].
  assert (length (filter (after b') l) <= length (filter (after b) l))%nat.
  { apply sublist_length. clear IH Hr. induction l as [|y l IH]; [done|]. rewrite !filter_cons.
    unfold after. repeat case_decide; try lia; [by apply sublist_skip|by apply sublist_cons|done]. }
  rewrite !filter_cons. apply elem_of_cons in Hr as [<-|Hr].
  - rewrite decide_False, decide_True by (unfold after; lia). simpl. lia.
  - specialize (IH Hr). unfold after in *. repeat case_decide; simpl; lia.
Qed.
End walk.

Lemma length_values {V} (m : gmap Z V) : length (values m) = size m.
Proof.
  unfold values. replace (size m) with (length (keys m)) by (rewrite keys_perm, length_fmap; apply length_map_to_list).
  assert (forall k, k ∈ keys m -> is_Some (m !! k)) as H by (intros k; apply elem_of_keys).
  induction (keys m) as [|k ks IH]; [done|]. simpl. destruct (H k) as [v ->]; [set_solver|]. simpl. f_equal. apply IH. set_solver.
Qed.

(** All ranges there are: the free list and the extents. *)
Definition all_ranges (m : gmap Z EMEntry) (l : list InlineLBIDRange) : list InlineLBIDRange := l ++ (range <$> values m).

Lemma test1b_passes m l fuel b :
  (forall r, r ∈ all_ranges m l -> r_size r <> 0 -> range_ok r) -> Forall aligned (all_ranges m l) ->
  (forall r r' x, r ∈ all_ranges m l -> r' ∈ all_ranges m l -> owns r x -> owns r' x -> r = r') ->
  (forall x, 0 <= x < LBIDS -> exists r, r ∈ all_ranges m l /\ owns r x) ->
  boundary (all_ranges m l) b -> (length (ahead (all_ranges m l) b) <= fuel)%nat ->
  test1b fuel m l b = Val true.
Proof.
  intros HR Hal Hone Hcov. revert b. induction fuel as [|fuel IH]; intros b Hb Hf; simpl;
    (destruct (Z.ltb_spec b (2 ^ 26)) as [Hlt|]; [|done]); destruct Hb as [->|Hr]; try lia.
  - exfalso. destruct Hr as (r & Hr & Hz & Hs).
    assert (r ∈ ahead (all_ranges m l) b) as Hin by (apply list_elem_of_filter; split; [unfold after; lia|done]).
    destruct (ahead (all_ranges m l) b); [by apply not_elem_of_nil in Hin|simpl in Hf; lia].
  - destruct (sweep_walk _ HR Hal Hone Hcov l b) as (c & Hc & Hbc & Hle & Hgo); [unfold all_ranges; set_solver|by right|].
    destruct (sweep_walk _ HR Hal Hone Hcov (range <$> values m) c) as (d & Hd & Hbd & Hle' & Hgo'); [unfold all_ranges; set_solver|done|].
    rewrite Hc. simpl. rewrite Hd. simpl. destruct Hr as (r & Hr & Hz & Hs).
    assert (b < d) as Hbd'.
    { unfold all_ranges in Hr. apply elem_of_app in Hr as [Hr|Hr]; [specialize (Hgo r Hr Hz Hs); lia|].
      destruct (decide (b = c)) as [<-|]; [by apply (Hgo' r)|lia]. }
    destruct (Z.eqb_spec d b); [lia|]. apply IH; [done|].
    pose proof (ahead_less _ b d r Hr Hz Hs Hbd'). lia.
Qed.

(** ** The tests on a map that satisfies the invariant *)
Lemma owner_unique u r r' l : seps u -> r ∈ u -> r' ∈ u -> owns r l -> owns r' l -> r = r'.
Proof.
  induction u as [|x u IH]; [by intros _ ?%not_elem_of_nil|]. intros [Hx Hu]. rewrite Forall_forall in Hx.
  intros [->|Hr]%elem_of_cons [->|Hr']%elem_of_cons Ho Ho'; try done.
  - specialize (Hx r' Hr'). unfold sep, owns in *. lia.
  - specialize (Hx r Hr). unfold sep, owns in *. lia.
  - by apply IH.
Qed.

Section consistent.
Context (s : t) (Hs : core_inv s).

Lemma all_ranges_cases r : r ∈ all_ranges (em s) (fFreeList (mem s)) -> r_size r <> 0 ->
  r ∈ ranges (mem s) \/ exists k e, em s !! k = Some e /\ r = range e.
Proof.
  unfold all_ranges. intros [Hr|(e & -> & (k & He)%elem_of_values)%list_elem_of_fmap]%elem_of_app Hz.
  - left. by apply list_elem_of_filter.
  - right. eauto.
Qed.

Lemma all_ranges_ok r : r ∈ all_ranges (em s) (fFreeList (mem s)) -> r_size r <> 0 -> range_ok r.
Proof.
  intros Hr Hz. destruct (all_ranges_cases r Hr Hz) as [Hf|(k & e & He & ->)].
  - destruct (fo_ranges _ (ci_fl s Hs)) as [H _]. rewrite Forall_forall in H. by apply H.
  - by apply (tr_range _ (ci_tree s Hs) k).
Qed.

Lemma all_ranges_aligned : Forall aligned (all_ranges (em s) (fFreeList (mem s))).
Proof.
  unfold all_ranges. apply Forall_app. split; [apply (fo_align _ (ci_fl s Hs))|]. apply Forall_forall.
  intros r (e & -> & (k & He)%elem_of_values)%list_elem_of_fmap. apply (tr_range _ (ci_tree s Hs)) in He as [(_ & Hm & _) _]. done.
Qed.

Lemma all_ranges_one r r' l : r ∈ all_ranges (em s) (fFreeList (mem s)) -> r' ∈ all_ranges (em s) (fFreeList (mem s)) ->
  owns r l -> owns r' l -> r = r'.
Proof.
  intros Hr Hr' Ho Ho'.
  assert (r_size r <> 0 /\ r_size r' <> 0) as [Hz Hz'] by (unfold owns in *; lia).
  pose proof (ci_excl s Hs l) as Hx.
  destruct (all_ranges_cases r Hr Hz) as [Hf|(k & e & He & ->)], (all_ranges_cases r' Hr' Hz') as [Hf'|(k' & e' & He' & ->)].
  - destruct (fo_ranges _ (ci_fl s Hs)) as [_ H]. by apply (owner_unique _ r r' l H).
  - exfalso. apply Hx; [by exists r|by exists k', e'].
  - exfalso. apply Hx; [by exists r'|by exists k, e].
  - destruct (decide (k = k')) as [<-|Hne]; [congruence|].
    pose proof (tr_apart _ (ci_tree s Hs) _ _ _ _ He He' Hne). unfold apart, owns in *. lia.
Qed.

Lemma all_ranges_cover l : 0 <= l < LBIDS -> exists r, r ∈ all_ranges (em s) (fFreeList (mem s)) /\ owns r l.
Proof.
  unfold all_ranges. intros [(r & Hr & Ho)|(k & e & He & Ho)]%(ci_cover s Hs).
  - exists r. split; [|done]. apply list_elem_of_filter in Hr as [_ Hr]. set_solver.
  - exists (range e). split; [|done]. apply elem_of_app. right. apply list_elem_of_fmap. exists e. split; [done|].
    apply elem_of_values. eauto.
Qed.

Lemma pass_1b : test1b (S (length (fFreeList (mem s)) + size (em s))) (em s) (fFreeList (mem s)) 0 = Val true.
Proof.
  apply test1b_passes; eauto using all_ranges_ok, all_ranges_aligned, all_ranges_one, all_ranges_cover.
  - apply boundary_start; eauto using all_ranges_ok, all_ranges_one, all_ranges_cover.
  - transitivity (length (all_ranges (em s) (fFreeList (mem s)))); [apply length_filter|].
    unfold all_ranges. rewrite length_app, length_fmap, length_values. lia.
Qed.

(** The product of test 1a is computed in 32 bits: a free range of a multiple of
    2^22 units looks empty, and the extent right before it seems to reach into it. *)
Definition wraps (r : InlineLBIDRange) : Prop := r_size r mod 2 ^ 22 = 0.
Definition false_alarm : Prop :=
  exists r k e, r ∈ ranges (mem s) /\ wraps r /\ em s !! k = Some e /\ ends_at (range e) = r_start r.

Lemma u32_units n : 0 <= n -> u32 (n * 1024) = n mod 2 ^ 22 * 1024.
Proof. intros Hn. unfold u32. change (2 ^ 32) with (2 ^ 22 * 1024). by rewrite Z.mul_mod_distr_r by lia. Qed.

Lemma last32_le r : range_ok r -> last32 r <= ends_at r - 1 /\ (wraps r -> last32 r = r_start r - 1) /\ (~ wraps r -> r_start r <= last32 r).
Proof.
  intros (Hp & _). unfold last32, wraps, ends_at. rewrite u32_units by lia.
  pose proof (Z.mod_le (r_size r) (2 ^ 22) ltac:(lia) ltac:(lia)). pose proof (Z.mod_pos_bound (r_size r) (2 ^ 22)).
  split_and!; lia.
Qed.

Lemma pass_1a : ~ false_alarm -> test1a (em s) (fFreeList (mem s)) = true.
Proof.
  intros Hn. apply forallb_forall. intros e (k & He)%list_elem_of_In%elem_of_values.
  apply forallb_forall. intros r Hr. apply filter_In in Hr as [Hr Hz]. apply list_elem_of_In in Hr. apply negb_true_iff, Z.eqb_neq in Hz.
  assert (r ∈ ranges (mem s)) as Hf by (by apply list_elem_of_filter).
  assert (range_ok r) as Hok by (destruct (fo_ranges _ (ci_fl s Hs)) as [H _]; rewrite Forall_forall in H; by apply H).
  destruct (tr_range _ (ci_tree s Hs) _ _ He) as [Hoe Hsm].
  assert (apart (range e) r) as Hap.
  { apply apart_of; [apply Hoe|apply Hok|]. intros l Ho Ho'. apply (ci_excl s Hs l); [by exists r|by exists k, e]. }
  destruct (last32_le r Hok) as (H1 & H2 & H3).
  assert (last32 (range e) = ends_at (range e) - 1) as Hle.
  { unfold last32, ends_at. destruct Hoe as (? & _). rewrite u32_units by lia. rewrite Z.mod_small by lia. lia. }
  assert (wraps r -> ends_at (range e) <> r_start r) as Hna by (intros Hw Heq; apply Hn; exists r, k, e; done).
  apply negb_true_iff. unfold overlap32. unfold apart in Hap. fold (ends_at (range e)) (ends_at r) in Hap.
  destruct Hoe as (Hp & _), Hok as (Hp' & _).
  assert (r_start (range e) < ends_at (range e) /\ r_start r < ends_at r) as [? ?] by (unfold ends_at; lia).
  destruct (decide (wraps r)) as [Hw|Hw];
    [specialize (H2 Hw); specialize (Hna Hw)|specialize (H3 Hw)];
    repeat (match goal with |- context [?a <=? ?b] => destruct (Z.leb_spec a b) end; simpl; try done; try lia).
Qed.

Lemma pass_1c : (forall k e, em s !! k = Some e -> dbRoot e <> 0) -> test1c (em s) = true.
Proof.
  intros Hd. apply forallb_forall. intros e (k & He)%list_elem_of_In%elem_of_values. apply orb_true_iff. right.
  apply negb_true_iff, Z.eqb_neq. eauto.
Qed.

Lemma pass_2 : test2 (fFreeList (mem s)) = true.
Proof.
  destruct (fo_ranges _ (ci_fl s Hs)) as [Hok Hsep]. unfold ranges in *.
  induction (fFreeList (mem s)) as [|r l IH]; [done|]. simpl. rewrite filter_cons in Hok, Hsep. apply andb_true_iff.
  destruct (Z.eqb_spec (r_size r) 0) as [Hz|Hz]; simpl.
  { rewrite decide_False in Hok, Hsep by (unfold used; lia). auto. }
  rewrite decide_True in Hok, Hsep by done. apply Forall_cons in Hok as [Hr Hok]. destruct Hsep as [Hx Hsep].
  split; [|by apply IH]. apply forallb_forall. intros r' Hr'. apply list_elem_of_In in Hr'.
  destruct (Z.eqb_spec (r_size r') 0) as [|Hz']; [done|]. simpl. apply negb_true_iff, Z.eqb_neq.
  rewrite Forall_forall in Hx, Hok. assert (r' ∈ filter used l) as Hin by (by apply list_elem_of_filter).
  specialize (Hx _ Hin). destruct (Hok _ Hin) as (Hp' & _). destruct (last32_le r Hr) as (H1 & H2 & H3). destruct Hr as (Hp & _).
  unfold sep, ends_at in *. destruct (decide (wraps r)) as [Hw|Hw]; [specialize (H2 Hw)|specialize (H3 Hw)]; lia.
Qed.

Lemma pass_5a : zlen (fFreeList (mem s)) < 2 ^ 32 -> test5a (mem s) (fFreeList (mem s)) = true.
Proof.
  intros Hl. unfold test5a. rewrite (fo_cur _ (ci_fl s Hs)). unfold sizeof_InlineLBIDRange.
  assert (zlen (ExtentPart.used (fFreeList (mem s))) = zlen (ranges (mem s))) as ->.
  { unfold zlen, ranges. f_equal. clear. induction (fFreeList (mem s)) as [|r l IH]; [done|]. simpl. rewrite filter_cons.
    destruct (Z.eqb_spec (r_size r) 0) as [Hz|Hz]; simpl; [rewrite decide_False by (unfold used; lia)|rewrite decide_True by done; simpl]; lia. }
  assert (0 <= zlen (ranges (mem s)) <= zlen (fFreeList (mem s))).
  { unfold zlen, ranges. split; [lia|]. apply inj_le, length_filter. }
  rewrite u64_small by lia. rewrite Z.mul_comm, Z.div_mul by lia. apply Z.eqb_refl.
Qed.
End consistent.

(** ** What an accepted map satisfies *)
Definition in_space (r : InlineLBIDRange) : Prop := 0 <= r_size r /\ 0 <= r_start r /\ ends_at r <= LBIDS.

Lemma sweep_covers rs b b' : Forall in_space rs -> 0 <= b <= 2 ^ 26 -> sweep rs b = Some b' ->
  b <= b' <= 2 ^ 26 /\ forall l, b * 1024 <= l < b' * 1024 -> covers rs l.
Proof.
  intros Hrs. revert b. induction rs as [|r rs IH]; simpl; intros b Hb Hrun; [simplify_eq; split; [lia|intros l; lia]|].
  apply Forall_cons in Hrs as [(Hz & H0 & He) Hrs]. destruct (Z.eqb_spec (r_start r mod 1024) 0) as [Hm|]; [|done]. simpl in Hrun.
  pose proof (Z.div_mod (r_start r) 1024 ltac:(lia)) as Hd. unfold ends_at, LBIDS in He.
  destruct (Z.eqb_spec (r_start r / 1024) b) as [Heq|Hne].
  - rewrite i32_small in Hrun by lia. apply IH in Hrun as [Hle Hc]; [|done|lia]. split; [lia|]. intros l Hl.
    apply covers_cons. destruct (decide (l < (b + r_size r) * 1024)); [left; unfold owns; lia|right; apply Hc; lia].
  - apply IH in Hrun as [Hle Hc]; [|done|lia]. split; [lia|]. intros l Hl. apply covers_cons. right. by apply Hc.
Qed.

Lemma test1b_covers m l fuel b : Forall in_space (all_ranges m l) -> 0 <= b <= 2 ^ 26 -> test1b fuel m l b = Val true ->
  forall x, b * 1024 <= x < LBIDS -> covers (all_ranges m l) x.
Proof.
  intros Hin. revert b. induction fuel as [|fuel IH]; intros b Hb; simpl;
    (destruct (Z.ltb_spec b (2 ^ 26)) as [Hlt|Hge]; [|unfold LBIDS; intros; lia]); [done|].
  destruct (sweep l b) as [c|] eqn:Hc; [|done]. simpl. destruct (sweep _ c) as [d|] eqn:Hd; [|done]. simpl.
  unfold all_ranges in Hin. apply Forall_app in Hin as Hin2. destruct Hin2 as [Hl Hm].
  destruct (sweep_covers _ _ _ Hl Hb Hc) as [Hbc Hcl]. assert (0 <= c <= 2 ^ 26) as Hc0 by lia.
  destruct (sweep_covers _ _ _ Hm Hc0 Hd) as [Hcd Hcm].
  destruct (Z.eqb_spec d b); [done|]. intros Hrun x Hx.
  destruct (decide (x < c * 1024)) as [|?]; [|destruct (decide (x < d * 1024)) as [|?]].
  - destruct (Hcl x ltac:(lia)) as (r & Hr & Ho). exists r. unfold all_ranges. set_solver.
  - destruct (Hcm x ltac:(lia)) as (r & Hr & Ho). exists r. unfold all_ranges. set_solver.
  - apply (IH d); [lia|done|lia].
Qed.

Lemma overlap32_apart a b l : 0 <= r_size a < 2 ^ 22 -> 0 <= r_size b < 2 ^ 22 -> overlap32 a b = false -> owns a l -> ~ owns b l.
Proof.
  intros Ha Hb. unfold overlap32, last32, owns. rewrite !u32_units by lia. rewrite !Z.mod_small by lia.
  repeat (match goal with |- context [?a <=? ?b] => destruct (Z.leb_spec a b) end; simpl; try done; try lia).
Qed.

(** ** The check as a whole *)
Definition rLocks : Locks := mkLocks false false false 1 1 1.

Lemma grab3_read s : 0 < allocdSize (fEMShminfo (mem s)) -> 0 < allocdSize (fFLShminfo (mem s)) -> locks s = noLocks ->
  grab3 READ s = (Val tt, set_locks rLocks s).
Proof.
  intros He Hf Hl. destruct s as [m h ix u rb lk cf]. simpl in *. subst lk.
  unfold grab3, grab2, grabEMEntryTable, grabEMIndex, grabFreeList, grab, upd_locks, modify, gets, mbind, M_bind. simpl.
  assert (allocdSize (fEMShminfo h) =? 0 = false) as -> by (apply Z.eqb_neq; lia). simpl.
  assert (allocdSize (fFLShminfo h) =? 0 = false) as -> by (apply Z.eqb_neq; lia). done.
Qed.

Lemma check_bind {A} b what (f : unit -> M t A) s :
  (check b what ≫= f) s = if b then f tt s else (Exn (logic_error what), s).
Proof. by destruct b. Qed.

(** The check, once the free list is the whole array. *)
Lemma check_run s :
  0 < allocdSize (fEMShminfo (mem s)) -> 0 < allocdSize (fFLShminfo (mem s)) -> locks s = noLocks ->
  flEntries (mem s) = zlen (fFreeList (mem s)) ->
  let l := fFreeList (mem s) in
  forall s', checkConsistency s = (Val 0, s') <->
  (test1a (em s) l = true /\ test1b (S (length l + size (em s))) (em s) l 0 = Val true /\ test1c (em s) = true /\
   test2 l = true /\ test5a (mem s) l = true) /\ s' = s.
Proof.
  intros He Hf Hl Hn l s'. unfold checkConsistency. rewrite (bind_Val _ _ _ _ _ (grab3_read s He Hf Hl)).
  rewrite (bind_Val _ _ _ (em s) (set_locks rLocks s)), (bind_Val _ _ _ (mem s) (set_locks rLocks s)) by done.
  rewrite Hn. unfold zlen. rewrite Nat2Z.id, firstn_all. fold l.
  rewrite check_bind. destruct (test1a _ _); [|split; [done|by intros [(? & _) _]]].
  unfold lift. unfold mbind at 1, M_bind at 1.
  destruct (test1b _ _ _ _) as [b|?|?] eqn:Hb; [|split; [done|by intros [(_ & ? & _) _]]..].
  rewrite check_bind. destruct b; [|split; [done|intros [(_ & ? & _) _]; congruence]].
  rewrite check_bind. destruct (test1c _); [|split; [done|by intros [(_ & _ & ? & _) _]]].
  rewrite check_bind. destruct (test2 _); [|split; [done|by intros [(_ & _ & _ & ? & _) _]]].
  rewrite check_bind. destruct (test5a _ _); [|split; [done|by intros [(_ & _ & _ & _ & ?) _]]].
  destruct s as [m h ix u rb lk cf]. simpl in *. subst lk. split; [|by intros [_ ->]].
  intros Hrun. split; [done|]. injection Hrun. done.
Qed.

Lemma em_check_accepts s :
  em_inv s -> locks s = noLocks -> (forall k e, em s !! k = Some e -> dbRoot e <> 0) ->
  allocdSize (fFLShminfo (mem s)) < 2 ^ 31 -> ~ false_alarm s ->
  checkConsistency s = (Val 0, s).
Proof.
  intros [Hs _ _] Hl Hd Ha Hn. pose proof (fo_alloc _ (ci_fl s Hs)) as Hal. pose proof (fo_len _ (ci_fl s Hs)) as Hlen.
  unfold sizeof_InlineLBIDRange in Hal. apply check_run; [apply (ci_mapped s Hs)|lia|done|by apply flEntries_zlen, ci_fl|].
  split; [|done]. split_and!; [by apply pass_1a|by apply pass_1b|by apply pass_1c|by apply pass_2|].
  apply pass_5a; [done|lia].
Qed.

(** [ExtentMap::checkConsistency] terminates and accepts: on an extent map that
    satisfies the invariant (every LBID is in exactly one extent or free range, the
    free list is consolidated and its size is right), with no lock held and no extent
    on dbroot 0, the walk over the LBID space ends within one pass per range, all the
    tests pass, 0 is returned and the locks are given back.  The one state excluded is
    a free range of a multiple of 2^22 units right behind an extent, where the 32-bit
    product of test 1a wraps. *)
Theorem em_check_passes s :
  em_inv s -> locks s = noLocks -> (forall k e, em s !! k = Some e -> dbRoot e <> 0) ->
  allocdSize (fFLShminfo (mem s)) < 2 ^ 31 -> ~ false_alarm s ->
  checkConsistency s = (Val 0, s).
Proof. apply em_check_accepts. Qed.

(** A map that [checkConsistency] accepts has no hole: if it returns 0 then every
    LBID of the space lies in an extent or in an entry of the free list, no extent
    shares an LBID with a free range (of less than 2^22 units), no used extent is on
    dbroot 0, and the recorded size of the free list counts the entries in use.  No
    invariant is assumed, only that the entries lie inside the LBID space and that
    the array has the allocated size. *)
Theorem em_check_sound s s' :
  checkConsistency s = (Val 0, s') ->
  locks s = noLocks -> 0 < allocdSize (fEMShminfo (mem s)) -> 0 < allocdSize (fFLShminfo (mem s)) ->
  flEntries (mem s) = zlen (fFreeList (mem s)) ->
  Forall in_space (all_ranges (em s) (fFreeList (mem s))) ->
  (forall l, 0 <= l < LBIDS -> free (mem s) l \/ allocated (em s) l) /\
  (forall k e r l, em s !! k = Some e -> r ∈ ranges (mem s) -> r_size (range e) < 2 ^ 22 -> r_size r < 2 ^ 22 ->
     owns (range e) l -> ~ owns r l) /\
  (forall k e, em s !! k = Some e -> r_size (range e) <> 0 -> dbRoot e <> 0).
Proof.
  intros Hrun Hl He Hf Hn Hin. apply check_run in Hrun as [(H1a & H1b & H1c & _) _]; try done.
  unfold test1a, test1c in *. rewrite forallb_forall in H1a, H1c. split_and!.
  - intros l Hl'. destruct (test1b_covers _ _ _ 0 Hin ltac:(lia) H1b l ltac:(lia)) as (r & Hr & Ho).
    assert (r_size r <> 0) as Hz by (unfold owns in Ho; lia).
    destruct (all_ranges_cases s r Hr Hz) as [Hr'|(k & e & Hk & ->)]; [left; by exists r|right; by exists k, e].
  - intros k e r l Hk Hr Hse Hsr. apply list_elem_of_filter in Hr as [Hu Hr]. unfold all_ranges in Hin.
    apply Forall_app in Hin as [Hfl Hem]. rewrite Forall_forall in Hfl, Hem.
    assert (e ∈ values (em s)) as Hv by (apply elem_of_values; eauto).
    destruct (Hfl r Hr) as [? _]. destruct (Hem (range e)) as [? _]; [apply list_elem_of_fmap; eauto|].
    apply overlap32_apart; [lia..|]. apply negb_true_iff.
    specialize (H1a e (proj1 (list_elem_of_In _ _) Hv)). rewrite forallb_forall in H1a. apply H1a, filter_In.
    split; [by apply list_elem_of_In|]. apply negb_true_iff, Z.eqb_neq. exact Hu.
  - intros k e Hk Hz. assert (e ∈ values (em s)) as Hv by (apply elem_of_values; eauto).
    specialize (H1c e (proj1 (list_elem_of_In _ _) Hv)).
    destruct (Z.eqb_spec (r_size (range e)) 0); [done|]. simpl in H1c. by apply negb_true_iff, Z.eqb_neq in H1c.
Qed.

(** ** Witnesses *)
Lemma em_check_passes_run : checkConsistency em1 = (Val 0, em1).
Proof. vm_compute. reflexivity. Qed.

Lemma em_check_passes_witness : checkConsistency em1 = (Val 0, em1).
Proof.
  apply em_check_passes; [apply em1_ready|done| | |].
  - rewrite em1_em. by intros k e [<- <-]%lookup_singleton_Some.
  - vm_compute. done.
  - intros (r & k & e & Hr & Hw & _). assert (ranges (mem em1) = [mkRange 8192 (2 ^ 26 - 8)]) as Heq by (vm_compute; reflexivity).
    rewrite Heq in Hr. apply list_elem_of_singleton in Hr as ->. by vm_compute in Hw.
Defined.

Lemma em_check_sound_witness : free (mem em1) 100000 \/ allocated (em em1) 100000.
Proof.
  destruct (em_check_sound em1 em1) as (H & _ & _).
  - apply em_check_passes_run.
  - reflexivity.
  - vm_compute. reflexivity.
  - vm_compute. reflexivity.
  - vm_compute. reflexivity.
  - assert (all_ranges (em em1) (fFreeList (mem em1)) = mkRange 8192 (2 ^ 26 - 8) :: replicate 49 emptyRange ++ [mkRange 0 8]) as ->
      by (vm_compute; reflexivity).
    repeat constructor; unfold in_space, ends_at, LBIDS; simpl; lia.
  - apply H. unfold LBIDS. lia.
Defined.

(** ** The false alarm *)
Definition e101 : EMEntry := new_column (8192 + 2 ^ 32) 8 101 1 INT 0 0 0.
Definition wrapped : t :=
  mk {[0 := e100; 8192 + 2 ^ 32 := e101]}
    (mkMem (mkMST 0x30001 800 32) (mkMST 0x20001 (16 * 1024 * 1024) 1344) 0x30001
       (mkRange 8192 (2 ^ 22) :: mkRange (16384 + 2 ^ 32) (2 ^ 26 - 2 ^ 22 - 16) :: replicate 48 emptyRange))
    [] [] [] noLocks cfg.

Lemma wrapped_core : core_inv wrapped.
Proof.
  assert (forall k e, em wrapped !! k = Some e -> k = 0 /\ e = e100 \/ k = 8192 + 2 ^ 32 /\ e = e101) as Hem.
  { change (em wrapped) with (<[0 := e100]> {[8192 + 2 ^ 32 := e101]} : gmap Z EMEntry).
    intros k e [[<- <-]|[_ [<- <-]%lookup_singleton_Some]]%lookup_insert_Some; auto. }
  assert (ranges (mem wrapped) = [mkRange 8192 (2 ^ 22); mkRange (16384 + 2 ^ 32) (2 ^ 26 - 2 ^ 22 - 16)]) as Hr by (vm_compute; reflexivity).
  constructor.
  - constructor; [done|by repeat constructor|done|by rewrite Hr|]. rewrite Hr. split.
    + repeat constructor; unfold LBIDS; simpl; lia.
    + by repeat constructor.
  - constructor.
    + by intros k e [[-> ->]|[-> ->]]%Hem.
    + intros k e [[-> ->]|[-> ->]]%Hem; unfold range_ok, LBIDS; split_and!; by vm_compute.
    + intros k k' e e' [[-> ->]|[-> ->]]%Hem [[-> ->]|[-> ->]]%Hem ?; unfold apart; simpl; lia.
  - unfold free. rewrite Hr. intros l (r & Hin & Ho) (k & e & [[-> ->]|[-> ->]]%Hem & Ho'); unfold owns in *; simpl in Ho';
      apply elem_of_cons in Hin as [->| ->%list_elem_of_singleton]; simpl in Ho; lia.
  - unfold free. rewrite Hr. intros l Hl. unfold LBIDS in Hl.
    destruct (decide (l < 8192)); [right; exists 0, e100; split; [done|unfold owns; simpl; lia]|].
    destruct (decide (l < 8192 + 2 ^ 32)); [left; eexists; split; [by left|unfold owns; simpl; lia]|].
    destruct (decide (l < 16384 + 2 ^ 32)); [right; exists (8192 + 2 ^ 32), e101; split; [done|unfold owns; simpl; lia]|].
    left; eexists; split; [right; by left|unfold owns; simpl; lia].
  - done.
  - vm_compute. reflexivity.
Qed.

(** The product [fFreeList[j].size * 1024] of test 1a is computed in 32 bits: on this
    consistent map, with 2^22 free units behind an extent, the check reports an
    overlap that is not there, and leaves the structures locked. *)
Lemma em_check_false_alarm :
  core_inv wrapped /\
  checkConsistency wrapped =
    (Exn (logic_error "EM checkConsistency test 1a (data structures are read-locked)"), set_locks rLocks wrapped).
Proof. split; [apply wrapped_core|]. vm_compute. reflexivity. Qed.

End EmCheck.
