(* ===== verification/EmFileClaims.v ===== *)
(** * The extent map: save and load

    A saved extent map is the map that is loaded again; the free list is rebuilt as
    the complement of the extents and the index as the list of the extents. *)

From S2P Require Import Prelude Hasher Bytes Undoable Vbbm Vss Persist PersistClaims ExtentMap ExtentOps ExtentHwm ExtentFile EmThms EmFree EmIndex EmOps EmPlace EmCmds EmHwm EmClaims EmFacts EmCheck.
From stdpp Require Import prelude gmap strings sorting.
Local Open Scope Z_scope.

(** ** Loading the extent map: the free list

    [reserveLBIDRange] takes the LBIDs of one extent out of the free list, at the
    front or the back of an entry or from its middle. *)

Module EmFile.
Import ExtentMap ExtentOps ExtentFile EmThms EmFree.

Lemma elem_zget {A} (l : list A) y : y ∈ l -> exists k, zget l k = Some y.
Proof.
  intros (k & Hk)%list_elem_of_lookup. exists (Z.of_nat k). unfold zget. destruct (Z.ltb_spec (Z.of_nat k) 0); [lia|]. by rewrite Nat2Z.id.
Qed.

Lemma zget_app_l {A} (l l' : list A) i y : zget l i = Some y -> zget (l ++ l') i = Some y.
Proof. unfold zget. destruct (i <? 0); [done|]. by apply lookup_app_l_Some. Qed.

Lemma zget_app_end {A} (l l' : list A) y : zget (l ++ y :: l') (zlen l) = Some y.
Proof. unfold zget, zlen. destruct (Z.ltb_spec (Z.of_nat (length l)) 0); [lia|]. rewrite Nat2Z.id. by apply list_lookup_middle. Qed.

(** [x] lies in [r]. *)
Definition within (r x : InlineLBIDRange) : Prop := r_start r <= r_start x /\ ends_at x <= ends_at r.

Lemma seps_ne u r r' : seps u -> r ∈ u -> r' ∈ u -> r <> r' -> sep r r'.
Proof.
  induction u as [|y u IH]; [by intros _ ?%not_elem_of_nil|]. intros [Hy Hu]. rewrite Forall_forall in Hy.
  intros [->|Hr]%elem_of_cons [->|Hr']%elem_of_cons Hne; try done; [by apply Hy|apply sep_sym; by apply Hy|by apply IH].
Qed.

(** Replacing a range by the pieces that are left of it. *)
Lemma ranges_ok_pieces r x ps u :
  ranges_ok (r :: u) -> within r x -> ranges_ok ps -> Forall (within r) ps ->
  (forall l, covers ps l <-> owns r l /\ ~ owns x l) ->
  ranges_ok (ps ++ u) /\ forall l, covers (ps ++ u) l <-> covers (r :: u) l /\ ~ owns x l.
Proof.
  intros (Hr & Hs & Hu)%ranges_ok_cons Hx Hps Hin Hcov. rewrite Forall_forall in Hs. split.
  - clear Hcov. induction ps as [|p ps IH]; [done|]. apply ranges_ok_cons in Hps as (Hp & Hsp & Hps).
    apply Forall_cons in Hin as [Hwp Hin]. simpl. apply ranges_ok_cons. split_and!; [done| |by apply IH].
    apply Forall_app. split; [done|]. apply Forall_forall. intros y Hy. specialize (Hs y Hy).
    unfold sep, within, ends_at in *. lia.
  - intros l. rewrite covers_cons. split.
    + intros (y & [Hy|Hy]%elem_of_app & Ho).
      * destruct (Hcov l) as [H _]. destruct H as [? ?]; [by exists y|]. auto.
      * split; [right; by exists y|]. specialize (Hs y Hy). unfold sep, within, owns, ends_at in *. lia.
    + intros [[Ho|(y & Hy & Ho)] Hn].
      * destruct (Hcov l) as [_ H]. destruct H as (y & Hy & Hoy); [done|]. exists y. set_solver.
      * exists y. set_solver.
Qed.

(** What taking [x] out of the free list does. *)
Definition took (x : InlineLBIDRange) (s s' : t) : Prop :=
  exists m u, s' = put m u s /\ fl_ok m /\ fEMShminfo m = fEMShminfo (mem s) /\
    forall l, free m l <-> free (mem s) l /\ ~ owns x l.

Section reserve.
Context (x : InlineLBIDRange) (Hx : range_ok x) (Hsmall : r_size x < 256).

Let lo := r_start x.
Let sz := r_size x.

Lemma took_pieces s m i r l' ps :
  fl_ok m -> fEMShminfo m = fEMShminfo (mem s) -> ranges m ≡ₚ ranges (mem s) ->
  zget (fFreeList m) i = Some r -> used r -> within r x ->
  ranges_ok ps -> Forall (within r) ps -> (forall l, covers ps l <-> owns r l /\ ~ owns x l) ->
  zlen l' = zlen (fFreeList m) -> Forall aligned l' ->
  (forall u, ranges m ≡ₚ r :: u -> filter used l' ≡ₚ ps ++ u) ->
  forall c u, c = currentSize (fFLShminfo m) + sizeof_InlineLBIDRange * (zlen ps - 1) ->
  took x s (put (set_flinfo (with_cur c (fFLShminfo m)) (set_fl l' m)) u s).
Proof.
  intros Hm Hem Hsame Hi Hu Hw Hps Hin Hcov Hl Hal Hperm c u ->.
  destruct (used_update _ _ _ r Hi Hu Hu) as (rest & Hrest & _). change (filter used (fFreeList m)) with (ranges m) in Hrest.
  pose proof (fo_ranges _ Hm) as Hok. rewrite Hrest in Hok.
  destruct (ranges_ok_pieces _ _ _ _ Hok Hw Hps Hin Hcov) as [Hok' Hcov'].
  destruct (fl_ok_intro m l' (currentSize (fFLShminfo m) + sizeof_InlineLBIDRange * (zlen ps - 1)) (ps ++ rest) Hm Hl Hal
    (Hperm _ Hrest) Hok') as [Hfl Hfree].
  { rewrite (fo_cur _ Hm). unfold zlen. rewrite Hrest, length_app. simpl. lia. }
  eexists _, _. split; [reflexivity|]. split_and!; [exact Hfl|done|].
  intros l. rewrite Hfree, Hcov'. unfold free. by rewrite <- Hrest, Hsame.
Qed.
Lemma units_of r : range_ok r -> within r x -> 0 <= r_start x - r_start r /\ (r_start x - r_start r) mod 1024 = 0 /\
  r_start x - r_start r = 1024 * ((r_start x - r_start r) / 1024).
Proof.
  intros (Hp & Hm & H0 & He) Hw. destruct Hx as (Hp' & Hm' & H0' & He'). unfold within in Hw.
  assert ((r_start x - r_start r) mod 1024 = 0) as Hd by (rewrite Zminus_mod, Hm, Hm'; done).
  pose proof (Z.div_mod (r_start x - r_start r) 1024 ltac:(lia)). split_and!; lia.
Qed.

Lemma reserve_front s i r :
  fl_ok (mem s) -> zget (fFreeList (mem s)) i = Some r -> used r -> within r x -> lo = r_start r ->
  wp (makeUndo (fun k => LFree k i) ;;
      upd_free i (fun r => mkRange (r_start r + sz * 1024) (u32 (r_size r - sz))) ;;
      drop_entry_if_empty i) s (fun _ s' => took x s s').
Proof.
  intros Hm Hi Hu Hw Hlo. pose proof (range_ok_zget _ _ _ Hm Hi Hu) as (Hp & _ & H0 & He). pose proof (zget_Some_range _ _ _ Hi).
  destruct Hx as (Hpx & _). unfold within, ends_at, LBIDS, lo, sz in *.
  destruct (shrink_ok (mem s) i r (r_size x) Hm Hi ltac:(lia)) as [Hok Hfree].
  assert (forall u, took x s (put (shrink i (r_size x) r (mem s)) u s)) as Ht.
  { intros u. eexists _, u. split; [reflexivity|]. split_and!; [done|done|]. intros l. rewrite Hfree. unfold owns. rewrite Hlo. done. }
  wp_step. eapply em_wp_makeUndo; [by apply em_read_free|].
  wp_step. eapply em_wp_upd_free; [exact Hi|]. simpl. rewrite (u32_small (r_size r - r_size x)) by lia.
  unfold drop_entry_if_empty. wp_step. eapply wp_lift; [apply aget_Val; simpl; by apply zget_zset_eq|].
  cbn [r_size]. unfold shrink, shrink_info, rest_of, put in Ht. destruct (Z.eqb_spec (r_size r - r_size x) 0) as [Hz|Hz].
  - destruct (Z.eqb_spec (r_size r) (r_size x)); [|lia]. wp_step. eapply em_wp_makeUndo; [done|]. apply wp_modify. simpl.
    eapply (Ht (_ ++ _)).
  - destruct (Z.eqb_spec (r_size r) (r_size x)); [lia|]. wp_step. destruct s as [? []]. apply Ht.
Qed.

Lemma put_same s l u : set_mem (set_fl l (mem s)) (set_undo u s) =
  put (set_flinfo (with_cur (currentSize (fFLShminfo (mem s))) (fFLShminfo (mem s))) (set_fl l (mem s))) u s.
Proof. by destruct s as [? [[]]]. Qed.

Lemma reserve_back s i r :
  fl_ok (mem s) -> zget (fFreeList (mem s)) i = Some r -> used r -> within r x -> lo <> r_start r -> ends_at x = ends_at r ->
  wp (makeUndo (fun k => LFree k i) ;;
      upd_free i (fun r => mkRange (r_start r) (u32 (r_size r - sz))) ;;
      drop_entry_if_empty i) s (fun _ s' => took x s s').
Proof.
  intros Hm Hi Hu Hw Hlo Hend. pose proof (range_ok_zget _ _ _ Hm Hi Hu) as Hr. pose proof (zget_Some_range _ _ _ Hi).
  destruct (units_of r Hr Hw) as (Hd0 & _ & Hd). destruct Hr as (Hp & Hal & H0 & He). destruct Hx as (Hpx & _).
  unfold within, ends_at, LBIDS, lo, sz in *.
  wp_step. eapply em_wp_makeUndo; [by apply em_read_free|].
  wp_step. eapply em_wp_upd_free; [exact Hi|]. simpl. rewrite (u32_small (r_size r - r_size x)) by lia.
  set (p := mkRange (r_start r) (r_size r - r_size x)).
  unfold drop_entry_if_empty. wp_step. eapply wp_lift; [apply aget_Val; simpl; by apply zget_zset_eq|].
  unfold p at 1. cbn [r_size]. destruct (Z.eqb_spec (r_size r - r_size x) 0) as [Hz|Hz]; [lia|]. wp_step.
  assert (used p) as Hup by (unfold used, p; simpl; lia).
  pose proof (took_pieces s (mem s) i r (zset (fFreeList (mem s)) i p) [p] Hm eq_refl (reflexivity _) Hi Hu) as Ht.
  rewrite (put_same s).
  apply Ht; clear Ht.
  - unfold within, ends_at. lia.
  - apply ranges_ok_cons. split_and!; [unfold range_ok, LBIDS, p; simpl; lia|done|by split].
  - apply Forall_singleton. unfold within, ends_at, p. simpl. lia.
  - intros l. rewrite covers_cons. unfold covers, owns, p. simpl. set_solver by lia.
  - apply zlen_zset.
  - apply Forall_zset; [apply (fo_align _ Hm)|]. done.
  - intros u Hp'. destruct (used_update _ _ _ p Hi Hu Hup) as (u' & H1 & H2). rewrite H2. simpl.
    change (filter used (fFreeList (mem s))) with (ranges (mem s)) in H1. rewrite Hp' in H1. apply (inj (cons r)) in H1. by rewrite H1.
  - unfold zlen. simpl. lia.
Qed.
(** What is left of [r] on both sides of [x]: in its own slot [i] and in [f]. *)
Definition split_code (i f : Z) (r : InlineLBIDRange) : M t unit :=
  makeUndo (fun k => LFree k i) ;;
  makeUndo (fun k => LFree k f) ;;
  makeUndo (fun _ => LFLInfo) ;;
  upd_free i (fun r => mkRange (r_start r) (u32 (Z.quot (lo - r_start r) 1024))) ;;
  upd_free f (fun _ => mkRange (lo + sz * 1024)
    (u32 (Z.quot (r_start r + r_size r * 1024 - 1 - (lo + sz * 1024 - 1)) 1024))) ;;
  upd_flinfo (fun x => with_cur (currentSize x + sizeof_InlineLBIDRange) x).

Lemma reserve_middle s m i f r y :
  fl_ok m -> fEMShminfo m = fEMShminfo (mem s) -> ranges m ≡ₚ ranges (mem s) ->
  zget (fFreeList m) i = Some r -> used r -> zget (fFreeList m) f = Some y -> ~ used y ->
  within r x -> lo <> r_start r -> ends_at x <> ends_at r ->
  wp (split_code i f r) (set_mem m s) (fun _ s' => took x s s').
Proof.
  intros Hm Hem Hsame Hi Hu Hf Hnu Hw Hlo Hend. pose proof (range_ok_zget _ _ _ Hm Hi Hu) as Hr.
  pose proof (zget_Some_range _ _ _ Hi) as Hri. pose proof (zget_Some_range _ _ _ Hf) as Hrf.
  assert (i <> f) as Hif by (intros ->; by simplify_eq).
  destruct (units_of r Hr Hw) as (Hd0 & _ & Hd). destruct Hr as (Hp & Hal & H0 & He). destruct Hx as (Hpx & Halx & _). unfold split_code.
  unfold within, ends_at, LBIDS, lo, sz in *. set (a := (r_start x - r_start r) / 1024) in *. clearbody a.
  replace (r_start r + r_size r * 1024 - 1 - (r_start x + r_size x * 1024 - 1)) with ((r_size r - r_size x - a) * 1024) by lia.
  rewrite Z.quot_mul by lia. rewrite (u32_small (r_size r - r_size x - a)) by lia.
  wp_step. eapply em_wp_makeUndo; [by apply em_read_free|].
  wp_step. eapply em_wp_makeUndo; [by apply em_read_free|].
  wp_step. eapply em_wp_makeUndo; [done|].
  wp_step. eapply em_wp_upd_free; [exact Hi|]. simpl.
  replace (Z.quot (r_start x - r_start r) 1024) with a by (rewrite Hd, Z.mul_comm, Z.quot_mul; lia). rewrite (u32_small a) by lia.
  set (p := mkRange (r_start r) a). set (q := mkRange (r_start x + r_size x * 1024) (r_size r - r_size x - a)).
  wp_step. eapply em_wp_upd_free; [simpl; rewrite zget_zset_ne by done; exact Hf|]. apply wp_modify. simpl.
  assert (used p /\ used q) as [Hup Huq] by (unfold used, p, q; simpl; lia).
  eapply (took_pieces s m i r (zset (zset (fFreeList m) i p) f q) [p; q]); try done; clear Hsame Hem.
  - apply ranges_ok_cons. split_and!; [unfold range_ok, LBIDS, p; simpl; lia| |].
    + apply Forall_singleton. unfold sep, p, q. simpl. lia.
    + apply ranges_ok_cons. split_and!; [|done|by split]. unfold range_ok, LBIDS, q. simpl. split_and!; try lia.
      rewrite Z.mod_add by lia. done.
  - constructor; [|constructor; [|done]]; unfold within, ends_at, p, q; simpl; lia.
  - intros l. rewrite !covers_cons. unfold covers, owns, p, q. simpl. set_solver by lia.
  - by rewrite !zlen_zset.
  - apply Forall_zset; [apply Forall_zset; [apply (fo_align _ Hm)|done]|]. unfold aligned, q. simpl. by rewrite Z.mod_add by lia.
  - intros u Hp'. destruct (used_update _ _ _ p Hi Hu Hup) as (u' & H1 & H2).
    change (filter used (fFreeList m)) with (ranges m) in H1. rewrite Hp' in H1. apply (inj (cons r)) in H1.
    rewrite (filter_zset_perm used _ _ _ _ (eq_trans (zget_zset_ne _ _ _ _ Hif) Hf) Hnu Huq), H2, H1. simpl. apply Permutation_swap.
Qed.
Lemma next_free_spec n : forall i l k y, 0 <= i -> i <= k < i + Z.of_nat n -> zget l k = Some y -> ~ used y ->
  i + Z.of_nat n <= zlen l -> exists f z, next_free n i l = Val f /\ zget l f = Some z /\ ~ used z.
Proof.
  induction n as [|n IH]; intros i l k y H0 Hk Hy Hnu Hn; [lia|]. simpl.
  destruct (zget_is_Some l i) as [z Hz]; [lia|]. rewrite (proj2 (aget_Val _ _ _) Hz). simpl.
  destruct (Z.eqb_spec (r_size z) 0) as [|Hne]; [exists i, z; unfold used; split_and!; [done..|lia]|].
  apply (IH (i + 1) l k y); try done; try lia.
  assert (k <> i) by (intros ->; unfold used in Hnu; simplify_eq; lia). lia.
Qed.

(** No entry up to [i] is free and the segment is not full: there is a free one after [i]. *)
Lemma free_after s i :
  fl_ok (mem s) -> 0 <= i < zlen (fFreeList (mem s)) -> (forall k y, 0 <= k <= i -> zget (fFreeList (mem s)) k = Some y -> used y) ->
  currentSize (fFLShminfo (mem s)) <> allocdSize (fFLShminfo (mem s)) ->
  exists k y, i < k < zlen (fFreeList (mem s)) /\ zget (fFreeList (mem s)) k = Some y /\ ~ used y.
Proof.
  intros Hm Hi Hused Hfull.
  destruct (decide (Exists (fun y => ~ used y) (fFreeList (mem s)))) as [(y & (k & Hk)%elem_zget & Hnu)%Exists_exists|Hall].
  - exists k, y. split; [|done]. pose proof (zget_Some_range _ _ _ Hk). split; [|lia].
    destruct (decide (k <= i)); [|lia]. exfalso. apply Hnu, (Hused k); [lia|done].
  - exfalso. apply Hfull. rewrite (fo_cur _ Hm), (fo_alloc _ Hm). f_equal. apply scan_all_used.
    intros j r Hj. destruct (decide (used r)); [done|]. exfalso. apply Hall, Exists_exists. exists r. split; [|done].
    unfold zget in Hj. destruct (j <? 0); [done|]. by eapply list_elem_of_lookup_2.
Qed.

Definition slot_found (l : list InlineLBIDRange) (i f : Z) : Prop :=
  f = -1 /\ (forall k y, 0 <= k < i -> zget l k = Some y -> used y) \/ f <> -1 /\ exists y, zget l f = Some y /\ ~ used y.

(** The slot for the second piece: one found before, a new one, or the next free one. *)
Definition slot_code (i f total : Z) : M t Z :=
  if f =? -1 then
    full ← gets (fun s => currentSize (fFLShminfo (mem s)) =? allocdSize (fFLShminfo (mem s)));
    if (full : bool) then growFLShmseg ;; mret total
    else lift (fun s => next_free (Z.to_nat (total - (i + 1))) (i + 1) (fFreeList (mem s)))
  else mret f.

Lemma slot_spec i f s y :
  fl_ok (mem s) -> 0 <= i -> zget (fFreeList (mem s)) i = Some y -> used y -> slot_found (fFreeList (mem s)) i f ->
  wp (slot_code i f (zlen (fFreeList (mem s)))) s (fun f' s' => exists m z, s' = set_mem m s /\ fl_ok m /\
    fEMShminfo m = fEMShminfo (mem s) /\ ranges m ≡ₚ ranges (mem s) /\
    zget (fFreeList m) i = Some y /\ zget (fFreeList m) f' = Some z /\ ~ used z).
Proof.
  intros Hm H0 Hy Hu Hslot. pose proof (zget_Some_range _ _ _ Hy) as Hrange. unfold slot_code.
  destruct Hslot as [[-> Hbefore]|[Hne (z & Hf & Hnu)]].
  - rewrite Z.eqb_refl. wp_step. wp_step. destruct (Z.eqb_spec (currentSize (fFLShminfo (mem s))) (allocdSize (fFLShminfo (mem s)))) as [Hfull|Hfull].
    + wp_step. eapply wp_mono; [by apply growFL_spec|]. intros [] s' (m & -> & Hm' & Hem & Hl & HR). wp_step.
      exists m, emptyRange. rewrite HR, Hl. split_and!; try done; [by apply zget_app_l|apply zget_app_end|unfold used; simpl; lia].
    + destruct (free_after s i) as (k & z & Hk & Hz' & Hnu); try done.
      { intros k z Hk Hz'. destruct (decide (k = i)) as [->|]; [by simplify_eq|]. apply (Hbefore k); [lia|done]. }
      destruct (next_free_spec (Z.to_nat (zlen (fFreeList (mem s)) - (i + 1))) (i + 1) (fFreeList (mem s)) k z) as (f & w & Hrun & Hf & Hnf);
        try done; try lia.
      eapply wp_lift; [exact Hrun|]. exists (mem s), w. split_and!; try done. by destruct s.
  - destruct (Z.eqb_spec f (-1)); [done|]. wp_step. exists (mem s), z. split_and!; try done. by destruct s.
Qed.

Lemma reserve_entries_spec n : forall i f s,
  fl_ok (mem s) -> 0 <= i -> i + Z.of_nat n = zlen (fFreeList (mem s)) -> slot_found (fFreeList (mem s)) i f ->
  (exists j r, i <= j /\ zget (fFreeList (mem s)) j = Some r /\ used r /\ within r x) ->
  wp (reserve_scan n i lo sz f (zlen (fFreeList (mem s)))) s (fun _ s' => took x s s').
Proof.
  induction n as [|n IH]; intros i f s Hm H0 Hn Hslot (j & r & Hj & Hr & Hu & Hw); [pose proof (zget_Some_range _ _ _ Hr); lia|].
  cbn [reserve_scan]. destruct (zget_is_Some (fFreeList (mem s)) i) as [y Hy]; [lia|].
  wp_step. eapply wp_lift; [by apply aget_Val|]. destruct (Z.eqb_spec (r_size y) 0) as [Hz|Hz].
  { apply IH; try done; try lia.
    - unfold slot_found. destruct (Z.eqb_spec f (-1)) as [->|Hf]; right.
      + split; [lia|]. exists y. split; [done|]. unfold used. lia.
      + destruct Hslot as [[? _]|Hs]; [done|done].
    - exists j, r. split_and!; try done. assert (j <> i) by (intros ->; simplify_eq; done). lia. }
  assert (y ∈ ranges (mem s)) as Hyin by (by eapply ranges_zget). assert (r ∈ ranges (mem s)) as Hrin by (by eapply ranges_zget).
  destruct (fo_ranges _ Hm) as [Hoks Hseps]. rewrite Forall_forall in Hoks. pose proof (Hoks y Hyin) as Hyok.
  destruct (decide (within y x)) as [Hwy|Hwy].
  - destruct (Z.eqb_spec lo (r_start y)) as [Hlo|Hlo]; [by apply (reserve_front _ _ y)|].
    destruct (Z.eqb_spec (r_start y + r_size y * 1024 - 1) (lo + sz * 1024 - 1)) as [He|He].
    { apply (reserve_back _ _ y); try done. unfold ends_at, lo, sz in *. lia. }
    unfold within, ends_at in Hwy. destruct Hx as (Hpx & _).
    destruct (Z.ltb_spec (r_start y) lo); [|unfold lo in *; lia].
    destruct (Z.ltb_spec (lo + sz * 1024 - 1) (r_start y + r_size y * 1024 - 1)); [|unfold lo, sz in *; lia]. cbn [andb].
    wp_step. eapply wp_mono; [apply (slot_spec i f s y); try done; lia|].
    intros f' s' (m & z & -> & Hm' & Hem & Hsame & Hi' & Hf' & Hnu).
    apply (reserve_middle s m i f' y z); try done; unfold within, ends_at, lo, sz in *; lia.
  - assert (sep y r) as Hsep by (apply (seps_ne (ranges (mem s))); [done..|intros ->; done]).
    destruct Hx as (Hpx & _). destruct Hyok as (Hpy & _). unfold within, ends_at, sep, lo, sz in *.
    destruct (Z.eqb_spec (r_start x) (r_start y)); [lia|].
    destruct (Z.eqb_spec (r_start y + r_size y * 1024 - 1) (r_start x + r_size x * 1024 - 1)); [lia|].
    destruct ((_ <? _) && _) eqn:Hc; [apply andb_true_iff in Hc; rewrite !Z.ltb_lt in Hc; lia|].
    apply IH; try done; try lia.
    + destruct Hslot as [[-> Hb]|Hs]; [left; split; [done|]|by right].
      intros k z Hk Hz'. destruct (decide (k = i)) as [->|]; [by simplify_eq|]. apply (Hb k); [lia|done].
    + exists j, r. split_and!; try done; unfold within, ends_at; try lia.
      assert (j <> i) by (intros ->; simplify_eq; lia). lia.
Qed.

Lemma reserve_spec s :
  fl_ok (mem s) -> (exists r, r ∈ ranges (mem s) /\ within r x) ->
  wp (reserveLBIDRange (r_start x) (r_size x)) s (fun _ s' => took x s s').
Proof.
  intros Hm (r & (j & Hj & Hu)%zget_ranges & Hw). unfold reserveLBIDRange. wp_step. wp_step.
  pose proof Hx as (Hp & _). replace (u8 (r_size x)) with (r_size x) by (symmetry; unfold u8; apply Z.mod_small; lia).
  rewrite (flEntries_zlen _ Hm). pose proof (zget_Some_range _ _ _ Hj).
  apply reserve_entries_spec; try done; unfold zlen in *; try lia.
  - left. split; [done|]. intros k y Hk. lia.
  - exists j, r. split_and!; try done. lia.
Qed.
End reserve.
End EmFile.

Local Arguments le_bytes : simpl never.

Module EmFileClaims.
Import ExtentMap ExtentOps FileIO FileThms ExtentFile EmThms EmFree EmIndex EmOps EmCmds EmClaims EmFacts EmFile EmCheck.

(** ** Layout *)

(** The values of an extent fit the types of its fields. *)
Definition cp_fits (c : EMCasualPartition) : Prop :=
  - 2 ^ 31 <= sequenceNum c < 2 ^ 31 /\ - 2 ^ 7 <= isValid c < 2 ^ 7 /\
  - 2 ^ 127 <= bigLoVal c < 2 ^ 127 /\ - 2 ^ 127 <= bigHiVal c < 2 ^ 127.

Definition fits (e : EMEntry) : Prop :=
  (- 2 ^ 63 <= lbid0 e < 2 ^ 63 /\ 0 <= r_size (range e) < 2 ^ 32) /\ - 2 ^ 31 <= fileID e < 2 ^ 31 /\
  0 <= blockOffset e < 2 ^ 32 /\ 0 <= HWM e < 2 ^ 32 /\ 0 <= partitionNum e < 2 ^ 32 /\
  0 <= segmentNum e < 2 ^ 16 /\ 0 <= dbRoot e < 2 ^ 16 /\ 0 <= colWid e < 2 ^ 16 /\
  - 2 ^ 15 <= status e < 2 ^ 15 /\ cp_fits (partition e).

Lemma file_i16 z : - 2 ^ 15 <= z < 2 ^ 15 -> i16 (le_val (le_bytes 2 z)) = z.
Proof. intros Hz. rewrite le_val_bytes. change (8 * Z.of_nat 2) with 16. unfold i16. rewrite Zplus_mod_idemp_l, Z.mod_small; lia. Qed.

Lemma file_i8 z : - 2 ^ 7 <= z < 2 ^ 7 -> i8 (le_val (le_bytes 1 z)) = z.
Proof. intros Hz. rewrite le_val_bytes. change (8 * Z.of_nat 1) with 8. unfold i8. rewrite Zplus_mod_idemp_l, Z.mod_small; lia. Qed.

Lemma file_i128 z : - 2 ^ 127 <= z < 2 ^ 127 -> i128 (le_val (le_bytes 16 z)) = z.
Proof.
  intros Hz. rewrite le_val_bytes. change (8 * Z.of_nat 16) with 128. unfold i128. rewrite Zplus_mod_idemp_l, Z.mod_small; lia.
Qed.

Section layout.
Context (pad : EMEntry -> list Z) (pad_size : forall e, length (pad e) = 23%nat).

Lemma em_encode_length e : length (encode pad e) = 96%nat.
Proof.
  unfold encode, encode_range. rewrite !length_app, !length_le_bytes, !length_take, !length_drop, !pad_size. done.
Qed.

Lemma em_decode_encode e : fits e -> decode (encode pad e) = e.
Proof.
  intros ((Hl & Hs) & Hf & Hb & Hh & Hp & Hsg & Hr & Hc & Hst & Hq & Hv & Hlo & Hhi).
  assert (length (take 4 (pad e)) = 4%nat) as H1 by (by rewrite length_take, pad_size).
  assert (length (take 8 (list.drop 4 (pad e))) = 8%nat) as H2 by (by rewrite length_take, length_drop, pad_size).
  assert (length (list.drop 12 (pad e)) = 11%nat) as H3 by (by rewrite length_drop, pad_size).
  unfold decode, encode, encode_range, lbid0 in *.
  set (p1 := take 4 (pad e)) in *. set (p2 := take 8 _) in *. set (p3 := list.drop 12 (pad e)) in *. clearbody p1 p2 p3.
  destruct e as [[st sz] oid off hwm part seg root w stat [sq v lo hi]]. cbn [range fileID blockOffset HWM partitionNum
    segmentNum dbRoot colWid status partition r_start r_size sequenceNum isValid bigLoVal bigHiVal] in *.
  rewrite <- !app_assoc.
  f_equal; [f_equal|..|f_equal]; read_field ltac:(rewrite ?length_le_bytes, ?H1, ?H2, ?H3).
  all: first [by apply file_i64|by apply le_val_i32|by apply le_val_u|by apply file_i16|by apply file_i8|by apply file_i128].
Qed.

(** ** Saving *)

(** What [save] writes: a header, the extents in order, the free list. *)
Definition image (s : t) (rpad : InlineLBIDRange -> list Z) : list Z :=
  (le_bytes 4 EM_MAGIC_V5 ++ le_bytes 4 (Z.of_nat (size (em s))) ++ le_bytes 4 (flEntries (mem s)))
  ++ (values (em s) ≫= encode pad) ++ (take (Z.to_nat (flEntries (mem s))) (fFreeList (mem s)) ≫= (fun r => encode_range (rpad r) r)).

Lemma write_all failed buf d (s : t) (Q : unit -> Dev * t -> Prop) :
  zlen buf < 2 ^ 31 -> transfers 1 d ->
  (forall d', bytes d' = bytes d ++ buf -> same_file d d' -> Q tt (d', s)) ->
  wp (in_file (write_loop (length buf) failed buf)) (d, s) Q.
Proof.
  intros Hl Ht HQ. unfold in_file. apply wp_zoom. cbn [fst snd].
  eapply wp_mono; [eapply wpe_wp; [apply write_loop_spec; try done|]|].
  - intros k. specialize (Ht k). lia.
  - intros e [_ [k Hk]]. specialize (Ht k). lia.
  - intros [] d' [Hb Hs]. by apply HQ.
Qed.

Lemma write_extents es : forall d s (Q : unit -> Dev * t -> Prop),
  transfers 1 d -> (forall d', bytes d' = bytes d ++ (es ≫= encode pad) -> same_file d d' -> Q tt (d', s)) ->
  wp (for_each es (fun e => let buf := encode pad e in in_file (write_loop (length buf) save_failed buf))) (d, s) Q.
Proof.
  induction es as [|e es IH]; intros d s Q Ht HQ; cbn [for_each].
  - apply wp_ret, HQ; [simpl; by rewrite app_nil_r|apply same_file_refl].
  - wp_step. apply write_all; [unfold zlen; rewrite em_encode_length; lia|done|]. intros d1 Hb1 Hs1.
    apply IH; [by eapply transfers_same|]. intros d2 Hb2 Hs2. apply HQ; [|by eapply same_file_trans].
    rewrite Hb2, Hb1, bind_cons. by rewrite <- app_assoc.
Qed.

Lemma save_spec s rpad d :
  core_inv s -> locks s = noLocks -> (forall r, length (rpad r) = 4%nat) -> allocdSize (fFLShminfo (mem s)) < 2 ^ 31 ->
  isOpen d = true -> transfers 12 d -> bytes d = [] ->
  wp (save pad rpad) (d, s) (fun _ st => bytes st.1 = image s rpad /\ st.2 = s).
Proof.
  intros Hs Hl Hr Ha Ho Ht Hb. pose proof (fo_alloc _ (ci_fl s Hs)) as Hal. pose proof (fo_len _ (ci_fl s Hs)) as Hlen.
  unfold sizeof_InlineLBIDRange in Hal. pose proof (ci_size s Hs) as Hsz.
  unfold save. wp_step. unfold in_map at 1. wp_step. cbn [fst snd].
  eapply run_wp; [apply grab3_read; [apply (ci_mapped s Hs)|lia|done]|]. cbn [fst snd].
  wp_step. wp_step. cbn [fst snd mem set_locks].
  destruct (Z.eqb_spec (currentSize (fEMShminfo (mem s))) 0) as [Hz|_].
  { unfold EM_RB_TREE_EMPTY_SIZE, EM_RB_TREE_NODE_SIZE, sizeof_EMEntry in Hsz. lia. }
  do 2 wp_step. cbn [fst snd]. rewrite Ho. cbn [negb]. do 4 wp_step. cbn [fst snd mem em set_locks].
  wp_step. unfold in_file at 1. wp_step. cbn [fst snd]. set (h := le_bytes 4 _ ++ _).
  assert (length h = 12%nat) as Hh by (unfold h; by rewrite !length_app, !length_le_bytes).
  eapply run_wp.
  { unfold write. specialize (Ht (calls d)). destruct (Z.ltb_spec (answer d (calls d)) 0); [lia|].
    unfold zlen. rewrite Hh. rewrite Z.min_r by lia. reflexivity. }
  rewrite i32_small by lia. change (Z.of_nat 12 =? 12) with true. cbn [negb]. set (d1 := step _ _).
  assert (bytes d1 = h /\ transfers 1 d1) as [Hb1 Ht1].
  { split; [|intros k; specialize (Ht k); simpl; lia]. unfold d1, step. cbn [bytes]. rewrite Hb, take_ge by (rewrite Hh; lia). done. }
  clearbody d1. do 2 wp_step. cbn [fst snd em set_locks]. wp_step. unfold or_release. wp_step.
  apply write_extents; [done|]. intros d2 Hb2 Hs2. do 2 wp_step. cbn [fst snd mem set_locks]. wp_step. unfold or_release. wp_step.
  apply write_all; [|by eapply transfers_same|].
  { unfold zlen. rewrite (length_encode _ 16). 2: { intros r. unfold encode_range. by rewrite !length_app, !length_le_bytes, Hr. }
    rewrite length_take, (flEntries_zlen _ (ci_fl s Hs)). unfold zlen in *. lia. }
  intros d3 Hb3 Hs3. unfold in_map, release3, wp, zoom. destruct s as [m x ix u rb lk cf]. simpl in Hl. subst lk. simpl.
  split; [|done]. rewrite Hb3, Hb2, Hb1. unfold image, h. cbn [em mem]. by rewrite <- !app_assoc.
Qed.
End layout.

(** ** Rebuilding the free list and the index *)
Section rebuild.
Context {IO : IterOrder}.
Context (T : gmap Z EMEntry) (HT : tree_ok T).
Context (Hsmall : forall k e, T !! k = Some e -> r_size (range e) < 256).
Context (Hstat : forall k e, T !! k = Some e -> 0 <= status e <= 2).
Context (Hroot : forall k e, T !! k = Some e -> 0 <= dbRoot e).

(** After the extents of [P] were adopted. *)
Record adopted (s0 : t) (P : gmap Z EMEntry) (s : t) : Prop := {
  ad_em : em s = T;
  ad_sub : P ⊆ T;
  ad_fl : fl_ok (mem s);
  ad_eminfo : fEMShminfo (mem s) = fEMShminfo (mem s0);
  ad_free l : free (mem s) l <-> 0 <= l < LBIDS /\ ~ allocated P l;
  ad_index : index_ok (index s) P;
  ad_rest : locks s = locks s0 /\ config s = config s0 }.

Lemma allocated_insert (P : gmap Z EMEntry) k e l : P !! k = None -> allocated (<[k := e]> P) l <-> owns (range e) l \/ allocated P l.
Proof.
  intros Hn. unfold allocated. split.
  - intros (j & x & [[<- <-]|[_ Hx]]%lookup_insert_Some & Ho); [by left|right; eauto].
  - intros [Ho|(j & x & Hx & Ho)]; [exists k, e; by rewrite lookup_insert_eq|].
    exists j, x. rewrite lookup_insert_ne by congruence. done.
Qed.

(** LBIDs that are all free lie in one entry of the free list. *)
Lemma free_within m x : fl_ok m -> range_ok x -> (forall l, owns x l -> free m l) -> exists r, r ∈ ranges m /\ within r x.
Proof.
  intros Hm (Hp & _) Hf. destruct (Hf (r_start x)) as (r & Hr & Ho); [unfold owns; lia|].
  exists r. split; [done|]. split; [unfold owns in Ho; lia|]. destruct (decide (ends_at x <= ends_at r)) as [|Hlt]; [done|]. exfalso.
  destruct (Hf (ends_at r)) as (r' & Hr' & Ho'); [unfold owns, ends_at in *; lia|].
  destruct (fo_ranges _ Hm) as [_ Hs].
  assert (sep r r') as Hsep by (apply (seps_ne (ranges m)); try done; intros ->; unfold owns, ends_at in Ho'; lia).
  unfold sep, owns, ends_at in *. lia.
Qed.

Lemma fix_status_id k e : T !! k = Some e -> fix_status e = e.
Proof.
  intros He. pose proof (Hstat k e He). unfold fix_status, EXTENTAVAILABLE, EXTENTOUTOFSERVICE.
  destruct (Z.ltb_spec (status e) 0); [lia|]. destruct (Z.ltb_spec 2 (status e)); [lia|]. done.
Qed.

Lemma adopt_spec s0 P s k e :
  adopted s0 P s -> T !! k = Some e -> P !! k = None ->
  wp (adopt k) s (fun _ s' => adopted s0 (<[k := e]> P) s').
Proof.
  intros [Hem Hsub Hfl Hinfo Hfree Hix [Hl Hc]] He Hn. pose proof (tr_key _ HT _ _ He) as Hk. pose proof (tr_range _ HT _ _ He) as [Hr _].
  unfold adopt. wp_step. eapply run_wp; [unfold deref; rewrite Hem, He; reflexivity|].
  wp_step. eapply wp_mono; [apply reserve_spec; [done|eauto|done|]|].
  { apply free_within; [done|done|]. intros l Ho. apply Hfree. destruct Hr as (Hp & _ & H0 & Hend). split; [unfold owns in Ho; lia|].
    intros (k' & e' & He' & Ho'). assert (k <> k') as Hne by (intros <-; congruence).
    pose proof (tr_apart _ HT _ _ _ _ He (lookup_weaken _ _ _ _ He' Hsub) Hne). unfold apart, owns in *. lia. }
  intros [] s' (m & u & -> & Hm & Hmi & Hmf). wp_step. wp_step. wp_step. rewrite (fix_status_id k e He), Hk. constructor; simpl.
  - rewrite Hem. by apply insert_id.
  - by apply insert_subseteq_l.
  - done.
  - by rewrite Hmi.
  - intros l. rewrite Hmf, Hfree, allocated_insert by done. tauto.
  - apply index_ok_insert; [done|by eapply Hroot|done].
  - done.
Qed.

Lemma adopt_all s0 ks : forall P s,
  adopted s0 P s -> NoDup ks -> (forall k, k ∈ ks -> is_Some (T !! k) /\ P !! k = None) ->
  wp (for_each ks adopt) s (fun _ s' => exists P', adopted s0 P' s' /\ forall k, is_Some (P' !! k) <-> is_Some (P !! k) \/ k ∈ ks).
Proof.
  induction ks as [|k ks IH]; intros P s HP Hnd Hks; simpl.
  { wp_step. exists P. split; [done|]. intros k. split; [by left|]. by intros [?|?%not_elem_of_nil]. }
  apply NoDup_cons in Hnd as [Hk Hnd]. destruct (Hks k ltac:(by left)) as [[e He] Hn].
  wp_step. eapply wp_mono; [by apply (adopt_spec s0 P s k e)|]. intros [] s1 H1.
  eapply wp_mono; [apply (IH (<[k := e]> P)); try done|].
  - intros j Hj. destruct (Hks j ltac:(by right)) as [Hj1 Hj2]. split; [done|]. rewrite lookup_insert_ne; [done|by intros ->].
  - intros [] s2 (P' & HP' & Hd). exists P'. split; [done|]. intros j. rewrite Hd, elem_of_cons.
    destruct (decide (j = k)) as [->|Hne]; [rewrite lookup_insert_eq; split; intros _; [right; by left|by left; eexists]|]. rewrite lookup_insert_ne by done. tauto.
Qed.
End rebuild.

(** ** Reading the extents *)
Definition as_tree (es : list EMEntry) : gmap Z EMEntry := list_to_map ((fun e => (lbid0 e, e)) <$> es).

Lemma as_tree_values (m : gmap Z EMEntry) : tree_ok m -> as_tree (values m) = m.
Proof.
  intros Hm. unfold as_tree.
  assert ((fun e => (lbid0 e, e)) <$> values m ≡ₚ map_to_list m) as Hp.
  { unfold values. rewrite keys_perm.
    assert (forall l : list (Z * EMEntry), (forall p, p ∈ l -> m !! p.1 = Some p.2) ->
      (fun e => (lbid0 e, e)) <$> omap (fun k => m !! k) l.*1 = l) as H.
    { induction l as [|[k e] l IH]; intros Hl; [done|]. simpl. pose proof (Hl (k, e) ltac:(by left)) as He. simpl in He. rewrite He. simpl.
      f_equal; [by rewrite (tr_key _ Hm _ _ He)|]. apply IH. intros p Hp. apply Hl. by right. }
    rewrite H; [done|]. intros [k e] He. by apply elem_of_map_to_list. }
  rewrite (list_to_map_proper _ (map_to_list m)); [apply list_to_map_to_list| |done]. rewrite Hp. apply NoDup_fst_map_to_list.
Qed.

Lemma NoDup_lbids (m : gmap Z EMEntry) : tree_ok m -> NoDup (lbid0 <$> values m).
Proof.
  intros Hm. unfold values. pose proof (NoDup_keys m) as Hnd. assert (forall k, k ∈ ExtentMap.keys m -> is_Some (m !! k)) as Hk by (intros k; apply elem_of_keys).
  assert (lbid0 <$> omap (fun k => m !! k) (ExtentMap.keys m) = ExtentMap.keys m) as ->; [|done].
  induction (ExtentMap.keys m) as [|k ks IH]; [done|]. apply NoDup_cons in Hnd as [_ Hnd]. simpl.
  destruct (Hk k ltac:(by left)) as [e He]. rewrite He. simpl. f_equal; [by apply (tr_key _ Hm)|]. apply IH; [done|].
  intros j Hj. apply Hk. by right.
Qed.

Section load.
Context {IO : IterOrder}.
Context (pad : EMEntry -> list Z) (pad_size : forall e, length (pad e) = 23%nat).

Lemma read_extents_spec es : forall rest d s,
  Forall fits es -> NoDup (lbid0 <$> es) -> (forall e, e ∈ es -> em s !! lbid0 e = None) ->
  transfers 1 d -> bytes d = (es ≫= encode pad) ++ rest ->
  wp (read_extents (length es) sizeof_EMEntry decode) (d, s) (fun _ st =>
    st.2 = set_em (as_tree es ∪ em s) s /\ same_file d st.1 /\ bytes st.1 = rest).
Proof.
  induction es as [|e es IH]; intros rest d s Hf Hnd Hnew Ht Hb.
  { apply wp_ret. unfold as_tree. simpl in *. rewrite (left_id_L ∅ (∪)). by destruct s. }
  apply Forall_cons in Hf as [He Hf]. rewrite fmap_cons in Hnd. apply NoDup_cons in Hnd as [Hne Hnd].
  cbn [read_extents length]. wp_step. unfold in_file at 1. wp_step. cbn [fst snd].
  rewrite bind_cons, <- app_assoc in Hb.
  eapply wp_mono; [apply (read_loop_spec _ _ _ _ _ (encode pad e) ((es ≫= encode pad) ++ rest)); try done;
    unfold zlen, sizeof_EMEntry; rewrite em_encode_length by done; lia|].
  cbn beta. intros b d1 (-> & Hb1 & Hs1). rewrite app_nil_l, em_decode_encode by done.
  wp_step. unfold in_map at 1. wp_step. wp_step. cbn [fst snd].
  assert (tree_insert e (em s) = <[lbid0 e := e]> (em s)) as -> by (unfold tree_insert; rewrite (Hnew e) by (by left); done).
  eapply wp_mono; [apply (IH rest); try done; [|by eapply transfers_same]|].
  - intros x Hx. cbn [em set_em]. rewrite lookup_insert_ne; [apply Hnew; by right|].
    intros Heq. apply Hne. rewrite Heq. by apply list_elem_of_fmap_2.
  - cbn beta. intros [] st (-> & Hs2 & Hb2). split_and!; [|by eapply same_file_trans|done].
    unfold as_tree. rewrite fmap_cons. simpl. rewrite <- insert_union_l, insert_union_r; [done|].
    apply not_elem_of_list_to_map_1. by rewrite <- list_fmap_compose.
Qed.

(** The state [load] starts to fill. *)
Lemma all_free_ok m : fl_ok m -> fl_ok (all_free m) /\ (forall l, free (all_free m) l <-> 0 <= l < LBIDS) /\ fEMShminfo (all_free m) = fEMShminfo m.
Proof.
  intros Hm. pose proof (fo_len _ Hm) as Hlen.
  assert (filter used (zset (replicate (length (fFreeList m)) emptyRange) 0 wholeRange) = [wholeRange]) as Hr.
  { unfold zlen in Hlen. destruct (fFreeList m) as [|r l]; [simpl in Hlen; lia|]. cbn [length].
    change (zset (replicate (S (length l)) emptyRange) 0 wholeRange) with (wholeRange :: replicate (length l) emptyRange).
    rewrite filter_cons_True by (by unfold used).
    f_equal. induction (length l) as [|n IH]; [done|]. simpl. rewrite filter_cons_False; [done|]. unfold used. simpl. lia. }
  unfold all_free. split_and!; [|intros l|done].
  - constructor; simpl.
    + rewrite zlen_zset, zlen_replicate. unfold zlen in *. lia.
    + apply Forall_zset; [by apply Forall_replicate|done].
    + rewrite (fo_alloc _ Hm), zlen_zset, zlen_replicate. done.
    + unfold ranges. simpl. by rewrite Hr.
    + unfold ranges. simpl. rewrite Hr. apply ranges_ok_cons. split_and!; [by vm_compute|done|by split].
  - unfold free, ranges. simpl. rewrite Hr. rewrite covers_cons. unfold covers, owns, LBIDS. simpl. set_solver by lia.
Qed.

(** The part of [loadVersion4or5] after the header, on a map that is all free. *)
Definition fill (n : Z) : M (Dev * t) unit :=
  read_extents (Z.to_nat n) sizeof_EMEntry decode ;;
  ks ← gets (fun st => ExtentMap.keys (em st.2));
  in_map (for_each ks adopt) ;;
  in_map (upd_eminfo (with_cur (i32 (n * EM_RB_TREE_NODE_SIZE + EM_RB_TREE_EMPTY_SIZE)))).

Definition loadable (e : EMEntry) : Prop := fits e /\ r_size (range e) < 256 /\ 0 <= status e <= 2.

Lemma fill_spec s0 s rest d :
  em_inv s0 -> (forall k e, em s0 !! k = Some e -> loadable e) -> Z.of_nat (size (em s0)) < 10 ^ 7 ->
  transfers 1 d -> bytes d = (values (em s0) ≫= encode pad) ++ rest ->
  em s = ∅ -> fl_ok (mem s) -> (forall l, free (mem s) l <-> 0 <= l < LBIDS) -> index_ok (index s) ∅ ->
  0 < allocdSize (fEMShminfo (mem s)) ->
  wp (fill (Z.of_nat (size (em s0)))) (d, s) (fun _ st =>
    em st.2 = em s0 /\ em_inv st.2 /\ locks st.2 = locks s /\ config st.2 = config s).
Proof.
  intros [Hc0 Hix0 Hroot] Hld Hn Ht Hb He Hfl Hfree Hix Hmap. pose proof (ci_tree s0 Hc0) as HT. unfold fill.
  rewrite Nat2Z.id, <- length_values. wp_step.
  eapply wp_mono; [apply (read_extents_spec _ rest); try done|].
  { apply Forall_forall. intros e (k & Hk)%elem_of_values. by apply (Hld k). }
  { apply NoDup_lbids. done. }
  { intros e _. rewrite He. apply lookup_empty. }
  cbn beta. intros [] [d1 s1] (Hs1 & _ & _). cbn [fst snd] in Hs1. rewrite as_tree_values, He, (right_id_L ∅ (∪)) in Hs1 by done. subst s1.
  wp_step. wp_step. cbn [fst snd em set_em]. wp_step. unfold in_map at 1. wp_step. cbn [fst snd].
  assert (adopted (em s0) s ∅ (set_em (em s0) s)) as Had.
  { constructor; try done; [apply map_empty_subseteq|]. intros l. simpl. rewrite Hfree. split; [|tauto].
    intros Hl. split; [done|]. intros (k & e & Hk & _). by rewrite lookup_empty in Hk. }
  eapply wp_mono; [apply (adopt_all (em s0) HT) with (s0 := s) (P := ∅); try done|].
  - intros k e Hk. by apply (Hld k).
  - intros k e Hk. by apply (Hld k).
  - apply NoDup_keys.
  - intros k Hk. split; [by apply elem_of_keys|apply lookup_empty].
  - cbn beta. intros [] s2 (P & [Hem Hsub Hfl2 Hmi Hfr Hix2 [Hl Hc]] & Hdom).
    assert (P = em s0) as ->.
    { apply map_eq. intros k. destruct (em s0 !! k) as [e|] eqn:Hk.
      - destruct (Hdom k) as [_ [x Hx]]; [right; apply elem_of_keys; by eexists|]. rewrite Hx.
        by rewrite <- Hk, (lookup_weaken _ _ _ _ Hx Hsub).
      - destruct (P !! k) as [x|] eqn:Hx; [|done]. by rewrite (lookup_weaken _ _ _ _ Hx Hsub) in Hk. }
    unfold in_map, upd_eminfo. wp_step. wp_step. cbn [fst snd]. split_and!; try done.
    constructor; simpl; [|by rewrite Hem|by rewrite Hem]. constructor; simpl; rewrite ?Hem; try done.
    + by destruct Hfl2; constructor.
    + intros l. by intros [_ ?]%Hfr.
    + intros l Hl'. destruct (ci_cover s0 Hc0 l Hl') as [Hf|]; [left|by right]. apply Hfr. split; [done|].
      by apply (ci_excl s0 Hc0).
    + by rewrite Hmi.
    + unfold EM_RB_TREE_NODE_SIZE, EM_RB_TREE_EMPTY_SIZE, sizeof_EMEntry. rewrite length_values, i32_small; lia.
Qed.

Lemma load_in_spec s0 s rpad d :
  em_inv s0 -> (forall k e, em s0 !! k = Some e -> loadable e) ->
  em s0 <> ∅ -> Z.of_nat (size (em s0)) < 10 ^ 7 ->
  transfers 4 d -> bytes d = image pad s0 rpad ->
  core_inv s -> index_ok (index s) ∅ ->
  wp load_in (d, s) (fun _ st => em st.2 = em s0 /\ em_inv st.2 /\ locks st.2 = locks s /\ config st.2 = config s).
Proof.
  intros Hinv Hfits Hne Hn Ht Hb Hs Hix. unfold image in Hb. rewrite <- !app_assoc in Hb.
  assert (0 < Z.of_nat (size (em s0))) as Hpos by (apply map_size_non_empty_iff in Hne; lia).
  unfold load_in. wp_step. unfold in_file at 1. wp_step. cbn [fst snd].
  eapply wp_mono; [apply (read_spec 4 d _ _ Ht Hb); done|]. cbn beta. intros ? d1 (-> & Hb1 & Hs1).
  rewrite le_val_i32 by (unfold EM_MAGIC_V5; lia). cbn [andb orb]. change (i32 4 =? 4) with true.
  change (EM_MAGIC_V5 =? EM_MAGIC_V4) with false. cbn [andb orb]. rewrite Z.eqb_refl.
  unfold loadVersion4or5. wp_step. unfold in_file at 1. wp_step. cbn [fst snd].
  eapply wp_mono; [apply (read_spec 4 d1 _ _ (transfers_same _ _ _ Hs1 Ht) Hb1); done|]. cbn beta. intros ? d2 (-> & Hb2 & Hs2).
  wp_step. unfold in_file at 1. wp_step. cbn [fst snd].
  assert (transfers 4 d2) as Ht2 by (eapply transfers_same; [exact Hs2|]; by eapply transfers_same).
  eapply wp_mono; [apply (read_spec 4 d2 _ _ Ht2 Hb2); done|]. cbn beta. intros ? d3 (-> & Hb3 & Hs3).
  rewrite (le_val_u 4) by lia. wp_step. eapply run_wp; [unfold idbassert; destruct (Z.ltb_spec 0 (Z.of_nat (size (em s0)))); [reflexivity|lia]|].
  change (u32 (4 + 4) =? 8) with true. cbn [negb].
  destruct (all_free_ok (mem s) (ci_fl s Hs)) as (Hfl & Hfree & Hmi).
  do 4 (wp_step; unfold in_map at 1; wp_step; unfold upd_eminfo, growEM, upd_eminfo; wp_step; cbn [fst snd]).
  set (s1 := set_mem _ _).
  assert (em s1 = ∅ /\ fl_ok (mem s1) /\ (forall l, free (mem s1) l <-> 0 <= l < LBIDS) /\ index s1 = index s /\
    locks s1 = locks s /\ config s1 = config s /\ 0 < allocdSize (fEMShminfo (mem s1))) as (He1 & Hfl1 & Hfr1 & Hix1 & Hl1 & Hc1 & Hm1).
  { pose proof (ci_mapped s Hs). split_and!; try done; [by destruct Hfl; constructor|].
    simpl. unfold EM_RB_TREE_INCREMENT. lia. }
  clearbody s1. eapply wp_mono; [eapply (fill_spec s0 s1 _ d3); try exact Hb3; try done; [|by rewrite Hix1]|].
  - eapply transfers_same; [exact Hs3|]. intros k. specialize (Ht2 k). lia.
  - cbn beta. rewrite <- Hl1, <- Hc1. done.
Qed.

(** [load] into an empty map. *)
Lemma em_load_spec s0 s rpad d :
  em_inv s0 -> (forall k e, em s0 !! k = Some e -> loadable e) -> em s0 <> ∅ -> Z.of_nat (size (em s0)) < 10 ^ 7 ->
  em_inv s -> em s = ∅ -> locks s = noLocks -> isOpen d = true -> transfers 4 d -> bytes d = image pad s0 rpad ->
  wp load (d, s) (fun _ st => em st.2 = em s0 /\ em_inv st.2 /\ locks st.2 = noLocks /\ config st.2 = config s).
Proof.
  intros H0 Hld Hne Hn [Hs Hix Hr] He Hl Ho Ht Hb. rewrite He in Hix.
  unfold load. wp_step. unfold in_map at 1. wp_step. cbn [fst snd]. eapply run_wp; [by apply grab3_write|]. cbn [fst snd].
  wp_step. wp_step. cbn [fst snd]. rewrite Ho. cbn [negb]. wp_step. unfold or_release. wp_step.
  eapply wp_mono; [eapply (load_in_spec s0 _ rpad d); try done; by apply core_inv_locks|].
  cbn beta. intros [] [d3 s3] (H1 & H2 & H3 & H4). cbn [fst snd] in *.
  unfold in_map, release3, wp, zoom. destruct s3 as [m h ix u rb lk cf]. simpl in *. subst lk. simpl.
  split_and!; try done. by apply (em_inv_same (mk m h ix u rb wLocks cf)).
Qed.

(** Saving the extent map and loading the file again gives the same map.  [save]
    writes every extent; [load], run on a freshly created map with an empty index,
    returns with the same tree of extents, a free list that covers exactly the LBIDs
    of no extent, an index that lists exactly the extents, the recorded sizes right,
    and all locks released.  The extents are at most 255 units long (the size is
    passed as a [uint8_t]) and there is at least one of them ([idbassert]). *)
Theorem em_save_load s0 s d d2 rpad :
  em_inv s0 -> locks s0 = noLocks -> allocdSize (fFLShminfo (mem s0)) < 2 ^ 31 ->
  (forall k e, em s0 !! k = Some e -> loadable e) -> em s0 <> ∅ -> Z.of_nat (size (em s0)) < 10 ^ 7 ->
  em_inv s -> em s = ∅ -> locks s = noLocks ->
  (forall r, length (rpad r) = 4%nat) ->
  isOpen d = true -> transfers 12 d -> bytes d = [] -> isOpen d2 = true -> transfers 4 d2 ->
  exists d1, save pad rpad (d, s0) = (Val tt, (d1, s0)) /\
  (bytes d2 = bytes d1 -> exists d3 s', load (d2, s) = (Val tt, (d3, s')) /\
    em s' = em s0 /\ em_inv s' /\ locks s' = noLocks /\ config s' = config s).
Proof.
  intros H0 Hl0 Ha Hld Hne Hn Hs He Hl Hrp Ho Ht Hb Ho2 Ht2.
  destruct (wp_run _ _ _ (save_spec pad pad_size s0 rpad d (ei_core _ H0) Hl0 Hrp Ha Ho Ht Hb)) as ([] & [d1 x] & Hrun & Hb1 & Hx).
  cbn [fst snd] in Hb1, Hx. subst x. exists d1. split; [done|]. intros Hb2. rewrite Hb1 in Hb2.
  destruct (wp_run _ _ _ (em_load_spec s0 s rpad d2 H0 Hld Hne Hn Hs He Hl Ho2 Ht2 Hb2)) as ([] & [d3 s'] & Hrun' & Hq).
  exists d3, s'. done.
Qed.
End load.

(** One extent, saved to a file that takes 12 bytes at a time. *)
Definition dev (bs : list Z) : Dev := mkDev true (fun _ => 12) 0 bs.
Definition no_pad {A} (n : nat) (_ : A) : list Z := replicate n 0.
Definition saved : list Z := bytes ((save (no_pad 23) (no_pad 4)) (dev [], em1)).2.1.

Lemma em_save_load_witness :
  exists d3 s', load (dev saved, em0) = (Val tt, (d3, s')) /\ em s' = {[0 := e100]} /\ em_inv s'.
Proof.
  destruct (em_save_load (no_pad 23) ltac:(intros; apply length_replicate) em1 em0 (dev []) (dev saved) (no_pad 4)) as (d1 & Hsave & Hload).
  - apply em1_ready.
  - reflexivity.
  - vm_compute. reflexivity.
  - rewrite em1_em. intros k e [<- <-]%lookup_singleton_Some. unfold loadable, fits, cp_fits. split_and!; by vm_compute.
  - rewrite em1_em. apply map_non_empty_singleton.
  - vm_compute. reflexivity.
  - apply em0_ready.
  - reflexivity.
  - reflexivity.
  - intros r. apply length_replicate.
  - reflexivity.
  - intros k. simpl. lia.
  - reflexivity.
  - reflexivity.
  - intros k. simpl. lia.
  - assert (saved = bytes d1) as Hd by (unfold saved; by rewrite Hsave).
    destruct (Hload Hd) as (d3 & s' & Hrun & He & Hinv & _). exists d3, s'. split; [exact Hrun|split; [rewrite He; exact em1_em|exact Hinv]].
Defined.
End EmFileClaims.
