(* ===== verification/Worker.v ===== *)
(** * The worker node with its extent map

    versioning/BRM/slavedbrmnode.cpp: the commands the controller sends to a worker,
    on all the tables the worker owns: the extent map, the VBBM, the VSS and the copy
    locks.  A command takes write locks and leaves undo records; [confirmChanges] or
    [undoChanges] ends it. *)

From S2P Require Import Prelude Chain Hasher Bytes Undoable Vbbm Vss CopyLocks SlaveNode Persist ExtentMap ExtentOps ExtentCP ExtentHwm ExtentPart ExtentFile.
From stdpp Require Import prelude gmap strings.
Local Open Scope Z_scope.

Module Worker.
Import ExtentMap ExtentOps ExtentCP ExtentHwm ExtentPart.

Record worker := mkW { nd : SlaveNode.node; emap : ExtentMap.t }.
Definition inNode {A} (m : M SlaveNode.node A) : M worker A := zoom nd (fun n w => mkW n (emap w)) m.
Definition inEM {A} (m : M ExtentMap.t A) : M worker A := zoom emap (fun e w => mkW (nd w) e) m.

(** [try { a = m; return 0; } catch (exception&) { return -1; }]: the outputs of the
    command, or nothing when the return code is -1. *)
Definition guarded {A} (m : M worker A) : M worker (option A) :=
  try_catch (a ← m; mret (Some a)) (fun _ => mret None).

Definition rc {A} (m : M worker (option A)) : M worker Z :=
  r ← m; mret (match r with Some _ => 0 | None => -1 end).

Section commands.
Context {IO : IterOrder}.

Definition lookup (oid : Z) : M worker (option (list (Z * Z))) := guarded (inEM (lookup_OID oid)).

(** ** Extents *)
Definition createStripeColumnExtents (cols : list (Z * Z * ColDataType)) (root part : Z) :=
  guarded (inEM (ExtentOps.createStripeColumnExtents cols root part)).
Definition createColumnExtent_DBroot (oid colWidth root : Z) (ty : ColDataType) (part : Z) :=
  guarded (inEM (ExtentOps.createColumnExtent_DBroot oid colWidth root ty part true)).
Definition createColumnExtentExactFile (oid colWidth root part seg : Z) (ty : ColDataType) :=
  guarded (inEM (ExtentOps.createColumnExtentExactFile oid colWidth root part seg ty)).
Definition createDictStoreExtent (oid root part seg : Z) :=
  guarded (inEM (ExtentOps.createDictStoreExtent oid root part seg)).
Definition rollbackColumnExtents_DBroot (oid : Z) (bDeleteAll : bool) (root part seg hwm : Z) : M worker Z :=
  rc (guarded (inEM (ExtentHwm.rollbackColumnExtents_DBroot oid bDeleteAll root part seg hwm))).
Definition rollbackDictStoreExtents_DBroot (oid root part : Z) (segNums hwms : list Z) : M worker Z :=
  rc (guarded (inEM (ExtentHwm.rollbackDictStoreExtents_DBroot oid root part segNums hwms))).
Definition deleteEmptyColExtents (infos : list (Z * ExtentInfo)) : M worker Z :=
  rc (guarded (inEM (ExtentHwm.deleteEmptyColExtents infos))).
Definition deleteEmptyDictStoreExtents (infos : list (Z * ExtentInfo)) : M worker Z :=
  rc (guarded (inEM (ExtentHwm.deleteEmptyDictStoreExtents infos))).

(** The versions of the blocks of some ranges leave the VSS and the VBBM. *)
Definition purge_ranges (ranges : list (Z * Z)) : M worker unit :=
  for_each ranges (fun r => inNode (SlaveNode.removeEntriesFromDB (VSS.mkRange r.1 r.2) true)).

Definition deleteOID (oid : Z) : M worker Z :=
  try_catch
    (inNode SlaveNode.lock_vbbm ;; inNode SlaveNode.lock_vss ;;
     r ← lookup oid;
     match r with
     | None | Some [] => mret (-1)
     | Some lbids => purge_ranges lbids ;; inEM (ExtentOps.deleteOID oid) ;; mret 0
     end)
    (fun _ => mret (-1)).

(** The loop over the map of OIDs, in its iteration order; [false]: a lookup failed. *)
Fixpoint purge_oids (oids : list Z) : M worker bool :=
  match oids with
  | [] => mret true
  | oid :: oids' =>
      r ← lookup oid;
      match r with
      | None => mret false
      | Some lbids => purge_ranges lbids ;; purge_oids oids'
      end
  end.

Definition deleteOIDs (oids : list Z) : M worker Z :=
  try_catch
    (inNode SlaveNode.lock_vbbm ;; inNode SlaveNode.lock_vss ;;
     ok ← purge_oids oids;
     if (ok : bool) then inEM (ExtentOps.deleteOIDs oids) ;; mret 0 else mret (-1))
    (fun _ => mret (-1)).

(** ** High water marks; the result of [vbCommit] is not looked at *)
Definition setLocalHWM (oid part seg hwm : Z) (firstNode : bool) : M worker Z :=
  rc (guarded (inEM (ExtentHwm.setLocalHWM oid part seg hwm firstNode true))).

Definition commit_first (transID : Z) : M worker unit :=
  if transID =? 0 then mret tt else inNode (SlaveNode.vbCommit transID) ;; mret tt.

Definition bulkSetHWM (args : list BulkSetHWMArg) (transID : Z) (firstNode : bool) : M worker Z :=
  rc (guarded (commit_first transID ;; inEM (ExtentHwm.bulkSetHWM args firstNode))).

(** One HWM after the other; the locks are taken with the first. *)
Fixpoint set_hwms (args : list BulkSetHWMArg) (firstNode firstCall : bool) : M worker bool :=
  match args with
  | [] => mret firstCall
  | a :: args' =>
      inEM (ExtentHwm.setLocalHWM (bs_oid a) (bs_part a) (bs_seg a) (bs_hwm a) firstNode firstCall) ;;
      set_hwms args' firstNode false
  end.

(** The entry variable of the loops lives across iterations: the pair of values that
    is not assigned keeps what it had. *)
Definition set_entry (old new : CPMaxMin) : CPMaxMin :=
  if cp_isBinaryColumn new
  then mkCPMaxMin (cp_max old) (cp_min old) (cp_seqNum new) (cp_bigMax new) (cp_bigMin new) true
  else mkCPMaxMin (cp_max new) (cp_min new) (cp_seqNum new) (cp_bigMax old) (cp_bigMin old) false.

Definition merge_entry (old new : CPMaxMinMerge) : CPMaxMinMerge :=
  if mg_colWidth new <=? 8
  then mkCPMaxMinMerge (mg_max new) (mg_min new) (mg_seqNum new) (mg_type new) (mg_colWidth new) (mg_newExtent new)
         (mg_bigMax old) (mg_bigMin old)
  else mkCPMaxMinMerge (mg_max old) (mg_min old) (mg_seqNum new) (mg_type new) (mg_colWidth new) (mg_newExtent new)
         (mg_bigMax new) (mg_bigMin new).

(** The map by first LBID that the loop fills. *)
Definition fill_map {V} (entry : V -> V -> V) (v0 : V) (args : list (Z * V)) : gmap Z V :=
  (foldl (fun acc a => let v := entry acc.1 a.2 in (v, <[a.1 := v]> acc.2)) (v0, ∅) args).2.

(** [set0] and [merge0] are the entry variables before they are assigned. *)
Definition bulkSetHWMAndCP (set0 : CPMaxMin) (merge0 : CPMaxMinMerge) (hwmArgs : list BulkSetHWMArg)
    (setCP : list (Z * CPMaxMin)) (mergeCP : list (Z * CPMaxMinMerge)) (transID : Z) (firstNode : bool) : M worker Z :=
  rc (guarded
    (commit_first transID ;;
     firstCall ← set_hwms hwmArgs firstNode true;
     firstCall ← (match setCP with
                  | [] => mret firstCall
                  | _ => inEM (ExtentCP.setExtentsMaxMin (umap_to_list (fill_map set_entry set0 setCP)) firstNode firstCall) ;; mret false
                  end);
     match mergeCP with
     | [] => mret tt
     | _ => inEM (ExtentCP.mergeExtentsMaxMin (umap_to_list (fill_map merge_entry merge0 mergeCP)) firstCall)
     end)).

Definition bulkUpdateDBRoot (args : list (Z * Z)) : M worker Z :=
  rc (guarded (inEM (ExtentHwm.bulkUpdateDBRoot args))).

(** ** Casual partitioning *)
Definition result (m : M worker (option Z)) : M worker Z := r ← m; mret (default (-1) r).

Definition markExtentInvalid (lbid : Z) (ty : ColDataType) : M worker Z :=
  result (guarded (inEM (ExtentCP.markInvalid lbid ty))).
Definition markExtentsInvalid (lbids : list Z) (tys : list ColDataType) : M worker Z :=
  result (guarded (inEM (ExtentCP.markInvalid_vector lbids tys))).
Definition setExtentMaxMin (lbid max min seqNum : Z) (firstNode : bool) : M worker Z :=
  result (guarded (inEM (ExtentCP.setMaxMin lbid max min seqNum firstNode))).
Definition setExtentsMaxMin (cpMap : list (Z * CPMaxMin)) (firstNode : bool) : M worker Z :=
  rc (guarded (inEM (ExtentCP.setExtentsMaxMin cpMap firstNode true))).
Definition mergeExtentsMaxMin (cpMap : list (Z * CPMaxMinMerge)) : M worker Z :=
  rc (guarded (inEM (ExtentCP.mergeExtentsMaxMin cpMap true))).

(** ** Partitions: the codes of the exceptions become return codes *)
Definition ERR_INVALID_LAST_PARTITION : Z := 4001.
Definition ERR_INVALID_OP_LAST_PARTITION : Z := 10.
Definition ERR_PARTITION_DISABLED : Z := 11.
Definition ERR_NOT_EXIST_PARTITION : Z := 12.
Definition ERR_PARTITION_ENABLED : Z := 13.
Definition ERR_NO_PARTITION_PERFORMED : Z := 16.

Definition with_code (codes : list (Z * Z)) (m : M worker unit) : M worker Z :=
  try_catch (m ;; mret 0) (fun e =>
    match e with
    | idb_except c => mret (default (-1) (snd <$> head (filter (fun p => p.1 = c) codes)))
    | _ => mret (-1)
    end).

Definition deletePartition (oids : list Z) (parts : list LogicalPartition) : M worker Z :=
  with_code [(ERR_PARTITION_NOT_EXIST, ERR_NOT_EXIST_PARTITION); (ERR_INVALID_LAST_PARTITION, ERR_INVALID_OP_LAST_PARTITION);
             (WARN_NO_PARTITION_PERFORMED, ERR_NO_PARTITION_PERFORMED)]
    (inEM (ExtentPart.deletePartition oids parts)).
Definition markPartitionForDeletion (oids : list Z) (parts : list LogicalPartition) : M worker Z :=
  with_code [(ERR_PARTITION_ALREADY_DISABLED, ERR_PARTITION_DISABLED); (ERR_PARTITION_NOT_EXIST, ERR_NOT_EXIST_PARTITION);
             (ERR_INVALID_LAST_PARTITION, ERR_INVALID_OP_LAST_PARTITION); (WARN_NO_PARTITION_PERFORMED, ERR_NO_PARTITION_PERFORMED)]
    (inEM (ExtentPart.markPartitionForDeletion oids parts)).
Definition markAllPartitionForDeletion (oids : list Z) : M worker Z :=
  with_code [(ERR_PARTITION_ALREADY_DISABLED, ERR_PARTITION_DISABLED); (ERR_PARTITION_NOT_EXIST, ERR_NOT_EXIST_PARTITION);
             (ERR_INVALID_LAST_PARTITION, ERR_INVALID_OP_LAST_PARTITION)]
    (inEM (ExtentPart.markAllPartitionForDeletion oids)).
Definition restorePartition (oids : list Z) (parts : list LogicalPartition) : M worker Z :=
  with_code [(ERR_PARTITION_NOT_EXIST, ERR_NOT_EXIST_PARTITION); (ERR_PARTITION_ALREADY_ENABLED, ERR_PARTITION_ENABLED);
             (ERR_INVALID_LAST_PARTITION, ERR_INVALID_OP_LAST_PARTITION)]
    (inEM (ExtentPart.restorePartition oids parts)).
Definition deleteDBRoot (root : Z) : M worker Z := rc (guarded (inEM (ExtentOps.deleteDBRoot root))).
End commands.

(** ** The end of a command

    An exception ends the function where it is thrown. *)
Definition confirmChanges : M worker unit :=
  try_catch (inEM ExtentMap.confirmChanges ;; inNode SlaveNode.confirmChanges) (fun _ => mret tt).
Definition undoChanges : M worker unit :=
  try_catch (inEM ExtentMap.undoChanges ;; inNode SlaveNode.undoChanges) (fun _ => mret tt).

(** ** The saved state: one file per table *)
Record Files := mkFiles { emFile : FileIO.Dev; vbbmFile : FileIO.Dev; vssFile : FileIO.Dev }.

(** The padding bytes of the structs that are written. *)
Record Pads := mkPads {
  emPad : EMEntry -> list Z; rangePad : InlineLBIDRange -> list Z;
  vbbmPad : VBBM.VBFileMetadata -> list Z; vssPad : VSS.VSSEntry -> list Z }.

Definition onEM {A} (m : M (FileIO.Dev * ExtentMap.t) A) : M (Files * worker) A :=
  zoom (fun st => (emFile st.1, emap st.2))
       (fun p st => (mkFiles p.1 (vbbmFile st.1) (vssFile st.1), mkW (nd st.2) p.2)) m.
Definition onVBBM {A} (m : M (FileIO.Dev * VBBM.t) A) : M (Files * worker) A :=
  zoom (fun st => (vbbmFile st.1, SlaveNode.vbbm (nd st.2)))
       (fun p st => (mkFiles (emFile st.1) p.1 (vssFile st.1), mkW (SlaveNode.set_vbbm p.2 (nd st.2)) (emap st.2))) m.
Definition onVSS {A} (m : M (FileIO.Dev * VSS.t) A) : M (Files * worker) A :=
  zoom (fun st => (vssFile st.1, SlaveNode.vss (nd st.2)))
       (fun p st => (mkFiles (emFile st.1) (vbbmFile st.1) p.1, mkW (SlaveNode.set_vss p.2 (nd st.2)) (emap st.2))) m.
Definition onNode {A} (m : M SlaveNode.node A) : M (Files * worker) A :=
  zoom (fun st => nd st.2) (fun n st => (st.1, mkW n (emap st.2))) m.

(** A function that reads a table and writes a file. *)
Definition reading {T} (save : T -> M FileIO.Dev unit) : M (FileIO.Dev * T) unit := fun st =>
  let '(r, d) := save st.2 st.1 in (r, (d, st.2)).

Definition saveState (p : Pads) : M (Files * worker) Z :=
  try_catch
    (onNode SlaveNode.attach_vbbm ;; onNode SlaveNode.attach_vss ;;
     onEM (ExtentFile.save (emPad p) (rangePad p)) ;;
     onVBBM (reading (VBBMFile.save (vbbmPad p))) ;;
     onVSS (reading (VSSFile.save (vssPad p))) ;;
     mret 0)
    (fun _ => mret (-1)).

Definition loadState `{IterOrder} : M (Files * worker) Z :=
  try_catch
    (onNode SlaveNode.attach_vbbm ;; onNode SlaveNode.attach_vss ;;
     onEM ExtentFile.load ;; onVBBM VBBMFile.load ;; onVSS VSSFile.load ;; mret 0)
    (fun _ => mret (-1)).

End Worker.
