(* ===== verification/TableCheck.v ===== *)
(** * The consistency checks of the version tables

    checkConsistency of vss.cpp, vbbm.cpp and slavedbrmnode.cpp: the loops that dbrmctl
    runs over the tables of a worker. *)

From S2P Require Import Prelude Chain Hasher Undoable Vbbm Vss CopyLocks SlaveNode ExtentMap ExtentPart Worker.
From stdpp Require Import prelude gmap strings.
Local Open Scope Z_scope.

Module TableCheck.

(** [for (i = lo; i < lo + n; i++)] over a body that may throw. *)
Fixpoint loop (n : nat) (i : Z) (body : Z -> outcome unit) : outcome unit :=
  match n with
  | O => Val tt
  | S n' => body i ;; loop n' (i + 1) body
  end.

(** ** What the two tables have in common *)
Section table.
Context {E : Type} (next lbid verID : E -> Z) (buckets : list Z) (storage : list E).

(** [for (nextElement = head; nextElement != -1; ...) if (lbid == -1) throw] *)
Definition no_empty (what : string) (head : Z) : outcome unit :=
  r ← walk next storage (length storage) head (fun _ e (_ : unit) => if lbid e =? -1 then Return tt else Next tt) tt;
  match r with
  | Return _ => Exn (logic_error what)
  | Next _ => Val tt
  end.

(** [for (j = head; ...) for (k = storage[j].next; ...) if (same key) throw] *)
Fixpoint no_duplicate (what : string) (fuel : nat) (j : Z) : outcome unit :=
  if j =? -1 then Val tt
  else match fuel with
  | O => Fault OutOfFuel
  | S f =>
      e ← aget storage j;
      r ← walk next storage (length storage) (next e)
            (fun _ x (_ : unit) => if (lbid e =? lbid x) && (verID e =? verID x) then Return tt else Next tt) tt;
      match r with
      | Return _ => Exn (logic_error what)
      | Next _ => no_duplicate what f (next e)
      end
  end.

Definition each_bucket (n : Z) (test : Z -> outcome unit) : outcome unit :=
  loop (Z.to_nat n) 0 (fun i => head ← aget buckets i; if head =? -1 then Val tt else test head).

Definition no_hole (what : string) (LWM : Z) : outcome unit :=
  loop (Z.to_nat LWM) 0 (fun i => e ← aget storage i; if lbid e =? -1 then Exn (logic_error what) else Val tt).
End table.

(** ** VSS *)
Definition buffered_known (vb : VBBM.t) (g : VSS.Seg) : outcome unit :=
  loop (Z.to_nat (VSS.capacity (VSS.hdr g))) 0 (fun i =>
    e ← aget (VSS.storage g) i;
    if negb (VSS.lbid e =? -1) && VSS.vbFlag e then
      r ← VBBM.lookup (VSS.lbid e) (VSS.verID e) vb;
      match r with
      | Some _ => Val tt
      | None => Exn (logic_error "VSS::checkConsistency(): a VSS entry with vbflag set is not in the VBBM")
      end
    else Val tt).

Definition vss_checkConsistency (vb : VBBM.t) (g : VSS.Seg) : outcome Z :=
  buffered_known vb g ;;
  VSS.size g ;;
  each_bucket (VSS.hashBuckets g) (VSS.numHashBuckets (VSS.hdr g))
    (no_empty VSS.next VSS.lbid (VSS.storage g) "VSS::checkConsistency(): an empty storage entry is reachable from the hash table") ;;
  no_hole VSS.lbid (VSS.storage g) "VSS::checkConsistency(): LWM accounting error" (VSS.LWM (VSS.hdr g)) ;;
  each_bucket (VSS.hashBuckets g) (VSS.numHashBuckets (VSS.hdr g))
    (no_duplicate VSS.next VSS.lbid VSS.verID (VSS.storage g) "VSS::checkConsistency(): Duplicate entry found" (length (VSS.storage g))) ;;
  Val 0.

(** ** VBBM *)

(** Test 4a. *)
Definition places_unique (g : VBBM.Seg) : outcome unit :=
  let cap := VBBM.vbCapacity (VBBM.hdr g) in
  loop (Z.to_nat cap) 0 (fun i =>
    e ← aget (VBBM.storage g) i;
    if VBBM.lbid e =? -1 then Val tt
    else loop (Z.to_nat (cap - (i + 1))) (i + 1) (fun j =>
      x ← aget (VBBM.storage g) j;
      if VBBM.lbid x =? -1 then Val tt
      else if (VBBM.vbOID x =? VBBM.vbOID e) && (VBBM.vbFBO x =? VBBM.vbFBO e)
      then Exn (logic_error "VBBM::checkConsistency(): 2 VBBM entries share space in the VB")
      else Val tt)).

(** [size()] of a release build compares nothing. *)
Definition vbbm_checkConsistency (s : VBBM.t) : outcome Z :=
  let g := VBBM.seg s in
  each_bucket (VBBM.hashBuckets g) (VBBM.numHashBuckets (VBBM.hdr g))
    (no_empty VBBM.next VBBM.lbid (VBBM.storage g) "VBBM::checkConsistency(): an empty storage entry is reachable from the hash table") ;;
  no_hole VBBM.lbid (VBBM.storage g) "VBBM::checkConsistency(): LWM accounting error" (VBBM.vbLWM (VBBM.hdr g)) ;;
  each_bucket (VBBM.hashBuckets g) (VBBM.numHashBuckets (VBBM.hdr g))
    (no_duplicate VBBM.next VBBM.lbid VBBM.verID (VBBM.storage g) "VBBM::checkConsistency(): Duplicate entry found" (length (VBBM.storage g))) ;;
  places_unique g ;;
  Val 0.

(** ** The worker: the tables are read under their read locks, which create a segment
    that does not exist. *)
Definition checkConsistency : M Worker.worker Z :=
  e ← Worker.guarded (Worker.inEM ExtentPart.checkConsistency);
  match e with
  | None => mret (-1)
  | Some _ =>
      v ← Worker.guarded (Worker.inNode (SlaveNode.attach_vbbm ;; SlaveNode.attach_vss ;;
            lift (fun n => vss_checkConsistency (SlaveNode.vbbm n) (VSS.seg (SlaveNode.vss n)))));
      match v with
      | None => mret (-1)
      | Some _ =>
          b ← Worker.guarded (Worker.inNode (SlaveNode.attach_vbbm ;; lift (fun n => vbbm_checkConsistency (SlaveNode.vbbm n))));
          mret (match b with None => -1 | Some _ => 0 end)
      end
  end.
End TableCheck.
