(* ===== verification/Messages.v ===== *)
(** * The contents of BRM messages

    versioning/BRM/brmtypes.h: the commands that clients, controller and workers
    exchange and the error codes; brmtypes.cpp and logicalpartition.h: the
    serialised classes; the structs that messages carry as raw memory.

    Every part has a writer and a reader, and [reads] lemmas that relate them. *)

From S2P Require Import Prelude Hasher Bytes ByteStream Vss SlaveNode ExtentMap ExtentCP ExtentHwm ExtentPart.
From stdpp Require Import prelude gmap strings.
Local Open Scope Z_scope.

Module Messages.
Import ExtentMap ExtentCP ExtentHwm ExtentPart.
Export ByteStream.

(** ** Commands *)
Definition DELETE_OID : Z := 1.
Definition WRITE_VB_ENTRY : Z := 3.
Definition BEGIN_VB_COPY : Z := 4.
Definition END_VB_COPY : Z := 5.
Definition VB_ROLLBACK1 : Z := 6.
Definition VB_ROLLBACK2 : Z := 7.
Definition VB_COMMIT : Z := 8.
Definition BRM_UNDO : Z := 9.
Definition CONFIRM : Z := 10.
Definition HALT : Z := 11.
Definition RESUME : Z := 12.
Definition RELOAD : Z := 13.
Definition SETREADONLY : Z := 14.
Definition SETREADWRITE : Z := 15.
Definition FLUSH_INODE_CACHES : Z := 16.
Definition BRM_CLEAR : Z := 17.
Definition MARKEXTENTINVALID : Z := 18.
Definition MARKMANYEXTENTSINVALID : Z := 19.
Definition GETREADONLY : Z := 20.
Definition SETEXTENTMAXMIN : Z := 21.
Definition DELETE_EMPTY_COL_EXTENTS : Z := 24.
Definition DELETE_EMPTY_DICT_STORE_EXTENTS : Z := 25.
Definition SETMANYEXTENTSMAXMIN : Z := 26.
Definition CREATE_DICT_STORE_EXTENT : Z := 28.
Definition SET_LOCAL_HWM : Z := 29.
Definition DELETE_OIDS : Z := 30.
Definition TAKE_SNAPSHOT : Z := 31.
Definition MERGEMANYEXTENTSMAXMIN : Z := 32.
Definition DELETE_PARTITION : Z := 33.
Definition MARK_PARTITION_FOR_DELETION : Z := 34.
Definition RESTORE_PARTITION : Z := 35.
Definition CREATE_COLUMN_EXTENT_DBROOT : Z := 36.
Definition BULK_SET_HWM : Z := 37.
Definition ROLLBACK_COLUMN_EXTENTS_DBROOT : Z := 38.
Definition ROLLBACK_DICT_STORE_EXTENTS_DBROOT : Z := 39.
Definition BULK_SET_HWM_AND_CP : Z := 40.
Definition MARK_ALL_PARTITION_FOR_DELETION : Z := 41.
Definition CREATE_COLUMN_EXTENT_EXACT_FILE : Z := 42.
Definition DELETE_DBROOT : Z := 43.
Definition CREATE_STRIPE_COLUMN_EXTENTS : Z := 44.
Definition OWNER_CHECK : Z := 77.
Definition DELETE_AI_SEQUENCE : Z := 85.
Definition LOCK_LBID_RANGES : Z := 90.
Definition RELEASE_LBID_RANGES : Z := 91.
Definition BULK_UPDATE_DBROOT : Z := 100.
Definition BULK_WRITE_VB_ENTRY : Z := 102.

Definition ERR_OK : Z := 0.
Definition ERR_FAILURE : Z := 1.
Definition ERR_SLAVE_INCONSISTENCY : Z := 2.
Definition ERR_NETWORK : Z := 3.
Definition ERR_READONLY : Z := 5.

(** ** Signed integers and booleans

    They travel as unsigned integers of their width. *)
Definition get_i32 : M stream Z := v ← get32; mret (i32 v).
Definition get_i64 : M stream Z := v ← get64; mret (i64 v).
Definition get_i128 : M stream Z := v ← get128; mret (i128 v).
Definition get_bool : M stream bool := v ← get8; mret (negb (v =? 0)).
Definition put_bool (b : bool) : stream := put8 (if b then 1 else 0).

Definition is_u16 (z : Z) : Prop := 0 <= z < 2 ^ 16.
Definition is_u32 (z : Z) : Prop := 0 <= z < 2 ^ 32.
Definition is_i32 (z : Z) : Prop := - 2 ^ 31 <= z < 2 ^ 31.
Definition is_i64 (z : Z) : Prop := - 2 ^ 63 <= z < 2 ^ 63.
Definition is_i128 (z : Z) : Prop := - 2 ^ 127 <= z < 2 ^ 127.

Lemma i64_mod z : is_i64 z -> i64 (z mod 2 ^ 64) = z.
Proof. intros. unfold i64. rewrite Zplus_mod_idemp_l. by apply i64_small. Qed.
Lemma i32_mod z : is_i32 z -> i32 (z mod 2 ^ 32) = z.
Proof. intros. unfold i32. rewrite Zplus_mod_idemp_l. by apply i32_small. Qed.
Lemma i128_mod z : is_i128 z -> i128 (z mod 2 ^ 128) = z.
Proof. unfold is_i128. intros. unfold i128. rewrite Zplus_mod_idemp_l, Z.mod_small; lia. Qed.

Lemma reads_i32 v : is_i32 v -> reads get_i32 (put32 v) v.
Proof. intros Hv. rewrite <- (i32_mod v Hv) at 2. apply reads_last, (reads_get_mod 4). Qed.
Lemma reads_i64 v : is_i64 v -> reads get_i64 (put64 v) v.
Proof. intros Hv. rewrite <- (i64_mod v Hv) at 2. apply reads_last, (reads_get_mod 8). Qed.
Lemma reads_i128 v : is_i128 v -> reads get_i128 (put128 v) v.
Proof. intros Hv. rewrite <- (i128_mod v Hv) at 2. apply reads_last, (reads_get_mod 16). Qed.
Lemma reads_bool b : reads get_bool (put_bool b) b.
Proof. intros rest. destruct b; reflexivity. Qed.
Lemma reads_u16 v : is_u16 v -> reads get16 (put16 v) v.
Proof. apply reads_get16. Qed.
Lemma reads_u32 v : is_u32 v -> reads get32 (put32 v) v.
Proof. apply reads_get32. Qed.

(** ** Column types: the numbers of the enumeration in datatypes/mcs_datatype.h *)
Definition column_types : list ColDataType :=
  [BIT; TINYINT; CHAR; SMALLINT; DECIMAL; MEDINT; INT; FLOAT; DATE; BIGINT; DOUBLE; DATETIME;
   VARCHAR; VARBINARY; CLOB; BLOB; UTINYINT; USMALLINT; UDECIMAL; UMEDINT; UINT; UFLOAT; UBIGINT;
   UDOUBLE; TEXT; TIME; TIMESTAMP; NUM_OF_COL_DATA_TYPE; LONGDOUBLE; STRINT; UNDEFINED].

Definition type_code (ty : ColDataType) : Z :=
  match ty with
  | BIT => 0 | TINYINT => 1 | CHAR => 2 | SMALLINT => 3 | DECIMAL => 4 | MEDINT => 5 | INT => 6 | FLOAT => 7
  | DATE => 8 | BIGINT => 9 | DOUBLE => 10 | DATETIME => 11 | VARCHAR => 12 | VARBINARY => 13 | CLOB => 14
  | BLOB => 15 | UTINYINT => 16 | USMALLINT => 17 | UDECIMAL => 18 | UMEDINT => 19 | UINT => 20 | UFLOAT => 21
  | UBIGINT => 22 | UDOUBLE => 23 | TEXT => 24 | TIME => 25 | TIMESTAMP => 26 | NUM_OF_COL_DATA_TYPE => 27
  | LONGDOUBLE => 28 | STRINT => 29 | UNDEFINED => 30
  end.

(** A number that names no type fails every test the extent map makes of a type, as
    [UNDEFINED] does. *)
Definition type_of (z : Z) : ColDataType := nth (Z.to_nat z) column_types UNDEFINED.

Definition get_type8 : M stream ColDataType := v ← get8; mret (type_of v).
Definition get_type32 : M stream ColDataType := v ← get32; mret (type_of v).

Lemma reads_type8 ty : reads get_type8 (put8 (type_code ty)) ty.
Proof. intros rest. destruct ty; reflexivity. Qed.
Lemma reads_type32 ty : reads get_type32 (put32 (type_code ty)) ty.
Proof. intros rest. destruct ty; reflexivity. Qed.

(** ** [LBIDRange], with the first version of its encoding *)
Definition RANGE_V2_MAGIC : Z := 0x80000000ffff0000.

Definition put_LBIDRange (r : VSS.LBIDRange) : stream :=
  put64 RANGE_V2_MAGIC ++ put64 (VSS.r_start r) ++ put32 (VSS.r_size r).

Definition get_LBIDRange : M stream VSS.LBIDRange :=
  tmp ← get64;
  if tmp =? RANGE_V2_MAGIC then
    start ← get_i64; size ← get32; mret (VSS.mkRange start size)
  else mret (VSS.mkRange (Z.land tmp 0xffffffff) (Z.shiftr (Z.land tmp 0xffffffff00000000) 32)).

Definition range_ok (r : VSS.LBIDRange) : Prop := is_i64 (VSS.r_start r) /\ is_u32 (VSS.r_size r).

Lemma reads_LBIDRange r : range_ok r -> reads get_LBIDRange (put_LBIDRange r) r.
Proof.
  intros [H1 H2]. eapply reads_bind; [by apply reads_get64|]. rewrite Z.eqb_refl.
  eapply reads_bind; [by apply reads_i64|]. destruct r as [st sz]. by apply (reads_last get32 (VSS.mkRange st)), reads_u32.
Qed.

(** ** [VBRange] *)
Definition put_VBRange (r : SlaveNode.VBRange) : stream :=
  put32 (SlaveNode.vr_oid r) ++ put32 (SlaveNode.vr_fbo r) ++ put32 (SlaveNode.vr_size r).
Definition get_VBRange : M stream SlaveNode.VBRange :=
  oid ← get_i32; fbo ← get32; size ← get32; mret (SlaveNode.mkVBRange oid fbo size).

Definition vbrange_ok (r : SlaveNode.VBRange) : Prop :=
  is_i32 (SlaveNode.vr_oid r) /\ is_u32 (SlaveNode.vr_fbo r) /\ is_u32 (SlaveNode.vr_size r).

Lemma reads_VBRange r : vbrange_ok r -> reads get_VBRange (put_VBRange r) r.
Proof.
  intros (H1 & H2 & H3). eapply reads_bind; [by apply reads_i32|]. eapply reads_bind; [by apply reads_u32|].
  destruct r as [a b c]. by apply (reads_last get32 (SlaveNode.mkVBRange a b)), reads_u32.
Qed.

(** ** [LogicalPartition] *)
Definition put_partition (p : LogicalPartition) : stream :=
  put16 (lp_dbroot p) ++ put32 (lp_pp p) ++ put16 (lp_seg p).
Definition get_partition : M stream LogicalPartition :=
  d ← get16; p ← get32; s ← get16; mret (mkLP d p s).

Definition partition_ok (p : LogicalPartition) : Prop := is_u16 (lp_dbroot p) /\ is_u32 (lp_pp p) /\ is_u16 (lp_seg p).

Lemma reads_partition p : partition_ok p -> reads get_partition (put_partition p) p.
Proof.
  intros (H1 & H2 & H3). eapply reads_bind; [by apply reads_u16|]. eapply reads_bind; [by apply reads_u32|].
  destruct p as [a b c]. by apply (reads_last get16 (mkLP a b)), reads_u16.
Qed.

(** ** Structs sent as raw memory

    The compiler's layout on x86-64; the padding bytes have any value. *)
Definition field (ofs n : nat) (bs : list Z) : Z := le_val (take n (drop ofs bs)).

Definition layout_BulkSetHWMArg (pad : BulkSetHWMArg -> list Z) (a : BulkSetHWMArg) : stream :=
  le_bytes 4 (bs_oid a) ++ le_bytes 4 (bs_part a) ++ le_bytes 2 (bs_seg a) ++ pad a ++ le_bytes 4 (bs_hwm a).
Definition decode_BulkSetHWMArg (b : stream) : BulkSetHWMArg :=
  mkBulkSetHWMArg (i32 (field 0 4 b)) (field 4 4 b) (field 8 2 b) (field 12 4 b).

Definition layout_BulkUpdateDBRootArg (pad : Z * Z -> list Z) (a : Z * Z) : stream :=
  le_bytes 8 a.1 ++ le_bytes 2 a.2 ++ pad a.
Definition decode_BulkUpdateDBRootArg (b : stream) : Z * Z := (i64 (field 0 8 b), field 8 2 b).

Definition layout_StripeIn (c : Z * Z * ColDataType) : stream :=
  le_bytes 4 c.1.1 ++ le_bytes 4 c.1.2 ++ le_bytes 4 (type_code c.2).
Definition decode_StripeIn (b : stream) : Z * Z * ColDataType :=
  (i32 (field 0 4 b), field 4 4 b, type_of (field 8 4 b)).

Definition layout_StripeOut (e : Z * Z * Z) : stream := le_bytes 8 e.1.1 ++ le_bytes 4 e.1.2 ++ le_bytes 4 e.2.
Definition decode_StripeOut (b : stream) : Z * Z * Z := (i64 (field 0 8 b), i32 (field 8 4 b), field 12 4 b).

(** [CPInfo] and [CPInfoMerge]: the LBID and the values of a map entry. *)
Definition layout_CPInfo (pad1 pad2 : Z * CPMaxMin -> list Z) (a : Z * CPMaxMin) : stream :=
  let c := a.2 in
  le_bytes 8 a.1 ++ le_bytes 8 (cp_max c) ++ le_bytes 8 (cp_min c) ++ le_bytes 4 (cp_seqNum c) ++ pad1 a ++
  le_bytes 16 (cp_bigMax c) ++ le_bytes 16 (cp_bigMin c) ++ le_bytes 1 (if cp_isBinaryColumn c then 1 else 0) ++ pad2 a.
Definition decode_CPInfo (b : stream) : Z * CPMaxMin :=
  (i64 (field 0 8 b),
   mkCPMaxMin (i64 (field 8 8 b)) (i64 (field 16 8 b)) (i32 (field 24 4 b)) (i128 (field 32 16 b)) (i128 (field 48 16 b))
     (negb (field 64 1 b =? 0))).

Definition layout_CPInfoMerge (pad : Z * CPMaxMinMerge -> list Z) (a : Z * CPMaxMinMerge) : stream :=
  let c := a.2 in
  le_bytes 8 a.1 ++ le_bytes 8 (mg_max c) ++ le_bytes 8 (mg_min c) ++ le_bytes 4 (mg_seqNum c) ++
  le_bytes 4 (type_code (mg_type c)) ++ le_bytes 4 (mg_colWidth c) ++ le_bytes 1 (if mg_newExtent c then 1 else 0) ++ pad a ++
  le_bytes 16 (mg_bigMax c) ++ le_bytes 16 (mg_bigMin c).
Definition decode_CPInfoMerge (b : stream) : Z * CPMaxMinMerge :=
  (i64 (field 0 8 b),
   mkCPMaxMinMerge (i64 (field 8 8 b)) (i64 (field 16 8 b)) (i32 (field 24 4 b)) (type_of (field 28 4 b)) (i32 (field 32 4 b))
     (negb (field 36 1 b =? 0)) (i128 (field 48 16 b)) (i128 (field 64 16 b))).

Definition decode_LBID (b : stream) : Z := i64 (field 0 8 b).
Definition decode_u32 (b : stream) : Z := field 0 4 b.

(** Field [n] of a concatenation. *)
Lemma field_here n v rest : field 0 n (le_bytes n v ++ rest) = v mod 2 ^ (8 * Z.of_nat n).
Proof. unfold field. rewrite drop_0, take_app_length' by (by rewrite length_le_bytes). apply le_val_bytes. Qed.
Lemma field_last n v : field 0 n (le_bytes n v) = v mod 2 ^ (8 * Z.of_nat n).
Proof. rewrite <- (app_nil_r (le_bytes n v)). apply field_here. Qed.
Lemma struct_skip k ofs n bs rest : length bs = k -> field (k + ofs) n (bs ++ rest) = field ofs n rest.
Proof.
  intros <-. unfold field. by rewrite <- drop_drop, drop_app_length.
Qed.
Lemma type_of_code ty : type_of (type_code ty) = ty.
Proof. by destruct ty. Qed.
Lemma type_code_range ty : 0 <= type_code ty < 2 ^ 8.
Proof. destruct ty; simpl; lia. Qed.

(** The value of a field, given the lengths of the parts before it. *)
Ltac fields := repeat match goal with
  | |- context [field 0 ?n (le_bytes ?n ?v ++ ?r)] => rewrite (field_here n v r)
  | |- context [field 0 ?n (le_bytes ?n ?v)] => rewrite (field_last n v)
  | |- context [field ?o ?n (le_bytes ?k ?v ++ ?r)] =>
      let o' := eval compute in (o - k)%nat in
      change (field o n (le_bytes k v ++ r)) with (field (k + o')%nat n (le_bytes k v ++ r));
      rewrite (struct_skip k o' n (le_bytes k v) r (length_le_bytes k v))
  end.
Ltac word_sizes := repeat match goal with |- context [8 * Z.of_nat ?n] => let v := eval vm_compute in (8 * Z.of_nat n) in
  change (8 * Z.of_nat n) with v end.

Lemma mod_u32 z : is_u32 z -> z mod 2 ^ 32 = z.
Proof. apply Z.mod_small. Qed.
Lemma mod_u16 z : is_u16 z -> z mod 2 ^ 16 = z.
Proof. apply Z.mod_small. Qed.
Lemma mod_type ty : type_code ty mod 2 ^ 32 = type_code ty.
Proof. apply Z.mod_small. pose proof (type_code_range ty). lia. Qed.
Lemma mod_bool (b : bool) : negb ((if b then 1 else 0) mod 2 ^ 8 =? 0) = b.
Proof. by destruct b. Qed.

(** *** The structs are read back *)
Ltac unpad := repeat match goal with
  | H : length ?p = ?k |- context [field ?o ?n (?p ++ ?r)] =>
      let o' := eval compute in (o - k)%nat in
      change (field o n (p ++ r)) with (field (k + o')%nat n (p ++ r)); rewrite (struct_skip k o' n p r H); fields
  end.
Ltac layout := fields; unpad; word_sizes;
  rewrite ?mod_type, ?type_of_code, ?mod_bool, ?i32_mod, ?i64_mod, ?i128_mod, ?mod_u32, ?mod_u16 by done.

Definition hwmarg_ok (a : BulkSetHWMArg) : Prop := is_i32 (bs_oid a) /\ is_u32 (bs_part a) /\ is_u16 (bs_seg a) /\ is_u32 (bs_hwm a).

Lemma BulkSetHWMArg_layout pad a :
  hwmarg_ok a -> length (pad a) = 2%nat ->
  decode_BulkSetHWMArg (layout_BulkSetHWMArg pad a) = a /\ length (layout_BulkSetHWMArg pad a) = 16%nat.
Proof.
  intros (H1 & H2 & H3 & H4) Hp. unfold decode_BulkSetHWMArg, layout_BulkSetHWMArg.
  split; [layout; by destruct a|]. by rewrite !length_app, !length_le_bytes, Hp.
Qed.

Definition dbrootarg_ok (a : Z * Z) : Prop := is_i64 a.1 /\ is_u16 a.2.

Lemma BulkUpdateDBRootArg_layout pad a :
  dbrootarg_ok a -> length (pad a) = 6%nat ->
  decode_BulkUpdateDBRootArg (layout_BulkUpdateDBRootArg pad a) = a /\ length (layout_BulkUpdateDBRootArg pad a) = 16%nat.
Proof.
  intros (H1 & H2) Hp. unfold decode_BulkUpdateDBRootArg, layout_BulkUpdateDBRootArg.
  split; [layout; by destruct a|]. by rewrite !length_app, !length_le_bytes, Hp.
Qed.

Definition column_ok (c : Z * Z * ColDataType) : Prop := is_i32 c.1.1 /\ is_u32 c.1.2.

Lemma StripeIn_layout c : column_ok c -> decode_StripeIn (layout_StripeIn c) = c /\ length (layout_StripeIn c) = 12%nat.
Proof.
  intros (H1 & H2). unfold decode_StripeIn, layout_StripeIn. split; [layout; by destruct c as [[] ?]|].
  by rewrite !length_app, !length_le_bytes.
Qed.

Definition stripeout_ok (e : Z * Z * Z) : Prop := is_i64 e.1.1 /\ is_i32 e.1.2 /\ is_u32 e.2.

Lemma StripeOut_layout e : stripeout_ok e -> decode_StripeOut (layout_StripeOut e) = e /\ length (layout_StripeOut e) = 16%nat.
Proof.
  intros (H1 & H2 & H3). unfold decode_StripeOut, layout_StripeOut. split; [layout; by destruct e as [[] ?]|].
  by rewrite !length_app, !length_le_bytes.
Qed.

Definition cp_ok (a : Z * CPMaxMin) : Prop :=
  is_i64 a.1 /\ is_i64 (cp_max a.2) /\ is_i64 (cp_min a.2) /\ is_i32 (cp_seqNum a.2) /\ is_i128 (cp_bigMax a.2) /\ is_i128 (cp_bigMin a.2).

Lemma CPInfo_layout pad1 pad2 a :
  cp_ok a -> length (pad1 a) = 4%nat -> length (pad2 a) = 15%nat ->
  decode_CPInfo (layout_CPInfo pad1 pad2 a) = a /\ length (layout_CPInfo pad1 pad2 a) = 80%nat.
Proof.
  intros (H1 & H2 & H3 & H4 & H5 & H6) Hp1 Hp2. unfold decode_CPInfo, layout_CPInfo.
  split; [layout; by destruct a as [? []]|]. by rewrite !length_app, !length_le_bytes, Hp1, Hp2.
Qed.

Definition merge_ok (a : Z * CPMaxMinMerge) : Prop :=
  is_i64 a.1 /\ is_i64 (mg_max a.2) /\ is_i64 (mg_min a.2) /\ is_i32 (mg_seqNum a.2) /\ is_i32 (mg_colWidth a.2) /\
  is_i128 (mg_bigMax a.2) /\ is_i128 (mg_bigMin a.2).

Lemma CPInfoMerge_layout pad a :
  merge_ok a -> length (pad a) = 11%nat ->
  decode_CPInfoMerge (layout_CPInfoMerge pad a) = a /\ length (layout_CPInfoMerge pad a) = 80%nat.
Proof.
  intros (H1 & H2 & H3 & H4 & H5 & H6 & H7) Hp. unfold decode_CPInfoMerge, layout_CPInfoMerge.
  split; [layout; by destruct a as [? []]|]. by rewrite !length_app, !length_le_bytes, Hp.
Qed.

Lemma LBID_layout l : is_i64 l -> decode_LBID (le_bytes 8 l) = l /\ length (le_bytes 8 l) = 8%nat.
Proof. intros H. unfold decode_LBID. split; [by layout|]. apply length_le_bytes. Qed.

Lemma u32_layout v : is_u32 v -> decode_u32 (le_bytes 4 v) = v /\ length (le_bytes 4 v) = 4%nat.
Proof. intros H. unfold decode_u32. split; [by layout|]. apply length_le_bytes. Qed.

#[export] Hint Resolve reads_i32 reads_i64 reads_i128 reads_bool reads_u16 reads_u32 reads_type8 reads_type32
  reads_LBIDRange reads_VBRange reads_partition : reads.
End Messages.
