(* ===== verification/SlaveComm.v ===== *)
(** * The worker's side of the protocol

    versioning/BRM/slavecomm.cpp: a worker reads a command, executes it on its tables
    and answers; the controller then sends a confirmation or an undo.  The first
    worker also keeps the journal of the confirmed commands and takes snapshots; the
    journal is replayed on a snapshot when the system starts. *)

From S2P Require Import Prelude Hasher Bytes ByteStream Vss SlaveNode Persist ExtentMap ExtentCP ExtentHwm ExtentPart Worker Messages.
From stdpp Require Import prelude gmap strings.
Local Open Scope Z_scope.

Module SlaveComm.
Import Messages.

(** ** State

    [up k] is whether socket operation number [k] succeeds; [sent] are the messages
    written so far. *)
Record Link := mkLink { isOpen : bool; up : nat -> bool; ops : nat; sent : list stream }.

(** The files of the first worker: the two snapshots, the name of the current one,
    the journal, and whether the last two can be opened for writing. *)
Record Disk := mkDisk {
  filesA : Worker.Files; filesB : Worker.Files; current : FileIO.Dev; journalh : FileIO.Dev;
  openCurrent : bool; openJournal : bool }.

Record comm := mkComm {
  slave : Worker.worker; master : Link; disk : Disk; savefile : list Z;
  firstSlave : bool; standalone : bool; printOnly : bool;
  takeSnapshot : bool; doSaveDelta : bool; saveFileToggle : bool;
  delta : stream; snapshotInterval : Z; journalCount : Z; host : Z }.

Definition set_slave x c := mkComm x (master c) (disk c) (savefile c) (firstSlave c) (standalone c) (printOnly c) (takeSnapshot c) (doSaveDelta c) (saveFileToggle c) (delta c) (snapshotInterval c) (journalCount c) (host c).
Definition set_master x c := mkComm (slave c) x (disk c) (savefile c) (firstSlave c) (standalone c) (printOnly c) (takeSnapshot c) (doSaveDelta c) (saveFileToggle c) (delta c) (snapshotInterval c) (journalCount c) (host c).
Definition set_disk x c := mkComm (slave c) (master c) x (savefile c) (firstSlave c) (standalone c) (printOnly c) (takeSnapshot c) (doSaveDelta c) (saveFileToggle c) (delta c) (snapshotInterval c) (journalCount c) (host c).
Definition set_printOnly x c := mkComm (slave c) (master c) (disk c) (savefile c) (firstSlave c) (standalone c) x (takeSnapshot c) (doSaveDelta c) (saveFileToggle c) (delta c) (snapshotInterval c) (journalCount c) (host c).
Definition set_takeSnapshot x c := mkComm (slave c) (master c) (disk c) (savefile c) (firstSlave c) (standalone c) (printOnly c) x (doSaveDelta c) (saveFileToggle c) (delta c) (snapshotInterval c) (journalCount c) (host c).
Definition set_doSaveDelta x c := mkComm (slave c) (master c) (disk c) (savefile c) (firstSlave c) (standalone c) (printOnly c) (takeSnapshot c) x (saveFileToggle c) (delta c) (snapshotInterval c) (journalCount c) (host c).
Definition set_toggle x c := mkComm (slave c) (master c) (disk c) (savefile c) (firstSlave c) (standalone c) (printOnly c) (takeSnapshot c) (doSaveDelta c) x (delta c) (snapshotInterval c) (journalCount c) (host c).
Definition set_delta x c := mkComm (slave c) (master c) (disk c) (savefile c) (firstSlave c) (standalone c) (printOnly c) (takeSnapshot c) (doSaveDelta c) (saveFileToggle c) x (snapshotInterval c) (journalCount c) (host c).
Definition set_journalCount x c := mkComm (slave c) (master c) (disk c) (savefile c) (firstSlave c) (standalone c) (printOnly c) (takeSnapshot c) (doSaveDelta c) (saveFileToggle c) (delta c) (snapshotInterval c) x (host c).

(** [host] is the machine the process runs on.
    [SlaveComm(hostname)] of worker number 1 or of another, and [SlaveComm()]. *)
Definition worker_comm (w : Worker.worker) (l : Link) (d : Disk) (root : list Z) (first : bool) (interval host : Z) : comm :=
  mkComm w l d (if first then root else []) first false false false false true [] interval 0 host.
Definition standalone_comm (w : Worker.worker) (l : Link) (d : Disk) (root : list Z) (host : Z) : comm :=
  mkComm w l d root false true false false false true [] 0 0 host.

Definition inSlave {A} (m : M Worker.worker A) : M comm A := zoom slave set_slave m.
Definition inJournal {A} (m : M FileIO.Dev A) : M comm A :=
  zoom (fun c => journalh (disk c))
       (fun d c => set_disk (mkDisk (filesA (disk c)) (filesB (disk c)) (current (disk c)) d (openCurrent (disk c)) (openJournal (disk c))) c) m.
Definition inCurrent {A} (m : M FileIO.Dev A) : M comm A :=
  zoom (fun c => current (disk c))
       (fun d c => set_disk (mkDisk (filesA (disk c)) (filesB (disk c)) d (journalh (disk c)) (openCurrent (disk c)) (openJournal (disk c))) c) m.

(** ** Messages *)
Definition parse {A} (g : M stream A) (msg : stream) : M comm (A * stream) := fun c =>
  match g msg with
  | (Val a, rest) => (Val (a, rest), c)
  | (Exn e, _) => (Exn e, c)
  | (Fault f, _) => (Fault f, c)
  end.

(** [master.write(reply)] *)
Definition write_master (reply : stream) : M comm unit := fun c =>
  let l := master c in
  if isOpen l && up l (ops l)
  then (Val tt, set_master (mkLink true (up l) (S (ops l)) (sent l ++ [reply])) c)
  else (Exn (runtime_error "write failed"), set_master (mkLink (isOpen l) (up l) (S (ops l)) (sent l)) c).

Definition respond (reply : stream) : M comm unit :=
  alone ← gets standalone; if (alone : bool) then mret tt else write_master reply.

Definition unless_printing (m : M comm unit) : M comm unit :=
  p ← gets printOnly; if (p : bool) then mret tt else m.

(** What every handler does with a decoded command: run it, answer with the error
    code and the results, and remember how the confirmation has to be made durable. *)
Definition execute (snapshot : bool) (m : M Worker.worker (Z * stream)) : M comm unit :=
  '(err, out) ← inSlave m;
  respond (put8 err ++ out) ;;
  modify (if snapshot then set_takeSnapshot true else set_doSaveDelta true).

Definition answer (snapshot : bool) (m : M Worker.worker (Z * stream)) : M comm unit :=
  unless_printing (execute snapshot m).

(** A command with a return code and no results. *)
Definition code (m : M Worker.worker Z) : M Worker.worker (Z * stream) := err ← m; mret (err, []).

(** A command with results when the return code is 0. *)
Definition results {A} (put : A -> outcome stream) (m : M Worker.worker (option A)) : M Worker.worker (Z * stream) :=
  r ← m;
  match r with
  | None => mret (-1, [])
  | Some a => out ← lift (fun _ => put a); mret (0, out)
  end.

Section handlers.
Context {IO : ExtentMap.IterOrder}.
(** What other processes do to the shared tables while the node sleeps; the text that
    goes with the error code of a partition command; the values of the entry variables
    of the casual-partitioning loops before they are assigned; the first line of
    /proc/<pid>/stat on a machine; the padding of the structs in the save files. *)
Context (others : SlaveNode.node -> SlaveNode.node) (emsg : stream -> Worker.worker -> list Z)
  (set0 : ExtentCP.CPMaxMin) (merge0 : ExtentCP.CPMaxMinMerge) (procStat : Z -> Z -> option (list Z)) (pads : Worker.Pads).

Definition inNode {A} (m : M SlaveNode.node A) : M Worker.worker A := Worker.inNode m.

(** *** Extents *)
Definition put_stripe (r : list (Z * Z * Z) * Z * option Z) : outcome stream :=
  match r with
  | (_, _, None) => Fault Uninitialised
  | (extents, part, Some seg) => Val (put32 part ++ put16 seg ++ serializeInlineVector layout_StripeOut extents)
  end.

(** [tmp32], through which the partition number is read, is a [uint16_t]. *)
Definition get_stripe : M stream (list (Z * Z * ExtentMap.ColDataType) * Z * Z) :=
  cols ← deserializeInlineVector decode_StripeIn 12; dbRoot ← get16; part ← get16; mret (cols, dbRoot, part).

Definition small_oid (cols : list (Z * Z * ExtentMap.ColDataType)) : bool :=
  match cols with [] => false | c :: _ => c.1.1 <? 3000 end.

Definition do_createStripeColumnExtents (msg : stream) : M comm unit :=
  '((cols, dbRoot, part), _) ← parse get_stripe msg;
  answer (small_oid cols) (results put_stripe (Worker.createStripeColumnExtents cols dbRoot part)).

Definition get_column : M stream (Z * Z * Z * Z * Z * ExtentMap.ColDataType) :=
  oid ← get_i32; colWidth ← get32; dbRoot ← get16; part ← get32; seg ← get16; ty ← get_type8;
  mret (oid, colWidth, dbRoot, part, seg, ty).

Definition put_column (r : Z * Z * (Z * Z * Z)) : outcome stream :=
  let '(lbid, size, (part, seg, off)) := r in Val (put32 part ++ put16 seg ++ put64 lbid ++ put32 size ++ put32 off).

Definition do_createColumnExtent_DBroot (msg : stream) : M comm unit :=
  '((oid, colWidth, dbRoot, part, _, ty), _) ← parse get_column msg;
  answer (oid <? 3000) (results put_column (Worker.createColumnExtent_DBroot oid colWidth dbRoot ty part)).

Definition put_exact (part seg : Z) (r : Z * Z * Z) : outcome stream :=
  let '(lbid, size, off) := r in Val (put32 part ++ put16 seg ++ put64 lbid ++ put32 size ++ put32 off).

Definition do_createColumnExtentExactFile (msg : stream) : M comm unit :=
  '((oid, colWidth, dbRoot, part, seg, ty), _) ← parse get_column msg;
  answer (oid <? 3000) (results (put_exact part seg) (Worker.createColumnExtentExactFile oid colWidth dbRoot part seg ty)).

Definition get_dict : M stream (Z * Z * Z * Z) :=
  oid ← get_i32; dbRoot ← get16; part ← get32; seg ← get16; mret (oid, dbRoot, part, seg).

Definition put_dict (r : Z * Z) : outcome stream := Val (put64 r.1 ++ put32 r.2).

Definition do_createDictStoreExtent (msg : stream) : M comm unit :=
  '((oid, dbRoot, part, seg), _) ← parse get_dict msg;
  answer false (results put_dict (Worker.createDictStoreExtent oid dbRoot part seg)).

Definition get_rollbackColumn : M stream (Z * bool * Z * Z * Z * Z) :=
  oid ← get_i32; all ← get_bool; dbRoot ← get16; part ← get32; seg ← get16; hwm ← get32;
  mret (oid, all, dbRoot, part, seg, hwm).

Definition do_rollbackColumnExtents_DBroot (msg : stream) : M comm unit :=
  '((oid, all, dbRoot, part, seg, hwm), _) ← parse get_rollbackColumn msg;
  answer false (code (Worker.rollbackColumnExtents_DBroot oid all dbRoot part seg hwm)).

Definition get_rollbackDict : M stream (Z * Z * Z * list Z * list Z) :=
  oid ← get_i32; dbRoot ← get16; part ← get32; segNums ← deserializeVector get16; hwms ← deserializeVector get32;
  mret (oid, dbRoot, part, segNums, hwms).

Definition do_rollbackDictStoreExtents_DBroot (msg : stream) : M comm unit :=
  '((oid, dbRoot, part, segNums, hwms), _) ← parse get_rollbackDict msg;
  answer false (code (Worker.rollbackDictStoreExtents_DBroot oid dbRoot part segNums hwms)).

(** A vector that is sent with a 32-bit count. *)
Definition get_vector32 {A} (g : M stream A) : M stream (list A) := n ← get32; get_list g n.

(** The entries of [extentsInfoMap]; without the flag it is false in a new entry. *)
Definition get_info (withFlag : bool) : M stream (Z * ExtentHwm.ExtentInfo) :=
  oid ← get_i32; part ← get32; seg ← get16; dbRoot ← get16; hwm ← get32;
  newFile ← (if withFlag then get_bool else mret false);
  mret (oid, ExtentHwm.mkExtentInfo part seg dbRoot hwm newFile).

(** [m[k] = v] for each pair, then the elements of the unordered map. *)
Definition as_umap {V} (l : list (Z * V)) : list (Z * V) :=
  ExtentMap.umap_to_list (foldl (fun m p => <[p.1 := p.2]> m) (∅ : gmap Z V) l).

Definition do_deleteEmptyColExtents (msg : stream) : M comm unit :=
  '(infos, _) ← parse (get_vector32 (get_info false)) msg;
  answer false (code (Worker.deleteEmptyColExtents (as_umap infos))).

Definition do_deleteEmptyDictStoreExtents (msg : stream) : M comm unit :=
  '(infos, _) ← parse (get_vector32 (get_info true)) msg;
  answer false (code (Worker.deleteEmptyDictStoreExtents (as_umap infos))).

Definition do_deleteOID (msg : stream) : M comm unit :=
  '(oid, _) ← parse get_i32 msg;
  answer false (code (Worker.deleteOID oid)).

Definition oids_in_order (oids : list Z) : list Z := fst <$> as_umap ((fun o => (o, o)) <$> oids).

Definition do_deleteOIDs (msg : stream) : M comm unit :=
  '(oids, _) ← parse (get_vector32 get_i32) msg;
  answer false (code (Worker.deleteOIDs (oids_in_order oids))).

(** *** High water marks *)
Definition get_localHWM : M stream (Z * Z * Z * Z) :=
  oid ← get_i32; part ← get32; seg ← get16; hwm ← get32; mret (oid, part, seg, hwm).

Definition do_setLocalHWM (msg : stream) : M comm unit :=
  '((oid, part, seg, hwm), _) ← parse get_localHWM msg;
  first ← gets firstSlave;
  answer false (code (Worker.setLocalHWM oid part seg hwm first)).

Definition get_bulkHWM : M stream (list ExtentHwm.BulkSetHWMArg * Z) :=
  args ← deserializeInlineVector decode_BulkSetHWMArg 16; transID ← get_i32; mret (args, transID).

Definition do_bulkSetHWM (msg : stream) : M comm unit :=
  '((args, transID), _) ← parse get_bulkHWM msg;
  first ← gets firstSlave;
  answer false (code (Worker.bulkSetHWM args transID first)).

Definition get_bulkHWMAndCP : M stream (list ExtentHwm.BulkSetHWMArg * list (Z * ExtentCP.CPMaxMin) * list (Z * ExtentCP.CPMaxMinMerge) * Z) :=
  hwms ← deserializeInlineVector decode_BulkSetHWMArg 16;
  sets ← deserializeInlineVector decode_CPInfo 80;
  merges ← deserializeInlineVector decode_CPInfoMerge 80;
  transID ← get_i32; mret (hwms, sets, merges, transID).

(** The test of [printOnly] is disabled here. *)
Definition do_bulkSetHWMAndCP (msg : stream) : M comm unit :=
  '((hwms, sets, merges, transID), _) ← parse get_bulkHWMAndCP msg;
  first ← gets firstSlave;
  execute false (code (Worker.bulkSetHWMAndCP set0 merge0 hwms sets merges transID first)).

(** And missing here. *)
Definition do_bulkUpdateDBRoot (msg : stream) : M comm unit :=
  '(args, _) ← parse (deserializeInlineVector decode_BulkUpdateDBRootArg 16) msg;
  execute false (code (Worker.bulkUpdateDBRoot args)).

(** *** Casual partitioning *)
Definition get_invalid : M stream (Z * ExtentMap.ColDataType) := lbid ← get_i64; ty ← get_type32; mret (lbid, ty).

Definition do_markInvalid (msg : stream) : M comm unit :=
  '((lbid, ty), _) ← parse get_invalid msg;
  answer false (code (Worker.markExtentInvalid lbid ty)).

Definition do_markManyExtentsInvalid (msg : stream) : M comm unit :=
  '(l, _) ← parse (get_vector32 get_invalid) msg;
  answer false (code (Worker.markExtentsInvalid (fst <$> l) (snd <$> l))).

Definition get_maxMin : M stream (Z * Z * Z * Z) :=
  lbid ← get_i64; max ← get_i64; min ← get_i64; seqNum ← get_i32; mret (lbid, max, min, seqNum).

Definition do_setExtentMaxMin (msg : stream) : M comm unit :=
  '((lbid, max, min, seqNum), _) ← parse get_maxMin msg;
  first ← gets firstSlave;
  answer false (code (Worker.setExtentMaxMin lbid max min seqNum first)).

(** The values that the loop assigns to the entry variable; the others are 0 here. *)
Definition get_cp : M stream (Z * ExtentCP.CPMaxMin) :=
  binary ← get_bool; lbid ← get_i64;
  if (binary : bool) then
    bigMax ← get_i128; bigMin ← get_i128; seqNum ← get_i32;
    mret (lbid, ExtentCP.mkCPMaxMin 0 0 seqNum bigMax bigMin true)
  else
    max ← get_i64; min ← get_i64; seqNum ← get_i32;
    mret (lbid, ExtentCP.mkCPMaxMin max min seqNum 0 0 false).

Definition do_setExtentsMaxMin (msg : stream) : M comm unit :=
  '(l, _) ← parse (n ← get_i32; get_list get_cp n) msg;
  first ← gets firstSlave;
  answer false (code (Worker.setExtentsMaxMin (ExtentMap.umap_to_list (Worker.fill_map Worker.set_entry set0 l)) first)).

(** The column width and the wide values are not part of the message: they stay as
    they are in the uninitialised entry variable. *)
Definition get_merge : M stream (Z * ExtentCP.CPMaxMinMerge) :=
  lbid ← get_i64; max ← get_i64; min ← get_i64; seqNum ← get_i32; ty ← get_type32; new ← get32;
  mret (lbid, ExtentCP.mkCPMaxMinMerge max min seqNum ty (ExtentCP.mg_colWidth merge0) (negb (new =? 0))
                (ExtentCP.mg_bigMax merge0) (ExtentCP.mg_bigMin merge0)).

Definition do_mergeExtentsMaxMin (msg : stream) : M comm unit :=
  '(l, _) ← parse (n ← get_i32; get_list get_merge n) msg;
  answer false (code (Worker.mergeExtentsMaxMin (as_umap l))).

(** *** Partitions: the error code comes with a text *)
Definition with_text (msg : stream) (m : M Worker.worker Z) : M Worker.worker (Z * stream) :=
  text ← gets (emsg msg); err ← m; mret (err, if err =? 0 then [] else put_string text).

Definition get_partitions : M stream (list ExtentPart.LogicalPartition * list Z) :=
  parts ← deserializeSet ExtentPart.lp_lt get_partition; oids ← get_vector32 get_i32; mret (parts, to_set Z.ltb oids).

Definition do_deletePartition (msg : stream) : M comm unit :=
  '((parts, oids), _) ← parse get_partitions msg;
  answer false (with_text msg (Worker.deletePartition oids parts)).
Definition do_markPartitionForDeletion (msg : stream) : M comm unit :=
  '((parts, oids), _) ← parse get_partitions msg;
  answer false (with_text msg (Worker.markPartitionForDeletion oids parts)).
Definition do_restorePartition (msg : stream) : M comm unit :=
  '((parts, oids), _) ← parse get_partitions msg;
  answer false (with_text msg (Worker.restorePartition oids parts)).
Definition do_markAllPartitionForDeletion (msg : stream) : M comm unit :=
  '(oids, _) ← parse (get_vector32 get_i32) msg;
  answer false (code (Worker.markAllPartitionForDeletion (to_set Z.ltb oids))).
Definition do_deleteDBRoot (msg : stream) : M comm unit :=
  '(q, _) ← parse get32 msg;
  answer false (code (Worker.deleteDBRoot (u16 q))).

(** *** Versions and copy locks *)
Definition get_vbEntry : M stream (Z * Z * Z * Z) :=
  transID ← get_i32; lbid ← get_i64; vbOID ← get_i32; vbFBO ← get32; mret (transID, lbid, vbOID, vbFBO).

Definition do_writeVBEntry (msg : stream) : M comm unit :=
  '((transID, lbid, vbOID, vbFBO), _) ← parse get_vbEntry msg;
  answer false (code (inNode (SlaveNode.writeVBEntry transID lbid vbOID vbFBO))).

Definition get_bulkVB : M stream (Z * list Z * Z * list Z) :=
  transID ← get_i32; lbids ← deserializeInlineVector decode_LBID 8; vbOID ← get_i32;
  vbFBOs ← deserializeInlineVector decode_u32 4; mret (transID, lbids, vbOID, vbFBOs).

Definition do_bulkWriteVBEntry (msg : stream) : M comm unit :=
  '((transID, lbids, vbOID, vbFBOs), _) ← parse get_bulkVB msg;
  answer false (code (inNode (SlaveNode.bulkWriteVBEntry transID lbids vbOID vbFBOs))).

Definition get_beginCopy : M stream (Z * Z * list VSS.LBIDRange) :=
  transID ← get_i32; vbOID ← get16; ranges ← deserializeVector get_LBIDRange; mret (transID, vbOID, ranges).

Definition begin_copy (transID vbOID : Z) (ranges : list VSS.LBIDRange) (flush : bool) : M Worker.worker (Z * stream) :=
  '(err, free) ← inNode (SlaveNode.beginVBCopy others transID vbOID ranges flush);
  mret (err, if err =? 0 then serializeVector put_VBRange free else []).

Definition do_beginVBCopy (msg : stream) : M comm unit :=
  '((transID, vbOID, ranges), _) ← parse get_beginCopy msg;
  flush ← gets (fun c => firstSlave c && negb (standalone c));
  answer false (begin_copy transID vbOID ranges flush).

Definition get_ranges : M stream (Z * list VSS.LBIDRange) :=
  transID ← get_i32; ranges ← deserializeVector get_LBIDRange; mret (transID, ranges).

Definition do_endVBCopy (msg : stream) : M comm unit :=
  '((transID, ranges), _) ← parse get_ranges msg;
  answer false (code (inNode (SlaveNode.endVBCopy transID ranges))).

Definition do_vbRollback1 (msg : stream) : M comm unit :=
  '((transID, ranges), _) ← parse get_ranges msg;
  flush ← gets (fun c => firstSlave c && negb (standalone c));
  answer false (code (inNode (SlaveNode.vbRollback_ranges transID ranges flush))).

(** A vector of [int64_t] is an inline vector. *)
Definition get_lbids : M stream (Z * list Z) :=
  transID ← get_i32; lbids ← deserializeInlineVector decode_LBID 8; mret (transID, lbids).

Definition do_vbRollback2 (msg : stream) : M comm unit :=
  '((transID, lbids), _) ← parse get_lbids msg;
  flush ← gets (fun c => firstSlave c && negb (standalone c));
  answer false (code (inNode (SlaveNode.vbRollback_lbids transID lbids flush))).

Definition do_vbCommit (msg : stream) : M comm unit :=
  '(transID, _) ← parse get_i32 msg;
  answer false (code (inNode (SlaveNode.vbCommit transID))).

Definition get_lock : M stream (list VSS.LBIDRange * Z) :=
  ranges ← deserializeVector get_LBIDRange; txnID ← get_i32; mret (ranges, txnID).

Definition do_dmlLockLBIDRanges (msg : stream) : M comm unit :=
  '((ranges, txnID), _) ← parse get_lock msg;
  answer false (code (inNode (SlaveNode.dmlLockLBIDRanges others ranges txnID))).

Definition do_dmlReleaseLBIDRanges (msg : stream) : M comm unit :=
  '(ranges, _) ← parse (deserializeVector get_LBIDRange) msg;
  answer false (code (inNode (SlaveNode.dmlReleaseLBIDRanges ranges))).

(** *** The end of a command: undo, or make it durable and confirm *)
Definition do_undo : M comm unit :=
  unless_printing
    (inSlave Worker.undoChanges ;; modify (set_takeSnapshot false) ;; modify (set_doSaveDelta false)).

(** The results of the writes are not looked at. *)
Definition saveDelta : M comm unit :=
  d ← gets delta;
  inJournal (FileIO.write (put32 (zlen d))) ;;
  inJournal (FileIO.write d) ;;
  n ← gets journalCount;
  if n =? 2 ^ 31 - 1 then fail_with SignedOverflow else modify (set_journalCount (n + 1)).

(** What follows the last slash. *)
Fixpoint base_name (acc name : list Z) : list Z :=
  match name with
  | [] => acc
  | b :: name' => if b =? 47 then base_name [] name' else base_name (acc ++ [b]) name'
  end.

Definition truncate (d : FileIO.Dev) : FileIO.Dev := FileIO.mkDev (FileIO.isOpen d) (FileIO.answer d) (FileIO.calls d) [].
Definition fresh (f : Worker.Files) : Worker.Files :=
  Worker.mkFiles (truncate (Worker.emFile f)) (truncate (Worker.vbbmFile f)) (truncate (Worker.vssFile f)).

(** [slave->saveState] to the files with suffix A or B. *)
Definition save_to (A : bool) : M comm Z := fun c =>
  let d := disk c in
  let '(r, (f, w)) := Worker.saveState pads (fresh (if A then filesA d else filesB d), slave c) in
  (r, set_slave w (set_disk (if A then mkDisk f (filesB d) (current d) (journalh d) (openCurrent d) (openJournal d)
                             else mkDisk (filesA d) f (current d) (journalh d) (openCurrent d) (openJournal d)) c)).

Definition snapshot : M comm unit :=
  ok ← gets (fun c => openCurrent (disk c));
  if negb ok then throw (runtime_error "WorkerComm: failed to open the current savefile.")
  else
    inCurrent (modify truncate) ;;
    A ← gets saveFileToggle;
    save_to A ;;
    name ← gets savefile;
    inCurrent (FileIO.write (base_name [] (name ++ [if A then 65 else 66]) ++ [10])) ;;
    modify (set_toggle (negb A)) ;;
    jok ← gets (fun c => openJournal (disk c));
    if negb jok then throw (runtime_error "Could not open the BRM journal for writing!")
    else
      inJournal (modify truncate) ;;
      modify (set_takeSnapshot false) ;; modify (set_doSaveDelta false) ;; modify (set_journalCount 0).

Definition do_confirm : M comm unit :=
  unless_printing
    (save ← gets (fun c => firstSlave c && doSaveDelta c && ((journalCount c <? snapshotInterval c) || (snapshotInterval c <? 0)));
     (if (save : bool) then modify (set_doSaveDelta false) ;; saveDelta else mret tt) ;;
     inSlave Worker.confirmChanges ;;
     snap ← gets (fun c => firstSlave c && (takeSnapshot c || ((snapshotInterval c <=? journalCount c) && (0 <=? snapshotInterval c))));
     if (snap : bool) then snapshot else mret tt).

Definition do_flushInodeCache : M comm unit := unless_printing (respond (put8 ERR_OK)).

Definition do_clear : M comm unit :=
  unless_printing
    (err ← inSlave (inNode SlaveNode.clear);
     if negb (err =? 0) then throw (runtime_error "Clear failed.")
     else
       first ← gets firstSlave;
       (if (first : bool) then saveDelta else mret tt) ;;
       respond (put8 ERR_OK)).

Definition do_takeSnapshot : M comm unit :=
  unless_printing (modify (set_takeSnapshot true) ;; do_confirm ;; respond (put8 0)).

(** [stat.find("(" + pname + ")") != npos], where [stat] is what the buffer holds up
    to a zero byte. *)
Fixpoint prefix_of (p s : list Z) : bool :=
  match p, s with
  | [], _ => true
  | x :: p', y :: s' => (x =? y) && prefix_of p' s'
  | _, _ => false
  end.
Fixpoint contains (p s : list Z) : bool :=
  prefix_of p s || match s with [] => false | _ :: s' => contains p s' end.

Definition processExists (machine pid : Z) (pname : list Z) : bool :=
  match procStat machine pid with
  | None => false
  | Some line => contains (40 :: pname ++ [41]) (take 1023 line)
  end.

Definition do_ownerCheck (msg : stream) : M comm unit :=
  '((name, pid), rest) ← parse (name ← get_string; pid ← get32; mret (name, pid)) msg;
  idbassert (fun _ => zlen rest =? 0) ;;
  alone ← gets standalone;
  machine ← gets host;
  if (alone : bool) then mret tt else write_master (put8 (if processExists machine pid name then 1 else 0)).

(** *** The dispatch *)
Definition handlers : list (Z * (stream -> M comm unit)) :=
  [(CREATE_STRIPE_COLUMN_EXTENTS, do_createStripeColumnExtents);
   (CREATE_COLUMN_EXTENT_DBROOT, do_createColumnExtent_DBroot);
   (CREATE_COLUMN_EXTENT_EXACT_FILE, do_createColumnExtentExactFile);
   (CREATE_DICT_STORE_EXTENT, do_createDictStoreExtent);
   (ROLLBACK_COLUMN_EXTENTS_DBROOT, do_rollbackColumnExtents_DBroot);
   (ROLLBACK_DICT_STORE_EXTENTS_DBROOT, do_rollbackDictStoreExtents_DBroot);
   (DELETE_EMPTY_COL_EXTENTS, do_deleteEmptyColExtents);
   (DELETE_EMPTY_DICT_STORE_EXTENTS, do_deleteEmptyDictStoreExtents);
   (DELETE_OID, do_deleteOID);
   (DELETE_OIDS, do_deleteOIDs);
   (SET_LOCAL_HWM, do_setLocalHWM);
   (BULK_SET_HWM, do_bulkSetHWM);
   (BULK_SET_HWM_AND_CP, do_bulkSetHWMAndCP);
   (WRITE_VB_ENTRY, do_writeVBEntry);
   (BULK_WRITE_VB_ENTRY, do_bulkWriteVBEntry);
   (BEGIN_VB_COPY, do_beginVBCopy);
   (END_VB_COPY, do_endVBCopy);
   (VB_ROLLBACK1, do_vbRollback1);
   (VB_ROLLBACK2, do_vbRollback2);
   (VB_COMMIT, do_vbCommit);
   (BRM_UNDO, fun _ => do_undo);
   (CONFIRM, fun _ => do_confirm);
   (FLUSH_INODE_CACHES, fun _ => do_flushInodeCache);
   (BRM_CLEAR, fun _ => do_clear);
   (MARKEXTENTINVALID, do_markInvalid);
   (MARKMANYEXTENTSINVALID, do_markManyExtentsInvalid);
   (SETEXTENTMAXMIN, do_setExtentMaxMin);
   (SETMANYEXTENTSMAXMIN, do_setExtentsMaxMin);
   (TAKE_SNAPSHOT, fun _ => do_takeSnapshot);
   (MERGEMANYEXTENTSMAXMIN, do_mergeExtentsMaxMin);
   (DELETE_PARTITION, do_deletePartition);
   (MARK_PARTITION_FOR_DELETION, do_markPartitionForDeletion);
   (MARK_ALL_PARTITION_FOR_DELETION, do_markAllPartitionForDeletion);
   (RESTORE_PARTITION, do_restorePartition);
   (OWNER_CHECK, do_ownerCheck);
   (LOCK_LBID_RANGES, do_dmlLockLBIDRanges);
   (RELEASE_LBID_RANGES, do_dmlReleaseLBIDRanges);
   (DELETE_DBROOT, do_deleteDBRoot);
   (BULK_UPDATE_DBROOT, do_bulkUpdateDBRoot)].

Definition dispatch (cmd : Z) (msg : stream) : M comm unit :=
  match find (fun h => h.1 =? cmd) handlers with
  | Some h => h.2 msg
  | None => mret tt
  end.

(** [delta = msg] on the first worker. *)
Definition remember (msg : stream) : M comm unit :=
  first ← gets firstSlave;
  if (first : bool) then
    cmd ← lift (fun _ => peek 1 msg);
    if cmd =? CONFIRM then mret tt else modify (set_delta msg)
  else mret tt.

Definition processCommand (msg : stream) : M comm unit :=
  remember msg ;;
  '(cmd, rest) ← parse get8 msg;
  dispatch cmd rest.

(** One turn of the loop of [run] on a message of the controller. *)
Definition close_master : M comm unit :=
  modify (fun c => let l := master c in set_master (mkLink false (up l) (ops l) (sent l)) c).

Definition receive (msg : stream) : M comm unit :=
  if zlen msg =? 0 then mret tt
  else try_catch (processCommand msg) (fun _ => do_undo ;; close_master).

(** *** Replay of the journal

    The variable [len] keeps the bytes that a short read does not store; what a short
    read of the command leaves in the buffer is not initialised. *)
Definition merge_len (old : option Z) (bs : list Z) : outcome Z :=
  if (length bs <? 4)%nat
  then match old with
       | None => Fault Uninitialised
       | Some o => Val (le_val (bs ++ drop (length bs) (le_bytes 4 o)))
       end
  else Val (le_val bs).

Fixpoint replay (fuel : nat) (len : option Z) (ret : Z) : M (FileIO.Dev * comm) Z :=
  match fuel with
  | O => fail_with OutOfFuel
  | S f =>
      '(n, bs) ← zoom fst (fun d st => (d, st.2)) (FileIO.read 4);
      if n <=? 0 then mret ret
      else
        len' ← lift (fun _ => merge_len len bs);
        '(n, cmd) ← zoom fst (fun d st => (d, st.2)) (FileIO.read len');
        if zlen cmd <? len' then fail_with Uninitialised
        else
          ok ← zoom snd (fun c st => (st.1, c))
                 (try_catch (processCommand cmd ;; mret true) (fun _ => inSlave Worker.undoChanges ;; mret false));
          if negb ok then mret (-1)
          else
            zoom snd (fun c st => (st.1, c)) (inSlave Worker.confirmChanges) ;;
            if n <=? 0 then mret (ret + 1) else replay f (Some len') (ret + 1)
  end.

(** [replayJournal]: [file] is the journal as it is opened for reading. *)
Definition replayJournal (file : FileIO.Dev) : M comm Z := fun c =>
  if negb (FileIO.isOpen file) then (Val (-1), c)
  else if zlen (FileIO.bytes file) =? 0 then (Val 0, c)
  else let '(r, st) := replay (S (length (FileIO.bytes file))) None 0 (file, c) in (r, st.2).

Definition printJournal (file : FileIO.Dev) : M comm Z :=
  modify (set_printOnly true) ;;
  ret ← replayJournal file;
  modify (set_printOnly false) ;;
  mret ret.
End handlers.
End SlaveComm.
