(* ===== verification/Dbrm.v ===== *)
(** * The client library

    versioning/BRM/dbrm.cpp: a method that changes the BRM writes a command, exchanges
    it with the controller and reads the reply.  The commands of the methods, and the
    methods on top of [send_recv]; the connection is a parameter. *)

From S2P Require Import Prelude Hasher Bytes ByteStream Vss SlaveNode ExtentMap ExtentCP ExtentHwm ExtentPart Messages SlaveComm.
From stdpp Require Import prelude gmap strings.
Local Open Scope Z_scope.

Module Dbrm.
Import Messages.

(** ** Commands *)

(** A vector with a 32-bit count. *)
Definition vector32 {A} (put : A -> stream) (v : list A) : stream := put32 (zlen v) ++ (v ≫= put).

(** The padding bytes of the structs that are sent as memory. *)
Record Pads := mkPads {
  hwmPad : ExtentHwm.BulkSetHWMArg -> list Z; dbrootPad : Z * Z -> list Z;
  cpPad1 : Z * ExtentCP.CPMaxMin -> list Z; cpPad2 : Z * ExtentCP.CPMaxMin -> list Z;
  mergePad : Z * ExtentCP.CPMaxMinMerge -> list Z }.

Section commands.
Context (pads : Pads).

Definition cmd_markExtentInvalid (lbid : Z) (ty : ExtentMap.ColDataType) : stream :=
  put8 MARKEXTENTINVALID ++ put64 lbid ++ put32 (type_code ty).
Definition cmd_markExtentsInvalid (l : list (Z * ExtentMap.ColDataType)) : stream :=
  put8 MARKMANYEXTENTSINVALID ++ vector32 (fun p => put64 p.1 ++ put32 (type_code p.2)) l.

(** The sequence number is sent with 8 bytes. *)
Definition cmd_setExtentMaxMin (lbid max min seqNum : Z) : stream :=
  put8 SETEXTENTMAXMIN ++ put64 lbid ++ put64 max ++ put64 min ++ put64 seqNum.

Definition put_cp (p : Z * ExtentCP.CPMaxMin) : stream :=
  let c := p.2 in
  if ExtentCP.cp_isBinaryColumn c
  then put8 1 ++ put64 p.1 ++ put128 (ExtentCP.cp_bigMax c) ++ put128 (ExtentCP.cp_bigMin c) ++ put32 (ExtentCP.cp_seqNum c)
  else put8 0 ++ put64 p.1 ++ put64 (ExtentCP.cp_max c) ++ put64 (ExtentCP.cp_min c) ++ put32 (ExtentCP.cp_seqNum c).
Definition cmd_setExtentsMaxMin (l : list (Z * ExtentCP.CPMaxMin)) : stream :=
  put8 SETMANYEXTENTSMAXMIN ++ vector32 put_cp l.

Definition put_merge (p : Z * ExtentCP.CPMaxMinMerge) : stream :=
  let c := p.2 in
  put64 p.1 ++ put64 (ExtentCP.mg_max c) ++ put64 (ExtentCP.mg_min c) ++ put32 (ExtentCP.mg_seqNum c) ++
  put32 (type_code (ExtentCP.mg_type c)) ++ put32 (if ExtentCP.mg_newExtent c then 1 else 0).
Definition cmd_mergeExtentsMaxMin (l : list (Z * ExtentCP.CPMaxMinMerge)) : stream :=
  put8 MERGEMANYEXTENTSMAXMIN ++ vector32 put_merge l.

Definition cmd_createStripeColumnExtents (cols : list (Z * Z * ExtentMap.ColDataType)) (dbRoot part : Z) : stream :=
  put8 CREATE_STRIPE_COLUMN_EXTENTS ++ serializeInlineVector layout_StripeIn cols ++ put16 dbRoot ++ put32 part.

(** [tmp8], through which the type is sent, is a [uint32_t]. *)
Definition cmd_createColumnExtent_DBroot (oid colWidth dbRoot part seg : Z) (ty : ExtentMap.ColDataType) : stream :=
  put8 CREATE_COLUMN_EXTENT_DBROOT ++ put32 oid ++ put32 colWidth ++ put16 dbRoot ++ put32 part ++ put16 seg ++ put32 (u8 (type_code ty)).
Definition cmd_createColumnExtentExactFile (oid colWidth dbRoot part seg : Z) (ty : ExtentMap.ColDataType) : stream :=
  put8 CREATE_COLUMN_EXTENT_EXACT_FILE ++ put32 oid ++ put32 colWidth ++ put16 dbRoot ++ put32 part ++ put16 seg ++ put8 (type_code ty).
Definition cmd_createDictStoreExtent (oid dbRoot part seg : Z) : stream :=
  put8 CREATE_DICT_STORE_EXTENT ++ put32 oid ++ put16 dbRoot ++ put32 part ++ put16 seg.
Definition cmd_rollbackColumnExtents_DBroot (oid : Z) (all : bool) (dbRoot part seg hwm : Z) : stream :=
  put8 ROLLBACK_COLUMN_EXTENTS_DBROOT ++ put32 oid ++ put_bool all ++ put16 dbRoot ++ put32 part ++ put16 seg ++ put32 hwm.
Definition cmd_rollbackDictStoreExtents_DBroot (oid dbRoot part : Z) (segNums hwms : list Z) : stream :=
  put8 ROLLBACK_DICT_STORE_EXTENTS_DBROOT ++ put32 oid ++ put16 dbRoot ++ put32 part ++
  serializeVector put16 segNums ++ serializeVector put32 hwms.

Definition put_info (withFlag : bool) (p : Z * ExtentHwm.ExtentInfo) : stream :=
  let e := p.2 in
  put32 p.1 ++ put32 (ExtentHwm.ei_part e) ++ put16 (ExtentHwm.ei_seg e) ++ put16 (ExtentHwm.ei_dbRoot e) ++
  put32 (ExtentHwm.ei_hwm e) ++ (if withFlag then put_bool (ExtentHwm.ei_newFile e) else []).
Definition cmd_deleteEmptyColExtents (l : list (Z * ExtentHwm.ExtentInfo)) : stream :=
  put8 DELETE_EMPTY_COL_EXTENTS ++ vector32 (put_info false) l.
Definition cmd_deleteEmptyDictStoreExtents (l : list (Z * ExtentHwm.ExtentInfo)) : stream :=
  put8 DELETE_EMPTY_DICT_STORE_EXTENTS ++ vector32 (put_info true) l.
Definition cmd_deleteOID (oid : Z) : stream := put8 DELETE_OID ++ put32 oid.
Definition cmd_deleteOIDs (oids : list Z) : stream := put8 DELETE_OIDS ++ vector32 put32 oids.
Definition cmd_setLocalHWM (oid part seg hwm : Z) : stream :=
  put8 SET_LOCAL_HWM ++ put32 oid ++ put32 part ++ put16 seg ++ put32 hwm.
Definition cmd_bulkSetHWM (v : list ExtentHwm.BulkSetHWMArg) (transID : Z) : stream :=
  put8 BULK_SET_HWM ++ serializeInlineVector (layout_BulkSetHWMArg (hwmPad pads)) v ++ put32 transID.
Definition cmd_bulkSetHWMAndCP (v : list ExtentHwm.BulkSetHWMArg) (sets : list (Z * ExtentCP.CPMaxMin))
    (merges : list (Z * ExtentCP.CPMaxMinMerge)) (transID : Z) : stream :=
  put8 BULK_SET_HWM_AND_CP ++ serializeInlineVector (layout_BulkSetHWMArg (hwmPad pads)) v ++
  serializeInlineVector (layout_CPInfo (cpPad1 pads) (cpPad2 pads)) sets ++
  serializeInlineVector (layout_CPInfoMerge (mergePad pads)) merges ++ put32 transID.
Definition cmd_bulkUpdateDBRoot (args : list (Z * Z)) : stream :=
  put8 BULK_UPDATE_DBROOT ++ serializeInlineVector (layout_BulkUpdateDBRootArg (dbrootPad pads)) args.

(** [parts] are the elements of the set, in its order. *)
Definition cmd_partitions (cmd : Z) (oids : list Z) (parts : list ExtentPart.LogicalPartition) : stream :=
  put8 cmd ++ serializeVector put_partition parts ++ vector32 put32 oids.
Definition cmd_deletePartition := cmd_partitions DELETE_PARTITION.
Definition cmd_markPartitionForDeletion := cmd_partitions MARK_PARTITION_FOR_DELETION.
Definition cmd_restorePartition := cmd_partitions RESTORE_PARTITION.
Definition cmd_markAllPartitionForDeletion (oids : list Z) : stream :=
  put8 MARK_ALL_PARTITION_FOR_DELETION ++ vector32 put32 oids.
Definition cmd_deleteDBRoot (dbroot : Z) : stream := put8 DELETE_DBROOT ++ put32 dbroot.
Definition cmd_writeVBEntry (transID lbid vbOID vbFBO : Z) : stream :=
  put8 WRITE_VB_ENTRY ++ put32 transID ++ put64 lbid ++ put32 vbOID ++ put32 vbFBO.
Definition cmd_bulkWriteVBEntry (transID : Z) (lbids : list Z) (vbOID : Z) (vbFBOs : list Z) : stream :=
  put8 BULK_WRITE_VB_ENTRY ++ put32 transID ++ serializeInlineVector (le_bytes 8) lbids ++ put32 vbOID ++
  serializeInlineVector (le_bytes 4) vbFBOs.
Definition cmd_beginVBCopy (transID dbRoot : Z) (ranges : list VSS.LBIDRange) : stream :=
  put8 BEGIN_VB_COPY ++ put32 transID ++ put16 dbRoot ++ serializeVector put_LBIDRange ranges.
Definition cmd_endVBCopy (transID : Z) (ranges : list VSS.LBIDRange) : stream :=
  put8 END_VB_COPY ++ put32 transID ++ serializeVector put_LBIDRange ranges.
Definition cmd_vbCommit (transID : Z) : stream := put8 VB_COMMIT ++ put32 transID.
Definition cmd_vbRollback_ranges (transID : Z) (ranges : list VSS.LBIDRange) : stream :=
  put8 VB_ROLLBACK1 ++ put32 transID ++ serializeVector put_LBIDRange ranges.
Definition cmd_vbRollback_lbids (transID : Z) (lbids : list Z) : stream :=
  put8 VB_ROLLBACK2 ++ put32 transID ++ serializeInlineVector (le_bytes 8) lbids.
Definition cmd_dmlLockLBIDRanges (ranges : list VSS.LBIDRange) (txnID : Z) : stream :=
  put8 LOCK_LBID_RANGES ++ serializeVector put_LBIDRange ranges ++ put32 txnID.
Definition cmd_dmlReleaseLBIDRanges (ranges : list VSS.LBIDRange) : stream :=
  put8 RELEASE_LBID_RANGES ++ serializeVector put_LBIDRange ranges.
End commands.

(** ** The exchange with the controller

    [connect] is [MessageQueueClientPool::getInstance]; [exchange] is a write and a
    read on the connection.  Both may throw. *)
Section client.
Context {S : Type} (connect : M S unit) (exchange : stream -> M S stream) (pads : Pads).

(** [msgClient] is whether the member is not null. *)
Record client := mkClient { msgClient : bool; net : S }.
Definition inNet {A} (m : M S A) : M client A := zoom net (fun n c => mkClient (msgClient c) n) m.
Definition set_msgClient b c := mkClient b (net c).

Definition getInstance : M client bool :=
  have ← gets msgClient;
  if (have : bool) then mret true
  else try_catch (inNet connect ;; modify (set_msgClient true) ;; mret true) (fun _ => mret false).

(** [reconnect:]; four rounds are never used up. *)
Fixpoint attempt (n : nat) (firstAttempt secondAttempt : bool) (cmd : stream) : M client (Z * stream) :=
  match n with
  | O => fail_with OutOfFuel
  | Datatypes.S n' =>
      ok ← getInstance;
      if negb ok then mret (ERR_NETWORK, [])
      else
        r ← try_catch (out ← inNet (exchange cmd); mret (Some out)) (fun _ => mret None);
        match r with
        | None =>
            modify (set_msgClient false) ;;
            if firstAttempt then attempt n' false secondAttempt cmd else mret (ERR_NETWORK, [])
        | Some out =>
            if zlen out =? 0 then
              modify (set_msgClient false) ;;
              if secondAttempt then attempt n' false (if firstAttempt then secondAttempt else false) cmd
              else mret (ERR_NETWORK, [])
            else mret (ERR_OK, out)
        end
  end.

Definition send_recv (cmd : stream) : M client (Z * stream) := attempt 4 true true cmd.

(** A read from the reply that throws to the caller. *)
Definition from_reply {A} (g : M stream A) (response : stream) : M client A := lift (fun _ => (g response).1).

(** The methods whose reply is an error code; [one]: the length must be 1. *)
Definition simple (one : bool) (cmd : stream) : M client Z :=
  '(err, response) ← send_recv cmd;
  if negb (err =? ERR_OK) then mret err
  else if (if one then negb (zlen response =? 1) else zlen response =? 0) then mret ERR_NETWORK
  else from_reply get8 response.

(** The methods with results; an exception while they are read gives [failure]. *)
Definition with_results {A} (g : M stream A) (failure : Z) (cmd : stream) : M client (Z * option A) :=
  '(err, response) ← send_recv cmd;
  if negb (err =? ERR_OK) then mret (err, None)
  else if zlen response =? 0 then mret (ERR_NETWORK, None)
  else
    try_catch
      (from_reply (err ← get8;
                   if negb (err =? 0) then mret (err, None) else r ← g; mret (0, Some r)) response)
      (fun _ => mret (failure, None)).

(** The methods whose error comes with a text. *)
Definition with_emsg (cmd : stream) : M client (Z * list Z) :=
  '(err, response) ← send_recv cmd;
  if negb (err =? ERR_OK) then mret (err, [])
  else if zlen response =? 0 then mret (ERR_NETWORK, [])
  else from_reply (err ← get8; if negb (err =? 0) then text ← get_string; mret (err, text) else mret (err, [])) response.

Definition markExtentInvalid lbid ty := simple false (cmd_markExtentInvalid lbid ty).
Definition markExtentsInvalid l := simple false (cmd_markExtentsInvalid l).
Definition setExtentMaxMin lbid max min seqNum := simple false (cmd_setExtentMaxMin lbid max min seqNum).
Definition setExtentsMaxMin (l : list (Z * ExtentCP.CPMaxMin)) : M client Z :=
  match l with [] => mret 0 | _ => simple false (cmd_setExtentsMaxMin l) end.
Definition mergeExtentsMaxMin l := simple false (cmd_mergeExtentsMaxMin l).

Definition createStripeColumnExtents cols dbRoot part :=
  with_results (p ← get32; sg ← get16; es ← deserializeInlineVector decode_StripeOut 16; mret (p, sg, es)) ERR_FAILURE
    (cmd_createStripeColumnExtents cols dbRoot part).

(** Partition, segment, first LBID, number of blocks, block offset. *)
Definition get_extent : M stream (Z * Z * Z * Z * Z) :=
  part ← get32; seg ← get16; lbid ← get_i64; size ← get_i32; off ← get32; mret (part, seg, lbid, size, off).
Definition createColumnExtent_DBroot oid colWidth dbRoot part seg ty :=
  with_results get_extent ERR_FAILURE (cmd_createColumnExtent_DBroot oid colWidth dbRoot part seg ty).
Definition createColumnExtentExactFile oid colWidth dbRoot part seg ty :=
  with_results get_extent ERR_FAILURE (cmd_createColumnExtentExactFile oid colWidth dbRoot part seg ty).
Definition createDictStoreExtent oid dbRoot part seg :=
  with_results (lbid ← get_i64; size ← get_i32; mret (lbid, size)) ERR_FAILURE (cmd_createDictStoreExtent oid dbRoot part seg).
Definition rollbackColumnExtents_DBroot oid all dbRoot part seg hwm :=
  simple true (cmd_rollbackColumnExtents_DBroot oid all dbRoot part seg hwm).
Definition rollbackDictStoreExtents_DBroot oid dbRoot part segNums hwms :=
  simple true (cmd_rollbackDictStoreExtents_DBroot oid dbRoot part segNums hwms).
Definition deleteEmptyColExtents l := simple true (cmd_deleteEmptyColExtents l).
Definition deleteEmptyDictStoreExtents l := simple true (cmd_deleteEmptyDictStoreExtents l).

Definition deleteAISequence (oid : Z) : M client unit :=
  '(err, response) ← send_recv (put8 DELETE_AI_SEQUENCE ++ put32 oid);
  if negb (err =? ERR_OK) then throw (runtime_error "DBRM: deleteAILock(): network error")
  else
    '(err, rest) ← lift (fun _ => match get8 response with (Val e, r) => Val (e, r) | (Exn x, _) => Exn x | (Fault f, _) => Fault f end);
    idbassert (fun _ => zlen rest =? 0) ;;
    if negb (err =? ERR_OK) then throw (runtime_error "DBRM: deleteAILock(): processing error") else mret tt.

(** The length of the reply is checked first; then the sequences go, whatever the
    error code is. *)
Definition delete_then (cmd : stream) (oids : list Z) : M client Z :=
  '(err, response) ← send_recv cmd;
  if negb (err =? ERR_OK) then mret err
  else if negb (zlen response =? 1) then mret ERR_NETWORK
  else
    err ← from_reply get8 response;
    try_catch (for_each oids deleteAISequence) (fun _ => mret tt) ;;
    mret err.
Definition deleteOID oid := delete_then (cmd_deleteOID oid) [oid].
Definition deleteOIDs oids := delete_then (cmd_deleteOIDs oids) oids.

Definition setLocalHWM oid part seg hwm := simple true (cmd_setLocalHWM oid part seg hwm).
Definition bulkSetHWM v transID := simple true (cmd_bulkSetHWM pads v transID).
Definition bulkSetHWMAndCP v sets merges transID := simple true (cmd_bulkSetHWMAndCP pads v sets merges transID).
Definition bulkUpdateDBRoot args := simple true (cmd_bulkUpdateDBRoot pads args).
Definition deletePartition oids parts := with_emsg (cmd_deletePartition oids parts).
Definition markPartitionForDeletion oids parts := with_emsg (cmd_markPartitionForDeletion oids parts).
Definition restorePartition oids parts := with_emsg (cmd_restorePartition oids parts).
Definition markAllPartitionForDeletion oids := simple true (cmd_markAllPartitionForDeletion oids).
Definition deleteDBRoot dbroot := simple false (cmd_deleteDBRoot dbroot).
Definition writeVBEntry transID lbid vbOID vbFBO := simple true (cmd_writeVBEntry transID lbid vbOID vbFBO).
Definition bulkWriteVBEntry transID lbids vbOID vbFBOs := simple true (cmd_bulkWriteVBEntry transID lbids vbOID vbFBOs).
Definition beginVBCopy transID dbRoot ranges :=
  with_results (deserializeVector get_VBRange) ERR_NETWORK (cmd_beginVBCopy transID dbRoot ranges).

(** The result of [send_recv] is not looked at. *)
Definition endVBCopy (transID : Z) (ranges : list VSS.LBIDRange) : M client Z :=
  '(_, response) ← send_recv (cmd_endVBCopy transID ranges);
  if negb (zlen response =? 1) then mret ERR_NETWORK else from_reply get8 response.
Definition vbCommit transID := simple true (cmd_vbCommit transID).
Definition vbRollback_ranges transID ranges := simple true (cmd_vbRollback_ranges transID ranges).
Definition vbRollback_lbids transID lbids := simple true (cmd_vbRollback_lbids transID lbids).
Definition dmlLockLBIDRanges ranges txnID := simple true (cmd_dmlLockLBIDRanges ranges txnID).
Definition dmlReleaseLBIDRanges ranges := simple true (cmd_dmlReleaseLBIDRanges ranges).

Definition halt := simple true (put8 HALT).
Definition resume := simple true (put8 RESUME).
Definition forceReload := simple true (put8 RELOAD).
Definition setReadOnly (b : bool) := simple true (put8 (if b then SETREADONLY else SETREADWRITE)).
Definition clear := simple true (put8 BRM_CLEAR).
Definition isReadWrite : M client Z :=
  '(err, response) ← send_recv (put8 GETREADONLY);
  if negb (err =? ERR_OK) then mret err
  else if negb (zlen response =? 1) then mret ERR_NETWORK
  else err ← from_reply get8 response; mret (if err =? 0 then ERR_OK else ERR_READONLY).
End client.
End Dbrm.
