(* ===== verification/CommThms.v ===== *)
(** * Clients and workers understand each other

    The requests of the client library as a data type, the bytes that dbrm.cpp sends
    for each, and what slavecomm.cpp does with those bytes. *)

From S2P Require Import Prelude Hasher Bytes ByteStream Vss SlaveNode Persist ExtentMap ExtentCP ExtentHwm ExtentPart Worker Messages SlaveComm Dbrm.
From stdpp Require Import prelude gmap strings sorting.
Local Open Scope Z_scope.

Module CommThms.
Import Messages SlaveComm.

Inductive Request :=
| CreateStripe (cols : list (Z * Z * ExtentMap.ColDataType)) (dbRoot part : Z)
| CreateColumn (oid colWidth dbRoot part seg : Z) (ty : ExtentMap.ColDataType)
| CreateExact (oid colWidth dbRoot part seg : Z) (ty : ExtentMap.ColDataType)
| CreateDict (oid dbRoot part seg : Z)
| RollbackColumn (oid : Z) (all : bool) (dbRoot part seg hwm : Z)
| RollbackDict (oid dbRoot part : Z) (segNums hwms : list Z)
| DeleteEmptyCol (l : list (Z * ExtentHwm.ExtentInfo))
| DeleteEmptyDict (l : list (Z * ExtentHwm.ExtentInfo))
| DeleteOID (oid : Z)
| DeleteOIDs (oids : list Z)
| SetLocalHWM (oid part seg hwm : Z)
| BulkSetHWM (v : list ExtentHwm.BulkSetHWMArg) (transID : Z)
| BulkSetHWMAndCP (v : list ExtentHwm.BulkSetHWMArg) (sets : list (Z * ExtentCP.CPMaxMin))
    (merges : list (Z * ExtentCP.CPMaxMinMerge)) (transID : Z)
| BulkUpdateDBRoot (args : list (Z * Z))
| MarkInvalid (lbid : Z) (ty : ExtentMap.ColDataType)
| MarkManyInvalid (l : list (Z * ExtentMap.ColDataType))
| SetMaxMin (lbid max min seqNum : Z)
| SetManyMaxMin (l : list (Z * ExtentCP.CPMaxMin))
| MergeMaxMin (l : list (Z * ExtentCP.CPMaxMinMerge))
| DeletePartition (oids : list Z) (parts : list ExtentPart.LogicalPartition)
| MarkPartition (oids : list Z) (parts : list ExtentPart.LogicalPartition)
| RestorePartition (oids : list Z) (parts : list ExtentPart.LogicalPartition)
| MarkAllPartition (oids : list Z)
| DeleteDBRoot (dbroot : Z)
| WriteVBEntry (transID lbid vbOID vbFBO : Z)
| BulkWriteVBEntry (transID : Z) (lbids : list Z) (vbOID : Z) (vbFBOs : list Z)
| BeginVBCopy (transID dbRoot : Z) (ranges : list VSS.LBIDRange)
| EndVBCopy (transID : Z) (ranges : list VSS.LBIDRange)
| VbRollbackRanges (transID : Z) (ranges : list VSS.LBIDRange)
| VbRollbackLbids (transID : Z) (lbids : list Z)
| VbCommit (transID : Z)
| LockRanges (ranges : list VSS.LBIDRange) (txnID : Z)
| ReleaseRanges (ranges : list VSS.LBIDRange).

Section requests.
Context (cpads : Dbrm.Pads).

(** What the client sends. *)
Definition encode (r : Request) : stream :=
  match r with
  | CreateStripe cols root part => Dbrm.cmd_createStripeColumnExtents cols root part
  | CreateColumn oid w root part seg ty => Dbrm.cmd_createColumnExtent_DBroot oid w root part seg ty
  | CreateExact oid w root part seg ty => Dbrm.cmd_createColumnExtentExactFile oid w root part seg ty
  | CreateDict oid root part seg => Dbrm.cmd_createDictStoreExtent oid root part seg
  | RollbackColumn oid all root part seg hwm => Dbrm.cmd_rollbackColumnExtents_DBroot oid all root part seg hwm
  | RollbackDict oid root part segs hwms => Dbrm.cmd_rollbackDictStoreExtents_DBroot oid root part segs hwms
  | DeleteEmptyCol l => Dbrm.cmd_deleteEmptyColExtents l
  | DeleteEmptyDict l => Dbrm.cmd_deleteEmptyDictStoreExtents l
  | DeleteOID oid => Dbrm.cmd_deleteOID oid
  | DeleteOIDs oids => Dbrm.cmd_deleteOIDs oids
  | SetLocalHWM oid part seg hwm => Dbrm.cmd_setLocalHWM oid part seg hwm
  | BulkSetHWM v txn => Dbrm.cmd_bulkSetHWM cpads v txn
  | BulkSetHWMAndCP v sets merges txn => Dbrm.cmd_bulkSetHWMAndCP cpads v sets merges txn
  | BulkUpdateDBRoot args => Dbrm.cmd_bulkUpdateDBRoot cpads args
  | MarkInvalid lbid ty => Dbrm.cmd_markExtentInvalid lbid ty
  | MarkManyInvalid l => Dbrm.cmd_markExtentsInvalid l
  | SetMaxMin lbid max min seq => Dbrm.cmd_setExtentMaxMin lbid max min seq
  | SetManyMaxMin l => Dbrm.cmd_setExtentsMaxMin l
  | MergeMaxMin l => Dbrm.cmd_mergeExtentsMaxMin l
  | DeletePartition oids parts => Dbrm.cmd_deletePartition oids parts
  | MarkPartition oids parts => Dbrm.cmd_markPartitionForDeletion oids parts
  | RestorePartition oids parts => Dbrm.cmd_restorePartition oids parts
  | MarkAllPartition oids => Dbrm.cmd_markAllPartitionForDeletion oids
  | DeleteDBRoot root => Dbrm.cmd_deleteDBRoot root
  | WriteVBEntry txn lbid oid fbo => Dbrm.cmd_writeVBEntry txn lbid oid fbo
  | BulkWriteVBEntry txn lbids oid fbos => Dbrm.cmd_bulkWriteVBEntry txn lbids oid fbos
  | BeginVBCopy txn root ranges => Dbrm.cmd_beginVBCopy txn root ranges
  | EndVBCopy txn ranges => Dbrm.cmd_endVBCopy txn ranges
  | VbRollbackRanges txn ranges => Dbrm.cmd_vbRollback_ranges txn ranges
  | VbRollbackLbids txn lbids => Dbrm.cmd_vbRollback_lbids txn lbids
  | VbCommit txn => Dbrm.cmd_vbCommit txn
  | LockRanges ranges txn => Dbrm.cmd_dmlLockLBIDRanges ranges txn
  | ReleaseRanges ranges => Dbrm.cmd_dmlReleaseLBIDRanges ranges
  end.

(** The values of C++ variables of the methods' parameter types; a vector fits in
    memory, and the parts of a set are in its order. *)
Definition count32 {A} (v : list A) : Prop := zlen v < 2 ^ 32.
Definition count31 {A} (v : list A) : Prop := zlen v < 2 ^ 31.
Definition count64 {A} (v : list A) : Prop := zlen v < 2 ^ 64.
Definition oids_ok (oids : list Z) : Prop := count32 oids /\ Forall is_i32 oids.
Definition parts_ok (parts : list ExtentPart.LogicalPartition) : Prop :=
  count64 parts /\ Forall partition_ok parts /\
  StronglySorted (fun x y => ExtentPart.lp_lt y x = false /\ ExtentPart.lp_lt x y = true) parts.
Definition ranges_ok (ranges : list VSS.LBIDRange) : Prop := count64 ranges /\ Forall range_ok ranges.
Definition hwms_ok (v : list ExtentHwm.BulkSetHWMArg) : Prop :=
  count64 v /\ Forall (fun a => hwmarg_ok a /\ length (Dbrm.hwmPad cpads a) = 2%nat) v.
Definition info_ok (p : Z * ExtentHwm.ExtentInfo) : Prop :=
  is_i32 p.1 /\ is_u32 (ExtentHwm.ei_part p.2) /\ is_u16 (ExtentHwm.ei_seg p.2) /\ is_u16 (ExtentHwm.ei_dbRoot p.2) /\
  is_u32 (ExtentHwm.ei_hwm p.2).

Definition request_ok (r : Request) : Prop :=
  match r with
  | CreateStripe cols root part => count64 cols /\ Forall column_ok cols /\ is_u16 root /\ is_u32 part
  | CreateColumn oid w root part seg ty | CreateExact oid w root part seg ty =>
      is_i32 oid /\ is_u32 w /\ is_u16 root /\ is_u32 part /\ is_u16 seg
  | CreateDict oid root part seg => is_i32 oid /\ is_u16 root /\ is_u32 part /\ is_u16 seg
  | RollbackColumn oid all root part seg hwm => is_i32 oid /\ is_u16 root /\ is_u32 part /\ is_u16 seg /\ is_u32 hwm
  | RollbackDict oid root part segs hwms =>
      is_i32 oid /\ is_u16 root /\ is_u32 part /\ count64 segs /\ Forall is_u16 segs /\ count64 hwms /\ Forall is_u32 hwms
  | DeleteEmptyCol l | DeleteEmptyDict l => count32 l /\ Forall info_ok l
  | DeleteOID oid => is_i32 oid
  | DeleteOIDs oids | MarkAllPartition oids => oids_ok oids
  | SetLocalHWM oid part seg hwm => is_i32 oid /\ is_u32 part /\ is_u16 seg /\ is_u32 hwm
  | BulkSetHWM v txn => hwms_ok v /\ is_i32 txn
  | BulkSetHWMAndCP v sets merges txn =>
      hwms_ok v /\ is_i32 txn /\
      (count64 sets /\ Forall (fun a => cp_ok a /\ length (Dbrm.cpPad1 cpads a) = 4%nat /\ length (Dbrm.cpPad2 cpads a) = 15%nat) sets) /\
      (count64 merges /\ Forall (fun a => merge_ok a /\ length (Dbrm.mergePad cpads a) = 11%nat) merges)
  | BulkUpdateDBRoot args =>
      count64 args /\ Forall (fun a => dbrootarg_ok a /\ length (Dbrm.dbrootPad cpads a) = 6%nat) args
  | MarkInvalid lbid ty => is_i64 lbid
  | MarkManyInvalid l => count32 l /\ Forall (fun p => is_i64 p.1) l
  | SetMaxMin lbid max min seq => is_i64 lbid /\ is_i64 max /\ is_i64 min /\ is_i32 seq
  | SetManyMaxMin l => count31 l /\ Forall cp_ok l
  | MergeMaxMin l => count31 l /\ Forall merge_ok l
  | DeletePartition oids parts | MarkPartition oids parts | RestorePartition oids parts => oids_ok oids /\ parts_ok parts
  | DeleteDBRoot root => is_u16 root
  | WriteVBEntry txn lbid oid fbo => is_i32 txn /\ is_i64 lbid /\ is_i32 oid /\ is_u32 fbo
  | BulkWriteVBEntry txn lbids oid fbos =>
      is_i32 txn /\ is_i32 oid /\ count64 lbids /\ Forall is_i64 lbids /\ count64 fbos /\ Forall is_u32 fbos
  | BeginVBCopy txn root ranges => is_i32 txn /\ is_u16 root /\ ranges_ok ranges
  | EndVBCopy txn ranges | VbRollbackRanges txn ranges | LockRanges ranges txn => is_i32 txn /\ ranges_ok ranges
  | VbRollbackLbids txn lbids => is_i32 txn /\ count64 lbids /\ Forall is_i64 lbids
  | VbCommit txn => is_i32 txn
  | ReleaseRanges ranges => ranges_ok ranges
  end.

(** What a request means on the tables of a worker: the error code and the results.
    The partition of a stripe is cut to 16 bits, and a request to merge does not have
    the column width. *)
Section meaning.
Context {IO : ExtentMap.IterOrder}.
Context (others : SlaveNode.node -> SlaveNode.node) (emsg : stream -> Worker.worker -> list Z)
  (set0 : ExtentCP.CPMaxMin) (merge0 : ExtentCP.CPMaxMinMerge) (procStat : Z -> Z -> option (list Z)) (pads : Worker.Pads).

Definition merged (p : Z * ExtentCP.CPMaxMinMerge) : Z * ExtentCP.CPMaxMinMerge :=
  (p.1, ExtentCP.mkCPMaxMinMerge (ExtentCP.mg_max p.2) (ExtentCP.mg_min p.2) (ExtentCP.mg_seqNum p.2) (ExtentCP.mg_type p.2)
          (ExtentCP.mg_colWidth merge0) (ExtentCP.mg_newExtent p.2) (ExtentCP.mg_bigMax merge0) (ExtentCP.mg_bigMin merge0)).
Definition unflagged (p : Z * ExtentHwm.ExtentInfo) : Z * ExtentHwm.ExtentInfo :=
  (p.1, ExtentHwm.mkExtentInfo (ExtentHwm.ei_part p.2) (ExtentHwm.ei_seg p.2) (ExtentHwm.ei_dbRoot p.2) (ExtentHwm.ei_hwm p.2) false).

Definition meaning (r : Request) (first flush : bool) : M Worker.worker (Z * stream) :=
  match r with
  | CreateStripe cols root part => results put_stripe (Worker.createStripeColumnExtents cols root (u16 part))
  | CreateColumn oid w root part _ ty => results put_column (Worker.createColumnExtent_DBroot oid w root ty part)
  | CreateExact oid w root part seg ty =>
      results (put_exact part seg) (Worker.createColumnExtentExactFile oid w root part seg ty)
  | CreateDict oid root part seg => results put_dict (Worker.createDictStoreExtent oid root part seg)
  | RollbackColumn oid all root part seg hwm => code (Worker.rollbackColumnExtents_DBroot oid all root part seg hwm)
  | RollbackDict oid root part segs hwms => code (Worker.rollbackDictStoreExtents_DBroot oid root part segs hwms)
  | DeleteEmptyCol l => code (Worker.deleteEmptyColExtents (as_umap (unflagged <$> l)))
  | DeleteEmptyDict l => code (Worker.deleteEmptyDictStoreExtents (as_umap l))
  | DeleteOID oid => code (Worker.deleteOID oid)
  | DeleteOIDs oids => code (Worker.deleteOIDs (oids_in_order oids))
  | SetLocalHWM oid part seg hwm => code (Worker.setLocalHWM oid part seg hwm first)
  | BulkSetHWM v txn => code (Worker.bulkSetHWM v txn first)
  | BulkSetHWMAndCP v sets merges txn => code (Worker.bulkSetHWMAndCP set0 merge0 v sets merges txn first)
  | BulkUpdateDBRoot args => code (Worker.bulkUpdateDBRoot args)
  | MarkInvalid lbid ty => code (Worker.markExtentInvalid lbid ty)
  | MarkManyInvalid l => code (Worker.markExtentsInvalid (fst <$> l) (snd <$> l))
  | SetMaxMin lbid max min seq => code (Worker.setExtentMaxMin lbid max min seq first)
  | SetManyMaxMin l =>
      code (Worker.setExtentsMaxMin (ExtentMap.umap_to_list (Worker.fill_map Worker.set_entry set0 l)) first)
  | MergeMaxMin l => code (Worker.mergeExtentsMaxMin (as_umap (merged <$> l)))
  | DeletePartition oids parts => with_text emsg (tail (encode r)) (Worker.deletePartition (to_set Z.ltb oids) parts)
  | MarkPartition oids parts => with_text emsg (tail (encode r)) (Worker.markPartitionForDeletion (to_set Z.ltb oids) parts)
  | RestorePartition oids parts => with_text emsg (tail (encode r)) (Worker.restorePartition (to_set Z.ltb oids) parts)
  | MarkAllPartition oids => code (Worker.markAllPartitionForDeletion (to_set Z.ltb oids))
  | DeleteDBRoot root => code (Worker.deleteDBRoot root)
  | WriteVBEntry txn lbid oid fbo => code (inNode (SlaveNode.writeVBEntry txn lbid oid fbo))
  | BulkWriteVBEntry txn lbids oid fbos => code (inNode (SlaveNode.bulkWriteVBEntry txn lbids oid fbos))
  | BeginVBCopy txn vbOID ranges => begin_copy others txn vbOID ranges flush
  | EndVBCopy txn ranges => code (inNode (SlaveNode.endVBCopy txn ranges))
  | VbRollbackRanges txn ranges => code (inNode (SlaveNode.vbRollback_ranges txn ranges flush))
  | VbRollbackLbids txn lbids => code (inNode (SlaveNode.vbRollback_lbids txn lbids flush))
  | VbCommit txn => code (inNode (SlaveNode.vbCommit txn))
  | LockRanges ranges txn => code (inNode (SlaveNode.dmlLockLBIDRanges others ranges txn))
  | ReleaseRanges ranges => code (inNode (SlaveNode.dmlReleaseLBIDRanges ranges))
  end.

(** The system catalogue needs a snapshot. *)
Definition wants_snapshot (r : Request) : bool :=
  match r with
  | CreateStripe cols _ _ => small_oid cols
  | CreateColumn oid _ _ _ _ _ | CreateExact oid _ _ _ _ _ => oid <? 3000
  | _ => false
  end.

(** The two commands that are executed even when the journal is only printed. *)
Definition never_prints (r : Request) : bool :=
  match r with BulkSetHWMAndCP _ _ _ _ | BulkUpdateDBRoot _ => true | _ => false end.

Definition perform (r : Request) : M comm unit :=
  first ← gets firstSlave;
  flush ← gets (fun c => firstSlave c && negb (standalone c));
  (if never_prints r then execute else answer) (wants_snapshot r) (meaning r first flush).

(** ** The bytes are understood *)
Lemma parse_reads {A} (g : M stream A) bs (a : A) rest c :
  reads g bs a -> parse g (bs ++ rest) c = (Val (a, rest), c).
Proof. intros H. unfold parse. by rewrite H. Qed.

Lemma parse_all {A} (g : M stream A) bs (a : A) c : reads g bs a -> parse g bs c = (Val (a, []), c).
Proof. intros H. rewrite <- (app_nil_r bs) at 1. by apply parse_reads. Qed.

Lemma understood (r : Request) cmd body (h : stream -> M comm unit) c :
  encode r = put8 cmd ++ body -> 0 <= cmd < 2 ^ 8 -> cmd <> CONFIRM ->
  find (fun h => h.1 =? cmd) (handlers others emsg set0 merge0 procStat pads) = Some (cmd, h) ->
  (forall c', h body c' = perform r c') ->
  processCommand others emsg set0 merge0 procStat pads (encode r) c =
  perform r (if firstSlave c then set_delta (encode r) c else c).
Proof.
  intros He Hc Hne Hf Hh. unfold processCommand.
  assert (remember (encode r) c = (Val tt, if firstSlave c then set_delta (encode r) c else c)) as Hrem.
  { unfold remember, gets, lift, mbind, M_bind. destruct (firstSlave c); [|done].
    assert (peek 1 (encode r) = Val cmd) as ->.
    { rewrite He. unfold peek. simpl. f_equal. unfold u8. rewrite Z.mod_small by lia. lia. }
    by apply Z.eqb_neq in Hne as ->. }
  rewrite (bind_Val _ _ _ _ _ Hrem). rewrite He at 1.
  rewrite (bind_Val _ _ _ _ _ (parse_reads get8 _ cmd body _ (reads_get8 cmd Hc))). cbn beta iota.
  unfold dispatch. by rewrite Hf.
Qed.

Lemma perform_eq r c :
  perform r c = (if never_prints r then execute else answer) (wants_snapshot r)
                  (meaning r (firstSlave c) (firstSlave c && negb (standalone c))) c.
Proof. reflexivity. Qed.
End meaning.

(** *** Vectors *)
Lemma length_put_pos n v : (0 < length (le_bytes (S n) v))%nat.
Proof. simpl. lia. Qed.

Lemma reads_vec {A} (g : M stream A) put (P : A -> Prop) v :
  (forall x, P x -> reads g (put x) x) -> (forall x, (0 < length (put x))%nat) -> count64 v -> Forall P v ->
  reads (deserializeVector g) (serializeVector put v) v.
Proof. intros Hg Hp Hc Hv. apply reads_vector; [done| |by apply Forall_true]. eapply Forall_impl; [exact Hv|]. done. Qed.

Lemma reads_vec32_map {A B} (g : M stream B) put (f : A -> B) (P : A -> Prop) v :
  (forall x, P x -> reads g (put x) (f x)) -> (forall x, (0 < length (put x))%nat) -> count32 v -> Forall P v ->
  reads (get_vector32 g) (Dbrm.vector32 put v) (f <$> v).
Proof.
  intros Hg Hp Hc Hv. eapply reads_bind; [apply reads_u32; unfold is_u32, count32, zlen in *; lia|].
  apply reads_list_map; [|by apply Forall_true]. eapply Forall_impl; [exact Hv|]. done.
Qed.

Lemma reads_vec32 {A} (g : M stream A) put (P : A -> Prop) v :
  (forall x, P x -> reads g (put x) x) -> (forall x, (0 < length (put x))%nat) -> count32 v -> Forall P v ->
  reads (get_vector32 g) (Dbrm.vector32 put v) v.
Proof. intros. rewrite <- (list_fmap_id v) at 2. by eapply reads_vec32_map. Qed.

Lemma reads_vec31_map {A B} (g : M stream B) put (f : A -> B) (P : A -> Prop) v :
  (forall x, P x -> reads g (put x) (f x)) -> (forall x, (0 < length (put x))%nat) -> count31 v -> Forall P v ->
  reads (n ← get_i32; get_list g n) (Dbrm.vector32 put v) (f <$> v).
Proof.
  intros Hg Hp Hc Hv. eapply reads_bind; [apply reads_i32; unfold is_i32, count31, zlen in *; lia|].
  apply reads_list_map; [|by apply Forall_true]. eapply Forall_impl; [exact Hv|]. done.
Qed.

Lemma reads_inl {A} (decode : list Z -> A) layout size (P : A -> Prop) v :
  (forall x, P x -> decode (layout x) = x /\ length (layout x) = size) -> count64 v -> Forall P v ->
  reads (deserializeInlineVector decode size) (serializeInlineVector layout v) v.
Proof. intros Hd Hc Hv. apply reads_inline; [done|]. eapply Forall_impl; [exact Hv|]. done. Qed.

Lemma reads_oids oids : oids_ok oids -> reads (get_vector32 get_i32) (Dbrm.vector32 put32 oids) oids.
Proof. intros [? ?]. eapply reads_vec32; [by apply reads_i32|intros; apply length_put_pos|done|done]. Qed.

Lemma reads_ranges ranges : ranges_ok ranges -> reads (deserializeVector get_LBIDRange) (serializeVector put_LBIDRange ranges) ranges.
Proof. intros [? ?]. eapply reads_vec; [by apply reads_LBIDRange|intros; unfold put_LBIDRange; rewrite length_app; unfold put64; rewrite length_le_bytes; lia|done|done]. Qed.

Lemma reads_parts parts : parts_ok parts -> reads (deserializeSet ExtentPart.lp_lt get_partition) (serializeVector put_partition parts) parts.
Proof.
  intros (Hc & Hp & Hs). eapply reads_end; [|rewrite (to_set_id _ _ Hs); apply reads_ret].
  eapply reads_vec; [by apply reads_partition|intros; simpl; lia|done|done].
Qed.

Lemma reads_hwms v : hwms_ok v ->
  reads (deserializeInlineVector decode_BulkSetHWMArg 16) (serializeInlineVector (layout_BulkSetHWMArg (Dbrm.hwmPad cpads)) v) v.
Proof. intros [? ?]. eapply reads_inl; [|done|done]. intros x [? ?]. by apply BulkSetHWMArg_layout. Qed.

Lemma reads_lbids v : count64 v -> Forall is_i64 v -> reads (deserializeInlineVector decode_LBID 8) (serializeInlineVector (le_bytes 8) v) v.
Proof. intros. eapply reads_inl; [by apply LBID_layout|done|done]. Qed.

Lemma reads_fbos v : count64 v -> Forall is_u32 v -> reads (deserializeInlineVector decode_u32 4) (serializeInlineVector (le_bytes 4) v) v.
Proof. intros. eapply reads_inl; [by apply u32_layout|done|done]. Qed.

Lemma reads_u16s v : count64 v -> Forall is_u16 v -> reads (deserializeVector get16) (serializeVector put16 v) v.
Proof. intros. eapply reads_vec; [by apply reads_u16|intros; apply length_put_pos|done|done]. Qed.

Lemma reads_u32s v : count64 v -> Forall is_u32 v -> reads (deserializeVector get32) (serializeVector put32 v) v.
Proof. intros. eapply reads_vec; [by apply reads_u32|intros; apply length_put_pos|done|done]. Qed.
End requests.

#[export] Hint Resolve reads_oids reads_ranges reads_parts reads_hwms reads_lbids reads_fbos reads_u16s reads_u32s : reads.

(** Read a message field by field. *)
Ltac read_fields := repeat (cbn beta iota; match goal with
  | |- reads (mret _) [] _ => apply reads_ret
  | |- reads (_ ≫= _) (_ ++ _) _ => eapply reads_bind; [solve [eauto with reads]|]
  | |- reads (_ ≫= _) _ _ => eapply reads_end; [solve [eauto with reads]|]
  end).
End CommThms.
