(* ===== verification/CommSteps.v ===== *)
(** * What a worker does with the messages of one command

    A worker that waits for a command, one that has answered it and waits for the
    decision of the controller, and the messages that lead from one to the other;
    the journal of the first worker, and its replay. *)

From S2P Require Import Prelude Hasher Bytes ByteStream Vss SlaveNode Persist ExtentMap ExtentCP ExtentHwm ExtentPart Worker Messages SlaveComm Dbrm CommThms.
From stdpp Require Import prelude gmap strings sorting.
Local Open Scope Z_scope.

(** ** Every request is understood

    The worker's dispatcher, applied to the bytes that the client library sends for a
    request, performs that request; one case per message. *)

Module CommReads.
Import Messages SlaveComm CommThms.

Section claims.
Context {IO : ExtentMap.IterOrder}.
Context (others : SlaveNode.node -> SlaveNode.node) (emsg : stream -> Worker.worker -> list Z)
  (set0 : ExtentCP.CPMaxMin) (merge0 : ExtentCP.CPMaxMinMerge) (procStat : Z -> Z -> option (list Z)) (pads : Worker.Pads)
  (cpads : Dbrm.Pads).

Abbreviation handle h := (h others emsg set0 merge0 procStat pads).

(** ** One lemma per group of messages *)
Lemma parsed {A} (g : M stream A) (k : A * stream -> M comm unit) body a c r :
  reads g body a ->
  k (a, []) c = perform cpads others emsg set0 merge0 r c -> (parse g body ≫= k) c = perform cpads others emsg set0 merge0 r c.
Proof. intros Hr Hk. by rewrite (bind_Val _ _ _ _ _ (parse_all g body a c Hr)). Qed.

(** The same, when the client sends more than the worker reads. *)
Lemma parsed_rest {A} (g : M stream A) (k : A * stream -> M comm unit) bs rest a c r :
  reads g bs a ->
  k (a, rest) c = perform cpads others emsg set0 merge0 r c ->
  (parse g (bs ++ rest) ≫= k) c = perform cpads others emsg set0 merge0 r c.
Proof. intros Hr Hk. by rewrite (bind_Val _ _ _ _ _ (parse_reads g bs a rest c Hr)). Qed.

Lemma type_sent_wide ty : put32 (u8 (type_code ty)) = put8 (type_code ty) ++ [0; 0; 0].
Proof. by destruct ty. Qed.
Lemma put64_low v : put64 v = put32 v ++ le_bytes 4 (Z.shiftr (Z.shiftr (Z.shiftr (Z.shiftr v 8) 8) 8) 8).
Proof. reflexivity. Qed.
Lemma put32_low v : put32 v = put16 v ++ le_bytes 2 (Z.shiftr (Z.shiftr v 8) 8).
Proof. reflexivity. Qed.

Lemma reads_low16 v : reads get16 (put16 v) (u16 v).
Proof. apply (reads_get_mod 2). Qed.

(** What is left of an entry once it was sent. *)
Definition sent_cp (p : Z * ExtentCP.CPMaxMin) : Z * ExtentCP.CPMaxMin :=
  (p.1, let c := p.2 in
        if ExtentCP.cp_isBinaryColumn c
        then ExtentCP.mkCPMaxMin 0 0 (ExtentCP.cp_seqNum c) (ExtentCP.cp_bigMax c) (ExtentCP.cp_bigMin c) true
        else ExtentCP.mkCPMaxMin (ExtentCP.cp_max c) (ExtentCP.cp_min c) (ExtentCP.cp_seqNum c) 0 0 false).

Lemma fill_map_sent l : Worker.fill_map Worker.set_entry set0 (sent_cp <$> l) = Worker.fill_map Worker.set_entry set0 l.
Proof.
  unfold Worker.fill_map. f_equal. generalize (set0, (∅ : gmap Z ExtentCP.CPMaxMin)). induction l as [|[k c] l IH]; intros acc; [done|].
  simpl. rewrite IH. f_equal. unfold Worker.set_entry. simpl. destruct c as [? ? ? ? ? []]; done.
Qed.

Lemma reads_cp p : cp_ok p -> reads get_cp (Dbrm.put_cp p) (sent_cp p).
Proof.
  intros (? & ? & ? & ? & ? & ?). unfold get_cp, Dbrm.put_cp, sent_cp. destruct (ExtentCP.cp_isBinaryColumn p.2).
  - eapply (reads_bind _ _ (put_bool true)); [apply reads_bool|]. eapply reads_bind; [by apply reads_i64|]. cbn iota.
    eapply reads_bind; [by apply reads_i128|]. eapply reads_bind; [by apply reads_i128|].
    eapply reads_end; [by apply reads_i32|]. apply reads_ret.
  - eapply (reads_bind _ _ (put_bool false)); [apply reads_bool|]. eapply reads_bind; [by apply reads_i64|]. cbn iota.
    eapply reads_bind; [by apply reads_i64|]. eapply reads_bind; [by apply reads_i64|].
    eapply reads_end; [by apply reads_i32|]. apply reads_ret.
Qed.

Lemma reads_merge p : merge_ok p -> reads (get_merge merge0) (Dbrm.put_merge p) (merged merge0 p).
Proof.
  intros (? & ? & ? & ? & _). unfold get_merge, Dbrm.put_merge, merged.
  eapply reads_bind; [by apply reads_i64|]. eapply reads_bind; [by apply reads_i64|]. eapply reads_bind; [by apply reads_i64|].
  eapply reads_bind; [by apply reads_i32|]. eapply reads_bind; [apply reads_type32|].
  eapply reads_end; [apply reads_u32; destruct (ExtentCP.mg_newExtent p.2); done|].
  cbn beta. destruct (ExtentCP.mg_newExtent p.2); apply reads_ret.
Qed.

Lemma reads_info_flag p : info_ok p -> reads (get_info true) (Dbrm.put_info true p) p.
Proof.
  intros (? & ? & ? & ? & ?). unfold get_info, Dbrm.put_info.
  do 5 (eapply reads_bind; [eauto with reads|]; cbn beta). eapply reads_end; [apply reads_bool|].
  destruct p as [? []]. apply reads_ret.
Qed.

Lemma reads_info_plain p : info_ok p -> reads (get_info false) (Dbrm.put_info false p) (unflagged p).
Proof.
  intros (? & ? & ? & ? & ?). unfold get_info, Dbrm.put_info.
  do 5 (eapply reads_bind; [eauto with reads|]; cbn beta). eapply (reads_bind (mret false) _ []); apply reads_ret.
Qed.

(** One message: find the handler, and read the fields in order. *)
Tactic Notation "handler" reference(h) := eapply understood; [reflexivity|done|done|reflexivity|]; intros c'; unfold h.
Tactic Notation "fields_of" reference(g) := unfold g; read_fields.

(** The requests about extents, about their values and marks, and the others. *)
Definition about_extents (r : Request) : Prop :=
  match r with
  | CreateStripe _ _ _ | CreateColumn _ _ _ _ _ _ | CreateExact _ _ _ _ _ _ | CreateDict _ _ _ _ | RollbackColumn _ _ _ _ _ _
  | RollbackDict _ _ _ _ _ | DeleteEmptyCol _ | DeleteEmptyDict _ | DeleteOID _ | DeleteOIDs _ => True
  | _ => False
  end.
Definition about_values (r : Request) : Prop :=
  match r with
  | SetLocalHWM _ _ _ _ | BulkSetHWM _ _ | BulkSetHWMAndCP _ _ _ _ | BulkUpdateDBRoot _ | MarkInvalid _ _ | MarkManyInvalid _
  | SetMaxMin _ _ _ _ | SetManyMaxMin _ | MergeMaxMin _ => True
  | _ => False
  end.

Definition understands (r : Request) : Prop := forall c,
  handle processCommand (encode cpads r) c =
  perform cpads others emsg set0 merge0 r (if firstSlave c then set_delta (encode cpads r) c else c).

Lemma extents_understood r : about_extents r -> request_ok cpads r -> understands r.
Proof.
  destruct r; intros Hg Hok c; try done; simpl in Hok; destruct_and?.
  - handler do_createStripeColumnExtents. rewrite put32_low, !app_assoc. eapply parsed_rest.
    { rewrite <- !app_assoc. unfold get_stripe. eapply reads_bind; [by eapply reads_inl; [apply StripeIn_layout|..]|].
      eapply reads_bind; [by apply reads_u16|]. eapply reads_end; [apply reads_low16|]. apply reads_ret. }
    reflexivity.
  - handler do_createColumnExtent_DBroot. rewrite type_sent_wide, !app_assoc. eapply parsed_rest.
    { rewrite <- !app_assoc. by fields_of get_column. }
    reflexivity.
  - handler do_createColumnExtentExactFile. eapply parsed; [by fields_of get_column|reflexivity].
  - handler do_createDictStoreExtent. eapply parsed; [by fields_of get_dict|reflexivity].
  - handler do_rollbackColumnExtents_DBroot. eapply parsed; [by fields_of get_rollbackColumn|reflexivity].
  - handler do_rollbackDictStoreExtents_DBroot. eapply parsed; [by fields_of get_rollbackDict|reflexivity].
  - handler do_deleteEmptyColExtents. eapply parsed.
    { eapply reads_vec32_map; [by apply reads_info_plain|intros; simpl; lia|done|done]. }
    reflexivity.
  - handler do_deleteEmptyDictStoreExtents. eapply parsed.
    { eapply reads_vec32; [by apply reads_info_flag|intros; simpl; lia|done|done]. }
    reflexivity.
  - handler do_deleteOID. eapply parsed; [by apply reads_i32|reflexivity].
  - handler do_deleteOIDs. eapply parsed; [by apply reads_oids|reflexivity].
Qed.

Lemma values_understood r : about_values r -> request_ok cpads r -> understands r.
Proof.
  destruct r; intros Hg Hok c; try done; simpl in Hok; destruct_and?.
  - handler do_setLocalHWM. eapply parsed; [by fields_of get_localHWM|reflexivity].
  - handler do_bulkSetHWM. eapply parsed; [by fields_of get_bulkHWM|reflexivity].
  - handler do_bulkSetHWMAndCP. eapply parsed.
    { unfold get_bulkHWMAndCP. eapply reads_bind; [by apply reads_hwms|]. eapply reads_bind; [eapply reads_inl; [|done|done]; intros x (? & ? & ?); by apply CPInfo_layout|].
      eapply reads_bind; [eapply reads_inl; [|done|done]; intros x (? & ?); by apply CPInfoMerge_layout|]. by read_fields. }
    reflexivity.
  - handler do_bulkUpdateDBRoot. eapply parsed.
    { eapply reads_inl; [|done|done]. intros x (? & ?). by apply BulkUpdateDBRootArg_layout. }
    reflexivity.
  - handler do_markInvalid. eapply parsed; [by fields_of get_invalid|reflexivity].
  - handler do_markManyExtentsInvalid. eapply parsed.
    { eapply (reads_vec32 _ _ (fun p => is_i64 p.1)); [|intros; simpl; lia|done|done]. intros [? ?] ?. by fields_of get_invalid. }
    reflexivity.
  - handler do_setExtentMaxMin. rewrite (put64_low seqNum), !app_assoc. eapply parsed_rest.
    { rewrite <- !app_assoc. by fields_of get_maxMin. }
    reflexivity.
  - handler do_setExtentsMaxMin. eapply parsed.
    { eapply reads_vec31_map; [by apply reads_cp| |done|done]. intros x. unfold Dbrm.put_cp. destruct (ExtentCP.cp_isBinaryColumn _); simpl; lia. }
    cbn beta iota. rewrite fill_map_sent. reflexivity.
  - handler do_mergeExtentsMaxMin. eapply parsed.
    { eapply reads_vec31_map; [by apply reads_merge|intros; simpl; lia|done|done]. }
    reflexivity.
Qed.

Lemma others_understood r : ~ about_extents r -> ~ about_values r -> request_ok cpads r -> understands r.
Proof.
  destruct r; intros Hg1 Hg2 Hok c; try (by destruct (Hg1 I)); try (by destruct (Hg2 I)); simpl in Hok; destruct_and?.
  - handler do_deletePartition. eapply parsed; [by fields_of get_partitions|reflexivity].
  - handler do_markPartitionForDeletion. eapply parsed; [by fields_of get_partitions|reflexivity].
  - handler do_restorePartition. eapply parsed; [by fields_of get_partitions|reflexivity].
  - handler do_markAllPartitionForDeletion. eapply parsed; [by apply reads_oids|reflexivity].
  - handler do_deleteDBRoot. eapply parsed; [apply reads_u32; unfold is_u16, is_u32 in *; lia|]. cbn beta iota. unfold u16. rewrite mod_u16 by done. reflexivity.
  - handler do_writeVBEntry. eapply parsed; [by fields_of get_vbEntry|reflexivity].
  - handler do_bulkWriteVBEntry. eapply parsed; [by fields_of get_bulkVB|reflexivity].
  - handler do_beginVBCopy. eapply parsed; [by fields_of get_beginCopy|reflexivity].
  - handler do_endVBCopy. eapply parsed; [by fields_of get_ranges|reflexivity].
  - handler do_vbRollback1. eapply parsed; [by fields_of get_ranges|reflexivity].
  - handler do_vbRollback2. eapply parsed; [by fields_of get_lbids|reflexivity].
  - handler do_vbCommit. eapply parsed; [by apply reads_i32|reflexivity].
  - handler do_dmlLockLBIDRanges. eapply parsed; [by fields_of get_lock|reflexivity].
  - handler do_dmlReleaseLBIDRanges. eapply parsed; [by apply reads_ranges|reflexivity].
Qed.

Lemma request_understood r : request_ok cpads r -> understands r.
Proof.
  intros Hok. destruct r; first [by apply extents_understood|by apply values_understood|by apply others_understood; [intros []|intros []|]].
Qed.
End claims.
End CommReads.

Module CommSteps.
Import Messages SlaveComm CommThms CommReads.

Section steps.
Context {IO : ExtentMap.IterOrder}.
Context (others : SlaveNode.node -> SlaveNode.node) (emsg : stream -> Worker.worker -> list Z)
  (set0 : ExtentCP.CPMaxMin) (merge0 : ExtentCP.CPMaxMinMerge) (procStat : Z -> Z -> option (list Z)) (pads : Worker.Pads)
  (cpads : Dbrm.Pads).

Abbreviation handle h := (h others emsg set0 merge0 procStat pads).
Abbreviation means := (meaning cpads others emsg set0 merge0).

(** The first worker's journal is [J], takes writes of [B] bytes, and has room for [n]
    entries before the next snapshot. *)
Definition keeps_journal (B n : Z) (J : stream) (c : comm) : Prop :=
  firstSlave c = true ->
  0 <= journalCount c /\ journalCount c + n < 2 ^ 31 - 1 /\ (snapshotInterval c < 0 \/ journalCount c + n < snapshotInterval c) /\
  FileIO.bytes (journalh (disk c)) = J /\ forall k, B <= FileIO.answer (journalh (disk c)) k.

Record connected (c : comm) : Prop := {
  cn_open : isOpen (master c) = true;
  cn_up : forall k, up (master c) k = true;
  cn_alone : standalone c = false;
  cn_print : printOnly c = false;
  cn_snap : takeSnapshot c = false }.

(** A worker with tables [w] that waits for a command. *)
Record ready (B n : Z) (w : Worker.worker) (J : stream) (c : comm) : Prop := {
  rd_conn : connected c;
  rd_slave : slave c = w;
  rd_sent : sent (master c) = [];
  rd_journal : keeps_journal B n J c }.

(** A worker that executed [msg]; [replies] are not read yet. *)
Record pending (B n : Z) (w : Worker.worker) (J msg : stream) (replies : list stream) (c : comm) : Prop := {
  pd_conn : connected c;
  pd_slave : slave c = w;
  pd_sent : sent (master c) = replies;
  pd_delta : doSaveDelta c = true;
  pd_msg : firstSlave c = true -> delta c = msg;
  pd_journal : keeps_journal B n J c }.

Lemma execute_run m c err out w1 :
  connected c -> m (slave c) = (Val (err, out), w1) ->
  execute false m c =
  (Val tt, set_doSaveDelta true (set_master (mkLink true (up (master c)) (S (ops (master c))) (sent (master c) ++ [put8 err ++ out])) (set_slave w1 c))).
Proof.
  intros [Ho Hu Ha Hp _] Hm. unfold execute, inSlave, zoom, respond, write_master, gets, modify, mbind, M_bind, mret, M_ret.
  rewrite Hm. simpl. rewrite Ha. simpl. by rewrite Ho, Hu.
Qed.

Lemma answer_run b m c :
  printOnly c = false -> answer b m c = execute b m c.
Proof. intros Hp. unfold answer, unless_printing, gets, mbind, M_bind. by rewrite Hp. Qed.

Lemma processCommand_run r c err out w1 :
  connected c -> request_ok cpads r -> wants_snapshot r = false ->
  (forall first flush, means r first flush (slave c) = (Val (err, out), w1)) ->
  exists c1, handle processCommand (encode cpads r) c = (Val tt, c1) /\ connected c1 /\ slave c1 = w1 /\
    sent (master c1) = sent (master c) ++ [put8 err ++ out] /\ doSaveDelta c1 = true /\
    (firstSlave c = true -> delta c1 = encode cpads r) /\ firstSlave c1 = firstSlave c /\
    journalCount c1 = journalCount c /\ snapshotInterval c1 = snapshotInterval c /\ disk c1 = disk c.
Proof.
  intros Hc Hok Hs Hm. rewrite (request_understood _ _ _ _ _ _ _ _ Hok), perform_eq, Hs.
  set (c0 := if firstSlave c then _ else c). assert (connected c0 /\ slave c0 = slave c /\ master c0 = master c /\
    (firstSlave c = true -> delta c0 = encode cpads r) /\ firstSlave c0 = firstSlave c /\ journalCount c0 = journalCount c /\
    snapshotInterval c0 = snapshotInterval c /\ disk c0 = disk c) as (H0 & Hs0 & Hl0 & Hd0 & Hf0 & Hj0 & Hi0 & Hk0).
  { unfold c0. destruct (firstSlave c) eqn:Hf; simpl; [|done]. split; [by destruct Hc|]. by rewrite Hf. }
  rewrite <- Hs0 in Hm. assert (forall m, (if never_prints r then execute else answer) false m c0 = execute false m c0) as ->.
  { intros m. destruct (never_prints r); [done|]. apply answer_run, H0. }
  rewrite (execute_run _ _ _ _ _ H0 (Hm _ _)). eexists. split; [reflexivity|]. simpl. rewrite Hl0. split_and!; try done.
  destruct H0 as [_ Hu Ha Hp Hsn]. rewrite Hl0 in Hu. by split.
Qed.

Lemma receive_request B n r w J c err out w1 :
  ready B n w J c -> request_ok cpads r -> wants_snapshot r = false ->
  (forall first flush, means r first flush w = (Val (err, out), w1)) ->
  exists c1, handle receive (encode cpads r) c = (Val tt, c1) /\ pending B n w1 J (encode cpads r) [put8 err ++ out] c1.
Proof.
  intros [Hc Hw Hs Hj] Hok Hsn Hm. rewrite <- Hw in Hm.
  destruct (processCommand_run r c err out w1 Hc Hok Hsn Hm) as (c1 & Hrun & H1 & H2 & H3 & H4 & H5 & H6 & H7 & H8 & H9).
  exists c1. unfold receive. assert (zlen (encode cpads r) =? 0 = false) as ->.
  { apply Z.eqb_neq. destruct r; unfold zlen; simpl; lia. }
  unfold try_catch. rewrite Hrun. split; [done|]. rewrite Hs in H3. split; try done.
  - rewrite H6. done.
  - unfold keeps_journal in *. by rewrite H6, H7, H8, H9.
Qed.

Lemma receive_UNDO c w2 :
  printOnly c = false -> Worker.undoChanges (slave c) = (Val tt, w2) ->
  handle receive (put8 BRM_UNDO) c =
  (Val tt, set_doSaveDelta false (set_takeSnapshot false (set_slave w2 (if firstSlave c then set_delta (put8 BRM_UNDO) c else c)))).
Proof.
  intros Hp Hun. unfold receive. change (zlen (put8 BRM_UNDO) =? 0) with false. cbn iota.
  assert (remember (put8 BRM_UNDO) c = (Val tt, if firstSlave c then set_delta (put8 BRM_UNDO) c else c)) as Hrem.
  { unfold remember, gets, mbind, M_bind. by destruct (firstSlave c). }
  unfold try_catch, processCommand. rewrite (bind_Val _ _ _ _ _ Hrem). set (c0 := if firstSlave c then _ else c).
  assert (printOnly c0 = false /\ slave c0 = slave c) as [Hp0 Hw0] by (unfold c0; by destruct (firstSlave c)).
  change (parse get8 (put8 BRM_UNDO)) with (parse get8 (put8 BRM_UNDO ++ [])).
  rewrite (bind_Val _ _ _ _ _ (parse_reads get8 _ BRM_UNDO [] c0 (reads_get8 BRM_UNDO ltac:(done)))).
  change (handle dispatch BRM_UNDO []) with do_undo. unfold do_undo, unless_printing, inSlave, zoom, gets, modify, mbind, M_bind.
  by rewrite Hp0, Hw0, Hun.
Qed.

Lemma receive_undo B n w w2 J msg c :
  pending B n w J msg [] c -> Worker.undoChanges w = (Val tt, w2) ->
  exists c2, handle receive (put8 BRM_UNDO) c = (Val tt, c2) /\ ready B n w2 J c2 /\ doSaveDelta c2 = false.
Proof.
  intros [[] Hw He Hd Hm Hj] Hun. subst w. eexists. split; [by apply receive_UNDO|]. split; [|done].
  destruct (firstSlave c); (split; [by split|done|done|exact Hj]).
Qed.

(** An entry of the journal. *)
Definition entry (msg : stream) : stream := put32 (zlen msg) ++ msg.

Lemma journal_write_all B (buf : list Z) d :
  (forall k, B <= FileIO.answer d k) -> 0 <= zlen buf <= B ->
  FileIO.write buf d = (Val (zlen buf), FileIO.step (FileIO.bytes d ++ buf) d).
Proof.
  intros Hk Hb. specialize (Hk (FileIO.calls d)). unfold FileIO.write. destruct (Z.ltb_spec (FileIO.answer d (FileIO.calls d)) 0); [lia|].
  rewrite Z.min_r by lia. unfold zlen. rewrite Nat2Z.id. by rewrite firstn_all.
Qed.

Lemma saveDelta_run B n J msg c :
  firstSlave c = true -> delta c = msg -> keeps_journal B n J c -> 0 < n -> 4 <= B -> zlen msg <= B ->
  exists c1, saveDelta c = (Val tt, c1) /\ keeps_journal B (n - 1) (J ++ entry msg) c1 /\
    c1 = set_journalCount (journalCount c + 1) (set_disk (disk c1) c).
Proof.
  intros Hf Hd Hj Hn HB Hm. destruct (Hj Hf) as (Hc0 & Hc1 & Hi & Hb & Hans). unfold saveDelta, inJournal, zoom, gets, modify, mbind, M_bind.
  rewrite Hd. rewrite (journal_write_all B _ _ Hans) by (unfold put32, zlen; rewrite length_le_bytes; lia). cbn [disk set_disk journalh].
  rewrite (journal_write_all B) by (try done; unfold zlen in *; lia). cbn [disk set_disk journalh journalCount].
  destruct (Z.eqb_spec (journalCount c) (2 ^ 31 - 1)); [lia|]. eexists. split; [reflexivity|]. split; [|done].
  intros _. simpl. split_and!; [lia|lia|lia| |done]. unfold entry. by rewrite Hb, app_assoc.
Qed.

(** The end of [do_confirm] when no snapshot is due. *)
Lemma confirm_tail c w2 :
  printOnly c = false -> takeSnapshot c = false -> Worker.confirmChanges (slave c) = (Val tt, w2) ->
  (firstSlave c = true -> snapshotInterval c < 0 \/ journalCount c < snapshotInterval c) ->
  (inSlave Worker.confirmChanges ;;
   snap ← gets (fun c => firstSlave c && (takeSnapshot c || ((snapshotInterval c <=? journalCount c) && (0 <=? snapshotInterval c))));
   if (snap : bool) then snapshot pads else mret tt) c = (Val tt, set_slave w2 c).
Proof.
  intros Hp Hs Hw Hi. unfold inSlave, zoom, gets, mbind, M_bind. rewrite Hw. cbn [firstSlave takeSnapshot snapshotInterval journalCount set_slave].
  rewrite Hs. destruct (firstSlave c); [|done]. destruct (Hi eq_refl) as [Hlt|Hlt].
  - destruct (Z.leb_spec 0 (snapshotInterval c)); [lia|]. by rewrite andb_false_r.
  - destruct (Z.leb_spec (snapshotInterval c) (journalCount c)); [lia|]. done.
Qed.

Lemma receive_CONFIRM c c2 : do_confirm pads c = (Val tt, c2) -> handle receive (put8 CONFIRM) c = (Val tt, c2).
Proof.
  intros Hd. unfold receive. change (zlen (put8 CONFIRM) =? 0) with false. cbn iota. unfold try_catch, processCommand.
  assert (remember (put8 CONFIRM) c = (Val tt, c)) as Hrem.
  { unfold remember, gets, mbind, M_bind. by destruct (firstSlave c). }
  rewrite (bind_Val _ _ _ _ _ Hrem). change (parse get8 (put8 CONFIRM)) with (parse get8 (put8 CONFIRM ++ [])).
  rewrite (bind_Val _ _ _ _ _ (parse_reads get8 _ CONFIRM [] c (reads_get8 CONFIRM ltac:(done)))).
  change (handle dispatch CONFIRM []) with (do_confirm pads). by rewrite Hd.
Qed.

Lemma receive_confirm B n w w2 J msg c :
  pending B n w J msg [] c -> 0 < n -> 4 <= B -> zlen msg <= B -> Worker.confirmChanges w = (Val tt, w2) ->
  exists c2, handle receive (put8 CONFIRM) c = (Val tt, c2) /\ ready B (n - 1) w2 (J ++ entry msg) c2.
Proof.
  intros [Hc Hw He Hd Hm Hj] Hn HB Hlen Hcf. subst w. cut (exists c2, do_confirm pads c = (Val tt, c2) /\ ready B (n - 1) w2 (J ++ entry msg) c2).
  { intros (c2 & Hrun & H2). exists c2. split; [by apply receive_CONFIRM|done]. }
  unfold do_confirm, unless_printing. rewrite (bind_Val (gets _) _ c _ c eq_refl), (cn_print _ Hc).
  rewrite (bind_Val (gets _) _ c _ c eq_refl), Hd, andb_true_r. destruct (firstSlave c) eqn:Hf.
  - destruct (Hj Hf) as (Hc0 & Hc1 & Hi & Hb & Hans).
    assert ((journalCount c <? snapshotInterval c) || (snapshotInterval c <? 0) = true) as ->.
    { apply orb_true_iff. rewrite !Z.ltb_lt. lia. }
    cbn [andb]. destruct (saveDelta_run B n J msg (set_doSaveDelta false c)) as (c1 & Hrun & Hj1 & Heq); [done|by apply Hm|done|done|done|done|].
    rewrite (bind_Val (modify _ ;; saveDelta) _ c tt c1 Hrun). destruct (Hj1 ltac:(by rewrite Heq)) as (_ & _ & Hi1 & _).
    rewrite (confirm_tail c1 w2); [|by rewrite Heq; apply Hc|by rewrite Heq; apply Hc|by rewrite Heq|lia].
    eexists. split; [reflexivity|]. destruct Hc. rewrite Heq in *. by split.
  - cbn [andb]. rewrite (bind_Val (mret tt) _ c tt c eq_refl), (confirm_tail c w2); [|apply Hc|apply Hc|done|by rewrite Hf].
    eexists. split; [reflexivity|]. destruct Hc. split; try done. intros Hf'. simpl in Hf'. congruence.
Qed.

(** A confirmation after an undo. *)
Lemma receive_confirm_idle B n w w2 J c :
  ready B n w J c -> doSaveDelta c = false -> 0 <= n -> Worker.confirmChanges w = (Val tt, w2) ->
  exists c2, handle receive (put8 CONFIRM) c = (Val tt, c2) /\ ready B n w2 J c2.
Proof.
  intros [Hc Hw Hs Hj] Hd Hn Hcf. subst w. exists (set_slave w2 c). split.
  - apply receive_CONFIRM. unfold do_confirm, unless_printing. rewrite (bind_Val (gets _) _ c _ c eq_refl), (cn_print _ Hc).
    rewrite (bind_Val (gets _) _ c _ c eq_refl), Hd, andb_false_r, andb_false_l. cbn iota. rewrite (bind_Val (mret tt) _ c tt c eq_refl).
    apply confirm_tail; [apply Hc|apply Hc|done|]. intros Hf. destruct (Hj Hf) as (? & ? & ? & _). lia.
  - destruct Hc. by split.
Qed.

Lemma pop_pending B n w J msg reply c :
  pending B n w J msg [reply] c -> pending B n w J msg [] (set_master (mkLink (isOpen (master c)) (up (master c)) (ops (master c)) (tail (sent (master c)))) c).
Proof. intros [[] ? Hs ? ? ?]. split; try done. simpl. by rewrite Hs. Qed.
End steps.
End CommSteps.
