(* ===== verification/Controller.v ===== *)
(** * The controller node

    versioning/BRM/masterdbrmnode.cpp: the controller takes commands from clients,
    sends each to all workers, compares their replies and then makes them confirm or
    undo it.  A network failure makes the system read-only or puts it into the halting
    state, in which a command is repeated when the nodes were reconfigured.

    The workers are SlaveComm's, one after the other: a worker handles its messages in
    the order they are sent, and the controller sees it only through the replies it
    reads, so handling a message when it is sent is no restriction. *)

From S2P Require Import Prelude Hasher Bytes ByteStream Vss SlaveNode Persist ExtentMap ExtentCP Worker Messages SlaveComm SessionManager OidServer ResourceGraph.
From stdpp Require Import prelude gmap strings.
Local Open Scope Z_scope.

Module Controller.
Import Messages.

(** What happens at socket operation number [k] with a worker: whether it fails, and
    whether another thread sets [halting] meanwhile ([doHalt]).  [resumed] is whether
    the halting state ends within five minutes of a wait. *)
Record Env := mkEnv { broken : nat -> bool; halts : nat -> bool; resumed : nat -> bool }.

Record ctl := mkCtl {
  slaves : list SlaveComm.comm; sm : SessionManager.t; oids : OIDServer.t; rg : RG.graph;
  readOnly : bool; halting : bool; slaveLock : bool; iSlave : nat;
  responses : list stream; answers : list stream; env : Env; clock : nat }.

Definition set_slaves x c := mkCtl x (sm c) (oids c) (rg c) (readOnly c) (halting c) (slaveLock c) (iSlave c) (responses c) (answers c) (env c) (clock c).
Definition set_oids x c := mkCtl (slaves c) (sm c) x (rg c) (readOnly c) (halting c) (slaveLock c) (iSlave c) (responses c) (answers c) (env c) (clock c).
Definition set_rg x c := mkCtl (slaves c) (sm c) (oids c) x (readOnly c) (halting c) (slaveLock c) (iSlave c) (responses c) (answers c) (env c) (clock c).
Definition set_readOnly x c := mkCtl (slaves c) (sm c) (oids c) (rg c) x (halting c) (slaveLock c) (iSlave c) (responses c) (answers c) (env c) (clock c).
Definition set_halting x c := mkCtl (slaves c) (sm c) (oids c) (rg c) (readOnly c) x (slaveLock c) (iSlave c) (responses c) (answers c) (env c) (clock c).
Definition set_slaveLock x c := mkCtl (slaves c) (sm c) (oids c) (rg c) (readOnly c) (halting c) x (iSlave c) (responses c) (answers c) (env c) (clock c).
Definition set_iSlave x c := mkCtl (slaves c) (sm c) (oids c) (rg c) (readOnly c) (halting c) (slaveLock c) x (responses c) (answers c) (env c) (clock c).
Definition set_responses x c := mkCtl (slaves c) (sm c) (oids c) (rg c) (readOnly c) (halting c) (slaveLock c) (iSlave c) x (answers c) (env c) (clock c).
Definition set_answers x c := mkCtl (slaves c) (sm c) (oids c) (rg c) (readOnly c) (halting c) (slaveLock c) (iSlave c) (responses c) x (env c) (clock c).
Definition set_clock x c := mkCtl (slaves c) (sm c) (oids c) (rg c) (readOnly c) (halting c) (slaveLock c) (iSlave c) (responses c) (answers c) (env c) x.

Section controller.
Context {IO : ExtentMap.IterOrder}.
Context (others : SlaveNode.node -> SlaveNode.node) (emsg : stream -> Worker.worker -> list Z)
  (set0 : ExtentCP.CPMaxMin) (merge0 : ExtentCP.CPMaxMinMerge) (procStat : Z -> Z -> option (list Z)) (pads : Worker.Pads)
  (order : gset RG.node -> list RG.node).

(** ** Sockets *)
Definition tick : M ctl bool := fun c =>
  let k := clock c in
  (Val (broken (env c) k), set_clock (S k) (if halts (env c) k then set_halting true c else c)).

Definition network_error : exn := runtime_error "network error".

(** A write to worker [i]; a worker whose connection is closed does not get it. *)
Definition write_worker (i : nat) (msg : stream) : M ctl unit :=
  bad ← tick;
  w ← gets (fun c => slaves c !! i);
  match w with
  | Some w =>
      if bad || negb (SlaveComm.isOpen (SlaveComm.master w)) then throw network_error
      else
        let '(r, w') := SlaveComm.receive others emsg set0 merge0 procStat pads msg w in
        modify (fun c => set_slaves (<[i := w']> (slaves c)) c) ;;
        match r with Fault f => fail_with f | _ => mret tt end
  | None => fail_with OutOfBounds
  end.

Definition pop_sent (w : SlaveComm.comm) : SlaveComm.comm :=
  let l := SlaveComm.master w in
  SlaveComm.set_master (SlaveComm.mkLink (SlaveComm.isOpen l) (SlaveComm.up l) (SlaveComm.ops l) (tail (SlaveComm.sent l))) w.

(** The reads with their time-outs: the reply, nothing, or an exception. *)
Definition read_worker (i : nat) : M ctl stream :=
  bad ← tick;
  w ← gets (fun c => slaves c !! i);
  match w with
  | Some w =>
      if (bad : bool) then throw network_error
      else modify (fun c => set_slaves (<[i := pop_sent w]> (slaves c)) c) ;;
           mret (default [] (head (SlaveComm.sent (SlaveComm.master w))))
  | None => fail_with OutOfBounds
  end.

(** A write to the client, whose failure is ignored. *)
Definition to_client (msg : stream) : M ctl unit := modify (fun c => set_answers (answers c ++ [msg]) c).
Definition sendError (err : Z) : M ctl unit := to_client (put8 err).

Definition lock : M ctl unit :=
  held ← gets slaveLock; if (held : bool) then fail_with SelfDeadlock else modify (set_slaveLock true).
Definition unlock : M ctl unit := modify (set_slaveLock false).

(** ** Talking to all workers

    [n] workers are left. *)
Fixpoint distribute_from (n : nat) (msg : stream) : M ctl unit :=
  h ← gets halting;
  match n with
  | O => mret tt
  | S n' =>
      if (h : bool) then mret tt
      else
        i ← gets iSlave;
        try_catch (write_worker i msg) (fun e => h ← gets halting; if (h : bool) then mret tt else throw e) ;;
        modify (set_iSlave (S i)) ;;
        distribute_from n' msg
  end.

Definition distribute (msg : stream) : M ctl unit :=
  n ← gets (fun c => length (slaves c)); modify (set_iSlave 0) ;; distribute_from n msg.

(** [false]: a reply could not be read, and [halting] is set. *)
Fixpoint gather_from (n : nat) : M ctl bool :=
  h ← gets halting;
  match n with
  | O => mret true
  | S n' =>
      if (h : bool) then mret true
      else
        i ← gets iSlave;
        r ← try_catch (tmp ← read_worker i; mret (Some tmp)) (fun _ => mret None);
        h ← gets halting;
        match r with
        | None => modify (set_halting true) ;; mret false
        | Some tmp =>
            if (zlen tmp =? 0) && negb h then modify (set_halting true) ;; mret false
            else
              modify (fun c => set_responses (responses c ++ [tmp]) c) ;;
              modify (set_iSlave (S i)) ;;
              gather_from n'
        end
  end.

(** The returned code, which is always [ERR_OK], and [readErrFlag]. *)
Definition gatherResponses : M ctl (Z * bool) :=
  n ← gets (fun c => length (slaves c)); modify (set_iSlave 0) ;;
  ok ← gather_from n; mret (ERR_OK, negb ok).

Fixpoint all_same (l : list stream) : bool :=
  match l with
  | x :: (y :: _) as l' => bool_decide (x = y) && all_same l'
  | _ => true
  end.

Definition compareResponses : M ctl Z :=
  rs ← gets responses;
  match rs with
  | [] => fail_with OutOfBounds
  | first :: _ =>
      match peek 1 first with
      | Val errCode =>
          h ← gets halting;
          mret (if negb (all_same rs) && negb h then ERR_SLAVE_INCONSISTENCY else errCode)
      | _ => modify (set_readOnly true) ;; mret ERR_NETWORK
      end
  end.

(** To the workers up to and with the one that [iSlave] points to. *)
Fixpoint undo_from (n i : nat) : M ctl unit :=
  match n with
  | O => mret tt
  | S n' => try_catch (write_worker i (put8 BRM_UNDO)) (fun _ => mret tt) ;; undo_from n' (S i)
  end.

Definition undo : M ctl unit :=
  k ← gets iSlave; n ← gets (fun c => length (slaves c));
  undo_from (if (k =? n)%nat then n else S k) 0.

Definition confirm : M ctl unit := distribute (put8 CONFIRM).

(** ** The commands of clients *)

(** How one pass over the label [retrycmd] ends; a repeated command keeps what was
    changed in its message. *)
Inductive Next := Out | Retry (msg : stream).

(** [CHECK_ERROR1]; [None]: go on. *)
Definition CHECK_ERROR1 (msg : stream) (err : Z) : M ctl (option Next) :=
  h ← gets halting;
  if (h : bool) then modify (set_responses []) ;; undo ;; unlock ;; mret (Some (Retry msg))
  else if negb (err =? 0) then undo ;; unlock ;; sendError err ;; mret (Some Out)
  else mret None.

Definition i16 (z : Z) : Z := (z + 2 ^ 15) mod 2 ^ 16 - 2 ^ 15.

(** The dbroot in the message of [beginVBCopy] becomes the OID of its version buffer;
    [None]: an exception, after which the lock stays taken. *)
Definition translate (msg : stream) : M ctl (option stream) :=
  if (length msg <? 7)%nat then fail_with OutOfBounds
  else
    let dbRoot := le_val (take 2 (drop 5 msg)) in
    try_catch
      (vb ← gets (fun c => i16 (OIDServer.getVBOIDOfDBRoot dbRoot (oids c)));
       vb ← (if vb <? 0 then v ← zoom oids set_oids (OIDServer.allocVBOID dbRoot); mret (i16 v) else mret vb);
       mret (Some (take 5 msg ++ put16 vb ++ drop 7 msg)))
      (fun _ => mret None).

(** [rg->releaseResources] when a transaction ends. *)
Definition release_blocks (cmd : Z) (msg : stream) : M ctl unit :=
  if (cmd =? VB_ROLLBACK1) || (cmd =? VB_ROLLBACK2) || (cmd =? VB_COMMIT) then
    txn ← lift (fun _ => ((_ ← get8; get_i32) msg).1);
    zoom rg set_rg (RG.releaseResources order txn)
  else mret tt.

Definition is_partition (cmd : Z) : bool :=
  (cmd =? DELETE_PARTITION) || (cmd =? MARK_PARTITION_FOR_DELETION) || (cmd =? RESTORE_PARTITION).

(** The error codes of partition commands that leave nothing to undo. *)
Definition harmless (err : Z) : bool :=
  (err =? Worker.ERR_PARTITION_DISABLED) || (err =? Worker.ERR_PARTITION_ENABLED) || (err =? Worker.ERR_INVALID_OP_LAST_PARTITION)
  || (err =? Worker.ERR_NOT_EXIST_PARTITION) || (err =? Worker.ERR_NO_PARTITION_PERFORMED).

(** [for (retry = 0;; retry++)], [n] passes left: the code of the comparison, or how
    the command ended.  The replies of the passes accumulate. *)
Fixpoint exchange (n : nat) (msg : stream) : M ctl (Z + Next) :=
  sent ← try_catch (distribute msg ;; mret true) (fun _ => mret false);
  h ← gets halting;
  if negb sent && negb h then
    undo ;; modify (set_readOnly true) ;; unlock ;; sendError ERR_NETWORK ;; mret (inr Out)
  else
    '(err, _) ← gatherResponses;
    r ← CHECK_ERROR1 msg err;
    match r with
    | Some next => mret (inr next)
    | None =>
        err ← compareResponses;
        if negb (err =? ERR_SLAVE_INCONSISTENCY) then mret (inl err)
        else match n with
             | O => modify (set_readOnly true) ;; mret (inl err)
             | S n' => exchange n' msg
             end
    end.

(** [no_confirm:] *)
Definition reply_first : M ctl Next :=
  unlock ;;
  rs ← gets responses;
  match rs with
  | [] => fail_with OutOfBounds
  | r :: _ => to_client r ;; mret Out
  end.

(** After the comparison: errors, the confirmation, the reply. *)
Definition conclude (cmd err : Z) (msg : stream) : M ctl Next :=
  rs ← gets responses;
  r ← (if negb (zlen rs =? 0) && is_partition cmd && negb (err =? 0)
       then (if harmless err then mret tt else undo) ;; mret None
       else CHECK_ERROR1 msg err);
  match r with
  | Some next => mret next
  | None =>
      (if (cmd =? FLUSH_INODE_CACHES) || (cmd =? BRM_CLEAR) || (cmd =? TAKE_SNAPSHOT) then mret tt
       else try_catch confirm (fun _ => h ← gets halting; if (h : bool) then mret tt else modify (set_readOnly true))) ;;
      reply_first
  end.

(** The wait at [retrycmd] and the lock; [true]: five minutes went by. *)
Definition wait_halting : M ctl bool :=
  h ← gets halting;
  if (h : bool) then
    ok ← gets (fun c => resumed (env c) (clock c));
    if (ok : bool) then modify (set_halting false) ;; lock ;; mret false else lock ;; mret true
  else lock ;; mret false.

Definition round (cmd : Z) (msg : stream) : M ctl Next :=
  late ← wait_halting;
  (if (late : bool) then modify (set_readOnly true) ;; modify (set_halting false) else mret tt) ;;
  ro ← gets readOnly;
  if (ro : bool) then unlock ;; sendError ERR_READONLY ;; mret Out
  else
    msg' ← (if cmd =? BEGIN_VB_COPY then translate msg else mret (Some msg));
    match msg' with
    | None => sendError (-1) ;; mret Out
    | Some msg =>
        release_blocks cmd msg ;;
        txns ← gets (fun c => SessionManager.getTxnCount (sm c));
        if (cmd =? BRM_CLEAR) && negb (txns =? 0) then
          modify (fun c => set_responses (responses c ++ [put8 ERR_FAILURE]) c) ;; reply_first
        else
          r ← exchange 2 msg;
          match r with
          | inr next => mret next
          | inl err => conclude cmd err msg
          end
    end.

(** [retrycmd:] up to [out:]; [fuel] bounds the number of repetitions. *)
Fixpoint command (fuel : nat) (cmd : Z) (msg : stream) : M ctl unit :=
  match fuel with
  | O => fail_with OutOfFuel
  | S f =>
      next ← round cmd msg;
      match next with
      | Out => modify (set_responses [])
      | Retry msg' => command f cmd msg'
      end
  end.

(** ** The controller's own commands *)
Definition doHalt : M ctl unit := modify (set_halting true) ;; lock ;; to_client (put8 ERR_OK).
Definition doResume : M ctl unit := unlock ;; modify (set_halting false) ;; to_client (put8 ERR_OK).
Definition setReadOnly (b : bool) : M ctl unit := lock ;; modify (set_readOnly b) ;; unlock.
Definition doSetReadOnly (b : bool) : M ctl unit := setReadOnly b ;; to_client (put8 ERR_OK).
Definition doGetReadOnly : M ctl unit := ro ← gets readOnly; to_client (put8 (if (ro : bool) then 1 else 0)).

(** One message of a client, of those that the controller handles itself or sends to
    the workers. *)
Definition msgProcessor (fuel : nat) (msg : stream) : M ctl unit :=
  if zlen msg =? 0 then mret tt
  else
    cmd ← lift (fun _ => peek 1 msg);
    if cmd =? HALT then doHalt
    else if cmd =? RESUME then doResume
    else if cmd =? SETREADONLY then doSetReadOnly true
    else if cmd =? SETREADWRITE then doSetReadOnly false
    else if cmd =? GETREADONLY then doGetReadOnly
    else command fuel cmd msg.
End controller.
End Controller.
