(* ===== verification/Services.v ===== *)
(** * The controller's services

    versioning/BRM/masterdbrmnode.cpp, the messages that are not sent to the workers as
    commands: transactions (SessionManagerServer), object ids (OIDServer), table locks
    (TableLockServer), auto-increment sequences (AutoincrementManager), the reload of the
    connections, and the dispatch of all messages.

    Every handler reads its arguments, calls one operation of the component, and sends a
    reply; an exception makes the reply an error code.  A handler runs to its end before
    the next one, with two exceptions that are written out: a new transaction may wait
    for a free slot, and between the check of a lock's owner and its change other
    handlers may run. *)

From S2P Require Import Prelude Hasher Bytes ByteStream Vss SlaveNode Persist ExtentMap ExtentOps ExtentCP Worker Messages SlaveComm SessionManager AutoInc TableLock OidServer ResourceGraph Controller.
From stdpp Require Import prelude gmap strings sorting.
Local Open Scope Z_scope.

Module Services.
Import Messages.

(** ** Message codes *)
Definition VER_ID : Z := 45.
Definition NEW_TXN_ID : Z := 46.
Definition COMMITTED : Z := 47.
Definition ROLLED_BACK : Z := 48.
Definition GET_TXN_ID : Z := 49.
Definition SID_TID_MAP : Z := 50.
Definition SM_RESET : Z := 51.
Definition GET_UNIQUE_UINT32 : Z := 52.
Definition SYSCAT_VER_ID : Z := 53.
Definition GET_SYSTEM_STATE : Z := 54.
Definition SET_SYSTEM_STATE : Z := 55.
Definition GET_UNIQUE_UINT64 : Z := 56.
Definition CLEAR_SYSTEM_STATE : Z := 57.
Definition GET_UNCOMMITTED_LBIDS : Z := 58.
Definition ALLOC_OIDS : Z := 60.
Definition RETURN_OIDS : Z := 61.
Definition OIDM_SIZE : Z := 62.
Definition ALLOC_VBOID : Z := 63.
Definition GETDBROOTOFVBOID : Z := 64.
Definition GETVBOIDTODBROOTMAP : Z := 65.
Definition GET_TABLE_LOCK : Z := 70.
Definition RELEASE_TABLE_LOCK : Z := 71.
Definition CHANGE_TABLE_LOCK_STATE : Z := 72.
Definition CHANGE_TABLE_LOCK_OWNER : Z := 73.
Definition GET_ALL_TABLE_LOCKS : Z := 74.
Definition RELEASE_ALL_TABLE_LOCKS : Z := 75.
Definition GET_TABLE_LOCK_INFO : Z := 76.
Definition START_AI_SEQUENCE : Z := 80.
Definition GET_AI_RANGE : Z := 81.
Definition RESET_AI_SEQUENCE : Z := 82.
Definition GET_AI_LOCK : Z := 83.
Definition RELEASE_AI_LOCK : Z := 84.
Definition GET_SYSTEM_CATALOG : Z := 101.

(** ** Values in messages *)

(** [QueryContext]: the version and the open transactions. *)
Definition put_context (q : Z * list Z) : stream := put32 q.1 ++ serializeInlineVector (le_bytes 4) q.2.
Definition decode_i32 (b : stream) : Z := i32 (field 0 4 b).
Definition get_context : M stream (Z * list Z) :=
  scn ← get_i32; txns ← deserializeInlineVector decode_i32 4; mret (scn, txns).

Definition put_txn (t : SessionManager.TxnID) : stream := put32 (SessionManager.id t) ++ put_bool (SessionManager.valid t).
Definition get_txn : M stream SessionManager.TxnID := i ← get_i32; v ← get_bool; mret (SessionManager.mkTxn i v).

(** [TableLockInfo]; a string is its bytes. *)
Definition put_lockinfo (x : TableLock.TableLockInfo) : stream :=
  put64 (TableLock.id x) ++ put32 (TableLock.tableOID x) ++ put_string (TableLock.ownerName x) ++ put32 (TableLock.ownerPID x) ++
  put32 (TableLock.ownerSessionID x) ++ put32 (TableLock.ownerTxnID x) ++ put8 (TableLock.state_code (TableLock.state x)) ++
  put64 (TableLock.creationTime x) ++ serializeInlineVector (le_bytes 4) (TableLock.dbrootList x).
Definition get_lockinfo : M stream TableLock.TableLockInfo :=
  i ← get64; oid ← get32; name ← get_string; pid ← get32; ses ← get_i32; txn ← get_i32; st ← get8; time ← get_i64;
  roots ← deserializeInlineVector decode_u32 4;
  mret (TableLock.mkTLI i oid name pid ses txn (TableLock.state_of st) time roots).

(** ** The state *)
Record server := mkServer {
  ctl : Controller.ctl; locks : gmap Z TableLock.TableLockInfo; lockFile : option (list Z); lockOpen : bool;
  aiManager : AutoInc.t }.

Definition set_sm x c := Controller.mkCtl (Controller.slaves c) x (Controller.oids c) (Controller.rg c) (Controller.readOnly c) (Controller.halting c) (Controller.slaveLock c) (Controller.iSlave c) (Controller.responses c) (Controller.answers c) (Controller.env c) (Controller.clock c).
Definition set_ctl x s := mkServer x (locks s) (lockFile s) (lockOpen s) (aiManager s).
Definition set_ai x s := mkServer (ctl s) (locks s) (lockFile s) (lockOpen s) x.

Definition inCtl {A} (m : M Controller.ctl A) : M server A := zoom ctl set_ctl m.
Definition inSM {A} (m : M SessionManager.t A) : M server A := inCtl (zoom Controller.sm set_sm m).
Definition inOIDs {A} (m : M OIDServer.t A) : M server A := inCtl (zoom Controller.oids Controller.set_oids m).
Definition inAI {A} (m : M AutoInc.t A) : M server A := zoom aiManager set_ai m.

(** The table lock server takes its ids from the session manager of the controller. *)
Definition lock_view (s : server) : TableLock.t := TableLock.mk (locks s) (Controller.sm (ctl s)) (lockFile s) (lockOpen s).
Definition set_lock_view (t : TableLock.t) (s : server) : server :=
  mkServer (set_sm (TableLock.sms t) (ctl s)) (TableLock.locks t) (TableLock.file t) (TableLock.openOk t) (aiManager s).
Definition inLocks {A} (m : M TableLock.t A) : M server A := zoom lock_view set_lock_view m.

Definition reply (out : stream) : M server unit := inCtl (Controller.to_client out).

(** [try { msg >> cmd >> a; idbassert(msg.length() == 0); ... } catch { reply = ERR_FAILURE }];
    [exact] is whether the assertion is there. *)
Definition read_all {A} (exact : bool) (g : M stream A) (msg : stream) : M server A := fun s =>
  match (get8 ;; g) msg with
  | (Val a, rest) => if exact && negb (zlen rest =? 0) then (Exn idb_assert, s) else (Val a, s)
  | (Exn e, _) => (Exn e, s)
  | (Fault f, _) => (Fault f, s)
  end.

Definition serve {A} (exact : bool) (g : M stream A) (op : A -> M server stream) (msg : stream) : M server unit :=
  out ← try_catch (a ← read_all exact g msg; out ← op a; mret (put8 ERR_OK ++ out)) (fun _ => mret (put8 ERR_FAILURE));
  reply out.

Definition nothing : M stream unit := mret tt.
Definition done_ (m : M server unit) : M server stream := m ;; mret [].

(** ** Transactions *)
Definition doVerID (msg : stream) : M server unit :=
  q ← gets (fun s => SessionManager.verID (Controller.sm (ctl s))); reply (put8 ERR_OK ++ put_context q).
Definition doSysCatVerID (msg : stream) : M server unit :=
  q ← gets (fun s => SessionManager.sysCatVerID (Controller.sm (ctl s))); reply (put8 ERR_OK ++ put_context q).

Definition get_newTxn : M stream (Z * bool * bool) := ses ← get32; block ← get_bool; ddl ← get_bool; mret (ses, block, ddl).

(** The reply of a call that returned; one that waits has none yet, and its thread
    keeps the session and [isDDL]. *)
Definition txn_reply (ses : Z) (ddl : bool) (call : M SessionManager.t SessionManager.call) : M server (option (Z * bool)) :=
  r ← try_catch
        (c ← inSM call;
         mret (match c with
               | SessionManager.Done t => inl (put8 ERR_OK ++ put_txn t)
               | SessionManager.Wait => inr (ses, ddl)
               end))
        (fun _ => mret (inl (put8 ERR_FAILURE)));
  match r with
  | inl out => reply out ;; mret None
  | inr w => mret (Some w)
  end.

Definition doNewTxnID (msg : stream) : M server (option (Z * bool)) :=
  a ← try_catch (a ← read_all false get_newTxn msg; mret (Some a)) (fun _ => mret None);
  match a with
  | Some (ses, block, ddl) => txn_reply ses ddl (SessionManager.newTxnID ses block ddl)
  | None => reply (put8 ERR_FAILURE) ;; mret None
  end.

(** The thread of a waiting call, woken up. *)
Definition resumeNewTxnID (ses : Z) (ddl : bool) : M server (option (Z * bool)) :=
  txn_reply ses ddl (SessionManager.newTxnID_resume ses ddl).

Definition doCommitted := serve false get_txn (fun t => inSM (SessionManager.committed t) ;; mret []).
Definition doRolledBack := serve false get_txn (fun t => inSM (SessionManager.rolledback t) ;; mret []).
Definition doGetTxnID :=
  serve false get32 (fun ses => t ← gets (fun s => SessionManager.getTxnID ses (Controller.sm (ctl s))); mret (put_txn t)).

Definition put_entry (e : Z * SessionManager.TxnID) : stream := put_txn e.2 ++ put32 e.1.
Definition doSIDTIDMap :=
  serve false nothing (fun _ =>
    l ← gets (fun s => SessionManager.SIDTIDMap (Controller.sm (ctl s)));
    mret (put32 (zlen l) ++ (l ≫= put_entry))).

Definition doGetUniqueUint32 := serve false nothing (fun _ => v ← inSM SessionManager.getUnique32; mret (put32 v)).
Definition doGetUniqueUint64 := serve false nothing (fun _ => v ← inSM SessionManager.getUnique64; mret (put64 v)).
Definition doGetSystemState :=
  serve false nothing (fun _ => v ← gets (fun s => SessionManager.systemState (Controller.sm (ctl s))); mret (put32 v)).
Definition doSetSystemState := serve false get32 (fun ss => done_ (inSM (SessionManager.setSystemState ss))).
Definition doClearSystemState := serve false get32 (fun ss => done_ (inSM (SessionManager.clearSystemState ss))).
Definition doSessionManagerReset := serve false nothing (fun _ => done_ (inSM SessionManager.reset)).

(** ** Object ids *)
Definition doAllocOIDs := serve false get_i32 (fun num => r ← inOIDs (OIDServer.allocOIDs num); mret (put32 r)).

(** [OIDServer::returnOIDs] has an empty body. *)
Definition doReturnOIDs := serve false (a ← get_i32; b ← get_i32; mret (a, b)) (fun _ => mret []).
Definition doOidmSize :=
  serve false nothing (fun _ => n ← gets (fun s => OIDServer.size (Controller.oids (ctl s))); mret (put32 n)).
Definition doAllocVBOID := serve false get32 (fun root => r ← inOIDs (OIDServer.allocVBOID (u16 root)); mret (put32 r)).
Definition doGetDBRootOfVBOID :=
  serve false get32 (fun vb => r ← gets (fun s => OIDServer.getDBRootOfVBOID vb (Controller.oids (ctl s))); mret (put32 r)).
Definition doGetVBOIDToDBRootMap :=
  serve false nothing (fun _ =>
    l ← gets (fun s => OIDServer.vbOidDBRootMap (Controller.oids (ctl s)));
    mret (serializeInlineVector (le_bytes 2) l)).

(** ** Table locks *)
Definition doGetTableLock :=
  serve true get_lockinfo (fun tli =>
    '(i, tli) ← inLocks (TableLock.lock tli);
    mret (put64 i ++
          if i =? 0 then put32 (TableLock.ownerPID tli) ++ put_string (TableLock.ownerName tli) ++
                         put32 (TableLock.ownerSessionID tli) ++ put32 (TableLock.ownerTxnID tli)
          else [])).
Definition doReleaseTableLock := serve true get64 (fun i => b ← inLocks (TableLock.unlock i); mret (put_bool b)).
Definition doChangeTableLockState :=
  serve true (i ← get64; st ← get32; mret (i, st)) (fun a =>
    b ← inLocks (TableLock.changeState a.1 (TableLock.state_of a.2)); mret (put_bool b)).
Definition doGetAllTableLocks :=
  serve true nothing (fun _ => l ← gets (fun s => TableLock.getAllLocks (lock_view s)); mret (serializeVector put_lockinfo l)).
Definition doReleaseAllTableLocks := serve true nothing (fun _ => done_ (inLocks TableLock.releaseAllLocks)).
Definition doGetTableLockInfo :=
  serve true get64 (fun i =>
    r ← gets (fun s => TableLock.getLockInfo i (lock_view s));
    mret (match r with Some tli => put_bool true ++ put_lockinfo tli | None => put_bool false end)).

(** The owner's name up to the first blank. *)
Fixpoint processName (name : list Z) : list Z :=
  match name with
  | [] => []
  | c :: name' => if c =? 32 then [] else c :: processName name'
  end.

Definition owner_query (tli : TableLock.TableLockInfo) : stream :=
  put8 OWNER_CHECK ++ put_string (processName (TableLock.ownerName tli)) ++ put32 (TableLock.ownerPID tli).

(** The loop over the workers' replies: whether one says that the owner is alive. *)
Fixpoint any_alive (rs : list stream) : outcome bool :=
  match rs with
  | [] => Val false
  | r :: rs' =>
      if negb (zlen r =? 1) then Exn idb_assert
      else b ← any_alive rs'; Val ((le_val r =? 1) || b)
  end.

Section services.
Context {IO : ExtentMap.IterOrder}.
Context (others : SlaveNode.node -> SlaveNode.node) (emsg : stream -> Worker.worker -> list Z)
  (set0 : ExtentCP.CPMaxMin) (merge0 : ExtentCP.CPMaxMinMerge) (procStat : Z -> Z -> option (list Z)) (pads : Worker.Pads)
  (order : gset RG.node -> list RG.node).
(** What the other handlers do while a lock's owner is looked for, and between two polls
    of a sequence's lock; the uninitialised [nextVal] of a range that was refused; the
    worker that shares its memory with the controller; the reply of the system catalog;
    the workers of the new configuration with their connections. *)
Context (meanwhile : server -> server) (aiOthers : AutoInc.t -> AutoInc.t) (junk : Z) (here : nat) (catalog : server -> stream)
  (reconnect : list SlaveComm.comm -> option (list SlaveComm.comm)).

(** [distribute] and [gatherResponses] under the lock, with replies of its own; the
    second value is [readErrFlag]. *)
Definition ask_workers (query : stream) : M Controller.ctl (list stream * bool) :=
  saved ← gets Controller.responses;
  Controller.lock ;;
  modify (Controller.set_responses []) ;;
  r ← try_catch
        (Controller.distribute others emsg set0 merge0 procStat pads query ;;
         '(err, bad) ← Controller.gatherResponses; mret (inl (negb (err =? ERR_OK) || bad)))
        (fun e => mret (inr e));
  rs ← gets Controller.responses;
  modify (Controller.set_responses saved) ;;
  Controller.unlock ;;
  match r with
  | inl bad => mret (rs, bad)
  | inr e => throw e
  end.

(** What [doChangeTableLockOwner] and [doOwnerCheck] share: [None]: there is no such
    lock; [Some None]: the workers could not be asked; else whether the owner lives. *)
Definition find_owner (i : Z) : M server (option (option bool)) :=
  r ← gets (fun s => TableLock.getLockInfo i (lock_view s));
  match r with
  | None => mret None
  | Some tli =>
      '(rs, bad) ← inCtl (ask_workers (owner_query tli));
      if (bad : bool) then mret (Some None)
      else b ← lift (fun _ => any_alive rs); mret (Some (Some b))
  end.

(** Like [serve], with the whole reply from [op]. *)
Definition serve_raw {A} (g : M stream A) (op : A -> M server stream) (msg : stream) : M server unit :=
  out ← try_catch (a ← read_all true g msg; op a) (fun _ => mret (put8 ERR_FAILURE)); reply out.

Definition get_newOwner : M stream (Z * list Z * Z * Z * Z) :=
  i ← get64; name ← get_string; pid ← get32; ses ← get_i32; txn ← get_i32; mret (i, name, pid, ses, txn).

Definition doChangeTableLockOwner :=
  serve_raw get_newOwner (fun a =>
    let '(i, name, pid, ses, txn) := a in
    r ← find_owner i;
    match r with
    | None => mret (put8 ERR_OK ++ put_bool false)
    | Some None => mret (put8 ERR_FAILURE)
    | Some (Some true) => mret (put8 ERR_OK ++ put_bool false)
    | Some (Some false) =>
        modify meanwhile ;;
        b ← inLocks (TableLock.changeOwner i name pid ses txn);
        mret (put8 ERR_OK ++ put_bool b)
    end).

Definition doOwnerCheck :=
  serve_raw get64 (fun i =>
    r ← find_owner i;
    match r with
    | None => mret (put8 ERR_OK ++ put_bool false)
    | Some None => mret (put8 ERR_FAILURE)
    | Some (Some b) => mret (put8 ERR_OK ++ put_bool b)
    end).

(** ** Auto-increment sequences *)
Definition doStartAISequence :=
  serve true (oid ← get32; first ← get64; width ← get32; ty ← get_type8; mret (oid, first, width, ty)) (fun a =>
    let '(oid, first, width, ty) := a in
    done_ (inAI (AutoInc.startSequence oid first width (ExtentMap.isUnsigned ty)))).
Definition doGetAIRange :=
  serve true (oid ← get32; count ← get32; mret (oid, count)) (fun a =>
    r ← inAI (AutoInc.getAIRange a.1 a.2);
    mret (match r with Some v => put_bool true ++ put64 v | None => put_bool false ++ put64 junk end)).
Definition doResetAISequence :=
  serve true (oid ← get32; v ← get64; mret (oid, v)) (fun a => done_ (inAI (AutoInc.resetSequence a.1 a.2))).
Definition doGetAILock := serve true get32 (fun oid => done_ (inAI (AutoInc.getLock aiOthers oid))).
Definition doReleaseAILock := serve true get32 (fun oid => done_ (inAI (AutoInc.releaseLock oid))).
Definition doDeleteAISequence := serve true get32 (fun oid => done_ (inAI (AutoInc.deleteSequence oid))).

(** ** The extents a transaction has changed *)

(** The tables of the machine the controller runs on. *)
Definition inHere {A} (m : M Worker.worker A) : M server A := fun s =>
  match Controller.slaves (ctl s) !! here with
  | None => (Fault OutOfBounds, s)
  | Some w =>
      let '(r, t) := m (SlaveComm.slave w) in
      (r, set_ctl (Controller.set_slaves (<[here := SlaveComm.set_slave t w]> (Controller.slaves (ctl s))) (ctl s)) s)
  end.

(** The loop over the sorted LBIDs, behind the extent that ends at [last]: the first
    LBIDs of the extents met, or nothing when one is in no extent. *)
Fixpoint extents_of (last : option Z) (lbids : list Z) : M ExtentMap.t (option (list Z)) :=
  match lbids with
  | [] => mret (Some [])
  | l :: lbids' =>
      if (match last with Some e => l <=? e | None => false end) then extents_of last lbids'
      else
        r ← ExtentOps.lookup l;
        match r with
        | None => mret None
        | Some (a, b) => rest ← extents_of (Some b) lbids'; mret (cons a <$> rest)
        end
  end.

Definition uncommitted_extents (txn : Z) : M Worker.worker (option (list Z)) :=
  l ← gets (fun w => VSS.getUncommittedLBIDs txn (VSS.seg (SlaveNode.vss (Worker.nd w))));
  Worker.inEM (extents_of None (merge_sort Z.le l)).

(** A message that is too short ends the thread: it is read before the [try]. *)
Definition doGetUncommittedLbids (msg : stream) : M server unit :=
  txn ← read_all false get_i32 msg;
  out ← try_catch
          (r ← inHere (uncommitted_extents txn);
           mret (match r with Some l => put8 ERR_OK ++ serializeInlineVector (le_bytes 8) l | None => put8 ERR_FAILURE end))
          (fun _ => mret (put8 ERR_FAILURE));
  reply out.

(** ** Reload *)
Definition doReload : M Controller.ctl unit :=
  ws ← gets Controller.slaves;
  match reconnect ws with
  | None => Controller.to_client (put8 ERR_FAILURE)
  | Some ws' =>
      modify (Controller.set_slaves ws') ;;
      modify (Controller.set_iSlave (length ws')) ;;
      Controller.undo others emsg set0 merge0 procStat pads ;;
      modify (Controller.set_readOnly false) ;;
      Controller.to_client (put8 ERR_OK)
  end.

(** ** The dispatch *)
Definition handlers : list (Z * (stream -> M server unit)) :=
  [(RELOAD, fun _ => inCtl doReload);
   (GET_SYSTEM_CATALOG, fun _ => out ← gets catalog; reply (put8 ERR_OK ++ out));
   (VER_ID, doVerID); (SYSCAT_VER_ID, doSysCatVerID);
   (COMMITTED, doCommitted); (ROLLED_BACK, doRolledBack); (GET_TXN_ID, doGetTxnID); (SID_TID_MAP, doSIDTIDMap);
   (GET_UNIQUE_UINT32, doGetUniqueUint32); (GET_UNIQUE_UINT64, doGetUniqueUint64);
   (GET_SYSTEM_STATE, doGetSystemState); (SET_SYSTEM_STATE, doSetSystemState); (CLEAR_SYSTEM_STATE, doClearSystemState);
   (SM_RESET, doSessionManagerReset); (GET_UNCOMMITTED_LBIDS, doGetUncommittedLbids);
   (GET_TABLE_LOCK, doGetTableLock); (RELEASE_TABLE_LOCK, doReleaseTableLock);
   (CHANGE_TABLE_LOCK_STATE, doChangeTableLockState); (CHANGE_TABLE_LOCK_OWNER, doChangeTableLockOwner);
   (GET_ALL_TABLE_LOCKS, doGetAllTableLocks); (RELEASE_ALL_TABLE_LOCKS, doReleaseAllTableLocks);
   (GET_TABLE_LOCK_INFO, doGetTableLockInfo); (OWNER_CHECK, doOwnerCheck);
   (ALLOC_OIDS, doAllocOIDs); (RETURN_OIDS, doReturnOIDs); (OIDM_SIZE, doOidmSize); (ALLOC_VBOID, doAllocVBOID);
   (GETDBROOTOFVBOID, doGetDBRootOfVBOID); (GETVBOIDTODBROOTMAP, doGetVBOIDToDBRootMap);
   (START_AI_SEQUENCE, doStartAISequence); (GET_AI_RANGE, doGetAIRange); (RESET_AI_SEQUENCE, doResetAISequence);
   (GET_AI_LOCK, doGetAILock); (RELEASE_AI_LOCK, doReleaseAILock); (DELETE_AI_SEQUENCE, doDeleteAISequence)].

(** One message of a client; [Some]: the thread waits for a transaction slot. *)
Definition msgProcessor (fuel : nat) (msg : stream) : M server (option (Z * bool)) :=
  if zlen msg =? 0 then mret None
  else
    cmd ← lift (fun _ => peek 1 msg);
    if cmd =? NEW_TXN_ID then doNewTxnID msg
    else
      match find (fun h => h.1 =? cmd) handlers with
      | Some h => h.2 msg ;; mret None
      | None => inCtl (Controller.msgProcessor others emsg set0 merge0 procStat pads order fuel msg) ;; mret None
      end.
End services.
End Services.
