(* ===== verification/DbrmServices.v ===== *)
(** * The client library: services of the controller

    versioning/BRM/dbrm.cpp, the methods for transactions, the system state, object ids,
    table locks and auto-increment sequences.  What a method writes through a reference
    is part of its result. *)

From S2P Require Import Prelude Hasher Bytes ByteStream Messages SessionManager TableLock ExtentMap Controller Services Dbrm.
From stdpp Require Import prelude gmap strings sorting.
Local Open Scope Z_scope.

Module DbrmServices.
Import Messages Services Dbrm.

Section client.
Context {S : Type} (connect : M S unit) (exchange : stream -> M S stream).

Abbreviation send := (send_recv connect exchange).

(** A read of the whole reply: its value and what is left. *)
Definition reading {A} (g : M stream A) (response : stream) : M (@client S) A := lift (fun _ => (g response).1).

(** [idbassert(response.length() == 0)] after the values were read. *)
Definition all_read {A} (g : M stream A) : M stream A := a ← g; idbassert (fun rest => zlen rest =? 0) ;; mret a.

Definition no_context : Z * list Z := (-1, []).

(** *** Transactions *)
Definition context_call (code : Z) : M (@client S) (Z * list Z) :=
  '(err, response) ← send (put8 code);
  if negb (err =? ERR_OK) then mret no_context
  else try_catch (reading (get8 ;; get_context) response) (fun _ => mret no_context).
Definition verID := context_call VER_ID.
Definition sysCatVerID := context_call SYSCAT_VER_ID.

(** A [TxnID] that is not set is 0 and not valid. *)
Definition newTxnID (session : Z) (block isDDL : bool) : M (@client S) SessionManager.TxnID :=
  '(err, response) ← send (put8 NEW_TXN_ID ++ put32 session ++ put_bool block ++ put_bool isDDL);
  if negb (err =? ERR_OK) then mret SessionManager.no_txn
  else if negb (zlen response =? 6) then mret SessionManager.no_txn
  else reading (get8 ;; get_txn) response.

(** A failure is only logged; the reply is read also when there is none. *)
Definition committed (t : SessionManager.TxnID) : M (@client S) SessionManager.TxnID :=
  '(_, response) ← send (put8 COMMITTED ++ put_txn t);
  reading get8 response ;; mret (SessionManager.mkTxn (SessionManager.id t) false).

(** The flags, if there are any; [throw()]. *)
Definition getSystemState : M (@client S) (option Z) :=
  try_catch
    ('(err, response) ← send (put8 GET_SYSTEM_STATE);
     if negb (err =? ERR_OK) then mret None
     else err ← reading get8 response;
          if negb (err =? ERR_OK) then mret None
          else v ← reading (get8 ;; get32) response; mret (Some v))
    (fun _ => mret None).

Definition flag (mask : Z) : M (@client S) Z :=
  s ← getSystemState; mret (match s with Some s => Z.land s mask | None => -1 end).
Definition getSystemReady := flag SessionManager.SS_READY.
Definition getSystemQueryReady := flag SessionManager.SS_QUERY_READY.
Definition getSystemSuspended := flag SessionManager.SS_SUSPENDED.

Definition is_set (s mask : Z) : bool := negb (Z.land s mask =? 0).
Definition getSystemSuspendPending : M (@client S) (Z * option bool) :=
  s ← getSystemState;
  mret (match s with
        | Some s => (Z.land s SessionManager.SS_SUSPEND_PENDING, Some (is_set s SessionManager.SS_ROLLBACK))
        | None => (-1, None)
        end).
Definition getSystemShutdownPending : M (@client S) (Z * option (bool * bool)) :=
  s ← getSystemState;
  mret (match s with
        | Some s => (Z.land s SessionManager.SS_SHUTDOWN_PENDING,
                     Some (is_set s SessionManager.SS_ROLLBACK, is_set s SessionManager.SS_FORCE))
        | None => (-1, None)
        end).

Definition rolledback (t : SessionManager.TxnID) : M (@client S) SessionManager.TxnID :=
  '(_, response) ← send (put8 ROLLED_BACK ++ put_txn t);
  err ← reading get8 response;
  (if negb (err =? ERR_OK) then getSystemReady ;; mret tt else mret tt) ;;
  mret (SessionManager.mkTxn (SessionManager.id t) false).

Definition getTxnID (session : Z) : M (@client S) SessionManager.TxnID :=
  '(err, response) ← send (put8 GET_TXN_ID ++ put32 session);
  if negb (err =? ERR_OK) then mret SessionManager.no_txn
  else
    err ← reading get8 response;
    if negb (err =? ERR_OK) then mret SessionManager.no_txn else reading (get8 ;; get_txn) response.

Definition get_entry : M stream (Z * SessionManager.TxnID) := t ← get_txn; ses ← get32; mret (ses, t).
Definition SIDTIDMap : M (@client S) (option (list (Z * SessionManager.TxnID))) :=
  '(err, response) ← send (put8 SID_TID_MAP);
  if negb (err =? ERR_OK) then mret None
  else
    err ← reading get8 response;
    if negb (err =? ERR_OK) then mret None
    else l ← reading (get8 ;; n ← get32; get_list get_entry (i32 n)) response; mret (Some l).

(** The methods that throw on any failure. *)
Definition fail {A} (text : string) : M (@client S) A := throw (runtime_error text).
Definition or_throw {A} (network processing : string) (g : M stream A) (cmd : stream) : M (@client S) A :=
  '(err, response) ← send cmd;
  if negb (err =? ERR_OK) then fail network
  else
    err ← reading get8 response;
    if negb (err =? ERR_OK) then fail processing else reading (get8 ;; g) response.

Definition getUnique32 : M (@client S) Z :=
  or_throw "DBRM: getUnique32() failed check the controllernode" "DBRM: getUnique32() failed check the controllernode"
    get32 (put8 GET_UNIQUE_UINT32).
Definition getUnique64 : M (@client S) Z :=
  or_throw "DBRM: getUnique64() failed check the controllernode" "DBRM: getUnique64() failed check the controllernode"
    get64 (put8 GET_UNIQUE_UINT64).
Definition sessionmanager_reset : M (@client S) unit := send (put8 SM_RESET) ;; mret tt.

(** *** The system state: 1 or -1, never an exception *)
Definition state_call (code flags : Z) : M (@client S) Z :=
  try_catch
    ('(err, response) ← send (put8 code ++ put32 flags);
     if negb (err =? ERR_OK) then mret (-1)
     else err ← reading get8 response; mret (if err =? ERR_OK then 1 else -1))
    (fun _ => mret (-1)).
Definition setSystemState := state_call SET_SYSTEM_STATE.
Definition clearSystemState := state_call CLEAR_SYSTEM_STATE.

Definition setSystemReady (b : bool) : M (@client S) Z :=
  if b then setSystemState SessionManager.SS_READY else clearSystemState SessionManager.SS_READY.
Definition setSystemQueryReady (b : bool) : M (@client S) Z :=
  if b then setSystemState SessionManager.SS_QUERY_READY else clearSystemState SessionManager.SS_QUERY_READY.

Definition pending_flags : Z := Z.lor SessionManager.SS_SUSPEND_PENDING SessionManager.SS_ROLLBACK.
Definition setSystemSuspended (b : bool) : M (@client S) Z :=
  if b then
    r ← setSystemState SessionManager.SS_SUSPENDED;
    if r <? 0 then mret (-1) else clearSystemState pending_flags
  else clearSystemState (Z.lor SessionManager.SS_SUSPENDED pending_flags).
Definition setSystemSuspendPending (pending rollback : bool) : M (@client S) Z :=
  if pending then setSystemState (if rollback then pending_flags else SessionManager.SS_SUSPEND_PENDING)
  else clearSystemState pending_flags.
Definition setSystemShutdownPending (pending rollback force : bool) : M (@client S) Z :=
  if pending then
    setSystemState (if force then Z.lor SessionManager.SS_SHUTDOWN_PENDING SessionManager.SS_FORCE
                    else if rollback then Z.lor SessionManager.SS_SHUTDOWN_PENDING SessionManager.SS_ROLLBACK
                    else SessionManager.SS_SHUTDOWN_PENDING)
  else clearSystemState (Z.lor SessionManager.SS_SHUTDOWN_PENDING (Z.lor SessionManager.SS_ROLLBACK SessionManager.SS_FORCE)).

(** *** Object ids: -1 on any failure, or an exception *)
Definition oid_call (cmd : stream) : M (@client S) Z :=
  '(err, response) ← send cmd;
  if negb (err =? ERR_OK) then mret (-1)
  else try_catch (reading (err ← get8; if negb (err =? ERR_OK) then mret (-1) else get_i32) response) (fun _ => mret (-1)).
Definition allocOIDs (num : Z) := oid_call (put8 ALLOC_OIDS ++ put32 num).
Definition allocVBOID (dbroot : Z) := oid_call (put8 ALLOC_VBOID ++ put32 dbroot).
Definition getDBRootOfVBOID (vbOID : Z) := oid_call (put8 GETDBROOTOFVBOID ++ put32 vbOID).

Definition returnOIDs (start end_ : Z) : M (@client S) unit :=
  '(err, response) ← send (put8 RETURN_OIDS ++ put32 start ++ put32 end_);
  if err =? ERR_NETWORK then fail "DBRM: OIDManager::returnOIDs(): network error"
  else
    err ← try_catch (reading get8 response) (fun _ => mret ERR_FAILURE);
    if negb (err =? ERR_OK) then fail "DBRM: OIDManager::returnOIDs() failed" else mret tt.

Definition oidm_size : M (@client S) Z :=
  '(err, response) ← send (put8 OIDM_SIZE);
  if negb (err =? ERR_OK) then fail "DBRM: OIDManager::size(): network error"
  else try_catch (reading (err ← get8; if err =? ERR_OK then get_i32 else mret (-1)) response)
         (fun _ => fail "DBRM: OIDManager::size(): bad response").

Definition decode_u16 (b : stream) : Z := field 0 2 b.
Definition getVBOIDToDBRootMap : M (@client S) (list Z) :=
  '(err, response) ← send (put8 GETVBOIDTODBROOTMAP);
  if negb (err =? ERR_OK) then fail "DBRM: OIDManager::getVBOIDToDBRootMap(): network error"
  else try_catch
         (err ← reading get8 response;
          if negb (err =? ERR_OK) then fail "DBRM: OIDManager::getVBOIDToDBRootMap(): processing error"
          else reading (get8 ;; deserializeInlineVector decode_u16 2) response)
         (fun _ => fail "DBRM: OIDManager::getVBOIDToDBRootMap(): bad response").

(** *** Table locks *)
Definition lock_error : string := "Table lock save file failure".

(** [getTableLock] after the lock's dbroots were looked up: the id, and the owner of the
    lock in the way. *)
Definition get_lock_reply : M stream (Z * option (Z * list Z * Z * Z)) :=
  i ← get64;
  if i =? 0 then pid ← get32; name ← get_string; ses ← get_i32; txn ← get_i32; mret (i, Some (pid, name, ses, txn))
  else mret (i, None).
Definition getTableLock (tli : TableLock.TableLockInfo) : M (@client S) (Z * option (Z * list Z * Z * Z)) :=
  or_throw "DBRM: getTableLock(): network error" lock_error (all_read get_lock_reply) (put8 GET_TABLE_LOCK ++ put_lockinfo tli).
Definition releaseTableLock (i : Z) : M (@client S) bool :=
  or_throw "DBRM: releaseTableLock(): network error" lock_error (all_read get_bool) (put8 RELEASE_TABLE_LOCK ++ put64 i).
Definition changeState (i : Z) (st : TableLock.LockState) : M (@client S) bool :=
  or_throw "DBRM: changeState(): network error" lock_error (all_read get_bool)
    (put8 CHANGE_TABLE_LOCK_STATE ++ put64 i ++ put32 (TableLock.state_code st)).
Definition changeOwner (i : Z) (name : list Z) (pid ses txn : Z) : M (@client S) bool :=
  or_throw "DBRM: changeOwner(): network error" lock_error (all_read get_bool)
    (put8 CHANGE_TABLE_LOCK_OWNER ++ put64 i ++ put_string name ++ put32 pid ++ put32 ses ++ put32 txn).
Definition checkOwner (i : Z) : M (@client S) bool :=
  or_throw "DBRM: ownerCheck(): network error" lock_error (all_read get_bool) (put8 OWNER_CHECK ++ put64 i).
Definition getAllTableLocks : M (@client S) (list TableLock.TableLockInfo) :=
  or_throw "DBRM: getAllTableLocks(): network error" "DBRM: getAllTableLocks(): processing error"
    (all_read (deserializeVector get_lockinfo)) (put8 GET_ALL_TABLE_LOCKS).
Definition getTableLockInfo (i : Z) : M (@client S) (option TableLock.TableLockInfo) :=
  or_throw "DBRM: getTableLockInfo(): network error" "DBRM: getTableLockInfo() processing error"
    (b ← get_bool; if (b : bool) then tli ← get_lockinfo; mret (Some tli) else mret None) (put8 GET_TABLE_LOCK_INFO ++ put64 i).

(** The length is checked before the error code. *)
Definition code_only (network processing : string) (cmd : stream) : M (@client S) unit :=
  '(err, response) ← send cmd;
  if negb (err =? ERR_OK) then fail network
  else
    err ← reading (all_read get8) response;
    if negb (err =? ERR_OK) then fail processing else mret tt.
Definition releaseAllTableLocks : M (@client S) unit :=
  code_only "DBRM: releaseAllTableLocks(): network error" "DBRM: releaseAllTableLocks(): processing error"
    (put8 RELEASE_ALL_TABLE_LOCKS).

(** *** Auto-increment sequences *)
Definition startAISequence (oid firstNum colWidth : Z) (ty : ExtentMap.ColDataType) : M (@client S) unit :=
  code_only "DBRM: startAISequence(): network error" "DBRM: startAISequence(): processing error"
    (put8 START_AI_SEQUENCE ++ put32 oid ++ put64 firstNum ++ put32 colWidth ++ put8 (type_code ty)).
Definition getAIRange (oid count : Z) : M (@client S) (option Z) :=
  or_throw "DBRM: getAIRange(): network error" "DBRM: getAIRange(): processing error"
    (b ← get_bool; if (b : bool) then v ← all_read get64; mret (Some v) else mret None)
    (put8 GET_AI_RANGE ++ put32 oid ++ put32 count).
Definition getAIValue (oid : Z) := getAIRange oid 0.
Definition resetAISequence (oid v : Z) : M (@client S) unit :=
  code_only "DBRM: resetAISequence(): network error" "DBRM: resetAISequence(): processing error"
    (put8 RESET_AI_SEQUENCE ++ put32 oid ++ put64 v).
Definition getAILock (oid : Z) : M (@client S) unit :=
  code_only "DBRM: getAILock(): network error" "DBRM: getAILock(): processing error" (put8 GET_AI_LOCK ++ put32 oid).
Definition releaseAILock (oid : Z) : M (@client S) unit :=
  code_only "DBRM: releaseAILock(): network error" "DBRM: releaseAILock(): processing error" (put8 RELEASE_AI_LOCK ++ put32 oid).
End client.
End DbrmServices.
