(* ===== verification/ControllerThms.v ===== *)
(** * What the controller does with a command

    The loops over the workers, when the network works, and one command on a system
    whose workers have the same tables. *)

From S2P Require Import Prelude Hasher Bytes ByteStream Vss SlaveNode Persist ExtentMap ExtentCP Worker Messages SlaveComm Dbrm CommThms CommSteps SessionManager OidServer ResourceGraph Controller.
From stdpp Require Import prelude gmap strings.
Local Open Scope Z_scope.

Module ControllerThms.
Import Messages SlaveComm CommThms CommSteps Controller.

Lemma lookup_middle {A} (d : list A) x l : (d ++ x :: l) !! length d = Some x.
Proof. by apply list_lookup_middle. Qed.
Lemma insert_middle {A} (d : list A) x y l : <[length d := y]> (d ++ x :: l) = d ++ y :: l.
Proof. by rewrite insert_app_r_alt, Nat.sub_diag by lia. Qed.

Section controller.
Context {IO : ExtentMap.IterOrder}.
Context (others : SlaveNode.node -> SlaveNode.node) (emsg : stream -> Worker.worker -> list Z)
  (set0 : ExtentCP.CPMaxMin) (merge0 : ExtentCP.CPMaxMinMerge) (procStat : Z -> Z -> option (list Z)) (pads : Worker.Pads)
  (order : gset RG.node -> list RG.node) (cpads : Dbrm.Pads).

Abbreviation handle h := (h others emsg set0 merge0 procStat pads).
Abbreviation means := (meaning cpads others emsg set0 merge0).

(** No operation fails, and nobody halts the system. *)
Definition calm (e : Env) : Prop := (forall k, broken e k = false) /\ (forall k, halts e k = false).

(** The same of the [m] operations from number [k] on. *)
Definition quiet (e : Env) (k m : nat) : Prop := forall j, (k <= j < k + m)%nat -> broken e j = false /\ halts e j = false.

Lemma calm_quiet e k m : calm e -> quiet e k m.
Proof. intros [? ?] j _. done. Qed.
Lemma quiet_tail e k m : quiet e k (S m) -> quiet e (S k) m.
Proof. intros H j Hj. apply H. lia. Qed.
Lemma quiet_one e k m : quiet e k (S m) -> quiet e k 1.
Proof. intros H j Hj. apply H. lia. Qed.

(** ** The loops *)
Section loops.
Context (s : SessionManager.t) (o : OIDServer.t) (g : RG.graph) (ro lk : bool) (an : list stream) (e : Env).
Abbreviation st ws i rs k := (mkCtl ws s o g ro false lk i rs an e k).
(** The same, in a state that may be halting. *)
Abbreviation sth ha ws i rs k := (mkCtl ws s o g ro ha lk i rs an e k).

Lemma check_ok ws i rs k msg : handle CHECK_ERROR1 msg 0 (st ws i rs k) = (Val None, st ws i rs k).
Proof. reflexivity. Qed.

Lemma tick_quiet {ha} ws i rs k : quiet e k 1 -> tick (sth ha ws i rs k) = (Val false, sth ha ws i rs (S k)).
Proof. intros Hq. destruct (Hq k) as [Hb Hh]; [lia|]. unfold tick. simpl. by rewrite Hb, Hh. Qed.

Lemma write_worker_run {ha} d w w' l i rs k msg :
  quiet e k 1 -> isOpen (master w) = true -> handle receive msg w = (Val tt, w') ->
  handle write_worker (length d) msg (sth ha (d ++ w :: l) i rs k) = (Val tt, sth ha (d ++ w' :: l) i rs (S k)).
Proof.
  intros Hq Ho Hr. unfold write_worker. rewrite (bind_Val _ _ _ _ _ (tick_quiet _ _ _ _ Hq)).
  rewrite (bind_Val (gets _) _ _ _ _ eq_refl). cbn [slaves]. rewrite lookup_middle, Ho. cbn [negb orb]. rewrite Hr.
  unfold modify, mbind, M_bind, set_slaves. simpl. by rewrite insert_middle.
Qed.

Lemma distribute_from_run msg todo todo' : Forall2 (fun w w' => isOpen (master w) = true /\ handle receive msg w = (Val tt, w')) todo todo' ->
  forall d rs k, quiet e k (length todo) -> handle distribute_from (length todo) msg (st (d ++ todo) (length d) rs k) =
    (Val tt, st (d ++ todo') (length d + length todo) rs (k + length todo)).
Proof.
  induction 1 as [|w w' todo todo' [Ho Hr] _ IH]; intros d rs k Hq.
  { simpl. by rewrite !Nat.add_0_r. }
  cbn [distribute_from length]. rewrite (bind_Val (gets _) _ _ _ _ eq_refl). cbn [halting].
  rewrite (bind_Val (gets _) _ _ _ _ eq_refl). cbn [iSlave].
  assert (forall h, try_catch (handle write_worker (length d) msg) h (st (d ++ w :: todo) (length d) rs k) = (Val tt, st (d ++ w' :: todo) (length d) rs (S k))) as Ht.
  { intros h. unfold try_catch. by rewrite (write_worker_run d w w' todo (length d) rs k msg (quiet_one _ _ _ Hq) Ho Hr). }
  rewrite (bind_Val _ _ _ _ _ (Ht _)), (bind_Val (modify _) _ _ _ _ eq_refl). unfold set_iSlave. cbn.
  specialize (IH (d ++ [w']) rs (S k) (quiet_tail _ _ _ Hq)). rewrite length_app in IH. cbn [length] in IH. rewrite <- !app_assoc in IH. cbn [app] in IH.
  replace (length d + 1)%nat with (S (length d)) in IH by lia. rewrite IH. f_equal. f_equal; lia.
Qed.

Lemma distribute_run msg ws ws' i rs k :
  quiet e k (length ws) ->
  Forall2 (fun w w' => isOpen (master w) = true /\ handle receive msg w = (Val tt, w')) ws ws' ->
  handle distribute msg (st ws i rs k) = (Val tt, st ws' (length ws) rs (k + length ws)).
Proof.
  intros Hq H. unfold distribute. rewrite (bind_Val (gets _) _ _ _ _ eq_refl), (bind_Val (modify _) _ _ _ _ eq_refl). cbn [slaves].
  by apply (distribute_from_run msg ws ws' H []).
Qed.

Lemma undo_from_run {ha} todo todo' post : Forall2 (fun w w' => isOpen (master w) = true /\ handle receive (put8 BRM_UNDO) w = (Val tt, w')) todo todo' ->
  forall d i rs k, quiet e k (length todo) ->
  handle undo_from (length todo) (length d) (sth ha (d ++ todo ++ post) i rs k) = (Val tt, sth ha (d ++ todo' ++ post) i rs (k + length todo)).
Proof.
  induction 1 as [|w w' todo todo' [Ho Hr] _ IH]; intros d i rs k Hq.
  { simpl. by rewrite !Nat.add_0_r. }
  cbn [undo_from length app]. unfold try_catch at 1, mbind, M_bind. rewrite (write_worker_run d w w' (todo ++ post) i rs k _ (quiet_one _ _ _ Hq) Ho Hr).
  specialize (IH (d ++ [w']) i rs (S k) (quiet_tail _ _ _ Hq)). rewrite length_app in IH. cbn [length] in IH. rewrite <- !app_assoc in IH. cbn [app] in IH.
  replace (length d + 1)%nat with (S (length d)) in IH by lia. rewrite IH. f_equal. f_equal; lia.
Qed.

Lemma undo_all_run {ha} ws ws' rs k :
  quiet e k (length ws) ->
  Forall2 (fun w w' => isOpen (master w) = true /\ handle receive (put8 BRM_UNDO) w = (Val tt, w')) ws ws' ->
  handle undo (sth ha ws (length ws) rs k) = (Val tt, sth ha ws' (length ws) rs (k + length ws)).
Proof.
  intros Hq H. unfold undo. rewrite !(bind_Val (gets _) _ _ _ _ eq_refl). cbn [slaves iSlave]. rewrite Nat.eqb_refl.
  pose proof (undo_from_run (ha:=ha) ws ws' [] H [] (length ws) rs k Hq) as Hu. by rewrite !app_nil_r in Hu.
Qed.

(** A write that fails: the workers before it have the message. *)
Lemma distribute_from_fails msg pre pre' w post : Forall2 (fun w w' => isOpen (master w) = true /\ handle receive msg w = (Val tt, w')) pre pre' ->
  forall d rs k m, quiet e k (length pre) -> broken e (k + length pre) = true -> halts e (k + length pre) = false ->
  handle distribute_from (length pre + S m) msg (st (d ++ pre ++ w :: post) (length d) rs k) =
    (Exn network_error, st (d ++ pre' ++ w :: post) (length d + length pre) rs (S (k + length pre))).
Proof.
  induction 1 as [|x x' pre pre' [Ho Hr] _ IH]; intros d rs k m Hq Hb Hh.
  { cbn [length Nat.add distribute_from app] in *. rewrite Nat.add_0_r in Hb, Hh. rewrite (bind_Val (gets _) _ _ _ _ eq_refl). cbn [halting].
    rewrite (bind_Val (gets _) _ _ _ _ eq_refl). cbn [iSlave].
    assert (handle write_worker (length d) msg (st (d ++ w :: post) (length d) rs k) = (Exn network_error, st (d ++ w :: post) (length d) rs (S k))) as Hw.
    { assert (tick (st (d ++ w :: post) (length d) rs k) = (Val true, st (d ++ w :: post) (length d) rs (S k))) as Htk
        by (unfold tick; cbn; by rewrite Hb, Hh).
      unfold write_worker. rewrite (bind_Val _ _ _ _ _ Htk), (bind_Val (gets _) _ _ _ _ eq_refl). cbn [slaves]. by rewrite lookup_middle. }
    unfold try_catch, mbind, M_bind. rewrite Hw. cbn. by rewrite !Nat.add_0_r. }
  cbn [length Nat.add distribute_from app] in *. rewrite (bind_Val (gets _) _ _ _ _ eq_refl). cbn [halting].
  rewrite (bind_Val (gets _) _ _ _ _ eq_refl). cbn [iSlave].
  assert (forall h, try_catch (handle write_worker (length d) msg) h (st (d ++ x :: pre ++ w :: post) (length d) rs k) = (Val tt, st (d ++ x' :: pre ++ w :: post) (length d) rs (S k))) as Ht.
  { intros h. unfold try_catch. by rewrite (write_worker_run d x x' _ (length d) rs k msg (quiet_one _ _ _ Hq) Ho Hr). }
  rewrite (bind_Val _ _ _ _ _ (Ht _)), (bind_Val (modify _) _ _ _ _ eq_refl). unfold set_iSlave. cbn.
  replace (k + S (length pre))%nat with (S k + length pre)%nat in * by lia.
  specialize (IH (d ++ [x']) rs (S k) m (quiet_tail _ _ _ Hq) Hb Hh). rewrite length_app in IH. cbn [length] in IH. rewrite <- !app_assoc in IH. cbn [app] in IH.
  replace (length d + 1)%nat with (S (length d)) in IH by lia. rewrite IH. f_equal. f_equal; lia.
Qed.

Lemma exchange_fails n msg pre pre' w post ws2 i k :
  Forall2 (fun w w' => isOpen (master w) = true /\ handle receive msg w = (Val tt, w')) pre pre' ->
  quiet e k (length pre) -> broken e (k + length pre) = true -> halts e (k + length pre) = false ->
  quiet e (S (k + length pre)) (S (length pre)) ->
  Forall2 (fun w w' => isOpen (master w) = true /\ handle receive (put8 BRM_UNDO) w = (Val tt, w')) (pre' ++ [w]) ws2 ->
  exists i' k', handle exchange n msg (st (pre ++ w :: post) i [] k) =
    (Val (inr Out), mkCtl (ws2 ++ post) s o g true false false i' [] (an ++ [put8 ERR_NETWORK]) e k').
Proof.
  intros H1 Hq1 Hb Hh Hq2 H2. pose proof (Forall2_length _ _ _ H1) as Hl.
  assert (handle distribute msg (st (pre ++ w :: post) i [] k) = (Exn network_error, st (pre' ++ w :: post) (length pre) [] (S (k + length pre)))) as Hd.
  { unfold distribute. rewrite (bind_Val (gets _) _ _ _ _ eq_refl), (bind_Val (modify _) _ _ _ _ eq_refl). cbn [slaves].
    rewrite length_app. cbn [length]. apply (distribute_from_fails msg pre pre' w post H1 [] [] k (length post)); done. }
  assert (handle undo (st (pre' ++ w :: post) (length pre) [] (S (k + length pre))) =
    (Val tt, st (ws2 ++ post) (length pre) [] (S (k + length pre) + S (length pre)))) as Hu.
  { unfold undo. rewrite !(bind_Val (gets _) _ _ _ _ eq_refl). cbn [slaves iSlave].
    destruct (Nat.eqb_spec (length pre) (length (pre' ++ w :: post))) as [Heq|_]; [rewrite length_app in Heq; simpl in Heq; lia|].
    pose proof (undo_from_run (ha:=false) (pre' ++ [w]) ws2 post H2 [] (length pre) [] (S (k + length pre))) as Hu.
    rewrite length_app in Hu. cbn [length app] in Hu. rewrite <- app_assoc in Hu. cbn [app] in Hu. rewrite <- Hl in Hu.
    replace (length pre + 1)%nat with (S (length pre)) in Hu by lia. by apply Hu. }
  eexists (length pre), _. destruct n; cbn [exchange]; (erewrite bind_Val; [|unfold try_catch, mbind, M_bind; rewrite Hd; reflexivity]);
    rewrite (bind_Val (gets _) _ _ _ _ eq_refl); cbn [halting negb andb]; rewrite (bind_Val _ _ _ _ _ Hu); reflexivity.
Qed.

Lemma gather_from_run todo replies : Forall2 (fun w r => sent (master w) = [r] /\ r <> []) todo replies ->
  forall d rs k, quiet e k (length todo) -> gather_from (length todo) (st (d ++ todo) (length d) rs k) =
    (Val true, st (d ++ (pop_sent <$> todo)) (length d + length todo) (rs ++ replies) (k + length todo)).
Proof.
  induction 1 as [|w r todo replies [Hs Hr] _ IH]; intros d rs k Hq.
  { simpl. by rewrite !Nat.add_0_r, !app_nil_r. }
  cbn [gather_from length]. rewrite (bind_Val (gets _) _ _ _ _ eq_refl). cbn [halting].
  rewrite (bind_Val (gets _) _ _ _ _ eq_refl). cbn [iSlave].
  assert (read_worker (length d) (st (d ++ w :: todo) (length d) rs k) = (Val r, st (d ++ pop_sent w :: todo) (length d) rs (S k))) as Hread.
  { unfold read_worker. rewrite (bind_Val _ _ _ _ _ (tick_quiet _ _ _ _ (quiet_one _ _ _ Hq))), (bind_Val (gets _) _ _ _ _ eq_refl). cbn [slaves].
    rewrite lookup_middle. unfold modify, mbind, M_bind, set_slaves. cbn. by rewrite insert_middle, Hs. }
  assert (forall h, try_catch (tmp ← read_worker (length d); mret (Some tmp)) h (st (d ++ w :: todo) (length d) rs k) =
    (Val (Some r), st (d ++ pop_sent w :: todo) (length d) rs (S k))) as Ht.
  { intros h. unfold try_catch. by rewrite (bind_Val _ _ _ _ _ Hread). }
  rewrite (bind_Val _ _ _ _ _ (Ht _)), (bind_Val (gets _) _ _ _ _ eq_refl). cbn [halting].
  assert (zlen r =? 0 = false) as -> by (apply Z.eqb_neq; destruct r; [done|]; unfold zlen; simpl; lia). cbn [andb].
  rewrite !(bind_Val (modify _) _ _ _ _ eq_refl). unfold set_responses, set_iSlave. cbn [slaves sm oids rg readOnly halting slaveLock iSlave responses answers env clock].
  specialize (IH (d ++ [pop_sent w]) (rs ++ [r]) (S k) (quiet_tail _ _ _ Hq)). rewrite length_app in IH. cbn [length] in IH. rewrite <- !app_assoc in IH. cbn [app] in IH.
  replace (length d + 1)%nat with (S (length d)) in IH by lia. rewrite IH. f_equal. f_equal; lia.
Qed.

Lemma gather_run ws replies i rs k :
  quiet e k (length ws) ->
  Forall2 (fun w r => sent (master w) = [r] /\ r <> []) ws replies ->
  gatherResponses (st ws i rs k) = (Val (ERR_OK, false), st (pop_sent <$> ws) (length ws) (rs ++ replies) (k + length ws)).
Proof.
  intros Hq H. unfold gatherResponses. rewrite (bind_Val (gets _) _ _ _ _ eq_refl), (bind_Val (modify _) _ _ _ _ eq_refl). cbn [slaves].
  by rewrite (bind_Val _ _ _ _ _ (gather_from_run ws replies H [] rs k Hq)).
Qed.

Lemma all_step (P Q : comm -> Prop) msg ws :
  Forall P ws -> (forall w, P w -> isOpen (master w) = true /\ exists w', handle receive msg w = (Val tt, w') /\ Q w') ->
  exists ws', Forall2 (fun w w' => isOpen (master w) = true /\ handle receive msg w = (Val tt, w')) ws ws' /\ Forall Q ws'.
Proof.
  intros H HP. induction H as [|w ws Hw _ (ws' & H2 & HQ)]; [by exists []|].
  destruct (HP w Hw) as (Ho & w' & Hr & Hq). exists (w' :: ws'). by split; constructor.
Qed.

Lemma all_same_replicate (r : stream) n : all_same (replicate n r) = true.
Proof. induction n as [|[|n] IH]; [done|done|]. change (bool_decide (r = r) && all_same (replicate (S n) r) = true). by rewrite bool_decide_true, IH by done. Qed.

Lemma compare_run ws i reply n k code :
  peek 1 reply = Val code ->
  compareResponses (st ws i (replicate (S n) reply) k) = (Val code, st ws i (replicate (S n) reply) k).
Proof.
  intros Hp. unfold compareResponses. rewrite (bind_Val (gets _) _ _ _ _ eq_refl). cbn [responses replicate]. rewrite Hp.
  rewrite (bind_Val (gets _) _ _ _ _ eq_refl). change (reply :: replicate n reply) with (replicate (S n) reply). by rewrite all_same_replicate.
Qed.

Section calm_run.
Context (Hcalm : calm e).

(** One exchange with all workers. *)
Lemma exchange_run n msg ws ws1 i k reply code :
  ws <> [] -> Forall2 (fun w w' => isOpen (master w) = true /\ handle receive msg w = (Val tt, w')) ws ws1 ->
  Forall (fun w => sent (master w) = [reply]) ws1 -> peek 1 reply = Val code -> code <> ERR_SLAVE_INCONSISTENCY ->
  handle exchange n msg (st ws i [] k) =
  (Val (inl code), st (pop_sent <$> ws1) (length ws) (replicate (length ws) reply) (k + length ws + length ws)).
Proof.
  intros Hne H1 Hs Hp Hc. pose proof (Forall2_length _ _ _ H1) as Hl.
  assert (reply <> []) as Hr by (intros ->; done).
  assert (Forall2 (fun w r => sent (master w) = [r] /\ r <> []) ws1 (replicate (length ws) reply)) as H2.
  { rewrite Hl. clear -Hs Hr. induction Hs; simpl; by constructor. }
  assert (forall h, try_catch (handle distribute msg ;; mret true) h (st ws i [] k) = (Val true, st ws1 (length ws) [] (k + length ws))) as Ht.
  { intros h. unfold try_catch. by rewrite (bind_Val _ _ _ _ _ (distribute_run msg ws ws1 i [] k (calm_quiet _ _ _ Hcalm) H1)). }
  assert (exists m, length ws = S m) as [m Hm] by (destruct ws; [done|]; eauto).
  destruct n; cbn [exchange]; rewrite (bind_Val _ _ _ _ _ (Ht _)), (bind_Val (gets _) _ _ _ _ eq_refl); cbn [halting negb andb];
    rewrite (bind_Val _ _ _ _ _ (gather_run ws1 _ (length ws) [] (k + length ws) (calm_quiet _ _ _ Hcalm) H2)); cbn beta iota; rewrite app_nil_l, <- Hl;
    rewrite (bind_Val _ _ _ _ _ (check_ok _ _ _ _ _)), Hm, (bind_Val _ _ _ _ _ (compare_run _ _ reply m _ code Hp));
    by apply Z.eqb_neq in Hc as ->.
Qed.

(** The confirmation and the reply. *)
Definition is_quiet (cmd : Z) : bool := (cmd =? FLUSH_INODE_CACHES) || (cmd =? BRM_CLEAR) || (cmd =? TAKE_SNAPSHOT).

Lemma confirm_reply_run ws ws' i r rs k h :
  Forall2 (fun w w' => isOpen (master w) = true /\ handle receive (put8 CONFIRM) w = (Val tt, w')) ws ws' ->
  (try_catch (handle confirm) h ;; reply_first) (st ws i (r :: rs) k) =
  (Val Out, mkCtl ws' s o g ro false false (length ws) (r :: rs) (an ++ [r]) e (k + length ws)).
Proof.
  intros H. assert (try_catch (handle confirm) h (st ws i (r :: rs) k) = (Val tt, st ws' (length ws) (r :: rs) (k + length ws))) as Ht.
  { unfold try_catch, confirm. by rewrite (distribute_run _ ws ws' i (r :: rs) k (calm_quiet _ _ _ Hcalm) H). }
  by rewrite (bind_Val _ _ _ _ _ Ht).
Qed.

Lemma conclude_confirm cmd code msg ws ws' i r rs k :
  is_quiet cmd = false -> code = 0 \/ is_partition cmd = true /\ harmless code = true ->
  Forall2 (fun w w' => isOpen (master w) = true /\ handle receive (put8 CONFIRM) w = (Val tt, w')) ws ws' ->
  handle conclude cmd code msg (st ws i (r :: rs) k) =
  (Val Out, mkCtl ws' s o g ro false false (length ws) (r :: rs) (an ++ [r]) e (k + length ws)).
Proof.
  intros Hq Hc H. unfold conclude. rewrite (bind_Val (gets _) _ _ _ _ eq_refl). cbn [responses].
  assert (zlen (r :: rs) =? 0 = false) as -> by (apply Z.eqb_neq; unfold zlen; simpl; lia).
  unfold is_quiet in Hq. rewrite Hq. cbn [negb andb]. destruct Hc as [->|[-> Hh]].
  - rewrite andb_false_r, (bind_Val _ _ _ _ _ (check_ok _ _ _ _ _)). by apply confirm_reply_run.
  - assert (code =? 0 = false) as -> by (apply Z.eqb_neq; intros ->; done). cbn [negb andb]. rewrite Hh. cbn iota.
    erewrite bind_Val; [|reflexivity]. by apply confirm_reply_run.
Qed.

Lemma conclude_undo_confirm cmd code msg ws ws1 ws' r rs k :
  is_quiet cmd = false -> is_partition cmd = true -> code <> 0 -> harmless code = false ->
  Forall2 (fun w w' => isOpen (master w) = true /\ handle receive (put8 BRM_UNDO) w = (Val tt, w')) ws ws1 ->
  Forall2 (fun w w' => isOpen (master w) = true /\ handle receive (put8 CONFIRM) w = (Val tt, w')) ws1 ws' ->
  handle conclude cmd code msg (st ws (length ws) (r :: rs) k) =
  (Val Out, mkCtl ws' s o g ro false false (length ws) (r :: rs) (an ++ [r]) e (k + length ws + length ws)).
Proof.
  intros Hq Hp Hc Hh H1 H2. unfold conclude. rewrite (bind_Val (gets _) _ _ _ _ eq_refl). cbn [responses].
  assert (zlen (r :: rs) =? 0 = false) as -> by (apply Z.eqb_neq; unfold zlen; simpl; lia).
  unfold is_quiet in Hq. apply Z.eqb_neq in Hc. rewrite Hq, Hp, Hc, Hh. cbn [negb andb].
  assert ((handle undo ;; mret None) (st ws (length ws) (r :: rs) k) = (Val (@None Next), st ws1 (length ws) (r :: rs) (k + length ws))) as Hu.
  { by rewrite (bind_Val _ _ _ _ _ (undo_all_run ws ws1 (r :: rs) k (calm_quiet _ _ _ Hcalm) H1)). }
  rewrite (bind_Val _ _ _ _ _ Hu), (Forall2_length _ _ _ H1). by apply confirm_reply_run.
Qed.

Lemma conclude_undo cmd code msg ws ws' r rs k :
  is_partition cmd = false -> code <> 0 ->
  Forall2 (fun w w' => isOpen (master w) = true /\ handle receive (put8 BRM_UNDO) w = (Val tt, w')) ws ws' ->
  handle conclude cmd code msg (st ws (length ws) (r :: rs) k) =
  (Val Out, mkCtl ws' s o g ro false false (length ws) (r :: rs) (an ++ [put8 code]) e (k + length ws)).
Proof.
  intros Hp Hc H. unfold conclude. rewrite (bind_Val (gets _) _ _ _ _ eq_refl), Hp, andb_false_r. cbn [andb].
  unfold CHECK_ERROR1. apply Z.eqb_neq in Hc. rewrite Hc. cbn [negb].
  assert ((handle undo ;; unlock ;; sendError code ;; mret (Some Out)) (st ws (length ws) (r :: rs) k) =
    (Val (Some Out), mkCtl ws' s o g ro false false (length ws) (r :: rs) (an ++ [put8 code]) e (k + length ws))) as Hu.
  { by rewrite (bind_Val _ _ _ _ _ (undo_all_run ws ws' (r :: rs) k (calm_quiet _ _ _ Hcalm) H)). }
  rewrite (bind_Val (gets halting ≫= _) _ (st ws (length ws) (r :: rs) k) _ _ Hu). done.
Qed.
End calm_run.
End loops.

(** ** One command *)
Definition partition_request (r : Request) : bool :=
  match r with DeletePartition _ _ | MarkPartition _ _ | RestorePartition _ _ => true | _ => false end.

(** How the controller ends a request on every worker, given the error code, and
    whether the first worker writes it to its journal. *)
Definition finish (r : Request) (err : Z) : M Worker.worker unit :=
  if u8 err =? 0 then Worker.confirmChanges
  else if partition_request r
       then (if harmless (u8 err) then Worker.confirmChanges else Worker.undoChanges ;; Worker.confirmChanges)
       else Worker.undoChanges.

Definition logged (r : Request) (err : Z) : bool :=
  (u8 err =? 0) || (partition_request r && harmless (u8 err)).

(** The workers have the same tables [w] and wait for a command; the controller is
    idle.  The resource graph is never filled. *)
Record idle (B n : Z) (w : Worker.worker) (J : stream) (c : ctl) : Prop := {
  id_writable : readOnly c = false;
  id_running : halting c = false;
  id_lock : slaveLock c = false;
  id_responses : responses c = [];
  id_graph : RG.txns (rg c) = ∅;
  id_some : slaves c <> [];
  id_slaves : Forall (ready B n w J) (slaves c) }.

Record system (B n : Z) (w : Worker.worker) (J : stream) (c : ctl) : Prop := {
  sy_calm : calm (env c);
  sy_idle : idle B n w J c }.

Definition cmd_of (r : Request) : Z := default 0 (head (encode cpads r)).

Lemma cmd_of_peek r : peek 1 (encode cpads r) = Val (cmd_of r).
Proof. by destruct r. Qed.

Lemma release_txn cmd t bs c :
  (cmd =? VB_ROLLBACK1) || (cmd =? VB_ROLLBACK2) || (cmd =? VB_COMMIT) = true -> 0 <= cmd < 2 ^ 8 -> is_i32 t -> RG.txns (rg c) = ∅ ->
  release_blocks order cmd (put8 cmd ++ put32 t ++ bs) c = (Val tt, c).
Proof.
  intros Hc Hr Ht Hg. unfold release_blocks. rewrite Hc.
  assert (((_ ← get8; get_i32) (put8 cmd ++ put32 t ++ bs)).1 = Val t) as Hp.
  { rewrite app_assoc. by rewrite (reads_bind get8 (fun _ => get_i32) (put8 cmd) (put32 t) cmd t (reads_get8 cmd Hr) (reads_i32 t Ht)). }
  unfold lift, mbind at 1, M_bind at 1. cbv beta. rewrite Hp. unfold zoom, RG.releaseResources, gets, mbind, M_bind. rewrite Hg, lookup_empty.
  simpl. by destruct c.
Qed.

Lemma release_blocks_run r c :
  request_ok cpads r -> RG.txns (rg c) = ∅ -> release_blocks order (cmd_of r) (encode cpads r) c = (Val tt, c).
Proof.
  intros Hok Hg. destruct r; try reflexivity; simpl in Hok; destruct_and?.
  - by apply (release_txn VB_ROLLBACK1).
  - by apply (release_txn VB_ROLLBACK2).
  - simpl encode. unfold Dbrm.cmd_vbCommit. rewrite <- (app_nil_r (put32 transID)). by apply (release_txn VB_COMMIT).
Qed.

Lemma round_run r c msg :
  msg = encode cpads r -> request_ok cpads r -> readOnly c = false -> halting c = false -> slaveLock c = false -> RG.txns (rg c) = ∅ ->
  (forall t d l, r <> BeginVBCopy t d l) ->
  round others emsg set0 merge0 procStat pads order (cmd_of r) msg c =
  (r' ← handle exchange 2 msg; match r' with inr next => mret next | inl err => handle conclude (cmd_of r) err msg end) (set_slaveLock true c).
Proof.
  intros -> Hok Hro Hha Hlk Hg Hb. unfold round.
  assert (wait_halting c = (Val false, set_slaveLock true c)) as Hw.
  { unfold wait_halting, lock, gets, modify, mbind, M_bind. by rewrite Hha, Hlk. }
  rewrite (bind_Val _ _ _ _ _ Hw). erewrite bind_Val; [|reflexivity]. rewrite (bind_Val (gets _) _ _ _ _ eq_refl).
  change (readOnly (set_slaveLock true c)) with (readOnly c). rewrite Hro.
  assert (cmd_of r =? BEGIN_VB_COPY = false) as -> by (destruct r; first [done|by destruct (Hb _ _ _ eq_refl)]).
  erewrite bind_Val; [|reflexivity]. cbv beta iota. rewrite (bind_Val _ _ _ _ _ (release_blocks_run r (set_slaveLock true c) Hok Hg)).
  rewrite (bind_Val (gets _) _ _ _ _ eq_refl). assert (cmd_of r =? BRM_CLEAR = false) as -> by by destruct r. done.
Qed.

Lemma ready_weaken B n n' w J c : n' <= n -> ready B n w J c -> ready B n' w J c.
Proof. intros Hn [? ? ? Hj]. split; try done. intros Hf. destruct (Hj Hf) as (? & ? & ? & ? & ?). split_and!; try done; lia. Qed.

(** Every worker executed the request. *)
Lemma all_pending B n w J ws r err out w1 :
  Forall (ready B n w J) ws -> request_ok cpads r -> wants_snapshot r = false ->
  (forall first flush, means r first flush w = (Val (err, out), w1)) ->
  exists ws1, Forall2 (fun x x' => isOpen (master x) = true /\ handle receive (encode cpads r) x = (Val tt, x')) ws ws1 /\
    Forall (fun x => sent (master x) = [put8 err ++ out]) ws1 /\ Forall (pending B n w1 J (encode cpads r) []) (pop_sent <$> ws1).
Proof.
  intros Hws Hok Hs Hm.
  destruct (all_step (ready B n w J) (pending B n w1 J (encode cpads r) [put8 err ++ out]) (encode cpads r) ws Hws) as (ws1 & H1 & H2).
  { intros x Hx. split; [apply Hx|]. by apply (receive_request _ _ _ _ _ _ _ _ _ r w J x err out w1 Hx). }
  exists ws1. split_and!; [done| |].
  - eapply Forall_impl; [exact H2|]. intros x Hx. apply Hx.
  - apply Forall_fmap. eapply Forall_impl; [exact H2|]. intros x Hx. simpl. by eapply pop_pending.
Qed.

(** And ends it as the controller decides. *)
Lemma all_confirm B n w w2 J msg ws :
  Forall (pending B n w J msg []) ws -> 0 < n -> 4 <= B -> zlen msg <= B -> Worker.confirmChanges w = (Val tt, w2) ->
  exists ws2, Forall2 (fun x x' => isOpen (master x) = true /\ handle receive (put8 CONFIRM) x = (Val tt, x')) ws ws2 /\
    Forall (ready B (n - 1) w2 (J ++ entry msg)) ws2.
Proof.
  intros Hws Hn HB Hm Hc. eapply all_step; [exact Hws|]. intros x Hx. split; [apply Hx|]. by eapply receive_confirm.
Qed.

Lemma all_undo B n w w2 J msg ws :
  Forall (pending B n w J msg []) ws -> Worker.undoChanges w = (Val tt, w2) ->
  exists ws2, Forall2 (fun x x' => isOpen (master x) = true /\ handle receive (put8 BRM_UNDO) x = (Val tt, x')) ws ws2 /\
    Forall (fun x => ready B n w2 J x /\ doSaveDelta x = false) ws2.
Proof. intros Hws Hc. eapply all_step; [exact Hws|]. intros x Hx. split; [apply Hx|]. by eapply receive_undo. Qed.

Lemma all_confirm_idle B n w w2 J ws :
  Forall (fun x => ready B n w J x /\ doSaveDelta x = false) ws -> 0 <= n -> Worker.confirmChanges w = (Val tt, w2) ->
  exists ws2, Forall2 (fun x x' => isOpen (master x) = true /\ handle receive (put8 CONFIRM) x = (Val tt, x')) ws ws2 /\
    Forall (ready B n w2 J) ws2.
Proof. intros Hws Hn Hc. eapply all_step; [exact Hws|]. intros x [Hx Hd]. split; [apply Hx|]. by eapply receive_confirm_idle. Qed.

(** Only the partition commands send more than the code with an error. *)
Lemma code_out m w err out w1 : code m w = (Val (err, out), w1) -> out = [].
Proof. unfold code, mbind, M_bind. destruct (m w) as [[] ?]; by intros [=]. Qed.

Lemma results_out {A} (put : A -> outcome stream) m w err out w1 : results put m w = (Val (err, out), w1) -> u8 err <> 0 -> out = [].
Proof.
  unfold results, mbind, M_bind. destruct (m w) as [[[a|]| |] w']; [|intros [= <- <- <-]; done|done|done].
  unfold lift. destruct (put a); intros [= <- <- <-] H; by destruct H.
Qed.

Lemma error_out r first flush w err out w1 :
  means r first flush w = (Val (err, out), w1) -> partition_request r = false -> u8 err <> 0 -> out = [].
Proof.
  intros Hm Hp He. destruct r; try done; try (by eapply code_out); try (by eapply results_out).
  revert Hm. simpl. unfold begin_copy, mbind, M_bind. destruct (inNode _ w) as [[[e free]| |] w']; [|done|done].
  intros [= <- <- <-]. destruct (Z.eqb_spec e 0) as [->|]; done.
Qed.

Lemma peek_reply err out : peek 1 (put8 err ++ out) = Val (u8 err).
Proof. unfold peek. simpl. f_equal. lia. Qed.

Lemma cmd_facts r :
  is_partition (cmd_of r) = partition_request r /\ is_quiet (cmd_of r) = false /\ (zlen (encode cpads r) =? 0 = false) /\
  (cmd_of r =? HALT = false) /\ (cmd_of r =? RESUME = false) /\ (cmd_of r =? SETREADONLY = false) /\ (cmd_of r =? SETREADWRITE = false) /\
  (cmd_of r =? GETREADONLY = false).
Proof.
  split_and!; by destruct r.
Qed.

Lemma msgProcessor_run fuel r c :
  msgProcessor others emsg set0 merge0 procStat pads order fuel (encode cpads r) c =
  command others emsg set0 merge0 procStat pads order fuel (cmd_of r) (encode cpads r) c.
Proof.
  destruct (cmd_facts r) as (_ & _ & Hz & H1 & H2 & H3 & H4 & H5). unfold msgProcessor. rewrite Hz.
  rewrite (bind_Val (lift _) _ c (cmd_of r) c); [by rewrite H1, H2, H3, H4, H5|]. unfold lift. by rewrite cmd_of_peek.
Qed.

(** The decision of the controller reaches all workers. *)
Lemma conclude_run B n r err out w1 w2 J ws s o g an e k :
  let msg := encode cpads r in let reply := put8 err ++ out in
  calm e -> ws <> [] -> Forall (pending B n w1 J msg []) ws -> finish r err w1 = (Val tt, w2) ->
  (partition_request r = false -> u8 err <> 0 -> out = []) -> 0 < n -> 4 <= B -> zlen msg <= B ->
  exists ws2 i k2, handle conclude (cmd_of r) (u8 err) msg (mkCtl ws s o g false false true (length ws) (replicate (length ws) reply) an e k) =
      (Val Out, mkCtl ws2 s o g false false false i (replicate (length ws) reply) (an ++ [reply]) e k2) /\ length ws2 = length ws /\
    Forall (ready B (n - 1) w2 (J ++ if logged r err then entry msg else [])) ws2.
Proof.
  intros msg reply He Hne Hws Hf Hout Hn HB Hm. destruct (cmd_facts r) as (Hp & Hq & _).
  assert (exists m, length ws = S m) as [m Hl] by (destruct ws; [done|]; eauto).
  assert (replicate (length ws) reply = reply :: replicate m reply) as Hrs by by rewrite Hl.
  unfold finish, logged in *. rewrite Hrs. destruct (Z.eqb_spec (u8 err) 0) as [Hz|Hz].
  { destruct (all_confirm B n w1 w2 J msg ws Hws Hn HB Hm Hf) as (ws2 & H1 & H2). rewrite Hz. exists ws2. do 2 eexists.
    split; [by apply (conclude_confirm s o g false true an e He); [|left|]|]. split; [by rewrite (Forall2_length _ _ _ H1)|done]. }
  destruct (partition_request r) eqn:Hpr; simpl.
  - destruct (harmless (u8 err)) eqn:Hh.
    + destruct (all_confirm B n w1 w2 J msg ws Hws Hn HB Hm Hf) as (ws2 & H1 & H2). exists ws2. do 2 eexists.
      split; [by apply (conclude_confirm s o g false true an e He); [|right|]|]. split; [by rewrite (Forall2_length _ _ _ H1)|done].
    + unfold mbind, M_bind in Hf. destruct (Worker.undoChanges w1) as [[[]|e'|f'] wu] eqn:Hu; [|done|done].
      destruct (all_undo B n w1 wu J msg ws Hws Hu) as (wsu & H1 & H2).
      destruct (all_confirm_idle B n wu w2 J wsu H2 ltac:(lia) Hf) as (ws2 & H3 & H4). exists ws2. do 2 eexists.
      split; [by apply (conclude_undo_confirm s o g false true an e He _ _ _ ws wsu ws2)|].
      split; [by rewrite (Forall2_length _ _ _ H1), (Forall2_length _ _ _ H3)|]. rewrite app_nil_r.
      eapply Forall_impl; [exact H4|]. intros x. apply ready_weaken. lia.
  - destruct (all_undo B n w1 w2 J msg ws Hws Hf) as (ws2 & H1 & H2). exists ws2. do 2 eexists.
    assert (reply = put8 (u8 err)) as ->. { unfold reply. rewrite Hout by done. rewrite app_nil_r. unfold put8. simpl. unfold u8. by rewrite Z.mod_mod. }
    split; [by apply (conclude_undo s o g false true an e He)|]. split; [by rewrite (Forall2_length _ _ _ H1)|]. rewrite app_nil_r.
    eapply Forall_impl; [exact H2|]. intros x [Hx _]. eapply ready_weaken; [|exact Hx]. lia.
Qed.

Lemma command_run B n r w J c err out w1 w2 :
  let msg := encode cpads r in
  system B n w J c -> request_ok cpads r -> wants_snapshot r = false -> (forall t d l, r <> BeginVBCopy t d l) ->
  (forall first flush, means r first flush w = (Val (err, out), w1)) -> u8 err <> ERR_SLAVE_INCONSISTENCY ->
  finish r err w1 = (Val tt, w2) -> 0 < n -> 4 <= B -> zlen msg <= B ->
  exists c', msgProcessor others emsg set0 merge0 procStat pads order 1 msg c = (Val tt, c') /\
    system B (n - 1) w2 (J ++ if logged r err then entry msg else []) c' /\ answers c' = answers c ++ [put8 err ++ out].
Proof.
  intros msg [Hcalm [Hro Hha Hlk Hrs Hg Hne Hws]] Hok Hsn Hb Hm H2 Hf Hn HB Hlen. unfold msg. rewrite msgProcessor_run. cbn [command].
  destruct c as [ws s o g ro ha lk i rs an e k]. cbn in Hcalm, Hro, Hha, Hlk, Hrs, Hg, Hne, Hws. subst ro ha lk rs.
  destruct (all_pending B n w J ws r err out w1 Hws Hok Hsn Hm) as (ws1 & P1 & P2 & P3).
  pose proof (Forall2_length _ _ _ P1) as Hl1.
  assert (length (pop_sent <$> ws1) = length ws) as Hl by (by rewrite length_fmap).
  destruct (conclude_run B n r err out w1 w2 J (pop_sent <$> ws1) s o g an e (k + length ws + length ws)) as (ws2 & i2 & k2 & Hrun & Hl2 & Hr2); try done.
  { intros Hnil. rewrite Hnil in Hl. by destruct ws. }
  { intros. by eapply (error_out r true true). }
  erewrite bind_Val; [|rewrite (round_run r _ _ eq_refl Hok); try done].
  2: { unfold set_slaveLock. cbn [slaves sm oids rg readOnly halting slaveLock iSlave responses answers env clock].
    erewrite bind_Val; [|by apply (exchange_run s o g false true an e Hcalm 2 (encode cpads r) ws ws1 i k _ _ Hne P1 P2 (peek_reply err out))].
    rewrite Hl in Hrun. exact Hrun. }
  eexists. split; [reflexivity|]. cbn. split; [|done]. split; [done|]. split; try done. cbn. intros ->. simpl in Hl2. rewrite Hl in Hl2. by destruct ws.
Qed.
End controller.
End ControllerThms.
