(* ===== verification/ControllerClaims.v ===== *)
(** * The controller: properties

    A controller with any number of workers is one worker; its journal reproduces it; a
    network failure stops all changes; what repeating a command does. *)

From S2P Require Import Prelude Hasher Bytes ByteStream Vss SlaveNode Persist ExtentMap ExtentCP Worker Messages SlaveComm Dbrm CommThms CommSteps SessionManager OidServer ResourceGraph Controller ControllerThms.
From stdpp Require Import prelude gmap strings.
Local Open Scope Z_scope.

Module ControllerClaims.
Import Messages SlaveComm CommThms CommSteps Controller ControllerThms.

Section claims.
Context {IO : ExtentMap.IterOrder}.
Context (others : SlaveNode.node -> SlaveNode.node) (emsg : stream -> Worker.worker -> list Z)
  (set0 : ExtentCP.CPMaxMin) (merge0 : ExtentCP.CPMaxMinMerge) (procStat : Z -> Z -> option (list Z)) (pads : Worker.Pads)
  (order : gset RG.node -> list RG.node) (cpads : Dbrm.Pads).

Abbreviation handle h := (h others emsg set0 merge0 procStat pads).
Abbreviation means := (meaning cpads others emsg set0 merge0).

(** ** Histories

    A request, the tables before it, after its execution, and after the decision.  The
    requests of a history are those whose outcome is a function of the tables alone:
    beginVBCopy, which also asks the OID server, is left out ([so_copy]), and so are a
    creation with an OID below 3000, after which the worker saves its tables
    ([so_snapshot]), and a rollback by a list of blocks to flush, which only the first
    worker does something with ([so_means]). *)
Record Step := mkStep {
  st_req : Request; st_err : Z; st_out : stream; st_before : Worker.worker; st_mid : Worker.worker; st_after : Worker.worker }.

Record step_ok (B : Z) (s : Step) : Prop := {
  so_request : request_ok cpads (st_req s);
  so_size : zlen (encode cpads (st_req s)) <= B;
  so_snapshot : wants_snapshot (st_req s) = false;
  so_copy : forall t d l, st_req s <> BeginVBCopy t d l;
  so_means : forall first flush, means (st_req s) first flush (st_before s) = (Val (st_err s, st_out s), st_mid s);
  so_code : u8 (st_err s) <> ERR_SLAVE_INCONSISTENCY;
  so_finish : finish (st_req s) (st_err s) (st_mid s) = (Val tt, st_after s) }.

(** One worker that serves the requests one after the other, from [w] to [w']. *)
Fixpoint history (B : Z) (ss : list Step) (w w' : Worker.worker) : Prop :=
  match ss with
  | [] => w = w'
  | s :: ss' => st_before s = w /\ step_ok B s /\ history B ss' (st_after s) w'
  end.

Definition is_logged (s : Step) : bool := logged (st_req s) (st_err s).
Definition message (s : Step) : stream := encode cpads (st_req s).
Definition reply_of (s : Step) : stream := put8 (st_err s) ++ st_out s.
Definition log_of (s : Step) : stream := if is_logged s then entry (message s) else [].
Definition journal_of (ss : list Step) : stream := ss ≫= log_of.

(** C11. Refinement, on a working network: a controller with any number of workers whose
    tables are [w], asked by clients for any sequence of requests whose outcome is a
    function of the tables (not beginVBCopy, not a creation with an OID below 3000, not a
    rollback whose outcome depends on being the first worker or on flushing), and that the
    journal has room for without a snapshot, ends with all workers at the tables [w']
    that one worker reaches by serving these requests one after the other, where a
    request is confirmed or undone by its code; the clients get the codes and results
    of that one worker, and the journal of the first worker grows by the messages of
    the confirmed requests, in their order. *)
Theorem controller_is_one_worker B n ss w w' J c :
  history B ss w w' -> system B n w J c -> zlen ss <= n -> 4 <= B ->
  exists c', for_each (message <$> ss) (handle msgProcessor order 1) c = (Val tt, c') /\
    system B (n - zlen ss) w' (J ++ journal_of ss) c' /\ answers c' = answers c ++ (reply_of <$> ss).
Proof.
  revert n w J c. induction ss as [|s ss IH]; intros n w J c Hh Hc Hn HB.
  { simpl in Hh. subst w'. exists c. rewrite !app_nil_r, Z.sub_0_r. done. }
  destruct Hh as (<- & [] & Hh). assert (zlen (s :: ss) = zlen ss + 1) as Hl by (unfold zlen; simpl; lia). rewrite Hl in *.
  assert (0 <= zlen ss) by (unfold zlen; lia).
  destruct (command_run others emsg set0 merge0 procStat pads order cpads B n (st_req s) (st_before s) J c (st_err s) (st_out s)
    (st_mid s) (st_after s)) as (c1 & Hrun & Hs1 & Ha1); try done; [lia|].
  destruct (IH (n - 1) (st_after s) _ c1 Hh Hs1) as (c' & Hrun' & Hs' & Ha'); [lia|done|].
  exists c'. rewrite !fmap_cons. cbn [for_each]. rewrite (bind_Val _ _ _ _ _ Hrun). split; [exact Hrun'|]. split.
  - unfold journal_of. rewrite bind_cons, app_assoc. replace (n - (zlen ss + 1)) with (n - 1 - zlen ss) by lia. exact Hs'.
  - rewrite Ha', Ha1, <- app_assoc. done.
Qed.

(** ** Replay *)
Lemma read_all B (buf rest : list Z) d :
  (forall k, B <= FileIO.answer d k) -> zlen buf <= B -> FileIO.bytes d = buf ++ rest ->
  FileIO.read (zlen buf) d = (Val (zlen buf, buf), FileIO.step rest d).
Proof.
  intros Hk Hb Hd. specialize (Hk (FileIO.calls d)). assert (0 <= zlen buf) by (unfold zlen; lia). unfold FileIO.read.
  destruct (Z.ltb_spec (FileIO.answer d (FileIO.calls d)) 0); [lia|]. rewrite Hd.
  replace (Z.min (Z.min (FileIO.answer d (FileIO.calls d)) (zlen buf)) (zlen (buf ++ rest))) with (zlen buf)
    by (unfold zlen in *; rewrite length_app; lia).
  unfold zlen. by rewrite Nat2Z.id, take_app_length, drop_app_length.
Qed.

Lemma read_end B count d : (forall k, B <= FileIO.answer d k) -> 0 <= B -> 0 <= count -> FileIO.bytes d = [] ->
  FileIO.read count d = (Val (0, []), FileIO.step [] d).
Proof.
  intros Hk HB Hc Hd. specialize (Hk (FileIO.calls d)). unfold FileIO.read.
  destruct (Z.ltb_spec (FileIO.answer d (FileIO.calls d)) 0); [lia|]. rewrite Hd. change (zlen (A:=Z) []) with 0.
  rewrite Z.min_r by lia. done.
Qed.

(** A worker process that replays a journal. *)
Record replaying (w : Worker.worker) (c : comm) : Prop := {
  rp_slave : slave c = w; rp_alone : standalone c = true; rp_first : firstSlave c = false; rp_print : printOnly c = false }.

Lemma replay_command B s c :
  step_ok B s -> replaying (st_before s) c -> exists c1, handle processCommand (message s) c = (Val tt, c1) /\ replaying (st_mid s) c1.
Proof.
  intros [] [Hw Ha Hf Hp]. unfold message. rewrite (CommReads.request_understood _ _ _ _ _ _ _ _ so_request0), Hf, perform_eq, so_snapshot0.
  assert (forall m, (if never_prints (st_req s) then execute else answer) false m c = execute false m c) as ->.
  { intros m. destruct (never_prints _); [done|]. by apply answer_run. }
  unfold execute, inSlave, zoom, respond, gets, modify, mbind, M_bind. rewrite Hw, so_means0. simpl. rewrite Ha.
  eexists. split; [reflexivity|]. by split.
Qed.

Lemma confirmed B s : step_ok B s -> is_logged s = true -> Worker.confirmChanges (st_mid s) = (Val tt, st_after s).
Proof.
  intros [] Hl. unfold is_logged, logged in Hl. unfold finish in so_finish0.
  destruct (u8 (st_err s) =? 0); [done|]. destruct (partition_request (st_req s)); [|done]. simpl in Hl. by rewrite Hl in so_finish0.
Qed.

(** One entry of the journal. *)
Lemma replay_entry B s c d fuel len ret rest :
  step_ok B s -> is_logged s = true -> replaying (st_before s) c -> (forall k, B <= FileIO.answer d k) -> 4 <= B < 2 ^ 32 ->
  FileIO.bytes d = entry (message s) ++ rest ->
  exists c', replaying (st_after s) c' /\
    handle replay (S fuel) len ret (d, c) =
    handle replay fuel (Some (zlen (message s))) (ret + 1) (FileIO.step rest (FileIO.step (message s ++ rest) d), c').
Proof.
  intros Hs Hl Hc Hk HB Hd. destruct (replay_command B s c Hs Hc) as (c1 & Hrun & Hc1). pose proof (confirmed B s Hs Hl) as Hcf.
  assert (0 < zlen (message s)) as Hpos by (unfold message; destruct (st_req s); unfold zlen; simpl; lia).
  pose proof (so_size B s Hs) as Hsz. fold (message s) in Hsz. exists (set_slave (st_after s) c1). split; [by destruct Hc1|].
  set (m := message s) in *. unfold entry in Hd. rewrite <- app_assoc in Hd.
  assert (zlen (put32 (zlen m)) = 4) as H4 by done.
  pose proof (read_all B (put32 (zlen m)) (m ++ rest) d Hk ltac:(lia) Hd) as Hread1. rewrite H4 in Hread1.
  pose proof (read_all B m rest (FileIO.step (m ++ rest) d) Hk Hsz eq_refl) as Hread2.
  assert (merge_len len (put32 (zlen m)) = Val (zlen m)) as Hlen.
  { unfold merge_len. change ((length (put32 (zlen m)) <? 4)%nat) with false. cbn iota. f_equal. apply le_val_u. simpl. lia. }
  cbn [replay]. rewrite (bind_Val (zoom _ _ _) _ _ (4, put32 (zlen m)) (FileIO.step (m ++ rest) d, c)); [|unfold zoom; cbn [fst]; by rewrite Hread1].
  change (4 <=? 0) with false. cbn beta iota. rewrite (bind_Val (lift _) _ _ (zlen m) (FileIO.step (m ++ rest) d, c)); [|unfold lift; by rewrite Hlen].
  rewrite (bind_Val (zoom _ _ _) _ _ (zlen m, m) (FileIO.step rest (FileIO.step (m ++ rest) d), c)); [|unfold zoom; cbn [fst]; by rewrite Hread2].
  rewrite Z.ltb_irrefl. rewrite (bind_Val (zoom _ _ _) _ _ true (FileIO.step rest (FileIO.step (m ++ rest) d), c1)).
  2: { unfold zoom, try_catch. cbn [snd fst]. by rewrite (bind_Val _ _ _ _ _ Hrun). }
  cbn [negb]. rewrite (bind_Val (zoom _ _ _) _ _ tt (FileIO.step rest (FileIO.step (m ++ rest) d), set_slave (st_after s) c1)).
  2: { unfold zoom, inSlave, zoom. cbn [snd fst]. by rewrite (rp_slave _ _ Hc1), Hcf. }
  destruct (Z.leb_spec (zlen m) 0); [lia|]. done.
Qed.

Lemma replay_run B ss w w' : forall c d fuel len ret,
  history B ss w w' -> Forall (fun s => is_logged s = false -> st_after s = st_before s) ss ->
  replaying w c -> (forall k, B <= FileIO.answer d k) -> 4 <= B < 2 ^ 32 -> FileIO.bytes d = journal_of ss ->
  (length (journal_of ss) < fuel)%nat ->
  exists d' c', handle replay fuel len ret (d, c) = (Val (ret + zlen (filter (fun s => is_logged s = true) ss)), (d', c')) /\ replaying w' c'.
Proof.
  revert w. induction ss as [|s ss IH]; intros w c d fuel len ret Hh Hu Hc Hk HB Hd Hf.
  { simpl in Hh. subst w'. destruct fuel as [|fuel]; [simpl in Hf; lia|]. cbn [replay].
    erewrite bind_Val; [|unfold zoom; simpl; rewrite (read_end B); [reflexivity|done|lia|lia|done]]. cbn beta iota. simpl.
    eexists _, c. rewrite Z.add_0_r. split; [reflexivity|done]. }
  destruct Hh as (<- & Hs & Hh). apply Forall_cons in Hu as [Hus Hu]. unfold journal_of in Hd, Hf. rewrite bind_cons in Hd, Hf.
  change (ss ≫= log_of) with (journal_of ss) in *. rewrite filter_cons. destruct (decide (is_logged s = true)) as [Hl|Hl].
  2: { apply not_true_is_false in Hl. unfold log_of in Hd, Hf. rewrite Hl in Hd, Hf. rewrite Hus in Hh by done. by eapply IH. }
  unfold log_of in Hd, Hf. rewrite Hl in Hd, Hf. destruct fuel as [|fuel]; [lia|].
  destruct (replay_entry B s c d fuel len ret (journal_of ss) Hs Hl Hc Hk HB Hd) as (c1 & Hc1 & ->).
  destruct (IH (st_after s) c1 (FileIO.step (journal_of ss) (FileIO.step (message s ++ journal_of ss) d)) fuel (Some (zlen (message s))) (ret + 1))
    as (d' & c' & Hrun & Hc'); try done.
  { unfold entry in Hf. rewrite !length_app in Hf. unfold put32 in Hf. rewrite length_le_bytes in Hf. lia. }
  exists d', c'. rewrite Hrun. split; [|done]. do 2 f_equal. unfold zlen. simpl. lia.
Qed.

Lemma journal_empty B ss w w' :
  history B ss w w' -> Forall (fun s => is_logged s = false -> st_after s = st_before s) ss -> journal_of ss = [] ->
  w' = w /\ zlen (filter (fun s => is_logged s = true) ss) = 0.
Proof.
  revert w. induction ss as [|s ss IH]; intros w Hh Hu Hj; [done|]. destruct Hh as (<- & Hs & Hh). apply Forall_cons in Hu as [Hus Hu].
  unfold journal_of in Hj. rewrite bind_cons in Hj. apply app_eq_nil in Hj as [Hl Hj]. unfold log_of in Hl.
  destruct (is_logged s) eqn:Hlog; [done|]. rewrite Hus in Hh by done. rewrite filter_cons_False by congruence. by apply IH.
Qed.

(** C14. The journal reproduces a worker: replayed on the tables from which a history (of
    requests as in C11) started, the journal that the first worker wrote in the course of the history (see
    [controller_is_one_worker]) leads to the tables at its end, provided that the
    requests that were undone left no trace; the result is the number of entries. *)
Theorem journal_reproduces_worker B ss w w' c file :
  history B ss w w' -> Forall (fun s => is_logged s = false -> st_after s = st_before s) ss ->
  replaying w c -> FileIO.isOpen file = true -> (forall k, B <= FileIO.answer file k) -> 4 <= B < 2 ^ 32 ->
  FileIO.bytes file = journal_of ss ->
  exists c', handle replayJournal file c = (Val (zlen (filter (fun s => is_logged s = true) ss)), c') /\ slave c' = w'.
Proof.
  intros Hh Hu Hc Ho Hk HB Hf. unfold replayJournal. rewrite Ho, Hf. cbn [negb]. destruct (Z.eqb_spec (zlen (journal_of ss)) 0) as [Hz|_].
  { assert (journal_of ss = []) as Hj by (destruct (journal_of ss); [done|]; unfold zlen in Hz; simpl in Hz; lia).
    destruct (journal_empty B ss w w' Hh Hu Hj) as [-> ->]. exists c. split; [done|]. apply Hc. }
  destruct (replay_run B ss w w' c file (S (length (journal_of ss))) None 0 Hh Hu Hc Hk HB Hf) as (d' & c' & Hrun & Hc'); [lia|].
  rewrite Hrun. exists c'. split; [done|]. apply Hc'.
Qed.

(** ** Failures *)
Lemma readOnly_refuses fuel r c :
  readOnly c = true -> halting c = false -> slaveLock c = false -> responses c = [] ->
  exists c', handle msgProcessor order (S fuel) (encode cpads r) c = (Val tt, c') /\
    slaves c' = slaves c /\ answers c' = answers c ++ [put8 ERR_READONLY].
Proof.
  intros Hro Hha Hlk Hrs. rewrite msgProcessor_run. cbn [command].
  assert (wait_halting c = (Val false, set_slaveLock true c)) as Hw.
  { unfold wait_halting, lock, gets, modify, mbind, M_bind. by rewrite Hha, Hlk. }
  erewrite bind_Val; [|unfold round; rewrite (bind_Val _ _ _ _ _ Hw); erewrite bind_Val; [|reflexivity];
    rewrite (bind_Val (gets _) _ _ _ _ eq_refl); change (readOnly (set_slaveLock true c)) with (readOnly c); rewrite Hro; reflexivity].
  eexists. split; [reflexivity|]. done.
Qed.

(** C16. Fail-stop: when a worker cannot be reached while a command is distributed, and the
    network works otherwise, the client gets [ERR_NETWORK], the workers that executed the
    command and the one that was not reached are told to undo, so that they have what undoing
    leaves of the tables they were at, the workers that were not asked are untouched, the
    system is read-only, and every later command is refused with [ERR_READONLY] and changes
    nothing.  The command is one of C11 whose execution and undoing return.  (Undoing gives
    the old extents and free list back, but not the index: [em_create_undo],
    [em_undo_keeps_index].) *)
Theorem network_failure_stops B n r w w1 wu wx J c pre x post err out :
  let k := clock c in let m := length pre in
  idle B n w J c -> slaves c = pre ++ x :: post -> request_ok cpads r -> wants_snapshot r = false ->
  (forall t d l, r <> BeginVBCopy t d l) -> (forall first flush, means r first flush w = (Val (err, out), w1)) ->
  Worker.undoChanges w1 = (Val tt, wu) -> Worker.undoChanges w = (Val tt, wx) ->
  quiet (env c) k m -> broken (env c) (k + m) = true -> halts (env c) (k + m) = false -> quiet (env c) (S (k + m)) (S m) ->
  exists c' pre' x', handle msgProcessor order 1 (encode cpads r) c = (Val tt, c') /\
    answers c' = answers c ++ [put8 ERR_NETWORK] /\ readOnly c' = true /\
    slaves c' = pre' ++ x' :: post /\ length pre' = length pre /\
    Forall (fun y => slave y = wu) pre' /\ slave x' = wx /\ Forall (fun y => slave y = w) post /\
    forall fuel r', exists c'', handle msgProcessor order (S fuel) (encode cpads r') c' = (Val tt, c'') /\
      slaves c'' = slaves c' /\ answers c'' = answers c' ++ [put8 ERR_READONLY].
Proof.
  intros k m [Hro Hha Hlk Hrs Hg _ Hws] Hsl Hok Hsn Hb Hm Hu1 Hu Hq Hbr Hh Hq2. rewrite Hsl in Hws.
  apply Forall_app in Hws as [Hpre [Hx Hpost]%Forall_cons].
  destruct (all_pending others emsg set0 merge0 procStat pads cpads B n w J pre r err out w1 Hpre Hok Hsn Hm) as (pre' & P1 & _ & P3).
  set (P v y := isOpen (master y) = true /\ printOnly y = false /\ Worker.undoChanges (slave y) = (Val tt, v)).
  assert (Forall (P wu) pre') as Hun.
  { rewrite Forall_fmap in P3. eapply Forall_impl; [exact P3|]. intros y [[] Hy _ _ _ _]. change (slave y = w1) in Hy.
    unfold P. by rewrite Hy. }
  assert (Forall (P wx) [x]) as Hux by (apply Forall_singleton; destruct Hx as [[] Hx _ _]; unfold P; by rewrite Hx).
  assert (forall v l, Forall (P v) l -> exists l', Forall2 (fun y y' => isOpen (master y) = true /\ handle receive (put8 BRM_UNDO) y = (Val tt, y')) l l' /\
    Forall (fun y => slave y = v) l') as Hall.
  { intros v l Hl. destruct (all_step others emsg set0 merge0 procStat pads _ (fun y => slave y = v) (put8 BRM_UNDO) _ Hl) as (l' & U1 & U2); [|by exists l'].
    intros y (Ho & Hp & Hy). split; [done|]. eexists. split; [by apply receive_UNDO|]. done. }
  destruct (Hall _ _ Hun) as (pre2 & U1 & U2). destruct (Hall _ _ Hux) as (xs & X1 & X2).
  apply Forall2_cons_inv_l in X1 as (x' & ? & X1 & ->%Forall2_nil_inv_l & ->). rewrite Forall_singleton in X2.
  assert (Forall2 (fun y y' => isOpen (master y) = true /\ handle receive (put8 BRM_UNDO) y = (Val tt, y')) (pre' ++ [x]) (pre2 ++ [x'])) as U
    by (apply Forall2_app; [done|by constructor]).
  assert (length pre2 = length pre) as Hlen by (rewrite <- (Forall2_length _ _ _ U1); symmetry; apply (Forall2_length _ _ _ P1)).
  destruct c as [ws s o g ro ha lk i rs an e ck]. cbn in *. subst ro ha lk rs ws.
  destruct (exchange_fails others emsg set0 merge0 procStat pads s o g false true an e 2 _ pre pre' x post (pre2 ++ [x']) i k P1 Hq Hbr Hh Hq2 U) as (i' & k' & He).
  rewrite msgProcessor_run. cbn [command]. erewrite bind_Val; [|rewrite (round_run _ _ _ _ _ _ _ _ r _ _ eq_refl Hok); try done].
  2: { unfold set_slaveLock. cbn [slaves sm oids rg readOnly halting slaveLock iSlave responses answers env clock].
    rewrite (bind_Val _ _ _ _ _ He). reflexivity. }
  eexists _, pre2, x'. split; [reflexivity|]. cbn. split_and!; try done.
  - by rewrite <- app_assoc.

  - eapply Forall_impl; [exact Hpost|]. intros y Hy. apply Hy.
  - intros fuel r'. by apply readOnly_refuses.
Qed.

(** ** Repeating a command *)

(** Whatever happens, the replies gathered so far stay. *)
Definition grows {A} (m : M ctl A) : Prop := forall c, exists extra, responses (m c).2 = responses c ++ extra.

Lemma grows_const {A} (m : M ctl A) : (forall c, responses (m c).2 = responses c) -> grows m.
Proof. intros H c. exists []. by rewrite H, app_nil_r. Qed.
Lemma grows_bind {A B} (m : M ctl A) (f : A -> M ctl B) : grows m -> (forall a, grows (f a)) -> grows (m ≫= f).
Proof.
  intros Hm Hf c. unfold mbind, M_bind. destruct (Hm c) as [x Hx]. destruct (m c) as [[a|e|e] c1]; [|by exists x..].
  destruct (Hf a c1) as [y Hy]. exists (x ++ y). simpl in Hx. by rewrite Hy, Hx, app_assoc.
Qed.
Lemma grows_try {A} (m : M ctl A) h : grows m -> (forall e, grows (h e)) -> grows (try_catch m h).
Proof.
  intros Hm Hh c. unfold try_catch. destruct (Hm c) as [x Hx]. destruct (m c) as [[a|e|e] c1]; [by exists x| |by exists x].
  destruct (Hh e c1) as [y Hy]. exists (x ++ y). simpl in Hx. by rewrite Hy, Hx, app_assoc.
Qed.
Ltac grow := repeat match goal with
  | |- grows (_ ≫= _) => apply grows_bind; [|intros ?]
  | |- grows (try_catch _ _) => apply grows_try; [|intros ?]
  | |- grows (match _ with _ => _ end) => case_match
  | |- grows _ => by apply grows_const
  end.

Lemma grows_write i msg : grows (handle write_worker i msg).
Proof.
  unfold write_worker, tick. grow.
  apply grows_const. intros c. simpl. by destruct (halts _ _). Qed.
Lemma grows_read i : grows (read_worker i).
Proof. unfold read_worker, tick. grow. apply grows_const. intros c. simpl. by destruct (halts _ _). Qed.

Lemma grows_distribute n msg : grows (handle distribute_from n msg).
Proof. induction n as [|n IH]; cbn [distribute_from]; grow; first [apply grows_write|exact IH]. Qed.

Lemma grows_gather n : grows (gather_from n).
Proof.
  induction n as [|n IH]; cbn [gather_from]; grow; try apply grows_read; try exact IH. intros c. by eexists.
Qed.

Lemma all_same_app l l' : all_same l = false -> all_same (l ++ l') = false.
Proof.
  induction l as [|x [|y l] IH]; [done|done|]. change (bool_decide (x = y) && all_same (y :: l) = false -> bool_decide (x = y) && all_same ((y :: l) ++ l') = false).
  rewrite !andb_false_iff. intros [H|H]; [by left|]. right. by apply IH.
Qed.

(** The replies of a pass are not all the same; the first one is not empty. *)
Definition differ (rs : list stream) : Prop := all_same rs = false /\ exists b r rs', rs = (b :: r) :: rs'.

Lemma differ_app rs rs' : differ rs -> differ (rs ++ rs').
Proof. intros [Hs (b & r & rs0 & ->)]. split; [by apply all_same_app|]. by eexists _, _, _. Qed.

Lemma compare_differ c : differ (responses c) -> halting c = false -> compareResponses c = (Val ERR_SLAVE_INCONSISTENCY, c).
Proof.
  intros [Hs (b & r & rs & Hr)] Hh. unfold compareResponses. rewrite (bind_Val (gets _) _ _ _ _ eq_refl), Hr.
  assert (peek 1 (b :: r) = Val (le_val [b])) as -> by done. rewrite (bind_Val (gets _) _ _ _ _ eq_refl), Hh, <- Hr, Hs. done.
Qed.

(** One pass of the loop, when it is not left. *)
Lemma pass_differ msg (k : Z -> M ctl (Z + Next)) c code c' :
  differ (responses c) ->
  (sent ← try_catch (handle distribute msg ;; mret true) (fun _ => mret false);
   h ← gets halting;
   if negb sent && negb h then handle undo ;; modify (set_readOnly true) ;; unlock ;; sendError ERR_NETWORK ;; mret (inr Out)
   else
     '(err, _) ← gatherResponses;
     r ← handle CHECK_ERROR1 msg err;
     match r with Some next => mret (inr next) | None => err ← compareResponses; k err end) c = (Val (inl code), c') ->
  exists c1, differ (responses c1) /\ k ERR_SLAVE_INCONSISTENCY c1 = (Val (inl code), c').
Proof.
  intros Hd. unfold mbind at 1, M_bind at 1.
  assert (grows (try_catch (handle distribute msg ;; mret true) (fun _ => mret false))) as Hg.
  { unfold distribute. grow. apply grows_distribute. }
  destruct (Hg c) as [x Hx]. destruct (try_catch _ _ c) as [[b|e|e] c1]; [|done|done]. simpl in Hx. rewrite (bind_Val (gets _) _ _ _ _ eq_refl).
  destruct (negb b && negb (halting c1)).
  { unfold mbind, M_bind. destruct (handle undo c1) as [[]]; done. }
  assert (grows gatherResponses) as Hg2. { unfold gatherResponses. grow. apply grows_gather. }
  unfold mbind at 1, M_bind at 1. destruct (Hg2 c1) as [y Hy]. destruct (gatherResponses c1) as [[[err fl]|e|e] c2] eqn:Hgr; [|done|done].
  assert (err = 0) as ->.
  { revert Hgr. unfold gatherResponses, gets, modify, mbind, M_bind. by destruct (gather_from _ _) as [[] ?]; intros [=]. }
  simpl in Hy. assert (differ (responses c2)) as Hd2. { rewrite Hy, Hx. by apply differ_app, differ_app. }
  cbn beta iota. unfold CHECK_ERROR1. destruct (halting c2) eqn:Hh.
  - unfold mbind at 1, M_bind at 1. rewrite (bind_Val (gets _) _ _ _ _ eq_refl), Hh, (bind_Val (modify _) _ _ _ _ eq_refl).
    unfold mbind, M_bind. destruct (handle undo _) as [[]]; done.
  - rewrite (bind_Val (gets halting ≫= _) _ c2 None c2); [|rewrite (bind_Val (gets _) _ _ _ _ eq_refl), Hh; done].
    rewrite (bind_Val _ _ _ _ _ (compare_differ c2 Hd2 Hh)). by exists c2.
Qed.

(** An inconsistency is final: once two replies to a command differ, repeating the
    command (three passes) does not help, because the replies of the passes are
    compared together: if the loop ends at all with a code, it is
    [ERR_SLAVE_INCONSISTENCY], and the system is read-only. *)
Theorem inconsistency_is_final n msg c code c' :
  differ (responses c) -> handle exchange n msg c = (Val (inl code), c') ->
  code = ERR_SLAVE_INCONSISTENCY /\ readOnly c' = true.
Proof.
  revert c. induction n as [|n IH]; intros c Hd Hrun; cbn [exchange] in Hrun;
    apply (pass_differ _ (fun err => if negb (err =? ERR_SLAVE_INCONSISTENCY) then mret (inl err) else _)) in Hrun as (c1 & Hd1 & Hk); try done.
  - injection Hk as <- <-. done.
  - by apply IH in Hk.
Qed.

(** A version-buffer OID that cannot be allocated blocks the controller: the client
    of [beginVBCopy] gets an error, but the lock on the workers stays taken, and every
    later command waits for it for ever. *)
Theorem begin_copy_error_blocks B n w J c txn root ranges e o' :
  idle B n w J c -> is_u16 root -> i16 (OIDServer.getVBOIDOfDBRoot root (oids c)) < 0 ->
  OIDServer.allocVBOID root (oids c) = (Exn e, o') ->
  exists c', handle msgProcessor order 1 (encode cpads (BeginVBCopy txn root ranges)) c = (Val tt, c') /\
    answers c' = answers c ++ [put8 (-1)] /\ slaves c' = slaves c /\
    forall fuel r, (handle msgProcessor order (S fuel) (encode cpads r) c').1 = Fault SelfDeadlock.
Proof.
  intros [Hro Hha Hlk Hrs Hg _ _] Hr Hv Ha. rewrite msgProcessor_run. cbn [command].
  assert (wait_halting c = (Val false, set_slaveLock true c)) as Hw.
  { unfold wait_halting, lock, gets, modify, mbind, M_bind. by rewrite Hha, Hlk. }
  set (msg := encode cpads (BeginVBCopy txn root ranges)).
  assert (exists rest, msg = put8 BEGIN_VB_COPY ++ put32 txn ++ put16 root ++ rest) as [rest Hmsg] by by eexists.
  assert (translate msg (set_slaveLock true c) = (Val None, set_oids o' (set_slaveLock true c))) as Ht.
  { unfold translate. rewrite Hmsg. assert (le_val (take 2 (drop 5 (put8 BEGIN_VB_COPY ++ put32 txn ++ put16 root ++ rest))) = root) as ->.
    { change (le_val (put16 root) = root). by apply le_val_u. }
    change ((length (put8 BEGIN_VB_COPY ++ put32 txn ++ put16 root ++ rest) <? 7)%nat) with false. cbn iota.
    unfold try_catch. rewrite (bind_Val (gets _) _ _ _ _ eq_refl). change (oids (set_slaveLock true c)) with (oids c).
    apply Z.ltb_lt in Hv. rewrite Hv. unfold zoom, mbind, M_bind. change (oids (set_slaveLock true c)) with (oids c). by rewrite Ha. }
  erewrite bind_Val; [|unfold round; rewrite (bind_Val _ _ _ _ _ Hw); erewrite bind_Val; [|reflexivity];
    rewrite (bind_Val (gets _) _ _ _ _ eq_refl); change (readOnly (set_slaveLock true c)) with (readOnly c); rewrite Hro;
    change (cmd_of cpads (BeginVBCopy txn root ranges) =? BEGIN_VB_COPY) with true; cbn iota; rewrite (bind_Val _ _ _ _ _ Ht); reflexivity].
  eexists. split; [reflexivity|]. cbn. split_and!; try done. intros fuel r. rewrite msgProcessor_run. cbn [command].
  unfold round, wait_halting, lock, gets, mbind, M_bind. cbn. by rewrite Hha.
Qed.
End claims.
End ControllerClaims.
