(* ===== verification/WorkerThms.v ===== *)
(** * The worker node: commands on all tables

    What a command of slavedbrmnode.cpp leaves behind, once the controller confirmed
    or undid it, from what the extent map and the version tables promise. *)

From S2P Require Import Prelude Chain Hasher Undoable Vbbm VbbmThms Vss VssThms CopyLocks CopyLocksClaims SlaveNode NodeThms NodePurge ExtentMap ExtentOps ExtentHwm ExtentPart EmThms EmFree EmIndex EmOps EmPlace EmCmds EmHwm EmClaims Worker.
From stdpp Require Import prelude gmap strings.
Local Open Scope Z_scope.

Module WorkerThms.
Import Worker EmClaims.
Import (hints) ExtentMap.

(** ** Commands on the extent map alone *)
Lemma guarded_em {A} (m : M ExtentMap.t A) w :
  rc (guarded (inEM m)) w =
  match m (emap w) with
  | (Val _, s) => (Val 0, mkW (nd w) s)
  | (Exn _, s) => (Val (-1), mkW (nd w) s)
  | (Fault f, s) => (Fault f, mkW (nd w) s)
  end.
Proof. unfold rc, guarded, inEM, zoom, try_catch, mbind, M_bind. by destruct (m (emap w)) as [[] ?]. Qed.

Section worker.
Context {IO : IterOrder}.

(** What the controller makes a worker do for a command: run it, then keep or undo
    the changes by the return code. *)
Definition command (c : Cmd) : M worker Z :=
  match c with
  | CreateColumn oid w root ty part => rc (Worker.createColumnExtent_DBroot oid w root ty part)
  | CreateExact oid w root part seg ty => rc (Worker.createColumnExtentExactFile oid w root part seg ty)
  | CreateDict oid root part seg => rc (Worker.createDictStoreExtent oid root part seg)
  | DeleteOIDs oids => Worker.deleteOIDs oids
  | DeleteDBRoot root => Worker.deleteDBRoot root
  | Rollback oid del root part seg hwm => Worker.rollbackColumnExtents_DBroot oid del root part seg hwm
  end.

Definition serve (c : Cmd) : M worker Z :=
  r ← command c; (if r =? 0 then Worker.confirmChanges else Worker.undoChanges) ;; mret r.

Fixpoint serve_all (cs : list Cmd) : M worker (list Z) :=
  match cs with
  | [] => mret []
  | c :: cs' => r ← serve c; rs ← serve_all cs'; mret (r :: rs)
  end.

Definition on_em (c : Cmd) : Prop := match c with DeleteOIDs _ => False | _ => True end.
#[global] Instance on_em_dec c : Decision (on_em c).
Proof. destruct c; simpl; apply _. Defined.

Lemma command_em c w :
  on_em c -> command c w =
  match op_of c (emap w) with
  | (Val _, s) => (Val 0, mkW (nd w) s)
  | (Exn _, s) => (Val (-1), mkW (nd w) s)
  | (Fault f, s) => (Fault f, mkW (nd w) s)
  end.
Proof.
  destruct c; intros Hc; try done; simpl;
    unfold Worker.createColumnExtent_DBroot, Worker.createColumnExtentExactFile, Worker.createDictStoreExtent,
      Worker.deleteDBRoot, Worker.rollbackColumnExtents_DBroot; rewrite guarded_em;
    unfold drop, mbind, M_bind, mret, M_ret; (repeat case_match); by simplify_eq.
Qed.

Lemma finish_em (m : M ExtentMap.t unit) (m' : M SlaveNode.node unit) w s :
  m (emap w) = (Val tt, s) -> m' (nd w) = (Val tt, nd w) ->
  try_catch (inEM m ;; inNode m') (fun _ => mret tt) w = (Val tt, mkW (nd w) s).
Proof.
  intros H H'. unfold try_catch, inEM, inNode, zoom, mbind, M_bind. rewrite H. simpl. by rewrite H'.
Qed.

(** The worker does what the extent map does; the version tables are not touched. *)
Lemma serve_em c w r s' :
  on_em c -> NodePurge.node_idle (nd w) -> run_cmd c (emap w) = (Val r, s') ->
  serve c w = (Val (match r with None => 0 | Some _ => -1 end), mkW (nd w) s').
Proof.
  intros Hc Hn Hrun. unfold serve, run_cmd in *. unfold mbind at 1, M_bind at 1. rewrite (command_em c w Hc).
  destruct (op_of c (emap w)) as [[[]|e|f] s]; [| |done]; revert Hrun; unfold mbind, M_bind; simpl.
  - destruct (ExtentMap.confirmChanges s) as [[[]|e|f] s2] eqn:Hf; intros [= <- <-].
    unfold Worker.confirmChanges. by rewrite (finish_em _ _ (mkW (nd w) s) s2 Hf (NodePurge.confirm_idle _ Hn)).
  - destruct (ExtentMap.undoChanges s) as [[[]|e'|f] s2] eqn:Hf; intros [= <- <-].
    unfold Worker.undoChanges. by rewrite (finish_em _ _ (mkW (nd w) s) s2 Hf (NodePurge.undo_idle _ Hn)).
Qed.

(** ** Deleting OIDs *)

(** Block [l] belongs to an extent of [oid] that is in service, on a dbroot of the
    configuration. *)
Definition block_of (s : ExtentMap.t) (oid l : Z) : Prop :=
  exists k e, ExtentMap.em s !! k = Some e /\ ExtentMap.fileID e = oid /\
    ExtentMap.dbRoot e ∈ ExtentMap.allDbRoots (ExtentMap.config s) /\ ExtentPart.in_service e = true /\
    EmThms.owns (ExtentMap.range e) l.

Lemma extents_of_run s oid roots :
  EmIndex.index_ok (ExtentMap.index s) (ExtentMap.em s) ->
  ExtentPart.extents_of roots oid s = (Val (roots ≫= fun r => EmOps.at2 s r oid), s).
Proof.
  intros Hix. induction roots as [|r roots IH]; [done|]. simpl.
  rewrite (bind_Val _ _ _ _ _ (EmOps.idents2_run s r oid Hix)), (bind_Val _ _ _ _ _ IH). done.
Qed.

(** The ranges of a list. *)
Definition covers (rs : list (Z * Z)) (l : Z) : bool :=
  existsb (fun r => NodePurge.in_range (VSS.mkRange r.1 r.2) l) rs.

Lemma covers_spec rs l : covers rs l = true <-> exists r, r ∈ rs /\ r.1 <= l < r.1 + r.2.
Proof.
  unfold covers. rewrite existsb_exists. setoid_rewrite list_elem_of_In. unfold NodePurge.in_range. simpl.
  setoid_rewrite andb_true_iff. setoid_rewrite Z.leb_le. by setoid_rewrite Z.ltb_lt.
Qed.

Lemma lookup_OID_run s oid :
  EmOps.em_inv s -> ExtentMap.locks s = EmCmds.noLocks -> 0 <= oid ->
  exists rs, ExtentPart.lookup_OID oid s = (Val rs, s) /\ Forall (fun r => 0 <= r.2) rs /\
    forall l, covers rs l = true <-> block_of s oid l.
Proof.
  intros Hs Hl Ho. pose proof (EmOps.ci_tree s (EmOps.ei_core s Hs)) as Ht. unfold ExtentPart.lookup_OID.
  destruct (Z.ltb_spec oid 0); [lia|].
  rewrite (bind_Val _ _ _ _ _ (EmCmds.grab2_read s (EmOps.ei_core s Hs) Hl)). set (s0 := ExtentMap.set_locks _ s).
  rewrite (bind_Val (gets _) _ s0 _ s0 eq_refl).
  rewrite (bind_Val _ _ _ _ _ (extents_of_run s0 oid _ (EmOps.ei_index s Hs))).
  rewrite (bind_Val _ _ _ _ _ (EmCmds.release2_read s)), (EmCmds.set_noLocks s Hl). eexists. split; [done|].
  assert (forall r, r ∈ (fun e => (ExtentMap.lbid0 e, u32 (ExtentMap.blocks e))) <$>
      List.filter ExtentPart.in_service (ExtentMap.allDbRoots (ExtentMap.config s0) ≫= fun r => EmOps.at2 s0 r oid) <->
    exists k e, ExtentMap.em s !! k = Some e /\ ExtentMap.fileID e = oid /\
      ExtentMap.dbRoot e ∈ ExtentMap.allDbRoots (ExtentMap.config s) /\ ExtentPart.in_service e = true /\
      r = (ExtentMap.lbid0 e, ExtentMap.blocks e)) as Hin.
  { intros r. rewrite list_elem_of_fmap. setoid_rewrite list_elem_of_In. setoid_rewrite filter_In.
    setoid_rewrite <- list_elem_of_In. setoid_rewrite list_elem_of_bind. split.
    - intros (e & -> & (r' & (k & Hk & Hr & Hf)%EmOps.elem_of_at2 & Hd) & Hserv); [|apply (EmOps.ei_index s Hs)].
      exists k, e. destruct (EmThms.tr_range _ Ht k e Hk) as [? ?]. rewrite u32_small; [naive_solver|].
      unfold ExtentMap.blocks, EmThms.range_ok in *. lia.
    - intros (k & e & Hk & Hf & Hr & Hserv & ->). exists e. destruct (EmThms.tr_range _ Ht k e Hk) as [? ?].
      rewrite u32_small by (unfold ExtentMap.blocks, EmThms.range_ok in *; lia). split_and!; [done| |done].
      exists (ExtentMap.dbRoot e). split; [|done]. apply EmOps.elem_of_at2; [apply (EmOps.ei_index s Hs)|eauto]. }
  split.
  - apply Forall_forall. intros r (k & e & Hk & _ & _ & _ & ->)%Hin.
    destruct (EmThms.tr_range _ Ht k e Hk) as [(? & _) ?]. unfold ExtentMap.blocks. simpl. lia.
  - intros l. rewrite covers_spec. setoid_rewrite Hin. split.
    + intros (r & (k & e & Hk & Hf & Hr & Hserv & ->) & Hrl). exists k, e. done.
    + intros (k & e & Hk & Hf & Hr & Hserv & Hrl). exists (ExtentMap.lbid0 e, ExtentMap.blocks e). split; [|done]. eauto 10.
Qed.

Lemma purge_ranges_spec rs : forall w,
  NodeThms.node_ok (nd w) -> Forall (fun r => 0 <= r.2) rs ->
  wp (purge_ranges rs) w (fun _ w' => emap w' = emap w /\ NodePurge.cleaned (covers rs) (nd w) (nd w')).
Proof.
  induction rs as [|r rs IH]; intros w Hn Hrs.
  { apply wp_ret. split; [done|]. apply NodePurge.cleaned_refl. by apply NodePurge.node_ok_tidy. }
  apply Forall_cons in Hrs as [Hr Hrs]. unfold purge_ranges in *. simpl. wp_step. unfold inNode at 1. wp_step.
  eapply wp_mono; [apply NodePurge.remove_cleaned; [reflexivity|exact Hn|exact Hr]|]. intros [] n1 H1. cbn beta.
  eapply wp_mono; [apply IH; [by apply (NodePurge.cleaned_ok _ _ _ Hn H1)|done]|].
  intros [] w' [He H2]. split; [done|]. eapply NodePurge.cleaned_ext; [|by eapply NodePurge.cleaned_trans]. done.
Qed.

Lemma lookup_guarded w oid :
  EmOps.em_inv (emap w) -> ExtentMap.locks (emap w) = EmCmds.noLocks ->
  exists r, Worker.lookup oid w = (Val r, w) /\
    match r with
    | None => oid < 0
    | Some rs => 0 <= oid /\ Forall (fun r => 0 <= r.2) rs /\ forall l, covers rs l = true <-> block_of (emap w) oid l
    end.
Proof.
  intros Hs Hl. unfold Worker.lookup, guarded, inEM, zoom, try_catch, mbind, M_bind.
  destruct (Z.ltb_spec oid 0) as [Ho|Ho].
  - exists None. unfold ExtentPart.lookup_OID. destruct (Z.ltb_spec oid 0); [|lia]. by destruct w.
  - destruct (lookup_OID_run (emap w) oid Hs Hl Ho) as (rs & Hrun & Hrs). exists (Some rs). rewrite Hrun. by destruct w.
Qed.

Lemma purge_oids_spec oids : forall w,
  EmOps.em_inv (emap w) -> ExtentMap.locks (emap w) = EmCmds.noLocks -> NodeThms.node_ok (nd w) ->
  wp (purge_oids oids) w (fun ok w' => emap w' = emap w /\ exists p, NodePurge.cleaned p (nd w) (nd w') /\
    if ok then Forall (Z.le 0) oids /\ forall l, p l = true <-> exists oid, oid ∈ oids /\ block_of (emap w) oid l
    else ~ Forall (Z.le 0) oids).
Proof.
  induction oids as [|oid oids IH]; intros w Hs Hl Hn.
  { apply wp_ret. split; [done|]. exists (fun _ => false). split; [apply NodePurge.cleaned_refl; by apply NodePurge.node_ok_tidy|].
    split; [done|]. intros l. split; [done|]. intros (o & Ho & _). by apply not_elem_of_nil in Ho. }
  simpl. wp_step. destruct (lookup_guarded w oid Hs Hl) as ([rs|] & Hrun & Hr); (eapply run_wp; [exact Hrun|]); cbn iota.
  - destruct Hr as (Ho & Hr & Hcov). wp_step. eapply wp_mono; [by apply purge_ranges_spec|]. intros [] w1 [He1 H1].
    eapply wp_mono; [apply IH; [by rewrite He1..|by apply (NodePurge.cleaned_ok _ _ _ Hn H1)]|].
    intros ok w2 (He2 & p & H2 & Hok). split; [congruence|]. exists (fun l => covers rs l || p l).
    split; [by eapply NodePurge.cleaned_trans|]. rewrite He1 in Hok. destruct ok.
    + destruct Hok as [Hall Hp]. split; [by constructor|]. intros l. rewrite orb_true_iff, Hcov, Hp.
      setoid_rewrite elem_of_cons. naive_solver.
    + by intros [_ ?]%Forall_cons.
  - wp_step. split; [done|]. exists (fun _ => false). split; [apply NodePurge.cleaned_refl; by apply NodePurge.node_ok_tidy|].
    intros [? _]%Forall_cons. lia.
Qed.

Lemma lock_both w :
  NodeThms.node_ok (nd w) ->
  forall (Q : unit -> worker -> Prop), Q tt (mkW (NodePurge.both_locked (nd w)) (emap w)) ->
  wp (inNode SlaveNode.lock_vbbm ;; inNode SlaveNode.lock_vss) w Q.
Proof.
  intros [] Q HQ. wp_step. unfold inNode. wp_step. apply NodeThms.wp_lock_vbbm; [done|].
  wp_step. by apply NodeThms.wp_lock_vss.
Qed.

(** Both ends of a command that also changed the version tables. *)
Lemma confirm_both p n w1 :
  NodeThms.node_ok n -> NodePurge.node_idle n -> NodePurge.cleaned p (NodePurge.both_locked n) (nd w1) ->
  EmOps.em_inv (emap w1) -> quiet (emap w1) ->
  wp Worker.confirmChanges w1 (fun _ w2 => ready (emap w2) /\ NodeThms.node_ok (nd w2) /\ NodePurge.node_idle (nd w2) /\
    NodeThms.V (nd w2) = NodePurge.drop_blocks p (NodeThms.V n) /\ NodeThms.B (nd w2) = NodePurge.drop_blocks p (NodeThms.B n) /\
    ExtentMap.config (emap w2) = ExtentMap.config (emap w1) /\ ExtentMap.em (emap w2) = ExtentMap.em (emap w1)).
Proof.
  intros Hn Hi Hc Hs (Q1 & Q2 & Q3). unfold Worker.confirmChanges. wp_step. wp_step. unfold inEM. wp_step.
  eapply run_wp; [by apply EmCmds.confirm_run|]. unfold inNode. wp_step. cbn [nd].
  eapply wp_mono; [by apply (NodePurge.confirm_cleaned p n)|]. intros [] n2 (? & ? & ? & ?). cbn [nd emap].
  split_and!; try done. split; [done|]. by apply (EmCmds.em_inv_same (emap w1)).
Qed.

Lemma undo_both p w w1 :
  ready (emap w) -> NodePurge.node_idle (nd w) -> emap w1 = emap w ->
  NodePurge.cleaned p (NodePurge.both_locked (nd w)) (nd w1) -> Worker.undoChanges w1 = (Val tt, w).
Proof.
  intros Hr Hi He Hc. pose proof (EmCmds.id_locks _ (proj1 Hr)) as Hl.
  assert (ExtentMap.undoChanges (emap w) = (Val tt, emap w)) as Hu.
  { rewrite <- (EmCmds.set_noLocks _ Hl) at 1. by apply undo_quiet. }
  unfold Worker.undoChanges, try_catch, inEM, inNode, zoom, mbind, M_bind. rewrite He, Hu. cbn [nd emap].
  rewrite (NodePurge.undo_cleaned p _ _ Hi Hc). by destruct w.
Qed.

(** The worker's [deleteOIDs], confirmed: the extents of the OIDs are gone, and so
    are all versions of their blocks; with an invalid OID everything is undone. *)
Lemma serve_deleteOIDs oids w :
  ready (emap w) -> NodeThms.node_ok (nd w) -> NodePurge.node_idle (nd w) ->
  wp (serve (DeleteOIDs oids)) w (fun r w' =>
    if decide (Forall (Z.le 0) oids)
    then r = 0 /\ ready (emap w') /\ NodeThms.node_ok (nd w') /\ NodePurge.node_idle (nd w') /\
      ExtentMap.config (emap w') = ExtentMap.config (emap w) /\
      (forall k e, ExtentMap.em (emap w') !! k = Some e <-> ExtentMap.em (emap w) !! k = Some e /\
         ~ (ExtentMap.dbRoot e ∈ ExtentMap.allDbRoots (ExtentMap.config (emap w)) /\ ExtentMap.fileID e ∈ oids)) /\
      exists p, (forall l, p l = true <-> exists oid, oid ∈ oids /\ block_of (emap w) oid l) /\
        NodeThms.V (nd w') = NodePurge.drop_blocks p (NodeThms.V (nd w)) /\
        NodeThms.B (nd w') = NodePurge.drop_blocks p (NodeThms.B (nd w))
    else r = -1 /\ w' = w).
Proof.
  intros [Hi Hs] Hn Hid. pose proof (EmCmds.id_locks _ Hi) as Hl. unfold serve, command, Worker.deleteOIDs.
  wp_step. wp_step. apply wp_bind_assoc. wp_step. apply lock_both; [done|]. wp_step.
  set (w0 := mkW (NodePurge.both_locked (nd w)) (emap w)).
  assert (NodeThms.node_ok (nd w0)) as Hn0 by (destruct Hn; by split).
  eapply wp_mono; [by apply purge_oids_spec|]. intros ok w1 (He1 & p & H1 & Hok). change (emap w0) with (emap w) in *.
  destruct ok.
  - destruct Hok as [Hall Hp]. wp_step. unfold inEM at 1. wp_step. rewrite He1.
    eapply wp_mono; [by apply EmCmds.deleteOIDs_spec|]. intros [] s1 (Hs1 & Hl1 & Hc1 & Hem1). wp_step. cbn iota beta.
    case_decide; [|done]. cbn [Z.eqb]. wp_step. eapply wp_mono; [apply (confirm_both p (nd w)); try done; unfold quiet; cbn [emap]; by rewrite Hl1|].
    intros [] w2 (Hr2 & Hn2 & Hi2 & HV & HB & Hc2 & He2). wp_step. cbn [emap nd] in *. rewrite He2, Hc2. split_and!; try done. eauto.
  - wp_step. case_decide; [done|]. cbn [Z.eqb]. wp_step.
    eapply run_wp; [apply (undo_both p w); [done|done|done|exact H1]|]. by wp_step.
Qed.
End worker.
End WorkerThms.
