(* ===== verification/WorkerClaims.v ===== *)
(** * The worker node: properties

    Every sequence of commands keeps all tables of a worker consistent; deleting OIDs
    removes the versions of their blocks with them; a rejected command leaves no
    trace; the saved state is read back. *)

From S2P Require Import Prelude Chain Hasher Bytes Undoable Vbbm VbbmThms VbbmClaims Vss VssThms VssClaims CopyLocks CopyLocksClaims SlaveNode NodeThms NodePurge NodeClaims Persist PersistClaims ExtentMap ExtentOps ExtentHwm ExtentPart ExtentFile EmThms EmFree EmIndex EmOps EmPlace EmCmds EmHwm EmClaims EmFacts EmFileClaims Worker WorkerThms.
From stdpp Require Import prelude gmap strings.
Local Open Scope Z_scope.

Module WorkerClaims.
Import Worker EmClaims WorkerThms.

(** What holds of a worker between two commands. *)
Definition steady (w : worker) : Prop :=
  ready (emap w) /\ NodeThms.node_ok (nd w) /\ NodePurge.node_idle (nd w).

Section claims.
Context {IO : IterOrder}.

Lemma serve_steady c w :
  steady w -> cmd_ok c -> ExtentMap.dbRootCount (ExtentMap.config (emap w)) <> 0 ->
  wp (serve c) w (fun r w' => steady w' /\ ExtentMap.config (emap w') = ExtentMap.config (emap w) /\
    (r = 0 \/ r = -1 /\ ExtentMap.em (emap w') = ExtentMap.em (emap w) /\ nd w' = nd w)).
Proof.
  intros (Hr & Hn & Hi) Hc Hd. destruct (decide (on_em c)) as [He|He].
  - destruct (wp_run _ _ _ (run_cmd_ready c (emap w) Hr Hc Hd)) as (r & s' & Hrun & Hr' & Hcf & Hor).
    eapply run_wp; [by apply serve_em|]. simpl. split_and!; [done..|]. destruct Hor as [->|[-> ?]]; auto.
  - destruct c as [| | |oids| |]; try by destruct He. eapply wp_mono; [by apply serve_deleteOIDs|].
    intros r w'. simpl. case_decide; [|intros [-> ->]; split_and!; auto; done].
    intros (-> & ? & ? & ? & ? & _). unfold steady. auto.
Qed.

(** C7. A worker stays consistent under every sequence of commands of the controller -
    creating column and dictionary extents, deleting OIDs and dbroots, rolling
    columns back - each confirmed when it returns 0 and undone otherwise.  No command
    faults; afterwards the LBID space and the index of the extent map are right, the
    VBBM, the VSS and the copy locks are well formed and agree with each other, all
    locks are released and all undo logs empty; the only return codes are 0 and -1. *)
Theorem worker_stays_consistent cs w :
  steady w -> Forall cmd_ok cs -> ExtentMap.dbRootCount (ExtentMap.config (emap w)) <> 0 ->
  wp (serve_all cs) w (fun rs w' => steady w' /\ Forall (fun r => r = 0 \/ r = -1) rs).
Proof.
  revert w. induction cs as [|c cs IH]; intros w Hw Hcs Hd; [by apply wp_ret|].
  apply Forall_cons in Hcs as [Hc Hcs]. simpl. wp_step. eapply wp_mono; [by apply serve_steady|].
  intros r w' (Hw' & Hcf & Hr). wp_step. eapply wp_mono; [apply IH; [done|done|by rewrite Hcf]|].
  intros rs w'' (? & ?). wp_step. split; [done|]. constructor; [|done]. naive_solver.
Qed.

(** C8. Deleting OIDs: the worker returns 0; of the extents exactly those of the OIDs
    on the configured dbroots are gone; and every version of every block of their
    extents in service has left the VSS and the VBBM, while the versions of all other
    blocks, and where they are buffered, are as before. *)
Theorem worker_delete_purges oids w :
  steady w -> Forall (Z.le 0) oids ->
  wp (serve (DeleteOIDs oids)) w (fun r w' => r = 0 /\ steady w' /\
    (forall k e, ExtentMap.em (emap w') !! k = Some e <-> ExtentMap.em (emap w) !! k = Some e /\
       ~ (ExtentMap.dbRoot e ∈ ExtentMap.allDbRoots (ExtentMap.config (emap w)) /\ ExtentMap.fileID e ∈ oids)) /\
    (forall oid l v, oid ∈ oids -> block_of (emap w) oid l ->
       NodeThms.V (nd w') !! (l, v) = None /\ NodeThms.B (nd w') !! (l, v) = None) /\
    (forall l v, (forall oid, oid ∈ oids -> ~ block_of (emap w) oid l) ->
       NodeThms.V (nd w') !! (l, v) = NodeThms.V (nd w) !! (l, v) /\
       NodeThms.B (nd w') !! (l, v) = NodeThms.B (nd w) !! (l, v))).
Proof.
  intros (Hr & Hn & Hi) Ho. eapply wp_mono; [by apply serve_deleteOIDs|]. intros r w'. simpl. case_decide; [|done].
  intros (-> & ? & ? & ? & _ & Hem & p & Hp & HV & HB). split_and!; try done.
  - intros oid l v Hin Hb. rewrite HV, HB, !NodePurge.drop_lookup. simpl. assert (p l = true) as -> by (apply Hp; eauto). done.
  - intros l v Hno. rewrite HV, HB, !NodePurge.drop_lookup. simpl. destruct (p l) eqn:Hpl; [|done].
    apply Hp in Hpl as (oid & Hin & Hb). by destruct (Hno oid).
Qed.

(** A deletion that is rejected leaves no trace: with an invalid OID in the list
    the worker returns -1, and once the controller has undone the command the worker
    is exactly what it was, whatever had been removed before the bad OID. *)
Theorem worker_delete_rejected oids w :
  steady w -> ~ Forall (Z.le 0) oids ->
  serve (DeleteOIDs oids) w = (Val (-1), w).
Proof.
  intros (Hr & Hn & Hi) Ho. destruct (wp_run _ _ _ (serve_deleteOIDs oids w Hr Hn Hi)) as (r & w' & Hrun & H).
  simpl in H. case_decide; [done|]. destruct H as [-> ->]. done.
Qed.

(** ** The saved state *)

(** The sizes the formats of the three files can hold. *)
Record storable (w : worker) : Prop := {
  st_free : ExtentMap.allocdSize (ExtentMap.fFLShminfo (ExtentMap.mem (emap w))) < 2 ^ 31;
  st_exts k e : ExtentMap.em (emap w) !! k = Some e -> EmFileClaims.loadable e;
  st_some : ExtentMap.em (emap w) <> ∅;
  st_size : Z.of_nat (size (ExtentMap.em (emap w))) < 10 ^ 7;
  st_vbcap : VBBM.vbCapacity (VBBM.hdr (VBBM.seg (SlaveNode.vbbm (nd w)))) <= 80000000;
  st_files : VBBM.nFiles (VBBM.hdr (VBBM.seg (SlaveNode.vbbm (nd w)))) <= 1000000;
  st_filefits : Forall VBBMFileThms.fits_file (VBBM.files (VBBM.seg (SlaveNode.vbbm (nd w))));
  st_vbfits : Forall (fun e => VBBM.used e = true -> VBBMFileThms.fits e) (VBBM.storage (VBBM.seg (SlaveNode.vbbm (nd w))));
  st_vscap : VSS.capacity (VSS.hdr (VSS.seg (SlaveNode.vss (nd w)))) <= 80000000;
  st_vsfits : Forall (fun e => VSS.used e = true -> VSSFileThms.fits e) (VSS.storage (VSS.seg (SlaveNode.vss (nd w)))) }.

Record pads_ok (p : Pads) : Prop := {
  pd_em e : length (emPad p e) = 23%nat;
  pd_range r : length (rangePad p r) = 4%nat;
  pd_vbbm f : length (vbbmPad p f) = 4%nat;
  pd_vss e : length (vssPad p e) = 6%nat }.

(** Open files whose transfers never stop short of a header. *)
Definition works (n : Z) (d : FileIO.Dev) : Prop := FileIO.isOpen d = true /\ FileThms.transfers n d.
Record files_ok (nFiles : Z) (f : Files) : Prop := {
  fo_em : works 12 (emFile f);
  fo_vbbm : works (4 + 24 * nFiles) (vbbmFile f);
  fo_vss : works 8 (vssFile f) }.

Definition contents (f : Files) : list Z * list Z * list Z :=
  (FileIO.bytes (emFile f), FileIO.bytes (vbbmFile f), FileIO.bytes (vssFile f)).

Definition image (p : Pads) (w : worker) : list Z * list Z * list Z :=
  (EmFileClaims.image (emPad p) (emap w) (rangePad p), VBBMFileThms.image (vbbmPad p) (SlaveNode.vbbm (nd w)),
   VSSFileThms.image (vssPad p) (SlaveNode.vss (nd w))).

Lemma wp_attach (n : SlaveNode.node) (Q : unit -> SlaveNode.node -> Prop) :
  NodeThms.node_ok n -> Q tt n -> wp SlaveNode.attach_vbbm n Q /\ wp SlaveNode.attach_vss n Q.
Proof.
  intros [? ? ? Ha Hb ? ?] HQ. unfold SlaveNode.attach_vbbm, SlaveNode.attach_vss. split; wp_steps.
  - destruct (Z.eqb_spec (VBBM.allocdSize (SlaveNode.vbbm n)) 0); [lia|]. by wp_step.
  - destruct (Z.eqb_spec (VSS.allocdSize (SlaveNode.vss n)) 0) as [Hz|]; [|by wp_step].
    rewrite Hz in Hb. by destruct Hb.
Qed.

Lemma wp_reading {T} (save : T -> M FileIO.Dev unit) d x (Q : FileIO.Dev -> Prop) (R : unit -> FileIO.Dev * T -> Prop) :
  wp (save x) d (fun _ => Q) -> (forall d', Q d' -> R tt (d', x)) -> wp (reading save) (d, x) R.
Proof. unfold wp, reading. simpl. destruct (save x d) as [[[]| |] d']; naive_solver. Qed.

Lemma saveState_spec p f w :
  steady w -> storable w -> pads_ok p -> contents f = ([], [], []) ->
  files_ok (VBBM.nFiles (VBBM.hdr (VBBM.seg (SlaveNode.vbbm (nd w))))) f ->
  wp (saveState p) (f, w) (fun c st => c = 0 /\ st.2 = w /\ contents st.1 = image p w).
Proof.
  intros ([Hi Hs] & Hn & _) [] [] Hc [[Ho1 Ht1] [Ho2 Ht2] [Ho3 Ht3]]. injection Hc as Hb1 Hb2 Hb3.
  unfold saveState. wp_step. wp_step. unfold onNode at 1. wp_step. apply wp_attach; [done|]. cbn [fst snd nd emap].
  wp_step. unfold onNode. wp_step. apply wp_attach; [done|]. cbn [fst snd nd emap].
  wp_step. unfold onEM. wp_step. cbn [fst snd nd emap].
  eapply wp_mono; [apply EmFileClaims.save_spec; try done; [apply (EmOps.ei_core _ Hs)|apply (EmCmds.id_locks _ Hi)]|].
  intros [] [d1 e1] [Hd1 He1]. cbn [fst snd nd emap emFile vbbmFile vssFile] in *. subst e1.
  wp_step. unfold onVBBM. wp_step. cbn [fst snd nd emap emFile vbbmFile vssFile].
  eapply wp_reading; [apply VBBMFileThms.vbbm_save_spec; try done; [apply (NodeThms.ok_vbbm _ Hn)|lia]|].
  intros d2 Hd2. cbn [fst snd nd emap emFile vbbmFile vssFile]. wp_step. unfold onVSS. wp_step.
  cbn [fst snd nd emap emFile vbbmFile vssFile SlaveNode.vss SlaveNode.set_vbbm].
  eapply wp_reading; [apply VSSFileThms.vss_save_run; try done; apply (NodeThms.ok_vss _ Hn)|].
  intros d3 Hd3. wp_step. cbn. split_and!; [done|by destruct w as [[] ?]|]. unfold contents, image. simpl. congruence.
Qed.

(** What is the same after a reload. *)
Definition same_tables (w w' : worker) : Prop :=
  ExtentMap.em (emap w') = ExtentMap.em (emap w) /\ NodeThms.V (nd w') = NodeThms.V (nd w) /\
  NodeThms.B (nd w') = NodeThms.B (nd w) /\
  VBBM.files (VBBM.seg (SlaveNode.vbbm (nd w'))) = VBBM.files (VBBM.seg (SlaveNode.vbbm (nd w))).

Lemma loadState_spec p f w w0 cfg :
  steady w -> storable w -> pads_ok p -> contents f = image p w ->
  files_ok (VBBM.nFiles (VBBM.hdr (VBBM.seg (SlaveNode.vbbm (nd w))))) f ->
  steady w0 -> ExtentMap.em (emap w0) = ∅ -> VBBM.cfgFileSize (SlaveNode.vbbm (nd w0)) = Some cfg -> 0 < cfg ->
  wp loadState (f, w0) (fun c st => c = 0 /\ same_tables w st.2 /\ EmOps.em_inv (emap st.2) /\
    ExtentMap.locks (emap st.2) = EmCmds.noLocks /\ NodeThms.node_ok (nd st.2)).
Proof.
  intros ([Hi Hs] & Hn & _) [] [] Hc [[Ho1 Ht1] [Ho2 Ht2] [Ho3 Ht3]] ([Hi0 Hs0] & Hn0 & _) He0 Hcfg Hpos.
  injection Hc as Hb1 Hb2 Hb3. pose proof (VBBMFileThms.vbbm_size_cap _ (NodeThms.ok_vbbm _ Hn)) as Hvb.
  pose proof (VSSFileThms.vss_size_cap _ (NodeThms.ok_vss _ Hn)) as Hvs.
  unfold loadState. wp_step. wp_step. unfold onNode at 1. wp_step. apply wp_attach; [done|]. cbn [fst snd nd emap].
  wp_step. unfold onNode. wp_step. apply wp_attach; [done|]. cbn [fst snd nd emap].
  wp_step. unfold onEM. wp_step. cbn [fst snd nd emap].
  eapply wp_mono; [apply (EmFileClaims.em_load_spec (emPad p) ltac:(done) (emap w) (emap w0) (rangePad p)); try done;
    [apply (EmCmds.id_locks _ Hi0)|intros k; specialize (Ht1 k); lia]|].
  intros [] [d1 e1] (He1 & Hinv1 & Hl1 & _). cbn [fst snd nd emap emFile vbbmFile vssFile] in *.
  wp_step. unfold onVBBM. wp_step. cbn [fst snd nd emap emFile vbbmFile vssFile].
  eapply wp_mono; [apply (VBBMFileThms.vbbm_load_spec (vbbmPad p) (SlaveNode.vbbm (nd w)) _ _ cfg); try done;
    [apply (NodeThms.ok_vbbm _ Hn)|lia|apply (NodeThms.ok_vbbm _ Hn0)]|].
  intros [] [d2 b2] (Hwb & Hab & Hfb & _ & Hzb). cbn [fst snd nd emap emFile vbbmFile vssFile] in *. wp_step. unfold onVSS. wp_step.
  cbn [fst snd nd emap emFile vbbmFile vssFile SlaveNode.vss SlaveNode.set_vbbm].
  eapply wp_mono; [apply (VSSFileThms.vss_load_spec (vssPad p) (SlaveNode.vss (nd w))); try done; [apply (NodeThms.ok_vss _ Hn)|lia]|].
  intros [] [d3 v3] (Hwv & Hav & _ & Hzv & _). cbn [fst snd nd emap emFile vbbmFile vssFile] in *. wp_step.
  cbn [fst snd nd emap]. split_and!; try done. destruct Hn0 as [_ _ ? _ _ ? _]. split; try done.
  unfold NodeThms.B, NodeThms.V. simpl. rewrite Hab, Hav. apply (NodeThms.ok_inv _ Hn).
Qed.

(** C33. Round trip of a storable worker's state through files that work: [saveState]
    returns 0, leaves the worker alone and writes three files; [loadState] reads them
    into any consistent worker without extents, returns 0, and that worker then has the
    same extents, the same versions with their flags and locks, the same places in the
    version buffer and the same buffer files; its free list and index fit the extents,
    and its tables agree.  Storable: there is an extent (the loader asserts that the
    extent map is not empty), every extent has fewer than 256 units of 1024 blocks (the
    loader takes the size as a byte) and a known state, at most 10^7 extents, 8 * 10^7
    slots for versions and 10^6 buffer files, all fields within the types of the
    formats.  Working files: they are open, and no call transfers less than a header,
    with the file metadata of the VBBM (whose [save] does not look at the result of
    these writes); the tables themselves may be transferred in any pieces. *)
Theorem worker_state_roundtrip p f f2 w w0 cfg :
  let n := VBBM.nFiles (VBBM.hdr (VBBM.seg (SlaveNode.vbbm (nd w)))) in
  steady w -> storable w -> pads_ok p -> contents f = ([], [], []) -> files_ok n f -> files_ok n f2 ->
  steady w0 -> ExtentMap.em (emap w0) = ∅ -> VBBM.cfgFileSize (SlaveNode.vbbm (nd w0)) = Some cfg -> 0 < cfg ->
  exists f1, saveState p (f, w) = (Val 0, (f1, w)) /\
  (contents f2 = contents f1 -> wp loadState (f2, w0) (fun c st => c = 0 /\ same_tables w st.2 /\
    EmOps.em_inv (emap st.2) /\ ExtentMap.locks (emap st.2) = EmCmds.noLocks /\ NodeThms.node_ok (nd st.2))).
Proof.
  intros n Hw Hst Hp Hc Hf Hf2 Hw0 He Hcfg Hpos.
  destruct (wp_run _ _ _ (saveState_spec p f w Hw Hst Hp Hc Hf)) as (c & [f1 w'] & Hrun & -> & Hw' & Hi). simpl in *. subst w'.
  exists f1. split; [done|]. intros Heq. eapply loadState_spec; try done. congruence.
Qed.
End claims.

(** ** A worker with one extent and two versions of one of its blocks *)
Definition node1 : SlaveNode.node := ((SlaveNode.writeVBEntry 5 7 3001 40 ;; SlaveNode.confirmChanges) NodeClaims.node0).2.
Definition w1 : worker := mkW node1 EmFacts.em1.

Lemma node1_ok : NodeThms.node_ok node1.
Proof.
  assert (wp (SlaveNode.writeVBEntry 5 7 3001 40 ;; SlaveNode.confirmChanges) NodeClaims.node0 (fun _ n => NodeThms.node_ok n)) as H.
  { wp_step. eapply wp_mono; [apply (NodeThms.writeVBEntry_spec _ 5 7 3001 40 0); [apply NodeClaims.node0_ok|done|lia|apply NodeClaims.node0_current|lia]|].
    intros c n (_ & Hok & _ & _ & _ & H0 & H1). unfold SlaveNode.confirmChanges. wp_step. wp_step. rewrite H0.
    wp_steps. unfold SlaveNode.inVBBM. wp_step. unfold VBBM.confirm. wp_steps. simpl. rewrite H1. wp_steps.
    unfold SlaveNode.inVSS. wp_step. unfold VSS.confirm. wp_steps. simpl.
    destruct (SlaveNode.locked2 n); wp_steps; destruct Hok; by split. }
  unfold node1. destruct (wp_run _ _ _ H) as (x & n & Hrun & Hok). by rewrite Hrun.
Qed.

Lemma w1_steady : steady w1.
Proof.
  split_and!; [apply EmFacts.em1_ready|apply node1_ok|]. split; vm_compute; done.
Qed.

Lemma worker_stays_consistent_witness :
  let cs := [CreateColumn 101 8 1 ExtentMap.INT 0; DeleteOIDs [100]; CreateDict 200 2 0 0; DeleteOIDs [-3]] in
  steady w1 /\ wp (serve_all cs) w1 (fun rs w' => steady w' /\ Forall (fun r => r = 0 \/ r = -1) rs).
Proof.
  split; [apply w1_steady|]. apply (worker_stays_consistent _ w1 w1_steady).
  - repeat constructor; simpl; lia.
  - simpl. lia.
Defined.

Lemma worker_delete_purges_witness :
  NodeThms.V (nd w1) !! (7, 5) = Some (false, true) /\
  wp (serve (DeleteOIDs [100])) w1 (fun r w' => r = 0 /\ NodeThms.V (nd w') !! (7, 5) = None).
Proof.
  split; [vm_compute; reflexivity|].
  eapply wp_mono; [apply (worker_delete_purges [100] w1 w1_steady); repeat constructor; lia|].
  intros r w' (-> & _ & _ & H & _). split; [done|]. apply (H 100 7 5); [by left|].
  exists 0, EmFacts.e100. split; [change (ExtentMap.em EmFacts.em1 !! 0 = Some EmFacts.e100); by rewrite EmFacts.em1_em|].
  split_and!; try done. by left.
Defined.

Lemma worker_delete_rejected_witness : serve (DeleteOIDs [100; -1]) w1 = (Val (-1), w1).
Proof.
  apply (worker_delete_rejected [100; -1] w1 w1_steady).
  intros [_ [H _]%Forall_cons]%Forall_cons. lia.
Defined.

(** Files that take 28 bytes at a time. *)
Definition dev (bs : list Z) : FileIO.Dev := FileIO.mkDev true (fun _ => 28) 0 bs.
Definition files0 : Files := mkFiles (dev []) (dev []) (dev []).
Definition pads0 : Pads := mkPads (fun _ => replicate 23 0) (fun _ => replicate 4 0) (fun _ => replicate 4 0) (fun _ => replicate 6 0).
Definition reopened (f : Files) : Files :=
  mkFiles (dev (FileIO.bytes (emFile f))) (dev (FileIO.bytes (vbbmFile f))) (dev (FileIO.bytes (vssFile f))).
Definition w0 : worker := mkW NodeClaims.node0 EmFacts.em0.

Lemma w0_steady : steady w0.
Proof. split_and!; [apply EmFacts.em0_ready|apply NodeClaims.node0_ok|]. split; vm_compute; done. Qed.

(** Replace a closed term by its value. *)
Ltac evaluate x := let v := eval vm_compute in x in replace x with v by (vm_compute; reflexivity).

Lemma w1_storable : storable w1.
Proof.
  split.
  - vm_compute. reflexivity.
  - change (emap w1) with EmFacts.em1. rewrite EmFacts.em1_em. intros k e [<- <-]%lookup_singleton_Some.
    unfold EmFileClaims.loadable, EmFileClaims.fits, EmFileClaims.cp_fits. split_and!; by vm_compute.
  - change (emap w1) with EmFacts.em1. rewrite EmFacts.em1_em. apply map_non_empty_singleton.
  - change (emap w1) with EmFacts.em1. rewrite EmFacts.em1_em, map_size_singleton. done.
  - vm_compute. congruence.
  - vm_compute. congruence.
  - evaluate (VBBM.files (VBBM.seg (SlaveNode.vbbm (nd w1)))). repeat constructor; simpl; lia.
  - evaluate (VBBM.storage (VBBM.seg (SlaveNode.vbbm (nd w1)))). repeat constructor; simpl; try done; lia.
  - vm_compute. congruence.
  - evaluate (VSS.storage (VSS.seg (SlaveNode.vss (nd w1)))). repeat constructor; simpl; try done; lia.
Qed.

Lemma works28 n f : n <= 1 -> works 28 (emFile f) -> works 28 (vbbmFile f) -> works 28 (vssFile f) -> files_ok n f.
Proof.
  intros Hn [? H1] [? H2] [? H3]. split; split; try done; intros k; pose proof (H1 k); pose proof (H2 k); pose proof (H3 k); lia.
Qed.

Lemma dev_works bs : works 28 (dev bs).
Proof. split; [done|]. intros k. simpl. lia. Qed.

Lemma w1_version : NodeThms.V (nd w1) !! (7, 5) = Some (false, true).
Proof. vm_compute. reflexivity. Qed.

Lemma worker_state_roundtrip_witness :
  exists f1, saveState pads0 (files0, w1) = (Val 0, (f1, w1)) /\
  wp loadState (reopened f1, w0) (fun c st => c = 0 /\ NodeThms.V (nd st.2) !! (7, 5) = Some (false, true)).
Proof.
  assert (VBBM.nFiles (VBBM.hdr (VBBM.seg (SlaveNode.vbbm (nd w1)))) <= 1) as Hn by (vm_compute; congruence).
  assert (exists f1, saveState pads0 (files0, w1) = (Val 0, (f1, w1)) /\ contents (reopened f1) = contents f1) as (f1 & Hs & Hc).
  { destruct (wp_run _ _ _ (saveState_spec pads0 files0 w1 w1_steady w1_storable ltac:(by split) eq_refl
      (works28 _ files0 Hn (dev_works _) (dev_works _) (dev_works _)))) as (c & [f1 w'] & Hrun & -> & Hw' & _). cbn [snd] in Hw'. rewrite Hw' in Hrun. exists f1. split; [exact Hrun|reflexivity]. }
  destruct (worker_state_roundtrip pads0 files0 (reopened f1) w1 w0 2147483648 w1_steady w1_storable) as (f1' & Hsave & Hload).
  - by split.
  - reflexivity.
  - apply (works28 _ _ Hn); apply dev_works.
  - apply (works28 _ _ Hn); apply dev_works.
  - apply w0_steady.
  - reflexivity.
  - reflexivity.
  - reflexivity.
  - assert (f1' = f1) as -> by congruence. exists f1. split; [exact Hs|]. eapply wp_mono; [exact (Hload Hc)|].
    intros c st (-> & (_ & HV & _) & _). split; [reflexivity|]. rewrite HV. exact w1_version.
Defined.
End WorkerClaims.
