(* ===== verification/CheckThms.v ===== *)
(** * What the consistency checks accept

    Exactly which tables the checks of the VSS and the VBBM accept, for any tables at all;
    and what they say of the tables of a consistent worker, where the structural tests
    always pass and what decides is whether two versions share a block of the version
    buffer. *)

From S2P Require Import Prelude Chain Hasher Undoable Vbbm VbbmThms Vss VssThms CopyLocks CopyLocksClaims SlaveNode NodeThms NodePurge NodeClaims VbRing VbClaims ExtentMap ExtentPart EmThms EmOps EmCmds EmClaims EmFacts EmCheck Worker WorkerThms WorkerClaims TableCheck.
From stdpp Require Import prelude gmap strings.
Local Open Scope Z_scope.

Module CheckThms.
Import TableCheck NodeThms.

(** ** Loops *)
Lemma loop_passes n : forall i body, (forall j, i <= j < i + Z.of_nat n -> body j = Val tt) -> loop n i body = Val tt.
Proof.
  induction n as [|n IH]; intros i body H; [done|]. simpl. rewrite H by lia. simpl. apply IH. intros j Hj. apply H. lia.
Qed.

Definition fine_or_throws (o : outcome unit) : Prop := o = Val tt \/ exists what, o = Exn (logic_error what).

Lemma loop_throws n : forall i body,
  (forall j, i <= j < i + Z.of_nat n -> fine_or_throws (body j)) ->
  fine_or_throws (loop n i body) /\ (loop n i body = Val tt <-> forall j, i <= j < i + Z.of_nat n -> body j = Val tt).
Proof.
  induction n as [|n IH]; intros i body H.
  { split; [by left|]. split; [intros _ j Hj; lia|done]. }
  destruct (IH (i + 1) body) as [H1 H2]; [intros j Hj; apply H; lia|]. simpl.
  destruct (H i ltac:(lia)) as [E|[what E]]; rewrite E; simpl.
  - split; [done|]. rewrite H2. split; intros K j Hj; [destruct (decide (j = i)) as [->|]; [done|]|]; apply K; lia.
  - split; [right; by exists what|]. split; [done|]. intros K. specialize (K i ltac:(lia)). congruence.
Qed.

(** ** The structural tests on a well-formed table *)
Section table.
Context {E : Type} (next lbid verID : E -> Z) (live : E -> bool) (hb : E -> Z) (buckets : list Z) (storage : list E).
Context (Hlive : forall e, live e = true <-> lbid e <> -1).
Context (Hok : table_ok next live hb buckets storage) (Huniq : uniq live (fun e => (lbid e, verID e)) storage).

Lemma bucket_lists b h : zget buckets b = Some h -> exists l, chain next storage h l /\ (length l <= length storage)%nat /\
  forall i e, (i, e) ∈ l -> live e = true /\ zget storage i = Some e.
Proof.
  intros Hb. destruct (tk_chain _ _ _ _ _ Hok _ _ Hb) as (l & Hc & _). exists l. split; [done|]. split; [by eapply chain_length|].
  intros i e Hi. by destruct (tk_bucket_live _ _ _ _ _ _ _ _ _ _ Hok Hb Hc Hi) as (? & _ & ?).
Qed.

Lemma each_bucket_passes n test :
  n = zlen buckets -> (forall b h, zget buckets b = Some h -> test h = Val tt) -> each_bucket buckets n test = Val tt.
Proof.
  intros -> Ht. apply loop_passes. intros j Hj. destruct (zget_is_Some buckets j) as [h Hh]; [unfold zlen in *; lia|].
  unfold aget. rewrite Hh. simpl. destruct (h =? -1); [done|]. by eapply Ht.
Qed.

Lemma no_empty_passes what b h : zget buckets b = Some h -> no_empty next lbid storage what h = Val tt.
Proof.
  intros Hb. destruct (bucket_lists b h Hb) as (l & Hc & Hlen & Hin). unfold no_empty. rewrite (walk_chain _ _ _ l) by done. simpl.
  destruct (walk_search (fun e => lbid e =? -1) (fun _ => tt) l) as [[_ ->]|(i & e & Hi & He & _)]; [done|].
  apply Z.eqb_eq in He. destruct (Hin _ _ Hi) as [Hl _]. by apply Hlive in Hl.
Qed.

Lemma no_duplicate_passes what l : forall j fuel,
  chain next storage j l -> (length l <= fuel)%nat -> (forall i e, (i, e) ∈ l -> live e = true /\ zget storage i = Some e) ->
  no_duplicate next lbid verID storage what fuel j = Val tt.
Proof.
  induction l as [|[i e] l IH]; intros j fuel Hc Hf Hin; inversion Hc as [|? ? ? Hz Hc']; subst.
  { by destruct fuel. }
  destruct fuel as [|fuel]; simpl in Hf; [lia|]. simpl. pose proof (zget_Some_range _ _ _ Hz). destruct (Z.eqb_spec i (-1)); [lia|].
  unfold aget. rewrite Hz. simpl. rewrite (walk_chain _ _ _ l) by (done || by eapply chain_length). simpl.
  destruct (walk_search (fun x => (lbid e =? lbid x) && (verID e =? verID x)) (fun _ => tt) l) as [[_ ->]|(k & x & Hk & Hx & _)].
  - apply IH; [done|lia|]. intros ? ? ?. apply Hin. by right.
  - exfalso. apply andb_true_iff in Hx as [H1%Z.eqb_eq H2%Z.eqb_eq].
    destruct (Hin i e) as [Hle _]; [by left|]. destruct (Hin k x) as [Hlx Hzx]; [by right|].
    assert (i = k) as -> by (apply (Huniq i k e x Hz Hzx Hle Hlx); by rewrite H1, H2).
    pose proof (chain_NoDup _ _ _ _ Hc) as Hnd. simpl in Hnd. apply NoDup_cons in Hnd as [Hni _]. apply Hni.
    apply list_elem_of_fmap. by exists (k, x).
Qed.

Lemma no_hole_passes what lwm :
  (forall i e, i < lwm -> zget storage i = Some e -> live e = true) -> lwm <= zlen storage -> no_hole lbid storage what lwm = Val tt.
Proof.
  intros Hl Hle. apply loop_passes. intros j Hj. destruct (zget_is_Some storage j) as [e He]; [lia|]. unfold aget. rewrite He. simpl.
  destruct (Z.eqb_spec (lbid e) (-1)) as [Hd|]; [|done]. specialize (Hl j e ltac:(lia) He). by apply Hlive in Hl.
Qed.
End table.

(** ** VSS and VBBM *)
Definition marks_ok (n : SlaveNode.node) : Prop :=
  VBBM.vbLWM (VBBM.hdr (VBBM.seg (SlaveNode.vbbm n))) <= VBBM.vbCapacity (VBBM.hdr (VBBM.seg (SlaveNode.vbbm n))) /\
  VSS.LWM (VSS.hdr (VSS.seg (SlaveNode.vss n))) <= VSS.capacity (VSS.hdr (VSS.seg (SlaveNode.vss n))).

(** Two versions never share a block. *)
Definition distinct_places (n : SlaveNode.node) : Prop := forall k k' p, B n !! k = Some p -> B n !! k' = Some p -> k = k'.

Lemma size_passes g : VSSThms.wf g -> exists z, VSS.size g = Val z.
Proof.
  intros Hw. unfold VSS.size. pose proof (VSSThms.wf_count _ _ _ Hw) as Hc. pose proof (VSSThms.tb_cap g (VSSThms.wf_tab _ _ _ Hw)) as Hcap.
  assert (zlen (VSS.scan (fun _ => true) g) = VSS.currentSize (VSS.hdr g)) as ->; [|rewrite Z.eqb_refl; by eexists].
  rewrite <- Hc. unfold VSS.scan, live_count, zlen, VSSThms.live. rewrite take_ge by (unfold zlen in Hcap; lia). do 2 f_equal.
  apply list_filter_iff. intros e. tauto.
Qed.

Lemma buffered_passes n : node_ok n -> buffered_known (SlaveNode.vbbm n) (VSS.seg (SlaveNode.vss n)) = Val tt.
Proof.
  intros Hok. pose proof (VSSThms.wf_tab _ _ _ (ok_vss _ Hok)) as Ht. apply loop_passes. intros j Hj.
  destruct (zget_is_Some (VSS.storage (VSS.seg (SlaveNode.vss n))) j) as [e He]; [rewrite (VSSThms.tb_cap _ Ht); lia|].
  unfold aget. rewrite He. simpl. destruct (negb (VSS.lbid e =? -1)) eqn:Hl; [|done]. destruct (VSS.vbFlag e) eqn:Hf; [|done]. simpl.
  assert (V n !! (VSS.lbid e, VSS.verID e) = Some (true, VSS.locked e)) as HV.
  { apply VSSThms.vss_abs_Some; [apply (VSSThms.tb_uniq _ Ht)|]. exists j, e. split_and!; try done. unfold VSSThms.val. by rewrite Hf. }
  destruct (inv_key _ _ (ok_inv _ Hok) _ _ _ HV). rewrite NodeClaims.vbbm_lookup_of by done.
  destruct (proj2 (inv_buf _ _ (ok_inv _ Hok) (VSS.lbid e) (VSS.verID e))) as [p ->]; [by eexists|]. done.
Qed.

Lemma vss_check_passes n : node_ok n -> marks_ok n -> vss_checkConsistency (SlaveNode.vbbm n) (VSS.seg (SlaveNode.vss n)) = Val 0.
Proof.
  intros Hok [_ Hm]. pose proof (VSSThms.wf_tab _ _ _ (ok_vss _ Hok)) as Ht. unfold vss_checkConsistency.
  rewrite (buffered_passes n Hok). destruct (size_passes _ (ok_vss _ Hok)) as [z ->]. simpl.
  rewrite (each_bucket_passes _ _ (no_empty _ _ _ _) (eq_sym (VSSThms.tb_nb _ Ht)));
    [|intros b h Hb; by eapply (no_empty_passes VSS.next VSS.lbid VSSThms.live _ _ _ VSSThms.vss_live_lbid (VSSThms.tb_tab _ Ht))]. simpl.
  rewrite (no_hole_passes VSS.lbid VSSThms.live _ VSSThms.vss_live_lbid); [|apply (VSSThms.tb_lwm _ Ht)|by rewrite (VSSThms.tb_cap _ Ht)]. simpl.
  rewrite (each_bucket_passes _ _ _ (eq_sym (VSSThms.tb_nb _ Ht))); [done|]. intros b h Hb.
  destruct (bucket_lists VSS.next VSSThms.live _ _ _ (VSSThms.tb_tab _ Ht) b h Hb) as (l & Hc & Hl & Hin).
  by eapply (no_duplicate_passes VSS.next VSS.lbid VSS.verID VSSThms.live _ (VSSThms.tb_uniq _ Ht)).
Qed.

Lemma places_exact n :
  node_ok n -> fine_or_throws (places_unique (VBBM.seg (SlaveNode.vbbm n))) /\
    (places_unique (VBBM.seg (SlaveNode.vbbm n)) = Val tt <-> distinct_places n).
Proof.
  intros Hok. pose proof (ok_vbbm _ Hok) as Hw. set (g := VBBM.seg (SlaveNode.vbbm n)) in *. set (cap := VBBM.vbCapacity (VBBM.hdr g)).
  pose proof (VBBMThms.wf_cap _ _ Hw) as Hcap. fold cap in Hcap. assert (0 <= cap) as H0 by (rewrite <- Hcap; unfold zlen; lia).
  set (inner := fun e j => x ← aget (VBBM.storage g) j; if VBBM.lbid x =? -1 then Val tt
      else if (VBBM.vbOID x =? VBBM.vbOID e) && (VBBM.vbFBO x =? VBBM.vbFBO e)
      then Exn (logic_error "VBBM::checkConsistency(): 2 VBBM entries share space in the VB") else Val tt).
  assert (Hin : forall e j, 0 <= j < cap -> exists x, zget (VBBM.storage g) j = Some x /\ fine_or_throws (inner e j) /\
    (inner e j = Val tt <-> ~ (VBBMThms.live x = true /\ VBBMThms.val x = VBBMThms.val e))).
  { intros e j Hj. destruct (zget_is_Some (VBBM.storage g) j) as [x Hx]; [lia|]. exists x. split; [done|]. unfold inner, aget. rewrite Hx. simpl.
    unfold VBBMThms.live, VBBM.used, VBBMThms.val. destruct (VBBM.lbid x =? -1); simpl; [split; [by left|]; split; [intros _ [? _]; done|done]|].
    destruct (Z.eqb_spec (VBBM.vbOID x) (VBBM.vbOID e)), (Z.eqb_spec (VBBM.vbFBO x) (VBBM.vbFBO e)); simpl;
      (split; [first [by left | right; by eexists]|]); split; try done; try (intros _ [_ [= ? ?]]; done).
    intros H. exfalso. apply H. split; [done|]. by f_equal. }
  set (outer := fun i => e ← aget (VBBM.storage g) i; if VBBM.lbid e =? -1 then Val tt else loop (Z.to_nat (cap - (i + 1))) (i + 1) (inner e)).
  assert (Hout : forall i, 0 <= i < cap -> exists e, zget (VBBM.storage g) i = Some e /\ fine_or_throws (outer i) /\
    (outer i = Val tt <-> (VBBMThms.live e = true -> forall j x, i < j < cap -> zget (VBBM.storage g) j = Some x -> VBBMThms.live x = true -> VBBMThms.val x <> VBBMThms.val e))).
  { intros i Hi. destruct (zget_is_Some (VBBM.storage g) i) as [e He]; [lia|]. exists e. split; [done|]. unfold outer, aget. rewrite He. simpl.
    unfold VBBMThms.live at 1, VBBM.used at 1. destruct (VBBM.lbid e =? -1); simpl; [split; [by left|]; split; [intros _ ?; done|done]|].
    destruct (loop_throws (Z.to_nat (cap - (i + 1))) (i + 1) (inner e)) as [H1 H2].
    { intros j Hj. destruct (Hin e j) as (x & _ & ? & _); [lia|done]. }
    split; [done|]. rewrite H2. split.
    - intros K _ j x Hj Hx Hl Hv. destruct (Hin e j) as (x' & Hx' & _ & Hiff); [lia|]. rewrite Hx in Hx'. injection Hx' as <-.
      pose proof (proj1 Hiff (K j ltac:(lia))) as Hno.
      apply Hno. done.
    - intros K j Hj. destruct (Hin e j) as (x & Hx & _ & Hiff); [lia|]. apply Hiff. intros [Hl Hv]. by apply (K eq_refl j x); [lia|..]. }
  destruct (loop_throws (Z.to_nat cap) 0 outer) as [H1 H2].
  { intros i Hi. destruct (Hout i) as (e & _ & ? & _); [lia|done]. }
  split; [exact H1|]. change (places_unique g) with (loop (Z.to_nat cap) 0 outer). rewrite H2. clear H1 H2. split.
  - intros K k k' p (i & e & He & Hl & Hk & Hv)%VBBMThms.abs_Some (j & x & Hx & Hlx & Hkx & Hvx)%VBBMThms.abs_Some; try apply (VBBMThms.wf_uniq _ _ Hw).
    fold g in He, Hx. pose proof (zget_Some_range _ _ _ He). pose proof (zget_Some_range _ _ _ Hx). destruct (Z.lt_trichotomy i j) as [Hij|[<-|Hij]].
    + destruct (Hout i) as (e' & He' & _ & Hiff); [lia|]. rewrite He in He'. injection He' as <-. exfalso. eapply (proj1 Hiff (K i ltac:(lia)) Hl j x); [lia|done|done|congruence].
    + rewrite He in Hx. congruence.
    + destruct (Hout j) as (e' & He' & _ & Hiff); [lia|]. rewrite Hx in He'. injection He' as <-. exfalso. eapply (proj1 Hiff (K j ltac:(lia)) Hlx i e); [lia|done|done|congruence].
  - intros K i Hi. destruct (Hout i) as (e & He & _ & Hiff); [lia|]. apply Hiff. intros Hl j x Hj Hx Hlx Hv.
    assert (VBBMThms.key e = VBBMThms.key x) as Hk.
    { apply (K _ _ (VBBMThms.val e)); apply VBBMThms.abs_Some; try apply (VBBMThms.wf_uniq _ _ Hw); [by exists i, e|by exists j, x]. }
    pose proof (VBBMThms.wf_uniq _ _ Hw i j e x He Hx Hl Hlx Hk). lia.
Qed.

Lemma vbbm_check_exact n :
  node_ok n -> marks_ok n ->
  (vbbm_checkConsistency (SlaveNode.vbbm n) = Val 0 /\ distinct_places n) \/
  ((exists what, vbbm_checkConsistency (SlaveNode.vbbm n) = Exn (logic_error what)) /\ ~ distinct_places n).
Proof.
  intros Hok [Hm _]. pose proof (ok_vbbm _ Hok) as Hw. destruct (places_exact n Hok) as [Hf Hiff]. unfold vbbm_checkConsistency.
  rewrite (each_bucket_passes _ _ (no_empty _ _ _ _) (eq_sym (VBBMThms.wf_nb _ _ Hw)));
    [|intros b h Hb; by eapply (no_empty_passes VBBM.next VBBM.lbid VBBMThms.live _ _ _ VBBMThms.live_lbid (VBBMThms.wf_tab _ _ Hw))]. simpl.
  rewrite (no_hole_passes VBBM.lbid VBBMThms.live _ VBBMThms.live_lbid); [|apply (VBBMThms.wf_lwm _ _ Hw)|by rewrite (VBBMThms.wf_cap _ _ Hw)]. simpl.
  rewrite (each_bucket_passes _ _ (no_duplicate _ _ _ _ _ _) (eq_sym (VBBMThms.wf_nb _ _ Hw))).
  - simpl. destruct Hf as [Hp|[what Hp]]; rewrite Hp; simpl.
    + left. split; [done|]. by apply Hiff.
    + right. split; [by exists what|]. intros Hd%Hiff. congruence.
  - intros b h Hb. destruct (bucket_lists VBBM.next VBBMThms.live _ _ _ (VBBMThms.wf_tab _ _ Hw) b h Hb) as (l & Hc & Hl & Hin).
    by eapply (no_duplicate_passes VBBM.next VBBM.lbid VBBM.verID VBBMThms.live _ (VBBMThms.wf_uniq _ _ Hw)).
Qed.

(** What the extent map's own check needs. *)
Definition em_checkable (s : ExtentMap.t) : Prop :=
  ExtentMap.locks s = EmCmds.noLocks /\ (forall k e, ExtentMap.em s !! k = Some e -> ExtentMap.dbRoot e <> 0) /\
  ExtentMap.allocdSize (ExtentMap.fFLShminfo (ExtentMap.mem s)) < 2 ^ 31 /\ ~ EmCheck.false_alarm s.

(** The consistency check of a worker whose tables are consistent and whose extent map does
    not have the shape that makes the extent map's own check throw ([em_checkable]): it
    terminates, changes nothing and returns 0 exactly when no two versions are stored in the
    same block of the version buffer, and -1 otherwise. *)
Theorem worker_check_exact w :
  WorkerClaims.steady w -> marks_ok (Worker.nd w) -> em_checkable (Worker.emap w) ->
  exists c, checkConsistency w = (Val c, w) /\ (c = 0 /\ distinct_places (Worker.nd w) \/ c = -1 /\ ~ distinct_places (Worker.nd w)).
Proof.
  intros ((_ & Hem) & Hok & _) Hm (H1 & H2 & H3 & H4). pose proof (EmCheck.em_check_accepts (Worker.emap w) Hem H1 H2 H3 H4) as He.
  assert (SlaveNode.attach_vbbm (Worker.nd w) = (Val tt, Worker.nd w)) as Hb.
  { unfold SlaveNode.attach_vbbm. rewrite (bind_Val (gets _) _ _ false (Worker.nd w)); [done|]. unfold gets. do 2 f_equal. apply Z.eqb_neq. pose proof (ok_vba _ Hok). lia. }
  assert (SlaveNode.attach_vss (Worker.nd w) = (Val tt, Worker.nd w)) as Hv.
  { unfold SlaveNode.attach_vss. rewrite (bind_Val (gets _) _ _ false (Worker.nd w)); [done|]. unfold gets. do 2 f_equal. apply Z.eqb_neq.
    pose proof (ok_vsa _ Hok) as Hz. unfold VSS.VSS_INITIAL_SIZE in Hz. intros Hz0. rewrite Hz0 in Hz. by vm_compute in Hz. }
  assert (w = Worker.mkW (Worker.nd w) (Worker.emap w)) as Hw by (by destruct w).
  assert (Worker.guarded (Worker.inEM ExtentPart.checkConsistency) w = (Val (Some 0), w)) as S1.
  { unfold Worker.guarded, Worker.inEM, zoom, try_catch, mbind, M_bind. rewrite He. by rewrite <- Hw. }
  assert (Worker.guarded (Worker.inNode (SlaveNode.attach_vbbm ;; SlaveNode.attach_vss ;;
    lift (fun n => vss_checkConsistency (SlaveNode.vbbm n) (VSS.seg (SlaveNode.vss n))))) w = (Val (Some 0), w)) as S2.
  { unfold Worker.guarded, Worker.inNode, zoom, try_catch. unfold mbind at 1, M_bind at 1.
    rewrite (bind_Val _ _ _ _ _ Hb), (bind_Val _ _ _ _ _ Hv). unfold lift. rewrite (vss_check_passes _ Hok Hm). by rewrite <- Hw. }
  unfold checkConsistency. rewrite (bind_Val _ _ _ _ _ S1), (bind_Val _ _ _ _ _ S2).
  destruct (vbbm_check_exact _ Hok Hm) as [[Hc Hd]|[[what Hc] Hd]].
  - exists 0. split; [|by left]. rewrite (bind_Val _ _ _ (Some 0) w); [done|].
    unfold Worker.guarded, Worker.inNode, zoom, try_catch. unfold mbind at 1, M_bind at 1.
    rewrite (bind_Val _ _ _ _ _ Hb). unfold lift. rewrite Hc. by rewrite <- Hw.
  - exists (-1). split; [|by right]. rewrite (bind_Val _ _ _ None w); [done|].
    unfold Worker.guarded, Worker.inNode, zoom, try_catch. unfold mbind at 1, M_bind at 1.
    rewrite (bind_Val _ _ _ _ _ Hb). unfold lift. rewrite Hc. by rewrite <- Hw.
Qed.

(** ** Any tables *)
Lemma loop_exact n : forall i body, loop n i body = Val tt <-> forall j, i <= j < i + Z.of_nat n -> body j = Val tt.
Proof.
  induction n as [|n IH]; intros i body; [split; [intros _ j Hj; lia|done]|]. cbn [loop]. split.
  - intros H. destruct (body i) as [[]| |] eqn:E; try done. simpl in H. rewrite IH in H. intros j Hj.
    destruct (decide (j = i)) as [->|]; [done|]. apply H. lia.
  - intros H. rewrite (H i) by lia. simpl. apply IH. intros j Hj. apply H. lia.
Qed.

Lemma aget_exact {A B} (l : list A) i (f : A -> outcome B) b : (x ← aget l i; f x) = Val b <-> exists x, zget l i = Some x /\ f x = Val b.
Proof. unfold aget. destruct (zget l i) as [x|]; simpl; [|by split; [|intros (? & ? & _)]]. split; [by eauto|by intros (? & [= <-] & ?)]. Qed.

Lemma bind_exact {A B} (m : outcome A) (f : A -> outcome B) b : (x ← m; f x) = Val b <-> exists a, m = Val a /\ f a = Val b.
Proof. destruct m as [a| |]; simpl; [split; [by eauto|by intros (? & [= <-] & ?)]|by split; [|intros (? & ? & _)]..]. Qed.

(** The tests of a hash table. *)
Section any_table.
Context {E : Type} (next lbid verID : E -> Z) (buckets : list Z) (storage : list E).

(** A search through a list that ends without a find. *)
Lemma search_exact (f : E -> bool) fuel : forall i,
  walk next storage fuel i (fun _ e (_ : unit) => if f e then Return tt else Next tt) tt = Val (Next tt) <->
  exists l, chain next storage i l /\ (length l <= fuel)%nat /\ Forall (fun p => f p.2 = false) l.
Proof.
  induction fuel as [|fuel IH]; intros i; cbn [walk]; destruct (Z.eqb_spec i (-1)) as [->|Hi].
  - split; [|done]. intros _. exists []. by repeat constructor.
  - split; [done|]. intros (l & Hc & Hl & _). destruct l; simpl in Hl; [inversion Hc; done|lia].
  - split; [|done]. intros _. exists []. split; [constructor|]. split; [simpl; lia|constructor].
  - destruct (zget storage i) as [e|] eqn:He.
    2:{ split; [done|]. intros (l & Hc & _). inversion Hc; congruence. }
    destruct (f e) eqn:Hf.
    + split; [done|]. intros (l & Hc & _ & Hl). inversion Hc as [|? e' l' He' Hc']; subst; [done|].
      apply Forall_cons in Hl as [Hl _]. simpl in Hl. congruence.
    + rewrite IH. split.
      * intros (l & Hc & Hl & Hall). exists ((i, e) :: l). split; [by constructor|]. split; [simpl; lia|by constructor].
      * intros (l & Hc & Hl & Hall). inversion Hc as [|? e' l' He' Hc']; subst; [done|]. assert (e' = e) as -> by congruence.
        apply Forall_cons in Hall as [_ Hall]. simpl in Hl. exists l'. split; [done|]. split; [lia|done].
Qed.

(** A bucket's list is finite, without empty entries, and without two of the same key. *)
Definition full_list (h : Z) : Prop := exists l, chain next storage h l /\ Forall (fun p => lbid p.2 <> -1) l.
Definition distinct_list (h : Z) : Prop := exists l, chain next storage h l /\ NoDup ((fun p => (lbid p.2, verID p.2)) <$> l).

Lemma no_empty_exact what h : no_empty next lbid storage what h = Val tt <-> full_list h.
Proof.
  unfold no_empty, full_list.
  assert ((r ← walk next storage (length storage) h (fun _ e (_ : unit) => if lbid e =? -1 then Return tt else Next tt) tt;
    match r with Return _ => Exn (logic_error what) | Next _ => Val tt end) = Val tt <->
    walk next storage (length storage) h (fun _ e (_ : unit) => if lbid e =? -1 then Return tt else Next tt) tt = Val (Next tt)) as ->.
  { destruct (walk _ _ _ _ _) as [[[]|[]]| |]; simpl; by split. }
  rewrite search_exact. split.
  - intros (l & Hc & _ & Hl). exists l. split; [done|]. eapply Forall_impl; [exact Hl|]. intros p. apply Z.eqb_neq.
  - intros (l & Hc & Hl). exists l. split; [done|]. split; [by eapply chain_length|]. eapply Forall_impl; [exact Hl|]. intros p. apply Z.eqb_neq.
Qed.

Lemma no_duplicate_exact what fuel : forall j, no_duplicate next lbid verID storage what fuel j = Val tt <->
  exists l, chain next storage j l /\ (length l <= fuel)%nat /\ NoDup ((fun p => (lbid p.2, verID p.2)) <$> l).
Proof.
  induction fuel as [|fuel IH]; intros j; cbn [no_duplicate]; destruct (Z.eqb_spec j (-1)) as [->|Hj].
  - split; [|done]. intros _. exists []. by repeat constructor.
  - split; [done|]. intros (l & Hc & Hl & _). destruct l; simpl in Hl; [inversion Hc; done|lia].
  - split; [|done]. intros _. exists []. split; [constructor|]. split; [simpl; lia|constructor].
  - rewrite aget_exact. split.
    + intros (e & He & Hr). apply bind_exact in Hr as ([[]|[]] & Hw & Hr); [done|]. apply search_exact in Hw as (l & Hc & _ & Hno).
      apply IH in Hr as (l' & Hc' & Hl & Hnd). rewrite (chain_det _ _ _ _ _ Hc Hc') in Hno. exists ((j, e) :: l').
      split; [by constructor|]. split; [simpl; lia|]. rewrite fmap_cons. apply NoDup_cons. split; [|done].
      intros (p & Hp & Hin)%list_elem_of_fmap. rewrite Forall_forall in Hno. specialize (Hno p Hin). simpl in Hp. injection Hp as H1 H2.
      rewrite H1, H2, !Z.eqb_refl in Hno. done.
    + intros (l & Hc & Hl & Hnd). inversion Hc as [|? e l' He Hc']; subst; [done|]. exists e. split; [done|].
      rewrite fmap_cons in Hnd. apply NoDup_cons in Hnd as [Hni Hnd]. apply bind_exact. exists (Next tt). split.
      * apply search_exact. exists l'. split; [done|]. split; [by eapply chain_length|]. apply Forall_forall. intros p Hp.
        apply not_true_iff_false. intros [H1%Z.eqb_eq H2%Z.eqb_eq]%andb_true_iff. apply Hni, list_elem_of_fmap. exists p. split; [|done].
        simpl. by rewrite H1, H2.
      * apply IH. exists l'. split; [done|]. split; [simpl in Hl; lia|done].
Qed.

Lemma each_bucket_exact n test : each_bucket buckets n test = Val tt <->
  forall b, 0 <= b < n -> exists h, zget buckets b = Some h /\ (h = -1 \/ test h = Val tt).
Proof.
  unfold each_bucket. rewrite loop_exact.
  assert (forall j, (head ← aget buckets j; if head =? -1 then Val tt else test head) = Val tt <->
    exists h, zget buckets j = Some h /\ (h = -1 \/ test h = Val tt)) as Hb.
  { intros j. rewrite aget_exact. split; intros (h & Hh & H); exists h; (split; [done|]).
    - destruct (Z.eqb_spec h (-1)); auto.
    - destruct (Z.eqb_spec h (-1)); [done|]. by destruct H. }
  split; intros H j Hj; apply Hb, H; lia.
Qed.

Lemma no_hole_exact what lwm : no_hole lbid storage what lwm = Val tt <->
  forall i, 0 <= i < lwm -> exists e, zget storage i = Some e /\ lbid e <> -1.
Proof.
  unfold no_hole. rewrite loop_exact.
  assert (forall j, (e ← aget storage j; if lbid e =? -1 then Exn (logic_error what) else Val tt) = Val tt <->
    exists e, zget storage j = Some e /\ lbid e <> -1) as Hb.
  { intros j. rewrite aget_exact. split; intros (e & He & H); exists e; (split; [done|]); destruct (Z.eqb_spec (lbid e) (-1)); done. }
  split; intros H j Hj; apply Hb, H; lia.
Qed.

(** What the tests of the buckets ask together. *)
Definition sound_buckets (n : Z) : Prop := forall b, 0 <= b < n -> exists h l, zget buckets b = Some h /\ chain next storage h l /\
  Forall (fun p => lbid p.2 <> -1) l /\ NoDup ((fun p => (lbid p.2, verID p.2)) <$> l).

Lemma buckets_exact n what what' :
  each_bucket buckets n (no_empty next lbid storage what) = Val tt /\
  each_bucket buckets n (no_duplicate next lbid verID storage what' (length storage)) = Val tt <-> sound_buckets n.
Proof.
  rewrite !each_bucket_exact. split.
  - intros [H1 H2] b Hb. destruct (H1 b Hb) as (h & Hh & He). destruct (H2 b Hb) as (h' & Hh' & Hd). assert (h' = h) as -> by congruence.
    destruct (decide (h = -1)) as [->|Hne]; [exists (-1), []; by repeat constructor|].
    destruct He as [|(l & Hc & Hl)%no_empty_exact]; [done|]. destruct Hd as [|(l' & Hc' & _ & Hnd)%no_duplicate_exact]; [done|].
    rewrite (chain_det _ _ _ _ _ Hc' Hc) in Hnd. by exists h, l.
  - intros H. split; intros b Hb; destruct (H b Hb) as (h & l & Hh & Hc & Hl & Hnd); exists h; (split; [done|]); right.
    + apply no_empty_exact. by exists l.
    + apply no_duplicate_exact. exists l. split; [done|]. split; [by eapply chain_length|done].
Qed.
End any_table.

(** What the check of the VSS asks of the table, and that of the VBBM. *)
Record vss_sound (vb : VBBM.t) (g : VSS.Seg) : Prop := {
  vs_buffered i : 0 <= i < VSS.capacity (VSS.hdr g) -> exists e, zget (VSS.storage g) i = Some e /\
    (VSS.lbid e <> -1 -> VSS.vbFlag e = true -> exists p, VBBM.lookup (VSS.lbid e) (VSS.verID e) vb = Val (Some p));
  vs_count : zlen (VSS.scan (fun _ => true) g) = VSS.currentSize (VSS.hdr g);
  vs_buckets : sound_buckets VSS.next VSS.lbid VSS.verID (VSS.hashBuckets g) (VSS.storage g) (VSS.numHashBuckets (VSS.hdr g));
  vs_full i : 0 <= i < VSS.LWM (VSS.hdr g) -> exists e, zget (VSS.storage g) i = Some e /\ VSS.lbid e <> -1 }.

Record vbbm_sound (g : VBBM.Seg) : Prop := {
  vb_buckets : sound_buckets VBBM.next VBBM.lbid VBBM.verID (VBBM.hashBuckets g) (VBBM.storage g) (VBBM.numHashBuckets (VBBM.hdr g));
  vb_full i : 0 <= i < VBBM.vbLWM (VBBM.hdr g) -> exists e, zget (VBBM.storage g) i = Some e /\ VBBM.lbid e <> -1;
  vb_slots i : 0 <= i < VBBM.vbCapacity (VBBM.hdr g) -> is_Some (zget (VBBM.storage g) i);
  vb_places i j e x : 0 <= i < j -> j < VBBM.vbCapacity (VBBM.hdr g) -> zget (VBBM.storage g) i = Some e -> zget (VBBM.storage g) j = Some x ->
    VBBM.lbid e <> -1 -> VBBM.lbid x <> -1 -> (VBBM.vbOID e, VBBM.vbFBO e) <> (VBBM.vbOID x, VBBM.vbFBO x) }.

Lemma buffered_exact vb g : buffered_known vb g = Val tt <->
  forall i, 0 <= i < VSS.capacity (VSS.hdr g) -> exists e, zget (VSS.storage g) i = Some e /\
    (VSS.lbid e <> -1 -> VSS.vbFlag e = true -> exists p, VBBM.lookup (VSS.lbid e) (VSS.verID e) vb = Val (Some p)).
Proof.
  unfold buffered_known. rewrite loop_exact.
  match goal with |- (forall j, _ -> @?b j = Val tt) <-> _ => assert (forall j, b j = Val tt <-> exists e, zget (VSS.storage g) j = Some e /\
    (VSS.lbid e <> -1 -> VSS.vbFlag e = true -> exists p, VBBM.lookup (VSS.lbid e) (VSS.verID e) vb = Val (Some p))) as Hb end.
  { intros j. cbn beta. rewrite aget_exact. split; intros (e & He & H); exists e; (split; [done|]).
    - intros Hl%Z.eqb_neq Hf. rewrite Hl, Hf in H. cbn [negb andb] in H. apply bind_exact in H as ([p|] & Hr & H); [by exists p|done].
    - destruct (Z.eqb_spec (VSS.lbid e) (-1)); [done|]. destruct (VSS.vbFlag e); [|done]. cbn [negb andb].
      destruct H as [p Hp]; [done..|]. by rewrite Hp. }
  split; intros H j Hj; apply Hb, H; lia.
Qed.

Lemma vss_check_iff vb g : vss_checkConsistency vb g = Val 0 <-> vss_sound vb g.
Proof.
  unfold vss_checkConsistency. rewrite bind_exact. split.
  - intros ([] & H1 & H). apply bind_exact in H as (z & H2 & H). apply bind_exact in H as ([] & H3 & H).
    apply bind_exact in H as ([] & H4 & H). apply bind_exact in H as ([] & H5 & _). split.
    + by apply buffered_exact.
    + unfold VSS.size in H2. destruct (Z.eqb_spec (zlen (VSS.scan (fun _ => true) g)) (VSS.currentSize (VSS.hdr g))); done.
    + by eapply buckets_exact.
    + by eapply no_hole_exact.
  - intros [H1 H2 H3 H4]. exists tt. split; [by apply buffered_exact|]. unfold VSS.size. rewrite (proj2 (Z.eqb_eq _ _) H2).
    cbn [mbind outcome_bind]. eapply buckets_exact in H3 as [H3 H5]. rewrite H3. cbn [mbind outcome_bind].
    rewrite (proj2 (no_hole_exact _ _ _ _) H4). cbn [mbind outcome_bind]. by rewrite H5.
Qed.

Lemma places_iff g : places_unique g = Val tt <->
  (forall i, 0 <= i < VBBM.vbCapacity (VBBM.hdr g) -> is_Some (zget (VBBM.storage g) i)) /\
  forall i j e x, 0 <= i < j -> j < VBBM.vbCapacity (VBBM.hdr g) -> zget (VBBM.storage g) i = Some e -> zget (VBBM.storage g) j = Some x ->
    VBBM.lbid e <> -1 -> VBBM.lbid x <> -1 -> (VBBM.vbOID e, VBBM.vbFBO e) <> (VBBM.vbOID x, VBBM.vbFBO x).
Proof.
  unfold places_unique. set (cap := VBBM.vbCapacity (VBBM.hdr g)). rewrite loop_exact. split.
  - intros H.
    assert (forall i, 0 <= i < cap -> exists e, zget (VBBM.storage g) i = Some e /\ (VBBM.lbid e <> -1 -> forall j x, i < j < cap ->
      zget (VBBM.storage g) j = Some x -> VBBM.lbid x <> -1 -> (VBBM.vbOID e, VBBM.vbFBO e) <> (VBBM.vbOID x, VBBM.vbFBO x))) as Hi.
    { intros i Hi. specialize (H i ltac:(lia)). apply aget_exact in H as (e & He & H). exists e. split; [done|]. intros Hl j x Hj Hx Hlx [= H1 H2].
      rewrite (proj2 (Z.eqb_neq _ _) Hl) in H. rewrite loop_exact in H. specialize (H j ltac:(lia)). apply aget_exact in H as (x' & Hx' & H).
      rewrite Hx in Hx'. injection Hx' as <-. rewrite (proj2 (Z.eqb_neq _ _) Hlx), H1, H2, !Z.eqb_refl in H. done. }
    split; [intros i Hc; destruct (Hi i Hc) as (e & He & _); by eauto|].
    intros i j e x Hij Hj He Hx Hl Hlx. destruct (Hi i ltac:(lia)) as (e' & He' & Hd). rewrite He in He'. injection He' as <-. eapply (Hd Hl j x); [lia|done..].
  - intros [Hs Hp] i Hi. destruct (Hs i ltac:(lia)) as [e He]. apply aget_exact. exists e. split; [done|].
    destruct (Z.eqb_spec (VBBM.lbid e) (-1)); [done|]. apply loop_exact. intros j Hj. destruct (Hs j ltac:(lia)) as [x Hx]. apply aget_exact.
    exists x. split; [done|]. destruct (Z.eqb_spec (VBBM.lbid x) (-1)); [done|].
    destruct (Z.eqb_spec (VBBM.vbOID x) (VBBM.vbOID e)) as [H1|], (Z.eqb_spec (VBBM.vbFBO x) (VBBM.vbFBO e)) as [H2|]; try done.
    exfalso. apply (Hp i j e x); try done; [lia|lia|]. by rewrite H1, H2.
Qed.

Lemma vbbm_check_iff s : vbbm_checkConsistency s = Val 0 <-> vbbm_sound (VBBM.seg s).
Proof.
  unfold vbbm_checkConsistency. rewrite bind_exact. split.
  - intros ([] & H1 & H). apply bind_exact in H as ([] & H2 & H). apply bind_exact in H as ([] & H3 & H). apply bind_exact in H as ([] & H4 & _).
    apply places_iff in H4 as [H4 H5]. split; [by eapply buckets_exact|by eapply no_hole_exact|done|done].
  - intros [H1 H2 H3 H4]. eapply buckets_exact in H1 as [H1 H5]. exists tt. split; [exact H1|].
    rewrite (proj2 (no_hole_exact _ _ _ _) H2). cbn [mbind outcome_bind]. rewrite H5. cbn [mbind outcome_bind].
    by rewrite (proj2 (places_iff _) (conj H3 H4)).
Qed.

(** C26. The consistency check of a worker whose segments are attached, on any tables at
    all: it returns 0 exactly when the extent map's check returns and the two version tables
    have every property their checks are about: every VSS entry with its version-buffer flag
    set is found in the VBBM, the recorded number of VSS entries is the number of entries in
    use, in both tables every hash bucket heads a finite list of entries in use with
    different keys and every slot below the low-water mark is in use, and no two VBBM entries
    in use have the same place in the version buffer. *)
Theorem consistency_check_exact w :
  VBBM.allocdSize (SlaveNode.vbbm (Worker.nd w)) <> 0 -> VSS.allocdSize (SlaveNode.vss (Worker.nd w)) <> 0 ->
  (checkConsistency w).1 = Val 0 <->
  (exists z, (ExtentPart.checkConsistency (Worker.emap w)).1 = Val z) /\
  vss_sound (SlaveNode.vbbm (Worker.nd w)) (VSS.seg (SlaveNode.vss (Worker.nd w))) /\
  vbbm_sound (VBBM.seg (SlaveNode.vbbm (Worker.nd w))).
Proof.
  intros Hvb Hvs. rewrite <- vss_check_iff, <- vbbm_check_iff.
  assert (forall n, SlaveNode.vbbm n = SlaveNode.vbbm (Worker.nd w) -> SlaveNode.attach_vbbm n = (Val tt, n)) as Hb.
  { intros n Hn. unfold SlaveNode.attach_vbbm, gets, mbind, M_bind. by rewrite Hn, (proj2 (Z.eqb_neq _ _) Hvb). }
  assert (SlaveNode.attach_vss (Worker.nd w) = (Val tt, Worker.nd w)) as Hv.
  { unfold SlaveNode.attach_vss, gets, mbind, M_bind. by rewrite (proj2 (Z.eqb_neq _ _) Hvs). }
  assert (forall z, vss_checkConsistency (SlaveNode.vbbm (Worker.nd w)) (VSS.seg (SlaveNode.vss (Worker.nd w))) = Val z -> z = 0) as Z1.
  { unfold vss_checkConsistency. intros z H. repeat (apply bind_exact in H as (? & _ & H)). by injection H. }
  assert (forall z, vbbm_checkConsistency (SlaveNode.vbbm (Worker.nd w)) = Val z -> z = 0) as Z2.
  { unfold vbbm_checkConsistency. intros z H. repeat (apply bind_exact in H as (? & _ & H)). by injection H. }
  unfold checkConsistency, Worker.guarded, Worker.inEM, Worker.inNode, zoom, try_catch, mbind, M_bind, lift.
  destruct (ExtentPart.checkConsistency (Worker.emap w)) as [[z|e|x] s'] eqn:He; cbn [fst snd mret M_ret Worker.nd Worker.emap];
    [|by split; [|intros ([? ?] & _)]..].
  rewrite (Hb (Worker.nd w)) by done. rewrite Hv.
  destruct (vss_checkConsistency _ _) as [z1|e1|x1] eqn:H1; cbn [fst snd mret M_ret Worker.nd Worker.emap];
    [|by split; [|intros (_ & ? & _)]..].
  rewrite (Hb (Worker.nd w)) by done.
  destruct (vbbm_checkConsistency _) as [z2|e2|x2] eqn:H2; cbn [fst snd mret M_ret Worker.nd Worker.emap];
    [|by split; [|intros (_ & _ & ?)]..].
  rewrite (Z1 z1 eq_refl), (Z2 z2 eq_refl). split; [intros _; by eauto|done].
Qed.

(** ** The tables of a worker *)
Lemma w1_check_run : (checkConsistency WorkerClaims.w1).1 = Val 0.
Proof. vm_compute. reflexivity. Qed.

Lemma w1_marks : marks_ok (Worker.nd WorkerClaims.w1).
Proof. split; vm_compute; congruence. Qed.

Lemma w1_checkable : em_checkable (Worker.emap WorkerClaims.w1).
Proof.
  change (Worker.emap WorkerClaims.w1) with EmFacts.em1. split; [reflexivity|].
  split; [rewrite (EmFacts.em1_em); by intros k e [<- <-]%lookup_singleton_Some|]. split; [vm_compute; reflexivity|].
  intros (r & k & e & Hr & Hw & _). assert (EmThms.ranges (ExtentMap.mem EmFacts.em1) = [ExtentMap.mkRange 8192 (2 ^ 26 - 8)]) as Heq by (vm_compute; reflexivity).
  rewrite Heq in Hr. apply list_elem_of_singleton in Hr as ->. by vm_compute in Hw.
Qed.

Lemma consistency_check_exact_witness :
  vss_sound (SlaveNode.vbbm (Worker.nd WorkerClaims.w1)) (VSS.seg (SlaveNode.vss (Worker.nd WorkerClaims.w1))).
Proof. apply (consistency_check_exact WorkerClaims.w1); [vm_compute; congruence..|]. exact w1_check_run. Defined.

Lemma worker_check_exact_witness : checkConsistency WorkerClaims.w1 = (Val 0, WorkerClaims.w1).
Proof.
  destruct (worker_check_exact WorkerClaims.w1 WorkerClaims.w1_steady w1_marks w1_checkable) as (c & Hrun & Hc).
  pose proof w1_check_run as Hr. rewrite Hrun in Hr. cbn [fst] in Hr. injection Hr as ->. exact Hrun.
Defined.
End CheckThms.
