(* ===== verification/CommClaims.v ===== *)
(** * Clients, controller and workers together: properties

    Every request of the client library reaches the tables of a worker as the client
    meant it; a client that creates an extent gets the extent that all workers have; a
    client asks at most three times.  At the end: a system with two workers, on which
    the theorems are applied. *)

From S2P Require Import Prelude Hasher Bytes ByteStream Vss SlaveNode Persist ExtentMap ExtentCP ExtentHwm ExtentPart EmFacts Worker Messages SlaveComm Dbrm CommThms CommSteps SessionManager OidServer ResourceGraph Controller ControllerThms ControllerClaims WorkerThms WorkerClaims.
From stdpp Require Import prelude gmap strings sorting.
Local Open Scope Z_scope.

Module CommClaims.
Import Messages SlaveComm CommThms CommSteps Controller ControllerThms ControllerClaims.

Section claims.
Context {IO : ExtentMap.IterOrder}.
Context (others : SlaveNode.node -> SlaveNode.node) (emsg : stream -> Worker.worker -> list Z)
  (set0 : ExtentCP.CPMaxMin) (merge0 : ExtentCP.CPMaxMinMerge) (procStat : Z -> Z -> option (list Z)) (pads : Worker.Pads)
  (order : gset RG.node -> list RG.node) (cpads : Dbrm.Pads).

Abbreviation handle h := (h others emsg set0 merge0 procStat pads).
Abbreviation means := (meaning cpads others emsg set0 merge0).

(** C12. The worker understands the client: the bytes that a method of the client library
    sends, with arguments of its parameter types, make the worker's dispatcher call
    the operation of that method with these arguments.  The exceptions are written out
    in [meaning]: the partition number of a stripe is cut to 16 bits, the column
    width and the 128 bit bounds of a merge are not in its message, and neither is the
    new-file flag of [deleteEmptyColExtents]; the segment number of
    [createColumnExtent_DBroot] is sent but only the result counts. *)
Theorem worker_understands_client r c :
  request_ok cpads r ->
  handle processCommand (encode cpads r) c =
  perform cpads others emsg set0 merge0 r (if firstSlave c then set_delta (encode cpads r) c else c).
Proof. intros Hok. by apply CommReads.request_understood. Qed.

(** ** The client on a controller *)

(** A client's exchange with the controller: its message is processed, and the last
    reply is read. *)
Definition call (msg : stream) : M ctl stream :=
  handle msgProcessor order 1 msg ;; gets (fun c => default [] (last (answers c))).

Context (connect : M ctl unit).

Lemma send_recv_run cmd c out c' :
  call cmd c = (Val out, c') -> out <> [] ->
  Dbrm.send_recv connect call cmd (Dbrm.mkClient true c) = (Val (ERR_OK, out), Dbrm.mkClient true c').
Proof.
  intros Hc Ho. unfold Dbrm.send_recv. cbn [Dbrm.attempt]. rewrite (bind_Val (Dbrm.getInstance connect) _ (Dbrm.mkClient true c) true (Dbrm.mkClient true c) eq_refl).
  cbn [negb]. erewrite bind_Val; [|unfold try_catch, Dbrm.inNet, zoom, mbind, M_bind; cbn; rewrite Hc; reflexivity].
  cbn beta iota. assert (zlen out =? 0 = false) as -> by (apply Z.eqb_neq; destruct out; [done|]; unfold zlen; simpl; lia). done.
Qed.

Definition extent_ok (x : Z * Z * (Z * Z * Z)) : Prop :=
  let '(lbid, size, (part, seg, off)) := x in is_i64 lbid /\ is_i32 size /\ is_u32 part /\ is_u16 seg /\ is_u32 off.

(** What the client is told: the place, the first LBID, the size and the offset. *)
Definition told (x : option (Z * Z * (Z * Z * Z))) : Z * option (Z * Z * Z * Z * Z) :=
  match x with
  | Some (lbid, size, (part, seg, off)) => (0, Some (part, seg, lbid, size, off))
  | None => (255, None)
  end.

Lemma reads_extent lbid size part seg off :
  extent_ok (lbid, size, (part, seg, off)) ->
  reads Dbrm.get_extent (put32 part ++ put16 seg ++ put64 lbid ++ put32 size ++ put32 off) (part, seg, lbid, size, off).
Proof. intros (? & ? & ? & ? & ?). unfold Dbrm.get_extent. by read_fields. Qed.

(** C15. A client creates a column extent, end to end: [createColumnExtent_DBroot] of
    the client library, through the controller, gives the client exactly the extent
    that the extent map of the workers allocated, or an error when it could not; in
    both cases all workers have the same tables afterwards, those of one worker that
    confirmed or undid the operation.  The network works, the OID is a user's (3000 or
    more), and the workers' operation, confirmation and undoing return. *)
Theorem client_creates_column B n w w1 w2 J c oid width root part seg ty x :
  let r := CreateColumn oid width root part seg ty in
  system B n w J c -> request_ok cpads r -> 3000 <= oid -> 0 < n -> 4 <= B -> zlen (encode cpads r) <= B ->
  Worker.createColumnExtent_DBroot oid width root ty part w = (Val x, w1) ->
  match x with
  | Some e => extent_ok e /\ Worker.confirmChanges w1 = (Val tt, w2)
  | None => Worker.undoChanges w1 = (Val tt, w2)
  end ->
  exists c' J', Dbrm.createColumnExtent_DBroot connect call oid width root part seg ty (Dbrm.mkClient true c) =
      (Val (told x), Dbrm.mkClient true c') /\ system B (n - 1) w2 J' c'.
Proof.
  intros r Hsys Hok Hoid Hn HB Hsz Hcr Hx.
  set (err := match x with Some _ => 0 | None => -1 end). set (out := match x with Some e => default [] (match put_column e with Val o => Some o | _ => None end) | None => [] end).
  assert (forall first flush, means r first flush w = (Val (err, out), w1)) as Hm.
  { intros first flush. simpl. unfold results, mbind, M_bind. rewrite Hcr. by destruct x as [[[lbid size] [[p sg] off]]|]. }
  assert (finish r err w1 = (Val tt, w2)) as Hf by (destruct x as [e|]; simpl in *; [apply Hx|exact Hx]).
  destruct (command_run others emsg set0 merge0 procStat pads order cpads B n r w J c err out w1 w2) as (c' & Hrun & Hs' & Ha); try done.
  { simpl. apply Z.ltb_ge. lia. }
  { by destruct x. }
  exists c', (J ++ if logged r err then entry (encode cpads r) else []). split; [|done].
  assert (call (encode cpads r) c = (Val (put8 err ++ out), c')) as Hcall.
  { unfold call. rewrite (bind_Val _ _ _ _ _ Hrun). unfold gets. by rewrite Ha, last_snoc. }
  unfold Dbrm.createColumnExtent_DBroot, Dbrm.with_results. change (Dbrm.cmd_createColumnExtent_DBroot oid width root part seg ty) with (encode cpads r).
  rewrite (bind_Val _ _ _ _ _ (send_recv_run _ _ _ _ Hcall ltac:(done))). cbn beta iota.
  assert (zlen (put8 err ++ out) =? 0 = false) as -> by (apply Z.eqb_neq; unfold zlen; simpl; lia).
  change (negb (ERR_OK =? ERR_OK)) with false. cbn iota. unfold try_catch, Dbrm.from_reply, lift.
  destruct x as [[[lbid size] [[p sg] off]]|]; [|reflexivity]. destruct Hx as [He _].
  rewrite (bind_Val get8 _ (put8 err ++ out) 0 out eq_refl). cbn [Z.eqb negb].
  rewrite <- (app_nil_r out). unfold out. cbn [put_column default]. unfold id, mbind at 1, M_bind at 1.
  by rewrite (reads_extent _ _ _ _ _ He []).
Qed.
End claims.

(** ** How often a client asks *)
Section rounds.
Context {S : Type} (connect : M S unit) (exchange : stream -> M S stream).

(** The exchange, with the number of its calls. *)
Definition counting (cmd : stream) : M (nat * S) stream := fun st =>
  let '(r, s') := exchange cmd st.2 in (r, (Datatypes.S st.1, s')).
Definition connecting : M (nat * S) unit := zoom snd (fun s st => (st.1, s)) connect.

Definition no_fault {A} (m : M S A) : Prop := forall s f, (m s).1 <> Fault f.
Context (Hc : no_fault connect) (Hx : forall cmd, no_fault (exchange cmd)).

Definition rounds (first second : bool) : nat :=
  match first, second with true, true => 3 | true, false => 2 | false, true => 2 | false, false => 1 end.

(** A result with a reply, or a network error without one. *)
Definition sound (r : Z * stream) : Prop := r.1 = ERR_OK /\ r.2 <> [] \/ r = (ERR_NETWORK, []).
Abbreviation count c := ((Dbrm.net c).1).

Lemma attempt_bound cmd n : forall first second c, (rounds first second <= n)%nat ->
  exists r c', Dbrm.attempt connecting counting n first second cmd c = (Val r, c') /\
    (count c' <= count c + rounds first second)%nat /\ sound r.
Proof.
  induction n as [|n IH]; intros first second c Hn; [by destruct first, second; simpl in Hn; lia|]. cbn [Dbrm.attempt].
  assert (exists b c0, Dbrm.getInstance connecting c = (Val b, c0) /\ count c0 = count c) as (b & c0 & Hi & Hc0).
  { unfold Dbrm.getInstance. rewrite (bind_Val (gets _) _ _ _ _ eq_refl). destruct (Dbrm.msgClient c); [by exists true, c|].
    unfold try_catch, Dbrm.inNet, connecting, zoom, modify, mbind, M_bind. pose proof (Hc (Dbrm.net c).2) as Hf.
    destruct (connect (Dbrm.net c).2) as [[a|e|f] s']; [eexists true, _; split; [reflexivity|done]|eexists false, _; split; [reflexivity|done]|by destruct (Hf f)]. }
  rewrite (bind_Val _ _ _ _ _ Hi). destruct b; cbn [negb]; [|eexists _, c0; split; [done|]; split; [lia|by right]].
  assert (exists o c1, try_catch (out ← Dbrm.inNet (counting cmd); mret (Some out)) (fun _ => mret None) c0 = (Val o, c1) /\
    count c1 = Datatypes.S (count c)) as (o & c1 & Hr & Hc1).
  { unfold try_catch, Dbrm.inNet, counting, zoom, mbind, M_bind. pose proof (Hx cmd (Dbrm.net c0).2) as Hf.
    destruct (exchange cmd (Dbrm.net c0).2) as [[a|e|f] s']; [eexists (Some a), _|eexists None, _|by destruct (Hf f)]; (split; [reflexivity|simpl; by rewrite <- Hc0]). }
  rewrite (bind_Val _ _ _ _ _ Hr). assert (forall second', (rounds false second' < rounds first second)%nat ->
    exists r c', Dbrm.attempt connecting counting n false second' cmd (Dbrm.set_msgClient false c1) = (Val r, c') /\
      (count c' <= count c + rounds first second)%nat /\ sound r) as Hagain.
  { intros second' Hlt. destruct (IH false second' (Dbrm.set_msgClient false c1)) as (r & c' & Hrun & Hle & Hs); [lia|].
    exists r, c'. split; [done|]. change (count (Dbrm.set_msgClient false c1)) with (count c1) in Hle. split; [lia|done]. }
  assert (forall c2 : Dbrm.client (S := nat * S), count c2 = Datatypes.S (count c) -> (count c2 <= count c + rounds first second)%nat) as Hone.
  { assert (1 <= rounds first second)%nat by (clear; destruct first, second; simpl; lia). intros. lia. }
  destruct o as [out|].
  - destruct (Z.eqb_spec (zlen out) 0) as [Hz|Hz].
    + rewrite (bind_Val (modify _) _ _ _ _ eq_refl). destruct second; [apply Hagain; destruct first; simpl; lia|].
      eexists _, _. split; [reflexivity|]. split; [by apply Hone|by right].
    + eexists _, c1. split; [reflexivity|]. split; [by apply Hone|]. left. split; [done|]. simpl. intros ->. done.
  - rewrite (bind_Val (modify _) _ _ _ _ eq_refl). destruct first; [apply Hagain; destruct second; simpl; lia|].
    eexists _, _. split; [reflexivity|]. split; [by apply Hone|by right].
Qed.

(** [send_recv] always returns, after at most three exchanges with the controller: a
    reply that is not empty, or [ERR_NETWORK]. *)
Theorem client_asks_at_most_three_times cmd c :
  exists r c', Dbrm.send_recv connecting counting cmd c = (Val r, c') /\ (count c' <= count c + 3)%nat /\ sound r.
Proof. apply (attempt_bound cmd 4 true true c). simpl. lia. Qed.
End rounds.

(** ** A controller with two workers *)
Definition set1 : ExtentCP.CPMaxMin := ExtentCP.mkCPMaxMin 0 0 0 0 0 false.
Definition merge1 : ExtentCP.CPMaxMinMerge := ExtentCP.mkCPMaxMinMerge 0 0 0 ExtentMap.INT 8 false 0 0.
Definition cpads0 : Dbrm.Pads :=
  Dbrm.mkPads (fun _ => [0; 0]) (fun _ => replicate 6 0) (fun _ => replicate 4 0) (fun _ => replicate 15 0) (fun _ => replicate 11 0).
Definition order0 (s : gset RG.node) : list RG.node := elements s.

Definition link0 : Link := mkLink true (fun _ => true) 0 [].
Definition dev0 (bs : list Z) : FileIO.Dev := FileIO.mkDev true (fun _ => 1000000) 0 bs.
Definition disk0 : Disk := mkDisk WorkerClaims.files0 WorkerClaims.files0 (dev0 []) (dev0 []) true true.
Definition two (w : Worker.worker) : list comm :=
  [worker_comm w link0 disk0 [] true 100000 1; worker_comm w link0 disk0 [] false 0 2].
Definition sm0 : SessionManager.t :=
  SessionManager.mk 10 10 0 0 0 ∅ 0 0 (SessionManager.mkDisk None true true true true true).
Definition oids0 : OIDServer.t := OIDServer.mk [] [] [1; 0; 3; 0] [3] None.
Definition fine : Env := mkEnv (fun _ => false) (fun _ => false) (fun _ => false).
Definition ctl0 (o : OIDServer.t) (e : Env) : ctl := mkCtl (two WorkerClaims.w1) sm0 o RG.empty_graph false false false 0 [] [] e 0.

Lemma ctl0_idle o e : idle 1000000 50 WorkerClaims.w1 [] (ctl0 o e).
Proof.
  split; try done. repeat constructor; try done; try (intros k; simpl; lia); right; simpl; lia.
Qed.

Lemma ctl0_system o : system 1000000 50 WorkerClaims.w1 [] (ctl0 o fine).
Proof. split; [done|]. apply ctl0_idle. Qed.

(** A step as one worker makes it. *)
Abbreviation means0 := (meaning cpads0 (fun n => n) (fun _ _ => []) set1 merge1).
Definition step (r : Request) (w : Worker.worker) : Step :=
  let '(res, mid) := means0 r true true w in
  match res with
  | Val (err, out) => mkStep r err out w mid (finish r err mid).2
  | _ => mkStep r 0 [] w mid mid
  end.
Lemma step_before r w : st_before (step r w) = w.
Proof. unfold step. by destruct (means0 r true true w) as [[[]| |] ?]. Qed.

Definition s1 : Step := step (CreateColumn 3101 8 1 0 0 ExtentMap.INT) WorkerClaims.w1.
Definition s2 : Step := step (DeleteOIDs [-3]) (st_after s1).
Definition s3 : Step := step (VbCommit 5) (st_after s2).

Ltac in_range := unfold request_ok, oids_ok, ranges_ok, range_ok, count32, count64, is_i32, is_i64, is_u32, is_u16, zlen; simpl;
  repeat (split || apply Forall_cons || apply Forall_nil); try done; lia.
Ltac step_holds s r := assert (st_req s = r) as Hr by (vm_compute; reflexivity); split; rewrite ?Hr;
  [in_range|by vm_compute|done|done|by intros first flush; vm_compute|vm_compute; congruence|by vm_compute].

Lemma s1_ok : step_ok (fun n => n) (fun _ _ => []) set1 merge1 cpads0 1000000 s1.
Proof. step_holds s1 (CreateColumn 3101 8 1 0 0 ExtentMap.INT). Qed.
Lemma s2_ok : step_ok (fun n => n) (fun _ _ => []) set1 merge1 cpads0 1000000 s2.
Proof. step_holds s2 (DeleteOIDs [-3]). Qed.
Lemma s3_ok : step_ok (fun n => n) (fun _ _ => []) set1 merge1 cpads0 1000000 s3.
Proof. step_holds s3 (VbCommit 5). Qed.

Lemma history0 : history (fun n => n) (fun _ _ => []) set1 merge1 cpads0 1000000 [s1; s2; s3] WorkerClaims.w1 (st_after s3).
Proof.
  split; [apply step_before|]. split; [apply s1_ok|]. split; [apply step_before|]. split; [apply s2_ok|].
  split; [apply step_before|]. split; [apply s3_ok|]. reflexivity.
Qed.

Abbreviation run0 h := (h (fun n => n) (fun _ _ => []) set1 merge1 (fun _ _ => None) WorkerClaims.pads0).

Lemma worker_understands_client_witness :
  let r := SetMaxMin (-5) 7 (-7) 3 in
  request_ok cpads0 r /\
  run0 processCommand (encode cpads0 r) (worker_comm WorkerClaims.w1 link0 disk0 [] false 0 2) =
  perform cpads0 (fun n => n) (fun _ _ => []) set1 merge1 r (worker_comm WorkerClaims.w1 link0 disk0 [] false 0 2).
Proof.
  assert (request_ok cpads0 (SetMaxMin (-5) 7 (-7) 3)) as H by in_range.
  split; [exact H|].
  exact (worker_understands_client (fun n => n) (fun _ _ => []) set1 merge1 (fun _ _ => None) WorkerClaims.pads0 cpads0 _
    (worker_comm WorkerClaims.w1 link0 disk0 [] false 0 2) H).
Defined.

Lemma controller_is_one_worker_witness :
  exists c', for_each (message cpads0 <$> [s1; s2; s3]) (run0 msgProcessor order0 1) (ctl0 oids0 fine) = (Val tt, c') /\
    Forall (fun y => slave y = st_after s3) (slaves c') /\ answers c' = [reply_of s1; [255]; [0]].
Proof.
  destruct (controller_is_one_worker (fun n => n) (fun _ _ => []) set1 merge1 (fun _ _ => None) WorkerClaims.pads0 order0 cpads0 1000000 50
    [s1; s2; s3] WorkerClaims.w1 (st_after s3) [] (ctl0 oids0 fine) history0 (ctl0_system oids0)) as (c' & Hrun & [_ Hi] & Ha).
  - vm_compute. congruence.
  - lia.
  - exists c'. split; [exact Hrun|]. split.
    + eapply Forall_impl; [exact (id_slaves _ _ _ _ _ Hi)|]. intros y Hy. exact (rd_slave _ _ _ _ _ Hy).
    + rewrite Ha. vm_compute. reflexivity.
Defined.

Lemma journal_reproduces_worker_witness :
  exists c', run0 replayJournal (dev0 (journal_of cpads0 [s1; s2; s3])) (standalone_comm WorkerClaims.w1 link0 disk0 [] 1) = (Val 2, c') /\
    slave c' = st_after s3.
Proof.
  destruct (journal_reproduces_worker (fun n => n) (fun _ _ => []) set1 merge1 (fun _ _ => None) WorkerClaims.pads0 cpads0 1000000
    [s1; s2; s3] WorkerClaims.w1 (st_after s3) (standalone_comm WorkerClaims.w1 link0 disk0 [] 1) (dev0 (journal_of cpads0 [s1; s2; s3])) history0)
    as (c' & Hrun & Hc').
  - apply Forall_cons; split; [intros H; vm_compute in H; discriminate H|]. apply Forall_cons; split; [intros _; vm_compute; reflexivity|].
    apply Forall_cons; split; [intros H; vm_compute in H; discriminate H|]. apply Forall_nil; exact I.
  - done.
  - done.
  - intros k. simpl. lia.
  - lia.
  - done.
  - exists c'. split; [|exact Hc']. rewrite Hrun. vm_compute. reflexivity.
Defined.

(** The second worker cannot be reached. *)
Definition broken1 : Env := mkEnv (fun k => (k =? 1)%nat) (fun _ => false) (fun _ => false).

(** What the first worker has after a column was created and undone. *)
Definition w1_undone : Worker.worker := (Worker.undoChanges (st_mid s1)).2.

Lemma network_failure_stops_witness :
  exists c' y x, run0 msgProcessor order0 1 (encode cpads0 (CreateColumn 3101 8 1 0 0 ExtentMap.INT)) (ctl0 oids0 broken1) = (Val tt, c') /\
    answers c' = [put8 ERR_NETWORK] /\ readOnly c' = true /\ slaves c' = [y; x] /\ slave x = WorkerClaims.w1 /\ slave y = w1_undone /\
    ExtentMap.em (Worker.emap (slave y)) = ExtentMap.em (Worker.emap WorkerClaims.w1) /\
    ExtentMap.mem (Worker.emap (slave y)) = ExtentMap.mem (Worker.emap WorkerClaims.w1).
Proof.
  destruct (network_failure_stops (fun n => n) (fun _ _ => []) set1 merge1 (fun _ _ => None) WorkerClaims.pads0 order0 cpads0 1000000 50
    (CreateColumn 3101 8 1 0 0 ExtentMap.INT) WorkerClaims.w1 (st_mid s1) w1_undone WorkerClaims.w1 [] (ctl0 oids0 broken1)
    [worker_comm WorkerClaims.w1 link0 disk0 [] true 100000 1] (worker_comm WorkerClaims.w1 link0 disk0 [] false 0 2) [] (st_err s1) (st_out s1))
    as (c' & pre' & x' & Hrun & Ha & Hr & Hs & Hl & Hp & Hx & _).
  - apply ctl0_idle.
  - done.
  - in_range.
  - done.
  - done.
  - intros first flush. vm_compute. reflexivity.
  - vm_compute. reflexivity.
  - vm_compute. reflexivity.
  - intros j Hj. simpl in *. destruct j; [done|lia].
  - done.
  - done.
  - intros j Hj. simpl in *. destruct j as [|[|j]]; [lia|lia|done].
  - destruct pre' as [|y [|]]; [discriminate Hl| |discriminate Hl]. rewrite Forall_singleton in Hp.
    exists c', y, x'. split_and!; [exact Hrun|exact Ha|exact Hr|exact Hs|exact Hx|exact Hp|rewrite Hp; vm_compute; reflexivity..].
Defined.

(** Two replies that differ. *)
Definition ctl_differ : ctl := mkCtl (two WorkerClaims.w1) sm0 oids0 RG.empty_graph false false true 0 [[0]; [255]] [] fine 0.

Lemma inconsistency_is_final_witness :
  exists code c', run0 exchange 2 (encode cpads0 (VbCommit 5)) ctl_differ = (Val (inl code), c') /\
    code = ERR_SLAVE_INCONSISTENCY /\ readOnly c' = true.
Proof.
  destruct (run0 exchange 2 (encode cpads0 (VbCommit 5)) ctl_differ) as [[[code|nx]|e|f] c'] eqn:Hrun; try (vm_compute in Hrun; congruence).
  exists code, c'. split; [reflexivity|].
  apply (inconsistency_is_final (fun n => n) (fun _ _ => []) set1 merge1 (fun _ _ => None) WorkerClaims.pads0 2 (encode cpads0 (VbCommit 5)) ctl_differ);
    [|exact Hrun].
  split; [vm_compute; reflexivity|]. exists 0, [], [[255]]. reflexivity.
Defined.

(** The bitmap file of the OID server cannot be written. *)
Lemma begin_copy_error_blocks_witness :
  let o := OIDServer.set_writes (Some 0%nat) oids0 in
  exists c', run0 msgProcessor order0 1 (encode cpads0 (BeginVBCopy 5 2 [VSS.mkRange 7 1])) (ctl0 o fine) = (Val tt, c') /\
    answers c' = [put8 (-1)] /\ (run0 msgProcessor order0 1 (encode cpads0 (VbCommit 5)) c').1 = Fault SelfDeadlock.
Proof.
  destruct (begin_copy_error_blocks (fun n => n) (fun _ _ => []) set1 merge1 (fun _ _ => None) WorkerClaims.pads0 order0 cpads0 1000000 50
    WorkerClaims.w1 [] (ctl0 (OIDServer.set_writes (Some 0%nat) oids0) fine) 5 2 [VSS.mkRange 7 1]
    (match (OIDServer.allocVBOID 2 (OIDServer.set_writes (Some 0%nat) oids0)).1 with Exn e => e | _ => bad_alloc end)
    (OIDServer.allocVBOID 2 (OIDServer.set_writes (Some 0%nat) oids0)).2) as (c' & Hrun & Ha & _ & Hb).
  - apply ctl0_idle.
  - split; vm_compute; congruence.
  - vm_compute. reflexivity.
  - vm_compute. reflexivity.
  - exists c'. split_and!; [exact Hrun|exact Ha|exact (Hb 0%nat (VbCommit 5))].
Defined.

Lemma client_creates_column_witness :
  exists c' J', Dbrm.createColumnExtent_DBroot (mret tt) (run0 call order0) 3101 8 1 0 0 ExtentMap.INT (Dbrm.mkClient true (ctl0 oids0 fine)) =
      (Val (0, Some (0, 0, 8192, 8192, 0)), Dbrm.mkClient true c') /\
    system 1000000 49 (st_after s1) J' c'.
Proof.
  apply (client_creates_column (fun n => n) (fun _ _ => []) set1 merge1 (fun _ _ => None) WorkerClaims.pads0 order0 cpads0 (mret tt) 1000000 50
    WorkerClaims.w1 (st_mid s1) (st_after s1) [] (ctl0 oids0 fine) 3101 8 1 0 0 ExtentMap.INT (Some (8192, 8192, (0, 0, 0))));
    [apply ctl0_system|in_range|lia|lia|lia|vm_compute; congruence|vm_compute; reflexivity|].
  split; [repeat split; vm_compute; congruence|vm_compute; reflexivity].
Defined.

(** A controller that closes the connection every time. *)
Lemma client_asks_at_most_three_times_witness :
  exists r c', Dbrm.send_recv (connecting (mret tt)) (counting (fun _ => mret [])) [1] (Dbrm.mkClient true (0%nat, tt)) = (Val r, c') /\
    ((Dbrm.net c').1 <= 0 + 3)%nat /\ sound r.
Proof. apply (client_asks_at_most_three_times (S := unit) (mret tt) (fun _ => mret [])); intros; intros ? ?; done. Defined.

(** The reply of the first of two workers cannot be read; the system is resumed. *)
Definition broken2 : Env := mkEnv (fun k => (k =? 2)%nat) (fun _ => false) (fun _ => true).

(** A reply that cannot be read leaves the later workers without an undo: the
    command is repeated, and the second worker, which has executed it and still holds
    its table locks, waits for itself. *)
Theorem repeated_command_deadlocks :
  let r := run0 msgProcessor order0 2 (encode cpads0 (CreateDict 3200 2 0 0)) (ctl0 oids0 broken2) in
  r.1 = Fault SelfDeadlock /\
  (fun y => size (ExtentMap.em (Worker.emap (slave y)))) <$> slaves r.2 = [1%nat; 2%nat].
Proof. split; vm_compute; reflexivity. Qed.

(** Printing the journal executes the commands that do not look at [printOnly]. *)
Definition dbroots (w : Worker.worker) : list Z := (fun p => ExtentMap.dbRoot p.2) <$> map_to_list (ExtentMap.em (Worker.emap w)).

Fact printing_changes_tables :
  let file := dev0 (entry (encode cpads0 (BulkUpdateDBRoot [(0, 2)]))) in
  let c := standalone_comm WorkerClaims.w1 link0 disk0 [] 1 in
  (run0 printJournal file c).1 = Val 1 /\ dbroots (slave c) = [1] /\ dbroots (slave (run0 printJournal file c).2) = [2].
Proof. split_and!; vm_compute; reflexivity. Qed.
End CommClaims.
