(* ===== verification/ServicesClaims.v ===== *)
(** * The controller's services: properties

    A remote call is a local call: what a client of the library gets from a service of
    the controller, and what the call does there, are those of the operation itself. *)

From S2P Require Import Prelude Hasher Bytes ByteStream Vss SlaveNode SessionManager AutoInc TableLock ResourceGraph OidServer Persist ExtentMap ExtentCP Worker Messages SlaveComm Dbrm CommThms CommSteps Controller Services DbrmServices.
From stdpp Require Import prelude gmap strings sorting.
Local Open Scope Z_scope.

(** ** Calls of the controller's services

    A client's call, the handler of its message and the reply: a call by message does
    what the operation does, and the client gets its result. *)

Module ServicesThms.
Import Messages CommThms CommReads Services DbrmServices.

(** ** Values *)
Definition context_ok (q : Z * list Z) : Prop := is_i32 q.1 /\ Forall is_i32 q.2 /\ count64 q.2.
Definition txn_ok (t : SessionManager.TxnID) : Prop := is_i32 (SessionManager.id t).
Definition entry_ok (e : Z * SessionManager.TxnID) : Prop := is_u32 e.1 /\ txn_ok e.2.
Definition name_ok (name : list Z) : Prop := zlen name < 2 ^ 31 - 4.
Definition is_u64 (z : Z) : Prop := 0 <= z < 2 ^ 64.
Record lock_ok (x : TableLock.TableLockInfo) : Prop := {
  lo_id : is_u64 (TableLock.id x); lo_oid : is_u32 (TableLock.tableOID x); lo_name : name_ok (TableLock.ownerName x);
  lo_pid : is_u32 (TableLock.ownerPID x); lo_ses : is_i32 (TableLock.ownerSessionID x); lo_txn : is_i32 (TableLock.ownerTxnID x);
  lo_time : is_i64 (TableLock.creationTime x); lo_roots : Forall is_u32 (TableLock.dbrootList x); lo_count : count64 (TableLock.dbrootList x) }.

Lemma reads_words {A} (decode : stream -> A) (put : A -> stream) n (P : A -> Prop) v :
  (forall x, P x -> decode (put x) = x) -> (forall x, length (put x) = n) -> Forall P v -> count64 v ->
  reads (deserializeInlineVector decode n) (serializeInlineVector put v) v.
Proof.
  intros Hd Hl Hv Hc. apply reads_inline; [done|]. eapply Forall_impl; [exact Hv|]. intros x Hx. split; [by apply Hd|apply Hl].
Qed.

Lemma decode_i32_put x : is_i32 x -> decode_i32 (le_bytes 4 x) = x.
Proof. intros Hx. unfold decode_i32. rewrite field_last. by apply i32_mod. Qed.
Lemma decode_u32_put x : is_u32 x -> decode_u32 (le_bytes 4 x) = x.
Proof. intros Hx. unfold decode_u32. rewrite field_last. by apply mod_u32. Qed.
Lemma decode_u16_put x : is_u16 x -> decode_u16 (le_bytes 2 x) = x.
Proof. intros Hx. unfold decode_u16. rewrite field_last. by apply mod_u16. Qed.

Lemma reads_context q : context_ok q -> reads get_context (put_context q) q.
Proof.
  intros (H1 & H2 & Hl). unfold get_context, put_context. eapply reads_bind; [by apply reads_i32|]. destruct q as [a l].
  apply (reads_last (deserializeInlineVector decode_i32 4) (pair a)).
  by apply (reads_words _ _ _ is_i32); [exact decode_i32_put|intros; apply length_le_bytes|..].
Qed.

Lemma reads_txn t : txn_ok t -> reads get_txn (put_txn t) t.
Proof.
  intros H. unfold get_txn, put_txn. eapply reads_bind; [by apply reads_i32|]. destruct t as [i v].
  apply (reads_last get_bool (SessionManager.mkTxn i)), reads_bool.
Qed.

Lemma reads_entry e : entry_ok e -> reads get_entry (put_entry e) e.
Proof.
  intros [H1 H2]. unfold get_entry, put_entry. eapply reads_bind; [by apply reads_txn|]. destruct e as [ses t].
  by apply (reads_last get32 (fun s => (s, t))), reads_u32.
Qed.

#[local] Hint Resolve reads_txn reads_i32 reads_i64 reads_u32 reads_bool reads_type8 reads_string : reads.

Lemma reads_lockinfo x : lock_ok x -> reads get_lockinfo (put_lockinfo x) x.
Proof.
  intros []. unfold get_lockinfo, put_lockinfo.
  assert (reads get8 (put8 (TableLock.state_code (TableLock.state x))) (TableLock.state_code (TableLock.state x))) as Hst
    by (apply reads_get8; destruct (TableLock.state x); simpl; lia).
  assert (reads (deserializeInlineVector decode_u32 4) (serializeInlineVector (le_bytes 4) (TableLock.dbrootList x)) (TableLock.dbrootList x)) as Hr
    by (by apply (reads_words _ _ _ is_u32); [exact decode_u32_put|intros; apply length_le_bytes|..]).
  unfold name_ok, is_u64 in *. read_fields. destruct x as [? ? ? ? ? ? st ? ?]. cbn in *. destruct st; apply reads_ret.
Qed.

(** A reply that is read to its end. *)
Lemma all_read_reads {A} (g : M stream A) bs a : reads g bs a -> (all_read g bs).1 = Val a.
Proof. intros H. unfold all_read, idbassert, mbind, M_bind. specialize (H []). rewrite app_nil_r in H. by rewrite H. Qed.
Lemma reads_val {A} (g : M stream A) bs a : reads g bs a -> (g bs).1 = Val a.
Proof. intros H. specialize (H []). rewrite app_nil_r in H. by rewrite H. Qed.

(** ** A client and a controller *)
Definition say (rs : list stream) (s : server) : server := set_ctl (Controller.set_answers (Controller.answers (ctl s) ++ rs) (ctl s)) s.

Lemma say_nil s : say [] s = s.
Proof. destruct s as [[] ? ? ? ?]. unfold say. cbn. by rewrite app_nil_r. Qed.
Lemma say_say a b s : say b (say a s) = say (a ++ b) s.
Proof. destruct s as [[] ? ? ? ?]. unfold say. cbn. by rewrite app_assoc. Qed.

Section calls.
Context {IO : ExtentMap.IterOrder}.
Context (others : SlaveNode.node -> SlaveNode.node) (emsg : stream -> Worker.worker -> list Z)
  (set0 : ExtentCP.CPMaxMin) (merge0 : ExtentCP.CPMaxMinMerge) (procStat : Z -> Z -> option (list Z)) (pads : Worker.Pads)
  (order : gset RG.node -> list RG.node).
Context (meanwhile : server -> server) (aiOthers : AutoInc.t -> AutoInc.t) (junk : Z) (here : nat) (catalog : server -> stream)
  (reconnect : list SlaveComm.comm -> option (list SlaveComm.comm)) (connect : M server unit).

Abbreviation table := (handlers others emsg set0 merge0 procStat pads meanwhile aiOthers junk here catalog reconnect).

(** One message of the only client: its reply; a thread that waits would wait for ever. *)
Definition call (msg : stream) : M server stream :=
  w ← msgProcessor others emsg set0 merge0 procStat pads order meanwhile aiOthers junk here catalog reconnect 1 msg;
  match w with
  | None => gets (fun s => default [] (last (Controller.answers (ctl s))))
  | Some _ => fail_with SelfDeadlock
  end.

Abbreviation send := (Dbrm.send_recv connect call).
Abbreviation online s := (Dbrm.mkClient true s).

Lemma send_Val cmd s out s' :
  call cmd s = (Val out, s') -> out <> [] -> send cmd (online s) = (Val (ERR_OK, out), online s').
Proof.
  intros Hc Ho. unfold Dbrm.send_recv. cbn [Dbrm.attempt]. rewrite (bind_Val (Dbrm.getInstance connect) _ (online s) true (online s) eq_refl).
  cbn [negb]. erewrite bind_Val; [|unfold try_catch, Dbrm.inNet, zoom, mbind, M_bind; cbn; rewrite Hc; reflexivity].
  cbn beta iota. assert (zlen out =? 0 = false) as -> by (apply Z.eqb_neq; destruct out; [done|]; unfold zlen; simpl; lia). done.
Qed.

Lemma last_said out s : default [] (last (Controller.answers (ctl (say [out] s)))) = out.
Proof. unfold say. cbn. by rewrite last_snoc. Qed.

Lemma reply_run out s : reply out s = (Val tt, say [out] s).
Proof. reflexivity. Qed.

(** The code finds the handler. *)
Lemma call_run code body h s out s' :
  0 <= code < 2 ^ 8 -> code <> NEW_TXN_ID -> find (fun h => h.1 =? code) table = Some (code, h) ->
  h (put8 code ++ body) s = (Val tt, say [out] s') -> call (put8 code ++ body) s = (Val out, say [out] s').
Proof.
  intros Hc Hn Hf Hh. unfold call, msgProcessor. change (zlen (put8 code ++ body) =? 0) with false. cbn iota.
  assert (peek 1 (put8 code ++ body) = Val code) as Hp by (unfold peek; simpl; f_equal; unfold u8; rewrite Z.mod_small by lia; lia).
  rewrite (bind_Val _ _ s None (say [out] s')); [unfold gets; by rewrite last_said|].
  rewrite (bind_Val (lift _) _ s code s) by (unfold lift; by rewrite Hp). apply Z.eqb_neq in Hn as ->. rewrite Hf.
  by rewrite (bind_Val _ _ _ _ _ Hh).
Qed.

(** ** The pattern of the handlers *)
Lemma read_all_run {A} exact (g : M stream A) code body a s :
  0 <= code < 2 ^ 8 -> reads g body a -> read_all exact g (put8 code ++ body) s = (Val a, s).
Proof.
  intros Hc Hg. unfold read_all. assert (reads (get8 ;; g) (put8 code ++ body) a) as H by (eapply reads_bind; [by apply reads_get8|done]).
  specialize (H []). rewrite app_nil_r in H. rewrite H. by destruct exact.
Qed.

(** The reply to an operation [loc] whose results [enc] encodes. *)
Definition answer_of {R} (enc : R -> stream) (o : outcome R) : stream :=
  match o with Val x => put8 ERR_OK ++ enc x | _ => put8 ERR_FAILURE end.

Lemma serve_run {A R} exact (g : M stream A) (op : A -> M server stream) code body a (enc : R -> stream) (loc : M server R) s o s' :
  0 <= code < 2 ^ 8 -> reads g body a -> (forall s, op a s = (x ← loc; mret (enc x)) s) ->
  loc s = (o, s') -> (forall f, o <> Fault f) ->
  serve exact g op (put8 code ++ body) s = (Val tt, say [answer_of enc o] s').
Proof.
  intros Hc Hg Hop Hl Hf. unfold serve.
  rewrite (bind_Val (try_catch _ _) _ s (answer_of enc o) s'); [apply reply_run|].
  unfold try_catch. rewrite (bind_Val _ _ _ _ _ (read_all_run exact g code body a s Hc Hg)).
  assert ((out ← op a; mret (put8 ERR_OK ++ out)) s =
    match o with Val x => (Val (put8 ERR_OK ++ enc x), s') | Exn e => (Exn e, s') | Fault f => (Fault f, s') end) as ->.
  { unfold mbind at 1, M_bind at 1. rewrite Hop. unfold mbind, M_bind. rewrite Hl. by destruct o. }
  destruct o as [x|e|f]; [done|done|]. by destruct (Hf f).
Qed.

(** A call that is served by [loc], as the client library sees it. *)
Definition served (code : Z) (body : stream) {R} (enc : R -> stream) (loc : M server R) : Prop :=
  forall s o s', loc s = (o, s') -> (forall f, o <> Fault f) ->
    call (put8 code ++ body) s = (Val (answer_of enc o), say [answer_of enc o] s').

Lemma served_by {A R} code body exact (g : M stream A) (op : A -> M server stream) a (enc : R -> stream) (loc : M server R) :
  0 <= code < 2 ^ 8 -> code <> NEW_TXN_ID -> find (fun h => h.1 =? code) table = Some (code, serve exact g op) ->
  reads g body a -> (forall s, op a s = (x ← loc; mret (enc x)) s) -> served code body enc loc.
Proof. intros Hc Hn Hf Hg Hop s o s' Hl Ho. eapply call_run; [done|done|exact Hf|]. by eapply serve_run. Qed.

Lemma send_served {R} code body (enc : R -> stream) loc s o s' :
  served code body enc loc -> loc s = (o, s') -> (forall f, o <> Fault f) ->
  send (put8 code ++ body) (online s) = (Val (ERR_OK, answer_of enc o), online (say [answer_of enc o] s')).
Proof. intros H Hl Ho. apply send_Val; [by apply H|]. by destruct o. Qed.

(** ** The patterns of the client's methods *)
Lemma get8_ok {A} (g : M stream A) bs : ((get8 ;; g) (put8 ERR_OK ++ bs)).1 = (g bs).1.
Proof. unfold mbind, M_bind. by rewrite (reads_get8 ERR_OK ltac:(done) bs). Qed.

Lemma reading_code bs (c : @Dbrm.client server) : reading get8 (put8 ERR_OK ++ bs) c = (Val ERR_OK, c).
Proof. unfold reading, lift. by rewrite (reads_get8 ERR_OK ltac:(done) bs). Qed.

Lemma or_throw_served {R} network processing (g : M stream R) code body (enc : R -> stream) loc s o s' :
  served code body enc loc -> loc s = (o, s') -> (forall f, o <> Fault f) -> (forall x, o = Val x -> (g (enc x)).1 = Val x) ->
  or_throw connect call network processing g (put8 code ++ body) (online s) =
  (match o with Exn _ => Exn (runtime_error processing) | _ => o end, online (say [answer_of enc o] s')).
Proof.
  intros Hs Hl Ho Hg. unfold or_throw. rewrite (bind_Val _ _ _ _ _ (send_served _ _ _ _ _ _ _ Hs Hl Ho)).
  change (negb (ERR_OK =? ERR_OK)) with false. cbn iota. destruct o as [x|e|f].
  - cbn [answer_of]. rewrite (bind_Val (reading get8 _) _ _ _ _ (reading_code (enc x) _)).
    change (negb (ERR_OK =? ERR_OK)) with false. cbn iota. unfold reading, lift. by rewrite get8_ok, Hg.
  - done.
  - by destruct (Ho f).
Qed.

Lemma code_only_served network processing code body loc s o s' :
  served code body (fun _ : unit => []) loc -> loc s = (o, s') -> (forall f, o <> Fault f) ->
  code_only connect call network processing (put8 code ++ body) (online s) =
  (match o with Exn _ => Exn (runtime_error processing) | _ => o end, online (say [answer_of (fun _ => []) o] s')).
Proof.
  intros Hs Hl Ho. unfold code_only. rewrite (bind_Val _ _ _ _ _ (send_served _ _ _ _ _ _ _ Hs Hl Ho)).
  change (negb (ERR_OK =? ERR_OK)) with false. cbn iota. destruct o as [[]|e|f]; [done|done|]. by destruct (Ho f).
Qed.

Lemma oid_call_served code body loc s o s' :
  served code body put32 loc -> loc s = (o, s') -> (forall f, o <> Fault f) -> (forall x, o = Val x -> is_i32 x) ->
  oid_call connect call (put8 code ++ body) (online s) =
  (match o with Exn _ => Val (-1) | _ => o end, online (say [answer_of put32 o] s')).
Proof.
  intros Hs Hl Ho Hx. unfold oid_call. rewrite (bind_Val _ _ _ _ _ (send_served _ _ _ _ _ _ _ Hs Hl Ho)).
  change (negb (ERR_OK =? ERR_OK)) with false. cbn iota. destruct o as [x|e|f]; [|done|by destruct (Ho f)].
  unfold try_catch, reading, lift. cbn [answer_of].
  assert (reads (err ← get8; if negb (err =? ERR_OK) then mret (-1) else get_i32) (put8 ERR_OK ++ put32 x) x) as Hr.
  { eapply reads_bind; [by apply reads_get8|]. cbn. apply reads_i32. by apply Hx. }
  by rewrite (reads_val _ _ _ Hr).
Qed.

Lemma state_call_served code flags loc s o s' :
  served code (put32 flags) (fun _ : unit => []) loc -> loc s = (o, s') -> (forall f, o <> Fault f) ->
  state_call connect call code flags (online s) =
  (match o with Val _ => Val 1 | Exn _ => Val (-1) | Fault f => Fault f end, online (say [answer_of (fun _ => []) o] s')).
Proof.
  intros Hs Hl Ho. unfold state_call, try_catch. rewrite (bind_Val _ _ _ _ _ (send_served _ _ _ _ _ _ _ Hs Hl Ho)).
  destruct o as [[]|e|f]; [done|done|]. by destruct (Ho f).
Qed.
End calls.
End ServicesThms.

Module ServicesClaims.
Import Messages CommThms CommReads Services DbrmServices ServicesThms.

(** ** The calls of the client library, with their result types *)
Inductive Service : Type -> Type :=
| VerID : Service (Z * list Z)
| SysCatVerID : Service (Z * list Z)
| NewTxnID (session : Z) (block isDDL : bool) : Service SessionManager.TxnID
| Committed (t : SessionManager.TxnID) : Service SessionManager.TxnID
| RolledBack (t : SessionManager.TxnID) : Service SessionManager.TxnID
| GetTxnID (session : Z) : Service SessionManager.TxnID
| SIDTIDMap : Service (option (list (Z * SessionManager.TxnID)))
| Unique32 : Service Z
| Unique64 : Service Z
| ResetSessions : Service unit
| GetState : Service (option Z)
| SetState (flags : Z) : Service Z
| ClearState (flags : Z) : Service Z
| AllocOIDs (num : Z) : Service Z
| ReturnOIDs (start end_ : Z) : Service unit
| OidmSize : Service Z
| AllocVBOID (dbroot : Z) : Service Z
| DBRootOfVBOID (vbOID : Z) : Service Z
| VBOIDMap : Service (list Z)
| GetTableLock (tli : TableLock.TableLockInfo) : Service (Z * option (Z * list Z * Z * Z))
| ReleaseTableLock (i : Z) : Service bool
| ChangeState (i : Z) (st : TableLock.LockState) : Service bool
| ChangeOwner (i : Z) (name : list Z) (pid ses txn : Z) : Service bool
| CheckOwner (i : Z) : Service bool
| AllTableLocks : Service (list TableLock.TableLockInfo)
| ReleaseAllTableLocks : Service unit
| TableLockInfo (i : Z) : Service (option TableLock.TableLockInfo)
| StartAI (oid firstNum colWidth : Z) (ty : ExtentMap.ColDataType) : Service unit
| AIRange (oid count : Z) : Service (option Z)
| ResetAI (oid v : Z) : Service unit
| LockAI (oid : Z) : Service unit
| ReleaseAI (oid : Z) : Service unit
| DeleteAI (oid : Z) : Service unit.

(** The arguments are values of the parameter types. *)
Definition service_ok {R} (r : Service R) : Prop :=
  match r with
  | VerID | SysCatVerID | SIDTIDMap | Unique32 | Unique64 | ResetSessions | GetState | OidmSize | VBOIDMap
  | AllTableLocks | ReleaseAllTableLocks => True
  | NewTxnID ses _ _ | GetTxnID ses => is_u32 ses
  | Committed t | RolledBack t => txn_ok t
  | SetState f | ClearState f => is_u32 f
  | AllocOIDs n => is_i32 n
  | ReturnOIDs a b => is_i32 a /\ is_i32 b
  | AllocVBOID d | DBRootOfVBOID d => is_u32 d
  | GetTableLock tli => lock_ok tli
  | ReleaseTableLock i | CheckOwner i | TableLockInfo i => is_u64 i
  | ChangeState i _ => is_u64 i
  | ChangeOwner i name pid ses txn => is_u64 i /\ name_ok name /\ is_u32 pid /\ is_i32 ses /\ is_i32 txn
  | StartAI oid first width _ => is_u32 oid /\ is_u64 first /\ is_u32 width
  | AIRange oid count => is_u32 oid /\ is_u32 count
  | ResetAI oid v => is_u32 oid /\ is_u64 v
  | LockAI oid | ReleaseAI oid | DeleteAI oid => is_u32 oid
  end.

(** The result is a value of its C++ type. *)
Definition of_type {R} (r : Service R) : R -> Prop :=
  match r with
  | VerID | SysCatVerID => context_ok
  | NewTxnID _ _ _ | GetTxnID _ => txn_ok
  | Committed _ | RolledBack _ | ResetSessions | ReturnOIDs _ _ | ReleaseAllTableLocks | StartAI _ _ _ _ | ResetAI _ _
  | LockAI _ | ReleaseAI _ | DeleteAI _ => fun _ => True
  | SIDTIDMap => from_option (fun l => Forall entry_ok l /\ count31 l) True
  | Unique32 => is_u32
  | Unique64 => is_u64
  | GetState => from_option is_u32 True
  | SetState _ | ClearState _ => fun _ => True
  | AllocOIDs _ | OidmSize | AllocVBOID _ | DBRootOfVBOID _ => is_i32
  | VBOIDMap => fun l => Forall is_u16 l /\ count64 l
  | GetTableLock _ => fun x => is_u64 x.1 /\
      from_option (fun o => let '(pid, name, ses, txn) := o in is_u32 pid /\ name_ok name /\ is_i32 ses /\ is_i32 txn) True x.2
  | ReleaseTableLock _ | ChangeState _ _ | ChangeOwner _ _ _ _ _ | CheckOwner _ => fun _ => True
  | AllTableLocks => fun l => Forall lock_ok l /\ count64 l
  | TableLockInfo _ => from_option lock_ok True
  | AIRange _ _ => from_option is_u64 True
  end.

(** What a caller that cannot throw, or throws an exception of its own, makes of one. *)
Definition or_else {R} (m : M server R) (x : R) : M server R := try_catch m (fun _ => mret x).
Definition or_error {R} (m : M server R) (text : string) : M server R := try_catch m (fun _ => throw (runtime_error text)).

Section claims.
Context {IO : ExtentMap.IterOrder}.
Context (others : SlaveNode.node -> SlaveNode.node) (emsg : stream -> Worker.worker -> list Z)
  (set0 : ExtentCP.CPMaxMin) (merge0 : ExtentCP.CPMaxMinMerge) (procStat : Z -> Z -> option (list Z)) (pads : Worker.Pads)
  (order : gset RG.node -> list RG.node).
Context (meanwhile : server -> server) (aiOthers : AutoInc.t -> AutoInc.t) (junk : Z) (here : nat) (catalog : server -> stream)
  (reconnect : list SlaveComm.comm -> option (list SlaveComm.comm)) (connect : M server unit).

Abbreviation exchange := (call others emsg set0 merge0 procStat pads order meanwhile aiOthers junk here catalog reconnect).

(** The client's method. *)
Definition remote {R} (r : Service R) : M (@Dbrm.client server) R :=
  match r with
  | VerID => verID connect exchange
  | SysCatVerID => sysCatVerID connect exchange
  | NewTxnID ses block ddl => newTxnID connect exchange ses block ddl
  | Committed t => committed connect exchange t
  | RolledBack t => rolledback connect exchange t
  | GetTxnID ses => getTxnID connect exchange ses
  | SIDTIDMap => DbrmServices.SIDTIDMap connect exchange
  | Unique32 => getUnique32 connect exchange
  | Unique64 => getUnique64 connect exchange
  | ResetSessions => sessionmanager_reset connect exchange
  | GetState => getSystemState connect exchange
  | SetState f => setSystemState connect exchange f
  | ClearState f => clearSystemState connect exchange f
  | AllocOIDs n => allocOIDs connect exchange n
  | ReturnOIDs a b => returnOIDs connect exchange a b
  | OidmSize => oidm_size connect exchange
  | AllocVBOID d => allocVBOID connect exchange d
  | DBRootOfVBOID v => getDBRootOfVBOID connect exchange v
  | VBOIDMap => getVBOIDToDBRootMap connect exchange
  | GetTableLock tli => getTableLock connect exchange tli
  | ReleaseTableLock i => releaseTableLock connect exchange i
  | ChangeState i st => changeState connect exchange i st
  | ChangeOwner i name pid ses txn => changeOwner connect exchange i name pid ses txn
  | CheckOwner i => checkOwner connect exchange i
  | AllTableLocks => getAllTableLocks connect exchange
  | ReleaseAllTableLocks => releaseAllTableLocks connect exchange
  | TableLockInfo i => getTableLockInfo connect exchange i
  | StartAI oid first width ty => startAISequence connect exchange oid first width ty
  | AIRange oid count => getAIRange connect exchange oid count
  | ResetAI oid v => resetAISequence connect exchange oid v
  | LockAI oid => getAILock connect exchange oid
  | ReleaseAI oid => releaseAILock connect exchange oid
  | DeleteAI oid => Dbrm.deleteAISequence connect exchange oid
  end.

(** Whether a lock's owner is alive; the workers that cannot be asked are an error. *)
Definition owner_alive (i : Z) : M server (option bool) :=
  r ← find_owner others emsg set0 merge0 procStat pads i;
  match r with
  | None => mret None
  | Some None => throw Controller.network_error
  | Some (Some b) => mret (Some b)
  end.

(** The operation of the component; the class that keeps the data is the only thing it
    touches, but for the owner checks, which ask the workers. *)
Definition local {R} (r : Service R) : M server R :=
  match r with
  | VerID => gets (fun s => SessionManager.verID (Controller.sm (ctl s)))
  | SysCatVerID => gets (fun s => SessionManager.sysCatVerID (Controller.sm (ctl s)))
  | NewTxnID ses block ddl =>
      or_else (c ← inSM (SessionManager.newTxnID ses block ddl);
               match c with SessionManager.Done t => mret t | SessionManager.Wait => fail_with SelfDeadlock end) SessionManager.no_txn
  | Committed t => or_else (inSM (SessionManager.committed t)) t ;; mret (SessionManager.mkTxn (SessionManager.id t) false)
  | RolledBack t => or_else (inSM (SessionManager.rolledback t)) t ;; mret (SessionManager.mkTxn (SessionManager.id t) false)
  | GetTxnID ses => gets (fun s => SessionManager.getTxnID ses (Controller.sm (ctl s)))
  | SIDTIDMap => gets (fun s => Some (SessionManager.SIDTIDMap (Controller.sm (ctl s))))
  | Unique32 => inSM SessionManager.getUnique32
  | Unique64 => inSM SessionManager.getUnique64
  | ResetSessions => inSM SessionManager.reset
  | GetState => gets (fun s => Some (SessionManager.systemState (Controller.sm (ctl s))))
  | SetState f => or_else (inSM (SessionManager.setSystemState f) ;; mret 1) (-1)
  | ClearState f => or_else (inSM (SessionManager.clearSystemState f) ;; mret 1) (-1)
  | AllocOIDs n => or_else (inOIDs (OIDServer.allocOIDs n)) (-1)
  | ReturnOIDs _ _ => mret tt
  | OidmSize => gets (fun s => OIDServer.size (Controller.oids (ctl s)))
  | AllocVBOID d => or_else (inOIDs (OIDServer.allocVBOID (u16 d))) (-1)
  | DBRootOfVBOID v => gets (fun s => OIDServer.getDBRootOfVBOID v (Controller.oids (ctl s)))
  | VBOIDMap => gets (fun s => OIDServer.vbOidDBRootMap (Controller.oids (ctl s)))
  | GetTableLock tli =>
      or_error ('(i, x) ← inLocks (TableLock.lock tli);
                mret (i, if i =? 0 then Some (TableLock.ownerPID x, TableLock.ownerName x, TableLock.ownerSessionID x, TableLock.ownerTxnID x)
                         else None)) lock_error
  | ReleaseTableLock i => or_error (inLocks (TableLock.unlock i)) lock_error
  | ChangeState i st => or_error (inLocks (TableLock.changeState i st)) lock_error
  | ChangeOwner i name pid ses txn =>
      or_error (alive ← owner_alive i;
                match alive with
                | Some false => modify meanwhile ;; inLocks (TableLock.changeOwner i name pid ses txn)
                | _ => mret false
                end) lock_error
  | CheckOwner i => or_error (alive ← owner_alive i; mret (default false alive)) lock_error
  | AllTableLocks => gets (fun s => TableLock.getAllLocks (lock_view s))
  | ReleaseAllTableLocks => or_error (inLocks TableLock.releaseAllLocks) "DBRM: releaseAllTableLocks(): processing error"
  | TableLockInfo i => gets (fun s => TableLock.getLockInfo i (lock_view s))
  | StartAI oid first width ty => inAI (AutoInc.startSequence oid first width (ExtentMap.isUnsigned ty))
  | AIRange oid count => or_error (inAI (AutoInc.getAIRange oid count)) "DBRM: getAIRange(): processing error"
  | ResetAI oid v => inAI (AutoInc.resetSequence oid v)
  | LockAI oid => or_error (inAI (AutoInc.getLock aiOthers oid)) "DBRM: getAILock(): processing error"
  | ReleaseAI oid => inAI (AutoInc.releaseLock oid)
  | DeleteAI oid => inAI (AutoInc.deleteSequence oid)
  end.

(** ** Proof of the correspondence *)
Abbreviation online s := (Dbrm.mkClient true s).
Abbreviation served := (ServicesThms.served others emsg set0 merge0 procStat pads order meanwhile aiOthers junk here catalog reconnect).

Definition agrees {R} (rem : M (@Dbrm.client server) R) (loc : M server R) (P : R -> Prop) : Prop :=
  forall s o s', loc s = (o, s') -> (forall f, o <> Fault f) -> (forall x, o = Val x -> P x) ->
    exists rs, rem (online s) = (o, online (say rs s')).

Lemma or_error_inv {R} (m : M server R) text s o s' :
  or_error m text s = (o, s') -> exists o0, m s = (o0, s') /\ o = match o0 with Exn _ => Exn (runtime_error text) | _ => o0 end.
Proof. unfold or_error, try_catch. destruct (m s) as [[x|e|f] s1]; intros [= <- <-]; eexists; (split; [reflexivity|done]). Qed.

Lemma or_else_inv {R} (m : M server R) d s o s' :
  or_else m d s = (o, s') -> exists o0, m s = (o0, s') /\ o = match o0 with Exn _ => Val d | _ => o0 end.
Proof. unfold or_else, try_catch. destruct (m s) as [[x|e|f] s1]; intros [= <- <-]; eexists; (split; [reflexivity|done]). Qed.

(** The methods that throw; [loc] is the operation without the conversion of errors. *)
Lemma agrees_or_throw {R} network processing (g : M stream R) code body (enc : R -> stream) loc (P : R -> Prop) :
  served code body enc loc -> (forall x, P x -> (g (enc x)).1 = Val x) ->
  agrees (or_throw connect exchange network processing g (put8 code ++ body)) (or_error loc processing) P.
Proof.
  intros Hs Hg s o s' (o0 & Hl & ->)%or_error_inv Hf HP. eexists.
  erewrite or_throw_served; [reflexivity|exact Hs|exact Hl|intros f ->; by destruct (Hf f)|]. intros x ->. by apply Hg, HP.
Qed.

(** The same for an operation that does not throw. *)
Lemma agrees_or_throw_total {R} network processing (g : M stream R) code body (enc : R -> stream) loc (P : R -> Prop) :
  served code body enc loc -> (forall x, P x -> (g (enc x)).1 = Val x) -> (forall s e s', loc s <> (Exn e, s')) ->
  agrees (or_throw connect exchange network processing g (put8 code ++ body)) loc P.
Proof.
  intros Hs Hg Ht s o s' Hl. apply (agrees_or_throw network processing g code body enc loc P Hs Hg). unfold or_error, try_catch.
  rewrite Hl. destruct o as [x|e|f]; [done| |done]. by destruct (Ht _ _ _ Hl).
Qed.

Lemma agrees_code_only network processing code body loc (P : unit -> Prop) :
  served code body (fun _ : unit => []) loc ->
  agrees (code_only connect exchange network processing (put8 code ++ body)) (or_error loc processing) P.
Proof.
  intros Hs s o s' (o0 & Hl & ->)%or_error_inv Hf _. eexists.
  erewrite code_only_served; [reflexivity|exact Hs|exact Hl|intros f ->; by destruct (Hf f)].
Qed.

Lemma agrees_code_only_total network processing code body loc (P : unit -> Prop) :
  served code body (fun _ : unit => []) loc -> (forall s e s', loc s <> (Exn e, s')) ->
  agrees (code_only connect exchange network processing (put8 code ++ body)) loc P.
Proof.
  intros Hs Ht s o s' Hl. apply (agrees_code_only network processing code body loc P Hs). unfold or_error, try_catch.
  rewrite Hl. destruct o as [x|e|f]; [done| |done]. by destruct (Ht _ _ _ Hl).
Qed.

Lemma agrees_oid_call code body loc :
  served code body put32 loc -> agrees (oid_call connect exchange (put8 code ++ body)) (or_else loc (-1)) is_i32.
Proof.
  intros Hs s o s' (o0 & Hl & ->)%or_else_inv Hf HP. exists [answer_of put32 o0].
  erewrite oid_call_served; [reflexivity|exact Hs|exact Hl|intros f ->; by destruct (Hf f)|]. intros x ->. by apply HP.
Qed.

Lemma agrees_state_call code flags (loc : M server unit) (P : Z -> Prop) :
  served code (put32 flags) (fun _ : unit => []) loc -> agrees (state_call connect exchange code flags) (or_else (loc ;; mret 1) (-1)) P.
Proof.
  intros Hs s o s' (o0 & Hl & ->)%or_else_inv Hf _. unfold mbind, M_bind in Hl. destruct (loc s) as [o1 s1] eqn:Hl1.
  exists [answer_of (fun _ : unit => []) o1]. erewrite state_call_served; [|exact Hs|exact Hl1|].
  - destruct o1; inversion Hl; subst; reflexivity.
  - intros f ->. inversion Hl; subst. by destruct (Hf f).
Qed.

(** *** The single calls *)
Abbreviation table := (handlers others emsg set0 merge0 procStat pads meanwhile aiOthers junk here catalog reconnect).
Abbreviation send := (Dbrm.send_recv connect exchange).

Lemma send_handled code body h s out s' :
  0 <= code < 2 ^ 8 -> code <> NEW_TXN_ID -> find (fun h => h.1 =? code) table = Some (code, h) -> out <> [] ->
  h (put8 code ++ body) s = (Val tt, say [out] s') -> send (put8 code ++ body) (online s) = (Val (ERR_OK, out), online (say [out] s')).
Proof. intros Hc Hn Hf Ho Hh. apply send_Val.
  - by eapply call_run.
  - done.
Qed.

Lemma agrees_context code h f :
  0 <= code < 2 ^ 8 -> code <> NEW_TXN_ID -> find (fun h => h.1 =? code) table = Some (code, h) ->
  (forall msg s, h msg s = (Val tt, say [put8 ERR_OK ++ put_context (f s)] s)) ->
  agrees (context_call connect exchange code) (gets f) context_ok.
Proof.
  intros Hc Hn Hf Hh s o s' [= <- <-] _ HP. eexists. unfold context_call. rewrite <- (app_nil_r (put8 code)).
  rewrite (bind_Val _ _ _ _ _ (send_handled code [] h s (put8 ERR_OK ++ put_context (f s)) s Hc Hn Hf ltac:(done) (Hh _ s))). change (negb (ERR_OK =? ERR_OK)) with false. cbn iota.
  unfold try_catch, reading, lift. rewrite get8_ok, (reads_val _ _ _ (reads_context _ (HP _ eq_refl))). reflexivity.
Qed.

Ltac by_table := eapply served_by; [split; vm_compute; [discriminate|reflexivity]|done|reflexivity|..|reflexivity].

Lemma agrees_finish code (m : SessionManager.TxnID -> M SessionManager.t SessionManager.TxnID) t :
  txn_ok t -> served code (put_txn t) (fun _ => []) (inSM (m t)) ->
  forall s o s', (or_else (inSM (m t)) t ;; mret (SessionManager.mkTxn (SessionManager.id t) false)) s = (o, s') -> (forall f, o <> Fault f) ->
  exists o0, o = Val (SessionManager.mkTxn (SessionManager.id t) false) /\ (forall f, o0 <> Fault f) /\
    send (put8 code ++ put_txn t) (online s) = (Val (ERR_OK, answer_of (fun _ : SessionManager.TxnID => []) o0),
                                               online (say [answer_of (fun _ : SessionManager.TxnID => []) o0] s')).
Proof.
  intros Ht Hs s o s' Hl Hf. unfold mbind at 1, M_bind at 1 in Hl. destruct (or_else (inSM (m t)) t s) as [o1 s1] eqn:Hl1.
  apply or_else_inv in Hl1 as (o0 & Hl1 & ->). exists o0.
  assert (forall f, o0 <> Fault f) as Hf0. { intros f ->. inversion Hl; subst. by destruct (Hf f). }
  destruct o0 as [x|e|f]; [..|by destruct (Hf0 f)]; inversion Hl; subst;
    (split; [done|]; split; [done|]; by apply (send_served _ _ _ _ _ _ _ _ _ _ _ _ _ _ _ _ _ _ _ _ _ Hs)).
Qed.

(** The reply to a new transaction. *)
Definition txn_answer (o : outcome SessionManager.call) : stream :=
  match o with Val (SessionManager.Done t) => put8 ERR_OK ++ put_txn t | _ => put8 ERR_FAILURE end.

Lemma reads_newTxn ses block ddl : is_u32 ses -> reads get_newTxn (put32 ses ++ put_bool block ++ put_bool ddl) (ses, block, ddl).
Proof.
  intros Hs. unfold get_newTxn. eapply reads_bind; [by apply reads_u32|]. eapply reads_bind; [apply reads_bool|].
  apply (reads_last get_bool (fun d => (ses, block, d))), reads_bool.
Qed.

Lemma call_newTxnID ses block ddl s o s' :
  is_u32 ses -> inSM (SessionManager.newTxnID ses block ddl) s = (o, s') -> (forall f, o <> Fault f) -> o <> Val SessionManager.Wait ->
  exchange (put8 NEW_TXN_ID ++ put32 ses ++ put_bool block ++ put_bool ddl) s = (Val (txn_answer o), say [txn_answer o] s').
Proof.
  intros Hses Hn Hf Hw. unfold call, msgProcessor.
  change (zlen (put8 NEW_TXN_ID ++ put32 ses ++ put_bool block ++ put_bool ddl) =? 0) with false. cbn iota.
  rewrite (bind_Val (lift _ ≫= _) _ s None (say [txn_answer o] s')); [unfold gets; by rewrite last_said|].
  rewrite (bind_Val (lift _) _ s NEW_TXN_ID s) by done. change (NEW_TXN_ID =? NEW_TXN_ID) with true. cbn iota. unfold doNewTxnID.
  rewrite (bind_Val _ _ s (Some (ses, block, ddl)) s).
  2: { unfold try_catch. by rewrite (bind_Val _ _ _ _ _ (read_all_run false get_newTxn NEW_TXN_ID _ _ s ltac:(done) (reads_newTxn _ _ _ Hses))). }
  unfold txn_reply, try_catch, mbind, M_bind. rewrite Hn. destruct o as [[t|]|e|f]; [done|done|done|]. by destruct (Hf f).
Qed.

Lemma agrees_newTxnID ses block ddl : is_u32 ses -> agrees (remote (NewTxnID ses block ddl)) (local (NewTxnID ses block ddl)) txn_ok.
Proof.
  intros Hses s o s' Hl Hf HP. cbn [local remote] in *. apply or_else_inv in Hl as (o0 & Hl & ->). unfold mbind, M_bind in Hl.
  destruct (inSM (SessionManager.newTxnID ses block ddl) s) as [o1 s1] eqn:Hn.
  assert (s1 = s' /\ (forall f, o1 <> Fault f) /\ o1 <> Val SessionManager.Wait) as (-> & Hf1 & Hw1).
  { destruct o1 as [[t|]|e|f]; inversion Hl; subst; try (by exfalso; eapply Hf); done. }
  pose proof (call_newTxnID ses block ddl s o1 s' Hses Hn Hf1 Hw1) as Hc. exists [txn_answer o1]. unfold newTxnID.
  erewrite bind_Val; [|eapply send_Val; [exact Hc|by destruct o1 as [[]| |]]].
  change (negb (ERR_OK =? ERR_OK)) with false. cbn iota. destruct o1 as [[t|]|e|f]; [|done|by inversion Hl|by destruct (Hf1 f)].
  inversion Hl; subst. change (negb (zlen (put8 ERR_OK ++ put_txn t) =? 6)) with false. cbn [txn_answer]. cbn iota. unfold reading, lift.
  by rewrite get8_ok, (reads_val _ _ _ (reads_txn _ (HP _ eq_refl))).
Qed.

#[local] Hint Resolve reads_txn reads_i32 reads_i64 reads_u32 reads_bool reads_type8 reads_string reads_lockinfo : reads.

Lemma agrees_committed t : txn_ok t -> agrees (remote (Committed t)) (local (Committed t)) (fun _ => True).
Proof.
  intros Ht s o s' Hl Hf _. cbn [local remote] in *.
  destruct (agrees_finish COMMITTED SessionManager.committed t Ht ltac:(by_table; by apply reads_txn) s o s' Hl Hf) as (o0 & -> & Hf0 & Hs).
  eexists. unfold committed. rewrite (bind_Val _ _ _ _ _ Hs). destruct o0; [reflexivity|reflexivity|by destruct (Hf0 f)].
Qed.

Lemma state_served : served GET_SYSTEM_STATE [] put32 (gets (fun s => SessionManager.systemState (Controller.sm (ctl s)))).
Proof. by_table. apply reads_ret. Qed.

Lemma getSystemState_run s : exists o rs, getSystemState connect exchange (online s) = (Val o, online (say rs s)).
Proof.
  unfold getSystemState, try_catch. change (put8 GET_SYSTEM_STATE) with (put8 GET_SYSTEM_STATE ++ []).
  rewrite (bind_Val _ _ _ _ _ (send_served _ _ _ _ _ _ _ _ _ _ _ _ _ _ _ _ _ _ _ _ _ state_served eq_refl ltac:(done))). do 2 eexists. reflexivity.
Qed.

Lemma agrees_rolledback t : txn_ok t -> agrees (remote (RolledBack t)) (local (RolledBack t)) (fun _ => True).
Proof.
  intros Ht s o s' Hl Hf _. cbn [local remote] in *.
  destruct (agrees_finish ROLLED_BACK SessionManager.rolledback t Ht ltac:(by_table; by apply reads_txn) s o s' Hl Hf) as (o0 & -> & Hf0 & Hs).
  unfold rolledback. rewrite (bind_Val _ _ _ _ _ Hs). destruct o0 as [x|e|f]; [eexists; reflexivity| |by destruct (Hf0 f)].
  cbn [answer_of]. destruct (getSystemState_run (say [put8 ERR_FAILURE] s')) as (st & rs & Hst). exists ([put8 ERR_FAILURE] ++ rs).
  rewrite (bind_Val (reading get8 (put8 ERR_FAILURE)) _ (online (say [put8 ERR_FAILURE] s')) ERR_FAILURE (online (say [put8 ERR_FAILURE] s'))) by done.
  change (negb (ERR_FAILURE =? ERR_OK)) with true. cbn iota.
  assert (getSystemReady connect exchange (online (say [put8 ERR_FAILURE] s')) =
    (Val (match st with Some v => Z.land v SessionManager.SS_READY | None => -1 end), online (say ([put8 ERR_FAILURE] ++ rs) s'))) as Hr.
  { unfold getSystemReady, flag. rewrite (bind_Val _ _ _ _ _ Hst), say_say. done. }
  erewrite bind_Val; [|rewrite (bind_Val _ _ _ _ _ Hr); reflexivity]. done.
Qed.

Lemma agrees_getTxnID ses : is_u32 ses -> agrees (remote (GetTxnID ses)) (local (GetTxnID ses)) txn_ok.
Proof.
  intros Hses s o s' [= <- <-] _ HP. cbn [local remote] in *. eexists. unfold getTxnID.
  assert (served GET_TXN_ID (put32 ses) put_txn (gets (fun s => SessionManager.getTxnID ses (Controller.sm (ctl s))))) as Hs
    by (by_table; by apply reads_u32).
  rewrite (bind_Val _ _ _ _ _ (send_served _ _ _ _ _ _ _ _ _ _ _ _ _ _ _ _ _ _ _ _ _ Hs eq_refl ltac:(done))). cbn [answer_of].
  change (negb (ERR_OK =? ERR_OK)) with false. cbn iota. rewrite (bind_Val (reading get8 _) _ _ _ _ (reading_code _ _)).
  change (negb (ERR_OK =? ERR_OK)) with false. cbn iota. unfold reading, lift.
  rewrite get8_ok, (reads_val _ _ _ (reads_txn _ (HP _ eq_refl))). reflexivity.
Qed.

Lemma reads_entries l : Forall entry_ok l -> count31 l ->
  reads (n ← get32; get_list get_entry (i32 n)) (put32 (zlen l) ++ (l ≫= put_entry)) l.
Proof.
  intros Hl Hc. unfold count31 in Hc. assert (0 <= zlen l) by (unfold zlen; lia).
  eapply reads_bind; [apply reads_get32; lia|]. rewrite i32_small by lia. apply reads_list.
  - eapply Forall_impl; [exact Hl|]. intros e. apply reads_entry.
  - eapply Forall_impl; [exact Hl|]. intros e _. unfold put_entry, put_txn. simpl. lia.
Qed.

Lemma agrees_SIDTIDMap : agrees (remote SIDTIDMap) (local SIDTIDMap) (of_type SIDTIDMap).
Proof.
  intros s o s' [= <- <-] _ HP. destruct (HP _ eq_refl) as [Hl Hc]. cbn [remote] in *. eexists. unfold DbrmServices.SIDTIDMap.
  assert (served SID_TID_MAP [] (fun l => put32 (zlen l) ++ (l ≫= put_entry)) (gets (fun s => SessionManager.SIDTIDMap (Controller.sm (ctl s))))) as Hs
    by (by_table; apply reads_ret).
  change (put8 SID_TID_MAP) with (put8 SID_TID_MAP ++ []).
  rewrite (bind_Val _ _ _ _ _ (send_served _ _ _ _ _ _ _ _ _ _ _ _ _ _ _ _ _ _ _ _ _ Hs eq_refl ltac:(done))). cbn [answer_of].
  change (negb (ERR_OK =? ERR_OK)) with false. cbn iota. rewrite (bind_Val (reading get8 _) _ _ _ _ (reading_code _ _)).
  change (negb (ERR_OK =? ERR_OK)) with false. cbn iota. erewrite bind_Val; [reflexivity|]. unfold reading, lift.
  rewrite get8_ok, (reads_val _ _ _ (reads_entries _ Hl Hc)). reflexivity.
Qed.

Lemma agrees_getState : agrees (remote GetState) (local GetState) (of_type GetState).
Proof.
  intros s o s' [= <- <-] _ HP. specialize (HP _ eq_refl). cbn [remote of_type from_option] in *. eexists. unfold getSystemState, try_catch.
  change (put8 GET_SYSTEM_STATE) with (put8 GET_SYSTEM_STATE ++ []).
  rewrite (bind_Val _ _ _ _ _ (send_served _ _ _ _ _ _ _ _ _ _ _ _ _ _ _ _ _ _ _ _ _ state_served eq_refl ltac:(done))). cbn [answer_of].
  change (negb (ERR_OK =? ERR_OK)) with false. cbn iota. rewrite (bind_Val (reading get8 _) _ _ _ _ (reading_code _ _)).
  change (negb (ERR_OK =? ERR_OK)) with false. cbn iota. erewrite bind_Val; [reflexivity|]. unfold reading, lift.
  rewrite get8_ok, (reads_val _ _ _ (reads_u32 _ HP)). reflexivity.
Qed.

Lemma agrees_reset : agrees (remote ResetSessions) (local ResetSessions) (fun _ => True).
Proof.
  intros s o s' Hl Hf _. cbn [local remote] in *. eexists. unfold sessionmanager_reset. change (put8 SM_RESET) with (put8 SM_RESET ++ []).
  assert (served SM_RESET [] (fun _ : unit => []) (inSM SessionManager.reset)) as Hs by (by_table; apply reads_ret).
  rewrite (bind_Val _ _ _ _ _ (send_served _ _ _ _ _ _ _ _ _ _ _ _ _ _ _ _ _ _ _ _ _ Hs Hl Hf)).
  destruct o as [[]|e|f]; [reflexivity|discriminate Hl|by destruct (Hf f)].
Qed.

Lemma agrees_returnOIDs a b : is_i32 a -> is_i32 b -> agrees (remote (ReturnOIDs a b)) (local (ReturnOIDs a b)) (fun _ => True).
Proof.
  intros Ha Hb s o s' [= <- <-] Hf _. cbn [remote]. eexists. unfold returnOIDs.
  assert (served RETURN_OIDS (put32 a ++ put32 b) (fun _ : unit => []) (mret tt)) as Hs.
  { by_table. eapply reads_bind; [by apply reads_i32|]. by apply (reads_last get_i32 (pair a)), reads_i32. }
  rewrite (bind_Val _ _ _ _ _ (send_served _ _ _ _ _ _ _ _ _ _ _ _ _ _ _ _ _ _ _ _ _ Hs eq_refl ltac:(done))). reflexivity.
Qed.

Lemma agrees_oidm_size : agrees (remote OidmSize) (local OidmSize) is_i32.
Proof.
  intros s o s' [= <- <-] _ HP. cbn [remote]. eexists. unfold oidm_size.
  assert (served OIDM_SIZE [] put32 (gets (fun s => OIDServer.size (Controller.oids (ctl s))))) as Hs by (by_table; apply reads_ret).
  change (put8 OIDM_SIZE) with (put8 OIDM_SIZE ++ []).
  rewrite (bind_Val _ _ _ _ _ (send_served _ _ _ _ _ _ _ _ _ _ _ _ _ _ _ _ _ _ _ _ _ Hs eq_refl ltac:(done))). cbn [answer_of].
  change (negb (ERR_OK =? ERR_OK)) with false. cbn iota.
  assert (reads (err ← get8; if err =? ERR_OK then get_i32 else mret (-1)) (put8 ERR_OK ++ put32 (OIDServer.size (Controller.oids (ctl s))))
    (OIDServer.size (Controller.oids (ctl s)))) as Hr.
  { eapply reads_bind; [by apply reads_get8|]. apply reads_i32, HP. reflexivity. }
  unfold try_catch, reading, lift. rewrite (reads_val _ _ _ Hr). reflexivity.
Qed.

Lemma agrees_vbmap : agrees (remote VBOIDMap) (local VBOIDMap) (of_type VBOIDMap).
Proof.
  intros s o s' [= <- <-] _ HP. destruct (HP _ eq_refl) as [Hl Hc]. cbn [remote] in *. eexists. unfold getVBOIDToDBRootMap.
  assert (served GETVBOIDTODBROOTMAP [] (serializeInlineVector (le_bytes 2)) (gets (fun s => OIDServer.vbOidDBRootMap (Controller.oids (ctl s))))) as Hs
    by (by_table; apply reads_ret).
  change (put8 GETVBOIDTODBROOTMAP) with (put8 GETVBOIDTODBROOTMAP ++ []).
  rewrite (bind_Val _ _ _ _ _ (send_served _ _ _ _ _ _ _ _ _ _ _ _ _ _ _ _ _ _ _ _ _ Hs eq_refl ltac:(done))). cbn [answer_of].
  change (negb (ERR_OK =? ERR_OK)) with false. cbn iota. unfold try_catch. rewrite (bind_Val (reading get8 _) _ _ _ _ (reading_code _ _)).
  change (negb (ERR_OK =? ERR_OK)) with false. cbn iota. unfold reading, lift. rewrite get8_ok.
  erewrite reads_val; [reflexivity|]. by apply (reads_words _ _ _ is_u16); [exact decode_u16_put|intros; apply length_le_bytes|..].
Qed.

(** The reply to a request for a lock. *)
Definition put_lock (x : Z * option (Z * list Z * Z * Z)) : stream :=
  put64 x.1 ++ match x.2 with Some (pid, name, ses, txn) => put32 pid ++ put_string name ++ put32 ses ++ put32 txn | None => [] end.

Lemma served_lock tli : lock_ok tli ->
  served GET_TABLE_LOCK (put_lockinfo tli) put_lock
    ('(i, x) ← inLocks (TableLock.lock tli);
     mret (i, if i =? 0 then Some (TableLock.ownerPID x, TableLock.ownerName x, TableLock.ownerSessionID x, TableLock.ownerTxnID x) else None)).
Proof.
  intros Hok. eapply served_by; [split; vm_compute; [discriminate|reflexivity]|done|reflexivity|by apply reads_lockinfo|].
  intros s. unfold mbind, M_bind. destruct (inLocks (TableLock.lock tli) s) as [[[i x]|e|f] s']; [|done|done].
  unfold put_lock. cbn. by destruct (i =? 0).
Qed.

(** A result of the lock server is 0 exactly when it names an owner. *)
Lemma reads_lock x : is_u64 x.1 -> (x.1 = 0 <-> x.2 <> None) ->
  from_option (fun o => let '(pid, name, ses, txn) := o in is_u32 pid /\ name_ok name /\ is_i32 ses /\ is_i32 txn) True x.2 ->
  reads get_lock_reply (put_lock x) x.
Proof.
  intros H1 H0 Hx. unfold get_lock_reply, put_lock. eapply reads_bind; [by apply reads_get64|]. destruct x as [i o]. cbn [fst snd] in *.
  destruct (Z.eqb_spec i 0) as [Hi|Hi].
  - destruct o as [[[[pid name] ses] txn]|]; [|by destruct (proj1 H0 Hi)]. destruct Hx as (? & ? & ? & ?). unfold name_ok in *. read_fields.
  - destruct o; [by destruct Hi; apply H0|]. apply reads_ret.
Qed.

Lemma agrees_getTableLock tli : lock_ok tli -> agrees (remote (GetTableLock tli)) (local (GetTableLock tli)) (of_type (GetTableLock tli)).
Proof.
  intros Hok s o s' (o0 & Hl & ->)%or_error_inv Hf HP. cbn [remote]. eexists. unfold getTableLock.
  erewrite or_throw_served; [reflexivity|by apply served_lock|exact Hl|intros f ->; by destruct (Hf f)|].
  intros x ->. destruct (HP _ eq_refl) as [H1 H2]. apply all_read_reads, reads_lock; [done| |done].
  unfold mbind, M_bind in Hl. destruct (inLocks (TableLock.lock tli) s) as [[[i y]|e|f] s1]; inversion Hl; subst. cbn.
  destruct (Z.eqb_spec i 0); naive_solver.
Qed.

(** The handlers that write their error code themselves. *)
Lemma served_raw {A R} code body (g : M stream A) op a (enc : R -> stream) (loc : M server R) :
  0 <= code < 2 ^ 8 -> code <> NEW_TXN_ID -> find (fun h => h.1 =? code) table = Some (code, serve_raw g op) -> reads g body a ->
  (forall s o s', loc s = (o, s') -> (forall f, o <> Fault f) ->
     op a s = (Val (answer_of enc o), s') \/ exists e, op a s = (Exn e, s') /\ answer_of enc o = put8 ERR_FAILURE) ->
  served code body enc loc.
Proof.
  intros Hc Hn Hf Hg Hop s o s' Hl Ho. eapply call_run; [done|done|exact Hf|]. unfold serve_raw.
  rewrite (bind_Val _ _ s (answer_of enc o) s'); [done|]. unfold try_catch.
  rewrite (bind_Val _ _ _ _ _ (read_all_run true g code body a s Hc Hg)).
  destruct (Hop s o s' Hl Ho) as [->|(e & -> & ->)]; done.
Qed.

Lemma served_owner {R} code body (enc : R -> stream) {A} (g : M stream A) (a : A) i (op : A -> M server stream) (k : option bool -> M server R) :
  0 <= code < 2 ^ 8 -> code <> NEW_TXN_ID -> find (fun h => h.1 =? code) table = Some (code, serve_raw g op) -> reads g body a ->
  (forall s, op a s = (r ← find_owner others emsg set0 merge0 procStat pads i;
                       match r with
                       | None => x ← k None; mret (put8 ERR_OK ++ enc x)
                       | Some None => mret (put8 ERR_FAILURE)
                       | Some (Some b) => x ← k (Some b); mret (put8 ERR_OK ++ enc x)
                       end) s) ->
  served code body enc (alive ← owner_alive i; k alive).
Proof.
  intros Hc Hn Hf Hg Hop. eapply served_raw; [done|done|exact Hf|exact Hg|]. intros s o s' Hl Ho. rewrite Hop.
  unfold owner_alive, mbind, M_bind in *. destruct (find_owner _ _ _ _ _ _ i s) as [[[[b|]|]|e|f] s1]; cbn in *.
  - destruct (k (Some b) s1) as [[x|e|f] s2]; inversion Hl; subst; [by left|right; by eexists|by destruct (Ho f)].
  - inversion Hl; subst. by left.
  - destruct (k None s1) as [[x|e|f] s2]; inversion Hl; subst; [by left|right; by eexists|by destruct (Ho f)].
  - inversion Hl; subst. right. by eexists.
  - inversion Hl; subst. by destruct (Ho f).
Qed.

Lemma agrees_changeOwner i name pid ses txn :
  service_ok (ChangeOwner i name pid ses txn) ->
  agrees (remote (ChangeOwner i name pid ses txn)) (local (ChangeOwner i name pid ses txn)) (fun _ => True).
Proof.
  intros (Hi & Hname & Hpid & Hses & Htxn). cbn [remote local]. unfold changeOwner, is_u64, name_ok in *.
  apply (agrees_or_throw _ _ _ _ _ put_bool); [|intros x _; apply all_read_reads, reads_bool].
  eapply (served_owner CHANGE_TABLE_LOCK_OWNER _ put_bool get_newOwner (i, name, pid, ses, txn) i _
    (fun alive => match alive with Some false => modify meanwhile ;; inLocks (TableLock.changeOwner i name pid ses txn) | _ => mret false end));
    [split; vm_compute; [discriminate|reflexivity]|done|reflexivity|unfold get_newOwner; read_fields|].
  intros s. unfold mbind, M_bind. destruct (find_owner _ _ _ _ _ _ i s) as [[[[[]|]|]|e|f] s1]; try reflexivity.
Qed.

Lemma agrees_checkOwner i : is_u64 i -> agrees (remote (CheckOwner i)) (local (CheckOwner i)) (fun _ => True).
Proof.
  intros Hi. cbn [remote local]. unfold checkOwner, is_u64 in *.
  apply (agrees_or_throw _ _ _ _ _ put_bool); [|intros x _; apply all_read_reads, reads_bool].
  eapply (served_owner OWNER_CHECK _ put_bool get64 i i _ (fun alive => mret (default false alive)));
    [split; vm_compute; [discriminate|reflexivity]|done|reflexivity|by apply reads_get64|].
  intros s. unfold mbind, M_bind. destruct (find_owner _ _ _ _ _ _ i s) as [[[[b|]|]|e|f] s1]; reflexivity.
Qed.

Lemma agrees_deleteAI oid : is_u32 oid -> agrees (remote (DeleteAI oid)) (local (DeleteAI oid)) (fun _ => True).
Proof.
  intros Hoid s o s' Hl Hf _. cbn [local remote] in *. unfold Dbrm.deleteAISequence.
  assert (served DELETE_AI_SEQUENCE (put32 oid) (fun _ : unit => []) (inAI (AutoInc.deleteSequence oid))) as Hs by (by_table; by apply reads_u32).
  rewrite (bind_Val _ _ _ _ _ (send_served _ _ _ _ _ _ _ _ _ _ _ _ _ _ _ _ _ _ _ _ _ Hs Hl Hf)).
  destruct o as [[]|e|f]; [|discriminate Hl|by destruct (Hf f)]. eexists. reflexivity.
Qed.

Lemma agrees_dbroot vb : is_u32 vb -> agrees (remote (DBRootOfVBOID vb)) (local (DBRootOfVBOID vb)) is_i32.
Proof.
  intros Hv s o s' Hl. apply (agrees_oid_call GETDBROOTOFVBOID (put32 vb) (local (DBRootOfVBOID vb))); [by_table; by apply reads_u32|].
  unfold or_else, try_catch. by inversion Hl.
Qed.

Lemma agrees_changeState i st : is_u64 i -> agrees (remote (ChangeState i st)) (local (ChangeState i st)) (fun _ => True).
Proof.
  intros Hi. apply (agrees_or_throw _ _ _ _ _ put_bool); [|intros x _; apply all_read_reads, reads_bool].
  eapply (served_by _ _ _ _ _ _ _ _ _ _ _ _ _ CHANGE_TABLE_LOCK_STATE _ true _ _ (i, TableLock.state_code st));
    [split; vm_compute; [discriminate|reflexivity]|done|reflexivity| |by destruct st].
  eapply reads_bind; [by apply reads_get64|]. apply (reads_last get32 (pair i)), reads_get32. destruct st; simpl; lia.
Qed.

Lemma agrees_allLocks : agrees (remote AllTableLocks) (local AllTableLocks) (of_type AllTableLocks).
Proof.
  apply (agrees_or_throw_total _ _ _ GET_ALL_TABLE_LOCKS [] (serializeVector put_lockinfo)); [by_table; apply reads_ret| |done].
  intros l [Hl Hc]. apply all_read_reads, reads_vector; [done|eapply Forall_impl; [exact Hl|apply reads_lockinfo]|].
  eapply Forall_impl; [exact Hl|]. intros x _. unfold put_lockinfo. simpl. lia.
Qed.

Lemma agrees_lockInfo i : is_u64 i -> agrees (remote (TableLockInfo i)) (local (TableLockInfo i)) (of_type (TableLockInfo i)).
Proof.
  intros Hi. apply (agrees_or_throw_total _ _ _ _ _ (fun r => match r with Some tli => put_bool true ++ put_lockinfo tli | None => put_bool false end));
    [by_table; by apply reads_get64| |done].
  intros [tli|] Hx; apply reads_val; (eapply reads_bind || eapply reads_end); try apply reads_bool; cbn iota; [|apply reads_ret].
  by apply (reads_last get_lockinfo Some), reads_lockinfo.
Qed.

Lemma agrees_startAI oid first width ty : is_u32 oid /\ is_u64 first /\ is_u32 width ->
  agrees (remote (StartAI oid first width ty)) (local (StartAI oid first width ty)) (fun _ => True).
Proof.
  intros (H1 & H2 & H3). unfold is_u64 in *. apply agrees_code_only_total; [|done].
  eapply (served_by _ _ _ _ _ _ _ _ _ _ _ _ _ START_AI_SEQUENCE _ true _ _ (oid, first, width, ty));
    [split; vm_compute; [discriminate|reflexivity]|done|reflexivity|read_fields|reflexivity].
Qed.

Lemma agrees_AIRange oid count : is_u32 oid /\ is_u32 count ->
  agrees (remote (AIRange oid count)) (local (AIRange oid count)) (of_type (AIRange oid count)).
Proof.
  intros (H1 & H2). apply (agrees_or_throw _ _ _ _ _ (fun r => match r with Some v => put_bool true ++ put64 v | None => put_bool false ++ put64 junk end)).
  - eapply (served_by _ _ _ _ _ _ _ _ _ _ _ _ _ GET_AI_RANGE _ true _ _ (oid, count));
      [split; vm_compute; [discriminate|reflexivity]|done|reflexivity| |reflexivity].
    eapply reads_bind; [by apply reads_u32|]. by apply (reads_last get32 (pair oid)), reads_u32.
  - intros [v|] Hx; [|done]. unfold mbind at 1, M_bind at 1. rewrite (reads_bool true (put64 v)). cbn iota beta.
    unfold mbind, M_bind. destruct (all_read get64 (put64 v)) as [o r] eqn:Hr.
    pose proof (all_read_reads _ _ _ (reads_get64 v Hx)) as Ha. rewrite Hr in Ha. cbn in Ha. by subst o.
Qed.

Lemma agrees_resetAI oid v : is_u32 oid /\ is_u64 v -> agrees (remote (ResetAI oid v)) (local (ResetAI oid v)) (fun _ => True).
Proof.
  intros (H1 & H2). apply agrees_code_only_total; [|done].
  eapply (served_by _ _ _ _ _ _ _ _ _ _ _ _ _ RESET_AI_SEQUENCE _ true _ _ (oid, v));
    [split; vm_compute; [discriminate|reflexivity]|done|reflexivity| |reflexivity].
  eapply reads_bind; [by apply reads_u32|]. by apply (reads_last get64 (pair oid)), reads_get64.
Qed.

(** C27. A remote call is a local call: a method of the client library for transactions,
    the system state, object ids, table locks and auto-increment sequences, called with
    arguments of its types through a connection that works, returns or throws what the
    operation of the controller's component returns or throws (with the exceptions and
    error values the library turns errors into), and the controller is left as the
    operation leaves it, with replies sent and nothing else. *)
Theorem remote_call_is_local {R} (r : Service R) s o s' :
  service_ok r -> local r s = (o, s') -> (forall f, o <> Fault f) -> (forall x, o = Val x -> of_type r x) ->
  exists rs, remote r (online s) = (o, online (say rs s')).
Proof.
  intros Hok. revert s o s'. change (agrees (remote r) (local r) (of_type r)). destruct r; cbn [service_ok of_type] in *.
  - by eapply (agrees_context VER_ID doVerID).
  - by eapply (agrees_context SYSCAT_VER_ID doSysCatVerID).
  - by apply agrees_newTxnID.
  - by apply agrees_committed.
  - by apply agrees_rolledback.
  - by apply agrees_getTxnID.
  - apply agrees_SIDTIDMap.
  - apply (agrees_or_throw_total _ _ get32 GET_UNIQUE_UINT32 [] put32); [by_table; apply reads_ret|intros x Hx; by apply reads_val, reads_u32|done].
  - apply (agrees_or_throw_total _ _ get64 GET_UNIQUE_UINT64 [] put64); [by_table; apply reads_ret|intros x Hx; by apply reads_val, reads_get64|done].
  - apply agrees_reset.
  - apply agrees_getState.
  - apply agrees_state_call. by_table. by apply reads_u32.
  - apply agrees_state_call. by_table. by apply reads_u32.
  - apply agrees_oid_call. by_table. by apply reads_i32.
  - destruct Hok. by apply agrees_returnOIDs.
  - apply agrees_oidm_size.
  - apply agrees_oid_call. by_table. by apply reads_u32.
  - by apply agrees_dbroot.
  - apply agrees_vbmap.
  - by apply agrees_getTableLock.
  - apply (agrees_or_throw _ _ _ _ _ put_bool); [by_table; by apply reads_get64|intros x _; apply all_read_reads, reads_bool].
  - by apply agrees_changeState.
  - by apply agrees_changeOwner.
  - by apply agrees_checkOwner.
  - apply agrees_allLocks.
  - apply (agrees_code_only _ _ RELEASE_ALL_TABLE_LOCKS []). by_table. apply reads_ret.
  - by apply agrees_lockInfo.
  - by apply agrees_startAI.
  - by apply agrees_AIRange.
  - by apply agrees_resetAI.
  - apply agrees_code_only. by_table. by apply reads_u32.
  - apply agrees_code_only_total; [|done]. by_table. by apply reads_u32.
  - by apply agrees_deleteAI.
Qed.
End claims.
End ServicesClaims.
