(* ===== verification/ServicesFacts.v ===== *)
(** * The controller's services: extents of a transaction, owners of locks, recovery

    What doGetUncommittedLbids, doChangeTableLockOwner and doReload do, and the services
    on a controller with two workers: the theorems applied, and what happens when a halt
    or a failure comes at the wrong moment. *)

From S2P Require Import Prelude Chain Hasher Bytes ByteStream Vss VssThms SlaveNode NodeThms NodePurge SessionManager AutoInc TableLock ResourceGraph OidServer Persist ExtentMap ExtentOps ExtentCP EmThms EmOps EmClaims EmFacts Worker Messages SlaveComm Dbrm CommThms CommSteps Controller Services DbrmServices ServicesClaims ControllerThms ControllerClaims WorkerThms WorkerClaims CommClaims.
From stdpp Require Import prelude gmap strings sorting.
Local Open Scope Z_scope.

(** ** The extents a transaction has changed

    doGetUncommittedLbids of masterdbrmnode.cpp: the scan over the sorted LBIDs of a
    transaction visits every extent that has one of them exactly once. *)

(** ** Recovery from a failure

    An administrator halts the system, reloads the connections to the workers and
    resumes it: the way out of the read-only and halting states that a network failure
    leaves (doHalt, doReload and doResume of masterdbrmnode.cpp). *)

(** ** Who owns a table lock

    A lock may change its owner only when the process that holds it is gone; the
    controller asks every worker whether the process runs on its machine. *)

Module LockOwner.
Import Messages SlaveComm CommThms CommReads CommSteps Controller ControllerThms Services ServicesThms ServicesClaims.

Section owner.
Context {IO : ExtentMap.IterOrder}.
Context (others : SlaveNode.node -> SlaveNode.node) (emsg : stream -> Worker.worker -> list Z)
  (set0 : ExtentCP.CPMaxMin) (merge0 : ExtentCP.CPMaxMinMerge) (procStat : Z -> Z -> option (list Z)) (pads : Worker.Pads)
  (order : gset RG.node -> list RG.node).

Abbreviation handle h := (h others emsg set0 merge0 procStat pads).

(** ** One worker *)
Definition runs (name : list Z) (pid : Z) (c : comm) : bool := processExists procStat (host c) pid name.
Definition said (name : list Z) (pid : Z) (c : comm) : stream := put8 (if runs name pid c then 1 else 0).

(** The worker after it has answered. *)
Definition asked (msg : stream) (name : list Z) (pid : Z) (c : comm) : comm :=
  set_master (mkLink true (up (master c)) (S (ops (master c))) [said name pid c]) (if firstSlave c then set_delta msg c else c).

Lemma receive_owner name pid c :
  let msg := put8 OWNER_CHECK ++ put_string name ++ put32 pid in
  connected c -> sent (master c) = [] -> name_ok name -> is_u32 pid -> handle receive msg c = (Val tt, asked msg name pid c).
Proof.
  intros msg [Ho Hu Ha _ _] Hs Hn Hp. unfold receive. change (zlen msg =? 0) with false. cbn iota. unfold try_catch, processCommand.
  assert (remember msg c = (Val tt, if firstSlave c then set_delta msg c else c)) as Hrem.
  { unfold remember, gets, lift, mbind, M_bind. by destruct (firstSlave c). }
  rewrite (bind_Val _ _ _ _ _ Hrem). set (c0 := if firstSlave c then _ else c).
  assert (master c0 = master c /\ standalone c0 = standalone c /\ host c0 = host c) as (Hm0 & Hs0 & Hh0) by (unfold c0; by destruct (firstSlave c)).
  rewrite (bind_Val _ _ _ _ _ (parse_reads get8 (put8 OWNER_CHECK) OWNER_CHECK (put_string name ++ put32 pid) c0 (reads_get8 OWNER_CHECK ltac:(done)))). cbn beta iota.
  change (handle dispatch OWNER_CHECK) with (do_ownerCheck procStat). unfold do_ownerCheck.
  assert (reads (name ← get_string; pid ← get32; mret (name, pid)) (put_string name ++ put32 pid) (name, pid)) as Hr.
  { eapply reads_bind; [by apply reads_string|]. by apply (reads_last get32 (pair name)), reads_u32. }
  rewrite (bind_Val _ _ _ _ _ (parse_all _ _ _ c0 Hr)). cbn beta iota. unfold idbassert, gets, write_master, mbind, M_bind. cbn [zlen].
  change (zlen (A:=Z) [] =? 0) with true. cbn iota. rewrite Hs0, Ha, Hm0, Ho, Hu, Hs, Hh0. reflexivity.
Qed.

Lemma ready_asked B n w J msg name pid c : ready B n w J c -> ready B n w J (pop_sent (asked msg name pid c)).
Proof. intros [[] Hw Hs Hj]. unfold asked, pop_sent. destruct (firstSlave c) eqn:Hf; (split; [by split|done|done|]; intros H; by apply Hj). Qed.

(** ** All workers *)
Lemma any_alive_said name pid ws : any_alive (said name pid <$> ws) = Val (existsb (runs name pid) ws).
Proof.
  induction ws as [|c ws IH]; [done|]. rewrite fmap_cons. cbn [any_alive existsb].
  change (negb (zlen (said name pid c) =? 1)) with false. cbn iota. unfold mbind, outcome_bind. rewrite IH. unfold said. by destruct (runs name pid c).
Qed.

Lemma ask_workers_run B n w J c name pid :
  let msg := put8 OWNER_CHECK ++ put_string name ++ put32 pid in
  system B n w J c -> name_ok name -> is_u32 pid ->
  exists c', handle ask_workers msg c = (Val (said name pid <$> slaves c, false), c') /\
    system B n w J c' /\ answers c' = answers c /\ sm c' = sm c.
Proof.
  intros msg [Hcalm [Hro Hha Hlk Hrs Hg Hne Hws]] Hn Hp. destruct c as [ws s o g ro ha lk i rs an e k]. cbn in Hcalm, Hro, Hha, Hlk, Hrs, Hg, Hne, Hws. subst ro ha lk rs.
  assert (Forall2 (fun w w' => isOpen (master w) = true /\ handle receive msg w = (Val tt, w')) ws (asked msg name pid <$> ws)) as H1.
  { clear Hne. induction Hws as [|x ws [Hx ? ? ?] _ IH]; [constructor|]. constructor; [|exact IH]. split; [apply Hx|by apply receive_owner]. }
  assert (Forall2 (fun w r => sent (master w) = [r] /\ r <> []) (asked msg name pid <$> ws) (said name pid <$> ws)) as H2.
  { clear. induction ws; constructor; [|done]. split; [done|]. unfold said. by destruct (runs name pid a). }
  pose proof (distribute_run others emsg set0 merge0 procStat pads s o g false true an e msg ws _ i [] k (calm_quiet _ _ _ Hcalm) H1) as Hd.
  pose proof (gather_run s o g false true an e _ _ (length ws) [] (k + length ws) (calm_quiet _ _ _ Hcalm) H2) as Hga. rewrite length_fmap in Hga.
  eexists. split.
  - unfold ask_workers. rewrite (bind_Val (gets _) _ _ _ _ eq_refl). erewrite (bind_Val lock); [|reflexivity].
    rewrite (bind_Val (modify _) _ _ _ _ eq_refl).
    unfold set_slaveLock, set_responses. cbn [slaves sm oids rg readOnly halting slaveLock iSlave responses answers env clock].
    erewrite bind_Val; [|unfold try_catch; rewrite (bind_Val _ _ _ _ _ Hd), (bind_Val _ _ _ _ _ Hga); reflexivity]. reflexivity.
  - split; [|done]. split; [done|]. split; try done; cbn.
    + by destruct ws.
    + rewrite <- list_fmap_compose. clear -Hws. induction Hws; constructor; [by apply ready_asked|done].
Qed.

Context (aiOthers : AutoInc.t -> AutoInc.t) (junk : Z) (here : nat) (catalog : server -> stream)
  (reconnect : list SlaveComm.comm -> option (list SlaveComm.comm)) (connect : M server unit).

(** Nothing else happens between the check and the change. *)
Abbreviation client_call r := (remote others emsg set0 merge0 procStat pads order (fun s => s) aiOthers junk here catalog reconnect connect r).
Abbreviation server_call r := (local others emsg set0 merge0 procStat pads (fun s => s) aiOthers r).

Definition alive (tli : TableLock.TableLockInfo) (s : server) : bool :=
  existsb (runs (processName (TableLock.ownerName tli)) (TableLock.ownerPID tli)) (slaves (ctl s)).

Lemma processName_ok name : name_ok name -> name_ok (processName name).
Proof.
  unfold name_ok, zlen. cut (length (processName name) <= length name)%nat; [lia|]. induction name as [|c name IH]; [done|].
  simpl. destruct (c =? 32); simpl; lia.
Qed.

Lemma owner_alive_run B n w J s i tli :
  system B n w J (ctl s) -> locks s !! i = Some tli -> name_ok (TableLock.ownerName tli) -> is_u32 (TableLock.ownerPID tli) ->
  exists c', owner_alive others emsg set0 merge0 procStat pads i s = (Val (Some (alive tli s)), set_ctl c' s) /\
    system B n w J c' /\ answers c' = answers (ctl s) /\ sm c' = sm (ctl s).
Proof.
  intros Hsys Hi Hn Hp. destruct (ask_workers_run B n w J (ctl s) _ _ Hsys (processName_ok _ Hn) Hp) as (c' & Hrun & Hc').
  exists c'. split; [|exact Hc']. unfold owner_alive, find_owner.
  rewrite (bind_Val (gets _ ≫= _) _ s (Some (Some (alive tli s))) (set_ctl c' s)); [reflexivity|].
  rewrite (bind_Val (gets _) _ _ _ _ eq_refl). unfold TableLock.getLockInfo, lock_view. cbn [TableLock.locks]. rewrite Hi.
  erewrite (bind_Val (inCtl _)); [|unfold inCtl, zoom, owner_query; rewrite Hrun; reflexivity]. cbn beta iota.
  unfold lift, mbind, M_bind. by rewrite any_alive_said.
Qed.

(** A lock is taken over only from a process that is gone: when the client asks the
    controller to change the owner of a table lock, every worker is asked, and if the
    owner (its name up to the first blank, and its pid) runs on the machine of any of
    them, the answer is no and the locks are as they were; otherwise the lock has the
    new owner and is otherwise unchanged.  In both cases the workers stay as they are. *)
Theorem owner_changes_when_gone B n w J s i tli name pid ses txn :
  system B n w J (ctl s) -> locks s !! i = Some tli -> lock_ok tli -> service_ok (ChangeOwner i name pid ses txn) -> lockOpen s = true ->
  exists s', client_call (ChangeOwner i name pid ses txn) (Dbrm.mkClient true s) = (Val (negb (alive tli s)), Dbrm.mkClient true s') /\
    locks s' = (if alive tli s then locks s else <[i := TableLock.set_owner name pid ses txn tli]> (locks s)) /\
    system B n w J (ctl s').
Proof.
  intros Hsys Hi Hok Hr Ho. destruct (owner_alive_run B n w J s i tli Hsys Hi (lo_name _ Hok) (lo_pid _ Hok)) as (c' & Ha & Hc' & _).
  assert (exists s1, server_call (ChangeOwner i name pid ses txn) s = (Val (negb (alive tli s)), s1) /\ system B n w J (ctl s1) /\
    locks s1 = (if alive tli s then locks s else <[i := TableLock.set_owner name pid ses txn tli]> (locks s))) as (s1 & Hl & Hs1 & Hm).
  { cbn [local]. unfold or_error, try_catch. rewrite (bind_Val _ _ _ _ _ Ha). destruct (alive tli s); [by eexists|].
    destruct s as [c lk fl op ai]. cbn in Hi, Ho, Hc' |- *. subst op.
    unfold inLocks, zoom, TableLock.changeOwner, TableLock.update, TableLock.save_or, TableLock.save, lock_view, set_lock_view, set_ctl, gets, modify, try_catch, mbind, M_bind.
    cbn. rewrite Hi. cbn. eexists. split; [reflexivity|]. cbn. split; [|done]. by destruct c', Hc' as [? []]. }
  destruct (agrees_changeOwner others emsg set0 merge0 procStat pads order (fun s => s) aiOthers junk here catalog reconnect connect i name pid ses txn Hr
    s _ s1 Hl) as (rs & Hrun); [done|done|].
  exists (say rs s1). split; [exact Hrun|]. split; [exact Hm|]. destruct s1 as [[] ? ? ? ?], Hs1 as [? []]. by split.
Qed.
End owner.
End LockOwner.

Module Recovery.
Import Messages SlaveComm CommThms CommSteps Controller ControllerThms Services ServicesThms.

(** A worker process that runs; it may have executed a command that was neither confirmed
    nor undone, its connection may be closed, replies may not have been read.  That its
    tables can be undone is all that is assumed of them. *)
Record stuck (B n : Z) (J : stream) (y : comm) : Prop := {
  sk_up : forall k, up (master y) k = true;
  sk_alone : standalone y = false;
  sk_print : printOnly y = false;
  sk_undo : exists v, Worker.undoChanges (slave y) = (Val tt, v);
  sk_journal : keeps_journal B n J y }.

(** The worker on a new connection; replies that were not read are gone. *)
Definition reconnected (y : comm) : comm := set_master (mkLink true (up (master y)) (ops (master y)) []) y.

Section recovery.
Context {IO : ExtentMap.IterOrder}.
Context (others : SlaveNode.node -> SlaveNode.node) (emsg : stream -> Worker.worker -> list Z)
  (set0 : ExtentCP.CPMaxMin) (merge0 : ExtentCP.CPMaxMinMerge) (procStat : Z -> Z -> option (list Z)) (pads : Worker.Pads)
  (order : gset RG.node -> list RG.node).
Context (meanwhile : server -> server) (aiOthers : AutoInc.t -> AutoInc.t) (junk : Z) (here : nat) (catalog : server -> stream)
  (reconnect : list SlaveComm.comm -> option (list SlaveComm.comm)).

Abbreviation handle h := (h others emsg set0 merge0 procStat pads).
Abbreviation serve_msg := (Services.msgProcessor others emsg set0 merge0 procStat pads order meanwhile aiOthers junk here catalog reconnect 1).

(** [y'] is [y] with its undecided command undone, waiting for a command. *)
Definition undone (B n : Z) (J : stream) (y y' : comm) : Prop :=
  Worker.undoChanges (slave y) = (Val tt, slave y') /\ ready B n (slave y') J y'.

Lemma stuck_undone B n J y :
  stuck B n J y -> isOpen (master (reconnected y)) = true /\
  exists y', handle receive (put8 BRM_UNDO) (reconnected y) = (Val tt, y') /\ undone B n J y y'.
Proof.
  intros [Hu Ha Hp (v & Hun) Hj]. split; [done|]. eexists. split; [by apply receive_UNDO|]. unfold reconnected, undone.
  destruct (firstSlave y) eqn:Hf; cbn; rewrite ?Hf; (split; [done|]); (split; [by split|done|done|]); intros H; by apply Hj.
Qed.

Lemma all_undone B n J ws :
  Forall (stuck B n J) ws ->
  exists ws', Forall2 (fun x x' => isOpen (master x) = true /\ handle receive (put8 BRM_UNDO) x = (Val tt, x')) (reconnected <$> ws) ws' /\
    Forall2 (undone B n J) ws ws'.
Proof.
  induction 1 as [|y ws Hy _ (ws' & H1 & H2)]; [by exists []|]. destruct (stuck_undone B n J y Hy) as (Ho & y' & Hr & Hy').
  exists (y' :: ws'). split; constructor; done.
Qed.

Lemma undone_agree B n w J ws ws' : Forall (fun y => Worker.undoChanges (slave y) = (Val tt, w)) ws ->
  Forall2 (undone B n J) ws ws' -> Forall (ready B n w J) ws'.
Proof.
  intros Hw H2. induction H2 as [|y y' ws ws' [Hu Hr] _ IH]; [done|]. apply Forall_cons in Hw as [Hy Hw].
  constructor; [|by apply IH]. rewrite Hu in Hy. injection Hy as <-. done.
Qed.

(** C28. Recovery: halt, reload and resume, on a network that works again, bring a system
    back that a failure left read-only or halting, with workers that executed a command
    which was never decided, closed connections and replies that were not read.  Every
    worker undoes what it has not confirmed, drops the old replies and waits for commands,
    and the controller takes commands again.  Where undoing leads all workers to the same
    tables (as when none of them had confirmed the command), the system is one that works
    on those; workers of which only some had confirmed stay different
    ([lost_confirmation_diverges]).  No command is being served, all worker processes run
    and can be reached again, their tables can be undone, and no transaction is in the
    resource graph. *)
Theorem reload_recovers B n J s :
  Forall (stuck B n J) (slaves (ctl s)) -> slaves (ctl s) <> [] -> slaveLock (ctl s) = false -> responses (ctl s) = [] ->
  RG.txns (rg (ctl s)) = ∅ -> calm (env (ctl s)) -> reconnect (slaves (ctl s)) = Some (reconnected <$> slaves (ctl s)) ->
  exists s', for_each [put8 HALT; put8 RELOAD; put8 RESUME] (fun msg => serve_msg msg ;; mret tt) s = (Val tt, s') /\
    answers (ctl s') = answers (ctl s) ++ [put8 ERR_OK; put8 ERR_OK; put8 ERR_OK] /\
    readOnly (ctl s') = false /\ halting (ctl s') = false /\ slaveLock (ctl s') = false /\
    Forall2 (undone B n J) (slaves (ctl s)) (slaves (ctl s')) /\
    forall w, Forall (fun y => Worker.undoChanges (slave y) = (Val tt, w)) (slaves (ctl s)) -> system B n w J (ctl s').
Proof.
  destruct s as [[ws sm o g ro ha lk i rs an e k] locks file op ai]. cbn. intros Hws Hne -> -> Hg Hcalm Hrc.
  destruct (all_undone B n J ws Hws) as (ws' & H1 & H2). set (c0 := mkCtl ws sm o g ro true true i [] (an ++ [put8 ERR_OK]) e k).
  assert (serve_msg (put8 HALT) (mkServer (mkCtl ws sm o g ro ha false i [] an e k) locks file op ai) = (Val None, mkServer c0 locks file op ai)) as HH
    by reflexivity.
  rewrite (bind_Val (serve_msg (put8 HALT) ;; mret tt) _ _ tt (mkServer c0 locks file op ai)) by (by rewrite (bind_Val _ _ _ _ _ HH)).
  set (m := length (reconnected <$> ws)).
  set (c1 := mkCtl ws' sm o g false true true m [] ((an ++ [put8 ERR_OK]) ++ [put8 ERR_OK]) e (k + m)).
  assert (handle doReload reconnect c0 = (Val tt, c1)) as HR.
  { unfold doReload. rewrite (bind_Val (gets _) _ _ _ _ eq_refl). unfold c0. cbn [slaves]. rewrite Hrc.
    rewrite !(bind_Val (modify _) _ _ _ _ eq_refl). unfold set_slaves, set_iSlave. cbn [slaves Controller.sm oids rg readOnly halting slaveLock iSlave responses answers env clock].
    rewrite (bind_Val _ _ _ _ _ (undo_all_run others emsg set0 merge0 procStat pads sm o g ro true _ e (ha:=true) (reconnected <$> ws) ws' [] k (calm_quiet _ _ _ Hcalm) H1)).
    reflexivity. }
  assert (serve_msg (put8 RELOAD) (mkServer c0 locks file op ai) = (Val None, mkServer c1 locks file op ai)) as HR'.
  { change ((inCtl (handle doReload reconnect) ;; mret None) (mkServer c0 locks file op ai) = (Val (None (A:=Z * bool)), mkServer c1 locks file op ai)).
    unfold inCtl, zoom, mbind, M_bind. cbn [ctl]. by rewrite HR. }
  rewrite (bind_Val (serve_msg (put8 RELOAD) ;; mret tt) _ _ tt (mkServer c1 locks file op ai)) by (by rewrite (bind_Val _ _ _ _ _ HR')).
  eexists. split; [reflexivity|]. cbn. split; [by rewrite <- !app_assoc|]. do 3 (split; [done|]). split; [exact H2|].
  intros w Hw. split; [done|]. split; try done; cbn; [|by eapply undone_agree].
  intros ->. apply Forall2_length in H1. rewrite length_fmap in H1. by destruct ws.
Qed.
End recovery.
End Recovery.

Module Uncommitted.
Import ExtentMap EmThms EmOps EmClaims WorkerClaims.

(** The extent that holds a block. *)
Definition holds (s : ExtentMap.t) (l k : Z) : Prop := exists e, em s !! k = Some e /\ owns (range e) l.

Lemma holds_one s l k k' : ready s -> holds s l k -> holds s l k' -> k = k'.
Proof.
  intros [_ Hs] (e & Hk & Ho) (e' & Hk' & Ho'). pose proof (ci_tree s (ei_core s Hs)) as Ht.
  pose proof (findByLBID_owner _ _ _ _ Ht Hk Ho). pose proof (findByLBID_owner _ _ _ _ Ht Hk' Ho'). congruence.
Qed.

Definition ends (s : ExtentMap.t) (k b : Z) : Prop := exists e, em s !! k = Some e /\ b = k + blocks e - 1.

Lemma holds_between s k b l l' : ready s -> ends s k b -> holds s l k -> l <= l' <= b -> holds s l' k.
Proof.
  intros [_ Hs] (e & He & ->) (e' & He' & Ho) Hl. assert (e' = e) as -> by congruence. exists e. split; [done|].
  pose proof (tr_key _ (ci_tree s (ei_core s Hs)) _ _ He) as Hk. unfold owns, lbid0, blocks in *. lia.
Qed.

Lemma holds_below s k b l : ready s -> ends s k b -> holds s l k -> k <= l <= b.
Proof.
  intros [_ Hs] (e & He & ->) (e' & He' & Ho). assert (e' = e) as -> by congruence.
  pose proof (tr_key _ (ci_tree s (ei_core s Hs)) _ _ He) as Hk. unfold owns, lbid0, blocks in *. lia.
Qed.

Lemma holds_first s l k : ready s -> holds s l k -> holds s k k.
Proof.
  intros [_ Hs] (e & He & Ho). exists e. split; [done|].
  pose proof (tr_key _ (ci_tree s (ei_core s Hs)) _ _ He) as Hk. unfold owns, lbid0 in *. lia.
Qed.

(** The loop, after an extent [k0] that ends at [b] and holds a block before all others. *)
Definition behind (s : ExtentMap.t) (last : option Z) (ls : list Z) : Prop :=
  match last with
  | None => True
  | Some b => exists k0 l0, ends s k0 b /\ holds s l0 k0 /\ Forall (Z.le l0) ls
  end.
Definition beyond (last : option Z) (l : Z) : Prop := match last with None => True | Some b => b < l end.

Lemma behind_tail s last l ls : behind s last (l :: ls) -> behind s last ls.
Proof. destruct last as [b|]; [|done]. intros (k0 & l0 & ? & ? & ?%Forall_cons). naive_solver. Qed.

Lemma extents_of_exact s ls : forall last,
  ready s -> StronglySorted Z.le ls -> (forall l, l ∈ ls -> exists k, holds s l k) -> behind s last ls ->
  exists r, Services.extents_of last ls s = (Val (Some r), s) /\ StronglySorted Z.lt r /\
    (forall k, k ∈ r <-> exists l, l ∈ ls /\ beyond last l /\ holds s l k) /\ Forall (fun k => beyond last k) r.
Proof.
  induction ls as [|l ls IH]; intros last Hs Hsort Hall Hb.
  { exists []. split_and!; [done|constructor| |constructor]. intros k. split; [by intros ?%elem_of_nil|by intros (? & ?%elem_of_nil & _)]. }
  apply StronglySorted_inv in Hsort as [Hsort Hle]. cbn [Services.extents_of].
  destruct (match last with Some e => l <=? e | None => false end) eqn:Hskip.
  - destruct last as [b|]; [|done]. apply Z.leb_le in Hskip.
    destruct (IH (Some b) Hs Hsort) as (r & Hrun & Hr & Hin & Hf); [set_solver|by eapply behind_tail|].
    exists r. split_and!; [done|done| |done]. intros k. rewrite Hin. cbn [beyond].
    split; [|intros (l' & [->|Hl']%elem_of_cons & ? & ?)]; [set_solver|lia|set_solver].
  - destruct (Hall l) as (k & e & He & Ho); [set_solver|]. pose proof Hs as [[Hlk _ _] Hinv].
    rewrite (bind_Val _ _ _ _ _ (lookup_owner k e l s Hinv Hlk He Ho)). set (b := k + blocks e - 1).
    assert (ends s k b) as Hend by (by exists e). assert (holds s l k) as Hlh by (by exists e).
    destruct (IH (Some b) Hs Hsort) as (r & Hrun & Hr & Hin & Hf); [set_solver|by exists k, l|].
    exists (k :: r). rewrite (bind_Val _ _ _ _ _ Hrun). pose proof (holds_below s k b l Hs Hend Hlh) as Hkb.
    assert (beyond last l) as Hbl by (destruct last; [apply Z.leb_gt in Hskip; done|done]).
    split_and!; [done| | |].
    + constructor; [done|]. eapply Forall_impl; [exact Hf|]. cbn [beyond]. intros. lia.
    + intros k'. rewrite elem_of_cons, Hin. cbn [beyond]. split.
      * intros [->|(l' & Hl' & Hlt & Hh)]; [by exists l; set_solver|]. exists l'. split_and!; [set_solver| |done].
        destruct last as [b0|]; [|done]. cbn in *. rewrite Forall_forall in Hle. specialize (Hle _ Hl'). lia.
      * intros (l' & [->|Hl']%elem_of_cons & _ & Hh); [left; by eapply holds_one|]. rewrite Forall_forall in Hle. specialize (Hle _ Hl').
        destruct (Z.le_gt_cases l' b) as [Hin'|Hout]; [left|right; by exists l'].
        eapply holds_one; [exact Hs|exact Hh|]. by apply (holds_between s k b l l').
    + assert (beyond last k) as Hk.
      { destruct last as [b0|]; [|done]. cbn in *. destruct Hb as (k0 & l0 & He0 & Hh0 & Hl0%Forall_cons).
        destruct (Z.le_gt_cases k b0) as [Hc|Hc]; [exfalso|lia]. destruct Hl0 as [Hl0 _]. pose proof (holds_below s k0 b0 l0 Hs He0 Hh0).
        assert (holds s b0 k0) as H1 by (by apply (holds_between s k0 b0 l0 b0); [..|lia]).
        assert (holds s b0 k) as H2 by (apply (holds_between s k b k b0); [done|done|by eapply holds_first|lia]).
        pose proof (holds_one s b0 k0 k Hs H1 H2) as ->. pose proof (holds_below s k b0 l Hs He0 Hlh). lia. }
      constructor; [done|]. eapply Forall_impl; [exact Hf|]. intros x Hx. destruct last; cbn in *; [lia|done].
Qed.

(** ** The transaction's blocks *)
Lemma uncommitted_lbids txn n l :
  NodeThms.node_ok n -> l ∈ VSS.getUncommittedLBIDs txn (VSS.seg (SlaveNode.vss n)) <-> is_Some (NodeThms.V n !! (l, txn)).
Proof.
  intros Hn. pose proof (VSSThms.wf_tab _ _ _ (NodeThms.ok_vss n Hn)) as Ht. set (g := VSS.seg (SlaveNode.vss n)) in *.
  assert (take (Z.to_nat (VSS.capacity (VSS.hdr g))) (VSS.storage g) = VSS.storage g) as Hall.
  { apply take_ge. pose proof (VSSThms.tb_cap g Ht). unfold zlen in *. lia. }
  unfold VSS.getUncommittedLBIDs, VSS.scan. rewrite Hall, list_elem_of_fmap. unfold NodeThms.V. fold g. split.
  - intros (e & -> & Hin). apply list_elem_of_filter in Hin as [[Hu Hv] Hin]. apply Z.eqb_eq in Hv. apply list_elem_of_lookup_1 in Hin as (i & Hi).
    exists (VSSThms.val e). apply VSSThms.vss_abs_Some; [apply Ht|]. exists (Z.of_nat i), e. split_and!; [|done|by unfold VSSThms.key; rewrite Hv|done].
    unfold zget. destruct (Z.ltb_spec (Z.of_nat i) 0); [lia|]. by rewrite Nat2Z.id.
  - intros (x & Hx). apply VSSThms.vss_abs_Some in Hx as (i & e & Hi & Hl & Hk & _); [|apply Ht]. unfold VSSThms.key in Hk. inversion Hk; subst.
    exists e. split; [done|]. apply list_elem_of_filter. rewrite Z.eqb_refl. split; [done|]. unfold zget in Hi. destruct (i <? 0); [done|].
    by eapply list_elem_of_lookup_2.
Qed.

(** The extents a transaction has changed: when the blocks of the transaction are in
    extents, the scan answers with the first LBIDs of exactly those extents that hold a
    block of which the VSS has a version of the transaction, in ascending order and each
    once; the tables do not change. *)
Theorem uncommitted_extents_exact txn w :
  steady w -> (forall l, is_Some (NodeThms.V (Worker.nd w) !! (l, txn)) -> exists k, holds (Worker.emap w) l k) ->
  exists r, Services.uncommitted_extents txn w = (Val (Some r), w) /\ StronglySorted Z.lt r /\
    forall k, k ∈ r <-> exists l, is_Some (NodeThms.V (Worker.nd w) !! (l, txn)) /\ holds (Worker.emap w) l k.
Proof.
  intros (Hr & Hn & _) Hall. unfold Services.uncommitted_extents. rewrite (bind_Val (gets _) _ _ _ _ eq_refl).
  set (ls := VSS.getUncommittedLBIDs txn _). pose proof (merge_sort_Permutation Z.le ls) as Hp.
  destruct (extents_of_exact (Worker.emap w) (merge_sort Z.le ls) None Hr) as (r & Hrun & Hs & Hin & _).
  - apply (StronglySorted_merge_sort Z.le ls).
  - intros l Hl. rewrite Hp in Hl. by apply Hall, uncommitted_lbids.
  - done.
  - exists r. split_and!; [|done|].
    + unfold Worker.inEM, zoom. rewrite Hrun. by destruct w.
    + intros k. rewrite Hin. setoid_rewrite Hp. unfold ls. cbn [beyond]. setoid_rewrite uncommitted_lbids; [|done]. naive_solver.
Qed.
End Uncommitted.

Module ServicesExamples.
Import Messages SlaveComm CommThms CommSteps Controller ControllerThms ControllerClaims CommClaims Services ServicesThms ServicesClaims LockOwner Recovery.

(** A lock of the process "ab" with pid 77, which runs on machine 2. *)
Definition lock1 : TableLock.TableLockInfo := TableLock.mkTLI 9 3000 [97; 98; 32; 49] 77 1 1 TableLock.LOADING 0 [1].
Definition proc1 (machine pid : Z) : option (list Z) :=
  if (machine =? 2) && (pid =? 77) then Some [55; 55; 32; 40; 97; 98; 41; 32; 83] else None.
Definition server1 (e : Env) : server := mkServer (ctl0 oids0 e) {[ 9 := lock1 ]} None true ∅.

Abbreviation with_ procs h := (h (fun n => n) (fun _ _ => []) set1 merge1 procs WorkerClaims.pads0).
Abbreviation ask procs r :=
  (with_ procs remote order0 (fun s => s) (fun m => m) 0 0%nat (fun _ => []) Some (mret tt) r).

Lemma lock1_ok : lock_ok lock1.
Proof. split; unfold lock1, name_ok, is_u64, is_u32, is_i32, is_i64, count64, zlen; simpl; try lia. repeat constructor; lia. Qed.

(** A transaction is started by message. *)
Lemma remote_call_is_local_witness :
  exists rs s', ask proc1 (NewTxnID 7 true false) (Dbrm.mkClient true (server1 fine)) =
    (Val (SessionManager.mkTxn 1 true), Dbrm.mkClient true (say rs s')) /\
    SessionManager.activeTxns (sm (ctl s')) !! 7 = Some 1.
Proof.
  destruct (with_ proc1 local (fun s => s) (fun m => m) (NewTxnID 7 true false) (server1 fine)) as [o s'] eqn:Hl.
  assert (o = Val (SessionManager.mkTxn 1 true)) as -> by (apply (f_equal fst) in Hl; vm_compute in Hl; by inversion Hl).
  destruct (with_ proc1 remote_call_is_local order0 (fun s => s) (fun m => m) 0 0%nat (fun _ => []) Some (mret tt)
    (NewTxnID 7 true false) (server1 fine) (Val (SessionManager.mkTxn 1 true)) s') as (rs & Hrun); [cbn; unfold is_u32; lia|exact Hl|done| |].
  - intros x [= <-]. cbn. unfold txn_ok, is_i32. simpl. lia.
  - exists rs, s'. split; [exact Hrun|]. apply (f_equal snd) in Hl. cbn [snd] in Hl. rewrite <- Hl. vm_compute. reflexivity.
Defined.

(** The owner lives: the lock stays.  On other machines than the second it does not. *)
Lemma owner_changes_when_gone_witness :
  (exists s', ask proc1 (ChangeOwner 9 [99] 5 2 2) (Dbrm.mkClient true (server1 fine)) = (Val false, Dbrm.mkClient true s') /\
     locks s' = {[ 9 := lock1 ]}) /\
  (exists s', ask (fun _ _ => None) (ChangeOwner 9 [99] 5 2 2) (Dbrm.mkClient true (server1 fine)) = (Val true, Dbrm.mkClient true s') /\
     locks s' = {[ 9 := TableLock.set_owner [99] 5 2 2 lock1 ]}).
Proof.
  assert (service_ok (ChangeOwner 9 [99] 5 2 2)) as Hr by (cbn; unfold is_u64, is_u32, is_i32, name_ok, zlen; simpl; lia).
  split.
  - destruct (with_ proc1 owner_changes_when_gone order0 (fun m => m) 0 0%nat (fun _ => []) Some (mret tt) 1000000 50 WorkerClaims.w1 [] (server1 fine)
      9 lock1 [99] 5 2 2 (ctl0_system oids0) eq_refl lock1_ok Hr eq_refl) as (s' & Hrun & Hl & _). by exists s'.
  - destruct (with_ (fun _ _ => None) owner_changes_when_gone order0 (fun m => m) 0 0%nat (fun _ => []) Some (mret tt) 1000000 50 WorkerClaims.w1 [] (server1 fine)
      9 lock1 [99] 5 2 2 (ctl0_system oids0) eq_refl lock1_ok Hr eq_refl) as (s' & Hrun & Hl & _). by exists s'.
Defined.

(** A halt in the middle of the check takes the lock away from a live process: the
    loop over the workers ends early when the controller is being halted, the replies
    that are there do not say that the owner lives, and the owner is changed. *)
Theorem halt_steals_lock :
  let e := mkEnv (fun _ => false) (fun k => (k =? 1)%nat) (fun _ => true) in
  let r := ask proc1 (ChangeOwner 9 [99] 5 2 2) (Dbrm.mkClient true (server1 e)) in
  alive proc1 lock1 (server1 e) = true /\ r.1 = Val true /\
  locks (Dbrm.net r.2) !! 9 = Some (TableLock.set_owner [99] 5 2 2 lock1).
Proof. vm_compute. split_and!; reflexivity. Qed.

(** ** Recovery *)

(** Both workers have executed a command, which was never confirmed: a version of block 9
    goes to the version buffer. *)
Definition s_write : Step := step (WriteVBEntry 6 9 3001 41) WorkerClaims.w1.
Definition halfway : server :=
  mkServer (mkCtl (two (st_mid s_write)) sm0 oids0 RG.empty_graph true true false 0 [] [] fine 0) ∅ None true ∅.

Lemma write_undone : Worker.undoChanges (st_mid s_write) = (Val tt, WorkerClaims.w1).
Proof. vm_compute. reflexivity. Qed.
Lemma write_pending : VSS.currentSize (VSS.hdr (VSS.seg (SlaveNode.vss (Worker.nd (st_mid s_write))))) = 4 /\
  VSS.currentSize (VSS.hdr (VSS.seg (SlaveNode.vss (Worker.nd WorkerClaims.w1)))) = 2.
Proof. by vm_compute. Qed.

Lemma halfway_stuck : Forall (stuck 1000000 50 []) (slaves (ctl halfway)).
Proof.
  apply Forall_cons; split; [|apply Forall_cons; split; [|apply Forall_nil; exact I]]; split;
    first [exists WorkerClaims.w1; exact write_undone | intros k; reflexivity | reflexivity | idtac];
    intros H; first [discriminate H | repeat split; try (intros k; simpl; lia); first [right; simpl; lia | simpl; lia]].
Qed.

Lemma reload_recovers_witness :
  exists s', for_each [put8 HALT; put8 RELOAD; put8 RESUME]
      (fun msg => with_ proc1 Services.msgProcessor order0 (fun s => s) (fun m => m) 0 0%nat (fun _ => [])
                    (fun ws => Some (reconnected <$> ws)) 1%nat msg ;; mret tt) halfway = (Val tt, s') /\
    system 1000000 50 WorkerClaims.w1 [] (ctl s') /\ answers (ctl s') = [[0]; [0]; [0]].
Proof.
  destruct (with_ proc1 reload_recovers order0 (fun s => s) (fun m => m) 0 0%nat (fun _ => []) (fun ws => Some (reconnected <$> ws)) 1000000 50 [] halfway)
    as (s' & Hrun & Ha & _ & _ & _ & _ & Hw).
  - exact halfway_stuck.
  - done.
  - done.
  - done.
  - done.
  - done.
  - done.
  - exists s'. split; [exact Hrun|]. split; [|exact Ha]. apply Hw.
    apply Forall_cons; split; [exact write_undone|]. apply Forall_cons; split; [exact write_undone|]. apply Forall_nil; exact I.
Defined.

(** A confirmation that reaches only some workers splits them: the client is told
    that its command succeeded, and after the reload the first worker, which had
    confirmed, has the extent, while the second, which had not, has undone it. *)
Theorem lost_confirmation_diverges :
  let e := mkEnv (fun k => (k =? 5)%nat) (fun _ => false) (fun _ => false) in
  let s := mkServer (ctl0 oids0 e) ∅ None true ∅ in
  let r := for_each [encode cpads0 (CreateDict 3200 2 0 0); put8 HALT; put8 RELOAD; put8 RESUME]
      (fun msg => with_ proc1 Services.msgProcessor order0 (fun s => s) (fun m => m) 0 0%nat (fun _ => [])
                    (fun ws => Some (reconnected <$> ws)) 1%nat msg ;; mret tt) s in
  r.1 = Val tt /\ head <$> head (answers (ctl r.2)) = Some (Some 0) /\ readOnly (ctl r.2) = false /\
  (fun y => size (ExtentMap.em (Worker.emap (slave y)))) <$> slaves (ctl r.2) = [2%nat; 1%nat].
Proof. vm_compute. split_and!; reflexivity. Qed.

(** Transaction 5 has a version of block 7, in the extent at 0. *)
Lemma uncommitted_extents_exact_witness :
  exists r, Services.uncommitted_extents 5 WorkerClaims.w1 = (Val (Some r), WorkerClaims.w1) /\ 0 ∈ r.
Proof.
  assert (Uncommitted.holds (Worker.emap WorkerClaims.w1) 7 0) as Hh.
  { exists EmFacts.e100. split; [vm_compute; reflexivity|]. unfold EmThms.owns. simpl. lia. }
  destruct (Uncommitted.uncommitted_extents_exact 5 WorkerClaims.w1 WorkerClaims.w1_steady) as (r & Hrun & _ & Hr).
  - intros l Hl. apply Uncommitted.uncommitted_lbids in Hl; [|apply WorkerClaims.w1_steady].
    assert (VSS.getUncommittedLBIDs 5 (VSS.seg (SlaveNode.vss (Worker.nd WorkerClaims.w1))) = [7]) as He by (vm_compute; reflexivity).
    rewrite He in Hl. apply list_elem_of_singleton in Hl as ->. by exists 0.
  - exists r. split; [exact Hrun|]. apply Hr. exists 7. split; [|exact Hh]. rewrite WorkerClaims.w1_version. done.
Defined.
End ServicesExamples.
