(* ===== verification/SmFs.v ===== *)
(** * The storage manager: files and system calls

    The storage manager (src/storage-manager) keeps a file as a sequence of objects
    of a fixed maximal size.  An object lies in the cache directory, the writes made
    to it since it was last uploaded in a journal beside it.  This file holds the
    state of the storage manager, the system calls it makes on objects and journals,
    and the loops around them of Replicator.cpp and IOCoordinator.cpp. *)

From S2P Require Import Prelude.
From stdpp Require Import prelude gmap strings.
Local Open Scope Z_scope.

Module SmFs.

Definition ENOENT : Z := 2.
Definition EINTR : Z := 4.
Definition EIO : Z := 5.
Definition ENODATA : Z := 61.

(** ** State *)

Record metadataObject := mkObject { mo_offset : Z; mo_length : Z; mo_key : string }.

Global Instance metadataObject_eq_dec : EqDecision metadataObject.
Proof. solve_decision. Defined.

(** What the device does with a call: it transfers at most [n] bytes, or it fails
    with an [errno]. *)
Inductive answer := Moves (n : Z) | Fails (e : Z).

(** What the device does with the writes: the first ones, and all that follow.  A run that
    ends makes finitely many writes, so the first ones alone cover it; the rest is for the
    runs that do not end.  For reads a list is enough, since every loop around read(2) ends;
    a read for which nothing is planned succeeds in full. *)
Record device := mkDevice { planned : list answer; ever_after : answer }.

(** A device that does what is planned and then works. *)
Definition steady (l : list answer) : device := mkDevice l (Moves (2 ^ 63)).

(** The calls made to the cache and to the synchronizer, in order. *)
Inductive call :=
| Cache_newJournalEntry (dir : string) (size : Z)
| Cache_newObject (dir key : string) (size : Z)
| Cache_read (dir : string) (keys : list string)
| Cache_doneReading (dir : string) (keys : list string)
| Cache_doneWriting (dir : string)
| Cache_ifExistsThenDelete (dir key : string)
| Sync_newJournalEntry (dir key : string) (size : Z)
| Sync_newObjects (dir : string) (keys : list string)
| Sync_deletedObjects (dir : string) (keys : list string).

(** The cache directory and the journal directory, by first directory and key; the
    metadata on disk and in the metadata cache ([jlookup] and [jlru], [lookup] and [lru] of
    MetadataFile::MetadataCache), by file name; what the device will do with writes
    and with reads; [errno]; the calls made; the number of UUIDs drawn. *)
Record st := mkSt {
  objs : gmap (string * string) (list Z);
  jrns : gmap (string * string) (list Z);
  disk : gmap string (list metadataObject);
  jlookup : gmap string (list metadataObject);
  jlru : list string;
  wplan : device;
  rplan : list answer;
  errno : Z;
  calls : list call;
  uuids : nat }.

Definition with_objs m s := mkSt m (jrns s) (disk s) (jlookup s) (jlru s) (wplan s) (rplan s) (errno s) (calls s) (uuids s).
Definition with_jrns m s := mkSt (objs s) m (disk s) (jlookup s) (jlru s) (wplan s) (rplan s) (errno s) (calls s) (uuids s).
Definition with_disk m s := mkSt (objs s) (jrns s) m (jlookup s) (jlru s) (wplan s) (rplan s) (errno s) (calls s) (uuids s).
Definition with_cache m l s := mkSt (objs s) (jrns s) (disk s) m l (wplan s) (rplan s) (errno s) (calls s) (uuids s).
Definition with_wplan p s := mkSt (objs s) (jrns s) (disk s) (jlookup s) (jlru s) p (rplan s) (errno s) (calls s) (uuids s).
Definition with_rplan p s := mkSt (objs s) (jrns s) (disk s) (jlookup s) (jlru s) (wplan s) p (errno s) (calls s) (uuids s).
Definition with_errno e s := mkSt (objs s) (jrns s) (disk s) (jlookup s) (jlru s) (wplan s) (rplan s) e (calls s) (uuids s).
Definition with_calls c s := mkSt (objs s) (jrns s) (disk s) (jlookup s) (jlru s) (wplan s) (rplan s) (errno s) c (uuids s).
Definition with_uuids n s := mkSt (objs s) (jrns s) (disk s) (jlookup s) (jlru s) (wplan s) (rplan s) (errno s) (calls s) n.

Definition note (c : call) : M st unit := modify (fun s => with_calls (calls s ++ [c]) s).
Definition set_errno (e : Z) : M st unit := modify (with_errno e).

(** An object in the cache directory or a journal in the journal directory. *)
Inductive path := Obj (dir key : string) | Jrn (dir key : string).

Definition file_at (p : path) (s : st) : option (list Z) :=
  match p with Obj d k => objs s !! (d, k) | Jrn d k => jrns s !! (d, k) end.

Definition file_set (p : path) (f : list Z) (s : st) : st :=
  match p with
  | Obj d k => with_objs (<[(d, k) := f]> (objs s)) s
  | Jrn d k => with_jrns (<[(d, k) := f]> (jrns s)) s
  end.

Definition file_rm (p : path) (s : st) : st :=
  match p with
  | Obj d k => with_objs (delete (d, k) (objs s)) s
  | Jrn d k => with_jrns (delete (d, k) (jrns s)) s
  end.

Definition contents (p : path) (s : st) : list Z := default [] (file_at p s).

(** ** Byte strings *)

(** [bs] written over [f] from [off] on; a gap is filled with zeros, as pwrite(2)
    does. *)
Definition splice (f : list Z) (off : Z) (bs : list Z) : list Z :=
  let o := Z.to_nat off in
  take o f ++ replicate (o - length f) 0 ++ bs ++ drop (o + length bs) f.

Definition slice (f : list Z) (off n : Z) : list Z := take (Z.to_nat n) (drop (Z.to_nat off) f).

(** ftruncate(2) *)
Definition resize_to (f : list Z) (n : Z) : list Z :=
  take (Z.to_nat n) f ++ replicate (Z.to_nat n - length f) 0.

(** A store into an array that was allocated with [new]. *)
Definition buf_put (buf : list Z) (i : Z) (bs : list Z) : outcome (list Z) :=
  if (i <? 0) || (zlen buf <? i + zlen bs) then Fault OutOfBounds else Val (splice buf i bs).

(** The decimal digits of a number, most significant first, at least [n] of them. *)
Fixpoint digits (fuel : nat) (n : nat) (m : Z) (acc : list Z) : list Z :=
  match fuel with
  | O => acc
  | S fuel => if (m =? 0) && (n =? 0)%nat then acc
              else digits fuel (pred n) (m / 10) (48 + m mod 10 :: acc)
  end.

(** ** System calls *)

Definition next_write : M st answer := fun s =>
  match planned (wplan s) with
  | [] => (Val (ever_after (wplan s)), s)
  | a :: l => (Val a, with_wplan (mkDevice l (ever_after (wplan s))) s)
  end.

(** Rounds of a loop that writes [data]: one for every planned answer and one for every
    byte.  They are enough unless the device comes to transfer nothing and not to fail
    either; such a loop does not end ([stalled_entry_never_ends]). *)
Definition rounds (data : list Z) (s : st) : nat := S (S (length (planned (wplan s)) + length data)).

Definition next_read : M st answer := fun s =>
  match rplan s with
  | [] => (Val (Moves (2 ^ 63)), s)
  | a :: l => (Val a, with_rplan l s)
  end.

(** open(2): the file descriptor, or -1. *)
Definition sys_open (p : path) (creat : bool) : M st Z :=
  a ← next_read;
  match a with
  | Fails e => set_errno e ;; mret (-1)
  | Moves _ =>
      f ← gets (file_at p);
      match f with
      | Some _ => mret 0
      | None => if creat then modify (file_set p []) ;; mret 0
                else set_errno ENOENT ;; mret (-1)
      end
  end.

Definition sys_pwrite (p : path) (buf : list Z) (off : Z) : M st Z :=
  a ← next_write;
  match a with
  | Fails e => set_errno e ;; mret (-1)
  | Moves n =>
      let n := Z.max 0 (Z.min n (zlen buf)) in
      (if 0 <? n then modify (fun s => file_set p (splice (contents p s) off (take (Z.to_nat n) buf)) s)
       else mret tt) ;;
      mret n
  end.

(** write(2) of a descriptor whose position is [pos]; the caller advances it. *)
Definition sys_write (p : path) (pos : Z) (buf : list Z) : M st Z := sys_pwrite p buf pos.

Definition sys_ftruncate (p : path) (n : Z) : M st Z :=
  a ← next_write;
  match a with
  | Fails e => set_errno e ;; mret (-1)
  | Moves _ => modify (fun s => file_set p (resize_to (contents p s) n) s) ;; mret 0
  end.

(** read(2) at the position [pos]: the count and the bytes; 0 at the end of the file
    only. *)
Definition sys_read (p : path) (pos count : Z) : M st (Z * list Z) :=
  a ← next_read;
  match a with
  | Fails e => set_errno e ;; mret (-1, [])
  | Moves n =>
      f ← gets (contents p);
      let bs := slice f pos (Z.min count (Z.max 1 n)) in
      mret (zlen bs, bs)
  end.

(** lseek(fd, delta, SEEK_CUR): a position below zero is refused. *)
Definition seek_cur (pos delta : Z) : Z :=
  let p := pos + i64 delta in if p <? 0 then pos else p.

(** ** The loops around them *)

(** Replicator::_pwrite *)
Fixpoint pwrite_rounds (fuel : nat) (p : path) (data : list Z) (off count : Z) : M st Z :=
  match fuel with
  | O => fail_with OutOfFuel
  | S fuel =>
      err ← sys_pwrite p (drop (Z.to_nat count) data) (off + count);
      e ← gets errno;
      if (err <? 0) || ((err =? 0) && negb (e =? EINTR))
      then mret (if 0 <? count then count else err)
      else
        let count := count + err in
        if count <? zlen data then pwrite_rounds fuel p data off count else mret count
  end.

Definition _pwrite (p : path) (data : list Z) (off : Z) : M st Z := fun s =>
  pwrite_rounds (rounds data s) p data off 0 s.

(** Replicator::_write, at the descriptor's position. *)
Fixpoint write_rounds (fuel : nat) (p : path) (pos : Z) (data : list Z) (count : Z) : M st Z :=
  match fuel with
  | O => fail_with OutOfFuel
  | S fuel =>
      err ← sys_write p (pos + count) (drop (Z.to_nat count) data);
      e ← gets errno;
      if (err <? 0) || ((err =? 0) && negb (e =? EINTR))
      then mret (if 0 <? count then count else err)
      else
        let count := count + err in
        if count <? zlen data then write_rounds fuel p pos data count else mret count
  end.

Definition _write (p : path) (pos : Z) (data : list Z) : M st Z := fun s =>
  write_rounds (rounds data s) p pos data 0 s.

(** [while (count < len) read(...)]: the state it ended in and the bytes read; what
    a call returns fits an [int], since read(2) transfers less than 2^31 bytes. *)
Inductive read_end := ReadAll | ReadEOF | ReadFailed.

Fixpoint read_rounds (fuel : nat) (p : path) (pos len : Z) (acc : list Z) : M st (read_end * list Z) :=
  if len <=? zlen acc then mret (ReadAll, acc)
  else match fuel with
       | O => fail_with OutOfFuel
       | S fuel =>
           '(err, bs) ← sys_read p (pos + zlen acc) (len - zlen acc);
           if err <? 0 then mret (ReadFailed, acc)
           else if err =? 0 then mret (ReadEOF, acc)
           else read_rounds fuel p pos len (acc ++ bs)
       end.

Definition read_fully (p : path) (pos len : Z) : M st (read_end * list Z) := fun s =>
  read_rounds (S (S (length (rplan s)))) p pos len [] s.

(** IOCoordinator::loadObject: the result and the bytes stored in [data]. *)
Definition loadObject (p : path) (offset length : Z) : M st (Z * list Z) :=
  '(e, bs) ← read_fully p offset length;
  match e with
  | ReadAll => mret (0, bs)
  | ReadFailed => mret (-1, bs)
  | ReadEOF => set_errno ENODATA ;; mret (-1, bs)
  end.

(** Replicator::newObject *)
Fixpoint newObject_rounds (fuel : nat) (p : path) (data : list Z) (offset count : Z) : M st Z :=
  if zlen data <=? count then mret count
  else match fuel with
       | O => fail_with OutOfFuel
       | S fuel =>
           err ← sys_pwrite p (drop (Z.to_nat count) data) (offset + count);
           if i32 err <=? 0 then mret (if 0 <? count then count else i32 err)
           else newObject_rounds fuel p data offset (count + i32 err)
       end.

Definition newObject (dir key : string) (data : list Z) (offset : Z) : M st Z :=
  fd ← sys_open (Obj dir key) true;
  if fd <? 0 then mret fd
  else
    fuel ← gets (rounds data);
    n ← newObject_rounds fuel (Obj dir key) data offset 0;
    mret (i32 n).

(** Replicator::newNullObject *)
Definition newNullObject (dir key : string) (length : Z) : M st Z :=
  fd ← sys_open (Obj dir key) true;
  if fd <? 0 then mret fd else sys_ftruncate (Obj dir key) length.

(** Replicator::remove, of a file: nothing happens when it is absent. *)
Definition remove (p : path) : M st Z := modify (file_rm p) ;; mret 0.

End SmFs.
