(* ===== verification/SmMeta.v ===== *)
(** * The storage manager: metadata

    storage-manager/src/MetadataFile.cpp: which objects a file consists of, the names
    of objects, and the cache of metadata.  The JSON text of a metadata file is
    abstracted to the list of its objects; a [MetadataFile] shares its tree with the
    metadata cache, so a change is seen through both.  The revision number, which
    nothing changes, is left out. *)

From S2P Require Import Prelude SmFs.
From stdpp Require Import prelude gmap strings.
Local Open Scope Z_scope.

(** What boost supplies: the text of the [n]-th UUID drawn. *)
Class UuidGen := { uuid : nat -> string }.

Module SmMeta.
Import SmFs.

(** ** Names of objects *)

Definition underscore : Ascii.ascii := Ascii.ascii_of_nat 95.
Definition slash : Ascii.ascii := Ascii.ascii_of_nat 47.
Definition tilde : Ascii.ascii := Ascii.ascii_of_nat 126.

(** A number written to a stream. *)
Definition dec (n : Z) : string :=
  (if n <? 0 then "-" else "") +:+
  String.string_of_list_ascii ((fun b => Ascii.ascii_of_nat (Z.to_nat b)) <$> digits 20 1 (Z.abs n) []).

Fixpoint replace_char (a b : Ascii.ascii) (s : string) : string :=
  match s with
  | EmptyString => EmptyString
  | String c s => String (if Ascii.eqb c a then b else c) (replace_char a b s)
  end.

Section keys.
Context `{UuidGen}.

Definition draw_uuid : M st string := fun s => (Val (uuid (uuids s)), with_uuids (S (uuids s)) s).

Definition getNewKey (sourceName : string) (offset length : Z) : M st string :=
  u ← draw_uuid;
  mret (u +:+ "_" +:+ dec (u64 offset) +:+ "_" +:+ dec (u64 length) +:+ "_" +:+ replace_char slash tilde sourceName).
End keys.

(** [find_first_of(c, from)] of a string, converted to [int]: -1 when there is
    none. *)
Fixpoint index_of (c : Ascii.ascii) (s : string) : option nat :=
  match s with
  | EmptyString => None
  | String d s => if Ascii.eqb d c then Some O else S <$> index_of c s
  end.

Fixpoint drop_string (n : nat) (s : string) : string :=
  match n, s with
  | O, _ => s
  | _, EmptyString => EmptyString
  | S n, String _ s => drop_string n s
  end.

Definition find_first_of (c : Ascii.ascii) (s : string) (from : Z) : Z :=
  match index_of c (drop_string (Z.to_nat from) s) with
  | Some i => from + Z.of_nat i
  | None => -1
  end.

(** [substr(pos, n)]: [n] is a [size_t], so a negative length means the rest. *)
Definition substr (s : string) (pos n : Z) : outcome string :=
  if Z.of_nat (String.length s) <? pos then Exn (logic_error "out_of_range")
  else
    let rest := drop_string (Z.to_nat pos) s in
    Val (if n <? 0 then rest else String.substring 0 (Z.to_nat n) rest).

Definition breakout (key : string) : outcome (string * string * string * string) :=
  let i0 := find_first_of underscore key 0 in
  let i1 := find_first_of underscore key (i0 + 1) in
  let i2 := find_first_of underscore key (i1 + 1) in
  a ← substr key 0 i0;
  b ← substr key (i0 + 1) (i1 - i0 - 1);
  c ← substr key (i1 + 1) (i2 - i1 - 1);
  d ← substr key (i2 + 1) (-1);
  mret (a, b, c, d).

Section newkeys.
Context `{UuidGen}.

Definition getNewKeyFromOldKey (key : string) (length : Z) : M st string :=
  u ← draw_uuid;
  '(_, b, _, d) ← lift (fun _ => breakout key);
  mret (u +:+ "_" +:+ b +:+ "_" +:+ dec (u64 length) +:+ "_" +:+ d).
End newkeys.

(** [stoll] and [stoull]: blanks, a sign, and the digits up to the first other
    character. *)
Definition is_space (c : Ascii.ascii) : bool :=
  let n := Ascii.nat_of_ascii c in (n =? 32)%nat || ((9 <=? n)%nat && (n <=? 13)%nat).

Fixpoint skip_blanks (s : string) : string :=
  match s with String c s' => if is_space c then skip_blanks s' else s | EmptyString => s end.

Definition sign (s : string) : bool * string :=
  match s with
  | String c s' =>
      if Ascii.eqb c (Ascii.ascii_of_nat 45) then (true, s')
      else if Ascii.eqb c (Ascii.ascii_of_nat 43) then (false, s') else (false, s)
  | EmptyString => (false, s)
  end.

Definition digit (c : Ascii.ascii) : option Z :=
  let n := Z.of_nat (Ascii.nat_of_ascii c) - 48 in
  if (0 <=? n) && (n <? 10) then Some n else None.

Fixpoint leading_number (s : string) (acc : Z) : Z :=
  match s with
  | String c s => match digit c with Some d => leading_number s (10 * acc + d) | None => acc end
  | EmptyString => acc
  end.

(** The sign and the number, when there is a digit. *)
Definition strto (s : string) : option (bool * Z) :=
  let '(neg, t) := sign (skip_blanks s) in
  match t with
  | String c _ => match digit c with Some _ => Some (neg, leading_number t 0) | None => None end
  | EmptyString => None
  end.

Definition stoll (s : string) : outcome Z :=
  match strto s with
  | None => Exn (invalid_argument "stoll")
  | Some (neg, v) =>
      let v := if neg : bool then - v else v in
      if (v <? - 2 ^ 63) || (2 ^ 63 <=? v) then Exn (logic_error "out_of_range") else Val v
  end.

Definition stoull (s : string) : outcome Z :=
  match strto s with
  | None => Exn (invalid_argument "stoull")
  | Some (neg, v) =>
      if 2 ^ 64 <=? v then Exn (logic_error "out_of_range") else Val (if neg : bool then u64 (- v) else v)
  end.

Definition getOffsetFromKey (key : string) : outcome Z :=
  '(_, b, _, _) ← breakout key; stoll b.

Definition getLengthFromKey (key : string) : outcome Z :=
  '(_, _, c, _) ← breakout key; stoull c.

Definition getSourceFromKey (key : string) : outcome string :=
  '(_, _, _, d) ← breakout key; mret (replace_char tilde slash d).

Definition setOffsetInKey (key : string) (newOffset : Z) : outcome string :=
  '(a, _, c, d) ← breakout key; mret (a +:+ "_" +:+ dec newOffset +:+ "_" +:+ c +:+ "_" +:+ d).

Definition setLengthInKey (key : string) (newLength : Z) : outcome string :=
  '(a, b, _, d) ← breakout key; mret (a +:+ "_" +:+ b +:+ "_" +:+ dec newLength +:+ "_" +:+ d).

(** ** The metadata cache *)

Definition max_lru_size : nat := 2000.

(** A hit moves the file to the end of the list. *)
Definition cache_get (p : string) : M st (option (list metadataObject)) := fun s =>
  match jlookup s !! p with
  | Some t => (Val (Some t), with_cache (jlookup s) (filter (.≠ p) (jlru s) ++ [p]) s)
  | None => (Val None, s)
  end.

(** [while (lru.size() >= max_lru_size)]: drop the oldest. *)
Fixpoint cache_trim (l : list string) (m : gmap string (list metadataObject)) :=
  match l with
  | x :: l' => if (max_lru_size <=? length l)%nat then cache_trim l' (delete x m) else (l, m)
  | [] => (l, m)
  end.

(** It does not change an entry that is there. *)
Definition cache_put (p : string) (t : list metadataObject) : M st unit :=
  modify (fun s => match jlookup s !! p with
                   | Some _ => s
                   | None => let '(l, m) := cache_trim (jlru s) (jlookup s) in
                             with_cache (<[p := t]> m) (l ++ [p]) s
                   end).

Definition cache_erase (p : string) : M st unit :=
  modify (fun s => match jlookup s !! p with
                   | Some _ => with_cache (delete p (jlookup s)) (filter (.≠ p) (jlru s)) s
                   | None => s
                   end).

(** ** Metadata files *)

(** [own_tree] is the tree of a file that is not in the metadata cache. *)
Record MetadataFile := mkMeta { mFilename : string; own_tree : list metadataObject; _exists : bool }.

(** The tree behind the shared pointer. *)
Definition jsontree (md : MetadataFile) (s : st) : list metadataObject :=
  default (own_tree md) (jlookup s !! mFilename md).

(** A change made through the shared pointer. *)
Definition set_jsontree (md : MetadataFile) (t : list metadataObject) : M st MetadataFile := fun s =>
  (Val (mkMeta (mFilename md) t (_exists md)),
   match jlookup s !! mFilename md with
   | Some _ => with_cache (<[mFilename md := t]> (jlookup s)) (jlru s) s
   | None => s
   end).

(** The constructor that does not create the file. *)
Definition MetadataFile_open (filename : string) : M st MetadataFile :=
  c ← cache_get filename;
  match c with
  | Some t => mret (mkMeta filename t true)
  | None =>
      d ← gets (fun s => disk s !! filename);
      match d with
      | Some t => cache_put filename t ;; mret (mkMeta filename t true)
      | None => mret (mkMeta filename [] false)
      end
  end.

Definition writeMetadata (md : MetadataFile) : M st (Z * MetadataFile) :=
  t ← gets (jsontree md);
  modify (fun s => with_disk (<[mFilename md := t]> (disk s)) s) ;;
  cache_put (mFilename md) t ;;
  mret (0, mkMeta (mFilename md) t true).

(** Replicator::updateMetadata *)
Definition updateMetadata (md : MetadataFile) : M st (Z * MetadataFile) := writeMetadata md.

(** ** Queries and changes of the list of objects *)

Definition end_of (o : metadataObject) : Z := u64 (mo_offset o + mo_length o).

Definition tree_length (t : list metadataObject) : Z :=
  match last t with Some o => end_of o | None => 0 end.

Definition getLength (md : MetadataFile) : M st Z := gets (fun s => tree_length (jsontree md s)).
Definition getMetadataNewObjectOffset (md : MetadataFile) : M st Z := gets (fun s => tree_length (jsontree md s)).

(** [std::set::insert], ordered by offset. *)
Fixpoint set_insert (o : metadataObject) (l : list metadataObject) : list metadataObject :=
  match l with
  | [] => [o]
  | x :: l' => if mo_offset o <? mo_offset x then o :: l
               else if mo_offset x <? mo_offset o then x :: set_insert o l'
               else l
  end.

Definition to_set (t : list metadataObject) : list metadataObject :=
  foldl (fun l o => set_insert o l) [] t.

Section config.
Context (objectSize : Z).

(** The first loop of metadataRead: the first object in range, with [foundLen], and
    the objects after it. *)
Fixpoint find_first (lastOffset offset : Z) (l : list metadataObject) :
    option (metadataObject * Z * list metadataObject) :=
  match l with
  | [] => None
  | o :: l' =>
      if (u64 offset <=? u64 (mo_offset o + mo_length o - 1)) ||
         ((mo_offset o =? lastOffset) && (u64 offset <=? u64 (mo_offset o + objectSize - 1)))
      then Some (o, u64 ((if mo_offset o =? lastOffset then objectSize else mo_length o) - (offset - mo_offset o)), l')
      else find_first lastOffset offset l'
  end.

Fixpoint find_rest (foundLen length : Z) (l : list metadataObject) : list metadataObject :=
  match l with
  | [] => []
  | o :: l' => if foundLen <? length then o :: find_rest (u64 (foundLen + mo_length o)) length l' else []
  end.

Definition tree_read (t : list metadataObject) (offset length : Z) : list metadataObject :=
  let mObjects := to_set t in
  match last mObjects with
  | None => []
  | Some lo =>
      match find_first (mo_offset lo) offset mObjects with
      | Some (o, foundLen, rest) => o :: find_rest foundLen length rest
      | None => []
      end
  end.

Definition metadataRead (md : MetadataFile) (offset length : Z) : M st (list metadataObject) :=
  gets (fun s => tree_read (jsontree md s) offset length).

Definition addMetadataObject `{UuidGen} (md : MetadataFile) (filename : string) (length : Z) :
    M st (metadataObject * MetadataFile) :=
  t ← gets (jsontree md);
  let offset := match last t with Some o => u64 (mo_offset o + objectSize) | None => 0 end in
  key ← getNewKey filename offset length;
  let o := mkObject offset length key in
  md ← set_jsontree md (t ++ [o]);
  mret (o, md).
End config.

Definition getEntry (md : MetadataFile) (offset : Z) : M st (option metadataObject) :=
  gets (fun s => (fun x => x.2) <$> list_find (fun o => mo_offset o = offset) (jsontree md s)).

(** The first entry at [offset] is erased. *)
Fixpoint tree_remove (offset : Z) (t : list metadataObject) : list metadataObject :=
  match t with
  | [] => []
  | o :: t' => if mo_offset o =? offset then t' else o :: tree_remove offset t'
  end.

Definition removeEntry (md : MetadataFile) (offset : Z) : M st MetadataFile :=
  t ← gets (jsontree md); set_jsontree md (tree_remove offset t).

Definition removeAllEntries (md : MetadataFile) : M st MetadataFile := set_jsontree md [].

(** The first entry at [offset] is changed by [f]; [None] when there is none. *)
Fixpoint tree_update (f : metadataObject -> metadataObject) (offset : Z) (t : list metadataObject) :
    option (list metadataObject) :=
  match t with
  | [] => None
  | o :: t' => if mo_offset o =? offset then Some (f o :: t')
               else (o ::.) <$> tree_update f offset t'
  end.

Definition update_or_throw (what : string) (f : metadataObject -> metadataObject) (md : MetadataFile) (offset : Z) :
    M st MetadataFile :=
  t ← gets (jsontree md);
  match tree_update f offset t with
  | Some t' => set_jsontree md t'
  | None => throw (logic_error what)
  end.

Definition updateEntry (md : MetadataFile) (offset : Z) (newName : string) (newLength : Z) : M st MetadataFile :=
  update_or_throw "MetadataFile::updateEntry(): failed to find object"
    (fun o => mkObject (mo_offset o) newLength newName) md offset.

Definition updateEntryLength (md : MetadataFile) (offset newLength : Z) : M st MetadataFile :=
  update_or_throw "MetadataFile::updateEntryLength(): failed to find object"
    (fun o => mkObject (mo_offset o) newLength (mo_key o)) md offset.

(** MetadataFile::deletedMeta *)
Definition deletedMeta (p : string) : M st unit := cache_erase p.

End SmMeta.
