(* ===== verification/SmJournal.v ===== *)
(** * The storage manager: journals

    Writing a journal (Replicator::addJournalEntry) and reading an object together
    with its journal (mergeJournal and its variants of IOCoordinator.cpp).  A journal
    is a header, a JSON text ended by a zero byte, and entries: offset, length and the
    bytes written there.  Log messages and the counters that are only printed are left
    out; assertions are not compiled in a release build. *)

From S2P Require Import Prelude Hasher Bytes SmFs.
From stdpp Require Import prelude gmap strings.
Local Open Scope Z_scope.

(** What boost's property trees supply: parsing, and reading the number under
    [max_offset]. *)
Class JsonHeader := {
  ptree : Type;
  read_json : list Z -> option ptree;
  get_max_offset : ptree -> option Z }.

Module SmJournal.
Import SmFs.

Definition JOURNAL_ENTRY_HEADER_SIZE : Z := 16.

Definition bytes_of (s : string) : list Z :=
  (fun c => Z.of_nat (Ascii.nat_of_ascii c)) <$> String.list_ascii_of_string s.

(** The format %011u of an unsigned 64-bit number. *)
Definition format_011u (m : Z) : list Z := digits 20 11 m [].

Definition quote : list Z := [34].

(** The header of a version 1 journal, without the zero byte. *)
Definition header_text (max_offset : Z) : list Z :=
  bytes_of "{ " ++ quote ++ bytes_of "version" ++ quote ++ bytes_of " : " ++ quote ++ bytes_of "001" ++ quote ++
  bytes_of ", " ++ quote ++ bytes_of "max_offset" ++ quote ++ bytes_of " : " ++ quote ++
  format_011u max_offset ++ quote ++ bytes_of " }".

(** The bytes before the first zero among the first [n]. *)
Fixpoint until_zero (l : list Z) : option (list Z) :=
  match l with
  | [] => None
  | b :: l => if b =? 0 then Some [] else (b ::.) <$> until_zero l
  end.

(** The header text and the position after it. *)
Definition seekToEndOfHeader1 (p : path) : M st (list Z * Z) :=
  '(err, bs) ← sys_read p 0 100;
  if err <? 0 then throw (runtime_error "seekToEndOfHeader1 got: ")
  else match until_zero bs with
       | Some txt => mret (txt, zlen txt + 1)
       | None => throw (runtime_error "seekToEndOfHeader1: did not find the end of the header")
       end.

Section journal.
Context `{JsonHeader}.

(** ** Writing *)

Definition offlen (offset length : Z) : list Z := le_bytes 8 (u64 offset) ++ le_bytes 8 (u64 length).

(** The header of a new journal: an error to return, or whether the header was changed
    and what it was before. *)
Definition write_new_header (dir key : string) (thisEntryMaxOffset : Z) : M st (Z + bool * list Z) :=
  let header := header_text thisEntryMaxOffset ++ [0] in
  err ← _write (Jrn dir key) 0 header;
  if negb (u32 (i32 err) =? zlen header) then mret (inl (i32 err))
  else note (Cache_newJournalEntry dir (zlen header)) ;; mret (inr (true, [])).

(** The header of an existing journal, rewritten when [max_offset] grows. *)
Definition check_header (dir key : string) (thisEntryMaxOffset : Z) : M st (Z + bool * list Z) :=
  let p := Jrn dir key in
  hdr ← try_catch (x ← seekToEndOfHeader1 p; mret (Some x.1)) (fun _ => mret None);
  match hdr with
  | None => set_errno EIO ;; mret (inl (-1))
  | Some headertxt =>
      match read_json headertxt with
      | None => set_errno EIO ;; mret (inl (-1))
      | Some tree =>
          match get_max_offset tree with
          | None => throw (runtime_error "ptree_bad_path")
          | Some currentMaxOffset =>
              if currentMaxOffset <? thisEntryMaxOffset then
                let header := header_text thisEntryMaxOffset ++ [0] in
                err ← _pwrite p header 0;
                l_errno ← gets errno;
                if negb (u32 (i32 err) =? zlen header) then
                  _pwrite p (headertxt ++ [0]) 0 ;;
                  set_errno l_errno ;;
                  mret (inl (if i32 err <? 0 then i32 err else 0))
                else mret (inr (true, headertxt))
              else mret (inr (false, headertxt))
          end
      end
  end.

(** The entry's header could not be written: the journal's header is put back and the
    entry cut off. *)
Definition undo_entry_header (p : path) (bHeaderChanged : bool) (headerRollback : list Z)
    (entryHeaderOffset err l_errno : Z) : M st Z :=
  let given_up := set_errno l_errno ;; mret (if err <? 0 then err else 0) in
  ok ← (if bHeaderChanged then
          rollbackErr ← _pwrite p (headerRollback ++ [0]) 0;
          mret (u32 (i32 rollbackErr) =? zlen headerRollback + 1)
        else mret true);
  if negb ok then given_up
  else
    rollbackErr ← sys_ftruncate p entryHeaderOffset;
    if negb (rollbackErr =? 0) then given_up else mret err.

(** Some of the entry was written, [count] bytes of it: the headers are made to say
    so.  The code compares with a variable [currentMaxOffset] that stays 0. *)
Definition settle_partial (p : path) (offset count entryHeaderOffset err l_errno : Z) : M st Z :=
  let currentMaxOffset := 0 in
  let thisEntryMaxOffset := u64 (offset + count - 1) in
  ok ← (if currentMaxOffset <? thisEntryMaxOffset then
          let header := header_text thisEntryMaxOffset ++ [0] in
          rollbackErr ← _pwrite p header 0;
          mret (u32 (i32 rollbackErr) =? zlen header)
        else mret true);
  if negb ok then set_errno l_errno ;; mret err
  else
    rollbackErr ← _pwrite p (offlen offset count) entryHeaderOffset;
    if negb (u32 (i32 rollbackErr) =? JOURNAL_ENTRY_HEADER_SIZE) then set_errno l_errno ;; mret err
    else mret (i32 count).

(** Nothing of the entry was written. *)
Definition undo_entry (p : path) (bHeaderChanged : bool) (entryHeaderOffset err l_errno : Z) : M st Z :=
  ok ← (if bHeaderChanged then
          let header := header_text 0 ++ [0] in
          rollbackErr ← _pwrite p header 0;
          mret (u32 (i32 rollbackErr) =? zlen header)
        else mret true);
  if negb ok then set_errno l_errno ;; mret err
  else
    rollbackErr ← sys_ftruncate p entryHeaderOffset;
    set_errno l_errno ;; mret err.

(** [while (count < length)]: a round that writes nothing is followed by another. *)
Fixpoint entry_rounds (fuel : nat) (p : path) (bHeaderChanged : bool) (data : list Z)
    (offset entryHeaderOffset count : Z) : M st Z :=
  if zlen data <=? count then mret (i32 count)
  else match fuel with
       | O => fail_with OutOfFuel
       | S fuel =>
           err ← _write p (entryHeaderOffset + JOURNAL_ENTRY_HEADER_SIZE + count) (drop (Z.to_nat count) data);
           let err := i32 err in
           if err <? 0 then
             l_errno ← gets errno;
             if 0 <? count then settle_partial p offset count entryHeaderOffset err l_errno
             else undo_entry p bHeaderChanged entryHeaderOffset err l_errno
           else entry_rounds fuel p bHeaderChanged data offset entryHeaderOffset (count + err)
       end.

Definition append_entry (p : path) (bHeaderChanged : bool) (headerRollback data : list Z) (offset : Z) : M st Z :=
  entryHeaderOffset ← gets (fun s => zlen (contents p s));
  err ← _write p entryHeaderOffset (offlen offset (zlen data));
  l_errno ← gets errno;
  if negb (i32 err =? JOURNAL_ENTRY_HEADER_SIZE)
  then undo_entry_header p bHeaderChanged headerRollback entryHeaderOffset (i32 err) l_errno
  else
    fuel ← gets (rounds data);
    entry_rounds fuel p bHeaderChanged data offset entryHeaderOffset 0.

Definition addJournalEntry (dir key : string) (data : list Z) (offset : Z) : M st Z :=
  let p := Jrn dir key in
  let thisEntryMaxOffset := u64 (offset + zlen data - 1) in
  exists_ ← gets (fun s => bool_decide (is_Some (file_at p s)));
  fd ← sys_open p (negb exists_);
  if fd <? 0 then mret fd
  else
    r ← (if negb exists_ then write_new_header dir key thisEntryMaxOffset
         else check_header dir key thisEntryMaxOffset);
    match r with
    | inl ret => mret ret
    | inr (bHeaderChanged, headerRollback) => append_entry p bHeaderChanged headerRollback data offset
    end.

(** ** Reading *)

(** What the memory of [new uint8_t[len]] holds. *)
Context (fresh : Z -> Z).

Definition new_buf (len : Z) : list Z := fresh <$> seqZ 0 len.

Definition read_header (p : path) : M st Z :=
  '(txt, l_bytesRead) ← seekToEndOfHeader1 p;
  match read_json txt with
  | None => throw (runtime_error "json_parser_error")
  | Some _ => mret l_bytesRead
  end.

(** The entries of a journal in memory are merged into the object data. *)
Fixpoint inMem_entries (fuel : nat) (journalData : list Z) (offset len : Z) (objData : list Z) :
    outcome (option (list Z)) :=
  let journalBytes := zlen journalData in
  if journalBytes <=? offset then Val (Some objData)
  else match fuel with
       | O => Fault OutOfFuel
       | S fuel =>
           if journalBytes <=? offset + 16 then Val None
           else
             let startReadingAt := le_val (slice journalData offset 8) in
             let jlen := le_val (slice journalData (offset + 8) 8) in
             let offset := offset + 16 in
             if len <? startReadingAt then inMem_entries fuel journalData (u64 (offset + jlen)) len objData
             else
               let lengthOfRead := if len <? u64 (startReadingAt + jlen) then len - startReadingAt else jlen in
               if journalBytes <? u64 (offset + lengthOfRead) then Val None
               else
                 objData ← buf_put objData startReadingAt (slice journalData offset lengthOfRead);
                 inMem_entries fuel journalData (u64 (offset + jlen)) len objData
       end.

(** mergeJournalInMem_bigJ: the return value, the object data and the bytes read. *)
Fixpoint bigJ_entries (fuel : nat) (p : path) (pos len : Z) (objData : list Z) (l_bytesRead : Z) :
    M st (Z * list Z * Z) :=
  match fuel with
  | O => fail_with OutOfFuel
  | S fuel =>
      '(err, h) ← sys_read p pos 16;
      if err =? 0 then mret (0, objData, l_bytesRead)
      else if err <? 16 then set_errno ENODATA ;; mret (-1, objData, 0)
      else
        let startReadingAt := le_val (take 8 h) in
        let jlen := le_val (drop 8 h) in
        let pos := pos + 16 in
        let l_bytesRead := l_bytesRead + 16 in
        if len <? startReadingAt then bigJ_entries fuel p (seek_cur pos jlen) len objData l_bytesRead
        else
          let lengthOfRead := if len <? u64 (startReadingAt + jlen) then len - startReadingAt else jlen in
          '(e, bs) ← read_fully p pos lengthOfRead;
          objData ← lift (fun _ => buf_put objData startReadingAt bs);
          match e with
          | ReadFailed => mret (-1, objData, 0)
          | ReadEOF => set_errno ENODATA ;; mret (-1, objData, 0)
          | ReadAll =>
              let pos := pos + lengthOfRead in
              let pos := if lengthOfRead <? jlen then seek_cur pos (u64 (jlen - lengthOfRead)) else pos in
              bigJ_entries fuel p pos len objData (l_bytesRead + lengthOfRead)
          end
  end.

Definition mergeJournalInMem_bigJ (objData : list Z) (len : Z) (p : path) : M st (Z * list Z * Z) :=
  fd ← sys_open p false;
  if fd <? 0 then mret (-1, objData, 0)
  else
    l_bytesRead ← read_header p;
    fuel ← gets (fun s => S (length (contents p s)));
    bigJ_entries fuel p l_bytesRead len objData l_bytesRead.

Definition mergeJournalInMem (objData : list Z) (len : Z) (p : path) : M st (Z * list Z * Z) :=
  if 104857600 <? len then mergeJournalInMem_bigJ objData len p
  else
    fd ← sys_open p false;
    if fd <? 0 then mret (-1, objData, 0)
    else
      l_bytesRead ← read_header p;
      journalBytes ← gets (fun s => zlen (contents p s) - l_bytesRead);
      '(e, journalData) ← read_fully p l_bytesRead journalBytes;
      match e with
      | ReadFailed => mret (-1, objData, 0)
      | ReadEOF => set_errno ENODATA ;; mret (-1, objData, 0)
      | ReadAll =>
          r ← lift (fun _ => inMem_entries (S (length journalData)) journalData 0 len objData);
          match r with
          | None => set_errno ENODATA ;; mret (-1, objData, 0)
          | Some objData => mret (0, objData, l_bytesRead + zlen journalData)
          end
      end.

(** The entries of the general mergeJournal, which reads what overlaps the range. *)
Fixpoint merge_entries (fuel : nat) (p : path) (pos offset len : Z) (ret : list Z) (l_bytesRead : Z) :
    M st (option (list Z) * Z) :=
  match fuel with
  | O => fail_with OutOfFuel
  | S fuel =>
      '(err, h) ← sys_read p pos 16;
      if err =? 0 then mret (Some ret, l_bytesRead)
      else if negb (err =? 16) then fail_with Uninitialised
      else
        let joffset := le_val (take 8 h) in
        let jlen := le_val (drop 8 h) in
        let pos := pos + 16 in
        let l_bytesRead := l_bytesRead + 16 in
        let lastJournalOffset := u64 (joffset + jlen) in
        let lastBufOffset := u64 (offset + len) in
        if (joffset <=? lastBufOffset) && (u64 offset <=? lastJournalOffset) then
          let startReadingAt := Z.max joffset (u64 offset) in
          let lengthOfRead := u64 (Z.min lastBufOffset lastJournalOffset - startReadingAt) in
          let pos := if startReadingAt =? joffset then pos else seek_cur pos (u64 (startReadingAt - joffset)) in
          '(e, bs) ← read_fully p pos lengthOfRead;
          ret ← lift (fun _ => buf_put ret (u64 (startReadingAt - offset)) bs);
          match e with
          | ReadFailed | ReadEOF => mret (None, l_bytesRead + zlen bs)
          | ReadAll =>
              let pos := pos + lengthOfRead in
              let pos := if u64 (startReadingAt - joffset + lengthOfRead) =? jlen then pos
                         else seek_cur pos (u64 (jlen - (lengthOfRead + startReadingAt - joffset))) in
              merge_entries fuel p pos offset len ret (l_bytesRead + lengthOfRead)
          end
        else merge_entries fuel p (seek_cur pos jlen) offset len ret l_bytesRead
  end.

(** The buffer, or none after an error, and the number of bytes read. *)
Definition mergeJournal (object journal : path) (offset len : Z) : M st (option (list Z) * Z) :=
  objFD ← sys_open object false;
  if objFD <? 0 then mret (None, 0)
  else
    '(e, bs) ← read_fully object offset len;
    match e with
    | ReadFailed => mret (None, zlen bs)
    | _ =>
        ret ← lift (fun _ => buf_put (new_buf len) 0 bs);
        osize ← gets (fun s => zlen (contents object s));
        if (offset =? 0) && (osize <=? i64 len) then
          '(mjimerr, ret, mjimBytesRead) ← mergeJournalInMem ret len journal;
          mret (if negb (mjimerr =? 0) then None else Some ret, zlen bs + mjimBytesRead)
        else
          journalFD ← sys_open journal false;
          if journalFD <? 0 then mret (Some ret, zlen bs)
          else
            hdr ← read_header journal;
            fuel ← gets (fun s => S (length (contents journal s)));
            merge_entries fuel journal hdr offset len ret hdr
    end.

(** The result and the bytes stored in [data]. *)
Definition loadObjectAndJournal (object journal : path) (offset length : Z) : M st (Z * list Z) :=
  '(argh, _) ← mergeJournal object journal offset length;
  match argh with
  | None => mret (-1, [])
  | Some buf => mret (0, buf)
  end.

End journal.
End SmJournal.
