(* ===== verification/SmIo.v ===== *)
(** * The storage manager: reading and writing files

    storage-manager/src/IOCoordinator.cpp: [read], [write], [append], [truncate],
    [open] and [deleteMetaFile] on files that consist of objects with journals.  A file
    name is what Ownership::get made of the caller's; the file lock is held throughout
    and not shown.  Cache::read brings missing objects from cloud storage into the cache
    directory; what the cache and the synchronizer otherwise do is recorded as calls. *)

From S2P Require Import Prelude SmFs SmMeta SmJournal.
From stdpp Require Import prelude gmap strings.
Local Open Scope Z_scope.

(** What the object store outside holds, by key. *)
Class CloudStore := { cloud : string -> option (list Z) }.

Module SmIo.
Import SmFs SmMeta SmJournal.

(** The first component of a path. *)
Fixpoint first_dir (f : string) : string :=
  match f with
  | EmptyString => EmptyString
  | String c f => if Ascii.eqb c slash then EmptyString else String c (first_dir f)
  end.

(** rename(2) of a cached object *)
Definition sys_rename (dir old new : string) : M st Z :=
  a ← next_write;
  match a with
  | Fails e => set_errno e ;; mret (-1)
  | Moves _ =>
      f ← gets (file_at (Obj dir old));
      match f with
      | None => set_errno ENOENT ;; mret (-1)
      | Some bs => modify (fun s => file_set (Obj dir new) bs (file_rm (Obj dir old) s)) ;; mret 0
      end
  end.

Section io.
Context `{UuidGen, JsonHeader, CloudStore} (objectSize : Z) (fresh : Z -> Z).

(** ** read *)

Definition cache_read (dir : string) (keys : list string) : M st unit :=
  note (Cache_read dir keys) ;;
  for_each keys (fun k => modify (fun s =>
    match file_at (Obj dir k) s, cloud k with
    | None, Some bs => file_set (Obj dir k) bs s
    | _, _ => s
    end)).

(** The journals that exist and the objects are opened; [None] after an error. *)
Fixpoint open_all (dir : string) (keys : list string) (journals : list string) : M st (option (list string)) :=
  match keys with
  | [] => mret (Some journals)
  | k :: keys =>
      fd ← sys_open (Jrn dir k) false;
      e ← gets errno;
      if (fd <? 0) && negb (e =? ENOENT) then mret None
      else
        let journals := if fd <? 0 then journals else journals ++ [k] in
        fd ← sys_open (Obj dir k) false;
        if fd <? 0 then mret None else open_all dir keys journals
  end.

(** The data collected from the objects: whether an error ended the loop, and the
    bytes. *)
Fixpoint read_objects (dir : string) (journals : list string) (offset length : Z)
    (objects : list metadataObject) (data : list Z) : M st (bool * list Z) :=
  match objects with
  | [] => mret (true, data)
  | o :: objects =>
      let count := zlen data in
      let thisOffset := if count =? 0 then i64 (offset - mo_offset o) else 0 in
      if i64 (mo_length o) <=? thisOffset then mret (true, data)
      else
        let thisLength := Z.min (u64 (mo_length o - thisOffset)) (u64 (length - count)) in
        '(err, bs) ← (if bool_decide (mo_key o ∈ journals)
                      then loadObjectAndJournal fresh (Obj dir (mo_key o)) (Jrn dir (mo_key o)) thisOffset thisLength
                      else loadObject (Obj dir (mo_key o)) thisOffset thisLength);
        if negb (err =? 0) then mret (false, data)
        else read_objects dir journals offset length objects (data ++ bs)
  end.

(** The returned count and the bytes of [data] it covers. *)
Definition read (filename : string) (offset length : Z) : M st (Z * list Z) :=
  let dir := first_dir filename in
  meta ← MetadataFile_open filename;
  if negb (_exists meta) then set_errno ENOENT ;; mret (-1, [])
  else
    relevants ← metadataRead objectSize meta offset length;
    let keys := mo_key <$> relevants in
    cache_read dir keys ;;
    opened ← open_all dir keys [];
    match opened with
    | None =>
        l_errno ← gets errno;
        note (Cache_doneReading dir keys) ;; set_errno l_errno ;; mret (-1, [])
    | Some journals =>
        '(ok, data) ← read_objects dir journals offset length relevants [];
        note (Cache_doneReading dir keys) ;;
        if negb ok && (zlen data =? 0) then mret (-1, []) else mret (zlen data, data)
    end.

(** ** write *)

Definition note_entry (dir key : string) (n : Z) : M st unit :=
  note (Cache_newJournalEntry dir (n + JOURNAL_ENTRY_HEADER_SIZE)) ;;
  note (Sync_newJournalEntry dir key (n + JOURNAL_ENTRY_HEADER_SIZE)).

(** The part of the data that falls into existing objects goes to their journals.
    [inl r]: the function returns [r]. *)
Fixpoint write_journals (dir : string) (data : list Z) (offset : Z) (objects : list metadataObject)
    (metadata : MetadataFile) (count : Z) : M st (Z + MetadataFile * Z) :=
  match objects with
  | [] => mret (inr (metadata, count))
  | i :: objects =>
      let dataRemaining := zlen data - count in
      let first := (count =? 0) && (mo_offset i <? u64 offset) in
      let objectOffset := if first then u64 (offset - mo_offset i) else 0 in
      let writeLength := if first then Z.min (u64 (objectSize - objectOffset)) dataRemaining
                         else Z.min objectSize dataRemaining in
      err ← addJournalEntry dir (mo_key i) (slice data count writeLength) objectOffset;
      if err <? 0 then
        l_errno ← gets errno;
        updateMetadata metadata ;;
        set_errno l_errno ;;
        mret (inl (-1))
      else if u32 err <? writeLength then
        metadata ← (if mo_length i <? u64 (err + objectOffset)
                    then updateEntryLength metadata (mo_offset i) (u64 (err + objectOffset)) else mret metadata);
        note_entry dir (mo_key i) err ;;
        updateMetadata metadata ;;
        mret (inl (count + err))
      else
        metadata ← (if mo_length i <? u64 (writeLength + objectOffset)
                    then updateEntryLength metadata (mo_offset i) (u64 (writeLength + objectOffset)) else mret metadata);
        note_entry dir (mo_key i) writeLength ;;
        write_journals dir data offset objects metadata (count + writeLength)
  end.

(** The write starts behind the end of the data: the last object is filled with
    zeros. *)
Definition fill_last (dir : string) (metadata : MetadataFile) (currentEndofData : Z) : M st (Z + MetadataFile * Z) :=
  objects ← metadataRead objectSize metadata currentEndofData 1;
  match objects with
  | [lastObject] =>
      let nullJournalSize := u64 (objectSize - mo_length lastObject) in
      err ← addJournalEntry dir (mo_key lastObject) (replicate (Z.to_nat nullJournalSize) 0) (mo_length lastObject);
      if err <? 0 then mret (inl (-1))
      else if u32 err <? nullJournalSize then
        metadata ← (if mo_length lastObject <? u64 (err + mo_length lastObject)
                    then updateEntryLength metadata (mo_offset lastObject) (u64 (err + mo_length lastObject))
                    else mret metadata);
        note_entry dir (mo_key lastObject) err ;;
        updateMetadata metadata ;;
        mret (inl 0)
      else
        metadata ← updateEntryLength metadata (mo_offset lastObject) (u64 (nullJournalSize + mo_length lastObject));
        note_entry dir (mo_key lastObject) nullJournalSize ;;
        mret (inr (metadata, currentEndofData + nullJournalSize))
  | _ => mret (inr (metadata, currentEndofData))
  end.

(** Full objects of zeros up to the one [offset] falls into. *)
Fixpoint null_objects (fuel : nat) (dir filename : string) (metadata : MetadataFile)
    (newObjectKeys : list string) (currentEndofData offset : Z) : M st (Z + MetadataFile * list string * Z) :=
  if offset <? currentEndofData + objectSize then mret (inr (metadata, newObjectKeys, currentEndofData))
  else match fuel with
       | O => fail_with OutOfFuel
       | S fuel =>
           '(nullObject, metadata) ← addMetadataObject objectSize metadata filename objectSize;
           err ← newNullObject dir (mo_key nullObject) objectSize;
           if err <? 0 then mret (inl (-1))
           else
             note (Cache_newObject dir (mo_key nullObject) objectSize) ;;
             null_objects fuel dir filename metadata (newObjectKeys ++ [mo_key nullObject])
               (currentEndofData + objectSize) offset
       end.

(** The new object could not be written in full: it gets a name that says its real
    length. *)
Definition rename_short (dir : string) (metadata : MetadataFile) (o : metadataObject) (named length : Z) :
    M st (string * MetadataFile) :=
  newKey ← getNewKeyFromOldKey (mo_key o) named;
  renameErr ← sys_rename dir (mo_key o) newKey;
  let key := if renameErr <? 0 then mo_key o else newKey in
  metadata ← updateEntry metadata (mo_offset o) key length;
  mret (key, metadata).

(** [while (dataRemaining > 0)]: [inl r] when the function returns [r], otherwise it
    goes on at the label [out] with the count. *)
Fixpoint write_objects (fuel : nat) (dir filename : string) (data : list Z) (offset : Z)
    (metadata : MetadataFile) (newObjectKeys : list string) (count : Z) : M st (Z + MetadataFile * list string * Z) :=
  let dataRemaining := zlen data - count in
  if dataRemaining <=? 0 then mret (inr (metadata, newObjectKeys, count))
  else match fuel with
       | O => fail_with OutOfFuel
       | S fuel =>
           currentEndofData ← getMetadataNewObjectOffset metadata;
           start ← (if (count =? 0) && (currentEndofData <? offset) then
                      r ← fill_last dir metadata currentEndofData;
                      match r with
                      | inl ret => mret (inl ret)
                      | inr (metadata, currentEndofData) =>
                          r ← null_objects (S (Z.to_nat offset)) dir filename metadata newObjectKeys currentEndofData offset;
                          match r with
                          | inl ret => mret (inl ret)
                          | inr (metadata, keys, currentEndofData) =>
                              mret (inr (metadata, keys, u64 (offset - currentEndofData)))
                          end
                      end
                    else mret (inr (metadata, newObjectKeys, 0)));
           match start with
           | inl ret => mret (inl ret)
           | inr (metadata, keys, objectOffset) =>
               let writeLength := Z.min (u64 (objectSize - objectOffset)) dataRemaining in
               '(o, metadata) ← addMetadataObject objectSize metadata filename (u64 (writeLength + objectOffset));
               err ← newObject dir (mo_key o) (slice data count writeLength) objectOffset;
               if err <? 0 then
                 l_errno ← gets errno;
                 metadata ← removeEntry metadata (mo_offset o);
                 remove (Obj dir (mo_key o)) ;;
                 set_errno l_errno ;;
                 mret (if count =? 0 then inl (-1) else inr (metadata, keys, count))
               else if err =? 0 then
                 metadata ← removeEntry metadata (mo_offset o);
                 remove (Obj dir (mo_key o)) ;;
                 mret (inr (metadata, keys, count))
               else if u32 err <? writeLength then
                 '(key, metadata) ← rename_short dir metadata o (u64 (err + objectOffset)) (u64 (err + objectOffset));
                 note (Cache_newObject dir key (u64 (err + objectOffset))) ;;
                 mret (inr (metadata, keys ++ [key], count + err))
               else
                 note (Cache_newObject dir (mo_key o) (u64 (writeLength + objectOffset))) ;;
                 write_objects fuel dir filename data offset metadata (keys ++ [mo_key o]) (count + writeLength)
           end
       end.

Definition finish_objects (dir : string) (metadata : MetadataFile) (newObjectKeys : list string) : M st unit :=
  l_errno ← gets errno;
  note (Sync_newObjects dir newObjectKeys) ;;
  updateMetadata metadata ;;
  set_errno l_errno.

(** IOCoordinator::_write *)
Definition write_file (filename : string) (data : list Z) (offset : Z) : M st Z :=
  let dir := first_dir filename in
  metadata ← MetadataFile_open filename;
  if negb (_exists metadata) then set_errno ENOENT ;; mret (-1)
  else
    objects ← metadataRead objectSize metadata offset (zlen data);
    r ← write_journals dir data offset objects metadata 0;
    match r with
    | inl ret => mret ret
    | inr (metadata, count) =>
        r ← write_objects (S (length data)) dir filename data offset metadata [] count;
        match r with
        | inl ret => mret ret
        | inr (metadata, newObjectKeys, count) => finish_objects dir metadata newObjectKeys ;; mret count
        end
    end.

Definition write (filename : string) (data : list Z) (offset : Z) : M st Z :=
  ret ← write_file filename data offset;
  note (Cache_doneWriting (first_dir filename)) ;;
  mret (i32 ret).

(** ** append *)

(** The loop that writes new objects: [inl r] when the function returns [r]. *)
Fixpoint append_objects (fuel : nat) (dir filename : string) (data : list Z)
    (metadata : MetadataFile) (newObjectKeys : list string) (count : Z) : M st (Z + MetadataFile * list string * Z) :=
  let dataRemaining := zlen data - count in
  if dataRemaining <=? 0 then mret (inr (metadata, newObjectKeys, count))
  else match fuel with
       | O => fail_with OutOfFuel
       | S fuel =>
           let writeLength := Z.min objectSize dataRemaining in
           '(o, metadata) ← addMetadataObject objectSize metadata filename writeLength;
           err ← newObject dir (mo_key o) (slice data count writeLength) 0;
           if err <? 0 then
             l_errno ← gets errno;
             metadata ← removeEntry metadata (mo_offset o);
             remove (Obj dir (mo_key o)) ;;
             set_errno l_errno ;;
             mret (if count =? 0 then inl (-1) else inr (metadata, newObjectKeys, count))
           else if err =? 0 then
             metadata ← removeEntry metadata (mo_offset o);
             remove (Obj dir (mo_key o)) ;;
             mret (inr (metadata, newObjectKeys, count))
           else if err <? writeLength then
             '(key, metadata) ← rename_short dir metadata o (u64 (err + mo_offset o)) err;
             note (Cache_newObject dir key err) ;;
             mret (inr (metadata, newObjectKeys ++ [key], count + err))
           else
             note (Cache_newObject dir (mo_key o) err) ;;
             append_objects fuel dir filename data metadata (newObjectKeys ++ [mo_key o]) (count + err)
       end.

(** The label [out] of append. *)
Definition append_out (dir : string) (metadata : MetadataFile) (newObjectKeys : list string) (count : Z) : M st Z :=
  note (Sync_newObjects dir newObjectKeys) ;;
  updateMetadata metadata ;;
  note (Cache_doneWriting dir) ;;
  mret count.

(** What fits goes to the last object's journal: [inl r] when the function returns
    [r], the flag says whether it goes to [out]. *)
Definition append_last (dir : string) (data : list Z) (i : metadataObject) (metadata : MetadataFile) :
    M st (Z + MetadataFile * Z * bool) :=
  if 0 <? u64 (objectSize - mo_length i) then
    let writeLength := Z.min (u64 (objectSize - mo_length i)) (zlen data) in
    err ← addJournalEntry dir (mo_key i) (slice data 0 writeLength) (mo_length i);
    if err <? 0 then mret (inl (-1))
    else
      metadata ← updateEntryLength metadata (mo_offset i) (u64 (err + mo_length i));
      note_entry dir (mo_key i) err ;;
      mret (inr (metadata, err, err <? writeLength))
  else mret (inr (metadata, 0, false)).

Definition append (filename : string) (data : list Z) : M st Z :=
  let dir := first_dir filename in
  metadata ← MetadataFile_open filename;
  if negb (_exists metadata) then set_errno ENOENT ;; mret (-1)
  else
    offset ← getLength metadata;
    objects ← metadataRead objectSize metadata offset (zlen data);
    r ← match objects with
        | [] => mret (inr (metadata, 0, false))
        | [i] => append_last dir data i metadata
        | _ => set_errno EIO ;; mret (inl (-1))
        end;
    match r with
    | inl ret => mret ret
    | inr (metadata, count, true) => append_out dir metadata [] count
    | inr (metadata, count, false) =>
        r ← append_objects (S (length data)) dir filename data metadata [] count;
        match r with
        | inl ret => mret ret
        | inr (metadata, newObjectKeys, count) => append_out dir metadata newObjectKeys count
        end
    end.

(** ** truncate, open and deletion *)

(** PrefixCache::ifExistsThenDelete: bit 0 when the object is in the cache, bit 1 when
    it has a journal; the cache lists the files of its directory, and none of them is
    being evicted. *)
Definition ifExistsThenDelete (dir key : string) : M st Z :=
  note (Cache_ifExistsThenDelete dir key) ;;
  gets (fun s => (if bool_decide (is_Some (file_at (Obj dir key) s)) then 1 else 0) +
                 (if bool_decide (is_Some (file_at (Jrn dir key) s)) then 2 else 0)).

Definition delete_object (dir : string) (key : string) : M st unit :=
  result ← ifExistsThenDelete dir key;
  (if Z.testbit result 0 then remove (Obj dir key) else mret 0) ;;
  (if Z.testbit result 1 then remove (Jrn dir key) else mret 0) ;;
  mret tt.

(** IOCoordinator::_truncate *)
Definition truncate_file (filename : string) (newSize : Z) : M st Z :=
  let dir := first_dir filename in
  meta ← MetadataFile_open filename;
  if negb (_exists meta) then set_errno ENOENT ;; mret (-1)
  else
    filesize ← getLength meta;
    if filesize =? newSize then mret 0
    else if filesize <? newSize then
      err ← write_file filename [0] (newSize - 1);
      note (Cache_doneWriting dir) ;;
      mret (if i32 err <? 0 then -1 else 0)
    else
      objects ← metadataRead objectSize meta newSize (filesize - newSize);
      match objects with
      | [] => fail_with OutOfBounds
      | o :: rest =>
          let whole := newSize =? mo_offset o in
          meta ← (if whole then removeEntry meta (mo_offset o)
                  else updateEntryLength meta (mo_offset o) (u64 (newSize - mo_offset o)));
          meta ← foldl (fun m x => meta ← m; removeEntry meta (mo_offset x)) (mret meta) rest;
          '(err, _) ← updateMetadata meta;
          if negb (err =? 0) then mret err
          else
            let deletedObjects := mo_key <$> (if whole then objects else rest) in
            for_each deletedObjects (delete_object dir) ;;
            (match deletedObjects with [] => mret tt | _ => note (Sync_deletedObjects dir deletedObjects) end) ;;
            mret 0
      end.

Definition truncate (filename : string) (newSize : Z) : M st Z := truncate_file filename newSize.

(** [open] with the two flags it looks at; the result is that of stat: the size, or -1
    when the file does not exist. *)
Definition open (filename : string) (o_creat o_trunc : bool) : M st (Z * Z) :=
  meta ← MetadataFile_open filename;
  meta ← (if o_creat && negb (_exists meta) then '(_, meta) ← updateMetadata meta; mret meta else mret meta);
  (if o_trunc && _exists meta then truncate_file filename 0 ;; mret tt else mret tt) ;;
  on_disk ← gets (fun s => disk s !! filename);
  match on_disk with
  | None => set_errno ENOENT ;; mret (-1, 0)
  | Some _ => size ← getLength meta; mret (0, size)
  end.

Definition deleteMetaFile (filename : string) : M st unit :=
  let dir := first_dir filename in
  meta ← MetadataFile_open filename;
  modify (fun s => with_disk (delete filename (disk s)) s) ;;
  size ← getLength meta;
  objects ← metadataRead objectSize meta 0 size;
  for_each (mo_key <$> objects) (delete_object dir) ;;
  note (Sync_deletedObjects dir (mo_key <$> objects)) ;;
  deletedMeta filename.

End io.
End SmIo.
