(* ===== verification/SmThms.v ===== *)
(** * The storage manager: loops and journals

    Byte strings pointwise; what the write and read loops do on a device that makes
    progress; the format of a journal; writing an entry appends it; the three ways to
    merge a journal replay its entries in order. *)

From S2P Require Import Prelude Hasher Bytes SmFs SmJournal.
From stdpp Require Import prelude gmap strings.
Local Open Scope Z_scope.

Module SmThms.
Import SmFs SmJournal.

(** Case analysis on the comparisons in the goal, without the cases arithmetic rules
    out. *)
Ltac zcase :=
  repeat (match goal with
          | |- context [?a <? ?b] => destruct (Z.ltb_spec a b)
          | |- context [?a <=? ?b] => destruct (Z.leb_spec a b)
          | |- context [?a =? ?b] => destruct (Z.eqb_spec a b)
          end; try (exfalso; lia); cbn [andb orb negb]).

(** ** Byte strings *)

Lemma zget_app {A} (l l' : list A) i :
  zget (l ++ l') i = if i <? zlen l then zget l i else zget l' (i - zlen l).
Proof.
  unfold zget, zlen. destruct (Z.ltb_spec i 0), (Z.ltb_spec i (Z.of_nat (length l))); try done; try lia.
  - apply lookup_app_l. lia.
  - destruct (Z.ltb_spec (i - Z.of_nat (length l)) 0); [lia|].
    rewrite lookup_app_r by lia. f_equal. lia.
Qed.

Lemma zget_drop {A} (l : list A) (n : nat) i : 0 <= i -> zget (drop n l) i = zget l (i + Z.of_nat n).
Proof.
  intros Hi. unfold zget. destruct (Z.ltb_spec i 0), (Z.ltb_spec (i + Z.of_nat n) 0); try lia.
  rewrite lookup_drop. f_equal. lia.
Qed.

Lemma zget_take_if {A} (l : list A) (n : nat) i : zget (take n l) i = if i <? Z.of_nat n then zget l i else None.
Proof.
  apply option_eq. intros x. rewrite zget_take. destruct (Z.ltb_spec i (Z.of_nat n)); [naive_solver|].
  split; [lia|done].
Qed.

Lemma zlen_nonneg {A} (l : list A) : 0 <= zlen l.
Proof. unfold zlen. lia. Qed.

Lemma zlen_nil_inv {A} (l : list A) : zlen l <= 0 -> l = [].
Proof. destruct l; [done|]. unfold zlen. simpl. lia. Qed.

Lemma zget_seqZ m n i : zget (seqZ m n) i = if (0 <=? i) && (i <? n) then Some (m + i) else None.
Proof.
  unfold zget. destruct (Z.ltb_spec i 0), (Z.leb_spec 0 i); try lia; [done|]. simpl.
  destruct (Z.ltb_spec i n).
  - rewrite lookup_seqZ_lt by lia. f_equal. lia.
  - apply lookup_seqZ_ge. lia.
Qed.

Lemma zlen_seqZ m n : 0 <= n -> zlen (seqZ m n) = n.
Proof. intros. unfold zlen. rewrite length_seqZ. lia. Qed.

Lemma zlen_slice f off n : 0 <= off -> 0 <= n -> zlen (slice f off n) = Z.min n (Z.max 0 (zlen f - off)).
Proof. intros. unfold slice, zlen. rewrite length_take, length_drop. lia. Qed.

Lemma zget_slice f off n i : 0 <= off -> 0 <= n ->
  zget (slice f off n) i = if (0 <=? i) && (i <? n) then zget f (off + i) else None.
Proof.
  intros. unfold slice. rewrite zget_take_if. destruct (Z.leb_spec 0 i); simpl.
  - replace (Z.of_nat (Z.to_nat n)) with n by lia. destruct (i <? n); [|done].
    rewrite zget_drop by lia. f_equal. lia.
  - destruct (i <? _); [|done]. unfold zget. destruct (Z.ltb_spec i 0); [done|lia].
Qed.

Lemma zlen_splice f off bs : 0 <= off -> zlen (splice f off bs) = Z.max (zlen f) (off + zlen bs).
Proof.
  intros. unfold splice, zlen. rewrite !length_app, length_take, length_replicate, length_drop. lia.
Qed.

Lemma zget_splice f off bs i : 0 <= off ->
  zget (splice f off bs) i =
    if (off <=? i) && (i <? off + zlen bs) then zget bs (i - off)
    else if (zlen f <=? i) && (0 <=? i) && (i <? off) then Some 0 else zget f i.
Proof.
  intros Ho. unfold splice. rewrite !zget_app, zget_take_if.
  unfold zlen. rewrite length_take, length_replicate.
  assert (forall (l : list Z) j, j < 0 -> zget l j = None) as Hneg.
  { intros l j Hj. apply zget_None. lia. }
  assert (forall (l : list Z) j, zlen l <= j -> zget l j = None) as Hbig.
  { intros l j Hj. apply zget_None. lia. }
  unfold zlen in Hbig.
  destruct (Z.ltb_spec i 0).
  { rewrite !(Hneg _ i) by lia. zcase; try done; rewrite Hneg by lia; done. }
  destruct (Z.ltb_spec i (Z.of_nat (Z.to_nat off `min` length f))).
  { destruct (Z.ltb_spec i (Z.of_nat (Z.to_nat off))); [|lia]. zcase; done. }
  destruct (Z.ltb_spec (i - Z.of_nat (Z.to_nat off `min` length f)) (Z.of_nat (Z.to_nat off - length f))).
  { rewrite zget_replicate by lia. zcase; done. }
  match goal with |- context [zget bs ?a] => replace a with (i - off) by lia end.
  destruct (Z.ltb_spec (i - off) (Z.of_nat (length bs))).
  { match goal with |- context [?a <? ?b] => destruct (Z.ltb_spec a b); [|lia] end.
    zcase; done. }
  match goal with |- context [?a <? ?b] => destruct (Z.ltb_spec a b); [lia|] end.
  rewrite zget_drop by lia. match goal with |- zget _ ?a = _ => replace a with i by lia end.
  zcase; done.
Qed.

(** Equality of byte strings, position by position. *)
Ltac bytes_ext :=
  apply zget_ext; intros ?i; rewrite ?zget_splice, ?zget_app, ?zget_slice, ?zget_splice, ?zlen_splice, ?zlen_app by lia.

Lemma splice_at_end f bs : splice f (zlen f) bs = f ++ bs.
Proof.
  unfold splice, zlen. rewrite Nat2Z.id, take_ge, Nat.sub_diag by lia. simpl.
  rewrite drop_ge by lia. by rewrite app_nil_r.
Qed.

Lemma splice_nil f off : 0 <= off <= zlen f -> splice f off [] = f.
Proof.
  intros. unfold splice. rewrite Nat.add_0_r. simpl.
  replace (Z.to_nat off - length f)%nat with 0%nat by (unfold zlen in *; lia). simpl. apply take_drop.
Qed.

Lemma zget_lt0 {A} (l : list A) i : i < 0 -> zget l i = None.
Proof. intros. apply zget_None. lia. Qed.

Lemma zget_beyond {A} (l : list A) i : zlen l <= i -> zget l i = None.
Proof. intros. apply zget_None. lia. Qed.

Lemma splice_splice f off a b : 0 <= off -> splice (splice f off a) (off + zlen a) b = splice f off (a ++ b).
Proof.
  intros. pose proof (zlen_nonneg a). pose proof (zlen_nonneg b). pose proof (zlen_nonneg f). bytes_ext.
  zcase; try done; f_equal; lia.
Qed.

Lemma splice_app_r f off a b : off = zlen f -> splice (f ++ a) off b = f ++ splice a 0 b.
Proof.
  intros ->. pose proof (zlen_nonneg a). pose proof (zlen_nonneg b). pose proof (zlen_nonneg f). bytes_ext.
  zcase; try done; f_equal; lia.
Qed.

Lemma splice_all f bs : zlen f <= zlen bs -> splice f 0 bs = bs.
Proof.
  intros. unfold splice, zlen in *. simpl. rewrite drop_ge by lia. by rewrite app_nil_r.
Qed.

Lemma splice_prefix a b c : zlen a = zlen b -> splice (a ++ c) 0 b = b ++ c.
Proof.
  intros. unfold splice, zlen in *. simpl. rewrite drop_app_length' by lia. done.
Qed.

Lemma slice_app_r a b off n : off = zlen a -> slice (a ++ b) off n = slice b 0 n.
Proof. intros ->. unfold slice, zlen. by rewrite Nat2Z.id, drop_app_length. Qed.

Lemma slice_app_l a b n : n = zlen a -> slice (a ++ b) 0 n = a.
Proof. intros ->. unfold slice, zlen. rewrite Nat2Z.id. apply take_app_length. Qed.

Lemma slice_mid a b c off n : off = zlen a -> n = zlen b -> slice (a ++ b ++ c) off n = b.
Proof. intros -> ->. rewrite slice_app_r by done. by apply slice_app_l. Qed.

Lemma slice_all f n : zlen f <= n -> slice f 0 n = f.
Proof. intros. unfold slice, zlen in *. simpl. apply take_ge. lia. Qed.

Lemma slice_slice f off n off' n' : 0 <= off -> 0 <= n -> 0 <= off' -> 0 <= n' -> off' + n' <= n ->
  slice (slice f off n) off' n' = slice f (off + off') n'.
Proof.
  intros. bytes_ext. zcase; try done. f_equal. lia.
Qed.

Lemma resize_grow f n : zlen f <= n -> resize_to f n = f ++ replicate (Z.to_nat (n - zlen f)) 0.
Proof.
  intros. unfold resize_to, zlen in *. rewrite take_ge by lia. do 2 f_equal. lia.
Qed.

Lemma resize_cut a b n : n = zlen a -> resize_to (a ++ b) n = a.
Proof.
  intros ->. unfold resize_to, zlen. rewrite Nat2Z.id, take_app_length, length_app.
  replace (_ - _)%nat with 0%nat by lia. by rewrite app_nil_r.
Qed.

(** ** Files of the state *)

(** A device that transfers at least a byte with every call; one that, in the end, transfers
    something or fails. *)
Definition transfers (a : answer) : Prop := exists n, a = Moves n /\ 1 <= n.
Definition clean (d : device) : Prop := Forall transfers (planned d) /\ transfers (ever_after d).
Definition live (d : device) : Prop := match ever_after d with Moves n => 1 <= n | Fails _ => True end.

Lemma contents_set p f s : contents p (file_set p f s) = f.
Proof. unfold contents. destruct p; simpl; by rewrite lookup_insert_eq. Qed.

Lemma contents_wplan p pl s : contents p (with_wplan pl s) = contents p s.
Proof. by destruct p. Qed.

Lemma contents_calls p c s : contents p (with_calls c s) = contents p s.
Proof. by destruct p. Qed.

Lemma file_set_set p f g s : file_set p f (file_set p g s) = file_set p f s.
Proof.
  destruct p, s; unfold file_set, with_objs, with_jrns; simpl; by rewrite insert_insert_eq.
Qed.

Lemma file_set_wplan p f pl s : file_set p f (with_wplan pl s) = with_wplan pl (file_set p f s).
Proof. by destruct p. Qed.

Lemma file_set_same p f s : file_at p s = Some f -> file_set p f s = s.
Proof.
  destruct p, s; unfold file_set, with_objs, with_jrns; simpl; intros; by rewrite insert_id.
Qed.

Lemma wplan_file_set p f s : wplan (file_set p f s) = wplan s.
Proof. by destruct p. Qed.

Lemma rplan_file_set p f s : rplan (file_set p f s) = rplan s.
Proof. by destruct p. Qed.

Lemma with_wplan_twice pl pl' s : with_wplan pl (with_wplan pl' s) = with_wplan pl s.
Proof. done. Qed.

Lemma with_wplan_same s : with_wplan (wplan s) s = s.
Proof. by destruct s. Qed.

Lemma file_set_calls p f c s : file_set p f (with_calls c s) = with_calls c (file_set p f s).
Proof. by destruct p. Qed.

Lemma wplan_calls_comm pl c s : with_wplan pl (with_calls c s) = with_calls c (with_wplan pl s).
Proof. done. Qed.

Lemma write_again p f g h pl pl' c s :
  with_wplan pl' (file_set p h (with_calls c (with_wplan pl (file_set p g (file_set p f s))))) =
  with_calls c (with_wplan pl' (file_set p h s)).
Proof.
  by rewrite file_set_calls, wplan_calls_comm, file_set_wplan, with_wplan_twice, !file_set_set.
Qed.

(** ** The write loops

    On a device that transfers at least a byte with every call they write
    everything, for any sequence of short transfers. *)


Lemma sys_pwrite_step p buf off s : clean (wplan s) -> buf <> [] -> zlen buf < 2 ^ 31 ->
  exists n pl, clean pl /\ 0 < n <= zlen buf /\
    sys_pwrite p buf off s =
      (Val n, with_wplan pl (file_set p (splice (contents p s) off (take (Z.to_nat n) buf)) s)).
Proof.
  intros Hc Hb Hlen. assert (0 < zlen buf) by (destruct buf; [done|unfold zlen; simpl; lia]).
  assert (forall n, 1 <= n -> Z.max 0 (Z.min n (zlen buf)) = Z.min n (zlen buf) /\ 0 < Z.min n (zlen buf) <= zlen buf) as Hn by lia.
  unfold sys_pwrite, next_write, mbind, M_bind. destruct Hc as [Hpl Htl].
  destruct (planned (wplan s)) as [|a pl] eqn:Hw.
  - pose proof Htl as (n & -> & H1). destruct (Hn n H1) as [-> Hr]. exists (Z.min n (zlen buf)), (wplan s).
    repeat split; try done; try lia; [by rewrite Hw|].
    rewrite (proj2 (Z.ltb_lt _ _)) by lia. unfold modify, mret, M_ret. f_equal. by destruct p, s.
  - apply Forall_cons in Hpl as [(n & -> & H1) Hpl]. destruct (Hn n H1) as [-> Hr].
    exists (Z.min n (zlen buf)), (mkDevice pl (ever_after (wplan s))). repeat split; try done; try lia.
    rewrite (proj2 (Z.ltb_lt _ _)) by lia. unfold modify, mret, M_ret. by rewrite contents_wplan, file_set_wplan.
Qed.

Lemma drop_take_split (data : list Z) count n : 0 <= count -> 0 <= n ->
  take (Z.to_nat n) (drop (Z.to_nat count) data) ++ drop (Z.to_nat (count + n)) data = drop (Z.to_nat count) data.
Proof.
  intros. rewrite <- (take_drop (Z.to_nat n) (drop (Z.to_nat count) data)) at 2. f_equal.
  rewrite drop_drop. f_equal. lia.
Qed.

Lemma zlen_drop (data : list Z) count : 0 <= count <= zlen data -> zlen (drop (Z.to_nat count) data) = zlen data - count.
Proof. intros. unfold zlen in *. rewrite length_drop. lia. Qed.

Lemma zlen_take (data : list Z) n : 0 <= n <= zlen data -> zlen (take (Z.to_nat n) data) = n.
Proof. intros. unfold zlen in *. rewrite length_take. lia. Qed.

(** The file and plan after writing in two pieces. *)
Lemma write_two p pl pl' f off a b s :
  with_wplan pl' (file_set p (splice (contents p (with_wplan pl (file_set p (splice f off a) s))) (off + zlen a) b)
    (with_wplan pl (file_set p (splice f off a) s))) =
  if 0 <=? off then with_wplan pl' (file_set p (splice f off (a ++ b)) s)
  else with_wplan pl' (file_set p (splice (splice f off a) (off + zlen a) b) s).
Proof.
  rewrite contents_wplan, contents_set, file_set_wplan, with_wplan_twice, file_set_set.
  destruct (Z.leb_spec 0 off); [by rewrite splice_splice|done].
Qed.

Lemma write_rounds_clean fuel p pos data count s :
  clean (wplan s) -> zlen data - count < Z.of_nat fuel -> 0 <= pos -> 0 <= count < zlen data -> zlen data < 2 ^ 31 ->
  exists pl, clean pl /\
    write_rounds fuel p pos data count s =
      (Val (zlen data), with_wplan pl (file_set p (splice (contents p s) (pos + count) (drop (Z.to_nat count) data)) s)).
Proof.
  revert s count. induction fuel as [|fuel IH]; intros s count Hc Hf Hp Hcount Hlen; [lia|].
  cbn [write_rounds]. unfold sys_write.
  pose proof (zlen_drop data count ltac:(lia)) as Hd.
  destruct (sys_pwrite_step p (drop (Z.to_nat count) data) (pos + count) s Hc) as (n & pl & Hpl & Hn & E).
  { intros E. rewrite E in Hd. change (zlen (@nil Z)) with 0 in Hd. lia. }
  { lia. }
  rewrite (bind_Val _ _ _ _ _ E). unfold mbind at 1, M_bind at 1, gets.
  rewrite (proj2 (Z.ltb_ge n 0)), (proj2 (Z.eqb_neq n 0)) by lia. cbn [orb andb].
  destruct (Z.ltb_spec (count + n) (zlen data)).
  - destruct (IH (with_wplan pl (file_set p (splice (contents p s) (pos + count) (take (Z.to_nat n) (drop (Z.to_nat count) data))) s))
      (count + n)) as (pl' & Hpl' & E'); try done; try lia.
    exists pl'. split; [done|]. rewrite E'. f_equal.
    pose proof (zlen_take (drop (Z.to_nat count) data) n ltac:(lia)) as Ht.
    replace (pos + (count + n)) with (pos + count + zlen (take (Z.to_nat n) (drop (Z.to_nat count) data))) by lia.
    rewrite write_two, drop_take_split by lia. by destruct (Z.leb_spec 0 (pos + count)); [|lia].
  - exists pl. split; [done|]. unfold mret, M_ret. rewrite take_ge by (unfold zlen in *; lia).
    do 2 f_equal. lia.
Qed.

Lemma write_clean p pos data s : clean (wplan s) -> 0 <= pos -> data <> [] -> zlen data < 2 ^ 31 ->
  exists pl, clean pl /\
    _write p pos data s = (Val (zlen data), with_wplan pl (file_set p (splice (contents p s) pos data) s)).
Proof.
  intros Hc Hp Hd Hlen. assert (0 < zlen data) by (destruct data; [done|unfold zlen; simpl; lia]).
  destruct (write_rounds_clean (rounds data s) p pos data 0 s) as (pl & Hpl & E); try done; try lia.
  { unfold rounds, zlen. lia. }
  exists pl. split; [done|]. unfold _write. rewrite E. by rewrite Z.add_0_r.
Qed.

Lemma pwrite_write p data off s : _pwrite p data off s = _write p off data s.
Proof.
  unfold _pwrite, _write. generalize (rounds data s) as fuel. intros fuel. generalize 0 as count.
  revert s. induction fuel as [|fuel IH]; intros s count; [done|].
  cbn [pwrite_rounds write_rounds]. unfold sys_write, mbind, M_bind.
  destruct (sys_pwrite p _ _ s) as [[err| |] s']; [|done..]. unfold gets.
  destruct (_ || _); [done|]. destruct (_ <? _); [apply IH|done].
Qed.

Lemma newObject_rounds_clean fuel p data offset count s :
  clean (wplan s) -> zlen data - count + 1 < Z.of_nat fuel -> 0 <= offset -> 0 <= count < zlen data -> zlen data < 2 ^ 31 ->
  exists pl, clean pl /\
    newObject_rounds fuel p data offset count s =
      (Val (zlen data), with_wplan pl (file_set p (splice (contents p s) (offset + count) (drop (Z.to_nat count) data)) s)).
Proof.
  revert s count. induction fuel as [|fuel IH]; intros s count Hc Hf Hp Hcount Hlen; [lia|].
  cbn [newObject_rounds]. destruct (Z.leb_spec (zlen data) count); [lia|].
  pose proof (zlen_drop data count ltac:(lia)) as Hd.
  destruct (sys_pwrite_step p (drop (Z.to_nat count) data) (offset + count) s Hc) as (n & pl & Hpl & Hn & E).
  { intros E. rewrite E in Hd. change (zlen (@nil Z)) with 0 in Hd. lia. }
  { lia. }
  rewrite (bind_Val _ _ _ _ _ E), i32_small by lia.
  destruct (Z.leb_spec n 0); [lia|].
  destruct (Z.eq_dec (count + n) (zlen data)) as [Hend|Hend].
  - exists pl. split; [done|]. rewrite take_ge by (unfold zlen in *; lia).
    destruct fuel; [lia|]. cbn [newObject_rounds]. destruct (Z.leb_spec (zlen data) (count + n)); [|lia].
    unfold mret, M_ret. by rewrite Hend.
  - destruct (IH (with_wplan pl (file_set p (splice (contents p s) (offset + count) (take (Z.to_nat n) (drop (Z.to_nat count) data))) s))
      (count + n)) as (pl' & Hpl' & E'); try done; try lia.
    exists pl'. split; [done|]. rewrite E'. f_equal.
    pose proof (zlen_take (drop (Z.to_nat count) data) n ltac:(lia)) as Ht.
    replace (offset + (count + n)) with (offset + count + zlen (take (Z.to_nat n) (drop (Z.to_nat count) data))) by lia.
    rewrite write_two, drop_take_split by lia. by destruct (Z.leb_spec 0 (offset + count)); [|lia].
Qed.

Lemma sys_open_ok p s f : rplan s = [] -> file_at p s = Some f -> forall c, sys_open p c s = (Val 0, s).
Proof.
  intros Hr Hf c. unfold sys_open, next_read, mbind, M_bind. rewrite Hr. unfold gets. by rewrite Hf.
Qed.

Lemma sys_open_create p s : rplan s = [] -> file_at p s = None -> sys_open p true s = (Val 0, file_set p [] s).
Proof.
  intros Hr Hf. unfold sys_open, next_read, mbind, M_bind. rewrite Hr. unfold gets. by rewrite Hf.
Qed.

Lemma newObject_clean dir key data offset s :
  clean (wplan s) -> rplan s = [] -> objs s !! (dir, key) = None ->
  0 <= offset -> data <> [] -> zlen data < 2 ^ 31 ->
  exists pl, clean pl /\
    newObject dir key data offset s =
      (Val (zlen data), with_wplan pl (file_set (Obj dir key) (replicate (Z.to_nat offset) 0 ++ data) s)).
Proof.
  intros Hc Hr Hf Ho Hd Hlen. assert (0 < zlen data) by (destruct data; [done|unfold zlen; simpl; lia]).
  unfold newObject. rewrite (bind_Val _ _ _ _ _ (sys_open_create (Obj dir key) s Hr Hf)).
  change (0 <? 0) with false. cbn beta iota. unfold mbind at 1, M_bind at 1, gets.
  destruct (newObject_rounds_clean (rounds data (file_set (Obj dir key) [] s)) (Obj dir key) data offset 0
    (file_set (Obj dir key) [] s)) as (pl & Hpl & E); try done; try lia.
  { unfold rounds, zlen. lia. }
  exists pl. split; [done|]. rewrite (bind_Val _ _ _ _ _ E). unfold mret, M_ret.
  rewrite i32_small by lia. rewrite file_set_set, contents_set, Z.add_0_r. do 3 f_equal.
  unfold splice. rewrite take_nil, drop_nil, app_nil_r, Nat.sub_0_r. done.
Qed.

(** ** The read loop: everything up to the end of the file *)
Lemma sys_read_all p pos count s : rplan s = [] -> count < 2 ^ 63 ->
  sys_read p pos count s =
    (Val (zlen (slice (contents p s) pos count), slice (contents p s) pos count), s).
Proof.
  intros Hr Hcount. unfold sys_read, next_read, mbind, M_bind. rewrite Hr. unfold gets, mret, M_ret.
  by rewrite Z.max_r, Z.min_l by lia.
Qed.

Lemma read_fully_spec p pos len s : rplan s = [] -> 0 <= pos -> 0 <= len < 2 ^ 63 ->
  let bs := slice (contents p s) pos len in
  read_fully p pos len s = (Val (if len <=? zlen bs then ReadAll else ReadEOF, bs), s).
Proof.
  intros Hr Hp Hlen bs. unfold read_fully. rewrite Hr. cbn [length read_rounds].
  change (zlen (@nil Z)) with 0.
  pose proof (zlen_slice (contents p s) pos len Hp ltac:(lia)) as Hb. fold bs in Hb.
  destruct (Z.leb_spec len 0).
  { assert (bs = []) as -> by (apply zlen_nil_inv; lia). destruct (Z.leb_spec len (zlen (@nil Z))); [done|].
    change (zlen (@nil Z)) with 0 in *. lia. }
  rewrite Z.add_0_r, Z.sub_0_r. rewrite (bind_Val _ _ _ _ _ (sys_read_all p pos len s Hr ltac:(lia))). fold bs.
  rewrite (proj2 (Z.ltb_ge _ _) (zlen_nonneg bs)).
  destruct (Z.eqb_spec (zlen bs) 0).
  { destruct (Z.leb_spec len (zlen bs)); [lia|]. by rewrite (zlen_nil_inv bs) by lia. }
  cbn [app]. destruct (Z.leb_spec len (zlen bs)); [done|].
  rewrite (bind_Val _ _ _ _ _ (sys_read_all p (pos + zlen bs) (len - zlen bs) s Hr ltac:(lia))).
  assert (slice (contents p s) (pos + zlen bs) (len - zlen bs) = []) as ->.
  { apply zlen_nil_inv. rewrite zlen_slice by lia. lia. }
  done.
Qed.

(** ** The format of a journal *)

Lemma digits_length fuel n m acc : (n <= fuel)%nat -> 0 <= m < 10 ^ Z.of_nat n ->
  length (digits fuel n m acc) = (n + length acc)%nat.
Proof.
  revert n m acc. induction fuel as [|fuel IH]; intros n m acc Hn Hm.
  { simpl. by replace n with 0%nat by lia. }
  cbn [digits]. destruct n as [|n].
  { change (10 ^ Z.of_nat 0) with 1 in Hm. replace m with 0 by lia. done. }
  rewrite andb_false_r, IH; [simpl; lia|lia|]. rewrite Nat2Z.inj_succ, Z.pow_succ_r in Hm by lia.
  cbn [pred]. split; [apply Z.div_pos; lia|apply Z.div_lt_upper_bound; lia].
Qed.

Lemma digits_max fuel n m acc : (n <= fuel)%nat -> (length (digits fuel n m acc) <= fuel + length acc)%nat.
Proof.
  revert n m acc. induction fuel as [|fuel IH]; intros n m acc Hn; [done|].
  cbn [digits]. destruct (_ && _); [lia|]. etrans; [apply IH; lia|]. simpl. lia.
Qed.

Lemma digits_nonzero fuel n m acc : Forall (.≠ 0) acc -> Forall (.≠ 0) (digits fuel n m acc).
Proof.
  revert n m acc. induction fuel as [|fuel IH]; intros n m acc Ha; [done|].
  cbn [digits]. destruct (_ && _); [done|]. apply IH. constructor; [|done].
  pose proof (Z.mod_pos_bound m 10). lia.
Qed.

Lemma header_nonzero m : Forall (.≠ 0) (header_text m).
Proof.
  assert (forall l, forallb (fun b => negb (b =? 0)) l = true -> Forall (.≠ 0) l) as Hl.
  { induction l as [|b l IH]; simpl; [constructor|]. destruct (Z.eqb_spec b 0); [done|]. constructor; auto. }
  unfold header_text. repeat (apply Forall_app; split);
    lazymatch goal with
    | |- Forall _ (format_011u _) => by apply digits_nonzero
    | _ => by apply Hl
    end.
Qed.

Lemma header_length m : 0 <= m < 10 ^ 11 -> length (header_text m) = 51%nat.
Proof.
  intros Hm. unfold header_text. rewrite !length_app. unfold format_011u.
  rewrite (digits_length 20 11 m []) by (lia || done). done.
Qed.

(** Nothing before the zero is a zero. *)
Lemma until_zero_app l r : Forall (.≠ 0) l -> until_zero (l ++ 0 :: r) = Some l.
Proof.
  induction 1 as [|b l Hb _ IH]; [done|]. simpl. destruct (Z.eqb_spec b 0); [done|]. by rewrite IH.
Qed.

Lemma seek_spec p hdr rest s : rplan s = [] -> contents p s = hdr ++ [0] ++ rest ->
  Forall (.≠ 0) hdr -> (length hdr < 100)%nat ->
  seekToEndOfHeader1 p s = (Val (hdr, zlen hdr + 1), s).
Proof.
  intros Hr Hf Hz Hlen. unfold seekToEndOfHeader1.
  rewrite (bind_Val _ _ _ _ _ (sys_read_all p 0 100 s Hr ltac:(lia))).
  rewrite (proj2 (Z.ltb_ge _ _) (zlen_nonneg _)).
  assert (slice (contents p s) 0 100 = hdr ++ 0 :: take (99 - length hdr) rest) as ->; [|by rewrite until_zero_app].
  rewrite Hf. unfold slice. rewrite drop_0, take_app, take_ge by lia. f_equal.
  replace (Z.to_nat 100 - length hdr)%nat with (S (99 - length hdr)) by lia. done.
Qed.

Definition entry : Type := Z * list Z.

Definition entry_bytes (e : entry) : list Z := offlen e.1 (zlen e.2) ++ e.2.

(** The bytes of a journal with header value [m] and the entries [es]. *)
Definition journal (m : Z) (es : list entry) : list Z := header_text m ++ [0] ++ concat (entry_bytes <$> es).

(** A write that stays within an object of at most [osz] bytes. *)
Definition entry_ok (osz : Z) (e : entry) : Prop := 0 <= e.1 /\ 0 < zlen e.2 /\ e.1 + zlen e.2 <= osz.

Definition is_journal (osz : Z) (f : list Z) (es : list entry) : Prop :=
  exists m, 0 <= m < 10 ^ 11 /\ f = journal m es /\ Forall (entry_ok osz) es.

(** A journal file, or none when there are no entries. *)
Definition has_journal (osz : Z) (f : option (list Z)) (es : list entry) : Prop :=
  match f with None => es = [] | Some f => is_journal osz f es end.

Lemma journal_snoc m es e : journal m (es ++ [e]) = journal m es ++ entry_bytes e.
Proof. unfold journal. rewrite fmap_app, concat_app. simpl. by rewrite app_nil_r, <- !app_assoc. Qed.

Lemma zlen_offlen o n : zlen (offlen o n) = 16.
Proof. unfold offlen, zlen. by rewrite length_app, !length_le_bytes. Qed.

Lemma zlen_entry_bytes e : zlen (entry_bytes e) = 16 + zlen e.2.
Proof. unfold entry_bytes. by rewrite zlen_app, zlen_offlen. Qed.

Lemma offlen_offset o n : 0 <= o < 2 ^ 64 -> le_val (take 8 (offlen o n)) = o.
Proof.
  intros. unfold offlen. rewrite take_app_length' by (by rewrite length_le_bytes). rewrite u64_small by lia.
  by apply le_val_u.
Qed.

Lemma offlen_length o n : 0 <= n < 2 ^ 64 -> le_val (drop 8 (offlen o n)) = n.
Proof.
  intros. unfold offlen. rewrite drop_app_length' by (by rewrite length_le_bytes). rewrite u64_small by lia.
  by apply le_val_u.
Qed.

(** ** Writing an entry *)

(** The documented behaviour of the parser: it reads what the header says. *)
Class JsonHeaderOk `{JsonHeader} : Prop :=
  read_header_text m : 0 <= m < 2 ^ 64 ->
    exists t, read_json (header_text m) = Some t /\ get_max_offset t = Some m.

Lemma entry_rounds_clean fuel p b data offset eho s :
  clean (wplan s) -> 0 <= eho -> data <> [] -> zlen data < 2 ^ 31 -> (1 < fuel)%nat ->
  exists pl, clean pl /\
    entry_rounds fuel p b data offset eho 0 s =
      (Val (zlen data), with_wplan pl (file_set p (splice (contents p s) (eho + 16) data) s)).
Proof.
  intros Hc He Hd Hlen Hf. assert (0 < zlen data) by (destruct data; [done|unfold zlen; simpl; lia]).
  destruct fuel as [|[|fuel]]; [lia..|]. cbn [entry_rounds].
  destruct (Z.leb_spec (zlen data) 0); [lia|]. unfold JOURNAL_ENTRY_HEADER_SIZE.
  rewrite Z.add_0_r, drop_0. destruct (write_clean p (eho + 16) data s) as (pl & Hpl & E); try done; [lia|].
  exists pl. split; [done|]. rewrite (bind_Val _ _ _ _ _ E), i32_small by lia.
  destruct (Z.ltb_spec (zlen data) 0); [lia|]. rewrite Z.add_0_l. rewrite Z.leb_refl. by rewrite i32_small by lia.
Qed.

Lemma append_entry_clean p b rb data offset s :
  clean (wplan s) -> data <> [] -> zlen data < 2 ^ 31 ->
  exists pl, clean pl /\
    append_entry p b rb data offset s =
      (Val (zlen data), with_wplan pl (file_set p (contents p s ++ entry_bytes (offset, data)) s)).
Proof.
  intros Hc Hd Hlen. unfold append_entry. rewrite (bind_Val _ _ s (zlen (contents p s)) s) by done.
  destruct (write_clean p (zlen (contents p s)) (offlen offset (zlen data)) s) as (pl & Hpl & E).
  { done. } { apply zlen_nonneg. } { intros E. by apply (f_equal zlen) in E; rewrite zlen_offlen in E. }
  { rewrite zlen_offlen. lia. }
  rewrite splice_at_end in E. rewrite (bind_Val _ _ _ _ _ E), zlen_offlen.
  match goal with |- context [with_wplan pl ?x] => set (s1 := with_wplan pl x) end.
  rewrite (bind_Val _ _ s1 (errno s1) s1) by done. change (i32 16) with 16.
  unfold JOURNAL_ENTRY_HEADER_SIZE at 1. rewrite Z.eqb_refl. cbn [negb].
  rewrite (bind_Val _ _ s1 (rounds data s1) s1) by done.
  destruct (entry_rounds_clean (rounds data s1) p b data offset (zlen (contents p s)) s1) as (pl' & Hpl' & E'); try done.
  { apply zlen_nonneg. } { unfold rounds. lia. }
  exists pl'. split; [done|]. rewrite E'. f_equal. unfold s1.
  rewrite contents_wplan, contents_set, file_set_wplan, with_wplan_twice, file_set_set. do 2 f_equal.
  rewrite <- (zlen_offlen offset (zlen data)), <- zlen_app, splice_at_end. unfold entry_bytes. simpl.
  by rewrite <- app_assoc.
Qed.

Lemma with_calls_same s : with_calls (calls s) s = s.
Proof. by destruct s. Qed.

Section entries.
Context `{JsonHeaderOk}.

Lemma check_header_clean dir key m' m es s :
  clean (wplan s) -> rplan s = [] -> contents (Jrn dir key) s = journal m es ->
  0 <= m < 10 ^ 11 -> 0 <= m' < 10 ^ 11 ->
  exists pl b, clean pl /\
    check_header dir key m' s =
      (Val (inr (b, header_text m)),
       with_wplan pl (if m <? m' then file_set (Jrn dir key) (journal m' es) s else s)).
Proof.
  intros Hc Hr Hf Hm Hm'. unfold check_header, try_catch.
  assert (seekToEndOfHeader1 (Jrn dir key) s = (Val (header_text m, zlen (header_text m) + 1), s)) as Eh.
  { eapply seek_spec; [done|apply Hf|apply header_nonzero|]. rewrite header_length by done. lia. }
  unfold mbind at 1, M_bind at 1. rewrite (bind_Val _ _ _ _ _ Eh). cbn [mret M_ret fst].
  destruct (read_header_text m ltac:(lia)) as (t & -> & ->).
  destruct (Z.ltb_spec m m').
  - assert (zlen (header_text m' ++ [0]) = 52) as H52.
    { unfold zlen. rewrite length_app, header_length by done. done. }
    rewrite H52.
    destruct (write_clean (Jrn dir key) 0 (header_text m' ++ [0]) s) as (pl & Hpl & E); try done; try lia.
    rewrite (bind_Val _ _ s (zlen (header_text m' ++ [0])) _) by (rewrite pwrite_write; apply E).
    match goal with |- context [with_wplan pl ?x] => set (s1 := with_wplan pl x) end.
    rewrite (bind_Val _ _ s1 (errno s1) s1) by done. rewrite H52. change (u32 (i32 52) =? 52) with true. cbn [negb].
    exists pl, true. split; [done|]. unfold mret, M_ret. do 2 f_equal. unfold s1. rewrite Hf. f_equal. f_equal.
    unfold journal. rewrite !app_assoc. apply splice_prefix. unfold zlen. rewrite !length_app, !header_length by done. done.
  - exists (wplan s), false. split; [done|]. by rewrite with_wplan_same.
Qed.

Lemma addJournalEntry_clean osz dir key data offset es s :
  clean (wplan s) -> rplan s = [] -> osz < 2 ^ 31 -> entry_ok osz (offset, data) ->
  has_journal osz (jrns s !! (dir, key)) es ->
  exists pl f cl, clean pl /\ is_journal osz f (es ++ [(offset, data)]) /\
    addJournalEntry dir key data offset s =
      (Val (zlen data), with_calls cl (with_wplan pl (file_set (Jrn dir key) f s))).
Proof.
  intros Hc Hr Hosz Hok Hj. pose proof Hok as (Ho & Hl & Hle). simpl in *.
  assert (data <> []) as Hd by (intros ->; by vm_compute in Hl).
  assert (2 ^ 31 < 10 ^ 11) by done.
  assert (0 <= offset + zlen data - 1 < 10 ^ 11) as Hm' by lia.
  unfold addJournalEntry. rewrite u64_small by lia.
  rewrite (bind_Val _ _ s (bool_decide (is_Some (jrns s !! (dir, key)))) s) by done.
  destruct (jrns s !! (dir, key)) as [f|] eqn:Hf; simpl in Hj.
  - destruct Hj as (m & Hm & -> & Hes).
    rewrite (bind_Val _ _ _ _ _ (sys_open_ok (Jrn dir key) s _ Hr Hf _)). change (0 <? 0) with false.
    cbn [bool_decide negb] in *. rewrite bool_decide_eq_true_2 by eauto. cbn beta iota delta [negb].
    destruct (check_header_clean dir key (offset + zlen data - 1) m es s) as (pl & b & Hpl & E); try done.
    { unfold contents. simpl. by rewrite Hf. }
    rewrite (bind_Val _ _ _ _ _ E).
    match goal with |- context [with_wplan pl ?x] => set (s1 := with_wplan pl x) end.
    destruct (append_entry_clean (Jrn dir key) b (header_text m) data offset s1) as (pl' & Hpl' & E'); try done; [lia|].
    exists pl', (contents (Jrn dir key) s1 ++ entry_bytes (offset, data)), (calls s). split_and!; [done| |].
    2: { rewrite E'. f_equal. generalize (contents (Jrn dir key) s1 ++ entry_bytes (offset, data)). intros g. unfold s1.
         destruct (m <? offset + zlen data - 1);
           rewrite file_set_wplan, with_wplan_twice, ?file_set_set; by destruct s. }
    unfold s1. rewrite contents_wplan. exists (Z.max m (offset + zlen data - 1)). repeat split; [lia|lia| |].
    + rewrite journal_snoc. f_equal. destruct (Z.ltb_spec m (offset + zlen data - 1)).
      * rewrite contents_set. f_equal. lia.
      * unfold contents. simpl. rewrite Hf. simpl. f_equal. lia.
    + apply Forall_app. split; [done|]. by constructor.
  - subst es. rewrite bool_decide_eq_false_2 by (by intros []). cbn [negb].
    rewrite (bind_Val _ _ _ _ _ (sys_open_create (Jrn dir key) s Hr Hf)). change (0 <? 0) with false. cbn beta iota.
    set (m' := offset + zlen data - 1) in *. set (s0 := file_set (Jrn dir key) [] s).
    assert (zlen (header_text m' ++ [0]) = 52) as H52.
    { unfold zlen. rewrite length_app, header_length by done. done. }
    unfold write_new_header at 1.
    destruct (write_clean (Jrn dir key) 0 (header_text m' ++ [0]) s0) as (pl & Hpl & E); try done; try lia.
    unfold mbind at 1, M_bind at 1. rewrite (bind_Val _ _ _ _ _ E), H52. change (u32 (i32 52) =? 52) with true.
    cbn [negb]. unfold note, modify, mbind at 1, M_bind at 1. cbn [mret M_ret].
    match goal with |- context [append_entry _ _ _ _ _ ?x] => set (s1 := x) end.
    destruct (append_entry_clean (Jrn dir key) true [] data offset s1) as (pl' & Hpl' & E'); try done; [lia|].
    assert (contents (Jrn dir key) s1 = journal m' []) as Hs1.
    { unfold s1. rewrite contents_calls, contents_wplan, contents_set. unfold s0.
      rewrite contents_set, splice_all by (rewrite H52; done). done. }
    rewrite Hs1 in E'. exists pl', (journal m' [] ++ entry_bytes (offset, data)), (calls s1). split_and!; [done| |].
    { exists m'. repeat split; [lia|lia|by rewrite <- journal_snoc|]. by constructor. }
    rewrite E'. f_equal. apply write_again.
Qed.
End entries.

(** ** Merging

    The reference: the entries are laid over the buffer one after the other, clipped to
    the range from [offset] on that the buffer holds. *)

Definition clip_put (offset : Z) (ret : list Z) (e : entry) : list Z :=
  imap (fun i b => default b (zget e.2 (offset + Z.of_nat i - e.1))) ret.

Definition overlay (offset : Z) (ret : list Z) (es : list entry) : list Z := foldl (clip_put offset) ret es.

Lemma zlen_clip offset ret e : zlen (clip_put offset ret e) = zlen ret.
Proof. unfold clip_put, zlen. by rewrite length_imap. Qed.

Lemma zlen_overlay offset ret es : zlen (overlay offset ret es) = zlen ret.
Proof. revert ret. induction es as [|e es IH]; intros ret; [done|]. simpl. by rewrite IH, zlen_clip. Qed.

Lemma zget_clip offset ret e i :
  zget (clip_put offset ret e) i = (fun b => default b (zget e.2 (offset + i - e.1))) <$> zget ret i.
Proof.
  destruct (Z.ltb_spec i 0) as [Hi|Hi]; [by rewrite (zget_lt0 (clip_put _ _ _)), (zget_lt0 ret) by lia|].
  assert (forall l : list Z, zget l i = l !! Z.to_nat i) as Hz by (intros l; unfold zget; zcase; done).
  rewrite !Hz. unfold clip_put. rewrite list_lookup_imap. destruct (ret !! Z.to_nat i); simpl; [|done].
  by rewrite Z2Nat.id by lia.
Qed.

Lemma clip_miss offset ret o bs : offset + zlen ret <= o \/ o + zlen bs <= offset -> clip_put offset ret (o, bs) = ret.
Proof.
  intros Hm. apply zget_ext. intros i. rewrite zget_clip. simpl. destruct (zget ret i) eqn:E; [|done]. simpl.
  apply zget_Some_range in E. by rewrite zget_None by lia.
Qed.

Lemma buf_put_clip offset ret o bs k n :
  o <= offset + zlen ret -> offset <= o + zlen bs ->
  k = Z.max o offset - offset -> n = Z.min (offset + zlen ret) (o + zlen bs) - Z.max o offset ->
  buf_put ret k (slice bs (Z.max o offset - o) n) = Val (clip_put offset ret (o, bs)).
Proof.
  intros H1 H2 -> ->. pose proof (zlen_nonneg ret). pose proof (zlen_nonneg bs). unfold buf_put.
  rewrite zlen_slice by lia. zcase. f_equal. bytes_ext. rewrite zget_clip. simpl.
  rewrite zlen_slice by lia.
  destruct (zget ret i) as [b|] eqn:E; simpl.
  - apply zget_Some_range in E. zcase; try by rewrite zget_None by lia.
    destruct (zget_is_Some bs (offset + i - o) ltac:(lia)) as [x Hx]. rewrite Hx. simpl.
    rewrite <- Hx. f_equal. lia.
  - assert (~ 0 <= i < zlen ret). { intros Hi. apply zget_is_Some in Hi as [? Hi]. by rewrite E in Hi. }
    zcase; done.
Qed.

Lemma slice_in pre bs rest k n : 0 <= k -> 0 <= n -> k + n <= zlen bs ->
  slice (pre ++ bs ++ rest) (zlen pre + k) n = slice bs k n.
Proof.
  intros. pose proof (zlen_nonneg pre). bytes_ext. rewrite !zget_app. zcase; try done; f_equal; lia.
Qed.

(** What is read at an entry. *)
Lemma read_entry_header p s pre e rest :
  rplan s = [] -> contents p s = pre ++ entry_bytes e ++ rest ->
  sys_read p (zlen pre) 16 s = (Val (16, offlen e.1 (zlen e.2)), s).
Proof.
  intros Hr Hf. rewrite (sys_read_all p (zlen pre) 16 s Hr ltac:(lia)), Hf. unfold entry_bytes.
  rewrite <- app_assoc, slice_mid by (by rewrite ?zlen_offlen). by rewrite zlen_offlen.
Qed.

Lemma read_entry_data p s pre e rest k n :
  rplan s = [] -> contents p s = pre ++ entry_bytes e ++ rest -> zlen e.2 < 2 ^ 31 ->
  0 <= k -> 0 <= n -> k + n <= zlen e.2 ->
  read_fully p (zlen pre + 16 + k) n s = (Val (ReadAll, slice e.2 k n), s).
Proof.
  intros Hr Hf Hl Hk Hn Hkn. pose proof (zlen_nonneg pre).
  rewrite read_fully_spec by (done || lia).
  assert (slice (contents p s) (zlen pre + 16 + k) n = slice e.2 k n) as ->.
  { rewrite Hf. unfold entry_bytes. rewrite <- app_assoc, app_assoc.
    replace (zlen pre + 16) with (zlen (pre ++ offlen e.1 (zlen e.2))) by (rewrite zlen_app, zlen_offlen; lia).
    by apply slice_in. }
  rewrite zlen_slice by lia. zcase. done.
Qed.

Lemma seek_cur_small pos d : 0 <= pos -> 0 <= d < 2 ^ 63 -> seek_cur pos d = pos + d.
Proof. intros. unfold seek_cur. rewrite i64_small by lia. zcase. done. Qed.

Lemma read_at_end p s f : rplan s = [] -> contents p s = f -> sys_read p (zlen f) 16 s = (Val (0, []), s).
Proof.
  intros Hr <-. rewrite (sys_read_all p _ 16 s Hr ltac:(lia)).
  by rewrite (zlen_nil_inv (slice _ _ _)) by (pose proof (zlen_nonneg (contents p s)); rewrite zlen_slice; lia).
Qed.

Lemma merge_entries_spec osz p s offset es : forall fuel pre ret br,
  rplan s = [] -> osz < 2 ^ 31 -> Forall (entry_ok osz) es ->
  contents p s = pre ++ concat (entry_bytes <$> es) -> (length es < fuel)%nat ->
  0 <= offset -> offset + zlen ret < 2 ^ 62 ->
  exists br', merge_entries fuel p (zlen pre) offset (zlen ret) ret br s = (Val (Some (overlay offset ret es), br'), s).
Proof.
  induction es as [|[o bs] es IH]; intros fuel pre ret br Hr Hosz Hok Hf Hfuel Hoff Hlen;
    pose proof (zlen_nonneg ret); (destruct fuel as [|fuel]; [simpl in Hfuel; lia|]); cbn [merge_entries].
  { rewrite (bind_Val _ _ _ _ _ (read_at_end p s pre Hr ltac:(by rewrite Hf; simpl; rewrite app_nil_r))).
    by exists br. }
  apply Forall_cons in Hok as [(Ho & Hl & Hle) Hok]. cbn [fst snd fmap list_fmap concat] in *.
  rewrite (bind_Val _ _ _ _ _ (read_entry_header p s pre (o, bs) _ Hr Hf)). cbn [fst snd].
  change (16 =? 0) with false. change (negb (16 =? 16)) with false. cbn beta iota.
  rewrite offlen_offset, offlen_length by lia. rewrite !(u64_small (_ + _)), (u64_small offset) by lia.
  assert (contents p s = (pre ++ entry_bytes (o, bs)) ++ concat (entry_bytes <$> es)) as Hf'.
  { by rewrite <- app_assoc. }
  assert (zlen pre + 16 + zlen bs = zlen (pre ++ entry_bytes (o, bs))) as Hpos.
  { rewrite zlen_app, zlen_entry_bytes. simpl. lia. }
  pose proof (zlen_nonneg pre). cbn [overlay foldl].
  destruct ((o <=? offset + zlen ret) && (offset <=? o + zlen bs)) eqn:Hov.
  - apply andb_true_iff in Hov as [?%Z.leb_le ?%Z.leb_le].
    set (start := Z.max o offset). set (n := Z.min (offset + zlen ret) (o + zlen bs) - start).
    rewrite (u64_small n), (u64_small (start - offset)), !(u64_small (start - o)) by lia.
    assert ((if start =? o then zlen pre + 16 else seek_cur (zlen pre + 16) (start - o)) = zlen pre + 16 + (start - o)) as ->.
    { destruct (Z.eqb_spec start o); [lia|]. apply seek_cur_small; lia. }
    rewrite (bind_Val _ _ _ _ _ (read_entry_data p s pre (o, bs) _ (start - o) n Hr Hf ltac:(simpl; lia) ltac:(lia) ltac:(lia) ltac:(simpl; lia))).
    cbn [snd]. unfold mbind at 1, M_bind at 1, lift.
    unfold start at 1 2. rewrite (buf_put_clip offset ret o bs _ n) by lia.
    rewrite u64_small by lia.
    assert ((if start - o + n =? zlen bs then zlen pre + 16 + (start - o) + n
             else seek_cur (zlen pre + 16 + (start - o) + n) (u64 (zlen bs - (n + start - o)))) =
            zlen (pre ++ entry_bytes (o, bs))) as ->.
    { rewrite <- Hpos. destruct (Z.eqb_spec (start - o + n) (zlen bs)); [lia|].
      rewrite u64_small, seek_cur_small by lia. lia. }
    destruct (IH fuel (pre ++ entry_bytes (o, bs)) (clip_put offset ret (o, bs)) (br + 16 + n)) as [br' E]; try done.
    { simpl in Hfuel. lia. } { by rewrite zlen_clip. }
    rewrite zlen_clip in E. by exists br'.
  - rewrite seek_cur_small, Hpos by lia.
    rewrite clip_miss by (apply andb_false_iff in Hov as [?%Z.leb_gt|?%Z.leb_gt]; lia).
    apply IH; try done. simpl in Hfuel. lia.
Qed.

(** In whole-object merges the part of an entry that is read starts at its beginning. *)
Lemma buf_put_whole ret o bs : 0 <= o <= zlen ret -> zlen ret + zlen bs < 2 ^ 62 ->
  buf_put ret o (slice bs 0 (if zlen ret <? u64 (o + zlen bs) then zlen ret - o else zlen bs)) =
    Val (clip_put 0 ret (o, bs)).
Proof.
  intros Ho Hl. pose proof (zlen_nonneg bs). rewrite u64_small by lia.
  rewrite <- (buf_put_clip 0 ret o bs o (if zlen ret <? o + zlen bs then zlen ret - o else zlen bs)); try lia.
  - by rewrite Z.max_l, Z.sub_diag by lia.
  - rewrite Z.max_l by lia. zcase; lia.
Qed.

Lemma bigJ_entries_spec osz p s es : forall fuel pre ret br,
  rplan s = [] -> osz < 2 ^ 31 -> Forall (entry_ok osz) es ->
  contents p s = pre ++ concat (entry_bytes <$> es) -> (length es < fuel)%nat -> zlen ret < 2 ^ 61 ->
  exists br', bigJ_entries fuel p (zlen pre) (zlen ret) ret br s = (Val (0, overlay 0 ret es, br'), s).
Proof.
  induction es as [|[o bs] es IH]; intros fuel pre ret br Hr Hosz Hok Hf Hfuel Hlen;
    pose proof (zlen_nonneg ret); (destruct fuel as [|fuel]; [simpl in Hfuel; lia|]); cbn [bigJ_entries].
  { rewrite (bind_Val _ _ _ _ _ (read_at_end p s pre Hr ltac:(by rewrite Hf; simpl; rewrite app_nil_r))).
    by exists br. }
  apply Forall_cons in Hok as [(Ho & Hl & Hle) Hok]. cbn [fst snd fmap list_fmap concat] in *.
  rewrite (bind_Val _ _ _ _ _ (read_entry_header p s pre (o, bs) _ Hr Hf)). cbn [fst snd].
  change (16 =? 0) with false. change (16 <? 16) with false. cbn beta iota.
  rewrite offlen_offset, offlen_length by lia.
  assert (contents p s = (pre ++ entry_bytes (o, bs)) ++ concat (entry_bytes <$> es)) as Hf'.
  { by rewrite <- app_assoc. }
  assert (zlen pre + 16 + zlen bs = zlen (pre ++ entry_bytes (o, bs))) as Hpos.
  { rewrite zlen_app, zlen_entry_bytes. simpl. lia. }
  pose proof (zlen_nonneg pre). cbn [overlay foldl].
  destruct (Z.ltb_spec (zlen ret) o).
  - rewrite seek_cur_small, Hpos by lia. rewrite clip_miss by lia. apply IH; try done. simpl in Hfuel. lia.
  - pose proof (buf_put_whole ret o bs ltac:(lia) ltac:(lia)) as Hput.
    set (n := if zlen ret <? u64 (o + zlen bs) then zlen ret - o else zlen bs) in *.
    assert (0 <= n <= zlen bs) as Hn. { unfold n. rewrite u64_small by lia. zcase; lia. }
    pose proof (read_entry_data p s pre (o, bs) _ 0 n Hr Hf ltac:(simpl; lia) ltac:(lia) ltac:(lia) ltac:(simpl; lia)) as E.
    rewrite Z.add_0_r in E. rewrite (bind_Val _ _ _ _ _ E). cbn [snd].
    unfold mbind at 1, M_bind at 1, lift. rewrite Hput.
    assert ((if n <? zlen bs then seek_cur (zlen pre + 16 + n) (u64 (zlen bs - n)) else zlen pre + 16 + n) =
            zlen (pre ++ entry_bytes (o, bs))) as ->.
    { rewrite <- Hpos. destruct (Z.ltb_spec n (zlen bs)); [|lia]. rewrite u64_small, seek_cur_small by lia. lia. }
    destruct (IH fuel (pre ++ entry_bytes (o, bs)) (clip_put 0 ret (o, bs)) (br + 16 + n)) as [br' E']; try done.
    { simpl in Hfuel. lia. } { by rewrite zlen_clip. }
    rewrite zlen_clip in E'. by exists br'.
Qed.

Lemma slice_header pre e rest :
  slice (pre ++ entry_bytes e ++ rest) (zlen pre) 8 = take 8 (offlen e.1 (zlen e.2)) /\
  slice (pre ++ entry_bytes e ++ rest) (zlen pre + 8) 8 = drop 8 (offlen e.1 (zlen e.2)).
Proof.
  unfold entry_bytes, offlen. rewrite <- !app_assoc.
  rewrite take_app_length' by (by rewrite length_le_bytes). rewrite drop_app_length' by (by rewrite length_le_bytes).
  split; [by apply slice_mid; [|unfold zlen; rewrite length_le_bytes]|].
  rewrite (app_assoc pre). apply slice_mid; [|unfold zlen; by rewrite length_le_bytes].
  rewrite zlen_app. unfold zlen at 3. by rewrite length_le_bytes.
Qed.

Lemma inMem_entries_spec osz jd es : forall fuel pre ret,
  osz < 2 ^ 31 -> Forall (entry_ok osz) es ->
  jd = pre ++ concat (entry_bytes <$> es) -> (length es < fuel)%nat -> zlen ret < 2 ^ 61 -> zlen jd < 2 ^ 62 ->
  inMem_entries fuel jd (zlen pre) (zlen ret) ret = Val (Some (overlay 0 ret es)).
Proof.
  induction es as [|[o bs] es IH]; intros fuel pre ret Hosz Hok Hf Hfuel Hlen Hjd;
    pose proof (zlen_nonneg ret); (destruct fuel as [|fuel]; [simpl in Hfuel; lia|]); cbn [inMem_entries].
  { destruct (Z.leb_spec (zlen jd) (zlen pre)); [done|]. subst jd. simpl in *. rewrite app_nil_r in *. lia. }
  apply Forall_cons in Hok as [(Ho & Hl & Hle) Hok]. cbn [fst snd fmap list_fmap concat] in *.
  assert (jd = (pre ++ entry_bytes (o, bs)) ++ concat (entry_bytes <$> es)) as Hf'.
  { by rewrite <- app_assoc. }
  assert (zlen pre + 16 + zlen bs = zlen (pre ++ entry_bytes (o, bs))) as Hpos.
  { rewrite zlen_app, zlen_entry_bytes. simpl. lia. }
  assert (zlen pre + 16 + zlen bs <= zlen jd) as Hin.
  { rewrite Hpos, Hf', (zlen_app (pre ++ _)). pose proof (zlen_nonneg (concat (entry_bytes <$> es))). lia. }
  pose proof (zlen_nonneg pre). cbn [overlay foldl].
  destruct (Z.leb_spec (zlen jd) (zlen pre)); [lia|]. destruct (Z.leb_spec (zlen jd) (zlen pre + 16)); [lia|].
  pose proof (slice_header pre (o, bs) (concat (entry_bytes <$> es))) as [E1 E2]. rewrite <- Hf in E1, E2.
  rewrite E1, E2. cbn [fst snd]. rewrite offlen_offset, offlen_length by lia.
  rewrite (u64_small (zlen pre + 16 + zlen bs)), Hpos by lia.
  destruct (Z.ltb_spec (zlen ret) o).
  - rewrite clip_miss by lia. apply IH; try done. simpl in Hfuel. lia.
  - pose proof (buf_put_whole ret o bs ltac:(lia) ltac:(lia)) as Hput.
    set (n := if zlen ret <? u64 (o + zlen bs) then zlen ret - o else zlen bs) in *.
    assert (0 <= n <= zlen bs) as Hn. { unfold n. rewrite u64_small by lia. zcase; lia. }
    rewrite (u64_small (zlen pre + 16 + n)) by lia. destruct (Z.ltb_spec (zlen jd) (zlen pre + 16 + n)); [lia|].
    assert (slice jd (zlen pre + 16) n = slice bs 0 n) as ->.
    { rewrite Hf. unfold entry_bytes. rewrite <- app_assoc, app_assoc. cbn [fst snd].
      replace (zlen pre + 16) with (zlen (pre ++ offlen o (zlen bs)) + 0) by (rewrite zlen_app, zlen_offlen; lia).
      apply slice_in; lia. }
    rewrite Hput. unfold mbind, outcome_bind. rewrite <- (zlen_clip 0 ret (o, bs)).
    apply IH; rewrite ?zlen_clip; try done. simpl in Hfuel. lia.
Qed.

Section merges.
Context `{JsonHeaderOk} (fresh : Z -> Z) (osz : Z) (Hosz : osz < 2 ^ 31).

Lemma is_journal_split f es : is_journal osz f es ->
  exists m, 0 <= m < 10 ^ 11 /\ zlen (header_text m ++ [0]) = 52 /\
    f = (header_text m ++ [0]) ++ concat (entry_bytes <$> es) /\ Forall (entry_ok osz) es.
Proof.
  intros (m & Hm & -> & Hes). exists m. repeat split; try lia; [|by unfold journal; rewrite app_assoc|done].
  unfold zlen. by rewrite length_app, header_length.
Qed.

Lemma read_header_spec p s m rest : rplan s = [] -> 0 <= m < 10 ^ 11 ->
  contents p s = (header_text m ++ [0]) ++ rest -> SmJournal.read_header p s = (Val 52, s).
Proof.
  intros Hr Hm Hf. unfold SmJournal.read_header.
  pose proof (header_length m Hm) as Hh.
  rewrite (bind_Val _ _ s (header_text m, zlen (header_text m) + 1) s).
  2: { eapply seek_spec; [done|by rewrite Hf, <- app_assoc|apply header_nonzero|lia]. }
  destruct (read_header_text m ltac:(lia)) as (t & -> & _). unfold zlen. by rewrite Hh.
Qed.

(** The number of entries is bounded by the bytes they take. *)
Lemma entries_fuel es pre : (length es < S (length (pre ++ concat (entry_bytes <$> es))))%nat.
Proof.
  rewrite length_app. induction es as [|e es IH]; cbn [fmap list_fmap concat length]; [lia|]. rewrite length_app.
  pose proof (zlen_entry_bytes e). unfold zlen in *. lia.
Qed.

Lemma mergeJournalInMem_spec p s f es ret : rplan s = [] -> file_at p s = Some f -> is_journal osz f es ->
  zlen f < 2 ^ 62 -> zlen ret < 2 ^ 61 ->
  exists br, mergeJournalInMem ret (zlen ret) p s = (Val (0, overlay 0 ret es, br), s).
Proof.
  intros Hr Hp Hj Hzf Hret. destruct (is_journal_split f es Hj) as (m & Hm & H52 & Hf & Hes).
  assert (contents p s = f) as Hc by (unfold contents; by rewrite Hp). rewrite Hf in Hc.
  unfold mergeJournalInMem. destruct (Z.ltb_spec 104857600 (zlen ret)).
  - unfold mergeJournalInMem_bigJ. rewrite (bind_Val _ _ _ _ _ (sys_open_ok p s f Hr Hp false)).
    change (0 <? 0) with false. cbn beta iota.
    rewrite (bind_Val _ _ _ _ _ (read_header_spec p s m _ Hr Hm Hc)).
    unfold mbind at 1, M_bind at 1, gets. rewrite Hc. rewrite <- H52.
    eapply bigJ_entries_spec; try done. apply entries_fuel.
  - rewrite (bind_Val _ _ _ _ _ (sys_open_ok p s f Hr Hp false)).
    change (0 <? 0) with false. cbn beta iota.
    rewrite (bind_Val _ _ _ _ _ (read_header_spec p s m _ Hr Hm Hc)).
    unfold mbind at 1, M_bind at 1, gets. rewrite Hc, zlen_app, H52.
    set (jd := concat (entry_bytes <$> es)) in *. replace (52 + zlen jd - 52) with (zlen jd) by lia.
    pose proof (zlen_nonneg jd) as Hjd0. assert (zlen jd < 2 ^ 62) as Hjd.
    { rewrite Hf, zlen_app, H52 in Hzf. lia. }
    pose proof (read_fully_spec p 52 (zlen jd) s Hr ltac:(lia) ltac:(lia)) as E. cbn zeta in E. rewrite Hc in E.
    assert (slice ((header_text m ++ [0]) ++ jd) 52 (zlen jd) = jd) as Es.
    { rewrite slice_app_r by done. by apply slice_all. }
    rewrite Es, Z.leb_refl in E. rewrite (bind_Val _ _ _ _ _ E).
    unfold mbind at 1, M_bind at 1, lift.
    pose proof (inMem_entries_spec osz jd es (S (length jd)) [] ret Hosz Hes eq_refl (entries_fuel es []) Hret Hjd) as E'.
    change (zlen (@nil Z)) with 0 in E'. rewrite E'. eauto.
Qed.

(** The buffer before the entries are applied. *)
Definition base (obj : list Z) (offset len : Z) : list Z := splice (new_buf fresh len) 0 (slice obj offset len).

Lemma zlen_base obj offset len : 0 <= offset -> 0 <= len -> zlen (base obj offset len) = len.
Proof.
  intros. unfold base, new_buf. rewrite zlen_splice, zlen_slice by lia. rewrite zlen_fmap, zlen_seqZ by lia. lia.
Qed.

Lemma mergeJournal_spec dir key s obj jf es offset len : rplan s = [] ->
  objs s !! (dir, key) = Some obj -> jrns s !! (dir, key) = Some jf -> is_journal osz jf es ->
  zlen jf < 2 ^ 62 -> 0 <= offset -> 0 <= len -> offset + len < 2 ^ 61 ->
  exists br, mergeJournal fresh (Obj dir key) (Jrn dir key) offset len s =
    (Val (Some (overlay offset (base obj offset len) es), br), s).
Proof.
  intros Hr Ho Hjf Hj Hz Hoff Hlen Hsum. unfold mergeJournal.
  rewrite (bind_Val _ _ _ _ _ (sys_open_ok (Obj dir key) s obj Hr Ho false)). change (0 <? 0) with false. cbn beta iota.
  rewrite (bind_Val _ _ _ _ _ (read_fully_spec (Obj dir key) offset len s Hr Hoff ltac:(lia))).
  assert (contents (Obj dir key) s = obj) as -> by (unfold contents; simpl; by rewrite Ho).
  pose proof (zlen_base obj offset len Hoff Hlen) as Hbase.
  assert (buf_put (new_buf fresh len) 0 (slice obj offset len) = Val (base obj offset len)) as Hput.
  { unfold buf_put, base. rewrite zlen_slice by lia. unfold new_buf. rewrite zlen_fmap, zlen_seqZ by lia. zcase. done. }
  assert (exists br, (osize ← gets (λ s0 : st, zlen (contents (Obj dir key) s0));
     (if (offset =? 0) && (osize <=? i64 len) then
        '(mjimerr, ret, mjimBytesRead) ← mergeJournalInMem (base obj offset len) len (Jrn dir key);
        mret (if negb (mjimerr =? 0) then None else Some ret, zlen (slice obj offset len) + mjimBytesRead)
      else journalFD ← sys_open (Jrn dir key) false;
       (if journalFD <? 0 then mret (Some (base obj offset len), zlen (slice obj offset len))
        else hdr ← SmJournal.read_header (Jrn dir key);
             fuel ← gets (λ s0 : st, S (length (contents (Jrn dir key) s0)));
             merge_entries fuel (Jrn dir key) hdr offset len (base obj offset len) hdr))) s =
     (Val (Some (overlay offset (base obj offset len) es), br), s)) as [br E].
  { unfold mbind at 1, M_bind at 1, gets at 1.
    destruct ((offset =? 0) && _) eqn:Hwhole.
    - apply andb_true_iff in Hwhole as [->%Z.eqb_eq _].
      destruct (mergeJournalInMem_spec (Jrn dir key) s jf es (base obj 0 len) Hr Hjf Hj Hz ltac:(lia)) as [br E].
      rewrite Hbase in E. rewrite (bind_Val _ _ _ _ _ E). change (negb (0 =? 0)) with false. eauto.
    - rewrite (bind_Val _ _ _ _ _ (sys_open_ok (Jrn dir key) s jf Hr Hjf false)). change (0 <? 0) with false. cbn beta iota.
      destruct (is_journal_split jf es Hj) as (m & Hm & H52 & Hf & Hes).
      assert (contents (Jrn dir key) s = jf) as Hc by (unfold contents; simpl; by rewrite Hjf). rewrite Hf in Hc.
      rewrite (bind_Val _ _ _ _ _ (read_header_spec (Jrn dir key) s m _ Hr Hm Hc)).
      unfold mbind at 1, M_bind at 1, gets. rewrite Hc.
      destruct (merge_entries_spec osz (Jrn dir key) s offset es _ (header_text m ++ [0]) (base obj offset len) 52
        Hr Hosz Hes Hc (entries_fuel es (header_text m ++ [0])) Hoff ltac:(lia)) as [br E].
      rewrite Hbase, H52 in E. eauto. }
  exists br. destruct (len <=? _); (unfold mbind at 1, M_bind at 1, lift; rewrite Hput; exact E).
Qed.
End merges.

(** ** What an object holds

    The byte at [j]: the newest entry that covers it, or the object's own. *)
Definition view (obj : list Z) (es : list entry) (j : Z) : option Z :=
  foldl (fun acc (e : entry) => match zget e.2 (j - e.1) with Some b => Some b | None => acc end) (zget obj j) es.

Lemma view_snoc obj es e j :
  view obj (es ++ [e]) j = match zget e.2 (j - e.1) with Some b => Some b | None => view obj es j end.
Proof. unfold view. by rewrite foldl_app. Qed.

Lemma zget_overlay offset ret es i x v : zget ret i = Some (default x v) ->
  zget (overlay offset ret es) i =
    Some (default x (foldl (fun acc (e : entry) => match zget e.2 (offset + i - e.1) with Some b => Some b | None => acc end) v es)).
Proof.
  revert ret v. induction es as [|e es IH]; intros ret v Hv; [done|].
  cbn [overlay foldl]. apply IH. rewrite zget_clip, Hv. simpl. by destruct (zget e.2 _).
Qed.

(** The merged buffer shows the object through its journal; where nothing was ever
    written it shows what the memory held. *)
Lemma zget_merged fresh obj es offset len i : 0 <= offset -> 0 <= i < len ->
  zget (overlay offset (base fresh obj offset len) es) i = Some (default (fresh i) (view obj es (offset + i))).
Proof.
  intros Ho Hi. apply zget_overlay. unfold base, new_buf.
  rewrite zget_splice, zget_slice, zget_fmap, zget_seqZ by lia. rewrite zlen_slice, zlen_fmap, zlen_seqZ by lia.
  rewrite Z.sub_0_r, !Z.add_0_l. zcase; simpl.
  - destruct (zget_is_Some obj (offset + i) ltac:(lia)) as [b Hb]. by rewrite Hb.
  - by rewrite zget_beyond by lia.
Qed.

End SmThms.
