(* ===== verification/SmIoThms.v ===== *)
(** * The storage manager: files as byte strings

    The objects of a file in its metadata, what the file holds ([rept]), and the steps
    of write, append, truncate and read on it. *)

From S2P Require Import Prelude SmFs SmMeta SmJournal SmIo SmThms.
From stdpp Require Import prelude gmap strings.
Local Open Scope Z_scope.

Module SmIoThms.
Import SmFs SmMeta SmJournal SmIo SmThms.

Section trees.
Context (osz : Z) (Hosz : 0 < osz < 2 ^ 31).

(** The objects follow each other without gaps, and all but the last are full. *)
Definition object_at (n k : nat) (o : metadataObject) : Prop :=
  mo_offset o = Z.of_nat k * osz /\ 1 <= mo_length o <= osz /\ ((S k < n)%nat -> mo_length o = osz).

Definition tree_ok (t : list metadataObject) : Prop :=
  (forall k o, t !! k = Some o -> object_at (length t) k o) /\ Z.of_nat (length t) * osz < 2 ^ 61.

Lemma tree_insert_last (l : list metadataObject) o :
  (forall x, x ∈ l -> mo_offset x < mo_offset o) -> set_insert o l = l ++ [o].
Proof.
  induction l as [|x l IH]; intros Hl; [done|]. simpl.
  assert (mo_offset x < mo_offset o) by (apply Hl; set_solver). zcase.
  rewrite IH; [done|]. intros y Hy. apply Hl. set_solver.
Qed.

Lemma to_set_sorted (t : list metadataObject) :
  (forall i j o o', (i < j)%nat -> t !! i = Some o -> t !! j = Some o' -> mo_offset o < mo_offset o') -> to_set t = t.
Proof.
  induction t as [|o t IH] using rev_ind; intros Ht; [done|].
  unfold to_set in *. rewrite foldl_app. simpl. rewrite IH.
  - apply tree_insert_last. intros x [i Hi]%list_elem_of_lookup.
    pose proof (lookup_lt_Some _ _ _ Hi). apply (Ht i (length t)); [lia|by rewrite lookup_app_l|].
    rewrite lookup_app_r, Nat.sub_diag by lia. done.
  - intros i j x y Hij Hi Hj. pose proof (lookup_lt_Some _ _ _ Hi). pose proof (lookup_lt_Some _ _ _ Hj).
    apply (Ht i j); [lia|by rewrite lookup_app_l..].
Qed.

Lemma to_set_ok t : tree_ok t -> to_set t = t.
Proof.
  intros [Ht _]. apply to_set_sorted. intros i j o o' Hij Hi Hj.
  destruct (Ht i o Hi) as [-> _], (Ht j o' Hj) as [-> _]. nia.
Qed.

Lemma last_ok t : tree_ok t -> t <> [] -> exists o, last t = Some o /\ t !! pred (length t) = Some o /\
  mo_offset o = (Z.of_nat (length t) - 1) * osz /\ 1 <= mo_length o <= osz.
Proof.
  intros [Ht _] Hne. destruct (last t) as [o|] eqn:E; [|by apply last_None in E].
  rewrite last_lookup in E. destruct (Ht _ _ E) as (Ho & Hl & _). exists o. repeat split; try done; try lia.
  rewrite Ho. destruct t; [done|]. simpl. f_equal. lia.
Qed.

Lemma tree_length_ok t o : tree_ok t -> last t = Some o -> tree_length t = (Z.of_nat (length t) - 1) * osz + mo_length o.
Proof.
  intros Ht E. destruct (last_ok t Ht) as (o' & E' & _ & Ho & Hl); [by intros ->|].
  rewrite E in E'. simplify_eq. unfold tree_length, end_of. rewrite E, Ho, u64_small; [done|].
  destruct Ht as [_ Hb]. destruct t; [done|]. simpl in *. nia.
Qed.

Lemma tree_length_bounds t : tree_ok t ->
  (Z.of_nat (length t) - 1) * osz <= tree_length t <= Z.of_nat (length t) * osz /\ 0 <= tree_length t /\
  (t <> [] -> (Z.of_nat (length t) - 1) * osz < tree_length t).
Proof.
  intros Ht. destruct (decide (t = [])) as [->|Hne].
  { change (tree_length []) with 0. simpl length. repeat split; try lia; try done. }
  destruct (last_ok t Ht Hne) as (o & E & _ & Ho & Hl). rewrite (tree_length_ok t o Ht E).
  destruct t; [done|]. simpl length. repeat split; intros; nia.
Qed.

(** ** metadataRead *)

Lemma find_first_skip lastOffset offset l1 o l2 :
  (forall x, x ∈ l1 -> u64 (mo_offset x + mo_length x - 1) < u64 offset /\ mo_offset x <> lastOffset) ->
  u64 offset <= u64 (mo_offset o + mo_length o - 1) \/
    (mo_offset o = lastOffset /\ u64 offset <= u64 (mo_offset o + osz - 1)) ->
  find_first osz lastOffset offset (l1 ++ o :: l2) =
    Some (o, u64 ((if mo_offset o =? lastOffset then osz else mo_length o) - (offset - mo_offset o)), l2).
Proof.
  intros Hl1 Ho. induction l1 as [|x l1 IH]; simpl.
  - destruct (Z.leb_spec (u64 offset) (u64 (mo_offset o + mo_length o - 1))); [done|].
    destruct Ho as [?|[-> ?]]; [lia|]. rewrite Z.eqb_refl. simpl. zcase. done.
  - destruct (Hl1 x ltac:(set_solver)) as [H1 H2]. zcase; (apply IH; intros y Hy; apply Hl1; set_solver).
Qed.

Lemma find_first_none lastOffset offset l :
  (forall x, x ∈ l -> u64 (mo_offset x + mo_length x - 1) < u64 offset /\
     (mo_offset x = lastOffset -> u64 (mo_offset x + osz - 1) < u64 offset)) ->
  find_first osz lastOffset offset l = None.
Proof.
  induction l as [|x l IH]; intros Hl; [done|]. simpl.
  destruct (Hl x ltac:(set_solver)) as [H1 H2]. zcase; try (exfalso; specialize (H2 ltac:(done)); lia);
    (apply IH; intros y Hy; apply Hl; set_solver).
Qed.


(** [l] lists the objects of [t] from number [k] on, and stops at the end of the file
    or with the first object that reaches [lim]. *)
Definition run (t : list metadataObject) (k : nat) (l : list metadataObject) (lim : Z) : Prop :=
  (forall i o, l !! i = Some o -> t !! (k + i)%nat = Some o) /\
  ((k + length l)%nat = length t \/ lim <= Z.of_nat (k + length l) * osz) /\
  (forall i, (i < length l)%nat -> Z.of_nat (k + i) * osz < lim).

Lemma find_rest_run t offset len : tree_ok t -> 0 <= offset -> 0 <= len -> offset + len < 2 ^ 61 ->
  forall l k F, (k + length l)%nat = length t -> (forall i o, l !! i = Some o -> t !! (k + i)%nat = Some o) ->
  (l <> [] -> F = Z.of_nat k * osz - offset /\ 0 <= F) ->
  run t k (find_rest F len l) (offset + len).
Proof.
  intros [Ht Hb] Ho Hlen Hsum. induction l as [|o l IH]; intros k F Hk Hl HF; cbn [find_rest].
  { repeat split; try done; simpl in *; lia. }
  destruct (HF ltac:(done)) as [-> HF0]. cbn [length] in Hk.
  destruct (Z.ltb_spec (Z.of_nat k * osz - offset) len).
  2: { repeat split; try done; simpl in *; lia. }
  pose proof (Hl 0%nat o ltac:(done)) as Hk0. rewrite Nat.add_0_r in Hk0.
  destruct (Ht k o Hk0) as (Hko & Hlo & Hfull).
  destruct (IH (S k) (u64 (Z.of_nat k * osz - offset + mo_length o))) as (Ha & Hb' & Hc); [lia| | |].
  - intros i x Hi. specialize (Hl (S i) x Hi). by rewrite Nat.add_succ_r in Hl.
  - intros Hne. assert (0 < length l)%nat by (destruct l; [done|simpl; lia]).
    rewrite Hfull by lia. rewrite u64_small; [split; lia|]. split; [lia|].
    assert (Z.of_nat k * osz <= Z.of_nat (length t) * osz) by nia. lia.
  - split; [|split].
    + intros [|i] x Hi; [simpl in Hi; simplify_eq; by rewrite Nat.add_0_r|].
      simpl in Hi. apply Ha in Hi. by rewrite Nat.add_succ_r.
    + cbn [length]. destruct Hb'; [left; lia|right]. by rewrite Nat.add_succ_r.
    + intros [|i] Hi; [rewrite Nat.add_0_r; lia|]. rewrite Nat.add_succ_r. apply (Hc i). simpl in Hi. lia.
Qed.

(** metadataRead finds the object that [offset] falls into and those after it that the
    range reaches. *)
Lemma tree_read_run t offset len (k0 := Z.to_nat (offset / osz)) :
  tree_ok t -> 0 <= offset -> 0 < len -> offset + len < 2 ^ 61 ->
  (length t <= k0)%nat /\ tree_read osz t offset len = [] \/
  exists o l, tree_read osz t offset len = o :: l /\ t !! k0 = Some o /\ run t k0 (o :: l) (offset + len).
Proof.
  intros Ht Ho Hlen Hsum. pose proof Ht as [Hat Hb].
  assert (Z.of_nat k0 * osz <= offset < Z.of_nat k0 * osz + osz) as Hk0.
  { unfold k0. rewrite Z2Nat.id by (apply Z.div_pos; lia).
    pose proof (Z.div_mod offset osz ltac:(lia)). pose proof (Z.mod_pos_bound offset osz ltac:(lia)). lia. }
  unfold tree_read. rewrite to_set_ok by done.
  destruct (decide (t = [])) as [->|Hne]; [left; simpl; split; [lia|done]|].
  destruct (last_ok t Ht Hne) as (lo & -> & _ & Hlo & Hll).
  destruct (decide (length t <= k0)%nat) as [Hge|Hlt].
  - left. split; [done|]. rewrite find_first_none; [done|].
    intros x [i Hi]%list_elem_of_lookup. pose proof (lookup_lt_Some _ _ _ Hi). destruct (Hat i x Hi) as (Hxo & Hxl & _).
    assert (Z.of_nat i * osz + osz <= Z.of_nat k0 * osz) by nia.
    rewrite !u64_small by nia. lia.
  - right. destruct (lookup_lt_is_Some_2 t k0 ltac:(lia)) as [o Hko].
    destruct (Hat k0 o Hko) as (Hoo & Hol & Hfull).
    assert (t = take k0 t ++ o :: drop (S k0) t) as Hsplit by (by rewrite take_drop_middle).
    assert (mo_offset o = mo_offset lo <-> S k0 = length t) as Hlast.
    { rewrite Hoo, Hlo. split; intros; nia. }
    assert (find_first osz (mo_offset lo) offset t =
      Some (o, u64 ((if mo_offset o =? mo_offset lo then osz else mo_length o) - (offset - mo_offset o)), drop (S k0) t)) as ->.
    { rewrite Hsplit at 1. apply find_first_skip.
      - intros x [i Hi]%list_elem_of_lookup. apply lookup_take_Some in Hi as [Hi Hik].
        destruct (Hat i x Hi) as (Hxo & Hxl & Hxf). assert (Z.of_nat i * osz + osz <= Z.of_nat k0 * osz) by nia.
        rewrite !u64_small by nia. rewrite Hlo, Hxo. split; [lia|]. intros E. nia.
      - rewrite !u64_small by nia. destruct (decide (S k0 = length t)) as [Hl|Hl].
        + right. split; [by apply Hlast|]. lia.
        + left. rewrite Hfull by lia. lia. }
    eexists o, _. split; [done|]. split; [done|].
    assert ((if mo_offset o =? mo_offset lo then osz else mo_length o) = osz) as ->.
    { destruct (Z.eqb_spec (mo_offset o) (mo_offset lo)) as [E|E]; [done|]. apply Hfull.
      assert (S k0 <> length t) by (by intros ?%Hlast). lia. }
    rewrite u64_small by lia.
    destruct (find_rest_run t offset len Ht Ho ltac:(lia) Hsum (drop (S k0) t) (S k0) (osz - (offset - mo_offset o)))
      as (Ha & Hb' & Hc).
    { rewrite length_drop. lia. }
    { intros i x Hi. by rewrite lookup_drop in Hi. }
    { intros _. split; nia. }
    split; [|split].
    + intros [|i] x Hi; simpl in Hi; [simplify_eq; by rewrite Nat.add_0_r|]. apply Ha in Hi. by rewrite Nat.add_succ_r.
    + cbn [length]. rewrite Nat.add_succ_r. by destruct Hb'; [left|right].
    + intros [|i] Hi; [rewrite Nat.add_0_r; lia|]. rewrite Nat.add_succ_r. apply (Hc i). simpl in Hi. lia.
Qed.

(** ** Changing the length of an object *)

Definition set_length (n : Z) (o : metadataObject) : metadataObject := mkObject (mo_offset o) n (mo_key o).

Lemma tree_update_ok f t k o : tree_ok t -> t !! k = Some o -> tree_update f (mo_offset o) t = Some (<[k := f o]> t).
Proof.
  intros [Ht _] Hk.
  assert (forall i x, (i < k)%nat -> t !! i = Some x -> mo_offset x <> mo_offset o) as Hne.
  { intros i x Hi Hx. destruct (Ht i x Hx) as [-> _], (Ht k o Hk) as [-> _]. nia. }
  clear Ht. revert k Hk Hne. induction t as [|x t IH]; intros [|k] Hk Hne; simpl in Hk; simplify_eq; cbn [tree_update].
  - by rewrite Z.eqb_refl.
  - destruct (Z.eqb_spec (mo_offset x) (mo_offset o)) as [E|E]; [exfalso; by apply (Hne 0%nat x ltac:(lia))|].
    rewrite (IH k Hk); [done|]. intros i y Hi Hy. apply (Hne (S i) y); [lia|done].
Qed.

Lemma set_length_ok t k o n : tree_ok t -> t !! k = Some o -> 1 <= n <= osz -> ((S k < length t)%nat -> n = osz) ->
  tree_ok (<[k := set_length n o]> t).
Proof.
  intros [Ht Hb] Hk Hn Hfull. split; [|by rewrite length_insert].
  intros i x Hi. rewrite length_insert. destruct (decide (i = k)) as [->|Hne].
  - rewrite list_lookup_insert_eq in Hi by (by eapply lookup_lt_Some). simplify_eq.
    destruct (Ht k o Hk) as (Ho & _ & _). split; [done|]. split; done.
  - rewrite list_lookup_insert_ne in Hi by done. by apply Ht.
Qed.

Lemma tree_ok_snoc t o : tree_ok t -> tree_length t = Z.of_nat (length t) * osz ->
  mo_offset o = Z.of_nat (length t) * osz -> 1 <= mo_length o <= osz -> (Z.of_nat (length t) + 1) * osz < 2 ^ 61 ->
  tree_ok (t ++ [o]).
Proof.
  intros Ht Hfull Ho Hl Hb. split; [|rewrite length_app; simpl; lia].
  assert (forall k x, t !! k = Some x -> mo_length x = osz) as Hall.
  { intros k x Hk. pose proof (lookup_lt_Some _ _ _ Hk). destruct (proj1 Ht k x Hk) as (_ & _ & Hf).
    destruct (decide (S k < length t)%nat) as [|Hlast]; [by apply Hf|].
    destruct (last_ok t Ht) as (lo & Elo & Hlo & _); [by intros ->|].
    replace (pred (length t)) with k in Hlo by lia. rewrite Hk in Hlo. simplify_eq.
    rewrite (tree_length_ok t lo Ht Elo) in Hfull. lia. }
  intros k x Hk. rewrite length_app. simpl length. apply lookup_app_Some in Hk as [Hk|[Hge Hk]].
  - destruct (proj1 Ht k x Hk) as (H1 & H2 & _). split; [done|]. split; [done|]. intros _. by eapply Hall.
  - destruct (k - length t)%nat as [|j] eqn:E; simpl in Hk; [|done]. simplify_eq.
    replace k with (length t) by lia. split; [done|]. split; [done|]. lia.
Qed.

Lemma tree_length_snoc t o : tree_ok (t ++ [o]) -> tree_length (t ++ [o]) = Z.of_nat (length t) * osz + mo_length o.
Proof. intros Ht. rewrite (tree_length_ok _ o Ht) by apply last_snoc. rewrite length_app. simpl. f_equal. f_equal. lia. Qed.

End trees.
(** The documented behaviour of UUIDs: they differ, and their text has no underscore. *)
Class UuidOk `{UuidGen} : Prop := {
  uuid_inj : forall m n, uuid m = uuid n -> m = n;
  uuid_text : forall n, index_of underscore (uuid n) = None }.

Section files.
Context `{UuidOk, JsonHeaderOk, CloudStore} (osz : Z) (Hosz : 0 < osz < 2 ^ 31) (fresh : Z -> Z).

(** ** What a file holds *)

(** The bytes of an object, in the cache directory or outside. *)
Definition obase (s : st) (dir key : string) : option (list Z) :=
  match objs s !! (dir, key) with Some f => Some f | None => cloud key end.

(** Object [o], seen through its journal, holds its part of [bs]. *)
Definition held (s : st) (dir : string) (bs : list Z) (o : metadataObject) : Prop :=
  exists ob es, obase s dir (mo_key o) = Some ob /\ has_journal osz (jrns s !! (dir, mo_key o)) es /\
    forall j, 0 <= j < mo_length o -> view ob es j = zget bs (mo_offset o + j).

Definition rept (s : st) (dir : string) (t : list metadataObject) (bs : list Z) : Prop :=
  tree_ok osz t /\ tree_length t = zlen bs /\ forall k o, t !! k = Some o -> held s dir bs o.

(** File [name] exists and holds the bytes [bs]. *)
Definition rep (s : st) (name : string) (bs : list Z) : Prop :=
  exists t, disk s !! name = Some t /\ rept s (first_dir name) t bs.

Lemma held_frame s s' dir bs o :
  objs s' !! (dir, mo_key o) = objs s !! (dir, mo_key o) ->
  jrns s' !! (dir, mo_key o) = jrns s !! (dir, mo_key o) -> held s dir bs o -> held s' dir bs o.
Proof. intros Ho Hj. unfold held, obase. by rewrite Ho, Hj. Qed.

Lemma rept_frame s s' dir t bs : rept s dir t bs ->
  (forall o, o ∈ t -> objs s' !! (dir, mo_key o) = objs s !! (dir, mo_key o) /\
                      jrns s' !! (dir, mo_key o) = jrns s !! (dir, mo_key o)) ->
  rept s' dir t bs.
Proof.
  intros (Ht & Hl & Hh) Hf. split; [done|]. split; [done|]. intros k o Hk.
  destruct (Hf o) as [Ho Hj]; [by eapply list_elem_of_lookup_2|]. eapply held_frame; eauto.
Qed.

(** Distinct objects have distinct keys. *)
Lemma nodup_key (t : list metadataObject) (i j : nat) o o' : NoDup (mo_key <$> t) -> t !! i = Some o -> t !! j = Some o' -> mo_key o = mo_key o' -> i = j.
Proof.
  intros Hn Hi Hj Hk. eapply NoDup_lookup; [done|by rewrite list_lookup_fmap, Hi|]. by rewrite list_lookup_fmap, Hj, Hk.
Qed.

Lemma keys_insert_length (t : list metadataObject) (k : nat) o n : t !! k = Some o -> mo_key <$> <[k := set_length n o]> t = mo_key <$> t.
Proof.
  intros Hk. rewrite list_fmap_insert. simpl. apply list_insert_id. by rewrite list_lookup_fmap, Hk.
Qed.

Lemma set_length_id o : set_length (mo_length o) o = o.
Proof. by destruct o. Qed.

(** A write into object number [k] that starts where the file has data. *)
Lemma rept_journal s dir t bs k o oo chunk : rept s dir t bs -> NoDup (mo_key <$> t) -> t !! k = Some o ->
  0 <= oo <= mo_length o -> 0 < zlen chunk -> oo + zlen chunk <= osz ->
  exists es, has_journal osz (jrns s !! (dir, mo_key o)) es /\
    forall s' f, is_journal osz f (es ++ [(oo, chunk)]) -> objs s' = objs s ->
      jrns s' = <[(dir, mo_key o) := f]> (jrns s) ->
      rept s' dir (<[k := set_length (Z.max (mo_length o) (oo + zlen chunk)) o]> t)
        (splice bs (mo_offset o + oo) chunk).
Proof.
  intros (Ht & Hl & Hh) Hnd Hk Hoo Hc Hle. destruct (Hh k o Hk) as (ob & es & Hob & Hj & Hview).
  exists es. split; [done|]. intros s' f Hf Hs Hs'.
  pose proof (lookup_lt_Some _ _ _ Hk) as Hkn. pose proof (proj1 Ht k o Hk) as (Hko & Hlo & Hfull).
  set (n' := Z.max (mo_length o) (oo + zlen chunk)).
  assert (tree_ok osz (<[k := set_length n' o]> t)) as Ht'.
  { apply set_length_ok; try done; [unfold n'; lia|]. intros Hlt. specialize (Hfull Hlt). unfold n'. lia. }
  pose proof (tree_length_bounds osz Hosz t Ht) as (Hb1 & Hb0 & Hb2).
  assert (t <> []) as Hne by (by intros ->).
  assert (0 <= mo_offset o) by (rewrite Hko; lia).
  assert (mo_offset o + mo_length o <= zlen bs) as Hin.
  { rewrite <- Hl. destruct (last_ok osz t Ht Hne) as (lo & Elo & Hlo' & Hloff & Hll).
    destruct (decide (S k < length t)%nat) as [Hlt|Hge].
    - specialize (Hfull Hlt). rewrite Hko. nia.
    - replace (pred (length t)) with k in Hlo' by lia. rewrite Hk in Hlo'. simplify_eq.
      rewrite (tree_length_ok osz Hosz t lo Ht Elo). lia. }
  split; [done|]. split.
  - rewrite zlen_splice, <- Hl by lia. pose proof (tree_length_bounds osz Hosz _ Ht') as (Hb1' & _ & _).
    rewrite length_insert in Hb1'. destruct (decide (S k < length t)%nat) as [Hlt|Hge].
    + assert (last (<[k := set_length n' o]> t) = last t) as Elast.
      { rewrite !last_lookup, length_insert. apply list_lookup_insert_ne. lia. }
      unfold tree_length. rewrite Elast. fold (tree_length t). specialize (Hfull Hlt). nia.
    + assert (last (<[k := set_length n' o]> t) = Some (set_length n' o)) as Elast.
      { rewrite last_lookup, length_insert. replace (pred (length t)) with k by lia. by apply list_lookup_insert_eq. }
      rewrite (tree_length_ok osz Hosz _ _ Ht' Elast), length_insert. simpl mo_length.
      assert (tree_length t = mo_offset o + mo_length o) as ->.
      { destruct (last_ok osz t Ht Hne) as (lo & Elo & Hlo' & Hloff & Hll).
        replace (pred (length t)) with k in Hlo' by lia. rewrite Hk in Hlo'. simplify_eq.
        rewrite (tree_length_ok osz Hosz t lo Ht Elo). lia. }
      unfold n'. nia.
  - intros i x Hi. destruct (decide (i = k)) as [->|Hik].
    + rewrite list_lookup_insert_eq in Hi by done. simplify_eq. exists ob, (es ++ [(oo, chunk)]).
      unfold obase. rewrite Hs, Hs'. simpl mo_key. rewrite lookup_insert_eq. split; [done|]. split; [done|].
      simpl mo_length. simpl mo_offset. intros j Hj'. rewrite view_snoc. simpl. rewrite zget_splice by lia.
      destruct (decide (oo <= j < oo + zlen chunk)) as [Hin'|Hout].
      * destruct (zget_is_Some chunk (j - oo) ltac:(lia)) as [b Hb]. rewrite Hb. zcase. rewrite <- Hb. f_equal. lia.
      * rewrite (zget_None chunk) by lia. unfold n' in Hj'. zcase; apply Hview; lia.
    + rewrite list_lookup_insert_ne in Hi by done.
      assert (held s' dir bs x) as (ob' & es' & Hob' & Hj' & Hv').
      { eapply held_frame; [| |by eapply Hh]; [by rewrite Hs|]. rewrite Hs'. apply lookup_insert_ne.
        intros E. apply Hik. symmetry. eapply nodup_key; eauto. congruence. }
      exists ob', es'. split; [done|]. split; [done|]. intros j Hjj. rewrite Hv' by done.
      destruct (proj1 Ht i x Hi) as (Hxo & Hxl & _). rewrite zget_splice by lia.
      assert (~ (mo_offset o + oo <= mo_offset x + j < mo_offset o + oo + zlen chunk)) as Hdis.
      { rewrite Hxo, Hko. intros [Ha Hb]. destruct (decide (i < k)%nat).
        - assert (Z.of_nat i * osz + osz <= Z.of_nat k * osz) by nia. lia.
        - assert (Z.of_nat k * osz + osz <= Z.of_nat i * osz) by nia. lia. }
      zcase; try done.
Qed.

(** A new object behind full ones. *)
Lemma rept_new s s' dir t bs o data : rept s dir t bs -> zlen bs = Z.of_nat (length t) * osz ->
  mo_offset o = zlen bs -> mo_length o = zlen data -> 0 < zlen data <= osz -> zlen bs + osz < 2 ^ 61 ->
  mo_key o ∉ mo_key <$> t ->
  objs s' = <[(dir, mo_key o) := data]> (objs s) -> jrns s' = jrns s -> jrns s !! (dir, mo_key o) = None ->
  rept s' dir (t ++ [o]) (bs ++ data).
Proof.
  intros (Ht & Hl & Hh) Hfull Ho Hlen Hd Hb Hkey Hs Hj Hnone.
  assert (tree_ok osz (t ++ [o])) as Ht'. { apply tree_ok_snoc; try done; try lia. }
  split; [done|]. split.
  { rewrite (tree_length_snoc osz Hosz _ _ Ht'), zlen_app. lia. }
  intros k x Hk. apply lookup_app_Some in Hk as [Hk|[Hge Hk]].
  - assert (held s' dir bs x) as (ob' & es' & Hob' & Hj' & Hv').
    { eapply held_frame; [| |by eapply Hh]; [|by rewrite Hj]. rewrite Hs. apply lookup_insert_ne.
      intros E. apply Hkey. simplify_eq. apply list_elem_of_fmap. eexists. split; [done|]. by eapply list_elem_of_lookup_2. }
    exists ob', es'. split; [done|]. split; [done|]. intros j Hjj. rewrite Hv' by done.
    destruct (proj1 Ht k x Hk) as (Hxo & Hxl & _). pose proof (lookup_lt_Some _ _ _ Hk).
    rewrite zget_app. zcase; [done|]. exfalso. rewrite Hxo, Hfull in *. nia.
  - destruct (k - length t)%nat eqn:E; simpl in Hk; [|done]. simplify_eq.
    exists data, []. unfold obase. rewrite Hs, lookup_insert_eq, Hj. split; [done|]. split; [by rewrite Hnone|].
    intros j Hj'. unfold view. simpl. rewrite zget_app, Ho. zcase. f_equal. lia.
Qed.

(** ** Keys *)

(** A key made with one of the first [n] UUIDs. *)
Definition used (n : nat) (key : string) : Prop := exists m rest, (m < n)%nat /\ key = uuid m +:+ "_" +:+ rest.

Lemma used_mono n n' key : (n <= n')%nat -> used n key -> used n' key.
Proof. intros Hn (m & rest & Hm & ->). exists m, rest. split; [lia|done]. Qed.

Lemma app_underscore_inj u v x y : index_of underscore u = None -> index_of underscore v = None ->
  u +:+ "_" +:+ x = v +:+ "_" +:+ y -> u = v.
Proof.
  revert v. induction u as [|c u IH]; intros [|d v] Hu Hv E; simpl in *.
  - done.
  - injection E as E1 E2. subst d. done.
  - injection E as E1 E2. subst c. done.
  - injection E as -> E. destruct (Ascii.eqb d underscore); [done|]. f_equal. apply IH; [..|done].
    + by destruct (index_of underscore u).
    + by destruct (index_of underscore v).
Qed.

Lemma fresh_unused n rest : ~ used n (uuid n +:+ "_" +:+ rest).
Proof.
  intros (m & rest' & Hm & E). apply app_underscore_inj in E; [|apply uuid_text..].
  apply uuid_inj in E. lia.
Qed.

(** ** The state between two operations *)

Record sm_ok (s : st) : Prop := {
  ok_cache : forall n t, jlookup s !! n = Some t -> disk s !! n = Some t;
  ok_own : forall n1 n2 t1 t2 o1 o2, disk s !! n1 = Some t1 -> disk s !! n2 = Some t2 -> o1 ∈ t1 -> o2 ∈ t2 ->
    first_dir n1 = first_dir n2 -> mo_key o1 = mo_key o2 -> n1 = n2;
  ok_nodup : forall n t, disk s !! n = Some t -> NoDup (mo_key <$> t);
  ok_used : forall n t o, disk s !! n = Some t -> o ∈ t -> used (uuids s) (mo_key o);
  ok_dom : forall d k, is_Some (objs s !! (d, k)) \/ is_Some (jrns s !! (d, k)) -> used (uuids s) k }.

(** The device makes progress with every write and answers every read in full. *)
Definition device_ok (s : st) : Prop := clean (wplan s) /\ rplan s = [].

(** The state inside an operation on [name] that started in [s0], where the file's
    objects were [t0]; now they are [t]. *)
Record busy (name : string) (s0 : st) (t0 : list metadataObject) (s : st) (md : MetadataFile)
    (t : list metadataObject) : Prop := {
  w_md : mFilename md = name /\ _exists md = true;
  w_tree : jlookup s !! name = Some t;
  w_cache : forall n x, n <> name -> jlookup s !! n = Some x -> disk s0 !! n = Some x;
  w_disk : disk s = disk s0;
  w_nodup : NoDup (mo_key <$> t);
  w_keys : forall k, k ∈ mo_key <$> t -> used (uuids s) k /\ (k ∈ mo_key <$> t0 \/ ~ used (uuids s0) k);
  w_dom : forall d k, is_Some (objs s !! (d, k)) \/ is_Some (jrns s !! (d, k)) -> used (uuids s) k;
  w_uuid : (uuids s0 <= uuids s)%nat;
  w_frame : forall d k, used (uuids s0) k -> ~ (d = first_dir name /\ k ∈ mo_key <$> t0) ->
    objs s !! (d, k) = objs s0 !! (d, k) /\ jrns s !! (d, k) = jrns s0 !! (d, k);
  w_dev : device_ok s }.

(** ... and they hold [bs]. *)
Definition working name s0 t0 s md t bs : Prop := busy name s0 t0 s md t /\ rept s (first_dir name) t bs.

(** Notes and [errno] do not matter. *)
Lemma working_calls name s0 t0 s md t bs c : working name s0 t0 s md t bs -> working name s0 t0 (with_calls c s) md t bs.
Proof. by intros [[]]. Qed.

Lemma working_errno name s0 t0 s md t bs e : working name s0 t0 s md t bs -> working name s0 t0 (with_errno e s) md t bs.
Proof. by intros [[]]. Qed.

Lemma busy_jsontree name s0 t0 s md t : busy name s0 t0 s md t -> jsontree md s = t.
Proof. intros [[Hn _] Ht]. unfold jsontree. by rewrite Hn, Ht. Qed.

(** *** Opening *)

Lemma cache_trim_sub l m : (cache_trim l m).2 ⊆ m.
Proof.
  revert m. induction l as [|x l IH]; intros m; [done|]. cbn [cache_trim]. case_match; [|done].
  etrans; [apply IH|apply delete_subseteq].
Qed.

Lemma open_working name s t bs : sm_ok s -> device_ok s -> disk s !! name = Some t -> rept s (first_dir name) t bs ->
  wp (MetadataFile_open name) s (fun md s' => working name s t s' md t bs /\ objs s' = objs s /\ jrns s' = jrns s).
Proof.
  intros Hok Hdev Hd Hr. unfold MetadataFile_open, cache_get. apply wp_bind. unfold wp at 1.
  assert (forall s' md, mFilename md = name /\ _exists md = true -> jlookup s' !! name = Some t ->
    (forall n x, n <> name -> jlookup s' !! n = Some x -> disk s !! n = Some x) ->
    objs s' = objs s -> jrns s' = jrns s -> disk s' = disk s -> uuids s' = uuids s -> wplan s' = wplan s -> rplan s' = rplan s ->
    working name s t s' md t bs /\ objs s' = objs s /\ jrns s' = jrns s) as Hmk.
  { intros s' md Hmd Hl Hc Ho Hj Hdk Hu Hw Hrp. split; [|done]. split.
    2: { eapply rept_frame; [done|]. intros o _. by rewrite Ho, Hj. }
    split; try done.
    - by eapply ok_nodup.
    - intros k Hk. split; [|by left]. rewrite Hu. apply list_elem_of_fmap in Hk as (o & -> & Ho'). by eapply ok_used.
    - rewrite Ho, Hj, Hu. by apply ok_dom.
    - by rewrite Hu.
    - intros. by rewrite Ho, Hj.
    - unfold device_ok. by rewrite Hw, Hrp. }
  destruct (jlookup s !! name) as [x|] eqn:Hx.
  - pose proof (ok_cache s Hok name x Hx) as Hx'. simplify_eq. apply wp_ret. apply Hmk; try done.
    intros n y _ Hy. by eapply ok_cache.
  - apply wp_bind, wp_gets. rewrite Hd. apply wp_bind. unfold cache_put. apply wp_modify. rewrite Hx.
    pose proof (cache_trim_sub (jlru s) (jlookup s)) as Hsub.
    destruct (cache_trim (jlru s) (jlookup s)) as [l m]. simpl in Hsub. apply wp_ret. apply Hmk; try done; simpl.
    + by rewrite lookup_insert_eq.
    + intros n y Hne Hy. rewrite lookup_insert_ne in Hy by done. eapply ok_cache; [done|].
      by eapply lookup_weaken.
Qed.

(** *** The steps *)

Lemma set_jsontree_busy name s0 t0 s md t t' : busy name s0 t0 s md t -> NoDup (mo_key <$> t') ->
  (forall k, k ∈ mo_key <$> t' -> used (uuids s) k /\ (k ∈ mo_key <$> t0 \/ ~ used (uuids s0) k)) ->
  wp (set_jsontree md t') s (fun md' s' => busy name s0 t0 s' md' t' /\ objs s' = objs s /\ jrns s' = jrns s).
Proof.
  intros [[Hn He] Ht Hc Hd Hnd Hk Hdom Hu Hf Hdev] Hnd' Hk'. unfold set_jsontree, wp. rewrite Hn, Ht.
  split; [|done]. split; try done; simpl.
  - by rewrite lookup_insert_eq.
  - intros n x Hne Hx. rewrite lookup_insert_ne in Hx by done. by eapply Hc.
Qed.

(** Changes of the directories at keys of the file's own. *)
Lemma busy_files name s0 t0 s md t s' : busy name s0 t0 s md t ->
  jlookup s' = jlookup s -> disk s' = disk s -> uuids s' = uuids s -> device_ok s' ->
  (forall d k, ~ (d = first_dir name /\ k ∈ mo_key <$> t) ->
     objs s' !! (d, k) = objs s !! (d, k) /\ jrns s' !! (d, k) = jrns s !! (d, k)) ->
  busy name s0 t0 s' md t.
Proof.
  intros [[Hn He] Ht Hc Hd Hnd Hk Hdom Hu Hf Hdev] Hl Hd' Hu' Hdev' Hfiles.
  split; rewrite ?Hl, ?Hd', ?Hu'; try done.
  - intros d k Hs. destruct (decide (d = first_dir name /\ k ∈ mo_key <$> t)) as [[-> Hin]|Hout].
    + by apply Hk.
    + destruct (Hfiles d k Hout) as [E1 E2]. rewrite E1, E2 in Hs. by eapply Hdom.
  - intros d k Hused Hout.
    assert (~ (d = first_dir name /\ k ∈ mo_key <$> t)) as Hout'.
    { intros [-> Hin]. destruct (Hk k Hin) as [_ [Hin0|Hnew]]; [by apply Hout|done]. }
    destruct (Hfiles d k Hout') as [-> ->]. by apply Hf.
Qed.

(** A journal entry for object number [k], and its new length in the metadata. *)
Lemma journal_working name s0 t0 s md t bs k o oo chunk : working name s0 t0 s md t bs -> t !! k = Some o ->
  0 <= oo <= mo_length o -> 0 < zlen chunk -> oo + zlen chunk <= osz ->
  wp (addJournalEntry (first_dir name) (mo_key o) chunk oo) s (fun err s' =>
    err = zlen chunk /\
    wp (if mo_length o <? u64 (zlen chunk + oo) then updateEntryLength md (mo_offset o) (u64 (zlen chunk + oo)) else mret md) s'
      (fun md' s'' =>
         working name s0 t0 s'' md' (<[k := set_length (Z.max (mo_length o) (oo + zlen chunk)) o]> t)
           (splice bs (mo_offset o + oo) chunk))).
Proof.
  intros [Hb Hr] Hk Hoo Hc Hle. pose proof (w_dev _ _ _ _ _ _ Hb) as [Hclean Hrp].
  pose proof (w_nodup _ _ _ _ _ _ Hb) as Hnd.
  destruct (rept_journal s (first_dir name) t bs k o oo chunk Hr Hnd Hk Hoo Hc Hle) as (es & Hes & Hnext).
  destruct (addJournalEntry_clean osz (first_dir name) (mo_key o) chunk oo es s Hclean Hrp ltac:(lia)) as
    (pl & f & cl & Hpl & Hjf & E); [repeat split; simpl; lia|done|].
  eapply run_wp; [exact E|]. split; [done|]. clear E.
  set (s1 := with_calls cl (with_wplan pl (file_set (Jrn (first_dir name) (mo_key o)) f s))).
  set (t' := <[k := set_length (Z.max (mo_length o) (oo + zlen chunk)) o]> t).
  assert (rept s1 (first_dir name) t' (splice bs (mo_offset o + oo) chunk)) as Hr1 by (by apply (Hnext s1 f)).
  assert (mo_key o ∈ mo_key <$> t) as Hko.
  { apply list_elem_of_fmap. exists o. split; [done|]. by eapply list_elem_of_lookup_2. }
  assert (mo_key <$> t' = mo_key <$> t) as Hkt by (by apply keys_insert_length).
  assert (busy name s0 t0 s1 md t) as Hb1.
  { eapply busy_files; [done..|]. intros d q Hout. split; [done|]. simpl. apply lookup_insert_ne. intros E. simplify_eq.
    by apply Hout. }
  assert (u64 (zlen chunk + oo) = oo + zlen chunk) as -> by (rewrite u64_small; lia).
  destruct (Z.ltb_spec (mo_length o) (oo + zlen chunk)).
  - unfold updateEntryLength, update_or_throw. apply wp_bind, wp_gets. rewrite (busy_jsontree _ _ _ _ _ _ Hb1).
    rewrite (tree_update_ok osz Hosz _ t k o (proj1 Hr) Hk).
    replace (<[k := mkObject (mo_offset o) (oo + zlen chunk) (mo_key o)]> t) with t'
      by (unfold t', set_length; by rewrite Z.max_r by lia).
    eapply wp_mono; [eapply set_jsontree_busy; [exact Hb1| |]|].
    + by rewrite Hkt.
    + rewrite Hkt. apply (w_keys _ _ _ _ _ _ Hb1).
    + intros md' s'' (Hb'' & Ho'' & Hj''). split; [done|]. eapply rept_frame; [exact Hr1|].
      intros x _. by rewrite Ho'', Hj''.
  - apply wp_ret. assert (t' = t) as Et.
    { unfold t'. rewrite Z.max_l, set_length_id by lia. by apply list_insert_id. }
    rewrite Et in *. by split.
Qed.

(** A new entry of the metadata, with a key that nothing else has. *)
Lemma add_busy name s0 t0 s md t len : busy name s0 t0 s md t -> tree_ok osz t ->
  wp (addMetadataObject osz md name len) s (fun r s' =>
    mo_offset r.1 = Z.of_nat (length t) * osz /\ mo_length r.1 = len /\ mo_key r.1 ∉ mo_key <$> t /\
    (forall d, objs s' !! (d, mo_key r.1) = None /\ jrns s' !! (d, mo_key r.1) = None) /\
    busy name s0 t0 s' r.2 (t ++ [r.1]) /\ objs s' = objs s /\ jrns s' = jrns s).
Proof.
  intros Hb Ht. unfold addMetadataObject. apply wp_bind, wp_gets. rewrite (busy_jsontree _ _ _ _ _ _ Hb).
  set (off := match last t with Some o => u64 (mo_offset o + osz) | None => 0 end).
  assert (off = Z.of_nat (length t) * osz) as Hoff.
  { unfold off. destruct (decide (t = [])) as [->|Hne]; [done|].
    destruct (last_ok osz t Ht Hne) as (lo & -> & _ & Hlo & _). rewrite Hlo.
    destruct Ht as [_ Hbound]. rewrite u64_small by (destruct t; [done|simpl in *; nia]). lia. }
  unfold getNewKey, draw_uuid. apply wp_bind, wp_bind. unfold wp at 1. apply wp_ret.
  match goal with |- context [mkObject off len ?k] => set (key := k) end.
  pose proof Hb as [[Hn He] Hl Hc Hd Hnd Hk Hdom Hu Hf Hdev].
  assert (~ used (uuids s) key) as Hfresh by apply fresh_unused.
  assert (used (S (uuids s)) key) as Hused by (eexists _, _; split; [|done]; lia).
  assert (mo_key (mkObject off len key) ∉ mo_key <$> t) as Hnot.
  { intros Hin. by apply Hfresh, (proj1 (Hk _ Hin)). }
  assert (busy name s0 t0 (with_uuids (S (uuids s)) s) md t) as Hb1.
  { split; try done; simpl.
    - intros k Hin. destruct (Hk k Hin). split; [|done]. eapply used_mono; [|done]. lia.
    - intros d k Hin. eapply used_mono; [|by eapply Hdom]. lia.
    - lia. }
  apply wp_bind. eapply wp_mono; [eapply (set_jsontree_busy _ _ _ _ _ _ _ Hb1)|].
  - rewrite fmap_app. simpl. apply NoDup_app. split; [done|]. split; [|by apply NoDup_singleton].
    intros x Hx Hx'. by apply list_elem_of_singleton in Hx' as ->.
  - intros k. rewrite fmap_app. intros [Hin|Hin]%elem_of_app; [by apply (w_keys _ _ _ _ _ _ Hb1)|].
    apply list_elem_of_singleton in Hin as ->. simpl. split; [done|]. right. intros Hold.
    apply Hfresh. eapply used_mono; [|done]. done.
  - intros md' s' (Hb' & Ho & Hj). apply wp_ret. simpl fst. simpl snd. simpl mo_offset. simpl mo_length.
    split_and!; try done. intros d. split.
    + rewrite Ho. simpl. destruct (objs s !! (d, key)) eqn:E; [|done]. exfalso. apply Hfresh, (Hdom d). left. eauto.
    + rewrite Hj. simpl. destruct (jrns s !! (d, key)) eqn:E; [|done]. exfalso. apply Hfresh, (Hdom d). right. eauto.
Qed.

(** The file of the new object appears. *)
Lemma object_working name s0 t0 s md t o bs data pl c : busy name s0 t0 s md (t ++ [o]) ->
  rept s (first_dir name) t bs -> zlen bs = Z.of_nat (length t) * osz -> mo_offset o = zlen bs ->
  mo_length o = zlen data -> 0 < zlen data <= osz -> zlen bs + osz < 2 ^ 61 -> mo_key o ∉ mo_key <$> t ->
  jrns s !! (first_dir name, mo_key o) = None -> clean pl ->
  working name s0 t0 (with_calls c (with_wplan pl (file_set (Obj (first_dir name) (mo_key o)) data s))) md (t ++ [o]) (bs ++ data).
Proof.
  intros Hb Hr Hfull Ho Hl Hd Hbound Hkey Hj Hpl. split.
  - eapply busy_files; try done; [split; [done|]; apply (w_dev _ _ _ _ _ _ Hb)|].
    intros d k Hout. split; [|done]. simpl. apply lookup_insert_ne. intros E. simplify_eq. apply Hout.
    split; [done|]. rewrite fmap_app. apply elem_of_app. right. by apply list_elem_of_singleton.
  - by eapply rept_new.
Qed.

Lemma new_working name s0 t0 s md t bs oo chunk : working name s0 t0 s md t bs ->
  zlen bs = Z.of_nat (length t) * osz -> zlen bs + osz < 2 ^ 61 ->
  0 <= oo -> 0 < zlen chunk -> oo + zlen chunk <= osz ->
  wp (addMetadataObject osz md name (u64 (zlen chunk + oo))) s (fun r s' =>
    wp (newObject (first_dir name) (mo_key r.1) chunk oo) s' (fun err s'' =>
      err = zlen chunk /\ forall c, working name s0 t0 (with_calls c s'') r.2 (t ++ [r.1]) (bs ++ replicate (Z.to_nat oo) 0 ++ chunk))).
Proof.
  intros [Hb Hr] Hfull Hbound Hoo Hc Hle. eapply wp_mono; [by eapply add_busy, Hr|].
  intros [o md'] s'. simpl. intros (Ho & Hl & Hkey & Hnone & Hb' & Hso & Hsj).
  destruct (Hnone (first_dir name)) as [Hno Hnj].
  destruct (newObject_clean (first_dir name) (mo_key o) chunk oo s') as (pl & Hpl & E); try done.
  { apply (w_dev _ _ _ _ _ _ Hb'). } { apply (w_dev _ _ _ _ _ _ Hb'). } { intros ->. by vm_compute in Hc. } { lia. }
  eapply run_wp; [exact E|]. split; [done|]. intros c. apply object_working; try done; try lia.
  - eapply rept_frame; [exact Hr|]. intros x _. by rewrite Hso, Hsj.
  - rewrite Hl, zlen_app, zlen_replicate, u64_small by lia. lia.
  - rewrite zlen_app, zlen_replicate. lia.
Qed.

Lemma null_working name s0 t0 s md t bs : working name s0 t0 s md t bs ->
  zlen bs = Z.of_nat (length t) * osz -> zlen bs + osz < 2 ^ 61 ->
  wp (addMetadataObject osz md name osz) s (fun r s' =>
    wp (newNullObject (first_dir name) (mo_key r.1) osz) s' (fun err s'' =>
      err = 0 /\ forall c, working name s0 t0 (with_calls c s'') r.2 (t ++ [r.1]) (bs ++ replicate (Z.to_nat osz) 0))).
Proof.
  intros [Hb Hr] Hfull Hbound. eapply wp_mono; [by eapply add_busy, Hr|].
  intros [o md'] s'. simpl. intros (Ho & Hl & Hkey & Hnone & Hb' & Hso & Hsj).
  destruct (Hnone (first_dir name)) as [Hno Hnj]. destruct (w_dev _ _ _ _ _ _ Hb') as [Hclean Hrp].
  set (p := Obj (first_dir name) (mo_key o)).
  assert (exists pl, clean pl /\ newNullObject (first_dir name) (mo_key o) osz s' =
    (Val 0, with_wplan pl (file_set p (replicate (Z.to_nat osz) 0) s'))) as (pl & Hpl & E).
  { unfold newNullObject. rewrite (bind_Val _ _ _ _ _ (sys_open_create p s' Hrp Hno)). change (0 <? 0) with false.
    cbn beta iota. unfold sys_ftruncate, next_write, mbind, M_bind. rewrite wplan_file_set.
    assert (forall x, x = file_set p [] s' -> file_set p (resize_to (contents p x) osz) x = file_set p (replicate (Z.to_nat osz) 0) s') as Hres.
    { intros x ->. rewrite contents_set, file_set_set. f_equal. unfold resize_to. simpl.
      rewrite firstn_nil, Nat.sub_0_r. done. }
    destruct Hclean as [Hpl Htl]. destruct (planned (wplan s')) as [|a pl] eqn:Ew.
    - exists (wplan s'). split; [split; [by rewrite Ew|done]|]. destruct Htl as (n & -> & _).
      unfold modify, mret, M_ret. rewrite Hres by done. by destruct s'.
    - apply Forall_cons in Hpl as [(n & -> & _) Hpl]. exists (mkDevice pl (ever_after (wplan s'))).
      split; [done|]. unfold modify, mret, M_ret. f_equal. rewrite contents_wplan, file_set_wplan. by rewrite Hres. }
  eapply run_wp; [exact E|]. split; [done|]. intros c. apply object_working; try done; try lia.
  - eapply rept_frame; [exact Hr|]. intros x _. by rewrite Hso, Hsj.
  - rewrite zlen_replicate. lia.
  - rewrite zlen_replicate. lia.
Qed.

(** ** write *)

Lemma take_slice (data : list Z) c n : 0 <= c -> 0 <= n -> take (Z.to_nat c) data ++ slice data c n = take (Z.to_nat (c + n)) data.
Proof.
  intros. unfold slice. rewrite Z2Nat.inj_add by lia. apply take_take_drop.
Qed.

(** The file after the first [c] bytes of [data] were written at [off]. *)
Definition partial (bs0 : list Z) (off : Z) (data : list Z) (c : Z) : list Z := splice bs0 off (take (Z.to_nat c) data).

Lemma partial_step bs0 off data c n : 0 <= off -> 0 <= c -> 0 <= n -> c + n <= zlen data ->
  splice (partial bs0 off data c) (off + c) (slice data c n) = partial bs0 off data (c + n).
Proof.
  intros. unfold partial. replace (off + c) with (off + zlen (take (Z.to_nat c) data)) by (rewrite zlen_take; lia).
  rewrite splice_splice by lia. by rewrite take_slice by lia.
Qed.

Lemma zlen_partial bs0 off data c : 0 <= off -> 0 <= c <= zlen data -> zlen (partial bs0 off data c) = Z.max (zlen bs0) (off + c).
Proof. intros. unfold partial. rewrite zlen_splice, zlen_take by lia. done. Qed.

(** Where the loop over the existing objects stands: the data is used up, or the next
    byte goes to object number [k]. *)
Definition at_object (k : nat) (off len count : Z) : Prop :=
  count = len /\ off + len <= Z.of_nat k * osz \/
  count < len /\ Z.of_nat k * osz <= off + count < Z.of_nat k * osz + osz /\ (0 < count -> off + count = Z.of_nat k * osz).

Lemma insert_lookup_ne_other (t : list metadataObject) (k i : nat) y x : i <> k -> t !! i = Some x -> <[k := y]> t !! i = Some x.
Proof. intros. by rewrite list_lookup_insert_ne. Qed.

Lemma write_journals_wp name s0 t0 data off bs0 : 0 <= off -> off <= zlen bs0 -> off + zlen data < 2 ^ 60 ->
  forall l k count t s md,
    working name s0 t0 s md t (partial bs0 off data count) -> run osz t k l (off + zlen data) ->
    0 <= count <= zlen data -> at_object k off (zlen data) count ->
    wp (write_journals osz (first_dir name) data off l md count) s (fun r s' =>
      exists md' t' count', r = inr (md', count') /\ working name s0 t0 s' md' t' (partial bs0 off data count') /\
        length t' = length t /\ 0 <= count' <= zlen data /\
        (count' = zlen data \/ at_object (length t) off (zlen data) count')).
Proof.
  intros Hoff Hoff' Hsum. induction l as [|o l IH]; intros k count t s md Hw (Ha & Hb & Hc) Hcount Hat; cbn [write_journals].
  { apply wp_ret. exists md, t, count. split_and!; try done; try lia.
    destruct Hat as [[-> _]|Hat]; [by left|]. simpl in Hb. rewrite Nat.add_0_r in Hb.
    right. right. destruct Hb as [<-|Hb]; [done|]. lia. }
  pose proof (Ha 0%nat o ltac:(done)) as Hko. rewrite Nat.add_0_r in Hko.
  pose proof (Hc 0%nat ltac:(simpl; lia)) as Hstart. rewrite Nat.add_0_r in Hstart.
  destruct Hat as [[-> Hend]|(Hlt & Hpos & Hcont)]; [lia|].
  pose proof Hw as [_ (Ht & Hlen & _)]. destruct (proj1 Ht k o Hko) as (Hoo & Hol & Hfull).
  assert (zlen (partial bs0 off data count) = Z.max (zlen bs0) (off + count)) as Hpl by (apply zlen_partial; lia).
  set (objectOffset := if (count =? 0) && (mo_offset o <? u64 off) then u64 (off - mo_offset o) else 0).
  assert (objectOffset = off + count - Z.of_nat k * osz) as EO.
  { unfold objectOffset. rewrite Hoo. destruct (Z.eqb_spec count 0); cbn [andb]; [|lia].
    rewrite !u64_small by lia. zcase; lia. }
  set (wl := if (count =? 0) && (mo_offset o <? u64 off) then Z.min (u64 (osz - objectOffset)) (zlen data - count)
             else Z.min osz (zlen data - count)).
  assert (wl = Z.min (osz - objectOffset) (zlen data - count)) as EW.
  { unfold wl. rewrite (u64_small (osz - _)) by lia. rewrite EO, Hoo. destruct (Z.eqb_spec count 0); cbn [andb]; [|lia].
    rewrite !u64_small by lia. zcase; lia. }
  assert (0 < wl <= zlen data - count /\ objectOffset + wl <= osz) as [Hwl Hwl'] by lia.
  assert (zlen (slice data count wl) = wl) as Hzs by (rewrite zlen_slice; lia).
  assert (objectOffset <= mo_length o) as Hin.
  { destruct (decide (S k < length t)%nat) as [Hn|Hn]; [rewrite Hfull by done; lia|].
    destruct (last_ok osz t Ht) as (lo & Elo & Hlo & _); [by intros ->|]. pose proof (lookup_lt_Some _ _ _ Hko).
    replace (pred (length t)) with k in Hlo by lia. rewrite Hko in Hlo. simplify_eq.
    rewrite (tree_length_ok osz Hosz t lo Ht Elo) in Hlen. nia. }
  apply wp_bind. eapply wp_mono; [eapply (journal_working _ _ _ _ _ _ _ k o objectOffset _ Hw Hko); lia|].
  intros err s1 [-> Hnext]. rewrite Hzs in *. rewrite (u32_small wl) by lia.
  destruct (Z.ltb_spec wl 0); [lia|]. rewrite Z.ltb_irrefl.
  apply wp_bind. eapply wp_mono; [exact Hnext|]. intros md' s2 Hw2. clear Hnext.
  replace (mo_offset o + objectOffset) with (off + count) in Hw2 by lia.
  rewrite partial_step in Hw2 by lia.
  unfold note_entry, note. wp_steps.
  apply (working_calls _ _ _ _ _ _ _ (calls s2 ++ [Cache_newJournalEntry (first_dir name) (wl + JOURNAL_ENTRY_HEADER_SIZE)])) in Hw2.
  eapply working_calls in Hw2.
  eapply wp_mono; [eapply (IH (S k) (count + wl)); [exact Hw2| |lia|]|].
  - split; [|split].
    + intros i x Hi. specialize (Ha (S i) x Hi). rewrite Nat.add_succ_r in Ha. apply insert_lookup_ne_other; [lia|done].
    + rewrite length_insert. simpl in Hb. by rewrite Nat.add_succ_r in Hb.
    + intros i Hi. specialize (Hc (S i) ltac:(simpl; lia)). by rewrite Nat.add_succ_r in Hc.
  - unfold at_object. destruct (decide (count + wl = zlen data)); [left; nia|right]. nia.
  - intros r s3 (md3 & t3 & c3 & -> & Hw3 & Hl3 & Hc3 & Hend). rewrite length_insert in *.
    by exists md3, t3, c3.
Qed.

Lemma splice_far bs off c : zlen bs <= off -> splice bs off c = bs ++ replicate (Z.to_nat (off - zlen bs)) 0 ++ c.
Proof.
  intros. unfold splice, zlen in *. rewrite take_ge, drop_ge, app_nil_r by lia. f_equal. f_equal. f_equal. lia.
Qed.

Lemma replicate_app (m n : nat) (x : Z) : replicate m x ++ replicate n x = replicate (m + n) x.
Proof. by rewrite replicate_add. Qed.

(** metadataRead at the end of the file: nothing when the last object is full,
    otherwise the last object. *)
Lemma tree_read_end t len : tree_ok osz t -> 0 < len -> tree_length t + len < 2 ^ 61 ->
  tree_length t = Z.of_nat (length t) * osz /\ tree_read osz t (tree_length t) len = [] \/
  exists o, tree_read osz t (tree_length t) len = [o] /\ t !! pred (length t) = Some o /\ t <> [] /\
    tree_length t = mo_offset o + mo_length o /\ mo_offset o = (Z.of_nat (length t) - 1) * osz /\ 1 <= mo_length o < osz.
Proof.
  intros Ht Hlen Hsum. pose proof (tree_length_bounds osz Hosz t Ht) as (Hb1 & Hb0 & Hb2).
  set (e := tree_length t) in *.
  pose proof (Z.div_mod e osz ltac:(lia)). pose proof (Z.mod_pos_bound e osz ltac:(lia)).
  pose proof (Z.div_pos e osz ltac:(lia) ltac:(lia)).
  destruct (tree_read_run osz Hosz t e len Ht ltac:(lia) ltac:(lia) ltac:(lia)) as [[Hge E]|(o & l & E & Hk & Hrun)].
  - left. split; [|done]. assert (Z.of_nat (length t) <= e / osz) by lia. nia.
  - right. pose proof (lookup_lt_Some _ _ _ Hk) as Hlt. set (k := Z.to_nat (e / osz)) in *.
    assert (t <> []) as Hne by (by intros ->). specialize (Hb2 Hne).
    assert (S k = length t) as Hlast by nia.
    assert (l = []) as ->.
    { destruct l as [|x l]; [done|]. destruct Hrun as (Ha & _). specialize (Ha 1%nat x ltac:(done)).
      apply lookup_lt_Some in Ha. lia. }
    destruct (last_ok osz t Ht Hne) as (lo & Elo & Hlo & Hloff & Hll). exists o.
    replace k with (pred (length t)) in Hk by lia. rewrite Hk in Hlo. simplify_eq.
    pose proof (tree_length_ok osz Hosz t lo Ht Elo) as Ee.
    split_and!; try done; lia.
Qed.

(** The last object is filled with zeros. *)
Lemma fill_last_wp name s0 t0 s md t bs : working name s0 t0 s md t bs -> zlen bs < 2 ^ 60 ->
  wp (fill_last osz (first_dir name) md (zlen bs)) s (fun r s' =>
    exists md' t', r = inr (md', Z.of_nat (length t) * osz) /\ length t' = length t /\
      working name s0 t0 s' md' t' (bs ++ replicate (Z.to_nat (Z.of_nat (length t) * osz - zlen bs)) 0)).
Proof.
  intros Hw Hlen. pose proof Hw as [Hb (Ht & Hl & Hh)].
  pose proof (tree_length_bounds osz Hosz t Ht) as (Hb1 & Hb0 & Hb2).
  unfold fill_last, metadataRead. apply wp_bind, wp_gets. rewrite (busy_jsontree _ _ _ _ _ _ Hb), <- Hl.
  destruct (tree_read_end t 1 Ht ltac:(lia) ltac:(lia)) as [[Hfull ->]|(lo & -> & Hk & Hne & Etl & Hloff & Hll)].
  - apply wp_ret. exists md, t. rewrite Hfull at 1. split_and!; try done.
    replace (Z.to_nat _) with 0%nat by lia. by rewrite app_nil_r.
  - rewrite (u64_small (osz - _)) by lia. set (z := osz - mo_length lo).
    assert (zlen (replicate (Z.to_nat z) 0) = z) as Hz by (rewrite zlen_replicate; lia).
    apply wp_bind. eapply wp_mono.
    { eapply (journal_working _ _ _ _ _ _ _ (pred (length t)) lo (mo_length lo) (replicate (Z.to_nat z) 0) Hw Hk); lia. }
    intros err s1 [-> Hnext]. rewrite Hz in *. rewrite (u32_small z) by lia.
    destruct (Z.ltb_spec z 0); [lia|]. rewrite Z.ltb_irrefl.
    destruct (Z.ltb_spec (mo_length lo) (u64 (z + mo_length lo))) as [_|Hno]; [|rewrite u64_small in Hno; lia].
    apply wp_bind. eapply wp_mono; [exact Hnext|]. intros md' s2 Hw2. clear Hnext.
    unfold note_entry, note. wp_steps.
    eexists _, _. split; [do 2 f_equal; lia|]. split; [|do 2 apply working_calls].
    2: { replace (mo_offset lo + mo_length lo) with (zlen bs) in Hw2 by lia. rewrite splice_at_end in Hw2.
         replace (Z.of_nat (length t) * osz - tree_length t) with z by lia. exact Hw2. }
    by rewrite length_insert.
Qed.

Lemma null_objects_wp name s0 t0 off : forall fuel keys t bs s md, working name s0 t0 s md t bs ->
  zlen bs = Z.of_nat (length t) * osz -> zlen bs <= off -> off < 2 ^ 60 -> off - zlen bs < Z.of_nat fuel ->
  wp (null_objects osz fuel (first_dir name) name md keys (zlen bs) off) s (fun r s' =>
    exists md' t' keys' m, r = inr (md', keys', zlen (bs ++ replicate m 0)) /\
      working name s0 t0 s' md' t' (bs ++ replicate m 0) /\ zlen (bs ++ replicate m 0) = Z.of_nat (length t') * osz /\
      zlen (bs ++ replicate m 0) <= off < zlen (bs ++ replicate m 0) + osz).
Proof.
  induction fuel as [|fuel IH]; intros keys t bs s md Hw Hfull Hle Hoff Hfuel; cbn [null_objects].
  { destruct (Z.ltb_spec off (zlen bs + osz)); [|lia]. apply wp_ret. exists md, t, keys, 0%nat.
    rewrite app_nil_r. split_and!; try done. }
  destruct (Z.ltb_spec off (zlen bs + osz)).
  { apply wp_ret. exists md, t, keys, 0%nat. rewrite app_nil_r. split_and!; try done. }
  apply wp_bind. eapply wp_mono; [eapply (null_working _ _ _ _ _ _ _ Hw); lia|].
  intros [o md'] s1 Hnew. simpl in Hnew. apply wp_bind. eapply wp_mono; [exact Hnew|].
  intros err s2 [-> Hw2]. change (0 <? 0) with false. cbn beta iota. unfold note. wp_steps.
  assert (zlen (bs ++ replicate (Z.to_nat osz) 0) = zlen bs + osz) as Hz by (rewrite zlen_app, zlen_replicate; lia).
  rewrite <- Hz.
  eapply wp_mono; [eapply (IH _ (t ++ [o])); [apply Hw2| | |done|]; rewrite ?length_app, ?Hz; simpl; lia|].
  intros r s3 (md3 & t3 & keys3 & m & -> & Hw3 & Hf3 & Hr3).
  exists md3, t3, keys3, (Z.to_nat osz + m)%nat. rewrite <- replicate_app, app_assoc. done.
Qed.

(** Where the loop that makes new objects stands: the file is full up to [off + count],
    or nothing is written yet and [off] is behind the last object. *)
Definition at_end (n : nat) (off count : Z) : Prop :=
  off + count = Z.of_nat n * osz \/ count = 0 /\ Z.of_nat n * osz <= off.

(** The same, where nothing is written yet also for an [off] behind the end. *)
Definition so_far (bs0 : list Z) (off : Z) (data : list Z) (c : Z) : list Z :=
  if c =? 0 then bs0 else partial bs0 off data c.

Lemma write_objects_wp name s0 t0 data off bs0 : 0 <= off -> 0 < zlen data -> off + zlen data < 2 ^ 60 ->
  forall fuel count keys t s md,
    working name s0 t0 s md t (so_far bs0 off data count) -> 0 <= count <= zlen data ->
    (count = zlen data \/ at_end (length t) off count) -> zlen data - count < Z.of_nat fuel ->
    wp (write_objects osz fuel (first_dir name) name data off md keys count) s (fun r s' =>
      exists md' t' keys', r = inr (md', keys', zlen data) /\
        working name s0 t0 s' md' t' (partial bs0 off data (zlen data))).
Proof.
  intros Hoff Hdata Hsum. induction fuel as [|fuel IH]; intros count keys t s md Hw Hcount Hat Hfuel; [lia|].
  cbn [write_objects]. destruct (Z.leb_spec (zlen data - count) 0).
  { apply wp_ret. replace count with (zlen data) in * by lia. exists md, t, keys. split; [done|].
    unfold so_far in Hw. by destruct (Z.eqb_spec (zlen data) 0); [lia|]. }
  destruct Hat as [->|Hat]; [lia|]. pose proof Hw as [Hb (Ht & Hl & Hh)].
  pose proof (tree_length_bounds osz Hosz t Ht) as (Hb1 & Hb0 & Hb2). rewrite Hl in *.
  unfold getMetadataNewObjectOffset. apply wp_bind, wp_gets. rewrite (busy_jsontree _ _ _ _ _ _ Hb), Hl.
  apply wp_bind.
  (* after the gap, if any, is filled *)
  eapply (wp_mono _ _ (fun start s' => exists md' t' keys' bs' oo, start = inr (md', keys', oo) /\
    working name s0 t0 s' md' t' bs' /\ zlen bs' = Z.of_nat (length t') * osz /\ 0 <= oo < osz /\ zlen bs' + oo = off + count /\
    forall n, 0 <= n <= zlen data - count ->
      bs' ++ replicate (Z.to_nat oo) 0 ++ slice data count n = partial bs0 off data (count + n))).
  - unfold so_far in *. destruct (Z.eqb_spec count 0) as [->|Hne]; cbn [andb].
    + destruct (Z.ltb_spec (zlen bs0) off) as [Hgap|Hnogap].
      * assert (Z.of_nat (length t) * osz <= off) as Hfar by (destruct Hat; lia).
        apply wp_bind. eapply wp_mono; [eapply (fill_last_wp _ _ _ _ _ _ _ Hw); lia|].
        intros r s1 (md1 & t1 & -> & Hl1 & Hw1). apply wp_bind.
        set (bs1 := bs0 ++ replicate (Z.to_nat (Z.of_nat (length t) * osz - zlen bs0)) 0) in *.
        assert (zlen bs1 = Z.of_nat (length t) * osz) as Hz1.
        { unfold bs1. rewrite zlen_app, zlen_replicate. lia. }
        rewrite <- Hz1. eapply wp_mono; [eapply (null_objects_wp _ _ _ _ _ _ _ _ _ _ Hw1); lia|].
        intros r s2 (md2 & t2 & keys2 & m & -> & Hw2 & Hf2 & Hr2). wp_steps.
        eexists md2, t2, keys2, _, _. split; [done|]. split; [exact Hw2|]. rewrite u64_small by lia. split_and!; try lia.
        intros n Hn. unfold partial. rewrite Z.add_0_l. unfold slice. rewrite drop_0.
        rewrite splice_far by lia. rewrite zlen_app, zlen_replicate, Hz1 in *. unfold bs1. rewrite <- !app_assoc. f_equal.
        rewrite !app_assoc, !replicate_app. f_equal. f_equal. lia.
      * wp_steps. eexists md, t, keys, bs0, 0. split_and!; try done; try (destruct Hat; lia).
        intros n Hn. unfold partial. rewrite Z.add_0_l. unfold slice. rewrite drop_0. simpl.
        rewrite splice_far by (destruct Hat; lia). replace (Z.to_nat (off - zlen bs0)) with 0%nat by (destruct Hat; lia). done.
    + wp_steps. eexists md, t, keys, _, 0. split; [done|]. split; [exact Hw|].
      assert (zlen (partial bs0 off data count) = off + count) as Hz.
      { pose proof (zlen_partial bs0 off data count Hoff ltac:(lia)). destruct Hat; lia. }
      split_and!; try (destruct Hat; lia). intros n Hn. simpl. rewrite <- partial_step by lia. rewrite <- Hz. by rewrite splice_at_end.
  - intros start s1 (md1 & t1 & keys1 & bs1 & oo & -> & Hw1 & Hf1 & Hoo & Hpos & Hnext).
    rewrite (u64_small (osz - oo)) by lia. set (wl := Z.min (osz - oo) (zlen data - count)).
    assert (zlen (slice data count wl) = wl) as Hzs by (rewrite zlen_slice; lia).
    apply wp_bind. pose proof (new_working _ _ _ _ _ _ _ oo (slice data count wl) Hw1 Hf1 ltac:(lia) ltac:(lia) ltac:(lia) ltac:(lia)) as Hnew.
    rewrite Hzs in Hnew. eapply wp_mono; [exact Hnew|]. intros [o md2] s2. simpl fst. simpl snd. intros Hobj.
    apply wp_bind. eapply wp_mono; [exact Hobj|]. intros err s3 [-> Hw3].
    rewrite (u32_small wl) by lia. rewrite Z.ltb_irrefl.
    destruct (Z.ltb_spec wl 0); [lia|]. destruct (Z.eqb_spec wl 0); [lia|].
    unfold note. wp_steps. eapply IH; [|lia| |lia].
    { unfold so_far. destruct (Z.eqb_spec (count + wl) 0); [lia|]. rewrite <- Hnext by lia. apply Hw3. }
    destruct (decide (count + wl = zlen data)); [by left|]. right. left. rewrite length_app. simpl length. lia.
Qed.

(** *** The end of an operation *)

(** The state is consistent again, and no other file has changed. *)
Definition stays (name : string) (s s' : st) : Prop :=
  sm_ok s' /\ device_ok s' /\ (forall n, n <> name -> disk s' !! n = disk s !! n) /\
  forall n bs, n <> name -> rep s n bs -> rep s' n bs.

Lemma close_ok name s t0 s1 md t s' : sm_ok s -> disk s !! name = Some t0 -> busy name s t0 s1 md t ->
  jlookup s' = jlookup s1 -> disk s' = <[name := t]> (disk s1) -> uuids s' = uuids s1 -> device_ok s' ->
  (forall d k, is_Some (objs s' !! (d, k)) \/ is_Some (jrns s' !! (d, k)) -> used (uuids s1) k) ->
  (forall d k, used (uuids s) k -> ~ (d = first_dir name /\ k ∈ mo_key <$> t0) ->
     objs s' !! (d, k) = objs s !! (d, k) /\ jrns s' !! (d, k) = jrns s !! (d, k)) ->
  stays name s s'.
Proof.
  intros Hok Hd0 [[Hn He] Ht Hc Hd Hnd Hk _ Hu _ _] Hl Hd' Hu' Hdev Hdom Hfr.
  assert (forall n x, n <> name -> disk s' !! n = Some x -> disk s !! n = Some x) as Hother.
  { intros n x Hne. rewrite Hd', lookup_insert_ne by done. by rewrite Hd. }
  assert (forall n x o o', n <> name -> disk s' !! n = Some x -> o ∈ x -> o' ∈ t ->
    first_dir n = first_dir name -> mo_key o = mo_key o' -> False) as Hdis.
  { intros n x o o' Hne Hx Ho Ho' Hdir Hkey. apply Hother in Hx; [|done].
    destruct (Hk (mo_key o')) as [_ [Hin|Hnew]]; [by apply list_elem_of_fmap_2| |].
    - apply list_elem_of_fmap in Hin as (o0 & Ek & Ho0). apply Hne. eapply (ok_own s Hok n name x t0 o o0); try done. congruence.
    - apply Hnew. rewrite <- Hkey. by eapply ok_used. }
  split; [|split; [done|split]].
  - split.
    + intros n x Hx. rewrite Hl in Hx. destruct (decide (n = name)) as [->|Hne].
      * rewrite Ht in Hx. simplify_eq. by rewrite Hd', lookup_insert_eq.
      * rewrite Hd', lookup_insert_ne, Hd by done. by apply Hc.
    + intros n1 n2 t1 t2 o1 o2 H1' H2' Ho1 Ho2 Hdir Hkey.
      destruct (decide (n1 = name)) as [->|Hne1], (decide (n2 = name)) as [->|Hne2]; [done|..].
      * exfalso. rewrite Hd', lookup_insert_eq in H1'. simplify_eq. by eapply (Hdis n2 t2 o2 o1).
      * exfalso. rewrite Hd', lookup_insert_eq in H2'. simplify_eq. by eapply (Hdis n1 t1 o1 o2).
      * eapply (ok_own s Hok n1 n2); eauto.
    + intros n x Hx. destruct (decide (n = name)) as [->|Hne].
      * rewrite Hd', lookup_insert_eq in Hx. by simplify_eq.
      * eapply (ok_nodup s Hok n); eauto.
    + intros n x o Hx Ho. rewrite Hu'. destruct (decide (n = name)) as [->|Hne].
      * rewrite Hd', lookup_insert_eq in Hx. simplify_eq. apply Hk. by apply list_elem_of_fmap_2.
      * eapply used_mono; [exact Hu|]. eapply (ok_used s Hok n); eauto.
    + rewrite Hu'. apply Hdom.
  - intros n Hne. by rewrite Hd', lookup_insert_ne, Hd by done.
  - intros n bs Hne (x & Hx & Hr). exists x. split; [by rewrite Hd', lookup_insert_ne, Hd by done|].
    eapply rept_frame; [exact Hr|]. intros o Ho. apply Hfr; [by eapply ok_used|].
    intros [Hdir Hin]. apply list_elem_of_fmap in Hin as (o0 & Ek & Ho0). apply Hne. by eapply (ok_own s Hok n name x t0 o o0).
Qed.

Lemma update_wp name s t0 s1 md t bs : sm_ok s -> disk s !! name = Some t0 -> working name s t0 s1 md t bs ->
  wp (updateMetadata md) s1 (fun r s' => r.1 = 0 /\ stays name s s' /\ rep s' name bs).
Proof.
  intros Hok Hd0 [Hb Hr]. unfold updateMetadata, writeMetadata. apply wp_bind, wp_gets.
  rewrite (busy_jsontree _ _ _ _ _ _ Hb). pose proof Hb as [[Hn He] Ht Hc Hd Hnd Hk Hdom Hu Hf Hdev].
  apply wp_bind, wp_modify, wp_bind. unfold cache_put. apply wp_modify. rewrite Hn. simpl jlookup. rewrite Ht.
  apply wp_ret. split; [done|]. split; [by eapply close_ok|].
  exists t. split; [simpl; by rewrite lookup_insert_eq|done].
Qed.

Lemma stays_calls name s s' c : stays name s s' -> stays name s (with_calls c s').
Proof. intros (Hok & Hdev & Hd & Hr). split; [by destruct Hok|]. split; [done|]. split; [done|]. apply Hr. Qed.

Lemma stays_errno name s s' e : stays name s s' -> stays name s (with_errno e s').
Proof. intros (Hok & Hdev & Hd & Hr). split; [by destruct Hok|]. split; [done|]. split; [done|]. apply Hr. Qed.

Definition round_up (n : Z) : Z := (n + osz - 1) / osz * osz.

Lemma round_up_tree t : tree_ok osz t -> round_up (tree_length t) = Z.of_nat (length t) * osz.
Proof.
  intros Ht. pose proof (tree_length_bounds osz Hosz t Ht) as (Hb1 & Hb0 & Hb2). unfold round_up. f_equal.
  destruct (decide (t = [])) as [->|Hne].
  - change (tree_length []) with 0. rewrite Z.div_small by lia. done.
  - specialize (Hb2 Hne). symmetry. apply (Z.div_unique _ _ _ (tree_length t + osz - 1 - Z.of_nat (length t) * osz)); lia.
Qed.

(** The object that an offset falls into. *)
Lemma object_of off : 0 <= off ->
  Z.of_nat (Z.to_nat (off / osz)) * osz <= off < Z.of_nat (Z.to_nat (off / osz)) * osz + osz.
Proof.
  intros. rewrite Z2Nat.id by (apply Z.div_pos; lia).
  pose proof (Z.div_mod off osz ltac:(lia)). pose proof (Z.mod_pos_bound off osz ltac:(lia)). lia.
Qed.

(** A write that starts within the data, or at or behind the end of the last object,
    is pwrite(2). *)
Lemma write_file_wp name bs data off s : sm_ok s -> device_ok s -> rep s name bs ->
  0 <= off -> data <> [] -> off + zlen data < 2 ^ 60 -> off <= zlen bs \/ round_up (zlen bs) <= off ->
  wp (write_file osz name data off) s (fun r s' =>
    r = zlen data /\ stays name s s' /\ rep s' name (splice bs off data)).
Proof.
  intros Hok Hdev (t & Hd & Hr) Hoff Hne Hsum Hwhere. pose proof Hr as (Ht & Hl & _).
  assert (0 < zlen data) as Hpos by (destruct data; [done|unfold zlen; simpl; lia]).
  pose proof (tree_length_bounds osz Hosz t Ht) as (Hb1 & Hb0 & Hb2). rewrite <- Hl, round_up_tree in Hwhere by done.
  rewrite Hl in *.
  unfold write_file. apply wp_bind. eapply wp_mono; [by eapply open_working|]. intros md s1 [Hw _].
  pose proof Hw as [Hb1' _]. rewrite (proj2 (w_md _ _ _ _ _ _ Hb1')). cbn [negb].
  unfold metadataRead. apply wp_bind, wp_gets. rewrite (busy_jsontree _ _ _ _ _ _ Hb1').
  assert (off <= zlen bs -> partial bs off data 0 = bs) as Hp0 by (intros; unfold partial; apply splice_nil; lia).
  apply wp_bind.
  eapply (wp_mono _ _ (fun r s' => exists md' t' count', r = inr (md', count') /\
    working name s t s' md' t' (so_far bs off data count') /\ 0 <= count' <= zlen data /\
    (count' = zlen data \/ at_end (length t') off count'))).
  - destruct Hwhere as [Hin|Hfar].
    + eapply wp_mono.
      * destruct (tree_read_run osz Hosz t off (zlen data) Ht Hoff Hpos ltac:(lia)) as [[Hge ->]|(o & l & -> & Hk & Hrun)].
        -- eapply (write_journals_wp name s t data off bs Hoff Hin Hsum [] (length t) 0 t s1 md); [by rewrite Hp0| |lia|].
           ++ split_and!; try done; simpl; [left|]; lia.
           ++ right. pose proof (object_of off Hoff). nia.
        -- eapply (write_journals_wp name s t data off bs Hoff Hin Hsum _ _ 0 t s1 md); [by rewrite Hp0|exact Hrun|lia|].
           right. pose proof (object_of off Hoff). nia.
      * simpl. intros r s2 (md2 & t2 & c2 & -> & Hw2 & Hl2 & Hc2 & Hend). exists md2, t2, c2. split_and!; try done; try lia.
        -- unfold so_far. destruct (Z.eqb_spec c2 0) as [->|]; [|done]. by rewrite <- (Hp0 Hin).
        -- destruct Hend as [->|[[-> _]|Hend]]; [by left|by left|]. right. left. rewrite Hl2.
           pose proof Hw2 as [_ (Ht2 & Hlen2 & _)]. pose proof (tree_length_bounds osz Hosz t2 Ht2) as (Hb2' & _).
           rewrite Hlen2, zlen_partial, Hl2 in Hb2' by lia. destruct Hend as (_ & [Hlo _] & _). lia.
    + destruct (tree_read_run osz Hosz t off (zlen data) Ht Hoff Hpos ltac:(lia)) as [[Hge ->]|(o & l & _ & Hk & _)].
      2: { exfalso. apply lookup_lt_Some in Hk. pose proof (object_of off Hoff). nia. }
      simpl. wp_steps. exists md, t, 0. split_and!; try done; try lia. right. right. lia.
  - intros r s2 (md2 & t2 & c2 & -> & Hw2 & Hc2 & Hend). apply wp_bind.
    eapply wp_mono; [eapply (write_objects_wp _ _ _ _ _ _ Hoff Hpos Hsum _ _ _ _ _ _ Hw2 Hc2 Hend)|].
    { unfold zlen in *. lia. }
    intros r s3 (md3 & t3 & keys & -> & Hw3). unfold finish_objects, note. wp_steps. cbn beta.
    apply (working_calls _ _ _ _ _ _ _ (calls s3 ++ [Sync_newObjects (first_dir name) keys])) in Hw3.
    eapply wp_mono; [by eapply update_wp|]. intros u s4 (_ & Hst & Hrep). unfold set_errno. wp_steps.
    split; [done|]. split; [by apply stays_errno|].
    unfold partial in Hrep. rewrite take_ge in Hrep by (unfold zlen; lia). exact Hrep.
Qed.

(** ** read *)

(** Journals have a size that fits the arithmetic on them. *)
Definition fits (s : st) : Prop := forall d k f, jrns s !! (d, k) = Some f -> zlen f < 2 ^ 62.

Lemma held_obase s s' dir bs o :
  obase s' dir (mo_key o) = obase s dir (mo_key o) ->
  jrns s' !! (dir, mo_key o) = jrns s !! (dir, mo_key o) -> held s dir bs o -> held s' dir bs o.
Proof. intros Ho Hj. unfold held. by rewrite Ho, Hj. Qed.

Lemma rept_obase s s' dir t bs : rept s dir t bs ->
  (forall k, obase s' dir k = obase s dir k) -> jrns s' = jrns s -> rept s' dir t bs.
Proof.
  intros (Ht & Hl & Hh) Ho Hj. split; [done|]. split; [done|]. intros k o Hk.
  eapply held_obase; [| |by eapply Hh]; [apply Ho|by rewrite Hj].
Qed.

(** Part of an object is loaded. *)
Lemma load_wp s dir bs o thisOffset thisLength :
  rplan s = [] -> fits s -> held s dir bs o -> is_Some (objs s !! (dir, mo_key o)) -> 0 <= mo_offset o ->
  mo_offset o + mo_length o <= zlen bs -> mo_length o <= osz ->
  0 <= thisOffset -> 0 <= thisLength -> thisOffset + thisLength <= mo_length o ->
  forall b : bool, (if b then is_Some (jrns s !! (dir, mo_key o)) else jrns s !! (dir, mo_key o) = None) ->
  wp (if b then loadObjectAndJournal fresh (Obj dir (mo_key o)) (Jrn dir (mo_key o)) thisOffset thisLength
      else loadObject (Obj dir (mo_key o)) thisOffset thisLength) s
    (fun r s' => r = (0, slice bs (mo_offset o + thisOffset) thisLength) /\ s' = s).
Proof.
  intros Hrp Hfit (ob & es & Hob & Hj & Hv) [f Hf] Hoff Hin Hosz' Hto Htl Hle b Hb.
  unfold obase in Hob. rewrite Hf in Hob. simplify_eq.
  assert (forall i, 0 <= i < thisLength -> view ob es (thisOffset + i) = zget bs (mo_offset o + thisOffset + i)) as Hv'.
  { intros i Hi. rewrite Hv by lia. f_equal. lia. }
  destruct b.
  - destruct Hb as [jf Hjf]. rewrite Hjf in Hj. simpl in Hj.
    unfold loadObjectAndJournal.
    destruct (mergeJournal_spec fresh osz ltac:(lia) dir (mo_key o) s ob jf es thisOffset thisLength) as [br E]; try done; [by eapply Hfit|lia|].
    apply wp_bind. eapply run_wp; [exact E|]. wp_steps. split; [|done]. f_equal. apply zget_ext. intros i.
    rewrite zget_slice by lia. destruct (decide (0 <= i < thisLength)) as [Hi|Hi].
    + rewrite zget_merged by lia. zcase. rewrite Hv' by done.
      destruct (zget_is_Some bs (mo_offset o + thisOffset + i) ltac:(lia)) as [x Hx]. by rewrite Hx.
    + rewrite zget_None by (rewrite zlen_overlay, zlen_base; lia). zcase; done.
  - rewrite Hb in Hj. simpl in Hj. subst es. unfold loadObject.
    assert (contents (Obj dir (mo_key o)) s = ob) as Hc by (unfold contents; simpl; by rewrite Hf).
    pose proof (read_fully_spec (Obj dir (mo_key o)) thisOffset thisLength s Hrp Hto ltac:(lia)) as E. cbn zeta in E. rewrite Hc in E.
    assert (slice ob thisOffset thisLength = slice bs (mo_offset o + thisOffset) thisLength) as Es.
    { apply zget_ext. intros i. rewrite !zget_slice by lia. zcase; try done. by apply Hv'. }
    rewrite Es in E. rewrite zlen_slice in E by lia.
    rewrite (proj2 (Z.leb_le thisLength _)) in E by lia. apply wp_bind. eapply run_wp; [exact E|]. by wp_steps.
Qed.

(** Objects that are missing are brought in; nothing else changes. *)
Lemma cache_read_wp s dir keys : wp (cache_read dir keys) s (fun _ s' =>
  exists m c, s' = with_calls c (with_objs m s) /\ objs s ⊆ m /\
    (forall d k, m !! (d, k) <> objs s !! (d, k) -> d = dir /\ k ∈ keys) /\
    (forall d k, obase s' d k = obase s d k) /\
    (forall k, k ∈ keys -> is_Some (obase s dir k) -> is_Some (m !! (dir, k)))).
Proof.
  unfold cache_read, note. wp_steps.
  set (s1 := with_calls _ s).
  cut (forall done_ todo, keys = done_ ++ todo -> forall m, objs s ⊆ m ->
    (forall d k, m !! (d, k) <> objs s !! (d, k) -> d = dir /\ k ∈ done_) ->
    (forall d k, obase (with_objs m s) d k = obase s d k) ->
    (forall k, k ∈ done_ -> is_Some (obase s dir k) -> is_Some (m !! (dir, k))) ->
    wp (for_each todo (fun k => modify (fun s => match file_at (Obj dir k) s, cloud k with
        | None, Some bs => file_set (Obj dir k) bs s | _, _ => s end))) (with_objs m s1)
      (fun _ s' => exists m c, s' = with_calls c (with_objs m s) /\ objs s ⊆ m /\
        (forall d k, m !! (d, k) <> objs s !! (d, k) -> d = dir /\ k ∈ keys) /\
        (forall d k, obase s' d k = obase s d k) /\
        (forall k, k ∈ keys -> is_Some (obase s dir k) -> is_Some (m !! (dir, k))))).
  { intros Hcut. replace s1 with (with_objs (objs s) s1) by (by destruct s). 
    apply (Hcut [] keys); try done. intros k Hk. by apply not_elem_of_nil in Hk. }
  intros done_ todo. revert done_. induction todo as [|k todo IH]; intros done_ Hkeys m Hsub Hch Hob Hhave; cbn [for_each].
  { apply wp_ret. rewrite app_nil_r in Hkeys. subst done_. exists m, (calls s1). by split_and!. }
  wp_steps.
  assert (exists m', match file_at (Obj dir k) (with_objs m s1), cloud k with
      | None, Some bs => file_set (Obj dir k) bs (with_objs m s1) | _, _ => with_objs m s1 end = with_objs m' s1 /\
    objs s ⊆ m' /\ (forall d q, m' !! (d, q) <> objs s !! (d, q) -> d = dir /\ q ∈ done_ ++ [k]) /\
    (forall d q, obase (with_objs m' s) d q = obase s d q) /\
    (forall q, q ∈ done_ ++ [k] -> is_Some (obase s dir q) -> is_Some (m' !! (dir, q)))) as (m' & E & H1' & H2' & H3' & H4').
  { unfold file_at. simpl objs. destruct (m !! (dir, k)) as [f|] eqn:Hm.
    - exists m. split_and!; try done; [intros d q Hne; apply Hch in Hne as [-> Hq]; split; [done|]; apply elem_of_app; by left|].
      intros q [Hq|Hq%list_elem_of_singleton]%elem_of_app Hs; [by apply Hhave|]. subst q. by rewrite Hm.
    - destruct (cloud k) as [bs|] eqn:Hc.
      + exists (<[(dir, k) := bs]> m). split; [done|]. split; [|split; [|split]].
        * etrans; [exact Hsub|]. by apply insert_subseteq.
        * intros d q. destruct (decide ((d, q) = (dir, k))) as [Eq|Eq]; [simplify_eq; intros _; split; [done|]; apply elem_of_app; right; by apply list_elem_of_singleton|].
          rewrite lookup_insert_ne by done. intros Hne. apply Hch in Hne as [-> Hq]. split; [done|]. apply elem_of_app. by left.
        * intros d q. rewrite <- Hob. unfold obase. simpl. destruct (decide ((d, q) = (dir, k))) as [Eq|Eq].
          -- simplify_eq. by rewrite lookup_insert_eq, Hm, Hc.
          -- by rewrite lookup_insert_ne.
        * intros q [Hq|Hq%list_elem_of_singleton]%elem_of_app Hs.
          -- destruct (decide (q = k)) as [->|]; [by rewrite lookup_insert_eq|]. rewrite lookup_insert_ne by congruence. by apply Hhave.
          -- subst q. by rewrite lookup_insert_eq.
      + exists m. split_and!; try done; [intros d q Hne; apply Hch in Hne as [-> Hq]; split; [done|]; apply elem_of_app; by left|].
        intros q [Hq|Hq%list_elem_of_singleton]%elem_of_app Hs; [by apply Hhave|]. subst q. exfalso.
        rewrite <- Hob in Hs. unfold obase in Hs. simpl in Hs. rewrite Hm, Hc in Hs. by destruct Hs. }
  rewrite E. eapply (IH (done_ ++ [k])); try done. by rewrite <- app_assoc.
Qed.

Lemma open_all_wp dir keys : forall journals s, rplan s = [] -> (forall k, k ∈ keys -> is_Some (objs s !! (dir, k))) ->
  wp (open_all dir keys journals) s (fun r s' => exists e, s' = with_errno e s /\
    r = Some (journals ++ filter (fun k => is_Some (jrns s !! (dir, k))) keys)).
Proof.
  induction keys as [|k keys IH]; intros journals s Hrp Hobj; cbn [open_all].
  { apply wp_ret. exists (errno s). rewrite app_nil_r. split; [by destruct s|done]. }
  destruct (Hobj k ltac:(set_solver)) as [f Hf].
  destruct (jrns s !! (dir, k)) as [jf|] eqn:Hj.
  - apply wp_bind. eapply run_wp; [apply (sys_open_ok (Jrn dir k) s jf Hrp Hj)|]. wp_steps.
    change (0 <? 0) with false. cbn [andb].
    apply wp_bind. eapply run_wp; [apply (sys_open_ok (Obj dir k) s f Hrp Hf)|]. change (0 <? 0) with false. cbn beta iota.
    eapply wp_mono; [apply IH; [done|]; intros; apply Hobj; set_solver|]. intros r s' (e & -> & ->). exists e. split; [done|].
    rewrite filter_cons_True by (rewrite Hj; eauto). by rewrite <- app_assoc.
  - apply wp_bind. eapply (run_wp _ _ (-1) (with_errno ENOENT s)).
    { unfold sys_open, next_read, mbind, M_bind. rewrite Hrp. unfold gets. simpl. by rewrite Hj. }
    wp_steps. change (-1 <? 0) with true. change (negb (errno (with_errno ENOENT s) =? ENOENT)) with false. cbn [andb].
    apply wp_bind. eapply run_wp; [apply (sys_open_ok (Obj dir k) (with_errno ENOENT s) f Hrp Hf)|]. change (0 <? 0) with false. cbn beta iota.
    eapply wp_mono; [apply IH; [done|]; intros; simpl; apply Hobj; set_solver|]. intros r s' (e & -> & ->). exists e. split; [done|].
    rewrite filter_cons_False by (rewrite Hj; by intros []). done.
Qed.

Lemma read_objects_wp s dir t bs journals off len : rplan s = [] -> fits s -> rept s dir t bs ->
  0 <= off -> 0 < len -> off + len < 2 ^ 60 -> zlen bs < 2 ^ 61 ->
  forall l k data, run osz t k l (off + len) -> l <> [] ->
    (forall o, o ∈ l -> is_Some (objs s !! (dir, mo_key o)) /\ (mo_key o ∈ journals <-> is_Some (jrns s !! (dir, mo_key o)))) ->
    data = slice bs off (zlen data) ->
    zlen data = 0 /\ Z.of_nat k * osz <= off < Z.of_nat k * osz + osz \/
      0 < zlen data < len /\ off + zlen data = Z.of_nat k * osz ->
    wp (read_objects fresh dir journals off len l data) s (fun r s' => r = (true, slice bs off len) /\ s' = s).
Proof.
  intros Hrp Hfit (Ht & Hl & Hh) Hoff Hlen Hsum Hbs. induction l as [|o l IH]; intros k data (Ha & Hb & Hc) Hne Hfiles Hdata Hpos; [done|].
  cbn [read_objects]. pose proof (Ha 0%nat o ltac:(done)) as Hk. rewrite Nat.add_0_r in Hk.
  destruct (proj1 Ht k o Hk) as (Hoo & Hol & Hfull).
  pose proof (tree_length_bounds osz Hosz t Ht) as (Hb1 & Hb0 & _). pose proof (lookup_lt_Some _ _ _ Hk) as Hkn.
  assert (mo_offset o + mo_length o <= zlen bs /\ (~ (S k < length t)%nat -> mo_offset o + mo_length o = zlen bs)) as [Hin Hlast].
  { rewrite <- Hl. destruct (last_ok osz t Ht) as (lo & Elo & Hlo & Hloff & Hll); [by intros ->|].
    rewrite (tree_length_ok osz Hosz t lo Ht Elo). destruct (decide (S k < length t)%nat) as [Hlt|Hge].
    - specialize (Hfull Hlt). split; [|done]. nia.
    - replace (pred (length t)) with k in Hlo by lia. rewrite Hk in Hlo. simplify_eq. lia. }
  set (thisOffset := if zlen data =? 0 then i64 (off - mo_offset o) else 0).
  assert (thisOffset = off + zlen data - mo_offset o /\ 0 <= thisOffset < osz) as [Eto Hto].
  { unfold thisOffset. destruct Hpos as [[Hz Hp]|[Hz Hp]].
    - rewrite Hz. simpl. rewrite i64_small by lia. lia.
    - destruct (Z.eqb_spec (zlen data) 0); lia. }
  rewrite i64_small by lia. destruct (Z.leb_spec (mo_length o) thisOffset).
  { apply wp_ret. split; [|done]. f_equal.
    assert (~ (S k < length t)%nat) as Hnl by (intros Hlt; specialize (Hfull Hlt); lia). specialize (Hlast Hnl).
    destruct Hpos as [[Hz Hp]|[Hz Hp]]; [|lia].
    rewrite (zlen_nil_inv data) by lia. symmetry. apply zlen_nil_inv. rewrite zlen_slice by lia. lia. }
  rewrite !u64_small by lia. set (tl := Z.min (mo_length o - thisOffset) (len - zlen data)).
  destruct (Hfiles o ltac:(set_solver)) as [Hobj Hjr].
  apply wp_bind. eapply wp_mono.
  { eapply (load_wp s dir bs o thisOffset tl); try done; try lia; [by eapply Hh|].
    destruct (bool_decide (mo_key o ∈ journals)) eqn:Eb.
    - apply bool_decide_eq_true in Eb. by apply Hjr.
    - apply bool_decide_eq_false in Eb. destruct (jrns s !! (dir, mo_key o)) eqn:Ej; [|done]. exfalso. apply Eb, Hjr. eauto. }
  intros r s' [-> ->]. change (negb (0 =? 0)) with false. cbn beta iota.
  replace (mo_offset o + thisOffset) with (off + zlen data) by lia.
  assert (data ++ slice bs (off + zlen data) tl = slice bs off (zlen data + tl)) as Enext.
  { rewrite Hdata at 1. apply zget_ext. intros i. pose proof (zlen_nonneg data). rewrite zget_app, !zget_slice, zlen_slice by lia.
    zcase; try done; try (f_equal; lia). }
  assert (zlen (slice bs off (zlen data + tl)) = zlen data + tl) as Ezn.
  { pose proof (zlen_nonneg data). rewrite zlen_slice by lia. lia. }
  rewrite Enext. destruct l as [|x l].
  - cbn [read_objects]. apply wp_ret. split; [|done]. f_equal.
    destruct (decide (len - zlen data <= mo_length o - thisOffset)) as [|Hmore].
    { f_equal. lia. }
    assert (mo_offset o + mo_length o = zlen bs) as Hend.
    { apply Hlast. intros Hlt. specialize (Hfull Hlt). simpl in Hb. destruct Hb as [Hb|Hb]; nia. }
    apply zget_ext. intros i. pose proof (zlen_nonneg data). rewrite !zget_slice by lia. zcase; try done.
    symmetry. apply zget_beyond. lia.
  - assert (Z.of_nat k * osz + osz < off + len) as Hstart.
    { specialize (Hc 1%nat ltac:(simpl; lia)). lia. }
    assert (mo_length o = osz) as Hf.
    { apply Hfull. specialize (Ha 1%nat x ltac:(done)). apply lookup_lt_Some in Ha. lia. }
    apply (IH (S k)); try done.
    + split; [|split].
      * intros i y Hi. specialize (Ha (S i) y Hi). by rewrite Nat.add_succ_r in Ha.
      * simpl length in *. by rewrite Nat.add_succ_r in Hb.
      * intros i Hi. specialize (Hc (S i) ltac:(simpl in *; lia)). by rewrite Nat.add_succ_r in Hc.
    + intros y Hy. apply Hfiles. set_solver.
    + by rewrite Ezn.
    + right. rewrite Ezn. lia.
Qed.

(** A read returns the bytes of the range, up to the end of the file. *)
Lemma read_wp name bs off len s : sm_ok s -> device_ok s -> fits s -> rep s name bs ->
  0 <= off -> 0 < len -> off + len < 2 ^ 60 ->
  wp (read osz fresh name off len) s (fun r s' =>
    r = (zlen (slice bs off len), slice bs off len) /\ sm_ok s' /\ device_ok s' /\ fits s' /\
    disk s' = disk s /\ forall n x, rep s n x -> rep s' n x).
Proof.
  intros Hok Hdev Hfit (t & Hd & Hr) Hoff Hlen Hsum. pose proof Hr as (Ht & Hl & _).
  pose proof (tree_length_bounds osz Hosz t Ht) as (Hb1 & Hb0 & _).
  assert (zlen bs < 2 ^ 61) as Hbs by (destruct Ht; lia).
  unfold read. apply wp_bind. eapply wp_mono; [by eapply open_working|]. intros md s1 ([Hb Hr1] & Ho1 & Hj1).
  rewrite (proj2 (w_md _ _ _ _ _ _ Hb)). cbn [negb].
  unfold metadataRead. apply wp_bind, wp_gets. rewrite (busy_jsontree _ _ _ _ _ _ Hb).
  set (rel := tree_read osz t off len).
  assert (forall o, o ∈ rel -> o ∈ t) as Hrel.
  { destruct (tree_read_run osz Hosz t off len Ht Hoff Hlen ltac:(lia)) as [[_ E]|(o & l & E & Hk & Ha & _)]; unfold rel; rewrite E.
    - intros o Ho. by apply not_elem_of_nil in Ho.
    - intros x [i Hi]%list_elem_of_lookup. apply Ha in Hi. by eapply list_elem_of_lookup_2. }
  apply wp_bind. eapply wp_mono; [apply cache_read_wp|]. intros u s2 (m & c & -> & Hsub & Hch & Hobs & Hhave).
  set (s2 := with_calls c (with_objs m s1)) in *.
  assert (forall k, k ∈ mo_key <$> rel -> is_Some (objs s2 !! (first_dir name, k))) as Hpresent.
  { intros k Hk. simpl. apply Hhave; [done|]. apply list_elem_of_fmap in Hk as (o & -> & Ho).
    apply Hrel in Ho. apply list_elem_of_lookup in Ho as [i Hi]. destruct Hr1 as (_ & _ & Hh).
    destruct (Hh i o Hi) as (ob & es & -> & _). eauto. }
  destruct (w_dev _ _ _ _ _ _ Hb) as [Hclean Hrp].
  apply wp_bind. eapply wp_mono; [apply (open_all_wp (first_dir name) _ [] s2 Hrp Hpresent)|].
  intros r s3 (e & -> & ->). set (s3 := with_errno e s2).
  assert (wp (read_objects fresh (first_dir name) (filter (fun k => is_Some (jrns s2 !! (first_dir name, k))) (mo_key <$> rel)) off len rel []) s3
    (fun r s' => r = (true, slice bs off len) /\ s' = s3)) as Hread.
  { destruct (tree_read_run osz Hosz t off len Ht Hoff Hlen ltac:(lia)) as [[Hge E]|(o & l & E & Hk & Hrun)].
    - unfold rel. rewrite E. apply wp_ret. split; [|done]. f_equal. symmetry. apply zlen_nil_inv.
      rewrite zlen_slice by lia. pose proof (object_of off Hoff). nia.
    - assert (wp (read_objects fresh (first_dir name) (filter (fun k => is_Some (jrns s2 !! (first_dir name, k))) (mo_key <$> rel)) off len rel []) s3
        (fun r s' => r = (true, slice bs off len) /\ s' = s3)) as Hx; [|exact Hx].
      eapply (read_objects_wp s3 (first_dir name) t bs _ off len) with (k := Z.to_nat (off / osz)); try done; try lia.
      + intros d k f. simpl. rewrite Hj1. apply Hfit.
      + eapply rept_obase; [exact Hr1| |done]. intros k. apply (Hobs (first_dir name) k).
      + unfold rel. rewrite E. exact Hrun.
      + unfold rel. by rewrite E.
      + intros x Hx. split; [apply (Hpresent (mo_key x)), list_elem_of_fmap_2, Hx|].
        rewrite list_elem_of_filter. split; [by intros []|]. intros Hs. split; [done|]. by apply list_elem_of_fmap_2.
      + left. split; [done|]. by apply object_of. }
  apply wp_bind. eapply wp_mono; [exact Hread|]. intros r s4 [-> ->]. unfold note. wp_steps. cbn [negb andb].
  apply wp_ret. split; [done|].
  pose proof Hb as [[Hn He] Hlk Hca Hdk Hnd Hkeys Hdom Hu _ _].
  split; [|split; [done|split; [|split; [done|]]]].
  - split; simpl.
    + intros n x Hx. rewrite Hdk. destruct (decide (n = name)) as [->|Hne]; [|by eapply Hca]. congruence.
    + rewrite Hdk. apply (ok_own s Hok).
    + rewrite Hdk. apply (ok_nodup s Hok).
    + intros n x o Hx Hox. rewrite Hdk in Hx. eapply used_mono; [exact Hu|]. by eapply (ok_used s Hok).
    + intros d k [Hs|Hs]; [|apply (Hdom d); by right].
      destruct (decide (m !! (d, k) = objs s1 !! (d, k))) as [Eq|Eq]; [apply (Hdom d); left; by rewrite <- Eq|].
      apply Hch in Eq as [-> Hk]. apply Hkeys. apply list_elem_of_fmap in Hk as (o & -> & Ho). by apply list_elem_of_fmap_2, Hrel.
  - intros d k f. simpl. rewrite Hj1. apply Hfit.
  - intros n x (tx & Hx & Hrx). exists tx. split; [simpl; by rewrite Hdk|].
    eapply rept_obase; [exact Hrx| |done]. intros k. etrans; [apply (Hobs (first_dir n) k)|]. unfold obase. by rewrite Ho1.
Qed.

(** ** append *)

Lemma append_objects_wp name s0 t0 data bs0 : 0 < zlen data -> zlen bs0 + zlen data < 2 ^ 60 ->
  forall fuel count keys t s md,
    working name s0 t0 s md t (bs0 ++ take (Z.to_nat count) data) -> 0 <= count <= zlen data ->
    (count = zlen data \/ zlen bs0 + count = Z.of_nat (length t) * osz) -> zlen data - count < Z.of_nat fuel ->
    wp (append_objects osz fuel (first_dir name) name data md keys count) s (fun r s' =>
      exists md' t' keys', r = inr (md', keys', zlen data) /\ working name s0 t0 s' md' t' (bs0 ++ data)).
Proof.
  intros Hdata Hsum. induction fuel as [|fuel IH]; intros count keys t s md Hw Hcount Hat Hfuel; [lia|].
  cbn [append_objects]. destruct (Z.leb_spec (zlen data - count) 0).
  { apply wp_ret. exists md, t, keys. split; [do 2 f_equal; lia|]. by rewrite take_ge in Hw by (unfold zlen in *; lia). }
  destruct Hat as [->|Hat]; [lia|].
  set (wl := Z.min osz (zlen data - count)).
  assert (zlen (slice data count wl) = wl) as Hzs by (rewrite zlen_slice; lia).
  assert (zlen (bs0 ++ take (Z.to_nat count) data) = zlen bs0 + count) as Hz by (rewrite zlen_app, zlen_take; lia).
  pose proof (new_working _ _ _ _ _ _ _ 0 (slice data count wl) Hw ltac:(lia) ltac:(lia) ltac:(lia) ltac:(lia) ltac:(lia)) as Hnew.
  rewrite Hzs, Z.add_0_r, u64_small in Hnew by lia.
  apply wp_bind. eapply wp_mono; [exact Hnew|]. intros [o md2] s2. simpl fst. simpl snd. intros Hobj.
  apply wp_bind. eapply wp_mono; [exact Hobj|]. intros err s3 [-> Hw3].
  rewrite Z.ltb_irrefl. destruct (Z.ltb_spec wl 0); [lia|]. destruct (Z.eqb_spec wl 0); [lia|].
  unfold note. wp_steps. eapply IH; [|lia| |lia].
  - specialize (Hw3 (calls s3 ++ [Cache_newObject (first_dir name) (mo_key o) wl])). simpl in Hw3.
    rewrite <- app_assoc, take_slice in Hw3 by lia. exact Hw3.
  - destruct (decide (count + wl = zlen data)); [by left|]. right. rewrite length_app. simpl length. lia.
Qed.

Lemma append_out_wp name s t0 s1 md t bs keys count : sm_ok s -> disk s !! name = Some t0 -> working name s t0 s1 md t bs ->
  wp (append_out (first_dir name) md keys count) s1 (fun r s' => r = count /\ stays name s s' /\ rep s' name bs).
Proof.
  intros Hok Hd Hw. unfold append_out, note. wp_steps. eapply working_calls in Hw.
  eapply wp_mono; [by eapply update_wp|]. intros u s2 (_ & Hst & Hrep). wp_steps. split; [done|].
  split; [by apply stays_calls|]. exact Hrep.
Qed.

Lemma append_wp name bs data s : sm_ok s -> device_ok s -> rep s name bs -> data <> [] -> zlen bs + zlen data < 2 ^ 60 ->
  wp (append osz name data) s (fun r s' => r = zlen data /\ stays name s s' /\ rep s' name (bs ++ data)).
Proof.
  intros Hok Hdev (t & Hd & Hr) Hne Hsum. pose proof Hr as (Ht & Hl & _).
  assert (0 < zlen data) as Hpos by (destruct data; [done|unfold zlen; simpl; lia]).
  unfold append. apply wp_bind. eapply wp_mono; [by eapply open_working|]. intros md s1 [Hw _]. pose proof Hw as [Hb _].
  rewrite (proj2 (w_md _ _ _ _ _ _ Hb)). cbn [negb].
  unfold getLength. apply wp_bind, wp_gets. rewrite (busy_jsontree _ _ _ _ _ _ Hb).
  unfold metadataRead. apply wp_bind, wp_gets. rewrite (busy_jsontree _ _ _ _ _ _ Hb). apply wp_bind.
  eapply (wp_mono _ _ (fun r s' => exists md' t' count, r = inr (md', count, false) /\
    working name s t s' md' t' (bs ++ take (Z.to_nat count) data) /\ 0 <= count <= zlen data /\
    (count = zlen data \/ zlen bs + count = Z.of_nat (length t') * osz))).
  - destruct (tree_read_end t (zlen data) Ht Hpos ltac:(lia)) as [[Hfull ->]|(lo & -> & Hk & Hnil & Etl & Hloff & Hll)].
    + apply wp_ret. exists md, t, 0. simpl. rewrite app_nil_r. split_and!; try done; lia.
    + unfold append_last. rewrite (u64_small (osz - _)) by lia. destruct (Z.ltb_spec 0 (osz - mo_length lo)); [|lia].
      set (wl := Z.min (osz - mo_length lo) (zlen data)).
      assert (zlen (slice data 0 wl) = wl) as Hzs by (rewrite zlen_slice; lia).
      apply wp_bind. eapply wp_mono; [eapply (journal_working _ _ _ _ _ _ _ (pred (length t)) lo (mo_length lo) _ Hw Hk); lia|].
      intros err s2 [-> Hnext]. rewrite Hzs in *. destruct (Z.ltb_spec wl 0); [lia|].
      destruct (Z.ltb_spec (mo_length lo) (u64 (wl + mo_length lo))) as [_|Hno]; [|rewrite u64_small in Hno; lia].
      apply wp_bind. eapply wp_mono; [exact Hnext|]. intros md' s3 Hw3. clear Hnext.
      unfold note_entry, note. wp_steps. rewrite Z.ltb_irrefl. eexists md', _, wl. split; [done|].
      split; [do 2 apply working_calls|].
      { replace (mo_offset lo + mo_length lo) with (zlen bs) in Hw3 by lia. rewrite splice_at_end in Hw3. exact Hw3. }
      rewrite length_insert. lia.
  - intros r s2 (md2 & t2 & count & -> & Hw2 & Hc & Hat). apply wp_bind.
    eapply wp_mono; [eapply (append_objects_wp _ _ _ _ _ Hpos Hsum _ _ _ _ _ _ Hw2 Hc Hat)|].
    { unfold zlen in *. lia. }
    intros r s3 (md3 & t3 & keys & -> & Hw3). by eapply append_out_wp.
Qed.

(** ** truncate, creation and deletion *)

Lemma tree_remove_mid (l r : list metadataObject) x : (forall y, y ∈ l -> mo_offset y <> mo_offset x) ->
  tree_remove (mo_offset x) (l ++ x :: r) = l ++ r.
Proof.
  induction l as [|y l IH]; intros Hl; simpl; [by rewrite Z.eqb_refl|].
  destruct (Z.eqb_spec (mo_offset y) (mo_offset x)) as [E|E]; [by apply Hl in E; [|set_solver]|].
  rewrite IH; [done|]. intros z Hz. apply Hl. set_solver.
Qed.

(** Fewer objects. *)
Lemma busy_fewer name s0 t0 s md t t' : busy name s0 t0 s md t -> sublist t' t ->
  wp (set_jsontree md t') s (fun md' s' => busy name s0 t0 s' md' t' /\ objs s' = objs s /\ jrns s' = jrns s).
Proof.
  intros Hb Hsub. assert (sublist (mo_key <$> t') (mo_key <$> t)) as Hk by (by apply fmap_sublist).
  apply (set_jsontree_busy name s0 t0 s md t t' Hb).
  - eapply sublist_NoDup; [apply (w_nodup _ _ _ _ _ _ Hb)|exact Hk].
  - intros k Hin. apply (w_keys _ _ _ _ _ _ Hb). by eapply elem_of_sublist.
Qed.

Lemma remove_all_wp name s0 t0 O J l : forall rest (m : M st MetadataFile) s,
  (forall x y, x ∈ rest -> y ∈ l -> mo_offset y <> mo_offset x) ->
  wp m s (fun md s' => busy name s0 t0 s' md (l ++ rest) /\ objs s' = O /\ jrns s' = J) ->
  wp (foldl (fun m x => meta ← m; removeEntry meta (mo_offset x)) m rest) s
    (fun md s' => busy name s0 t0 s' md l /\ objs s' = O /\ jrns s' = J).
Proof.
  induction rest as [|x rest IH]; intros m s Hdis Hm; cbn [foldl]; [by rewrite app_nil_r in Hm|].
  apply IH; [intros; apply Hdis; [set_solver|done]|].
  apply wp_bind. eapply wp_mono; [exact Hm|]. intros md s1 (Hb & Ho & Hj).
  unfold removeEntry. apply wp_bind, wp_gets. rewrite (busy_jsontree _ _ _ _ _ _ Hb).
  rewrite tree_remove_mid by (intros y Hy; apply Hdis; [set_solver|done]).
  eapply wp_mono; [eapply busy_fewer; [exact Hb|]|].
  { apply sublist_app; [done|]. by constructor. }
  intros md' s2 (Hb2 & Ho2 & Hj2). split; [done|]. by rewrite Ho2, Hj2.
Qed.

(** The files of objects that are no longer needed. *)
Lemma delete_objects_wp dir keys : forall s, wp (for_each keys (delete_object dir)) s (fun _ s' =>
  exists O J c, s' = with_calls c (with_objs O (with_jrns J s)) /\ O ⊆ objs s /\ J ⊆ jrns s /\
    forall d k, ~ (d = dir /\ k ∈ keys) -> O !! (d, k) = objs s !! (d, k) /\ J !! (d, k) = jrns s !! (d, k)).
Proof.
  induction keys as [|k keys IH]; intros s; cbn [for_each].
  { apply wp_ret. exists (objs s), (jrns s), (calls s). split; [by destruct s|done]. }
  apply wp_bind.
  eapply (wp_mono _ _ (fun _ s' => exists c, s' = with_calls c (with_objs (delete (dir, k) (objs s)) (with_jrns (delete (dir, k) (jrns s)) s)))).
  - unfold delete_object, ifExistsThenDelete, note, remove. wp_steps. cbn [file_at objs jrns with_calls].
    destruct (objs s !! (dir, k)) as [f|] eqn:Ho; destruct (jrns s !! (dir, k)) as [g|] eqn:Hj;
      repeat first [rewrite bool_decide_eq_true_2 by eauto | rewrite bool_decide_eq_false_2 by (by intros [])];
      repeat match goal with
      | |- context [Z.testbit ?a ?b] => let v := eval vm_compute in (Z.testbit a b) in change (Z.testbit a b) with v
      end; cbn beta iota; wp_steps; eexists; unfold with_calls, with_objs, with_jrns; cbn -[delete];
      rewrite ?(delete_id (objs s)), ?(delete_id (jrns s)) by done; reflexivity.
  - intros u s1 [c ->]. eapply wp_mono; [apply IH|]. intros u' s2 (O & J & c2 & -> & HO & HJ & Hsame). simpl in HO, HJ, Hsame.
    exists O, J, c2. split; [done|]. split; [etrans; [exact HO|apply delete_subseteq]|].
    split; [etrans; [exact HJ|apply delete_subseteq]|]. intros d q Hout.
    destruct (Hsame d q) as [E1 E2]; [intros [-> Hq]; apply Hout; split; [done|]; by constructor|].
    rewrite E1, E2, !lookup_delete_ne; [done|..]; intros Eq; apply Hout; simplify_eq; (split; [done|constructor]).
Qed.

(** The objects of a shortened file. *)
Lemma rept_take s dir t bs k o n : rept s dir t bs -> t !! k = Some o -> mo_offset o <= n < mo_offset o + mo_length o ->
  rept s dir (if n =? mo_offset o then take k t else take k t ++ [set_length (n - mo_offset o) o]) (take (Z.to_nat n) bs).
Proof.
  intros (Ht & Hl & Hh) Hk Hn. pose proof (lookup_lt_Some _ _ _ Hk) as Hlt.
  destruct (proj1 Ht k o Hk) as (Hoo & Hol & Hfull).
  pose proof (tree_length_bounds osz Hosz t Ht) as (Hb1 & Hb0 & _). rewrite Hl in *.
  assert (n <= zlen bs) as Hnb.
  { destruct (decide (S k < length t)%nat); [nia|].
    destruct (last_ok osz t Ht) as (lo & Elo & Hlo & Hloff & Hll); [by intros ->|].
    replace (pred (length t)) with k in Hlo by lia. rewrite Hk in Hlo. simplify_eq.
    rewrite <- Hl, (tree_length_ok osz Hosz t lo Ht Elo). nia. }
  assert (Z.of_nat (length (take k t)) = Z.of_nat k) as Hlk by (rewrite length_take; lia).
  assert (tree_ok osz (take k t)) as Htk.
  { split; [|destruct Ht; nia]. intros i x Hi. apply lookup_take_Some in Hi as [Hi Hik].
    destruct (proj1 Ht i x Hi) as (H1' & H2' & H3'). split; [done|]. split; [done|]. intros _. apply H3'. lia. }
  assert (tree_length (take k t) = Z.of_nat k * osz) as Hlen.
  { destruct k as [|k]; [done|]. destruct (last_ok osz _ Htk) as (lo & Elo & Hlo & _); [by destruct t|].
    rewrite (tree_length_ok osz Hosz _ lo Htk Elo), Hlk. rewrite length_take in Hlo.
    replace (pred (S k `min` length t)) with k in Hlo by lia. apply lookup_take_Some in Hlo as [Hlo _].
    destruct (proj1 Ht k lo Hlo) as (_ & _ & Hf). rewrite Hf by lia. lia. }
  assert (zlen (take (Z.to_nat n) bs) = n) as Hzt by (rewrite zlen_take; nia).
  assert (forall x, held s dir bs x -> mo_offset x + mo_length x <= n -> held s dir (take (Z.to_nat n) bs) x) as Hheld.
  { intros x (ob & es & H1' & H2' & Hv) Hx. exists ob, es. split; [done|]. split; [done|]. intros j Hj.
    rewrite Hv, zget_take_if by done. zcase; done. }
  destruct (Z.eqb_spec n (mo_offset o)) as [->|Hne].
  - split; [done|]. split; [by rewrite Hlen, Hzt|]. intros i x Hi. apply lookup_take_Some in Hi as [Hi Hik].
    apply Hheld; [by eapply Hh|]. destruct (proj1 Ht i x Hi) as (H1' & H2' & _). nia.
  - assert (tree_ok osz (take k t ++ [set_length (n - mo_offset o) o])) as Ht'.
    { apply tree_ok_snoc; simpl mo_offset; simpl mo_length; try done; rewrite ?Hlk; try lia. destruct Ht. nia. }
    split; [done|]. split; [rewrite (tree_length_snoc osz Hosz _ _ Ht'), Hlk, Hzt; simpl mo_length; lia|].
    intros i x [Hi|[_ Hi]]%lookup_app_Some.
    + apply lookup_take_Some in Hi as [Hi Hik]. apply Hheld; [by eapply Hh|].
      destruct (proj1 Ht i x Hi) as (H1' & H2' & _). nia.
    + destruct (_ - _)%nat in Hi; simpl in Hi; [|done]. simplify_eq.
      destruct (Hh k o Hk) as (ob & es & H1' & H2' & Hv). exists ob, es. split; [done|]. split; [done|].
      simpl mo_length. simpl mo_offset. intros j Hj. rewrite Hv by lia. rewrite zget_take_if. zcase. done.
Qed.

(** Opening the metadata changes nothing that matters. *)
Lemma opened_ok name s t s1 md : sm_ok s -> disk s !! name = Some t -> busy name s t s1 md t ->
  objs s1 = objs s -> jrns s1 = jrns s ->
  sm_ok s1 /\ device_ok s1 /\ disk s1 = disk s /\ forall n x, rep s n x -> rep s1 n x.
Proof.
  intros Hok Hd [[Hn He] Hlk Hca Hdk Hnd Hkeys Hdom Hu Hf Hdev] Ho Hj. split; [|split; [done|split; [done|]]].
  - split; rewrite ?Hdk; try done; try apply Hok.
    + intros n x Hx. destruct (decide (n = name)) as [->|Hne]; [congruence|by eapply Hca].
    + intros n x o Hx Hox. eapply used_mono; [exact Hu|]. by eapply (ok_used s Hok).
  - intros n x (tx & Hx & Hrx). exists tx. rewrite Hdk. split; [done|]. eapply rept_frame; [exact Hrx|].
    intros o _. by rewrite Ho, Hj.
Qed.

Lemma stays_from name s s1 s' : disk s1 = disk s -> (forall n x, rep s n x -> rep s1 n x) -> stays name s1 s' -> stays name s s'.
Proof. intros Hd Hr (Hok & Hdev & Hd' & Hr'). rewrite Hd in Hd'. split_and!; try done. intros n x Hne Hx. by apply Hr', Hr. Qed.

(** All objects from the one that holds byte [n] on. *)
Lemma tree_read_tail t n : tree_ok osz t -> 0 <= n < tree_length t ->
  exists k o l, t !! k = Some o /\ t = take k t ++ o :: l /\ tree_read osz t n (tree_length t - n) = o :: l /\
    mo_offset o <= n < mo_offset o + mo_length o.
Proof.
  intros Ht Hn. pose proof (tree_length_bounds osz Hosz t Ht) as (Hb1 & Hb0 & Hb2).
  assert (Hbound : Z.of_nat (length t) * osz < 2 ^ 61) by apply Ht.
  pose proof (object_of n ltac:(lia)) as Hobj. set (k := Z.to_nat (n / osz)) in *.
  destruct (tree_read_run osz Hosz t n (tree_length t - n) Ht ltac:(lia) ltac:(lia) ltac:(lia)) as [[Hge _]|(o & l & E & Hk & Ha & Hb & _)].
  { exfalso. fold k in Hge. nia. }
  fold k in Hk, Ha, Hb. exists k, o, l.
  assert (t <> []) as Hne by (by intros ->). specialize (Hb2 Hne). pose proof (lookup_lt_Some _ _ _ Hk) as Hlt.
  assert (k + length (o :: l) = length t)%nat as Hlen.
  { destruct Hb as [Hb|Hb]; [done|].
    assert ((k + length (o :: l))%nat <= length t)%nat as Hle.
    { destruct (lookup_lt_is_Some_2 (o :: l) (length l) ltac:(simpl; lia)) as [x Hx]. apply Ha, lookup_lt_Some in Hx. simpl. lia. }
    nia. }
  assert (o :: l = drop k t) as Edrop.
  { apply list_eq_same_length with (n := length (o :: l)); [by rewrite length_drop; lia|done|].
    intros i x y _ Hi Hy. apply Ha in Hi. rewrite lookup_drop in Hy. congruence. }
  split; [done|]. split; [rewrite Edrop; by rewrite take_drop|]. split; [done|].
  destruct (proj1 Ht k o Hk) as (Hoo & Hol & Hfull). split; [lia|].
  destruct (decide (S k < length t)%nat); [rewrite Hfull by done; lia|].
  destruct (last_ok osz t Ht Hne) as (lo & Elo & Hlo & Hloff & Hll).
  replace (pred (length t)) with k in Hlo by lia. rewrite Hk in Hlo. simplify_eq.
  rewrite (tree_length_ok osz Hosz t lo Ht Elo) in Hn. nia.
Qed.

Lemma offsets_differ t i j o o' : tree_ok osz t -> t !! i = Some o -> t !! j = Some o' -> i <> j -> mo_offset o <> mo_offset o'.
Proof. intros [Ht _] Hi Hj Hne. destruct (Ht i o Hi) as [-> _], (Ht j o' Hj) as [-> _]. nia. Qed.

(** The metadata of a shortened file, step by step. *)
Lemma shorten_wp name s t s1 md k o l n : busy name s t s1 md t -> tree_ok osz t -> t !! k = Some o -> t = take k t ++ o :: l ->
  mo_offset o <= n < mo_offset o + mo_length o -> n < 2 ^ 60 ->
  let t' := if n =? mo_offset o then take k t else take k t ++ [set_length (n - mo_offset o) o] in
  wp (meta ← (if n =? mo_offset o then removeEntry md (mo_offset o)
              else updateEntryLength md (mo_offset o) (u64 (n - mo_offset o)));
      foldl (fun m x => meta ← m; removeEntry meta (mo_offset x)) (mret meta) l) s1
    (fun md' s' => busy name s t s' md' t' /\ objs s' = objs s1 /\ jrns s' = jrns s1).
Proof.
  intros Hb Ht Hk Hsplit Hn Hbound t'. pose proof (lookup_lt_Some _ _ _ Hk) as Hlt.
  assert (0 <= mo_offset o) as Ho0 by (destruct (proj1 Ht k o Hk) as [-> _]; nia).
  assert (forall i y, take k t !! i = Some y -> t !! i = Some y /\ (i < k)%nat) as Htake.
  { intros i y Hi. by apply lookup_take_Some in Hi. }
  assert (forall i x, l !! i = Some x -> t !! (S k + i)%nat = Some x) as Hrest.
  { intros i x Hi. rewrite Hsplit, lookup_app_r by (rewrite length_take; lia). rewrite length_take.
    replace (S k + i - k `min` length t)%nat with (S i) by lia. done. }
  assert (forall y, y ∈ take k t -> mo_offset y <> mo_offset o) as Hbefore.
  { intros y [i [Hi Hik]%Htake]%list_elem_of_lookup. eapply offsets_differ; eauto. lia. }
  assert (forall x y, x ∈ l -> y ∈ t' -> mo_offset y <> mo_offset x) as Hdis.
  { intros x y [j Hj]%list_elem_of_lookup Hy. apply Hrest in Hj.
    assert (exists i z, t !! i = Some z /\ (i <= k)%nat /\ mo_offset y = mo_offset z) as (i & z & Hi & Hik & ->).
    { unfold t' in Hy. destruct (n =? mo_offset o).
      - apply list_elem_of_lookup in Hy as [i [Hi Hik]%Htake]. exists i, y. split_and!; [done|lia|done].
      - apply elem_of_app in Hy as [Hy| ->%list_elem_of_singleton].
        + apply list_elem_of_lookup in Hy as [i [Hi Hik]%Htake]. exists i, y. split_and!; [done|lia|done].
        + exists k, o. split_and!; done. }
    eapply offsets_differ; eauto. lia. }
  apply wp_bind. eapply (wp_mono _ _ (fun md' s' => busy name s t s' md' (t' ++ l) /\ objs s' = objs s1 /\ jrns s' = jrns s1)).
  2: { intros md2 s2 Hb2. apply remove_all_wp; [done|]. by apply wp_ret. }
  unfold t'. destruct (Z.eqb_spec n (mo_offset o)).
  - unfold removeEntry. apply wp_bind, wp_gets. rewrite (busy_jsontree _ _ _ _ _ _ Hb). rewrite Hsplit at 1.
    rewrite tree_remove_mid by done. eapply busy_fewer; [exact Hb|]. rewrite Hsplit at 2.
    apply sublist_app; [done|]. by constructor.
  - unfold updateEntryLength, update_or_throw. apply wp_bind, wp_gets. rewrite (busy_jsontree _ _ _ _ _ _ Hb).
    rewrite (tree_update_ok osz Hosz _ t k o Ht Hk), u64_small by lia.
    assert (<[k := set_length (n - mo_offset o) o]> t = (take k t ++ [set_length (n - mo_offset o) o]) ++ l) as E.
    { rewrite Hsplit at 1. rewrite insert_app_r_alt by (rewrite length_take; lia). rewrite length_take.
      replace (k - k `min` length t)%nat with 0%nat by lia. by rewrite <- app_assoc. }
    change (mkObject (mo_offset o) (n - mo_offset o) (mo_key o)) with (set_length (n - mo_offset o) o). rewrite E.
    apply (set_jsontree_busy _ _ _ _ _ _ _ Hb); rewrite <- E, keys_insert_length by done.
    + apply (w_nodup _ _ _ _ _ _ Hb).
    + apply (w_keys _ _ _ _ _ _ Hb).
Qed.

Lemma keys_shorten t k o l n (t' := if n =? mo_offset o then take k t else take k t ++ [set_length (n - mo_offset o) o]) :
  t = take k t ++ o :: l ->
  mo_key <$> t = (mo_key <$> t') ++ (mo_key <$> (if n =? mo_offset o then o :: l else l)).
Proof.
  intros Hsplit. unfold t'. rewrite Hsplit at 1. destruct (n =? mo_offset o); rewrite !fmap_app; [done|].
  simpl. by rewrite <- app_assoc.
Qed.

(** The metadata is written and the files of the dropped objects are removed. *)
Lemma drop_files_wp name s t s1 md t' keys bs : sm_ok s -> disk s !! name = Some t -> busy name s t s1 md t' ->
  rept s1 (first_dir name) t' bs -> (forall k, k ∈ keys -> k ∈ mo_key <$> t /\ k ∉ mo_key <$> t') ->
  wp (updateMetadata md) s1 (fun r s2 => r.1 = 0 /\
    wp (for_each keys (delete_object (first_dir name))) s2 (fun _ s' => stays name s s' /\ rep s' name bs)).
Proof.
  intros Hok Hd Hb Hr Hkeys. pose proof Hb as [[Hn He] Hlk Hca Hdk Hnd Hk Hdom Hu Hf Hdev].
  unfold updateMetadata, writeMetadata. apply wp_bind, wp_gets. rewrite (busy_jsontree _ _ _ _ _ _ Hb).
  apply wp_bind, wp_modify, wp_bind. unfold cache_put. apply wp_modify. rewrite Hn. simpl jlookup. rewrite Hlk.
  apply wp_ret. split; [done|]. eapply wp_mono; [apply delete_objects_wp|].
  intros u s' (O & J & c & -> & HO & HJ & Hsame). simpl in HO, HJ, Hsame. split.
  - eapply close_ok; [exact Hok|exact Hd|exact Hb|try done..].
    + intros d q. simpl. intros [[x Hx]|[x Hx]]; apply (Hdom d q); [left|right]; exists x; by eapply lookup_weaken.
    + intros d q Hused Hout. simpl. destruct (Hsame d q) as [-> ->]; [|by apply Hf].
      intros [-> Hq]. apply Hout. split; [done|]. by apply Hkeys.
  - exists t'. split; [simpl; by rewrite lookup_insert_eq|]. eapply rept_frame; [exact Hr|]. intros o Ho. simpl. apply Hsame.
    intros [_ Hq]. apply Hkeys in Hq as [_ Hq]. by apply Hq, list_elem_of_fmap_2.
Qed.

Lemma truncate_wp name bs n s : sm_ok s -> device_ok s -> rep s name bs -> 0 <= n < 2 ^ 60 - 1 ->
  n <= zlen bs + 1 \/ round_up (zlen bs) < n ->
  wp (truncate osz name n) s (fun r s' => r = 0 /\ stays name s s' /\ rep s' name (resize_to bs n)).
Proof.
  intros Hok Hdev (t & Hd & Hr) Hn Hwhere. pose proof Hr as (Ht & Hl & _).
  unfold truncate, truncate_file. apply wp_bind. eapply wp_mono; [by eapply open_working|].
  intros md s1 ([Hb Hr1] & Ho1 & Hj1). rewrite (proj2 (w_md _ _ _ _ _ _ Hb)). cbn [negb].
  destruct (opened_ok name s t s1 md Hok Hd Hb Ho1 Hj1) as (Hok1 & Hdev1 & Hd1 & Hrep1).
  unfold getLength. apply wp_bind, wp_gets. rewrite (busy_jsontree _ _ _ _ _ _ Hb), Hl.
  destruct (Z.eqb_spec (zlen bs) n) as [<-|Hne].
  { apply wp_ret. split; [done|]. split; [split_and!; try done; [by rewrite Hd1|intros; by apply Hrep1]|].
    replace (resize_to bs (zlen bs)) with bs; [by apply Hrep1; exists t|].
    symmetry. rewrite resize_grow by done. replace (Z.to_nat _) with 0%nat by lia. by rewrite app_nil_r. }
  destruct (Z.ltb_spec (zlen bs) n).
  - assert (rep s1 name bs) as Hrs1 by (apply Hrep1; by exists t).
    apply wp_bind. eapply wp_mono.
    { pose proof (zlen_nonneg bs). apply (write_file_wp name bs [0] (n - 1) s1 Hok1 Hdev1 Hrs1);
        [lia|done|change (zlen [0]) with 1; lia|destruct Hwhere; [left|right]; lia]. }
    intros err s2 (-> & Hst & Hrep). unfold note. wp_steps. split; [done|].
    split; [by eapply stays_calls, stays_from|].
    rewrite resize_grow by lia. rewrite splice_far in Hrep by lia.
    replace (replicate (Z.to_nat (n - zlen bs)) 0) with (replicate (Z.to_nat (n - 1 - zlen bs)) 0 ++ [0]); [exact Hrep|].
    change [0] with (replicate 1 0). rewrite replicate_app. f_equal. lia.
  - destruct (tree_read_tail t n Ht ltac:(lia)) as (k & o & l & Hk & Hsplit & Eread & Hno). rewrite Hl in Eread.
    unfold metadataRead. apply wp_bind, wp_gets. rewrite (busy_jsontree _ _ _ _ _ _ Hb), Eread.
    pose proof (shorten_wp name s t s1 md k o l n Hb Ht Hk Hsplit Hno ltac:(lia)) as Hshort. cbn zeta in Hshort.
    set (t' := if n =? mo_offset o then take k t else take k t ++ [set_length (n - mo_offset o) o]) in *.
    apply wp_bind_assoc. apply wp_bind. eapply wp_mono; [exact Hshort|]. intros md2 s2 (Hb2 & Ho2 & Hj2).
    assert (rept s2 (first_dir name) t' (take (Z.to_nat n) bs)) as Hr2.
    { eapply rept_frame; [by apply (rept_take s1 (first_dir name) t bs k o n)|]. intros x _. by rewrite Ho2, Hj2. }
    set (dk := mo_key <$> (if n =? mo_offset o then o :: l else l)).
    assert (forall q, q ∈ dk -> q ∈ mo_key <$> t /\ q ∉ mo_key <$> t') as Hdk.
    { pose proof (keys_shorten t k o l n Hsplit) as Ek. fold t' in Ek. fold dk in Ek.
      pose proof (ok_nodup s Hok name t Hd) as Hnd. rewrite Ek in Hnd. apply NoDup_app in Hnd as (_ & Hdisj & _).
      intros q Hq. rewrite Ek. split; [apply elem_of_app; by right|]. intros Hq'. by eapply Hdisj. }
    apply wp_bind. eapply wp_mono; [apply (drop_files_wp name s t s2 md2 t' dk _ Hok Hd Hb2 Hr2 Hdk)|].
    intros [err md3] s3 [Herr Hdel]. simpl in Herr. subst err.
    change (negb (0 =? 0)) with false. cbn beta iota.
    apply wp_bind. eapply wp_mono; [exact Hdel|]. intros u s4 [Hst Hrep].
    assert (resize_to bs n = take (Z.to_nat n) bs) as ->.
    { unfold resize_to. replace (Z.to_nat n - length bs)%nat with 0%nat by (unfold zlen in *; lia). by rewrite app_nil_r. }
    destruct dk as [|q dk]; unfold note; wp_steps; (split; [done|]); [done|]. split; [by apply stays_calls|]. exact Hrep.
Qed.

(** A new file is empty. *)
Lemma create_wp name s : sm_ok s -> device_ok s -> disk s !! name = None ->
  wp (open osz name true false) s (fun r s' => r = (0, 0) /\ stays name s s' /\ rep s' name []).
Proof.
  intros Hok Hdev Hd. assert (jlookup s !! name = None) as Hlk.
  { destruct (jlookup s !! name) eqn:E; [|done]. apply (ok_cache s Hok) in E. congruence. }
  unfold open, MetadataFile_open, cache_get. apply wp_bind, wp_bind. unfold wp at 1. rewrite Hlk. wp_steps. rewrite Hd. wp_steps.
  cbn [_exists negb andb]. unfold updateMetadata, writeMetadata. wp_steps. unfold jsontree, cache_put. cbn [mFilename own_tree].
  rewrite Hlk. cbn [default]. wp_steps. cbn [jlookup with_disk]. rewrite Hlk.
  change (jlru (with_disk _ s)) with (jlru s).
  pose proof (cache_trim_sub (jlru s) (jlookup s)) as Hsub. destruct (cache_trim (jlru s) (jlookup s)) as [l m]. simpl in Hsub.
  unfold getLength. wp_steps. cbn [disk with_cache with_disk]. rewrite lookup_insert_eq. wp_steps.
  unfold jsontree. cbn [mFilename jlookup with_cache]. rewrite lookup_insert_eq. split; [done|].
  split.
  2: { exists []. split; [simpl; by rewrite lookup_insert_eq|]. split; [by split; [|simpl; lia]|]. by split. }
  split; [|split; [done|split]].
  - split; simpl; try apply Hok.
    + intros n x. destruct (decide (n = name)) as [->|Hne]; [by rewrite !lookup_insert_eq|].
      rewrite !lookup_insert_ne by done. intros Hx. apply (ok_cache s Hok). by eapply lookup_weaken.
    + intros n1 n2 t1 t2 o1 o2 H1' H2' Ho1 Ho2.
      destruct (decide (n1 = name)) as [->|Hne1]; [rewrite lookup_insert_eq in H1'; simplify_eq; by apply not_elem_of_nil in Ho1|].
      destruct (decide (n2 = name)) as [->|Hne2]; [rewrite lookup_insert_eq in H2'; simplify_eq; by apply not_elem_of_nil in Ho2|].
      rewrite lookup_insert_ne in H1', H2' by done. by eapply (ok_own s Hok).
    + intros n x. destruct (decide (n = name)) as [->|Hne]; [rewrite lookup_insert_eq; intros; simplify_eq; constructor|].
      rewrite lookup_insert_ne by done. apply (ok_nodup s Hok).
    + intros n x o. destruct (decide (n = name)) as [->|Hne]; [rewrite lookup_insert_eq; intros Hx Ho; simplify_eq; by apply not_elem_of_nil in Ho|].
      rewrite lookup_insert_ne by done. apply (ok_used s Hok).
  - intros n Hne. simpl. by rewrite lookup_insert_ne.
  - intros n bs Hne (tx & Hx & Hrx). exists tx. split; [simpl; by rewrite lookup_insert_ne|exact Hrx].
Qed.

Lemma delete_wp name bs s : sm_ok s -> device_ok s -> rep s name bs ->
  wp (deleteMetaFile osz name) s (fun _ s' => stays name s s' /\ disk s' !! name = None).
Proof.
  intros Hok Hdev (t & Hd & Hr). pose proof Hr as (Ht & Hl & _).
  unfold deleteMetaFile. apply wp_bind. eapply wp_mono; [by eapply open_working|].
  intros md s1 ([Hb Hr1] & Ho1 & Hj1). pose proof Hb as [[Hn He] Hlk Hca Hdk Hnd Hk Hdom Hu Hf Hdev1].
  apply wp_bind, wp_modify. set (s2 := with_disk _ s1).
  assert (jsontree md s2 = t) as Hjt by apply (busy_jsontree _ _ _ _ _ _ Hb).
  unfold getLength, metadataRead. apply wp_bind, wp_gets, wp_bind, wp_gets. rewrite Hjt.
  assert (forall o, o ∈ tree_read osz t 0 (tree_length t) -> o ∈ t) as Hin.
  { intros o Ho. destruct (decide (t = [])) as [->|Hne]; [by apply not_elem_of_nil in Ho|].
    pose proof (tree_length_bounds osz Hosz t Ht) as (Hb1 & Hb0 & Hb2). specialize (Hb2 Hne).
    assert (0 < tree_length t) as Hpos by (destruct t; [done|simpl length in *; nia]).
    destruct (tree_read_tail t 0 Ht ltac:(lia)) as (k & o' & l & Hk' & Hsplit & E & _).
    rewrite Z.sub_0_r in E. rewrite E in Ho. rewrite Hsplit. apply elem_of_app. by right. }
  apply wp_bind. eapply wp_mono; [apply delete_objects_wp|].
  intros u s' (O & J & c & -> & HO & HJ & Hsame). unfold note. wp_steps. unfold deletedMeta, cache_erase. wp_steps.
  cbn [jlookup with_calls with_objs with_jrns]. change (jlookup s2) with (jlookup s1). rewrite Hlk.
  assert (forall n x, n <> name -> rep s n x -> forall o, o ∈ default [] (disk s !! n) ->
    ~ (first_dir n = first_dir name /\ mo_key o ∈ mo_key <$> t)) as Hout.
  { intros n x Hne _ o Ho [Hdir Hin']. destruct (disk s !! n) as [tn|] eqn:En; [|by apply not_elem_of_nil in Ho].
    apply list_elem_of_fmap in Hin' as (o' & Ek & Ho'). apply Hne. by eapply (ok_own s Hok n name tn t o o'). }
  split; [split; [|split; [done|split]]|simpl; by rewrite lookup_delete_eq].
  - assert (forall n x, delete name (disk s1) !! n = Some x -> disk s !! n = Some x) as Hsub.
    { intros n x Hx. rewrite Hdk in Hx. by apply lookup_delete_Some in Hx as []. }
    split; simpl.
    + intros n x Hx. apply lookup_delete_Some in Hx as [Hne Hx]. rewrite lookup_delete_ne, Hdk by done. by eapply Hca.
    + intros n1 n2 t1 t2 o1 o2 H1' H2'. apply Hsub in H1', H2'. by eapply (ok_own s Hok).
    + intros n x Hx. apply Hsub in Hx. by eapply (ok_nodup s Hok).
    + intros n x o Hx Ho. apply Hsub in Hx. eapply used_mono; [exact Hu|]. by eapply (ok_used s Hok).
    + intros d q [[x Hx]|[x Hx]]; apply (Hdom d q); [left|right]; exists x; by eapply lookup_weaken.
  - intros n Hne. simpl. by rewrite lookup_delete_ne, Hdk by done.
  - intros n x Hne Hx. pose proof (Hout n x Hne Hx) as Hkeep. destruct Hx as (tn & Hx & Hrx). rewrite Hx in Hkeep.
    exists tn. split; [simpl; by rewrite lookup_delete_ne, Hdk by done|].
    eapply rept_frame; [exact Hrx|]. intros o Ho. simpl. destruct (Hsame (first_dir n) (mo_key o)) as [-> ->].
    { intros [Hdir Hq]. apply (Hkeep o Ho). split; [done|]. apply list_elem_of_fmap in Hq as (o' & -> & Ho').
      by apply list_elem_of_fmap_2, Hin. }
    simpl. by rewrite Ho1, Hj1.
Qed.

End files.
End SmIoThms.
