(* ===== verification/SmClaims.v ===== *)
(** * The storage manager: theorems

    - [SmKeys]: the fields of the names of objects.
    - [SmFaults]: whatever the device does, a journal keeps the entries it has.
    - [SmClaims]: the storage manager refines a map from names to byte strings; the
      three ways to merge a journal agree; corner cases. *)

From S2P Require Import Prelude Hasher Bytes SmFs SmMeta SmJournal SmIo SmThms SmIoThms.
From stdpp Require Import prelude gmap strings.
Local Open Scope Z_scope.

(** ** Names of objects *)
Module SmKeys.
Import SmFs SmMeta SmIoThms.

Lemma index_of_app c a r : index_of c a = None -> index_of c (a +:+ String c r) = Some (String.length a).
Proof.
  induction a as [|d a IH]; simpl; [by rewrite Ascii.eqb_refl|].
  destruct (Ascii.eqb d c); [done|]. intros Ha. rewrite IH; [done|]. by destruct (index_of c a).
Qed.

Lemma drop_string_app a r : drop_string (String.length a) (a +:+ r) = r.
Proof. by induction a. Qed.

Lemma substring_app a r : String.substring 0 (String.length a) (a +:+ r) = a.
Proof. induction a as [|d a IH]; simpl; [by destruct r|by rewrite IH]. Qed.

Lemma string_length_app a b : String.length (a +:+ b) = (String.length a + String.length b)%nat.
Proof. induction a as [|d a IH]; simpl; [done|by rewrite IH]. Qed.

Lemma string_app_assoc a b c : (a +:+ b) +:+ c = a +:+ b +:+ c.
Proof. induction a as [|d a IH]; [done|]. change (String d ((a +:+ b) +:+ c) = String d (a +:+ b +:+ c)). by rewrite IH. Qed.

Lemma len_field a r : String.length (a +:+ "_" +:+ r) = (String.length a + S (String.length r))%nat.
Proof. by rewrite string_length_app. Qed.

Lemma len_end a : String.length (a +:+ "_") = S (String.length a).
Proof. rewrite string_length_app. simpl. lia. Qed.

(** A field that ends with an underscore, after [pre]. *)
Lemma find_field pre a r : index_of underscore a = None ->
  find_first_of underscore (pre +:+ a +:+ "_" +:+ r) (Z.of_nat (String.length pre)) =
    Z.of_nat (String.length pre) + Z.of_nat (String.length a).
Proof.
  intros Ha. unfold find_first_of. rewrite Nat2Z.id, drop_string_app. change ("_" +:+ r) with (String underscore r).
  by rewrite index_of_app.
Qed.

Lemma substr_field pre a r n pos : pos = Z.of_nat (String.length pre) -> n = Z.of_nat (String.length a) ->
  substr (pre +:+ a +:+ r) pos n = Val a.
Proof.
  intros -> ->. unfold substr. rewrite !string_length_app. destruct (Z.ltb_spec (Z.of_nat (String.length pre + (String.length a + String.length r))) (Z.of_nat (String.length pre))); [lia|].
  rewrite Nat2Z.id, drop_string_app. destruct (Z.ltb_spec (Z.of_nat (String.length a)) 0); [lia|]. by rewrite Nat2Z.id, substring_app.
Qed.

Lemma substr_at key pre a r n pos : key = pre +:+ a +:+ r -> pos = Z.of_nat (String.length pre) ->
  n = Z.of_nat (String.length a) -> substr key pos n = Val a.
Proof. intros ->. apply substr_field. Qed.

Lemma substr_rest pre a pos : pos = Z.of_nat (String.length pre) -> substr (pre +:+ a) pos (-1) = Val a.
Proof.
  intros ->. unfold substr. rewrite string_length_app. destruct (Z.ltb_spec (Z.of_nat (String.length pre + String.length a)) (Z.of_nat (String.length pre))); [lia|].
  change (-1 <? 0) with true. cbn iota beta. by rewrite Nat2Z.id, drop_string_app.
Qed.

Definition key_of (u b c d : string) : string := u +:+ "_" +:+ b +:+ "_" +:+ c +:+ "_" +:+ d.

Lemma breakout_spec u b c d :
  index_of underscore u = None -> index_of underscore b = None -> index_of underscore c = None ->
  breakout (key_of u b c d) = Val (u, b, c, d).
Proof.
  intros Hu Hb Hc. unfold breakout.
  assert (key_of u b c d = (u +:+ "_") +:+ b +:+ "_" +:+ c +:+ "_" +:+ d) as E1 by (unfold key_of; by rewrite !string_app_assoc).
  assert (key_of u b c d = (u +:+ "_" +:+ b +:+ "_") +:+ c +:+ "_" +:+ d) as E2 by (unfold key_of; by rewrite !string_app_assoc).
  assert (key_of u b c d = (u +:+ "_" +:+ b +:+ "_" +:+ c +:+ "_") +:+ d) as E3 by (unfold key_of; by rewrite !string_app_assoc).
  assert (find_first_of underscore (key_of u b c d) 0 = Z.of_nat (String.length u)) as ->.
  { exact (find_field "" u (b +:+ "_" +:+ c +:+ "_" +:+ d) Hu). }
  pose proof (find_field (u +:+ "_") b (c +:+ "_" +:+ d) Hb) as F1. rewrite <- E1 in F1.
  pose proof (find_field (u +:+ "_" +:+ b +:+ "_") c d Hc) as F2. rewrite <- E2 in F2.
  rewrite len_end in F1. rewrite len_field, len_end in F2.
  replace (Z.of_nat (String.length u) + 1) with (Z.of_nat (S (String.length u))) by lia. rewrite F1.
  replace (Z.of_nat (S (String.length u)) + Z.of_nat (String.length b) + 1)
    with (Z.of_nat (String.length u + S (S (String.length b)))) by lia. rewrite F2.
  assert (substr (key_of u b c d) 0 (Z.of_nat (String.length u)) = Val u) as -> by (by apply (substr_field "" u)).
  rewrite (substr_at _ _ _ _ _ (Z.of_nat (S (String.length u))) E1) by (rewrite ?len_field, ?len_end; lia).
  rewrite (substr_at _ _ _ _ _ (Z.of_nat (String.length u + S (S (String.length b)))) E2) by (rewrite ?len_field, ?len_end; lia).
  rewrite E3, substr_rest; [done|]. rewrite !len_field, len_end. lia.
Qed.

(** *** Numbers *)

Definition is_digit (b : Z) : Prop := 48 <= b < 58.

Lemma digits_are_digits fuel n m acc : Forall is_digit acc -> Forall is_digit (digits fuel n m acc).
Proof.
  revert n m acc. induction fuel as [|fuel IH]; intros n m acc Ha; simpl; [done|].
  destruct ((m =? 0) && (n =? 0)%nat); [done|]. apply IH. constructor; [|done].
  pose proof (Z.mod_pos_bound m 10 ltac:(lia)). unfold is_digit. lia.
Qed.

Abbreviation text l := (String.string_of_list_ascii ((fun b => Ascii.ascii_of_nat (Z.to_nat b)) <$> l)).

Lemma text_cons b l : text (b :: l) = String (Ascii.ascii_of_nat (Z.to_nat b)) (text l).
Proof. done. Qed.

Lemma digit_of b : is_digit b -> digit (Ascii.ascii_of_nat (Z.to_nat b)) = Some (b - 48).
Proof.
  unfold is_digit, digit. intros Hb. rewrite Ascii.nat_ascii_embedding by lia.
  destruct (Z.leb_spec 0 (Z.of_nat (Z.to_nat b) - 48)); [|lia].
  destruct (Z.ltb_spec (Z.of_nat (Z.to_nat b) - 48) 10); [|lia]. simpl. f_equal. lia.
Qed.

Lemma digit_char b c : is_digit b -> digit c = None -> Ascii.eqb (Ascii.ascii_of_nat (Z.to_nat b)) c = false.
Proof. intros Hb Hc. apply Ascii.eqb_neq. intros <-. by rewrite digit_of in Hc. Qed.

Lemma text_none c l : Forall is_digit l -> digit c = None -> index_of c (text l) = None.
Proof.
  intros Hl Hc. induction Hl as [|b l Hb Hl IH]; [done|]. rewrite text_cons. cbn [index_of]. by rewrite digit_char, IH.
Qed.

Lemma dec_text n : 0 <= n -> dec n = text (digits 20 1 n []).
Proof. intros Hn. unfold dec. destruct (Z.ltb_spec n 0); [lia|]. by rewrite Z.abs_eq. Qed.

Lemma dec_no_underscore n : 0 <= n -> index_of underscore (dec n) = None.
Proof. intros Hn. rewrite dec_text by done. apply text_none; [by apply digits_are_digits|done]. Qed.

Lemma leading_text l a : Forall is_digit l -> leading_number (text l) a = foldl (fun a d => 10 * a + (d - 48)) a l.
Proof.
  intros Hl. revert a. induction Hl as [|b l Hb Hl IH]; intros a; [done|]. rewrite text_cons. cbn [leading_number]. by rewrite digit_of, IH.
Qed.

Lemma digits_number fuel n m acc : 0 <= m < 10 ^ Z.of_nat fuel ->
  foldl (fun a d => 10 * a + (d - 48)) 0 (digits fuel n m acc) = foldl (fun a d => 10 * a + (d - 48)) m acc.
Proof.
  revert n m acc. induction fuel as [|fuel IH]; intros n m acc Hm.
  { change (10 ^ Z.of_nat 0) with 1 in Hm. by replace m with 0 by lia. }
  cbn [digits]. destruct ((m =? 0) && (n =? 0)%nat) eqn:E.
  { apply andb_true_iff in E as [->%Z.eqb_eq _]. done. }
  rewrite Nat2Z.inj_succ, Z.pow_succ_r in Hm by lia. rewrite IH.
  - cbn [foldl]. f_equal. pose proof (Z.div_mod m 10 ltac:(lia)). lia.
  - split; [apply Z.div_pos; lia|apply Z.div_lt_upper_bound; lia].
Qed.

Lemma digits_at_least fuel n m acc : (n <= fuel)%nat -> (n + length acc <= length (digits fuel n m acc))%nat.
Proof.
  revert n m acc. induction fuel as [|fuel IH]; intros n m acc Hn; [simpl; lia|]. cbn [digits].
  destruct ((m =? 0) && (n =? 0)%nat) eqn:E.
  { apply andb_true_iff in E as [_ ->%Nat.eqb_eq]. simpl. lia. }
  specialize (IH (pred n) (m / 10) (48 + m mod 10 :: acc) ltac:(lia)). simpl in *. lia.
Qed.

Lemma space_char b : is_digit b -> is_space (Ascii.ascii_of_nat (Z.to_nat b)) = false.
Proof.
  unfold is_digit, is_space. intros Hb. rewrite Ascii.nat_ascii_embedding by lia.
  destruct (Nat.eqb_spec (Z.to_nat b) 32); [lia|]. destruct (Nat.leb_spec (Z.to_nat b) 13); [lia|]. by rewrite andb_comm.
Qed.

Lemma strto_dec n : 0 <= n < 2 ^ 64 -> strto (dec n) = Some (false, n).
Proof.
  intros Hn. rewrite dec_text by lia. pose proof (digits_at_least 20 1 n [] ltac:(lia)) as Hl.
  pose proof (digits_are_digits 20 1 n [] ltac:(constructor)) as Hd.
  assert (2 ^ 64 < 10 ^ Z.of_nat 20) by done.
  pose proof (digits_number 20 1 n [] ltac:(lia)) as Hv. cbn [foldl] in Hv.
  rewrite <- leading_text in Hv by done. revert Hl Hd Hv. generalize (digits 20 1 n []). intros l Hl Hd Hv.
  destruct l as [|b l]; [simpl in Hl; lia|]. apply Forall_cons in Hd as [Hb Hd]. unfold strto.
  rewrite text_cons in Hv |- *. cbn [skip_blanks].
  rewrite space_char by done. unfold sign. rewrite !digit_char by done. rewrite digit_of by done.
  by rewrite Hv.
Qed.

Lemma stoll_dec n : 0 <= n < 2 ^ 63 -> stoll (dec n) = Val n.
Proof.
  intros Hn. unfold stoll. rewrite strto_dec by lia.
  destruct (Z.ltb_spec n (- 2 ^ 63)); [lia|]. by destruct (Z.leb_spec (2 ^ 63) n); [lia|].
Qed.

Lemma stoull_dec n : 0 <= n < 2 ^ 64 -> stoull (dec n) = Val n.
Proof. intros Hn. unfold stoull. rewrite strto_dec by lia. by destruct (Z.leb_spec (2 ^ 64) n); [lia|]. Qed.

Lemma replace_back s : index_of tilde s = None -> replace_char tilde slash (replace_char slash tilde s) = s.
Proof.
  induction s as [|c s IH]; [done|]. simpl. destruct (Ascii.eqb_spec c tilde) as [->|Hc]; [done|].
  intros Hs. rewrite IH by (by destruct (index_of tilde s)). f_equal.
  destruct (Ascii.eqb_spec c slash) as [->|Hc']; [done|]. by destruct (Ascii.eqb_spec c tilde).
Qed.

(** What the three queries say of a key. *)
Definition key_says (key u : string) (offset length : Z) (source : string) : Prop :=
  (exists o l f, breakout key = Val (u, o, l, f)) /\
  getOffsetFromKey key = Val offset /\ getLengthFromKey key = Val length /\ getSourceFromKey key = Val source.

Lemma key_of_says u offset length source : index_of underscore u = None ->
  0 <= offset < 2 ^ 63 -> 0 <= length < 2 ^ 64 -> index_of tilde source = None ->
  key_says (key_of u (dec offset) (dec length) (replace_char slash tilde source)) u offset length source.
Proof.
  intros Hu Ho Hl Hs. unfold key_says, getOffsetFromKey, getLengthFromKey, getSourceFromKey.
  rewrite !breakout_spec by (try done; apply dec_no_underscore; lia). cbn [mbind outcome_bind].
  rewrite stoll_dec, stoull_dec by done. cbn [mret outcome_ret]. rewrite replace_back by done. split; [by eexists _, _, _|done].
Qed.

(** C38. The name given to a new object says which file it belongs to, at which offset and
    with which length, whatever the file is called (but for a tilde), and the functions
    that read the fields of a name get them back; changing one field of a name, or asking
    for a new name of the same object, changes that field (and, for a new name, the
    UUID in front) and no other. *)
Theorem key_fields_roundtrip `{UuidOk} (source : string) (offset length : Z) (s : st) (offset' length' : Z) :
  0 <= offset < 2 ^ 63 -> 0 <= length < 2 ^ 64 -> index_of tilde source = None ->
  0 <= offset' < 2 ^ 63 -> 0 <= length' < 2 ^ 64 ->
  exists u key s', getNewKey source offset length s = (Val key, s') /\ key_says key u offset length source /\
    (exists k, setOffsetInKey key offset' = Val k /\ key_says k u offset' length source) /\
    (exists k, setLengthInKey key length' = Val k /\ key_says k u offset length' source) /\
    (exists u' k s'', getNewKeyFromOldKey key length' s' = (Val k, s'') /\ u' <> u /\ k <> key /\
       key_says k u' offset length' source).
Proof.
  intros Ho Hl Hs Ho' Hl'.
  assert (forall n u, breakout (key_of (uuid n) (dec offset) (dec length) u) = Val (uuid n, dec offset, dec length, u)) as Hb.
  { intros n u. apply breakout_spec; [apply uuid_text|apply dec_no_underscore; lia..]. }
  eexists (uuid (uuids s)), _, _. split.
  { unfold getNewKey, draw_uuid. rewrite !u64_small by lia. reflexivity. }
  fold (key_of (uuid (uuids s)) (dec offset) (dec length) (replace_char slash tilde source)).
  split; [|split; [|split]].
  - by apply key_of_says; [apply uuid_text|..].
  - unfold setOffsetInKey. rewrite Hb. eexists. split; [reflexivity|]. by apply key_of_says; [apply uuid_text|..].
  - unfold setLengthInKey. rewrite Hb. eexists. split; [reflexivity|]. by apply key_of_says; [apply uuid_text|..].
  - eexists (uuid (S (uuids s))), _, _. split.
    { unfold getNewKeyFromOldKey, draw_uuid, mbind, M_bind, lift. rewrite Hb. rewrite u64_small by lia. reflexivity. }
    split_and!; [intros E%uuid_inj; lia| |by apply key_of_says; [apply uuid_text|..]].
    intros E. apply app_underscore_inj, uuid_inj in E; [simpl in E; lia|apply uuid_text..].
Qed.

End SmKeys.

(** ** A device that may fail at any call *)
Module SmFaults.
Import SmFs SmJournal SmThms.

Section faults.
Context `{JsonHeaderOk} (dir key : string) (s0 : st) (B : list Z) (Hlive : live (wplan s0)).

Abbreviation p := (Jrn dir key).

(** The bytes of the old entries are where they were. *)
Definition keeps (f : list Z) : Prop := 52 + zlen B <= zlen f /\ slice f 52 (zlen B) = B.

(** Nothing but the journal has changed, and it keeps its entries. *)
Definition guarded (s : st) : Prop :=
  (exists f, jrns s !! (dir, key) = Some f /\ keeps f) /\ objs s = objs s0 /\ disk s = disk s0 /\ jlookup s = jlookup s0 /\
  (forall q, q <> (dir, key) -> jrns s !! q = jrns s0 !! q) /\ ever_after (wplan s) = ever_after (wplan s0).

(** How a call uses up the device: it takes an answer from the plan, or without a plan it
    transfers something or fails. *)
Definition uses (r : Z) (s s' : st) : Prop :=
  (length (planned (wplan s')) < length (planned (wplan s)))%nat \/ wplan s' = wplan s /\ r <> 0.

(** A write to the header, or behind the old entries. *)
Definition safe (off n : Z) : Prop := 0 <= off /\ off + n <= 52 \/ 52 + zlen B <= off.

Lemma keeps_splice f off bs : keeps f -> 0 <= off -> safe off (zlen bs) -> keeps (splice f off bs).
Proof.
  intros [Hl Hs] Ho Hsafe. pose proof (zlen_nonneg B). pose proof (zlen_nonneg bs). split; [rewrite zlen_splice by lia; lia|].
  rewrite <- Hs at 2. apply zget_ext. intros i. rewrite !zget_slice, zget_splice by lia. destruct Hsafe; zcase; done.
Qed.

Lemma keeps_resize f n : keeps f -> 52 + zlen B <= n -> keeps (resize_to f n).
Proof.
  intros [Hl Hs] Hn. pose proof (zlen_nonneg B). split.
  - unfold resize_to, zlen in *. rewrite length_app, length_take, length_replicate. lia.
  - rewrite <- Hs at 2. apply zget_ext. intros i. rewrite !zget_slice by lia. unfold resize_to. rewrite zget_app, zget_take_if.
    unfold zlen in *. rewrite length_take. zcase; done.
Qed.

Lemma guarded_set f s : guarded s -> keeps f -> guarded (file_set p f s).
Proof.
  intros (_ & Ho & Hd & Hl & Hq & He) Hf. split; [exists f; split; [simpl; by rewrite lookup_insert_eq|done]|].
  split_and!; try done. intros q Hne. simpl. rewrite lookup_insert_ne by done. by apply Hq.
Qed.

Lemma guarded_contents s : guarded s -> keeps (contents p s).
Proof. intros ((f & Hf & Hk) & _). unfold contents. simpl. by rewrite Hf. Qed.

Lemma guarded_plan l s : guarded s -> guarded (with_wplan (mkDevice l (ever_after (wplan s))) s).
Proof. done. Qed.

Lemma sys_pwrite_guarded buf off s : guarded s -> 0 <= off -> safe off (zlen buf) -> zlen buf < 2 ^ 31 -> buf <> [] ->
  wp (sys_pwrite p buf off) s (fun r s' => guarded s' /\ -1 <= r <= zlen buf /\ uses r s s').
Proof.
  intros Hg Ho Hsafe Hlen Hbuf. assert (0 < zlen buf) by (destruct buf; [done|unfold zlen; simpl; lia]).
  unfold sys_pwrite, next_write. apply wp_bind. unfold wp at 1.
  assert (forall n s1, guarded s1 -> 0 <= n <= zlen buf ->
    wp ((if 0 <? n then modify (fun s => file_set p (splice (contents p s) off (take (Z.to_nat n) buf)) s) else mret tt) ;; mret n) s1
      (fun r s' => guarded s' /\ r = n /\ wplan s' = wplan s1)) as Hdo.
  { intros n s1 Hg1 Hn. destruct (Z.ltb_spec 0 n); wp_steps; [|done]. split; [|done]. apply guarded_set; [done|].
    apply keeps_splice; [by apply guarded_contents|done|]. rewrite zlen_take by lia. destruct Hsafe; [left|right]; lia. }
  destruct (planned (wplan s)) as [|a pl] eqn:Hw.
  - pose proof Hlive as Ha. unfold live in Ha. pose proof Hg as (_ & _ & _ & _ & _ & He). rewrite <- He in Ha.
    destruct (ever_after (wplan s)) as [n|e].
    + eapply wp_mono; [apply Hdo; [done|lia]|]. intros r s' (Hg' & -> & Hw'). split; [done|]. split; [lia|]. right. split; [done|lia].
    + unfold set_errno. wp_steps. split; [done|]. split; [lia|]. by right.
  - pose proof (guarded_plan pl s Hg) as Hg1. destruct a as [n|e].
    + eapply wp_mono; [apply Hdo; [done|lia]|]. intros r s' (Hg' & -> & Hw'). split; [done|]. split; [lia|]. left.
      rewrite Hw', Hw. simpl. lia.
    + unfold set_errno. wp_steps. split; [done|]. split; [lia|]. left. rewrite Hw. simpl. lia.
Qed.

(** The measure of the loops: answers planned and bytes to write. *)
Definition left_over (s : st) (n : Z) : Z := Z.of_nat (length (planned (wplan s))) + n.

Lemma uses_left r s s' n : uses r s s' -> 0 <= r <= n -> left_over s' (n - r) < left_over s n.
Proof. unfold left_over. intros [Hl|[-> Hr]] Hn; lia. Qed.

Lemma uses_trans r1 r2 r s s1 s2 : uses r1 s s1 -> uses r2 s1 s2 -> (r2 <> 0 -> r <> 0) -> uses r s s2.
Proof. unfold uses. intros [H1|[H1 Hr1]] [H2|[H2 Hr2]] Hr; rewrite ?H2 in *; rewrite ?H1 in *; [left; lia..|]. right. auto. Qed.

Lemma write_rounds_guarded data pos : zlen data < 2 ^ 31 -> 0 <= pos -> safe pos (zlen data) ->
  forall fuel count s, guarded s -> 0 <= count < zlen data -> left_over s (zlen data - count) < Z.of_nat fuel ->
  wp (write_rounds fuel p pos data count) s (fun r s' => guarded s' /\ -1 <= r <= zlen data /\ uses r s s').
Proof.
  intros Hlen Hpos Hsafe. induction fuel as [|fuel IH]; intros count s Hg Hc Hf; [unfold left_over in Hf; lia|]. cbn [write_rounds].
  pose proof (zlen_drop data count ltac:(lia)) as Hzd. unfold sys_write. apply wp_bind.
  eapply wp_mono; [apply (sys_pwrite_guarded (drop (Z.to_nat count) data) (pos + count)); [done|lia| |lia|]|].
  { rewrite Hzd. destruct Hsafe; [left|right]; lia. }
  { intros E. rewrite E in Hzd. change (zlen (@nil Z)) with 0 in Hzd. lia. }
  intros err s1 (Hg1 & Herr & Huse). wp_steps. rewrite Hzd in *.
  destruct ((err <? 0) || ((err =? 0) && negb (errno s1 =? EINTR))) eqn:Hstop.
  - apply wp_ret. split; [done|]. split; [destruct (0 <? count); lia|].
    destruct Huse as [|[Hw Hr]]; [by left|right]. split; [done|]. destruct (Z.ltb_spec 0 count); lia.
  - assert (0 <= err) by (destruct (Z.ltb_spec err 0); [done|lia]).
    destruct (Z.ltb_spec (count + err) (zlen data)).
    + pose proof (uses_left err s s1 (zlen data - count) Huse ltac:(lia)) as Hm.
      eapply wp_mono; [apply IH; [done|lia|]|].
      { replace (zlen data - (count + err)) with (zlen data - count - err) by lia. lia. }
      intros r s2 (Hg2 & Hr & Huse2). split; [done|]. split; [done|]. by eapply uses_trans.
    + apply wp_ret. split; [done|]. split; [lia|]. destruct Huse as [|[Hw Hr]]; [by left|right]. split; [done|lia].
Qed.

Lemma write_guarded data pos s : guarded s -> data <> [] -> zlen data < 2 ^ 31 -> 0 <= pos -> safe pos (zlen data) ->
  wp (_write p pos data) s (fun r s' => guarded s' /\ -1 <= r <= zlen data /\ uses r s s').
Proof.
  intros Hg Hd Hl Hp Hs. unfold _write, wp. apply write_rounds_guarded; try done.
  - destruct data; [done|]. unfold zlen. simpl. lia.
  - unfold left_over, rounds, zlen. lia.
Qed.

Lemma pwrite_guarded data s : guarded s -> data <> [] -> zlen data <= 52 -> wp (_pwrite p data 0) s (fun r s' => guarded s').
Proof.
  intros Hg Hd Hl. unfold wp. rewrite pwrite_write.
  pose proof (write_guarded data 0 s Hg Hd ltac:(lia) ltac:(lia) ltac:(left; lia)) as Hw. unfold wp in Hw.
  destruct (_write p 0 data s) as [[]?]; naive_solver.
Qed.

Lemma pwrite_entry_guarded data off s : guarded s -> data <> [] -> zlen data < 2 ^ 31 -> 52 + zlen B <= off ->
  wp (_pwrite p data off) s (fun r s' => guarded s').
Proof.
  intros Hg Hd Hl Ho. pose proof (zlen_nonneg B). unfold wp. rewrite pwrite_write.
  pose proof (write_guarded data off s Hg Hd Hl ltac:(lia) ltac:(right; lia)) as Hw. unfold wp in Hw.
  destruct (_write p off data s) as [[]?]; naive_solver.
Qed.

Lemma ftruncate_guarded n s : guarded s -> 52 + zlen B <= n -> wp (sys_ftruncate p n) s (fun r s' => guarded s').
Proof.
  intros Hg Hn. unfold sys_ftruncate, next_write. apply wp_bind. unfold wp at 1.
  assert (forall s1, guarded s1 -> guarded (file_set p (resize_to (contents p s1) n) s1)) as Hset.
  { intros s1 Hg1. apply guarded_set; [done|]. apply keeps_resize; [by apply guarded_contents|done]. }
  destruct (planned (wplan s)) as [|a pl].
  - destruct (ever_after (wplan s)) as [m|e]; unfold set_errno; wp_steps; [by apply Hset|done].
  - pose proof (guarded_plan pl s Hg) as Hg1. destruct a as [m|e]; unfold set_errno; wp_steps; [by apply Hset|done].
Qed.

Lemma header_52 m : 0 <= m < 10 ^ 11 -> zlen (header_text m ++ [0]) = 52.
Proof. intros. unfold zlen. by rewrite length_app, header_length. Qed.

Lemma undo_entry_header_guarded b hdr eho err e s : guarded s -> zlen hdr <= 51 -> 52 + zlen B <= eho ->
  wp (undo_entry_header p b hdr eho err e) s (fun _ s' => guarded s').
Proof.
  intros Hg Hh He. unfold undo_entry_header, set_errno. apply wp_bind.
  eapply (wp_mono _ _ (fun _ s' => guarded s')).
  - destruct b; [|by apply wp_ret]. apply wp_bind. eapply wp_mono; [apply pwrite_guarded; [done|by destruct hdr|]|].
    { rewrite zlen_app. change (zlen [0]) with 1. lia. }
    intros r s1 Hg1. by apply wp_ret.
  - intros ok s1 Hg1. destruct (negb ok); [by wp_steps|]. apply wp_bind.
    eapply wp_mono; [by apply ftruncate_guarded|]. intros r s2 Hg2. destruct (negb (r =? 0)); by wp_steps.
Qed.

Lemma settle_partial_guarded offset count eho err e s : guarded s -> 0 <= offset + count - 1 < 10 ^ 11 -> 52 + zlen B <= eho ->
  wp (settle_partial p offset count eho err e) s (fun _ s' => guarded s').
Proof.
  intros Hg Hm He. unfold settle_partial, set_errno. rewrite u64_small by lia. apply wp_bind.
  eapply (wp_mono _ _ (fun _ s' => guarded s')).
  - destruct (0 <? _); [|by apply wp_ret]. apply wp_bind.
    eapply wp_mono; [apply pwrite_guarded; [done|done|by rewrite header_52]|]. intros r s1 Hg1. by apply wp_ret.
  - intros ok s1 Hg1. destruct (negb ok); [by wp_steps|]. apply wp_bind.
    eapply wp_mono; [apply pwrite_entry_guarded; [done|done|by rewrite zlen_offlen|done]|].
    intros r s2 Hg2. destruct (negb _); by wp_steps.
Qed.

Lemma undo_entry_guarded b eho err e s : guarded s -> 52 + zlen B <= eho ->
  wp (undo_entry p b eho err e) s (fun _ s' => guarded s').
Proof.
  intros Hg He. unfold undo_entry, set_errno. apply wp_bind.
  eapply (wp_mono _ _ (fun _ s' => guarded s')).
  - destruct b; [|by apply wp_ret]. apply wp_bind.
    eapply wp_mono; [apply pwrite_guarded; [done|done|by rewrite header_52]|]. intros r s1 Hg1. by apply wp_ret.
  - intros ok s1 Hg1. destruct (negb ok); [by wp_steps|]. apply wp_bind.
    eapply wp_mono; [by apply ftruncate_guarded|]. intros r s2 Hg2. by wp_steps.
Qed.

Lemma entry_rounds_guarded b data offset eho : zlen data < 2 ^ 31 -> 0 <= offset -> offset + zlen data < 10 ^ 11 ->
  52 + zlen B <= eho -> forall fuel count s, guarded s -> 0 <= count <= zlen data -> left_over s (zlen data - count) < Z.of_nat fuel ->
  wp (entry_rounds fuel p b data offset eho count) s (fun _ s' => guarded s').
Proof.
  intros Hlen Ho Hsum He. pose proof (zlen_nonneg B).
  induction fuel as [|fuel IH]; intros count s Hg Hc Hf; [unfold left_over in Hf; lia|].
  cbn [entry_rounds]. destruct (Z.leb_spec (zlen data) count); [by apply wp_ret|].
  pose proof (zlen_drop data count Hc) as Hzd. apply wp_bind. unfold JOURNAL_ENTRY_HEADER_SIZE.
  eapply wp_mono; [apply write_guarded; [done| |lia|lia|right; lia]|].
  { intros E. rewrite E in Hzd. change (zlen (@nil Z)) with 0 in Hzd. lia. }
  rewrite Hzd. intros err s1 (Hg1 & Herr & Huse).
  rewrite i32_small by lia. destruct (Z.ltb_spec err 0).
  - wp_steps. destruct (Z.ltb_spec 0 count); [apply settle_partial_guarded; try done; lia|by apply undo_entry_guarded].
  - pose proof (uses_left err s s1 (zlen data - count) Huse ltac:(lia)) as Hm. apply IH; [done|lia|].
    replace (zlen data - (count + err)) with (zlen data - count - err) by lia. lia.
Qed.

Lemma append_entry_guarded b hdr data offset s : guarded s -> zlen hdr <= 51 -> zlen data < 2 ^ 31 -> 0 <= offset ->
  offset + zlen data < 10 ^ 11 -> wp (append_entry p b hdr data offset) s (fun _ s' => guarded s').
Proof.
  intros Hg Hh Hlen Ho Hsum. unfold append_entry. pose proof (guarded_contents s Hg) as [Hsize _]. pose proof (zlen_nonneg B).
  wp_steps. eapply wp_mono; [apply write_guarded; [done|done|rewrite zlen_offlen; lia|lia|right; lia]|].
  intros err s1 (Hg1 & _ & _). wp_steps. destruct (negb _); [by apply undo_entry_header_guarded|].
  wp_steps. apply entry_rounds_guarded; try done; [pose proof (zlen_nonneg data); lia|]. unfold left_over, rounds, zlen. lia.
Qed.

Lemma check_header_guarded m m' es s : guarded s -> contents p s = journal m es -> 0 <= m < 10 ^ 11 -> 0 <= m' < 10 ^ 11 ->
  wp (check_header dir key m') s (fun r s' => guarded s' /\ forall b h, r = inr (b, h) -> h = header_text m).
Proof.
  intros Hg Hf Hm Hm'. unfold check_header. apply wp_bind.
  eapply (wp_mono _ _ (fun r s' => guarded s' /\ (r = None \/ r = Some (header_text m)))).
  - assert (forall n s1, guarded s1 -> contents p s1 = journal m es ->
      wp (try_catch (x ← ('(err, bs) ← mret (zlen (slice (journal m es) 0 n), slice (journal m es) 0 n);
          if err <? 0 then throw (runtime_error "seekToEndOfHeader1 got: ")
          else match until_zero bs with Some txt => mret (txt, zlen txt + 1)
               | None => throw (runtime_error "seekToEndOfHeader1: did not find the end of the header") end); mret (Some x.1))
        (fun _ => mret None)) s1 (fun r s' => guarded s' /\ (r = None \/ r = Some (header_text m)))) as Hread.
    { intros n s1 Hg1 _. unfold wp, try_catch, mbind, M_bind, mret, M_ret.
      rewrite (proj2 (Z.ltb_ge _ _) (zlen_nonneg _)).
      destruct (until_zero (slice (journal m es) 0 n)) as [txt|] eqn:Ez; [|by split; [|left]]. split; [done|]. right. do 2 f_equal. simpl.
      unfold slice in Ez. rewrite drop_0 in Ez. unfold journal in Ez. revert Ez. rewrite take_app.
      destruct (decide (Z.to_nat n <= length (header_text m))%nat) as [Hle|Hgt].
      - replace (Z.to_nat n - length (header_text m))%nat with 0%nat by lia. rewrite take_0, app_nil_r. intros Ez. exfalso.
        assert (Forall (.≠ 0) (take (Z.to_nat n) (header_text m))) as Hnz by apply Forall_take, header_nonzero.
        revert Ez. generalize dependent txt. induction Hnz as [|b l Hb _ IH]; intros txt; simpl; [done|].
        destruct (Z.eqb_spec b 0); [done|]. destruct (until_zero l) as [x|]; [|done]. intros _. by apply (IH x).
      - rewrite take_ge by lia. destruct (Z.to_nat n - length (header_text m))%nat as [|j] eqn:Ej; [lia|].
        simpl take. rewrite until_zero_app by apply header_nonzero. by intros [= <-]. }
    unfold seekToEndOfHeader1, sys_read, next_read. unfold wp, try_catch, mbind, M_bind, gets.
    destruct (rplan s) as [|[n|e] pl] eqn:Hrp.
    + pose proof (Hread (Z.min 100 (Z.max 1 (2 ^ 63))) s Hg Hf) as Hx. unfold wp, try_catch, mbind, M_bind in Hx.
      rewrite <- Hf in Hx. exact Hx.
    + pose proof (Hread (Z.min 100 (Z.max 1 n)) (with_rplan pl s) Hg Hf) as Hx. unfold wp, try_catch, mbind, M_bind in Hx.
      rewrite <- Hf in Hx. exact Hx.
    + unfold set_errno, modify, mret, M_ret. simpl. split; [done|by left].
  - intros r s1 [Hg1 [->| ->]]; unfold set_errno; [wp_steps; by split|].
    destruct (read_header_text m ltac:(lia)) as (t & -> & ->).
    destruct (Z.ltb_spec m m'); [|apply wp_ret; split; [done|]; by intros b h [= _ <-]].
    apply wp_bind. eapply wp_mono; [apply pwrite_guarded; [done|done|by rewrite header_52]|]. intros err s2 Hg2. wp_steps.
    destruct (negb _).
    + apply wp_bind. eapply wp_mono; [apply pwrite_guarded; [done|done|by rewrite header_52]|]. intros r s3 Hg3. wp_steps. by split.
    + apply wp_ret. split; [done|]. by intros b h [= _ <-].
Qed.
End faults.

(** Whatever a live device does, an entry is written or not, but the call returns and the
    entries that the journal had are still there. *)
Lemma addJournalEntry_guarded `{JsonHeaderOk} osz dir key data offset m es s :
  live (wplan s) -> jrns s !! (dir, key) = Some (journal m es) -> 0 <= m < 10 ^ 11 -> osz < 2 ^ 31 -> entry_ok osz (offset, data) ->
  wp (addJournalEntry dir key data offset) s (fun _ s' => guarded dir key s (concat (entry_bytes <$> es)) s').
Proof.
  intros Hlive Hf Hm Hosz (Ho & Hl & Hle). simpl in Ho, Hl, Hle. assert (2 ^ 31 < 10 ^ 11) by done.
  set (B := concat (entry_bytes <$> es)).
  assert (guarded dir key s B s) as Hg.
  { split; [|done]. exists (journal m es). split; [done|]. unfold keeps, journal. rewrite app_assoc.
    rewrite zlen_app, header_52 by done. split; [done|]. rewrite slice_app_r by (by rewrite header_52). by apply slice_all. }
  unfold addJournalEntry. rewrite u64_small by lia. wp_steps. simpl file_at. rewrite Hf, bool_decide_eq_true_2 by eauto.
  cbn [negb].
  eapply (wp_mono _ _ (fun _ s' => guarded dir key s B s' /\ jrns s' !! (dir, key) = Some (journal m es))).
  - unfold sys_open, next_read. apply wp_bind. unfold wp at 1. destruct (rplan s) as [|[n|e] pl]; unfold set_errno; wp_steps; simpl file_at;
      rewrite ?Hf; wp_steps; by split.
  - intros fd s1 [Hg1 Hf1]. destruct (fd <? 0); [by apply wp_ret|]. apply wp_bind.
    eapply wp_mono; [apply (check_header_guarded dir key s B Hlive m (offset + zlen data - 1) es s1); try done; [|lia]|].
    { unfold contents. simpl. by rewrite Hf1. }
    intros r s2 [Hg2 Hr]. destruct r as [ret|[b h]]; [by apply wp_ret|].
    rewrite (Hr b h eq_refl). apply append_entry_guarded; try done; [|lia..].
    unfold zlen. rewrite header_length by done. done.
Qed.

End SmFaults.

(** ** Files are byte strings *)
Module SmClaims.
Import SmFs SmMeta SmJournal SmIo SmThms SmIoThms SmFaults.

(** *** The specification: a map from names to byte strings *)

Inductive op :=
| Open (name : string) (o_creat : bool)
| Write (name : string) (data : list Z) (offset : Z)
| Append (name : string) (data : list Z)
| Truncate (name : string) (size : Z)
| Read (name : string) (offset length : Z)
| Unlink (name : string).

(** What a call returns: a number, or a number with the size or the bytes. *)
Inductive result := Num (n : Z) | Size (rc size : Z) | Data (n : Z) (bytes : list Z).

Section spec.
Context (osz : Z).

(** The calls that the specification covers: a write of at least a byte that starts
    within the file or at or behind the end of its last object. *)
Definition in_reach (bs : list Z) (off : Z) : bool := (off <=? zlen bs) || (round_up osz (zlen bs) <=? off).

Definition spec (F : gmap string (list Z)) (o : op) : option (result * gmap string (list Z)) :=
  match o with
  | Open n creat =>
      match F !! n with
      | Some bs => Some (Size 0 (zlen bs), F)
      | None => Some (if creat then (Size 0 0, <[n := []]> F) else (Size (-1) 0, F))
      end
  | Write n data off =>
      match F !! n with
      | None => Some (Num (-1), F)
      | Some bs =>
          if (0 <=? off) && (0 <? zlen data) && (zlen data <? 2 ^ 31) && (off + zlen data <? 2 ^ 60) && in_reach bs off
          then Some (Num (zlen data), <[n := splice bs off data]> F) else None
      end
  | Append n data =>
      match F !! n with
      | None => Some (Num (-1), F)
      | Some bs => if (0 <? zlen data) && (zlen bs + zlen data <? 2 ^ 60)
                   then Some (Num (zlen data), <[n := bs ++ data]> F) else None
      end
  | Truncate n size =>
      match F !! n with
      | None => Some (Num (-1), F)
      | Some bs => if (0 <=? size) && (size <? 2 ^ 60 - 1) && ((size <=? zlen bs) || in_reach bs (size - 1))
                   then Some (Num 0, <[n := resize_to bs size]> F) else None
      end
  | Read n off len =>
      match F !! n with
      | None => Some (Data (-1) [], F)
      | Some bs => if (0 <=? off) && (0 <? len) && (off + len <? 2 ^ 60)
                   then Some (Data (zlen (slice bs off len)) (slice bs off len), F) else None
      end
  | Unlink n => match F !! n with Some _ => Some (Num 0, delete n F) | None => None end
  end.

Fixpoint spec_all (F : gmap string (list Z)) (os : list op) : option (list result * gmap string (list Z)) :=
  match os with
  | [] => Some ([], F)
  | o :: os => '(r, F) ← spec F o; '(rs, F) ← spec_all F os; Some (r :: rs, F)
  end.
End spec.

Section refinement.
Context `{UuidOk, JsonHeaderOk, CloudStore} (osz : Z) (Hosz : 0 < osz < 2 ^ 31) (fresh : Z -> Z).

(** *** The implementation *)

Definition exec (o : op) : M st result :=
  match o with
  | Open n creat => '(rc, size) ← open osz n creat false; mret (Size rc size)
  | Write n data off => r ← write osz n data off; mret (Num r)
  | Append n data => r ← append osz n data; mret (Num r)
  | Truncate n size => r ← truncate osz n size; mret (Num r)
  | Read n off len => '(r, bs) ← read osz fresh n off len; mret (Data r bs)
  | Unlink n => deleteMetaFile osz n ;; mret (Num 0)
  end.

Fixpoint exec_all (os : list op) : M st (list result) :=
  match os with
  | [] => mret []
  | o :: os => r ← exec o; rs ← exec_all os; mret (r :: rs)
  end.

(** The state of the storage manager stands for the files [F]. *)
Definition stands_for (s : st) (F : gmap string (list Z)) : Prop :=
  sm_ok s /\ device_ok s /\
  forall n, match F !! n with Some bs => rep osz s n bs | None => disk s !! n = None end.

(** After an operation on [name]. *)
Lemma stands_stays name s s' F (F' : gmap string (list Z)) : stands_for s F -> stays osz name s s' ->
  (forall n, n <> name -> F' !! n = F !! n) ->
  match F' !! name with Some bs => rep osz s' name bs | None => disk s' !! name = None end -> stands_for s' F'.
Proof.
  intros (_ & _ & HF) (Hok & Hdev & Hd & Hr) Hne Hname. split; [done|]. split; [done|]. intros n.
  destruct (decide (n = name)) as [->|Hn]; [done|]. rewrite Hne by done. specialize (HF n).
  destruct (F !! n); [by apply Hr|]. by rewrite Hd.
Qed.

Lemma stands_set name s s' F bs : stands_for s F -> stays osz name s s' -> rep osz s' name bs -> stands_for s' (<[name := bs]> F).
Proof.
  intros HF Hst Hr. eapply stands_stays; [exact HF|exact Hst| |].
  - intros n Hn. by rewrite lookup_insert_ne.
  - by rewrite lookup_insert_eq.
Qed.

Lemma stands_same s s' F : stands_for s F -> sm_ok s' -> device_ok s' -> disk s' = disk s ->
  (forall n x, rep osz s n x -> rep osz s' n x) -> stands_for s' F.
Proof.
  intros (_ & _ & HF) Hok Hdev Hd Hr. split; [done|]. split; [done|]. intros n. specialize (HF n).
  destruct (F !! n); [by apply Hr|]. by rewrite Hd.
Qed.

Lemma stands_errno s F e : stands_for s F -> stands_for (with_errno e s) F.
Proof. intros HF. eapply stands_same; [exact HF|..]; try done; by destruct HF as ([] & ? & _). Qed.

Lemma stands_calls s F c : stands_for s F -> stands_for (with_calls c s) F.
Proof. intros HF. eapply stands_same; [exact HF|..]; try done; by destruct HF as ([] & ? & _). Qed.

(** A file that does not exist. *)
Lemma open_absent name s : sm_ok s -> disk s !! name = None -> MetadataFile_open name s = (Val (mkMeta name [] false), s).
Proof.
  intros Hok Hd. unfold MetadataFile_open, cache_get, mbind, M_bind. destruct (jlookup s !! name) eqn:E.
  { apply (ok_cache s Hok) in E. congruence. }
  unfold gets. by rewrite Hd.
Qed.

(** A file that exists is opened. *)
Lemma reopen_wp name bs creat s : sm_ok s -> device_ok s -> rep osz s name bs ->
  wp (open osz name creat false) s (fun r s' => r = (0, zlen bs) /\ sm_ok s' /\ device_ok s' /\ disk s' = disk s /\
    forall n x, rep osz s n x -> rep osz s' n x).
Proof.
  intros Hok Hdev (t & Hd & Hr). unfold open. apply wp_bind. eapply wp_mono; [by eapply open_working|].
  intros md s1 ([Hb Hr1] & Ho1 & Hj1). destruct (opened_ok osz name s t s1 md Hok Hd Hb Ho1 Hj1) as (Hok1 & Hdev1 & Hd1 & Hrep1).
  rewrite (proj2 (w_md _ _ _ _ _ _ Hb)). cbn [negb]. rewrite andb_false_r. cbn [andb]. wp_steps.
  rewrite Hd1, Hd. unfold getLength. wp_steps.
  rewrite (busy_jsontree _ _ _ _ _ _ Hb). destruct Hr as (_ & -> & _). done.
Qed.


Lemma exec_refines o s F r F' : stands_for s F -> fits s -> spec osz F o = Some (r, F') ->
  wp (exec o) s (fun r' s' => r' = r /\ stands_for s' F').
Proof.
  intros HF Hfit Hs. pose proof HF as (Hok & Hdev & Hfiles).
  destruct o as [n creat|n data off|n data|n size|n off len|n]; simpl in Hs; specialize (Hfiles n); cbn [exec]; apply wp_bind;
    destruct (F !! n) as [bs|] eqn:Hn; simplify_eq.
  - eapply wp_mono; [by apply reopen_wp|]. intros r0 s' (-> & Hok' & Hdev' & Hd' & Hr'). wp_steps. split; [done|].
    by eapply stands_same.
  - destruct creat; simplify_eq.
    + eapply wp_mono; [by apply (create_wp osz)|]. intros r0 s' (-> & Hst & Hr'). wp_steps. split; [done|]. by eapply stands_set.
    + unfold open, wp. rewrite (bind_Val _ _ _ _ _ (open_absent n s Hok Hfiles)). unfold gets, mbind, M_bind, mret, M_ret. simpl.
      rewrite Hfiles. simpl. split; [done|]. by apply stands_errno.
  - case_match eqn:Hb; simplify_eq. repeat rewrite andb_true_iff in Hb. destruct Hb as ((((H1' & H2') & H3') & H4') & H5').
    apply Z.leb_le in H1'. apply Z.ltb_lt in H2', H3', H4'. unfold write. apply wp_bind.
    eapply wp_mono; [apply (write_file_wp osz Hosz n bs data off s); try done|].
    { intros ->. by vm_compute in H2'. }
    { apply orb_true_iff in H5' as [?%Z.leb_le|?%Z.leb_le]; [by left|by right]. }
    intros r0 s' (-> & Hst & Hr'). unfold note. wp_steps. rewrite i32_small by lia. split; [done|].
    apply stands_calls. by eapply stands_set.
  - unfold write, write_file, wp. unfold mbind at 1, M_bind at 1. rewrite (bind_Val _ _ _ _ _ (open_absent n s Hok Hfiles)).
    simpl. split; [done|]. by apply stands_calls, stands_errno.
  - case_match eqn:Hb; simplify_eq. apply andb_true_iff in Hb as [H1'%Z.ltb_lt H2'%Z.ltb_lt].
    eapply wp_mono; [apply (append_wp osz Hosz n bs data s); try done|].
    { intros ->. by vm_compute in H1'. }
    intros r0 s' (-> & Hst & Hr'). wp_steps. split; [done|]. by eapply stands_set.
  - unfold append, wp. rewrite (bind_Val _ _ _ _ _ (open_absent n s Hok Hfiles)).
    simpl. split; [done|]. by apply stands_errno.
  - case_match eqn:Hb; simplify_eq. repeat rewrite andb_true_iff in Hb. destruct Hb as [[H1'%Z.leb_le H2'%Z.ltb_lt] H3'].
    eapply wp_mono; [apply (truncate_wp osz Hosz fresh n bs size s); try done|].
    { unfold in_reach in H3'. repeat rewrite orb_true_iff in H3'. rewrite !Z.leb_le in H3'. lia. }
    intros r0 s' (-> & Hst & Hr'). wp_steps. split; [done|]. by eapply stands_set.
  - unfold truncate, truncate_file, wp. rewrite (bind_Val _ _ _ _ _ (open_absent n s Hok Hfiles)).
    simpl. split; [done|]. by apply stands_errno.
  - case_match eqn:Hb; simplify_eq. repeat rewrite andb_true_iff in Hb. destruct Hb as [[H1'%Z.leb_le H2'%Z.ltb_lt] H3'%Z.ltb_lt].
    eapply wp_mono; [apply (read_wp osz Hosz fresh n bs off len s); try done|].
    intros [r0 d] s' ([= -> ->] & Hok' & Hdev' & _ & Hd' & Hr'). wp_steps. split; [done|]. by eapply stands_same.
  - unfold read, wp. rewrite (bind_Val _ _ _ _ _ (open_absent n s Hok Hfiles)).
    simpl. split; [done|]. by apply stands_errno.
  - eapply wp_mono; [by apply (delete_wp osz Hosz n bs s)|]. intros u s' [Hst Hd']. wp_steps. split; [done|].
    eapply stands_stays; [exact HF|exact Hst| |by rewrite lookup_delete_eq]. intros q Hq. by rewrite lookup_delete_ne.
Qed.

(** The state that a prefix of the operations leaves. *)
Lemma exec_all_state o os r s s1 : exec o s = (Val r, s1) -> (exec_all (o :: os) s).2 = (exec_all os s1).2.
Proof.
  intros E. cbn [exec_all]. rewrite (bind_Val _ _ _ _ _ E). unfold mbind at 1, M_bind at 1.
  by destruct (exec_all os s1) as [[]?].
Qed.

(** C13. The storage manager is a file system: any sequence of opens, writes, appends,
    truncations, reads and deletions that starts in a state that stands for the files
    [F] returns what the same sequence returns on byte strings, and ends in a state that
    stands for the files it leaves, although every file is cut into objects and every
    change of an object goes to its journal.  The device may transfer as little as a
    byte per write.  Writes start within the file, or at or behind the end of its last
    object, and journals stay below 2^62 bytes. *)
Theorem storage_is_files os s F rs F' : stands_for s F -> spec_all osz F os = Some (rs, F') ->
  (forall k, fits (exec_all (take k os) s).2) ->
  wp (exec_all os) s (fun r s' => r = rs /\ stands_for s' F').
Proof.
  revert s F rs. induction os as [|o os IH]; intros s F rs HF Hs Hfit; simpl in Hs.
  { simplify_eq. by apply wp_ret. }
  destruct (spec osz F o) as [[r F1]|] eqn:Ho; [|done]. simpl in Hs.
  destruct (spec_all osz F1 os) as [[rs1 F2]|] eqn:Hos; [|done]. simplify_eq/=.
  destruct (wp_run _ _ _ (exec_refines o s F r F1 HF (Hfit 0%nat) Ho)) as (r' & s1 & E & -> & HF1).
  apply wp_bind. eapply run_wp; [exact E|]. apply wp_bind.
  eapply wp_mono; [eapply (IH s1 F1 rs1 HF1 Hos)|].
  - intros k. specialize (Hfit (S k)). cbn [take] in Hfit. by rewrite (exec_all_state _ _ _ _ _ E) in Hfit.
  - intros rs' s' [-> HF2]. by apply wp_ret.
Qed.

End refinement.

(** *** Merging *)

Lemma bigJ_whole `{JsonHeaderOk} osz (Hosz : osz < 2 ^ 31) p s f es ret : rplan s = [] -> file_at p s = Some f ->
  is_journal osz f es -> zlen ret < 2 ^ 61 ->
  exists br, mergeJournalInMem_bigJ ret (zlen ret) p s = (Val (0, overlay 0 ret es, br), s).
Proof.
  intros Hr Hp Hj Hret. destruct (is_journal_split osz f es Hj) as (m & Hm & H52 & Hf & Hes).
  assert (contents p s = f) as Hc by (unfold contents; by rewrite Hp). rewrite Hf in Hc.
  unfold mergeJournalInMem_bigJ. rewrite (bind_Val _ _ _ _ _ (sys_open_ok p s f Hr Hp false)).
  change (0 <? 0) with false. cbn beta iota.
  rewrite (bind_Val _ _ _ _ _ (read_header_spec p s m _ Hr Hm Hc)).
  unfold mbind at 1, M_bind at 1, gets. rewrite Hc. rewrite <- H52.
  eapply bigJ_entries_spec; try done. apply entries_fuel.
Qed.

(** C22. Three routines merge a journal into an object: one for a range, one for a whole
    object with the journal in memory, one for a whole object with the journal in the
    file.  On a well-formed journal all three lay the entries over the data in the order
    they were written, clipped to the range. *)
Theorem merges_replay_journal `{JsonHeaderOk} (fresh : Z -> Z) osz dir key s obj f es offset len ret :
  osz < 2 ^ 31 -> rplan s = [] -> objs s !! (dir, key) = Some obj -> jrns s !! (dir, key) = Some f ->
  is_journal osz f es -> zlen f < 2 ^ 62 -> 0 <= offset -> 0 <= len -> offset + len < 2 ^ 61 -> zlen ret < 2 ^ 61 ->
  (exists n, mergeJournal fresh (Obj dir key) (Jrn dir key) offset len s =
     (Val (Some (overlay offset (base fresh obj offset len) es), n), s)) /\
  (exists n, mergeJournalInMem ret (zlen ret) (Jrn dir key) s = (Val (0, overlay 0 ret es, n), s)) /\
  (exists n, mergeJournalInMem_bigJ ret (zlen ret) (Jrn dir key) s = (Val (0, overlay 0 ret es, n), s)).
Proof.
  intros Hosz Hr Ho Hf Hj Hz Hoff Hlen Hsum Hret. split_and!.
  - by eapply mergeJournal_spec.
  - by eapply mergeJournalInMem_spec.
  - by eapply bigJ_whole.
Qed.

(** *** Faults *)

(** C21. Whatever the device does (writes that fail, that transfer a part, or, as long as it
    does not do so for ever, nothing at all; reads that fail or come short), adding an entry
    to an existing journal returns, changes no other file, and leaves the bytes of the
    entries the journal already had where they are.  The entry fits an object and objects
    are below 2^31 bytes.  A device that stops transferring without failing keeps the call
    in its loop for ever ([stalled_entry_never_ends]). *)
Theorem journal_survives_faults `{JsonHeaderOk} osz dir key data offset m es s :
  live (wplan s) -> jrns s !! (dir, key) = Some (journal m es) -> 0 <= m < 10 ^ 11 -> osz < 2 ^ 31 -> entry_ok osz (offset, data) ->
  let old := concat (entry_bytes <$> es) in
  exists r s' f, addJournalEntry dir key data offset s = (Val r, s') /\
    jrns s' !! (dir, key) = Some f /\ 52 + zlen old <= zlen f /\ slice f 52 (zlen old) = old /\
    objs s' = objs s /\ disk s' = disk s /\ forall q, q <> (dir, key) -> jrns s' !! q = jrns s !! q.
Proof.
  intros Hlive Hf Hm Hosz Hok old.
  destruct (wp_run _ _ _ (addJournalEntry_guarded osz dir key data offset m es s Hlive Hf Hm Hosz Hok)) as (r & s' & E & Hg).
  destruct Hg as ((f & Hjf & Hl & Hs) & Ho & Hd & _ & Hq & _). by exists r, s', f.
Qed.

(** The loop that writes the data of an entry asks again when a write transferred nothing
    (Replicator.cpp:370): when the device has come to that, no number of rounds is enough. *)
Theorem stalled_entry_never_ends p b data offset eho s : planned (wplan s) = [] -> ever_after (wplan s) = Moves 0 ->
  errno s <> EINTR -> data <> [] -> forall fuel, entry_rounds fuel p b data offset eho 0 s = (Fault OutOfFuel, s).
Proof.
  intros Hp He Hi Hd. assert (0 < zlen data) by (destruct data; [done|unfold zlen; simpl; lia]).
  assert (forall pos, _write p pos data s = (Val 0, s)) as Hw.
  { intros pos. unfold _write, rounds. cbn [write_rounds]. unfold sys_write, sys_pwrite, next_write, mbind, M_bind.
    rewrite Hp, He. cbn beta iota. rewrite drop_0, Z.min_l, Z.max_l by lia. cbn [Z.ltb Z.compare Z.eqb mret M_ret gets orb andb].
    rewrite (proj2 (Z.eqb_neq _ _) Hi). done. }
  induction fuel as [|fuel IH]; cbn [entry_rounds]; destruct (Z.leb_spec (zlen data) 0); try lia; [done|].
  rewrite drop_0. rewrite (bind_Val _ _ _ _ _ (Hw _)). change (i32 0 <? 0) with false. exact IH.
Qed.

Lemma check_header_keeps `{JsonHeaderOk} dir key m' m es s :
  rplan s = [] -> contents (Jrn dir key) s = journal m es -> 0 <= m < 10 ^ 11 -> m' <= m ->
  check_header dir key m' s = (Val (inr (false, header_text m)), s).
Proof.
  intros Hr Hf Hm Hm'. unfold check_header, try_catch.
  assert (seekToEndOfHeader1 (Jrn dir key) s = (Val (header_text m, zlen (header_text m) + 1), s)) as Eh.
  { eapply seek_spec; [done|apply Hf|apply header_nonzero|]. rewrite header_length by done. lia. }
  unfold mbind at 1, M_bind at 1. rewrite (bind_Val _ _ _ _ _ Eh). cbn [mret M_ret fst].
  destruct (read_header_text m ltac:(lia)) as (t & -> & ->). by destruct (Z.ltb_spec m m'); [lia|].
Qed.

(** A write that transfers [k] bytes and then fails. *)
Lemma write_torn p pos data s k e : wplan s = steady [Moves k; Fails e] -> 0 < k < zlen data ->
  _write p pos data s =
    (Val k, with_errno e (with_wplan (steady []) (file_set p (splice (contents p s) pos (take (Z.to_nat k) data)) s))).
Proof.
  intros Hw Hk. unfold _write, rounds. generalize (length (planned (wplan s)) + length data)%nat. intros fuel. cbn [write_rounds]. rewrite drop_0, Z.add_0_r.
  unfold sys_write, sys_pwrite, next_write. unfold mbind, M_bind. rewrite Hw. cbn [planned ever_after steady contents file_at].
  rewrite Z.max_r, Z.min_l by lia. destruct (Z.ltb_spec 0 k) as [Hk0|]; [|lia].
  cbn [modify mret M_ret gets]. destruct (Z.ltb_spec k 0); [lia|]. destruct (Z.eqb_spec k 0); [lia|]. cbn [orb andb].
  rewrite Z.add_0_l. destruct (Z.ltb_spec k (zlen data)); [|lia].
  destruct p; cbn -[splice]; by rewrite ?(bool_decide_eq_true_2 _ Hk0), ?(proj2 (Z.ltb_lt 0 k) Hk0).
Qed.

(** C39. When an entry is added to an existing journal whose header need not change (its
    max_offset covers the entry) and the device takes a part of the entry's header and then
    fails once, the entry is cut off again and the files are as before, but the number of
    header bytes is returned as the number of data bytes written: the caller is told that up
    to fifteen bytes that are nowhere were written.  (The first entry of a new journal is
    another case: there the journal's header is blanked,
    [failed_first_entry_poisons_object].) *)
Theorem torn_header_counts_as_data `{JsonHeaderOk} osz dir key data offset m es s k e :
  jrns s !! (dir, key) = Some (journal m es) -> 0 <= m < 10 ^ 11 -> osz < 2 ^ 31 -> entry_ok osz (offset, data) ->
  offset + zlen data - 1 <= m -> rplan s = [] -> wplan s = steady [Moves k; Fails e] -> 0 < k < 16 ->
  exists s', addJournalEntry dir key data offset s = (Val k, s') /\
    jrns s' = jrns s /\ objs s' = objs s /\ disk s' = disk s.
Proof.
  intros Hf Hm Hosz (Ho & Hl & Hle) Hmax Hr Hw Hk. simpl in Ho, Hl, Hle.
  unfold addJournalEntry. rewrite u64_small by lia.
  rewrite (bind_Val _ _ s true s) by (unfold gets; simpl; rewrite Hf; done). cbn [negb].
  rewrite (bind_Val _ _ _ _ _ (sys_open_ok (Jrn dir key) s _ Hr Hf _)). change (0 <? 0) with false. cbn iota.
  rewrite (bind_Val _ _ s (inr (false, header_text m)) s)
    by (apply (check_header_keeps _ _ _ m es); [done|unfold contents; simpl; by rewrite Hf|done|lia]).
  unfold append_entry. rewrite (bind_Val _ _ s (zlen (contents (Jrn dir key) s)) s) by done.
  rewrite (bind_Val _ _ _ _ _ (write_torn _ _ _ _ k e Hw ltac:(rewrite zlen_offlen; lia))).
  rewrite i32_small by lia. unfold JOURNAL_ENTRY_HEADER_SIZE. rewrite splice_at_end.
  match goal with |- context [mbind _ _ (with_errno e ?x)] => set (s1 := with_errno e x) end.
  rewrite (bind_Val _ _ s1 (errno s1) s1) by done. destruct (Z.eqb_spec k 16); [lia|]. cbn [negb].
  unfold undo_entry_header. cbn [negb].
  rewrite (bind_Val _ _ s1 true s1) by done. cbn [negb].
  eexists. split.
  { unfold sys_ftruncate, mbind at 1, M_bind at 1. unfold mbind at 1, M_bind at 1.
    assert (next_write s1 = (Val (Moves (2 ^ 63)), s1)) as -> by done. reflexivity. }
  unfold s1, contents. cbn [file_at]. rewrite Hf. revert Hf. generalize (journal m es). intros f Hf.
  cbn -[take insert lookup resize_to app]. rewrite lookup_insert_eq. cbn [default from_option id].
  rewrite resize_cut by done. rewrite insert_insert_eq. by rewrite insert_id.
Qed.

End SmClaims.

(** ** Concrete instances, witnesses and corner cases *)
Module SmExamples.
Import SmFs SmMeta SmJournal SmIo SmThms SmIoThms SmKeys SmFaults SmClaims.

(** *** What boost supplies, made concrete *)

Fixpoint unary (n : nat) : string :=
  match n with O => EmptyString | S n => String (Ascii.ascii_of_nat 117) (unary n) end.

#[export] Instance uuid_unary : UuidGen := {| uuid := unary |}.

#[export] Instance uuid_unary_ok : UuidOk.
Proof.
  split.
  - intros m. induction m as [|m IH]; intros [|n] E; simpl in E; try done. injection E as E. f_equal. by apply IH.
  - intros n. induction n as [|n IH]; [done|]. simpl in *. by rewrite IH.
Qed.

Definition number (l : list Z) : Z := foldl (fun a d => 10 * a + (d - 48)) 0 l.

#[export] Instance header_reader : JsonHeader := {|
  ptree := Z;
  read_json l := if (40 <? length l)%nat then Some (number (take (length l - 40) (drop 37 l))) else None;
  get_max_offset t := Some t |}.

#[export] Instance header_reader_ok : JsonHeaderOk.
Proof.
  intros m Hm. exists m. split; [|done].
  assert (exists a b, length a = 37%nat /\ length b = 3%nat /\ header_text m = a ++ format_011u m ++ b) as (a & b & Ha & Hb & E).
  { exists (take 37 (header_text 0)), (drop 48 (header_text 0)). split_and!; [by vm_compute..|].
    unfold header_text. generalize (format_011u m). intros l. vm_compute. reflexivity. }
  assert (11 <= length (format_011u m))%nat as Hlen by exact (digits_at_least 20 11 m [] ltac:(lia)).
  cbn [read_json header_reader]. rewrite E, !length_app, Ha, Hb.
  destruct (Nat.ltb_spec 40 (37 + (length (format_011u m) + 3))); [|lia]. f_equal.
  rewrite drop_app_length' by done.
  replace (37 + (length (format_011u m) + 3) - 40)%nat with (length (format_011u m)) by lia. rewrite take_app_length.
  unfold number, format_011u. rewrite digits_number; [done|].
  assert (2 ^ 64 < 10 ^ Z.of_nat 20) by (by vm_compute). lia.
Qed.

#[export] Instance no_cloud : CloudStore := {| cloud _ := None |}.

(** A storage manager without files. *)
Definition s0 : st := mkSt ∅ ∅ ∅ ∅ [] (steady []) [] 0 [] 0.

Lemma s0_stands : stands_for 8 s0 ∅.
Proof.
  split; [|split; [by split; [split; [constructor|by exists (2 ^ 63)]|]|]].
  - split; simpl; intros *; rewrite ?lookup_empty; try done. by intros [[]|[]].
  - intros n. by rewrite lookup_empty.
Qed.

(** Objects of 8 bytes, and a device that writes a byte, then three, and in the end five at a time. *)
Definition demo : list op :=
  [Open "d/f" true; Append "d/f" [1; 2; 3; 4; 5]; Write "d/f" [6; 7; 8; 9; 10; 11; 12] 3; Read "d/f" 1 20;
   Write "d/f" [13] 20; Truncate "d/f" 18; Read "d/f" 7 20; Open "d/g" true; Append "d/g" [14]; Unlink "d/f";
   Read "d/g" 0 1; Write "d/f" [1] 0].

Definition short_device : st :=
  with_wplan (mkDevice [Moves 1; Moves 3; Moves 2; Moves 1; Moves 10; Moves 1; Moves 7] (Moves 5)) s0.

Lemma short_stands : stands_for 8 short_device ∅.
Proof.
  destruct s0_stands as (Hok & _ & Hf). split; [by destruct Hok|]. split; [|done].
  split; [|done]. split; [simpl; repeat constructor|]; eexists; (split; [done|lia]).
Qed.

Lemma fits_dec s : bool_decide (map_Forall (fun _ f => zlen f < 2 ^ 62) (jrns s)) = true -> fits s.
Proof. intros Hb%bool_decide_eq_true d k f Hf. exact (Hb (d, k) f Hf). Qed.

Lemma demo_fits k : fits (exec_all 8 (fun _ => 99) (take k demo) short_device).2.
Proof.
  apply fits_dec. do 12 (destruct k as [|k]; [by vm_compute|]). rewrite take_ge by (simpl; lia). by vm_compute.
Qed.

Definition demo_results : list result :=
  [Size 0 0; Num 5; Num 7; Data 9 [2; 3; 6; 7; 8; 9; 10; 11; 12]; Num 1; Num 0;
   Data 11 [10; 11; 12; 0; 0; 0; 0; 0; 0; 0; 0]; Size 0 0; Num 1; Num 0; Data 1 [14]; Num (-1)].

Lemma demo_spec : spec_all 8 ∅ demo = Some (demo_results, {["d/g" := [14]]}).
Proof. by vm_compute. Qed.

Lemma storage_is_files_witness :
  wp (exec_all 8 (fun _ => 99) demo) short_device (fun r s' => r = demo_results /\ stands_for 8 s' {["d/g" := [14]]}).
Proof.
  apply (storage_is_files 8 ltac:(lia) (fun _ => 99) demo short_device ∅ demo_results {["d/g" := [14]]}
    short_stands demo_spec demo_fits).
Defined.

(** A journal with two entries. *)
Definition two_entries : list entry := [(0, [1; 2; 3]); (2, [4; 5])].
Definition s_two : st :=
  with_jrns {[("d", "k") := journal 3 two_entries]} (with_objs {[("d", "k") := [9; 9; 9; 9; 9; 9]]} s0).

Lemma two_ok : is_journal 8 (journal 3 two_entries) two_entries.
Proof. exists 3. split; [lia|]. split; [done|]. apply Forall_cons. split; [|apply Forall_cons; split; [|by apply Forall_nil]]; by vm_compute. Qed.

Lemma two_small : zlen (journal 3 two_entries) < 2 ^ 62.
Proof. by vm_compute. Qed.

Lemma merges_replay_journal_witness :
  (exists n, mergeJournal (fun _ => 0) (Obj "d" "k") (Jrn "d" "k") 1 4 s_two =
     (Val (Some (overlay 1 (base (fun _ => 0) [9; 9; 9; 9; 9; 9] 1 4) two_entries), n), s_two)) /\
  (exists n, mergeJournalInMem [9; 9] (zlen [9; 9]) (Jrn "d" "k") s_two = (Val (0, overlay 0 [9; 9] two_entries, n), s_two)) /\
  (exists n, mergeJournalInMem_bigJ [9; 9] (zlen [9; 9]) (Jrn "d" "k") s_two = (Val (0, overlay 0 [9; 9] two_entries, n), s_two)).
Proof.
  apply (merges_replay_journal (fun _ => 0) 8 "d" "k" s_two [9; 9; 9; 9; 9; 9] (journal 3 two_entries) two_entries 1 4 [9; 9]);
    [lia|reflexivity|reflexivity|reflexivity|apply two_ok|apply two_small|lia|lia|lia|reflexivity].
Defined.

(** The header has to be rewritten, which fails after 40 bytes; so does the attempt to
    put it back, and everything that follows. *)
Definition s_faulty : st := with_wplan (mkDevice [Moves 40; Fails 5; Moves 0; Moves 7] (Fails 5)) s_two.

Lemma journal_survives_faults_witness :
  let old := concat (entry_bytes <$> two_entries) in
  exists r s' f, addJournalEntry "d" "k" [7; 8] 5 s_faulty = (Val r, s') /\
    jrns s' !! ("d", "k") = Some f /\ 52 + zlen old <= zlen f /\ slice f 52 (zlen old) = old /\
    objs s' = objs s_faulty /\ disk s' = disk s_faulty /\ forall q, q <> ("d", "k") -> jrns s' !! q = jrns s_faulty !! q.
Proof.
  apply (journal_survives_faults 8 "d" "k" [7; 8] 5 3 two_entries s_faulty); [exact I|reflexivity|lia|lia|].
  split; [simpl; lia|]. split; vm_compute; [reflexivity|discriminate].
Defined.

(** An entry of eight bytes, of whose header the device takes eight. *)
Definition s_torn : st := with_wplan (steady [Moves 8; Fails 28]) (with_jrns {[("d", "k") := journal 7 two_entries]} s_two).

Lemma torn_header_counts_as_data_witness :
  exists s', addJournalEntry "d" "k" [1; 2; 3; 4; 5; 6; 7; 8] 0 s_torn = (Val 8, s') /\
    jrns s' = jrns s_torn /\ objs s' = objs s_torn /\ disk s' = disk s_torn.
Proof.
  apply (torn_header_counts_as_data 8 "d" "k" [1; 2; 3; 4; 5; 6; 7; 8] 0 7 two_entries s_torn 8 28);
    [reflexivity|lia|lia| |vm_compute; discriminate|reflexivity|reflexivity|lia].
  split; [simpl; lia|]. split; vm_compute; [reflexivity|discriminate].
Defined.

Lemma key_fields_roundtrip_witness :
  exists u key s', getNewKey "data1/000.dir/FILE_0.cdf" 16 8 s0 = (Val key, s') /\
    key_says key u 16 8 "data1/000.dir/FILE_0.cdf" /\
    (exists k, setOffsetInKey key 24 = Val k /\ key_says k u 24 8 "data1/000.dir/FILE_0.cdf") /\
    (exists k, setLengthInKey key 5 = Val k /\ key_says k u 16 5 "data1/000.dir/FILE_0.cdf") /\
    (exists u' k s'', getNewKeyFromOldKey key 5 s' = (Val k, s'') /\ u' <> u /\ k <> key /\
       key_says k u' 16 5 "data1/000.dir/FILE_0.cdf").
Proof.
  apply (key_fields_roundtrip "data1/000.dir/FILE_0.cdf" 16 8 s0 24 5); [lia|lia|reflexivity|lia|lia].
Defined.

(** *** Behaviour that looks unintended *)

(** A write that starts behind the end of the file but within its last object leaves
    the bytes between as they are: a read shows there whatever the memory of its buffer
    held, or, after a truncation, the bytes that were cut off, and not zeros, as a write
    behind the last object does. *)
Theorem gap_in_last_object_shows_garbage (fresh : Z -> Z) :
  (exec_all 8 fresh [Open "d/f" true; Append "d/f" [1; 2; 3]; Write "d/f" [9] 5; Read "d/f" 0 10] s0).1 =
    Val [Size 0 0; Num 3; Num 1; Data 6 [1; 2; 3; fresh 3; fresh 4; 9]] /\
  (exec_all 8 fresh [Open "d/f" true; Append "d/f" [1; 2; 3; 4; 5]; Truncate "d/f" 2; Write "d/f" [9] 5; Read "d/f" 0 10] s0).1 =
    Val [Size 0 0; Num 5; Num 0; Num 1; Data 6 [1; 2; 3; 4; 5; 9]] /\
  (exec_all 8 fresh [Open "d/f" true; Append "d/f" [1; 2; 3]; Write "d/f" [9] 9; Read "d/f" 0 10] s0).1 =
    Val [Size 0 0; Num 3; Num 1; Data 10 [1; 2; 3; 0; 0; 0; 0; 0; 0; 9]].
Proof. split_and!; by vm_compute. Qed.

(** A file of eight bytes whose object has a journal. *)
Definition s_eight : st :=
  (exec_all 8 (fun _ => 0) [Open "d/f" true; Append "d/f" [1; 2; 3; 4; 5; 6; 7; 8];
     Write "d/f" [11; 12; 13; 14; 15; 16; 17; 18] 0] s0).2.

(** When the device takes the first eight bytes of an entry's header and then fails,
    the entry is removed, but the number of header bytes is returned as the number of data
    bytes: a write of eight bytes reports complete success, and a read shows that nothing
    was written. *)
Theorem lost_write_reports_success (fresh : Z -> Z) :
  (exec_all 8 fresh [Write "d/f" [21; 22; 23; 24; 25; 26; 27; 28] 0; Read "d/f" 0 8]
     (with_wplan (steady [Moves 8; Fails 28]) s_eight)).1 =
  Val [Num 8; Data 8 [11; 12; 13; 14; 15; 16; 17; 18]].
Proof. by vm_compute. Qed.

(** A file whose object has no journal yet. *)
Definition s_plain : st := (exec_all 8 (fun _ => 0) [Open "d/f" true; Append "d/f" [1; 2; 3; 4]] s0).2.

(** When the first entry of a new journal cannot be written, the header is put back
    to an empty text: the write reports the error, and from then on every read of the
    object throws and every write to it fails, although its data was never touched. *)
Theorem failed_first_entry_poisons_object (fresh : Z -> Z) (s' := (write 8 "d/f" [9] 0 (with_wplan (steady [Moves 52; Fails 28]) s_plain)).2) :
  (write 8 "d/f" [9] 0 (with_wplan (steady [Moves 52; Fails 28]) s_plain)).1 = Val (-1) /\ wplan s' = steady [] /\
  (read 8 fresh "d/f" 0 4 s').1 = Exn (runtime_error "json_parser_error") /\
  (write 8 "d/f" [9] 0 s').1 = Val (-1).
Proof. split_and!; by vm_compute. Qed.

(** A device that takes the header of an entry and then nothing more. *)
Lemma stalled_device_hangs :
  (addJournalEntry "d" "k" [7; 8] 1 (with_wplan (mkDevice [Moves 16] (Moves 0)) s_two)).1 = Fault OutOfFuel.
Proof. by vm_compute. Qed.

End SmExamples.
