(* ===== verification/SmLocks.v ===== *)
(** * The storage manager: the locks of files

    storage-manager/src/RWLock.cpp and the lock table of IOCoordinator.cpp
    ([readLock], [readUnlock], [writeLock], [writeUnlock]): a lock object exists for a
    file while somebody uses it.  Lock calls interleave at every mutex operation and every
    access to shared data; a condition variable may wake without a notification.

    The places of the model are the scoped locks of the program (ScopedReadLock,
    ScopedWriteLock): each takes the lock of one file and gives it back.  A program thread
    owns several places when it nests locks, as copyFile does (IOCoordinator.cpp:1050); it
    then works at one of them at a time ([may_run]).

    - [SmLocks]: lock objects, the stages of a lock call, its moves, the steps of a system.
    - [SmLocksThms]: exclusion, memory safety of the lock objects, no lost wake-up, no
      deadlock when files are locked in an order. *)

From S2P Require Import Prelude.
From stdpp Require Import prelude gmap strings.
Local Open Scope Z_scope.

Module SmLocks.

Inductive mode := Rd | Wr.

Global Instance mode_eq_dec : EqDecision mode.
Proof. solve_decision. Defined.

(** [m] is the place that owns the mutex. *)
Record RWLock := mkLock {
  readersWaiting : Z; readersRunning : Z; writersWaiting : Z; writersRunning : Z; m : option nat }.

Definition new_RWLock : RWLock := mkLock 0 0 0 0 None.

Definition with_m (o : option nat) (L : RWLock) : RWLock :=
  mkLock (readersWaiting L) (readersRunning L) (writersWaiting L) (writersRunning L) o.

Definition inUse (L : RWLock) : bool :=
  negb (readersWaiting L =? 0) || negb (readersRunning L =? 0) ||
  negb (writersWaiting L =? 0) || negb (writersRunning L =? 0).

(** [++readersWaiting], [++writersWaiting] *)
Definition start_waiting (mo : mode) (L : RWLock) : RWLock :=
  match mo with
  | Rd => mkLock (u32 (readersWaiting L + 1)) (readersRunning L) (writersWaiting L) (writersRunning L) (m L)
  | Wr => mkLock (readersWaiting L) (readersRunning L) (u32 (writersWaiting L + 1)) (writersRunning L) (m L)
  end.

(** The conditions of the two waiting loops. *)
Definition must_wait (mo : mode) (L : RWLock) : bool :=
  match mo with
  | Rd => negb (writersWaiting L =? 0) || negb (writersRunning L =? 0)
  | Wr => negb (readersRunning L =? 0) || negb (writersRunning L =? 0)
  end.

Definition start_running (mo : mode) (L : RWLock) : RWLock :=
  match mo with
  | Rd => mkLock (u32 (readersWaiting L - 1)) (u32 (readersRunning L + 1)) (writersWaiting L) (writersRunning L) (m L)
  | Wr => mkLock (readersWaiting L) (readersRunning L) (u32 (writersWaiting L - 1)) (u32 (writersRunning L + 1)) (m L)
  end.

Definition running (mo : mode) (L : RWLock) : Z :=
  match mo with Rd => readersRunning L | Wr => writersRunning L end.

Definition stop_running (mo : mode) (L : RWLock) : RWLock :=
  match mo with
  | Rd => mkLock (readersWaiting L) (u32 (readersRunning L - 1)) (writersWaiting L) (writersRunning L) (m L)
  | Wr => mkLock (readersWaiting L) (readersRunning L) (writersWaiting L) (u32 (writersRunning L - 1)) (m L)
  end.

(** Whom the two unlocking functions notify, after the counter went down. *)
Inductive notification := Nobody | OneWriter | AllReaders.

Definition notifies (mo : mode) (L : RWLock) : notification :=
  match mo with
  | Rd => if (readersRunning L =? 0) && negb (writersWaiting L =? 0) then OneWriter else Nobody
  | Wr => if negb (writersWaiting L =? 0) then OneWriter
          else if negb (readersWaiting L =? 0) then AllReaders else Nobody
  end.

(** Where a lock call is between taking and giving back the lock of a file; [p] is the
    address of the lock object it works with.  From [Insert] to [HandOver] and from
    [Lookup] to [Free] it owns [lockMutex]; at [HandOver], [Queue], [Test], [Release] and
    [InUse] it owns the lock object's mutex. *)
Inductive stage :=
| Enter | Insert | Lock (p : nat) | HandOver (p : nat) | Queue (p : nat) | Test (p : nat)
| Asleep (p : nat) | Woken (p : nat) | Inside
| Lookup | Unlock (p : nat) | Release (p : nat) | Check (p : nat) | InUse (p : nat) | Free (p : nat) (used : bool).

Inductive pc := Idle | Call (mo : mode) (f : string) (g : stage).

(** The lock calls, the owner of [lockMutex], the lock table, the lock objects by address,
    and the next address. *)
Record state := mkState {
  ths : list pc; lockMutex : option nat; locks : gmap string nat; heap : gmap nat RWLock; next : nat }.

(** What is left open: the lock an idle place asks for, the writer that is notified. *)
Inductive choice := Go | Request (mo : mode) (f : string) | Wake (u : nat).

(** notify_one of [okToWrite]: one of the threads that sleep on it, if there is any. *)
Definition sleeps_on (mo : mode) (p : nat) (x : pc) : bool :=
  match x with Call mo' _ (Asleep q) => bool_decide (mo' = mo) && (q =? p)%nat | _ => false end.

Definition wake (x : pc) : pc := match x with Call mo f (Asleep p) => Call mo f (Woken p) | _ => x end.

Definition notify_one (p : nat) (c : choice) (l : list pc) : option (list pc) :=
  match c with
  | Wake u => match l !! u with
              | Some x => if sleeps_on Wr p x then Some (<[u := wake x]> l) else None
              | None => None
              end
  | _ => if existsb (sleeps_on Wr p) l then None else Some l
  end.

(** notify_all of [okToRead] *)
Definition notify_all (p : nat) (l : list pc) : list pc :=
  (fun x => if sleeps_on Rd p x then wake x else x) <$> l.

Definition notify (n : notification) (p : nat) (c : choice) (l : list pc) : option (list pc) :=
  match n with
  | Nobody => Some l
  | OneWriter => notify_one p c l
  | AllReaders => Some (notify_all p l)
  end.

(** [filename[0] != '/']; the first character of an empty name is a null character. *)
Definition relative (f : string) : bool := negb (String.prefix "/" f).

(** The next move of place [t]: none when it has to wait (for a mutex) or when the choice
    does not apply; a fault when it uses a lock object that does not exist; the exception
    stands for a failed assertion. *)
Section moves.
Context (t : nat) (s : state).

Definition to (x : pc) : state := mkState (<[t := x]> (ths s)) (lockMutex s) (locks s) (heap s) (next s).

(** Take or release [lockMutex]. *)
Definition global (o : option nat) (s : state) : state := mkState (ths s) o (locks s) (heap s) (next s).
Definition put (p : nat) (L : RWLock) (s : state) : state :=
  mkState (ths s) (lockMutex s) (locks s) (<[p := L]> (heap s)) (next s).

Definition take_global (s' : state) : option (outcome state) :=
  match lockMutex s with None => Some (Val (global (Some t) s')) | Some _ => None end.

(** Access to the lock object at [p]. *)
Definition deref (p : nat) (k : RWLock -> option (outcome state)) : option (outcome state) :=
  match heap s !! p with Some L => k L | None => Some (Fault StaleAddress) end.

(** Lock the mutex of the lock object at [p]. *)
Definition take_m (p : nat) (s' : state) : option (outcome state) :=
  deref p (fun L => match m L with None => Some (Val (put p (with_m (Some t) L) s')) | Some _ => None end).

Definition move (c : choice) : option (outcome state) :=
  match ths s !! t with
  | None => None
  | Some Idle => match c with Request mo f => Some (Val (to (Call mo f Enter))) | _ => None end
  | Some (Call mo f g) =>
      match g with
      | Enter => take_global (to (Call mo f Insert))
      | Insert =>
          if negb (relative f) then Some (Exn idb_assert)
          else
            Some (Val match locks s !! f with
                      | Some p => to (Call mo f (Lock p))
                      | None => mkState (<[t := Call mo f (Lock (next s))]> (ths s)) (lockMutex s)
                                  (<[f := next s]> (locks s)) (<[next s := new_RWLock]> (heap s)) (S (next s))
                      end)
      | Lock p => take_m p (to (Call mo f (HandOver p)))
      | HandOver p => Some (Val (global None (to (Call mo f (Queue p)))))
      | Queue p => deref p (fun L => Some (Val (put p (start_waiting mo L) (to (Call mo f (Test p))))))
      | Test p => deref p (fun L =>
          if must_wait mo L then Some (Val (put p (with_m None L) (to (Call mo f (Asleep p)))))
          else Some (Val (put p (with_m None (start_running mo L)) (to (Call mo f Inside)))))
      | Asleep p => Some (Val (to (Call mo f (Woken p))))
      | Woken p => take_m p (to (Call mo f (Test p)))
      | Inside => take_global (to (Call mo f Lookup))
      | Lookup =>
          match locks s !! f with
          | Some p => Some (Val (to (Call mo f (Unlock p))))
          | None => Some (Fault OutOfBounds)
          end
      | Unlock p => take_m p (to (Call mo f (Release p)))
      | Release p => deref p (fun L =>
          if running mo L <=? 0 then Some (Exn idb_assert)
          else
            let L := stop_running mo L in
            match notify (notifies mo L) p c (<[t := Call mo f (Check p)]> (ths s)) with
            | None => None
            | Some l => Some (Val (put p (with_m None L) (mkState l (lockMutex s) (locks s) (heap s) (next s))))
            end)
      | Check p => take_m p (to (Call mo f (InUse p)))
      | InUse p => deref p (fun L => Some (Val (put p (with_m None L) (to (Call mo f (Free p (inUse L)))))))
      | Free p true => Some (Val (global None (to Idle)))
      | Free p false => deref p (fun L =>
          if inUse L then Some (Exn idb_assert)
          else if decide (m L = None)
          then Some (Val (mkState (<[t := Idle]> (ths s)) None (delete f (locks s)) (delete p (heap s)) (next s)))
          else Some (Fault StaleAddress))
      end
  end.
End moves.

(** The states reached with [n] places, whatever the places do: only names of files that
    begin with a slash are never asked for. *)
Definition proper_request (c : choice) : Prop :=
  match c with Request _ f => relative f = true | _ => True end.

Inductive step (s : state) : state -> Prop :=
| step_move t c s' : proper_request c -> move t s c = Some (Val s') -> step s s'.

Definition init (n : nat) : state := mkState (replicate n Idle) None ∅ ∅ 0.

Inductive reachable (n : nat) : state -> Prop :=
| reach_init : reachable n (init n)
| reach_step s s' : reachable n s -> step s s' -> reachable n s'.

(** Program threads: [owner t] is the thread whose lock place [t] is.  A thread works at
    one place at a time; at its other places it holds a lock or has nothing to do. *)
Section threads.
Context (owner : nat -> nat).

Definition settled (x : pc) : bool := match x with Idle | Call _ _ Inside => true | _ => false end.

Definition may_run (s : state) (t : nat) : Prop :=
  forall u x, u <> t -> owner u = owner t -> ths s !! u = Some x -> settled x = true.

(** A thread that has locks asks only for files [asks] lets it ask for: [asks f' f] when it
    may lock [f] while it has [f']. *)
Definition orderly (asks : string -> string -> Prop) (s : state) (t : nat) (c : choice) : Prop :=
  match c with
  | Request mo f => relative f = true /\
      forall u mo' f' g', u <> t -> owner u = owner t -> ths s !! u = Some (Call mo' f' g') -> asks f' f
  | _ => True
  end.

Inductive nested_step (asks : string -> string -> Prop) (s : state) : state -> Prop :=
| nested_move t c s' : may_run s t -> orderly asks s t c -> move t s c = Some (Val s') -> nested_step asks s s'.

Inductive nested_reachable (asks : string -> string -> Prop) (n : nat) : state -> Prop :=
| nested_init : nested_reachable asks n (init n)
| nested_more s s' : nested_reachable asks n s -> nested_step asks s s' -> nested_reachable asks n s'.
End threads.

End SmLocks.

(** ** Theorems *)
Module SmLocksThms.
Import SmLocks.

(** *** Stages *)

Definition ptr (g : stage) : option nat :=
  match g with
  | Lock p | HandOver p | Queue p | Test p | Asleep p | Woken p
  | Unlock p | Release p | Check p | InUse p | Free p _ => Some p
  | _ => None
  end.

Definition has_global (g : stage) : bool :=
  match g with
  | Insert | Lock _ | HandOver _ | Lookup | Unlock _ | Release _ | Check _ | InUse _ | Free _ _ => true
  | _ => false
  end.

Definition has_m (g : stage) : bool :=
  match g with HandOver _ | Queue _ | Test _ | Release _ | InUse _ => true | _ => false end.

(** The threads a counter counts. *)
Definition waits (g : stage) : bool := match g with Test _ | Asleep _ | Woken _ => true | _ => false end.
Definition runs (g : stage) : bool := match g with Inside | Lookup | Unlock _ | Release _ => true | _ => false end.
Definition asleep (g : stage) : bool := match g with Asleep _ => true | _ => false end.
Definition awake (g : stage) : bool := match g with Test _ | Woken _ => true | _ => false end.

(** *** Counting threads *)

Definition at_stage (q : stage -> bool) (mo : mode) (f : string) (x : pc) : bool :=
  match x with Call mo' f' g => bool_decide (mo' = mo) && bool_decide (f' = f) && q g | Idle => false end.

Definition count (P : pc -> bool) (l : list pc) : Z := foldr (fun x n => Z.b2z (P x) + n) 0 l.

Definition N (q : stage -> bool) (mo : mode) (f : string) (l : list pc) : Z := count (at_stage q mo f) l.

Lemma count_nonneg P l : 0 <= count P l.
Proof. induction l as [|x l IH]; simpl; [done|]. destruct (P x); simpl; lia. Qed.

Lemma count_le_length P l : count P l <= Z.of_nat (length l).
Proof. induction l as [|x l IH]; cbn [count foldr length]; [done|]. fold (count P l). destruct (P x); simpl Z.b2z; lia. Qed.

Lemma count_insert P l t x y : l !! t = Some x -> count P (<[t := y]> l) = count P l - Z.b2z (P x) + Z.b2z (P y).
Proof.
  revert t. induction l as [|z l IH]; intros [|t] E; simplify_eq/=; [lia|].
  rewrite IH by done. lia.
Qed.

Lemma count_pos P l : 0 < count P l -> exists t x, l !! t = Some x /\ P x = true.
Proof.
  induction l as [|x l IH]; simpl; [lia|]. destruct (P x) eqn:E.
  - intros _. by exists 0%nat, x.
  - intros Hp. destruct IH as (t & y & Hy & Hq); [simpl in Hp; lia|]. by exists (S t), y.
Qed.

Lemma count_in P l t x : l !! t = Some x -> P x = true -> 0 < count P l.
Proof.
  revert t. induction l as [|z l IH]; intros [|t] E Hx; simplify_eq/=.
  - rewrite Hx. simpl. pose proof (count_nonneg P l). lia.
  - specialize (IH t E Hx). destruct (P z); simpl; lia.
Qed.

Lemma count_two P l t u x y : t <> u -> l !! t = Some x -> l !! u = Some y -> P x = true -> P y = true -> 2 <= count P l.
Proof.
  revert t u. induction l as [|z l IH]; intros [|t] [|u] Hne Ex Ey Hx Hy; simplify_eq/=.
  - rewrite Hx. pose proof (count_in P l u y Ey Hy). simpl. lia.
  - rewrite Hy. pose proof (count_in P l t x Ex Hx). simpl. lia.
  - specialize (IH t u ltac:(congruence) Ex Ey Hx Hy). destruct (P z); simpl; lia.
Qed.

Lemma count_le P Q l : (forall x, P x = true -> Q x = true) -> count P l <= count Q l.
Proof.
  intros HPQ. induction l as [|x l IH]; simpl; [done|]. specialize (HPQ x).
  destruct (P x); [rewrite HPQ by done|destruct (Q x)]; simpl; lia.
Qed.

Lemma count_fmap P (h : pc -> pc) l : count P (h <$> l) = count (fun x => P (h x)) l.
Proof. induction l as [|x l IH]; [done|]. rewrite fmap_cons. unfold count in *. cbn [foldr]. by rewrite IH. Qed.

Lemma count_ext P Q l : (forall t x, l !! t = Some x -> P x = Q x) -> count P l = count Q l.
Proof.
  induction l as [|x l IH]; intros HPQ; simpl; [done|]. rewrite (HPQ 0%nat x) by done.
  f_equal. apply IH. intros t y Hy. by apply (HPQ (S t)).
Qed.

Definition same (mo mo' : mode) (f f' : string) : bool := bool_decide (mo' = mo) && bool_decide (f' = f).

Lemma N_move q mo f mo' f' g g' l t : l !! t = Some (Call mo' f' g) ->
  N q mo f (<[t := Call mo' f' g']> l) =
    N q mo f l + (if same mo mo' f f' then Z.b2z (q g') - Z.b2z (q g) else 0).
Proof.
  intros Ht. unfold N. rewrite (count_insert _ _ _ _ _ Ht). unfold at_stage, same.
  destruct (bool_decide (mo' = mo) && bool_decide (f' = f)); simpl; lia.
Qed.

Lemma N_idle q mo f mo' f' g l t : l !! t = Some Idle -> q g = false -> N q mo f (<[t := Call mo' f' g]> l) = N q mo f l.
Proof.
  intros Ht Hq. unfold N. rewrite (count_insert _ _ _ _ _ Ht). unfold at_stage. rewrite Hq, andb_false_r. simpl. lia.
Qed.

Lemma N_leave q mo f mo' f' g l t : l !! t = Some (Call mo' f' g) -> q g = false -> N q mo f (<[t := Idle]> l) = N q mo f l.
Proof.
  intros Ht Hq. unfold N. rewrite (count_insert _ _ _ _ _ Ht). unfold at_stage. rewrite Hq, andb_false_r. simpl. lia.
Qed.

Lemma N_zero q mo f l : (forall t g, l !! t = Some (Call mo f g) -> q g = false) -> N q mo f l = 0.
Proof.
  intros Hl. destruct (Z.eq_dec (N q mo f l) 0) as [|Hne]; [done|]. exfalso.
  destruct (count_pos (at_stage q mo f) l) as (t & x & Ht & Hx); [pose proof (count_nonneg (at_stage q mo f) l); unfold N in Hne; lia|].
  unfold at_stage in Hx. destruct x as [|mo' f' g]; [done|].
  apply andb_true_iff in Hx as [[->%bool_decide_eq_true ->%bool_decide_eq_true]%andb_true_iff Hg].
  by rewrite (Hl t g Ht) in Hg.
Qed.

Lemma N_pos q mo f l : 0 < N q mo f l -> exists t g, l !! t = Some (Call mo f g) /\ q g = true.
Proof.
  intros (t & [|mo' f' g] & Ht & Hx)%count_pos; [done|]. unfold at_stage in Hx.
  apply andb_true_iff in Hx as [[->%bool_decide_eq_true ->%bool_decide_eq_true]%andb_true_iff Hg]. by exists t, g.
Qed.

Lemma N_in q mo f l t g : l !! t = Some (Call mo f g) -> q g = true -> 0 < N q mo f l.
Proof. intros Ht Hg. apply (count_in _ _ _ _ Ht). unfold at_stage. by rewrite !bool_decide_eq_true_2, Hg. Qed.

(** *** The invariant *)

(** The counters of a lock object say how many threads wait for and hold the file. *)
Definition counted (L : RWLock) (f : string) (l : list pc) : Prop :=
  readersWaiting L = N waits Rd f l /\ readersRunning L = N runs Rd f l /\
  writersWaiting L = N waits Wr f l /\ writersRunning L = N runs Wr f l.

Record inv (s : state) : Prop := {
  inv_obj : forall f p, locks s !! f = Some p -> exists L, heap s !! p = Some L /\ counted L f (ths s);
  inv_inj : forall f f' p, locks s !! f = Some p -> locks s !! f' = Some p -> f = f';
  inv_next : forall p, (next s <= p)%nat -> heap s !! p = None;
  inv_heap : forall p L, heap s !! p = Some L -> exists f, locks s !! f = Some p;
  inv_ptr : forall t mo f g p, ths s !! t = Some (Call mo f g) -> ptr g = Some p -> locks s !! f = Some p;
  inv_run : forall t mo f g, ths s !! t = Some (Call mo f g) -> runs g = true -> is_Some (locks s !! f);
  inv_glob : forall t, lockMutex s = Some t <-> exists mo f g, ths s !! t = Some (Call mo f g) /\ has_global g = true;
  inv_m : forall p L t, heap s !! p = Some L ->
    (m L = Some t <-> exists mo f g, ths s !! t = Some (Call mo f g) /\ has_m g = true /\ ptr g = Some p);
  inv_free : forall t u mo mo' f p g, ths s !! t = Some (Call mo f (Free p false)) -> u <> t ->
    ths s !! u = Some (Call mo' f g) -> g = Enter;
  inv_excl : forall f, N runs Wr f (ths s) <= 1 /\ (N runs Wr f (ths s) = 0 \/ N runs Rd f (ths s) = 0) }.

Lemma has_m_ptr g : has_m g = true -> exists p, ptr g = Some p.
Proof. destruct g; try done; eauto. Qed.

Lemma counted_ext L L' f l l' :
  (forall mo, N waits mo f l = N waits mo f l' /\ N runs mo f l = N runs mo f l') ->
  readersWaiting L = readersWaiting L' -> readersRunning L = readersRunning L' ->
  writersWaiting L = writersWaiting L' -> writersRunning L = writersRunning L' -> counted L f l -> counted L' f l'.
Proof.
  intros HN E1 E2 E3 E4 (H1 & H2 & H3 & H4). destruct (HN Rd) as [Hr1 Hr2], (HN Wr) as [Hw1 Hw2].
  unfold counted. rewrite <- Hr1, <- Hr2, <- Hw1, <- Hw2. split_and!; congruence.
Qed.

Lemma same_false mo mo' f f' : f' <> f -> same mo mo' f f' = false.
Proof. intros Hf. unfold same. by rewrite (bool_decide_eq_false_2 _ Hf), andb_false_r. Qed.

(** One thread goes from one stage to another; the mutexes change hands accordingly, and
    only the lock object of its file changes. *)
Section advance.
Context (s : state) (I : inv s) (t : nat) (mo : mode) (f : string) (g g' : stage).
Context (Ht : ths s !! t = Some (Call mo f g)).

Abbreviation l' := (<[t := Call mo f g']> (ths s)).

Lemma advance_here : l' !! t = Some (Call mo f g').
Proof. rewrite list_lookup_insert_eq; [done|]. by eapply lookup_lt_Some. Qed.

Lemma advance_there u : u <> t -> l' !! u = ths s !! u.
Proof. intros Hu. by rewrite list_lookup_insert_ne. Qed.

(** The mutex of the lock table. *)
Lemma advance_global lm :
  (has_global g' = true -> has_global g = false -> lockMutex s = None) ->
  lm = (if has_global g' then Some t else if has_global g then None else lockMutex s) ->
  forall u, lm = Some u <-> exists mo f g, l' !! u = Some (Call mo f g) /\ has_global g = true.
Proof.
  intros Hg -> u. pose proof (inv_glob s I u) as Gu. pose proof (inv_glob s I t) as Gt.
  assert (has_global g = true -> lockMutex s = Some t) as Hold by (intros Eg; apply Gt; eauto 6).
  destruct (decide (u = t)) as [->|Hne].
  - rewrite advance_here. split.
    + intros E. exists mo, f, g'. split; [done|]. destruct (has_global g') eqn:Eg'; [done|].
      destruct (has_global g) eqn:Eg; [done|]. apply Gt in E as (? & ? & ? & E & Eg2). rewrite Ht in E. injection E as <- <- <-. congruence.
    + intros (? & ? & ? & E & Eg'). injection E as <- <- <-. by rewrite Eg'.
  - rewrite advance_there by done. rewrite <- Gu. destruct (has_global g') eqn:Eg', (has_global g) eqn:Eg; try done.
    + rewrite Hold by done. split; intros E; congruence.
    + rewrite (Hg eq_refl eq_refl). split; intros E; congruence.
    + rewrite Hold by done. split; intros E; congruence.
Qed.

(** The mutex of the lock object of its file. *)
Lemma advance_m p L L' :
  locks s !! f = Some p -> (forall q, ptr g' = Some q -> locks s !! f = Some q) -> heap s !! p = Some L ->
  (has_m g' = true -> has_m g = false -> m L = None) ->
  m L' = (if has_m g' then Some t else if has_m g then None else m L) ->
  forall u, m L' = Some u <-> exists mo f g, l' !! u = Some (Call mo f g) /\ has_m g = true /\ ptr g = Some p.
Proof.
  intros Hp Hptr HL Hacq Hm u. pose proof (inv_m s I p L u HL) as Mu. pose proof (inv_m s I p L t HL) as Mt. rewrite Hm.
  assert (has_m g = true -> m L = Some t) as Hold.
  { intros Eg. apply Mt. destruct (has_m_ptr g Eg) as [q Hq]. exists mo, f, g. split_and!; try done.
    pose proof (inv_ptr s I _ _ _ _ _ Ht Hq). congruence. }
  destruct (decide (u = t)) as [->|Hne].
  - rewrite advance_here. split.
    + intros E'. exists mo, f, g'. destruct (has_m g') eqn:Eg'.
      * split_and!; try done. destruct (has_m_ptr g' Eg') as [q Hq]. pose proof (Hptr q Hq). congruence.
      * destruct (has_m g) eqn:Eg; [done|]. apply Mt in E' as (? & ? & ? & E' & Eg2 & _).
        rewrite Ht in E'. injection E' as <- <- <-. congruence.
    + intros (? & ? & ? & E' & Eg' & _). injection E' as <- <- <-. by rewrite Eg'.
  - rewrite advance_there by done. rewrite <- Mu. destruct (has_m g') eqn:Eg', (has_m g) eqn:Eg; try done.
    + rewrite Hold by done. split; intros E'; congruence.
    + rewrite Hacq by done. split; intros E'; congruence.
    + rewrite Hold by done. split; intros E'; congruence.
Qed.

Lemma inv_advance lm hp :
  (forall p, ptr g' = Some p -> locks s !! f = Some p) ->
  (runs g' = true -> is_Some (locks s !! f)) ->
  (has_global g' = true -> has_global g = false -> lockMutex s = None) ->
  lm = (if has_global g' then Some t else if has_global g then None else lockMutex s) ->
  (g = Enter -> has_global g' = true) ->
  (forall p, g' = Free p false -> forall u mo' g'', u <> t -> ths s !! u = Some (Call mo' f g'') -> g'' = Enter) ->
  (forall p, locks s !! f <> Some p -> hp !! p = heap s !! p) ->
  (forall p, locks s !! f = Some p -> exists L L', heap s !! p = Some L /\ hp !! p = Some L' /\ counted L' f l' /\
     (has_m g' = true -> has_m g = false -> m L = None) /\
     m L' = (if has_m g' then Some t else if has_m g then None else m L)) ->
  (N runs Wr f l' <= 1 /\ (N runs Wr f l' = 0 \/ N runs Rd f l' = 0)) ->
  inv (mkState l' lm (locks s) hp (next s)).
Proof.
  intros Hptr Hrun Hg Hlm Hent Hfree Hh Ho Hx.
  pose proof advance_here as Htl. pose proof advance_there as Hul.
  assert (HN : forall q mo' f', f' <> f -> N q mo' f' l' = N q mo' f' (ths s)).
  { intros q mo' f' Hf. rewrite (N_move _ _ _ _ _ _ _ _ _ Ht), same_false by done. lia. }
  assert (Hback : forall p, is_Some (hp !! p) -> is_Some (heap s !! p)).
  { intros p [L HL]. destruct (decide (locks s !! f = Some p)) as [E|E].
    - destruct (Ho p E) as (L1 & _ & HL1 & _). eauto.
    - rewrite Hh in HL by done. eauto. }
  split; cbn [ths lockMutex locks heap next].
  - intros f' p Hp. destruct (decide (f' = f)) as [->|Hf].
    + destruct (Ho p Hp) as (L & L' & _ & HL' & Hc & _). eauto.
    + destruct (inv_obj s I f' p Hp) as (L & HL & Hc). exists L. split.
      * rewrite Hh; [done|]. intros E. apply Hf. by eapply inv_inj.
      * eapply counted_ext; [|done..]. intros mo'. by rewrite !HN by done.
  - apply I.
  - intros p Hp. pose proof (inv_next s I p Hp) as Hn. apply eq_None_not_Some. intros Hs%Hback. rewrite Hn in Hs. by destruct Hs.
  - intros p L HL. destruct (Hback p ltac:(eauto)) as [L0 HL0]. by eapply inv_heap.
  - intros u mo' f' g0 p Hu Hp. destruct (decide (u = t)) as [->|Hne]; [|rewrite Hul in Hu by done; by eapply inv_ptr].
    rewrite Htl in Hu. injection Hu as <- <- <-. by apply Hptr.
  - intros u mo' f' g0 Hu Hr. destruct (decide (u = t)) as [->|Hne]; [|rewrite Hul in Hu by done; by eapply inv_run].
    rewrite Htl in Hu. injection Hu as <- <- <-. by apply Hrun.
  - by apply advance_global.
  - intros p L u HL. destruct (decide (locks s !! f = Some p)) as [E|E].
    + destruct (Ho p E) as (L1 & L2 & HL1 & HL2 & _ & Hacq & Hm). assert (L2 = L) as -> by congruence. by eapply advance_m.
    + rewrite Hh in HL by done. rewrite (inv_m s I p L u HL). destruct (decide (u = t)) as [->|Hne]; [|by rewrite Hul].
      rewrite Htl, Ht. split; intros (? & ? & ? & E' & _ & Hp); injection E' as <- <- <-; exfalso; apply E;
        [by apply (inv_ptr s I _ _ _ _ _ Ht)|by apply Hptr].
  - intros u v mo1 mo2 f' p g0 Hu Hne Hv. destruct (decide (u = t)) as [->|Hut].
    { rewrite Htl in Hu. injection Hu as -> -> ->. rewrite Hul in Hv by done. by eapply Hfree. }
    rewrite Hul in Hu by done. destruct (decide (v = t)) as [->|Hvt]; [|rewrite Hul in Hv by done; by eapply inv_free].
    rewrite Htl in Hv. injection Hv as -> -> ->. pose proof (inv_free s I _ _ _ _ _ _ _ Hu Hne Ht) as ->.
    specialize (Hg (Hent eq_refl) eq_refl). assert (lockMutex s = Some u) by (apply (inv_glob s I); eauto 6). congruence.
  - intros f'. destruct (decide (f' = f)) as [->|Hf]; [done|]. rewrite !HN by done. apply I.
Qed.
End advance.

Lemma N_stay q mo f mo' f' g g' l t : l !! t = Some (Call mo' f' g) -> q g' = q g ->
  N q mo f (<[t := Call mo' f' g']> l) = N q mo f l.
Proof. intros Ht Hq. rewrite (N_move _ _ _ _ _ _ _ _ _ Ht), Hq. destruct (same _ _ _ _); lia. Qed.

(** No lock object changes. *)
Lemma inv_stay s t mo f g g' lm :
  inv s -> ths s !! t = Some (Call mo f g) ->
  waits g' = waits g -> runs g' = runs g -> has_m g' = has_m g ->
  (forall p, ptr g' = Some p -> locks s !! f = Some p) ->
  (has_global g' = true -> has_global g = false -> lockMutex s = None) ->
  lm = (if has_global g' then Some t else if has_global g then None else lockMutex s) ->
  (g = Enter -> has_global g' = true) -> (forall p, g' <> Free p false) ->
  inv (mkState (<[t := Call mo f g']> (ths s)) lm (locks s) (heap s) (next s)).
Proof.
  intros I Ht Hw Hr Hm Hptr Hg Hlm He Hf. apply (inv_advance s I t mo f g); try done.
  - intros Er. rewrite Hr in Er. by eapply inv_run.
  - intros p E. by destruct (Hf p).
  - intros p Hp. destruct (inv_obj s I f p Hp) as (L & HL & Hc). exists L, L. split_and!; try done.
    + eapply counted_ext; [|done..]. intros mo'. by rewrite !(N_stay _ _ _ _ _ g g').
    + rewrite Hm. congruence.
    + rewrite Hm. destruct (has_m g) eqn:E; [|done]. apply (inv_m s I p L t HL). exists mo, f, g. split_and!; try done.
      destruct (has_m_ptr g E) as [q Hq]. pose proof (inv_ptr s I _ _ _ _ _ Ht Hq). congruence.
  - rewrite !(N_stay _ _ _ _ _ g g') by done. apply I.
Qed.

(** The thread works on the lock object at [p]. *)
Lemma inv_put s t mo f g g' p L L' :
  inv s -> ths s !! t = Some (Call mo f g) -> ptr g = Some p -> heap s !! p = Some L ->
  (forall q, ptr g' = Some q -> q = p) -> has_global g' = has_global g -> g <> Enter ->
  (forall q, g' = Free q false -> forall u mo' g'', u <> t -> ths s !! u = Some (Call mo' f g'') -> g'' = Enter) ->
  counted L' f (<[t := Call mo f g']> (ths s)) ->
  (has_m g' = true -> has_m g = false -> m L = None) ->
  m L' = (if has_m g' then Some t else if has_m g then None else m L) ->
  (let l' := <[t := Call mo f g']> (ths s) in N runs Wr f l' <= 1 /\ (N runs Wr f l' = 0 \/ N runs Rd f l' = 0)) ->
  inv (put p L' (to t s (Call mo f g'))).
Proof.
  intros I Ht Hp HL Hptr Hg He Hf Hc Hacq Hm Hx. pose proof (inv_ptr s I _ _ _ _ _ Ht Hp) as Hlk.
  apply (inv_advance s I t mo f g); try done.
  - intros q ->%Hptr. done.
  - rewrite Hg. congruence.
  - cbn. rewrite Hg. destruct (has_global g) eqn:E; [|done]. apply (inv_glob s I). by exists mo, f, g.
  - intros q Hq. cbn. apply lookup_insert_ne. congruence.
  - intros q Hq. assert (q = p) as -> by congruence. exists L, L'. cbn. by rewrite lookup_insert_eq.
Qed.

(** The mutex of the lock object is taken or released, nothing else. *)
Lemma inv_mutex s t mo f g g' p L o :
  inv s -> ths s !! t = Some (Call mo f g) -> ptr g = Some p -> ptr g' = Some p -> heap s !! p = Some L ->
  waits g' = waits g -> runs g' = runs g -> has_global g' = has_global g -> g <> Enter ->
  (forall q, g' = Free q false -> forall u mo' g'', u <> t -> ths s !! u = Some (Call mo' f g'') -> g'' = Enter) ->
  (has_m g' = true -> has_m g = false -> m L = None) ->
  o = (if has_m g' then Some t else if has_m g then None else m L) ->
  inv (put p (with_m o L) (to t s (Call mo f g'))).
Proof.
  intros I Ht Hp Hp' HL Hw Hr Hg He Hf Hacq ->. eapply inv_put; try done.
  - congruence.
  - pose proof (inv_ptr s I _ _ _ _ _ Ht Hp) as Hlk. destruct (inv_obj s I f p Hlk) as (L0 & HL0 & Hc).
    assert (L0 = L) as -> by congruence. eapply counted_ext; [|done..]. intros mo'. by rewrite !(N_stay _ _ _ _ _ g g').
  - simpl. rewrite !(N_stay _ _ _ _ _ g g') by done. apply I.
Qed.

(** A state reached by a move: no fault, and the invariant holds again. *)
Definition good (r : option (outcome state)) : Prop :=
  match r with None => True | Some (Val s') => inv s' | Some _ => False end.

Lemma good_take_global s t mo f g g' :
  inv s -> ths s !! t = Some (Call mo f g) -> waits g' = waits g -> runs g' = runs g -> has_m g' = has_m g ->
  ptr g' = None -> has_global g' = true -> has_global g = false -> good (take_global t s (to t s (Call mo f g'))).
Proof.
  intros I Ht Hw Hr Hm Hp Hg' Hg. unfold take_global. destruct (lockMutex s) eqn:E; [done|].
  apply (inv_stay s t mo f g); try done; [congruence|by rewrite Hg'|by intros p ->].
Qed.

Lemma deref_ok s t mo f g p : inv s -> ths s !! t = Some (Call mo f g) -> ptr g = Some p ->
  exists L, heap s !! p = Some L /\ counted L f (ths s).
Proof. intros I Ht Hp. eapply inv_obj; [done|]. by eapply inv_ptr. Qed.

Lemma good_take_m s t mo f g g' p :
  inv s -> ths s !! t = Some (Call mo f g) -> waits g' = waits g -> runs g' = runs g -> ptr g = Some p -> ptr g' = Some p ->
  has_m g' = true -> has_global g' = has_global g -> good (take_m t s p (to t s (Call mo f g'))).
Proof.
  intros I Ht Hw Hr Hp Hp' Hm Hg. destruct (deref_ok s t mo f g p I Ht Hp) as (L & HL & _).
  unfold take_m, deref. rewrite HL. destruct (m L) eqn:E; [done|]. apply (inv_mutex s t mo f g); try done.
  - by intros ->.
  - by intros q ->.
  - by rewrite Hm.
Qed.

(** A lock object for a file that has none: no thread waits for the file or holds it. *)
Lemma fresh_counts s f : inv s -> locks s !! f = None -> counted new_RWLock f (ths s).
Proof.
  intros I Hf.
  assert (forall t mo g, ths s !! t = Some (Call mo f g) -> waits g = false /\ runs g = false) as Hno.
  { intros t mo g Ht. split.
    - destruct (ptr g) as [p|] eqn:E; [|by destruct g]. pose proof (inv_ptr s I _ _ _ _ _ Ht E). congruence.
    - apply not_true_iff_false. intros Hr. destruct (inv_run s I _ _ _ _ Ht Hr). congruence. }
  by unfold counted; rewrite !N_zero by (intros t g Ht; by destruct (Hno _ _ _ Ht)).
Qed.

Lemma good_insert s t mo f : inv s -> ths s !! t = Some (Call mo f Insert) -> locks s !! f = None ->
  inv (mkState (<[t := Call mo f (Lock (next s))]> (ths s)) (lockMutex s)
         (<[f := next s]> (locks s)) (<[next s := new_RWLock]> (heap s)) (S (next s))).
Proof.
  intros I Ht Hf.
  assert (inv (mkState (ths s) (lockMutex s) (<[f := next s]> (locks s)) (<[next s := new_RWLock]> (heap s)) (S (next s)))) as I'.
  { pose proof (inv_next s I (next s) ltac:(lia)) as Hn.
    assert (forall p L, heap s !! p = Some L -> p <> next s) as Hold by (intros p L HL ->; congruence).
    assert (forall f' p, locks s !! f' = Some p -> f' <> f /\ p <> next s) as Hlk.
    { intros f' p Hp. split; [congruence|]. destruct (inv_obj s I f' p Hp) as (L & HL & _). by eapply Hold. }
    split; cbn [ths lockMutex locks heap next]; try by apply I.
    - intros f' p. destruct (decide (f' = f)) as [->|Hne].
      + rewrite lookup_insert_eq. intros [= <-]. exists new_RWLock. rewrite lookup_insert_eq. split; [done|by apply fresh_counts].
      + rewrite lookup_insert_ne by done. intros Hp. destruct (Hlk f' p Hp).
        destruct (inv_obj s I f' p Hp) as (L & HL & Hc). exists L. by rewrite lookup_insert_ne.
    - intros f1 f2 p. rewrite !lookup_insert_Some. intros [[<- <-]|[Hn1 H1]] [[<- E]|[Hn2 H2]]; try done.
      + by destruct (Hlk _ _ H2).
      + destruct (Hlk _ _ H1). congruence.
      + by eapply inv_inj.
    - intros p Hp. rewrite lookup_insert_ne by lia. apply I. lia.
    - intros p L. rewrite lookup_insert_Some. intros [[<- <-]|[Hne HL]].
      + exists f. apply lookup_insert_eq.
      + destruct (inv_heap s I p L HL) as [f' Hf']. destruct (Hlk _ _ Hf'). exists f'. by rewrite lookup_insert_ne.
    - intros u mo' f' g p Hu Hp. pose proof (inv_ptr s I _ _ _ _ _ Hu Hp) as E. destruct (Hlk _ _ E). by rewrite lookup_insert_ne.
    - intros u mo' f' g Hu Hr. destruct (inv_run s I _ _ _ _ Hu Hr) as [p E]. destruct (Hlk _ _ E). rewrite lookup_insert_ne by done. eauto.
    - intros p L u. rewrite lookup_insert_Some. intros [[<- <-]|[Hne HL]]; [|by apply I]. split; [done|].
      intros (mo' & f' & g & Hu & _ & Hp). pose proof (inv_ptr s I _ _ _ _ _ Hu Hp) as E. by destruct (Hlk _ _ E). }
  apply (inv_stay _ t mo f Insert (Lock (next s)) (lockMutex s) I'); try done; cbn [ths lockMutex locks heap next].
  - intros p [= <-]. apply lookup_insert_eq.
  - assert (lockMutex s = Some t) as -> by (apply inv_glob; [done|]; eauto 6). done.
Qed.

(** *** Moves that change the counters *)

Lemma N_mine q mo f g g' l t : l !! t = Some (Call mo f g) ->
  N q mo f (<[t := Call mo f g']> l) = N q mo f l + (Z.b2z (q g') - Z.b2z (q g)).
Proof. intros Ht. rewrite (N_move _ _ _ _ _ _ _ _ _ Ht). unfold same. by rewrite !bool_decide_eq_true_2. Qed.

Lemma N_other q mo mo' f g g' l t : l !! t = Some (Call mo f g) -> mo <> mo' ->
  N q mo' f (<[t := Call mo f g']> l) = N q mo' f l.
Proof. intros Ht Hne. rewrite (N_move _ _ _ _ _ _ _ _ _ Ht). unfold same. rewrite bool_decide_eq_false_2 by done. simpl. lia. Qed.

Lemma N_bounds q mo f l : 0 <= N q mo f l <= Z.of_nat (length l).
Proof. split; [apply count_nonneg|apply count_le_length]. Qed.

(** Rewrite the counts of the list in which thread [t] has moved. *)
Ltac counts Ht :=
  unfold counted, start_waiting, start_running, stop_running in *; cbn [readersWaiting readersRunning writersWaiting writersRunning with_m] in *;
  repeat (rewrite (N_mine _ _ _ _ _ _ _ Ht) || rewrite (N_other _ _ _ _ _ _ _ _ Ht) by done);
  cbn [waits runs asleep awake Z.b2z] in *.

Lemma count_lt P l t x : l !! t = Some x -> P x = false -> count P l + 1 <= Z.of_nat (length l).
Proof.
  revert t. induction l as [|z l IH]; intros t E Hx; [done|].
  change (count P (z :: l)) with (Z.b2z (P z) + count P l). rewrite length_cons. destruct t as [|t]; simpl in E.
  - injection E as ->. rewrite Hx. pose proof (count_le_length P l). simpl Z.b2z. lia.
  - specialize (IH t E Hx). destruct (P z); simpl Z.b2z; lia.
Qed.

Lemma N_room q mo f g l t : l !! t = Some (Call mo f g) -> q g = false -> N q mo f l + 1 <= Z.of_nat (length l).
Proof. intros Ht Hq. apply (count_lt _ _ _ _ Ht). unfold at_stage. by rewrite Hq, andb_false_r. Qed.

Section bounded.
Context (s : state) (I : inv s) (Hlen : Z.of_nat (length (ths s)) < 2 ^ 32).

Lemma good_queue t mo f p : ths s !! t = Some (Call mo f (Queue p)) ->
  exists L, heap s !! p = Some L /\ inv (put p (start_waiting mo L) (to t s (Call mo f (Test p)))).
Proof.
  intros Ht. destruct (deref_ok s t mo f _ p I Ht eq_refl) as (L & HL & Hc). exists L. split; [done|].
  pose proof (N_room waits mo f _ _ _ Ht eq_refl) as Hr. pose proof (N_bounds waits mo f (ths s)).
  assert (m L = Some t) as Hm by (apply (inv_m s I p L t HL); by exists mo, f, (Queue p)).
  apply (inv_put s t mo f (Queue p) (Test p) p L); try done.
  - by intros q [= <-].
  - destruct mo; counts Ht; rewrite u32_small by lia; lia.
  - by destruct mo.
  - cbn zeta. destruct mo; counts Ht; pose proof (inv_excl s I f); lia.
Qed.

Lemma good_test t mo f p : ths s !! t = Some (Call mo f (Test p)) ->
  exists L, heap s !! p = Some L /\ counted L f (ths s) /\
    if must_wait mo L then inv (put p (with_m None L) (to t s (Call mo f (Asleep p))))
    else inv (put p (with_m None (start_running mo L)) (to t s (Call mo f Inside))).
Proof.
  intros Ht. destruct (deref_ok s t mo f _ p I Ht eq_refl) as (L & HL & Hc). exists L. split; [done|]. split; [done|].
  destruct (must_wait mo L) eqn:Hw.
  { by apply (inv_mutex s t mo f (Test p)). }
  pose proof (N_room runs mo f _ _ _ Ht eq_refl). pose proof (N_bounds runs mo f (ths s)).
  pose proof (N_bounds waits mo f (ths s)). pose proof (N_in waits mo f _ _ _ Ht eq_refl).
  apply (inv_put s t mo f (Test p) Inside p L); try done.
  - destruct mo; counts Ht; rewrite !u32_small by lia; lia.
  - cbn zeta. destruct mo; unfold must_wait in Hw; apply orb_false_iff in Hw as [Hw1%negb_false_iff%Z.eqb_eq Hw2%negb_false_iff%Z.eqb_eq];
      counts Ht; lia.
Qed.

Lemma good_release t mo f p : ths s !! t = Some (Call mo f (Release p)) ->
  exists L, heap s !! p = Some L /\ 0 < running mo L /\
    counted (stop_running mo L) f (<[t := Call mo f (Check p)]> (ths s)) /\
    inv (put p (with_m None (stop_running mo L)) (to t s (Call mo f (Check p)))).
Proof.
  intros Ht. destruct (deref_ok s t mo f _ p I Ht eq_refl) as (L & HL & Hc). exists L. split; [done|].
  pose proof (N_bounds runs mo f (ths s)). pose proof (N_in runs mo f _ _ _ Ht eq_refl) as Hin.
  assert (0 < running mo L) as Hpos by (destruct Hc as (? & ? & ? & ?); destruct mo; simpl; lia).
  assert (counted (stop_running mo L) f (<[t := Call mo f (Check p)]> (ths s))) as Hc'.
  { destruct mo; counts Ht; rewrite !u32_small by lia; lia. }
  split; [done|]. split; [done|]. apply (inv_put s t mo f (Release p) (Check p) p L); try done.
  - by intros q [= <-].
  - cbn zeta. pose proof (inv_excl s I f). destruct mo; counts Ht; lia.
Qed.
End bounded.

(** *** Coming, going and waking *)

(** A thread that has not entered yet, or has left. *)
Definition outside (x : pc) : Prop := match x with Idle | Call _ _ Enter => True | _ => False end.

Lemma N_outside q mo f l t x y : l !! t = Some x -> outside x -> outside y -> q Enter = false ->
  N q mo f (<[t := y]> l) = N q mo f l.
Proof.
  intros Ht Hx Hy Hq. unfold N. rewrite (count_insert _ _ _ _ _ Ht).
  assert (forall z, outside z -> at_stage q mo f z = false) as Hz.
  { intros [|mo' f' []]; try done. intros _. unfold at_stage. by rewrite Hq, andb_false_r. }
  rewrite !Hz by done. lia.
Qed.

Lemma inv_outside s t x y : inv s -> ths s !! t = Some x -> outside x -> outside y -> inv (to t s y).
Proof.
  intros I Ht Hx Hy. set (l := <[t := y]> (ths s)).
  assert (forall u mo f g, l !! u = Some (Call mo f g) -> g = Enter \/ ths s !! u = Some (Call mo f g)) as Hl.
  { intros u mo f g Hu. unfold l in Hu. apply list_lookup_insert_Some in Hu as [(<- & -> & _)|[_ Hu]]; [left|by right]. by destruct g. }
  assert (forall u mo f g, ths s !! u = Some (Call mo f g) -> g <> Enter -> l !! u = Some (Call mo f g)) as Hr.
  { intros u mo f g Hu Hg. unfold l. rewrite list_lookup_insert_ne; [done|]. intros <-. rewrite Ht in Hu. injection Hu as ->. by destruct g. }
  split; cbn [ths lockMutex locks heap next to]; fold l.
  - intros f p Hp. destruct (inv_obj s I f p Hp) as (L & HL & Hc). exists L. split; [done|].
    eapply counted_ext; [|done..]. intros mo. unfold l. by rewrite !(N_outside _ _ _ _ _ _ _ Ht).
  - apply I.
  - apply I.
  - apply I.
  - intros u mo f g p Hu Hp. destruct (Hl _ _ _ _ Hu) as [->|Hu']; [done|]. by eapply inv_ptr.
  - intros u mo f g Hu Hg. destruct (Hl _ _ _ _ Hu) as [->|Hu']; [done|]. by eapply inv_run.
  - intros u. rewrite (inv_glob s I u). split; intros (mo & f & g & Hu & Hg); exists mo, f, g; split; try done.
    + apply Hr; [done|]. by intros ->.
    + by destruct (Hl _ _ _ _ Hu) as [->|?].
  - intros p L u HL. rewrite (inv_m s I p L u HL). split; intros (mo & f & g & Hu & Hg & Hp); exists mo, f, g; split; try done.
    + apply Hr; [done|]. by intros ->.
    + by destruct (Hl _ _ _ _ Hu) as [->|?].
  - intros u v mo mo' f p g Hu Hne Hv. destruct (Hl _ _ _ _ Hu) as [|Hu']; [done|].
    destruct (Hl _ _ _ _ Hv) as [->|Hv']; [done|]. by eapply inv_free.
  - intros f. unfold l. rewrite !(N_outside _ _ _ _ _ _ _ Ht) by done. apply I.
Qed.

(** The lock object of a file is deleted when no thread is further than at the entrance. *)
Lemma inv_delete s f p : inv s -> locks s !! f = Some p ->
  (forall t mo g, ths s !! t = Some (Call mo f g) -> g = Enter) ->
  inv (mkState (ths s) (lockMutex s) (delete f (locks s)) (delete p (heap s)) (next s)).
Proof.
  intros I Hp Hno.
  assert (forall f' q, locks s !! f' = Some q -> f' <> f -> q <> p) as Hne by (intros f' q Hq Hf ->; by apply Hf; eapply inv_inj).
  assert (forall u mo f' g, ths s !! u = Some (Call mo f' g) -> g <> Enter -> f' <> f) as Hth by (intros u mo f' g Hu Hg ->; by apply Hg; eapply Hno).
  split; cbn [ths lockMutex locks heap next]; try by apply I.
  - intros f' q [Hf Hq]%lookup_delete_Some. destruct (inv_obj s I f' q Hq) as (L & HL & Hc). exists L. split; [|done].
    rewrite lookup_delete_ne; [done|]. by intros ->; eapply Hne.
  - intros f1 f2 q [_ H1]%lookup_delete_Some [_ H2]%lookup_delete_Some. by eapply inv_inj.
  - intros q Hq. destruct (decide (q = p)) as [->|Hqp]; [apply lookup_delete_eq|]. rewrite lookup_delete_ne by done. by apply I.
  - intros q L [Hqp HL]%lookup_delete_Some. destruct (inv_heap s I q L HL) as [f' Hf']. exists f'.
    rewrite lookup_delete_ne; [done|]. intros <-. congruence.
  - intros u mo f' g q Hu Hq. pose proof (inv_ptr s I _ _ _ _ _ Hu Hq) as E. rewrite lookup_delete_ne; [done|].
    intros <-. by apply (Hth _ _ _ _ Hu); [intros ->|].
  - intros u mo f' g Hu Hg. rewrite lookup_delete_ne; [by eapply inv_run|]. intros <-. by apply (Hth _ _ _ _ Hu); [intros ->|].
  - intros q L u [_ HL]%lookup_delete_Some. by apply I.
Qed.

Lemma good_leave s t mo f p : inv s -> ths s !! t = Some (Call mo f (Free p true)) -> inv (global None (to t s Idle)).
Proof.
  intros I Ht. assert (inv (global None (to t s (Call mo f Enter)))) as I1 by (by apply (inv_stay s t mo f (Free p true))).
  assert (global None (to t s Idle) = to t (global None (to t s (Call mo f Enter))) Idle) as ->.
  { unfold global, to. cbn. by rewrite list_insert_insert_eq. }
  apply (inv_outside _ t (Call mo f Enter)); try done. cbn. rewrite list_lookup_insert_eq; [done|]. by eapply lookup_lt_Some.
Qed.

(** Whoever finds the lock object unused may delete it. *)
Lemma good_free s t mo f p : inv s -> ths s !! t = Some (Call mo f (Free p false)) ->
  exists L, heap s !! p = Some L /\ inUse L = false /\ m L = None /\
    inv (mkState (<[t := Idle]> (ths s)) None (delete f (locks s)) (delete p (heap s)) (next s)).
Proof.
  intros I Ht. destruct (deref_ok s t mo f _ p I Ht eq_refl) as (L & HL & Hc). exists L.
  assert (forall u mo' g, ths s !! u = Some (Call mo' f g) -> g = Enter \/ g = Free p false) as Hno.
  { intros u mo' g Hu. destruct (decide (u = t)) as [->|Hne]; [right; congruence|left; by eapply inv_free]. }
  split_and!; [done| | |].
  - destruct Hc as (E1 & E2 & E3 & E4). unfold inUse. rewrite E1, E2, E3, E4.
    by rewrite !N_zero by (intros u g Hu; by destruct (Hno _ _ _ Hu) as [->| ->]).
  - destruct (m L) as [u|] eqn:E; [|done]. apply (inv_m s I p L u HL) in E as (mo' & f' & g & Hu & Hg & Hp).
    pose proof (inv_ptr s I _ _ _ _ _ Hu Hp). pose proof (inv_ptr s I _ _ _ _ p Ht eq_refl).
    assert (f' = f) as -> by (by eapply inv_inj). by destruct (Hno _ _ _ Hu) as [->| ->].
  - assert (inv (global None (to t s (Call mo f Enter)))) as I1 by (by apply (inv_stay s t mo f (Free p false))).
    pose proof (inv_ptr s I _ _ _ _ p Ht eq_refl) as Hlk.
    apply (inv_delete _ f p) in I1; [|done|].
    + apply (inv_outside _ t (Call mo f Enter) Idle) in I1; try done.
      * unfold to in I1. cbn in I1. by rewrite list_insert_insert_eq in I1.
      * cbn. rewrite list_lookup_insert_eq; [done|]. by eapply lookup_lt_Some.
    + cbn. intros u mo' g Hu. apply list_lookup_insert_Some in Hu as [(_ & [= _ <-] & _)|[Hne Hu]]; [done|].
      eapply (inv_free s I t u); [exact Ht|congruence|exact Hu].
Qed.

(** The thread that looks whether the lock object is in use. *)
Lemma good_inUse s t mo f p : inv s -> ths s !! t = Some (Call mo f (InUse p)) ->
  exists L, heap s !! p = Some L /\ inv (put p (with_m None L) (to t s (Call mo f (Free p (inUse L))))).
Proof.
  intros I Ht. destruct (deref_ok s t mo f _ p I Ht eq_refl) as (L & HL & Hc). exists L. split; [done|].
  apply (inv_mutex s t mo f (InUse p)); try done.
  intros q [= <- Hu] u mo' g Hne Hg.
  assert (has_global g = false) as Hgl.
  { apply not_true_iff_false. intros E. assert (lockMutex s = Some u) by (apply (inv_glob s I); eauto 6).
    assert (lockMutex s = Some t) by (apply (inv_glob s I); eauto 6). congruence. }
  assert (has_m g = false) as Hm.
  { apply not_true_iff_false. intros E. destruct (has_m_ptr g E) as [q Hq]. pose proof (inv_ptr s I _ _ _ _ _ Hg Hq).
    pose proof (inv_ptr s I _ _ _ _ p Ht eq_refl). assert (q = p) as -> by congruence.
    assert (m L = Some u) by (apply (inv_m s I p L u HL); eauto 6).
    assert (m L = Some t) by (apply (inv_m s I p L t HL); eauto 6). congruence. }
  unfold inUse in Hu. rewrite !orb_false_iff, !negb_false_iff, !Z.eqb_eq in Hu.
  destruct Hc as (E1 & E2 & E3 & E4).
  destruct (waits g) eqn:Ew; [pose proof (N_in waits mo' f _ _ _ Hg Ew); destruct mo'; lia|].
  destruct (runs g) eqn:Er; [pose proof (N_in runs mo' f _ _ _ Hg Er); destruct mo'; lia|].
  by destruct g.
Qed.

(** Waking threads that sleep. *)
Definition kin (g g' : stage) : Prop := g' = g \/ exists p, g = Asleep p /\ g' = Woken p.

Definition woken (x y : pc) : Prop := y = x \/ exists mo f p, x = Call mo f (Asleep p) /\ y = Call mo f (Woken p).

Lemma woken_call mo f g y : woken (Call mo f g) y -> exists g', y = Call mo f g' /\ kin g g'.
Proof. intros [->|(mo' & f' & p & [= -> -> ->] & ->)]; eexists; (split; [done|]); [by left|right; eauto]. Qed.

Lemma woken_back mo f g' x : woken x (Call mo f g') -> exists g, x = Call mo f g /\ kin g g'.
Proof. intros [<-|(mo' & f' & p & -> & [= -> -> ->])]; eexists; (split; [done|]); [by left|right; eauto]. Qed.

Lemma N_woken q mo f l l' : Forall2 woken l l' -> (forall p, q (Woken p) = q (Asleep p)) -> N q mo f l' = N q mo f l.
Proof.
  intros HF Hq. unfold N, count. induction HF as [|x y l l' Hxy HF IH]; [done|]. cbn [foldr]. rewrite IH. do 2 f_equal.
  destruct Hxy as [->|(mo' & f' & p & -> & ->)]; [done|]. simpl. by rewrite Hq.
Qed.

Lemma inv_woken s l' : inv s -> Forall2 woken (ths s) l' -> inv (mkState l' (lockMutex s) (locks s) (heap s) (next s)).
Proof.
  intros I HF.
  assert (forall u mo f g', l' !! u = Some (Call mo f g') -> exists g, ths s !! u = Some (Call mo f g) /\ kin g g') as Hb.
  { intros u mo f g' Hu. destruct (Forall2_lookup_r _ _ _ _ _ HF Hu) as (x & Hx & (g & -> & Hk)%woken_back). eauto. }
  assert (forall u mo f g, ths s !! u = Some (Call mo f g) -> exists g', l' !! u = Some (Call mo f g') /\ kin g g') as Hf.
  { intros u mo f g Hu. destruct (Forall2_lookup_l _ _ _ _ _ HF Hu) as (x & Hx & (g' & -> & Hk)%woken_call). eauto. }
  assert (forall g g', kin g g' -> ptr g' = ptr g /\ has_global g' = has_global g /\ has_m g' = has_m g /\ runs g' = runs g) as Hk.
  { intros g g' [->|(p & -> & ->)]; done. }
  split; cbn [ths lockMutex locks heap next].
  - intros f p Hp. destruct (inv_obj s I f p Hp) as (L & HL & Hc). exists L. split; [done|].
    eapply counted_ext; [|done..]. intros mo. by rewrite !(N_woken _ _ _ _ _ HF).
  - apply I.
  - apply I.
  - apply I.
  - intros u mo f g' p Hu Hp. destruct (Hb _ _ _ _ Hu) as (g & Hg & (E & _)%Hk). eapply inv_ptr; [done..|congruence].
  - intros u mo f g' Hu Hr. destruct (Hb _ _ _ _ Hu) as (g & Hg & (_ & _ & _ & E)%Hk). eapply inv_run; [done..|congruence].
  - intros u. rewrite (inv_glob s I u). split.
    + intros (mo & f & g & Hu & Hg). destruct (Hf _ _ _ _ Hu) as (g' & Hg' & (_ & E & _)%Hk). exists mo, f, g'. split; [done|congruence].
    + intros (mo & f & g' & Hu & Hg). destruct (Hb _ _ _ _ Hu) as (g & Hg' & (_ & E & _)%Hk). exists mo, f, g. split; [done|congruence].
  - intros p L u HL. rewrite (inv_m s I p L u HL). split.
    + intros (mo & f & g & Hu & Hg & Hp). destruct (Hf _ _ _ _ Hu) as (g' & Hg' & (E1 & _ & E2 & _)%Hk). exists mo, f, g'. split_and!; [done|congruence..].
    + intros (mo & f & g' & Hu & Hg & Hp). destruct (Hb _ _ _ _ Hu) as (g & Hg' & (E1 & _ & E2 & _)%Hk). exists mo, f, g. split_and!; [done|congruence..].
  - intros u v mo mo' f p g Hu Hne Hv. destruct (Hb _ _ _ _ Hu) as (g1 & Hg1 & [<-|(? & _ & ?)]); [|done].
    destruct (Hb _ _ _ _ Hv) as (g2 & Hg2 & Hk2). pose proof (inv_free s I _ _ _ _ _ _ _ Hg1 Hne Hg2) as ->.
    by destruct Hk2 as [->|(? & ? & _)].
  - intros f. rewrite !(N_woken _ _ _ _ _ HF) by done. apply I.
Qed.

Lemma sleeps_on_inv mo p x : sleeps_on mo p x = true -> exists f, x = Call mo f (Asleep p).
Proof.
  destruct x as [|mo' f []]; try done. simpl. intros [->%bool_decide_eq_true ->%Nat.eqb_eq]%andb_true_iff. eauto.
Qed.

Lemma Forall2_woken_refl l : Forall2 woken l l.
Proof. induction l; constructor; [by left|done]. Qed.

Lemma notify_woken n p c l l' : notify n p c l = Some l' -> Forall2 woken l l'.
Proof.
  destruct n; simpl.
  - intros [= ->]. apply Forall2_woken_refl.
  - unfold notify_one. destruct c as [|mo f|u].
    1,2: destruct (existsb _ _); [done|]; intros [= ->]; apply Forall2_woken_refl.
    destruct (l !! u) as [x|] eqn:Eu; [|done]. destruct (sleeps_on Wr p x) eqn:Es; [|done]. intros [= <-].
    apply sleeps_on_inv in Es as (f & ->). apply Forall2_same_length_lookup. split; [by rewrite length_insert|].
    intros i a b Ha Hb. apply list_lookup_insert_Some in Hb as [(<- & <- & _)|[_ Hb]]; [|left; congruence].
    right. rewrite Eu in Ha. injection Ha as <-. simpl. eauto.
  - intros [= <-]. unfold notify_all. apply Forall2_same_length_lookup. split; [by rewrite length_fmap|].
    intros i a b Ha Hb. rewrite list_lookup_fmap, Ha in Hb. injection Hb as <-.
    destruct (sleeps_on Rd p a) eqn:Es; [|by left]. apply sleeps_on_inv in Es as (f & ->). right. simpl. eauto.
Qed.

(** *** Sleepers *)

(** Somebody will wake them: while a writer sleeps, the file is held or another writer is
    awake and about to test the condition; while a reader sleeps, there is a writer. *)
Definition sleep_at (f : string) (l : list pc) : Prop :=
  (0 < N asleep Wr f l -> 0 < N runs Rd f l + N runs Wr f l + N awake Wr f l) /\
  (0 < N asleep Rd f l -> 0 < N waits Wr f l + N runs Wr f l).

Definition sleep_ok (l : list pc) : Prop := forall f, sleep_at f l.

Lemma sleep_ext f l l' : (forall q mo, q ∈ [asleep; awake; waits; runs] -> N q mo f l' = N q mo f l) -> sleep_at f l -> sleep_at f l'.
Proof. intros HN. unfold sleep_at. by rewrite !HN by set_solver. Qed.

Lemma sleep_mine l t mo f g g' : l !! t = Some (Call mo f g) -> sleep_ok l ->
  sleep_at f (<[t := Call mo f g']> l) -> sleep_ok (<[t := Call mo f g']> l).
Proof.
  intros Ht Hs Hf f'. destruct (decide (f' = f)) as [->|Hne]; [done|]. eapply sleep_ext, (Hs f').
  intros q mo' _. rewrite (N_move _ _ _ _ _ _ _ _ _ Ht), same_false by done. lia.
Qed.

Lemma sleep_stay l t mo f g g' : l !! t = Some (Call mo f g) -> sleep_ok l ->
  asleep g' = asleep g -> awake g' = awake g -> waits g' = waits g -> runs g' = runs g -> sleep_ok (<[t := Call mo f g']> l).
Proof.
  intros Ht Hs E1 E2 E3 E4. apply (sleep_mine _ _ _ _ g); [done..|]. eapply sleep_ext, (Hs f).
  intros q mo' Hq. apply (N_stay _ _ _ _ _ g); [done|]. set_unfold in Hq. naive_solver.
Qed.

Lemma sleep_outside l t x y : l !! t = Some x -> outside x -> outside y -> sleep_ok l -> sleep_ok (<[t := y]> l).
Proof.
  intros Ht Hx Hy Hs f. eapply sleep_ext, (Hs f). intros q mo Hq. apply (N_outside _ _ _ _ _ x); [done..|].
  set_unfold in Hq. naive_solver.
Qed.

Lemma sleep_leave l t mo f g : l !! t = Some (Call mo f g) -> sleep_ok l -> (asleep g || awake g || waits g || runs g) = false ->
  sleep_ok (<[t := Idle]> l).
Proof.
  intros Ht Hs Hg f'. rewrite !orb_false_iff in Hg. eapply sleep_ext, (Hs f'). intros q mo' Hq. apply (N_leave _ _ _ _ _ _ _ _ Ht).
  set_unfold in Hq. naive_solver.
Qed.

Lemma asleep_waits mo f l : N asleep mo f l <= N waits mo f l.
Proof.
  apply count_le. intros [|mo' f' g]; [done|]. simpl. intros [E Hg]%andb_true_iff. rewrite E. by destruct g.
Qed.

Lemma N_awake mo f l : N awake mo f l = N waits mo f l - N asleep mo f l.
Proof.
  unfold N, count. induction l as [|x l IH]; [done|]. cbn [foldr]. rewrite IH.
  assert (Z.b2z (at_stage awake mo f x) = Z.b2z (at_stage waits mo f x) - Z.b2z (at_stage asleep mo f x)); [|lia].
  destruct x as [|mo' f' g]; [done|]. simpl. by destruct (bool_decide _ && bool_decide _), g.
Qed.

Section sleeping.
Context (s : state) (I : inv s) (Hs : sleep_ok (ths s)).

Lemma sleep_test t mo f p L : ths s !! t = Some (Call mo f (Test p)) -> counted L f (ths s) -> must_wait mo L = true ->
  sleep_ok (<[t := Call mo f (Asleep p)]> (ths s)).
Proof.
  intros Ht (E1 & E2 & E3 & E4) Hw. apply (sleep_mine _ _ _ _ (Test p)); [done..|].
  unfold must_wait in Hw. rewrite E2, E3, E4 in Hw.
  destruct (Hs f) as [S1 S2]. pose proof (N_bounds runs Rd f (ths s)). pose proof (N_bounds runs Wr f (ths s)).
  pose proof (N_bounds waits Wr f (ths s)). pose proof (N_bounds awake Wr f (ths s)).
  pose proof (N_in awake mo f _ _ _ Ht eq_refl).
  destruct mo; apply orb_true_iff in Hw; rewrite !negb_true_iff, !Z.eqb_neq in Hw; split; counts Ht; lia.
Qed.

Lemma sleep_run t mo f p : ths s !! t = Some (Call mo f (Test p)) -> sleep_ok (<[t := Call mo f Inside]> (ths s)).
Proof.
  intros Ht. apply (sleep_mine _ _ _ _ (Test p)); [done..|]. destruct (Hs f) as [S1 S2].
  pose proof (N_bounds runs Rd f (ths s)). pose proof (N_bounds runs Wr f (ths s)). pose proof (N_bounds waits Wr f (ths s)).
  pose proof (N_bounds awake Wr f (ths s)). pose proof (N_in awake mo f _ _ _ Ht eq_refl). pose proof (N_in waits mo f _ _ _ Ht eq_refl).
  destruct mo; split; counts Ht; lia.
Qed.

Lemma sleep_queue t mo f p : ths s !! t = Some (Call mo f (Queue p)) -> sleep_ok (<[t := Call mo f (Test p)]> (ths s)).
Proof.
  intros Ht. apply (sleep_mine _ _ _ _ (Queue p)); [done..|]. destruct (Hs f) as [S1 S2].
  pose proof (N_bounds runs Rd f (ths s)). pose proof (N_bounds runs Wr f (ths s)). pose proof (N_bounds waits Wr f (ths s)).
  pose proof (N_bounds awake Wr f (ths s)). destruct mo; split; counts Ht; lia.
Qed.

Lemma sleep_wake t mo f p : ths s !! t = Some (Call mo f (Asleep p)) -> sleep_ok (<[t := Call mo f (Woken p)]> (ths s)).
Proof.
  intros Ht. apply (sleep_mine _ _ _ _ (Asleep p)); [done..|]. destruct (Hs f) as [S1 S2].
  pose proof (N_bounds runs Rd f (ths s)). pose proof (N_bounds runs Wr f (ths s)). pose proof (N_bounds waits Wr f (ths s)).
  pose proof (N_bounds awake Wr f (ths s)). pose proof (N_in asleep mo f _ _ _ Ht eq_refl). destruct mo; split; counts Ht; lia.
Qed.
End sleeping.

(** After an unlocking thread has counted itself out: [l] is the list in which it has. *)
Section notifying.
Context (s : state) (I : inv s) (f : string) (p : nat) (Hp : locks s !! f = Some p).
Context (Hothers : forall f', f' <> f -> sleep_at f' (ths s)).

Lemma sleeper_file mo x : x ∈ ths s -> sleeps_on mo p x = true -> x = Call mo f (Asleep p).
Proof.
  intros [t Ht]%list_elem_of_lookup (f' & ->)%sleeps_on_inv. pose proof (inv_ptr s I _ _ _ _ p Ht eq_refl).
  by assert (f' = f) as -> by (by eapply inv_inj).
Qed.

Lemma sleeper_here mo t g : ths s !! t = Some (Call mo f g) -> asleep g = true -> sleeps_on mo p (Call mo f g) = true.
Proof.
  intros Ht Hg. destruct g as [| | | | | |q| | | | | | | |]; try done. pose proof (inv_ptr s I _ _ _ _ q Ht eq_refl).
  assert (q = p) as -> by congruence. simpl. by rewrite bool_decide_eq_true_2, Nat.eqb_refl.
Qed.

Lemma notify_one_sleep c l' : 0 < N waits Wr f (ths s) -> notify_one p c (ths s) = Some l' -> sleep_ok l'.
Proof.
  intros Hw Hn. assert (existsb (sleeps_on Wr p) (ths s) = false -> sleep_ok (ths s)) as Hnone.
  { intros He f'. destruct (decide (f' = f)) as [->|Hne]; [|by apply Hothers]. split; [|pose proof (N_bounds runs Wr f (ths s)); lia].
    intros (t & g & Ht & Hg)%N_pos. pose proof (sleeper_here _ _ _ Ht Hg) as Hb. exfalso.
    apply not_true_iff_false in He. apply He, existsb_exists. exists (Call Wr f g). split; [|done].
    apply list_elem_of_In, list_elem_of_lookup. eauto. }
  unfold notify_one in Hn. destruct c as [|mo' f'|u].
  1,2: destruct (existsb _ _); [done|]; injection Hn as <-; by apply Hnone.
  destruct (ths s !! u) as [x|] eqn:Eu; [|done]. destruct (sleeps_on Wr p x) eqn:Es; [|done]. injection Hn as <-.
  assert (x = Call Wr f (Asleep p)) by (apply sleeper_file; [apply list_elem_of_lookup; eauto|done]). subst x. cbn [wake].
  intros f'. destruct (decide (f' = f)) as [->|Hne].
  - pose proof (N_bounds runs Rd f (ths s)). pose proof (N_bounds runs Wr f (ths s)). pose proof (N_bounds awake Wr f (ths s)).
    split; counts Eu; lia.
  - eapply sleep_ext, (Hothers f' Hne). intros q mo _. rewrite (N_move _ _ _ _ _ _ _ _ _ Eu), same_false by done. lia.
Qed.

Lemma notify_all_sleep : N waits Wr f (ths s) = 0 -> sleep_ok (notify_all p (ths s)).
Proof.
  intros Hw f'.
  assert (forall x, x ∈ ths s -> sleeps_on Rd p x = true -> x = Call Rd f (Asleep p)) as Hf by (intros x; apply sleeper_file).
  destruct (decide (f' = f)) as [->|Hne].
  - assert (forall q mo, (forall r, q (Woken r) = q (Asleep r)) -> N q mo f (notify_all p (ths s)) = N q mo f (ths s)) as HN.
    { intros q mo Hq. apply N_woken; [|done]. by apply (notify_woken AllReaders p Go). }
    pose proof (asleep_waits Wr f (notify_all p (ths s))) as Ha. rewrite (HN waits) in Ha by done.
    split; [lia|]. intros Hr. exfalso. revert Hr. rewrite N_zero; [lia|]. intros t g Ht.
    unfold notify_all in Ht. rewrite list_lookup_fmap in Ht. destruct (ths s !! t) as [x|] eqn:Ex; [|done]. injection Ht as Ht.
    destruct (sleeps_on Rd p x) eqn:Es.
    + apply sleeps_on_inv in Es as (f0 & ->). by injection Ht as <- <-.
    + subst x. destruct (asleep g) eqn:Eg; [|done]. by rewrite (sleeper_here _ _ _ Ex Eg) in Es.
  - eapply sleep_ext, (Hothers f' Hne). intros q mo _. unfold N, notify_all. rewrite count_fmap. apply count_ext.
    intros t x Ht. destruct (sleeps_on Rd p x) eqn:Es; [|done].
    rewrite (Hf x) by (try done; apply list_elem_of_lookup; eauto). simpl. rewrite (bool_decide_eq_false_2 (f = f')) by congruence.
    by rewrite andb_false_r.
Qed.
End notifying.

Lemma sleep_release s t mo f p L c l' (s1 := to t s (Call mo f (Check p))) :
  inv s -> sleep_ok (ths s) -> ths s !! t = Some (Call mo f (Release p)) ->
  counted (stop_running mo L) f (ths s1) -> inv (put p (with_m None (stop_running mo L)) s1) ->
  notify (notifies mo (stop_running mo L)) p c (ths s1) = Some l' -> sleep_ok l'.
Proof.
  intros I Hs Ht (E1 & E2 & E3 & E4) I1 Hn.
  set (s2 := put p (with_m None (stop_running mo L)) s1) in *. change (ths s1) with (ths s2) in *.
  pose proof (inv_ptr s I _ _ _ _ p Ht eq_refl) as Hp. change (locks s) with (locks s2) in Hp.
  assert (forall f', f' <> f -> sleep_at f' (ths s2)) as Ho.
  { intros f' Hne. eapply sleep_ext, (Hs f'). intros q mo' _. cbn [s2 s1 put to ths].
    rewrite (N_move _ _ _ _ _ _ _ _ _ Ht), same_false by done. lia. }
  assert (sleep_at f (ths s2) -> sleep_ok (ths s2)) as Hhere by (intros Hf f'; destruct (decide (f' = f)) as [->|Hne]; auto).
  pose proof (asleep_waits Wr f (ths s2)) as Haw. pose proof (asleep_waits Rd f (ths s2)) as Har.
  pose proof (N_bounds waits Wr f (ths s2)) as Bw. pose proof (N_bounds runs Rd f (ths s2)) as Br.
  pose proof (N_bounds runs Wr f (ths s2)) as Bw'. pose proof (N_bounds awake Wr f (ths s2)) as Ba.
  unfold notifies in Hn. rewrite E1, E2, E3 in Hn. destruct mo.
  - assert (0 < N asleep Rd f (ths s2) -> 0 < N waits Wr f (ths s2) + N runs Wr f (ths s2)) as Hr.
    { destruct (Hs f) as [_ S2]. cbn [s2 s1 put to ths]. counts Ht. lia. }
    destruct (Z.eqb_spec (N runs Rd f (ths s2)) 0); cbn [andb] in Hn.
    + destruct (Z.eqb_spec (N waits Wr f (ths s2)) 0); cbn [negb] in Hn.
      * injection Hn as <-. apply Hhere. split; [lia|done].
      * eapply (notify_one_sleep s2 I1 f p Hp Ho c); [lia|done].
    + injection Hn as <-. apply Hhere. split; [lia|done].
  - destruct (Z.eqb_spec (N waits Wr f (ths s2)) 0); cbn [negb] in Hn.
    + destruct (Z.eqb_spec (N waits Rd f (ths s2)) 0); cbn [negb] in Hn; injection Hn as <-.
      * apply Hhere. split; lia.
      * by apply (notify_all_sleep s2 I1 f p Hp Ho).
    + eapply (notify_one_sleep s2 I1 f p Hp Ho c); [lia|done].
Qed.

(** *** Every move *)

Definition fine (s : state) : Prop := inv s /\ sleep_ok (ths s).

Definition fine_result (r : option (outcome state)) : Prop :=
  match r with None => True | Some (Val s') => fine s' | Some _ => False end.

Lemma fine_good r : good r -> (forall s', r = Some (Val s') -> sleep_ok (ths s')) -> fine_result r.
Proof. destruct r as [[]|]; simpl; try done. intros Hi Hs. split; auto. Qed.

Lemma sleep_global s t x s' : take_global t s (to t s x) = Some (Val s') -> ths s' = <[t := x]> (ths s).
Proof. unfold take_global. destruct (lockMutex s); [done|]. by intros [= <-]. Qed.

Lemma sleep_m s t p x s' : take_m t s p (to t s x) = Some (Val s') -> ths s' = <[t := x]> (ths s).
Proof. unfold take_m, deref. destruct (heap s !! p) as [L|]; [|done]. destruct (m L); [done|]. by intros [= <-]. Qed.

(** The names the lock calls use are relative. *)
Definition named (l : list pc) : Prop := forall t mo f g, l !! t = Some (Call mo f g) -> relative f = true.

(** No move uses a deleted lock object or fails an assertion, and the invariants hold
    after it. *)
Lemma move_fine s t c : fine s -> named (ths s) -> Z.of_nat (length (ths s)) < 2 ^ 32 -> fine_result (move t s c).
Proof.
  intros [I Hs] Hnm Hlen. unfold move. destruct (ths s !! t) as [[|mo f g]|] eqn:Ht; [| |done].
  { destruct c; try done. split; [by apply (inv_outside s t Idle)|by apply (sleep_outside _ _ Idle)]. }
  destruct g as [| |p|p|p|p|p|p| | |p|p|p|p|p []].
  - apply fine_good; [by apply (good_take_global s t mo f Enter)|].
    intros s' ->%sleep_global. by apply (sleep_stay _ _ _ _ Enter).
  - rewrite (Hnm _ _ _ _ Ht). cbn [negb]. split; [|destruct (locks s !! f); by apply (sleep_stay _ _ _ _ Insert)].
    destruct (locks s !! f) as [p|] eqn:Hf; [|by apply good_insert].
    apply (inv_stay s t mo f Insert); try done; [by intros q [= <-]|]. apply (inv_glob s I). eauto 6.
  - apply fine_good; [by apply (good_take_m s t mo f (Lock p))|]. intros s' ->%sleep_m. by apply (sleep_stay _ _ _ _ (Lock p)).
  - split; [|by apply (sleep_stay _ _ _ _ (HandOver p))]. apply (inv_stay s t mo f (HandOver p)); try done.
    intros q [= <-]. by eapply inv_ptr.
  - destruct (good_queue s I Hlen t mo f p Ht) as (L & HL & IL). unfold deref. rewrite HL. split; [done|by apply sleep_queue].
  - destruct (good_test s I Hlen t mo f p Ht) as (L & HL & Hc & IL). unfold deref. rewrite HL.
    destruct (must_wait mo L) eqn:Hw; (split; [done|]); [by eapply sleep_test|by eapply sleep_run].
  - split; [|by apply sleep_wake]. apply (inv_stay s t mo f (Asleep p)); try done. intros q [= <-]. by eapply inv_ptr.
  - apply fine_good; [by apply (good_take_m s t mo f (Woken p))|]. intros s' ->%sleep_m. by apply (sleep_stay _ _ _ _ (Woken p)).
  - apply fine_good; [by apply (good_take_global s t mo f Inside)|]. intros s' ->%sleep_global. by apply (sleep_stay _ _ _ _ Inside).
  - destruct (inv_run s I _ _ _ _ Ht eq_refl) as [p Hf]. rewrite Hf. split; [|by apply (sleep_stay _ _ _ _ Lookup)].
    apply (inv_stay s t mo f Lookup); try done; [by intros q [= <-]|]. apply (inv_glob s I). eauto 6.
  - apply fine_good; [by apply (good_take_m s t mo f (Unlock p))|]. intros s' ->%sleep_m. by apply (sleep_stay _ _ _ _ (Unlock p)).
  - destruct (good_release s I Hlen t mo f p Ht) as (L & HL & Hpos & Hc & IL). unfold deref. rewrite HL.
    destruct (Z.leb_spec (running mo L) 0); [lia|]. cbn zeta. destruct (notify _ _ _ _) as [l'|] eqn:Hn; [|done].
    split; [|by eapply (sleep_release s t mo f p L)]. by apply (inv_woken _ _ IL (notify_woken _ _ _ _ _ Hn)).
  - apply fine_good; [by apply (good_take_m s t mo f (Check p))|]. intros s' ->%sleep_m. by apply (sleep_stay _ _ _ _ (Check p)).
  - destruct (good_inUse s t mo f p I Ht) as (L & HL & IL). unfold deref. rewrite HL. split; [done|by apply (sleep_stay _ _ _ _ (InUse p))].
  - split; [by eapply good_leave|]. cbn. apply (sleep_leave _ _ _ _ _ Ht Hs). done.
  - destruct (good_free s t mo f p I Ht) as (L & HL & Hu & Hm & IL). unfold deref. rewrite HL, Hu, decide_True by done.
    split; [done|]. cbn. by apply (sleep_leave _ _ _ _ _ Ht Hs).
Qed.

(** *** No lock object is left behind *)

(** Threads that will delete the lock object if they are the last. *)
Definition busy (g : stage) : bool := match g with Enter | Insert | Free _ true => false | _ => true end.

Definition used_ok (l : list pc) (lk : gmap string nat) : Prop :=
  forall f, is_Some (lk !! f) -> exists t mo g, l !! t = Some (Call mo f g) /\ busy g = true.

Lemma used_move l lk t mo f g y : used_ok l lk -> l !! t = Some (Call mo f g) ->
  busy g = false \/ (exists g', y = Call mo f g' /\ busy g' = true) -> used_ok (<[t := y]> l) lk.
Proof.
  intros Hu Ht Hy f' Hf'. destruct (Hu f' Hf') as (u & mo' & g0 & Hu0 & Hb). destruct (decide (u = t)) as [->|Hne].
  - rewrite Ht in Hu0. injection Hu0 as <- <- <-. destruct Hy as [|(g' & -> & Hg')]; [congruence|]. exists t, mo, g'. split; [|done].
    rewrite list_lookup_insert_eq; [done|]. by eapply lookup_lt_Some.
  - exists u, mo', g0. by rewrite list_lookup_insert_ne.
Qed.

Lemma used_idle l lk t x : used_ok l lk -> l !! t = Some Idle -> used_ok (<[t := x]> l) lk.
Proof.
  intros Hu Ht f Hf. destruct (Hu f Hf) as (u & mo & g & Hg & Hb). exists u, mo, g. rewrite list_lookup_insert_ne; [done|congruence].
Qed.

Lemma used_woken l l' lk : used_ok l lk -> Forall2 woken l l' -> used_ok l' lk.
Proof.
  intros Hu HF f Hf. destruct (Hu f Hf) as (t & mo & g & Ht & Hb).
  destruct (Forall2_lookup_l _ _ _ _ _ HF Ht) as (y & Hy & (g' & -> & Hk)%woken_call). exists t, mo, g'. split; [done|].
  by destruct Hk as [->|(p & -> & ->)].
Qed.

Lemma used_inUse s t mo f p L : inv s -> used_ok (ths s) (locks s) -> ths s !! t = Some (Call mo f (InUse p)) ->
  heap s !! p = Some L -> used_ok (<[t := Call mo f (Free p (inUse L))]> (ths s)) (locks s).
Proof.
  intros I Hu Ht HL. destruct (inUse L) eqn:E; [|by eapply used_move; eauto]. intros f' Hf'.
  destruct (Hu f' Hf') as (u & mo' & g & Hg & Hb). destruct (decide (u = t)) as [->|Hne].
  2:{ exists u, mo', g. by rewrite list_lookup_insert_ne. }
  rewrite Ht in Hg. injection Hg as <- <- <-.
  destruct (deref_ok s t mo f _ p I Ht eq_refl) as (L0 & HL0 & (E1 & E2 & E3 & E4)). assert (L0 = L) as -> by congruence.
  assert (exists v mo' g, ths s !! v = Some (Call mo' f g) /\ (waits g || runs g) = true) as (v & mo' & g & Hv & Hg).
  { unfold inUse in E. rewrite E1, E2, E3, E4 in E. rewrite !orb_true_iff, !negb_true_iff, !Z.eqb_neq in E.
    assert (forall q mo, N q mo f (ths s) <> 0 -> exists v g, ths s !! v = Some (Call mo f g) /\ q g = true) as HN.
    { intros q mo' Hq. apply N_pos. pose proof (N_bounds q mo' f (ths s)). lia. }
    destruct E as [[[E|E]|E]|E]; destruct (HN _ _ E) as (v & g & Hv & Hg); eexists v, _, g; (split; [exact Hv|]); rewrite Hg; by destruct (waits g). }
  exists v, mo', g. rewrite list_lookup_insert_ne; [split; [done|by destruct g]|]. intros <-. rewrite Ht in Hv. by injection Hv as <- <-.
Qed.

(** What a move does to the threads and the lock table keeps every lock object in use. *)
Lemma move_used s t c s' : inv s -> used_ok (ths s) (locks s) -> move t s c = Some (Val s') -> used_ok (ths s') (locks s').
Proof.
  intros I Hu Hm. unfold move in Hm. destruct (ths s !! t) as [[|mo f g]|] eqn:Ht; [| |done].
  { destruct c; try done. injection Hm as <-. by apply used_idle. }
  assert (forall g', busy g' = true -> used_ok (<[t := Call mo f g']> (ths s)) (locks s)) as Hgo.
  { intros g' Hg'. apply (used_move _ _ _ _ _ _ _ Hu Ht). eauto. }
  assert (forall s' g', locks s' = locks s -> ths s' = <[t := Call mo f g']> (ths s) -> busy g' = true -> used_ok (ths s') (locks s')) as Hgo'.
  { intros s0 g' -> ->. apply Hgo. }
  assert (forall p x s', take_m t s p (to t s x) = Some (Val s') -> locks s' = locks s) as Hlm.
  { intros p x s0. unfold take_m, deref. destruct (heap s !! p) as [L|]; [|done]. destruct (m L); [done|]. by intros [= <-]. }
  destruct g as [| |p|p|p|p|p|p| | |p|p|p|p|p []]; unfold deref in Hm.
  1: { unfold take_global in Hm. destruct (lockMutex s); [done|]. injection Hm as <-. eapply used_move; [done..|by left]. }
  1: { destruct (relative f); [|done]. cbn [negb] in Hm. destruct (locks s !! f) as [p|] eqn:Hf; injection Hm as <-; [by apply Hgo|]. cbn [ths locks]. intros f'.
       destruct (decide (f' = f)) as [->|Hne]; [|rewrite lookup_insert_ne by done; by apply (Hgo (Lock (next s)))].
       intros _. exists t, mo, (Lock (next s)). rewrite list_lookup_insert_eq; [done|]. by eapply lookup_lt_Some. }
  1, 6, 9, 11: eapply Hgo'; [by eapply Hlm|by eapply sleep_m|done].
  - injection Hm as <-. by apply Hgo.
  - destruct (heap s !! p); [|done]. injection Hm as <-. by apply Hgo.
  - destruct (heap s !! p); [|done]. destruct (must_wait _ _); injection Hm as <-; by apply Hgo.
  - injection Hm as <-. by apply Hgo.
  - unfold take_global in Hm. destruct (lockMutex s); [done|]. injection Hm as <-. by apply Hgo.
  - destruct (locks s !! f); [|done]. injection Hm as <-. by apply Hgo.
  - destruct (heap s !! p) as [L|]; [|done]. destruct (_ <=? 0); [done|]. cbn zeta in Hm.
    destruct (notify _ _ _ _) as [l'|] eqn:Hn; [|done]. injection Hm as <-.
    by apply (used_woken _ _ _ (Hgo (Check p) eq_refl) (notify_woken _ _ _ _ _ Hn)).
  - destruct (heap s !! p) as [L|] eqn:HL; [|done]. injection Hm as <-. by apply (used_inUse s t mo f p L).
  - injection Hm as <-. cbn. eapply used_move; [done..|by left].
  - destruct (heap s !! p) as [L|]; [|done]. destruct (inUse L); [done|]. destruct (decide _); [|done]. injection Hm as <-. cbn [ths locks].
    intros f' [q [Hne Hq]%lookup_delete_Some]. destruct (Hu f' ltac:(eauto)) as (u & mo' & g & Hg & Hb). exists u, mo', g.
    rewrite list_lookup_insert_ne; [done|]. intros <-. rewrite Ht in Hg. injection Hg as _ <- _. done.
Qed.

(** *** Reachable states *)

Lemma length_notify n p c l l' : notify n p c l = Some l' -> length l' = length l.
Proof. intros Hn%notify_woken. symmetry. by eapply Forall2_length. Qed.

Lemma move_length s t c s' : move t s c = Some (Val s') -> length (ths s') = length (ths s).
Proof.
  unfold move, take_m, take_global, deref. intros Hm.
  repeat (case_match; try done); simplify_eq/=; rewrite ?length_insert; try done.
  match goal with H : notify _ _ _ _ = Some _ |- _ => apply length_notify in H; rewrite length_insert in H end. done.
Qed.

Lemma N_init q mo f n : N q mo f (replicate n Idle) = 0.
Proof. apply N_zero. intros t g Ht. by apply lookup_replicate in Ht as [? _]. Qed.

Lemma init_fine n : fine (init n) /\ used_ok (ths (init n)) (locks (init n)).
Proof.
  assert (forall t mo f g, replicate n Idle !! t = Some (Call mo f g) -> False) as Hno by (by intros t mo f g [? _]%lookup_replicate).
  split; [split|].
  - split; cbn [init ths lockMutex locks heap next]; intros *; rewrite ?lookup_empty; try done.
    + by intros ?%Hno.
    + by intros ?%Hno.
    + split; [done|]. by intros (mo & f & g & ?%Hno & _).
    + by intros ?%Hno.
    + rewrite !N_init. lia.
  - intros f. split; cbn [init ths]; rewrite !N_init; lia.
  - intros f. cbn [init locks]. rewrite lookup_empty. by intros [].
Qed.

(** How a move changes the places: the one that moves, and those it wakes. *)
Definition taking (g : stage) : bool :=
  match g with Enter | Insert | Lock _ | HandOver _ | Queue _ | Test _ | Asleep _ | Woken _ => true | _ => false end.

Inductive next_pc : choice -> pc -> pc -> Prop :=
| next_request mo f : next_pc (Request mo f) Idle (Call mo f Enter)
| next_stage c mo f g g' : (taking g' = true -> taking g = true) -> next_pc c (Call mo f g) (Call mo f g')
| next_done c mo f g : next_pc c (Call mo f g) Idle.

Lemma move_shape s t c s' : move t s c = Some (Val s') ->
  exists x y, ths s !! t = Some x /\ next_pc c x y /\ Forall2 woken (<[t := y]> (ths s)) (ths s').
Proof.
  unfold move, take_m, take_global, deref. intros Hm. destruct (ths s !! t) as [x|] eqn:Ht; [|done]. exists x.
  assert (forall y l, next_pc c x y -> l = <[t := y]> (ths s) ->
    exists y, Some x = Some x /\ next_pc c x y /\ Forall2 woken (<[t := y]> (ths s)) l) as Hgo.
  { intros y l Hy ->. exists y. split_and!; [done..|apply Forall2_woken_refl]. }
  repeat (case_match; try done); simplify_eq/=;
    try (eapply Hgo; [|reflexivity]; by constructor).
  match goal with H : notify _ _ _ _ = Some _ |- _ => apply notify_woken in H end.
  eexists. split_and!; [done| |done]. by constructor.
Qed.

(** Read off the place that moved, and every other. *)
Lemma shape_other l l' t y u x' : Forall2 woken (<[t := y]> l) l' -> u <> t -> l' !! u = Some x' ->
  exists x, l !! u = Some x /\ woken x x'.
Proof.
  intros Hw Hne Hu. destruct (Forall2_lookup_r _ _ _ _ _ Hw Hu) as (x & Hx & Hxx).
  rewrite list_lookup_insert_ne in Hx by done. eauto.
Qed.

Lemma shape_here l l' t x y x' : l !! t = Some x -> Forall2 woken (<[t := y]> l) l' -> l' !! t = Some x' -> woken y x'.
Proof.
  intros Ht Hw Hu. destruct (Forall2_lookup_r _ _ _ _ _ Hw Hu) as (z & Hz & Hzz).
  rewrite list_lookup_insert_eq in Hz by (by eapply lookup_lt_Some). by injection Hz as ->.
Qed.

Lemma move_named s t c s' : named (ths s) -> proper_request c -> move t s c = Some (Val s') -> named (ths s').
Proof.
  intros Hnm Hc (x & y & Ht & Hy & Hw)%move_shape u mo f g Hu. destruct (decide (u = t)) as [->|Hne].
  - pose proof (shape_here _ _ _ _ _ _ Ht Hw Hu) as (g0 & -> & _)%woken_back.
    inversion Hy; subst; [done|by eapply Hnm].
  - destruct (shape_other _ _ _ _ _ _ Hw Hne Hu) as (z & Hz & (g0 & -> & _)%woken_back). by eapply Hnm.
Qed.

Definition sound (n : nat) (s : state) : Prop :=
  fine s /\ used_ok (ths s) (locks s) /\ named (ths s) /\ length (ths s) = n.

Lemma init_sound n : sound n (init n).
Proof.
  destruct (init_fine n) as [Hf Hu]. split_and!; [done|done| |apply length_replicate].
  by intros t mo f g [? _]%lookup_replicate.
Qed.

Lemma move_sound n s t c s' : Z.of_nat n < 2 ^ 32 -> sound n s -> proper_request c -> move t s c = Some (Val s') -> sound n s'.
Proof.
  intros Hn (Hf & Hu & Hnm & Hl) Hc Hm. split_and!.
  - pose proof (move_fine s t c Hf Hnm ltac:(lia)) as Hr. by rewrite Hm in Hr.
  - by eapply move_used; [apply Hf|..].
  - by eapply move_named.
  - by rewrite (move_length _ _ _ _ Hm).
Qed.

Lemma reachable_sound n s : Z.of_nat n < 2 ^ 32 -> reachable n s -> sound n s.
Proof.
  intros Hn Hr. induction Hr as [|s s' _ IH [t c s1 Hc Hm]]; [apply init_sound|]. by eapply move_sound.
Qed.

(** A lock call that is neither asleep nor kept from a mutex can move. *)
Lemma m_owner_moves s t mo f g : fine s -> named (ths s) -> Z.of_nat (length (ths s)) < 2 ^ 32 ->
  ths s !! t = Some (Call mo f g) -> has_m g = true -> exists c s', move t s c = Some (Val s').
Proof.
  intros Hf Hnm Hlen Ht Hg. destruct (has_m_ptr g Hg) as [p Hp]. pose proof Hf as [I _].
  destruct (deref_ok s t mo f g p I Ht Hp) as (L & HL & _).
  assert (exists c r, move t s c = Some r) as (c & r & Hr).
  { unfold move. rewrite Ht. destruct g; try done; injection Hp as ->; unfold deref; rewrite ?HL; try by (exists Go; eauto).
    - exists Go. destruct (must_wait mo L); eauto.
    - destruct (running mo L <=? 0); [exists Go; eauto|]. cbn zeta.
      set (l := <[t := Call mo f (Check p)]> (ths s)).
      assert (exists c l', notify (notifies mo (stop_running mo L)) p c l = Some l') as (c & l' & Hn).
      { destruct (notifies _ _); [by exists Go; eauto| |by exists Go; eauto]. simpl.
        destruct (existsb (sleeps_on Wr p) l) eqn:E; [|exists Go, l; unfold notify_one; by rewrite E].
        apply existsb_exists in E as (x & [u Hu]%list_elem_of_In%list_elem_of_lookup & Hx).
        exists (Wake u). unfold notify_one. rewrite Hu, Hx. eauto. }
      exists c. rewrite Hn. eauto. }
  exists c. pose proof (move_fine s t c Hf Hnm Hlen) as Hres. rewrite Hr in Hres. destruct r; try done. eauto.
Qed.

Lemma free_moves s t mo f g : fine s -> named (ths s) -> Z.of_nat (length (ths s)) < 2 ^ 32 -> ths s !! t = Some (Call mo f g) ->
  (forall p L, heap s !! p = Some L -> m L = None) -> (has_global g = true \/ lockMutex s = None) ->
  exists c s', move t s c = Some (Val s').
Proof.
  intros Hf Hnm Hlen Ht Hno Hg. destruct (has_m g) eqn:Em; [by eapply m_owner_moves|]. pose proof Hf as [I _].
  assert (exists r, move t s Go = Some r) as (r & Hr).
  { unfold move. rewrite Ht.
    assert (forall p, ptr g = Some p -> exists L, heap s !! p = Some L /\ m L = None) as Hd.
    { intros p Hp. destruct (deref_ok s t mo f g p I Ht Hp) as (L & HL & _). eauto. }
    destruct g as [| |p|p|p|p|p|p| | |p|p|p|p|p []]; try done; unfold take_global, take_m, deref;
      try (destruct (Hd p eq_refl) as (L & -> & Hm); rewrite ?Hm); try by eauto.
    - destruct Hg as [| ->]; [done|]. eauto.
    - destruct (negb _); eauto.
    - destruct Hg as [| ->]; [done|]. eauto.
    - destruct (locks s !! f); eauto.
    - destruct (inUse L); [by eauto|]. destruct (decide _); eauto. }
  exists Go. pose proof (move_fine s t Go Hf Hnm Hlen) as Hres. rewrite Hr in Hres. destruct r; try done. eauto.
Qed.

(** Beside a sleeping thread there is one for the same file that does not sleep. *)
Lemma sleeper_has_company s t mo f g : sleep_ok (ths s) -> ths s !! t = Some (Call mo f g) ->
  exists u mo' g', ths s !! u = Some (Call mo' f g') /\ asleep g' = false.
Proof.
  intros Hs Ht. destruct (asleep g) eqn:Eg; [|by eauto]. destruct (Hs f) as [S1 S2].
  assert (forall q mo, 0 < N q mo f (ths s) -> (forall g, q g = true -> asleep g = false) ->
    exists u mo' g', ths s !! u = Some (Call mo' f g') /\ asleep g' = false) as Hq.
  { intros q mo' (u & g' & Hu & Hg')%N_pos Ha. eauto 6. }
  assert (forall g, runs g = true -> asleep g = false) as Hr by (by intros []).
  assert (forall g, awake g = true -> asleep g = false) as Hw by (by intros []).
  pose proof (N_bounds runs Rd f (ths s)). pose proof (N_bounds runs Wr f (ths s)).
  assert (0 < N asleep Wr f (ths s) -> exists u mo' g', ths s !! u = Some (Call mo' f g') /\ asleep g' = false) as Hwr.
  { intros HW%S1. destruct (Z.ltb_spec 0 (N runs Rd f (ths s))); [by eapply Hq|].
    destruct (Z.ltb_spec 0 (N runs Wr f (ths s))); [by eapply Hq|]. apply (Hq awake Wr); [lia|done]. }
  pose proof (N_in asleep mo f _ _ _ Ht Eg) as Hin. destruct mo; [|by apply Hwr].
  specialize (S2 Hin). rewrite <- (Z.sub_add (N asleep Wr f (ths s)) (N waits Wr f (ths s))), <- N_awake in S2.
  destruct (Z.ltb_spec 0 (N runs Wr f (ths s))); [by eapply Hq|].
  destruct (Z.ltb_spec 0 (N asleep Wr f (ths s))); [by apply Hwr|]. apply (Hq awake Wr); [lia|done].
Qed.

(** *** Threads that nest locks *)

Section nesting.
Context (owner : nat -> nat) (rank : string -> nat).
Let asks (f' f : string) : Prop := (rank f' < rank f)%nat.

(** A thread works at one place; what it has ranks below what it is taking. *)
Record nested_ok (l : list pc) : Prop := {
  nest_turns : forall t u x y, t <> u -> owner t = owner u -> l !! t = Some x -> l !! u = Some y ->
    settled x = true \/ settled y = true;
  nest_rank : forall t u mo f g mo' f' g', t <> u -> owner t = owner u -> l !! t = Some (Call mo f g) -> taking g = true ->
    l !! u = Some (Call mo' f' g') -> (rank f' < rank f)%nat }.

Lemma settled_woken x y : woken x y -> settled y = settled x.
Proof. intros [-> | (mo & f & p & -> & ->)]; done. Qed.

Lemma taking_kin g g' : kin g g' -> taking g' = taking g.
Proof. intros [-> | (p & -> & ->)]; done. Qed.

Lemma taking_unsettled mo f g : taking g = true -> settled (Call mo f g) = false.
Proof. by destruct g. Qed.

Lemma nested_ok_init n : nested_ok (replicate n Idle).
Proof. split; [intros t u x y _ _ [-> _]%lookup_replicate; by left|]. by intros t u mo f g mo' f' g' _ _ [? _]%lookup_replicate. Qed.

Lemma nested_ok_step s s' : nested_ok (ths s) -> nested_step owner asks s s' -> nested_ok (ths s').
Proof.
  intros [Ht Hr] [t c s'' Hrun Hord (x & y & Hx & Hy & Hw)%move_shape].
  assert (forall u x', u <> t -> ths s'' !! u = Some x' -> exists x0, ths s !! u = Some x0 /\ woken x0 x') as Hoth
    by (intros; by eapply shape_other).
  split.
  - intros v u a b Hne Ho Ha Hb.
    destruct (decide (v = t)) as [->|Hv]; [right|destruct (decide (u = t)) as [->|Hu]; [left|]].
    + destruct (Hoth u b) as (b0 & Hb0 & ->%settled_woken); [done..|]. by eapply Hrun.
    + destruct (Hoth v a) as (a0 & Ha0 & ->%settled_woken); [done..|]. by eapply Hrun.
    + destruct (Hoth v a Hv Ha) as (a0 & Ha0 & ->%settled_woken). destruct (Hoth u b Hu Hb) as (b0 & Hb0 & ->%settled_woken).
      by apply (Ht v u).
  - intros v u mo f g mo' f' g' Hne Ho Hv Hg Hu. destruct (decide (v = t)) as [->|Hvt].
    + destruct (Hoth u _ ltac:(done) Hu) as (b0 & Hb0 & (g1 & -> & _)%woken_back).
      pose proof (shape_here _ _ _ _ _ _ Hx Hw Hv) as (g0 & -> & Hk)%woken_back. rewrite (taking_kin _ _ Hk) in Hg.
      inversion Hy; subst.
      * destruct Hord as [_ Hord]. by eapply (Hord u).
      * eapply (Hr t u); [done..| |done]. auto.
    + destruct (Hoth v _ Hvt Hv) as (a0 & Ha0 & (g0 & -> & Hk)%woken_back). rewrite (taking_kin _ _ Hk) in Hg.
      destruct (decide (u = t)) as [->|Hut].
      * pose proof (Hrun v _ Hvt Ho Ha0) as E. by rewrite (taking_unsettled _ _ _ Hg) in E.
      * destruct (Hoth u _ Hut Hu) as (b0 & Hb0 & (g1 & -> & _)%woken_back). by eapply (Hr v u).
Qed.

Lemma nested_reachable_ok n s : Z.of_nat n < 2 ^ 32 -> nested_reachable owner asks n s -> sound n s /\ nested_ok (ths s).
Proof.
  intros Hn Hr. induction Hr as [|s s' _ [Hs Hok] Hst]; [split; [apply init_sound|apply nested_ok_init]|].
  split; [|by eapply nested_ok_step]. destruct Hst as [t c s1 _ Hord Hm].
  apply (move_sound n s t c); [done..| |done]. destruct c; [done|apply Hord|done].
Qed.

(** A place that is not settled is the one its thread works at. *)
Lemma unsettled_runs s t x : nested_ok (ths s) -> ths s !! t = Some x -> settled x = false -> may_run owner s t.
Proof.
  intros [Ht _] Hx Hs u y Hne Ho Hu. destruct (Ht u t y x Hne Ho Hu Hx) as [|E]; [done|]. congruence.
Qed.

Lemma find_place (P : pc -> bool) (l : list pc) :
  (exists t x, l !! t = Some x /\ P x = true) \/ (forall t x, l !! t = Some x -> P x = false).
Proof.
  destruct (existsb P l) eqn:E.
  - apply existsb_exists in E as (x & [t Ht]%list_elem_of_In%list_elem_of_lookup & Hx). eauto.
  - right. intros t x Ht. apply not_true_iff_false. intros Hx. apply not_true_iff_false in E. apply E, existsb_exists.
    exists x. by split; [eapply list_elem_of_In, list_elem_of_lookup_2|].
Qed.

(** Of the sleeping places, one whose file ranks highest. *)
Lemma max_sleeper (l : list pc) : (exists t mo f p, l !! t = Some (Call mo f (Asleep p))) ->
  exists t mo f p, l !! t = Some (Call mo f (Asleep p)) /\
    forall u mo' f' p', l !! u = Some (Call mo' f' (Asleep p')) -> (rank f' <= rank f)%nat.
Proof.
  assert (forall k, (forall u mo f p, l !! u = Some (Call mo f (Asleep p)) -> rank f < k)%nat ->
    (exists t mo f p, l !! t = Some (Call mo f (Asleep p))) -> exists t mo f p, l !! t = Some (Call mo f (Asleep p)) /\
    forall u mo' f' p', l !! u = Some (Call mo' f' (Asleep p')) -> (rank f' <= rank f)%nat) as Hk.
  { induction k as [|k IH]; intros Hb (t & mo & f & p & Ht); [specialize (Hb _ _ _ _ Ht); lia|].
    destruct (find_place (fun x => match x with Call _ f (Asleep _) => (rank f =? k)%nat | _ => false end) l)
      as [(u & [|mo1 f1 []] & Hu & E)|He]; try done.
    - apply Nat.eqb_eq in E. eexists u, mo1, f1, _. split; [done|]. intros v mo' f' p' Hv. specialize (Hb _ _ _ _ Hv). lia.
    - apply IH; [|by eauto 6]. intros u mo1 f1 p1 Hu. specialize (Hb _ _ _ _ Hu). specialize (He _ _ Hu). apply Nat.eqb_neq in He. lia. }
  apply (Hk (S (foldr Nat.max 0%nat ((fun x => match x with Call _ f _ => rank f | Idle => 0%nat end) <$> l)))).
  clear Hk. intros u mo f p. revert u. induction l as [|x l IH]; intros [|u] Hu; simplify_eq/=; [lia|]. specialize (IH u Hu). lia.
Qed.

End nesting.

End SmLocksThms.

(** ** Properties *)
Module SmLocksClaims.
Import SmLocks SmLocksThms.

(** A thread in its critical section, or on its way out of it. *)
Definition holds (s : state) (t : nat) (mo : mode) (f : string) : Prop :=
  exists g, ths s !! t = Some (Call mo f g) /\ runs g = true.

(** C17. Whatever lock calls threads make and however they interleave, nested locks
    included, provided that no name asked for begins with a slash (readLock and writeLock
    assert it, IOCoordinator.cpp:1501 and 1526) and there are fewer than 2^32 calls at a
    time: a file that is locked for writing is locked by no other call, a lock object is
    never used after it was deleted and never deleted while somebody waits for it, no
    assertion fails, and when all calls are over no lock object is left. *)
Theorem file_locks_exclusive (n : nat) (s : state) : Z.of_nat n < 2 ^ 32 -> reachable n s ->
  (forall t u f mo, t <> u -> holds s t Wr f -> ~ holds s u mo f) /\
  (forall t c r, move t s c = Some r -> exists s', r = Val s') /\
  (Forall (eq Idle) (ths s) -> locks s = ∅ /\ heap s = ∅).
Proof.
  intros Hn Hr. destruct (reachable_sound n s Hn Hr) as (Hf & Hu & Hnm & Hl). pose proof Hf as [I _]. split_and!.
  - intros t u f mo Hne (g & Ht & Hg) (g' & Hu' & Hg'). destruct (inv_excl s I f) as [H1 H2].
    pose proof (N_in runs Wr f _ _ _ Ht Hg). pose proof (N_in runs mo f _ _ _ Hu' Hg'). destruct mo; [lia|].
    enough (2 <= N runs Wr f (ths s)) by lia. apply (count_two _ _ _ _ _ _ Hne Ht Hu'); simpl; by rewrite bool_decide_eq_true_2.
  - intros t c r Hm. pose proof (move_fine s t c Hf Hnm ltac:(lia)) as Hres. rewrite Hm in Hres. destruct r; try done. eauto.
  - intros Hid. assert (locks s = ∅) as El.
    { apply map_empty. intros f. apply eq_None_not_Some. intros Hs. destruct (Hu f Hs) as (t & mo & g & Ht & _).
      by apply (Forall_lookup_1 _ _ _ _ Hid) in Ht. }
    split; [done|]. apply map_empty. intros p. apply eq_None_not_Some. intros [L HL].
    destruct (inv_heap s I p L HL) as [f Hf']. by rewrite El, lookup_empty in Hf'.
Qed.

(** A mutex, the global one or one of a lock object, is owned by a place that can go on. *)
Lemma mutex_owner_goes_on n s : Z.of_nat n < 2 ^ 32 -> sound n s ->
  (exists t mo f g c s', ths s !! t = Some (Call mo f g) /\ (has_m g || has_global g) = true /\ move t s c = Some (Val s')) \/
  lockMutex s = None /\ (forall p L, heap s !! p = Some L -> m L = None).
Proof.
  intros Hn (Hf & _ & Hnm & Hl). pose proof Hf as [I Hs].
  set (P x := match x with Call _ _ g => has_m g | Idle => false end).
  pose proof (count_nonneg P (ths s)) as Hm. apply Z.le_lteq in Hm as [(t & [|mo f g] & Ht & Hg)%count_pos|Hm]; [done| |].
  { left. destruct (m_owner_moves s t mo f g Hf Hnm ltac:(lia) Ht Hg) as (c & s' & Hmv). exists t, mo, f, g, c, s'.
    simpl in Hg. by rewrite Hg. }
  assert (forall p L, heap s !! p = Some L -> m L = None) as Hno.
  { intros p L HL. destruct (m L) as [t|] eqn:E; [|done]. apply (inv_m s I p L t HL) in E as (mo & f & g & Ht & Hg & _).
    pose proof (count_in P _ _ _ Ht Hg). lia. }
  destruct (lockMutex s) as [t|] eqn:El; [left|by right]. apply (inv_glob s I) in El as (mo & f & g & Ht & Hg).
  destruct (free_moves s t mo f g Hf Hnm ltac:(lia) Ht Hno (or_introl Hg)) as (c & s' & Hmv).
  exists t, mo, f, g, c, s'. by rewrite Hg, orb_true_r.
Qed.

(** With all mutexes free, a place that neither sleeps nor waits for a sleeping place of
    its own thread. *)
Lemma somebody_awake owner rank s : fine s -> nested_ok owner rank (ths s) -> Exists (.≠ Idle) (ths s) ->
  exists t mo f g, ths s !! t = Some (Call mo f g) /\ asleep g = false /\ may_run owner s t.
Proof.
  intros [I Hs] Hok Hex.
  destruct (find_place (fun x => match x with Call _ _ g => negb (asleep g) && negb (settled x) | _ => false end) (ths s))
    as [(t & [|mo f g] & Ht & Hg)|Hb]; [done| |].
  { apply andb_true_iff in Hg as [Ha%negb_true_iff Hse%negb_true_iff]. exists t, mo, f, g. split_and!; [done..|]. by eapply unsettled_runs. }
  assert (forall u x, ths s !! u = Some x -> settled x = true \/ exists mo f p, x = Call mo f (Asleep p)) as Hcase.
  { intros u [|mo f g] Hu; [by left|]. specialize (Hb _ _ Hu). destruct g; try done; eauto 6. }
  destruct (find_place (fun x => match x with Call _ _ g => asleep g | _ => false end) (ths s)) as [(t1 & [|mo1 f1 []] & Ht1 & E)|Hsl]; try done.
  - destruct (max_sleeper rank (ths s)) as (u & mo2 & f2 & p2 & Hu & Hmax); [by eauto 6|].
    destruct (sleeper_has_company s u mo2 f2 _ Hs Hu) as (v & mo3 & g3 & Hv & Hg3). exists v, mo3, f2, g3. split_and!; [done..|].
    intros w y Hne Ho Hw. destruct (Hcase w y Hw) as [|(mo4 & f4 & p4 & ->)]; [done|]. exfalso.
    pose proof (nest_rank _ _ _ Hok w v _ _ _ _ _ _ Hne Ho Hw eq_refl Hv). pose proof (Hmax _ _ _ _ Hw). lia.
  - apply Exists_exists in Hex as ([|mo f g] & [t Ht]%list_elem_of_lookup & Hx); [done|].
    exists t, mo, f, g. split_and!; [done|by apply (Hsl _ _ Ht)|]. intros u x _ _ Hu.
    destruct (Hcase u x Hu) as [|(mo1 & f1 & p1 & ->)]; [done|]. by specialize (Hsl _ _ Hu).
Qed.

(** C18. The lock table never gets stuck if every thread that asks for a lock while it has
    others asks for a file that ranks above those it has, in some order of the files (a
    thread with one lock at a time always does): as long as a lock call is between asking
    for the lock of a file and having given it back, some call that is not asleep, and that
    its thread is free to go on with, can go on.  Names that begin with a slash and 2^32
    calls at a time are excluded as before. *)
Theorem file_locks_never_stuck (owner : nat -> nat) (rank : string -> nat) (n : nat) (s : state) :
  Z.of_nat n < 2 ^ 32 -> nested_reachable owner (fun f' f => (rank f' < rank f)%nat) n s -> Exists (.≠ Idle) (ths s) ->
  exists t mo f g c s', ths s !! t = Some (Call mo f g) /\ asleep g = false /\ may_run owner s t /\ move t s c = Some (Val s').
Proof.
  intros Hn Hr Hex. destruct (nested_reachable_ok owner rank n s Hn Hr) as [Hs Hok].
  destruct (mutex_owner_goes_on n s Hn Hs) as [(t & mo & f & g & c & s' & Ht & Hg & Hm)|[El Hno]].
  - exists t, mo, f, g, c, s'. split_and!; [done|by destruct g| |done].
    eapply unsettled_runs; [done..|]. by destruct g.
  - destruct Hs as (Hf & _ & Hnm & Hl).
    destruct (somebody_awake owner rank s Hf Hok Hex) as (t & mo & f & g & Ht & Hg & Hrun).
    destruct (free_moves s t mo f g Hf Hnm ltac:(lia) Ht Hno (or_intror El)) as (c & s' & Hmv).
    by exists t, mo, f, g, c, s'.
Qed.

(** *** A schedule *)

Fixpoint run (l : list (nat * choice)) (s : state) : option state :=
  match l with
  | [] => Some s
  | (t, c) :: l => match move t s c with Some (Val s') => run l s' | _ => None end
  end.

Definition proper_choice (x : nat * choice) : bool := match x.2 with Request _ f => relative f | _ => true end.

Lemma run_reachable n l s s' : reachable n s -> forallb proper_choice l = true -> run l s = Some s' -> reachable n s'.
Proof.
  revert s. induction l as [|[t c] l IH]; intros s Hr Hp E; simpl in E; [by injection E as <-|].
  apply andb_true_iff in Hp as [Hc Hp].
  destruct (move t s c) as [[s1| |]|] eqn:Em; try done. apply (IH s1); [|done..]. eapply reach_step; [done|].
  apply (step_move s t c s1); [by destruct c|done].
Qed.

(** The same for threads that nest locks: the conditions of [nested_step], decided. *)
Section nested_run.
Context (owner : nat -> nat) (asks : string -> string -> bool).

Definition others (s : state) (t : nat) : list pc :=
  omap (fun u => if decide (u <> t /\ owner u = owner t) then ths s !! u else None) (seq 0 (length (ths s))).

Lemma others_spec s t u x : u <> t -> owner u = owner t -> ths s !! u = Some x -> x ∈ others s t.
Proof.
  intros Hne Ho Hu. apply list_elem_of_omap. exists u. rewrite decide_True by done. split; [|done].
  apply elem_of_seq. apply lookup_lt_Some in Hu. lia.
Qed.

Definition nested_ready (s : state) (t : nat) (c : choice) : bool :=
  forallb settled (others s t) &&
  match c with
  | Request mo f => relative f && forallb (fun x => match x with Call _ f' _ => asks f' f | Idle => true end) (others s t)
  | _ => true
  end.

Fixpoint nested_run (l : list (nat * choice)) (s : state) : option state :=
  match l with
  | [] => Some s
  | (t, c) :: l => if nested_ready s t c then match move t s c with Some (Val s') => nested_run l s' | _ => None end else None
  end.

Lemma nested_ready_step s t c s' : nested_ready s t c = true -> move t s c = Some (Val s') ->
  nested_step owner (fun f' f => asks f' f = true) s s'.
Proof.
  intros [Hs Hc]%andb_true_iff Hm. rewrite forallb_forall in Hs. apply (nested_move _ _ s t c s'); [|destruct c as [|mo f|]; try done|done].
  - intros u x Hne Ho Hu. by apply Hs, list_elem_of_In, (others_spec s t u).
  - apply andb_true_iff in Hc as [Hrel Hc]. rewrite forallb_forall in Hc. split; [done|]. intros u mo' f' g' Hne Ho Hu.
    by apply (Hc (Call mo' f' g')), list_elem_of_In, (others_spec s t u).
Qed.

Lemma nested_run_reachable n l s s' : nested_reachable owner (fun f' f => asks f' f = true) n s ->
  nested_run l s = Some s' -> nested_reachable owner (fun f' f => asks f' f = true) n s'.
Proof.
  revert s. induction l as [|[t c] l IH]; intros s Hr E; simpl in E; [by injection E as <-|].
  destruct (nested_ready s t c) eqn:Ec; [|done]. destruct (move t s c) as [[s1| |]|] eqn:Em; try done.
  apply (IH s1); [|done]. eapply nested_more; [done|by eapply nested_ready_step].
Qed.
End nested_run.

Lemma nested_reachable_mono owner (P Q : string -> string -> Prop) n s : (forall f' f, P f' f -> Q f' f) ->
  nested_reachable owner P n s -> nested_reachable owner Q n s.
Proof.
  intros HPQ Hr. induction Hr as [|s s' _ IH [t c s1 Hrun Hord Hm]]; [constructor|].
  eapply nested_more; [done|]. apply (nested_move _ _ s t c s1); [done| |done].
  destruct c as [|mo f|]; [done| |done]. destruct Hord as [Hrel Hord]. split; [done|]. eauto.
Qed.

(** A writer holds file a, a reader and a second writer sleep, a fourth thread is about to
    take the mutex of the lock object. *)
Definition lock_it (t : nat) (mo : mode) (f : string) (k : nat) : list (nat * choice) :=
  (t, Request mo f) :: replicate k (t, Go).

Definition schedule : list (nat * choice) :=
  lock_it 0 Wr "a" 6 ++ lock_it 1 Rd "a" 6 ++ lock_it 2 Wr "a" 6 ++ lock_it 3 Rd "a" 2.

Definition crowded : state := default (init 4) (run schedule (init 4)).

Lemma crowded_threads :
  ths crowded = [Call Wr "a" Inside; Call Rd "a" (Asleep 0); Call Wr "a" (Asleep 0); Call Rd "a" (Lock 0)].
Proof. by vm_compute. Qed.

Lemma crowded_reachable : reachable 4 crowded.
Proof. apply (run_reachable 4 schedule (init 4)); [constructor|by vm_compute..]. Qed.

Lemma file_locks_exclusive_witness :
  (forall t u f mo, t <> u -> holds crowded t Wr f -> ~ holds crowded u mo f) /\
  (forall t c r, move t crowded c = Some r -> exists s', r = Val s') /\
  (Forall (eq Idle) (ths crowded) -> locks crowded = ∅ /\ heap crowded = ∅).
Proof. apply (file_locks_exclusive 4 crowded); [reflexivity|apply crowded_reachable]. Defined.

(** copyFile twice: places 0 and 1 are the two locks of the first thread, 2 and 3 those of
    the second.  Here both copy from a to b. *)
Definition copiers (t : nat) : nat := Nat.div t 2.

Definition by_name (f : string) : nat := if decide (f = "a") then 0%nat else 1%nat.

Definition name_order (f' f : string) : bool := (by_name f' <? by_name f)%nat.

Definition parallel_schedule : list (nat * choice) :=
  lock_it 0 Rd "a" 6 ++ lock_it 2 Rd "a" 6 ++ lock_it 1 Wr "b" 6 ++ lock_it 3 Wr "b" 6.

Definition parallel : state := default (init 4) (nested_run copiers name_order parallel_schedule (init 4)).

Lemma parallel_threads :
  ths parallel = [Call Rd "a" Inside; Call Wr "b" Inside; Call Rd "a" Inside; Call Wr "b" (Asleep 1)].
Proof. by vm_compute. Qed.

Lemma parallel_reachable : nested_reachable copiers (fun f' f => (by_name f' < by_name f)%nat) 4 parallel.
Proof.
  apply (nested_reachable_mono copiers (fun f' f => name_order f' f = true)); [by intros f' f ?%Nat.ltb_lt|].
  apply (nested_run_reachable copiers name_order 4 parallel_schedule (init 4)); [apply nested_init|by vm_compute].
Qed.

Lemma file_locks_never_stuck_witness :
  exists t mo f g c s', ths parallel !! t = Some (Call mo f g) /\ asleep g = false /\ may_run copiers parallel t /\
    move t parallel c = Some (Val s').
Proof.
  apply (file_locks_never_stuck copiers by_name 4 parallel); [reflexivity|apply parallel_reachable|].
  rewrite parallel_threads. constructor. discriminate.
Defined.

(** *** Two copies that cross *)

(** copyFile(a, b) beside copyFile(b, a): each thread has read-locked its source. *)
Definition crossed_schedule : list (nat * choice) :=
  lock_it 0 Rd "a" 6 ++ lock_it 2 Rd "b" 6 ++ lock_it 1 Wr "b" 6 ++ lock_it 3 Wr "a" 6.

Definition crossed : state := default (init 4) (nested_run copiers (fun _ _ => true) crossed_schedule (init 4)).

(** What follows: the two waiting places sleep, or wake for nothing and look again. *)
Definition around (p : nat) : list (stage * option nat) := [(Asleep p, None); (Woken p, None); (Test p, Some (3 - 2 * p)%nat)].

Definition crossing (x y : stage * option nat) : state :=
  mkState [Call Rd "a" Inside; Call Wr "b" x.1; Call Rd "b" Inside; Call Wr "a" y.1] None {["a" := 0%nat; "b" := 1%nat]}
     {[0%nat := mkLock 0 1 1 0 y.2; 1%nat := mkLock 0 1 1 0 x.2]} 2.

Definition is_crossing (s : state) : Prop := exists x y, In x (around 1) /\ In y (around 0) /\ s = crossing x y.

Lemma crossed_reachable : nested_reachable copiers (fun _ _ => True) 4 crossed.
Proof.
  apply (nested_reachable_mono copiers (fun _ _ => true = true)); [done|].
  apply (nested_run_reachable copiers (fun _ _ => true) 4 crossed_schedule (init 4)); [apply nested_init|by vm_compute].
Qed.

Lemma crossing_step x y t c s' : In x (around 1) -> In y (around 0) -> may_run copiers (crossing x y) t ->
  move t (crossing x y) c = Some (Val s') -> is_crossing s'.
Proof.
  intros Hx Hy Hrun Hm. destruct t as [|[|[|[|t]]]].
  - exfalso. specialize (Hrun 1%nat (Call Wr "b" x.1) ltac:(done) eq_refl eq_refl). by destruct Hx as [<-|[<-|[<-|[]]]].
  - destruct Hx as [<-|[<-|[<-|[]]]]; simpl in Hm; injection Hm as <-;
      [exists (Woken 1, None), y|exists (Test 1, Some 1%nat), y|exists (Asleep 1, None), y];
      (split_and!; [by simpl; tauto|done|by vm_compute]).
  - exfalso. specialize (Hrun 3%nat (Call Wr "a" y.1) ltac:(done) eq_refl eq_refl). by destruct Hy as [<-|[<-|[<-|[]]]].
  - destruct Hy as [<-|[<-|[<-|[]]]]; simpl in Hm; injection Hm as <-;
      [exists x, (Woken 0, None)|exists x, (Test 0, Some 3%nat)|exists x, (Asleep 0, None)];
      (split_and!; [done|by simpl; tauto|by vm_compute]).
  - done.
Qed.

(** C34. Two copies that cross, copyFile(a, b) beside copyFile(b, a), can lock each other
    out for good: each takes the read lock of its source before the write lock of its
    target (IOCoordinator.cpp:1050-1051), and from a state the two threads can reach
    nothing they do ends either wait, however often a condition variable wakes. *)
Theorem crossed_copies_deadlock :
  nested_reachable copiers (fun _ _ => True) 4 crossed /\
  forall s, rtc (nested_step copiers (fun _ _ => True)) crossed s ->
    ths s !! 0%nat = Some (Call Rd "a" Inside) /\ ths s !! 2%nat = Some (Call Rd "b" Inside) /\
    (exists g, ths s !! 1%nat = Some (Call Wr "b" g) /\ waits g = true) /\
    (exists g, ths s !! 3%nat = Some (Call Wr "a" g) /\ waits g = true).
Proof.
  split; [apply crossed_reachable|]. intros s Hs.
  assert (is_crossing s) as (x & y & Hx & Hy & ->).
  { revert s Hs. apply rtc_ind_r.
    - exists (Asleep 1, None), (Asleep 0, None). split_and!; [by left..|by vm_compute].
    - intros s s' _ [t c s1 Hrun _ Hm] (x & y & Hx & Hy & ->). by eapply crossing_step. }
  split_and!; [done..| |]; eexists; (split; [done|]); [by destruct Hx as [<-|[<-|[<-|[]]]]|by destruct Hy as [<-|[<-|[<-|[]]]]].
Qed.

End SmLocksClaims.
