(* ===== verification/SmCache.v ===== *)
(** * The storage manager: the cache of objects

    storage-manager/src/PrefixCache.cpp: which objects lie in the cache directory, in the
    order in which they were used, which of them are being read, which are being evicted.
    Every operation runs under [lru_mutex]; _makeSpace gives it up while an object is
    flushed, [read] while objects are downloaded, and anything may happen meanwhile.

    [ndebug] says how the program was compiled: without it a failed assert() ends the
    program, which an exception stands for; with it the code goes on.

    - [SmCache]: the structures, the operations, the steps of the system.
    - [SmCacheThms]: no iterator dangles, what is being read stays, corner cases. *)

From S2P Require Import Prelude.
From stdpp Require Import prelude gmap strings.
Local Open Scope Z_scope.

Module SmCache.

(** A node of the list [lru]; an iterator is the node's address. *)
Record node := mkNode { lit : nat; key : string }.

(** [m_lru] finds the node of a key; [doNotEvict] has a reference count for every key that
    is being read; the elements of [toBeDeleted] are compared by the keys of their nodes. *)
Record cache := mkCache {
  lru : list node;
  m_lru : gmap string nat;
  doNotEvict : gmap string Z;
  toBeDeleted : gset string;
  maxCacheSize : Z;
  currentCacheSize : Z;
  next : nat }.

Definition with_lru l mm c := mkCache l mm (doNotEvict c) (toBeDeleted c) (maxCacheSize c) (currentCacheSize c) (next c).
Definition with_dne d c := mkCache (lru c) (m_lru c) d (toBeDeleted c) (maxCacheSize c) (currentCacheSize c) (next c).
Definition with_tbd t c := mkCache (lru c) (m_lru c) (doNotEvict c) t (maxCacheSize c) (currentCacheSize c) (next c).
Definition with_max n c := mkCache (lru c) (m_lru c) (doNotEvict c) (toBeDeleted c) n (currentCacheSize c) (next c).
Definition with_size n c := mkCache (lru c) (m_lru c) (doNotEvict c) (toBeDeleted c) (maxCacheSize c) n (next c).

(** [*it]: reading through an iterator whose node was erased is a fault. *)
Definition deref (it : nat) : M cache string :=
  lift (fun c => match list_find (fun n => lit n = it) (lru c) with
                 | Some (_, n) => Val (key n)
                 | None => Fault StaleAddress
                 end).

(** [lru.push_back(k)] and [m_lru.insert] of the new node, which does nothing when the set
    has the key. *)
Definition push_back (k : string) : M cache unit :=
  modify (fun c => mkCache (lru c ++ [mkNode (next c) k])
                     (match m_lru c !! k with Some _ => m_lru c | None => <[k := next c]> (m_lru c) end)
                     (doNotEvict c) (toBeDeleted c) (maxCacheSize c) (currentCacheSize c) (S (next c))).

(** [lru.splice(lru.end(), lru, it)] *)
Definition to_back (it : nat) : M cache unit :=
  modify (fun c => with_lru (filter (fun n => lit n <> it) (lru c) ++ filter (fun n => lit n = it) (lru c)) (m_lru c) c).

Definition lru_erase (it : nat) : M cache unit :=
  modify (fun c => with_lru (filter (fun n => lit n <> it) (lru c)) (m_lru c) c).
Definition m_lru_erase (k : string) : M cache unit := modify (fun c => with_lru (lru c) (delete k (m_lru c)) c).
Definition dne_erase (k : string) : M cache unit := modify (fun c => with_dne (delete k (doNotEvict c)) c).
Definition tbd_erase (k : string) : M cache unit := modify (fun c => with_tbd (toBeDeleted c ∖ {[k]}) c).
Definition add_size (n : Z) : M cache unit := modify (fun c => with_size (u64 (currentCacheSize c + n)) c).

Definition addToDNE (k : string) : M cache unit :=
  modify (fun c => with_dne (match doNotEvict c !! k with
                             | Some n => <[k := u32 (n + 1)]> (doNotEvict c)
                             | None => <[k := 1]> (doNotEvict c)
                             end) c).

Definition removeFromDNE (k : string) : M cache unit :=
  modify (fun c => match doNotEvict c !! k with
                   | None => c
                   | Some n => with_dne (if u32 (n - 1) =? 0 then delete k (doNotEvict c)
                                         else <[k := u32 (n - 1)]> (doNotEvict c)) c
                   end).

(** ** Reading *)

(** [read] up to the download: the keys to fetch. *)
Fixpoint read_mark (inProgress : string -> bool) (keys : list string) : M cache (list string) :=
  match keys with
  | [] => mret []
  | k :: keys =>
      mit ← gets (fun c => m_lru c !! k);
      fetch ← match mit with
              | Some it => k' ← deref it; addToDNE k' ;; to_back it ;; mret []
              | None =>
                  known ← gets (fun c => bool_decide (is_Some (doNotEvict c !! k)));
                  addToDNE k ;;
                  mret (if negb known || inProgress k then [k] else [])
              end;
      rest ← read_mark inProgress keys;
      mret (fetch ++ rest)
  end.

(** After the download: what was downloaded by this call, with its size (0 when it was
    not), is added; a file that was deleted meanwhile is removed. *)
Fixpoint read_add (fetched : list (string * Z)) : M cache Z :=
  match fetched with
  | [] => mret 0
  | (k, size) :: fetched =>
      pinned ← gets (fun c => bool_decide (is_Some (doNotEvict c !! k)));
      (if negb (size =? 0) && pinned then push_back k else mret tt) ;;
      sum ← read_add fetched;
      mret (if negb (size =? 0) && pinned then u64 (size + sum) else sum)
  end.

Definition read_fetched (keys : list string) (fetched : list (string * Z)) : M cache unit :=
  sum_sizes ← read_add fetched;
  for_each keys (fun k =>
    mit ← gets (fun c => m_lru c !! k);
    match mit with Some it => to_back it | None => mret tt end) ;;
  add_size sum_sizes.

Definition exists_ (k : string) : M cache bool := gets (fun c => bool_decide (is_Some (m_lru c !! k))).

(** ** Writing and deleting *)

(** The assertion that the key is new; a key that is there (MCOL-3499) is logged, and gets a
    second node. *)
Definition newObject (ndebug : bool) (k : string) (size : Z) : M cache unit :=
  (if ndebug then mret tt else idbassert (fun c => bool_decide (m_lru c !! k = None))) ;;
  push_back k ;; add_size size.
Definition newJournalEntry (size : Z) : M cache unit := add_size size.

(** The size goes down, to 0 when it would wrap around. *)
Definition sub_size (size : Z) : M cache unit :=
  modify (fun c => with_size (if size <=? currentCacheSize c then currentCacheSize c - size else 0) c).

Definition deletedJournal (size : Z) : M cache unit := sub_size size.

Definition deletedObject (ndebug : bool) (k : string) (size : Z) : M cache unit :=
  (if ndebug then mret tt else idbassert (fun c => bool_decide (is_Some (m_lru c !! k)))) ;;
  mit ← gets (fun c => m_lru c !! k);
  match mit with
  | None => fail_with OutOfBounds
  | Some it =>
      k' ← deref it;
      going ← gets (fun c => bool_decide (k' ∈ toBeDeleted c));
      if going : bool then mret tt
      else dne_erase k' ;; lru_erase it ;; m_lru_erase k ;; sub_size size
  end.

(** The sizes are those of the object and of its journal, if it has one. *)
Definition ifExistsThenDelete (k : string) (objectSize : Z) (journal : option Z) : M cache Z :=
  let finish (objectExists : bool) :=
    add_size (- ((if objectExists then objectSize else 0) + default 0 journal)) ;;
    mret (Z.lor (if objectExists then 1 else 0) (match journal with Some _ => 2 | None => 0 end)) in
  mit ← gets (fun c => m_lru c !! k);
  match mit with
  | None => finish false
  | Some it =>
      k' ← deref it;
      going ← gets (fun c => bool_decide (k' ∈ toBeDeleted c));
      if going : bool then mret 0
      else dne_erase k' ;; lru_erase it ;; m_lru_erase k ;; finish true
  end.

(** [*lit = newKey] *)
Definition set_key (it : nat) (k : string) : M cache unit :=
  modify (fun c => with_lru ((fun n => if decide (lit n = it) then mkNode it k else n) <$> lru c) (m_lru c) c).

Definition rename (oldKey newKey : string) (sizediff : Z) : M cache unit :=
  mit ← gets (fun c => m_lru c !! oldKey);
  match mit with
  | None => mret tt
  | Some it =>
      m_lru_erase oldKey ;;
      k ← deref it;
      refCount ← gets (fun c => default 0 (doNotEvict c !! k));
      dne_erase k ;;
      hasTBDEntry ← gets (fun c => bool_decide (k ∈ toBeDeleted c));
      tbd_erase k ;;
      set_key it newKey ;;
      (if hasTBDEntry : bool then modify (fun c => with_tbd ({[newKey]} ∪ toBeDeleted c) c) else mret tt) ;;
      (if negb (refCount =? 0) then modify (fun c => with_dne (<[newKey := refCount]> (doNotEvict c)) c) else mret tt) ;;
      modify (fun c => with_lru (lru c) (match m_lru c !! newKey with Some _ => m_lru c | None => <[newKey := it]> (m_lru c) end) c) ;;
      add_size sizediff
  end.

(** ** Eviction *)

(** A call of _makeSpace that has given up the mutex: how much is left to free, the object
    being flushed, and the limit setMaxCacheSize sets at the end. *)
Record frame := mkFrame { thisMuch : Z; it : nat; newMax : option Z }.

(** The first node that is neither being read nor being flushed. *)
Definition evictable (c : cache) (n : node) : Prop := doNotEvict c !! key n = None /\ key n ∉ toBeDeleted c.

Global Instance evictable_dec c n : Decision (evictable c n).
Proof. unfold evictable. apply _. Defined.

(** The loop up to the flush: a frame, or the end of the call. *)
Definition pick (much : Z) (max : option Z) : M cache (option frame) :=
  n ← gets (fun c => if 0 <? much then list_find (evictable c) (lru c) else None);
  match n with
  | Some (_, n) =>
      modify (fun c => with_tbd ({[key n]} ∪ toBeDeleted c) c) ;;
      mret (Some (mkFrame much (lit n) max))
  | None =>
      match max with Some size => modify (with_max size) | None => mret tt end ;;
      mret None
  end.

Definition _makeSpace (size : Z) (max : option Z) : M cache (option frame) :=
  much ← gets (fun c => i64 (currentCacheSize c + size - maxCacheSize c));
  pick much max.

(** The call goes on after the flush: [flushed] is false when it threw, [newSize] is the
    size of the file. *)
Definition resume_space (f : frame) (flushed : bool) (newSize : Z) : M cache (option frame) :=
  k ← deref (it f);
  if negb flushed then tbd_erase k ;; pick (thisMuch f) (newMax f)
  else
    pinned ← gets (fun c => bool_decide (is_Some (doNotEvict c !! k)));
    if pinned : bool then tbd_erase k ;; pick (thisMuch f) (newMax f)
    else
      m_lru_erase k ;; tbd_erase k ;; lru_erase (it f) ;;
      size ← gets currentCacheSize;
      if newSize <? size then modify (with_size (size - newSize)) ;; pick (thisMuch f - newSize) (newMax f)
      else modify (with_size 0) ;; pick 0 (newMax f).

Definition doneReading (keys : list string) : M cache (option frame) :=
  for_each keys removeFromDNE ;; _makeSpace 0 None.

Definition doneWriting : M cache (option frame) := _makeSpace 0 None.

Definition setMaxCacheSize (size : Z) : M cache (option frame) :=
  max ← gets maxCacheSize;
  if size <? max then _makeSpace (max - size) (Some size) else modify (with_max size) ;; mret None.

(** [populate]: what lies in the cache directory and in the journal directory at the start,
    with the sizes of the files. *)
Definition populate (files : list (string * Z)) (journals : list Z) : M cache unit :=
  for_each files (fun x => push_back x.1 ;; add_size x.2) ;; for_each journals add_size.

(** ** The system: the cache and the calls of _makeSpace under way *)

Inductive label :=
| Read (inProgress : string -> bool) (keys : list string)
| Fetched (keys : list string) (got : list (string * Z))
| DoneReading (keys : list string)
| DoneWriting
| NewObject (k : string) (size : Z)
| NewJournalEntry (size : Z)
| DeletedJournal (size : Z)
| DeletedObject (k : string) (size : Z)
| Delete (k : string) (objectSize : Z) (journal : option Z)
| Rename (oldKey newKey : string) (sizediff : Z)
| SetMax (size : Z)
| Resume (i : nat) (flushed : bool) (newSize : Z).

Definition sys : Type := cache * list frame.

(** Run [m] on the cache; a frame it leaves joins the others. *)
Definition start {A} (m : M cache A) (frames : list frame) (of_ : A -> option frame) (c : cache) : outcome sys :=
  match m c with
  | (Val a, c') => Val (c', frames ++ match of_ a with Some f => [f] | None => [] end)
  | (Exn e, _) => Exn e
  | (Fault x, _) => Fault x
  end.

Definition exec (ndebug : bool) (l : label) (s : sys) : outcome sys :=
  let '(c, fs) := s in
  match l with
  | Read p keys => start (read_mark p keys) fs (fun _ => None) c
  | Fetched keys got => start (read_fetched keys got) fs (fun _ => None) c
  | DoneReading keys => start (doneReading keys) fs id c
  | DoneWriting => start doneWriting fs id c
  | NewObject k size => start (newObject ndebug k size) fs (fun _ => None) c
  | NewJournalEntry size => start (newJournalEntry size) fs (fun _ => None) c
  | DeletedJournal size => start (deletedJournal size) fs (fun _ => None) c
  | DeletedObject k size => start (deletedObject ndebug k size) fs (fun _ => None) c
  | Delete k osize j => start (ifExistsThenDelete k osize j) fs (fun _ => None) c
  | Rename k k' d => start (rename k k' d) fs (fun _ => None) c
  | SetMax size => start (setMaxCacheSize size) fs id c
  | Resume i flushed n =>
      match fs !! i with
      | Some f => start (resume_space f flushed n) (delete i fs) id c
      | None => Val s
      end
  end.

End SmCache.

(** ** Theory *)
Module SmCacheThms.
Import SmCache.

(** The nodes have different addresses, [m_lru] finds the node of every key and no other,
    the calls of _makeSpace under way flush different objects, and [toBeDeleted] has the
    keys of exactly these. *)
Record inv (c : cache) (fs : list frame) : Prop := {
  i_lits : NoDup (lit <$> lru c);
  i_map : forall k i, m_lru c !! k = Some i <-> mkNode i k ∈ lru c;
  i_next : forall n, n ∈ lru c -> (lit n < next c)%nat;
  i_frames : NoDup (it <$> fs);
  i_flushed : forall f, f ∈ fs -> exists k, mkNode (it f) k ∈ lru c /\ k ∈ toBeDeleted c;
  i_tbd : forall k, k ∈ toBeDeleted c -> exists f, f ∈ fs /\ mkNode (it f) k ∈ lru c;
  i_dne : forall k n, doNotEvict c !! k = Some n -> 0 < n < 2 ^ 32 }.

Definition refs (c : cache) (k : string) : Z := default 0 (doNotEvict c !! k).
Definition cached (c : cache) (k : string) : Prop := is_Some (m_lru c !! k).

Global Instance node_eq_dec : EqDecision node.
Proof. solve_decision. Defined.

Lemma same_lit l i k k' : NoDup (lit <$> l) -> mkNode i k ∈ l -> mkNode i k' ∈ l -> k = k'.
Proof.
  intros Hnd Hk Hk'. apply list_elem_of_lookup in Hk as [a Ha], Hk' as [b Hb].
  assert (a = b) as ->.
  { eapply NoDup_lookup; [exact Hnd| |]; rewrite list_lookup_fmap; [by rewrite Ha|by rewrite Hb]. }
  congruence.
Qed.

Lemma node_deref c fs i k : inv c fs -> mkNode i k ∈ lru c -> deref i c = (Val k, c).
Proof.
  intros I Hk. unfold deref, lift. destruct (list_find (fun n => lit n = i) (lru c)) as [[a [i' k']]|] eqn:E.
  - apply list_find_Some in E as (Ha & Hi & _). simpl in Hi. subst i'. do 2 f_equal.
    eapply same_lit; [apply I|by eapply list_elem_of_lookup_2|done].
  - exfalso. apply list_find_None in E. rewrite Forall_forall in E. by apply (E _ Hk).
Qed.

(** The list may be permuted, and the sizes and limits may be anything. *)
Lemma inv_perm c c' fs : inv c fs -> lru c' ≡ₚ lru c -> m_lru c' = m_lru c -> toBeDeleted c' = toBeDeleted c ->
  doNotEvict c' = doNotEvict c -> next c' = next c -> inv c' fs.
Proof.
  intros I Hl Hm Ht Hd Hn. split.
  - rewrite Hl. apply I.
  - intros k i. rewrite Hm, Hl. apply I.
  - intros n. rewrite Hl, Hn. apply I.
  - apply I.
  - intros f. rewrite Ht. setoid_rewrite Hl. apply I.
  - intros k. rewrite Ht. setoid_rewrite Hl. apply I.
  - intros k n. rewrite Hd. apply I.
Qed.

Lemma inv_dne c fs d : inv c fs -> (forall k n, d !! k = Some n -> 0 < n < 2 ^ 32) -> inv (with_dne d c) fs.
Proof. intros I Hd. split; try apply I. exact Hd. Qed.

Lemma refs_bounds c fs k : inv c fs -> 0 <= refs c k < 2 ^ 32.
Proof. intros I. unfold refs. destruct (doNotEvict c !! k) as [n|] eqn:E; simpl; [pose proof (i_dne c fs I k n E)|]; lia. Qed.

(** What an operation that leaves the list alone, up to its order, may do. *)
Definition same_list (c c' : cache) : Prop := lru c' ≡ₚ lru c /\ m_lru c' = m_lru c /\ toBeDeleted c' = toBeDeleted c /\ next c' = next c.

Lemma same_list_trans c1 c2 c3 : same_list c1 c2 -> same_list c2 c3 -> same_list c1 c3.
Proof. intros (H1 & H2 & H3 & H4) (H5 & H6 & H7 & H8). split_and!; [by rewrite H5|congruence..]. Qed.

Lemma same_list_refl c : same_list c c.
Proof. done. Qed.

Lemma inv_same_list c c' fs : inv c fs -> same_list c c' -> (forall k n, doNotEvict c' !! k = Some n -> 0 < n < 2 ^ 32) -> inv c' fs.
Proof.
  intros I (H1 & H2 & H3 & H4) Hd. apply (inv_dne _ _ (doNotEvict c')) in I; [|done].
  by apply (inv_perm _ c' _ I).
Qed.

(** *** Reference counts *)

Definition bump (k k' : string) : Z := if decide (k = k') then 1 else 0.

Definition occ (k : string) (keys : list string) : Z := foldr (fun k' n => bump k k' + n) 0 keys.

Lemma occ_nonneg k keys : 0 <= occ k keys.
Proof. induction keys as [|x keys IH]; simpl; [done|]. unfold bump. case_decide; lia. Qed.

Lemma occ_length k keys : occ k keys <= zlen keys.
Proof. induction keys as [|x keys IH]; [done|]. unfold zlen in *. simpl. unfold bump. case_decide; lia. Qed.

Lemma addToDNE_spec k c fs : inv c fs -> refs c k + 1 < 2 ^ 32 ->
  wp (addToDNE k) c (fun _ c' => inv c' fs /\ same_list c c' /\ forall k', refs c' k' = refs c k' + bump k' k).
Proof.
  intros I Hb. unfold addToDNE. apply wp_modify. pose proof (refs_bounds c fs k I) as Hr. unfold refs in *.
  assert (forall k' : string, k' <> k -> bump k' k = 0) as Hz by (intros k' Hne; unfold bump; by rewrite decide_False).
  assert (bump k k = 1) as H1 by (unfold bump; by rewrite decide_True).
  destruct (doNotEvict c !! k) as [n|] eqn:E; simpl in Hb, Hr; (split; [|split; [done|]]).
  - apply inv_dne; [done|]. rewrite u32_small by lia. intros k' n'. rewrite lookup_insert_Some. intros [[<- <-]|[_ Hn]]; [lia|by eapply I].
  - intros k'. cbn. rewrite u32_small by lia. destruct (decide (k' = k)) as [->|Hne].
    + rewrite lookup_insert_eq, E, H1. done.
    + rewrite lookup_insert_ne, Hz by done. lia.
  - apply inv_dne; [done|]. intros k' n'. rewrite lookup_insert_Some. intros [[<- <-]|[_ Hn]]; [lia|by eapply I].
  - intros k'. cbn. destruct (decide (k' = k)) as [->|Hne].
    + rewrite lookup_insert_eq, E, H1. done.
    + rewrite lookup_insert_ne, Hz by done. lia.
Qed.

Lemma removeFromDNE_spec k c fs : inv c fs ->
  wp (removeFromDNE k) c (fun _ c' => inv c' fs /\ same_list c c' /\ forall k', refs c' k' = Z.max 0 (refs c k' - bump k' k)).
Proof.
  intros I. unfold removeFromDNE. apply wp_modify. pose proof (refs_bounds c fs k I) as Hr.
  assert (forall k', 0 <= refs c k') as H0 by (intros k'; pose proof (refs_bounds c fs k' I); lia). unfold refs in *.
  assert (forall k' : string, k' <> k -> bump k' k = 0) as Hz by (intros k' Hne; unfold bump; by rewrite decide_False).
  assert (bump k k = 1) as H1 by (unfold bump; by rewrite decide_True).
  destruct (doNotEvict c !! k) as [n|] eqn:E; simpl in Hr.
  2:{ split; [done|]. split; [done|]. intros k'. destruct (decide (k' = k)) as [->|Hne]; [rewrite E, H1; done|]. rewrite Hz by done. specialize (H0 k'). lia. }
  pose proof (i_dne c fs I k n E) as Hn. rewrite u32_small by lia. split; [|split; [done|]].
  - apply inv_dne; [done|]. intros k' n'. destruct (Z.eqb_spec (n - 1) 0).
    + rewrite lookup_delete_Some. intros [_ Hk]. by eapply I.
    + rewrite lookup_insert_Some. intros [[<- <-]|[_ Hk]]; [lia|by eapply I].
  - intros k'. cbn. specialize (H0 k'). destruct (decide (k' = k)) as [->|Hne].
    + rewrite E, H1. destruct (Z.eqb_spec (n - 1) 0); [rewrite lookup_delete_eq|rewrite lookup_insert_eq]; simpl; lia.
    + rewrite Hz by done. destruct (_ =? 0); [rewrite lookup_delete_ne by done|rewrite lookup_insert_ne by done]; lia.
Qed.

Lemma to_back_spec i c fs : inv c fs -> wp (to_back i) c (fun _ c' => inv c' fs /\ same_list c c' /\ doNotEvict c' = doNotEvict c).
Proof.
  intros I. apply wp_modify. cbn.
  assert (filter (fun n => lit n <> i) (lru c) ++ filter (fun n => lit n = i) (lru c) ≡ₚ lru c) as Hp.
  { induction (lru c) as [|n l IH]; [done|]. rewrite !filter_cons. destruct (decide (lit n = i)) as [Hi|Hi].
    - rewrite decide_False by (by intros ?). rewrite <- Permutation_middle. by rewrite IH.
    - rewrite decide_True by done. simpl. by rewrite IH. }
  split; [|done]. by apply (inv_perm c).
Qed.

Lemma read_mark_spec p keys c fs : inv c fs -> (forall k, refs c k + zlen keys < 2 ^ 32) ->
  wp (read_mark p keys) c (fun _ c' => inv c' fs /\ same_list c c' /\ forall k, refs c' k = refs c k + occ k keys).
Proof.
  revert c. induction keys as [|k keys IH]; intros c I Hb.
  { apply wp_ret. split_and!; try done. intros k. simpl. lia. }
  assert (zlen (k :: keys) = 1 + zlen keys) as Hz by (unfold zlen; simpl; lia). rewrite Hz in Hb.
  assert (0 <= zlen keys) by (unfold zlen; lia). cbn [read_mark]. apply wp_bind, wp_gets, wp_bind.
  apply (wp_mono _ _ (fun _ c1 => inv c1 fs /\ same_list c c1 /\ forall k', refs c1 k' = refs c k' + bump k' k)).
  - destruct (m_lru c !! k) as [i|] eqn:Ei.
    + assert (mkNode i k ∈ lru c) as Hn by (by apply (i_map c fs I)).
      apply wp_bind. unfold wp at 1. rewrite (node_deref c fs i k I Hn).
      apply wp_bind. eapply wp_mono; [apply (addToDNE_spec k c fs I); specialize (Hb k); lia|]. intros _ c1 (I1 & S1 & R1).
      apply wp_bind. eapply wp_mono; [by apply (to_back_spec i c1 fs)|]. intros _ c2 (I2 & S2 & D2). apply wp_ret.
      split; [done|]. split; [by eapply same_list_trans|]. intros k'. unfold refs in *. by rewrite D2.
    + apply wp_bind, wp_gets, wp_bind. eapply wp_mono; [apply (addToDNE_spec k c fs I); specialize (Hb k); lia|].
      intros ? c1 Hc. by apply wp_ret.
  - intros fetch c1 (I1 & S1 & R1). apply wp_bind. eapply wp_mono; [apply (IH c1 I1)|].
    + intros k'. rewrite R1. specialize (Hb k'). unfold bump. case_decide; lia.
    + intros rest c2 (I2 & S2 & R2). apply wp_ret. split; [done|]. split; [by eapply same_list_trans|].
      intros k'. rewrite R2, R1. simpl. lia.
Qed.

Lemma unmark_spec keys c fs : inv c fs ->
  wp (for_each keys removeFromDNE) c (fun _ c' => inv c' fs /\ same_list c c' /\ forall k, refs c' k = Z.max 0 (refs c k - occ k keys)).
Proof.
  revert c. induction keys as [|k keys IH]; intros c I.
  { apply wp_ret. split_and!; try done. intros k. pose proof (refs_bounds c fs k I). simpl. lia. }
  cbn [for_each]. apply wp_bind. eapply wp_mono; [by apply (removeFromDNE_spec k c fs)|]. intros _ c1 (I1 & S1 & R1).
  eapply wp_mono; [by apply (IH c1)|]. intros _ c2 (I2 & S2 & R2). split; [done|]. split; [by eapply same_list_trans|].
  intros k'. rewrite R2, R1. simpl. pose proof (occ_nonneg k' keys). unfold bump. case_decide; lia.
Qed.

(** *** Nodes come and go *)

Lemma push_back_spec k c fs : inv c fs -> m_lru c !! k = None ->
  wp (push_back k) c (fun _ c' => inv c' fs /\ m_lru c' = <[k := next c]> (m_lru c) /\ doNotEvict c' = doNotEvict c).
Proof.
  intros I Hk. apply wp_modify. rewrite Hk. cbn. split; [|done].
  assert (forall n, n ∈ lru c -> lit n <> next c) as Hne by (intros n Hn; pose proof (i_next c fs I n Hn); lia).
  split; cbn.
  - rewrite fmap_app. apply NoDup_app. split; [apply I|]. split; [|apply NoDup_singleton].
    intros i (n & -> & Hn)%list_elem_of_fmap. simpl. rewrite list_elem_of_singleton. by apply Hne.
  - intros k' i. rewrite lookup_insert_Some, elem_of_app, list_elem_of_singleton. rewrite (i_map c fs I). split.
    + intros [[-> ->]|[_ Hn]]; auto.
    + intros [Hn|[= -> ->]]; [right|by left]. split; [|done]. intros ->. apply (i_map c fs I) in Hn. congruence.
  - intros n. rewrite elem_of_app, list_elem_of_singleton. intros [Hn| ->]; simpl; [pose proof (i_next c fs I n Hn)|]; lia.
  - apply I.
  - intros f Hf. destruct (i_flushed c fs I f Hf) as (k' & Hn & Ht). exists k'. rewrite elem_of_app. auto.
  - intros k' Ht. destruct (i_tbd c fs I k' Ht) as (f & Hf & Hn). exists f. rewrite elem_of_app. auto.
  - apply I.
Qed.

Lemma inv_size c fs n : inv c fs -> inv (with_size n c) fs.
Proof. intros I. by apply (inv_perm c). Qed.

Lemma inv_max c fs n : inv c fs -> inv (with_max n c) fs.
Proof. intros I. by apply (inv_perm c). Qed.

(** A node that nobody flushes is erased. *)
Lemma inv_erase c fs i k d : inv c fs -> mkNode i k ∈ lru c -> k ∉ toBeDeleted c ->
  (forall k' n, d !! k' = Some n -> doNotEvict c !! k' = Some n) ->
  inv (with_lru (filter (fun n => lit n <> i) (lru c)) (delete k (m_lru c)) (with_dne d c)) fs.
Proof.
  intros I Hn Ht Hd. split; cbn.
  - apply (sublist_NoDup _ (lit <$> lru c)); [apply I|]. apply fmap_sublist, sublist_filter.
  - intros k' i'. rewrite lookup_delete_Some, list_elem_of_filter, (i_map c fs I). split.
    + intros [Hne Hn']. split; [|done]. simpl. intros ->. apply Hne. by eapply same_lit; [apply I|..].
    + intros [Hne Hn']. split; [|done]. simpl in Hne. intros <-. apply Hne. apply (i_map c fs I) in Hn, Hn'. congruence.
  - intros n [_ Hn']%list_elem_of_filter. by apply I.
  - apply I.
  - intros f Hf. destruct (i_flushed c fs I f Hf) as (k' & Hn' & Ht'). exists k'. split; [|done]. apply list_elem_of_filter. split; [|done].
    simpl. intros E. rewrite E in Hn'. assert (k' = k) as -> by (by eapply same_lit; [apply I|..]). done.
  - intros k' Ht'. destruct (i_tbd c fs I k' Ht') as (f & Hf & Hn'). exists f. split; [done|]. apply list_elem_of_filter. split; [|done].
    simpl. intros E. rewrite E in Hn'. assert (k' = k) as -> by (by eapply same_lit; [apply I|..]). done.
  - intros k' n Hk'. by apply (i_dne c fs I k'), Hd.
Qed.

(** The flush of a node is over. *)
Lemma inv_unflush c fs j f k : inv c fs -> fs !! j = Some f -> mkNode (it f) k ∈ lru c ->
  inv (with_tbd (toBeDeleted c ∖ {[k]}) c) (delete j fs).
Proof.
  intros I Hj Hn. pose proof (delete_Permutation _ _ _ Hj) as Hp.
  assert (NoDup (it <$> f :: delete j fs)) as Hnd by (rewrite <- Hp; apply I). rewrite fmap_cons in Hnd. apply NoDup_cons in Hnd as [Hf Hnd].
  assert (forall f', f' ∈ delete j fs -> f' ∈ fs /\ it f' <> it f) as Hin.
  { intros f' Hf'. split; [rewrite Hp; by right|]. intros E. apply Hf. rewrite <- E. by apply list_elem_of_fmap_2. }
  split; cbn; try apply I.
  - done.
  - intros f' [Hf' Hne]%Hin. destruct (i_flushed c fs I f' Hf') as (k' & Hn' & Ht). exists k'. split; [done|].
    apply elem_of_difference. split; [done|]. rewrite elem_of_singleton. intros ->. apply Hne.
    apply (i_map c fs I) in Hn, Hn'. congruence.
  - intros k' [Ht Hk]%elem_of_difference. destruct (i_tbd c fs I k' Ht) as (f' & Hf' & Hn'). exists f'. split; [|done].
    rewrite Hp in Hf'. apply elem_of_cons in Hf' as [->|Hf']; [|done]. exfalso. apply Hk, elem_of_singleton.
    by eapply same_lit; [apply I|..].
Qed.

Definition joins (fs : list frame) (r : option frame) : list frame := fs ++ match r with Some f => [f] | None => [] end.

(** An object is chosen for eviction. *)
Lemma pick_spec much max c fs : inv c fs ->
  wp (pick much max) c (fun r c' => inv c' (joins fs r) /\ m_lru c' = m_lru c /\ doNotEvict c' = doNotEvict c).
Proof.
  intros I. unfold pick. apply wp_bind, wp_gets.
  destruct (if 0 <? much then _ else None) as [[a [i k]]|] eqn:E.
  - assert (mkNode i k ∈ lru c /\ k ∉ toBeDeleted c) as [Hn Ht].
    { destruct (0 <? much); [|done]. apply list_find_Some in E as (Ha & (_ & Ht) & _). split; [by eapply list_elem_of_lookup_2|done]. }
    apply wp_bind, wp_modify, wp_ret. split; [|done]. unfold joins. split; cbn; try apply I.
    + rewrite fmap_app. apply NoDup_app. split; [apply I|]. split; [|apply NoDup_singleton].
      intros j (f & -> & Hf)%list_elem_of_fmap. simpl. rewrite list_elem_of_singleton. intros Ej.
      destruct (i_flushed c fs I f Hf) as (k' & Hn' & Ht'). rewrite Ej in Hn'. apply Ht.
      by assert (k' = k) as <- by (by eapply same_lit; [apply I|..]).
    + intros f. rewrite elem_of_app, list_elem_of_singleton. intros [Hf| ->].
      * destruct (i_flushed c fs I f Hf) as (k' & Hn' & Ht'). exists k'. split; [done|]. by apply elem_of_union_r.
      * exists k. split; [done|]. apply elem_of_union_l. by apply elem_of_singleton.
    + intros k' [->%elem_of_singleton|Ht']%elem_of_union.
      * exists (mkFrame much i max). rewrite elem_of_app, list_elem_of_singleton. auto.
      * destruct (i_tbd c fs I k' Ht') as (f & Hf & Hn'). exists f. rewrite elem_of_app. auto.
  - apply wp_bind. destruct max; [apply wp_modify|apply wp_ret]; apply wp_ret; unfold joins; rewrite app_nil_r; [|done].
    split; [by apply inv_max|done].
Qed.

(** *** The operations *)

(** The keys this call downloaded: the others have size 0. *)
Definition new_keys (got : list (string * Z)) : list string := (filter (fun x => x.2 <> 0) got).*1.

Definition fetched_ok (got : list (string * Z)) (c : cache) : Prop :=
  NoDup (new_keys got) /\ forall k, k ∈ new_keys got -> m_lru c !! k = None.

Lemma new_keys_cons k size got : new_keys ((k, size) :: got) = if decide (size = 0) then new_keys got else k :: new_keys got.
Proof.
  unfold new_keys. rewrite filter_cons. simpl. destruct (decide (size = 0)) as [->|Hne].
  - by rewrite decide_False by (intros Hn; done).
  - by rewrite decide_True.
Qed.

Lemma read_add_spec got c fs : inv c fs -> fetched_ok got c ->
  wp (read_add got) c (fun _ c' => inv c' fs /\ doNotEvict c' = doNotEvict c /\ forall k, cached c k -> cached c' k).
Proof.
  revert c. induction got as [|[k size] got IH]; intros c I [Hnd Hno]; [by apply wp_ret|].
  rewrite new_keys_cons in Hnd, Hno. cbn [read_add]. apply wp_bind, wp_gets, wp_bind.
  apply (wp_mono _ _ (fun _ c1 => inv c1 fs /\ doNotEvict c1 = doNotEvict c /\ fetched_ok got c1 /\ forall k', cached c k' -> cached c1 k')).
  - destruct (Z.eqb_spec size 0) as [->|Hs]; [rewrite decide_True in Hnd, Hno by done; by apply wp_ret|].
    rewrite decide_False in Hnd, Hno by done. apply NoDup_cons in Hnd as [Hk Hnd]. cbn [negb andb]. case_bool_decide.
    + eapply wp_mono; [apply (push_back_spec k c fs I), Hno; by left|]. intros ? c1 (I1 & M1 & D1). split_and!; try done.
      * split; [done|]. intros k' Hk'. rewrite M1. rewrite lookup_insert_ne by (intros ->; done). apply Hno. by right.
      * unfold cached. intros k' Hc. rewrite M1. destruct (decide (k = k')) as [->|Hne]; [by rewrite lookup_insert_eq|by rewrite lookup_insert_ne].
    + apply wp_ret. split_and!; try done. split; [done|]. intros k' Hk'. apply Hno. by right.
  - intros ? c1 (I1 & D1 & F1 & K1). apply wp_bind. eapply wp_mono; [by apply (IH c1)|]. intros sum c2 (I2 & D2 & K2). apply wp_ret.
    split; [done|]. split; [congruence|auto].
Qed.

Lemma move_back_spec keys c fs : inv c fs ->
  wp (for_each keys (fun k => mit ← gets (fun c => m_lru c !! k); match mit with Some it => to_back it | None => mret tt end)) c
    (fun _ c' => inv c' fs /\ same_list c c' /\ doNotEvict c' = doNotEvict c).
Proof.
  revert c. induction keys as [|k keys IH]; intros c I; [by apply wp_ret|]. cbn [for_each]. apply wp_bind, wp_bind, wp_gets.
  apply (wp_mono _ _ (fun _ c1 => inv c1 fs /\ same_list c c1 /\ doNotEvict c1 = doNotEvict c)).
  - destruct (m_lru c !! k); [by apply to_back_spec|by apply wp_ret].
  - intros ? c1 (I1 & S1 & D1). eapply wp_mono; [by apply (IH c1)|]. intros ? c2 (I2 & S2 & D2). split_and!; [done|by eapply same_list_trans|congruence].
Qed.

(** What a label asks of its callers: new names are new, what was downloaded was not there,
    an object said to be deleted exists, and the counters have room.  Without the first the
    structures do not stay consistent ([second_node]). *)
Definition admissible (l : label) (c : cache) : Prop :=
  match l with
  | Read _ keys => forall k, refs c k + zlen keys < 2 ^ 32
  | Fetched _ got => fetched_ok got c
  | NewObject k _ => m_lru c !! k = None
  | DeletedObject k _ => cached c k
  | Rename _ k' _ => m_lru c !! k' = None /\ doNotEvict c !! k' = None
  | _ => True
  end.

(** Labels that remove or rename [k]. *)
Definition touches (l : label) (k : string) : bool :=
  match l with
  | DeletedObject k' _ | Delete k' _ _ => bool_decide (k' = k)
  | Rename k1 k2 _ => bool_decide (k1 = k) || bool_decide (k2 = k)
  | _ => false
  end.

(** The reference count of [k] after [l]. *)
Definition refs_after (l : label) (k : string) (n : Z) : Z :=
  match l with
  | Read _ keys => n + occ k keys
  | DoneReading keys => Z.max 0 (n - occ k keys)
  | _ => n
  end.

(** The cache after [l]: the invariant, the reference counts, and that only a key that is
    not being read may have gone. *)
Definition after (l : label) (c : cache) (fs : list frame) (c' : cache) (fs' : list frame) : Prop :=
  inv c' fs' /\ forall k, touches l k = false ->
    refs c' k = refs_after l k (refs c k) /\ (cached c k -> 0 < refs c k -> cached c' k).

Lemma wp_checked (nd : bool) (b : cache -> bool) c (Q : unit -> cache -> Prop) : b c = true -> Q tt c ->
  wp (if nd then mret tt else idbassert b) c Q.
Proof. intros Hb HQ. destruct nd; unfold wp, idbassert; [done|]. by rewrite Hb. Qed.

Lemma erase_spec k i c fs n : inv c fs -> mkNode i k ∈ lru c -> k ∉ toBeDeleted c ->
  let c' := with_size n (with_lru (filter (fun n => lit n <> i) (lru c)) (delete k (m_lru c)) (with_dne (delete k (doNotEvict c)) c)) in
  inv c' fs /\ forall k', bool_decide (k = k') = false -> refs c' k' = refs c k' /\ (cached c k' -> 0 < refs c k' -> cached c' k').
Proof.
  intros I Hn Ht c'. split.
  - apply inv_size, inv_erase; try done. intros k' m. rewrite lookup_delete_Some. tauto.
  - intros k' Hne%bool_decide_eq_false. unfold refs, cached. cbn. by rewrite !lookup_delete_ne.
Qed.

Lemma deletedObject_spec nd k size c fs : inv c fs -> cached c k ->
  wp (deletedObject nd k size) c (fun _ c' => after (DeletedObject k size) c fs c' fs).
Proof.
  intros I [i Hi]. pose proof Hi as Hn. apply (i_map c fs I) in Hn. unfold deletedObject. apply wp_bind, (wp_checked nd); [by rewrite Hi, bool_decide_eq_true_2 by eauto|].
  apply wp_bind, wp_gets. rewrite Hi.
  apply wp_bind. unfold wp at 1. rewrite (node_deref c fs i k I Hn). apply wp_bind, wp_gets.
  destruct (bool_decide_reflect (k ∈ toBeDeleted c)) as [Ht|Ht]; [apply wp_ret; by split|].
  apply wp_bind, wp_modify, wp_bind, wp_modify, wp_bind, wp_modify. unfold sub_size. apply wp_modify.
  by apply (erase_spec k i c fs _ I Hn Ht).
Qed.

Lemma delete_spec k osize j c fs : inv c fs ->
  wp (ifExistsThenDelete k osize j) c (fun _ c' => after (Delete k osize j) c fs c' fs).
Proof.
  intros I. unfold ifExistsThenDelete. apply wp_bind, wp_gets. destruct (m_lru c !! k) as [i|] eqn:Hi.
  2:{ apply wp_bind, wp_modify, wp_ret. split; [by apply inv_size|done]. }
  pose proof Hi as Hn. apply (i_map c fs I) in Hn. apply wp_bind. unfold wp at 1. rewrite (node_deref c fs i k I Hn). apply wp_bind, wp_gets.
  destruct (bool_decide_reflect (k ∈ toBeDeleted c)) as [Ht|Ht]; [apply wp_ret; by split|].
  apply wp_bind, wp_modify, wp_bind, wp_modify, wp_bind, wp_modify, wp_bind, wp_modify, wp_ret.
  by apply (erase_spec k i c fs _ I Hn Ht).
Qed.

(** *** Renaming *)

Definition set_node (i : nat) (k : string) (n : node) : node := if decide (lit n = i) then mkNode i k else n.

Lemma lit_set_node i k n : lit (set_node i k n) = lit n.
Proof. unfold set_node. by case_decide. Qed.

Lemma elem_set_node i k old (l : list node) j k' : mkNode i old ∈ l ->
  mkNode j k' ∈ (set_node i k <$> l) <-> (j = i /\ k' = k) \/ (j <> i /\ mkNode j k' ∈ l).
Proof.
  intros Hold. rewrite list_elem_of_fmap. unfold set_node. split.
  - intros (n & E & Hn). case_decide as Hi; [injection E as -> ->; auto|]. subst n. simpl in Hi. auto.
  - intros [[-> ->]|[Hne Hn]].
    + exists (mkNode i old). split; [by rewrite decide_True|done].
    + exists (mkNode j k'). split; [by rewrite decide_False|done].
Qed.

Definition renamed (i : nat) (old new : string) (c : cache) : cache :=
  mkCache (set_node i new <$> lru c) (<[new := i]> (delete old (m_lru c)))
    (match doNotEvict c !! old with
     | Some n => <[new := n]> (delete old (doNotEvict c))
     | None => delete old (doNotEvict c)
     end)
    (if bool_decide (old ∈ toBeDeleted c) then {[new]} ∪ toBeDeleted c ∖ {[old]} else toBeDeleted c ∖ {[old]})
    (maxCacheSize c) (currentCacheSize c) (next c).

Lemma tbd_cached c fs k : inv c fs -> k ∈ toBeDeleted c -> cached c k.
Proof. intros I (f & _ & Hn)%(i_tbd c fs I). exists (it f). by apply (i_map c fs I). Qed.

Lemma inv_renamed i old new c fs : inv c fs -> mkNode i old ∈ lru c -> m_lru c !! new = None -> inv (renamed i old new c) fs.
Proof.
  intros I Hn Hnew. pose proof (i_lits c fs I) as Hl.
  assert (m_lru c !! old = Some i) as Hold by (by apply (i_map c fs I)).
  assert (new ∉ toBeDeleted c) as Ht by (intros Ht%(tbd_cached c fs _ I); by destruct Ht; congruence).
  assert (forall k, k ∈ toBeDeleted (renamed i old new c) <-> (k = new /\ old ∈ toBeDeleted c) \/ (k <> old /\ k ∈ toBeDeleted c)) as Htbd.
  { intros k. cbn. destruct (bool_decide_reflect (old ∈ toBeDeleted c)) as [Ho|Ho]; set_solver. }
  split.
  - cbn. rewrite <- list_fmap_compose. rewrite (list_fmap_ext _ lit); [done|]. intros _ n _. apply lit_set_node.
  - intros k j. cbn. rewrite (elem_set_node _ _ _ _ _ _ Hn), lookup_insert_Some, lookup_delete_Some, (i_map c fs I). split.
    + intros [[<- <-]|(Hne & Hne' & Hk)]; [by left|right]. split; [|done]. intros ->. apply Hne'. by eapply same_lit.
    + intros [[-> ->]|[Hne Hk]]; [by left|right]. split_and!; [|..|done].
      * intros <-. apply (i_map c fs I) in Hk. congruence.
      * intros <-. apply Hne. apply (i_map c fs I) in Hk. congruence.
  - intros n. cbn. intros (n' & -> & Hn')%list_elem_of_fmap. rewrite lit_set_node. by apply I.
  - apply I.
  - intros f Hf. destruct (i_flushed c fs I f Hf) as (k & Hk & Hkt). setoid_rewrite Htbd. cbn. destruct (decide (it f = i)) as [E|E].
    + exists new. rewrite (elem_set_node _ _ _ _ _ _ Hn). split; [by left|left]. split; [done|]. rewrite E in Hk.
      by assert (old = k) as -> by (by eapply same_lit).
    + exists k. rewrite (elem_set_node _ _ _ _ _ _ Hn). split; [by right|right]. split; [|done]. intros ->.
      apply (i_map c fs I) in Hk. congruence.
  - intros k. rewrite Htbd. cbn. setoid_rewrite (elem_set_node _ _ _ _ _ _ Hn). intros [[-> Hk]|[Hne Hk]].
    + destruct (i_tbd c fs I old Hk) as (f & Hf & Hfn). exists f. split; [done|left]. split; [|done].
      apply (i_map c fs I) in Hfn. congruence.
    + destruct (i_tbd c fs I k Hk) as (f & Hf & Hfn). exists f. split; [done|right]. split; [|done]. intros E. rewrite E in Hfn.
      apply Hne. by eapply same_lit.
  - intros k n. cbn. destruct (doNotEvict c !! old) as [r|] eqn:Er.
    + rewrite lookup_insert_Some, lookup_delete_Some. intros [[<- <-]|(_ & _ & Hk)]; by eapply I.
    + rewrite lookup_delete_Some. intros [_ Hk]. by eapply I.
Qed.

Lemma rename_runs old new d c fs i : inv c fs -> mkNode i old ∈ lru c -> m_lru c !! new = None -> doNotEvict c !! new = None ->
  rename old new d c = (Val tt, with_size (u64 (currentCacheSize c + d)) (renamed i old new c)).
Proof.
  intros I Hn Hnew Hdne. assert (m_lru c !! old = Some i) as Hold by (by apply (i_map c fs I)).
  unfold rename. rewrite (bind_Val _ _ c (Some i) c) by (unfold gets; by rewrite Hold). unfold m_lru_erase.
  rewrite (bind_Val _ _ c tt (with_lru (lru c) (delete old (m_lru c)) c)) by done.
  set (c1 := with_lru (lru c) (delete old (m_lru c)) c).
  assert (deref i c1 = (Val old, c1)) as Hd.
  { pose proof (node_deref c fs i old I Hn) as Hd. unfold deref, lift in *. injection Hd as Hd. cbn. by rewrite Hd. }
  rewrite (bind_Val _ _ _ _ _ Hd). rewrite (bind_Val _ _ c1 (default 0 (doNotEvict c !! old)) c1) by done.
  unfold dne_erase. rewrite (bind_Val _ _ c1 tt (with_dne (delete old (doNotEvict c)) c1)) by done.
  set (c2 := with_dne (delete old (doNotEvict c)) c1).
  rewrite (bind_Val _ _ c2 (bool_decide (old ∈ toBeDeleted c)) c2) by done.
  unfold tbd_erase, set_key. rewrite (bind_Val _ _ c2 tt (with_tbd (toBeDeleted c ∖ {[old]}) c2)) by done.
  set (c3 := with_tbd (toBeDeleted c ∖ {[old]}) c2).
  rewrite (bind_Val _ _ c3 tt (with_lru (set_node i new <$> lru c) (delete old (m_lru c)) c3)) by done.
  set (c4 := with_lru (set_node i new <$> lru c) (delete old (m_lru c)) c3).
  assert (delete old (m_lru c) !! new = None) as Hm by (by apply lookup_delete_None; right).
  assert (old <> new) as Hne by congruence.
  unfold renamed, add_size. unfold mbind, M_bind, modify.
  destruct (bool_decide (old ∈ toBeDeleted c)), (doNotEvict c !! old) as [n|] eqn:En; cbn [default from_option id];
    try (pose proof (i_dne c fs I old n En); destruct (Z.eqb_spec n 0); [lia|]); cbn [Z.eqb negb]; cbn -[union singleton difference];
    rewrite Hm; done.
Qed.

Lemma rename_spec old new d c fs : inv c fs -> m_lru c !! new = None -> doNotEvict c !! new = None ->
  wp (rename old new d) c (fun _ c' => after (Rename old new d) c fs c' fs).
Proof.
  intros I Hnew Hdne. destruct (m_lru c !! old) as [i|] eqn:Hold.
  2:{ unfold rename. apply wp_bind, wp_gets. rewrite Hold. by apply wp_ret. }
  pose proof Hold as Hn. apply (i_map c fs I) in Hn. unfold wp. rewrite (rename_runs old new d c fs i I Hn Hnew Hdne).
  split; [by apply inv_size, inv_renamed|]. intros k [H1%bool_decide_eq_false H2%bool_decide_eq_false]%orb_false_iff.
  unfold refs, cached. cbn. rewrite lookup_insert_ne, lookup_delete_ne by done. split; [|done].
  destruct (doNotEvict c !! old); [rewrite lookup_insert_ne by done|]; by rewrite lookup_delete_ne.
Qed.

(** *** Eviction *)

Lemma resume_space_spec j f flushed n c fs : inv c fs -> fs !! j = Some f ->
  wp (resume_space f flushed n) c (fun r c' => after (Resume j flushed n) c fs c' (joins (delete j fs) r)).
Proof.
  intros I Hj. destruct (i_flushed c fs I f) as (k & Hn & Ht); [by eapply list_elem_of_lookup_2|].
  unfold resume_space. apply wp_bind. unfold wp at 1. rewrite (node_deref c fs _ k I Hn).
  pose proof (inv_unflush c fs j f k I Hj Hn) as I1.
  assert (wp (tbd_erase k ;; pick (thisMuch f) (newMax f)) c
    (fun r c' => after (Resume j flushed n) c fs c' (joins (delete j fs) r))) as Hspare.
  { apply wp_bind, wp_modify. eapply wp_mono; [by apply (pick_spec _ _ _ (delete j fs))|]. intros r c' (I2 & M2 & D2).
    split; [done|]. intros k' _. unfold refs, cached. by rewrite M2, D2. }
  destruct flushed; [|done]. cbn [negb]. apply wp_bind, wp_gets. destruct (bool_decide_reflect (is_Some (doNotEvict c !! k))) as [Hp|Hp]; [done|].
  apply wp_bind, wp_modify, wp_bind, wp_modify, wp_bind, wp_modify, wp_bind, wp_gets.
  assert (k ∉ toBeDeleted (with_tbd (toBeDeleted c ∖ {[k]}) c)) as Hk by (cbn; set_solver).
  pose proof (inv_erase _ _ _ _ (doNotEvict c) I1 Hn Hk ltac:(done)) as I2.
  assert (forall s much, wp (modify (with_size s) ;; pick much (newMax f))
     (with_lru (filter (fun n => lit n <> it f) (lru c)) (delete k (m_lru c)) (with_tbd (toBeDeleted c ∖ {[k]}) c))
    (fun r c' => after (Resume j true n) c fs c' (joins (delete j fs) r))) as Hgone.
  { intros s much. apply wp_bind, wp_modify. eapply wp_mono; [apply (pick_spec _ _ _ (delete j fs)); by apply inv_size|].
    intros r c' (I3 & M3 & D3). split; [done|]. intros k' _. unfold refs, cached. rewrite M3, D3. cbn. split; [done|].
    intros Hc Hr. destruct (decide (k' = k)) as [->|Hne]; [|by rewrite lookup_delete_ne].
    exfalso. apply Hp. destruct (doNotEvict c !! k); [eauto|done]. }
  destruct (n <? _); apply Hgone.
Qed.

(** *** Every label *)

Lemma start_after {A} (m : M cache A) fs fs0 (of_ : A -> option frame) l c :
  wp m c (fun a c' => after l c fs c' (joins fs0 (of_ a))) ->
  exists c' fs', start m fs0 of_ c = Val (c', fs') /\ after l c fs c' fs'.
Proof. unfold wp, start. destruct (m c) as [[a| |] c']; try done. intros Ha. by exists c', (joins fs0 (of_ a)). Qed.

Lemma joins_none fs : joins fs None = fs.
Proof. apply app_nil_r. Qed.

Lemma space_after l size max c c1 fs : inv c1 fs ->
  (forall k, refs c1 k = refs_after l k (refs c k) /\ (cached c k -> 0 < refs c k -> cached c1 k)) ->
  wp (_makeSpace size max) c1 (fun r c' => after l c fs c' (joins fs (id r))).
Proof.
  intros I Hk. unfold _makeSpace. apply wp_bind, wp_gets. eapply wp_mono; [by apply (pick_spec _ _ c1 fs)|].
  intros r c' (I' & M' & D'). split; [done|]. intros k _. specialize (Hk k). unfold refs, cached in *. by rewrite M', D'.
Qed.

Lemma exec_spec nd l c fs : inv c fs -> admissible l c ->
  exists c' fs', exec nd l (c, fs) = Val (c', fs') /\ after l c fs c' fs'.
Proof.
  intros I Ha. destruct l as [p keys|keys got|keys| |k n|n|n|k n|k n j|k k' d|n|i b n]; simpl in Ha; cbn [exec].
  - apply start_after. rewrite joins_none. eapply wp_mono; [by apply (read_mark_spec p keys c fs)|]. intros ? c' (I' & S' & R').
    split; [done|]. intros k _. split; [apply R'|]. unfold cached. by destruct S' as (_ & -> & _).
  - apply start_after. rewrite joins_none. unfold read_fetched. apply wp_bind. eapply wp_mono; [by apply (read_add_spec got c fs)|].
    intros sum c1 (I1 & D1 & K1). apply wp_bind. eapply wp_mono; [by apply (move_back_spec keys c1 fs)|]. intros ? c2 (I2 & S2 & D2).
    apply wp_modify. split; [by apply inv_size|]. intros k _. unfold refs, cached in *. cbn. rewrite D2, D1. destruct S2 as (_ & -> & _). auto.
  - apply start_after. unfold doneReading. apply wp_bind. eapply wp_mono; [by apply (unmark_spec keys c fs)|]. intros ? c1 (I1 & S1 & R1).
    apply space_after; [done|]. intros k. split; [apply R1|]. unfold cached. by destruct S1 as (_ & -> & _).
  - apply start_after. unfold doneWriting. apply space_after; [done|]. by intros k.
  - apply start_after. rewrite joins_none. unfold newObject. apply wp_bind, (wp_checked nd); [by rewrite Ha, bool_decide_eq_true_2|].
    apply wp_bind. eapply wp_mono; [by apply (push_back_spec k c fs)|].
    intros ? c1 (I1 & M1 & D1). apply wp_modify. split; [by apply inv_size|]. intros k' _. unfold refs, cached. cbn. rewrite D1, M1. split; [done|].
    intros Hc _. destruct (decide (k = k')) as [->|Hne]; [by rewrite lookup_insert_eq|by rewrite lookup_insert_ne].
  - apply start_after. rewrite joins_none. apply wp_modify. split; [by apply inv_size|done].
  - apply start_after. rewrite joins_none. apply wp_modify. split; [by apply inv_size|done].
  - apply start_after. rewrite joins_none. by apply deletedObject_spec.
  - apply start_after. rewrite joins_none. by apply delete_spec.
  - apply start_after. rewrite joins_none. destruct Ha. by apply rename_spec.
  - apply start_after. unfold setMaxCacheSize. apply wp_bind, wp_gets. destruct (n <? maxCacheSize c); [apply space_after; [done|by intros k]|].
    apply wp_bind, wp_modify, wp_ret. cbn [id]. rewrite joins_none. split; [by apply inv_max|done].
  - destruct (fs !! i) as [f|] eqn:Hi; [|by exists c, fs]. apply start_after. by apply resume_space_spec.
Qed.

(** Sequences of labels, each of them admissible when it comes. *)
Fixpoint exec_all (nd : bool) (ls : list label) (s : sys) : outcome sys :=
  match ls with [] => Val s | l :: ls => s' ← exec nd l s; exec_all nd ls s' end.

Fixpoint all_admissible (nd : bool) (ls : list label) (s : sys) : Prop :=
  match ls with
  | [] => True
  | l :: ls => admissible l s.1 /\ forall s', exec nd l s = Val s' -> all_admissible nd ls s'
  end.

Lemma exec_all_spec nd ls c fs : inv c fs -> all_admissible nd ls (c, fs) ->
  exists c' fs', exec_all nd ls (c, fs) = Val (c', fs') /\ inv c' fs'.
Proof.
  revert c fs. induction ls as [|l ls IH]; intros c fs I Ha; [by exists c, fs|]. destruct Ha as [Hl Hls].
  destruct (exec_spec nd l c fs I Hl) as (c1 & fs1 & E & (I1 & _)). cbn [exec_all mbind outcome_bind]. rewrite E.
  apply IH; [done|]. by apply Hls.
Qed.

(** How the number of readers of [k] changes. *)
Definition readers (k : string) (l : label) : Z :=
  match l with Read _ keys => occ k keys | DoneReading keys => - occ k keys | _ => 0 end.

Definition balance (k : string) (ls : list label) : Z := foldr (fun l n => readers k l + n) 0 ls.

Lemma refs_readers l k n : 0 <= n -> 0 <= n + readers k l -> refs_after l k n = n + readers k l.
Proof. destruct l; simpl; lia. Qed.

Lemma pinned_stays nd ls c fs k : inv c fs -> all_admissible nd ls (c, fs) -> cached c k -> 0 < refs c k ->
  Forall (fun l => touches l k = false) ls ->
  (forall j, (j <= length ls)%nat -> 0 < refs c k + balance k (take j ls)) ->
  exists c' fs', exec_all nd ls (c, fs) = Val (c', fs') /\ inv c' fs' /\ cached c' k /\ refs c' k = refs c k + balance k ls.
Proof.
  revert c fs. induction ls as [|l ls IH]; intros c fs I Ha Hc Hr Ht Hb.
  { exists c, fs. split_and!; try done. simpl. lia. }
  destruct Ha as [Hl Hls]. apply Forall_cons in Ht as [Htl Htls].
  destruct (exec_spec nd l c fs I Hl) as (c1 & fs1 & E & (I1 & Hk)). destruct (Hk k Htl) as [Hr1 Hc1].
  pose proof (Hb 1%nat ltac:(simpl; lia)) as H1. simpl in H1.
  rewrite refs_readers in Hr1 by lia. cbn [exec_all mbind outcome_bind]. rewrite E.
  destruct (IH c1 fs1 I1 (Hls _ E) (Hc1 Hc Hr) ltac:(lia) Htls) as (c2 & fs2 & E2 & I2 & Hc2 & Hr2).
  - intros j Hj. pose proof (Hb (S j) ltac:(simpl; lia)) as Hj'.
    change (balance k (take (S j) (l :: ls))) with (readers k l + balance k (take j ls)) in Hj'. lia.
  - exists c2, fs2. split_and!; try done. rewrite Hr2, Hr1. cbn [balance foldr]. unfold balance. lia.
Qed.

End SmCacheThms.

(** ** Properties *)
Module SmCacheClaims.
Import SmCache SmCacheThms.

Definition empty_cache (max : Z) : cache := mkCache [] ∅ ∅ ∅ max 0 0.

Lemma empty_inv max : inv (empty_cache max) [].
Proof.
  split; cbn; try by constructor.
  - intros k i. rewrite lookup_empty. split; [done|]. by intros ?%not_elem_of_nil.
  - by intros n ?%not_elem_of_nil.
  - by intros f ?%not_elem_of_nil.
  - by intros k ?%not_elem_of_empty.
Qed.

Lemma populate_files_spec files c : inv c [] -> NoDup files.*1 -> (forall k, k ∈ files.*1 -> m_lru c !! k = None) ->
  wp (for_each files (fun x => push_back x.1 ;; add_size x.2)) c (fun _ c' => inv c' []).
Proof.
  revert c. induction files as [|[k n] files IH]; intros c I Hnd Hno; [by apply wp_ret|]. simpl in Hnd. apply NoDup_cons in Hnd as [Hk Hnd].
  cbn [for_each]. apply wp_bind, wp_bind. eapply wp_mono; [apply (push_back_spec k c [] I), Hno; by left|].
  intros ? c1 (I1 & M1 & _). apply wp_modify. apply IH; [by apply inv_size|done|]. intros k' Hk'. cbn. rewrite M1.
  rewrite lookup_insert_ne by (intros ->; done). apply Hno. by right.
Qed.

Lemma populate_spec files journals max : NoDup files.*1 -> wp (populate files journals) (empty_cache max) (fun _ c' => inv c' []).
Proof.
  intros Hnd. unfold populate. apply wp_bind. eapply wp_mono; [apply populate_files_spec; [apply empty_inv|done|]|].
  { intros k _. apply lookup_empty. }
  intros ? c I. revert c I. induction journals as [|n journals IH]; intros c I; [by apply wp_ret|]. cbn [for_each].
  apply wp_bind, wp_modify. by apply IH, inv_size.
Qed.

(** C19. Started on directories with any files, and however the calls interleave, calls of
    _makeSpace that have given up the mutex included, the cache's structures agree: a call
    never follows an iterator to an erased node, every key has one node and is found, two
    calls never evict the same object, and the set of objects being evicted is that of the
    calls under way.  What the callers have to respect: newObject, rename and finished
    downloads bring in names that the cache does not have (rename also one that nobody is
    waiting for), deletedObject names an object of the cache, and no object is read 2^32
    times at once.  A caller that does not respect the first trips an assertion or, compiled
    without assertions, breaks the structures ([second_node]). *)
Theorem cache_stays_consistent (nd : bool) (max : Z) (files : list (string * Z)) (journals : list Z) (ls : list label) :
  NoDup files.*1 -> all_admissible nd ls ((populate files journals (empty_cache max)).2, []) ->
  exists c0 c fs, populate files journals (empty_cache max) = (Val tt, c0) /\
    exec_all nd ls (c0, []) = Val (c, fs) /\ inv c fs.
Proof.
  intros Hnd Ha. pose proof (populate_spec files journals max Hnd) as Hp. unfold wp in Hp.
  destruct (populate files journals (empty_cache max)) as [[[]| |] c0]; try done.
  destruct (exec_all_spec nd ls c0 [] Hp Ha) as (c & fs & E & I). by exists c0, c, fs.
Qed.

(** newObject with a key the cache has: the assertion fails; without assertions the key gets
    a second node, which [m_lru] does not find.  (The log message says that this happened.) *)
Lemma second_node (k : string) (size : Z) (c : cache) (fs : list frame) : inv c fs -> cached c k ->
  (newObject false k size c).1 = Exn idb_assert /\
  exists c' i, newObject true k size c = (Val tt, c') /\ m_lru c' !! k = Some i /\
    mkNode i k ∈ lru c' /\ mkNode (next c) k ∈ lru c' /\ i <> next c /\ ~ inv c' fs.
Proof.
  intros I [i Hi]. pose proof Hi as Hn. apply (i_map c fs I) in Hn. pose proof (i_next c fs I _ Hn) as Hlt. simpl in Hlt. split.
  - unfold newObject, mbind, M_bind, idbassert. rewrite bool_decide_eq_false_2 by congruence. done.
  - eexists _, i. split; [done|]. cbn. rewrite Hi.
    assert (mkNode (next c) k ∈ lru c ++ [mkNode (next c) k]) as Hnew by (apply elem_of_app; right; by apply list_elem_of_singleton).
    split_and!; [done|apply elem_of_app; by left|done|lia|]. intros I'.
    apply (i_map _ _ I') in Hnew. cbn in Hnew. rewrite Hi in Hnew. injection Hnew as ->. lia.
Qed.

(** C20. An object that is being read is not evicted: from a call of read on, as long as
    fewer calls of doneReading than of read have named it, and nobody deletes or renames
    it, it stays in the cache, whatever is evicted meanwhile (the callers respect what C19
    asks of them). *)
Theorem read_objects_stay (nd : bool) (c : cache) (fs : list frame) (p : string -> bool) (keys : list string) (k : string) (ls : list label) :
  inv c fs -> cached c k -> k ∈ keys -> all_admissible nd (Read p keys :: ls) (c, fs) ->
  Forall (fun l => touches l k = false) ls -> (forall j, (j <= length ls)%nat -> 0 < occ k keys + balance k (take j ls)) ->
  exists c' fs', exec_all nd (Read p keys :: ls) (c, fs) = Val (c', fs') /\ cached c' k.
Proof.
  intros I Hc Hin [Ha Hls] Ht Hb. destruct (exec_spec nd (Read p keys) c fs I Ha) as (c1 & fs1 & E & (I1 & Hk)).
  destruct (Hk k eq_refl) as [Hr1 _]. simpl in Hr1. pose proof (refs_bounds c fs k I).
  assert (cached c1 k) as Hc1.
  { cbn [exec] in E. unfold start in E. pose proof (read_mark_spec p keys c fs I Ha) as Hw. unfold wp in Hw.
    destruct (read_mark p keys c) as [[a| |] c1']; try done. injection E as <- _. unfold cached. by destruct Hw as (_ & (_ & -> & _) & _). }
  pose proof (Hb 0%nat ltac:(lia)) as H0. simpl in H0.
  destruct (pinned_stays nd ls c1 fs1 k I1 (Hls _ E) Hc1 ltac:(lia) Ht) as (c2 & fs2 & E2 & _ & Hc2 & _).
  { intros j Hj. specialize (Hb j Hj). lia. }
  exists c2, fs2. cbn [exec_all mbind outcome_bind]. by rewrite E.
Qed.

(** C40. When an object is renamed between read and doneReading, its reference moves to the
    new name and doneReading, which is called with the old one, does not find it: the object
    stays in the cache with a reference nobody holds, whatever calls follow, until one
    deletes or renames it or calls doneReading with the new name without having read it.
    (The callers respect what C19 asks of them.) *)
Theorem rename_leaks_reference (nd : bool) (c : cache) (fs : list frame) (p : string -> bool) (k k' : string) (d : Z) (ls : list label) :
  inv c fs -> cached c k -> refs c k = 0 -> k' <> k ->
  all_admissible nd (Read p [k] :: Rename k k' d :: DoneReading [k] :: ls) (c, fs) ->
  Forall (fun l => touches l k' = false) ls -> (forall j, (j <= length ls)%nat -> 0 <= balance k' (take j ls)) ->
  exists c' fs', exec_all nd (Read p [k] :: Rename k k' d :: DoneReading [k] :: ls) (c, fs) = Val (c', fs') /\
    cached c' k' /\ 0 < refs c' k'.
Proof.
  intros I [i Hi] Hr Hne (Ha1 & Hls1) Ht Hb.
  destruct (exec_spec nd (Read p [k]) c fs I Ha1) as (c1 & fs1 & E1 & (I1 & Hk1)). destruct (Hls1 _ E1) as [Ha2 Hls2].
  destruct (Hk1 k eq_refl) as [Hr1 _]. simpl in Hr1. unfold bump in Hr1. rewrite decide_True in Hr1 by done.
  assert (m_lru c1 !! k = Some i) as Hi1.
  { cbn [exec] in E1. unfold start in E1. pose proof (read_mark_spec p [k] c fs I Ha1) as Hw. unfold wp in Hw.
    destruct (read_mark p [k] c) as [[a| |] c1']; try done. injection E1 as <- _. by destruct Hw as (_ & (_ & -> & _) & _). }
  pose proof Hi1 as Hn1. apply (i_map c1 fs1 I1) in Hn1. destruct Ha2 as [Hm1 Hd1].
  set (c2 := with_size (u64 (currentCacheSize c1 + d)) (renamed i k k' c1)).
  assert (exec nd (Rename k k' d) (c1, fs1) = Val (c2, fs1)) as E2.
  { cbn [exec]. unfold start. rewrite (rename_runs k k' d c1 fs1 i I1 Hn1 Hm1 Hd1). by rewrite app_nil_r. }
  assert (inv c2 fs1) as I2 by (by apply inv_size, inv_renamed).
  assert (refs c2 k' = 1 /\ cached c2 k') as [Hr2 Hc2].
  { unfold refs, cached, c2 in *. cbn. rewrite lookup_insert_eq. split; [|by eexists].
    destruct (doNotEvict c1 !! k) as [n|]; simpl in Hr1; [|lia]. rewrite lookup_insert_eq. simpl. lia. }
  pose proof (Hls2 _ E2) as Ha3.
  destruct (pinned_stays nd (DoneReading [k] :: ls) c2 fs1 k' I2 Ha3 Hc2 ltac:(lia)) as (c3 & fs3 & E3 & I3 & Hc3 & Hr3).
  - by constructor.
  - intros [|j] Hj; [simpl; lia|]. simpl in Hj. specialize (Hb j ltac:(lia)).
    change (balance k' (take (S j) (DoneReading [k] :: ls))) with (- (bump k' k + 0) + balance k' (take j ls)). unfold bump. rewrite decide_False by done. lia.
  - exists c3, fs3. split; [|split; [done|]].
    + cbn [exec_all mbind outcome_bind] in *. rewrite E1. cbn [mbind outcome_bind]. rewrite E2. exact E3.
    + rewrite Hr3, Hr2. change (balance k' (DoneReading [k] :: ls)) with (- (bump k' k + 0) + balance k' ls). unfold bump. rewrite decide_False by done.
      specialize (Hb (length ls) ltac:(lia)). rewrite firstn_all in Hb. lia.
Qed.

(** When an object cannot be flushed, _makeSpace chooses the same object again, in the same
    state: the call never ends while the failure lasts. *)
Theorem failed_flush_spins (much : Z) (max : option Z) (c c1 : cache) (fs : list frame) (f : frame) (n : Z) : inv c fs ->
  pick much max c = (Val (Some f), c1) -> resume_space f false n c1 = (Val (Some f), c1).
Proof.
  intros I. unfold pick at 1. unfold mbind, M_bind, gets. destruct (0 <? much) eqn:Em; [|by destruct max].
  destruct (list_find (evictable c) (lru c)) as [[a [i k]]|] eqn:E; [|by destruct max]. cbn. intros [= <- <-].
  pose proof E as (Ha & (_ & Ht) & _)%list_find_Some. simpl in Ht. pose proof (list_elem_of_lookup_2 _ _ _ Ha) as Hn.
  unfold resume_space. cbn [it thisMuch newMax negb].
  assert (deref i (with_tbd ({[k]} ∪ toBeDeleted c) c) = (Val k, with_tbd ({[k]} ∪ toBeDeleted c) c)) as Hd.
  { pose proof (node_deref c fs i k I Hn) as Hd. unfold deref, lift in *. injection Hd as Hd. cbn. by rewrite Hd. }
  rewrite (bind_Val _ _ _ _ _ Hd).
  assert (with_tbd (toBeDeleted (with_tbd ({[k]} ∪ toBeDeleted c) c) ∖ {[k]}) (with_tbd ({[k]} ∪ toBeDeleted c) c) = c) as Hc.
  { destruct c. unfold with_tbd. cbn in *. f_equal. set_solver. }
  unfold tbd_erase. rewrite (bind_Val _ _ _ tt c) by (unfold modify; by rewrite Hc).
  unfold pick, mbind, M_bind, gets. rewrite Em, E. done.
Qed.

(** *** Concrete sequences *)

Definition admissible_b (l : label) (c : cache) : bool :=
  match l with
  | Read _ keys => bool_decide (map_Forall (fun _ n => n + zlen keys < 2 ^ 32) (doNotEvict c)) && (zlen keys <? 2 ^ 32)
  | Fetched _ got => bool_decide (NoDup (new_keys got)) && bool_decide (Forall (fun k => m_lru c !! k = None) (new_keys got))
  | NewObject k _ => bool_decide (m_lru c !! k = None)
  | DeletedObject k _ => bool_decide (is_Some (m_lru c !! k))
  | Rename _ k' _ => bool_decide (m_lru c !! k' = None) && bool_decide (doNotEvict c !! k' = None)
  | _ => true
  end.

Fixpoint all_admissible_b (nd : bool) (ls : list label) (s : sys) : bool :=
  match ls with
  | [] => true
  | l :: ls => admissible_b l s.1 && match exec nd l s with Val s' => all_admissible_b nd ls s' | _ => true end
  end.

Lemma admissible_b_ok l c : admissible_b l c = true -> admissible l c.
Proof.
  destruct l; simpl; rewrite ?andb_true_iff, ?bool_decide_eq_true; try done.
  - intros [Hm Hz%Z.ltb_lt] k. unfold refs. destruct (doNotEvict c !! k) as [n|] eqn:E; simpl; [by apply (Hm k n)|lia].
  - intros [Hnd Hf]. split; [done|]. by apply Forall_forall.
Qed.

Lemma all_admissible_b_ok nd ls s : all_admissible_b nd ls s = true -> all_admissible nd ls s.
Proof.
  revert s. induction ls as [|l ls IH]; intros s; simpl; [done|]. intros [Hl%admissible_b_ok Hls]%andb_true_iff.
  split; [done|]. intros s' E. rewrite E in Hls. by apply IH.
Qed.

Definition state_of (o : outcome sys) : sys := match o with Val s => s | _ => (empty_cache 0, []) end.

Lemma state_inv nd max ls (s := state_of (exec_all nd ls (empty_cache max, []))) :
  all_admissible_b nd ls (empty_cache max, []) = true -> inv s.1 s.2.
Proof.
  intros Ha%all_admissible_b_ok. destruct (exec_all_spec nd ls _ _ (empty_inv max) Ha) as (c & fs & E & I). unfold s. by rewrite E.
Qed.

(** Two objects in a cache with room for one: the older is being evicted. *)
Definition filled : list label := [NewObject "a" 5; NewObject "b" 5; DoneWriting].
Definition s_filled : sys := state_of (exec_all false filled (empty_cache 6, [])).

(** A third object lies in the directory at the start; a download that finishes after
    another call's brought the object has size 0. *)
Definition later : list label := filled ++ [Resume 0 true 7; Rename "b" "c" 1; Fetched ["c"] [("c", 0)]].

Lemma cache_stays_consistent_witness :
  exists c0 c fs, populate [("z", 7)] [2] (empty_cache 6) = (Val tt, c0) /\ exec_all false later (c0, []) = Val (c, fs) /\ inv c fs.
Proof.
  apply (cache_stays_consistent false 6 [("z", 7)] [2] later); [apply NoDup_singleton|].
  apply all_admissible_b_ok. vm_compute. reflexivity.
Defined.

(** A reader comes while the object is being flushed; the other object goes instead. *)
Definition meanwhile : list label := [Resume 0 true 5; Resume 0 true 5; NewObject "c" 3; DoneWriting].

Lemma read_objects_stay_witness :
  exists c' fs', exec_all false (Read (fun _ => false) ["a"] :: meanwhile) (s_filled.1, s_filled.2) = Val (c', fs') /\ cached c' "a".
Proof.
  apply (read_objects_stay false s_filled.1 s_filled.2 (fun _ => false) ["a"] "a" meanwhile).
  - apply (state_inv false). vm_compute. reflexivity.
  - exists 0%nat. vm_compute. reflexivity.
  - by left.
  - apply all_admissible_b_ok. vm_compute. reflexivity.
  - repeat constructor.
  - intros j Hj. do 5 (destruct j as [|j]; [vm_compute; reflexivity|]). simpl in Hj. lia.
Defined.

Lemma other_goes : lru (state_of (exec_all false (Read (fun _ => false) ["a"] :: take 2 meanwhile) s_filled)).1 = [mkNode 0 "a"].
Proof. by vm_compute. Qed.

Definition s_one : sys := state_of (exec_all false [NewObject "a" 5] (empty_cache 6, [])).
Definition afterwards : list label := [NewObject "b" 9; DoneWriting; Resume 0 true 9; DoneWriting].

Lemma rename_leaks_reference_witness :
  exists c' fs', exec_all false (Read (fun _ => false) ["a"] :: Rename "a" "a2" 0 :: DoneReading ["a"] :: afterwards) (s_one.1, s_one.2) =
      Val (c', fs') /\ cached c' "a2" /\ 0 < refs c' "a2".
Proof.
  apply (rename_leaks_reference false s_one.1 s_one.2 (fun _ => false) "a" "a2" 0 afterwards).
  - apply (state_inv false). vm_compute. reflexivity.
  - exists 0%nat. vm_compute. reflexivity.
  - vm_compute. reflexivity.
  - discriminate.
  - apply all_admissible_b_ok. vm_compute. reflexivity.
  - repeat constructor.
  - intros j Hj. do 5 (destruct j as [|j]; [vm_compute; discriminate|]). simpl in Hj. lia.
Defined.

End SmCacheClaims.
